(* ===== verification/_CoqProject ===== *)
-Q . S2P
Prelude.v
DList.v
Pmm.v
PmmInv.v
PmmInit.v
PmmThm.v
Frames.v
Vmm.v
VmmInv.v
VmmThm.v
PageMap.v
Slab.v
SlabInv.v
SlabOps.v
SlabThm.v
KHeap.v
Vma.v
VmaInv.v
VmaThm.v
As.v
AsInv.v
Cow.v
AsDestroy.v
AsSys.v
AsPage.v
AsClone.v
AsFork.v
AsDemo.v
CString.v
CStringThm.v
CFormat.v
Cmdline.v
Block.v
BlockIO.v
BlockReg.v
IoSched.v
BlockDemo.v
Rwlock.v
UAccess.v
Sched.v
SchedQueue.v
SchedThm.v
SchedLive.v
SchedBalance.v
SchedCreate.v
SchedInit.v
SchedDemo.v
Ipc.v
MqThm.v
SemThm.v
IpcDemo.v
Process.v
ProcSys.v
ProcThm.v
SignalThm.v
ProcTable.v
Creds.v
Sessions.v
SyscallEntry.v
ProcDemo.v
FsObj.v
FdTable.v
Pipe.v
Ramfs.v
Vfs.v
VfsFile.v
FsInv.v
PipeThm.v
FsBoot.v
PipeCreate.v
FdShare.v
RamfsThm.v
RamfsWrite.v
VfsIO.v
RamfsTree.v
RamfsUnlink.v
VfsLookup.v
FsDemo.v
