(* ===== verification/Prelude.v ===== *)
(** * Verification of the Kurios2 kernel

    Kurios2 is a kernel for x86_64 written in C.  This development models its
    memory management, address spaces, scheduler, processes and signals,
    interprocess communication, file layer, block layer, string library, command
    line and locks, and proves what these parts promise to each other.  Paths
    are relative to src/kernel/.

    ** Parts and their interaction

    The physical memory manager (mm/pmm.c) hands out page frames.  The virtual
    memory manager (mm/vmm.c) takes frames for page tables and maps pages.  The
    kernel heap (mm/slab.c) maps frames at kernel addresses and hands out
    objects.  Address spaces (mm/as.c) are page tables made of frames, with a
    list of areas (mm/vma.c) in the heap; the fault handler (mm/fault.c) copies
    their shared pages on the first write.  Threads (sched/) live in the heap and
    take turns on the processors.  Processes (process/) own signal state
    (signal/), which the system calls (syscall/) change and which is delivered
    on the way back to the program, through its memory (mm/uaccess.c).
    Semaphores and message queues (ipc/) and everything in the file layer live
    in objects of the heap.  The file layer is the virtual file system
    (fs/vfs.c), descriptor tables (fs/fd_table.c), pipes (fs/pipe.c) and the RAM
    file system (fs/ramfs.c), which call each other through tables of
    operations.  The block layer (drivers/block.c, drivers/partition.c,
    drivers/io_sched.c) checks and translates what is read from and written to
    disks.  The string library (lib/string.c) serves the command line
    (cmdline.c) and the others.  Locks (sync/) stand alone.

    Where one part uses another the theorems of the user are proved against a
    type class of operations and laws, and the part below is an instance:
    - [FrameAlloc] and [FrameLaws] (Frames.v), given by the physical memory
      manager, used by the virtual memory manager and by address spaces;
    - [FrameRefs] and [FrameRefsLaws] (Frames.v), the reference counts of frames,
      given by the physical memory manager, used by address spaces;
    - [PageMapper] and [PageMapperLaws] (PageMap.v), given by the virtual memory
      manager, used by the heap;
    - [KHeap] and [KHeapLaws] (KHeap.v), given by the slab allocator, used by
      areas, threads, interprocess communication, the file and the block layer;
    - [Drivers] (FsObj.v), the operation tables behind the pointers of nodes,
      given by the RAM file system and pipes (VfsFile.v); tables of drivers that
      are not modelled are parameters there;
    - [DiskDriver] (Block.v) and [DiskLaws] (BlockIO.v), what is relied on of the
      driver of a disk; a disk in memory (BlockDemo.v) meets the laws.

    ** Style of the model

    Code is a function of a state monad with faults, [M S A := S → option (A * S)]
    below: [None] is an access outside the memory that is there, a call of panic,
    or an overflow the language leaves undefined.  [wp c Q s] says that the run
    of [c] from [s] does not fault and ends as [Q] says, so every theorem of that
    form includes the absence of faults.  Unsigned integers are [Z] with the
    wrap-around written where the code computes; arrays are lists with checked
    access; NULL is [None].  An object of the heap is a value at the address of
    its block; it disappears when the block is given back, and an access to it
    then faults.

    ** Files

    - Prelude.v: machine integers, arrays, the monad and its rules.
    - DList.v: doubly linked lists in a heap.
    - Pmm.v (mm/pmm.h, mm/pmm.c), PmmInv.v, PmmInit.v, PmmThm.v: the buddy
      allocator: lists of free blocks threaded through the page array, splitting,
      merging, reference counts, initialisation from the boot memory map.
    - Vmm.v (mm/vmm.h, mm/vmm.c), VmmInv.v, VmmThm.v: four-level page tables in
      physical memory against the walk of the processor.  The code reaches a
      table at an address which [window] takes to physical memory as the tables
      of the BIOS loader do (src/boot/bios/stage2.asm): the identity mapping is
      there only while CR3 holds the loader's tables, the window at
      KERNEL_VMA under every CR3, and an access elsewhere faults.
    - Slab.v (mm/slab.h, mm/slab.c), SlabInv.v, SlabOps.v, SlabThm.v, KHeap.v:
      caches, slabs and the free lists inside them; kmalloc and kfree.
    - Vma.v (mm/vma.h, mm/vma.c), VmaInv.v, VmaThm.v: sorted lists of areas.
    - As.v (mm/as.h, mm/as.c): address spaces.  AsInv.v: trees of tables that
      share the upper half.  Cow.v (mm/fault.c): copy on write.  AsDestroy.v,
      AsSys.v, AsPage.v, AsClone.v, AsFork.v: destroying and creating, single
      pages and ranges, cloning, a clone and its parent.  AsDemo.v: an example
      whose frames lie in the window of the kernel ([low_mem]).
    - CString.v (lib/string.c), CStringThm.v, CFormat.v: strings, memory blocks,
      vsnprintf against a reference rendering whose numerals are defined by
      their value.
    - Cmdline.v (cmdline.c): the parameters of the command line.
    - Block.v (drivers/block.c, drivers/partition.c): devices, partitions,
      requests.  BlockIO.v: reading and writing.  BlockReg.v: the table of
      devices and the partition tables of a disk.  IoSched.v
      (drivers/io_sched.c): the queue of requests.  BlockDemo.v: an example.
    - Rwlock.v (sync/spinlock.h, sync/rwlock.c): all interleavings of any number
      of threads, one step per access to the memory they share.
    - UAccess.v (mm/uaccess.c): copies between the kernel and a program.
    - Sched.v (sched/thread.c, sched/sched.c, sched/context.asm, and what they
      use of smp/percpu.c): threads.  SchedQueue.v: run queues as lists.
      SchedThm.v, SchedLive.v: the choice of the next thread, and progress.
      SchedBalance.v: several processors.  SchedCreate.v, SchedInit.v: the
      context switch and new threads.  SchedDemo.v: an example.
    - Ipc.v (ipc/sem.c, ipc/mqueue.c), MqThm.v, SemThm.v, IpcDemo.v: semaphores
      and message queues.
    - Process.v (process/process.c, process/pgrp.c, signal/signal.c), ProcSys.v
      (signal/signal.c, syscall/syscall.c): processes, signals and their system
      calls.  ProcThm.v, SignalThm.v: signals.  ProcTable.v: searches and
      waiting.  Creds.v: identities and limits.  Sessions.v: groups and
      sessions.  SyscallEntry.v (syscall/syscall_entry.asm): the entry code.
      ProcDemo.v: an example.
    - FsObj.v: the objects of the file layer and reference counts of nodes;
      FdTable.v (fs/fd_table.c), Pipe.v (fs/pipe.c), Ramfs.v (fs/ramfs.c), Vfs.v
      and VfsFile.v (fs/vfs.c): the model.
    - FsInv.v: every object lies in a block that was taken for it, and the rules
      for taking, changing and giving back objects.  PipeThm.v, PipeCreate.v:
      pipes.  FsBoot.v, FdShare.v: descriptor tables, and a started kernel.
      RamfsThm.v, RamfsWrite.v: contents of files.  RamfsTree.v, RamfsUnlink.v:
      directories.  VfsIO.v: reading and writing through descriptors.
      VfsLookup.v: paths and permissions.  FsDemo.v: an example, and runs that
      go wrong.

    ** What the theorems show

    - Frames: every run from boot refines an abstract allocator of aligned
      blocks; held blocks are disjoint, no frame is lost, counters are exact,
      free blocks are merged (C2, C11, C16, C17, C18).
    - Mappings: mapping and unmapping change exactly the translation of the
      pages they name, also when frames run out half way (C7, C39, C40).
    - Heap: objects in use are disjoint, aligned and inside their slabs in every
      reachable state (C3, C25, C26).
    - Areas: lists stay sorted and disjoint, and the search for free ranges is
      exact (C24, C38).
    - Address spaces: what a process stores after a clone the other side does
      not see (C1); a range is mapped in full or not at all, the page counter is
      exact and no frame is lost (C13); destroying one gives back its tables and
      pages and touches no other (C12).  A clone is made while CR3 holds the
      loader's tables; under other tables it faults or fails, which
      [clone_faults_in_user_tables] (AsFork.v) shows.
    - Scheduler: it implements round robin on lists (C8), so that each thread
      that can run gets the processor (C9); balancing loses no thread (C30); a
      thread comes back as it was switched away (C27) and a new one starts at
      its entry (C28).
    - Processes: a signal handler returns to the interrupted program state
      (C22); SIGKILL stays deadly in the signal interface (C31); identities
      without privilege stay within those the process had (C23); groups stay
      inside one session (C32); the entry code keeps the registers of the
      program (C29); strings of a program are copied within bounds (C34).
    - Interprocess communication: messages leave a queue by priority and then by
      age (C5); no operation reaches a semaphore that was freed (C10); a
      semaphore counts (C33).
    - File layer: a pipe is a bounded channel (C4); cloning a table counts
      references exactly (C37); what is written to a file is read back, and
      nothing else changes (C6); paths lead where their components lead, without
      a reference lost (C19); creating and removing entries change exactly the
      directory, and removing gives back all memory (C21, C20). All of them hold
      on every path, failing allocations included.
    - Block layer: registering a disk ends without a fault and keeps the table
      of devices consistent, whatever is on the disk (C14); a partition reaches
      only its own sectors of its own disk (C15).
    - Locks and strings: exclusion in every interleaving (C36); vsnprintf
      renders as the reference does (C35).

    The files hold further theorems on these parts, and theorems that exhibit
    runs in which the code does not do what it means to.

    ** Bounds and fuel

    Loops over a range are recursion on its length.  Walks over linked lists
    carry as fuel the number of objects in memory plus one: a list without
    repetition is not longer.  Loops over strings carry the number of mapped
    bytes.  The loops of the RAM file system over blocks carry the number of
    blocks the bytes can meet ([turns]), doubling a capacity at most 33 steps.
    Registering a device registers its partitions, which are not scanned again:
    depth two is enough, and so it is for a transfer through a partition.
    Running out of fuel is a fault, and the theorems exclude faults.  Contents of
    files are covered up to 2^37 bytes for writing and 2^44 for reading: beyond
    that the 32-bit block counts of the code wrap around.

    ** Not modelled

    Except for the locks themselves the model is of one thread at a time: the
    spinlocks, which the code takes around each operation, are left out.  In
    semaphores and message queues the points where a thread blocks are explicit,
    and what other threads do there is a parameter.  Messages to the log and the
    TLB have no effect in the model.  In the model of address spaces the frames
    below the kernel heap and those the spaces are made of are two states, since
    the allocator never hands a frame to both.  The contents of heap objects
    before their first write (reading the block array of a file that has none
    is a fault when there are blocks to read), interrupts, and all parts that program devices or
    the processor (the drivers of disks, terminals and cards, apic/, acpi/, most
    of smp/, the loaders but for what their page tables map) are outside.  The
    UEFI loader sets up no page tables of its own, so [window] is that of a
    BIOS boot.  Of the page fault handler only copy on write is
    modelled, of the processes not their creation and end, of the system calls
    those on processes, signals and identities.  The page cache, shared memory,
    the file systems on disk, terminals, the ELF loader, the network and user
    space are not modelled. *)

From stdpp Require Export base tactics option list numbers gmap sets.
From Stdlib Require Export Lia ZArith.

#[global] Open Scope Z_scope.
#[export] Set Default Goal Selector "!".

(** ** Machine integers

    A w-bit unsigned C integer is a [Z]; the wrap-around of its arithmetic is
    written where the source computes. *)

Declare Scope kernel_scope.
Delimit Scope kernel_scope with K.

Definition wrap (w z : Z) : Z := z mod 2 ^ w.

Abbreviation wrap8 := (wrap 8).
Abbreviation wrap16 := (wrap 16).
Abbreviation wrap32 := (wrap 32).
Abbreviation wrap64 := (wrap 64).

(** Conversion to a signed w-bit integer (two's complement). *)
Definition signed (w z : Z) : Z :=
  let r := wrap w z in if decide (r < 2 ^ (w - 1)) then r else r - 2 ^ w.

Abbreviation int32 := (signed 32).
Abbreviation int64 := (signed 64).

Notation "x +u64 y" := (wrap64 (x + y)) (at level 50, left associativity) : kernel_scope.
Notation "x -u64 y" := (wrap64 (x - y)) (at level 50, left associativity) : kernel_scope.
Notation "x *u64 y" := (wrap64 (x * y)) (at level 40, left associativity) : kernel_scope.
Notation "x +u32 y" := (wrap32 (x + y)) (at level 50, left associativity) : kernel_scope.
Notation "x -u32 y" := (wrap32 (x - y)) (at level 50, left associativity) : kernel_scope.
#[global] Open Scope kernel_scope.

(** The value of bytes in memory order: the lowest byte comes first. *)
Fixpoint le_value (l : list Z) : Z :=
  match l with
  | [] => 0
  | c :: l' => c + 256 * le_value l'
  end.

(** The C test [flags & mask] used as a condition. *)
Definition has (flags mask : Z) : bool := negb (Z.land flags mask =? 0).

(** ** Page arithmetic (include/types.h) *)

Definition PAGE_SIZE : Z := 4096.
Definition PAGE_SHIFT : Z := 12.

Definition ALIGN_UP (x align : Z) : Z :=
  Z.land (x +u64 (align - 1)) (wrap64 (Z.lnot (align - 1))).

Definition ALIGN_DOWN (x align : Z) : Z :=
  Z.land x (wrap64 (Z.lnot (align - 1))).

Definition IS_ALIGNED (x align : Z) : bool := Z.land x (align - 1) =? 0.

(** ** C arrays

    An array is a list; [aget] is a bounds-checked read at a [Z] index and
    [aset] a write, which does nothing out of bounds: the operations of the
    components fault on such an index before they write. *)

Definition aget {A} (l : list A) (i : Z) : option A :=
  if decide (0 ≤ i) then l !! Z.to_nat i else None.

Definition aset {A} (l : list A) (i : Z) (x : A) : list A :=
  if decide (0 ≤ i) then <[Z.to_nat i := x]> l else l.

Definition alen {A} (l : list A) : Z := Z.of_nat (length l).

(** ** A state and fault monad for C code

    [M S A] is a computation over the state [S]; [None] is undefined behaviour
    (a null dereference, an access out of the bounds of an object) or a loop
    that ran out of fuel.  A theorem that says what a computation does always
    says that it returns [Some]. *)

Definition M (S A : Type) : Type := S → option (A * S).

#[global] Instance M_ret S : MRet (M S) := λ A a s, Some (a, s).

#[global] Instance M_bind S : MBind (M S) := λ A B f c s,
  match c s with Some (a, s') => f a s' | None => None end.

Definition get {S} : M S S := λ s, Some (s, s).
Definition gets {S A} (f : S → A) : M S A := λ s, Some (f s, s).
Definition put {S} (s : S) : M S unit := λ _, Some (tt, s).
Definition modify {S} (f : S → S) : M S unit := λ s, Some (tt, f s).
Definition fault {S A} : M S A := λ _, None.

(** A read that may fail: [None] is a fault. *)
Definition lift {S A} (o : option A) : M S A :=
  λ s, match o with Some a => Some (a, s) | None => None end.

(** [for (i = a; i < b; i++) body]. *)
Fixpoint for_n {S} (n : nat) (i : Z) (body : Z → M S unit) : M S unit :=
  match n with
  | O => mret tt
  | Datatypes.S n' => body i ;; for_n n' (i + 1) body
  end.

Definition for_ {S} (a b : Z) (body : Z → M S unit) : M S unit :=
  for_n (Z.to_nat (b - a)) a body.

(** [while]: one turn of the loop returns [true] to go on; no more than [fuel]
    turns. *)
Fixpoint while_ {S} (fuel : nat) (body : M S bool) : M S unit :=
  match fuel with
  | O => fault
  | Datatypes.S fuel' =>
      go ← body; if (go : bool) then while_ fuel' body else mret tt
  end.

(** [wp c Q s]: run from [s], [c] does not fault, and its result and its final
    state satisfy [Q]. *)
Definition wp {S A} (c : M S A) (Q : A → S → Prop) (s : S) : Prop :=
  match c s with Some (a, s') => Q a s' | None => False end.

(** A computation on a part of a larger state. *)
Definition zoom {T S A} (part : T → S) (set_part : S → T → T) (c : M S A) : M T A := λ t,
  match c (part t) with Some (a, x) => Some (a, set_part x t) | None => None end.

(** The state a computation ends in. *)
Definition run_state {S A} (c : M S A) (s : S) : S :=
  match c s with Some (_, s') => s' | None => s end.

(** ** Lemmas on machine integers *)

Create HintDb kernel.

Lemma wrap_small w z : 0 ≤ z < 2 ^ w → wrap w z = z.
Proof. apply Z.mod_small. Qed.

Lemma wrap_bounds w z : 0 ≤ w → 0 ≤ wrap w z < 2 ^ w.
Proof. intros. apply Z.mod_pos_bound. lia. Qed.

Lemma wrap_wrap w z : wrap w (wrap w z) = wrap w z.
Proof. apply Zmod_mod. Qed.

Lemma signed_small w z : 0 < w → 0 ≤ z < 2 ^ (w - 1) → signed w z = z.
Proof.
  intros Hw Hz. unfold signed.
  assert (2 ^ (w - 1) < 2 ^ w) by (apply Z.pow_lt_mono_r; lia).
  rewrite wrap_small by lia. rewrite decide_True by lia. done.
Qed.

Lemma has_bit f k : 0 ≤ k → has f (Z.shiftl 1 k) = Z.testbit f k.
Proof.
  intros Hk. unfold has. rewrite Z.shiftl_1_l.
  destruct (Z.testbit f k) eqn:Hf.
  - apply negb_true_iff, Z.eqb_neq. intros H0.
    assert (Z.testbit (Z.land f (2 ^ k)) k = true) as H1.
    { by rewrite Z.land_spec, Z.pow2_bits_true, Hf. }
    rewrite H0, Z.bits_0 in H1. done.
  - apply negb_false_iff, Z.eqb_eq. apply Z.bits_inj'. intros n Hn.
    rewrite Z.land_spec, Z.bits_0. destruct (decide (n = k)) as [->|].
    + by rewrite Hf.
    + by rewrite Z.pow2_bits_false, andb_false_r by done.
Qed.

Lemma testbit_lor_flag f k j :
  0 ≤ k → Z.testbit (Z.lor f (Z.shiftl 1 k)) j =
    if decide (j = k) then true else Z.testbit f j.
Proof.
  intros Hk. rewrite Z.lor_spec, Z.shiftl_1_l.
  case_decide as Hj; [subst; by rewrite Z.pow2_bits_true, orb_true_r|].
  by rewrite Z.pow2_bits_false, orb_false_r by done.
Qed.

Lemma testbit_clear_flag f k j :
  0 ≤ k → Z.testbit (Z.land f (Z.lnot (Z.shiftl 1 k))) j =
    if decide (j = k) then false else Z.testbit f j.
Proof.
  intros Hk. rewrite <-Z.ldiff_land, Z.ldiff_spec, Z.shiftl_1_l.
  case_decide as Hj; [subst; by rewrite Z.pow2_bits_true, andb_false_r|].
  by rewrite Z.pow2_bits_false, andb_true_r by done.
Qed.

(** The mask [~(2^k - 1)] of a 64-bit word clears the low [k] bits. *)
Lemma land_align_mask x k :
  0 ≤ k ≤ 64 → 0 ≤ x < 2 ^ 64 →
  Z.land x (wrap64 (Z.lnot (2 ^ k - 1))) = x - x mod 2 ^ k.
Proof.
  intros Hk Hx.
  assert (Z.land x (wrap64 (Z.lnot (2 ^ k - 1))) = Z.ldiff x (Z.ones k)) as ->.
  { unfold wrap. rewrite <-Z.land_ones by lia.
    replace (2 ^ k - 1) with (Z.ones k) by (rewrite Z.ones_equiv; lia).
    rewrite Z.ldiff_land, (Z.land_comm (Z.lnot _)), Z.land_assoc.
    rewrite (Z.land_ones x 64) by lia. rewrite (Z.mod_small x) by lia. done. }
  rewrite Z.ldiff_ones_r by lia.
  rewrite Z.shiftl_mul_pow2, Z.shiftr_div_pow2 by lia.
  pose proof (Z.div_mod x (2 ^ k) ltac:(lia)). lia.
Qed.

Lemma ALIGN_DOWN_spec x k :
  0 ≤ k ≤ 64 → 0 ≤ x < 2 ^ 64 → ALIGN_DOWN x (2 ^ k) = x - x mod 2 ^ k.
Proof. apply land_align_mask. Qed.

Lemma ALIGN_UP_spec x k :
  0 ≤ k ≤ 64 → 0 ≤ x → x + (2 ^ k - 1) < 2 ^ 64 →
  ALIGN_UP x (2 ^ k) = (x + (2 ^ k - 1)) - (x + (2 ^ k - 1)) mod 2 ^ k.
Proof.
  intros Hk Hx Hb. unfold ALIGN_UP.
  assert (0 < 2 ^ k) by (apply Z.pow_pos_nonneg; lia).
  rewrite (wrap_small 64 (x + _)) by lia. apply land_align_mask; lia.
Qed.

Lemma IS_ALIGNED_spec x k :
  0 ≤ k → IS_ALIGNED x (2 ^ k) = true ↔ x mod 2 ^ k = 0.
Proof.
  intros Hk. unfold IS_ALIGNED. rewrite Z.eqb_eq.
  replace (2 ^ k - 1) with (Z.ones k) by (rewrite Z.ones_equiv; lia).
  by rewrite Z.land_ones by lia.
Qed.

(** ** Lemmas on arrays *)

Section arrays.
Context {A : Type}.
Implicit Types (l : list A) (i j : Z) (x y : A).

Lemma aget_Some_bounds l i x : aget l i = Some x → 0 ≤ i < alen l.
Proof.
  unfold aget, alen. case_decide; [|done].
  intros ?%lookup_lt_Some. lia.
Qed.

Lemma aget_is_Some l i : 0 ≤ i < alen l → is_Some (aget l i).
Proof.
  unfold aget, alen. intros. rewrite decide_True by lia.
  apply lookup_lt_is_Some. lia.
Qed.

Lemma aget_None l i : aget l i = None → i < 0 ∨ alen l ≤ i.
Proof.
  unfold aget, alen. case_decide; [|lia].
  intros ?%lookup_ge_None. lia.
Qed.

Lemma aget_out l i : i < 0 ∨ alen l ≤ i → aget l i = None.
Proof.
  unfold aget, alen. intros. case_decide; [|done].
  apply lookup_ge_None. lia.
Qed.

Lemma alen_aset l i x : alen (aset l i x) = alen l.
Proof. unfold alen, aset. case_decide; [|done]. by rewrite length_insert. Qed.

Lemma alen_nonneg l : 0 ≤ alen l.
Proof. unfold alen. lia. Qed.

Lemma aget_aset_eq l i x : 0 ≤ i < alen l → aget (aset l i x) i = Some x.
Proof.
  unfold aget, aset, alen. intros. rewrite !decide_True by lia.
  apply list_lookup_insert_eq. lia.
Qed.

Lemma aget_aset_ne l i j x : i ≠ j → aget (aset l i x) j = aget l j.
Proof.
  unfold aget, aset. intros. repeat case_decide; try done.
  apply list_lookup_insert_ne. lia.
Qed.

Lemma aget_aset l i j x :
  aget (aset l i x) j =
    if decide (i = j ∧ 0 ≤ i < alen l) then Some x else aget l j.
Proof.
  destruct (decide (i = j)) as [->|Hne].
  - destruct (decide (0 ≤ j < alen l)).
    + rewrite decide_True by done. by apply aget_aset_eq.
    + rewrite decide_False by tauto.
      rewrite !aget_out; [done| |]; rewrite ?alen_aset; lia.
  - rewrite decide_False by tauto. by apply aget_aset_ne.
Qed.

Lemma aset_aset l i x y : aset (aset l i x) i y = aset l i y.
Proof. unfold aset. case_decide; [|done]. apply list_insert_insert_eq. Qed.

Lemma aset_eq l l' :
  alen l = alen l' → (∀ i, 0 ≤ i < alen l → aget l i = aget l' i) → l = l'.
Proof.
  unfold alen. intros Hlen Hi. apply list_eq_same_length with (length l); [lia|lia|].
  intros i x y Hlt Hx Hy. specialize (Hi (Z.of_nat i) ltac:(lia)).
  unfold aget in Hi. rewrite !decide_True in Hi by lia.
  rewrite Nat2Z.id in Hi. congruence.
Qed.

Lemma aget_replicate n i x :
  0 ≤ i < Z.of_nat n → aget (replicate n x) i = Some x.
Proof.
  unfold aget. intros. rewrite decide_True by lia.
  apply lookup_replicate_2. lia.
Qed.

Lemma aget_nil i : aget (@nil A) i = None.
Proof. apply aget_out. unfold alen. cbn. lia. Qed.

Lemma alen_cons x l : alen (x :: l) = alen l + 1.
Proof. unfold alen. simpl. lia. Qed.

Lemma alen_app l k : alen (l ++ k) = alen l + alen k.
Proof. unfold alen. rewrite length_app. lia. Qed.

Lemma aget_cons_succ x l i : 0 ≤ i → aget (x :: l) (i + 1) = aget l i.
Proof.
  intros Hi. unfold aget. rewrite !decide_True by lia.
  by replace (Z.to_nat (i + 1)) with (S (Z.to_nat i)) by lia.
Qed.

Lemma aget_app_l l k i : 0 ≤ i < alen l → aget (l ++ k) i = aget l i.
Proof. unfold aget, alen. intros. rewrite !decide_True by lia. apply lookup_app_l. lia. Qed.

Lemma aget_snoc l x : aget (l ++ [x]) (alen l) = Some x.
Proof.
  unfold aget, alen. rewrite decide_True by lia. rewrite lookup_app_r by lia.
  by replace (Z.to_nat (Z.of_nat (length l)) - length l)%nat with O by lia.
Qed.

End arrays.

(** A list of distinct keys of a map is no longer than the map: the fuel of a
    walk over linked objects. *)
Lemma nodup_size {X} (m : gmap Z X) (L : list Z) :
  NoDup L → (∀ x, x ∈ L → is_Some (m !! x)) → (length L ≤ size m)%nat.
Proof.
  intros Hnd Hin. rewrite <-size_dom, <-(size_list_to_set (C := gset Z) L) by done.
  apply subseteq_size. intros x. rewrite elem_of_list_to_set, elem_of_dom. apply Hin.
Qed.

(** ** Lemmas on the monad *)

Section wp.
Context {S : Type}.
Implicit Types (s : S).

Lemma wp_elim {A} (c : M S A) Q s :
  wp c Q s → ∃ a s', c s = Some (a, s') ∧ Q a s'.
Proof. unfold wp. destruct (c s) as [[a s']|]; [eauto|done]. Qed.

Lemma wp_intro {A} (c : M S A) Q s a s' : c s = Some (a, s') → Q a s' → wp c Q s.
Proof. unfold wp. by intros ->. Qed.

Lemma wp_run_state (c : M S unit) Q s : wp c Q s → c s = Some (tt, run_state c s).
Proof. unfold wp, run_state. by destruct (c s) as [[[] s']|]. Qed.

Lemma run_state_some (c : M S unit) s :
  match c s with Some _ => true | None => false end = true → c s = Some (tt, run_state c s).
Proof. unfold run_state. by destruct (c s) as [[[] s']|]. Qed.

Lemma wp_at {A} (c : M S A) (Q : A → S → Prop) s a s' : wp c Q s → c s = Some (a, s') → Q a s'.
Proof. unfold wp. intros Hw Hc. by rewrite Hc in Hw. Qed.

(** A run whose result is computed. *)
Lemma run_some {A} `{EqDecision A} (c : M S A) a s :
  match c s with Some (r, _) => bool_decide (r = a) | None => false end = true →
  c s = Some (a, run_state c s).
Proof.
  unfold run_state. destruct (c s) as [[r s']|]; [|done]. by intros ->%bool_decide_eq_true.
Qed.

Lemma wp_bind {A B} (c : M S A) (k : A → M S B) Q s :
  wp c (λ a, wp (k a) Q) s → wp (x ← c; k x) Q s.
Proof. unfold wp, mbind, M_bind. by destruct (c s) as [[a s']|]. Qed.

Lemma wp_bind_inv {A B} (c : M S A) (k : A → M S B) Q s :
  wp (x ← c; k x) Q s → wp c (λ a, wp (k a) Q) s.
Proof. unfold wp, mbind, M_bind. by destruct (c s) as [[a s']|]. Qed.

Lemma wp_mono {A} (c : M S A) (P Q : A → S → Prop) s :
  wp c P s → (∀ a s', P a s' → Q a s') → wp c Q s.
Proof. unfold wp. destruct (c s) as [[a s']|]; auto. Qed.

Lemma wp_ret {A} (a : A) (Q : A → S → Prop) s : Q a s → wp (mret a) Q s.
Proof. done. Qed.

Lemma wp_get (Q : S → S → Prop) s : Q s s → wp get Q s.
Proof. done. Qed.

Lemma wp_gets {A} (f : S → A) (Q : A → S → Prop) s : Q (f s) s → wp (gets f) Q s.
Proof. done. Qed.

Lemma wp_put s0 (Q : unit → S → Prop) s : Q tt s0 → wp (put s0) Q s.
Proof. done. Qed.

Lemma wp_modify f (Q : unit → S → Prop) s : Q tt (f s) → wp (modify f) Q s.
Proof. done. Qed.

Lemma wp_lift {A} (o : option A) (a : A) (Q : A → S → Prop) s :
  o = Some a → Q a s → wp (lift o) Q s.
Proof. by intros ->. Qed.

Lemma wp_zoom {T A} (part : T → S) set_part (c : M S A) (Q : A → T → Prop) t :
  wp c (λ a x, Q a (set_part x t)) (part t) → wp (zoom part set_part c) Q t.
Proof. unfold wp, zoom. by destruct (c (part t)) as [[a x]|]. Qed.

(** The rule for a counting loop: an invariant indexed by the counter. *)
Lemma wp_for (I : Z → S → Prop) a b (body : Z → M S unit) (Q : unit → S → Prop) s :
  I a s →
  (∀ i s', a ≤ i < b → I i s' → wp (body i) (λ _, I (i + 1)) s') →
  (∀ s', I (Z.max a b) s' → Q tt s') →
  wp (for_ a b body) Q s.
Proof.
  intros HI Hbody HQ. unfold for_.
  destruct (decide (a ≤ b)) as [Hab|Hab]; last first.
  { replace (Z.to_nat (b - a)) with O by lia. apply wp_ret, HQ.
    by rewrite Z.max_l by lia. }
  rewrite Z.max_r in HQ by lia.
  remember (Z.to_nat (b - a)) as n eqn:Hn.
  assert (b = a + Z.of_nat n) as Hb by lia. clear Hn.
  assert (Hlo : ∃ a0, a0 = a) by eauto. destruct Hlo as [a0 Ha0].
  rewrite <-Ha0 in Hbody. assert (a0 ≤ a) as Hle by lia. clear Ha0 Hab.
  revert a s HI Hb Hle. induction n as [|n IH]; intros a s HI Hb Hle.
  { apply HQ. by replace b with a by lia. }
  simpl. apply wp_bind. eapply wp_mono; [apply Hbody; [lia|done]|].
  intros [] s' HI'. apply IH; [done|lia|lia].
Qed.

(** An invariant of a counting loop whose body may fault. *)
Lemma run_for (I : Z → S → Prop) a b (body : Z → M S unit) s s' :
  (∀ i x x', a ≤ i < b → I i x → body i x = Some (tt, x') → I (i + 1) x') →
  I a s → a ≤ b → for_ a b body s = Some (tt, s') → I b s'.
Proof.
  intros Hbody Ha Hab. unfold for_. remember (Z.to_nat (b - a)) as n eqn:Hn.
  revert a s Hbody Ha Hab Hn. induction n as [|n IH]; intros a s Hbody Ha Hab Hn; simpl.
  { intros [= <-]. by replace b with a by lia. }
  unfold mbind, M_bind. destruct (body a s) as [[[] s1]|] eqn:Hb; [|done].
  apply IH; [|apply (Hbody a s); [lia|done..]|lia|lia]. intros i x x' Hi. apply Hbody. lia.
Qed.

(** The rule for a [while] loop with a measure that the fuel bounds. *)
Lemma wp_while (I : S → Prop) (m : S → nat) fuel (body : M S bool)
    (Q : unit → S → Prop) s :
  I s → (m s < fuel)%nat →
  (∀ s', I s' → wp body (λ go s'',
     if go then I s'' ∧ (m s'' < m s')%nat else Q tt s'') s') →
  wp (while_ fuel body) Q s.
Proof.
  revert s. induction fuel as [|fuel IH]; intros s HI Hm Hbody; [lia|].
  simpl. apply wp_bind. eapply wp_mono; [by apply Hbody|].
  intros [|] s' H; [|done]. destruct H as [??]. apply IH; [done|lia|done].
Qed.

End wp.

(** One symbolic step of a computation under [wp]. *)
Ltac wp_step :=
  lazymatch goal with
  | |- wp (mbind _ _) _ _ => apply wp_bind
  | |- wp (mret _) _ _ => apply wp_ret
  | |- wp get _ _ => apply wp_get
  | |- wp (gets _) _ _ => apply wp_gets
  | |- wp (put _) _ _ => apply wp_put
  | |- wp (modify _) _ _ => apply wp_modify
  | |- wp (lift _) _ _ => eapply wp_lift; [eassumption|]
  end.
Ltac wp_steps := repeat wp_step.

#[export] Hint Resolve alen_nonneg : kernel.
