(* ===== verification/DList.v ===== *)
(** * Doubly linked lists in a heap of nodes

    The buddy allocator's free lists (mm/pmm.c), an address space's VMA list
    (mm/vma.c) and the page cache's LRU list (mm/page_cache.c) are intrusive
    doubly linked lists ended by NULL.  This file states once what such a list
    is, for any heap that gives the [prev] and [next] fields of a node, and how
    splicing a node in or out changes it. *)

From S2P Require Import Prelude.

(** The [prev] and [next] fields of the node at an address; [None] as a result
    is an address that holds no node, [None] as a field is NULL. *)
Definition links : Type := Z → option (option Z * option Z).

Definition or_else {A} (o d : option A) : option A :=
  match o with Some _ => o | None => d end.

Definition set_nx (n : option Z) (l : option Z * option Z) := (l.1, n).
Definition set_pr (p : option Z) (l : option Z * option Z) := (p, l.2).

(** The nodes [L] form a list segment that comes after [pr] and before [nx]. *)
Fixpoint dlseg (lk : links) (pr : option Z) (L : list Z) (nx : option Z) : Prop :=
  match L with
  | [] => True
  | x :: L' => lk x = Some (pr, or_else (head L') nx) ∧ dlseg lk (Some x) L' nx
  end.

Definition dlist (lk : links) (L : list Z) : Prop := dlseg lk None L None.

Section dlist.
Implicit Types (lk : links) (A B L : list Z) (x y : Z).

Lemma or_else_None {T} (o : option T) : or_else o None = o.
Proof. by destruct o. Qed.

Lemma head_app_or_else A B : head (A ++ B) = or_else (head A) (head B).
Proof. by destruct A. Qed.

Lemma last_or_else x A pr : or_else (last (x :: A)) pr = or_else (last A) (Some x).
Proof. rewrite last_cons. by destruct (last A). Qed.

Lemma or_else_assoc {T} (a b c : option T) :
  or_else (or_else a b) c = or_else a (or_else b c).
Proof. by destruct a. Qed.

Lemma dlseg_app lk pr A B nx :
  dlseg lk pr (A ++ B) nx ↔
  dlseg lk pr A (or_else (head B) nx) ∧ dlseg lk (or_else (last A) pr) B nx.
Proof.
  revert pr. induction A as [|x A IH]; intros pr; [simpl; tauto|].
  cbn [app dlseg]. rewrite IH, last_or_else, head_app_or_else, or_else_assoc. tauto.
Qed.

Lemma dlseg_ext lk lk' pr L nx :
  (∀ x, x ∈ L → lk' x = lk x) → dlseg lk pr L nx → dlseg lk' pr L nx.
Proof.
  revert pr. induction L as [|x L IH]; intros pr Heq; [done|].
  simpl. intros [Hx HL]. split; [rewrite Heq by set_solver; done|].
  apply IH; [|done]. set_solver.
Qed.

(** Changing what follows a segment changes the [next] of its last node. *)
Lemma dlseg_change_nx lk lk' pr L nx nx' :
  NoDup L →
  (∀ y, y ∈ L → last L ≠ Some y → lk' y = lk y) →
  (∀ a, last L = Some a → lk' a = set_nx nx' <$> lk a) →
  dlseg lk pr L nx → dlseg lk' pr L nx'.
Proof.
  intros Hnd Hother Hlast HL.
  destruct L as [|a A _] using rev_ind; [done|].
  rewrite last_snoc in Hother, Hlast.
  apply NoDup_app in Hnd as (_ & Hdisj & _).
  apply dlseg_app in HL as [HA [Ha _]]. apply dlseg_app. split.
  - eapply dlseg_ext; [|exact HA]. intros y Hy. apply Hother; [set_solver|].
    intros [= ->]. apply (Hdisj y Hy). set_solver.
  - simpl. rewrite Hlast by done. by rewrite Ha.
Qed.

(** Changing what precedes a segment changes the [prev] of its first node. *)
Lemma dlseg_change_pr lk lk' pr pr' L nx :
  NoDup L →
  (∀ y, y ∈ L → head L ≠ Some y → lk' y = lk y) →
  (∀ b, head L = Some b → lk' b = set_pr pr' <$> lk b) →
  dlseg lk pr L nx → dlseg lk' pr' L nx.
Proof.
  destruct L as [|b B]; intros Hnd Hother Hhead HL; [done|].
  apply NoDup_cons in Hnd as [Hb _]. destruct HL as [HL1 HL2].
  simpl. rewrite Hhead by done. rewrite HL1. split; [done|].
  eapply dlseg_ext; [|exact HL2]. intros y Hy. apply Hother; [set_solver|].
  simpl. congruence.
Qed.

Lemma dlist_links lk A x B : dlist lk (A ++ x :: B) → lk x = Some (last A, head B).
Proof.
  unfold dlist. rewrite dlseg_app. cbn [dlseg]. rewrite !or_else_None. tauto.
Qed.

Lemma dlist_lookup lk L x :
  dlist lk L → x ∈ L → ∃ A B, L = A ++ x :: B ∧ lk x = Some (last A, head B).
Proof.
  intros HL (A & B & ->)%list_elem_of_split. eauto using dlist_links.
Qed.

(** Splicing the node [x] in between [A] and [B]. *)
Lemma dlist_insert lk lk' A x B :
  dlist lk (A ++ B) → NoDup (A ++ B) →
  lk' x = Some (last A, head B) →
  (∀ a, last A = Some a → lk' a = set_nx (Some x) <$> lk a) →
  (∀ b, head B = Some b → lk' b = set_pr (Some x) <$> lk b) →
  (∀ y, y ∈ A ++ B → last A ≠ Some y → head B ≠ Some y → lk' y = lk y) →
  dlist lk' (A ++ x :: B).
Proof.
  intros HAB Hnd Hx Ha Hb Hother.
  apply NoDup_app in Hnd as (HA & Hdisj & HB).
  unfold dlist in *. rewrite dlseg_app in *. destruct HAB as [HdA HdB].
  cbn [dlseg or_else head]. rewrite !or_else_None in *. repeat split; [|done|].
  - eapply dlseg_change_nx; [done| |exact Ha|exact HdA].
    intros y Hy Hl. apply Hother; [set_solver|done|].
    intros Hh. apply (Hdisj y Hy). by apply head_Some_elem_of.
  - eapply dlseg_change_pr; [done| |exact Hb|exact HdB].
    intros y Hy Hh. apply Hother; [set_solver| |done].
    intros Hl. apply (Hdisj y); [|done]. by apply last_Some_elem_of.
Qed.

(** Splicing the node [x] out from between [A] and [B]. *)
Lemma dlist_remove lk lk' A x B :
  dlist lk (A ++ x :: B) → NoDup (A ++ B) →
  (∀ a, last A = Some a → lk' a = set_nx (head B) <$> lk a) →
  (∀ b, head B = Some b → lk' b = set_pr (last A) <$> lk b) →
  (∀ y, y ∈ A ++ B → last A ≠ Some y → head B ≠ Some y → lk' y = lk y) →
  dlist lk' (A ++ B).
Proof.
  intros HAB Hnd Ha Hb Hother.
  apply NoDup_app in Hnd as (HA & Hdisj & HB).
  unfold dlist in *. rewrite dlseg_app in *. destruct HAB as [HdA [_ HdB]].
  rewrite !or_else_None in *. split.
  - eapply dlseg_change_nx; [done| |exact Ha|exact HdA].
    intros y Hy Hl. apply Hother; [set_solver|done|].
    intros Hh. apply (Hdisj y Hy). by apply head_Some_elem_of.
  - eapply dlseg_change_pr; [done| |exact Hb|exact HdB].
    intros y Hy Hh. apply Hother; [set_solver| |done].
    intros Hl. apply (Hdisj y); [|done]. by apply last_Some_elem_of.
Qed.

End dlist.
