(* ===== verification/Pmm.v ===== *)
(** * The physical memory manager: model (mm/pmm.h, mm/pmm.c)

    A buddy allocator over one zone.  The array of page descriptors is a list
    indexed by page frame number; a [page_t *] is the index of the descriptor
    it points at, [None] for NULL.  The free lists are the intrusive doubly
    linked lists of the source, threaded through the descriptors.  A read or a
    write of a descriptor outside the array faults.  Messages to the log are
    not modelled. *)

From S2P Require Import Prelude.

(** ** Configuration (pmm.h) *)

Definition MAX_ORDER : Z := 10.

Definition PAGE_FLAG_BUDDY : Z := Z.shiftl 1 0.
Definition PAGE_FLAG_RESERVED : Z := Z.shiftl 1 1.
Definition PAGE_FLAG_KERNEL : Z := Z.shiftl 1 2.
Definition PAGE_FLAG_HEAD : Z := Z.shiftl 1 3.
Definition PAGE_FLAG_TAIL : Z := Z.shiftl 1 4.

(** ** Data (pmm.h) *)

Record page := Page {
  page_next : option Z;
  page_prev : option Z;
  page_flags : Z;
  page_order : Z;
  page_refcount : Z }.

Record zone := Zone {
  free_lists : list (option Z);
  free_count : list Z;
  base_pfn : Z;
  page_count : Z;
  zone_free_pages : Z }.

Record mem_info := MemInfo {
  total_pages : Z;
  mi_free_pages : Z;
  reserved_pages : Z;
  kernel_pages : Z;
  page_array : list page;
  page_array_pages : Z;
  mi_zone : zone }.

(** The boot information the initialisation reads (boot/common/boot_info.h). *)
Definition MMAP_TYPE_USABLE : Z := 1.
Definition BOOT_FLAG_INITRD : Z := Z.shiftl 1 4.

Record MemoryMapEntry := MmapEntry { mm_base : Z; mm_length : Z; mm_type : Z }.

Record BootInfo := MkBootInfo {
  bi_flags : Z;
  bi_memory_map : list MemoryMapEntry;
  bi_initrd_start : Z;
  bi_initrd_size : Z }.

(** ** Field updates *)

Definition set_next (n : option Z) (p : page) : page :=
  Page n (page_prev p) (page_flags p) (page_order p) (page_refcount p).
Definition set_prev (q : option Z) (p : page) : page :=
  Page (page_next p) q (page_flags p) (page_order p) (page_refcount p).
Definition set_flags (f : Z) (p : page) : page :=
  Page (page_next p) (page_prev p) f (page_order p) (page_refcount p).
Definition set_order (o : Z) (p : page) : page :=
  Page (page_next p) (page_prev p) (page_flags p) o (page_refcount p).
Definition set_refcount (r : Z) (p : page) : page :=
  Page (page_next p) (page_prev p) (page_flags p) (page_order p) r.
Definition or_flags (m : Z) (p : page) : page := set_flags (Z.lor (page_flags p) m) p.
Definition clear_flags (m : Z) (p : page) : page :=
  set_flags (Z.land (page_flags p) (Z.lnot m)) p.

Definition set_pages (ps : list page) (s : mem_info) : mem_info :=
  MemInfo (total_pages s) (mi_free_pages s) (reserved_pages s) (kernel_pages s)
    ps (page_array_pages s) (mi_zone s).
Definition set_zone (z : zone) (s : mem_info) : mem_info :=
  MemInfo (total_pages s) (mi_free_pages s) (reserved_pages s) (kernel_pages s)
    (page_array s) (page_array_pages s) z.
Definition set_mi_free (n : Z) (s : mem_info) : mem_info :=
  MemInfo (total_pages s) n (reserved_pages s) (kernel_pages s)
    (page_array s) (page_array_pages s) (mi_zone s).
Definition set_reserved (n : Z) (s : mem_info) : mem_info :=
  MemInfo (total_pages s) (mi_free_pages s) n (kernel_pages s)
    (page_array s) (page_array_pages s) (mi_zone s).
Definition set_kernel (n : Z) (s : mem_info) : mem_info :=
  MemInfo (total_pages s) (mi_free_pages s) (reserved_pages s) n
    (page_array s) (page_array_pages s) (mi_zone s).

Definition set_free_lists (l : list (option Z)) (z : zone) : zone :=
  Zone l (free_count z) (base_pfn z) (page_count z) (zone_free_pages z).
Definition set_free_count (l : list Z) (z : zone) : zone :=
  Zone (free_lists z) l (base_pfn z) (page_count z) (zone_free_pages z).
Definition set_zone_free (n : Z) (z : zone) : zone :=
  Zone (free_lists z) (free_count z) (base_pfn z) (page_count z) n.

(** ** Accesses to the shared state *)

Abbreviation PM := (M mem_info).

Definition rd_page (p : Z) : PM page :=
  s ← get; lift (aget (page_array s) p).

Definition upd_page (p : Z) (f : page → page) : PM unit :=
  s ← get;
  pg ← lift (aget (page_array s) p);
  put (set_pages (aset (page_array s) p (f pg)) s).

Definition rd_free_list (o : Z) : PM (option Z) :=
  s ← get; lift (aget (free_lists (mi_zone s)) o).

Definition wr_free_list (o : Z) (h : option Z) : PM unit :=
  s ← get;
  _ ← lift (aget (free_lists (mi_zone s)) o);
  put (set_zone (set_free_lists (aset (free_lists (mi_zone s)) o h) (mi_zone s)) s).

Definition upd_free_count (o : Z) (f : Z → Z) : PM unit :=
  s ← get;
  c ← lift (aget (free_count (mi_zone s)) o);
  put (set_zone (set_free_count (aset (free_count (mi_zone s)) o (f c)) (mi_zone s)) s).

(** ** Helpers *)

Definition phys_to_pfn (phys : Z) : Z := Z.shiftr phys PAGE_SHIFT.
Definition pfn_to_phys (pfn : Z) : Z := wrap64 (Z.shiftl pfn PAGE_SHIFT).
Definition get_buddy_pfn (pfn order : Z) : Z := Z.lxor pfn (Z.shiftl 1 order).

Definition free_list_add (pg order : Z) : PM unit :=
  hd ← rd_free_list order;
  upd_page pg (set_prev None) ;;
  upd_page pg (set_next hd) ;;
  upd_page pg (set_order order) ;;
  upd_page pg (or_flags PAGE_FLAG_BUDDY) ;;
  match hd with
  | Some h => upd_page h (set_prev (Some pg))
  | None => mret tt
  end ;;
  wr_free_list order (Some pg) ;;
  upd_free_count order (λ c, c +u64 1).

Definition free_list_remove (pg order : Z) : PM unit :=
  p ← rd_page pg;
  match page_prev p with
  | Some q => upd_page q (set_next (page_next p))
  | None => wr_free_list order (page_next p)
  end ;;
  p ← rd_page pg;
  match page_next p with
  | Some n => upd_page n (set_prev (page_prev p))
  | None => mret tt
  end ;;
  upd_page pg (set_prev None) ;;
  upd_page pg (set_next None) ;;
  upd_page pg (clear_flags PAGE_FLAG_BUDDY) ;;
  upd_free_count order (λ c, c -u64 1).

(** ** Allocation *)

(** The search for the first order at or above [cur] whose list is not empty;
    [n] is the number of orders left, and the result is [MAX_ORDER + 1] when
    there is none. *)
Fixpoint find_order (n : nat) (cur : Z) : PM Z :=
  match n with
  | O => mret cur
  | S n' =>
      h ← rd_free_list cur;
      match h with
      | Some _ => mret cur
      | None => find_order n' (cur + 1)
      end
  end.

(** The loop that splits [block] down: [n] is [current_order - order]. *)
Fixpoint split_block (n : nat) (block current_order : Z) : PM unit :=
  match n with
  | O => mret tt
  | S n' =>
      let current_order := current_order - 1 in
      let buddy_pfn := block +u64 Z.shiftl 1 current_order in
      free_list_add buddy_pfn current_order ;;
      split_block n' block current_order
  end.

Definition add_free_pages (f : Z → Z) : PM unit :=
  modify (λ s, set_zone (set_zone_free (f (zone_free_pages (mi_zone s))) (mi_zone s)) s) ;;
  modify (λ s, set_mi_free (f (mi_free_pages s)) s).

(** Marking the pages of a block as allocated; [num_pages] is [1UL << order]. *)
Definition mark_allocated (pfn order : Z) : PM unit :=
  let num_pages := Z.shiftl 1 order in
  upd_page pfn (or_flags PAGE_FLAG_HEAD) ;;
  upd_page pfn (set_order order) ;;
  upd_page pfn (set_refcount 1) ;;
  for_ 1 num_pages (λ i,
    upd_page (pfn +u64 i) (or_flags PAGE_FLAG_TAIL) ;;
    upd_page (pfn +u64 i) (set_refcount 1)).

Definition alloc_pages (order : Z) : PM Z :=
  if MAX_ORDER <? order then mret 0 else
  current_order ← find_order (Z.to_nat (MAX_ORDER + 1 - order)) order;
  if MAX_ORDER <? current_order then mret 0 else
  h ← rd_free_list current_order;
  block ← lift h;
  free_list_remove block current_order ;;
  split_block (Z.to_nat (current_order - order)) block current_order ;;
  mark_allocated block order ;;
  add_free_pages (λ n, n -u64 Z.shiftl 1 order) ;;
  mret (pfn_to_phys block).

(** ** Release *)

(** The loop that merges a block with its buddy: [n] is [MAX_ORDER - order]. *)
Fixpoint merge_block (n : nat) (pfn order : Z) : PM (Z * Z) :=
  match n with
  | O => mret (pfn, order)
  | S n' =>
      let buddy_pfn := get_buddy_pfn pfn order in
      buddy ← rd_page buddy_pfn;
      if negb (has (page_flags buddy) PAGE_FLAG_BUDDY) || negb (page_order buddy =? order)
      then mret (pfn, order)
      else
        free_list_remove buddy_pfn order ;;
        merge_block n' (if buddy_pfn <? pfn then buddy_pfn else pfn) (order + 1)
  end.

(** Clearing the allocation marks of the pages of a block. *)
Definition clear_allocated (pfn order : Z) : PM unit :=
  let num_pages := Z.shiftl 1 order in
  upd_page pfn (clear_flags PAGE_FLAG_HEAD) ;;
  upd_page pfn (set_refcount 0) ;;
  for_ 1 num_pages (λ i,
    upd_page (pfn +u64 i) (clear_flags PAGE_FLAG_TAIL) ;;
    upd_page (pfn +u64 i) (set_refcount 0)).

Definition free_pages (phys_addr order : Z) : PM unit :=
  if MAX_ORDER <? order then mret tt else
  if phys_addr =? 0 then mret tt else
  if negb (IS_ALIGNED phys_addr (Z.shiftl PAGE_SIZE order)) then mret tt else
  let pfn := phys_to_pfn phys_addr in
  clear_allocated pfn order ;;
  '(pfn', order') ← merge_block (Z.to_nat (MAX_ORDER - order)) pfn order;
  free_list_add pfn' order' ;;
  add_free_pages (λ n, n +u64 Z.shiftl 1 order).

Definition alloc_page : PM Z := alloc_pages 0.
Definition free_page (phys_addr : Z) : PM unit := free_pages phys_addr 0.

(** ** Page descriptors and reference counts *)

Definition phys_to_page (phys_addr : Z) : PM (option Z) :=
  s ← get;
  let pfn := phys_to_pfn phys_addr in
  mret (if total_pages s <=? pfn then None else Some pfn).

Definition page_to_phys (pg : Z) : Z := pfn_to_phys pg.

Definition page_get (pg : option Z) : PM unit :=
  match pg with
  | None => mret tt
  | Some p => upd_page p (λ d, set_refcount (page_refcount d +u32 1) d)
  end.

Definition page_put (pg : option Z) : PM Z :=
  match pg with
  | None => mret 0
  | Some p =>
      d ← rd_page p;
      if page_refcount d =? 0 then mret 0
      else
        upd_page p (λ d, set_refcount (page_refcount d -u32 1) d) ;;
        d ← rd_page p;
        mret (page_refcount d)
  end.

Definition page_refcount_of (pg : option Z) : PM Z :=
  match pg with
  | None => mret 0
  | Some p => d ← rd_page p; mret (page_refcount d)
  end.

Definition page_get_phys (phys : Z) : PM unit :=
  pg ← phys_to_page phys;
  match pg with
  | Some p => page_get (Some p)
  | None => mret tt
  end.

Definition page_put_phys (phys : Z) : PM Z :=
  pg ← phys_to_page phys;
  match pg with
  | None => mret 0
  | Some p =>
      new_count ← page_put (Some p);
      (if new_count =? 0 then free_page phys else mret tt) ;;
      mret new_count
  end.

(** ** Initialisation from the boot memory map *)

Definition sizeof_page_t : Z := 32.

(** The first pass: the highest address of the map and the usable bytes. *)
Definition scan_entry (acc : Z * Z) (e : MemoryMapEntry) : Z * Z :=
  let '(max_phys_addr, total_usable) := acc in
  let e_end := mm_base e +u64 mm_length e in
  (if max_phys_addr <? e_end then e_end else max_phys_addr,
   if mm_type e =? MMAP_TYPE_USABLE then total_usable +u64 mm_length e else total_usable).

Definition scan_map (mmap : list MemoryMapEntry) : Z * Z :=
  foldl scan_entry (0, 0) mmap.

(** The page-aligned part above 1MB of a usable region, as page frame
    numbers; [None] when the loop skips the entry. *)
Definition usable_range (e : MemoryMapEntry) : option (Z * Z) :=
  if negb (mm_type e =? MMAP_TYPE_USABLE) then None else
  let base := ALIGN_UP (mm_base e) PAGE_SIZE in
  let e_end := ALIGN_DOWN (mm_base e +u64 mm_length e) PAGE_SIZE in
  let base := if base <? 0x100000 then 0x100000 else base in
  if e_end <=? base then None else Some (phys_to_pfn base, phys_to_pfn e_end).

(** The second pass. *)
Fixpoint mark_usable (mmap : list MemoryMapEntry) : PM unit :=
  match mmap with
  | [] => mret tt
  | e :: mmap' =>
      match usable_range e with
      | None => mret tt
      | Some (start_pfn, end_pfn) =>
          for_ start_pfn end_pfn (λ pfn, upd_page pfn (set_flags 0))
      end ;;
      mark_usable mmap'
  end.

Definition mark_kernel (start_pfn end_pfn : Z) : PM unit :=
  for_ start_pfn end_pfn (λ pfn,
    upd_page pfn (set_flags (Z.lor PAGE_FLAG_KERNEL PAGE_FLAG_RESERVED)) ;;
    modify (λ s, set_kernel (kernel_pages s +u64 1) s)).

Definition mark_initrd (bi : BootInfo) : PM unit :=
  if has (bi_flags bi) BOOT_FLAG_INITRD && negb (bi_initrd_start bi =? 0)
     && negb (bi_initrd_size bi =? 0)
  then
    let initrd_start_pfn := phys_to_pfn (ALIGN_DOWN (bi_initrd_start bi) PAGE_SIZE) in
    let initrd_end_pfn :=
      phys_to_pfn (ALIGN_UP (bi_initrd_start bi +u64 bi_initrd_size bi) PAGE_SIZE) in
    for_ initrd_start_pfn initrd_end_pfn (λ pfn,
      upd_page pfn (set_flags PAGE_FLAG_RESERVED) ;;
      modify (λ s, set_reserved (reserved_pages s +u64 1) s))
  else mret tt.

(** Whether the [n] pages from [pfn] on are all free of the reserved flag. *)
Fixpoint all_free (n : nat) (pfn : Z) : PM bool :=
  match n with
  | O => mret true
  | S n' =>
      pg ← rd_page pfn;
      if has (page_flags pg) PAGE_FLAG_RESERVED then mret false
      else all_free n' (pfn +u64 1)
  end.

(** The largest order, at most [n], of a block that can start at [pfn]. *)
Fixpoint largest_order (n : nat) (pfn end_pfn : Z) : PM Z :=
  match n with
  | O => mret 0
  | S n' =>
      let order := Z.of_nat n in
      let block_pages := Z.shiftl 1 order in
      let block_mask := block_pages - 1 in
      if (Z.land pfn block_mask =? 0) && (pfn +u64 block_pages <=? end_pfn) then
        ok ← all_free (Z.to_nat block_pages) pfn;
        if (ok : bool) then mret order else largest_order n' pfn end_pfn
      else largest_order n' pfn end_pfn
  end.

(** The inner loop of the third pass; it makes at most [end_pfn - pfn] turns. *)
Fixpoint add_region (fuel : nat) (pfn end_pfn : Z) : PM unit :=
  if end_pfn <=? pfn then mret tt else
  match fuel with
  | O => fault
  | S fuel' =>
      pg ← rd_page pfn;
      if has (page_flags pg) PAGE_FLAG_RESERVED then
        add_region fuel' (pfn +u64 1) end_pfn
      else
        order ← largest_order (Z.to_nat MAX_ORDER) pfn end_pfn;
        let block_pages := Z.shiftl 1 order in
        free_list_add pfn order ;;
        add_free_pages (λ n, n +u64 block_pages) ;;
        add_region fuel' (pfn +u64 block_pages) end_pfn
  end.

(** The third pass. *)
Fixpoint add_regions (mmap : list MemoryMapEntry) : PM unit :=
  match mmap with
  | [] => mret tt
  | e :: mmap' =>
      match usable_range e with
      | None => mret tt
      | Some (pfn, end_pfn) => add_region (Z.to_nat (end_pfn - pfn)) pfn end_pfn
      end ;;
      add_regions mmap'
  end.

Definition count_reserved : PM unit :=
  s ← get;
  for_ 0 (total_pages s) (λ pfn,
    pg ← rd_page pfn;
    if has (page_flags pg) PAGE_FLAG_RESERVED && negb (has (page_flags pg) PAGE_FLAG_KERNEL)
    then modify (λ s, set_reserved (reserved_pages s +u64 1) s)
    else mret tt).

(** The state after the loop that resets the page array and the zone. *)
Definition pmm_reset (total_pages page_array_pages : Z) : mem_info :=
  MemInfo total_pages 0 0 0
    (replicate (Z.to_nat total_pages) (Page None None PAGE_FLAG_RESERVED 0 0))
    page_array_pages
    (Zone (replicate (Z.to_nat (MAX_ORDER + 1)) None)
       (replicate (Z.to_nat (MAX_ORDER + 1)) 0) 0 total_pages 0).

(** [kernel_phys_end] is the address of the linker symbol [_kernel_phys_end]. *)
Definition pmm_init (bi : BootInfo) (kernel_phys_end : Z) : PM unit :=
  let mmap := bi_memory_map bi in
  let '(max_phys_addr, _) := scan_map mmap in
  let total_pages := phys_to_pfn (ALIGN_UP max_phys_addr PAGE_SIZE) in
  let page_array_size := total_pages *u64 sizeof_page_t in
  let page_array_pages := ALIGN_UP page_array_size PAGE_SIZE / PAGE_SIZE in
  let page_array_phys := ALIGN_UP kernel_phys_end PAGE_SIZE in
  put (pmm_reset total_pages page_array_pages) ;;
  mark_usable mmap ;;
  mark_kernel (phys_to_pfn 0x200000) (phys_to_pfn (ALIGN_UP kernel_phys_end PAGE_SIZE)) ;;
  mark_kernel (phys_to_pfn page_array_phys)
    (phys_to_pfn (ALIGN_UP (page_array_phys +u64 page_array_size) PAGE_SIZE)) ;;
  mark_initrd bi ;;
  add_regions mmap ;;
  count_reserved.
