(* ===== verification/PmmInv.v ===== *)
(** * The physical memory manager: invariant and theorems (mm/pmm.c)

    The invariant [wf] ties the page descriptors to the free lists: every free
    list is a well-formed doubly linked list of exactly the descriptors marked
    as free blocks of its order, blocks are aligned, inside the zone, disjoint
    and free of reserved pages.  [is_free] is the abstract state: the set of
    free page frames.  The theorems say what each operation does to it. *)

From S2P Require Import Prelude DList Pmm.

(** ** Abstraction and invariant *)

Definition is_buddy (p : page) : bool := has (page_flags p) PAGE_FLAG_BUDDY.
Definition is_reserved (p : page) : bool := has (page_flags p) PAGE_FLAG_RESERVED.

Definition lk_of (ps : list page) : links :=
  λ x, (λ p, (page_prev p, page_next p)) <$> aget ps x.

(** The descriptor [x] heads a free block of order [o]. *)
Definition free_head (ps : list page) (x o : Z) : Prop :=
  ∃ p, aget ps x = Some p ∧ is_buddy p = true ∧ page_order p = o.

(** The page frame [p] is free. *)
Definition is_free (s : mem_info) (p : Z) : Prop :=
  ∃ x o, free_head (page_array s) x o ∧ x ≤ p < x + 2 ^ o.

Definition unreserved (ps : list page) (p : Z) : Prop :=
  ∃ pg, aget ps p = Some pg ∧ is_reserved pg = false.

Record block_ok (s : mem_info) (x o : Z) : Prop := BlockOk {
  bo_order : 0 ≤ o ≤ MAX_ORDER;
  bo_pos : 0 < x;
  bo_align : x mod 2 ^ o = 0;
  bo_end : x + 2 ^ o ≤ total_pages s;
  bo_unres : ∀ p, x ≤ p < x + 2 ^ o → unreserved (page_array s) p }.

(** The free list of order [o] holds exactly the free blocks of that order. *)
Definition list_ok (s : mem_info) (o : Z) : Prop := ∃ L,
  aget (free_lists (mi_zone s)) o = Some (head L) ∧
  aget (free_count (mi_zone s)) o = Some (Z.of_nat (length L)) ∧
  dlist (lk_of (page_array s)) L ∧ NoDup L ∧
  ∀ x, x ∈ L ↔ free_head (page_array s) x o.

Record wf (s : mem_info) : Prop := Wf {
  wf_total : 0 ≤ total_pages s ≤ 2 ^ 52;
  wf_len : alen (page_array s) = total_pages s;
  wf_lists : ∀ o, 0 ≤ o ≤ MAX_ORDER → list_ok s o;
  wf_blocks : ∀ x o, free_head (page_array s) x o → block_ok s x o;
  wf_disj : ∀ x o y q, free_head (page_array s) x o → free_head (page_array s) y q →
    x ≠ y → x + 2 ^ o ≤ y ∨ y + 2 ^ q ≤ x }.

(** The pages of the free blocks, as the free-page counters count them. *)
Definition block_weight (p : page) : Z := if is_buddy p then 2 ^ page_order p else 0.
Definition free_sum (ps : list page) : Z := foldr (λ p n, block_weight p + n) 0 ps.

(** The two free-page counters agree with the free blocks. *)
Definition counts_ok (s : mem_info) : Prop :=
  zone_free_pages (mi_zone s) = free_sum (page_array s) ∧
  mi_free_pages s = free_sum (page_array s).

(** The free lists are coalesced: no block and its buddy are both free. *)
Definition coalesced (s : mem_info) : Prop :=
  ∀ x o, o < MAX_ORDER → free_head (page_array s) x o →
    ¬ free_head (page_array s) (get_buddy_pfn x o) o.

(** What the list operations leave alone: outside [T] the descriptors keep
    their order and whether they head a free block, and everywhere they keep
    their reference count and every flag but the buddy flag. *)
Definition same_meta (p p' : page) : Prop :=
  page_refcount p' = page_refcount p ∧
  ∀ k, k ≠ 0 → Z.testbit (page_flags p') k = Z.testbit (page_flags p) k.

Definition frame (T : Z → Prop) (ps ps' : list page) : Prop :=
  alen ps' = alen ps ∧
  ∀ y p, aget ps y = Some p → ∃ p', aget ps' y = Some p' ∧ same_meta p p' ∧
    (¬ T y → page_order p' = page_order p ∧ is_buddy p' = is_buddy p).

(** What stays the same in [s] but the descriptors and the lists. *)
Definition same_globals (s s' : mem_info) : Prop :=
  total_pages s' = total_pages s ∧ mi_free_pages s' = mi_free_pages s ∧
  reserved_pages s' = reserved_pages s ∧ kernel_pages s' = kernel_pages s ∧
  zone_free_pages (mi_zone s') = zone_free_pages (mi_zone s).

(** ** Flags *)

Lemma is_buddy_bit p : is_buddy p = Z.testbit (page_flags p) 0.
Proof. apply has_bit. lia. Qed.

Lemma is_reserved_bit p : is_reserved p = Z.testbit (page_flags p) 1.
Proof. apply has_bit. lia. Qed.

Lemma is_buddy_set p f : page_flags p = Z.lor f PAGE_FLAG_BUDDY → is_buddy p = true.
Proof.
  intros Hf. rewrite is_buddy_bit, Hf. unfold PAGE_FLAG_BUDDY.
  by rewrite testbit_lor_flag.
Qed.

Lemma is_buddy_cleared p f :
  page_flags p = Z.land f (Z.lnot PAGE_FLAG_BUDDY) → is_buddy p = false.
Proof.
  intros Hf. rewrite is_buddy_bit, Hf. unfold PAGE_FLAG_BUDDY.
  by rewrite testbit_clear_flag.
Qed.

Lemma same_meta_refl p : same_meta p p.
Proof. by split. Qed.

Lemma same_meta_reserved p p' : same_meta p p' → is_reserved p' = is_reserved p.
Proof. intros [_ H]. rewrite !is_reserved_bit. apply H. lia. Qed.

Lemma same_meta_trans p p' p'' : same_meta p p' → same_meta p' p'' → same_meta p p''.
Proof.
  intros [H1 H2] [H3 H4]. split; [congruence|].
  intros k Hk. rewrite H4, H2; done.
Qed.

(** ** Frames *)

Lemma frame_refl T ps : frame T ps ps.
Proof. split; [done|]. intros y p ?. eexists. eauto using same_meta_refl. Qed.

Lemma frame_trans T ps ps' ps'' : frame T ps ps' → frame T ps' ps'' → frame T ps ps''.
Proof.
  intros [Hl1 H1] [Hl2 H2]. split; [congruence|].
  intros y p Hp. destruct (H1 _ _ Hp) as (p' & Hp' & Hm & HT).
  destruct (H2 _ _ Hp') as (p'' & Hp'' & Hm' & HT').
  exists p''. split; [done|]. split; [eauto using same_meta_trans|].
  intros HTy. destruct (HT HTy), (HT' HTy). split; congruence.
Qed.

Lemma frame_mono (T T' : Z → Prop) ps ps' :
  (∀ y, T y → T' y) → frame T ps ps' → frame T' ps ps'.
Proof.
  intros HT [Hl H]. split; [done|]. intros y p Hp.
  destruct (H _ _ Hp) as (p' & ? & ? & HT'). exists p'. naive_solver.
Qed.

Lemma frame_unreserved T ps ps' p : frame T ps ps' → unreserved ps p → unreserved ps' p.
Proof.
  intros [_ H] (pg & Hpg & Hr). destruct (H _ _ Hpg) as (pg' & ? & Hm & _).
  exists pg'. split; [done|]. by rewrite (same_meta_reserved _ _ Hm).
Qed.

Lemma frame_free_head T ps ps' x o :
  frame T ps ps' → ¬ T x → free_head ps' x o ↔ free_head ps x o.
Proof.
  intros [Hl H] HT. split.
  - intros (p' & Hp' & Hb & Ho).
    destruct (aget_is_Some ps x) as [p Hp].
    { rewrite <-Hl. by eapply aget_Some_bounds. }
    destruct (H _ _ Hp) as (p'' & Hp'' & _ & HT'). simplify_eq.
    destruct (HT' HT). exists p. split_and!; congruence.
  - intros (p & Hp & Hb & Ho). destruct (H _ _ Hp) as (p' & Hp' & _ & HT').
    destruct (HT' HT). exists p'. split_and!; congruence.
Qed.

Lemma same_globals_refl s : same_globals s s.
Proof. done. Qed.

Lemma same_globals_trans s s' s'' :
  same_globals s s' → same_globals s' s'' → same_globals s s''.
Proof. unfold same_globals. intuition congruence. Qed.

Lemma free_head_fun ps x o o' : free_head ps x o → free_head ps x o' → o = o'.
Proof. intros (p & ? & ? & ?) (p' & ? & ? & ?). congruence. Qed.

(** ** The sum of the free blocks *)

Lemma free_sum_insert (ps : list page) (i : nat) p p' :
  ps !! i = Some p →
  free_sum (<[i:=p']> ps) = free_sum ps - block_weight p + block_weight p'.
Proof.
  revert i. induction ps as [|q ps IH]; intros [|i] Hi; simplify_eq/=; [lia|].
  rewrite (IH _ Hi). lia.
Qed.

Lemma free_sum_aset ps x p p' :
  aget ps x = Some p →
  free_sum (aset ps x p') = free_sum ps - block_weight p + block_weight p'.
Proof. unfold aget, aset. case_decide; [|done]. apply free_sum_insert. Qed.

(** ** Bounds on the lists *)

Lemma NoDup_length_bound (L : list Z) n :
  0 ≤ n → NoDup L → (∀ x, x ∈ L → 0 ≤ x < n) → Z.of_nat (length L) ≤ n.
Proof.
  intros Hn Hnd HL.
  assert (L ⊆+ seqZ 0 n) as Hsub.
  { apply NoDup_submseteq; [done|]. intros x Hx. apply elem_of_seqZ.
    specialize (HL x Hx). lia. }
  apply submseteq_length in Hsub. rewrite length_seqZ in Hsub. lia.
Qed.

Lemma free_head_bounds s x o :
  wf s → free_head (page_array s) x o → 0 ≤ x < total_pages s.
Proof.
  intros Hwf (p & Hp & _). apply aget_Some_bounds in Hp.
  by rewrite (wf_len _ Hwf) in Hp.
Qed.

(** ** Running the list operations *)

Lemma wp_upd_page p f pg (Q : unit → mem_info → Prop) s :
  aget (page_array s) p = Some pg →
  Q tt (set_pages (aset (page_array s) p (f pg)) s) →
  wp (upd_page p f) Q s.
Proof. intros Hp HQ. unfold upd_page. wp_steps. by wp_steps. Qed.

Lemma wp_rd_page p pg (Q : page → mem_info → Prop) s :
  aget (page_array s) p = Some pg → Q pg s → wp (rd_page p) Q s.
Proof. intros Hp HQ. unfold rd_page. wp_steps. by wp_steps. Qed.

Lemma wp_rd_free_list o h (Q : option Z → mem_info → Prop) s :
  aget (free_lists (mi_zone s)) o = Some h → Q h s → wp (rd_free_list o) Q s.
Proof. intros Hp HQ. unfold rd_free_list. wp_steps. by wp_steps. Qed.

Lemma wp_wr_free_list o h h' (Q : unit → mem_info → Prop) s :
  aget (free_lists (mi_zone s)) o = Some h' →
  Q tt (set_zone (set_free_lists (aset (free_lists (mi_zone s)) o h) (mi_zone s)) s) →
  wp (wr_free_list o h) Q s.
Proof. intros Hp HQ. unfold wr_free_list. wp_steps. by wp_steps. Qed.

Lemma wp_upd_free_count o c f (Q : unit → mem_info → Prop) s :
  aget (free_count (mi_zone s)) o = Some c →
  Q tt (set_zone (set_free_count (aset (free_count (mi_zone s)) o (f c)) (mi_zone s)) s) →
  wp (upd_free_count o f) Q s.
Proof. intros Hp HQ. unfold upd_free_count. wp_steps. by wp_steps. Qed.

(** The descriptors after [free_list_add]. *)
Definition add_pages (ps : list page) (x o : Z) (h : option Z) (px : page) : list page :=
  let ps1 := aset ps x (Page h None (Z.lor (page_flags px) PAGE_FLAG_BUDDY) o
                          (page_refcount px)) in
  match h with
  | Some q => match aget ps1 q with
              | Some pq => aset ps1 q (set_prev (Some x) pq)
              | None => ps1
              end
  | None => ps1
  end.

Lemma free_list_add_run s x o h px c (Q : unit → mem_info → Prop) :
  aget (free_lists (mi_zone s)) o = Some h →
  aget (free_count (mi_zone s)) o = Some c →
  aget (page_array s) x = Some px →
  (∀ q, h = Some q → 0 ≤ q < alen (page_array s)) →
  (∀ s', page_array s' = add_pages (page_array s) x o h px →
     free_lists (mi_zone s') = aset (free_lists (mi_zone s)) o (Some x) →
     free_count (mi_zone s') = aset (free_count (mi_zone s)) o (c +u64 1) →
     same_globals s s' → Q tt s') →
  wp (free_list_add x o) Q s.
Proof.
  intros Hh Hc Hpx Hq HQ. pose proof (aget_Some_bounds _ _ _ Hpx) as Hx.
  unfold free_list_add. wp_steps. eapply wp_rd_free_list; [done|].
  assert (∀ y : page, aget (aset (page_array s) x y) x = Some y) as Hset
    by (intros; by apply aget_aset_eq).
  wp_step. eapply wp_upd_page; [done|]. simpl.
  wp_step. eapply wp_upd_page; [apply Hset|]. simpl. rewrite aset_aset.
  wp_step. eapply wp_upd_page; [apply Hset|]. simpl. rewrite aset_aset.
  wp_step. eapply wp_upd_page; [apply Hset|]. simpl. rewrite aset_aset.
  set (px' := or_flags _ _).
  assert (px' = Page h None (Z.lor (page_flags px) PAGE_FLAG_BUDDY) o (page_refcount px))
    as Hpx' by done. clearbody px'. subst px'.
  wp_step.
  assert (∀ ps', ps' = add_pages (page_array s) x o h px →
    wp (wr_free_list o (Some x) ;; upd_free_count o (λ c, c +u64 1)) Q
       (set_pages ps' s)) as Hrest.
  { intros ps' Hps'. wp_step. eapply wp_wr_free_list; [done|].
    eapply wp_upd_free_count; [done|]. apply HQ; done. }
  destruct h as [q|].
  - assert (is_Some (aget (aset (page_array s) x (Page (Some q) None
        (Z.lor (page_flags px) PAGE_FLAG_BUDDY) o (page_refcount px))) q)) as [pq Hpq].
    { apply aget_is_Some. rewrite alen_aset. by apply Hq. }
    eapply wp_upd_page; [exact Hpq|]. apply Hrest.
    unfold add_pages. by rewrite Hpq.
  - apply wp_ret, Hrest. done.
Qed.

Section add_pages.
Context (ps : list page) (x o : Z) (h : option Z) (px : page).
Hypothesis Hpx : aget ps x = Some px.
Hypothesis Hh : ∀ q, h = Some q → q ≠ x ∧ is_Some (aget ps q).

Lemma add_pages_len : alen (add_pages ps x o h px) = alen ps.
Proof. unfold add_pages. destruct h; [case_match|]; by rewrite ?alen_aset. Qed.

Lemma add_pages_get y :
  aget (add_pages ps x o h px) y =
    if decide (y = x) then
      Some (Page h None (Z.lor (page_flags px) PAGE_FLAG_BUDDY) o (page_refcount px))
    else if decide (h = Some y) then set_prev (Some x) <$> aget ps y
    else aget ps y.
Proof.
  pose proof (aget_Some_bounds _ _ _ Hpx) as Hx.
  unfold add_pages. destruct h as [q|].
  - destruct (Hh q eq_refl) as [Hqx [pq Hpq]].
    pose proof (aget_Some_bounds _ _ _ Hpq) as Hq.
    rewrite (aget_aset_ne _ x q), Hpq by done.
    rewrite (aget_aset _ q y), alen_aset.
    destruct (decide (y = x)) as [->|Hyx].
    { rewrite decide_False by naive_solver. by rewrite aget_aset_eq. }
    destruct (decide (Some q = Some y)) as [Heq|Hyq].
    { simplify_eq. rewrite decide_True by done. by rewrite Hpq. }
    rewrite decide_False by naive_solver. by rewrite aget_aset_ne.
  - destruct (decide (y = x)) as [->|Hyx].
    { by rewrite aget_aset_eq. }
    by rewrite aget_aset_ne.
Qed.

Lemma add_pages_frame : frame (λ y, y = x) ps (add_pages ps x o h px).
Proof.
  split; [apply add_pages_len|]. intros y p Hp. rewrite add_pages_get, Hp.
  destruct (decide (y = x)) as [->|Hyx].
  - eexists. split; [done|]. simplify_eq. split; [|done].
    split; [done|]. intros k Hk. simpl. unfold PAGE_FLAG_BUDDY.
    rewrite testbit_lor_flag by lia. by rewrite decide_False.
  - case_decide; simpl; eexists; (split; [done|]); by split; [split|].
Qed.

Lemma add_pages_free_head y q :
  is_buddy px = false →
  free_head (add_pages ps x o h px) y q ↔ free_head ps y q ∨ (y = x ∧ q = o).
Proof.
  intros Hnb. destruct (decide (y = x)) as [->|Hyx].
  - split.
    + intros (p & Hp & _ & Ho). rewrite add_pages_get, decide_True in Hp by done.
      simplify_eq. naive_solver.
    + intros [(p & Hp & Hb & _)|[_ ->]]; [congruence|].
      eexists. rewrite add_pages_get, decide_True by done. split; [done|]. split; [|done].
      by eapply is_buddy_set.
  - rewrite (frame_free_head _ _ _ _ _ add_pages_frame) by done. naive_solver.
Qed.

Lemma add_pages_sum :
  is_buddy px = false → free_sum (add_pages ps x o h px) = free_sum ps + 2 ^ o.
Proof.
  intros Hnb. pose proof (aget_Some_bounds _ _ _ Hpx) as Hx. unfold add_pages.
  set (px' := Page _ _ _ _ _).
  assert (block_weight px' = 2 ^ o) as Hw.
  { unfold block_weight. by erewrite (is_buddy_set px'). }
  assert (block_weight px = 0) as Hw0 by (unfold block_weight; by rewrite Hnb).
  pose proof (free_sum_aset _ _ _ px' Hpx) as Hsum.
  destruct h as [q|]; [|lia].
  destruct (Hh q eq_refl) as [Hqx [pq Hpq]].
  rewrite aget_aset_ne, Hpq by done.
  erewrite (free_sum_aset _ q); [|by rewrite aget_aset_ne, Hpq].
  change (block_weight (set_prev (Some x) pq)) with (block_weight pq). lia.
Qed.

Lemma add_pages_lk_ne y :
  y ≠ x → h ≠ Some y → lk_of (add_pages ps x o h px) y = lk_of ps y.
Proof.
  intros. unfold lk_of. by rewrite add_pages_get, !decide_False by done.
Qed.

Lemma add_pages_dlist L :
  h = head L → x ∉ L → NoDup L → dlist (lk_of ps) L →
  dlist (lk_of (add_pages ps x o h px)) (x :: L).
Proof.
  intros HhL Hx Hnd HL. apply (dlist_insert (lk_of ps) _ [] x L); [done|done| |done| |].
  - unfold lk_of. rewrite add_pages_get, decide_True by done. by rewrite HhL.
  - intros b Hb. unfold lk_of. rewrite add_pages_get, decide_False, decide_True.
    + by destruct (aget ps b).
    + by rewrite HhL.
    + intros ->. by apply Hx, head_Some_elem_of.
  - intros y Hy _ Hhd. apply add_pages_lk_ne; [|by rewrite HhL].
    intros ->. done.
Qed.

End add_pages.

(** A block may be put on the free list of its order when none of its pages
    is free or reserved. *)
Definition addable (s : mem_info) (x o : Z) : Prop :=
  block_ok s x o ∧ ∀ p, x ≤ p < x + 2 ^ o → ¬ is_free s p.

Lemma pow2_pos o : 0 ≤ o → 0 < 2 ^ o.
Proof. intros. apply Z.pow_pos_nonneg; lia. Qed.

Lemma list_ok_frame s s' x o :
  frame (λ y, y = x) (page_array s) (page_array s') →
  aget (free_lists (mi_zone s')) o = aget (free_lists (mi_zone s)) o →
  aget (free_count (mi_zone s')) o = aget (free_count (mi_zone s)) o →
  ¬ free_head (page_array s) x o → ¬ free_head (page_array s') x o →
  (∀ y, free_head (page_array s) y o →
     lk_of (page_array s') y = lk_of (page_array s) y) →
  list_ok s o → list_ok s' o.
Proof.
  intros Hfr Hfl Hfc Hx Hx' Hlk (L & H1 & H2 & H3 & H4 & H5).
  exists L. rewrite Hfl, Hfc. split_and!; try done.
  - eapply dlseg_ext; [|exact H3]. intros y Hy. apply Hlk, H5, Hy.
  - intros y. rewrite H5. destruct (decide (y = x)) as [->|]; [tauto|].
    by rewrite (frame_free_head _ _ _ _ _ Hfr).
Qed.

Lemma block_ok_frame T s s' x o :
  frame T (page_array s) (page_array s') → total_pages s' = total_pages s →
  block_ok s x o → block_ok s' x o.
Proof.
  intros Hfr Ht [????]. split; [done..| |].
  - by rewrite Ht.
  - eauto using frame_unreserved.
Qed.

Lemma addable_not_buddy s x o px :
  wf s → addable s x o → aget (page_array s) x = Some px → is_buddy px = false.
Proof.
  intros Hwf [[Ho ??? _] Hnf] Hpx. destruct (is_buddy px) eqn:Hb; [|done].
  assert (free_head (page_array s) x (page_order px)) as Hf by (exists px; done).
  pose proof (pow2_pos o ltac:(lia)).
  pose proof (pow2_pos (page_order px) ltac:(by apply (wf_blocks _ Hwf) in Hf as [[]])).
  destruct (Hnf x); [lia|]. exists x, (page_order px). split; [done|lia].
Qed.

(** [s'] is [s] with the free block [x] of order [o] added. *)
Record added (s s' : mem_info) (x o : Z) : Prop := Added {
  ad_wf : wf s';
  ad_heads : ∀ y q, free_head (page_array s') y q ↔
    free_head (page_array s) y q ∨ (y = x ∧ q = o);
  ad_frame : frame (λ y, y = x) (page_array s) (page_array s');
  ad_globals : same_globals s s';
  ad_sum : free_sum (page_array s') = free_sum (page_array s) + 2 ^ o }.

Lemma add_lists_ok s s' x o L px :
  wf s → addable s x o → aget (page_array s) x = Some px →
  aget (free_lists (mi_zone s)) o = Some (head L) →
  aget (free_count (mi_zone s)) o = Some (Z.of_nat (length L)) →
  dlist (lk_of (page_array s)) L → NoDup L →
  (∀ y, y ∈ L ↔ free_head (page_array s) y o) →
  page_array s' = add_pages (page_array s) x o (head L) px →
  free_lists (mi_zone s') = aset (free_lists (mi_zone s)) o (Some x) →
  free_count (mi_zone s') = aset (free_count (mi_zone s)) o (Z.of_nat (length L) +u64 1) →
  ∀ o', 0 ≤ o' ≤ MAX_ORDER → list_ok s' o'.
Proof.
  intros Hwf Hadd Hpx Hhd Hc Hdl Hnd HL Hps Hfl Hfc o' Ho'.
  pose proof (addable_not_buddy _ _ _ _ Hwf Hadd Hpx) as Hnb.
  assert (∀ q, ¬ free_head (page_array s) x q) as Hxf.
  { intros q (p & ? & ? & _). congruence. }
  assert (x ∉ L) as HxL by (rewrite HL; apply Hxf).
  assert (∀ q, head L = Some q → q ≠ x ∧ is_Some (aget (page_array s) q)) as Hh.
  { intros q Hq%head_Some_elem_of. split; [by intros ->|].
    apply HL in Hq as (p & -> & _). eauto. }
  destruct (decide (o' = o)) as [->|Hne].
  - exists (x :: L). rewrite Hfl, Hfc, Hps.
    assert (Z.of_nat (length L) ≤ total_pages s).
    { apply NoDup_length_bound; [apply (wf_total _ Hwf)|done|].
      intros y Hy%HL. by eapply free_head_bounds. }
    pose proof (wf_total _ Hwf).
    rewrite !aget_aset_eq by (eapply aget_Some_bounds; done).
    rewrite wrap_small by (simpl; lia).
    split_and!; [done|f_equal; simpl; lia| | |].
    + by apply add_pages_dlist.
    + by apply NoDup_cons.
    + intros y. rewrite add_pages_free_head by done. rewrite elem_of_cons, HL. naive_solver.
  - eapply (list_ok_frame s s' x); [| | |apply Hxf| | |by apply (wf_lists _ Hwf)].
    + rewrite Hps. by apply add_pages_frame.
    + rewrite Hfl. by apply aget_aset_ne.
    + rewrite Hfc. by apply aget_aset_ne.
    + rewrite Hps, add_pages_free_head by done. naive_solver.
    + intros y Hy. rewrite Hps. apply add_pages_lk_ne; [done..| |].
      * intros ->. by apply (Hxf o').
      * intros Hyh%head_Some_elem_of. apply HL in Hyh.
        by apply Hne, (free_head_fun (page_array s) y).
Qed.

Lemma free_list_add_spec s x o :
  wf s → addable s x o → wp (free_list_add x o) (λ _ s', added s s' x o) s.
Proof.
  intros Hwf Hadd. pose proof Hadd as [[Ho Hx Hal Hend Hun] Hnf].
  pose proof (pow2_pos o ltac:(lia)).
  destruct (wf_lists _ Hwf o Ho) as (L & Hhd & Hc & Hdl & Hnd & HL).
  destruct (aget_is_Some (page_array s) x) as [px Hpx].
  { rewrite (wf_len _ Hwf). lia. }
  pose proof (addable_not_buddy _ _ _ _ Hwf Hadd Hpx) as Hnb.
  assert (∀ q, head L = Some q → q ≠ x ∧ is_Some (aget (page_array s) q)) as Hh.
  { intros q Hq%head_Some_elem_of. apply HL in Hq as (p & Hp & Hb & _).
    split; [|eauto]. intros ->. congruence. }
  eapply free_list_add_run; [done..| |].
  { intros q Hq. destruct (Hh q Hq) as [_ [p ?]]. by eapply aget_Some_bounds. }
  intros s' Hps Hfl Hfc Hg.
  assert (frame (λ y, y = x) (page_array s) (page_array s')) as Hfr.
  { rewrite Hps. by apply add_pages_frame. }
  assert (∀ y q, free_head (page_array s') y q ↔
    free_head (page_array s) y q ∨ (y = x ∧ q = o)) as Hheads.
  { intros y q. rewrite Hps. by apply add_pages_free_head. }
  assert (total_pages s' = total_pages s) as Htot by apply Hg.
  split; [|done..|rewrite Hps; by apply add_pages_sum].
  split.
  - rewrite Htot. apply (wf_total _ Hwf).
  - rewrite Hps, add_pages_len, Htot by done. apply (wf_len _ Hwf).
  - by eapply add_lists_ok.
  - intros y q [Hy|[-> ->]]%Hheads; eapply block_ok_frame; try done.
    by apply (wf_blocks _ Hwf).
  - assert (∀ y q, free_head (page_array s) y q → x + 2 ^ o ≤ y ∨ y + 2 ^ q ≤ x) as Hd.
    { intros y q Hy. pose proof (wf_blocks _ Hwf _ _ Hy) as [Hq Hy0 Hya Hye _].
      pose proof (pow2_pos q ltac:(lia)).
      destruct (decide (x + 2 ^ o ≤ y)); [by left|].
      destruct (decide (y + 2 ^ q ≤ x)); [by right|].
      destruct (Hnf (Z.max x y)); [lia|]. exists y, q. split; [done|lia]. }
    intros y1 q1 y2 q2 [H1|[-> ->]]%Hheads [H2|[-> ->]]%Hheads Hne; [|..|done].
    + by apply (wf_disj _ Hwf).
    + destruct (Hd _ _ H1); lia.
    + destruct (Hd _ _ H2); lia.
Qed.

(** ** Removal *)

(** An update through a pointer that may be NULL. *)
Definition upd_opt (ps : list page) (q : option Z) (f : page → page) : list page :=
  match q with
  | Some q => match aget ps q with Some pq => aset ps q (f pq) | None => ps end
  | None => ps
  end.

Lemma upd_opt_len ps q f : alen (upd_opt ps q f) = alen ps.
Proof. destruct q; simpl; [case_match|]; by rewrite ?alen_aset. Qed.

Lemma upd_opt_get ps q f y :
  aget (upd_opt ps q f) y = if decide (q = Some y) then f <$> aget ps y else aget ps y.
Proof.
  destruct q as [q|]; simpl; [|done].
  destruct (decide (q = y)) as [->|Hne].
  - rewrite (decide_True (P := Some y = Some y)) by done.
    destruct (aget ps y) as [py|] eqn:Hy; simpl; [|done].
    apply aget_aset_eq. by eapply aget_Some_bounds.
  - rewrite decide_False by congruence. case_match; [|done]. by apply aget_aset_ne.
Qed.

Lemma upd_opt_sum ps q f :
  (∀ p, block_weight (f p) = block_weight p) → free_sum (upd_opt ps q f) = free_sum ps.
Proof.
  intros Hf. destruct q as [q|]; simpl; [|done]. case_match eqn:Hq; [|done].
  rewrite (free_sum_aset _ _ _ _ Hq), Hf. lia.
Qed.

Lemma wp_upd_opt q f (Q : unit → mem_info → Prop) s :
  (∀ y, q = Some y → is_Some (aget (page_array s) y)) →
  Q tt (set_pages (upd_opt (page_array s) q f) s) →
  wp (match q with Some y => upd_page y f | None => mret tt end) Q s.
Proof.
  intros Hq HQ. destruct q as [y|].
  - destruct (Hq y eq_refl) as [p Hp]. eapply wp_upd_page; [done|].
    simpl in HQ. by rewrite Hp in HQ.
  - apply wp_ret. by destruct s.
Qed.

Definition remove_pages (ps : list page) (x : Z) (pr nx : option Z) (px : page) :=
  aset (upd_opt (upd_opt ps pr (set_next nx)) nx (set_prev pr)) x
    (Page None None (Z.land (page_flags px) (Z.lnot PAGE_FLAG_BUDDY))
       (page_order px) (page_refcount px)).

Lemma free_list_remove_run s x o pr nx px h c (Q : unit → mem_info → Prop) :
  aget (free_lists (mi_zone s)) o = Some h →
  aget (free_count (mi_zone s)) o = Some c →
  aget (page_array s) x = Some px → page_prev px = pr → page_next px = nx →
  pr ≠ Some x → nx ≠ Some x →
  (∀ q, pr = Some q → is_Some (aget (page_array s) q)) →
  (∀ q, nx = Some q → is_Some (aget (page_array s) q)) →
  (∀ s', page_array s' = remove_pages (page_array s) x pr nx px →
     free_lists (mi_zone s') =
       (if pr is Some _ then free_lists (mi_zone s) else aset (free_lists (mi_zone s)) o nx) →
     free_count (mi_zone s') = aset (free_count (mi_zone s)) o (c -u64 1) →
     same_globals s s' → Q tt s') →
  wp (free_list_remove x o) Q s.
Proof.
  intros Hh Hc Hpx Hpr Hnx Hprx Hnxx Hprs Hnxs HQ.
  pose proof (aget_Some_bounds _ _ _ Hpx) as Hx.
  unfold free_list_remove. wp_step. eapply wp_rd_page; [done|]. wp_step.
  assert (∀ s1, page_array s1 = upd_opt (page_array s) pr (set_next nx) →
    free_lists (mi_zone s1) =
       (if pr is Some _ then free_lists (mi_zone s) else aset (free_lists (mi_zone s)) o nx) →
    free_count (mi_zone s1) = free_count (mi_zone s) → same_globals s s1 →
    wp (p ← rd_page x;
        match page_next p with
        | Some n => upd_page n (set_prev (page_prev p))
        | None => mret tt
        end ;;
        upd_page x (set_prev None) ;; upd_page x (set_next None) ;;
        upd_page x (clear_flags PAGE_FLAG_BUDDY) ;;
        upd_free_count o (λ c, c -u64 1)) Q s1) as Hrest.
  { intros s1 Hps1 Hfl1 Hfc1 Hg1.
    assert (aget (page_array s1) x = Some px) as Hpx1.
    { rewrite Hps1, upd_opt_get. by rewrite decide_False. }
    wp_step. eapply wp_rd_page; [done|]. rewrite Hpr, Hnx.
    wp_step. eapply wp_upd_opt.
    { intros y Hy. rewrite Hps1, upd_opt_get. destruct (Hnxs y Hy) as [p ->].
      case_decide; eauto. }
    assert (∀ y : page, aget (aset (upd_opt (page_array s1) nx (set_prev pr)) x y) x = Some y)
      as Hset.
    { intros y. apply aget_aset_eq. by rewrite upd_opt_len, Hps1, upd_opt_len. }
    wp_step. eapply wp_upd_page.
    { simpl. rewrite upd_opt_get, decide_False by done. exact Hpx1. }
    wp_step. eapply wp_upd_page; [apply Hset|]. simpl. rewrite aset_aset.
    wp_step. eapply wp_upd_page; [apply Hset|]. simpl. rewrite aset_aset.
    eapply wp_upd_free_count; [simpl; by rewrite Hfc1|].
    apply HQ; simpl; [|done|by rewrite Hfc1|done].
    unfold remove_pages. by rewrite Hps1. }
  rewrite Hpr, Hnx. destruct pr as [q|].
  - destruct (Hprs q eq_refl) as [pq Hpq].
    eapply wp_upd_page; [done|]. apply Hrest; simpl; [by rewrite Hpq|done..].
  - eapply wp_wr_free_list; [done|]. by apply Hrest.
Qed.

Section remove_pages.
Context (ps : list page) (A B : list Z) (x : Z) (px : page).
Hypothesis Hpx : aget ps x = Some px.
Hypothesis Hnd : NoDup (A ++ x :: B).
Abbreviation ps' := (remove_pages ps x (last A) (head B) px).

Lemma remove_nd : NoDup (A ++ B) ∧ x ∉ A ++ B.
Proof.
  pose proof Hnd as H. rewrite <-Permutation_middle in H.
  apply NoDup_cons in H. tauto.
Qed.

Lemma remove_pages_len : alen ps' = alen ps.
Proof. unfold remove_pages. by rewrite alen_aset, !upd_opt_len. Qed.

Lemma remove_pages_get y :
  aget ps' y =
    if decide (y = x) then
      Some (Page None None (Z.land (page_flags px) (Z.lnot PAGE_FLAG_BUDDY))
              (page_order px) (page_refcount px))
    else if decide (last A = Some y) then set_next (head B) <$> aget ps y
    else if decide (head B = Some y) then set_prev (last A) <$> aget ps y
    else aget ps y.
Proof.
  pose proof (aget_Some_bounds _ _ _ Hpx) as Hx. unfold remove_pages.
  destruct (decide (y = x)) as [->|Hyx].
  { apply aget_aset_eq. by rewrite !upd_opt_len. }
  rewrite aget_aset_ne, !upd_opt_get by done.
  destruct (decide (last A = Some y)) as [HA|]; [|done].
  rewrite decide_False; [done|]. intros HB.
  pose proof remove_nd as [Hnd' _]. apply NoDup_app in Hnd' as (_ & Hd & _).
  apply (Hd y); [by apply last_Some_elem_of|by apply head_Some_elem_of].
Qed.

Lemma remove_pages_frame : frame (λ y, y = x) ps ps'.
Proof.
  split; [apply remove_pages_len|]. intros y p Hp. rewrite remove_pages_get, Hp.
  destruct (decide (y = x)) as [->|Hyx].
  - eexists. split; [done|]. simplify_eq. split; [|done].
    split; [done|]. intros k Hk. cbn [page_flags]. unfold PAGE_FLAG_BUDDY.
    rewrite testbit_clear_flag by lia. by rewrite decide_False.
  - repeat case_decide; simpl; eexists; (split; [done|]); by split; [split|].
Qed.

Lemma remove_pages_free_head y q :
  free_head ps' y q ↔ free_head ps y q ∧ y ≠ x.
Proof.
  destruct (decide (y = x)) as [->|Hyx].
  - split; [|tauto]. intros (p & Hp & Hb & _).
    rewrite remove_pages_get, decide_True in Hp by done. simplify_eq.
    by erewrite is_buddy_cleared in Hb.
  - rewrite (frame_free_head _ _ _ _ _ remove_pages_frame) by done. tauto.
Qed.

Lemma remove_pages_sum : free_sum ps' = free_sum ps - block_weight px.
Proof.
  unfold remove_pages. rewrite (free_sum_aset _ x px).
  - rewrite !upd_opt_sum by done. unfold block_weight at 2.
    erewrite (is_buddy_cleared (Page _ _ _ _ _)) by done. lia.
  - rewrite !upd_opt_get. rewrite !decide_False; [done| |].
    + intros Hl%last_Some_elem_of. apply remove_nd. set_solver.
    + intros Hl%head_Some_elem_of. apply remove_nd. set_solver.
Qed.

Lemma remove_pages_dlist : dlist (lk_of ps) (A ++ x :: B) → dlist (lk_of ps') (A ++ B).
Proof.
  pose proof remove_nd as [Hnd' Hx]. intros HL.
  eapply dlist_remove; [exact HL|done|..].
  - intros a Ha. unfold lk_of. rewrite remove_pages_get, decide_False, decide_True;
      [by destruct (aget ps a)|done|].
    intros ->. apply Hx. apply last_Some_elem_of in Ha. set_solver.
  - intros b Hb. unfold lk_of. rewrite remove_pages_get, decide_False.
    2: { intros ->. apply Hx. apply head_Some_elem_of in Hb. set_solver. }
    rewrite decide_False, decide_True; [by destruct (aget ps b)|done|].
    intros Ha. apply NoDup_app in Hnd' as (_ & Hd & _).
    apply (Hd b); [by apply last_Some_elem_of|by apply head_Some_elem_of].
  - intros y Hy HA HB. unfold lk_of. rewrite remove_pages_get, !decide_False; try done.
    by intros ->.
Qed.

End remove_pages.

(** [s'] is [s] with the free block [x] of order [o] taken out. *)
Record removed (s s' : mem_info) (x o : Z) : Prop := Removed {
  rm_wf : wf s';
  rm_heads : ∀ y q, free_head (page_array s') y q ↔ free_head (page_array s) y q ∧ y ≠ x;
  rm_frame : frame (λ y, y = x) (page_array s) (page_array s');
  rm_globals : same_globals s s';
  rm_sum : free_sum (page_array s') = free_sum (page_array s) - 2 ^ o }.

Lemma remove_lists_ok s s' x o A B px :
  wf s → free_head (page_array s) x o → aget (page_array s) x = Some px →
  aget (free_lists (mi_zone s)) o = Some (head (A ++ x :: B)) →
  aget (free_count (mi_zone s)) o = Some (Z.of_nat (length (A ++ x :: B))) →
  dlist (lk_of (page_array s)) (A ++ x :: B) → NoDup (A ++ x :: B) →
  (∀ y, y ∈ A ++ x :: B ↔ free_head (page_array s) y o) →
  page_array s' = remove_pages (page_array s) x (last A) (head B) px →
  free_lists (mi_zone s') =
    (if last A is Some _ then free_lists (mi_zone s)
     else aset (free_lists (mi_zone s)) o (head B)) →
  free_count (mi_zone s') =
    aset (free_count (mi_zone s)) o (Z.of_nat (length (A ++ x :: B)) -u64 1) →
  ∀ o', 0 ≤ o' ≤ MAX_ORDER → list_ok s' o'.
Proof.
  intros Hwf Hxo Hpx Hhd Hc Hdl Hnd HL Hps Hfl Hfc o' Ho'.
  pose proof (remove_nd _ _ _ Hnd) as [Hnd' HxAB].
  destruct (decide (o' = o)) as [->|Hne].
  - exists (A ++ B). rewrite Hfl, Hfc, Hps.
    assert (Z.of_nat (length (A ++ x :: B)) ≤ total_pages s).
    { apply NoDup_length_bound; [apply (wf_total _ Hwf)|done|].
      intros y Hy%HL. by eapply free_head_bounds. }
    pose proof (wf_total _ Hwf). rewrite length_app in *. cbn [length] in *.
    rewrite (aget_aset_eq (free_count _)) by (eapply aget_Some_bounds; done).
    rewrite wrap_small by lia. split_and!; [|f_equal; rewrite length_app; lia| |done|].
    + destruct A as [|a A] using rev_ind.
      * apply aget_aset_eq. by eapply aget_Some_bounds.
      * rewrite last_snoc. clear -Hhd. by destruct A.
    + by apply remove_pages_dlist.
    + intros y. rewrite remove_pages_free_head by done. rewrite <-HL. set_solver.
  - assert (¬ free_head (page_array s) x o') as Hxo'.
    { intros ?. by apply Hne, (free_head_fun (page_array s) x). }
    eapply (list_ok_frame s s' x); [| | |done| | |by apply (wf_lists _ Hwf)].
    + rewrite Hps. by apply remove_pages_frame.
    + rewrite Hfl. case_match; [done|]. by apply aget_aset_ne.
    + rewrite Hfc. by apply aget_aset_ne.
    + rewrite Hps, remove_pages_free_head by done. tauto.
    + intros y Hy. assert (y ∉ A ++ x :: B) as HyL.
      { rewrite HL. intros ?. by apply Hne, (free_head_fun (page_array s) y). }
      unfold lk_of. rewrite Hps, remove_pages_get, !decide_False; try done.
      * intros Hh%head_Some_elem_of. set_solver.
      * intros Hh%last_Some_elem_of. set_solver.
      * intros ->. set_solver.
Qed.

Lemma free_list_remove_spec s x o :
  wf s → free_head (page_array s) x o →
  wp (free_list_remove x o) (λ _ s', removed s s' x o) s.
Proof.
  intros Hwf Hxo. pose proof (wf_blocks _ Hwf _ _ Hxo) as [Ho Hx Hal Hend Hun].
  destruct (wf_lists _ Hwf o Ho) as (L & Hhd & Hc & Hdl & Hnd & HL).
  destruct (list_elem_of_split L x (proj2 (HL x) Hxo)) as (A & B & ->).
  pose proof (dlist_links _ _ _ _ Hdl) as Hlk. pose proof Hxo as (px & Hpx & Hb & Hpo).
  unfold lk_of in Hlk. rewrite Hpx in Hlk. injection Hlk as Hpr Hnx.
  pose proof (remove_nd _ _ _ Hnd) as [Hnd' HxAB].
  assert (∀ q, q ∈ A ++ x :: B → is_Some (aget (page_array s) q)) as Hin.
  { intros q (p & -> & _)%HL. eauto. }
  eapply free_list_remove_run; [exact Hhd|exact Hc|exact Hpx|exact Hpr|exact Hnx|..].
  { intros Hq%last_Some_elem_of. set_solver. }
  { intros Hq%head_Some_elem_of. set_solver. }
  { intros q Hq%last_Some_elem_of. apply Hin. set_solver. }
  { intros q Hq%head_Some_elem_of. apply Hin. set_solver. }
  intros s' Hps Hfl Hfc Hg.
  assert (frame (λ y, y = x) (page_array s) (page_array s')) as Hfr.
  { rewrite Hps. by apply remove_pages_frame. }
  assert (∀ y q, free_head (page_array s') y q ↔ free_head (page_array s) y q ∧ y ≠ x)
    as Hheads.
  { intros y q. rewrite Hps. by apply remove_pages_free_head. }
  assert (total_pages s' = total_pages s) as Htot by apply Hg.
  split; [|done..|].
  - split.
    + rewrite Htot. apply (wf_total _ Hwf).
    + rewrite Hps, remove_pages_len, Htot. apply (wf_len _ Hwf).
    + by eapply remove_lists_ok.
    + intros y q [Hy _]%Hheads. eapply block_ok_frame; [done..|].
      by apply (wf_blocks _ Hwf).
    + intros y1 q1 y2 q2 [H1' _]%Hheads [H2' _]%Hheads. by apply (wf_disj _ Hwf).
  - rewrite Hps, remove_pages_sum by done. unfold block_weight. by rewrite Hb, Hpo.
Qed.

(** ** Updates that leave the lists alone *)

(** The fields the free lists are made of. *)
Definition touch_ok (p p' : page) : Prop :=
  page_next p' = page_next p ∧ page_prev p' = page_prev p ∧
  is_buddy p' = is_buddy p ∧ is_reserved p' = is_reserved p ∧
  (is_buddy p = true → page_order p' = page_order p).

(** Nothing the allocator's lists depend on differs between [s] and [s']. *)
Record quiet (s s' : mem_info) : Prop := Quiet {
  qt_wf : wf s';
  qt_heads : ∀ y q, free_head (page_array s') y q ↔ free_head (page_array s) y q;
  qt_sum : free_sum (page_array s') = free_sum (page_array s);
  qt_unres : ∀ p, unreserved (page_array s) p → unreserved (page_array s') p;
  qt_globals : same_globals s s' }.

Lemma quiet_refl s : wf s → quiet s s.
Proof. by split. Qed.

Lemma quiet_trans s s' s'' : quiet s s' → quiet s' s'' → quiet s s''.
Proof.
  intros [????] [????]. split; [done|..].
  - intros y q. by rewrite qt_heads1.
  - congruence.
  - auto.
  - eauto using same_globals_trans.
Qed.

Lemma quiet_is_free s s' p : quiet s s' → is_free s' p ↔ is_free s p.
Proof. intros [? H _ _ _]. unfold is_free. by setoid_rewrite H. Qed.

Lemma touch_heads ps x p p' y q :
  aget ps x = Some p → touch_ok p p' →
  free_head (aset ps x p') y q ↔ free_head ps y q.
Proof.
  intros Hp (_ & _ & Hb & _ & Ho). unfold free_head. rewrite aget_aset.
  case_decide as Hd; [|done]. destruct Hd as [-> _]. split.
  - intros (? & [= <-] & Hb' & <-). exists p. rewrite Hb in Hb'. by rewrite Ho.
  - intros (? & ? & Hb' & <-). simplify_eq. exists p'. rewrite Hb, Ho; done.
Qed.

Lemma quiet_touch s x p p' :
  wf s → aget (page_array s) x = Some p → touch_ok p p' →
  quiet s (set_pages (aset (page_array s) x p') s).
Proof.
  intros Hwf Hp Ht. pose proof Ht as (Hn & Hv & Hb & Hr & Ho).
  pose proof (λ y q, touch_heads _ _ _ _ y q Hp Ht) as Hheads.
  assert (∀ y, unreserved (page_array s) y → unreserved (aset (page_array s) x p') y) as Hun.
  { intros y (py & Hy & Hry). unfold unreserved. rewrite aget_aset.
    case_decide as Hd; [|eauto]. destruct Hd as [-> _]. simplify_eq.
    exists p'. by rewrite Hr. }
  split; [|done|..|done|done].
  - split; simpl.
    + apply (wf_total _ Hwf).
    + rewrite alen_aset. apply (wf_len _ Hwf).
    + intros o Hoo. destruct (wf_lists _ Hwf o Hoo) as (L & H1 & H2 & H3 & H4 & H5).
      exists L. simpl. split_and!; try done.
      * eapply dlseg_ext; [|exact H3]. intros y _. unfold lk_of. rewrite aget_aset.
        case_decide as Hd; [|done]. destruct Hd as [-> _]. rewrite Hp. simpl. congruence.
      * intros y. by rewrite H5, Hheads.
    + intros y q Hy%Hheads. destruct (wf_blocks _ Hwf _ _ Hy). split; simpl; auto.
    + intros y1 q1 y2 q2 H1%Hheads H2%Hheads. by apply (wf_disj _ Hwf).
  - simpl. rewrite (free_sum_aset _ _ _ _ Hp). unfold block_weight. rewrite Hb.
    destruct (is_buddy p); [rewrite Ho by done|]; lia.
Qed.

Lemma wp_touch s x p f (Q : unit → mem_info → Prop) :
  wf s → aget (page_array s) x = Some p → touch_ok p (f p) →
  (∀ s', quiet s s' → page_array s' = aset (page_array s) x (f p) → Q tt s') →
  wp (upd_page x f) Q s.
Proof.
  intros Hwf Hp Ht HQ. eapply wp_upd_page; [done|]. apply HQ; [|done].
  by eapply quiet_touch.
Qed.

(** The flags [HEAD] and [TAIL] and the reference count may be touched. *)
Lemma touch_or_flags k p : 2 ≤ k → touch_ok p (or_flags (Z.shiftl 1 k) p).
Proof.
  intros Hk. unfold touch_ok. rewrite !is_buddy_bit, !is_reserved_bit.
  cbn [or_flags set_flags page_flags page_next page_prev page_order].
  rewrite !testbit_lor_flag, !decide_False by lia. done.
Qed.

Lemma touch_clear_flags k p : 2 ≤ k → touch_ok p (clear_flags (Z.shiftl 1 k) p).
Proof.
  intros Hk. unfold touch_ok. rewrite !is_buddy_bit, !is_reserved_bit.
  cbn [clear_flags set_flags page_flags page_next page_prev page_order].
  rewrite !testbit_clear_flag, !decide_False by lia. done.
Qed.

Lemma touch_refcount r p : touch_ok p (set_refcount r p).
Proof. done. Qed.

(** A loop that touches the pages after the first one of a block. *)
Lemma wp_touch_range s pfn n f g (Q : unit → mem_info → Prop) :
  wf s → 0 < pfn → 1 ≤ n → pfn + n ≤ total_pages s →
  (∀ p, touch_ok p (f p)) → (∀ p, touch_ok p (g p)) →
  (∀ s', quiet s s' →
    (∀ y, aget (page_array s') y =
       if decide (pfn < y < pfn + n) then (g ∘ f) <$> aget (page_array s) y
       else aget (page_array s) y) → Q tt s') →
  wp (for_ 1 n (λ i, upd_page (pfn +u64 i) f ;; upd_page (pfn +u64 i) g)) Q s.
Proof.
  intros Hwf Hpfn Hn Hend Hf Hg HQ. pose proof (wf_total _ Hwf) as Htot.
  apply (wp_for (λ i s', quiet s s' ∧ ∀ y, aget (page_array s') y =
       if decide (pfn < y < pfn + i) then (g ∘ f) <$> aget (page_array s) y
       else aget (page_array s) y)).
  - split; [by apply quiet_refl|]. intros y. by rewrite decide_False by lia.
  - intros i s1 Hi [Hq Hps]. rewrite (wrap_small 64 (pfn + i)) by lia.
    destruct (aget_is_Some (page_array s1) (pfn + i)) as [p Hp].
    { rewrite (wf_len _ (qt_wf _ _ Hq)). destruct Hq as [_ _ _ _ [-> _]]. lia. }
    wp_step. eapply wp_touch; [by destruct Hq|done|done|]. intros s2 Hq2 Hps2.
    pose proof (aget_Some_bounds _ _ _ Hp) as Hb.
    eapply wp_touch; [by destruct Hq2|rewrite Hps2; by apply aget_aset_eq|done|].
    intros s3 Hq3 Hps3. split; [eauto using quiet_trans|].
    intros y. rewrite Hps3, Hps2, aset_aset, aget_aset.
    destruct (decide (y = pfn + i)) as [->|Hy].
    + rewrite decide_True by done. rewrite decide_True by lia.
      rewrite Hps, decide_False in Hp by lia. by rewrite Hp.
    + rewrite decide_False by naive_solver. rewrite Hps.
      destruct (decide (pfn < y < pfn + i)).
      * by rewrite decide_True by lia.
      * by rewrite decide_False by lia.
  - intros s'. rewrite Z.max_r by lia. intros [??]. by apply HQ.
Qed.

(** ** Allocation *)

Lemma find_order_spec s n cur :
  wf s → 0 ≤ cur → cur + Z.of_nat n = MAX_ORDER + 1 →
  wp (find_order n cur) (λ c s', s' = s ∧ cur ≤ c ≤ MAX_ORDER + 1 ∧
    (∀ x q, cur ≤ q < c → ¬ free_head (page_array s) x q) ∧
    (c ≤ MAX_ORDER → ∃ b, aget (free_lists (mi_zone s)) c = Some (Some b) ∧
       free_head (page_array s) b c)) s.
Proof.
  intros Hwf. revert cur. induction n as [|n IH]; intros cur Hcur Hn; simpl.
  { apply wp_ret. split_and!; [done|lia..|]. lia. }
  destruct (wf_lists _ Hwf cur ltac:(lia)) as (L & Hhd & _ & _ & _ & HL).
  wp_step. eapply wp_rd_free_list; [done|]. destruct L as [|b L]; simpl.
  - eapply wp_mono; [apply IH; lia|]. intros c s' (-> & Hc & Hnone & Hsome).
    split_and!; [done|lia|lia| |done].
    intros x q Hq Hf. destruct (decide (q = cur)) as [->|]; [|by apply (Hnone x q); [lia|]].
    apply HL in Hf. set_solver.
  - apply wp_ret. split_and!; [done|lia|lia|lia|].
    intros _. exists b. split; [done|]. apply HL. set_solver.
Qed.

(** The range of page frames of a block. *)
Definition in_block (x o p : Z) : Prop := x ≤ p < x + 2 ^ o.

Lemma added_is_free s s' x o p :
  added s s' x o → is_free s' p ↔ is_free s p ∨ in_block x o p.
Proof.
  intros [_ H _ _ _]. unfold is_free, in_block. split.
  - intros (y & q & [Hy|[-> ->]]%H & Hp); [left; eauto|by right].
  - intros [(y & q & Hy & Hp)|Hp].
    + exists y, q. split; [|done]. apply H. by left.
    + exists x, o. split; [|done]. apply H. by right.
Qed.

Lemma removed_is_free s s' x o p :
  wf s → free_head (page_array s) x o → removed s s' x o →
  is_free s' p ↔ is_free s p ∧ ¬ in_block x o p.
Proof.
  intros Hwf Hx [_ H _ _ _]. unfold is_free, in_block. split.
  - intros (y & q & [Hy Hne]%H & Hp). split; [eauto|].
    pose proof (wf_disj _ Hwf _ _ _ _ Hy Hx Hne). lia.
  - intros [(y & q & Hy & Hp) Hnp]. exists y, q. split; [|done].
    apply H. split; [done|]. intros ->.
    rewrite (free_head_fun _ _ _ _ Hy Hx) in Hp. lia.
Qed.

Lemma pow2_succ c : 0 ≤ c → 2 ^ (c + 1) = 2 * 2 ^ c.
Proof. intros. rewrite Z.pow_add_r by lia. lia. Qed.

(** A block of order [c + 1] splits into two blocks of order [c]. *)
Lemma block_ok_upper s x c : block_ok s x (c + 1) → 0 ≤ c → block_ok s (x + 2 ^ c) c.
Proof.
  intros [Ho Hx Ha He Hu] Hc. rewrite pow2_succ in * by lia.
  pose proof (pow2_pos c Hc).
  split; [lia|lia| |lia|intros p Hp; apply Hu; lia].
  assert (x mod 2 ^ c = 0) as Hxc.
  { apply Z.mod_divide in Ha; [|lia]. destruct Ha as [k ->].
    apply Z.mod_divide; [lia|]. exists (k * 2). lia. }
  rewrite Z.add_mod, Hxc, Z.mod_same by lia. by rewrite Z.mod_0_l by lia.
Qed.

Lemma block_ok_lower s x c : block_ok s x (c + 1) → 0 ≤ c → block_ok s x c.
Proof.
  intros [Ho Hx Ha He Hu] Hc. rewrite pow2_succ in * by lia.
  pose proof (pow2_pos c Hc).
  split; [lia|lia| |lia|intros p Hp; apply Hu; lia].
  apply Z.mod_divide in Ha; [|lia]. destruct Ha as [k ->].
  apply Z.mod_divide; [lia|]. exists (k * 2). lia.
Qed.

(** What splitting [block] from order [cur] down to [order] does. *)
Record split_post (s s' : mem_info) (block order cur : Z) : Prop := SplitPost {
  sp_wf : wf s';
  sp_heads : ∀ y q, free_head (page_array s') y q ↔
    free_head (page_array s) y q ∨ (order ≤ q < cur ∧ y = block + 2 ^ q);
  sp_free : ∀ p, is_free s' p ↔ is_free s p ∨ block + 2 ^ order ≤ p < block + 2 ^ cur;
  sp_frame : frame (λ y, block < y < block + 2 ^ cur) (page_array s) (page_array s');
  sp_globals : same_globals s s';
  sp_sum : free_sum (page_array s') = free_sum (page_array s) + 2 ^ cur - 2 ^ order }.

Lemma split_block_spec n s block cur :
  wf s → addable s block cur → Z.of_nat n ≤ cur →
  wp (split_block n block cur) (λ _ s', split_post s s' block (cur - Z.of_nat n) cur) s.
Proof.
  revert s cur. induction n as [|n IH]; intros s cur Hwf Hadd Hn; simpl.
  { apply wp_ret. rewrite Z.sub_0_r.
    split; [done| |intros; split; [tauto|intros [|]; [done|lia]]|apply frame_refl|done|lia].
    intros y q. split; [tauto|]. intros [|]; [done|lia]. }
  destruct Hadd as [Hblk Hnf]. pose proof (wf_total _ Hwf).
  replace cur with (cur - 1 + 1) in Hblk by lia.
  pose proof (block_ok_upper _ _ _ Hblk ltac:(lia)) as Hup.
  pose proof (block_ok_lower _ _ _ Hblk ltac:(lia)) as Hlo.
  assert (2 ^ cur = 2 * 2 ^ (cur - 1)) as Hpow.
  { rewrite <-pow2_succ by lia. f_equal. lia. }
  pose proof (pow2_pos (cur - 1) ltac:(lia)). pose proof (bo_end _ _ _ Hup).
  pose proof (bo_pos _ _ _ Hlo).
  rewrite Z.shiftl_1_l, wrap_small by lia. wp_step.
  eapply wp_mono; [apply free_list_add_spec; [done|]|].
  { split; [done|]. intros p Hp. apply Hnf. lia. }
  intros [] s1 Hs1. pose proof (λ p, added_is_free _ _ _ _ p Hs1) as Hf1.
  destruct Hs1 as [Hwf1 Hh1 Hfr1 Hg1 Hsum1].
  eapply wp_mono; [apply IH; [done| |lia]|].
  { split.
    - eapply block_ok_frame; [done|by apply Hg1|done].
    - intros p Hp [Hp'|Hp']%Hf1; [apply (Hnf p); [lia|done]|unfold in_block in Hp'; lia]. }
  intros [] s2 [Hwf2 Hh2 Hf2 Hfr2 Hg2 Hsum2].
  replace (cur - 1 - Z.of_nat n) with (cur - Z.of_nat (S n)) in * by lia.
  set (o := cur - Z.of_nat (S n)) in *.
  assert (2 ^ o ≤ 2 ^ (cur - 1)) by (apply Z.pow_le_mono_r; lia).
  split; [done|..].
  - intros y q. rewrite Hh2, Hh1. split.
    + intros [[?|[-> ->]]|[? ->]]; [by left|right; split; [lia|done]|right; split; [lia|done]].
    + intros [?|[? ->]]; [by do 2 left|]. destruct (decide (q = cur - 1)) as [->|].
      * left. by right.
      * right. split; [lia|done].
  - intros p. rewrite Hf2, Hf1. unfold in_block. split.
    + intros [[?|?]|?]; [by left|right; lia|right; lia].
    + intros [?|?]; [by do 2 left|].
      destruct (decide (p < block + 2 ^ (cur - 1))); [right; lia|left; right; lia].
  - eapply frame_trans.
    + eapply frame_mono; [|exact Hfr1]. simpl. intros y ->. lia.
    + eapply frame_mono; [|exact Hfr2]. simpl. intros y ?. lia.
  - eauto using same_globals_trans.
  - lia.
Qed.

(** A block handed out: marked, with one reference on every page, and with no
    page on a free list. *)
Record allocated (s : mem_info) (pfn order : Z) : Prop := Allocated {
  al_block : addable s pfn order;
  al_head : ∃ p, aget (page_array s) pfn = Some p ∧
    has (page_flags p) PAGE_FLAG_HEAD = true ∧ page_order p = order ∧ page_refcount p = 1;
  al_tail : ∀ y, pfn < y < pfn + 2 ^ order → ∃ p, aget (page_array s) y = Some p ∧
    has (page_flags p) PAGE_FLAG_TAIL = true ∧ page_refcount p = 1 }.

Lemma free_sum_bounds s :
  wf s → 0 ≤ free_sum (page_array s) ≤ 2 ^ MAX_ORDER * total_pages s.
Proof.
  intros Hwf. rewrite <-(wf_len _ Hwf).
  assert (∀ i p, page_array s !! i = Some p → 0 ≤ block_weight p ≤ 2 ^ MAX_ORDER) as Hw.
  { intros i p Hp. unfold block_weight. destruct (is_buddy p) eqn:Hb; [|lia].
    assert (free_head (page_array s) (Z.of_nat i) (page_order p)) as Hf.
    { exists p. split; [|done]. unfold aget. rewrite decide_True by lia. by rewrite Nat2Z.id. }
    apply (wf_blocks _ Hwf) in Hf as [Ho _ _ _ _].
    pose proof (pow2_pos (page_order p) ltac:(lia)).
    split; [lia|]. apply Z.pow_le_mono_r; lia. }
  clear Hwf. unfold alen. induction (page_array s) as [|p ps IH]; simpl; [lia|].
  pose proof (Hw O p eq_refl). specialize (IH (λ i q, Hw (S i) q)). lia.
Qed.

Lemma touch_head_update p order :
  is_buddy p = false → touch_ok p (set_order order (or_flags PAGE_FLAG_HEAD p)).
Proof.
  intros Hb. destruct (touch_or_flags 3 p ltac:(lia)) as (? & ? & ? & ? & ?).
  split_and!; [done..|congruence].
Qed.

(** The last part of [alloc_pages]: marking a block that is on no list. *)
Lemma mark_allocated_spec s pfn order :
  wf s → addable s pfn order →
  wp (mark_allocated pfn order) (λ _ s', quiet s s' ∧ allocated s' pfn order ∧
    ∀ y, ¬ in_block pfn order y → aget (page_array s') y = aget (page_array s) y) s.
Proof.
  intros Hwf Hadd. pose proof Hadd as [[Ho Hpos Hal Hend Hun] Hnf].
  pose proof (pow2_pos order ltac:(lia)). unfold mark_allocated. cbv zeta.
  destruct (aget_is_Some (page_array s) pfn) as [p Hp].
  { rewrite (wf_len _ Hwf). lia. }
  pose proof (aget_Some_bounds _ _ _ Hp) as Hb.
  pose proof (addable_not_buddy _ _ _ _ Hwf Hadd Hp) as Hnb.
  assert (∀ q : page, aget (aset (page_array s) pfn q) pfn = Some q) as Hset
    by (intros; by apply aget_aset_eq).
  wp_step. eapply wp_upd_page; [done|]. simpl.
  wp_step. eapply wp_upd_page; [apply Hset|]. simpl. rewrite aset_aset.
  wp_step. eapply wp_upd_page; [apply Hset|]. simpl. rewrite aset_aset.
  set (p' := set_refcount 1 (set_order order (or_flags PAGE_FLAG_HEAD p))).
  assert (touch_ok p p') as Ht by (by apply touch_head_update).
  pose proof (quiet_touch _ _ _ _ Hwf Hp Ht) as Hq1.
  set (s1 := set_pages (aset (page_array s) pfn p') s) in *.
  rewrite Z.shiftl_1_l.
  eapply (wp_touch_range s1); [by destruct Hq1|lia|lia|simpl; lia| | |].
  { intros q. by apply (touch_or_flags 4). }
  { apply touch_refcount. }
  intros s2 Hq2 Hps2. pose proof (quiet_trans _ _ _ Hq1 Hq2) as Hq.
  split; [done|]. split.
  - split.
    + split.
      * split; [done..|by destruct Hq as [_ _ _ _ [-> _]]|].
        intros y Hy. apply (qt_unres _ _ Hq). auto.
      * intros y Hy. rewrite (quiet_is_free _ _ y Hq). auto.
    + exists p'. rewrite Hps2, decide_False by lia. split; [apply Hset|].
      split; [|done]. unfold PAGE_FLAG_HEAD. rewrite has_bit by lia.
      subst p'. cbn [set_refcount set_order or_flags set_flags page_flags].
      unfold PAGE_FLAG_HEAD. by rewrite testbit_lor_flag.
    + intros y Hy. destruct (Hun y ltac:(lia)) as (q & Hqy & _).
      eexists. rewrite Hps2, decide_True by lia. simpl. rewrite aget_aset_ne, Hqy by lia.
      split; [done|]. split; [|done]. unfold PAGE_FLAG_TAIL. rewrite has_bit by lia.
      cbn [set_refcount or_flags set_flags page_flags compose].
      by rewrite testbit_lor_flag.
  - intros y Hy. unfold in_block in Hy. rewrite Hps2, decide_False by lia. simpl.
    apply aget_aset_ne. lia.
Qed.

Lemma add_free_pages_wf s f :
  wf s → wp (add_free_pages f) (λ _ s', wf s' ∧ page_array s' = page_array s ∧
    total_pages s' = total_pages s ∧
    zone_free_pages (mi_zone s') = f (zone_free_pages (mi_zone s)) ∧
    mi_free_pages s' = f (mi_free_pages s)) s.
Proof.
  intros Hwf. unfold add_free_pages. wp_steps. split_and!; [|done..].
  destruct Hwf. split; simpl; [done..| | |done].
  - intros o Ho. destruct (wf_lists0 o Ho) as (L & ?). by exists L.
  - intros x o Hx. destruct (wf_blocks0 x o Hx). by split.
Qed.

(** The effect of a successful allocation. *)
Record alloc_post (s s' : mem_info) (pfn order : Z) : Prop := AllocPost {
  ap_allocated : allocated s' pfn order;
  ap_was_free : ∀ p, in_block pfn order p → is_free s p;
  ap_free : ∀ p, is_free s' p ↔ is_free s p ∧ ¬ in_block pfn order p;
  ap_frame : ∀ y p, aget (page_array s) y = Some p → ¬ is_free s y →
    ∃ p', aget (page_array s') y = Some p' ∧ same_meta p p' ∧ page_order p' = page_order p }.

Lemma allocated_ext s s' pfn order :
  page_array s' = page_array s → total_pages s' = total_pages s →
  allocated s pfn order → allocated s' pfn order.
Proof.
  intros Hps Ht [[[]] ??]. unfold is_free in *.
  split; rewrite ?Hps; try done.
  split; [split; rewrite ?Hps, ?Ht; done|]. unfold is_free. by rewrite Hps.
Qed.

Lemma is_free_ext s s' p : page_array s' = page_array s → is_free s' p ↔ is_free s p.
Proof. unfold is_free. by intros ->. Qed.

(** Taking the block [block] of order [cur] off its list and splitting it. *)
Lemma take_block_spec s block order cur :
  wf s → free_head (page_array s) block cur → 0 ≤ order ≤ cur →
  wp (free_list_remove block cur ;;
      split_block (Z.to_nat (cur - order)) block cur)
    (λ _ s', wf s' ∧ addable s' block order ∧
       (∀ p, in_block block order p → is_free s p) ∧
       (∀ p, is_free s' p ↔ is_free s p ∧ ¬ in_block block order p) ∧
       (∀ y q, free_head (page_array s') y q ↔
          (free_head (page_array s) y q ∧ y ≠ block) ∨ (order ≤ q < cur ∧ y = block + 2 ^ q)) ∧
       frame (in_block block cur) (page_array s) (page_array s') ∧
       same_globals s s' ∧
       free_sum (page_array s') = free_sum (page_array s) - 2 ^ order) s.
Proof.
  intros Hwf Hh Ho. pose proof (wf_blocks _ Hwf _ _ Hh) as Hblk.
  pose proof Hblk as [Hc Hpos Hal Hend Hun].
  assert (2 ^ order ≤ 2 ^ cur) by (apply Z.pow_le_mono_r; lia).
  pose proof (pow2_pos order ltac:(lia)).
  wp_step. eapply wp_mono; [by apply free_list_remove_spec|]. intros [] s1 Hrm.
  pose proof (λ p, removed_is_free _ _ _ _ p Hwf Hh Hrm) as Hf1.
  destruct Hrm as [Hwf1 Hh1 Hfr1 Hg1 Hsum1].
  eapply wp_mono; [apply split_block_spec; [done| |lia]|].
  { split; [eapply block_ok_frame; [done|by apply Hg1|done]|].
    intros p Hp [_ Hnp]%Hf1. by apply Hnp. }
  intros [] s2 [Hwf2 Hh2 Hf2 Hfr2 Hg2 Hsum2].
  replace (cur - Z.of_nat (Z.to_nat (cur - order))) with order in * by lia.
  assert (frame (in_block block cur) (page_array s) (page_array s2)) as Hfr.
  { eapply frame_trans.
    - eapply frame_mono; [|exact Hfr1]. unfold in_block. simpl. intros y ->. lia.
    - eapply frame_mono; [|exact Hfr2]. unfold in_block. simpl. intros y ?. lia. }
  assert (same_globals s s2) as Hg by eauto using same_globals_trans.
  assert (∀ p, is_free s2 p ↔ is_free s p ∧ ¬ in_block block order p) as Hf.
  { intros p. rewrite Hf2, Hf1. unfold in_block. split; [|intros [? ?]].
    - intros [[? ?]|?]; split; [done|lia| |lia]. exists block, cur. split; [done|lia].
    - destruct (decide (block + 2 ^ order ≤ p < block + 2 ^ cur)); [by right|].
      left. split; [done|lia]. }
  split_and!; [done| | |done| |done|done|lia].
  - split.
    + split; [lia|lia| |destruct Hg as [-> _]; lia|].
      * apply Z.mod_divide in Hal; [|lia]. destruct Hal as [k ->].
        apply Z.mod_divide; [lia|]. exists (k * 2 ^ (cur - order)).
        rewrite <-Z.mul_assoc, <-Z.pow_add_r by lia. do 2 f_equal. lia.
      * intros p Hp. eapply frame_unreserved; [exact Hfr|]. apply Hun. lia.
    + intros p Hp [_ Hnp]%Hf. by apply Hnp.
  - intros p Hp. exists block, cur. split; [done|]. unfold in_block in Hp. lia.
  - intros y q. by rewrite Hh2, Hh1.
Qed.

Lemma wp_assoc {A B C S : Type} (c : M S A) (d : A → M S B) (e : B → M S C) Q s :
  wp (y ← (x ← c; d x); e y) Q s → wp (x ← c; y ← d x; e y) Q s.
Proof. intros H. apply wp_bind_inv, wp_bind_inv in H. apply wp_bind.
  eapply wp_mono; [exact H|]. intros a s'. apply wp_bind. Qed.

Lemma alloc_pages_wp s order :
  wf s → counts_ok s → 0 ≤ order →
  wp (alloc_pages order) (λ r s', wf s' ∧ counts_ok s' ∧ total_pages s' = total_pages s ∧
    ((r = 0 ∧ s' = s ∧
        (MAX_ORDER < order ∨ ∀ x q, free_head (page_array s) x q → q < order)) ∨
     ∃ pfn cur, r = pfn * PAGE_SIZE ∧ order ≤ cur ≤ MAX_ORDER ∧
       alloc_post s s' pfn order ∧ free_head (page_array s) pfn cur ∧
       (∀ y q, free_head (page_array s') y q ↔
          (free_head (page_array s) y q ∧ y ≠ pfn) ∨ (order ≤ q < cur ∧ y = pfn + 2 ^ q)))) s.
Proof.
  intros Hwf [Hc1 Hc2] Ho. unfold alloc_pages.
  destruct (MAX_ORDER <? order) eqn:Hmax.
  { apply wp_ret. split_and!; [done..|]. left. split_and!; [done..|left; lia]. }
  wp_step. eapply wp_mono; [apply find_order_spec; [done|lia|]|].
  { unfold MAX_ORDER in *. lia. }
  simpl. intros cur s' (-> & Hcur & Hnone & Hsome).
  destruct (MAX_ORDER <? cur) eqn:Hcm.
  { apply wp_ret. split_and!; [done..|]. left. split_and!; [done..|right].
    intros x q Hx. destruct (decide (q < order)); [done|].
    pose proof (wf_blocks _ Hwf _ _ Hx) as [? _ _ _ _].
    destruct (Hnone x q); [lia|done]. }
  destruct (Hsome ltac:(lia)) as (b & Hb & Hbh).
  wp_step. eapply wp_rd_free_list; [done|]. wp_step. apply wp_lift with b; [done|].
  apply wp_assoc. wp_step.
  eapply wp_mono; [apply take_block_spec; [done..|lia]|].
  intros [] s1 (Hwf1 & Hadd1 & Hwas & Hf1 & Hh1 & Hfr1 & Hg1 & Hsum1). cbv zeta.
  wp_step. eapply wp_mono; [by apply mark_allocated_spec|].
  intros [] s2 (Hq2 & Hal2 & Hout2). wp_step.
  eapply wp_mono; [apply add_free_pages_wf; by destruct Hq2|].
  intros [] s3 (Hwf3 & Hps3 & Ht3 & Hz3 & Hm3). apply wp_ret.
  pose proof (free_sum_bounds _ Hwf) as Hsb.
  pose proof (free_sum_bounds _ (qt_wf _ _ Hq2)) as Hsb2.
  pose proof (qt_globals _ _ Hq2) as (? & Hmi2 & _ & _ & Hz2).
  destruct Hg1 as (? & Hmi1 & _ & _ & Hz1).
  pose proof (qt_sum _ _ Hq2) as Hsum2.
  pose proof (wf_total _ Hwf). unfold MAX_ORDER in *.
  split; [done|]. split.
  { unfold counts_ok. rewrite Hps3, Hz3, Hm3, Z.shiftl_1_l, wrap_small by lia.
    rewrite wrap_small by lia. lia. }
  split; [congruence|]. right. exists b, cur. pose proof Hadd1 as [[_ Hbp _ Hbe _] _].
  pose proof (pow2_pos order Ho). split.
  { unfold pfn_to_phys, PAGE_SHIFT, PAGE_SIZE. rewrite Z.shiftl_mul_pow2 by lia.
    apply wrap_small. lia. }
  split; [lia|]. split; [|split; [done|]].
  - split.
    + by eapply allocated_ext.
    + done.
    + intros p. by rewrite (is_free_ext _ _ p Hps3), (quiet_is_free _ _ p Hq2).
    + intros y p Hy Hny. rewrite Hps3, Hout2 by (intros Hin; by apply Hny, Hwas).
      destruct (proj2 Hfr1 y p Hy) as (p' & Hp' & Hm & HT). exists p'.
      split_and!; [done..|]. apply HT. intros Hin. apply Hny. by exists b, cur.
  - intros y q. by rewrite Hps3, (qt_heads _ _ Hq2).
Qed.

(** ** Release *)

Lemma lxor_1 k : Z.lxor k 1 = if Z.even k then k + 1 else k - 1.
Proof.
  assert (∀ j, Z.even j = true → Z.lxor j 1 = j + 1) as Heven.
  { intros j Hj. symmetry. apply Z.add_nocarry_lxor.
    change 1 with (Z.ones 1). rewrite Z.land_ones by lia.
    rewrite Zmod_even, Hj. done. }
  destruct (Z.even k) eqn:Hk; [by apply Heven|].
  replace k with (Z.lxor (k - 1) 1) at 1.
  - by rewrite Z.lxor_assoc, Z.lxor_nilpotent, Z.lxor_0_r.
  - rewrite Heven; [lia|]. rewrite Z.even_sub, Hk. done.
Qed.

(** The buddy of an aligned block: the other half of the block of the next
    order. *)
Lemma buddy_cases x o :
  0 ≤ o → x mod 2 ^ o = 0 →
  (get_buddy_pfn x o = x + 2 ^ o ∧ x mod 2 ^ (o + 1) = 0) ∨
  (get_buddy_pfn x o = x - 2 ^ o ∧ (x - 2 ^ o) mod 2 ^ (o + 1) = 0).
Proof.
  intros Ho Hx. pose proof (pow2_pos o Ho). rewrite pow2_succ by lia.
  apply Z.mod_divide in Hx; [|lia]. destruct Hx as [k ->]. unfold get_buddy_pfn.
  rewrite <-(Z.shiftl_mul_pow2 k o), <-Z.shiftl_lxor, lxor_1 by lia.
  rewrite !Z.shiftl_mul_pow2 by lia.
  destruct (Z.even k) eqn:Hk; [left|right]; (split; [lia|]).
  - apply Z.even_spec in Hk as [m ->]. apply Z.mod_divide; [lia|]. exists m. lia.
  - rewrite <-Z.negb_odd in Hk. apply negb_false_iff, Z.odd_spec in Hk as [m ->].
    apply Z.mod_divide; [lia|]. exists m. lia.
Qed.

Lemma mod_pow2_weaken x a b : 0 ≤ a ≤ b → x mod 2 ^ b = 0 → x mod 2 ^ a = 0.
Proof.
  intros Hab Hx. pose proof (pow2_pos a ltac:(lia)). pose proof (pow2_pos b ltac:(lia)).
  apply Z.mod_divide in Hx; [|lia]. destruct Hx as [k ->].
  apply Z.mod_divide; [lia|]. exists (k * 2 ^ (b - a)).
  rewrite <-Z.mul_assoc, <-Z.pow_add_r by lia. do 2 f_equal. lia.
Qed.

Lemma buddy_align x o : 0 ≤ o → x mod 2 ^ o = 0 → get_buddy_pfn x o mod 2 ^ o = 0.
Proof.
  intros Ho Hx. pose proof (pow2_pos o Ho).
  destruct (buddy_cases x o Ho Hx) as [[-> _]|[-> _]].
  - rewrite Z.add_mod, Hx, Z.mod_same by lia. by rewrite Z.mod_0_l by lia.
  - rewrite Zminus_mod, Hx, Z.mod_same by lia. by rewrite Z.mod_0_l by lia.
Qed.

Lemma buddy_invol x o :
  0 ≤ o → get_buddy_pfn (get_buddy_pfn x o) o = x.
Proof.
  intros Ho. unfold get_buddy_pfn.
  by rewrite Z.lxor_assoc, Z.lxor_nilpotent, Z.lxor_0_r.
Qed.

(** The zone's end is a multiple of the largest block: then the buddy of a
    block inside the zone is inside the zone. *)
Definition zone_aligned (s : mem_info) : Prop := total_pages s mod 2 ^ MAX_ORDER = 0.

Lemma buddy_in_zone s x o :
  zone_aligned s → 0 ≤ o < MAX_ORDER → 0 ≤ x → x mod 2 ^ o = 0 →
  x + 2 ^ o ≤ total_pages s →
  0 ≤ get_buddy_pfn x o ∧ get_buddy_pfn x o + 2 ^ o ≤ total_pages s.
Proof.
  intros Hz Ho Hx Ha He. pose proof (pow2_pos o ltac:(lia)).
  assert (total_pages s mod 2 ^ (o + 1) = 0) as Ht.
  { eapply mod_pow2_weaken; [|exact Hz]. lia. }
  rewrite pow2_succ in * by lia.
  apply Z.mod_divide in Ht; [|lia]. destruct Ht as [t Ht].
  destruct (buddy_cases x o ltac:(lia) Ha) as [[-> Hm]|[-> Hm]];
    rewrite pow2_succ in Hm by lia; (apply Z.mod_divide in Hm; [|lia]);
    destruct Hm as [m Hm].
  - assert (m < t) by nia. nia.
  - assert (0 ≤ m) by nia. nia.
Qed.

(** What merging does: the free frames and the block together stay the same,
    and the merged block has no free buddy. *)
Record merge_post (s s' : mem_info) (pfn order pfn' order' : Z) : Prop := MergePost {
  mg_wf : wf s';
  mg_addable : addable s' pfn' order';
  mg_order : order ≤ order';
  mg_free : ∀ p, is_free s' p ∨ in_block pfn' order' p ↔ is_free s p ∨ in_block pfn order p;
  mg_heads : ∀ y q, free_head (page_array s') y q → free_head (page_array s) y q;
  mg_buddy : order' < MAX_ORDER →
    ¬ free_head (page_array s') (get_buddy_pfn pfn' order') order';
  mg_frame : frame (in_block pfn' order') (page_array s) (page_array s');
  mg_globals : same_globals s s';
  mg_sum : free_sum (page_array s') + 2 ^ order' = free_sum (page_array s) + 2 ^ order }.

(** One merge: the block and its free buddy make a block of the next order. *)
Lemma merge_addable s s1 x o :
  wf s → addable s x o → o < MAX_ORDER →
  free_head (page_array s) (get_buddy_pfn x o) o →
  removed s s1 (get_buddy_pfn x o) o →
  let b := get_buddy_pfn x o in
  let x' := if b <? x then b else x in
  addable s1 x' (o + 1) ∧
  (∀ p, in_block x' (o + 1) p ↔ in_block x o p ∨ in_block b o p).
Proof.
  intros Hwf [Hblk Hnf] Ho Hb Hrm b x'. pose proof Hblk as [Hor Hx Ha He Hu].
  pose proof (wf_blocks _ Hwf _ _ Hb) as [_ Hb0 Hba Hbe Hbu].
  pose proof (pow2_pos o ltac:(lia)).
  assert (∀ p, in_block x' (o + 1) p ↔ in_block x o p ∨ in_block b o p) as Hrange.
  { intros p. unfold in_block, x', b. rewrite pow2_succ by lia.
    destruct (buddy_cases x o ltac:(lia) Ha) as [[-> _]|[-> _]]; case_match; lia. }
  split; [|done].
  pose proof (λ p, removed_is_free _ _ _ _ p Hwf Hb Hrm) as Hf1.
  destruct Hrm as [Hwf1 Hh1 Hfr1 Hg1 _]. split.
  - split.
    + lia.
    + unfold x', b. destruct (Z.ltb_spec (get_buddy_pfn x o) x); lia.
    + unfold x', b. destruct (buddy_cases x o ltac:(lia) Ha) as [[Heq Hm]|[Heq Hm]];
        rewrite !Heq.
      * destruct (Z.ltb_spec (x + 2 ^ o) x); [lia|done].
      * destruct (Z.ltb_spec (x - 2 ^ o) x); [done|lia].
    + destruct Hg1 as [-> _]. rewrite pow2_succ by lia. unfold x', b.
      destruct (buddy_cases x o ltac:(lia) Ha) as [[Heq Hm]|[Heq Hm]];
        rewrite !Heq in *.
      * destruct (Z.ltb_spec (x + 2 ^ o) x); lia.
      * destruct (Z.ltb_spec (x - 2 ^ o) x); lia.
    + intros p Hp%Hrange. eapply frame_unreserved; [exact Hfr1|].
      destruct Hp; [by apply Hu|by apply Hbu].
  - intros p Hp%Hrange [Hpf Hnb]%Hf1. destruct Hp as [Hp|Hp]; [|done].
    by apply (Hnf p).
Qed.

Lemma merge_block_spec n s pfn order :
  wf s → zone_aligned s → addable s pfn order → order + Z.of_nat n = MAX_ORDER →
  wp (merge_block n pfn order) (λ r s', merge_post s s' pfn order r.1 r.2) s.
Proof.
  revert s pfn order. induction n as [|n IH]; intros s pfn order Hwf Hz Hadd Hn.
  { apply wp_ret. split; [done|done|simpl; lia|done|done|simpl; lia|apply frame_refl|done|done]. }
  cbn [merge_block]. pose proof Hadd as [[Ho Hx Ha He Hu] Hnf].
  destruct (buddy_in_zone s pfn order Hz ltac:(lia) ltac:(lia) Ha He) as [Hb0 Hbe].
  pose proof (pow2_pos order ltac:(lia)).
  destruct (aget_is_Some (page_array s) (get_buddy_pfn pfn order)) as [bp Hbp].
  { rewrite (wf_len _ Hwf). lia. }
  wp_step. eapply wp_rd_page; [done|].
  destruct (negb _ || _) eqn:Hcond.
  { apply wp_ret. split; [done|done|simpl; lia|done|done| |apply frame_refl|done|done].
    intros _ (p & Hp & Hpb & Hpo). simplify_eq/=. unfold is_buddy in Hpb.
    rewrite Hpb, Z.eqb_refl in Hcond. done. }
  apply orb_false_iff in Hcond as [Hcb Hco].
  apply negb_false_iff in Hcb, Hco. apply Z.eqb_eq in Hco.
  assert (free_head (page_array s) (get_buddy_pfn pfn order) order) as Hbh by (by exists bp).
  wp_step. eapply wp_mono; [by apply free_list_remove_spec|]. intros [] s1 Hrm.
  destruct (merge_addable _ _ _ _ Hwf Hadd ltac:(lia) Hbh Hrm) as [Hadd1 Hrange].
  pose proof (λ p, removed_is_free _ _ _ _ p Hwf Hbh Hrm) as Hf1.
  destruct Hrm as [Hwf1 Hh1 Hfr1 Hg1 Hsum1].
  eapply wp_mono; [apply IH; [done| |exact Hadd1|lia]|].
  { unfold zone_aligned. by destruct Hg1 as [-> _]. }
  intros [pfn' order'] s2 [Hwf2 Hadd2 Hord2 Hf2 Hh2 Hbud2 Hfr2 Hg2 Hsum2]. simpl in *.
  rewrite pow2_succ in Hsum2 by lia.
  split; simpl; [done|done|lia| | |done| |eauto using same_globals_trans|lia].
  - intros p. rewrite Hf2, Hf1, Hrange.
    assert (in_block (get_buddy_pfn pfn order) order p → is_free s p) as Hbf.
    { intros Hp. by exists (get_buddy_pfn pfn order), order. }
    split; [tauto|]. intros [Hp|Hp]; [|tauto].
    destruct (decide (get_buddy_pfn pfn order ≤ p < get_buddy_pfn pfn order + 2 ^ order));
      unfold in_block in *; tauto.
  - intros y q Hy%Hh2. by apply Hh1 in Hy as [? _].
  - eapply frame_trans; [|exact Hfr2]. eapply frame_mono; [|exact Hfr1]. simpl.
    intros y ->. set (b := get_buddy_pfn pfn order) in *.
    destruct (proj2 (Hf2 b)) as [Hfree|]; [|exfalso|done].
    { right. apply Hrange. right. unfold in_block. lia. }
    destruct Hfree as (y & q & Hy & Hp). apply Hh2 in Hy.
    assert (is_free s1 b) as Hb1 by (by exists y, q).
    apply Hf1 in Hb1 as [_ Hnb]. apply Hnb. unfold in_block. lia.
Qed.

Lemma addable_quiet s s' x o : quiet s s' → addable s x o → addable s' x o.
Proof.
  intros Hq [[Ho Hx Ha He Hu] Hnf]. split.
  - split; [done..| |].
    + by destruct Hq as [_ _ _ _ [-> _]].
    + intros p Hp. by apply (qt_unres _ _ Hq), Hu.
  - intros p Hp. rewrite (quiet_is_free _ _ p Hq). auto.
Qed.

(** The first part of [free_pages]: clearing the marks of the block. *)
Lemma clear_allocated_spec s pfn order :
  wf s → addable s pfn order →
  wp (clear_allocated pfn order) (λ _ s', quiet s s' ∧
    (∀ y, in_block pfn order y → ∃ p, aget (page_array s') y = Some p ∧ page_refcount p = 0) ∧
    ∀ y, ¬ in_block pfn order y → aget (page_array s') y = aget (page_array s) y) s.
Proof.
  intros Hwf Hadd. pose proof Hadd as [[Ho Hpos Hal Hend Hun] Hnf].
  pose proof (pow2_pos order ltac:(lia)). unfold clear_allocated. cbv zeta.
  destruct (aget_is_Some (page_array s) pfn) as [p Hp].
  { rewrite (wf_len _ Hwf). lia. }
  pose proof (aget_Some_bounds _ _ _ Hp) as Hb.
  wp_step. eapply wp_touch; [done|done|by apply (touch_clear_flags 3)|].
  intros s1 Hq1 Hps1. wp_step.
  eapply wp_touch; [by destruct Hq1|rewrite Hps1; by apply aget_aset_eq|done|].
  intros s2 Hq2 Hps2. rewrite Hps1, aset_aset in Hps2.
  pose proof (quiet_trans _ _ _ Hq1 Hq2) as Hq12. rewrite Z.shiftl_1_l.
  eapply (wp_touch_range s2); [by destruct Hq2|lia|lia| | | |].
  { by destruct Hq12 as [_ _ _ _ [-> _]]. }
  { intros q. by apply (touch_clear_flags 4). }
  { apply touch_refcount. }
  intros s3 Hq3 Hps3. split; [eauto using quiet_trans|]. split.
  - intros y Hy. unfold in_block in Hy. rewrite Hps3, Hps2.
    destruct (decide (y = pfn)) as [->|].
    + rewrite decide_False by lia. rewrite aget_aset_eq by done. eauto.
    + rewrite decide_True by lia. rewrite aget_aset_ne by lia.
      destruct (Hun y Hy) as (q & -> & _). eauto.
  - intros y Hy. unfold in_block in Hy. rewrite Hps3, Hps2.
    rewrite decide_False by lia. apply aget_aset_ne. lia.
Qed.

(** The effect of a release. *)
Record free_post (s s' : mem_info) (pfn order : Z) : Prop := FreePost {
  fp_free : ∀ p, is_free s' p ↔ is_free s p ∨ in_block pfn order p;
  fp_refcount : ∀ y, in_block pfn order y →
    ∃ p, aget (page_array s') y = Some p ∧ page_refcount p = 0;
  fp_frame : ∀ y p, aget (page_array s) y = Some p → ¬ is_free s y → ¬ in_block pfn order y →
    ∃ p', aget (page_array s') y = Some p' ∧ same_meta p p' ∧ page_order p' = page_order p }.

(** The three steps of a release, composed: the marks are cleared ([s1]), the
    block is merged ([s2]) and the merged block is put on its list ([s3]). *)
Section release.
Context (s s1 s2 s3 : mem_info) (pfn order pfn' order' : Z).
Hypothesis Hq1 : quiet s s1.
Hypothesis Hout1 : ∀ y, ¬ in_block pfn order y →
  aget (page_array s1) y = aget (page_array s) y.
Hypothesis Hrc1 : ∀ y, in_block pfn order y →
  ∃ p, aget (page_array s1) y = Some p ∧ page_refcount p = 0.
Hypothesis Hm : merge_post s1 s2 pfn order pfn' order'.
Hypothesis Had : added s2 s3 pfn' order'.

Lemma release_free_post : free_post s s3 pfn order.
Proof.
  destruct (mg_addable _ _ _ _ _ _ Hm) as [[Ho' _ _ _ _] _].
  pose proof (pow2_pos order' ltac:(lia)). split.
  - intros p. rewrite (added_is_free _ _ _ _ p Had).
    by rewrite (mg_free _ _ _ _ _ _ Hm), (quiet_is_free _ _ p Hq1).
  - intros y Hy. destruct (Hrc1 y Hy) as (p1 & Hp1 & Hr1).
    destruct (proj2 (mg_frame _ _ _ _ _ _ Hm) _ _ Hp1) as (p2 & Hp2 & [Hr2 _] & _).
    destruct (proj2 (ad_frame _ _ _ _ Had) _ _ Hp2) as (p3 & Hp3 & [Hr3 _] & _).
    exists p3. split; [done|]. congruence.
  - intros y p Hy Hny Hnb. rewrite <-Hout1 in Hy by done.
    assert (¬ in_block pfn' order' y) as Hnb'.
    { intros Hin. destruct (proj1 (mg_free _ _ _ _ _ _ Hm y) (or_intror Hin)) as [Hf|]; [|done].
      by apply (quiet_is_free _ _ y Hq1) in Hf. }
    destruct (proj2 (mg_frame _ _ _ _ _ _ Hm) _ _ Hy) as (p2 & Hp2 & Hs2 & HT2).
    destruct (proj2 (ad_frame _ _ _ _ Had) _ _ Hp2) as (p3 & Hp3 & Hs3 & HT3).
    exists p3. split; [done|]. split; [eauto using same_meta_trans|].
    destruct (HT2 Hnb') as [<- _]. apply HT3. intros ->. apply Hnb'.
    unfold in_block. lia.
Qed.

Lemma release_coalesced : coalesced s → coalesced s3.
Proof.
  intros Hco x o Hom. rewrite !(ad_heads _ _ _ _ Had).
  destruct (mg_addable _ _ _ _ _ _ Hm) as [[Ho' _ Ha' _ _] _].
  assert (∀ y q, free_head (page_array s2) y q → free_head (page_array s) y q) as Hsub.
  { intros y q Hy%(mg_heads _ _ _ _ _ _ Hm). by apply (qt_heads _ _ Hq1). }
  intros [Hx|[-> ->]] [Hb|[Hb Hbo]].
  - apply (Hco x o Hom); auto.
  - subst o. apply (mg_buddy _ _ _ _ _ _ Hm Hom). rewrite <-Hb, buddy_invol by lia. done.
  - by apply (mg_buddy _ _ _ _ _ _ Hm Hom).
  - pose proof (pow2_pos order' ltac:(lia)).
    destruct (buddy_cases pfn' order' ltac:(lia) Ha') as [[Heq _]|[Heq _]]; lia.
Qed.

Lemma release_sum : free_sum (page_array s3) = free_sum (page_array s) + 2 ^ order.
Proof.
  rewrite (ad_sum _ _ _ _ Had), (mg_sum _ _ _ _ _ _ Hm). by rewrite (qt_sum _ _ Hq1).
Qed.

Lemma release_globals : same_globals s s3.
Proof.
  eapply same_globals_trans; [by destruct Hq1|].
  eapply same_globals_trans; [by destruct Hm|by destruct Had].
Qed.

End release.

(** An aligned block passes the guards of [free_pages]. *)
Lemma free_pages_guards s pfn order :
  addable s pfn order →
  (MAX_ORDER <? order) = false ∧ (pfn * PAGE_SIZE =? 0) = false ∧
  IS_ALIGNED (pfn * PAGE_SIZE) (Z.shiftl PAGE_SIZE order) = true ∧
  phys_to_pfn (pfn * PAGE_SIZE) = pfn.
Proof.
  intros [[Ho Hpos Hal _ _] _]. pose proof (pow2_pos order ltac:(lia)). split_and!.
  - apply Z.ltb_ge. lia.
  - apply Z.eqb_neq. unfold PAGE_SIZE. lia.
  - unfold PAGE_SIZE. rewrite Z.shiftl_mul_pow2 by lia. change 4096 with (2 ^ 12).
    rewrite <-Z.pow_add_r by lia. apply IS_ALIGNED_spec; [lia|].
    apply Z.mod_divide in Hal; [|lia]. destruct Hal as [k ->].
    apply Z.mod_divide; [lia|]. exists k. rewrite Z.pow_add_r by lia. lia.
  - unfold phys_to_pfn, PAGE_SHIFT, PAGE_SIZE. rewrite Z.shiftr_div_pow2 by lia.
    change (2 ^ 12) with 4096. by rewrite Z.div_mul by lia.
Qed.

Lemma free_pages_wp s pfn order :
  wf s → counts_ok s → zone_aligned s → addable s pfn order →
  wp (free_pages (pfn * PAGE_SIZE) order) (λ _ s', wf s' ∧ counts_ok s' ∧
    total_pages s' = total_pages s ∧ free_post s s' pfn order ∧
    (coalesced s → coalesced s')) s.
Proof.
  intros Hwf [Hc1 Hc2] Hz Hadd. pose proof (wf_total _ Hwf).
  destruct (free_pages_guards _ _ _ Hadd) as (E1 & E2 & E3 & E4).
  unfold free_pages. rewrite E1, E2, E3, E4. cbv zeta. cbn [negb].
  wp_step. eapply wp_mono; [by apply clear_allocated_spec|].
  intros [] s1 (Hq1 & Hrc1 & Hout1). wp_step.
  assert (zone_aligned s1) as Hz1.
  { unfold zone_aligned. by destruct Hq1 as [_ _ _ _ [-> _]]. }
  pose proof (bo_order _ _ _ (proj1 Hadd)) as Ho.
  eapply wp_mono; [apply merge_block_spec; [by destruct Hq1|done|by eapply addable_quiet|lia]|].
  intros [pfn' order'] s2 Hm. simpl in Hm. cbn beta iota. wp_step.
  eapply wp_mono; [apply free_list_add_spec; by destruct Hm|]. intros [] s3 Had.
  eapply wp_mono; [apply add_free_pages_wf; by destruct Had|].
  intros [] s4 (Hwf4 & Hps4 & Ht4 & Hz4 & Hm4).
  destruct (release_globals _ _ _ _ _ _ _ _ Hq1 Hm Had) as (Hg1 & Hg2 & _ & _ & Hg3).
  pose proof (release_sum _ _ _ _ _ _ _ _ Hq1 Hm Had) as Hsum.
  pose proof (free_sum_bounds _ (ad_wf _ _ _ _ Had)) as Hsb3.
  pose proof (free_sum_bounds _ Hwf). pose proof (pow2_pos order ltac:(lia)).
  split; [done|]. split.
  { unfold counts_ok. unfold MAX_ORDER in *.
    rewrite Hps4, Hz4, Hm4, Z.shiftl_1_l, !wrap_small by lia. lia. }
  split; [congruence|]. split.
  - destruct (release_free_post _ _ _ _ _ _ _ _ Hq1 Hout1 Hrc1 Hm Had) as [F1 F2 F3].
    split; rewrite ?Hps4; [|done..]. intros p. by rewrite (is_free_ext _ _ p Hps4).
  - intros Hco. pose proof (release_coalesced _ _ _ _ _ _ _ _ Hq1 Hm Had Hco).
    unfold coalesced. by rewrite Hps4.
Qed.
