(* ===== verification/PmmInit.v ===== *)
(** * The physical memory manager: initialisation (pmm_init of mm/pmm.c)

    Whatever the boot memory map, as long as its usable regions do not overlap
    and the areas the kernel marks lie below the highest address, [pmm_init]
    runs without a fault and leaves a well-formed allocator whose free frames
    are exactly the usable ones that are not the kernel's, the page array's or
    the initrd's. *)

From S2P Require Import Prelude DList Pmm PmmInv.

(** ** The phases that only mark pages *)

Definition empty_zone (total : Z) : zone :=
  Zone (replicate (Z.to_nat (MAX_ORDER + 1)) None)
    (replicate (Z.to_nat (MAX_ORDER + 1)) 0) 0 total 0.

(** No page is on a list yet; [R] holds of the pages marked reserved. *)
Record boot_state (R : Z → Prop) (s : mem_info) : Prop := BootState {
  bs_total : 0 ≤ total_pages s ≤ 2 ^ 52;
  bs_len : alen (page_array s) = total_pages s;
  bs_zone : mi_zone s = empty_zone (total_pages s);
  bs_count : mi_free_pages s = 0;
  bs_pages : ∀ p pg, aget (page_array s) p = Some pg →
    is_buddy pg = false ∧ (is_reserved pg = true ↔ R p) }.

Lemma boot_state_ext R R' s :
  (∀ p, 0 ≤ p < total_pages s → R p ↔ R' p) → boot_state R s → boot_state R' s.
Proof.
  intros HR [????]. split; [done..|]. intros p pg Hp.
  destruct (bs_pages0 p pg Hp) as [? Hr]. split; [done|].
  rewrite Hr. apply HR. rewrite <-bs_len0. by eapply aget_Some_bounds.
Qed.

Lemma pmm_reset_boot n k : 0 ≤ n ≤ 2 ^ 52 → boot_state (λ _, True) (pmm_reset n k).
Proof.
  intros Hn. split; [done|..|done|done|].
  - unfold alen. simpl. rewrite length_replicate. lia.
  - intros p pg Hp. simpl in Hp.
    rewrite aget_replicate in Hp; [by simplify_eq|].
    apply aget_Some_bounds in Hp. unfold alen in Hp. by rewrite length_replicate in Hp.
Qed.

(** A step that sets the flags of one page, and may count it. *)
Definition sets_flags (f : Z) (body : Z → PM unit) : Prop := ∀ i s1 pg,
  aget (page_array s1) i = Some pg →
  wp (body i) (λ _ s2, total_pages s2 = total_pages s1 ∧
    page_array s2 = aset (page_array s1) i (set_flags f pg) ∧
    mi_zone s2 = mi_zone s1 ∧ mi_free_pages s2 = mi_free_pages s1) s1.

Lemma wp_set_flags_range R s a b f body (Q : unit → mem_info → Prop) :
  boot_state R s → 0 ≤ a → b ≤ total_pages s → Z.testbit f 0 = false →
  sets_flags f body →
  (∀ s', boot_state (λ p, if decide (a ≤ p < b) then Z.testbit f 1 = true else R p) s' →
     total_pages s' = total_pages s → Q tt s') →
  wp (for_ a b body) Q s.
Proof.
  intros Hbs Ha Hb Hf Hc HQ.
  apply (wp_for (λ i s', total_pages s' = total_pages s ∧
    boot_state (λ p, if decide (a ≤ p < i) then Z.testbit f 1 = true else R p) s')).
  - split; [done|]. eapply boot_state_ext; [|exact Hbs].
    intros p _. simpl. by rewrite decide_False by lia.
  - intros i s1 Hi [Ht [B1 B2 B3 B4 B5]].
    destruct (aget_is_Some (page_array s1) i) as [pg Hpg]; [rewrite B2, Ht; lia|].
    eapply wp_mono; [by apply Hc|].
    intros [] s2 (E1 & E2 & E3 & E4). split; [congruence|].
    split; rewrite ?E1, ?E2, ?E3, ?E4, ?alen_aset; try done.
    intros p qg. rewrite aget_aset. case_decide as Hd.
    + destruct Hd as [-> Hb']. intros [= <-]. rewrite is_buddy_bit, is_reserved_bit.
      rewrite decide_True by lia. done.
    + intros Hq. destruct (B5 p qg Hq) as [Hnb Hr]. split; [done|]. rewrite Hr.
      pose proof (aget_Some_bounds _ _ _ Hq). pose proof (aget_Some_bounds _ _ _ Hpg).
      assert (p ≠ i) by naive_solver.
      destruct (decide (a ≤ p < i)); [by rewrite decide_True by lia|].
      by rewrite decide_False by lia.
  - intros s' [Ht Hs']. apply HQ; [|done]. eapply boot_state_ext; [|exact Hs'].
    intros p _. simpl. destruct (decide (a ≤ p < b)).
    + by rewrite decide_True by lia.
    + by rewrite decide_False by lia.
Qed.

(** ** Well-formedness of the marked state *)

Lemma aget_empty_lists o :
  0 ≤ o ≤ MAX_ORDER → ∀ A (x : A), aget (replicate (Z.to_nat (MAX_ORDER + 1)) x) o = Some x.
Proof. intros Ho A x. apply aget_replicate. unfold MAX_ORDER in *. lia. Qed.

Lemma boot_no_head R s x o : boot_state R s → ¬ free_head (page_array s) x o.
Proof. intros [_ _ _ _ H] (p & Hp & Hb & _). destruct (H x p Hp). congruence. Qed.

Lemma free_sum_none ps :
  (∀ p pg, aget ps p = Some pg → is_buddy pg = false) → free_sum ps = 0.
Proof.
  intros H. assert (∀ pg, pg ∈ ps → block_weight pg = 0) as Hw.
  { intros pg [i Hi]%list_elem_of_lookup. unfold block_weight. erewrite H; [done|].
    instantiate (1 := Z.of_nat i). unfold aget. rewrite decide_True by lia.
    by rewrite Nat2Z.id. }
  clear H. induction ps as [|p ps IH]; [done|]. simpl.
  rewrite Hw, IH; [done| |]; set_solver.
Qed.

Lemma boot_wf R s : boot_state R s → wf s ∧ counts_ok s.
Proof.
  intros Hbs. pose proof (boot_no_head R s) as Hnh. destruct Hbs as [B1 B2 B3 B4 B5]. split.
  - split; [done|done|..].
    + intros o Ho. exists []. rewrite B3. unfold empty_zone.
      cbn [free_lists free_count]. rewrite !aget_empty_lists by done.
      split_and!; [done..|apply NoDup_nil_2|]. intros x. split; [set_solver|].
      intros Hx. by edestruct Hnh.
    + intros x o Hx. by edestruct Hnh.
    + intros x o y q Hx. by edestruct Hnh.
  - unfold counts_ok. rewrite B3, B4, free_sum_none; [done|]. apply B5.
Qed.

(** ** The marking phases *)

Definition usable (mmap : list MemoryMapEntry) (p : Z) : Prop :=
  ∃ e a b, e ∈ mmap ∧ usable_range e = Some (a, b) ∧ a ≤ p < b.

(** The usable regions lie above 1MB and below [n]. *)
Definition ranges_below (n : Z) (mmap : list MemoryMapEntry) : Prop :=
  ∀ e a b, e ∈ mmap → usable_range e = Some (a, b) → 0 < a ∧ b ≤ n.

Lemma usable_nil p : ¬ usable [] p.
Proof. intros (e & a & b & He & _). by apply elem_of_nil in He. Qed.

Lemma usable_cons e mmap p :
  usable (e :: mmap) p ↔
  (∃ a b, usable_range e = Some (a, b) ∧ a ≤ p < b) ∨ usable mmap p.
Proof.
  unfold usable. split.
  - intros (e' & a & b & [->|He]%elem_of_cons & Hr & Hp); [left|right]; eauto 6.
  - intros [(a & b & Hr & Hp)|(e' & a & b & He & Hr & Hp)].
    + exists e, a, b. split; [apply list_elem_of_here|done].
    + exists e', a, b. split; [by apply list_elem_of_further|done].
Qed.

Lemma ranges_below_cons n e mmap :
  ranges_below n (e :: mmap) →
  (∀ a b, usable_range e = Some (a, b) → 0 < a ∧ b ≤ n) ∧ ranges_below n mmap.
Proof.
  intros H. split.
  - intros a b. apply H, list_elem_of_here.
  - intros e' a b He. by apply H, list_elem_of_further.
Qed.

Lemma mark_usable_spec mmap R s :
  boot_state R s → ranges_below (total_pages s) mmap →
  wp (mark_usable mmap) (λ _ s', total_pages s' = total_pages s ∧
    boot_state (λ p, R p ∧ ¬ usable mmap p) s') s.
Proof.
  revert R s. induction mmap as [|e mmap IH]; intros R s Hbs Hr; simpl.
  { apply wp_ret. split; [done|]. eapply boot_state_ext; [|exact Hbs].
    intros p _. pose proof (usable_nil p). tauto. }
  apply ranges_below_cons in Hr as [Hre Hr'].
  wp_step. destruct (usable_range e) as [[a b]|] eqn:He.
  - destruct (Hre a b eq_refl) as [Ha Hb].
    eapply (wp_set_flags_range _ _ _ _ 0); [done|lia|done|done|..].
    { intros i s1 pg Hpg. by eapply wp_upd_page. }
    intros s1 Hs1 Ht1. eapply wp_mono; [apply (IH _ _ Hs1); by rewrite Ht1|].
    intros [] s2 [Ht2 Hs2]. split; [congruence|]. eapply boot_state_ext; [|exact Hs2].
    intros p _. simpl. rewrite usable_cons, He. case_decide.
    + split; [by intros [? _]|]. intros [_ Hn]. destruct Hn. left. eauto.
    + split; [|tauto]. intros [HR Hn]. split; [done|].
      intros [(a' & b' & [= <- <-] & ?)|?]; [lia|done].
  - apply wp_ret. eapply wp_mono; [by apply (IH _ _ Hbs)|].
    intros [] s2 [Ht2 Hs2]. split; [done|]. eapply boot_state_ext; [|exact Hs2].
    intros p _. simpl. rewrite usable_cons, He. split; [|tauto].
    intros [HR Hn]. split; [done|]. intros [(a & b & ? & _)|?]; done.
Qed.

Lemma mark_kernel_spec R s a b :
  boot_state R s → 0 ≤ a → b ≤ total_pages s →
  wp (mark_kernel a b) (λ _ s', total_pages s' = total_pages s ∧
    boot_state (λ p, R p ∨ a ≤ p < b) s') s.
Proof.
  intros Hbs Ha Hb. unfold mark_kernel.
  eapply (wp_set_flags_range _ _ _ _ (Z.lor PAGE_FLAG_KERNEL PAGE_FLAG_RESERVED));
    [done|done|done|done|..].
  { intros i s1 pg Hpg. wp_step. eapply wp_upd_page; [done|]. by wp_step. }
  intros s' Hs' Ht. split; [done|]. eapply boot_state_ext; [|exact Hs'].
  intros p _. simpl. case_decide; [|tauto]. split; [by right|done].
Qed.

Definition initrd_range (bi : BootInfo) : Z * Z :=
  (phys_to_pfn (ALIGN_DOWN (bi_initrd_start bi) PAGE_SIZE),
   phys_to_pfn (ALIGN_UP (bi_initrd_start bi +u64 bi_initrd_size bi) PAGE_SIZE)).

Definition has_initrd (bi : BootInfo) : bool :=
  has (bi_flags bi) BOOT_FLAG_INITRD && negb (bi_initrd_start bi =? 0)
    && negb (bi_initrd_size bi =? 0).

Lemma mark_initrd_spec R s bi :
  boot_state R s → 0 ≤ (initrd_range bi).1 →
  (has_initrd bi = true → (initrd_range bi).2 ≤ total_pages s) →
  wp (mark_initrd bi) (λ _ s', total_pages s' = total_pages s ∧
    boot_state (λ p, R p ∨ (has_initrd bi = true ∧
      (initrd_range bi).1 ≤ p < (initrd_range bi).2)) s') s.
Proof.
  intros Hbs H0 Hend. unfold mark_initrd. fold (has_initrd bi).
  destruct (has_initrd bi); last first.
  { apply wp_ret. split; [done|]. eapply boot_state_ext; [|exact Hbs]. naive_solver. }
  eapply (wp_set_flags_range _ _ _ _ PAGE_FLAG_RESERVED); [done|done|by apply Hend|done|..].
  { intros i s1 pg Hpg. wp_step. eapply wp_upd_page; [done|]. by wp_step. }
  intros s' Hs' Ht. split; [done|]. eapply boot_state_ext; [|exact Hs'].
  intros p _. simpl. unfold initrd_range. simpl. case_decide; [|tauto].
  split; [by right|done].
Qed.

(** ** The third pass *)

Lemma all_free_spec n s pfn :
  wf s → 0 ≤ pfn → pfn + Z.of_nat n ≤ total_pages s →
  wp (all_free n pfn) (λ r s', s' = s ∧
    (r = true → ∀ p, pfn ≤ p < pfn + Z.of_nat n → unreserved (page_array s) p)) s.
Proof.
  intros Hwf. revert pfn. induction n as [|n IH]; intros pfn Hp Hend; simpl.
  { apply wp_ret. split; [done|]. intros _ p. lia. }
  pose proof (wf_total _ Hwf).
  destruct (aget_is_Some (page_array s) pfn) as [pg Hpg]; [rewrite (wf_len _ Hwf); lia|].
  wp_step. eapply wp_rd_page; [done|].
  destruct (has (page_flags pg) PAGE_FLAG_RESERVED) eqn:Hr; [by apply wp_ret|].
  rewrite wrap_small by lia. eapply wp_mono; [apply IH; lia|].
  intros r s' [-> Hall]. split; [done|]. intros Hrt p Hpn.
  destruct (decide (p = pfn)) as [->|]; [by exists pg|]. apply Hall; [done|lia].
Qed.

Lemma largest_order_spec n s pfn end_pfn :
  wf s → Z.of_nat n ≤ MAX_ORDER → 0 < pfn < end_pfn → end_pfn ≤ total_pages s →
  unreserved (page_array s) pfn →
  wp (largest_order n pfn end_pfn) (λ o s', s' = s ∧
    block_ok s pfn o ∧ pfn + 2 ^ o ≤ end_pfn) s.
Proof.
  intros Hwf Hn Hpfn Hend Hun. pose proof (wf_total _ Hwf).
  induction n as [|n IH]; cbn [largest_order].
  { apply wp_ret. split; [done|]. change (2 ^ 0) with 1. split; [|lia].
    split; [unfold MAX_ORDER; lia|lia|by rewrite Z.mod_1_r|change (2 ^ 0) with 1; lia|].
    intros p Hp. change (2 ^ 0) with 1 in Hp. by replace p with pfn by lia. }
  set (o := Z.of_nat (S n)) in *. rewrite Z.shiftl_1_l.
  assert (2 ^ o ≤ 2 ^ 10) by (apply Z.pow_le_mono_r; unfold MAX_ORDER in *; lia).
  pose proof (pow2_pos o ltac:(lia)). rewrite (wrap_small 64 (pfn + 2 ^ o)) by lia.
  destruct (_ && _) eqn:Hc; [|apply IH; lia].
  apply andb_true_iff in Hc as [Ha He%Z.leb_le].
  fold (IS_ALIGNED pfn (2 ^ o)) in Ha. apply IS_ALIGNED_spec in Ha; [|lia].
  wp_step. eapply wp_mono; [apply all_free_spec; [done|lia|lia]|].
  intros [|] s' [-> Hall]; [|apply IH; lia].
  apply wp_ret. split; [done|]. split; [|done].
  split; [lia|lia|done|lia|]. intros p Hp. apply Hall; [done|lia].
Qed.

(** What adding the free pages of [pfn..end_pfn] does. *)
Record region_post (s s' : mem_info) (pfn end_pfn : Z) : Prop := RegionPost {
  rp_wf : wf s';
  rp_counts : counts_ok s';
  rp_total : total_pages s' = total_pages s;
  rp_unres : ∀ p, unreserved (page_array s') p ↔ unreserved (page_array s) p;
  rp_free : ∀ p, is_free s' p ↔
    is_free s p ∨ (pfn ≤ p < end_pfn ∧ unreserved (page_array s) p) }.

Lemma frame_unreserved_iff T ps ps' p :
  frame T ps ps' → unreserved ps' p ↔ unreserved ps p.
Proof.
  intros Hfr. split; [|by eapply frame_unreserved].
  intros (pg' & Hpg' & Hr). destruct Hfr as [Hl H].
  destruct (aget_is_Some ps p) as [pg Hpg].
  { rewrite <-Hl. by eapply aget_Some_bounds. }
  destruct (H _ _ Hpg) as (pg'' & ? & Hm & _). simplify_eq.
  exists pg. split; [done|]. by rewrite <-(same_meta_reserved _ _ Hm).
Qed.

Lemma add_block_spec s pfn o :
  wf s → counts_ok s → addable s pfn o →
  wp (free_list_add pfn o ;; add_free_pages (λ n, n +u64 Z.shiftl 1 o))
    (λ _ s', region_post s s' pfn (pfn + 2 ^ o)) s.
Proof.
  intros Hwf [Hc1 Hc2] Hadd. wp_step.
  eapply wp_mono; [by apply free_list_add_spec|]. intros [] s1 Had.
  pose proof (λ p, added_is_free _ _ _ _ p Had) as Hf.
  destruct Had as [Hwf1 Hh1 Hfr1 (Hg1 & Hg2 & _ & _ & Hg3) Hsum1].
  eapply wp_mono; [by apply add_free_pages_wf|].
  intros [] s2 (Hwf2 & Hps2 & Ht2 & Hz2 & Hm2).
  pose proof (free_sum_bounds _ Hwf1) as Hsb. pose proof (wf_total _ Hwf1) as Htot1.
  pose proof (free_sum_bounds _ Hwf) as Hsb0.
  destruct Hadd as [[Ho _ _ _ Hu] _]. pose proof (pow2_pos o ltac:(lia)).
  unfold MAX_ORDER in *. split; [done|..].
  - unfold counts_ok. rewrite Hps2, Hz2, Hm2, Z.shiftl_1_l, !wrap_small by lia. lia.
  - congruence.
  - intros p. rewrite Hps2. by eapply frame_unreserved_iff.
  - intros p. rewrite (is_free_ext _ _ p Hps2), Hf. unfold in_block. naive_solver.
Qed.

Lemma add_region_spec fuel s pfn end_pfn :
  wf s → counts_ok s → 0 < pfn → end_pfn ≤ total_pages s →
  end_pfn - pfn ≤ Z.of_nat fuel →
  (∀ p, pfn ≤ p < end_pfn → ¬ is_free s p) →
  wp (add_region fuel pfn end_pfn) (λ _ s', region_post s s' pfn end_pfn) s.
Proof.
  revert s pfn. induction fuel as [|fuel IH]; intros s pfn Hwf Hc Hp Hend Hfuel Hnf;
    cbn [add_region]; destruct (end_pfn <=? pfn) eqn:Hle; try lia.
  1,2: apply wp_ret; split; [done|done|done|done|]; intros p;
    (split; [tauto|]); intros [|[? _]]; [done|lia].
  apply Z.leb_gt in Hle. pose proof (wf_total _ Hwf).
  destruct (aget_is_Some (page_array s) pfn) as [pg Hpg]; [rewrite (wf_len _ Hwf); lia|].
  wp_step. eapply wp_rd_page; [done|].
  destruct (has (page_flags pg) PAGE_FLAG_RESERVED) eqn:Hr.
  - rewrite wrap_small by lia. eapply wp_mono.
    { apply IH; [done|done|lia|done|lia|]. intros p ?. apply Hnf. lia. }
    intros [] s' [H1 H2 H3 H4 H5]. split; [done..|].
    intros p. rewrite H5. split.
    + intros [|[? ?]]; [by left|right; split; [lia|done]].
    + intros [|[? Hu]]; [by left|right; split; [|done]].
      destruct (decide (p = pfn)) as [->|]; [|lia].
      destruct Hu as (pg' & ? & Hr'). unfold is_reserved in Hr'. simplify_eq. congruence.
  - wp_step. eapply wp_mono.
    { apply (largest_order_spec _ s); [done|unfold MAX_ORDER; lia|lia|done|by exists pg]. }
    intros o s' (-> & Hblk & Hoe). pose proof (bo_order _ _ _ Hblk).
    pose proof (pow2_pos o ltac:(lia)). cbv zeta.
    apply wp_assoc. wp_step. eapply wp_mono.
    { apply add_block_spec; [done|done|]. split; [done|]. intros p ?. apply Hnf. lia. }
    intros [] s1 [J1 J2 J3 J4 J5]. rewrite Z.shiftl_1_l, wrap_small by lia.
    eapply wp_mono.
    { apply IH; [done|done|lia|by rewrite J3|lia|].
      intros p ? [Hf|[? _]]%J5; [|lia]. apply (Hnf p); [lia|done]. }
    intros [] s2 [K1 K2 K3 K4 K5]. split; [done|done|congruence| |].
    + intros p. by rewrite K4.
    + intros p. rewrite K5, J5, J4. split.
      * intros [[|[? ?]]|[? ?]]; [by left|right; split; [lia|done]..].
      * intros [|[? ?]]; [by do 2 left|].
        destruct (decide (p < pfn + 2 ^ o)); [left; right|right]; (split; [lia|done]).
Qed.

(** No two usable regions of the map share a page. *)
Fixpoint disjoint_ranges (mmap : list MemoryMapEntry) : Prop :=
  match mmap with
  | [] => True
  | e :: mmap' =>
      (∀ a b p, usable_range e = Some (a, b) → a ≤ p < b → ¬ usable mmap' p) ∧
      disjoint_ranges mmap'
  end.

Lemma add_regions_spec mmap s :
  wf s → counts_ok s → ranges_below (total_pages s) mmap → disjoint_ranges mmap →
  (∀ p, usable mmap p → ¬ is_free s p) →
  wp (add_regions mmap) (λ _ s', wf s' ∧ counts_ok s' ∧ total_pages s' = total_pages s ∧
    ∀ p, is_free s' p ↔ is_free s p ∨ (usable mmap p ∧ unreserved (page_array s) p)) s.
Proof.
  revert s. induction mmap as [|e mmap IH]; intros s Hwf Hc Hr Hd Hnf; cbn [add_regions].
  { apply wp_ret. split_and!; [done..|]. intros p. pose proof (usable_nil p). tauto. }
  destruct Hd as [Hde Hd]. apply ranges_below_cons in Hr as [Hre Hr'].
  pose proof (usable_cons e mmap) as Hus.
  wp_step. destruct (usable_range e) as [[a b]|] eqn:He.
  - destruct (Hre a b eq_refl) as [Ha Hb].
    eapply wp_mono; [apply add_region_spec; [done|done|done|done|lia|]|].
    { intros p Hp. apply Hnf, Hus. left. eauto. }
    intros [] s1 [J1 J2 J3 J4 J5]. eapply wp_mono; [apply IH; [done|done|by rewrite J3|done|]|].
    { intros p Hp [Hf|[Hab _]]%J5.
      - apply (Hnf p); [|done]. apply Hus. by right.
      - by apply (Hde a b p). }
    intros [] s2 (K1 & K2 & K3 & K4). split_and!; [done|done|congruence|].
    intros p. rewrite K4, J5, J4, Hus. split.
    { intros [[?|[? ?]]|[? ?]]; [by left|right..]; (split; [|done]); [left; eauto|by right]. }
    intros [|[[(a' & b' & [= <- <-] & ?)|?] ?]]; tauto.
  - apply wp_ret. eapply wp_mono; [apply IH; try done|].
    { intros p Hp. apply Hnf, Hus. by right. }
    intros [] s2 (K1 & K2 & K3 & K4). split_and!; [done..|].
    intros p. rewrite K4, Hus. split; [tauto|].
    intros [?|[[(a & b & ? & _)|?] ?]]; [by left|done|by right].
Qed.

Lemma wf_ext s s' :
  total_pages s' = total_pages s → page_array s' = page_array s → mi_zone s' = mi_zone s →
  wf s → wf s'.
Proof.
  intros Ht Hp Hz [W1 W2 W3 W4 W5]. split; rewrite ?Ht, ?Hp; try done.
  - intros o Ho. destruct (W3 o Ho) as (L & HL). exists L. by rewrite Hz, Hp.
  - intros x o Hx. destruct (W4 x o Hx). split; rewrite ?Ht, ?Hp; done.
Qed.

Lemma count_reserved_spec s :
  wf s → wp count_reserved (λ _ s', total_pages s' = total_pages s ∧
    page_array s' = page_array s ∧ mi_zone s' = mi_zone s ∧
    mi_free_pages s' = mi_free_pages s) s.
Proof.
  intros Hwf. unfold count_reserved. wp_step. wp_step.
  apply (wp_for (λ _ s', total_pages s' = total_pages s ∧
    page_array s' = page_array s ∧ mi_zone s' = mi_zone s ∧
    mi_free_pages s' = mi_free_pages s)); [done| |done].
  intros i s1 Hi (H1 & H2 & H3 & H4).
  destruct (aget_is_Some (page_array s1) i) as [pg Hpg].
  { rewrite H2, (wf_len _ Hwf). lia. }
  wp_step. eapply wp_rd_page; [done|]. destruct (_ && _); by wp_steps.
Qed.

(** ** The memory map *)

Definition entry_ok (e : MemoryMapEntry) : Prop :=
  0 ≤ mm_base e ∧ 0 ≤ mm_length e ∧ mm_base e + mm_length e ≤ 2 ^ 63.

Lemma scan_entry_fst acc e :
  entry_ok e → (scan_entry acc e).1 = Z.max acc.1 (mm_base e + mm_length e).
Proof.
  intros (H0 & H1 & H2). unfold scan_entry. destruct acc as [m t]. simpl.
  rewrite wrap_small by lia. destruct (Z.ltb_spec m (mm_base e + mm_length e)); lia.
Qed.

Lemma scan_map_max mmap :
  Forall entry_ok mmap →
  0 ≤ (scan_map mmap).1 ≤ 2 ^ 63 ∧
  ∀ e, e ∈ mmap → mm_base e + mm_length e ≤ (scan_map mmap).1.
Proof.
  unfold scan_map. intros Hok.
  assert (∀ acc, 0 ≤ acc.1 ≤ 2 ^ 63 →
    acc.1 ≤ (foldl scan_entry acc mmap).1 ≤ 2 ^ 63 ∧
    ∀ e, e ∈ mmap → mm_base e + mm_length e ≤ (foldl scan_entry acc mmap).1) as Hgen.
  { induction Hok as [|e mmap He _ IH]; intros acc Hacc; simpl; [set_solver by lia|].
    pose proof (scan_entry_fst acc e He) as Hs. destruct He as (? & ? & ?).
    destruct (IH (scan_entry acc e)) as [J1 J2]; [lia|]. split; [lia|].
    intros e' [->|He']%elem_of_cons; [lia|auto]. }
  destruct (Hgen (0, 0)) as [J1 J2]; [simpl; lia|]. simpl in J1. split; [lia|done].
Qed.

Definition total_of (bi : BootInfo) : Z :=
  phys_to_pfn (ALIGN_UP (scan_map (bi_memory_map bi)).1 PAGE_SIZE).

Lemma shiftr_page x : Z.shiftr x PAGE_SHIFT = x / 4096.
Proof. unfold PAGE_SHIFT. by rewrite Z.shiftr_div_pow2 by lia. Qed.

Lemma usable_range_bounds e a b :
  entry_ok e → usable_range e = Some (a, b) →
  0 < a ∧ b ≤ (mm_base e + mm_length e) / 4096.
Proof.
  intros (H0 & H1 & H2). unfold usable_range.
  destruct (negb _); [done|]. rewrite (wrap_small 64 (mm_base e + _)) by lia.
  set (base := if _ <? _ then _ else _).
  assert (0x100000 ≤ base) as Hbase.
  { subst base. destruct (Z.ltb_spec (ALIGN_UP (mm_base e) PAGE_SIZE) 0x100000); lia. }
  unfold PAGE_SIZE. change 4096 with (2 ^ 12) at 1 2. rewrite ALIGN_DOWN_spec by lia.
  destruct (_ <=? _); [done|]. intros [= <- <-]. unfold phys_to_pfn. rewrite !shiftr_page.
  split.
  - assert (256 ≤ base / 4096); [|lia]. change 256 with (0x100000 / 4096).
    apply Z.div_le_mono; lia.
  - apply Z.div_le_mono; [lia|]. pose proof (Z.mod_pos_bound (mm_base e + mm_length e) (2 ^ 12)).
    lia.
Qed.

Lemma total_of_spec bi :
  Forall entry_ok (bi_memory_map bi) →
  0 ≤ total_of bi ≤ 2 ^ 52 ∧ ranges_below (total_of bi) (bi_memory_map bi).
Proof.
  intros Hok. destruct (scan_map_max _ Hok) as [Hm Hmax].
  unfold total_of, phys_to_pfn. rewrite shiftr_page.
  set (m := (scan_map (bi_memory_map bi)).1) in *.
  rewrite (ALIGN_UP_spec m 12 ltac:(lia) ltac:(lia) ltac:(lia) :
    ALIGN_UP m PAGE_SIZE = _).
  pose proof (Z.mod_pos_bound (m + (2 ^ 12 - 1)) (2 ^ 12)).
  assert (m ≤ m + (2 ^ 12 - 1) - (m + (2 ^ 12 - 1)) mod 2 ^ 12) as Hge by lia.
  split.
  - split; [apply Z.div_pos; lia|]. apply Z.div_le_upper_bound; lia.
  - intros e a b He Hr. rewrite Forall_forall in Hok.
    destruct (usable_range_bounds e a b (Hok e He) Hr) as [Ha Hb].
    split; [done|]. etrans; [exact Hb|]. apply Z.div_le_mono; [lia|].
    specialize (Hmax e He). lia.
Qed.

(** ** Initialisation *)

Definition kernel_end_pfn (kernel_phys_end : Z) : Z :=
  phys_to_pfn (ALIGN_UP kernel_phys_end PAGE_SIZE).

(** The page frames of the page array. *)
Definition array_range (bi : BootInfo) (kernel_phys_end : Z) : Z * Z :=
  (kernel_end_pfn kernel_phys_end,
   phys_to_pfn (ALIGN_UP (ALIGN_UP kernel_phys_end PAGE_SIZE +u64
     (total_of bi *u64 sizeof_page_t)) PAGE_SIZE)).

(** What the boot loader promises: entries that do not wrap around, usable
    regions that do not overlap, and room for the kernel, the page array and
    the initrd below the highest address. *)
Record boot_ok (bi : BootInfo) (kernel_phys_end : Z) : Prop := BootOk {
  bk_entries : Forall entry_ok (bi_memory_map bi);
  bk_disjoint : disjoint_ranges (bi_memory_map bi);
  bk_kernel : 0 ≤ kernel_end_pfn kernel_phys_end ≤ total_of bi;
  bk_array : (array_range bi kernel_phys_end).2 ≤ total_of bi;
  bk_initrd : 0 ≤ (initrd_range bi).1 ∧
    (has_initrd bi = true → (initrd_range bi).2 ≤ total_of bi) }.

(** The page frames the allocator starts with. *)
Definition initially_free (bi : BootInfo) (kernel_phys_end p : Z) : Prop :=
  usable (bi_memory_map bi) p ∧
  ¬ (0x200 ≤ p < kernel_end_pfn kernel_phys_end) ∧
  ¬ ((array_range bi kernel_phys_end).1 ≤ p < (array_range bi kernel_phys_end).2) ∧
  ¬ (has_initrd bi = true ∧ (initrd_range bi).1 ≤ p < (initrd_range bi).2).

Lemma pmm_init_wp bi kernel_phys_end s0 :
  boot_ok bi kernel_phys_end →
  wp (pmm_init bi kernel_phys_end) (λ _ s, wf s ∧ counts_ok s ∧
    total_pages s = total_of bi ∧
    ∀ p, is_free s p ↔ initially_free bi kernel_phys_end p) s0.
Proof.
  intros [Hok Hd Hk Ha [Hi0 Hi]]. destruct (total_of_spec bi Hok) as [Htot Hbelow].
  unfold pmm_init. destruct (scan_map (bi_memory_map bi)) as [m t] eqn:Hscan.
  assert (phys_to_pfn (ALIGN_UP m PAGE_SIZE) = total_of bi) as ->.
  { unfold total_of. by rewrite Hscan. }
  wp_step. wp_step. cbv zeta.
  wp_step. eapply wp_mono; [apply mark_usable_spec; [by apply pmm_reset_boot|done]|].
  intros [] s1 [Ht1 Hs1]. simpl in Ht1.
  wp_step. eapply wp_mono; [apply (mark_kernel_spec _ _ _ _ Hs1); [done|]|].
  { rewrite Ht1. apply Hk. }
  intros [] s2 [Ht2 Hs2].
  wp_step. eapply wp_mono; [apply (mark_kernel_spec _ _ _ _ Hs2)|].
  { apply Hk. }
  { rewrite Ht2, Ht1. exact Ha. }
  intros [] s3 [Ht3 Hs3].
  wp_step. eapply wp_mono; [apply (mark_initrd_spec _ _ _ Hs3); [done|]|].
  { by rewrite Ht3, Ht2, Ht1. }
  intros [] s4 [Ht4 Hs4]. destruct (boot_wf _ _ Hs4) as [Hwf4 Hc4].
  rewrite Ht3, Ht2, Ht1 in Ht4.
  assert (∀ p, ¬ is_free s4 p) as Hnf4.
  { intros p (x & o & Hx & _). by eapply boot_no_head. }
  wp_step. eapply wp_mono; [apply add_regions_spec; [done|done|by rewrite Ht4|done|auto]|].
  intros [] s5 (Hwf5 & Hc5 & Ht5 & Hf5).
  eapply wp_mono; [by apply count_reserved_spec|].
  intros [] s6 (E1 & E2 & E3 & E4). split; [by eapply wf_ext|].
  split; [unfold counts_ok in *; by rewrite E2, E3, E4|]. split; [congruence|].
  intros p. rewrite (is_free_ext _ _ p E2), Hf5. unfold initially_free.
  assert (usable (bi_memory_map bi) p → 0 ≤ p < total_pages s4) as Hup.
  { intros (e & a & b & He & Hr & Hp). destruct (Hbelow _ _ _ He Hr). lia. }
  assert (0 ≤ p < total_pages s4 → unreserved (page_array s4) p ↔
    ¬ ((((True ∧ ¬ usable (bi_memory_map bi) p) ∨
       phys_to_pfn 2097152 ≤ p < kernel_end_pfn kernel_phys_end) ∨
       (array_range bi kernel_phys_end).1 ≤ p < (array_range bi kernel_phys_end).2) ∨
       has_initrd bi = true ∧ (initrd_range bi).1 ≤ p < (initrd_range bi).2)) as Hun.
  { intros Hp. destruct (aget_is_Some (page_array s4) p) as [pg Hpg].
    { by rewrite (bs_len _ _ Hs4). }
    destruct (bs_pages _ _ Hs4 p pg Hpg) as [_ Hres]. unfold unreserved.
    rewrite Hpg. change (array_range bi kernel_phys_end).1 with
      (phys_to_pfn (ALIGN_UP kernel_phys_end PAGE_SIZE)).
    unfold array_range, kernel_end_pfn. simpl in *. rewrite <-Hres. split.
    - intros (? & [= <-] & ->). done.
    - intros Hr. exists pg. split; [done|]. by destruct (is_reserved pg). }
  change (phys_to_pfn 2097152) with 0x200 in Hun. split.
  - intros [Hf|[Hu Hunr]]; [by destruct (Hnf4 p)|]. apply Hun in Hunr; [|auto]. tauto.
  - intros (Hu & Hk' & Ha' & Hi'). right. split; [done|]. apply Hun; [auto|].
    destruct (decide (has_initrd bi = true)); tauto.
Qed.
