(* ===== verification/PmmThm.v ===== *)
(** * The physical memory manager: theorems (mm/pmm.c)

    What a client of the allocator may rely on: the contract of each
    operation, the refinement of an abstract frame allocator by every sequence
    of operations from boot, and the two situations in which the source breaks
    the contract. *)

From S2P Require Import Prelude DList Pmm PmmInv PmmInit.

(** ** The abstract allocator

    Its state is the set of free frames and the blocks its clients hold. *)

Definition frames : Type := Z → Prop.

Definition block : Type := Z * Z.

Definition in_blk (b : block) (p : Z) : Prop := in_block b.1 b.2 p.

Definition blk_disjoint (b c : block) : Prop := ∀ p, in_blk b p → in_blk c p → False.

Inductive spec_step : frames * list block → frames * list block → Prop :=
| spec_alloc F F' H b :
    (∀ p, in_blk b p → F p) → (∀ p, F' p ↔ F p ∧ ¬ in_blk b p) →
    b.1 mod 2 ^ b.2 = 0 →
    spec_step (F, H) (F', b :: H)
| spec_fail F H : spec_step (F, H) (F, H)
| spec_free F F' H1 b H2 :
    (∀ p, F' p ↔ F p ∨ in_blk b p) →
    spec_step (F, H1 ++ b :: H2) (F', H1 ++ H2).

(** ** The concrete allocator and its clients

    A client asks for a block of any order, or gives back a block it holds. *)

Inductive pmm_step : mem_info * list block → mem_info * list block → Prop :=
| pmm_alloc s s' H order r :
    0 ≤ order → alloc_pages order s = Some (r, s') → r ≠ 0 →
    pmm_step (s, H) (s', (phys_to_pfn r, order) :: H)
| pmm_fail s s' H order :
    0 ≤ order → alloc_pages order s = Some (0, s') → pmm_step (s, H) (s', H)
| pmm_free s s' H1 b H2 :
    free_pages (pfn_to_phys b.1) b.2 s = Some (tt, s') →
    pmm_step (s, H1 ++ b :: H2) (s', H1 ++ H2).

(** The states reached from the one [pmm_init] leaves. *)
Definition pmm_reachable (bi : BootInfo) (kend : Z) (c : mem_info * list block) : Prop :=
  ∃ s0 s1, pmm_init bi kend s0 = Some (tt, s1) ∧ rtc pmm_step (s1, []) c.

Record pmm_inv (s : mem_info) (H : list block) : Prop := PmmInv {
  pi_wf : wf s;
  pi_counts : counts_ok s;
  pi_aligned : zone_aligned s;
  pi_held : ∀ b, b ∈ H → addable s b.1 b.2;
  pi_disj : ForallOrdPairs blk_disjoint H }.

(** ** Helper lemmas *)

Lemma pfn_to_phys_small s x o :
  wf s → block_ok s x o → pfn_to_phys x = x * PAGE_SIZE.
Proof.
  intros Hwf [Ho Hx _ He _]. pose proof (wf_total _ Hwf). pose proof (pow2_pos o ltac:(lia)).
  unfold pfn_to_phys, PAGE_SHIFT, PAGE_SIZE. rewrite Z.shiftl_mul_pow2 by lia.
  apply wrap_small. lia.
Qed.

Lemma phys_to_pfn_mul x : phys_to_pfn (x * PAGE_SIZE) = x.
Proof. unfold phys_to_pfn. rewrite shiftr_page. by apply Z.div_mul. Qed.

(** A block nobody gave back stays clear of the free frames. *)
Lemma addable_ext s s' x o (A : Z → Prop) :
  total_pages s' = total_pages s →
  (∀ p, in_block x o p → unreserved (page_array s) p → unreserved (page_array s') p) →
  (∀ p, is_free s' p → is_free s p ∨ A p) → (∀ p, in_block x o p → ¬ A p) →
  addable s x o → addable s' x o.
Proof.
  intros Ht Hu Hf HA [[B1 B2 B3 B4 B5] Hn]. split.
  - split; [done..|by rewrite Ht|auto].
  - intros p Hp [Hp'|Hp']%Hf; [by apply (Hn p)|by apply (HA p)].
Qed.

Lemma kept_unreserved s s' p :
  (∀ q, aget (page_array s) p = Some q → ∃ q', aget (page_array s') p = Some q' ∧
     same_meta q q' ∧ page_order q' = page_order q) →
  unreserved (page_array s) p → unreserved (page_array s') p.
Proof.
  intros Hfr (pg & Hpg & Hr). destruct (Hfr pg Hpg) as (pg' & Hpg' & Hm & _).
  exists pg'. split; [done|]. by rewrite (same_meta_reserved _ _ Hm).
Qed.

Lemma FOP_app_cons {A} (R : A → A → Prop) H1 b H2 :
  ForallOrdPairs R (H1 ++ b :: H2) →
  ForallOrdPairs R (H1 ++ H2) ∧ ∀ c, c ∈ H1 ++ H2 → R b c ∨ R c b.
Proof.
  induction H1 as [|a H1 IH]; simpl; inversion_clear 1 as [|?? Ha HF].
  - split; [done|]. rewrite Forall_forall in Ha. auto.
  - destruct (IH HF) as [HF' Hb]. rewrite Forall_forall in Ha. split.
    + constructor; [|done]. apply Forall_forall. intros c Hc. apply Ha. set_solver.
    + intros c [->|Hc]%elem_of_cons; [|auto]. right. apply Ha. set_solver.
Qed.

(** ** Every step keeps the invariant and refines the abstract step *)

Lemma pmm_alloc_simulates s s' H order r :
  pmm_inv s H → 0 ≤ order → alloc_pages order s = Some (r, s') → r ≠ 0 →
  pmm_inv s' ((phys_to_pfn r, order) :: H) ∧
  spec_step (is_free s, H) (is_free s', (phys_to_pfn r, order) :: H).
Proof.
  intros [Hwf Hc Hz Hh Hd] Ho Hrun Hr.
  pose proof (alloc_pages_wp s order Hwf Hc Ho) as Hwp. unfold wp in Hwp. rewrite Hrun in Hwp.
  destruct Hwp as (Hwf' & Hc' & Ht & [[-> _]|(pfn & cur & -> & Hcur & Hpost & _)]); [done|].
  rewrite phys_to_pfn_mul. pose proof Hpost as [Hal Hwas Hf Hfr]. split.
  - split; [done|done|unfold zone_aligned; by rewrite Ht|..].
    + intros b [->|Hb]%elem_of_cons; [by destruct Hal|]. pose proof (Hh b Hb) as Hadd.
      apply (addable_ext s _ _ _ (λ _, False)); [done| | |tauto|done].
      * intros p Hp. apply kept_unreserved. intros q Hq. apply Hfr; [done|].
        by apply (proj2 Hadd).
      * intros p [? _]%Hf. by left.
    + constructor; [|done]. apply Forall_forall. intros b Hb p Hp Hp'.
      apply (proj2 (Hh b Hb) p Hp'). by apply Hwas.
  - constructor; [done|done|]. by destruct Hal as [[[] _] _ _].
Qed.

Lemma pmm_free_simulates s s' H1 b H2 :
  pmm_inv s (H1 ++ b :: H2) → free_pages (pfn_to_phys b.1) b.2 s = Some (tt, s') →
  pmm_inv s' (H1 ++ H2) ∧ spec_step (is_free s, H1 ++ b :: H2) (is_free s', H1 ++ H2).
Proof.
  intros [Hwf Hc Hz Hh Hd] Hrun. pose proof (Hh b ltac:(set_solver)) as Hadd.
  rewrite (pfn_to_phys_small s _ _ Hwf (proj1 Hadd)) in Hrun.
  pose proof (free_pages_wp s b.1 b.2 Hwf Hc Hz Hadd) as Hwp. unfold wp in Hwp.
  rewrite Hrun in Hwp. destruct Hwp as (Hwf' & Hc' & Ht & [Hf Hrc Hfr] & _).
  apply FOP_app_cons in Hd as [Hd Hb]. split.
  - split; [done|done|unfold zone_aligned; by rewrite Ht| |done].
    intros c Hcin. pose proof (Hh c ltac:(set_solver)) as Haddc.
    assert (∀ p, in_block c.1 c.2 p → ¬ in_block b.1 b.2 p) as Hdis.
    { intros p Hp Hp'. destruct (Hb c Hcin) as [Hx|Hx]; by apply (Hx p). }
    apply (addable_ext s _ _ _ (in_block b.1 b.2)); [done| | |done|done].
    + intros p Hp. apply kept_unreserved. intros q Hq.
      apply Hfr; [done|by apply (proj2 Haddc)|auto].
    + intros p. by rewrite Hf.
  - by constructor.
Qed.

Lemma pmm_step_simulates s H s' H' :
  pmm_inv s H → pmm_step (s, H) (s', H') →
  pmm_inv s' H' ∧ spec_step (is_free s, H) (is_free s', H').
Proof.
  intros Hinv Hstep.
  inversion Hstep as [??? order r Ho Hrun Hr|??? order Ho Hrun|?? H1 b H2 Hrun]; subst.
  - by apply pmm_alloc_simulates.
  - destruct Hinv as [Hwf Hc Hz Hh Hd].
    pose proof (alloc_pages_wp s order Hwf Hc Ho) as Hwp. unfold wp in Hwp.
    rewrite Hrun in Hwp.
    destruct Hwp as (_ & _ & _ & [(_ & -> & _)|(pfn & cur & Hr & _ & [[[[_ Hp _ _ _] _] _ _] _ _ _] & _)]).
    + split; [done|constructor].
    + unfold PAGE_SIZE in Hr. lia.
  - by apply pmm_free_simulates.
Qed.

(** Every frame that was free at boot is free or held. *)
Lemma spec_conserves F H F' H' (F0 : frames) :
  spec_step (F, H) (F', H') →
  (∀ p, F0 p ↔ F p ∨ ∃ b, b ∈ H ∧ in_blk b p) →
  (∀ p, F0 p ↔ F' p ∨ ∃ b, b ∈ H' ∧ in_blk b p).
Proof.
  intros Hstep Hc p. rewrite Hc.
  inversion Hstep as [F1 F1' H1 b Hsub HF Hal|F1 H1|F1 F1' H1 b H2 HF]; subst; [|done|].
  - rewrite HF. setoid_rewrite elem_of_cons. split.
    + intros [Hp|(c & ? & ?)]; [|right; eauto].
      assert (in_blk b p ∨ ¬ in_blk b p) as [?|?] by (unfold in_blk, in_block; lia);
        [right|left]; eauto.
    + intros [[? _]|(c & [->|?] & ?)]; [by left| |right]; eauto.
  - rewrite HF. split.
    + intros [?|(c & Hcin & ?)]; [by do 2 left|].
      apply elem_of_app in Hcin as [?|[->|?]%elem_of_cons]; [right|by left; right|right];
        exists c; (split; [|done]); apply elem_of_app; tauto.
    + intros [[?|?]|(c & Hcin & ?)]; [by left|right|right].
      * exists b. split; [|done]. set_solver.
      * exists c. split; [|done]. set_solver.
Qed.

Lemma pmm_boot_inv bi kend s0 s1 :
  boot_ok bi kend → total_of bi mod 2 ^ MAX_ORDER = 0 →
  pmm_init bi kend s0 = Some (tt, s1) →
  pmm_inv s1 [] ∧ ∀ p, is_free s1 p ↔ initially_free bi kend p.
Proof.
  intros Hb Hz Hrun. pose proof (pmm_init_wp bi kend s0 Hb) as Hwp. unfold wp in Hwp.
  rewrite Hrun in Hwp. destruct Hwp as (Hwf & Hc & Ht & Hf). split; [|done].
  split; [done|done|unfold zone_aligned; by rewrite Ht|set_solver|constructor].
Qed.

(** The invariant and the simulation, over a whole run. *)
Definition run_ok (bi : BootInfo) (kend : Z) (c : mem_info * list block) : Prop :=
  pmm_inv c.1 c.2 ∧
  (∀ p, initially_free bi kend p ↔ is_free c.1 p ∨ ∃ b, b ∈ c.2 ∧ in_blk b p) ∧
  ∃ F0, (∀ p, F0 p ↔ initially_free bi kend p) ∧ rtc spec_step (F0, []) (is_free c.1, c.2).

Lemma pmm_run bi kend c :
  boot_ok bi kend → total_of bi mod 2 ^ MAX_ORDER = 0 →
  pmm_reachable bi kend c → run_ok bi kend c.
Proof.
  intros Hb Hz (s0 & s1 & Hinit & Hrtc).
  destruct (pmm_boot_inv _ _ _ _ Hb Hz Hinit) as [Hinv0 Hf0].
  revert c Hrtc. apply (rtc_ind_r (run_ok bi kend)).
  - split; [done|]. split.
    + intros p. rewrite <-Hf0. set_solver.
    + exists (is_free s1). split; [done|constructor].
  - intros [s H] [s' H'] _ Hstep (Hinv & Hcons & F0 & HF0 & Hsp).
    destruct (pmm_step_simulates _ _ _ _ Hinv Hstep) as [Hinv' Hspec]. split; [done|]. split.
    + by eapply spec_conserves.
    + exists F0. split; [done|]. by eapply rtc_r.
Qed.

(** ** The free frames, listed *)

Fixpoint free_frames (k : Z) (ps : list page) : list Z :=
  match ps with
  | [] => []
  | p :: ps' =>
      (if is_buddy p then seqZ k (2 ^ page_order p) else []) ++ free_frames (k + 1) ps'
  end.

Lemma elem_of_free_frames k ps x :
  x ∈ free_frames k ps ↔
  ∃ (i : nat) p, ps !! i = Some p ∧ is_buddy p = true ∧
    k + Z.of_nat i ≤ x < k + Z.of_nat i + 2 ^ page_order p.
Proof.
  revert k. induction ps as [|p ps IH]; intros k; simpl.
  { split; [set_solver|]. by intros (i & p & ? & _). }
  rewrite elem_of_app, IH. split.
  - intros [Hx|(i & q & Hq & Hb & Hx)].
    + exists O, p. destruct (is_buddy p) eqn:Hb; [|set_solver].
      apply elem_of_seqZ in Hx. split_and!; [done|done|lia|lia].
    + exists (S i), q. split_and!; [done|done|lia|lia].
  - intros ([|i] & q & Hq & Hb & Hx); simplify_eq/=.
    + left. rewrite Hb. apply elem_of_seqZ. lia.
    + right. exists i, q. split_and!; [done|done|lia|lia].
Qed.

Lemma free_frames_length k ps :
  (∀ p, p ∈ ps → is_buddy p = true → 0 ≤ page_order p) →
  Z.of_nat (length (free_frames k ps)) = free_sum ps.
Proof.
  revert k. induction ps as [|p ps IH]; intros k Ho; simpl; [done|].
  rewrite length_app, Nat2Z.inj_add, IH by (intros; apply Ho; [set_solver|done]).
  unfold block_weight. destruct (is_buddy p) eqn:Hb; [|done].
  rewrite length_seqZ, Z2Nat.id; [done|].
  pose proof (pow2_pos (page_order p) (Ho p ltac:(set_solver) Hb)). lia.
Qed.

Lemma free_frames_NoDup k ps :
  (∀ (i j : nat) p q, ps !! i = Some p → ps !! j = Some q →
     is_buddy p = true → is_buddy q = true → (i < j)%nat →
     Z.of_nat i + 2 ^ page_order p ≤ Z.of_nat j) →
  NoDup (free_frames k ps).
Proof.
  revert k. induction ps as [|p ps IH]; intros k Hd; simpl; [constructor|].
  apply NoDup_app. split_and!.
  - case_match; [apply NoDup_seqZ|constructor].
  - intros x Hx Hx'. apply elem_of_free_frames in Hx' as (i & q & Hq & Hbq & Hxq).
    destruct (is_buddy p) eqn:Hb; [|set_solver]. apply elem_of_seqZ in Hx.
    specialize (Hd O (S i) p q eq_refl Hq Hb Hbq ltac:(lia)). lia.
  - apply IH. intros i j p' q Hi Hj Hbi Hbj Hij.
    specialize (Hd (S i) (S j) p' q Hi Hj Hbi Hbj ltac:(lia)). lia.
Qed.

Lemma lookup_free_head (s : mem_info) (i : nat) p :
  page_array s !! i = Some p → is_buddy p = true →
  free_head (page_array s) (Z.of_nat i) (page_order p).
Proof.
  intros Hp Hb. exists p. split; [|done]. unfold aget.
  rewrite decide_True by lia. by rewrite Nat2Z.id.
Qed.

Lemma free_frames_spec s :
  wf s →
  NoDup (free_frames 0 (page_array s)) ∧
  (∀ p, p ∈ free_frames 0 (page_array s) ↔ is_free s p) ∧
  Z.of_nat (length (free_frames 0 (page_array s))) = free_sum (page_array s).
Proof.
  intros Hwf. split_and!.
  - apply free_frames_NoDup. intros i j p q Hi Hj Hbi Hbj Hij.
    pose proof (lookup_free_head s i p Hi Hbi) as Hfi.
    pose proof (lookup_free_head s j q Hj Hbj) as Hfj.
    pose proof (wf_blocks _ Hwf _ _ Hfj) as [Hoj _ _ _ _].
    pose proof (pow2_pos (page_order q) ltac:(lia)).
    destruct (wf_disj _ Hwf _ _ _ _ Hfi Hfj); lia.
  - intros x. rewrite elem_of_free_frames. split.
    + intros (i & p & Hp & Hb & Hx). exists (Z.of_nat i), (page_order p).
      split; [by apply lookup_free_head|lia].
    + intros (y & o & (p & Hp & Hb & <-) & Hx). pose proof (aget_Some_bounds _ _ _ Hp).
      exists (Z.to_nat y), p. unfold aget in Hp. rewrite decide_True in Hp by lia.
      split_and!; [done|done|lia|lia].
  - apply free_frames_length. intros p [i Hp]%list_elem_of_lookup Hb.
    pose proof (lookup_free_head s i p Hp Hb) as Hf.
    pose proof (wf_blocks _ Hwf _ _ Hf) as [Ho _ _ _ _]. lia.
Qed.

(** ** Coalescing *)

Lemma buddy_upper x o c :
  0 ≤ o < c → x mod 2 ^ c = 0 → get_buddy_pfn x o = x + 2 ^ o.
Proof.
  intros Ho Hx. pose proof (pow2_pos o ltac:(lia)).
  pose proof (mod_pow2_weaken x (o + 1) c ltac:(lia) Hx) as H1.
  pose proof (mod_pow2_weaken x o c ltac:(lia) Hx) as H0.
  destruct (buddy_cases x o ltac:(lia) H0) as [[? _]|[_ H2]]; [done|].
  rewrite pow2_succ in * by lia. apply Z.mod_divide in H1, H2; [|lia..].
  destruct H1 as [a Ha], H2 as [b Hb].
  assert (2 ^ o * (2 * (a - b) - 1) = 0) as [Hz|Hz]%Z.mul_eq_0 by lia; lia.
Qed.

Lemma alloc_keeps_coalesced s s' pfn order cur :
  wf s → coalesced s → free_head (page_array s) pfn cur → 0 ≤ order →
  (∀ y q, free_head (page_array s') y q ↔
     (free_head (page_array s) y q ∧ y ≠ pfn) ∨ (order ≤ q < cur ∧ y = pfn + 2 ^ q)) →
  coalesced s'.
Proof.
  intros Hwf Hco Hh Ho Hheads x o Hom. rewrite !Hheads.
  pose proof (wf_blocks _ Hwf _ _ Hh) as [_ _ Hal _ _].
  intros [[Hx Hne]|[Hoc Hx]] [[Hb Hbne]|[Hoc' Hb]].
  - by apply (Hco x o Hom).
  - apply Hne. rewrite <-(buddy_invol x o) by lia.
    rewrite Hb, <-(buddy_upper pfn o cur) by (done || lia). apply buddy_invol. lia.
  - apply Hbne. rewrite Hx, <-(buddy_upper pfn o cur) by (done || lia).
    apply buddy_invol. lia.
  - pose proof (pow2_pos o ltac:(lia)). rewrite Hx in Hb.
    rewrite <-(buddy_upper pfn o cur), buddy_invol in Hb by (done || lia).
    rewrite (buddy_upper pfn o cur) in Hb by (done || lia). lia.
Qed.

(** ** A concrete machine: 4MB of memory, usable above 2MB *)

Definition demo_boot : BootInfo := MkBootInfo 0 [MmapEntry 0x200000 0x200000 1] 0 0.
Definition demo_kend : Z := 0x201000.

Lemma demo_boot_ok : boot_ok demo_boot demo_kend.
Proof.
  split.
  - repeat constructor; simpl; lia.
  - split; [|done]. intros a b p _ _. apply usable_nil.
  - by vm_compute.
  - by vm_compute.
  - by vm_compute.
Qed.

Definition demo_state : mem_info :=
  run_state (pmm_init demo_boot demo_kend) (pmm_reset 0 0).

Lemma demo_runs : pmm_init demo_boot demo_kend (pmm_reset 0 0) = Some (tt, demo_state).
Proof. exact (wp_run_state _ _ _ (pmm_init_wp _ _ (pmm_reset 0 0) demo_boot_ok)). Qed.

Lemma demo_inv : pmm_inv demo_state [] ∧
  ∀ p, is_free demo_state p ↔ initially_free demo_boot demo_kend p.
Proof. eapply pmm_boot_inv; [apply demo_boot_ok|by vm_compute|apply demo_runs]. Qed.

Lemma demo_reachable : pmm_reachable demo_boot demo_kend (demo_state, []).
Proof. exists (pmm_reset 0 0), demo_state. split; [apply demo_runs|constructor]. Qed.

(** The demo machine after one page has been handed out. *)
Definition demo_pfn : Z := 521.

Lemma demo_alloc_addr :
  (λ r : Z * mem_info, r.1) <$> alloc_pages 0 demo_state = Some (demo_pfn * PAGE_SIZE).
Proof. by vm_compute. Qed.

Lemma demo_alloc : ∃ s', alloc_pages 0 demo_state = Some (demo_pfn * PAGE_SIZE, s') ∧
  wf s' ∧ counts_ok s' ∧ zone_aligned s' ∧ alloc_post demo_state s' demo_pfn 0.
Proof.
  destruct (proj1 demo_inv) as [Hwf Hc Hz _ _].
  destruct (wp_elim _ _ _ (alloc_pages_wp _ 0 Hwf Hc ltac:(lia)))
    as (r & s' & Hrun & Hwf' & Hc' & Ht & Hr).
  pose proof demo_alloc_addr as Haddr. rewrite Hrun in Haddr.
  injection Haddr as Heq. simpl in Heq. exists s'. rewrite Hrun, Heq.
  split; [reflexivity|]. split; [exact Hwf'|]. split; [exact Hc'|].
  split; [unfold zone_aligned; rewrite Ht; exact Hz|].
  destruct Hr as [(-> & _)|(pfn & cur & -> & _ & Hpost & _)]; [done|].
  unfold PAGE_SIZE in Heq. by replace demo_pfn with pfn by lia.
Qed.

(** The demo machine's reachable states: one page handed out, and the same
    page given back. *)
Lemma demo_step : ∃ s', pmm_step (demo_state, []) (s', [(demo_pfn, 0)]).
Proof.
  destruct demo_alloc as (s' & Hrun & _). exists s'.
  exact (pmm_alloc demo_state s' [] 0 (demo_pfn * PAGE_SIZE) ltac:(lia) Hrun ltac:(by vm_compute)).
Qed.

Lemma demo_held : ∃ s, pmm_reachable demo_boot demo_kend (s, [(demo_pfn, 0)]).
Proof.
  destruct demo_step as (s & Hs). exists s, (pmm_reset 0 0), demo_state.
  split; [apply demo_runs|by apply rtc_once].
Qed.

Lemma demo_returned : ∃ s1 s2, pmm_reachable demo_boot demo_kend (s1, [(demo_pfn, 0)]) ∧
  pmm_step (s1, [(demo_pfn, 0)]) (s2, []) ∧ pmm_reachable demo_boot demo_kend (s2, []).
Proof.
  destruct demo_alloc as (s1 & Hrun & Hwf & Hc & Hz & [[Hadd _ _] _ _ _]).
  pose proof (pmm_alloc demo_state s1 [] 0 (demo_pfn * PAGE_SIZE) ltac:(lia) Hrun
                ltac:(by vm_compute)) as H1.
  destruct (wp_elim _ _ _ (free_pages_wp s1 demo_pfn 0 Hwf Hc Hz Hadd)) as ([] & s2 & Hf & _).
  rewrite <-(pfn_to_phys_small s1 demo_pfn 0 Hwf (proj1 Hadd)) in Hf.
  pose proof (pmm_free s1 s2 [] (demo_pfn, 0) [] Hf) as H2.
  exists s1, s2. split_and!; [|exact H2|]; exists (pmm_reset 0 0), demo_state;
    (split; [apply demo_runs|]); [by apply rtc_once|].
  eapply rtc_l; [exact H1|by apply rtc_once].
Qed.

(** ** The theorems *)

(** C2. Refinement.  Let the memory map be sane ([boot_ok]: entries that do not
    overlap or wrap, the kernel, page array and initrd inside the memory), and
    let the number of frames be a multiple of the largest block's (see
    [free_pages_past_zone] for what happens otherwise).  Then every state the
    allocator reaches from boot, whatever its clients ask for and give back,
    is a state of the abstract allocator: one that starts from the frames that
    are usable and not the kernel's, hands out aligned blocks of free frames,
    and takes back blocks that are held. *)
Theorem pmm_refines_spec bi kend s H :
  boot_ok bi kend → total_of bi mod 2 ^ MAX_ORDER = 0 →
  pmm_reachable bi kend (s, H) →
  ∃ F0, (∀ p, F0 p ↔ initially_free bi kend p) ∧ rtc spec_step (F0, []) (is_free s, H).
Proof. intros Hb Hz Hr. by destruct (pmm_run _ _ _ Hb Hz Hr) as (_ & _ & ?). Qed.

Lemma pmm_refines_spec_witness :
  ∃ s1 s2, pmm_step (s1, [(demo_pfn, 0)]) (s2, []) ∧
    (∃ F0, (∀ p, F0 p ↔ initially_free demo_boot demo_kend p) ∧
      rtc spec_step (F0, []) (is_free s1, [(demo_pfn, 0)])) ∧
    (∃ F0, (∀ p, F0 p ↔ initially_free demo_boot demo_kend p) ∧
      rtc spec_step (F0, []) (is_free s2, [])).
Proof.
  destruct demo_returned as (s1 & s2 & H1 & Hstep & H2).
  assert (total_of demo_boot mod 2 ^ MAX_ORDER = 0) as Hz by by vm_compute.
  exists s1, s2. split; [exact Hstep|]. split.
  - exact (pmm_refines_spec demo_boot demo_kend s1 [(demo_pfn, 0)] demo_boot_ok Hz H1).
  - exact (pmm_refines_spec demo_boot demo_kend s2 [] demo_boot_ok Hz H2).
Defined.

(** C11. Safety.  For a sane memory map whose number of frames is a multiple of
    the largest block's, in every reachable state no two held blocks share a
    frame, no frame of a held block is free or reserved, every frame that was
    free at boot is free or held, and no operation a client may call next
    faults. *)
Theorem pmm_reachable_safe bi kend s H :
  boot_ok bi kend → total_of bi mod 2 ^ MAX_ORDER = 0 →
  pmm_reachable bi kend (s, H) →
  ForallOrdPairs blk_disjoint H ∧
  (∀ b p, b ∈ H → in_blk b p → ¬ is_free s p ∧ unreserved (page_array s) p) ∧
  (∀ p, initially_free bi kend p ↔ is_free s p ∨ ∃ b, b ∈ H ∧ in_blk b p) ∧
  (∀ order, 0 ≤ order → is_Some (alloc_pages order s)) ∧
  (∀ b, b ∈ H → is_Some (free_pages (pfn_to_phys b.1) b.2 s)).
Proof.
  intros Hb Hz Hr. destruct (pmm_run _ _ _ Hb Hz Hr) as ([Hwf Hc Hal Hh Hd] & Hcons & _).
  simpl in *. split_and!; [done| |done| |].
  - intros b p Hbin Hp. destruct (Hh b Hbin) as [[_ _ _ _ Hu] Hn]. split; [by apply Hn|by apply Hu].
  - intros order Ho. destruct (wp_elim _ _ _ (alloc_pages_wp s order Hwf Hc Ho)) as (r & s' & -> & _).
    done.
  - intros b Hbin. pose proof (Hh b Hbin) as Hadd.
    rewrite (pfn_to_phys_small s _ _ Hwf (proj1 Hadd)).
    destruct (wp_elim _ _ _ (free_pages_wp s b.1 b.2 Hwf Hc Hal Hadd)) as (r & s' & -> & _). done.
Qed.

Lemma pmm_reachable_safe_witness :
  ∃ s, ¬ is_free s demo_pfn ∧ is_Some (alloc_pages 0 s) ∧
    is_Some (free_pages (pfn_to_phys demo_pfn) 0 s).
Proof.
  destruct demo_held as (s & Hr).
  assert (total_of demo_boot mod 2 ^ MAX_ORDER = 0) as Hz by by vm_compute.
  destruct (pmm_reachable_safe demo_boot demo_kend s [(demo_pfn, 0)] demo_boot_ok Hz Hr)
    as (_ & H2 & _ & H4 & H5).
  assert ((demo_pfn, 0) ∈ [(demo_pfn, 0)]) as Hin by by apply list_elem_of_singleton.
  exists s. split; [|split; [by apply H4|exact (H5 _ Hin)]].
  apply (H2 _ demo_pfn Hin). unfold in_blk, in_block. simpl. lia.
Defined.



(** C17. Allocation.  [alloc_pages] never faults from a well-formed state; it
    returns 0 and changes nothing when the order is too large or no free block
    is large enough, and otherwise returns the address of an aligned block of
    frames that were free, marks it, takes exactly these frames out of the
    free ones, and keeps every descriptor of a frame that was not free. *)
Theorem alloc_pages_correct s order :
  wf s → counts_ok s → 0 ≤ order →
  ∃ r s', alloc_pages order s = Some (r, s') ∧ wf s' ∧ counts_ok s' ∧
    ((r = 0 ∧ s' = s ∧
        (MAX_ORDER < order ∨ ∀ x q, free_head (page_array s) x q → q < order)) ∨
     ∃ pfn, r = pfn * PAGE_SIZE ∧ r ≠ 0 ∧ alloc_post s s' pfn order).
Proof.
  intros Hwf Hc Ho.
  destruct (wp_elim _ _ _ (alloc_pages_wp s order Hwf Hc Ho))
    as (r & s' & Hrun & Hwf' & Hc' & _ & Hr).
  exists r, s'. split_and!; [done..|].
  destruct Hr as [?|(pfn & cur & -> & _ & Hpost & _)]; [by left|right].
  exists pfn. split_and!; [done| |done].
  destruct Hpost as [[[[_ Hp _ _ _] _] _ _] _ _ _]. unfold PAGE_SIZE. lia.
Qed.

Lemma alloc_pages_correct_witness :
  ∃ r s', alloc_pages 3 demo_state = Some (r, s') ∧ wf s'.
Proof.
  destruct (alloc_pages_correct demo_state 3) as (r & s' & Hrun & Hwf & _).
  - apply (pi_wf _ _ (proj1 demo_inv)).
  - apply (pi_counts _ _ (proj1 demo_inv)).
  - lia.
  - exists r, s'. split; [exact Hrun|exact Hwf].
Defined.

(** C18. Release.  Giving back a block of the zone that is neither free nor
    reserved does not fault when the zone ends on a boundary of the largest
    block, makes exactly its frames free, zeroes their reference counts, and
    keeps the lists, the counters and the descriptors of all other frames in
    use. *)
Theorem free_pages_correct s pfn order :
  wf s → counts_ok s → zone_aligned s → addable s pfn order →
  ∃ s', free_pages (pfn * PAGE_SIZE) order s = Some (tt, s') ∧ wf s' ∧ counts_ok s' ∧
    free_post s s' pfn order.
Proof.
  intros Hwf Hc Hz Hadd.
  destruct (wp_elim _ _ _ (free_pages_wp s pfn order Hwf Hc Hz Hadd))
    as ([] & s' & Hrun & Hwf' & Hc' & _ & Hpost & _). eauto.
Qed.

Lemma free_pages_correct_witness :
  ∃ s s', free_pages (demo_pfn * PAGE_SIZE) 0 s = Some (tt, s') ∧ wf s'.
Proof.
  destruct demo_alloc as (s & _ & Hwf & Hc & Hz & [[Hadd _ _] _ _ _]).
  destruct (free_pages_correct s demo_pfn 0 Hwf Hc Hz Hadd) as (s' & Hrun & Hwf' & _).
  exists s, s'. split; [exact Hrun|exact Hwf'].
Defined.

(** Coalescing is complete.  If no block and its buddy are both free, the
    same holds after any allocation and after any release: [free_pages] merges
    as far as it can, and splitting never leaves two free buddies. *)
Theorem pmm_keeps_coalesced s H s' H' :
  pmm_inv s H → pmm_step (s, H) (s', H') → coalesced s → coalesced s'.
Proof.
  intros [Hwf Hc Hz Hh Hd] Hstep Hco.
  inversion Hstep as [??? order r Ho Hrun Hr|??? order Ho Hrun|?? H1 b H2 Hrun]; subst.
  1,2: pose proof (alloc_pages_wp s order Hwf Hc Ho) as Hwp; unfold wp in Hwp;
    rewrite Hrun in Hwp;
    destruct Hwp as (_ & _ & _ & [(_ & -> & _)|(pfn & cur & _ & _ & _ & Hhd & Hheads)]);
    [done|by eapply alloc_keeps_coalesced].
  pose proof (Hh b ltac:(set_solver)) as Hadd.
  rewrite (pfn_to_phys_small s _ _ Hwf (proj1 Hadd)) in Hrun.
  pose proof (free_pages_wp s b.1 b.2 Hwf Hc Hz Hadd) as Hwp. unfold wp in Hwp.
  rewrite Hrun in Hwp. by apply Hwp.
Qed.

(** A zone with one free block is coalesced. *)
Definition tiny_page (buddy : bool) : page :=
  Page None None (if buddy then PAGE_FLAG_BUDDY else PAGE_FLAG_RESERVED) 0 0.

Definition tiny_state : mem_info := MemInfo 1024 0 0 0
  (replicate 1024 (tiny_page false)) 0 (empty_zone 1024).

Lemma tiny_boot : boot_state (λ _, True) tiny_state.
Proof.
  split; [done|done|done|done|]. intros p pg Hp.
  change (page_array tiny_state) with (replicate 1024 (tiny_page false)) in Hp.
  rewrite aget_replicate in Hp; [by simplify_eq|].
  apply aget_Some_bounds in Hp. unfold alen in Hp. by rewrite length_replicate in Hp.
Qed.

Lemma pmm_keeps_coalesced_witness :
  ∃ s', pmm_step (tiny_state, []) (s', []) ∧ coalesced s'.
Proof.
  destruct (boot_wf _ _ tiny_boot) as [Hwf Hc].
  destruct (wp_elim _ _ _ (alloc_pages_wp tiny_state 0 Hwf Hc ltac:(lia)))
    as (r & s' & Hrun & _ & _ & _ & Hr).
  assert (r = 0) as ->.
  { destruct Hr as [[-> _]|(pfn & _ & _ & _ & [[[Hblk _] _ _] Hwas _ _] & _)]; [done|].
    destruct (Hwas pfn) as (x & o & Hx & _); [unfold in_block; lia|].
    by destruct (boot_no_head _ _ x o tiny_boot). }
  assert (pmm_step (tiny_state, []) (s', [])) as Hstep by (by eapply pmm_fail).
  exists s'. split; [exact Hstep|].
  apply (pmm_keeps_coalesced tiny_state [] s' []).
  - split; [exact Hwf|exact Hc|by vm_compute| |constructor].
    intros b Hb. by apply elem_of_nil in Hb.
  - exact Hstep.
  - intros x o _ Hx. by destruct (boot_no_head _ _ x o tiny_boot).
Defined.

(** Round trip.  Allocating a block and giving it back leaves the same
    frames free, and the same counters. *)
Theorem alloc_free_roundtrip s order :
  wf s → counts_ok s → zone_aligned s → 0 ≤ order →
  ∃ r s', alloc_pages order s = Some (r, s') ∧
    (r ≠ 0 → ∃ s'', free_pages r order s' = Some (tt, s'') ∧
       (∀ p, is_free s'' p ↔ is_free s p) ∧
       mi_free_pages s'' = mi_free_pages s ∧
       zone_free_pages (mi_zone s'') = zone_free_pages (mi_zone s)).
Proof.
  intros Hwf Hc Hz Ho.
  destruct (wp_elim _ _ _ (alloc_pages_wp s order Hwf Hc Ho))
    as (r & s' & Hrun & Hwf' & Hc' & Ht & Hr).
  exists r, s'. split; [done|]. intros Hr0.
  destruct Hr as [[? _]|(pfn & cur & -> & _ & [Hal Hwas Hf Hfr] & _)]; [done|].
  assert (zone_aligned s') as Hz' by (unfold zone_aligned; by rewrite Ht).
  destruct (wp_elim _ _ _ (free_pages_wp s' pfn order Hwf' Hc' Hz' (al_block _ _ _ Hal)))
    as ([] & s'' & Hrun' & Hwf'' & Hc'' & _ & [Hf' _ _] & _).
  exists s''. split; [done|].
  assert (∀ p, is_free s'' p ↔ is_free s p) as Hsame.
  { intros p. rewrite Hf', Hf. split.
    - intros [[? _]|?]; [done|by apply Hwas].
    - intros Hp. assert (in_block pfn order p ∨ ¬ in_block pfn order p) as [?|?]
        by (unfold in_block; lia); [by right|by left]. }
  split; [done|].
  destruct (free_frames_spec _ Hwf) as (N1 & E1 & L1).
  destruct (free_frames_spec _ Hwf'') as (N2 & E2 & L2).
  assert (free_frames 0 (page_array s'') ≡ₚ free_frames 0 (page_array s)) as Hperm.
  { apply NoDup_Permutation; [done|done|]. intros p. by rewrite E1, E2. }
  apply Permutation_length in Hperm. destruct Hc as [C1 C2], Hc'' as [C3 C4].
  rewrite C1, C2, C3, C4, <-L1, <-L2, Hperm. done.
Qed.

Lemma alloc_free_roundtrip_witness :
  ∃ r s', alloc_pages 0 demo_state = Some (r, s') ∧
    (r ≠ 0 → ∃ s'', free_pages r 0 s' = Some (tt, s'') ∧
       ∀ p, is_free s'' p ↔ is_free demo_state p).
Proof.
  destruct (proj1 demo_inv) as [Hwf Hc Hz _ _].
  destruct (alloc_free_roundtrip demo_state 0 Hwf Hc Hz ltac:(lia)) as (r & s' & Hrun & Hf).
  exists r, s'. split; [exact Hrun|]. intros Hr. destruct (Hf Hr) as (s'' & H1 & H2 & _).
  exists s''. split; [exact H1|exact H2].
Defined.

(** The counters count.  In every reachable state both free-page counters
    are the number of free frames. *)
Theorem pmm_counters_exact bi kend s H :
  boot_ok bi kend → total_of bi mod 2 ^ MAX_ORDER = 0 →
  pmm_reachable bi kend (s, H) →
  ∃ F : list Z, NoDup F ∧ (∀ p, p ∈ F ↔ is_free s p) ∧
    mi_free_pages s = Z.of_nat (length F) ∧
    zone_free_pages (mi_zone s) = Z.of_nat (length F).
Proof.
  intros Hb Hz Hr. destruct (pmm_run _ _ _ Hb Hz Hr) as ([Hwf [C1 C2] _ _ _] & _).
  simpl in *. exists (free_frames 0 (page_array s)).
  destruct (free_frames_spec _ Hwf) as (N & E & L). split_and!; [done|done|congruence..].
Qed.

Lemma pmm_counters_exact_witness :
  ∃ F : list Z, NoDup F ∧ mi_free_pages demo_state = Z.of_nat (length F).
Proof.
  destruct (pmm_counters_exact demo_boot demo_kend demo_state [] demo_boot_ok
              ltac:(by vm_compute) demo_reachable) as (F & H1 & _ & H2 & _).
  exists F. split; [exact H1|exact H2].
Defined.

(** The zone's end.  [free_pages] looks at the buddy's descriptor without
    checking that the buddy lies inside the zone: for a block whose buddy is
    past the last page it reads outside the page array. *)
Theorem free_pages_past_zone s pfn order :
  wf s → addable s pfn order → order < MAX_ORDER →
  total_pages s ≤ get_buddy_pfn pfn order →
  free_pages (pfn * PAGE_SIZE) order s = None.
Proof.
  intros Hwf Hadd Ho Hb. pose proof (bo_order _ _ _ (proj1 Hadd)).
  destruct (free_pages_guards _ _ _ Hadd) as (E1 & E2 & E3 & E4).
  destruct (wp_elim _ _ _ (clear_allocated_spec s pfn order Hwf Hadd))
    as ([] & s1 & Hrun & Hq & _).
  unfold free_pages. rewrite E1, E2, E3, E4. cbn [negb].
  unfold mbind at 1, M_bind at 1. rewrite Hrun. unfold mbind at 1, M_bind at 1.
  destruct (Z.to_nat (MAX_ORDER - order)) as [|n] eqn:Hn; [lia|]. cbn [merge_block].
  unfold rd_page, get, lift, mbind, M_bind. rewrite aget_out; [done|]. right.
  rewrite (wf_len _ (qt_wf _ _ Hq)). by destruct Hq as [_ _ _ _ [-> _]].
Qed.

(** A machine whose memory ends one page short of 4MB. *)
Definition short_boot : BootInfo := MkBootInfo 0 [MmapEntry 0x100000 0x2FF000 1] 0 0.

Lemma short_boot_ok : boot_ok short_boot demo_kend.
Proof.
  split.
  - repeat constructor; simpl; lia.
  - split; [|done]. intros a b p _ _. apply usable_nil.
  - by vm_compute.
  - by vm_compute.
  - by vm_compute.
Qed.

Definition short_state : mem_info := run_state (pmm_init short_boot demo_kend) (pmm_reset 0 0).

Lemma short_alloc_addr :
  (λ r : Z * mem_info, r.1) <$> alloc_pages 0 short_state = Some (1022 * PAGE_SIZE).
Proof. by vm_compute. Qed.

Lemma short_alloc : ∃ s', alloc_pages 0 short_state = Some (1022 * PAGE_SIZE, s') ∧
  wf s' ∧ addable s' 1022 0 ∧ total_pages s' = 1023.
Proof.
  destruct (wp_elim _ _ _ (pmm_init_wp short_boot demo_kend (pmm_reset 0 0) short_boot_ok))
    as ([] & s & Hs & Hwf & Hc & Ht & _).
  assert (short_state = s) as Heqs by (unfold short_state, run_state; by rewrite Hs).
  destruct (wp_elim _ _ _ (alloc_pages_wp s 0 Hwf Hc ltac:(lia)))
    as (r & s' & Hrun & Hwf' & Hc' & Ht' & Hr).
  pose proof short_alloc_addr as Haddr. rewrite Heqs, Hrun in Haddr.
  injection Haddr as Heq. simpl in Heq. exists s'. rewrite Heqs, Hrun, Heq.
  destruct Hr as [(-> & _)|(pfn & cur & -> & _ & [[Hadd _ _] _ _ _] & _)]; [done|].
  unfold PAGE_SIZE in Heq. replace 1022 with pfn by lia.
  split_and!; [done|done|done|]. rewrite Ht', Ht. by vm_compute.
Qed.

Lemma free_pages_past_zone_witness :
  ∃ s, alloc_pages 0 short_state = Some (1022 * PAGE_SIZE, s) ∧
    free_pages (1022 * PAGE_SIZE) 0 s = None.
Proof.
  destruct short_alloc as (s & Hrun & Hwf & Hadd & Ht). exists s. split; [exact Hrun|].
  apply (free_pages_past_zone s 1022 0 Hwf Hadd).
  - by vm_compute.
  - rewrite Ht. by vm_compute.
Defined.

(** A reference too many.  [page_put_phys] frees the page when the new
    count is 0, and [page_put] reports 0 for a page whose count was 0 already:
    dropping a reference that is not held puts a free page on its list a
    second time, and the next two allocations hand out the same frame. *)
Theorem page_put_phys_double_free :
  ∃ a s, (a ← alloc_page; _ ← page_put_phys a; _ ← page_put_phys a;
          b ← alloc_page; c ← alloc_page; mret (a, b, c)) demo_state
         = Some ((a, a, a), s) ∧ a ≠ 0.
Proof.
  exists (demo_pfn * PAGE_SIZE). eexists. split; [vm_compute; reflexivity|done].
Qed.

(** Reference counts.  Dropping a reference to a page that is held (an
    allocated block of one page with a count in range) lowers its count by one
    and returns the new count; the page becomes free exactly when that was the
    last reference, and no other frame changes. *)
Theorem page_put_phys_correct s pfn pg :
  wf s → counts_ok s → zone_aligned s → addable s pfn 0 →
  aget (page_array s) pfn = Some pg → 0 < page_refcount pg < 2 ^ 32 →
  ∃ s', page_put_phys (pfn * PAGE_SIZE) s = Some (page_refcount pg - 1, s') ∧
    wf s' ∧ counts_ok s' ∧
    (∃ pg', aget (page_array s') pfn = Some pg' ∧ page_refcount pg' = page_refcount pg - 1) ∧
    ∀ p, is_free s' p ↔ is_free s p ∨ (p = pfn ∧ page_refcount pg = 1).
Proof.
  intros Hwf Hc Hz Hadd Hpg Hrc. pose proof (aget_Some_bounds _ _ _ Hpg) as Hb.
  pose proof (bo_end _ _ _ (proj1 Hadd)) as Hend. change (2 ^ 0) with 1 in Hend.
  enough (wp (page_put_phys (pfn * PAGE_SIZE)) (λ r s', r = page_refcount pg - 1 ∧
    wf s' ∧ counts_ok s' ∧
    (∃ pg', aget (page_array s') pfn = Some pg' ∧ page_refcount pg' = page_refcount pg - 1) ∧
    ∀ p, is_free s' p ↔ is_free s p ∨ (p = pfn ∧ page_refcount pg = 1)) s) as Hwp.
  { destruct (wp_elim _ _ _ Hwp) as (r & s' & Hrun & -> & ?). eauto. }
  unfold page_put_phys, phys_to_page. wp_step. wp_step. wp_step.
  rewrite phys_to_pfn_mul, (proj2 (Z.leb_gt _ _)) by lia. wp_step. wp_step.
  unfold page_put. wp_step. eapply wp_rd_page; [done|].
  rewrite (proj2 (Z.eqb_neq _ _)) by lia.
  wp_step. eapply wp_touch; [done|done|done|]. intros s1 Hq1 Hps1.
  rewrite wrap_small in Hps1 by lia. wp_step.
  eapply wp_rd_page; [rewrite Hps1; by apply aget_aset_eq|]. wp_step. cbn [page_refcount set_refcount].
  assert (wf s1 ∧ counts_ok s1 ∧ zone_aligned s1) as (Hwf1 & Hc1 & Hz1).
  { destruct Hq1 as [? ? Hsum ? (Ht & Hm & _ & _ & Hzf)]. split; [done|].
    unfold counts_ok, zone_aligned in *. rewrite Hsum, Hm, Hzf, Ht. done. }
  pose proof (λ p, quiet_is_free _ _ p Hq1) as Hf1. wp_step.
  destruct (page_refcount pg - 1 =? 0) eqn:Hzero.
  - unfold free_page. eapply wp_mono.
    { apply free_pages_wp; [done..|by eapply addable_quiet]. }
    intros [] s2 (Hwf2 & Hc2 & _ & [Hf2 Hr2 _] & _). wp_step. split_and!; [done..| |].
    + destruct (Hr2 pfn) as (pg' & ? & ?); [unfold in_block; lia|]. exists pg'. split; [done|lia].
    + intros p. rewrite Hf2, Hf1. unfold in_block. change (2 ^ 0) with 1.
      split; intros [?|?]; [by left|right; lia|by left|right; lia].
  - wp_step. wp_step. split_and!; [done..| |].
    + eexists. rewrite Hps1, aget_aset_eq by done. done.
    + intros p. rewrite Hf1. split; [by left|]. intros [?|?]; [done|lia].
Qed.

Lemma page_put_phys_correct_witness :
  ∃ s s', page_put_phys (demo_pfn * PAGE_SIZE) s = Some (0, s') ∧ is_free s' demo_pfn.
Proof.
  destruct demo_alloc as (s & _ & Hwf & Hc & Hz & [[Hadd (pg & Hpg & _ & _ & Hrc) _] _ _ _]).
  destruct (page_put_phys_correct s demo_pfn pg Hwf Hc Hz Hadd Hpg ltac:(lia))
    as (s' & Hrun & _ & _ & _ & Hf).
  exists s, s'. rewrite Hrc in Hrun. split; [exact Hrun|]. apply Hf. right.
  split; [reflexivity|exact Hrc].
Defined.
