(* ===== verification/Frames.v ===== *)
(** * The frame allocator as its clients see it

    The virtual memory manager, the kernel heap and the page cache take single
    page frames from the physical memory manager and give them back.  [FrameAlloc]
    is what they use of it and [FrameLaws] what they rely on; the buddy
    allocator of mm/pmm.c is the instance, for a machine whose memory the boot
    loader's identity mapping covers (the first 4GB, mm/vmm.c). *)

From S2P Require Import Prelude DList Pmm PmmInv PmmThm.

(** ** The interface

    [fa_free s f]: the frame at physical address [f] is free.
    [fa_held s f]: it was handed out and may be given back.
    [fa_addr f]: the allocator may manage a frame at [f]. *)

Class FrameAlloc (S : Type) := {
  fa_alloc_page : M S Z;
  fa_free_page : Z → M S unit;
  fa_inv : S → Prop;
  fa_free : S → Z → Prop;
  fa_held : S → Z → Prop;
  fa_addr : Z → Prop }.

(** The physical memory the boot loader maps one to one. *)
Definition IDENTITY_LIMIT : Z := 2 ^ 32.

Definition frame_addr (f : Z) : Prop :=
  0 < f ∧ f + PAGE_SIZE ≤ IDENTITY_LIMIT ∧ f mod PAGE_SIZE = 0.

Class FrameLaws (S : Type) `{FrameAlloc S} : Prop := {
  fa_addr_frame f : fa_addr f → frame_addr f;
  fa_free_in s f : fa_inv s → fa_free s f → fa_addr f;
  fa_held_in s f : fa_inv s → fa_held s f → fa_addr f;
  fa_held_not_free s f : fa_inv s → fa_held s f → ¬ fa_free s f;
  fa_alloc_law s : fa_inv s →
    wp fa_alloc_page (λ r s', fa_inv s' ∧
      ((r = 0 ∧ s' = s ∧ ∀ f, ¬ fa_free s f) ∨
       (fa_free s r ∧ (∀ f, fa_free s' f ↔ fa_free s f ∧ f ≠ r) ∧
        (∀ f, fa_held s' f ↔ fa_held s f ∨ f = r)))) s;
  fa_free_law s f : fa_inv s → fa_held s f →
    wp (fa_free_page f) (λ _ s', fa_inv s' ∧
      (∀ g, fa_free s' g ↔ fa_free s g ∨ g = f) ∧
      (∀ g, fa_held s' g ↔ fa_held s g ∧ g ≠ f)) s }.

Lemma fa_free_addr {S : Type} `{FrameLaws S} s f : fa_inv s → fa_free s f → frame_addr f.
Proof. intros Hi Hf. eapply fa_addr_frame, fa_free_in; done. Qed.

Lemma fa_held_addr {S : Type} `{FrameLaws S} s f : fa_inv s → fa_held s f → frame_addr f.
Proof. intros Hi Hf. eapply fa_addr_frame, fa_held_in; done. Qed.

(** ** The buddy allocator as an instance *)

#[export] Instance pmm_frames : FrameAlloc mem_info := {|
  fa_alloc_page := alloc_page;
  fa_free_page := free_page;
  fa_inv := λ s, wf s ∧ counts_ok s ∧ zone_aligned s ∧
                 total_pages s * PAGE_SIZE ≤ IDENTITY_LIMIT;
  fa_free := λ s f, ∃ p, f = p * PAGE_SIZE ∧ is_free s p;
  fa_held := λ s f, ∃ p, f = p * PAGE_SIZE ∧ addable s p 0;
  fa_addr := frame_addr |}.

Lemma frame_mul_inj p q : p * PAGE_SIZE = q * PAGE_SIZE → p = q.
Proof. unfold PAGE_SIZE. lia. Qed.

Lemma frame_addr_mul s p :
  total_pages s * PAGE_SIZE ≤ IDENTITY_LIMIT → 0 < p < total_pages s →
  frame_addr (p * PAGE_SIZE).
Proof.
  unfold frame_addr, PAGE_SIZE. intros. split_and!; [lia..|]. apply Z.mod_mul. lia.
Qed.

Lemma is_free_bounds s p : wf s → is_free s p → 0 < p < total_pages s.
Proof.
  intros Hwf (x & o & Hh & Hp). destruct (wf_blocks _ Hwf _ _ Hh) as [_ ? _ ? _]. lia.
Qed.

Lemma in_block_0 x p : in_block x 0 p ↔ p = x.
Proof. unfold in_block. rewrite Z.pow_0_r. lia. Qed.

Lemma addable_0 s p :
  addable s p 0 ↔ 0 < p < total_pages s ∧ unreserved (page_array s) p ∧ ¬ is_free s p.
Proof.
  unfold addable. split.
  - intros [[_ ? _ He Hu] Hn]. rewrite Z.pow_0_r in *.
    split_and!; [lia|lia|apply Hu; lia|apply Hn; lia].
  - intros (Hp & Hu & Hn). rewrite Z.pow_0_r. split; [split|]; rewrite ?Z.pow_0_r.
    + unfold MAX_ORDER. lia.
    + lia.
    + apply Z.mod_1_r.
    + lia.
    + intros q Hq. by replace q with p by lia.
    + intros q Hq. by replace q with p by lia.
Qed.

(** A page in use outside a changed block keeps whether it is reserved. *)
Lemma unreserved_same s s' y :
  (∀ p, aget (page_array s) y = Some p → ∃ p', aget (page_array s') y = Some p' ∧
     same_meta p p' ∧ page_order p' = page_order p) →
  is_Some (aget (page_array s) y) →
  unreserved (page_array s') y ↔ unreserved (page_array s) y.
Proof.
  intros Hfr [p Hp]. destruct (Hfr p Hp) as (p' & Hp' & Hm & _).
  unfold unreserved. rewrite Hp, Hp'. pose proof (same_meta_reserved _ _ Hm) as He.
  split; intros (q & [= <-] & Hq); eexists; (split; [done|]); congruence.
Qed.

Lemma pmm_alloc_held s s' x p :
  wf s → wf s' → total_pages s' = total_pages s → alloc_post s s' x 0 →
  addable s' p 0 ↔ addable s p 0 ∨ p = x.
Proof.
  intros Hwf Hwf' Ht [Hal Hwas Hf Hfr]. pose proof (proj1 (addable_0 s' x) (al_block _ _ _ Hal)) as Hx.
  rewrite !addable_0, Ht. rewrite Ht in Hx.
  assert (is_free s x) as Hxf by (apply Hwas, in_block_0; done).
  assert (¬ is_free s p → 0 < p < total_pages s →
          unreserved (page_array s') p ↔ unreserved (page_array s) p) as Hun.
  { intros Hn Hp. apply unreserved_same; [intros q Hq; by apply Hfr|].
    apply aget_is_Some. rewrite (wf_len _ Hwf). lia. }
  rewrite Hf, in_block_0. split.
  - intros (Hp & Hu & Hn). destruct (decide (p = x)) as [|Hne]; [by right|left].
    assert (¬ is_free s p) as Hn' by tauto. split_and!; [lia|lia|by apply Hun|done].
  - intros [(Hp & Hu & Hn)| ->]; [|tauto].
    assert (p ≠ x) by (intros ->; done). split_and!; [lia|lia|by apply Hun|tauto].
Qed.

Lemma pmm_free_held s s' x p :
  wf s → total_pages s' = total_pages s → addable s x 0 → free_post s s' x 0 →
  addable s' p 0 ↔ addable s p 0 ∧ p ≠ x.
Proof.
  intros Hwf Ht Hx [Hf _ Hfr]. rewrite !addable_0, Ht, Hf, in_block_0.
  assert (¬ is_free s p → p ≠ x → 0 < p < total_pages s →
          unreserved (page_array s') p ↔ unreserved (page_array s) p) as Hun.
  { intros Hn Hne Hp. apply unreserved_same.
    - intros q Hq. apply Hfr; [done..|]. by rewrite in_block_0.
    - apply aget_is_Some. rewrite (wf_len _ Hwf). lia. }
  split.
  - intros (Hp & Hu & Hn). assert (¬ is_free s p ∧ p ≠ x) as [? ?] by tauto.
    split_and!; [lia|lia|by apply Hun|done|done].
  - intros ((Hp & Hu & Hn) & Hne). split_and!; [lia|lia|by apply Hun|tauto].
Qed.

Lemma pmm_alloc_law s :
  fa_inv s →
  wp fa_alloc_page (λ r s', fa_inv s' ∧
    ((r = 0 ∧ s' = s ∧ ∀ f, ¬ fa_free s f) ∨
     (fa_free s r ∧ (∀ f, fa_free s' f ↔ fa_free s f ∧ f ≠ r) ∧
      (∀ f, fa_held s' f ↔ fa_held s f ∨ f = r)))) s.
Proof.
  intros (Hwf & Hc & Hz & Hl). cbn [fa_inv fa_alloc_page fa_free fa_held pmm_frames].
  unfold alloc_page. eapply wp_mono; [by apply alloc_pages_wp|].
  intros r s' (Hwf' & Hc' & Ht & Hr). split.
  { unfold zone_aligned. rewrite Ht. done. }
  destruct Hr as [(-> & -> & Hno)|(x & cur & -> & _ & Hpost & _)]; [left|right].
  { split_and!; [done..|]. intros f (p & _ & y & o & Hh & _).
    destruct Hno as [Hno|Hno]; [done|]. specialize (Hno _ _ Hh).
    destruct (wf_blocks _ Hwf _ _ Hh) as [? _ _ _ _]. lia. }
  pose proof Hpost as [_ Hwas Hf _]. split_and!.
  - exists x. split; [done|]. by apply Hwas, in_block_0.
  - intros f. split.
    + intros (p & -> & [Hp Hn]%Hf). rewrite in_block_0 in Hn. split; [by exists p|].
      intros ?%frame_mul_inj. done.
    + intros [(p & -> & Hp) Hne]. exists p. split; [done|]. apply Hf. split; [done|].
      rewrite in_block_0. congruence.
  - intros f. split.
    + intros (p & -> & Hp). apply (pmm_alloc_held s s' x p) in Hp as [?| ->]; [|by right|done..].
      left. by exists p.
    + intros [(p & -> & Hp)| ->].
      * exists p. split; [done|]. apply (pmm_alloc_held s s' x p); [done..|by left].
      * exists x. split; [done|]. apply (pmm_alloc_held s s' x x); [done..|by right].
Qed.

Lemma pmm_free_law s f :
  fa_inv s → fa_held s f →
  wp (fa_free_page f) (λ _ s', fa_inv s' ∧
    (∀ g, fa_free s' g ↔ fa_free s g ∨ g = f) ∧
    (∀ g, fa_held s' g ↔ fa_held s g ∧ g ≠ f)) s.
Proof.
  intros (Hwf & Hc & Hz & Hl) (x & -> & Hx).
  cbn [fa_inv fa_free_page fa_free fa_held pmm_frames].
  unfold free_page. eapply wp_mono; [by apply free_pages_wp|].
  intros [] s' (Hwf' & Hc' & Ht & Hpost & _). split.
  { unfold zone_aligned. rewrite Ht. done. }
  pose proof Hpost as [Hf _ _]. split.
  - intros g. split.
    + intros (p & -> & [Hp|Hp]%Hf); [left; by exists p|right].
      apply in_block_0 in Hp. by subst.
    + intros [(p & -> & Hp)| ->]; [exists p|exists x]; (split; [done|]); apply Hf;
        [by left|right; by apply in_block_0].
  - intros g. split.
    + intros (p & -> & Hp). apply (pmm_free_held s s' x p) in Hp as [? Hne]; [|done..].
      split; [by exists p|]. by intros ?%frame_mul_inj.
    + intros [(p & -> & Hp) Hne]. exists p. split; [done|].
      apply (pmm_free_held s s' x p); [done..|]. split; [done|congruence].
Qed.

#[export] Instance pmm_frames_laws : FrameLaws mem_info.
Proof.
  split; [..|exact pmm_alloc_law|exact pmm_free_law];
    cbn [fa_inv fa_free fa_held fa_addr pmm_frames].
  - done.
  - intros s f (Hwf & _ & _ & Hl) (p & -> & Hp).
    apply (frame_addr_mul s); [done|]. by apply is_free_bounds.
  - intros s f (Hwf & _ & _ & Hl) (p & -> & Hp).
    apply (frame_addr_mul s); [done|]. by apply addable_0.
  - intros s f _ (p & -> & Hp) (q & Hq & Hf). apply frame_mul_inj in Hq as <-.
    by apply addable_0 in Hp as (_ & _ & ?).
Qed.

(** * Reference counts of frames as their clients see them

    Address spaces share frames and count the references to them.  [FrameRefs]
    is what they use of the physical memory manager besides the allocator of
    Frames.v, [FrameRefsLaws] what they rely on; mm/pmm.c is the instance. *)

(** [fr_refcount] is the count in the descriptor of a frame, if there is one. *)
Class FrameRefs (S : Type) `{FrameAlloc S} := {
  fr_get_phys : Z → M S unit;
  fr_put_phys : Z → M S Z;
  fr_refcount : Z → M S (option Z);
  fr_count : S → Z → Z }.

Class FrameRefsLaws (S : Type) `{FR : FrameRefs S} : Prop := {
  fr_alloc_law s : fa_inv s →
    wp fa_alloc_page (λ r s', fa_inv s' ∧
      ((r = 0 ∧ s' = s ∧ ∀ f, ¬ fa_free s f) ∨
       (fa_free s r ∧ (∀ f, fa_free s' f ↔ fa_free s f ∧ f ≠ r) ∧
        (∀ f, fa_held s' f ↔ fa_held s f ∨ f = r) ∧
        fr_count s' r = 1 ∧ ∀ g, fa_held s g → fr_count s' g = fr_count s g))) s;
  fr_free_law s f : fa_inv s → fa_held s f →
    wp (fa_free_page f) (λ _ s', fa_inv s' ∧
      (∀ g, fa_free s' g ↔ fa_free s g ∨ g = f) ∧
      (∀ g, fa_held s' g ↔ fa_held s g ∧ g ≠ f) ∧
      ∀ g, fa_held s' g → fr_count s' g = fr_count s g) s;
  fr_get_law s f : fa_inv s → fa_held s f → 0 ≤ fr_count s f < 2 ^ 32 - 1 →
    wp (fr_get_phys f) (λ _ s', fa_inv s' ∧
      (∀ g, fa_free s' g ↔ fa_free s g) ∧ (∀ g, fa_held s' g ↔ fa_held s g) ∧
      ∀ g, fa_held s g → fr_count s' g = fr_count s g + if decide (g = f) then 1 else 0) s;
  fr_put_law s f : fa_inv s → fa_held s f → 0 < fr_count s f < 2 ^ 32 →
    wp (fr_put_phys f) (λ r s', r = fr_count s f - 1 ∧ fa_inv s' ∧
      (∀ g, fa_free s' g ↔ fa_free s g ∨ (g = f ∧ fr_count s f = 1)) ∧
      (∀ g, fa_held s' g ↔ fa_held s g ∧ ¬ (g = f ∧ fr_count s f = 1)) ∧
      ∀ g, fa_held s' g → fr_count s' g = fr_count s g - if decide (g = f) then 1 else 0) s;
  fr_refcount_law s f : fa_inv s → fa_held s f →
    wp (fr_refcount f) (λ r s', r = Some (fr_count s f) ∧ s' = s) s }.

(** ** The physical memory manager as an instance *)

Definition refcount_at (s : mem_info) (p : Z) : Z :=
  match aget (page_array s) p with Some d => page_refcount d | None => 0 end.

#[export] Instance pmm_refs : FrameRefs mem_info := {|
  fr_get_phys := page_get_phys;
  fr_put_phys := page_put_phys;
  fr_refcount := λ phys,
    pg ← phys_to_page phys;
    match pg with
    | None => mret None
    | Some p => d ← rd_page p; mret (Some (page_refcount d))
    end;
  fr_count := λ s f, refcount_at s (f / PAGE_SIZE) |}.

Lemma frame_div p : p * PAGE_SIZE / PAGE_SIZE = p.
Proof. apply Z.div_mul. done. Qed.

Lemma held_page s p : fa_inv s → addable s p 0 → is_Some (aget (page_array s) p).
Proof.
  intros (Hwf & _) Hp. apply addable_0 in Hp as (Hb & _). apply aget_is_Some.
  rewrite (wf_len _ Hwf). lia.
Qed.

(** A page that keeps its count. *)
Lemma refcount_keep s s' p :
  is_Some (aget (page_array s) p) →
  (∀ d, aget (page_array s) p = Some d →
     ∃ d', aget (page_array s') p = Some d' ∧ same_meta d d' ∧ page_order d' = page_order d) →
  refcount_at s' p = refcount_at s p.
Proof.
  intros [d Hd] Hk. destruct (Hk d Hd) as (d' & Hd' & [Hr _] & _). unfold refcount_at. by rewrite Hd, Hd'.
Qed.

Lemma pmm_refs_alloc s :
  fa_inv s →
  wp fa_alloc_page (λ r s', fa_inv s' ∧
    ((r = 0 ∧ s' = s ∧ ∀ f, ¬ fa_free s f) ∨
     (fa_free s r ∧ (∀ f, fa_free s' f ↔ fa_free s f ∧ f ≠ r) ∧
      (∀ f, fa_held s' f ↔ fa_held s f ∨ f = r) ∧
      fr_count s' r = 1 ∧ ∀ g, fa_held s g → fr_count s' g = fr_count s g))) s.
Proof.
  intros Hinv. pose proof (pmm_alloc_law s Hinv) as H1. pose proof Hinv as (Hwf & Hc & Hz & Hl).
  pose proof (alloc_pages_wp s 0 Hwf Hc ltac:(lia)) as H2.
  apply wp_elim in H1 as (r & s' & Hrun & Hi & Hcase). apply (wp_intro _ _ _ r s'); [done|]. split; [done|].
  destruct Hcase as [?|(Hr & Hf & Hh)]; [by left|right]. split_and!; [done|done|done|..].
  all: cbn [fa_alloc_page pmm_frames] in Hrun; unfold alloc_page in Hrun; pose proof (wp_at _ _ _ _ _ H2 Hrun) as H3;
    cbv beta in H3; destruct H3 as (_ & _ & _ & [(-> & _)|(p & cur & -> & _ & [Hal Hwas _ Hfr] & _)]).
  - destruct (fa_free_addr _ _ Hinv Hr). lia.
  - destruct Hal as [_ (d & Hd & _ & _ & Hd1) _]. cbn. unfold refcount_at. by rewrite frame_div, Hd.
  - destruct (fa_free_addr _ _ Hinv Hr). lia.
  - intros g (q & -> & Hq). cbn. rewrite frame_div. apply refcount_keep; [by apply (held_page s)|].
    intros d' Hd'. apply Hfr; [done|]. by apply addable_0 in Hq as (_ & _ & ?).
Qed.

Lemma pmm_refs_free s f :
  fa_inv s → fa_held s f →
  wp (fa_free_page f) (λ _ s', fa_inv s' ∧
    (∀ g, fa_free s' g ↔ fa_free s g ∨ g = f) ∧
    (∀ g, fa_held s' g ↔ fa_held s g ∧ g ≠ f) ∧
    ∀ g, fa_held s' g → fr_count s' g = fr_count s g) s.
Proof.
  intros Hinv Hf. pose proof (pmm_free_law s f Hinv Hf) as H1. pose proof Hinv as (Hwf & Hc & Hz & Hl).
  destruct Hf as (p & -> & Hp). pose proof (free_pages_wp s p 0 Hwf Hc Hz Hp) as H2.
  apply wp_elim in H1 as ([] & s' & Hrun & Hi & Hfr & Hh). apply (wp_intro _ _ _ tt s'); [done|]. split_and!; [done..|].
  cbn [fa_free_page pmm_frames] in Hrun. unfold free_page in Hrun. pose proof (wp_at _ _ _ _ _ H2 Hrun) as H3.
  cbv beta in H3. destruct H3 as (_ & _ & _ & [_ _ Hk] & _).
  intros g Hg. apply Hh in Hg as [(q & -> & Hq) Hne]. cbn. rewrite frame_div.
  apply refcount_keep; [by apply (held_page s)|]. intros d Hd.
  apply Hk; [done|by apply addable_0 in Hq as (_ & _ & ?)|]. rewrite in_block_0. congruence.
Qed.

(** Changing the count of one page. *)
Lemma set_count_state s s' p d n :
  fa_inv s → aget (page_array s) p = Some d → quiet s s' →
  page_array s' = aset (page_array s) p (set_refcount n d) →
  fa_inv s' ∧ (∀ g, fa_free s' g ↔ fa_free s g) ∧ (∀ g, fa_held s' g ↔ fa_held s g) ∧
  ∀ q, refcount_at s' q = if decide (q = p) then n else refcount_at s q.
Proof.
  intros (Hwf & Hc & Hz & Hl) Hd Hq Hps. pose proof Hq as [Hwf' _ Hsum _ (Ht & Hm & _ & _ & Hzf)].
  pose proof (aget_Some_bounds _ _ _ Hd) as Hb.
  assert (∀ q, aget (page_array s') q =
    if decide (q = p) then Some (set_refcount n d) else aget (page_array s) q) as Hget.
  { intros q. rewrite Hps, aget_aset. destruct (decide (q = p)) as [->|Hne].
    - by rewrite decide_True.
    - rewrite decide_False; [done|]. naive_solver. }
  assert (∀ q, unreserved (page_array s') q ↔ unreserved (page_array s) q) as Hun.
  { intros q. unfold unreserved. rewrite Hget. destruct (decide (q = p)) as [->|]; [|done].
    rewrite Hd. split; intros (u & [= <-] & Hu); eexists; (split; [done|]); exact Hu. }
  split_and!.
  - split_and!; [done| |by unfold zone_aligned; rewrite Ht|by rewrite Ht].
    unfold counts_ok in *. by rewrite Hsum, Hm, Hzf.
  - intros g. split; intros (q & -> & Hqf); exists q; (split; [done|]); by apply (quiet_is_free _ _ q Hq).
  - intros g. split; intros (q & -> & Hqa); exists q; (split; [done|]); revert Hqa;
      rewrite !addable_0, Ht, Hun, (quiet_is_free _ _ q Hq); done.
  - intros q. unfold refcount_at. rewrite Hget. by destruct (decide (q = p)).
Qed.

Lemma held_lookup s p :
  fa_inv s → addable s p 0 →
  ∃ d, aget (page_array s) p = Some d ∧ refcount_at s p = page_refcount d ∧ (total_pages s <=? p) = false.
Proof.
  intros Hinv Hp. destruct (held_page s p Hinv Hp) as [d Hd]. exists d. unfold refcount_at. rewrite Hd.
  apply addable_0 in Hp as (Hb & _). rewrite (proj2 (Z.leb_gt _ _)) by lia. done.
Qed.

Lemma pmm_refs_get s f :
  fa_inv s → fa_held s f → 0 ≤ fr_count s f < 2 ^ 32 - 1 →
  wp (fr_get_phys f) (λ _ s', fa_inv s' ∧
    (∀ g, fa_free s' g ↔ fa_free s g) ∧ (∀ g, fa_held s' g ↔ fa_held s g) ∧
    ∀ g, fa_held s g → fr_count s' g = fr_count s g + if decide (g = f) then 1 else 0) s.
Proof.
  intros Hinv (p & -> & Hp) Hn. destruct (held_lookup s p Hinv Hp) as (d & Hd & Hrc & Ht).
  cbn [fr_get_phys fr_count pmm_refs] in *. rewrite frame_div, Hrc in Hn.
  unfold page_get_phys, phys_to_page. wp_step. wp_step. wp_step. rewrite phys_to_pfn_mul, Ht.
  wp_step. cbv iota. unfold page_get. eapply wp_touch; [apply Hinv|done|done|]. intros s' Hq Hps.
  rewrite wrap_small in Hps by lia.
  destruct (set_count_state s s' p d _ Hinv Hd Hq Hps) as (Hi & Hf & Hh & Hc). split_and!; [done..|].
  intros g (q & -> & Hqh). rewrite !frame_div, Hc. destruct (decide (q = p)) as [->|Hne].
  - rewrite decide_True by done. lia.
  - rewrite decide_False by (intros ?%frame_mul_inj; done). lia.
Qed.

Lemma pmm_refs_put s f :
  fa_inv s → fa_held s f → 0 < fr_count s f < 2 ^ 32 →
  wp (fr_put_phys f) (λ r s', r = fr_count s f - 1 ∧ fa_inv s' ∧
    (∀ g, fa_free s' g ↔ fa_free s g ∨ (g = f ∧ fr_count s f = 1)) ∧
    (∀ g, fa_held s' g ↔ fa_held s g ∧ ¬ (g = f ∧ fr_count s f = 1)) ∧
    ∀ g, fa_held s' g → fr_count s' g = fr_count s g - if decide (g = f) then 1 else 0) s.
Proof.
  intros Hinv (p & -> & Hp) Hn. destruct (held_lookup s p Hinv Hp) as (d & Hd & Hrc & Ht).
  cbn [fr_put_phys fr_count pmm_refs] in *. rewrite frame_div, Hrc in *.
  pose proof (aget_Some_bounds _ _ _ Hd) as Hb0.
  unfold page_put_phys, phys_to_page. wp_step. wp_step. wp_step. rewrite phys_to_pfn_mul, Ht.
  wp_step. cbv iota. wp_step. unfold page_put. wp_step. eapply wp_rd_page; [done|].
  rewrite (proj2 (Z.eqb_neq _ _)) by lia. wp_step. eapply wp_touch; [apply Hinv|done|done|].
  intros s1 Hq Hps. rewrite wrap_small in Hps by lia.
  destruct (set_count_state s s1 p d _ Hinv Hd Hq Hps) as (Hi & Hf & Hh & Hc).
  wp_step. eapply wp_rd_page; [rewrite Hps; by apply aget_aset_eq|]. wp_step. cbn [page_refcount set_refcount].
  wp_step. destruct (Z.eqb_spec (page_refcount d - 1) 0) as [Hz|Hz].
  - eapply wp_mono; [apply (pmm_refs_free s1 (p * PAGE_SIZE)); [done|]|].
    { apply Hh. by exists p. }
    intros [] s2 (Hi2 & Hf2 & Hh2 & Hc2). wp_step. split_and!; [done|done|..].
    + intros g. rewrite Hf2, Hf. split; [intros [?| ->]; [by left|right; split; [done|lia]]|tauto].
    + intros g. rewrite Hh2, Hh. split; [intros [? ?]; tauto|]. intros [? Hg]. split; [done|].
      intros ->. apply Hg. split; [done|lia].
    + intros g Hg. pose proof Hg as [(q & -> & Hqh) Hne]%Hh2. rewrite (decide_False _ _ Hne).
      specialize (Hc2 _ Hg). cbn in Hc2. rewrite Hc2, frame_div, Hc, decide_False by (by intros ->). lia.
  - wp_step. wp_step. split_and!; [done|done|..].
    + intros g. rewrite Hf. split; [by left|]. intros [?|[_ ?]]; [done|lia].
    + intros g. rewrite Hh. split; [intros; split; [done|lia]|tauto].
    + intros g (q & -> & Hqh). rewrite !frame_div, Hc. destruct (decide (q = p)) as [->|Hne].
      * rewrite decide_True by done. lia.
      * rewrite decide_False by (intros ?%frame_mul_inj; done). lia.
Qed.

#[export] Instance pmm_refs_laws : FrameRefsLaws mem_info.
Proof.
  split; [exact pmm_refs_alloc|exact pmm_refs_free|exact pmm_refs_get|exact pmm_refs_put|].
  intros s f Hinv (p & -> & Hp). destruct (held_lookup s p Hinv Hp) as (d & Hd & Hrc & Ht).
  cbn [fr_refcount fr_count pmm_refs]. rewrite frame_div, Hrc.
  unfold phys_to_page. wp_step. wp_step. wp_step. rewrite phys_to_pfn_mul, Ht.
  wp_step. cbv iota. wp_step. eapply wp_rd_page; [done|]. by wp_step.
Qed.

(** * A machine with memory in some places only

    The same allocator on a machine all of whose frames are in [P]: what is free
    or held stays there, because no operation brings in a frame. *)

Section only.
Context {S : Type} {FA : FrameAlloc S} {FL : FrameLaws S} {FR : FrameRefs S} {FRL : FrameRefsLaws S}.
Context (P : Z → Prop).

Definition only_inv (s : S) : Prop := fa_inv s ∧ ∀ f, fa_free s f ∨ fa_held s f → P f.

Definition only_frames : FrameAlloc S := {|
  fa_alloc_page := fa_alloc_page;
  fa_free_page := fa_free_page;
  fa_inv := only_inv;
  fa_free := fa_free;
  fa_held := fa_held;
  fa_addr := λ f, fa_addr f ∧ P f |}.

Definition only_refs : FrameRefs (H := only_frames) S := {|
  fr_get_phys := fr_get_phys;
  fr_put_phys := fr_put_phys;
  fr_refcount := fr_refcount;
  fr_count := fr_count |}.

Lemma only_keep s s' :
  only_inv s → fa_inv s' → (∀ f, fa_free s' f ∨ fa_held s' f → fa_free s f ∨ fa_held s f) → only_inv s'.
Proof. intros [_ HP] Hi Hf. split; [done|]. intros f Hs. by apply HP, Hf. Qed.

Lemma only_frames_laws : FrameLaws (H := only_frames) S.
Proof.
  split; cbn [fa_inv fa_free fa_held fa_addr fa_alloc_page fa_free_page only_frames].
  - intros f [Hf _]. by apply fa_addr_frame.
  - intros s f [Hi HP] Hf. split; [by eapply fa_free_in|]. apply HP. by left.
  - intros s f [Hi HP] Hf. split; [by eapply fa_held_in|]. apply HP. by right.
  - intros s f [Hi _]. by apply fa_held_not_free.
  - intros s Hs. eapply wp_mono; [apply fa_alloc_law, Hs|]. intros r s' (Hi & Hr). split; [|done].
    apply (only_keep s); [done|done|]. intros f.
    destruct Hr as [(_ & -> & _)|(Hr & Hfr & Hh)]; [done|]. rewrite Hfr, Hh. intros [[? _]|[?| ->]]; auto.
  - intros s f Hs Hf. eapply wp_mono; [apply fa_free_law; [apply Hs|done]|]. intros [] s' (Hi & Hfr & Hh).
    split; [|done]. apply (only_keep s); [done|done|]. intros g. rewrite Hfr, Hh. intros [[?| ->]|[? _]]; auto.
Qed.

Lemma only_refs_laws : FrameRefsLaws (H := only_frames) (FR := only_refs) S.
Proof.
  split; cbn [fa_inv fa_free fa_held fa_addr fa_alloc_page fa_free_page only_frames
              fr_get_phys fr_put_phys fr_refcount fr_count only_refs].
  - intros s Hs. eapply wp_mono; [apply fr_alloc_law, Hs|]. intros r s' (Hi & Hr). split; [|done].
    apply (only_keep s); [done|done|]. intros f.
    destruct Hr as [(_ & -> & _)|(Hr & Hfr & Hh & _)]; [done|]. rewrite Hfr, Hh. intros [[? _]|[?| ->]]; auto.
  - intros s f Hs Hf. eapply wp_mono; [apply fr_free_law; [apply Hs|done]|]. intros [] s' (Hi & Hfr & Hh & Hc).
    split; [|done]. apply (only_keep s); [done|done|]. intros g. rewrite Hfr, Hh. intros [[?| ->]|[? _]]; auto.
  - intros s f Hs Hf Hn. eapply wp_mono; [apply fr_get_law; [apply Hs|done|done]|]. intros [] s' (Hi & Hfr & Hh & Hc).
    split; [|done]. apply (only_keep s); [done|done|]. intros g. by rewrite Hfr, Hh.
  - intros s f Hs Hf Hn. eapply wp_mono; [apply fr_put_law; [apply Hs|done|done]|].
    intros r s' (-> & Hi & Hfr & Hh & Hc). split; [done|]. split; [|done].
    apply (only_keep s); [done|done|]. intros g. rewrite Hfr, Hh. intros [[?|[-> _]]|[? _]]; auto.
  - intros s f Hs Hf. apply fr_refcount_law; [apply Hs|done].
Qed.

End only.
