(* ===== verification/Vmm.v ===== *)
(** * The virtual memory manager: model (mm/vmm.h, mm/vmm.c)

    Four-level page tables in physical memory.  A [page_table_t] and a [pte_t *]
    are virtual addresses, as in the source; an access through one of them goes
    through the two mappings the boot loader sets up (stage2.asm; the comment
    above phys_to_virt): the first 4GB one to one, and 128MB of kernel memory in
    the higher half.  The first is in the lower half of the boot loader's tables
    and of no others: an address space as.c makes has only the upper half of
    them.  So while another CR3 is loaded only the 128MB can be reached.  An
    access outside the mappings faults.  Physical memory is a map from
    the address of a 64-bit word to its value, 0 where the map has no entry.
    The frames for new tables come from the frame allocator (Frames.v).  The TLB
    is not modelled, so vmm_flush_page and vmm_flush_tlb have no effect. *)

From S2P Require Import Prelude Frames.

(** ** Constants (vmm.h) *)

Definition PTE_PRESENT : Z := Z.shiftl 1 0.
Definition PTE_WRITABLE : Z := Z.shiftl 1 1.
Definition PTE_HUGE : Z := Z.shiftl 1 7.
Definition PTE_GLOBAL : Z := Z.shiftl 1 8.
Definition PTE_KERNEL_RW : Z := Z.lor (Z.lor PTE_PRESENT PTE_WRITABLE) PTE_GLOBAL.
Definition PTE_ADDR_MASK : Z := 0x000FFFFFFFFFF000.

Definition PML4_INDEX (addr : Z) : Z := Z.land (Z.shiftr addr 39) 0x1FF.
Definition PDPT_INDEX (addr : Z) : Z := Z.land (Z.shiftr addr 30) 0x1FF.
Definition PD_INDEX (addr : Z) : Z := Z.land (Z.shiftr addr 21) 0x1FF.
Definition PT_INDEX (addr : Z) : Z := Z.land (Z.shiftr addr 12) 0x1FF.
Definition PAGE_OFFSET (addr : Z) : Z := Z.land addr 0xFFF.

Definition ENTRIES_PER_TABLE : Z := 512.
Definition PAGE_SIZE_4K : Z := PAGE_SIZE.
Definition PAGE_SIZE_2M : Z := 2 * 1024 * 1024.
Definition PAGE_SIZE_1G : Z := 1024 * 1024 * 1024.

Definition KERNEL_VIRT_BASE : Z := 0xFFFFFFFF80000000.
Definition KERNEL_PHYS_BASE : Z := 0x200000.
Definition KERNEL_PHYS_TO_VIRT (phys : Z) : Z := phys -u64 KERNEL_PHYS_BASE +u64 KERNEL_VIRT_BASE.
Definition KERNEL_VIRT_TO_PHYS (virt : Z) : Z := virt -u64 KERNEL_VIRT_BASE +u64 KERNEL_PHYS_BASE.

(** ** Addresses (vmm.c) *)

Definition phys_to_virt (phys : Z) : Z :=
  if (KERNEL_PHYS_BASE <=? phys) && (phys <? KERNEL_PHYS_BASE + 0x8000000)
  then KERNEL_PHYS_TO_VIRT phys else phys.

Definition table_to_phys (table : Z) : Z :=
  if KERNEL_VIRT_BASE <=? table then KERNEL_VIRT_TO_PHYS table else table.

Definition pte_to_table (entry : Z) : option Z :=
  if has entry PTE_PRESENT then Some (phys_to_virt (Z.land entry PTE_ADDR_MASK)) else None.

(** The PML4 the boot loader makes and loads (stage2.asm). *)
Definition BOOT_PML4 : Z := 0x1000.

(** The physical address behind a virtual one, by the boot loader's mappings:
    the higher half is the same in all tables, the one-to-one mapping is there
    while the boot loader's tables are loaded. *)
Definition window (cr3 virt : Z) : option Z :=
  if (KERNEL_VIRT_BASE <=? virt) && (virt <? KERNEL_VIRT_BASE + 0x8000000)
  then Some (virt - KERNEL_VIRT_BASE + KERNEL_PHYS_BASE)
  else if (Z.land cr3 PTE_ADDR_MASK =? BOOT_PML4) && (0 <=? virt) && (virt <? IDENTITY_LIMIT)
  then Some virt else None.

(** ** State *)

Section vmm.
Context {S : Type} `{FrameAlloc S}.

Record vm := Vm { vm_frames : S; vm_mem : gmap Z Z; vm_cr3 : Z }.

Definition set_frames (f : S) (s : vm) : vm := Vm f (vm_mem s) (vm_cr3 s).
Definition set_mem (m : gmap Z Z) (s : vm) : vm := Vm (vm_frames s) m (vm_cr3 s).

Definition rd_mem (m : gmap Z Z) (p : Z) : Z := default 0 (m !! p).

Definition rd_word (virt : Z) : M vm Z :=
  s ← get; p ← lift (window (vm_cr3 s) virt); mret (rd_mem (vm_mem s) p).

Definition wr_word (virt x : Z) : M vm unit :=
  s ← get; p ← lift (window (vm_cr3 s) virt); put (set_mem (<[p := x]> (vm_mem s)) s).

Definition on_frames {A} (c : M S A) : M vm A := λ s,
  match c (vm_frames s) with
  | Some (a, f) => Some (a, set_frames f s)
  | None => None
  end.

(** [&table[i]] *)
Definition entry_ptr (table i : Z) : Z := table + 8 * i.

(** ** Operations *)

Definition get_pml4 : M vm Z :=
  cr3 ← gets vm_cr3; mret (phys_to_virt (Z.land cr3 PTE_ADDR_MASK)).

Definition alloc_page_table : M vm (option Z) :=
  phys ← on_frames fa_alloc_page;
  if phys =? 0 then mret None
  else
    let table := phys_to_virt phys in
    for_ 0 ENTRIES_PER_TABLE (λ i, wr_word (entry_ptr table i) 0) ;;
    mret (Some table).

(** The next table down, made when it is missing: the step that vmm_get_pte
    repeats for the PDPT, the PD and the PT. *)
Definition get_or_create (entry : Z) (create : bool) : M vm (option Z) :=
  e ← rd_word entry;
  if has e PTE_PRESENT then mret (pte_to_table e)
  else if create then
    t ← alloc_page_table;
    match t with
    | None => mret None
    | Some table =>
        wr_word entry (Z.lor (Z.lor (table_to_phys table) PTE_PRESENT) PTE_WRITABLE) ;;
        mret (Some table)
    end
  else mret None.

Definition vmm_get_pte (virt : Z) (create : bool) : M vm (option Z) :=
  pml4 ← get_pml4;
  t1 ← get_or_create (entry_ptr pml4 (PML4_INDEX virt)) create;
  match t1 with
  | None => mret None
  | Some pdpt =>
      let pdpte := entry_ptr pdpt (PDPT_INDEX virt) in
      e1 ← rd_word pdpte;
      if has e1 PTE_PRESENT && has e1 PTE_HUGE then mret None else
      t2 ← get_or_create pdpte create;
      match t2 with
      | None => mret None
      | Some pd =>
          let pde := entry_ptr pd (PD_INDEX virt) in
          e2 ← rd_word pde;
          if has e2 PTE_PRESENT && has e2 PTE_HUGE then mret None else
          t3 ← get_or_create pde create;
          match t3 with
          | None => mret None
          | Some pt => mret (Some (entry_ptr pt (PT_INDEX virt)))
          end
      end
  end.

(** [x & ~0xFFFUL] *)
Definition page_of (x : Z) : Z := Z.land x (wrap64 (Z.lnot 0xFFF)).

Definition make_pte (phys flags : Z) : Z :=
  Z.lor (Z.lor (Z.land phys PTE_ADDR_MASK) (Z.land flags (wrap64 (Z.lnot PTE_ADDR_MASK))))
    PTE_PRESENT.

Definition vmm_map_page (virt0 phys0 flags : Z) : M vm Z :=
  let virt := page_of virt0 in
  let phys := page_of phys0 in
  pte ← vmm_get_pte virt true;
  match pte with
  | None => mret (-1)
  | Some pte => wr_word pte (make_pte phys flags) ;; mret 0
  end.

Definition vmm_unmap_page (virt0 : Z) : M vm Z :=
  let virt := page_of virt0 in
  pte ← vmm_get_pte virt false;
  match pte with
  | None => mret 0
  | Some pte =>
      e ← rd_word pte;
      if has e PTE_PRESENT then
        wr_word pte 0 ;; mret (Z.land e PTE_ADDR_MASK)
      else mret 0
  end.

Definition vmm_unmap_pages (virt count : Z) : M vm unit :=
  for_ 0 count (λ i, vmm_unmap_page (virt +u64 (i *u64 PAGE_SIZE_4K)) ;; mret tt).

Fixpoint map_pages_from (n : nat) (i virt phys flags : Z) : M vm Z :=
  match n with
  | O => mret 0
  | Datatypes.S n' =>
      r ← vmm_map_page (virt +u64 (i *u64 PAGE_SIZE_4K)) (phys +u64 (i *u64 PAGE_SIZE_4K)) flags;
      if negb (r =? 0) then vmm_unmap_pages virt i ;; mret (-1)
      else map_pages_from n' (i + 1) virt phys flags
  end.

Definition vmm_map_pages (virt phys count flags : Z) : M vm Z :=
  map_pages_from (Z.to_nat count) 0 virt phys flags.

Definition vmm_get_phys (virt : Z) : M vm Z :=
  pml4 ← get_pml4;
  e0 ← rd_word (entry_ptr pml4 (PML4_INDEX virt));
  match pte_to_table e0 with
  | None => mret 0
  | Some pdpt =>
      e1 ← rd_word (entry_ptr pdpt (PDPT_INDEX virt));
      match pte_to_table e1 with
      | None => mret 0
      | Some pd =>
          if has e1 PTE_HUGE
          then mret (Z.lor (Z.land e1 0xFFFFFFC0000000) (Z.land virt 0x3FFFFFFF)) else
          e2 ← rd_word (entry_ptr pd (PD_INDEX virt));
          match pte_to_table e2 with
          | None => mret 0
          | Some pt =>
              if has e2 PTE_HUGE
              then mret (Z.lor (Z.land e2 0xFFFFFFFE00000) (Z.land virt 0x1FFFFF)) else
              e3 ← rd_word (entry_ptr pt (PT_INDEX virt));
              if has e3 PTE_PRESENT
              then mret (Z.lor (Z.land e3 PTE_ADDR_MASK) (PAGE_OFFSET virt))
              else mret 0
          end
      end
  end.

Definition vmm_get_mapping_size (virt : Z) : M vm Z :=
  pml4 ← get_pml4;
  e0 ← rd_word (entry_ptr pml4 (PML4_INDEX virt));
  match pte_to_table e0 with
  | None => mret 0
  | Some pdpt =>
      e1 ← rd_word (entry_ptr pdpt (PDPT_INDEX virt));
      match pte_to_table e1 with
      | None => mret 0
      | Some pd =>
          if has e1 PTE_HUGE then mret PAGE_SIZE_1G else
          e2 ← rd_word (entry_ptr pd (PD_INDEX virt));
          match pte_to_table e2 with
          | None => mret 0
          | Some pt =>
              if has e2 PTE_HUGE then mret PAGE_SIZE_2M else
              e3 ← rd_word (entry_ptr pt (PT_INDEX virt));
              if has e3 PTE_PRESENT then mret PAGE_SIZE_4K else mret 0
          end
      end
  end.

Definition vmm_is_mapped (virt : Z) : M vm bool :=
  n ← vmm_get_mapping_size virt; mret (negb (n =? 0)).

End vmm.

Arguments vm : clear implicits.
