(* ===== verification/VmmInv.v ===== *)
(** * The virtual memory manager: page walks and the invariant

    [mapping] is the walk the processor does: it gives the present entry that
    maps an address and its level.  [vm_wf] says that the tables form a tree in
    frames nobody can be given; the lemmas say what writing an entry and adding
    a table do to every walk. *)

From S2P Require Import Prelude Frames Vmm.

(** ** Page walks *)

(** The index of an address in the table at depth [d] (0 is the PML4). *)
Definition index (d : nat) (v : Z) : Z := Z.land (Z.shiftr v (39 - 9 * Z.of_nat d)) 0x1FF.

Definition frame_of (e : Z) : Z := Z.land e PTE_ADDR_MASK.

(** A present entry names a table, except for the huge pages at depths 1 and 2. *)
Definition is_table (d : nat) (e : Z) : bool :=
  has e PTE_PRESENT && negb ((0 <? d)%nat && has e PTE_HUGE).

Definition pte_at (m : gmap Z Z) (t : Z) (d : nat) (v : Z) : Z := rd_mem m (t + 8 * index d v).

(** The table at depth [d] on the walk of [v]. *)
Fixpoint table_at (m : gmap Z Z) (root v : Z) (d : nat) : option Z :=
  match d with
  | O => Some root
  | S d' =>
      match table_at m root v d' with
      | Some t => let e := pte_at m t d' v in if is_table d' e then Some (frame_of e) else None
      | None => None
      end
  end.

(** The walk from the table [t] at depth [d], with [n] more levels below. *)
Fixpoint walk (m : gmap Z Z) (n d : nat) (t v : Z) : option (nat * Z) :=
  let e := pte_at m t d v in
  if has e PTE_PRESENT then
    match n with
    | O => Some (d, e)
    | S n' => if is_table d e then walk m n' (S d) (frame_of e) v else Some (d, e)
    end
  else None.

Definition mapping (m : gmap Z Z) (root v : Z) : option (nat * Z) := walk m 3 0 root v.

(** The physical address a walk gives: 1GB, 2MB and 4KB pages. *)
Definition translate (m : gmap Z Z) (root v : Z) : option Z :=
  match mapping m root v with
  | Some (1%nat, e) => Some (Z.lor (Z.land e 0xFFFFFC0000000) (Z.land v 0x3FFFFFFF))
  | Some (2%nat, e) => Some (Z.lor (Z.land e 0xFFFFFFFE00000) (Z.land v 0x1FFFFF))
  | Some (_, e) => Some (Z.lor (frame_of e) (Z.land v 0xFFF))
  | None => None
  end.

Definition same_prefix (d : nat) (v w : Z) : Prop := ∀ k, (k < d)%nat → index k v = index k w.

(** The virtual page number of an address: the 36 bits a walk looks at. *)
Definition vpn (v : Z) : Z := (v / PAGE_SIZE) mod 2 ^ 36.

(** ** Bits and indices *)

Lemma index_eq d v : index d v = (v / 2 ^ (39 - 9 * Z.of_nat d)) mod 512 ∨ (4 < d)%nat.
Proof.
  destruct (decide (4 < d)%nat) as [|Hd]; [by right|left].
  unfold index. change 0x1FF with (Z.ones 9). rewrite Z.land_ones by lia.
  by rewrite Z.shiftr_div_pow2 by lia.
Qed.

Lemma index_bounds d v : 0 ≤ index d v < 512.
Proof.
  unfold index. change 0x1FF with (Z.ones 9). rewrite Z.land_ones by lia.
  apply Z.mod_pos_bound. lia.
Qed.

Lemma vpn_split q :
  0 ≤ q < 2 ^ 36 →
  q = q mod 512 + 512 * ((q / 512) mod 512) + 2 ^ 18 * ((q / 2 ^ 18) mod 512)
      + 2 ^ 27 * ((q / 2 ^ 27) mod 512).
Proof. intros Hq. Z.to_euclidean_division_equations. lia. Qed.

Lemma index_vpn d v : (d < 4)%nat → index d v = (vpn v / 2 ^ (27 - 9 * Z.of_nat d)) mod 512.
Proof.
  intros Hd. destruct (index_eq d v) as [->|?]; [|lia]. unfold vpn, PAGE_SIZE.
  replace (39 - 9 * Z.of_nat d) with (12 + (27 - 9 * Z.of_nat d)) by lia.
  rewrite Z.pow_add_r, <-Z.div_div by lia. change (2 ^ 12) with 4096.
  generalize (v / 4096). intros q.
  destruct d as [|[|[|[|]]]]; [..|lia]; cbn; Z.to_euclidean_division_equations; lia.
Qed.

Lemma same_prefix_vpn v w : same_prefix 4 v w ↔ vpn v = vpn w.
Proof.
  split.
  - intros Hp. rewrite (vpn_split (vpn v)), (vpn_split (vpn w))
      by (apply Z.mod_pos_bound; lia).
    pose proof (Hp 0%nat ltac:(lia)) as H0. pose proof (Hp 1%nat ltac:(lia)) as H1.
    pose proof (Hp 2%nat ltac:(lia)) as H2. pose proof (Hp 3%nat ltac:(lia)) as H3.
    rewrite !index_vpn in H0, H1, H2, H3 by lia.
    change (2 ^ (27 - 9 * Z.of_nat 0)) with (2 ^ 27) in H0.
    change (2 ^ (27 - 9 * Z.of_nat 1)) with (2 ^ 18) in H1.
    change (2 ^ (27 - 9 * Z.of_nat 2)) with 512 in H2.
    change (2 ^ (27 - 9 * Z.of_nat 3)) with 1 in H3. rewrite !Z.div_1_r in H3.
    rewrite H0, H1, H2, H3. done.
  - intros He k Hk. by rewrite !index_vpn, He by lia.
Qed.

(** A walk only looks at the virtual page number. *)
Lemma walk_same_page m n d t v w :
  (n + d ≤ 3)%nat → same_prefix 4 v w → walk m n d t v = walk m n d t w.
Proof.
  intros Hn Hp. revert d t Hn. induction n as [|n IH]; intros d t Hn; simpl; unfold pte_at;
    rewrite (Hp d) by lia; [done|].
  case_match; [|done]. case_match; [|done]. apply IH. lia.
Qed.

Lemma mapping_same_page m root v w : vpn v = vpn w → mapping m root v = mapping m root w.
Proof. intros Hv. apply walk_same_page; [lia|]. by apply same_prefix_vpn. Qed.

Lemma page_of_spec v : 0 ≤ v < 2 ^ 64 → page_of v = v - v mod PAGE_SIZE.
Proof. intros. apply (land_align_mask v 12); lia. Qed.

Lemma page_of_vpn v : 0 ≤ v < 2 ^ 64 → vpn (page_of v) = vpn v.
Proof.
  intros Hv. rewrite page_of_spec by done. unfold vpn, PAGE_SIZE. f_equal.
  Z.to_euclidean_division_equations. lia.
Qed.

Lemma frame_of_spec e : frame_of e = (e / 4096) mod 2 ^ 40 * 4096.
Proof.
  unfold frame_of. change PTE_ADDR_MASK with (Z.shiftl (Z.ones 40) 12).
  rewrite <-Z.land_ones by lia. change 4096 with (2 ^ 12).
  rewrite <-Z.shiftr_div_pow2, <-Z.shiftl_mul_pow2 by lia.
  apply Z.bits_inj'. intros n Hn. rewrite Z.land_spec, !Z.shiftl_spec by lia.
  destruct (decide (n < 12)) as [Hlt|].
  - rewrite !(Z.testbit_neg_r _ (n - 12)) by lia. by rewrite andb_false_r.
  - rewrite Z.land_spec, Z.shiftr_spec by lia. by replace (n - 12 + 12) with n by lia.
Qed.

Lemma frame_of_frame f : frame_addr f → frame_of f = f.
Proof.
  unfold frame_addr, IDENTITY_LIMIT, PAGE_SIZE. intros (? & ? & Hm).
  rewrite frame_of_spec. rewrite Z.mod_small; Z.to_euclidean_division_equations; lia.
Qed.

Lemma frame_of_lor x y : frame_of (Z.lor x y) = Z.lor (frame_of x) (frame_of y).
Proof. unfold frame_of. apply Z.land_lor_distr_l. Qed.

Definition new_entry (f : Z) : Z := Z.lor (Z.lor f PTE_PRESENT) PTE_WRITABLE.

Lemma new_entry_frame f : frame_addr f → frame_of (new_entry f) = f.
Proof.
  intros Hf. unfold new_entry. rewrite !frame_of_lor, frame_of_frame by done.
  change (frame_of PTE_PRESENT) with 0. change (frame_of PTE_WRITABLE) with 0.
  by rewrite !Z.lor_0_r.
Qed.

Lemma has_lor_l x y k : has x k = true → 0 ≤ x → 0 ≤ y → 0 ≤ k → has (Z.lor x y) k = true.
Proof.
  unfold has. rewrite !negb_true_iff, !Z.eqb_neq. intros Hx H0 H1 Hk He. apply Hx.
  rewrite Z.land_lor_distr_l in He. by apply Z.lor_eq_0_iff in He as [? _].
Qed.

Lemma frame_low_bit f k : frame_addr f → 0 ≤ k < 12 → Z.testbit f k = false.
Proof.
  intros (_ & _ & Hm) Hk. unfold PAGE_SIZE in Hm.
  apply Z.mod_divide in Hm; [|lia]. destruct Hm as [q ->].
  change 4096 with (2 ^ 12). apply Z.mul_pow2_bits_low. lia.
Qed.

Lemma new_entry_is_table d f : frame_addr f → is_table d (new_entry f) = true.
Proof.
  intros Hf. unfold is_table, new_entry, PTE_PRESENT, PTE_WRITABLE, PTE_HUGE.
  rewrite !has_bit by lia.
  rewrite !testbit_lor_flag, !(frame_low_bit f) by (done || lia). cbn. by rewrite andb_false_r.
Qed.

(** Words of different table slots have different addresses. *)
Lemma word_ne f g i j :
  frame_addr f → frame_addr g → 0 ≤ i < 512 → 0 ≤ j < 512 → f ≠ g ∨ i ≠ j →
  f + 8 * i ≠ g + 8 * j.
Proof.
  intros (_ & _ & Hf) (_ & _ & Hg) Hi Hj Hne. unfold PAGE_SIZE in *.
  Z.to_euclidean_division_equations. lia.
Qed.

(** ** Walks depend on the entries they read *)

Section walks.
Context (m m' : gmap Z Z) (root : Z).
Implicit Types (v w f t : Z) (d k : nat).

Lemma table_at_prefix v w d :
  same_prefix d v w → table_at m root v d = table_at m root w d.
Proof.
  induction d as [|d IH]; intros Hp; [done|]. simpl.
  rewrite IH by (intros k Hk; apply Hp; lia). unfold pte_at.
  by rewrite (Hp d) by lia.
Qed.

Lemma table_at_up v d t :
  table_at m root v (S d) = Some t → ∃ t', table_at m root v d = Some t' ∧
    is_table d (pte_at m t' d v) = true ∧ t = frame_of (pte_at m t' d v).
Proof.
  simpl. destruct (table_at m root v d) as [t'|]; [|done].
  destruct (is_table d (pte_at m t' d v)) eqn:Ht; [|done]. intros [= <-]. eauto.
Qed.

Lemma table_at_ext v d :
  (∀ k f, (k < d)%nat → table_at m root v k = Some f → pte_at m' f k v = pte_at m f k v) →
  table_at m' root v d = table_at m root v d.
Proof.
  induction d as [|d IH]; intros Heq; [done|]. simpl.
  rewrite IH by (intros; apply Heq; [lia|done]).
  destruct (table_at m root v d) as [t|] eqn:Ht; [|done]. by rewrite Heq by (lia || done).
Qed.

Lemma walk_table v d t :
  table_at m root v d = Some t → (d ≤ 3)%nat → mapping m root v = walk m (3 - d) d t v.
Proof.
  revert t. induction d as [|d IH]; intros t Ht Hd; [by simplify_eq/=|].
  apply table_at_up in Ht as (t' & Ht' & Hist & ->).
  rewrite (IH t') by (done || lia). replace (3 - d)%nat with (S (3 - S d)) by lia.
  simpl. rewrite Hist. apply andb_true_iff in Hist as [-> _]. done.
Qed.

Lemma walk_ext v n d t :
  table_at m root v d = Some t → (n + d = 3)%nat →
  (∀ k f, (k ≤ 3)%nat → table_at m root v k = Some f → pte_at m' f k v = pte_at m f k v) →
  walk m' n d t v = walk m n d t v.
Proof.
  revert d t. induction n as [|n IH]; intros d t Ht Hn Heq; simpl; rewrite (Heq d t) by (done || lia);
    [done|]. destruct (has _ _) eqn:Hp; [|done].
  destruct (is_table d (pte_at m t d v)) eqn:Hist; [|done].
  apply IH; [|lia|done]. simpl. by rewrite Ht, Hist.
Qed.

Lemma mapping_ext v :
  (∀ k f, (k ≤ 3)%nat → table_at m root v k = Some f → pte_at m' f k v = pte_at m f k v) →
  mapping m' root v = mapping m root v.
Proof. by apply walk_ext. Qed.

End walks.

(** ** The tables form a tree *)

Record tree_ok (m : gmap Z Z) (root : Z) : Prop := TreeOk {
  tr_addr : ∀ v d f, (d ≤ 3)%nat → table_at m root v d = Some f → frame_addr f;
  tr_inj : ∀ v w d k f, (d ≤ 3)%nat → (k ≤ 3)%nat →
    table_at m root v d = Some f → table_at m root w k = Some f → d = k ∧ same_prefix d v w }.

Lemma rd_mem_insert_eq m p x : rd_mem (<[p := x]> m) p = x.
Proof. unfold rd_mem. by rewrite lookup_insert_eq. Qed.

Lemma rd_mem_insert_ne m p q x : p ≠ q → rd_mem (<[p := x]> m) q = rd_mem m q.
Proof. unfold rd_mem. intros. by rewrite lookup_insert_ne. Qed.

(** Writing an entry of the table of [v] at depth [d]. *)
Section write.
Context (m : gmap Z Z) (root v t e : Z) (d : nat).
Hypothesis Htr : tree_ok m root.
Hypothesis Hd : (d ≤ 3)%nat.
Hypothesis Ht : table_at m root v d = Some t.
Let m' := <[t + 8 * index d v := e]> m.

Lemma write_other f k w :
  (k ≤ 3)%nat → table_at m root w k = Some f → k ≠ d ∨ ¬ same_prefix (S d) v w →
  pte_at m' f k w = pte_at m f k w.
Proof.
  intros Hk Hf Hne. unfold pte_at, m'. apply rd_mem_insert_ne.
  apply word_ne; [exact (tr_addr _ _ Htr v d t Hd Ht)|exact (tr_addr _ _ Htr w k f Hk Hf)
    |apply index_bounds..|].
  destruct (decide (t = f)) as [->|]; [|by left]. right. intros Hi.
  destruct (tr_inj _ _ Htr v w d k f Hd Hk Ht Hf) as [<- Hpre].
  destruct Hne as [?|Hne]; [done|]. apply Hne. intros j Hj.
  destruct (decide (j = d)) as [->|]; [done|]. apply Hpre. lia.
Qed.

Lemma write_table_above w k : (k ≤ d)%nat → table_at m' root w k = table_at m root w k.
Proof.
  intros Hk. apply table_at_ext. intros j f Hj Hf. apply write_other; [lia|done|left; lia].
Qed.

Lemma write_table_away w k :
  (k ≤ 3)%nat → ¬ same_prefix (S d) v w → table_at m' root w k = table_at m root w k.
Proof.
  intros Hk Hne. apply table_at_ext. intros j f Hj Hf. apply write_other; [lia|done|by right].
Qed.

Lemma write_mapping_away w :
  ¬ same_prefix (S d) v w → mapping m' root w = mapping m root w.
Proof. intros Hne. apply mapping_ext. intros k f Hk Hf. apply write_other; auto. Qed.

Lemma write_entry w : same_prefix (S d) v w → pte_at m' t d w = e.
Proof. intros Hp. unfold pte_at, m'. rewrite <-(Hp d) by lia. apply rd_mem_insert_eq. Qed.

End write.

(** Writing a leaf: no table moves, and one page changes its mapping. *)
Section leaf.
Context (m : gmap Z Z) (root v t e : Z).
Hypothesis Htr : tree_ok m root.
Hypothesis Ht : table_at m root v 3 = Some t.
Let m' := <[t + 8 * index 3 v := e]> m.

Lemma leaf_tables w k : (k ≤ 3)%nat → table_at m' root w k = table_at m root w k.
Proof. intros Hk. by apply write_table_above. Qed.

Lemma leaf_mapping w :
  mapping m' root w =
    if decide (vpn w = vpn v) then if has e PTE_PRESENT then Some (3%nat, e) else None
    else mapping m root w.
Proof.
  case_decide as Hw.
  - assert (same_prefix 4 v w) as Hp by by apply same_prefix_vpn.
    assert (table_at m' root w 3 = Some t) as Ht'.
    { rewrite leaf_tables, <-Ht by lia. symmetry. apply table_at_prefix.
      intros k Hk. apply Hp. lia. }
    rewrite (walk_table m' root w 3 t) by done. simpl.
    by rewrite (write_entry m v t e 3) by done.
  - apply write_mapping_away; [done|lia|done|]. intros Hp. apply Hw.
    symmetry. by apply same_prefix_vpn.
Qed.

Lemma leaf_tree_ok : tree_ok m' root.
Proof.
  destruct Htr as [Ha Hi]. split.
  - intros w d f Hd. rewrite leaf_tables by done. by apply Ha.
  - intros w w' d k f Hd Hk. rewrite !leaf_tables by done. by apply Hi.
Qed.

End leaf.

#[export] Instance same_prefix_dec d v w : Decision (same_prefix d v w).
Proof.
  refine (cast_if (decide (Forall (λ k, index k v = index k w) (seq 0 d))));
    unfold same_prefix; rewrite Forall_forall in *; setoid_rewrite elem_of_seq in f || idtac.
  - intros k Hk. apply f. lia.
  - intros Hp. apply n. intros k Hk%elem_of_seq. apply Hp. lia.
Defined.

Lemma pte_absent d e : has e PTE_PRESENT = false → is_table d e = false.
Proof. unfold is_table. by intros ->. Qed.

(** The frame [r] is cleared and nothing else changes. *)
Definition zeroed (r : Z) (m m1 : gmap Z Z) : Prop :=
  (∀ i, 0 ≤ i < 512 → rd_mem m1 (r + 8 * i) = 0) ∧
  (∀ f i, frame_addr f → f ≠ r → 0 ≤ i < 512 → rd_mem m1 (f + 8 * i) = rd_mem m (f + 8 * i)).

(** Adding the empty table [r] below the table of [v] at depth [d], through the
    entry [e]. *)
Section create.
Context (m m1 : gmap Z Z) (root v t r e : Z) (d : nat).
Hypothesis Htr : tree_ok m root.
Hypothesis Hd : (d < 3)%nat.
Hypothesis Ht : table_at m root v d = Some t.
Hypothesis Habs : has (pte_at m t d v) PTE_PRESENT = false.
Hypothesis Hr : frame_addr r.
Hypothesis Hfresh : ∀ w k, (k ≤ 3)%nat → table_at m root w k ≠ Some r.
Hypothesis Hz : zeroed r m m1.
Hypothesis Hef : frame_of e = r.
Hypothesis Het : is_table d e = true.
Let m' := <[t + 8 * index d v := e]> m1.

Lemma zeroed_entry w k f :
  (k ≤ 3)%nat → table_at m root w k = Some f → pte_at m1 f k w = pte_at m f k w.
Proof.
  intros Hk Hf. apply Hz; [exact (tr_addr _ _ Htr w k f Hk Hf)| |apply index_bounds].
  intros ->. by apply (Hfresh w k).
Qed.

Lemma zeroed_tables w k : (k ≤ 3)%nat → table_at m1 root w k = table_at m root w k.
Proof. intros Hk. apply table_at_ext. intros j f Hj Hf. apply zeroed_entry; [lia|done]. Qed.

Lemma zeroed_mapping w : mapping m1 root w = mapping m root w.
Proof. apply mapping_ext. intros j f Hj Hf. by apply zeroed_entry. Qed.

Lemma zeroed_tree_ok : tree_ok m1 root.
Proof.
  destruct Htr as [Ha Hi]. split.
  - intros w k f Hk. rewrite zeroed_tables by done. by apply Ha.
  - intros w w' j k f Hj Hk. rewrite !zeroed_tables by done. by apply Hi.
Qed.

Lemma zeroed_at : table_at m1 root v d = Some t.
Proof. by rewrite zeroed_tables by lia. Qed.

Lemma create_new w : same_prefix (S d) v w → table_at m' root w (S d) = Some r.
Proof.
  intros Hp. simpl.
  assert (table_at m' root w d = Some t) as ->.
  { unfold m'. rewrite write_table_above by (apply zeroed_tree_ok || apply zeroed_at || lia).
    rewrite <-zeroed_at. symmetry. apply table_at_prefix. intros k Hk. apply Hp. lia. }
  unfold m'. rewrite (write_entry m1 v t _ d) by (done || lia).
  by rewrite Het, Hef.
Qed.

Lemma create_empty w k : pte_at m' r k w = 0.
Proof.
  unfold pte_at, m'. rewrite rd_mem_insert_ne.
  - apply Hz, index_bounds.
  - apply word_ne; [apply (tr_addr _ _ Htr v d t); [lia|done]|done|apply index_bounds..|].
    left. intros ->. apply (Hfresh v d); [lia|done].
Qed.

Lemma create_below w k :
  same_prefix (S d) v w → (S d < k)%nat → table_at m' root w k = None.
Proof.
  intros Hp Hk. induction k as [|k IH]; [lia|]. cbn [table_at].
  destruct (decide (k = S d)) as [->|]; [|by rewrite IH by lia].
  by rewrite (create_new w Hp), create_empty.
Qed.

Lemma absent_below w k : same_prefix (S d) v w → (d < k)%nat → table_at m root w k = None.
Proof.
  intros Hp Hk. induction k as [|k IH]; [lia|]. cbn [table_at].
  destruct (decide (k = d)) as [->|]; [|by rewrite IH by lia].
  rewrite <-(table_at_prefix m root v w d), Ht by (intros j Hj; apply Hp; lia).
  unfold pte_at. rewrite <-(Hp d) by lia. fold (pte_at m t d v). by rewrite pte_absent.
Qed.

Lemma create_tables w k f :
  (k ≤ 3)%nat →
  table_at m' root w k = Some f ↔
  table_at m root w k = Some f ∨ (k = S d ∧ same_prefix (S d) v w ∧ f = r).
Proof.
  intros Hk. destruct (decide (same_prefix (S d) v w)) as [Hp|Hp].
  - destruct (decide (k ≤ d)%nat) as [Hkd|Hkd].
    + unfold m'. rewrite write_table_above, zeroed_tables
        by (apply zeroed_tree_ok || apply zeroed_at || lia).
      split; [by left|]. intros [?|(-> & _)]; [done|lia].
    + rewrite (absent_below w k) by (done || lia).
      destruct (decide (k = S d)) as [->|].
      * rewrite create_new by done. split; [intros [= ->]; by right|].
        by intros [?|(_ & _ & ->)].
      * rewrite create_below by (done || lia). split; [done|]. intros [?|[? _]]; done.
  - unfold m'. rewrite write_table_away, zeroed_tables
      by (apply zeroed_tree_ok || apply zeroed_at || done || lia).
    split; [by left|]. intros [?|(_ & ? & _)]; done.
Qed.

Lemma create_mapping w : mapping m' root w = mapping m root w.
Proof.
  destruct (decide (same_prefix (S d) v w)) as [Hp|Hp].
  - rewrite (walk_table m' root w (S d) r) by (by apply create_new || lia).
    assert (table_at m root w d = Some t) as Htw.
    { rewrite <-Ht. symmetry. apply table_at_prefix. intros k Hk. apply Hp. lia. }
    rewrite (walk_table m root w d t) by (done || lia).
    assert (pte_at m t d w = pte_at m t d v) as He.
    { unfold pte_at. by rewrite (Hp d) by lia. }
    assert (∀ n, walk m' n (S d) r w = None) as ->.
    { intros n. destruct n; simpl; by rewrite create_empty. }
    destruct (3 - d)%nat; simpl; by rewrite He, Habs.
  - unfold m'. rewrite write_mapping_away
      by (apply zeroed_tree_ok || apply zeroed_at || done || lia).
    apply zeroed_mapping.
Qed.

Lemma create_tree_ok : tree_ok m' root.
Proof.
  split.
  - intros w k f Hk [Hf|(_ & _ & ->)]%create_tables; [|done..]. by eapply (tr_addr _ _ Htr).
  - intros w w' j k f Hj Hk [Hf|(-> & Hp & ->)]%create_tables
      [Hf'|(-> & Hp' & Hfr)]%create_tables; try done.
    + by eapply (tr_inj _ _ Htr).
    + subst f. by destruct (Hfresh w j Hj).
    + by destruct (Hfresh w' k Hk).
    + split; [done|]. intros i Hi. by rewrite <-(Hp i Hi), (Hp' i Hi).
Qed.

End create.
