(* ===== verification/VmmThm.v ===== *)
(** * The virtual memory manager: what its operations do (mm/vmm.c)

    The specification of each operation of Vmm.v against the processor's page
    walk: which addresses change their mapping, what the operation returns, and
    that the tables stay a tree of frames that no one else is given.  Everything
    is proved against the interface of the frame allocator. *)

From S2P Require Import Prelude Pmm PmmInv PmmInit PmmThm Frames Vmm VmmInv.

(** ** Accesses through the boot loader's mappings *)

(** The frames that can be reached while the tables at [c] are loaded: those of
    the higher half, and with the boot loader's tables those of the first 4GB. *)
Definition in_kernel_window (f : Z) : Prop :=
  KERNEL_PHYS_BASE ≤ f ∧ f + PAGE_SIZE ≤ KERNEL_PHYS_BASE + 0x8000000.

Definition seen (c f : Z) : Prop := frame_addr f ∧ (frame_of c = BOOT_PML4 ∨ in_kernel_window f).

Lemma seen_boot c f : frame_of c = BOOT_PML4 → frame_addr f → seen c f.
Proof. intros Hc Hf. split; [done|by left]. Qed.

Lemma seen_window c f : frame_addr f → in_kernel_window f → seen c f.
Proof. intros Hf Hw. split; [done|by right]. Qed.

Lemma seen_addr c f : seen c f → frame_addr f.
Proof. by intros [? _]. Qed.

Lemma window_entry c f i :
  seen c f → 0 ≤ i < 512 → window c (entry_ptr (phys_to_virt f) i) = Some (f + 8 * i).
Proof.
  unfold seen, in_kernel_window, frame_addr, IDENTITY_LIMIT, PAGE_SIZE, frame_of. intros [(Hf & Hl & Hm) Hc] Hi.
  unfold phys_to_virt, KERNEL_PHYS_BASE. destruct (_ && _) eqn:Hk;
    unfold window, entry_ptr, KERNEL_PHYS_TO_VIRT, IDENTITY_LIMIT;
    unfold KERNEL_VIRT_BASE, KERNEL_PHYS_BASE, wrap.
  - apply andb_true_iff in Hk as [?%Z.leb_le ?%Z.ltb_lt].
    assert (f + 4096 ≤ 136314880) by (Z.to_euclidean_division_equations; lia).
    rewrite (Z.mod_small (f - _)), Z.mod_small by lia.
    rewrite (proj2 (Z.leb_le _ _)), (proj2 (Z.ltb_lt _ _)) by lia. cbn [andb]. f_equal. lia.
  - destruct Hc as [->|[Hw1 Hw2]].
    + rewrite Z.eqb_refl, (proj2 (Z.leb_gt _ _)) by lia. cbn [andb].
      rewrite (proj2 (Z.leb_le _ _)), (proj2 (Z.ltb_lt _ _)) by lia. done.
    + apply andb_false_iff in Hk as [?%Z.leb_gt|?%Z.ltb_ge]; unfold KERNEL_PHYS_BASE in *; lia.
Qed.

(** With other tables than the boot loader's, a frame outside the higher half's
    128MB cannot be reached. *)
Lemma window_unseen c f i :
  frame_of c ≠ BOOT_PML4 → frame_addr f → ¬ in_kernel_window f → 0 ≤ i < 512 →
  window c (entry_ptr (phys_to_virt f) i) = None.
Proof.
  unfold in_kernel_window, frame_addr, IDENTITY_LIMIT, PAGE_SIZE, frame_of. intros Hc (Hf & Hl & Hm) Hw Hi.
  unfold phys_to_virt. destruct (_ && _) eqn:Hk.
  - apply andb_true_iff in Hk as [?%Z.leb_le ?%Z.ltb_lt]. destruct Hw. split; [done|].
    unfold KERNEL_PHYS_BASE in *. Z.to_euclidean_division_equations; lia.
  - unfold window, entry_ptr, KERNEL_VIRT_BASE. rewrite (proj2 (Z.leb_gt _ _)) by lia.
    by rewrite (proj2 (Z.eqb_neq _ _)).
Qed.

Lemma table_to_phys_virt f : frame_addr f → table_to_phys (phys_to_virt f) = f.
Proof.
  unfold frame_addr, IDENTITY_LIMIT, PAGE_SIZE. intros (Hf & Hl & Hm).
  unfold phys_to_virt, KERNEL_PHYS_BASE. destruct (_ && _) eqn:Hk;
    unfold table_to_phys, KERNEL_PHYS_TO_VIRT, KERNEL_VIRT_TO_PHYS;
    unfold KERNEL_VIRT_BASE, KERNEL_PHYS_BASE, wrap.
  - apply andb_true_iff in Hk as [?%Z.leb_le ?%Z.ltb_lt].
    rewrite (Z.mod_small (f - _)), (Z.mod_small (f - _ + _)) by lia.
    rewrite (proj2 (Z.leb_le _ _)) by lia.
    rewrite (Z.mod_small (f - _ + _ - _)), Z.mod_small by lia. lia.
  - by rewrite (proj2 (Z.leb_gt _ _)) by lia.
Qed.

Section specs.
Context {S : Type} `{FrameLaws S}.
Implicit Types (s : vm S) (v w f t : Z) (d : nat).

Definition root s : Z := frame_of (vm_cr3 s).
Definition tbl s v d : option Z := table_at (vm_mem s) (root s) v d.
Definition maps s v : option (nat * Z) := mapping (vm_mem s) (root s) v.

(** The frame [f] holds a page table. *)
Definition is_tbl s f : Prop := ∃ v d, (d ≤ 3)%nat ∧ tbl s v d = Some f.

(** Every frame of the allocator can be reached while the tables at [c] are
    loaded: they are the boot loader's, or the machine has no memory for the
    allocator outside the higher half's 128MB. *)
Definition sees (c : Z) : Prop := ∀ f, fa_addr f → seen c f.

Lemma sees_boot c : frame_of c = BOOT_PML4 → sees c.
Proof. intros Hc f Hf. by apply seen_boot, fa_addr_frame. Qed.

Lemma sees_window c : (∀ f, fa_addr f → in_kernel_window f) → sees c.
Proof. intros Hw f Hf. apply seen_window; [by apply fa_addr_frame|by apply Hw]. Qed.

Record vm_wf s : Prop := VmWf {
  vw_inv : fa_inv (vm_frames s);
  vw_tree : tree_ok (vm_mem s) (root s);
  vw_safe : ∀ f, is_tbl s f → ¬ fa_free (vm_frames s) f;
  vw_seen : ∀ f, is_tbl s f → seen (vm_cr3 s) f;
  vw_sees : sees (vm_cr3 s) }.

(** With the boot loader's tables loaded everything can be reached. *)
Lemma vm_wf_boot s :
  root s = BOOT_PML4 → fa_inv (vm_frames s) → tree_ok (vm_mem s) (root s) →
  (∀ f, is_tbl s f → ¬ fa_free (vm_frames s) f) → vm_wf s.
Proof.
  intros Hc Hi Ht Hs. split; [done|done|done| |by apply sees_boot].
  intros f (v & d & Hd & Hf). apply seen_boot; [done|]. by apply (tr_addr _ _ Ht v d).
Qed.

(** From [s] to [s'] tables may have been added, out of free frames; no mapping
    changes. *)
Record vm_ext s s' : Prop := VmExt {
  ve_cr3 : vm_cr3 s' = vm_cr3 s;
  ve_maps : ∀ v, maps s' v = maps s v;
  ve_tbl : ∀ v d f, (d ≤ 3)%nat → tbl s v d = Some f → tbl s' v d = Some f;
  ve_new : ∀ f, is_tbl s' f → is_tbl s f ∨ fa_free (vm_frames s) f;
  ve_free : ∀ f, fa_free (vm_frames s') f → fa_free (vm_frames s) f;
  ve_held : ∀ f, fa_held (vm_frames s) f → fa_held (vm_frames s') f }.

Lemma vm_ext_refl s : vm_ext s s.
Proof. split; auto. Qed.

Lemma vm_ext_trans s s' s'' : vm_ext s s' → vm_ext s' s'' → vm_ext s s''.
Proof.
  intros [A1 A2 A3 A4 A5 A6] [B1 B2 B3 B4 B5 B6]. split; auto.
  - congruence.
  - intros v. by rewrite B2.
  - intros f [Hf|Hf]%B4; auto.
Qed.

(** ** Words and frames *)

Lemma rd_entry_wp s f i (Q : Z → vm S → Prop) :
  seen (vm_cr3 s) f → 0 ≤ i < 512 → Q (rd_mem (vm_mem s) (f + 8 * i)) s →
  wp (rd_word (entry_ptr (phys_to_virt f) i)) Q s.
Proof.
  intros Hf Hi HQ. unfold rd_word. wp_step. wp_step. wp_step.
  eapply wp_lift; [by apply window_entry|]. by apply wp_ret.
Qed.

Lemma wr_entry_wp s f i x (Q : unit → vm S → Prop) :
  seen (vm_cr3 s) f → 0 ≤ i < 512 → Q tt (set_mem (<[f + 8 * i := x]> (vm_mem s)) s) →
  wp (wr_word (entry_ptr (phys_to_virt f) i) x) Q s.
Proof.
  intros Hf Hi HQ. unfold wr_word. wp_step. wp_step. wp_step.
  eapply wp_lift; [by apply window_entry|]. done.
Qed.

Lemma on_frames_wp {A} (c : M S A) (Q : A → vm S → Prop) s :
  wp c (λ a fr, Q a (set_frames fr s)) (vm_frames s) → wp (on_frames c) Q s.
Proof. unfold wp, on_frames. by destruct (c (vm_frames s)) as [[a fr]|]. Qed.

Lemma get_pml4_wp s (Q : Z → vm S → Prop) :
  Q (phys_to_virt (root s)) s → wp get_pml4 Q s.
Proof. done. Qed.

Lemma alloc_page_table_wp s (Q : option Z → vm S → Prop) :
  fa_inv (vm_frames s) → sees (vm_cr3 s) →
  ((∀ f, ¬ fa_free (vm_frames s) f) → Q None s) →
  (∀ r fr m1, fa_inv fr → fa_free (vm_frames s) r → frame_addr r →
     (∀ f, fa_free fr f ↔ fa_free (vm_frames s) f ∧ f ≠ r) →
     (∀ f, fa_held fr f ↔ fa_held (vm_frames s) f ∨ f = r) →
     zeroed r (vm_mem s) m1 →
     Q (Some (phys_to_virt r)) (Vm fr m1 (vm_cr3 s))) →
  wp alloc_page_table Q s.
Proof.
  intros Hinv Hsees HN HS. unfold alloc_page_table. apply wp_bind, on_frames_wp.
  eapply wp_mono; [by apply fa_alloc_law|].
  intros r fr (Hinv' & [(-> & -> & Hno)|(Hr & Hfree & Hheld)]).
  { simpl. apply wp_ret. destruct s. by apply HN. }
  pose proof (fa_free_addr _ _ Hinv Hr) as Haddr.
  rewrite (proj2 (Z.eqb_neq r 0)) by (destruct Haddr; lia). cbv zeta. apply wp_bind.
  apply (wp_for (λ j s', ∃ m1, s' = Vm fr m1 (vm_cr3 s) ∧
    (∀ i, 0 ≤ i < j → rd_mem m1 (r + 8 * i) = 0) ∧
    (∀ f i, frame_addr f → f ≠ r → 0 ≤ i < 512 →
       rd_mem m1 (f + 8 * i) = rd_mem (vm_mem s) (f + 8 * i)))).
  - exists (vm_mem s). split_and!; [done|lia|done].
  - intros j s' Hj (m1 & -> & Hz & Ho). apply wr_entry_wp; [by apply Hsees, (fa_free_in _ _ Hinv)|exact Hj|].
    eexists. split_and!; [done|..]; cbn [vm_mem].
    + intros i Hi. destruct (decide (i = j)) as [->|]; [apply rd_mem_insert_eq|].
      rewrite rd_mem_insert_ne by lia. apply Hz. lia.
    + intros f i Hf Hne Hi. rewrite rd_mem_insert_ne; [by apply Ho|].
      apply word_ne; [done|done|exact Hj|done|left; done].
  - intros s' (m1 & -> & Hz & Ho). apply wp_ret. apply HS; try done.
Qed.

(** ** Walking down one level *)

(** What a walk that may create tables leaves behind. *)
Definition walked (create : bool) s s' : Prop :=
  vm_wf s' ∧ vm_ext s s' ∧ (create = false → s' = s).

Lemma walked_refl b s : vm_wf s → walked b s s.
Proof. intros Hw. unfold walked. split_and!; auto using vm_ext_refl. Qed.

Lemma walked_trans b s s' s'' : walked b s s' → walked b s' s'' → walked b s s''.
Proof.
  intros (A1 & A2 & A3) (B1 & B2 & B3). unfold walked.
  split_and!; [done|by eapply vm_ext_trans|].
  intros Hb. by rewrite B3, A3.
Qed.

Lemma tbl_seen s v d f : vm_wf s → (d ≤ 3)%nat → tbl s v d = Some f → seen (vm_cr3 s) f.
Proof. intros Hw Hd Hf. apply (vw_seen _ Hw). by exists v, d. Qed.

Lemma walked_create s v d t r fr m1 :
  vm_wf s → (d < 3)%nat → tbl s v d = Some t →
  has (pte_at (vm_mem s) t d v) PTE_PRESENT = false →
  fa_inv fr → fa_free (vm_frames s) r → frame_addr r →
  (∀ f, fa_free fr f ↔ fa_free (vm_frames s) f ∧ f ≠ r) →
  (∀ f, fa_held fr f ↔ fa_held (vm_frames s) f ∨ f = r) →
  zeroed r (vm_mem s) m1 →
  let s' := Vm fr (<[t + 8 * index d v := new_entry r]> m1) (vm_cr3 s) in
  walked true s s' ∧ tbl s' v (Datatypes.S d) = Some r.
Proof.
  intros Hw Hd Ht Habs Hinv Hr Haddr Hfree Hheld Hz s'. pose proof Hw as [_ Htr Hsafe Hseen Hsees].
  pose proof (new_entry_frame r Haddr) as Hef. pose proof (new_entry_is_table d r Haddr) as Het.
  assert (∀ w k, (k ≤ 3)%nat → table_at (vm_mem s) (root s) w k ≠ Some r) as Hfresh.
  { intros w k Hk He. apply (Hsafe r); [|done]. by exists w, k. }
  assert (∀ f, is_tbl s' f → is_tbl s f ∨ f = r) as Hnew.
  { intros f (w & k & Hk & Hf).
    apply (create_tables (vm_mem s) m1 (root s) v t r (new_entry r) d) in Hf
      as [Hf|(_ & _ & ->)]; [left; by exists w, k|by right|done..]. }
  split; [|by apply (create_new (vm_mem s) m1 (root s) v t r (new_entry r) d)].
  unfold walked. split_and!; [split|split|done]; cbn [vm_frames vm_cr3 vm_mem s'].
  - done.
  - by apply (create_tree_ok (vm_mem s) m1 (root s) v t r (new_entry r) d).
  - intros f [Hf| ->]%Hnew; rewrite Hfree; [|tauto]. intros [? _]. by apply (Hsafe f).
  - intros f [Hf| ->]%Hnew; [by apply Hseen|by apply Hsees, (fa_free_in _ _ (vw_inv _ Hw))].
  - done.
  - done.
  - intros w. by apply (create_mapping (vm_mem s) m1 (root s) v t r (new_entry r) d).
  - intros w k f Hk Hf. apply (create_tables (vm_mem s) m1 (root s) v t r (new_entry r) d); auto.
  - intros f [Hf| ->]%Hnew; auto.
  - intros f Hf. by apply Hfree in Hf as [? _].
  - intros f Hf. apply Hheld. by left.
Qed.

Lemma get_or_create_wp s v d t create (Q : option Z → vm S → Prop) :
  vm_wf s → (d < 3)%nat → tbl s v d = Some t →
  (has (pte_at (vm_mem s) t d v) PTE_PRESENT = true →
     is_table d (pte_at (vm_mem s) t d v) = true) →
  (∀ s' f, walked create s s' → tbl s' v (Datatypes.S d) = Some f →
     Q (Some (phys_to_virt f)) s') →
  (tbl s v (Datatypes.S d) = None → maps s v = None →
     (create = true → ∀ f, ¬ fa_free (vm_frames s) f) → Q None s) →
  wp (get_or_create (entry_ptr (phys_to_virt t) (index d v)) create) Q s.
Proof.
  intros Hw Hd Ht Hhuge HS HN. pose proof (tbl_seen s v d t Hw ltac:(lia) Ht) as Haddr.
  pose proof (index_bounds d v) as Hi. unfold get_or_create. apply wp_bind.
  apply rd_entry_wp; [done..|]. fold (pte_at (vm_mem s) t d v).
  destruct (has (pte_at (vm_mem s) t d v) PTE_PRESENT) eqn:Hp.
  { unfold pte_to_table. rewrite Hp. apply wp_ret, HS; [by apply walked_refl|].
    unfold tbl in *. simpl. by rewrite Ht, (Hhuge eq_refl). }
  assert (tbl s v (Datatypes.S d) = None) as Hnt.
  { unfold tbl in *. simpl. by rewrite Ht, pte_absent. }
  assert (maps s v = None) as Hnm.
  { unfold maps. rewrite (walk_table _ _ v d t) by (done || lia).
    destruct (3 - d)%nat; simpl; by rewrite Hp. }
  destruct create; [|apply wp_ret, HN; done].
  apply wp_bind. apply alloc_page_table_wp; [apply Hw|apply Hw| |].
  { intros Hno. by apply wp_ret, HN. }
  intros r fr m1 Hinv Hr Hra Hfree Hheld Hz.
  destruct (walked_create s v d t r fr m1 Hw Hd Ht Hp Hinv Hr Hra Hfree Hheld Hz) as [Hwk Hnew].
  apply wp_bind. apply wr_entry_wp; [done..|]. apply wp_ret.
  rewrite table_to_phys_virt by done. by apply HS.
Qed.

(** ** Finding the entry of a page *)

(** Why there is no entry for [v]: a huge page maps it, or nothing does and no
    frame is left for a table. *)
Definition no_pte (create : bool) s s' v : Prop :=
  tbl s v 3 = None ∧
  ((∃ d e, maps s v = Some (d, e) ∧ (d < 3)%nat) ∨
   (maps s v = None ∧ (create = true → ∀ f, ¬ fa_free (vm_frames s') f))).

Lemma no_pte_below create s s' v d :
  vm_ext s s' → (d ≤ 3)%nat → tbl s' v d = None →
  ((∃ d e, maps s' v = Some (d, e) ∧ (d < 3)%nat) ∨
   (maps s' v = None ∧ (create = true → ∀ f, ¬ fa_free (vm_frames s') f))) →
  no_pte create s s' v.
Proof.
  intros Hext Hd Hn Hwhy. rewrite (ve_maps _ _ Hext) in Hwhy. split; [|done].
  destruct (tbl s v 3) as [f|] eqn:Hf; [|done].
  apply (ve_tbl _ _ Hext) in Hf; [|done]. exfalso. clear Hwhy. unfold tbl in *.
  assert (∀ n, (n + d ≤ 3)%nat → table_at (vm_mem s') (root s') v (n + d) = None) as Hall.
  { induction n as [|n IH]; intros Hnd; [done|]. simpl. by rewrite IH by lia. }
  specialize (Hall (3 - d)%nat ltac:(lia)). replace (3 - d + d)%nat with 3%nat in Hall by lia.
  congruence.
Qed.

(** The check for a huge page, then the step down. *)
Lemma step_down_wp s0 s v d t create {A} (k : Z → M (vm S) (option A)) (Q : option A → vm S → Prop) :
  walked create s0 s → (0 < d < 3)%nat → tbl s v d = Some t →
  (∀ s' f, walked create s0 s' → tbl s' v (Datatypes.S d) = Some f →
     wp (k (phys_to_virt f)) Q s') →
  (∀ s', walked create s0 s' → no_pte create s0 s' v → Q None s') →
  wp (e ← rd_word (entry_ptr (phys_to_virt t) (index d v));
      if has e PTE_PRESENT && has e PTE_HUGE then mret None else
      t' ← get_or_create (entry_ptr (phys_to_virt t) (index d v)) create;
      match t' with None => mret None | Some t' => k t' end) Q s.
Proof.
  intros Hwk Hd Ht HS HN. pose proof Hwk as (Hw & Hext & _).
  pose proof (tbl_seen s v d t Hw ltac:(lia) Ht) as Haddr.
  apply wp_bind. apply rd_entry_wp; [done|apply index_bounds|]. fold (pte_at (vm_mem s) t d v).
  assert (is_table d (pte_at (vm_mem s) t d v) =
    has (pte_at (vm_mem s) t d v) PTE_PRESENT && negb (has (pte_at (vm_mem s) t d v) PTE_HUGE)) as Hist.
  { unfold is_table. by destruct d; [lia|]. }
  destruct (has (pte_at (vm_mem s) t d v) PTE_PRESENT) eqn:Hp;
    destruct (has (pte_at (vm_mem s) t d v) PTE_HUGE) eqn:Hh; cbn [andb negb] in Hist |- *.
  1: { apply wp_ret, HN; [done|]. apply (no_pte_below _ _ _ _ (Datatypes.S d)); [done|lia|..].
    - unfold tbl in *. simpl. by rewrite Ht, Hist.
    - left. exists d, (pte_at (vm_mem s) t d v). split; [|lia]. unfold maps.
      rewrite (walk_table _ _ v d t) by (done || lia).
      replace (3 - d)%nat with (Datatypes.S (2 - d)) by lia. simpl. by rewrite Hp, Hist. }
  all: apply wp_bind; apply (get_or_create_wp s v d t); [done|lia|done|by rewrite Hist, Hp|..];
    [intros s' f Hwk'; apply HS; by eapply walked_trans
    |intros Hnt Hnm Hno; apply wp_ret, HN; [done|];
     apply (no_pte_below _ _ _ _ (Datatypes.S d)); [done|lia|done|by right]].
Qed.

Lemma vmm_get_pte_wp s v create (Q : option Z → vm S → Prop) :
  vm_wf s →
  (∀ s' t, walked create s s' → tbl s' v 3 = Some t →
     Q (Some (entry_ptr (phys_to_virt t) (index 3 v))) s') →
  (∀ s', walked create s s' → no_pte create s s' v → Q None s') →
  wp (vmm_get_pte v create) Q s.
Proof.
  intros Hw HS HN. unfold vmm_get_pte. apply wp_bind, get_pml4_wp.
  change (PML4_INDEX v) with (index 0 v). apply wp_bind.
  apply (get_or_create_wp s v 0); [done|lia|done| |..].
  { unfold is_table. by intros ->. }
  2: { intros Hnt Hnm Hno. apply wp_ret, HN; [by apply walked_refl|].
    apply (no_pte_below _ _ _ _ 1); [apply vm_ext_refl|lia|done|by right]. }
  intros s1 t1 Hw1 Ht1. change (PDPT_INDEX v) with (index 1 v). cbv zeta.
  apply (step_down_wp s); [done|lia|done|clear s1 t1 Hw1 Ht1|done].
  intros s2 t2 Hw2 Ht2. change (PD_INDEX v) with (index 2 v). cbv zeta.
  apply (step_down_wp s); [done|lia|done|clear s2 t2 Hw2 Ht2|done].
  intros s3 t3 Hw3 Ht3. by apply wp_ret, HS.
Qed.

(** ** Mapping and unmapping *)

Lemma make_pte_present phys flags : has (make_pte phys flags) PTE_PRESENT = true.
Proof.
  unfold make_pte, PTE_PRESENT. rewrite has_bit by lia. rewrite testbit_lor_flag by lia. done.
Qed.

Lemma make_pte_frame phys flags : frame_of (make_pte phys flags) = frame_of phys.
Proof.
  unfold make_pte. rewrite !frame_of_lor. change (frame_of PTE_PRESENT) with 0.
  rewrite Z.lor_0_r. unfold frame_of.
  rewrite <-(Z.land_assoc phys), Z.land_diag, <-Z.land_assoc.
  replace (Z.land (wrap64 (Z.lnot PTE_ADDR_MASK)) PTE_ADDR_MASK) with 0 by (by vm_compute).
  by rewrite Z.land_0_r, Z.lor_0_r.
Qed.

(** [s'] is [s] with the page of [v] mapped to [o] and no other page changed. *)
Definition remaps s s' v (o : option (nat * Z)) : Prop :=
  ∀ w, maps s' w = if decide (vpn w = vpn v) then o else maps s w.

(** The frames and tables of [s'] come from those of [s]. *)
Definition keeps_frames s s' : Prop :=
  (∀ f, is_tbl s' f → is_tbl s f ∨ fa_free (vm_frames s) f) ∧
  (∀ f, fa_free (vm_frames s') f → fa_free (vm_frames s) f) ∧
  (∀ f, fa_held (vm_frames s) f → fa_held (vm_frames s') f).

Lemma vm_ext_keeps s s' : vm_ext s s' → keeps_frames s s'.
Proof. intros []. by split_and!. Qed.

Lemma wr_leaf_wp s v t e (Q : unit → vm S → Prop) :
  vm_wf s → tbl s v 3 = Some t →
  (∀ s', vm_wf s' → remaps s s' v (if has e PTE_PRESENT then Some (3%nat, e) else None) →
     (∀ f, is_tbl s' f ↔ is_tbl s f) → vm_frames s' = vm_frames s → Q tt s') →
  wp (wr_word (entry_ptr (phys_to_virt t) (index 3 v)) e) Q s.
Proof.
  intros Hw Ht HQ. pose proof Hw as [Hinv Htr Hsafe Hseen Hsees].
  apply wr_entry_wp; [by eapply tbl_seen|apply index_bounds|].
  assert (∀ w d, (d ≤ 3)%nat → tbl (set_mem (<[t + 8 * index 3 v := e]> (vm_mem s)) s) w d = tbl s w d)
    as Htbl by (intros w d Hd; by apply leaf_tables).
  assert (∀ f, is_tbl (set_mem (<[t + 8 * index 3 v := e]> (vm_mem s)) s) f ↔ is_tbl s f) as Hist.
  { intros f. split; intros (w & d & Hd & Hf); exists w, d; (split; [done|]).
    - by rewrite Htbl in Hf.
    - by rewrite Htbl. }
  apply HQ; [split|..].
  - done.
  - by apply leaf_tree_ok.
  - intros f Hf. apply Hsafe. by apply Hist.
  - intros f Hf. apply Hseen. by apply Hist.
  - done.
  - intros w. by apply leaf_mapping.
  - done.
  - done.
Qed.

Lemma vmm_map_page_wp s virt phys flags :
  vm_wf s → 0 ≤ virt < 2 ^ 64 →
  wp (vmm_map_page virt phys flags) (λ r s', vm_wf s' ∧ keeps_frames s s' ∧
    ((r = 0 ∧ remaps s s' virt (Some (3%nat, make_pte (page_of phys) flags))) ∨
     (r = -1 ∧ (∀ w, maps s' w = maps s w) ∧ no_pte true s s' (page_of virt)))) s.
Proof.
  intros Hw Hv. unfold vmm_map_page. apply wp_bind. apply vmm_get_pte_wp; [done|..].
  - intros s1 t (Hw1 & Hext & _) Ht. apply wp_bind. apply (wr_leaf_wp s1); [done..|].
    intros s2 Hw2 Hre Htb Hfr. apply wp_ret. rewrite make_pte_present in Hre.
    split_and!; [done| |left; split; [done|]].
    + destruct (vm_ext_keeps _ _ Hext) as (K1 & K2 & K3). unfold keeps_frames.
      rewrite Hfr. split_and!; [|done..]. intros f Hf. by apply K1, Htb.
    + intros w. rewrite (Hre w), (ve_maps _ _ Hext). by rewrite page_of_vpn.
  - intros s1 (Hw1 & Hext & _) Hno. apply wp_ret.
    split_and!; [done|by apply vm_ext_keeps|right]. split_and!; [done|apply Hext|done].
Qed.

Lemma vmm_unmap_page_wp s virt :
  vm_wf s → 0 ≤ virt < 2 ^ 64 →
  wp (vmm_unmap_page virt) (λ r s', vm_wf s' ∧ vm_frames s' = vm_frames s ∧
    (∀ f, is_tbl s' f ↔ is_tbl s f) ∧
    match maps s virt with
    | Some (3%nat, e) => r = frame_of e ∧ remaps s s' virt None
    | _ => r = 0 ∧ s' = s
    end) s.
Proof.
  intros Hw Hv. unfold vmm_unmap_page. apply wp_bind.
  assert (maps s virt = maps s (page_of virt)) as Hpg.
  { apply mapping_same_page. by rewrite page_of_vpn. }
  rewrite Hpg. apply vmm_get_pte_wp; [done|..].
  - intros s1 t (_ & _ & Hs1) Ht. rewrite (Hs1 eq_refl) in *. clear s1 Hs1.
    apply wp_bind. apply rd_entry_wp; [by eapply tbl_seen|apply index_bounds|].
    fold (pte_at (vm_mem s) t 3 (page_of virt)).
    unfold maps at 1. rewrite (walk_table _ _ _ 3 t) by done. cbn [Nat.sub walk].
    destruct (has (pte_at (vm_mem s) t 3 (page_of virt)) PTE_PRESENT) eqn:Hp.
    + apply wp_bind. apply (wr_leaf_wp s); [done..|]. intros s2 Hw2 Hre Htb Hfr.
      apply wp_ret. split_and!; [done..|]. intros w. rewrite (Hre w).
      by rewrite page_of_vpn.
    + by apply wp_ret.
  - intros s1 (_ & _ & Hs1) [_ Hno]. rewrite (Hs1 eq_refl) in *. apply wp_ret.
    split_and!; [done..|]. destruct Hno as [(d & e & -> & Hd)|[-> _]]; [|done].
    by destruct d as [|[|[|[|]]]]; [..|lia|lia].
Qed.

(** ** Looking an address up *)

(** A lookup from the table at depth [d]: the entry, then the table below it. *)
Lemma lookup_step_wp {A} s v d t (n : nat) (k : Z → Z → M (vm S) A) (z : M (vm S) A)
    (Q : A → vm S → Prop) :
  vm_wf s → (d + Datatypes.S n = 3)%nat → tbl s v d = Some t →
  (maps s v = None → wp z Q s) →
  (∀ e, e = pte_at (vm_mem s) t d v →
     (maps s v = Some (d, e) ∧ has e PTE_HUGE = true ∧ d ≠ 0%nat) ∨
     (tbl s v (Datatypes.S d) = Some (frame_of e) ∧ (d ≠ 0%nat → has e PTE_HUGE = false)) →
     wp (k e (phys_to_virt (frame_of e))) Q s) →
  wp (e ← rd_word (entry_ptr (phys_to_virt t) (index d v));
      match pte_to_table e with None => z | Some t' => k e t' end) Q s.
Proof.
  intros Hw Hd Ht Hz Hk. apply wp_bind.
  apply rd_entry_wp; [apply (tbl_seen s v d); [done|lia|done]|apply index_bounds|].
  fold (pte_at (vm_mem s) t d v). unfold pte_to_table.
  assert (maps s v = walk (vm_mem s) (Datatypes.S n) d t v) as Hm.
  { unfold maps. rewrite (walk_table _ _ _ d t) by (done || lia). f_equal. lia. }
  simpl in Hm. destruct (has (pte_at (vm_mem s) t d v) PTE_PRESENT) eqn:Hp; [|by apply Hz].
  apply Hk; [done|]. unfold tbl in *. simpl. rewrite Ht. unfold is_table in *. rewrite Hp in *.
  destruct d as [|d]; cbn [Nat.ltb Nat.leb andb negb] in *; [by right|].
  destruct (has (pte_at (vm_mem s) t (Datatypes.S d) v) PTE_HUGE) eqn:Hh; cbn [negb] in *;
    [left|right]; done.
Qed.

(** No software bit is set in the address part vmm_get_phys takes of a 1GB entry. *)
Definition clean_1g s v : Prop :=
  ∀ e, maps s v = Some (1%nat, e) → Z.land e 0xFFFFFFC0000000 = Z.land e 0xFFFFFC0000000.

Lemma vmm_get_phys_wp s v :
  vm_wf s → clean_1g s v →
  wp (vmm_get_phys v) (λ r s', s' = s ∧
    r = default 0 (translate (vm_mem s) (root s) v)) s.
Proof.
  intros Hw Hc. unfold vmm_get_phys, translate. fold (maps s v).
  apply wp_bind, get_pml4_wp. change (PML4_INDEX v) with (index 0 v).
  apply (lookup_step_wp s v 0 _ 2); [done|done|done|by intros ->; apply wp_ret|].
  intros e0 _ [(_ & _ & ?)|[Ht1 _]]; [done|]. change (PDPT_INDEX v) with (index 1 v).
  apply (lookup_step_wp s v 1 _ 1); [done|done|done|by intros ->; apply wp_ret|].
  intros e1 _ [(Hm & -> & _)|[Ht2 Hh]].
  { apply wp_ret. rewrite Hm, (Hc _ Hm). done. }
  rewrite Hh by done. change (PD_INDEX v) with (index 2 v).
  apply (lookup_step_wp s v 2 _ 0); [done|done|done|by intros ->; apply wp_ret|].
  intros e2 _ [(Hm & -> & _)|[Ht3 Hh2]]; [apply wp_ret; by rewrite Hm|].
  rewrite Hh2 by done. change (PT_INDEX v) with (index 3 v). apply wp_bind.
  apply rd_entry_wp; [by eapply tbl_seen|apply index_bounds|].
  fold (pte_at (vm_mem s) (frame_of e2) 3 v).
  assert (maps s v = walk (vm_mem s) 0 3 (frame_of e2) v) as ->
    by by apply (walk_table (vm_mem s) (root s) v 3).
  cbn [walk]. destruct (has (pte_at (vm_mem s) (frame_of e2) 3 v) PTE_PRESENT); by apply wp_ret.
Qed.

Lemma vmm_get_mapping_size_wp s v :
  vm_wf s →
  wp (vmm_get_mapping_size v) (λ r s', s' = s ∧
    r = match maps s v with
        | Some (1%nat, _) => PAGE_SIZE_1G
        | Some (2%nat, _) => PAGE_SIZE_2M
        | Some _ => PAGE_SIZE_4K
        | None => 0
        end) s.
Proof.
  intros Hw. unfold vmm_get_mapping_size.
  apply wp_bind, get_pml4_wp. change (PML4_INDEX v) with (index 0 v).
  apply (lookup_step_wp s v 0 _ 2); [done|done|done|by intros ->; apply wp_ret|].
  intros e0 _ [(_ & _ & ?)|[Ht1 _]]; [done|]. change (PDPT_INDEX v) with (index 1 v).
  apply (lookup_step_wp s v 1 _ 1); [done|done|done|by intros ->; apply wp_ret|].
  intros e1 _ [(Hm & -> & _)|[Ht2 Hh]]; [apply wp_ret; by rewrite Hm|].
  rewrite Hh by done. change (PD_INDEX v) with (index 2 v).
  apply (lookup_step_wp s v 2 _ 0); [done|done|done|by intros ->; apply wp_ret|].
  intros e2 _ [(Hm & -> & _)|[Ht3 Hh2]]; [apply wp_ret; by rewrite Hm|].
  rewrite Hh2 by done. change (PT_INDEX v) with (index 3 v). apply wp_bind.
  apply rd_entry_wp; [by eapply tbl_seen|apply index_bounds|].
  fold (pte_at (vm_mem s) (frame_of e2) 3 v).
  assert (maps s v = walk (vm_mem s) 0 3 (frame_of e2) v) as ->
    by by apply (walk_table (vm_mem s) (root s) v 3).
  cbn [walk]. destruct (has (pte_at (vm_mem s) (frame_of e2) 3 v) PTE_PRESENT); by apply wp_ret.
Qed.

Lemma vmm_is_mapped_wp s v :
  vm_wf s → wp (vmm_is_mapped v) (λ b s', s' = s ∧ (b = true ↔ is_Some (maps s v))) s.
Proof.
  intros Hw. unfold vmm_is_mapped. apply wp_bind.
  eapply wp_mono; [by apply vmm_get_mapping_size_wp|]. intros r s' [-> ->]. apply wp_ret.
  split; [done|]. destruct (maps s v) as [[d e]|]; [|split; [done|by intros []]].
  split; [eauto|intros _]. by destruct d as [|[|[|]]].
Qed.

(** ** Runs of pages *)

(** The page [i] of a run that starts at [virt]. *)
Definition run_page (virt i : Z) : Z := virt +u64 (i *u64 PAGE_SIZE_4K).

Lemma run_page_bounds virt i : 0 ≤ run_page virt i < 2 ^ 64.
Proof. apply wrap_bounds. lia. Qed.

(** Every page of the run is absent or a 4KB page. *)
Definition small_run s virt count : Prop :=
  ∀ i, 0 ≤ i < count → match maps s (run_page virt i) with
                        | Some (d, _) => d = 3%nat
                        | None => True
                        end.

Definition in_run virt count w : Prop := ∃ i, 0 ≤ i < count ∧ vpn w = vpn (run_page virt i).

Lemma vmm_unmap_pages_wp s virt count :
  vm_wf s → 0 ≤ count → small_run s virt count →
  wp (vmm_unmap_pages virt count) (λ _ s', vm_wf s' ∧ vm_frames s' = vm_frames s ∧
    (∀ f, is_tbl s' f ↔ is_tbl s f) ∧
    (∀ w, in_run virt count w → maps s' w = None) ∧
    (∀ w, ¬ in_run virt count w → maps s' w = maps s w)) s.
Proof.
  intros Hw Hcount Hsmall. unfold vmm_unmap_pages.
  apply (wp_for (λ j s', vm_wf s' ∧ vm_frames s' = vm_frames s ∧
    (∀ f, is_tbl s' f ↔ is_tbl s f) ∧ (∀ w, in_run virt j w → maps s' w = None) ∧
    (∀ w, ¬ in_run virt j w → maps s' w = maps s w))).
  - split_and!; [done..| |done]. intros w (i & Hi & _). lia.
  - intros j s1 Hj (Hw1 & Hf1 & Ht1 & Hin & Hout). fold (run_page virt j). apply wp_bind.
    eapply wp_mono; [apply vmm_unmap_page_wp; [done|apply run_page_bounds]|].
    intros r s2 (Hw2 & Hf2 & Ht2 & Hm). apply wp_ret.
    assert (remaps s1 s2 (run_page virt j) None) as Hre.
    { destruct (maps s1 (run_page virt j)) as [[d e]|] eqn:Hmj.
      - assert (d = 3%nat) as ->; [|by destruct Hm].
        assert (maps s (run_page virt j) = Some (d, e)) as Hmj'.
        { rewrite <-Hmj. symmetry. apply Hout. intros Hi. by rewrite Hin in Hmj. }
        specialize (Hsmall j ltac:(lia)). by rewrite Hmj' in Hsmall.
      - destruct Hm as [_ ->]. intros w. case_decide as Hwj; [|done].
        rewrite <-Hmj. apply mapping_same_page. done. }
    split_and!; [done|congruence|intros f; by rewrite Ht2|..].
    + intros w (i & Hi & Hwi). rewrite (Hre w). case_decide as Hwj; [done|]. apply Hin.
      exists i. split; [|done]. destruct (decide (i = j)) as [->|]; [done|lia].
    + intros w Hn. rewrite (Hre w). case_decide as Hwj.
      * destruct Hn. exists j. split; [lia|done].
      * apply Hout. intros (i & Hi & Hwi). apply Hn. exists i. split; [lia|done].
  - intros s' Hs'. by rewrite Z.max_r in Hs' by lia.
Qed.

Lemma keeps_frames_trans s s' s'' :
  keeps_frames s s' → keeps_frames s' s'' → keeps_frames s s''.
Proof.
  intros (A1 & A2 & A3) (B1 & B2 & B3). split_and!; auto.
  intros f [Hf|Hf]%B1; [by apply A1|right; auto].
Qed.

(** A run of pages that does not wrap around. *)
Definition run_fits (virt count : Z) : Prop :=
  0 ≤ virt ∧ virt + count * PAGE_SIZE ≤ 2 ^ 64 ∧ 0 ≤ count ≤ 2 ^ 36.

Lemma run_page_eq virt count i :
  run_fits virt count → 0 ≤ i < count → run_page virt i = virt + i * PAGE_SIZE.
Proof.
  unfold run_fits, run_page, PAGE_SIZE_4K, PAGE_SIZE. intros (? & ? & ?) Hi.
  rewrite (wrap_small 64 (i * _)), wrap_small by lia. done.
Qed.

Lemma run_page_inj virt count i j :
  run_fits virt count → 0 ≤ i < count → 0 ≤ j < count →
  vpn (run_page virt i) = vpn (run_page virt j) → i = j.
Proof.
  intros Hf Hi Hj. rewrite !(run_page_eq virt count) by done. destruct Hf as (? & ? & ?).
  unfold vpn, PAGE_SIZE in *. rewrite !Z.div_add by lia.
  generalize dependent (virt / 4096). intros q He.
  Z.to_euclidean_division_equations. lia.
Qed.

Lemma in_run_step virt j w :
  0 ≤ j → in_run virt (j + 1) w ↔ in_run virt j w ∨ vpn w = vpn (run_page virt j).
Proof.
  intros Hj. split.
  - intros (i & Hi & Hw). destruct (decide (i = j)) as [->|]; [by right|left].
    exists i. split; [lia|done].
  - intros [(i & Hi & Hw)|Hw]; [exists i|exists j]; (split; [lia|done]).
Qed.

(** The first [j] pages of the run are mapped, every other page is as in [s]. *)
Definition mapped_upto s s' virt phys flags (j : Z) : Prop :=
  vm_wf s' ∧ keeps_frames s s' ∧
  (∀ i w, 0 ≤ i < j → vpn w = vpn (run_page virt i) →
     maps s' w = Some (3%nat, make_pte (page_of (run_page phys i)) flags)) ∧
  (∀ w, ¬ in_run virt j w → maps s' w = maps s w).

Lemma mapped_upto_step s s1 s2 virt phys flags count j :
  run_fits virt count → 0 ≤ j < count → mapped_upto s s1 virt phys flags j →
  vm_wf s2 → keeps_frames s1 s2 →
  remaps s1 s2 (run_page virt j) (Some (3%nat, make_pte (page_of (run_page phys j)) flags)) →
  mapped_upto s s2 virt phys flags (j + 1).
Proof.
  intros Hfit Hj (Hw1 & Hk1 & Hin & Hout) Hw2 Hk2 Hre. unfold mapped_upto.
  split_and!; [done|by eapply keeps_frames_trans|..].
  - intros i w Hi Hwi. rewrite (Hre w). case_decide as Hwj.
    + assert (i = j) as -> by (eapply (run_page_inj virt count); [done|lia|lia|congruence]).
      done.
    + apply Hin; [|done]. destruct (decide (i = j)) as [->|]; [done|lia].
  - intros w Hn. rewrite in_run_step in Hn by lia. rewrite (Hre w).
    case_decide; [tauto|]. apply Hout. tauto.
Qed.

Lemma map_pages_undo s s1 virt phys flags count j :
  run_fits virt count → 0 ≤ j < count →
  (∀ i, 0 ≤ i < count → maps s (run_page virt i) = None) →
  mapped_upto s s1 virt phys flags j →
  wp (vmm_unmap_pages virt j) (λ _ s', vm_wf s' ∧ keeps_frames s s' ∧
    ∀ w, maps s' w = maps s w) s1.
Proof.
  intros Hfit Hj Hnone (Hw1 & Hk1 & Hin & Hout).
  eapply wp_mono; [apply vmm_unmap_pages_wp; [done|lia|]|].
  { intros i Hi. by rewrite (Hin i) by (done || lia). }
  intros [] s2 (Hw2 & Hf2 & Ht2 & Hgone & Hsame). split_and!; [done|..].
  - destruct Hk1 as (K1 & K2 & K3). unfold keeps_frames. rewrite Hf2.
    split_and!; [|done..]. intros f Hf. by apply K1, Ht2.
  - intros w. destruct (decide (Exists (λ i, vpn w = vpn (run_page virt i)) (seqZ 0 j))) as [He|He].
    + apply Exists_exists in He as (i & Hi%elem_of_seqZ & Hw).
      rewrite Hgone by (exists i; split; [lia|done]).
      rewrite <-(Hnone i) by lia. by apply mapping_same_page.
    + assert (¬ in_run virt j w) as Hn.
      { intros (i & Hi & Hw). apply He, Exists_exists. exists i. split; [|done].
        apply elem_of_seqZ. lia. }
      by rewrite Hsame, Hout.
Qed.

Lemma map_pages_from_wp s s1 virt phys flags count n j :
  run_fits virt count → Z.of_nat n + j = count → 0 ≤ j →
  (∀ i, 0 ≤ i < count → maps s (run_page virt i) = None) →
  mapped_upto s s1 virt phys flags j →
  wp (map_pages_from n j virt phys flags) (λ r s',
    (r = 0 ∧ mapped_upto s s' virt phys flags count) ∨
    (r = -1 ∧ vm_wf s' ∧ keeps_frames s s' ∧ ∀ w, maps s' w = maps s w)) s1.
Proof.
  intros Hfit. revert s1 j. induction n as [|n IH]; intros s1 j Hn Hj Hnone Hup; simpl.
  { apply wp_ret. left. split; [done|]. by replace count with j by lia. }
  apply wp_bind. fold (run_page virt j) (run_page phys j).
  eapply wp_mono; [apply vmm_map_page_wp; [apply Hup|apply run_page_bounds]|].
  intros r s2 (Hw2 & Hk2 & [[-> Hre]|(-> & Hsame & _)]).
  - apply IH; [lia|lia|done|]. by apply (mapped_upto_step s s1 s2 virt phys flags count j); [|lia|..].
  - simpl. apply wp_bind. eapply wp_mono; [apply (map_pages_undo s _ virt phys flags count)|].
    + done.
    + lia.
    + done.
    + destruct Hup as (_ & Hk & Hin & Hout). unfold mapped_upto. setoid_rewrite Hsame.
      split_and!; [done|by eapply keeps_frames_trans|done..].
    + intros [] s3 Hs3. apply wp_ret. by right.
Qed.

Lemma vmm_map_pages_wp s virt phys count flags :
  vm_wf s → run_fits virt count →
  (∀ i, 0 ≤ i < count → maps s (run_page virt i) = None) →
  wp (vmm_map_pages virt phys count flags) (λ r s',
    (r = 0 ∧ mapped_upto s s' virt phys flags count) ∨
    (r = -1 ∧ vm_wf s' ∧ keeps_frames s s' ∧ ∀ w, maps s' w = maps s w)) s.
Proof.
  intros Hw Hfit Hnone. pose proof Hfit as (_ & _ & Hc). unfold vmm_map_pages.
  apply map_pages_from_wp; [done|lia|done|done|]. unfold mapped_upto.
  split_and!; [done|apply vm_ext_keeps, vm_ext_refl| |done]. lia.
Qed.
(** ** The theorems *)

(** The physical address [v] is translated to, in the state [s]. *)
Definition phys_of s v : option Z := translate (vm_mem s) (root s) v.

Lemma remaps_away s s' v o w :
  remaps s s' v o → vpn w ≠ vpn v → phys_of s' w = phys_of s w.
Proof.
  intros Hre Hne. unfold phys_of, translate. fold (maps s' w) (maps s w).
  by rewrite (Hre w), decide_False.
Qed.

Lemma same_maps_phys s s' : (∀ w, maps s' w = maps s w) → ∀ w, phys_of s' w = phys_of s w.
Proof.
  intros Hm w. unfold phys_of, translate. fold (maps s' w) (maps s w). by rewrite Hm.
Qed.

Lemma mapped_phys s v phys flags :
  frame_addr phys → maps s v = Some (3%nat, make_pte (page_of phys) flags) →
  phys_of s v = Some (phys + v mod PAGE_SIZE).
Proof.
  intros Hf Hm. unfold phys_of, translate. fold (maps s v). rewrite Hm, make_pte_frame.
  assert (page_of phys = phys) as ->.
  { destruct Hf as (? & ? & Hmod). unfold IDENTITY_LIMIT, PAGE_SIZE in *.
    rewrite page_of_spec by lia. unfold PAGE_SIZE. lia. }
  rewrite frame_of_frame by done. f_equal. change 0xFFF with (Z.ones 12).
  rewrite Z.land_ones by lia. change (2 ^ 12) with PAGE_SIZE.
  rewrite <-Z.lxor_lor, <-Z.add_nocarry_lxor; [done|..];
  (apply Z.bits_inj'; intros n Hn; rewrite Z.land_spec, Z.bits_0;
   destruct (decide (n < 12)); [by rewrite (frame_low_bit phys) by (done || lia)|];
   change PAGE_SIZE with (2 ^ 12); by rewrite Z.mod_pow2_bits_high, andb_false_r by lia).
Qed.

(** C7. Mapping a page.  From a well-formed tree of page tables, vmm_map_page
    does not fault and keeps the tree well formed.  When it returns 0, every
    address of the page translates to the same offset in the frame and no
    address of another page changes its translation; when it returns -1 no
    translation changes, and a huge page covers the address or no frame is
    left for a page table. *)
Theorem vmm_map_page_correct s virt phys flags :
  vm_wf s → 0 ≤ virt < 2 ^ 64 → frame_addr phys →
  ∃ r s', vmm_map_page virt phys flags s = Some (r, s') ∧ vm_wf s' ∧
    ((r = 0 ∧ (∀ w, vpn w = vpn virt → phys_of s' w = Some (phys + w mod PAGE_SIZE)) ∧
      (∀ w, vpn w ≠ vpn virt → phys_of s' w = phys_of s w)) ∨
     (r = -1 ∧ (∀ w, phys_of s' w = phys_of s w) ∧
      ((∃ d e, maps s (page_of virt) = Some (d, e) ∧ (d < 3)%nat) ∨
       ∀ f, ¬ fa_free (vm_frames s') f))).
Proof.
  intros Hw Hv Hf.
  destruct (wp_elim _ _ _ (vmm_map_page_wp s virt phys flags Hw Hv))
    as (r & s' & Hrun & Hw' & _ & Hr).
  exists r, s'. split_and!; [done..|]. destruct Hr as [[-> Hre]|(-> & Hm & _ & Hwhy)].
  - left. split_and!; [done| |intros w Hne; by eapply remaps_away].
    intros w Hvw. apply (mapped_phys s' w phys flags); [done|]. rewrite (Hre w). by rewrite decide_True.
  - right. split_and!; [done|by apply same_maps_phys|].
    destruct Hwhy as [?|[_ ?]]; [by left|right; auto].
Qed.

(** C40. Unmapping a page.  vmm_unmap_page returns the frame a 4KB page was
    mapped to, leaves no address of the page translated and changes no other
    translation; where no 4KB page is mapped it returns 0 and changes nothing. *)
Theorem vmm_unmap_page_correct s virt :
  vm_wf s → 0 ≤ virt < 2 ^ 64 →
  ∃ r s', vmm_unmap_page virt s = Some (r, s') ∧ vm_wf s' ∧
    match maps s virt with
    | Some (3%nat, e) =>
        phys_of s (page_of virt) = Some r ∧
        (∀ w, vpn w = vpn virt → phys_of s' w = None) ∧
        (∀ w, vpn w ≠ vpn virt → phys_of s' w = phys_of s w)
    | _ => r = 0 ∧ s' = s
    end.
Proof.
  intros Hw Hv.
  destruct (wp_elim _ _ _ (vmm_unmap_page_wp s virt Hw Hv)) as (r & s' & Hrun & Hw' & _ & _ & Hr).
  exists r, s'. split_and!; [done..|].
  destruct (maps s virt) as [[d e]|] eqn:Hm; [|done].
  destruct d as [|[|[|[|]]]]; try done. destruct Hr as [-> Hre].
  split_and!; [|intros w Hvw|intros w Hne; by eapply remaps_away].
  - unfold phys_of, translate.
    rewrite (mapping_same_page _ _ _ virt) by (by apply page_of_vpn).
    fold (maps s virt). rewrite Hm. f_equal.
    rewrite page_of_spec by done. change 0xFFF with (Z.ones 12).
    rewrite Z.land_ones by lia. change (2 ^ 12) with PAGE_SIZE. unfold PAGE_SIZE.
    replace ((virt - virt mod 4096) mod 4096) with 0
      by (Z.to_euclidean_division_equations; lia). by rewrite Z.lor_0_r.
  - unfold phys_of, translate. fold (maps s' w). by rewrite (Hre w), decide_True.
Qed.

(** C39. Mapping a run of pages is all or nothing.  For a run of at most 2^36
    pages that does not wrap around ([run_fits]), none of them mapped, and
    page-aligned frames below 4GB, vmm_map_pages returns 0 with page [i] of the run mapped to the
    frame [i] and nothing else changed, or -1 with every translation as it was
    before. *)
Theorem vmm_map_pages_atomic s virt phys count flags :
  vm_wf s → run_fits virt count →
  (∀ i, 0 ≤ i < count → frame_addr (phys + i * PAGE_SIZE)) →
  (∀ i, 0 ≤ i < count → phys_of s (virt + i * PAGE_SIZE) = None) →
  ∃ r s', vmm_map_pages virt phys count flags s = Some (r, s') ∧ vm_wf s' ∧
    ((r = 0 ∧
      (∀ i w, 0 ≤ i < count → vpn w = vpn (virt + i * PAGE_SIZE) →
         phys_of s' w = Some (phys + i * PAGE_SIZE + w mod PAGE_SIZE)) ∧
      (∀ w, (∀ i, 0 ≤ i < count → vpn w ≠ vpn (virt + i * PAGE_SIZE)) →
         phys_of s' w = phys_of s w)) ∨
     (r = -1 ∧ ∀ w, phys_of s' w = phys_of s w)).
Proof.
  intros Hw Hfit Hfr Hnone.
  assert (∀ i, 0 ≤ i < count → maps s (run_page virt i) = None) as Hn.
  { intros i Hi. rewrite (run_page_eq virt count) by done. specialize (Hnone i Hi).
    unfold phys_of, translate in Hnone. fold (maps s (virt + i * PAGE_SIZE)) in Hnone.
    destruct (maps s _) as [[d e]|]; [|done]. by destruct d as [|[|[|]]]. }
  destruct (wp_elim _ _ _ (vmm_map_pages_wp s virt phys count flags Hw Hfit Hn))
    as (r & s' & Hrun & Hr).
  exists r, s'. split; [done|].
  destruct Hr as [(-> & Hw' & _ & Hin & Hout)|(-> & Hw' & _ & Hsame)]; split; try done.
  - left. split_and!; [done|..].
    + intros i w Hi Hvw. rewrite <-(run_page_eq virt count) in Hvw by done.
      assert (run_page phys i = phys + i * PAGE_SIZE) as Hrp.
      { destruct (Hfr i Hi) as (? & ? & _), (Hfr 0 ltac:(lia)) as (? & _ & _).
        unfold IDENTITY_LIMIT, PAGE_SIZE in *. unfold run_page, PAGE_SIZE_4K, PAGE_SIZE.
        rewrite (wrap_small 64 (i * _)), wrap_small by lia. done. }
      apply (mapped_phys s' w _ flags); [by apply Hfr|]. rewrite <-Hrp. by apply Hin.
    + intros w Hne. unfold phys_of, translate. fold (maps s' w) (maps s w). rewrite Hout; [done|].
      intros (i & Hi & Hvw). apply (Hne i Hi). by rewrite <-(run_page_eq virt count) by done.
  - right. split; [done|]. by apply same_maps_phys.
Qed.

(** Looking an address up.  vmm_get_phys returns the address the processor
    translates to, 0 where it translates to nothing, for 4KB, 2MB and 1GB pages
    (for a 1GB page as long as none of the software bits 52 to 55 is set in its
    entry), and changes nothing. *)
Theorem vmm_get_phys_correct s v :
  vm_wf s → clean_1g s v →
  vmm_get_phys v s = Some (default 0 (phys_of s v), s).
Proof.
  intros Hw Hc. destruct (wp_elim _ _ _ (vmm_get_phys_wp s v Hw Hc)) as (r & s' & -> & -> & ->).
  done.
Qed.

(** The tables of an address space that maps nothing. *)
Lemma empty_vm_wf fr r :
  fa_inv fr → sees r → seen r r → ¬ fa_free fr r → vm_wf (Vm fr ∅ r).
Proof.
  intros Hinv Hsees Hseen Hnf. pose proof (seen_addr _ _ Hseen) as Hr.
  assert (root (Vm fr ∅ r) = r) as Hroot by by apply frame_of_frame.
  assert (∀ v d f, table_at ∅ r v d = Some f → d = 0%nat ∧ f = r) as Ht.
  { intros v d f. destruct d as [|d]; [by intros [= ->]|]. intros Hd. exfalso.
    apply table_at_up in Hd as (t & _ & He & _). unfold pte_at, rd_mem in He.
    by rewrite lookup_empty in He. }
  split; cbn [vm_frames vm_mem vm_cr3]; rewrite ?Hroot; [done|split|..|done].
  - by intros v d f _ [_ ->]%Ht.
  - intros v w d k f _ _ [-> ->]%Ht [-> _]%Ht. split; [done|]. intros k Hk. lia.
  - intros f (v & d & _ & Hf). unfold tbl in Hf. rewrite Hroot in Hf.
    by apply Ht in Hf as [_ ->].
  - intros f (v & d & _ & Hf). unfold tbl in Hf. rewrite Hroot in Hf. by apply Ht in Hf as [_ ->].
Qed.

End specs.

(** ** A concrete machine

    The machine of PmmThm.v with an empty PML4 in the reserved frame 0x1000. *)

Definition demo_vm : vm mem_info := Vm demo_state ∅ 0x1000.

Lemma demo_fa_inv : fa_inv demo_state.
Proof.
  destruct (proj1 demo_inv) as [Hwf Hc Hz _ _]. split_and!; [exact Hwf|exact Hc|exact Hz|].
  vm_compute. discriminate.
Qed.

Lemma demo_vm_wf : vm_wf demo_vm.
Proof.
  apply empty_vm_wf; [exact demo_fa_inv|apply sees_boot; by vm_compute|..].
  - apply seen_boot; [by vm_compute|split_and!; by vm_compute].
  - intros (p & Hp & Hf). apply (proj2 demo_inv) in Hf.
    assert (p = 1) as -> by (unfold PAGE_SIZE in Hp; lia).
    destruct Hf as [Hf _]. apply usable_cons in Hf as [(a & b & Hr & Hab)|Hf];
      [|by apply usable_nil in Hf].
    assert (usable_range (MmapEntry 0x200000 0x200000 1) = Some (512, 1024)) as Hr' by by vm_compute.
    rewrite Hr' in Hr. injection Hr as <- <-. lia.
Qed.

Definition demo_virt : Z := 0xFFFFFFFF88000000.

Definition demo_map : M (vm mem_info) Z := vmm_map_page demo_virt 0x300000 PTE_KERNEL_RW.

Lemma demo_map_returns : fst <$> demo_map demo_vm = Some 0.
Proof. by vm_compute. Qed.

Lemma vmm_map_page_correct_witness : ∃ s', demo_map demo_vm = Some (0, s') ∧ vm_wf s' ∧
  phys_of s' (demo_virt + 0x123) = Some 0x300123.
Proof.
  destruct (vmm_map_page_correct demo_vm demo_virt 0x300000 PTE_KERNEL_RW)
    as (r & s' & Hrun & Hw & Hr).
  - exact demo_vm_wf.
  - by vm_compute.
  - split_and!; by vm_compute.
  - pose proof demo_map_returns as H0. unfold demo_map in *. rewrite Hrun in *. injection H0 as H0.
    simpl in H0. subst r. exists s'. split; [reflexivity|]. split; [exact Hw|].
    destruct Hr as [(_ & Hr & _)|[Hr _]]; [|discriminate Hr].
    apply (Hr (demo_virt + 0x123)). by vm_compute.
Defined.

(** The demo machine with one page mapped. *)
Definition demo_mapped : vm mem_info := run_state demo_map demo_vm.

Lemma demo_mapped_wf : vm_wf demo_mapped.
Proof.
  assert (0 ≤ demo_virt < 2 ^ 64) as Hv by by vm_compute.
  destruct (wp_elim _ _ _ (vmm_map_page_wp demo_vm demo_virt 0x300000 PTE_KERNEL_RW demo_vm_wf Hv))
    as (r & s' & Hrun & Hw & _).
  unfold demo_mapped, run_state, demo_map. rewrite Hrun. exact Hw.
Qed.

Definition is_4k (m : option (nat * Z)) : bool :=
  match m with Some (3%nat, _) => true | _ => false end.

Lemma demo_mapped_4k : is_4k (maps demo_mapped demo_virt) = true.
Proof. by vm_compute. Qed.

Lemma vmm_unmap_page_correct_witness :
  ∃ r s', vmm_unmap_page demo_virt demo_mapped = Some (r, s') ∧
    phys_of s' (demo_virt + 0x123) = None.
Proof.
  destruct (vmm_unmap_page_correct demo_mapped demo_virt) as (r & s' & Hrun & Hw & Hr).
  - exact demo_mapped_wf.
  - by vm_compute.
  - exists r, s'. split; [exact Hrun|].
    pose proof demo_mapped_4k as H4. destruct (maps demo_mapped demo_virt) as [[d e]|];
      [|discriminate H4]. destruct d as [|[|[|[|d]]]]; try discriminate H4.
    destruct Hr as (_ & Hr & _). apply Hr. by vm_compute.
Defined.

Lemma vmm_map_pages_atomic_witness :
  ∃ r s', vmm_map_pages demo_virt 0x300000 3 PTE_KERNEL_RW demo_vm = Some (r, s') ∧ vm_wf s'.
Proof.
  destruct (vmm_map_pages_atomic demo_vm demo_virt 0x300000 3 PTE_KERNEL_RW)
    as (r & s' & Hrun & Hw & _).
  - exact demo_vm_wf.
  - split_and!; by vm_compute.
  - intros i Hi. assert (i = 0 ∨ i = 1 ∨ i = 2) as [->|[->| ->]] by lia;
      split_and!; by vm_compute.
  - intros i Hi. assert (i = 0 ∨ i = 1 ∨ i = 2) as [->|[->| ->]] by lia; reflexivity.
  - exists r, s'. split; [exact Hrun|exact Hw].
Defined.

Lemma vmm_get_phys_correct_witness :
  vmm_get_phys (demo_virt + 0x123) demo_mapped
  = Some (default 0 (phys_of demo_mapped (demo_virt + 0x123)), demo_mapped).
Proof.
  apply (vmm_get_phys_correct demo_mapped (demo_virt + 0x123)).
  - exact demo_mapped_wf.
  - assert (is_4k (maps demo_mapped (demo_virt + 0x123)) = true) as H4 by by vm_compute.
    intros e He. rewrite He in H4. discriminate H4.
Defined.
