(* ===== verification/PageMap.v ===== *)
(** * Frames and mappings as the kernel heap sees them

    The heap of mm/slab.c takes frames, maps them at kernel addresses and gives
    them back.  [PageMapper] is what it uses of mm/pmm.c and mm/vmm.c and
    [PageMapperLaws] what it relies on, in terms of two things it knows: which
    of its pages are mapped to which frame, and which frames it holds that are
    not mapped.  The virtual memory manager over any frame allocator is the
    instance. *)

From S2P Require Import Prelude Frames Vmm VmmInv VmmThm.

(** A page of the kernel half of the address space. *)
Definition kpage (v : Z) : Prop := 2 ^ 64 - 2 ^ 47 ≤ v < 2 ^ 64 ∧ v mod PAGE_SIZE = 0.

(** [pm_inv s mp loose]: the page [v] is mapped to the frame [f] for each
    [mp !! v = Some f], and the frames [loose] are held and not mapped. *)
Class PageMapper (S : Type) := {
  pm_alloc_page : M S Z;
  pm_free_page : Z → M S unit;
  pm_map_page : Z → Z → Z → M S Z;
  pm_unmap_page : Z → M S Z;
  pm_inv : S → gmap Z Z → gset Z → Prop }.

Class PageMapperLaws (S : Type) `{PageMapper S} : Prop := {
  pm_frame s mp loose v f : pm_inv s mp loose → mp !! v = Some f → f ≠ 0;
  pm_alloc_law s mp loose : pm_inv s mp loose →
    wp pm_alloc_page (λ r s',
      (r = 0 ∧ pm_inv s' mp loose) ∨
      (r ≠ 0 ∧ (r ∉ loose) ∧ pm_inv s' mp ({[r]} ∪ loose))) s;
  pm_free_law s mp loose f : pm_inv s mp loose → f ∈ loose →
    wp (pm_free_page f) (λ _ s', pm_inv s' mp (loose ∖ {[f]})) s;
  pm_map_law s mp loose v f flags :
    pm_inv s mp loose → f ∈ loose → kpage v → mp !! v = None →
    wp (pm_map_page v f flags) (λ r s',
      (r = 0 ∧ pm_inv s' (<[v := f]> mp) (loose ∖ {[f]})) ∨
      (r = -1 ∧ pm_inv s' mp loose)) s;
  pm_unmap_law s mp loose v f :
    pm_inv s mp loose → kpage v → mp !! v = Some f →
    wp (pm_unmap_page v) (λ r s', r = f ∧ pm_inv s' (delete v mp) ({[f]} ∪ loose)) s }.

(** ** The virtual memory manager as an instance *)

Section vmm.
Context {S : Type} `{FrameLaws S}.
Implicit Types (s : vm S) (mp : gmap Z Z) (loose : gset Z) (v w f : Z).

Record mapper_inv s mp loose : Prop := MapperInv {
  mi_wf : vm_wf s;
  mi_map : ∀ v f, mp !! v = Some f → kpage v ∧ fa_held (vm_frames s) f ∧ ¬ is_tbl s f ∧
    (f ∉ loose) ∧ ∃ e, maps s v = Some (3%nat, e) ∧ frame_of e = f;
  mi_loose : ∀ f, f ∈ loose → fa_held (vm_frames s) f ∧ ¬ is_tbl s f;
  mi_inj : ∀ v w f, mp !! v = Some f → mp !! w = Some f → v = w }.

#[export] Instance vmm_mapper : PageMapper (vm S) := {|
  pm_alloc_page := on_frames fa_alloc_page;
  pm_free_page := λ f, on_frames (fa_free_page f);
  pm_map_page := vmm_map_page;
  pm_unmap_page := vmm_unmap_page;
  pm_inv := mapper_inv |}.

Lemma kpage_bounds v : kpage v → 0 ≤ v < 2 ^ 64.
Proof. intros [? _]. lia. Qed.

Lemma kpage_vpn_inj v w : kpage v → kpage w → vpn v = vpn w → v = w.
Proof.
  unfold kpage, vpn, PAGE_SIZE. intros [Hv Hv'] [Hw Hw'] He.
  Z.to_euclidean_division_equations. lia.
Qed.

(** Changing the frame allocator only. *)
Lemma set_frames_wf s fr :
  vm_wf s → fa_inv fr → (∀ f, is_tbl s f → ¬ fa_free fr f) → vm_wf (set_frames fr s).
Proof. intros [_ Htr _] Hinv Hsafe. by split. Qed.

Lemma mapper_alloc s mp loose :
  mapper_inv s mp loose →
  wp (on_frames fa_alloc_page) (λ r s',
    (r = 0 ∧ mapper_inv s' mp loose) ∨
    (r ≠ 0 ∧ (r ∉ loose) ∧ mapper_inv s' mp ({[r]} ∪ loose))) s.
Proof.
  intros [Hw Hmap Hloose Hinj]. pose proof Hw as [Hinv Htr Hsafe]. apply on_frames_wp.
  eapply wp_mono; [by apply fa_alloc_law|].
  intros r fr (Hinv' & [(-> & -> & _)|(Hr & Hfree & Hheld)]).
  { left. split; [done|]. by destruct s. }
  pose proof (fa_free_addr _ _ Hinv Hr) as (Hr0 & _).
  assert (∀ f, fa_held (vm_frames s) f → f ≠ r) as Hne.
  { intros f Hf ->. by apply (fa_held_not_free _ _ Hinv Hf). }
  right. split_and!; [lia| |split].
  - intros Hl. by apply (Hne r); [apply Hloose|].
  - apply set_frames_wf; [done..|]. intros f Hf. rewrite Hfree. intros [? _]. by apply (Hsafe f).
  - intros v f Hvf. destruct (Hmap v f Hvf) as (? & Hh & ? & Hl & ?).
    split_and!; [done|apply Hheld; by left|done| |done].
    apply not_elem_of_union. split; [|done]. rewrite elem_of_singleton. by apply Hne.
  - intros f [->%elem_of_singleton|Hf]%elem_of_union.
    + split; [apply Hheld; by right|]. intros Ht. by apply (Hsafe r).
    + destruct (Hloose f Hf). split; [apply Hheld; by left|done].
  - done.
Qed.

Lemma mapper_free s mp loose f :
  mapper_inv s mp loose → f ∈ loose →
  wp (on_frames (fa_free_page f)) (λ _ s', mapper_inv s' mp (loose ∖ {[f]})) s.
Proof.
  intros [Hw Hmap Hloose Hinj] Hf. pose proof Hw as [Hinv Htr Hsafe].
  destruct (Hloose f Hf) as [Hh Hnt]. apply on_frames_wp.
  eapply wp_mono; [by apply fa_free_law|]. intros [] fr (Hinv' & Hfree & Hheld). split.
  - apply set_frames_wf; [done..|]. intros g Hg. rewrite Hfree. intros [?| ->]; [|done].
    by apply (Hsafe g).
  - intros v g Hvg. destruct (Hmap v g Hvg) as (? & ? & ? & Hl & ?).
    split_and!; [done| |done| |done].
    + apply Hheld. split; [done|]. by intros ->.
    + intros [? _]%elem_of_difference. done.
  - intros g [Hg Hne]%elem_of_difference. rewrite elem_of_singleton in Hne.
    destruct (Hloose g Hg). split; [|done]. by apply Hheld.
  - done.
Qed.

(** Frames in use stay out of the page tables. *)
Lemma keeps_frames_used s s' f :
  vm_wf s → keeps_frames s s' → fa_held (vm_frames s) f → ¬ is_tbl s f →
  fa_held (vm_frames s') f ∧ ¬ is_tbl s' f.
Proof.
  intros Hw (K1 & _ & K3) Hh Ht. split; [by apply K3|].
  intros [?|Hf]%K1; [done|]. by apply (fa_held_not_free _ _ (vw_inv _ Hw) Hh).
Qed.

Lemma mapper_map s mp loose v f flags :
  mapper_inv s mp loose → f ∈ loose → kpage v → mp !! v = None →
  wp (vmm_map_page v f flags) (λ r s',
    (r = 0 ∧ mapper_inv s' (<[v := f]> mp) (loose ∖ {[f]})) ∨
    (r = -1 ∧ mapper_inv s' mp loose)) s.
Proof.
  intros [Hw Hmap Hloose Hinj] Hf Hv Hnone. pose proof (Hloose f Hf) as [Hh Hnt].
  pose proof (fa_held_addr _ _ (vw_inv _ Hw) Hh) as Haddr.
  eapply wp_mono; [apply vmm_map_page_wp; [done|by apply kpage_bounds]|].
  intros r s' (Hw' & Hk & [[-> Hre]|(-> & Hsame & _)]); [left|right]; (split; [done|]).
  - split; [done|..].
    + intros w g [[<- <-]|[Hne Hwg]]%lookup_insert_Some.
      * destruct (keeps_frames_used s s' f) as [? ?]; [done..|].
        split_and!; [done..| |].
        { intros [_ Hn]%elem_of_difference. by apply Hn, elem_of_singleton. }
        eexists. split; [rewrite (Hre v); by rewrite decide_True|].
        rewrite make_pte_frame. destruct Haddr as (Ha1 & Ha2 & Ha3).
        rewrite page_of_spec by (unfold IDENTITY_LIMIT, PAGE_SIZE in *; lia).
        rewrite Ha3, Z.sub_0_r. by apply frame_of_frame.
      * destruct (Hmap w g Hwg) as (Hkw & Hg & Hgt & Hgl & e & He & Hfe).
        destruct (keeps_frames_used s s' g) as [? ?]; [done..|].
        split_and!; [done..| |].
        { intros [? _]%elem_of_difference. done. }
        exists e. split; [|done]. rewrite (Hre w), decide_False; [done|].
        intros He'. apply Hne. symmetry. by apply kpage_vpn_inj.
    + intros g [Hg _]%elem_of_difference. destruct (Hloose g Hg).
      by apply (keeps_frames_used s s').
    + intros w1 w2 g [[<- <-]|[Hne1 Hw1]]%lookup_insert_Some
        [[<- Hfg]|[Hne2 Hw2]]%lookup_insert_Some; [done|..].
      * by destruct (Hmap w2 f Hw2) as (_ & _ & _ & ? & _).
      * subst g. by destruct (Hmap w1 f Hw1) as (_ & _ & _ & ? & _).
      * by apply (Hinj w1 w2 g).
  - split; [done|..|done].
    + intros w g Hwg. destruct (Hmap w g Hwg) as (Hkw & Hg & Hgt & Hgl & e & He & Hfe).
      destruct (keeps_frames_used s s' g) as [? ?]; [done..|].
      split_and!; [done..|]. exists e. by rewrite Hsame.
    + intros g Hg. destruct (Hloose g Hg). by apply (keeps_frames_used s s').
Qed.

Lemma mapper_unmap s mp loose v f :
  mapper_inv s mp loose → kpage v → mp !! v = Some f →
  wp (vmm_unmap_page v) (λ r s', r = f ∧ mapper_inv s' (delete v mp) ({[f]} ∪ loose)) s.
Proof.
  intros [Hw Hmap Hloose Hinj] Hv Hvf.
  destruct (Hmap v f Hvf) as (_ & Hh & Hnt & Hnl & e & He & Hfe).
  eapply wp_mono; [apply vmm_unmap_page_wp; [done|by apply kpage_bounds]|].
  intros r s' (Hw' & Hfr & Htb & Hm). rewrite He in Hm. destruct Hm as [-> Hre].
  split; [done|]. split; [done|..]; rewrite ?Hfr.
  - intros w g [Hne Hwg]%lookup_delete_Some.
    destruct (Hmap w g Hwg) as (Hkw & Hg & Hgt & Hgl & e' & He' & Hfe').
    split_and!; [done|done|by rewrite Htb| |].
    + rewrite elem_of_union, elem_of_singleton. intros [->|?]; [|done].
      apply Hne. by apply (Hinj v w f).
    + exists e'. split; [|done]. rewrite (Hre w), decide_False; [done|].
      intros Hvw. apply Hne. symmetry. by apply kpage_vpn_inj.
  - intros g [->%elem_of_singleton|Hg]%elem_of_union; rewrite Htb; auto.
  - intros w1 w2 g [_ Hd1]%lookup_delete_Some [_ Hd2]%lookup_delete_Some.
    by apply (Hinj w1 w2 g).
Qed.

#[export] Instance vmm_mapper_laws : PageMapperLaws (vm S).
Proof.
  split; [|exact mapper_alloc|exact mapper_free|exact mapper_map|exact mapper_unmap].
  intros s mp loose v f [Hw Hmap _ _] Hvf. destruct (Hmap v f Hvf) as (_ & Hh & _).
  destruct (fa_held_addr _ _ (vw_inv _ Hw) Hh). lia.
Qed.

End vmm.
