(* ===== verification/Slab.v ===== *)
(** * The kernel heap: model (mm/slab.h, mm/slab.c)

    A slab allocator on pages mapped one after the other from KHEAP_START.  The
    memory it writes is kept by kind: cache descriptors, slab descriptors and
    the link stored at the start of each free object, each a map from virtual
    addresses; the contents of objects in use belong to their users and are not
    modelled, so kzalloc and SLAB_ZERO, which only clear them, are kmalloc and no
    flag here.  Unmapping a range removes what the maps hold there, and reading
    a descriptor or a link that is not there faults.  [panic] does not return
    and is a fault too.  Frames and mappings come from PageMap.v. *)

From stdpp Require Import strings.
From S2P Require Import Prelude Vmm PageMap.

(** ** Constants and data (slab.h) *)

Definition SLAB_MIN_SIZE : Z := 16.
Definition SLAB_MAX_SIZE : Z := 4096.
Definition KMALLOC_MAX_CACHE : Z := 12.
Definition SLAB_PANIC : Z := Z.shiftl 1 1.
Definition SLAB_ZERO : Z := Z.shiftl 1 2.

Record slab := Slab {
  sl_next : option Z;
  sl_prev : option Z;
  sl_cache : Z;
  sl_free : option Z;
  sl_in_use : Z;
  sl_total : Z;
  sl_objects : Z }.

Record kmem_cache := KmemCache {
  kc_name : string;
  kc_obj_size : Z;
  kc_align : Z;
  kc_slab_size : Z;
  kc_objs_per_slab : Z;
  kc_flags : Z;
  kc_full : option Z;
  kc_partial : option Z;
  kc_empty : option Z;
  kc_alloc_count : Z;
  kc_free_count : Z;
  kc_slab_count : Z;
  kc_next : option Z }.

Definition sizeof_slab_t : Z := 48.

(** ** Constants and globals (slab.c) *)

Definition KHEAP_START : Z := 0xFFFFFFFF88000000.
Definition KHEAP_END : Z := 0xFFFFFFFFC0000000.

Definition kmalloc_sizes : list Z :=
  [16; 32; 64; 128; 256; 512; 1024; 2048; 4096; 8192; 16384; 32768].

Definition kmalloc_names : list string :=
  ["kmalloc-16"; "kmalloc-32"; "kmalloc-64"; "kmalloc-128";
   "kmalloc-256"; "kmalloc-512"; "kmalloc-1024"; "kmalloc-2048";
   "kmalloc-4096"; "kmalloc-8192"; "kmalloc-16384"; "kmalloc-32768"]%string.

(** ** Field updates *)

Definition set_links (n p : option Z) (s : slab) : slab :=
  Slab n p (sl_cache s) (sl_free s) (sl_in_use s) (sl_total s) (sl_objects s).
Definition set_sl_next (n : option Z) (s : slab) : slab := set_links n (sl_prev s) s.
Definition set_sl_prev (p : option Z) (s : slab) : slab := set_links (sl_next s) p s.
Definition set_sl_use (f : option Z) (u : Z) (s : slab) : slab :=
  Slab (sl_next s) (sl_prev s) (sl_cache s) f u (sl_total s) (sl_objects s).

(** The three lists of a cache. *)
Inductive slab_list := Full | Partial | Empty.

Definition get_list (w : slab_list) (k : kmem_cache) : option Z :=
  match w with Full => kc_full k | Partial => kc_partial k | Empty => kc_empty k end.

Definition set_list (w : slab_list) (h : option Z) (k : kmem_cache) : kmem_cache :=
  let pick w' old := match w, w' with
                     | Full, Full | Partial, Partial | Empty, Empty => h
                     | _, _ => old
                     end in
  KmemCache (kc_name k) (kc_obj_size k) (kc_align k) (kc_slab_size k) (kc_objs_per_slab k)
    (kc_flags k) (pick Full (kc_full k)) (pick Partial (kc_partial k)) (pick Empty (kc_empty k))
    (kc_alloc_count k) (kc_free_count k) (kc_slab_count k) (kc_next k).

Definition set_counts (a f n : Z) (k : kmem_cache) : kmem_cache :=
  KmemCache (kc_name k) (kc_obj_size k) (kc_align k) (kc_slab_size k) (kc_objs_per_slab k)
    (kc_flags k) (kc_full k) (kc_partial k) (kc_empty k) a f n (kc_next k).

Definition set_kc_next (n : option Z) (k : kmem_cache) : kmem_cache :=
  KmemCache (kc_name k) (kc_obj_size k) (kc_align k) (kc_slab_size k) (kc_objs_per_slab k)
    (kc_flags k) (kc_full k) (kc_partial k) (kc_empty k)
    (kc_alloc_count k) (kc_free_count k) (kc_slab_count k) n.

(** ** State *)

Section slab.
Context {S : Type} `{PageMapper S}.

Record heap := Heap {
  h_pm : S;
  heap_current : Z;
  cache_list : option Z;
  h_caches : gmap Z kmem_cache;
  h_slabs : gmap Z slab;
  h_objs : gmap Z (option Z);
  kmalloc_caches : list (option Z) }.

Definition set_pm (p : S) (s : heap) : heap :=
  Heap p (heap_current s) (cache_list s) (h_caches s) (h_slabs s) (h_objs s) (kmalloc_caches s).
Definition set_current (v : Z) (s : heap) : heap :=
  Heap (h_pm s) v (cache_list s) (h_caches s) (h_slabs s) (h_objs s) (kmalloc_caches s).
Definition set_cache_list (l : option Z) (s : heap) : heap :=
  Heap (h_pm s) (heap_current s) l (h_caches s) (h_slabs s) (h_objs s) (kmalloc_caches s).
Definition set_caches (m : gmap Z kmem_cache) (s : heap) : heap :=
  Heap (h_pm s) (heap_current s) (cache_list s) m (h_slabs s) (h_objs s) (kmalloc_caches s).
Definition set_slabs (m : gmap Z slab) (s : heap) : heap :=
  Heap (h_pm s) (heap_current s) (cache_list s) (h_caches s) m (h_objs s) (kmalloc_caches s).
Definition set_objs (m : gmap Z (option Z)) (s : heap) : heap :=
  Heap (h_pm s) (heap_current s) (cache_list s) (h_caches s) (h_slabs s) m (kmalloc_caches s).
Definition set_kmalloc (l : list (option Z)) (s : heap) : heap :=
  Heap (h_pm s) (heap_current s) (cache_list s) (h_caches s) (h_slabs s) (h_objs s) l.

Abbreviation HM := (M heap).

Definition on_pm {A} (c : M S A) : HM A := λ s,
  match c (h_pm s) with
  | Some (a, p) => Some (a, set_pm p s)
  | None => None
  end.

Definition rd_cache (c : Z) : HM kmem_cache := s ← get; lift (h_caches s !! c).
Definition rd_slab (a : Z) : HM slab := s ← get; lift (h_slabs s !! a).
Definition rd_obj (o : Z) : HM (option Z) := s ← get; lift (h_objs s !! o).

Definition wr_cache (c : Z) (k : kmem_cache) : HM unit :=
  modify (λ s, set_caches (<[c := k]> (h_caches s)) s).
Definition wr_slab (a : Z) (sl : slab) : HM unit :=
  modify (λ s, set_slabs (<[a := sl]> (h_slabs s)) s).
Definition wr_obj (o : Z) (n : option Z) : HM unit :=
  modify (λ s, set_objs (<[o := n]> (h_objs s)) s).

Definition upd_cache (c : Z) (f : kmem_cache → kmem_cache) : HM unit :=
  k ← rd_cache c; wr_cache c (f k).
Definition upd_slab (a : Z) (f : slab → slab) : HM unit :=
  sl ← rd_slab a; wr_slab a (f sl).

(** ** Heap pages *)

(** Give back the first [i] pages mapped at [virt]. *)
Definition heap_undo (virt i : Z) : HM unit :=
  for_ 0 i (λ j,
    p ← on_pm (pm_unmap_page (virt +u64 (j *u64 PAGE_SIZE)));
    if negb (p =? 0) then on_pm (pm_free_page p) else mret tt).

(** The loop of heap_alloc_pages: [true] when all pages are mapped. *)
Fixpoint heap_map_from (n : nat) (i virt : Z) : HM bool :=
  match n with
  | O => mret true
  | Datatypes.S n' =>
      phys ← on_pm pm_alloc_page;
      if phys =? 0 then heap_undo virt i ;; mret false
      else
        r ← on_pm (pm_map_page (virt +u64 (i *u64 PAGE_SIZE)) phys PTE_KERNEL_RW);
        if negb (r =? 0) then on_pm (pm_free_page phys) ;; heap_undo virt i ;; mret false
        else heap_map_from n' (i + 1) virt
  end.

Definition heap_alloc_pages (count : Z) : HM (option Z) :=
  s ← get;
  if KHEAP_END <? heap_current s +u64 (count *u64 PAGE_SIZE) then mret None
  else
    let virt := heap_current s in
    ok ← heap_map_from (Z.to_nat count) 0 virt;
    if (ok : bool) then
      modify (λ s, set_current (heap_current s +u64 (count *u64 PAGE_SIZE)) s) ;;
      mret (Some virt)
    else mret None.

(** What the maps hold in a range that is unmapped is gone. *)
Definition outside (a b : Z) {A} (x : Z * A) : Prop := x.1 < a ∨ b ≤ x.1.
#[export] Instance outside_dec a b {A} (x : Z * A) : Decision (outside a b x).
Proof. unfold outside. apply _. Defined.

Definition drop_range (a b : Z) (s : heap) : heap :=
  Heap (h_pm s) (heap_current s) (cache_list s) (filter (outside a b) (h_caches s))
    (filter (outside a b) (h_slabs s)) (filter (outside a b) (h_objs s)) (kmalloc_caches s).

Definition heap_free_pages (ptr count : Z) : HM unit :=
  for_ 0 count (λ i,
    phys ← on_pm (pm_unmap_page (ptr +u64 (i *u64 PAGE_SIZE)));
    if negb (phys =? 0) then on_pm (pm_free_page phys) else mret tt) ;;
  modify (drop_range ptr (ptr + count * PAGE_SIZE)).

(** ** Caches *)

Definition calc_objs_per_slab (obj_size slab_pages : Z) : Z :=
  let slab_size := slab_pages *u64 PAGE_SIZE in
  let usable := slab_size -u64 sizeof_slab_t in
  wrap32 (usable / obj_size).

(** [while (objs_per_slab < 2 && slab_size < 16)]: the slab size doubles. *)
Fixpoint grow_slab (fuel : nat) (size slab_size : Z) : Z :=
  match fuel with
  | O => slab_size
  | Datatypes.S fuel' =>
      if (calc_objs_per_slab size slab_size <? 2) && (slab_size <? 16)
      then grow_slab fuel' size (slab_size * 2) else slab_size
  end.

Definition cache_align (size align : Z) : Z :=
  if align =? 0 then
    if (8 <? size) && (size <=? 16) then 16 else if 16 <? size then 16 else 8
  else align.

Definition initial_slab_size (size : Z) : Z :=
  if size <=? 256 then 1 else if size <=? 1024 then 2 else 4.

(** The descriptor kmem_cache_create fills in. *)
Definition new_cache (name : string) (size0 align0 flags : Z) (next : option Z) : kmem_cache :=
  let size1 := if size0 <? SLAB_MIN_SIZE then SLAB_MIN_SIZE else size0 in
  let align := cache_align size1 align0 in
  let size := ALIGN_UP size1 align in
  let slab_size := grow_slab 5 size (initial_slab_size size) in
  KmemCache name size align slab_size (calc_objs_per_slab size slab_size)
    flags None None None 0 0 0 next.

Definition kmem_cache_create (name : string) (size align flags : Z) : HM (option Z) :=
  c ← heap_alloc_pages 1;
  match c with
  | None => mret None
  | Some cache =>
      s ← get;
      wr_cache cache (new_cache name size align flags (cache_list s)) ;;
      modify (set_cache_list (Some cache)) ;;
      mret (Some cache)
  end.

(** ** Slabs *)

(** Chain the objects [i .. i + n - 1] of a slab onto its free list. *)
Fixpoint chain_objs (n : nat) (slab_addr obj obj_size : Z) : HM unit :=
  match n with
  | O => mret tt
  | Datatypes.S n' =>
      sl ← rd_slab slab_addr;
      wr_obj obj (sl_free sl) ;;
      wr_slab slab_addr (set_sl_use (Some obj) (sl_in_use sl) sl) ;;
      chain_objs n' slab_addr (obj +u64 obj_size) obj_size
  end.

Definition slab_create (cache : Z) : HM (option Z) :=
  k ← rd_cache cache;
  m ← heap_alloc_pages (kc_slab_size k);
  match m with
  | None => mret None
  | Some mem =>
      let obj_start := ALIGN_UP (mem +u64 sizeof_slab_t) (kc_align k) in
      wr_slab mem (Slab None None cache None 0 (kc_objs_per_slab k) obj_start) ;;
      chain_objs (Z.to_nat (kc_objs_per_slab k)) mem obj_start (kc_obj_size k) ;;
      upd_cache cache (λ k, set_counts (kc_alloc_count k) (kc_free_count k)
                              (kc_slab_count k +u64 1) k) ;;
      mret (Some mem)
  end.

Definition slab_destroy (cache slab_addr : Z) : HM unit :=
  k ← rd_cache cache;
  heap_free_pages slab_addr (kc_slab_size k) ;;
  upd_cache cache (λ k, set_counts (kc_alloc_count k) (kc_free_count k)
                          (kc_slab_count k -u64 1) k).

Definition slab_list_add (cache : Z) (w : slab_list) (slab_addr : Z) : HM unit :=
  upd_slab slab_addr (set_sl_prev None) ;;
  k ← rd_cache cache;
  upd_slab slab_addr (set_sl_next (get_list w k)) ;;
  match get_list w k with
  | Some h => upd_slab h (set_sl_prev (Some slab_addr))
  | None => mret tt
  end ;;
  upd_cache cache (set_list w (Some slab_addr)).

Definition slab_list_remove (cache : Z) (w : slab_list) (slab_addr : Z) : HM unit :=
  sl ← rd_slab slab_addr;
  match sl_prev sl with
  | Some p => upd_slab p (set_sl_next (sl_next sl))
  | None => upd_cache cache (set_list w (sl_next sl))
  end ;;
  sl ← rd_slab slab_addr;
  match sl_next sl with
  | Some n => upd_slab n (set_sl_prev (sl_prev sl))
  | None => mret tt
  end ;;
  upd_slab slab_addr (set_links None None).

Definition slab_alloc_obj (slab_addr : Z) : HM (option Z) :=
  sl ← rd_slab slab_addr;
  match sl_free sl with
  | None => mret None
  | Some obj =>
      n ← rd_obj obj;
      wr_slab slab_addr (set_sl_use n (sl_in_use sl +u32 1) sl) ;;
      mret (Some obj)
  end.

Definition slab_free_obj (slab_addr obj : Z) : HM unit :=
  sl ← rd_slab slab_addr;
  wr_obj obj (sl_free sl) ;;
  wr_slab slab_addr (set_sl_use (Some obj) (sl_in_use sl -u32 1) sl).

(** ** Allocation from a cache *)

(** Walk one list for the slab whose pages hold [addr]; a list has no more
    slabs than there are. *)
Fixpoint find_in_list (fuel : nat) (slab_size addr : Z) (p : option Z) : HM (option Z) :=
  match p with
  | None => mret None
  | Some a =>
      match fuel with
      | O => fault
      | Datatypes.S fuel' =>
          sl ← rd_slab a;
          if (a <=? addr) && (addr <? a +u64 (slab_size *u64 PAGE_SIZE)) then mret (Some a)
          else find_in_list fuel' slab_size addr (sl_next sl)
      end
  end.

Definition find_slab_for_obj (cache obj : Z) : HM (option Z) :=
  k ← rd_cache cache;
  s ← get;
  let fuel := size (h_slabs s) in
  r ← find_in_list fuel (kc_slab_size k) obj (kc_partial k);
  match r with
  | Some a => mret (Some a)
  | None => find_in_list fuel (kc_slab_size k) obj (kc_full k)
  end.

(** Put a slab that was just used on the list it belongs to. *)
Definition slab_file (cache slab_addr : Z) : HM unit :=
  sl ← rd_slab slab_addr;
  if sl_in_use sl =? sl_total sl then slab_list_add cache Full slab_addr
  else slab_list_add cache Partial slab_addr.

Definition count_alloc (cache : Z) : HM unit :=
  upd_cache cache (λ k, set_counts (kc_alloc_count k +u64 1) (kc_free_count k)
                          (kc_slab_count k) k).

Definition kmem_cache_alloc (cache0 : option Z) : HM (option Z) :=
  match cache0 with
  | None => mret None
  | Some cache =>
      k ← rd_cache cache;
      match kc_partial k with
      | Some slab_addr =>
          obj ← slab_alloc_obj slab_addr;
          sl ← rd_slab slab_addr;
          (if sl_in_use sl =? sl_total sl then
             slab_list_remove cache Partial slab_addr ;;
             slab_list_add cache Full slab_addr
           else mret tt) ;;
          count_alloc cache ;;
          mret obj
      | None =>
          match kc_empty k with
          | Some slab_addr =>
              slab_list_remove cache Empty slab_addr ;;
              obj ← slab_alloc_obj slab_addr;
              slab_file cache slab_addr ;;
              count_alloc cache ;;
              mret obj
          | None =>
              r ← slab_create cache;
              match r with
              | None => if has (kc_flags k) SLAB_PANIC then fault else mret None
              | Some slab_addr =>
                  obj ← slab_alloc_obj slab_addr;
                  slab_file cache slab_addr ;;
                  count_alloc cache ;;
                  mret obj
              end
          end
      end
  end.

Definition kmem_cache_free (cache0 obj0 : option Z) : HM unit :=
  match cache0, obj0 with
  | Some cache, Some obj =>
      r ← find_slab_for_obj cache obj;
      match r with
      | None => mret tt
      | Some slab_addr =>
          sl ← rd_slab slab_addr;
          let was_full := sl_in_use sl =? sl_total sl in
          slab_free_obj slab_addr obj ;;
          upd_cache cache (λ k, set_counts (kc_alloc_count k) (kc_free_count k +u64 1)
                                  (kc_slab_count k) k) ;;
          if was_full then
            slab_list_remove cache Full slab_addr ;;
            slab_list_add cache Partial slab_addr
          else
            sl ← rd_slab slab_addr;
            if sl_in_use sl =? 0 then
              slab_list_remove cache Partial slab_addr ;;
              k ← rd_cache cache;
              match kc_empty k with
              | None => slab_list_add cache Empty slab_addr
              | Some _ => slab_destroy cache slab_addr
              end
            else mret tt
      end
  | _, _ => mret tt
  end.

(** Destroy every slab of a list. *)
Fixpoint destroy_list (fuel : nat) (cache : Z) (p : option Z) : HM unit :=
  match p with
  | None => mret tt
  | Some a =>
      match fuel with
      | O => fault
      | Datatypes.S fuel' =>
          sl ← rd_slab a;
          slab_destroy cache a ;;
          destroy_list fuel' cache (sl_next sl)
      end
  end.

(** The search of kmem_cache_destroy for the cache before [cache]. *)
Fixpoint unlink_cache (fuel : nat) (cache : Z) (next : option Z) (p : option Z) : HM unit :=
  match p with
  | None => mret tt
  | Some c =>
      match fuel with
      | O => fault
      | Datatypes.S fuel' =>
          k ← rd_cache c;
          if decide (kc_next k = Some cache) then upd_cache c (set_kc_next next)
          else unlink_cache fuel' cache next (kc_next k)
      end
  end.

Definition kmem_cache_destroy (cache0 : option Z) : HM unit :=
  match cache0 with
  | None => mret tt
  | Some cache =>
      s ← get;
      let fuel := size (h_slabs s) in
      k ← rd_cache cache; destroy_list fuel cache (kc_full k) ;;
      k ← rd_cache cache; destroy_list fuel cache (kc_partial k) ;;
      k ← rd_cache cache; destroy_list fuel cache (kc_empty k) ;;
      s ← get;
      k ← rd_cache cache;
      (if decide (cache_list s = Some cache) then modify (set_cache_list (kc_next k))
       else unlink_cache (size (h_caches s)) cache (kc_next k) (cache_list s)) ;;
      heap_free_pages cache 1
  end.

(** ** kmalloc *)

Fixpoint find_kmalloc_from (sizes : list Z) (i size : Z) : Z :=
  match sizes with
  | [] => -1
  | n :: sizes' => if size <=? n then i else find_kmalloc_from sizes' (i + 1) size
  end.

Definition find_kmalloc_cache (size : Z) : Z := find_kmalloc_from kmalloc_sizes 0 size.

Definition kmalloc (size : Z) : HM (option Z) :=
  if size =? 0 then mret None
  else if SLAB_MAX_SIZE <? size then
    heap_alloc_pages (((size +u64 PAGE_SIZE) -u64 1) / PAGE_SIZE)
  else
    let idx := find_kmalloc_cache size in
    if idx <? 0 then mret None
    else
      s ← get;
      c ← lift (aget (kmalloc_caches s) idx);
      kmem_cache_alloc c.

(** The kmalloc cache and slab that hold [addr]. *)
Fixpoint find_owner (cs : list (option Z)) (addr : Z) : HM (option Z) :=
  match cs with
  | [] => mret None
  | None :: cs' => find_owner cs' addr
  | Some c :: cs' =>
      r ← find_slab_for_obj c addr;
      match r with
      | Some _ => mret (Some c)
      | None => find_owner cs' addr
      end
  end.

Definition kfree (ptr0 : option Z) : HM unit :=
  match ptr0 with
  | None => mret tt
  | Some ptr =>
      s ← get;
      if (ptr <? KHEAP_START) || (heap_current s <=? ptr) then mret tt
      else
        r ← find_owner (kmalloc_caches s) ptr;
        match r with
        | Some c => kmem_cache_free (Some c) (Some ptr)
        | None => mret tt
        end
  end.

Definition ksize (ptr0 : option Z) : HM Z :=
  match ptr0 with
  | None => mret 0
  | Some ptr =>
      s ← get;
      if (ptr <? KHEAP_START) || (heap_current s <=? ptr) then mret 0
      else
        r ← find_owner (kmalloc_caches s) ptr;
        match r with
        | Some c => k ← rd_cache c; mret (kc_obj_size k)
        | None => mret 0
        end
  end.

(** One turn of the loop of slab_init. *)
Definition init_kmalloc_cache (i : Z) : HM unit :=
  name ← lift (aget kmalloc_names i);
  size ← lift (aget kmalloc_sizes i);
  c ← kmem_cache_create name size 0 0;
  modify (λ s, set_kmalloc (aset (kmalloc_caches s) i c) s) ;;
  match c with
  | None => fault
  | Some _ => mret tt
  end.

Definition slab_init : HM unit :=
  modify (set_current KHEAP_START) ;;
  for_ 0 KMALLOC_MAX_CACHE init_kmalloc_cache.

End slab.

Arguments heap : clear implicits.
