(* ===== verification/SlabInv.v ===== *)
(** * The kernel heap: its pages (mm/slab.c)

    heap_alloc_pages hands out runs of pages one after the other from
    KHEAP_START and heap_free_pages unmaps one; [pages_ok] is their invariant,
    with the runs in use as a map from first addresses to numbers of pages. *)

From stdpp Require Import functions.
From S2P Require Import Prelude DList Vmm PageMap Slab.

Lemma kheap_kpage v : KHEAP_START ≤ v < KHEAP_END → v mod PAGE_SIZE = 0 → kpage v.
Proof. unfold KHEAP_START, KHEAP_END, kpage. intros ??. split; [lia|done]. Qed.

Section pages.
Context {S : Type} `{PageMapperLaws S}.
Implicit Types (s : heap S) (mp : gmap Z Z) (R : gmap Z Z) (v a b n : Z).

(** The aligned address [v] is one of the [n] pages from [a]. *)
Definition page_in a n v : Prop := v mod PAGE_SIZE = 0 ∧ a ≤ v < a + n * PAGE_SIZE.

Record pages_ok s R : Prop := PagesOk {
  po_current : KHEAP_START ≤ heap_current s ≤ KHEAP_END ∧ heap_current s mod PAGE_SIZE = 0;
  po_region : ∀ a n, R !! a = Some n →
    0 < n ∧ KHEAP_START ≤ a ∧ a mod PAGE_SIZE = 0 ∧ a + n * PAGE_SIZE ≤ heap_current s;
  po_disjoint : ∀ a n b k, R !! a = Some n → R !! b = Some k → a ≠ b →
    a + n * PAGE_SIZE ≤ b ∨ b + k * PAGE_SIZE ≤ a;
  po_mapped : ∃ mp, pm_inv (h_pm s) mp ∅ ∧
    ∀ v, is_Some (mp !! v) ↔ ∃ a n, R !! a = Some n ∧ page_in a n v }.

(** ** Mapping and unmapping a run *)

Lemma on_pm_wp {A} (c : M S A) (Q : A → heap S → Prop) s :
  wp c (λ x p, Q x (set_pm p s)) (h_pm s) → wp (on_pm c) Q s.
Proof. unfold wp, on_pm. by destruct (c (h_pm s)) as [[x p]|]. Qed.

(** Page [j] of the run at [virt], which lies in the heap. *)
Definition run_in_heap virt n : Prop :=
  KHEAP_START ≤ virt ∧ virt mod PAGE_SIZE = 0 ∧ 0 ≤ n ∧ virt + n * PAGE_SIZE ≤ KHEAP_END.

Lemma run_addr virt n j :
  run_in_heap virt n → 0 ≤ j < n →
  virt +u64 (j *u64 PAGE_SIZE) = virt + j * PAGE_SIZE ∧ kpage (virt + j * PAGE_SIZE) ∧
  page_in virt n (virt + j * PAGE_SIZE).
Proof.
  intros (Hv & Hm & Hn & He) Hj.
  assert ((virt + j * PAGE_SIZE) mod PAGE_SIZE = 0) as Hm'.
  { rewrite Z.mod_add; [done|]. unfold PAGE_SIZE. lia. }
  unfold page_in. split_and!; [|apply kheap_kpage; [|done]|done|..];
    unfold KHEAP_START, KHEAP_END, PAGE_SIZE in *; [|lia..].
  rewrite (wrap_small 64 (j * _)), wrap_small by lia. done.
Qed.

#[export] Instance page_in_dec a n v : Decision (page_in a n v).
Proof. unfold page_in. apply _. Defined.

(** Exactly the pages [i .. j - 1] of the run are mapped besides those of [mp0]. *)
Definition mapped_between mp0 mp virt i j : Prop :=
  (∀ v, page_in (virt + i * PAGE_SIZE) (j - i) v → is_Some (mp !! v)) ∧
  (∀ v, ¬ page_in (virt + i * PAGE_SIZE) (j - i) v → mp !! v = mp0 !! v).

Lemma page_in_head virt i j v :
  i < j → virt mod PAGE_SIZE = 0 →
  page_in (virt + i * PAGE_SIZE) (j - i) v ↔
  v = virt + i * PAGE_SIZE ∨ page_in (virt + (i + 1) * PAGE_SIZE) (j - (i + 1)) v.
Proof.
  unfold page_in, PAGE_SIZE. intros Hij Hm. split.
  - intros [Hv Hb]. Z.to_euclidean_division_equations. lia.
  - intros [->|[Hv Hb]]; [|split; lia]. split; [|lia]. by rewrite Z.mod_add.
Qed.

Lemma page_in_last virt i v :
  0 ≤ i → virt mod PAGE_SIZE = 0 →
  page_in virt (i + 1) v ↔ v = virt + i * PAGE_SIZE ∨ page_in virt i v.
Proof.
  unfold page_in, PAGE_SIZE. intros Hi Hm. split.
  - intros [Hv Hb]. Z.to_euclidean_division_equations. lia.
  - intros [->|[Hv Hb]]; [|split; lia]. split; [|lia]. by rewrite Z.mod_add.
Qed.

Lemma unmap_free_wp s mp v f (Q : unit → heap S → Prop) :
  pm_inv (h_pm s) mp ∅ → kpage v → mp !! v = Some f →
  (∀ p, pm_inv p (delete v mp) ∅ → Q tt (set_pm p s)) →
  wp (p ← on_pm (pm_unmap_page v);
      if negb (p =? 0) then on_pm (pm_free_page p) else mret tt) Q s.
Proof.
  intros Hinv Hv Hf HQ. apply wp_bind, on_pm_wp.
  eapply wp_mono; [by eapply pm_unmap_law|]. intros r p [-> Hinv'].
  pose proof (pm_frame _ _ _ _ _ Hinv Hf) as Hf0.
  rewrite (proj2 (Z.eqb_neq f 0)) by done. cbn [negb]. apply on_pm_wp.
  eapply wp_mono; [eapply pm_free_law; [exact Hinv'|set_solver]|].
  intros [] p' Hp'. replace (({[f]} ∪ ∅) ∖ {[f]}) with (∅ : gset Z) in Hp' by set_solver.
  by apply HQ.
Qed.

(** Unmapping the whole run gives the mappings of [mp0] back. *)
Lemma unmap_run_wp s mp0 mp virt n (Q : unit → heap S → Prop) :
  pm_inv (h_pm s) mp ∅ → run_in_heap virt n → mapped_between mp0 mp virt 0 n →
  (∀ v, page_in virt n v → mp0 !! v = None) →
  (∀ p, pm_inv p mp0 ∅ → Q tt (set_pm p s)) →
  wp (for_ 0 n (λ j,
    p ← on_pm (pm_unmap_page (virt +u64 (j *u64 PAGE_SIZE)));
    if negb (p =? 0) then on_pm (pm_free_page p) else mret tt)) Q s.
Proof.
  intros Hinv Hrun Hbt Hnone HQ. pose proof Hrun as (_ & Hm & Hn & _).
  apply (wp_for (λ j s', ∃ p mpj, s' = set_pm p s ∧ pm_inv p mpj ∅ ∧
    mapped_between mp0 mpj virt j n)).
  - exists (h_pm s), mp. by destruct s.
  - intros j s' Hj (p & mpj & -> & Hp & Hin & Hout).
    destruct (run_addr virt n j Hrun Hj) as (-> & Hk & Hpi).
    destruct (Hin (virt + j * PAGE_SIZE)) as [f Hf].
    { apply page_in_head; [lia|done|by left]. }
    apply (unmap_free_wp _ mpj _ f); [done..|]. intros p' Hp'.
    exists p', (delete (virt + j * PAGE_SIZE) mpj). split_and!; [done..|]. split.
    + intros v Hv. rewrite lookup_delete_ne.
      * apply Hin, page_in_head; [lia|done|by right].
      * intros <-. destruct Hv. unfold PAGE_SIZE in *. lia.
    + intros v Hv. destruct (decide (v = virt + j * PAGE_SIZE)) as [->|Hne].
      * rewrite lookup_delete_eq. symmetry. by apply Hnone.
      * rewrite lookup_delete_ne by done. apply Hout. rewrite page_in_head by (done || lia). tauto.
  - intros s' (p & mpj & -> & Hp & Hin & Hout). rewrite Z.max_r in * by lia. apply HQ.
    replace mp0 with mpj; [done|]. apply map_eq. intros v. apply Hout.
    unfold page_in, PAGE_SIZE. lia.
Qed.

Lemma heap_map_from_wp s mp0 mp virt count k i (Q : bool → heap S → Prop) :
  run_in_heap virt count → Z.of_nat k + i = count → 0 ≤ i →
  (∀ v, page_in virt count v → mp0 !! v = None) →
  pm_inv (h_pm s) mp ∅ → mapped_between mp0 mp virt 0 i →
  (∀ p mp', pm_inv p mp' ∅ → mapped_between mp0 mp' virt 0 count → Q true (set_pm p s)) →
  (∀ p, pm_inv p mp0 ∅ → Q false (set_pm p s)) →
  wp (heap_map_from k i virt) Q s.
Proof.
  intros Hrun. pose proof Hrun as (Hv0 & Hm & Hn & He).
  revert s mp i. induction k as [|k IH]; intros s mp i Hk Hi Hnone Hinv Hbt HT HF; simpl.
  { apply wp_ret. replace i with count in Hbt by lia. destruct s. by eapply HT. }
  assert (run_in_heap virt i) as Hruni.
  { unfold run_in_heap, PAGE_SIZE in *. split_and!; [done..|lia]. }
  assert (∀ v, page_in virt i v → mp0 !! v = None) as Hnonei.
  { intros v [? ?]. apply Hnone. unfold page_in, PAGE_SIZE in *. split; [done|lia]. }
  assert (∀ s' p, s' = set_pm p s → pm_inv p mp ∅ →
    wp (heap_undo virt i ;; mret false) Q s') as Hundo.
  { intros s' p -> Hp. apply wp_bind. apply (unmap_run_wp _ mp0 mp); [done..|].
    intros p' Hp'. apply wp_ret. by apply HF. }
  apply wp_bind, on_pm_wp. eapply wp_mono; [by apply pm_alloc_law|].
  intros r p [[-> Hp]|(Hr & Hrl & Hp)]; [by eapply Hundo|].
  rewrite (proj2 (Z.eqb_neq r 0)) by done.
  destruct (run_addr virt count i Hrun ltac:(lia)) as (-> & Hkp & Hpi).
  assert (mp !! (virt + i * PAGE_SIZE) = None) as Hvn.
  { destruct Hbt as [_ Hout]. rewrite Hout; [by apply Hnone|].
    unfold page_in, PAGE_SIZE in *. lia. }
  apply wp_bind, on_pm_wp. eapply wp_mono; [apply pm_map_law; [exact Hp|set_solver|done|done]|].
  intros q p' [[-> Hp']|[-> Hp']]; cbn [negb Z.eqb].
  - replace (({[r]} ∪ ∅) ∖ {[r]}) with (∅ : gset Z) in Hp' by set_solver.
    eapply IH; [lia|lia|done|exact Hp'| |done|done]. destruct Hbt as [Hin Hout].
    rewrite Z.sub_0_r, Z.mul_0_l, Z.add_0_r in *. split; rewrite Z.sub_0_r, Z.mul_0_l, Z.add_0_r.
    + intros v Hv. apply page_in_last in Hv as [->|Hv]; [by rewrite lookup_insert_eq|
        |lia|done]. rewrite lookup_insert_is_Some'. right. auto.
    + intros v Hv. rewrite page_in_last in Hv by (done || lia).
      rewrite lookup_insert_ne by (intros <-; tauto). apply Hout. tauto.
  - apply wp_bind, on_pm_wp. eapply wp_mono; [eapply pm_free_law; [exact Hp'|set_solver]|].
    intros [] p'' Hp''. replace (({[r]} ∪ ∅) ∖ {[r]}) with (∅ : gset Z) in Hp'' by set_solver.
    by eapply Hundo.
Qed.
(** ** heap_alloc_pages and heap_free_pages *)

(** A run that a single call may ask for: less than 1GB. *)
Definition run_size n : Prop := 0 < n < 2 ^ 18.

Lemma heap_alloc_pages_wp s R count (Q : option Z → heap S → Prop) :
  pages_ok s R → run_size count →
  (∀ p, pages_ok (set_pm p s) R → Q None (set_pm p s)) →
  (∀ p, let a := heap_current s in
     let s' := set_current (a + count * PAGE_SIZE) (set_pm p s) in
     R !! a = None → pages_ok s' (<[a := count]> R) → Q (Some a) s') →
  wp (heap_alloc_pages count) Q s.
Proof.
  intros [[Hcur Hcm] Hreg Hdis (mp & Hinv & Hmp)] Hc HN HS. unfold run_size in Hc.
  unfold heap_alloc_pages. apply wp_bind, wp_get.
  assert (heap_current s +u64 (count *u64 PAGE_SIZE) = heap_current s + count * PAGE_SIZE) as Hw.
  { unfold KHEAP_START, KHEAP_END, PAGE_SIZE in *.
    rewrite (wrap_small 64 (count * _)), wrap_small by lia. done. }
  rewrite Hw. destruct (Z.ltb_spec KHEAP_END (heap_current s + count * PAGE_SIZE)) as [Hlt|Hle].
  { apply wp_ret. specialize (HN (h_pm s)).
    assert (set_pm (h_pm s) s = s) as Hid by by destruct s.
    rewrite Hid in HN. apply HN. by split; [|..|exists mp]. }
  cbv zeta. apply wp_bind.
  apply (heap_map_from_wp s mp mp _ count _ 0).
  - unfold run_in_heap. split_and!; [lia|done|lia|done].
  - lia.
  - done.
  - intros v [_ Hv]. destruct (mp !! v) as [f|] eqn:Hf; [|done].
    destruct (proj1 (Hmp v) (mk_is_Some _ _ Hf)) as (a & n & Ha & _ & Hav).
    destruct (Hreg a n Ha) as (_ & _ & _ & ?). lia.
  - done.
  - split; [|done]. intros v [_ Hv]. unfold PAGE_SIZE in Hv. lia.
  - intros p mp' Hp [Hin Hout]. rewrite Z.sub_0_r, Z.mul_0_l, Z.add_0_r in *.
    assert (R !! heap_current s = None) as HRn.
    { destruct (R !! heap_current s) as [n|] eqn:HR; [|done].
      destruct (Hreg _ _ HR) as (? & _ & _ & ?). unfold PAGE_SIZE in *. lia. }
    apply wp_bind, wp_modify, wp_ret. change (heap_current (set_pm p s)) with (heap_current s).
    rewrite Hw. apply HS; [done|].
    split; cbn [heap_current set_current set_pm h_pm].
    + unfold PAGE_SIZE in *. split; [lia|]. by rewrite Z.mod_add.
    + intros a n [[<- <-]|[Hne Ha]]%lookup_insert_Some; [split_and!; [lia|lia|done|done]|].
      destruct (Hreg a n Ha) as (? & ? & ? & ?). unfold PAGE_SIZE in *. split_and!; [done..|lia].
    + intros a n b k [[<- <-]|[Hne Ha]]%lookup_insert_Some
        [[<- <-]|[Hne' Hb]]%lookup_insert_Some Hab; [done|..|by eapply Hdis].
      * right. by destruct (Hreg b k Hb) as (_ & _ & _ & ?).
      * left. by destruct (Hreg a n Ha) as (_ & _ & _ & ?).
    + exists mp'. split; [done|]. intros v. split.
      * intros Hv. destruct (decide (page_in (heap_current s) count v)) as [Hpi|Hpi].
        { exists (heap_current s), count. by rewrite lookup_insert_eq. }
        rewrite Hout in Hv by done. apply Hmp in Hv as (a & n & Ha & Hpa).
        exists a, n. split; [|done]. rewrite lookup_insert_ne; [done|congruence].
      * intros (a & n & [[<- <-]|[Hne Ha]]%lookup_insert_Some & Hpa); [by apply Hin|].
        assert (¬ page_in (heap_current s) count v) as Hn.
        { destruct (Hreg a n Ha) as (_ & _ & _ & ?), Hpa as [_ ?]. intros [_ ?]. lia. }
        rewrite Hout by done. apply Hmp. eauto.
  - intros p Hp. apply wp_ret, HN. split; [done..|]. by exists mp.
Qed.

Lemma heap_free_pages_wp s R a n (Q : unit → heap S → Prop) :
  pages_ok s R → R !! a = Some n →
  (∀ p, let s' := drop_range a (a + n * PAGE_SIZE) (set_pm p s) in
     pages_ok s' (delete a R) → Q tt s') →
  wp (heap_free_pages a n) Q s.
Proof.
  intros [[Hcur Hcm] Hreg Hdis (mp & Hinv & Hmp)] Ha HQ. unfold heap_free_pages.
  destruct (Hreg a n Ha) as (Hn & Hs & Hm & He). apply wp_bind.
  apply (unmap_run_wp s (filter (λ x, ¬ page_in a n x.1) mp) mp).
  - done.
  - unfold run_in_heap. split_and!; [done|done|lia|lia].
  - unfold mapped_between. rewrite Z.sub_0_r, Z.mul_0_l, Z.add_0_r. split.
    + intros v Hv. apply Hmp. eauto.
    + intros v Hv. destruct (mp !! v) as [f|] eqn:Hf; symmetry.
      * by apply map_lookup_filter_Some.
      * apply map_lookup_filter_None. by left.
  - intros v Hv. apply map_lookup_filter_None. right. intros f _ Hn'. by apply Hn'.
  - intros p Hp. apply wp_modify, HQ. split; [done|..].
    + intros b k [_ Hb]%lookup_delete_Some. by apply Hreg.
    + intros b k b' k' [_ Hb]%lookup_delete_Some [_ Hb']%lookup_delete_Some. by apply Hdis.
    + eexists. split; [exact Hp|]. intros v. split.
      * intros [f [Hf Hnv]%map_lookup_filter_Some].
        destruct (proj1 (Hmp v) (mk_is_Some _ _ Hf)) as (b & k & Hb & Hbv).
        exists b, k. split; [|done]. apply lookup_delete_Some. split; [|done].
        intros ->. simplify_eq. by apply Hnv.
      * intros (b & k & [Hne Hb]%lookup_delete_Some & Hbv).
        destruct (proj2 (Hmp v)) as [f Hf]; [eauto|]. exists f.
        apply map_lookup_filter_Some. split; [done|]. intros Hav. simpl in Hav.
        destruct (Hdis a n b k Ha Hb Hne) as [?|?], Hav as [_ ?], Hbv as [_ ?]; lia.
Qed.

End pages.

(** * The kernel heap: caches and slabs (mm/slab.c)

    The invariant of a slab cache: its three lists of slabs, the free list
    threaded through the objects of each slab, and the counts that decide which
    list a slab is on.  The lemmas say what the helpers of slab.c do to it. *)

#[export] Instance slab_list_eq_dec : EqDecision slab_list.
Proof. solve_decision. Defined.

(** ** Geometry of a slab *)

(** What stays the same in a cache descriptor. *)
Definition same_par (k k' : kmem_cache) : Prop :=
  kc_obj_size k' = kc_obj_size k ∧ kc_align k' = kc_align k ∧
  kc_slab_size k' = kc_slab_size k ∧ kc_objs_per_slab k' = kc_objs_per_slab k ∧
  kc_flags k' = kc_flags k.

Record params_ok (k : kmem_cache) : Prop := ParamsOk {
  pk_slab : 0 < kc_slab_size k < 2 ^ 18;
  pk_obj : 0 < kc_obj_size k;
  pk_align : ∃ j, 0 ≤ j ≤ 12 ∧ kc_align k = 2 ^ j;
  pk_round : kc_obj_size k mod kc_align k = 0;
  pk_total : 0 < kc_objs_per_slab k < 2 ^ 32;
  pk_fits : kc_objs_per_slab k * kc_obj_size k + sizeof_slab_t ≤ kc_slab_size k * PAGE_SIZE;
  pk_flags : has (kc_flags k) SLAB_PANIC = false }.

(** The first object of the slab at [a], and all of its objects. *)
Definition obj_base (k : kmem_cache) (a : Z) : Z := ALIGN_UP (a +u64 sizeof_slab_t) (kc_align k).

Definition is_obj (k : kmem_cache) (a o : Z) : Prop :=
  ∃ i, 0 ≤ i < kc_objs_per_slab k ∧ o = obj_base k a + i * kc_obj_size k.

Definition heap_addr (a n : Z) : Prop :=
  KHEAP_START ≤ a ∧ a mod PAGE_SIZE = 0 ∧ a + n * PAGE_SIZE ≤ KHEAP_END.

Lemma same_par_refl k : same_par k k.
Proof. done. Qed.

Lemma same_par_params k k' : same_par k k' → params_ok k → params_ok k'.
Proof. intros (E1 & E2 & E3 & E4 & E5) []. split; rewrite ?E1, ?E2, ?E3, ?E4, ?E5; done. Qed.

Lemma same_par_base k k' a : same_par k k' → obj_base k' a = obj_base k a.
Proof. intros (_ & E & _). unfold obj_base. by rewrite E. Qed.

Lemma same_par_obj k k' a o : same_par k k' → is_obj k' a o ↔ is_obj k a o.
Proof.
  intros Hs. unfold is_obj. rewrite (same_par_base _ _ _ Hs).
  destruct Hs as (-> & _ & _ & -> & _). done.
Qed.

(** Rounding the slab header up to the alignment of the objects. *)
Lemma obj_base_spec k a :
  params_ok k → heap_addr a (kc_slab_size k) →
  a + sizeof_slab_t ≤ obj_base k a ∧ obj_base k a mod kc_align k = 0 ∧
  obj_base k a + kc_objs_per_slab k * kc_obj_size k ≤ a + kc_slab_size k * PAGE_SIZE.
Proof.
  intros [Hsl Hob (j & Hj & Hal) Hrd Htot Hfit _] (Hs & Hm & He). unfold obj_base.
  unfold KHEAP_START, KHEAP_END, sizeof_slab_t, PAGE_SIZE in *.
  assert (0 < 2 ^ j ≤ 4096) as Hp.
  { split; [lia|]. change 4096 with (2 ^ 12). apply Z.pow_le_mono_r; lia. }
  rewrite (wrap_small 64) by lia. rewrite Hal, ALIGN_UP_spec by lia.
  assert (∃ q, 4096 = q * 2 ^ j) as [q Hq].
  { exists (2 ^ (12 - j)). rewrite <-Z.pow_add_r by lia. by replace (12 - j + j) with 12 by lia. }
  rewrite Hal in *. apply Z.mod_divide in Hm as [x Hx], Hrd as [y Hy]; [|lia..].
  set (A := 2 ^ j) in *. pose proof (Z.mod_pos_bound (a + 48 + (A - 1)) A ltac:(lia)) as Hb.
  pose proof (Z.div_mod (a + 48 + (A - 1)) A ltac:(lia)) as Hd.
  set (t := (a + 48 + (A - 1)) / A) in *. split_and!; [lia| |].
  - replace (a + 48 + (A - 1) - (a + 48 + (A - 1)) mod A) with (t * A) by lia.
    apply Z.mod_mul. lia.
  - replace (a + 48 + (A - 1) - (a + 48 + (A - 1)) mod A) with (t * A) by lia.
    rewrite Hy in Hfit |- *.
    assert (a = x * q * A) as Ha by (rewrite Hx, Hq; lia).
    assert (kc_slab_size k * 4096 = kc_slab_size k * q * A) as Hk by (rewrite Hq; lia).
    rewrite Hk, Ha in *.
    assert (t ≤ x * q + kc_slab_size k * q - kc_objs_per_slab k * y) as Ht by nia. nia.
Qed.

Lemma is_obj_bounds k a o :
  params_ok k → heap_addr a (kc_slab_size k) → is_obj k a o →
  a < o ∧ o + kc_obj_size k ≤ a + kc_slab_size k * PAGE_SIZE ∧ o mod kc_align k = 0.
Proof.
  intros Hk Ha (i & Hi & ->). pose proof (obj_base_spec k a Hk Ha) as (H1 & H2 & H3).
  destruct Hk as [_ Hob (j & Hj & Hal) Hrd _ _ _]. unfold sizeof_slab_t in *.
  split_and!; [nia|nia|]. rewrite Z.add_mod, H2, Z.mul_mod, Hrd by lia.
  by rewrite Z.mul_0_r, Z.mod_0_l by lia.
Qed.

(** Two objects of a slab do not overlap. *)
Lemma is_obj_apart k a o o' :
  params_ok k → is_obj k a o → is_obj k a o' → o ≠ o' →
  o + kc_obj_size k ≤ o' ∨ o' + kc_obj_size k ≤ o.
Proof.
  intros [_ Hob _ _ _ _ _] (i & _ & ->) (j & _ & ->) Hne.
  assert (i ≠ j) by (by intros ->). assert (i + 1 ≤ j ∨ j + 1 ≤ i) as [?|?] by lia; [left|right]; nia.
Qed.

(** ** Free lists *)

Fixpoint flist (m : gmap Z (option Z)) (p : option Z) (L : list Z) : Prop :=
  match L with
  | [] => p = None
  | x :: L' => p = Some x ∧ ∃ n, m !! x = Some n ∧ flist m n L'
  end.

Lemma flist_ext m m' p L :
  (∀ x, x ∈ L → m' !! x = m !! x) → flist m p L → flist m' p L.
Proof.
  revert p. induction L as [|x L IH]; intros p Heq; [done|].
  intros (-> & n & Hn & HL). split; [done|]. exists n. split.
  - rewrite Heq; [done|left].
  - apply IH; [|done]. intros y Hy. apply Heq. by right.
Qed.

Lemma flist_det m p L L' : flist m p L → flist m p L' → L = L'.
Proof.
  revert p L'. induction L as [|x L IH]; intros p [|y L']; simpl.
  - done.
  - by intros -> [? _].
  - by intros [-> _] ?.
  - intros (-> & n & Hn & HL) ([= <-] & n' & Hn' & HL'). f_equal. simplify_eq. by eapply IH.
Qed.

Lemma flist_head m p L : flist m p L → p = head L.
Proof. destruct L; simpl; [done|]. by intros [-> _]. Qed.

Section inv.
Context {S : Type} `{PageMapperLaws S}.
Implicit Types (s : heap S) (R : gmap Z Z) (a b c o : Z) (k : kmem_cache) (L : list Z).

(** ** The invariant of a cache *)

(** The slab at [a] belongs to the cache [c] and [L] is its free list. *)
Record slab_st s c k a L : Prop := SlabSt {
  ss_desc : ∃ sl, h_slabs s !! a = Some sl ∧ sl_cache sl = c ∧
    sl_total sl = kc_objs_per_slab k ∧ sl_objects sl = obj_base k a ∧
    flist (h_objs s) (sl_free sl) L ∧
    sl_in_use sl = kc_objs_per_slab k - Z.of_nat (length L);
  ss_nodup : NoDup L;
  ss_objs : ∀ o, o ∈ L → is_obj k a o;
  ss_len : Z.of_nat (length L) ≤ kc_objs_per_slab k }.

Definition has_slab s c a : Prop := ∃ sl, h_slabs s !! a = Some sl ∧ sl_cache sl = c.

(** Every slab of [c] is in order and is a run of heap pages. *)
Definition core_inv s R c k : Prop :=
  ∀ a, has_slab s c a → R !! a = Some (kc_slab_size k) ∧ ∃ L, slab_st s c k a L.

Definition slinks s : links := λ a, (λ sl, (sl_prev sl, sl_next sl)) <$> h_slabs s !! a.

(** The three lists of a cache. *)
Record lists_inv s c k (ls : slab_list → list Z) : Prop := ListsInv {
  li_head : ∀ w, get_list w k = head (ls w);
  li_dlist : ∀ w, dlist (slinks s) (ls w);
  li_nodup : ∀ w, NoDup (ls w);
  li_disj : ∀ w w' a, a ∈ ls w → a ∈ ls w' → w = w' }.

Definition on_lists (ls : slab_list → list Z) a : Prop := ∃ w, a ∈ ls w.

(** The list a slab with free list [L] belongs on. *)
Definition class (w : slab_list) k L : Prop :=
  match w with
  | Full => L = []
  | Partial => L ≠ []
  | Empty => Z.of_nat (length L) = kc_objs_per_slab k
  end.

(** Every listed slab but [x] is on the right list. *)
Definition class_ok s c k (ls : slab_list → list Z) (x : Z → Prop) : Prop :=
  ∀ w a L, a ∈ ls w → ¬ x a → slab_st s c k a L → class w k L.

Record cache_inv s R c k (ls : slab_list → list Z) : Prop := CacheInv {
  ci_cache : h_caches s !! c = Some k;
  ci_par : params_ok k;
  ci_core : core_inv s R c k;
  ci_lists : lists_inv s c k ls;
  ci_cover : ∀ a, has_slab s c a ↔ on_lists ls a;
  ci_class : class_ok s c k ls (λ _, False) }.

Lemma slab_st_det s c k a L L' : slab_st s c k a L → slab_st s c k a L' → L = L'.
Proof.
  intros [(sl & E1 & _ & _ & _ & HL & _) _ _ _] [(sl' & E2 & _ & _ & _ & HL' & _) _ _ _].
  simplify_eq. by eapply flist_det.
Qed.

Lemma slab_st_has s c k a L : slab_st s c k a L → has_slab s c a.
Proof. intros [(sl & E & Hc & _) _ _ _]. by exists sl. Qed.

Lemma slab_st_par s c k k' a L : same_par k k' → slab_st s c k a L → slab_st s c k' a L.
Proof.
  intros Hs [(sl & E1 & E2 & E3 & E4 & E5 & E6) Hnd Hob Hlen].
  pose proof Hs as (_ & _ & _ & Et & _). split; rewrite ?Et; [|done| |done].
  - exists sl. rewrite (same_par_base _ _ _ Hs). done.
  - intros o Ho. apply (same_par_obj k); [done|]. by apply Hob.
Qed.

Lemma class_par w k k' L : same_par k k' → class w k L → class w k' L.
Proof. intros (_ & _ & _ & E & _). by destruct w; simpl; rewrite ?E. Qed.

(** ** Changes of links only *)

Definition core (sl : slab) := (sl_cache sl, sl_free sl, sl_in_use sl, sl_total sl, sl_objects sl).

(** From [s] to [s'] only links of slabs and the descriptor of [c] change, which
    becomes [k']; the links of slabs not in [T] stay. *)
Record relinked c k' (T : Z → Prop) s s' : Prop := Relinked {
  rl_caches : h_caches s' = <[c := k']> (h_caches s);
  rl_core : ∀ b, core <$> h_slabs s' !! b = core <$> h_slabs s !! b;
  rl_other : ∀ b, ¬ T b → h_slabs s' !! b = h_slabs s !! b;
  rl_pm : h_pm s' = h_pm s;
  rl_current : heap_current s' = heap_current s;
  rl_objs : h_objs s' = h_objs s;
  rl_kmalloc : kmalloc_caches s' = kmalloc_caches s }.

Lemma relinked_trans c k1 k2 (T : Z → Prop) s s1 s2 :
  relinked c k1 T s s1 → relinked c k2 T s1 s2 → relinked c k2 T s s2.
Proof.
  intros [A1 A2 A3 A4 A5 A6 A7] [B1 B2 B3 B4 B5 B6 B7].
  split; [| | |congruence..].
  - by rewrite B1, A1, insert_insert_eq.
  - intros b. by rewrite B2, A2.
  - intros b Hb. by rewrite B3, A3.
Qed.

Lemma core_eq (x y : option slab) sl :
  core <$> x = core <$> y → y = Some sl → ∃ sl', x = Some sl' ∧ core sl' = core sl.
Proof.
  intros Hc ->. destruct x as [sl'|]; [|done]. exists sl'. split; [done|].
  by apply (inj Some), Hc.
Qed.

Lemma slab_st_core s s' c k a L :
  (∀ b, core <$> h_slabs s' !! b = core <$> h_slabs s !! b) → h_objs s' = h_objs s →
  slab_st s c k a L → slab_st s' c k a L.
Proof.
  intros Hc Ho [(sl & E & E1 & E2 & E3 & E4 & E5) ? ? ?]. split; [|done..].
  destruct (core_eq _ _ _ (Hc a) E) as (sl' & E' & [= C1 C2 C3 C4 C5]).
  exists sl'. rewrite Ho, C1, C2, C3, C4, C5. done.
Qed.

Lemma has_slab_core s s' c a :
  (∀ b, core <$> h_slabs s' !! b = core <$> h_slabs s !! b) → has_slab s' c a ↔ has_slab s c a.
Proof.
  intros Hc. split; intros (sl & E & E1).
  - destruct (core_eq _ _ _ (eq_sym (Hc a)) E) as (sl' & E' & [= C1 _]). exists sl'. by rewrite C1.
  - destruct (core_eq _ _ _ (Hc a) E) as (sl' & E' & [= C1 _]). exists sl'. by rewrite C1.
Qed.

Lemma relinked_slab_st c0 k0 T s s' c k a L :
  relinked c0 k0 T s s' → slab_st s' c k a L ↔ slab_st s c k a L.
Proof. intros [_ Hc _ _ _ Ho _]. split; by apply slab_st_core. Qed.

(** ** Steps *)

Lemma rd_slab_wp s a sl (Q : slab → heap S → Prop) :
  h_slabs s !! a = Some sl → Q sl s → wp (rd_slab a) Q s.
Proof. intros E HQ. unfold rd_slab. apply wp_bind, wp_get. by eapply wp_lift. Qed.

Lemma rd_cache_wp s c k (Q : kmem_cache → heap S → Prop) :
  h_caches s !! c = Some k → Q k s → wp (rd_cache c) Q s.
Proof. intros E HQ. unfold rd_cache. apply wp_bind, wp_get. by eapply wp_lift. Qed.

Lemma upd_slab_wp s a sl f (Q : unit → heap S → Prop) :
  h_slabs s !! a = Some sl → Q tt (set_slabs (<[a := f sl]> (h_slabs s)) s) → wp (upd_slab a f) Q s.
Proof. intros E HQ. unfold upd_slab. apply wp_bind. by eapply rd_slab_wp. Qed.

Lemma upd_cache_wp s c k f (Q : unit → heap S → Prop) :
  h_caches s !! c = Some k → Q tt (set_caches (<[c := f k]> (h_caches s)) s) →
  wp (upd_cache c f) Q s.
Proof. intros E HQ. unfold upd_cache. apply wp_bind. by eapply rd_cache_wp. Qed.

(** ** Adding a slab to a list *)

Lemma dlist_head_slab s L h :
  dlist (slinks s) L → head L = Some h → ∃ sl, h_slabs s !! h = Some sl.
Proof.
  destruct L as [|x L]; [done|]. intros [Hx _] [= <-]. unfold slinks in Hx.
  destruct (h_slabs s !! x); [eauto|done].
Qed.

Definition added_slabs a sl (h : option Z) (m : gmap Z slab) : gmap Z slab :=
  let m1 := <[a := set_links h None sl]> m in
  match h with
  | Some b => match m1 !! b with
              | Some slb => <[b := set_sl_prev (Some a) slb]> m1
              | None => m1
              end
  | None => m1
  end.

Lemma added_slabs_lookup a sl h m b :
  h ≠ Some a →
  added_slabs a sl h m !! b =
    if decide (b = a) then Some (set_links h None sl)
    else if decide (h = Some b) then set_sl_prev (Some a) <$> m !! b else m !! b.
Proof.
  intros Hh. unfold added_slabs. destruct h as [x|].
  - rewrite lookup_insert_ne by congruence. destruct (m !! x) as [slx|] eqn:Hx.
    + destruct (decide (b = a)) as [->|Hba].
      { rewrite lookup_insert_ne by congruence. by rewrite lookup_insert_eq. }
      case_decide as Hxb.
      * injection Hxb as ->. by rewrite lookup_insert_eq, Hx.
      * rewrite lookup_insert_ne by congruence. by rewrite lookup_insert_ne.
    + case_decide as Hba; [subst; by rewrite lookup_insert_eq|].
      rewrite lookup_insert_ne by congruence. case_decide as Hxb; [|done].
      injection Hxb as ->. by rewrite Hx.
  - case_decide as Hba; [subst; by rewrite lookup_insert_eq|].
    by rewrite lookup_insert_ne by congruence.
Qed.

Lemma slab_list_add_run s c k w a sl h (Q : unit → heap S → Prop) :
  h_caches s !! c = Some k → get_list w k = h → h_slabs s !! a = Some sl → h ≠ Some a →
  (∀ b, h = Some b → ∃ slb, h_slabs s !! b = Some slb) →
  Q tt (set_caches (<[c := set_list w (Some a) k]> (h_caches s))
          (set_slabs (added_slabs a sl h (h_slabs s)) s)) →
  wp (slab_list_add c w a) Q s.
Proof.
  intros Hc Hh Ha Hne Hb HQ. unfold slab_list_add.
  apply wp_bind. eapply upd_slab_wp; [exact Ha|].
  apply wp_bind. eapply rd_cache_wp; [exact Hc|].
  apply wp_bind. eapply upd_slab_wp; [cbn; by rewrite lookup_insert_eq|].
  cbn [h_slabs set_slabs]. rewrite insert_insert_eq, Hh.
  change (set_sl_next h (set_sl_prev None sl)) with (set_links h None sl).
  unfold added_slabs in HQ. destruct h as [b|].
  - destruct (Hb b eq_refl) as [slb Hslb]. rewrite lookup_insert_ne in HQ by congruence.
    rewrite Hslb in HQ. apply wp_bind.
    eapply upd_slab_wp; [cbn; rewrite lookup_insert_ne by congruence; exact Hslb|].
    eapply upd_cache_wp; [exact Hc|]. exact HQ.
  - apply wp_bind, wp_ret. eapply upd_cache_wp; [exact Hc|]. exact HQ.
Qed.

Lemma get_set_list w w' h k :
  get_list w' (set_list w h k) = if decide (w = w') then h else get_list w' k.
Proof. by destruct w, w'. Qed.

Lemma set_list_par w h k : same_par k (set_list w h k).
Proof. by destruct w. Qed.

Lemma dlist_frame s s' L :
  (∀ x, x ∈ L → h_slabs s' !! x = h_slabs s !! x) → dlist (slinks s) L → dlist (slinks s') L.
Proof. intros Heq. apply dlseg_ext. intros x Hx. unfold slinks. by rewrite Heq. Qed.

Lemma slab_list_add_wp s c k ls w a (Q : unit → heap S → Prop) :
  h_caches s !! c = Some k → lists_inv s c k ls → ¬ on_lists ls a →
  is_Some (h_slabs s !! a) →
  (∀ s', let k' := set_list w (Some a) k in
     relinked c k' (λ b, b = a ∨ on_lists ls b) s s' →
     lists_inv s' c k' (<[w := a :: ls w]> ls) → Q tt s') →
  wp (slab_list_add c w a) Q s.
Proof.
  intros Hc [Hh Hd Hnd Hdis] Ha [sl Hsl] HQ.
  assert (∀ w', a ∉ ls w') as Hna by (intros w' Hw; apply Ha; by exists w').
  assert (head (ls w) ≠ Some a) as Hne.
  { intros Hx%head_Some_elem_of. by apply (Hna w). }
  eapply (slab_list_add_run s c k w a sl); [done|apply Hh|done|done| |].
  { intros b Hb. by eapply dlist_head_slab. }
  set (s' := set_caches _ _).
  assert (∀ b, h_slabs s' !! b = if decide (b = a) then Some (set_links (head (ls w)) None sl)
    else if decide (head (ls w) = Some b) then set_sl_prev (Some a) <$> h_slabs s !! b
    else h_slabs s !! b) as Hlook by (intros b; by apply added_slabs_lookup).
  apply HQ; [split; try done|split].
  - intros b. rewrite Hlook. case_decide as Hb; [subst; by rewrite Hsl|].
    case_decide; [|done]. by destruct (h_slabs s !! b).
  - intros b Hb. rewrite Hlook, decide_False by tauto. rewrite decide_False; [done|].
    intros Hx%head_Some_elem_of. apply Hb. right. by exists w.
  - intros w'. rewrite get_set_list. case_decide as Hw.
    + subst w'. by rewrite fn_lookup_insert.
    + by rewrite fn_lookup_insert_ne.
  - intros w'. destruct (decide (w = w')) as [<-|Hw].
    + rewrite fn_lookup_insert. apply (dlist_insert (slinks s) _ []); [apply Hd|apply Hnd|..].
      * unfold slinks. by rewrite Hlook, decide_True.
      * done.
      * intros b Hb. unfold slinks. rewrite Hlook, decide_False, decide_True by congruence.
        by destruct (h_slabs s !! b).
      * intros y Hy _ Hyh. unfold slinks. rewrite Hlook, !decide_False; [done|done|].
        intros ->. by apply (Hna w).
    + rewrite fn_lookup_insert_ne by done. apply (dlist_frame s); [|apply Hd].
      intros x Hx. rewrite Hlook, !decide_False; [done|..].
      * intros Hx'%head_Some_elem_of. apply Hw. by eapply Hdis.
      * intros ->. by apply (Hna w').
  - intros w'. destruct (decide (w = w')) as [<-|Hw].
    + rewrite fn_lookup_insert. apply NoDup_cons. split; [apply Hna|apply Hnd].
    + by rewrite fn_lookup_insert_ne.
  - intros w1 w2 x. destruct (decide (w = w1)) as [<-|H1], (decide (w = w2)) as [<-|H2];
      rewrite ?fn_lookup_insert, ?(fn_lookup_insert_ne _ w) by done; [done|..|apply Hdis].
    + intros [->|Hx]%elem_of_cons Hx2; [by destruct (Hna w2)|]. by eapply Hdis.
    + intros Hx1 [->|Hx]%elem_of_cons; [by destruct (Hna w1)|]. by eapply Hdis.
Qed.

(** ** Removing a slab from a list *)

Definition upd_at (f : slab → slab) (q : option Z) (m : gmap Z slab) : gmap Z slab :=
  match q with Some b => alter f b m | None => m end.

Definition removed_slabs a sl (pr nx : option Z) (m : gmap Z slab) : gmap Z slab :=
  <[a := set_links None None sl]> (upd_at (set_sl_prev pr) nx (upd_at (set_sl_next nx) pr m)).

Lemma upd_at_lookup f q m b :
  upd_at f q m !! b = if decide (q = Some b) then f <$> m !! b else m !! b.
Proof.
  destruct q as [x|]; simpl; [|done]. destruct (decide (x = b)) as [->|Hx].
  - by rewrite lookup_alter_eq, decide_True.
  - by rewrite lookup_alter_ne, decide_False by congruence.
Qed.

Lemma removed_slabs_lookup a sl pr nx m b :
  pr = None ∨ pr ≠ nx →
  removed_slabs a sl pr nx m !! b =
    if decide (b = a) then Some (set_links None None sl)
    else if decide (pr = Some b) then set_sl_next nx <$> m !! b
    else if decide (nx = Some b) then set_sl_prev pr <$> m !! b else m !! b.
Proof.
  intros Hne. unfold removed_slabs. case_decide as Hb; [subst; by rewrite lookup_insert_eq|].
  rewrite lookup_insert_ne, !upd_at_lookup by done. do 2 case_decide; try done.
  destruct Hne; congruence.
Qed.

Lemma upd_slab_at s a f (Q : unit → heap S → Prop) :
  is_Some (h_slabs s !! a) → Q tt (set_slabs (alter f a (h_slabs s)) s) → wp (upd_slab a f) Q s.
Proof.
  intros [sl E] HQ. eapply upd_slab_wp; [exact E|].
  replace (<[a := f sl]> (h_slabs s)) with (alter f a (h_slabs s)); [done|].
  apply map_eq. intros b. destruct (decide (a = b)) as [<-|].
  - by rewrite lookup_alter_eq, lookup_insert_eq, E.
  - by rewrite lookup_alter_ne, lookup_insert_ne.
Qed.

Definition unhead (w : slab_list) (pr nx : option Z) (k : kmem_cache) : kmem_cache :=
  match pr with Some _ => k | None => set_list w nx k end.

Lemma slab_list_remove_run s c k w a sl (Q : unit → heap S → Prop) :
  h_caches s !! c = Some k → h_slabs s !! a = Some sl →
  sl_prev sl ≠ Some a → sl_next sl ≠ Some a →
  (∀ b, sl_prev sl = Some b → is_Some (h_slabs s !! b)) →
  (∀ b, sl_next sl = Some b → is_Some (h_slabs s !! b)) →
  Q tt (set_caches (<[c := unhead w (sl_prev sl) (sl_next sl) k]> (h_caches s))
          (set_slabs (removed_slabs a sl (sl_prev sl) (sl_next sl) (h_slabs s)) s)) →
  wp (slab_list_remove c w a) Q s.
Proof.
  intros Hc Ha Hpr Hnx Hp Hn HQ. unfold slab_list_remove.
  apply wp_bind. eapply rd_slab_wp; [exact Ha|]. apply wp_bind.
  assert (∀ s1, h_slabs s1 = upd_at (set_sl_next (sl_next sl)) (sl_prev sl) (h_slabs s) →
    set_slabs (removed_slabs a sl (sl_prev sl) (sl_next sl) (h_slabs s)) s1 =
      set_caches (<[c := unhead w (sl_prev sl) (sl_next sl) k]> (h_caches s))
          (set_slabs (removed_slabs a sl (sl_prev sl) (sl_next sl) (h_slabs s)) s) →
    wp (sl ← rd_slab a;
        match sl_next sl with
        | Some n => upd_slab n (set_sl_prev (sl_prev sl))
        | None => mret tt
        end ;; upd_slab a (set_links None None)) Q s1) as Hrest.
  { intros s1 Hs1 Heq. rewrite <-Heq in HQ. unfold removed_slabs in HQ. rewrite <-Hs1 in HQ.
    assert (h_slabs s1 !! a = Some sl) as Ha1 by by rewrite Hs1, upd_at_lookup, decide_False.
    apply wp_bind. eapply rd_slab_wp; [exact Ha1|]. apply wp_bind.
    destruct (sl_next sl) as [n|]; cbn [upd_at] in HQ.
    - apply upd_slab_at.
      + rewrite Hs1, upd_at_lookup. destruct (Hn n eq_refl) as [x ->]. by case_decide.
      + eapply upd_slab_wp; [cbn; rewrite lookup_alter_ne by congruence; exact Ha1|]. exact HQ.
    - apply wp_ret. eapply upd_slab_wp; [exact Ha1|]. exact HQ. }
  destruct (sl_prev sl) as [p|]; cbn [upd_at unhead] in *.
  - apply upd_slab_at; [by apply Hp|]. apply Hrest; [done|].
    rewrite insert_id by done. by destruct s.
  - eapply upd_cache_wp; [exact Hc|]. by apply Hrest.
Qed.

Lemma dlist_neighbours s A a B :
  dlist (slinks s) (A ++ a :: B) → ∃ sl, h_slabs s !! a = Some sl ∧
    sl_prev sl = last A ∧ sl_next sl = head B ∧
    (∀ b, last A = Some b → is_Some (h_slabs s !! b)) ∧
    (∀ b, head B = Some b → is_Some (h_slabs s !! b)).
Proof.
  intros Hd. pose proof (dlist_links _ _ _ _ Hd) as Ha. unfold slinks in Ha.
  destruct (h_slabs s !! a) as [sl|]; [|done]. injection Ha as Hp Hn. exists sl.
  assert (∀ x, x ∈ A ++ a :: B → is_Some (h_slabs s !! x)) as Hall.
  { intros x Hx. destruct (dlist_lookup _ _ _ Hd Hx) as (? & ? & _ & Hl). unfold slinks in Hl.
    destruct (h_slabs s !! x); [eauto|done]. }
  split_and!; [done..| |].
  - intros b Hb%last_Some_elem_of. apply Hall, elem_of_app. by left.
  - intros b Hb%head_Some_elem_of. apply Hall, elem_of_app. right. by right.
Qed.

Lemma slab_list_remove_wp s c k ls w A a B (Q : unit → heap S → Prop) :
  h_caches s !! c = Some k → lists_inv s c k ls → ls w = A ++ a :: B →
  (∀ s' k', same_par k k' → relinked c k' (on_lists ls) s s' →
     lists_inv s' c k' (<[w := A ++ B]> ls) → Q tt s') →
  wp (slab_list_remove c w a) Q s.
Proof.
  intros Hc [Hh Hd Hnd Hdis] Hls HQ.
  pose proof (Hd w) as Hdw. rewrite Hls in Hdw.
  destruct (dlist_neighbours _ _ _ _ Hdw) as (sl & Hsl & Hpr & Hnx & Hp & Hn).
  pose proof (Hnd w) as Hndw. rewrite Hls in Hndw.
  apply NoDup_app in Hndw as (HndA & HAB & [HaB HndB]%NoDup_cons).
  assert (a ∉ A) as HaA by (intros Hx; apply (HAB a Hx); left).
  assert (∀ x, last A = Some x → x ∈ A) as HlA by (intros x; apply last_Some_elem_of).
  assert (∀ x, head B = Some x → x ∈ B) as HhB by (intros x; apply head_Some_elem_of).
  assert (last A ≠ Some a ∧ head B ≠ Some a) as [HnA HnB] by (split; intros Hx; eauto).
  assert (last A = None ∨ last A ≠ head B) as Hne.
  { destruct (last A) as [x|] eqn:HxA; [right|by left]. intros Hx.
    apply (HAB x); [auto|]. right. by apply HhB. }
  apply (slab_list_remove_run s c k w a sl); rewrite ?Hpr, ?Hnx; try done.
  set (s' := set_caches _ _).
  assert (∀ b, h_slabs s' !! b = if decide (b = a) then Some (set_links None None sl)
    else if decide (last A = Some b) then set_sl_next (head B) <$> h_slabs s !! b
    else if decide (head B = Some b) then set_sl_prev (last A) <$> h_slabs s !! b
    else h_slabs s !! b) as Hlook by (intros b; by apply removed_slabs_lookup).
  assert (∀ b, b ∉ A ++ a :: B → h_slabs s' !! b = h_slabs s !! b) as Hout.
  { intros b Hb. rewrite Hlook, !decide_False; [done|..].
    - intros Hx. apply Hb, elem_of_app. right. right. auto.
    - intros Hx. apply Hb, elem_of_app. left. auto.
    - intros ->. apply Hb, elem_of_app. right. left. }
  assert (∀ w' x, w' ≠ w → x ∈ ls w' → x ∉ A ++ a :: B) as Helse.
  { intros w' x Hw' Hx Hx'. rewrite <-Hls in Hx'. apply Hw'. by eapply Hdis. }
  apply (HQ s' (unhead w (last A) (head B) k)); [by destruct (last A), w|split; try done|split].
  - intros b. rewrite Hlook. case_decide as Hb; [subst; by rewrite Hsl|].
    do 2 (case_decide; [by destruct (h_slabs s !! b)|]). done.
  - intros b Hb. apply Hout. rewrite <-Hls. intros Hx. apply Hb. by exists w.
  - intros w'. destruct (decide (w = w')) as [<-|Hw].
    + rewrite fn_lookup_insert. specialize (Hh w). rewrite Hls in Hh.
      destruct A as [|x A]; [cbn [last unhead]; by rewrite get_set_list, decide_True|].
      destruct (last (x :: A)) eqn:Hl; [done|]. by apply last_None in Hl.
    + rewrite fn_lookup_insert_ne by done. rewrite <-Hh.
      destruct (last A); simpl; [done|]. by rewrite get_set_list, decide_False.
  - intros w'. destruct (decide (w = w')) as [<-|Hw].
    + rewrite fn_lookup_insert. apply (dlist_remove (slinks s) _ A a B).
      * done.
      * apply NoDup_app. split_and!; [done| |done]. intros x Hx Hx'. apply (HAB x Hx). by right.
      * intros x Hx. unfold slinks. rewrite Hlook, decide_False, decide_True by (done || congruence).
        by destruct (h_slabs s !! x).
      * intros x Hx. unfold slinks. rewrite Hlook, decide_False by congruence.
        rewrite decide_False, decide_True by (done || intros Hx'; destruct Hne; congruence).
        by destruct (h_slabs s !! x).
      * intros y Hy Hy1 Hy2. unfold slinks. rewrite Hlook, !decide_False; [done..|].
        intros ->. by apply elem_of_app in Hy as [?|?].
    + rewrite fn_lookup_insert_ne by done. apply (dlist_frame s); [|apply Hd].
      intros x Hx. apply Hout. by eapply (Helse w').
  - intros w'. destruct (decide (w = w')) as [<-|Hw].
    + rewrite fn_lookup_insert. apply NoDup_app. split_and!; [done| |done].
      intros x Hx Hx'. apply (HAB x Hx). by right.
    + by rewrite fn_lookup_insert_ne.
  - assert (∀ w' x, x ∈ (<[w := A ++ B]> ls) w' → x ∈ ls w') as Hsub.
    { intros w' x. destruct (decide (w = w')) as [<-|Hw].
      - rewrite fn_lookup_insert, Hls. rewrite !elem_of_app, elem_of_cons. tauto.
      - by rewrite fn_lookup_insert_ne. }
    intros w1 w2 x Hx1 Hx2. eapply Hdis; by apply Hsub.
Qed.

(** ** Taking an object from a slab and putting it back *)

(** From [s] to [s'] only the free list and the count of the slab [a] and the
    link of the object [o] change. *)
Record touched a o s s' : Prop := Touched {
  tc_caches : h_caches s' = h_caches s;
  tc_desc : ∃ sl f u, h_slabs s !! a = Some sl ∧
    h_slabs s' = <[a := set_sl_use f u sl]> (h_slabs s);
  tc_objs : ∀ x, x ≠ o → h_objs s' !! x = h_objs s !! x;
  tc_pm : h_pm s' = h_pm s;
  tc_current : heap_current s' = heap_current s;
  tc_kmalloc : kmalloc_caches s' = kmalloc_caches s }.

Lemma touched_slinks a o s s' : touched a o s s' → ∀ b, slinks s' b = slinks s b.
Proof.
  intros [_ (sl & f & u & E & E') _ _ _ _] b. unfold slinks. rewrite E'.
  destruct (decide (a = b)) as [<-|]; [by rewrite lookup_insert_eq, E|by rewrite lookup_insert_ne].
Qed.

Lemma touched_other a o s s' b : touched a o s s' → b ≠ a → h_slabs s' !! b = h_slabs s !! b.
Proof. intros [_ (sl & f & u & E & ->) _ _ _ _] Hb. by rewrite lookup_insert_ne. Qed.

Lemma touched_has_slab a o s s' c b : touched a o s s' → has_slab s' c b ↔ has_slab s c b.
Proof.
  intros [_ (sl & f & u & E & E') _ _ _ _]. unfold has_slab. rewrite E'.
  destruct (decide (a = b)) as [<-|]; [|by rewrite lookup_insert_ne].
  rewrite lookup_insert_eq, E. split; intros (x & [= <-] & Hx); eexists; split; done.
Qed.

Lemma touched_lists a o s s' c k ls :
  touched a o s s' → lists_inv s c k ls → lists_inv s' c k ls.
Proof.
  intros Ht [Hh Hd Hnd Hdis]. split; [done| |done|done]. intros w.
  eapply dlseg_ext; [|apply (Hd w)]. intros x _. by apply (touched_slinks a o).
Qed.

Lemma slab_alloc_obj_wp s c k a o L (Q : option Z → heap S → Prop) :
  params_ok k → slab_st s c k a (o :: L) →
  (∀ s', touched a o s s' → h_objs s' = h_objs s → slab_st s' c k a L → Q (Some o) s') →
  wp (slab_alloc_obj a) Q s.
Proof.
  intros Hk [(sl & E & E1 & E2 & E3 & (Ef & n & En & EL) & E5) Hnd Hob Hlen] HQ.
  pose proof (pk_total _ Hk). simpl in E5, Hlen.
  unfold slab_alloc_obj. apply wp_bind. eapply rd_slab_wp; [exact E|]. rewrite Ef.
  apply wp_bind. unfold rd_obj. apply wp_bind, wp_get. eapply wp_lift; [exact En|].
  apply wp_bind, wp_modify, wp_ret. apply HQ; [split; try done|done|split].
  - exists sl, n, (sl_in_use sl +u32 1). done.
  - exists (set_sl_use n (sl_in_use sl +u32 1) sl). cbn [h_slabs set_slabs h_objs].
    rewrite lookup_insert_eq. split_and!; [done..|]. cbn. rewrite wrap_small by lia. lia.
  - by apply NoDup_cons in Hnd as [_ ?].
  - intros x Hx. apply Hob. by right.
  - lia.
Qed.

Lemma slab_free_obj_wp s c k a o L (Q : unit → heap S → Prop) :
  params_ok k → slab_st s c k a L → is_obj k a o → o ∉ L →
  Z.of_nat (length L) < kc_objs_per_slab k →
  (∀ s', touched a o s s' → slab_st s' c k a (o :: L) → Q tt s') →
  wp (slab_free_obj a o) Q s.
Proof.
  intros Hk [(sl & E & E1 & E2 & E3 & EL & E5) Hnd Hob Hlen] Ho Hno Hlt HQ.
  pose proof (pk_total _ Hk). unfold slab_free_obj.
  apply wp_bind. eapply rd_slab_wp; [exact E|]. apply wp_bind, wp_modify, wp_modify.
  apply HQ; [split; try done|split].
  - exists sl, (Some o), (sl_in_use sl -u32 1). done.
  - intros x Hx. cbn. by rewrite lookup_insert_ne.
  - exists (set_sl_use (Some o) (sl_in_use sl -u32 1) sl). cbn [h_slabs set_slabs h_objs set_objs].
    rewrite lookup_insert_eq. split_and!; [done..| |].
    + split; [done|]. exists (sl_free sl). rewrite lookup_insert_eq. split; [done|].
      eapply flist_ext; [|exact EL]. intros x Hx. rewrite lookup_insert_ne; [done|].
      by intros <-.
    + cbn [sl_in_use set_sl_use length]. rewrite wrap_small by lia. lia.
  - by apply NoDup_cons.
  - intros x [->|Hx]%elem_of_cons; auto.
  - simpl. lia.
Qed.

(** The counts tell whether the free list is empty. *)
Lemma slab_st_full s c k a L sl :
  slab_st s c k a L → h_slabs s !! a = Some sl → (sl_in_use sl =? sl_total sl) = bool_decide (L = []).
Proof.
  intros [(sl' & E & _ & E2 & _ & _ & E5) _ _ _] E'. simplify_eq. rewrite E5, E2.
  case_bool_decide as HL; [subst; apply Z.eqb_eq; cbn [length]; lia|].
  apply Z.eqb_neq. destruct L; [done|]. cbn [length]. lia.
Qed.

Lemma slab_st_unused s c k a L sl :
  slab_st s c k a L → h_slabs s !! a = Some sl →
  (sl_in_use sl =? 0) = bool_decide (Z.of_nat (length L) = kc_objs_per_slab k).
Proof.
  intros [(sl' & E & _ & E2 & _ & _ & E5) _ _ _] E'. simplify_eq. rewrite E5.
  case_bool_decide; lia.
Qed.

(** ** A cache while one of its slabs is being moved

    Slabs in [D] are on no list, slabs in [X] may be on the wrong one. *)
Record cache_pre s R c k (ls : slab_list → list Z) (D X : Z → Prop) : Prop := CachePre {
  cp_cache : h_caches s !! c = Some k;
  cp_par : params_ok k;
  cp_core : core_inv s R c k;
  cp_lists : lists_inv s c k ls;
  cp_cover : ∀ a, has_slab s c a ↔ on_lists ls a ∨ D a;
  cp_class : class_ok s c k ls X }.

Lemma cache_inv_pre s R c k ls (D X : Z → Prop) :
  (∀ a, ¬ D a) → cache_inv s R c k ls → cache_pre s R c k ls D X.
Proof.
  intros HD [H1 H2 H3 H4 H5 H6]. split; [done..| |].
  - intros a. rewrite H5. pose proof (HD a). tauto.
  - intros w a L Ha _. apply (H6 w a L Ha). by intros [].
Qed.

Lemma cache_pre_inv s R c k ls (D X : Z → Prop) :
  (∀ a, ¬ D a) → (∀ w a L, X a → a ∈ ls w → slab_st s c k a L → class w k L) →
  (∀ a, X a ∨ ¬ X a) →
  cache_pre s R c k ls D X → cache_inv s R c k ls.
Proof.
  intros HD HX Hdec [H1 H2 H3 H4 H5 H6]. split; [done..| |].
  - intros a. rewrite H5. pose proof (HD a). tauto.
  - intros w a L Ha _ Hst. destruct (Hdec a); [by apply (HX w a)|by apply (H6 w a)].
Qed.

(** Links changes keep what does not depend on links. *)
Lemma relinked_core_inv s s' R c k k' T :
  same_par k k' → relinked c k' T s s' → core_inv s R c k → core_inv s' R c k'.
Proof.
  intros Hs Hr Hcore a Ha. destruct (Hcore a) as [HR [L HL]].
  { eapply has_slab_core; [|exact Ha]. intros b. by rewrite (rl_core _ _ _ _ _ Hr). }
  pose proof Hs as (_ & _ & E3 & _ & _). split; [by rewrite E3|].
  exists L. eapply (relinked_slab_st c k'); [done|]. by eapply slab_st_par.
Qed.

Lemma relinked_class s s' c k k' ls (X : Z → Prop) T :
  same_par k k' → relinked c k' T s s' → class_ok s c k ls X → class_ok s' c k' ls X.
Proof.
  intros Hs Hr Hcl w a L Ha HX Hst. eapply class_par; [done|]. apply (Hcl w a); [done..|].
  apply (relinked_slab_st _ _ _ _ _ c k' a L Hr) in Hst. eapply slab_st_par; [|exact Hst].
  destruct Hs as (E1 & E2 & E3 & E4 & E5). by split_and!.
Qed.
End inv.
