(* ===== verification/SlabOps.v ===== *)
(** * The kernel heap: allocation and release (mm/slab.c)

    [heap_inv] is the invariant of the whole heap: its pages, and every cache.
    kmem_cache_alloc and kmem_cache_free keep it; what they do to the objects
    in use of the cache, and that they leave every other cache alone, is stated
    with [live]. *)

From stdpp Require Import functions.
From S2P Require Import Prelude DList Vmm PageMap Slab SlabInv.

Section ops.
Context {S : Type} `{PageMapperLaws S}.
Implicit Types (s : heap S) (R : gmap Z Z) (a b c o : Z) (k : kmem_cache) (L : list Z).

(** ** Regions *)

Lemma region_heap_addr s R a n : pages_ok s R → R !! a = Some n → heap_addr a n.
Proof.
  intros [[[_ Hc] _] Hr _ _] HR. destruct (Hr a n HR) as (_ & ? & ? & ?).
  split_and!; [done..|lia].
Qed.

(** Slabs at different addresses share no object. *)
Lemma slab_objs_apart s R a b k k' o :
  pages_ok s R → R !! a = Some (kc_slab_size k) → R !! b = Some (kc_slab_size k') →
  params_ok k → params_ok k' → a ≠ b → is_obj k a o → is_obj k' b o → False.
Proof.
  intros Hp Ha Hb Hk Hk' Hne Ho Ho'.
  pose proof (is_obj_bounds k a o Hk (region_heap_addr _ _ _ _ Hp Ha) Ho) as (? & ? & _).
  pose proof (is_obj_bounds k' b o Hk' (region_heap_addr _ _ _ _ Hp Hb) Ho') as (? & ? & _).
  pose proof (pk_obj _ Hk). pose proof (pk_obj _ Hk').
  destruct (po_disjoint _ _ Hp _ _ _ _ Ha Hb Hne); lia.
Qed.

(** ** The invariant of the heap *)

Record heap_inv s R : Prop := HeapInv {
  hi_pages : pages_ok s R;
  hi_caches : ∀ c k, h_caches s !! c = Some k →
    R !! c = Some 1 ∧ h_slabs s !! c = None ∧ ∃ ls, cache_inv s R c k ls;
  hi_owner : ∀ a sl, h_slabs s !! a = Some sl → is_Some (h_caches s !! sl_cache sl) }.

(** What an operation on the cache [c] leaves alone. *)
Record others c s s' R R' : Prop := Others {
  ot_caches : ∀ c', c' ≠ c → h_caches s' !! c' = h_caches s !! c';
  ot_slabs : ∀ c' a, c' ≠ c → has_slab s c' a → h_slabs s' !! a = h_slabs s !! a;
  ot_new : ∀ c' a, c' ≠ c → has_slab s' c' a → has_slab s c' a;
  ot_mine : ∀ a, has_slab s' c a → has_slab s c a ∨ R !! a = None;
  ot_objs : ∀ c' k a o, c' ≠ c → h_caches s !! c' = Some k → has_slab s c' a → is_obj k a o →
    h_objs s' !! o = h_objs s !! o;
  ot_regions : ∀ c' a, c' ≠ c → has_slab s c' a → R' !! a = R !! a;
  ot_descs : ∀ c', is_Some (h_caches s !! c') → R' !! c' = R !! c';
  ot_keep : is_Some (h_caches s !! c) → is_Some (h_caches s' !! c);
  ot_large : ∀ p n, R !! p = Some n → h_slabs s !! p = None →
    R' !! p = Some n ∧ h_slabs s' !! p = None }.

Lemma others_refl c s R : others c s s R R.
Proof. split; auto. Qed.

Lemma others_slab c s s' R R' c' a :
  others c s s' R R' → c' ≠ c → has_slab s c' a → has_slab s' c' a.
Proof. intros Ho Hc (sl & E & E1). exists sl. by rewrite (ot_slabs _ _ _ _ _ Ho c') by (done || by exists sl). Qed.

Lemma slab_st_same s s' c k a L :
  h_slabs s' !! a = h_slabs s !! a → (∀ o, is_obj k a o → h_objs s' !! o = h_objs s !! o) →
  slab_st s c k a L → slab_st s' c k a L.
Proof.
  intros Es Eo [(sl & E & E1 & E2 & E3 & E4 & E5) Hnd Hob Hlen]. split; [|done..].
  exists sl. rewrite Es. split_and!; [done..| |done].
  eapply flist_ext; [|exact E4]. intros x Hx. by apply Eo, Hob.
Qed.

(** A cache that the operation leaves alone keeps its invariant. *)
Lemma others_cache_inv c s s' R R' c' k ls :
  others c s s' R R' → c' ≠ c → cache_inv s R c' k ls → cache_inv s' R' c' k ls.
Proof.
  intros Ho Hc [Hca Hpar Hcore [Hh Hd Hnd Hdis] Hcov Hcl]. pose proof Ho as [O1 O2 O3 _ O5 O6 _ _ _].
  assert (∀ a L, has_slab s c' a → slab_st s' c' k a L ↔ slab_st s c' k a L) as Hst.
  { intros a L Ha. pose proof (O2 c' a Hc Ha) as Es.
    pose proof (λ o, O5 c' k a o Hc Hca Ha) as Eo.
    split; apply slab_st_same; auto using eq_sym. }
  split; [by rewrite O1|done|..].
  - intros a Ha%O3; [|done]. destruct (Hcore a Ha) as [HR [L HL]]. split; [by rewrite (O6 c')|].
    exists L. by apply Hst.
  - split; [done| |done|done]. intros w. apply (dlist_frame s); [|apply Hd].
    intros x Hx. apply (O2 c'); [done|]. apply Hcov. by exists w.
  - intros a. rewrite <-Hcov. split; [by apply O3|by apply (others_slab c s s' R R')].
  - intros w a L Ha HX HL. apply (Hcl w a L Ha HX). apply Hst; [|done].
    apply Hcov. by exists w.
Qed.

Lemma heap_inv_step c s s' R R' k k' ls' :
  heap_inv s R → h_caches s !! c = Some k → others c s s' R R' → pages_ok s' R' →
  cache_inv s' R' c k' ls' → heap_inv s' R'.
Proof.
  intros [Hp Hc Hw] Hck Ho Hp' Hci. pose proof Ho as [O1 O2 O3 O4 O5 O6 O7 _ _]. split; [done|..].
  - intros c' k2 Hc'.
    assert (is_Some (h_caches s !! c')) as [k1 Hc1].
    { destruct (decide (c' = c)) as [->|]; [by eexists|]. rewrite O1 in Hc' by done. by eexists. }
    destruct (Hc c' k1 Hc1) as (HR & Hns & ls & Hinv). split_and!.
    + by rewrite O7.
    + destruct (h_slabs s' !! c') as [sl|] eqn:Hsl; [|done]. exfalso.
      destruct (decide (sl_cache sl = c)) as [He|He].
      * destruct (O4 c') as [(x & Hx & _)|Hx]; [by exists sl|congruence..].
      * destruct (O3 (sl_cache sl) c' He) as (x & Hx & _); [by exists sl|congruence].
    + destruct (decide (c' = c)) as [->|Hne].
      * exists ls'. replace k2 with k'; [done|]. pose proof (ci_cache _ _ _ _ _ Hci). congruence.
      * exists ls. replace k2 with k1; [by eapply others_cache_inv|]. rewrite O1 in Hc' by done.
        congruence.
  - intros a sl Hsl. destruct (decide (sl_cache sl = c)) as [->|He].
    + by rewrite (ci_cache _ _ _ _ _ Hci).
    + destruct (O3 (sl_cache sl) a He) as (x & Hx & Hxc); [by exists sl|].
      rewrite O1 by done. rewrite <-Hxc. by eapply Hw.
Qed.

Lemma others_trans c s s1 s2 R R1 R2 :
  (∀ a, has_slab s2 c a → R1 !! a = None → R !! a = None) →
  others c s s1 R R1 → others c s1 s2 R1 R2 → others c s s2 R R2.
Proof.
  intros HR A B. pose proof A as [A1 A2 A3 A4 A5 A6 A7 A8 A9].
  destruct B as [B1 B2 B3 B4 B5 B6 B7 B8 B9].
  assert (∀ c' a, c' ≠ c → has_slab s c' a → has_slab s1 c' a) as Hup
    by (intros c' a; by apply others_slab with R R1).
  split.
  - intros c' Hc. by rewrite B1, A1.
  - intros c' a Hc Ha. by rewrite (B2 c'), (A2 c') by auto.
  - intros c' a Hc Ha. auto.
  - intros a Ha. destruct (B4 a Ha) as [?|?]; [by apply A4|right; auto].
  - intros c' k a o Hc Hk Ha Ho. rewrite (B5 c' k a o), (A5 c' k a o); auto. by rewrite A1.
  - intros c' a Hc Ha. by rewrite (B6 c'), (A6 c') by auto.
  - intros c' Hc'. rewrite B7, A7; [done|done|].
    destruct (decide (c' = c)) as [->|Hne]; [auto|by rewrite A1].
  - auto.
  - intros p n Hp Hs. destruct (A9 p n Hp Hs). auto.
Qed.

Lemma relinked_others c k k' T s s' R :
  (∀ b, T b → has_slab s c b) → relinked c k' T s s' → others c s s' R R.
Proof.
  intros HT [R1 R2 R3 R4 R5 R6 R7].
  assert (∀ c' a, c' ≠ c → has_slab s c' a → ¬ T a) as Hnt.
  { intros c' a Hc (sl & E & E1) (x & Ex & E2)%HT. congruence. }
  split.
  - intros c' Hc. by rewrite R1, lookup_insert_ne.
  - intros c' a Hc Ha. apply R3. by eapply Hnt.
  - intros c' a Hc Ha. by apply (has_slab_core s s').
  - intros a Ha. left. by apply (has_slab_core s s').
  - intros. by rewrite R6.
  - done.
  - done.
  - intros _. rewrite R1, lookup_insert_eq. by eexists.
  - intros p n Hp Hs. split; [done|]. specialize (R2 p). rewrite Hs in R2.
    by destruct (h_slabs s' !! p).
Qed.

Lemma touched_others c k a o s s' R :
  pages_ok s R → (∀ c k, h_caches s !! c = Some k → params_ok k ∧ core_inv s R c k) →
  h_caches s !! c = Some k → has_slab s c a → is_obj k a o → touched a o s s' →
  others c s s' R R.
Proof.
  intros Hp Hall Hk Ha Hob Ht. pose proof Ht as [T1 T2 T3 T4 T5 T6]. split.
  - intros c' _. by rewrite T1.
  - intros c' b Hc Hb. apply (touched_other a o); [done|]. intros ->.
    destruct Ha as (x & Ex & E1), Hb as (y & Ey & E2). congruence.
  - intros c' b _. by apply (touched_has_slab a o s s').
  - intros b Hb. left. by apply (touched_has_slab a o s s') in Hb.
  - intros c' k' b x Hc Hk' Hb Hx. apply T3. intros ->.
    destruct (Hall c k Hk) as [Hpk Hcore], (Hall c' k' Hk') as [Hpk' Hcore'].
    destruct (Hcore a Ha) as [Ra _], (Hcore' b Hb) as [Rb _].
    assert (a ≠ b) as Hab.
    { intros ->. destruct Ha as (y & Ey & E1), Hb as (z & Ez & E2). congruence. }
    apply (slab_objs_apart s R a b k k' o); done.
  - done.
  - done.
  - by rewrite T1.
  - intros x n Hx Hs. split; [done|]. rewrite (touched_other a o s s'); [done|done|].
    intros ->. destruct Ha as (x & Ex & _). congruence.
Qed.

(** ** Moving a slab between the lists *)

(** Only links and the descriptor of [c] change. *)
Record moved c k k' R s s' : Prop := Moved {
  mv_par : same_par k k';
  mv_st : ∀ b L, slab_st s' c k' b L ↔ slab_st s c k b L;
  mv_others : others c s s' R R;
  mv_pm : h_pm s' = h_pm s;
  mv_current : heap_current s' = heap_current s;
  mv_kmalloc : kmalloc_caches s' = kmalloc_caches s }.

Lemma same_par_sym k k' : same_par k k' → same_par k' k.
Proof. intros (E1 & E2 & E3 & E4 & E5). by split_and!. Qed.

Lemma same_par_trans k k' k'' : same_par k k' → same_par k' k'' → same_par k k''.
Proof.
  intros (A1 & A2 & A3 & A4 & A5) (B1 & B2 & B3 & B4 & B5). split_and!; congruence.
Qed.

Lemma moved_trans c k k1 k2 R s s1 s2 :
  moved c k k1 R s s1 → moved c k1 k2 R s1 s2 → moved c k k2 R s s2.
Proof.
  intros [A1 A2 A3 A4 A5 A6] [B1 B2 B3 B4 B5 B6]. split; try congruence.
  - by eapply same_par_trans.
  - intros b L. by rewrite B2, A2.
  - by eapply others_trans.
Qed.

Lemma relinked_moved c k k' T s s' R :
  same_par k k' → (∀ b, T b → has_slab s c b) → relinked c k' T s s' → moved c k k' R s s'.
Proof.
  intros Hs HT Hr. pose proof Hr as [_ _ _ R4 R5 _ R7]. split; try done.
  - intros b L. rewrite (relinked_slab_st c k' T s s') by done.
    split; apply slab_st_par; [by apply same_par_sym|done].
  - by eapply relinked_others.
Qed.

Lemma pages_ok_same s s' R :
  h_pm s' = h_pm s → heap_current s' = heap_current s → pages_ok s R → pages_ok s' R.
Proof. intros E1 E2 [P1 P2 P3 P4]. split; rewrite ?E1, ?E2; done. Qed.

Lemma cache_pre_move c k k' R s s' ls ls' (D D' X : Z → Prop) T :
  same_par k k' → relinked c k' T s s' → cache_pre s R c k ls D X →
  lists_inv s' c k' ls' → (∀ a, on_lists ls a ∨ D a ↔ on_lists ls' a ∨ D' a) →
  (∀ w a, a ∈ ls' w → ¬ X a → a ∈ ls w) →
  cache_pre s' R c k' ls' D' X.
Proof.
  intros Hs Hr [H1 H2 H3 H4 H5 H6] Hli Hcov Hsub. split.
  - by rewrite (rl_caches _ _ _ _ _ Hr), lookup_insert_eq.
  - by eapply same_par_params.
  - by eapply relinked_core_inv.
  - done.
  - intros a. rewrite <-Hcov, <-H5. apply has_slab_core, Hr.
  - pose proof (relinked_class _ _ _ _ _ _ _ _ Hs Hr H6) as Hcl.
    intros w a L Ha HX. apply Hcl; auto.
Qed.

Lemma detach_wp s R c k ls w a (X : Z → Prop) (Q : unit → heap S → Prop) :
  cache_pre s R c k ls (λ _, False) X → X a → a ∈ ls w →
  (∀ s' k' ls', moved c k k' R s s' → cache_pre s' R c k' ls' (λ b, b = a) X →
     ¬ on_lists ls' a → (∀ w', w' ≠ w → ls' w' = ls w') → Q tt s') →
  wp (slab_list_remove c w a) Q s.
Proof.
  intros Hpre HX Ha HQ. pose proof Hpre as [H1 H2 H3 H4 H5 H6].
  pose proof H4 as [_ _ Hnd Hdis].
  apply list_elem_of_split in Ha as (A & B & Hls).
  pose proof (Hnd w) as Hndw. rewrite Hls in Hndw. apply NoDup_app in Hndw as (_ & HAB & [HaB _]%NoDup_cons).
  assert (a ∉ A) as HaA by (intros Hx; apply (HAB a Hx); left).
  apply (slab_list_remove_wp s c k ls w A a B); [done..|]. intros s' k' Hs Hr Hli.
  assert (¬ on_lists (<[w := A ++ B]> ls) a) as Hnot.
  { intros [w' Hw']. destruct (decide (w = w')) as [<-|Hne].
    - rewrite fn_lookup_insert in Hw'. by apply elem_of_app in Hw' as [?|?].
    - rewrite fn_lookup_insert_ne in Hw' by done. apply Hne. apply (Hdis w w' a); [|done].
      rewrite Hls. apply elem_of_app. right. left. }
  apply (HQ s' k' (<[w := A ++ B]> ls)).
  - eapply relinked_moved; [done| |exact Hr]. intros b Hb. apply H5. by left.
  - eapply cache_pre_move; [done|exact Hr|exact Hpre|done|..].
    + intros b. split.
      * intros [[w' Hw']|[]]. destruct (decide (b = a)) as [|Hne]; [by right|left].
        destruct (decide (w = w')) as [<-|Hw]; [exists w|exists w'].
        { rewrite fn_lookup_insert. rewrite Hls, elem_of_app, elem_of_cons in Hw'.
          apply elem_of_app. tauto. }
        by rewrite fn_lookup_insert_ne.
      * intros [[w' Hw']| ->]; left; [|exists w; rewrite Hls; apply elem_of_app; right; left].
        destruct (decide (w = w')) as [<-|Hw]; [exists w|exists w'].
        { rewrite fn_lookup_insert in Hw'. rewrite Hls, elem_of_app, elem_of_cons.
          apply elem_of_app in Hw'. tauto. }
        by rewrite fn_lookup_insert_ne in Hw'.
    + intros w' b Hb _. destruct (decide (w = w')) as [<-|Hw].
      * rewrite fn_lookup_insert in Hb. rewrite Hls, elem_of_app, elem_of_cons.
        apply elem_of_app in Hb. tauto.
      * by rewrite fn_lookup_insert_ne in Hb.
  - done.
  - intros w' Hw'. by rewrite fn_lookup_insert_ne.
Qed.

Lemma attach_wp s R c k ls w a L (Q : unit → heap S → Prop) :
  cache_pre s R c k ls (λ b, b = a) (λ b, b = a) → ¬ on_lists ls a →
  slab_st s c k a L → class w k L →
  (∀ s' k' ls', moved c k k' R s s' → cache_inv s' R c k' ls' → Q tt s') →
  wp (slab_list_add c w a) Q s.
Proof.
  intros Hpre Ha Hst Hcl HQ. pose proof Hpre as [H1 H2 H3 H4 H5 H6].
  apply (slab_list_add_wp s c k ls w a); [done..| |].
  { destruct Hst as [(sl & -> & _) _ _ _]. by eexists. }
  intros s' k' Hr Hli. pose proof (set_list_par w (Some a) k) as Hs.
  assert (moved c k k' R s s') as Hmv.
  { eapply relinked_moved; [done| |exact Hr]. intros b [->|Hb]; apply H5; auto. }
  apply (HQ s' k' (<[w := a :: ls w]> ls) Hmv).
  apply (cache_pre_inv _ _ _ _ (<[w := a :: ls w]> ls) (λ _, False) (λ b, b = a)); [tauto|..].
  - intros w' b L' -> Hb HL'. apply (mv_st _ _ _ _ _ _ Hmv) in HL'.
    rewrite (slab_st_det _ _ _ _ _ _ HL' Hst). eapply class_par; [exact Hs|].
    destruct (decide (w = w')) as [<-|Hw]; [done|]. rewrite fn_lookup_insert_ne in Hb by done.
    destruct Ha. by exists w'.
  - intros b. destruct (decide (b = a)); tauto.
  - eapply cache_pre_move; [done|exact Hr|exact Hpre|done|..].
    + intros b. split.
      * intros [[w' Hw']| ->]; left; [|exists w; rewrite fn_lookup_insert; left].
        exists w'. destruct (decide (w = w')) as [<-|Hw]; [rewrite fn_lookup_insert; by right|].
        by rewrite fn_lookup_insert_ne.
      * intros [[w' Hw']|[]]. destruct (decide (w = w')) as [<-|Hw].
        { rewrite fn_lookup_insert in Hw'. apply elem_of_cons in Hw' as [->|?]; [by right|].
          left. by exists w. }
        rewrite fn_lookup_insert_ne in Hw' by done. left. by exists w'.
    + intros w' b Hb Hne. destruct (decide (w = w')) as [<-|Hw].
      * rewrite fn_lookup_insert in Hb. by apply elem_of_cons in Hb as [?|?].
      * by rewrite fn_lookup_insert_ne in Hb.
Qed.

Lemma move_wp s R c k ls w w' a L (Q : unit → heap S → Prop) :
  cache_pre s R c k ls (λ _, False) (λ b, b = a) → a ∈ ls w →
  slab_st s c k a L → class w' k L →
  (∀ s' k' ls', moved c k k' R s s' → cache_inv s' R c k' ls' → Q tt s') →
  wp (slab_list_remove c w a ;; slab_list_add c w' a) Q s.
Proof.
  intros Hpre Ha Hst Hcl HQ. apply wp_bind. apply (detach_wp s R c k ls w a (λ b, b = a)); [done..|].
  intros s1 k1 ls1 Hmv1 Hpre1 Hn1 _.
  eapply (attach_wp s1 R c k1 ls1 w' a L); [done|done|by apply (mv_st _ _ _ _ _ _ Hmv1)|..].
  - eapply class_par; [apply Hmv1|done].
  - intros s2 k2 ls2 Hmv2 Hinv. eapply HQ; [|exact Hinv]. by eapply moved_trans.
Qed.

(** ** Making a slab *)

Lemma set_sl_use_id sl : set_sl_use (sl_free sl) (sl_in_use sl) sl = sl.
Proof. by destruct sl. Qed.

Lemma chain_objs_wp n s a sl o size L (Q : unit → heap S → Prop) :
  h_slabs s !! a = Some sl → flist (h_objs s) (sl_free sl) L → NoDup L →
  0 < size → 0 ≤ o → o + Z.of_nat n * size < 2 ^ 64 →
  (∀ i, 0 ≤ i < Z.of_nat n → o + i * size ∉ L) →
  (∀ m L', flist m (head L') L' → NoDup L' → length L' = (n + length L)%nat →
     (∀ x, x ∈ L' ↔ x ∈ L ∨ ∃ i, 0 ≤ i < Z.of_nat n ∧ x = o + i * size) →
     (∀ x, (∀ i, 0 ≤ i < Z.of_nat n → x ≠ o + i * size) → m !! x = h_objs s !! x) →
     Q tt (set_slabs (<[a := set_sl_use (head L') (sl_in_use sl) sl]> (h_slabs s)) (set_objs m s))) →
  wp (chain_objs n a o size) Q s.
Proof.
  revert s sl o L. induction n as [|n IH]; intros s sl o L Hsl Hfl Hnd Hsz Ho Hb Hnew HQ; simpl.
  { apply wp_ret. pose proof (flist_head _ _ _ Hfl) as Hh.
    specialize (HQ (h_objs s) L). rewrite <-Hh, set_sl_use_id, insert_id in HQ by done.
    destruct s. apply HQ; [done..| |done]. intros x. split; [by left|].
    intros [?|(i & ? & _)]; [done|lia]. }
  assert (o ∉ L) as HoL.
  { specialize (Hnew 0 ltac:(lia)). by rewrite Z.mul_0_l, Z.add_0_r in Hnew. }
  apply wp_bind. eapply rd_slab_wp; [exact Hsl|]. apply wp_bind, wp_modify, wp_bind, wp_modify.
  rewrite wrap_small by nia.
  eapply (IH _ (set_sl_use (Some o) (sl_in_use sl) sl) (o + size) (o :: L)).
  - cbn. by rewrite lookup_insert_eq.
  - split; [done|]. exists (sl_free sl). cbn [h_objs set_slabs set_objs].
    rewrite lookup_insert_eq. split; [done|]. eapply flist_ext; [|exact Hfl].
    intros x Hx. rewrite lookup_insert_ne; [done|]. by intros <-.
  - by apply NoDup_cons.
  - done.
  - lia.
  - lia.
  - intros i Hi [He|Hin]%elem_of_cons; [nia|]. apply (Hnew (i + 1)); [lia|].
    by replace (o + (i + 1) * size) with (o + size + i * size) by lia.
  - intros m L' Hfl' Hnd' Hlen' Hin' Hout'. cbn [h_slabs set_slabs set_objs] .
    rewrite insert_insert_eq. apply (HQ m L'); [done|done|by rewrite Hlen'; simpl; lia|..].
    + intros x. rewrite Hin', elem_of_cons. split.
      * intros [[->|?]|(i & Hi & ->)]; [right; exists 0; lia|by left|].
        right. exists (i + 1). lia.
      * intros [?|(i & Hi & ->)]; [by left; right|].
        destruct (decide (i = 0)) as [->|]; [left; left; lia|]. right. exists (i - 1). lia.
    + intros x Hx. rewrite Hout'.
      * cbn [h_objs set_slabs set_objs]. rewrite lookup_insert_ne; [done|].
        specialize (Hx 0 ltac:(lia)). lia.
      * intros i Hi He. apply (Hx (i + 1)); lia.
Qed.

(** What [slab_create] leaves: a new slab at [a], all of its objects free. *)
Record slab_made c k k' a R s s' : Prop := SlabMade {
  sm_par : same_par k k';
  sm_fresh : R !! a = None;
  sm_pages : pages_ok s' (<[a := kc_slab_size k]> R);
  sm_caches : h_caches s' = <[c := k']> (h_caches s);
  sm_lists : ∀ w, get_list w k' = get_list w k;
  sm_slabs : ∃ sl, sl_cache sl = c ∧ h_slabs s' = <[a := sl]> (h_slabs s);
  sm_objs : ∀ x, ¬ is_obj k a x → h_objs s' !! x = h_objs s !! x;
  sm_st : ∃ L, slab_st s' c k' a L ∧ Z.of_nat (length L) = kc_objs_per_slab k ∧
    ∀ o, is_obj k a o → o ∈ L;
  sm_kmalloc : kmalloc_caches s' = kmalloc_caches s }.

Lemma slab_create_wp s R c k (Q : option Z → heap S → Prop) :
  pages_ok s R → h_caches s !! c = Some k → params_ok k →
  (∀ p, pages_ok (set_pm p s) R → Q None (set_pm p s)) →
  (∀ a k' s', slab_made c k k' a R s s' → Q (Some a) s') →
  wp (slab_create c) Q s.
Proof.
  intros Hp Hc Hk HN HS. unfold slab_create. apply wp_bind. eapply rd_cache_wp; [exact Hc|].
  apply wp_bind. apply (heap_alloc_pages_wp s R); [done|apply Hk|..].
  { intros p Hp'. by apply wp_ret, HN. }
  intros p a s1 Hfresh Hp'. set (R' := <[a := kc_slab_size k]> R) in *.
  assert (heap_addr a (kc_slab_size k)) as Ha.
  { eapply region_heap_addr; [exact Hp'|]. apply lookup_insert_eq. }
  pose proof (obj_base_spec k a Hk Ha) as (Hb1 & Hb2 & Hb3). fold (obj_base k a).
  pose proof (pk_total _ Hk) as Htot. pose proof Ha as (Hs & _ & He).
  apply wp_bind, wp_modify, wp_bind.
  eapply (chain_objs_wp _ _ a _ (obj_base k a) (kc_obj_size k) []).
  - cbn. apply lookup_insert_eq.
  - done.
  - constructor.
  - apply Hk.
  - unfold KHEAP_START, sizeof_slab_t in *. lia.
  - rewrite Z2Nat.id by lia. unfold KHEAP_END in *. lia.
  - intros i _ Hi. by apply elem_of_nil in Hi.
  - intros m L Hfl Hnd Hlen Hin Hout. rewrite Z2Nat.id in * by lia.
    apply wp_bind. eapply upd_cache_wp; [exact Hc|]. apply wp_ret.
    simpl in Hlen. rewrite Nat.add_0_r in Hlen.
    apply (HS a (set_counts (kc_alloc_count k) (kc_free_count k) (kc_slab_count k +u64 1) k)).
    split; cbn [h_caches h_slabs h_objs set_caches set_slabs set_objs set_current set_pm].
    + done.
    + done.
    + by eapply pages_ok_same; [..|exact Hp'].
    + done.
    + by intros [].
    + eexists. split; [|by rewrite insert_insert_eq]. done.
    + intros x Hx. apply Hout. intros i Hi ->. apply Hx. by exists i.
    + exists L. split_and!; [|rewrite Hlen; lia|intros o (i & Hi & ->); apply Hin; right; by exists i].
      split; [|done|..].
      * eexists. split; [by cbn; rewrite insert_insert_eq, lookup_insert_eq|]. split_and!; try done.
        cbn [sl_in_use set_sl_use]. rewrite Hlen. cbn. lia.
      * intros o Ho. apply Hin in Ho as [Ho|(i & Hi & ->)]; [by apply elem_of_nil in Ho|].
        by exists i.
      * rewrite Hlen. cbn. lia.
    + done.
Qed.

Lemma slab_made_others c k k' a R s s' :
  heap_inv s R → h_caches s !! c = Some k → params_ok k → slab_made c k k' a R s s' →
  others c s s' R (<[a := kc_slab_size k]> R) ∧
  (∀ b L, b ≠ a → slab_st s' c k' b L ↔ slab_st s c k b L) ∧
  (∀ b, has_slab s' c b ↔ has_slab s c b ∨ b = a) ∧ h_slabs s !! a = None.
Proof.
  intros [Hpg Hca Hown] Hc Hk [M1 M2 M3 M4 _ (sl & Esl & M5) M6 M7 _].
  assert (∀ c' b, has_slab s c' b → b ≠ a ∧ ∃ k, h_caches s !! c' = Some k ∧ params_ok k ∧
    R !! b = Some (kc_slab_size k)) as Hold.
  { intros c' b (x & Ex & E). destruct (Hown b x Ex) as [kx Hkx]. rewrite E in Hkx.
    destruct (Hca _ _ Hkx) as (_ & _ & ls & Hci).
    destruct (ci_core _ _ _ _ _ Hci b) as [HR _]; [by exists x|].
    split; [congruence|]. exists kx. split_and!; [done|apply Hci|done]. }
  assert (h_slabs s !! a = None) as Hna.
  { destruct (h_slabs s !! a) as [x|] eqn:Ex; [|done].
    destruct (Hold (sl_cache x) a) as [? _]; [by exists x|done]. }
  assert (∀ c' b o kb, has_slab s c' b → h_caches s !! c' = Some kb → is_obj kb b o →
    h_objs s' !! o = h_objs s !! o) as Hobj.
  { intros c' b o kb Hb Hkb Ho. apply M6. intros Ho'.
    destruct (Hold c' b Hb) as (Hne & kb' & Hkb' & Hpk & HRb). simplify_eq.
    apply (slab_objs_apart s' (<[a := kc_slab_size k]> R) b a kb k o); try done.
    - by rewrite lookup_insert_ne.
    - apply lookup_insert_eq. }
  assert (∀ c' b, b ≠ a → has_slab s' c' b ↔ has_slab s c' b) as Hhs.
  { intros c' b Hb. unfold has_slab. by rewrite M5, lookup_insert_ne. }
  assert (has_slab s' c a) as Hnew.
  { exists sl. by rewrite M5, lookup_insert_eq. }
  split_and!; [split| | |done].
  - intros c' Hc'. by rewrite M4, lookup_insert_ne.
  - intros c' b _ Hb. rewrite M5, lookup_insert_ne; [done|]. intros <-.
    by destruct (Hold c' a Hb).
  - intros c' b Hc' Hb. apply Hhs; [|done]. intros ->.
    destruct Hnew as (x & Ex & E), Hb as (y & Ey & E'). congruence.
  - intros b Hb. destruct (decide (b = a)) as [->|]; [by right|left]. by apply Hhs.
  - intros c' kb b o Hc' Hkb Hb Ho. by eapply Hobj.
  - intros c' b _ Hb. rewrite lookup_insert_ne; [done|]. intros <-. by destruct (Hold c' a Hb).
  - intros c' [kc Hkc]. rewrite lookup_insert_ne; [done|]. intros <-.
    destruct (Hca _ _ Hkc) as [? _]. congruence.
  - intros _. rewrite M4, lookup_insert_eq. by eexists.
  - intros p n Hp Hs. assert (p ≠ a) by congruence. by rewrite M5, !lookup_insert_ne.
  - intros b L Hb. assert (h_slabs s' !! b = h_slabs s !! b) as Es by by rewrite M5, lookup_insert_ne.
    split; intros Hst.
    + assert (has_slab s c b) as Hsb by (apply Hhs; [done|by eapply slab_st_has]).
      eapply slab_st_same; [by rewrite Es| |eapply slab_st_par; [by apply same_par_sym|done]].
      intros o Ho. symmetry. by eapply (Hobj c b).
    + assert (has_slab s c b) as Hsb by by eapply slab_st_has.
      eapply slab_st_par; [done|]. eapply slab_st_same; [done| |done].
      intros o Ho. by eapply (Hobj c b).
  - intros b. split.
    + intros Hb. destruct (decide (b = a)) as [->|]; [by right|left]. by apply Hhs.
    + intros [Hb| ->]; [|done]. apply Hhs; [|done]. by destruct (Hold c b Hb).
Qed.

(** ** Objects in use *)

Definition live s c o : Prop :=
  ∃ k a L, h_caches s !! c = Some k ∧ slab_st s c k a L ∧ is_obj k a o ∧ o ∉ L.

(** From [s] to [s'] the free list of the slab [a] becomes [L']. *)
Record refiled c k k' a L' s s' : Prop := Refiled {
  rf_cache : h_caches s !! c = Some k;
  rf_cache' : h_caches s' !! c = Some k';
  rf_par : same_par k k';
  rf_other : ∀ b L, b ≠ a → slab_st s' c k' b L ↔ slab_st s c k b L;
  rf_st : slab_st s' c k' a L' }.

Lemma refiled_live c k k' a L' s s' o :
  refiled c k k' a L' s s' →
  live s' c o ↔ (∃ b L, b ≠ a ∧ slab_st s c k b L ∧ is_obj k b o ∧ o ∉ L) ∨ (is_obj k a o ∧ o ∉ L').
Proof.
  intros [F1 F2 F3 F4 F5]. split.
  - intros (kx & b & L & Hkx & Hst & Ho & Hn). simplify_eq.
    rewrite (same_par_obj k k') in Ho by done. destruct (decide (b = a)) as [->|Hb].
    + right. split; [done|]. by rewrite (slab_st_det _ _ _ _ _ _ F5 Hst).
    + left. exists b, L. split_and!; [done|by apply F4|done..].
  - intros [(b & L & Hb & Hst & Ho & Hn)|[Ho Hn]].
    + exists k', b, L. split_and!; [done|by apply F4|by apply (same_par_obj k)|done].
    + exists k', a, L'. split_and!; [done..|by apply (same_par_obj k)|done].
Qed.

Lemma live_split c k a s o :
  h_caches s !! c = Some k →
  live s c o ↔ (∃ b L, b ≠ a ∧ slab_st s c k b L ∧ is_obj k b o ∧ o ∉ L) ∨
               (∃ L, slab_st s c k a L ∧ is_obj k a o ∧ o ∉ L).
Proof.
  intros Hk. split.
  - intros (kx & b & L & Hkx & Hst & Ho & Hn). simplify_eq.
    destruct (decide (b = a)) as [->|Hb]; [right; by exists L|left; by exists b, L].
  - intros [(b & L & Hb & Hst & Ho & Hn)|(L & Hst & Ho & Hn)]; eexists k, _, L; eauto.
Qed.

(** The object [o] of [a] goes into use. *)
Lemma refiled_alloc c k k' a o L s s' :
  refiled c k k' a L s s' → is_obj k a o → o ∉ L →
  (∀ b x, b ≠ a → has_slab s c b → is_obj k b x → ¬ is_obj k a x) →
  slab_st s c k a (o :: L) ∨ (¬ has_slab s c a ∧ ∀ x, is_obj k a x → x ∈ o :: L) →
  ¬ live s c o ∧ ∀ x, live s' c x ↔ live s c x ∨ x = o.
Proof.
  intros Hrf Ho HoL Hap Hbef. pose proof (rf_cache _ _ _ _ _ _ _ Hrf) as Hk.
  assert (∀ L0, slab_st s c k a L0 → L0 = o :: L) as Hst.
  { intros L0 Hst0. destruct Hbef as [Hst|[Hn _]]; [by eapply slab_st_det|].
    destruct Hn. by eapply slab_st_has. }
  split.
  - rewrite (live_split c k a) by done. intros [(b & L0 & Hb & Hst0 & Hob & _)|(L0 & Hst0 & _ & Hn)].
    + apply (Hap b o); [done|by eapply slab_st_has|done|done].
    + apply Hn. rewrite (Hst L0 Hst0). left.
  - intros x. rewrite (refiled_live c k k' a L s s') by done. rewrite (live_split c k a) by done.
    split.
    + intros [?|[Hx Hn]]; [by do 2 left|]. destruct (decide (x = o)) as [|Hne]; [by right|left; right].
      destruct Hbef as [Hst0|[_ Hall]].
      * exists (o :: L). split_and!; [done..|]. by apply not_elem_of_cons.
      * apply Hall, elem_of_cons in Hx. tauto.
    + intros [[?|(L0 & Hst0 & Hx & Hn)]| ->]; [by left|right|by right].
      split; [done|]. rewrite (Hst L0 Hst0), not_elem_of_cons in Hn. tauto.
Qed.

(** The object [o] of [a] goes out of use. *)
Lemma refiled_free c k k' a o L s s' :
  refiled c k k' a (o :: L) s s' → slab_st s c k a L → is_obj k a o →
  (∀ b x, b ≠ a → has_slab s c b → is_obj k b x → ¬ is_obj k a x) →
  ∀ x, live s' c x ↔ live s c x ∧ x ≠ o.
Proof.
  intros Hrf Hst Ho Hap x. pose proof (rf_cache _ _ _ _ _ _ _ Hrf) as Hk.
  rewrite (refiled_live c k k' a (o :: L) s s') by done. rewrite (live_split c k a) by done. split.
  - intros [(b & L0 & Hb & Hst0 & Hx & Hn)|[Hx [Hne Hn]%not_elem_of_cons]].
    + split; [left; by exists b, L0|]. intros ->. apply (Hap b o); [done| |done|done].
      by eapply slab_st_has.
    + split; [right; by exists L|done].
  - intros [[?|(L0 & Hst0 & Hx & Hn)] Hne]; [by left|right]. split; [done|].
    rewrite (slab_st_det _ _ _ _ _ _ Hst Hst0). by apply not_elem_of_cons.
Qed.

(** The slab [a], with all of its objects free, is gone. *)
Lemma live_gone c k k' a L s s' :
  h_caches s !! c = Some k → h_caches s' !! c = Some k' → same_par k k' →
  slab_st s c k a L → (∀ x, is_obj k a x → x ∈ L) → ¬ has_slab s' c a →
  (∀ b L, b ≠ a → slab_st s' c k' b L ↔ slab_st s c k b L) →
  ∀ x, live s' c x ↔ live s c x.
Proof.
  intros Hk Hk' Hpar Hst Hall Hgone Hother x.
  rewrite (live_split c k a s) by done. rewrite (live_split c k' a s') by done. split.
  - intros [(b & L0 & Hb & Hst0 & Hx & Hn)|(L0 & Hst0 & _)].
    + left. exists b, L0. split_and!; [done|by apply Hother|by apply (same_par_obj k k')|done].
    + destruct Hgone. by eapply slab_st_has.
  - intros [(b & L0 & Hb & Hst0 & Hx & Hn)|(L0 & Hst0 & Hx & Hn)].
    + left. exists b, L0. split_and!; [done|by apply Hother|by apply (same_par_obj k k')|done].
    + destruct Hn. rewrite (slab_st_det _ _ _ _ _ _ Hst0 Hst). auto.
Qed.

End ops.
