(* ===== verification/SlabThm.v ===== *)
(** * The kernel heap: theorems (mm/slab.c)

    kmem_cache_alloc and kmem_cache_free against the objects in use, and the
    size computations of kmem_cache_create and kmalloc. *)

From stdpp Require Import functions.
From S2P Require Import Prelude DList Vmm PageMap Slab SlabInv SlabOps.

Section alloc.
Context {S : Type} `{PageMapperLaws S}.
Implicit Types (s : heap S) (R : gmap Z Z) (a b c o : Z) (k : kmem_cache) (L : list Z).

(** What holds of every cache of a heap in order. *)
Lemma heap_inv_cache s R c k :
  heap_inv s R → h_caches s !! c = Some k →
  params_ok k ∧ core_inv s R c k ∧ ∃ ls, cache_inv s R c k ls.
Proof.
  intros [_ Hc _] Hk. destruct (Hc c k Hk) as (_ & _ & ls & Hci).
  split_and!; [apply Hci|apply Hci|by exists ls].
Qed.

Lemma slabs_apart s R c k :
  pages_ok s R → params_ok k → core_inv s R c k →
  ∀ a b x, b ≠ a → has_slab s c a → has_slab s c b → is_obj k b x → ¬ is_obj k a x.
Proof.
  intros Hp Hk Hcore a b x Hne Ha Hb Hx Hx'.
  destruct (Hcore a Ha) as [Ra _], (Hcore b Hb) as [Rb _].
  by apply (slab_objs_apart s R b a k k x).
Qed.

(** A cache depends on the descriptors and the links only. *)
Lemma slab_st_ext s s' c k a L :
  h_slabs s' = h_slabs s → h_objs s' = h_objs s → slab_st s c k a L → slab_st s' c k a L.
Proof. intros E1 E2. apply slab_st_same; by rewrite ?E1, ?E2. Qed.

Lemma cache_inv_ext s s' R c k ls :
  h_caches s' = h_caches s → h_slabs s' = h_slabs s → h_objs s' = h_objs s →
  cache_inv s R c k ls → cache_inv s' R c k ls.
Proof.
  intros E1 E2 E3 [H1 H2 H3 [L1 L2 L3 L4] H5 H6]. split.
  - by rewrite E1.
  - done.
  - intros a Ha. unfold has_slab in Ha. rewrite E2 in Ha. destruct (H3 a Ha) as [? [L HL]].
    split; [done|]. exists L. by eapply slab_st_ext.
  - split; [done| |done|done]. intros w. apply (dlist_frame s); [|done]. by rewrite E2.
  - intros a. unfold has_slab. rewrite E2. apply H5.
  - intros w a L Ha HX HL. apply (H6 w a); [done..|]. by eapply (slab_st_ext s' s).
Qed.

Lemma live_ext s s' c x :
  h_caches s' = h_caches s → h_slabs s' = h_slabs s → h_objs s' = h_objs s →
  live s' c x ↔ live s c x.
Proof.
  intros E1 E2 E3. unfold live. rewrite E1.
  split; intros (k & a & L & ? & ? & ?); exists k, a, L; split_and!; try tauto;
    by eapply slab_st_ext.
Qed.

(** ** Counting *)

(** An update of the statistics of a cache. *)
Lemma recount_pre_wp s R c k f ls (D X : Z → Prop) (Q : unit → heap S → Prop) :
  cache_pre s R c k ls D X → same_par k (f k) → (∀ w, get_list w (f k) = get_list w k) →
  (∀ s', moved c k (f k) R s s' → cache_pre s' R c (f k) ls D X → Q tt s') →
  wp (upd_cache c f) Q s.
Proof.
  intros Hpre Hpar Hget HQ. pose proof Hpre as [H1 H2 H3 [L1 L2 L3 L4] H5 H6].
  eapply upd_cache_wp; [exact H1|].
  assert (relinked c (f k) (λ _, False) s (set_caches (<[c := f k]> (h_caches s)) s)) as Hr by by split.
  apply HQ.
  - eapply relinked_moved; [done| |exact Hr]. by intros b [].
  - apply (cache_pre_move c k (f k) R s _ ls ls D D X (λ _, False)); [done|done|done| |done|done].
    split; [|done..]. intros w. by rewrite Hget.
Qed.

Lemma recount_wp s R c k f ls (Q : unit → heap S → Prop) :
  cache_inv s R c k ls → same_par k (f k) → (∀ w, get_list w (f k) = get_list w k) →
  (∀ s', moved c k (f k) R s s' → cache_inv s' R c (f k) ls → Q tt s') →
  wp (upd_cache c f) Q s.
Proof.
  intros Hci Hpar Hget HQ. apply (recount_pre_wp s R c k f ls (λ _, False) (λ _, False)); [|done|done|].
  - apply cache_inv_pre; [tauto|done].
  - intros s' Hmv Hpre. apply HQ; [done|].
    eapply cache_pre_inv; [..|exact Hpre]; [tauto|by intros w x L []|intros x; tauto].
Qed.

(** ** After the object is taken *)

Lemma touched_pre s s' R c k ls (D X : Z → Prop) a o L :
  cache_pre s R c k ls D X → X a → touched a o s s' → slab_st s' c k a L →
  (∀ b L', b ≠ a → slab_st s' c k b L' ↔ slab_st s c k b L') →
  cache_pre s' R c k ls D X.
Proof.
  intros [H1 H2 H3 H4 H5 H6] Ha Ht Hst Hother. split.
  - by rewrite (tc_caches _ _ _ _ Ht).
  - done.
  - intros b Hb. apply (touched_has_slab a o s s') in Hb; [|done].
    destruct (H3 b Hb) as [HR [L' HL']]. split; [done|].
    destruct (decide (b = a)) as [->|]; [by exists L|]. exists L'. by apply Hother.
  - by eapply touched_lists.
  - intros b. rewrite <-H5. by apply (touched_has_slab a o s s').
  - intros w b L' Hb HX HL'. assert (b ≠ a) by (intros ->; done).
    apply (H6 w b); [done..|]. by apply Hother.
Qed.

(** Taking an object changes no other slab. *)
Lemma touched_alloc_other s s' c k a o b L :
  touched a o s s' → h_objs s' = h_objs s → b ≠ a → slab_st s' c k b L ↔ slab_st s c k b L.
Proof.
  intros Ht Ho Hb. pose proof (touched_other _ _ _ _ _ Ht Hb) as Es.
  split; apply slab_st_same; rewrite ?Es, ?Ho; done.
Qed.

Lemma class_filed k a s c L sl :
  slab_st s c k a L → h_slabs s !! a = Some sl →
  class (if sl_in_use sl =? sl_total sl then Full else Partial) k L.
Proof.
  intros Hst Hsl. rewrite (slab_st_full _ _ _ _ _ _ Hst Hsl). by case_bool_decide.
Qed.

(** From [s] to [s'] the cache [c] is rearranged so that the slab [a] has the
    free list [L]; other caches keep theirs. *)
Record settled c k k' a L R R' s s' : Prop := Settled {
  sd_ref : refiled c k k' a L s s';
  sd_inv : ∃ ls, cache_inv s' R' c k' ls;
  sd_others : others c s s' R R';
  sd_pages : pages_ok s' R';
  sd_kmalloc : kmalloc_caches s' = kmalloc_caches s }.

Lemma settled_moved c k k1 k2 a L R R' s s1 s2 ls :
  settled c k k1 a L R R' s s1 → moved c k1 k2 R' s1 s2 → cache_inv s2 R' c k2 ls →
  (∀ x, R' !! x = None → R !! x = None) →
  settled c k k2 a L R R' s s2.
Proof.
  intros [[F1 F2 F3 F4 F5] _ Ho Hp Hkm] [V1 V2 V3 V4 V5 V6] Hci HR. split; [split|..].
  - done.
  - apply Hci.
  - by eapply same_par_trans.
  - intros b L' Hb. by rewrite V2, F4.
  - by apply V2.
  - by exists ls.
  - eapply others_trans; [|exact Ho|exact V3]. auto.
  - by eapply pages_ok_same.
  - by rewrite V6.
Qed.

Lemma count_alloc_wp s0 s R R' c k0 k a L (Q : unit → heap S → Prop) :
  settled c k0 k a L R R' s0 s → (∀ x, R' !! x = None → R !! x = None) →
  (∀ s' k', settled c k0 k' a L R R' s0 s' → Q tt s') →
  wp (count_alloc c) Q s.
Proof.
  intros Hsd HR HQ. destruct (sd_inv _ _ _ _ _ _ _ _ _ Hsd) as [ls Hci].
  eapply (recount_wp s R' c k); [exact Hci|done|by intros []|].
  intros s' Hmv Hci'. eapply HQ. by eapply settled_moved.
Qed.

(** Taking the first free object of a slab that is on no list, and filing it. *)
Lemma alloc_detached_wp s0 s R R' c k0 k a o L ls (Q : option Z → heap S → Prop) :
  h_caches s0 !! c = Some k0 → same_par k0 k →
  (∀ b L', b ≠ a → slab_st s c k b L' ↔ slab_st s0 c k0 b L') →
  others c s0 s R R' → pages_ok s R' → kmalloc_caches s = kmalloc_caches s0 →
  (∀ x, R' !! x = None → R !! x = None) →
  cache_pre s R' c k ls (λ b, b = a) (λ b, b = a) → ¬ on_lists ls a →
  slab_st s c k a (o :: L) →
  (∀ s' k', settled c k0 k' a L R R' s0 s' → Q (Some o) s') →
  wp (obj ← slab_alloc_obj a; slab_file c a ;; count_alloc c ;; mret obj) Q s.
Proof.
  intros Hk0 Hpar Hoth Hot Hpg Hkm HR Hpre Hn Hst HQ.
  pose proof Hpre as [H1 H2 H3 H4 H5 H6].
  apply wp_bind. apply (slab_alloc_obj_wp s c k a o L); [done..|]. intros s1 Ht Hobj Hst1.
  assert (∀ b L', b ≠ a → slab_st s1 c k b L' ↔ slab_st s c k b L') as Hoth1.
  { intros b L' Hb. by eapply touched_alloc_other. }
  assert (others c s s1 R' R') as Hot1.
  { pose proof Ht as [T1 T2 T3 T4 T5 T6].
    assert (has_slab s c a) as Hha by (apply H5; by right).
    split; [by rewrite T1| |..|by rewrite T1|].
    - intros c' b Hc Hb. apply (touched_other a o); [done|]. intros ->.
      destruct Hha as (x & Ex & E1), Hb as (y & Ey & E2). congruence.
    - intros c' b _. by apply (touched_has_slab a o s s1).
    - intros b Hb. left. by apply (touched_has_slab a o s s1).
    - intros. by rewrite Hobj.
    - done.
    - done.
    - intros p n Hp Hs. split; [done|]. rewrite (touched_other a o s s1); [done|done|].
      intros ->. destruct Hha as (x & Ex & _). congruence. }
  pose proof (touched_pre _ _ _ _ _ _ _ _ _ _ _ Hpre eq_refl Ht Hst1 Hoth1) as Hpre1.
  destruct (ss_desc _ _ _ _ _ Hst1) as (sl & Hsl & _).
  apply wp_bind. unfold slab_file. apply wp_bind. eapply rd_slab_wp; [exact Hsl|].
  set (w := if sl_in_use sl =? sl_total sl then Full else Partial).
  assert (∀ P, wp (slab_list_add c w a) P s1 →
    wp (if sl_in_use sl =? sl_total sl then slab_list_add c Full a
        else slab_list_add c Partial a) P s1) as Hif.
  { unfold w. by destruct (_ =? _). }
  apply Hif. apply (attach_wp s1 R' c k ls w a L); [done|done|done|by eapply class_filed|].
  intros s2 k2 ls2 Hmv Hci. apply wp_bind.
  apply (count_alloc_wp s0 s2 R R' c k0 k2 a L); [|done|intros; by eapply wp_ret, HQ].
  pose proof Hmv as [V1 V2 V3 V4 V5 V6]. split; [split|..].
  - done.
  - apply Hci.
  - by eapply same_par_trans.
  - intros b L' Hb. by rewrite V2, Hoth1, Hoth.
  - by apply V2.
  - by exists ls2.
  - eapply others_trans; [|exact Hot|by eapply others_trans]. auto.
  - eapply pages_ok_same; [by rewrite V4, (tc_pm _ _ _ _ Ht)|by rewrite V5, (tc_current _ _ _ _ Ht)|done].
  - by rewrite V6, (tc_kmalloc _ _ _ _ Ht).
Qed.

(** ** kmem_cache_alloc *)

Lemma settled_alloc s s' R R' c k k' a o L :
  heap_inv s R → settled c k k' a L R R' s s' → is_obj k a o → o ∉ L →
  slab_st s c k a (o :: L) ∨ (¬ has_slab s c a ∧ ∀ x, is_obj k a x → x ∈ o :: L) →
  heap_inv s' R' ∧ ¬ live s c o ∧ ∀ x, live s' c x ↔ live s c x ∨ x = o.
Proof.
  intros Hi [Hrf [ls Hci] Hot Hpg _] Ho HoL Hbef. pose proof Hrf as [F1 F2 F3 F4 F5].
  split; [by eapply heap_inv_step|].
  apply (refiled_alloc c k k' a o L s s'); [done..| |done].
  intros b x Hb Hhb Hx Hx'. destruct (heap_inv_cache s R c k Hi F1) as (_ & Hcore & _).
  destruct (Hcore b Hhb) as [_ [Lb HLb]].
  apply (slabs_apart s' R' c k' Hpg (ci_par _ _ _ _ _ Hci) (ci_core _ _ _ _ _ Hci) a b x);
    rewrite ?(same_par_obj k k') by done; try done.
  - by eapply slab_st_has.
  - eapply slab_st_has. by apply F4.
Qed.

(** The cache [c] keeps its sizes. *)
Definition keeps_par c s s' : Prop :=
  ∀ k, h_caches s !! c = Some k → ∃ k', h_caches s' !! c = Some k' ∧ same_par k k'.

Definition alloc_done c s R (r : option Z) s' : Prop := ∃ R', heap_inv s' R' ∧
  others c s s' R R' ∧ kmalloc_caches s' = kmalloc_caches s ∧ keeps_par c s s' ∧
  match r with
  | None => ∀ x, live s' c x ↔ live s c x
  | Some o => ¬ live s c o ∧ ∀ x, live s' c x ↔ live s c x ∨ x = o
  end.

Lemma settled_done s s' R R' c k k' a o L :
  heap_inv s R → settled c k k' a L R R' s s' → is_obj k a o → o ∉ L →
  slab_st s c k a (o :: L) ∨ (¬ has_slab s c a ∧ ∀ x, is_obj k a x → x ∈ o :: L) →
  alloc_done c s R (Some o) s'.
Proof.
  intros Hi Hsd Ho HoL Hbef. destruct (settled_alloc _ _ _ _ _ _ _ _ _ _ Hi Hsd Ho HoL Hbef) as [? ?].
  pose proof Hsd as [[F1 F2 F3 _ _] _ _ _ _].
  exists R'. split_and!; [done|apply Hsd|apply Hsd| |tauto..].
  intros kx Hkx. simplify_eq. by exists k'.
Qed.

(** The first slab of a list, and its first free object. *)
Lemma list_head_slab s R c k ls w a :
  cache_inv s R c k ls → get_list w k = Some a →
  a ∈ ls w ∧ has_slab s c a ∧ ∃ L, slab_st s c k a L ∧ class w k L.
Proof.
  intros [H1 H2 H3 [Hh _ _ _] H5 H6] Hw. rewrite Hh in Hw. apply head_Some_elem_of in Hw.
  assert (has_slab s c a) as Ha by (apply H5; by exists w).
  destruct (H3 a Ha) as [_ [L HL]]. split_and!; [done..|]. exists L. split; [done|].
  apply (H6 w a); [done|tauto|done].
Qed.

Lemma alloc_partial_wp s R c k a ls (Q : option Z → heap S → Prop) :
  heap_inv s R → cache_inv s R c k ls → kc_partial k = Some a →
  (∀ o s', alloc_done c s R (Some o) s' → Q (Some o) s') →
  wp (obj ← slab_alloc_obj a;
      sl ← rd_slab a;
      (if sl_in_use sl =? sl_total sl then slab_list_remove c Partial a ;; slab_list_add c Full a
       else mret tt) ;;
      count_alloc c ;; mret obj) Q s.
Proof.
  intros Hi Hci Hp HQ. destruct (list_head_slab s R c k ls Partial a Hci Hp) as (Hain & Hha & L0 & Hst & Hne).
  destruct L0 as [|o L]; [done|]. clear Hne. pose proof Hci as [H1 H2 H3 H4 H5 H6].
  assert (is_obj k a o ∧ o ∉ L) as [Hob HoL].
  { destruct Hst as [_ [? ?]%NoDup_cons Hobs _]. split; [apply Hobs; left|done]. }
  apply wp_bind. apply (slab_alloc_obj_wp s c k a o L); [done..|]. intros s1 Ht Hobj Hst1.
  assert (∀ b L', b ≠ a → slab_st s1 c k b L' ↔ slab_st s c k b L') as Hoth1.
  { intros b L' Hb. by eapply touched_alloc_other. }
  assert (others c s s1 R R) as Hot1.
  { eapply (touched_others c k a o); [apply Hi| |done..].
    intros c' k' Hk'. by destruct (heap_inv_cache s R c' k' Hi Hk') as (? & ? & _). }
  assert (cache_pre s1 R c k ls (λ _, False) (λ b, b = a)) as Hpre1.
  { eapply touched_pre; [|done|exact Ht|exact Hst1|done]. apply cache_inv_pre; [tauto|done]. }
  destruct (ss_desc _ _ _ _ _ Hst1) as (sl & Hsl & _).
  apply wp_bind. eapply rd_slab_wp; [exact Hsl|]. rewrite (slab_st_full _ _ _ _ _ _ Hst1 Hsl).
  assert (∀ k2 s2 ls2, moved c k k2 R s1 s2 → cache_inv s2 R c k2 ls2 →
    wp (count_alloc c ;; mret (Some o)) Q s2) as Hfin.
  { intros k2 s2 ls2 [V1 V2 V3 V4 V5 V6] Hci2. apply wp_bind.
    apply (count_alloc_wp s s2 R R c k k2 a L); [|done|].
    - split; [split|..]; [done|apply Hci2|done| |by apply V2|by exists ls2|by eapply others_trans|..].
      + intros b L' Hb. by rewrite V2, Hoth1.
      + eapply pages_ok_same; [by rewrite V4, (tc_pm _ _ _ _ Ht)
          |by rewrite V5, (tc_current _ _ _ _ Ht)|apply Hi].
      + by rewrite V6, (tc_kmalloc _ _ _ _ Ht).
    - intros s' k' Hsd. apply wp_ret, HQ. eapply settled_done; [done|exact Hsd|done|done|by left]. }
  apply wp_bind. case_bool_decide as HL.
  - apply (move_wp s1 R c k ls Partial Full a L); [done..|]. intros s2 k2 ls2. apply Hfin.
  - apply wp_ret. apply (Hfin k s1 ls).
    + split; [done|done|apply others_refl|done..].
    + apply (cache_pre_inv _ _ _ _ _ (λ _, False) (λ b, b = a)); [tauto| | |done].
      * intros w b L' -> Hb HL'. rewrite (slab_st_det _ _ _ _ _ _ HL' Hst1).
        rewrite <-(li_disj _ _ _ _ H4 Partial w a) by done. done.
      * intros b. destruct (decide (b = a)); tauto.
Qed.

Lemma alloc_empty_wp s R c k a ls (Q : option Z → heap S → Prop) :
  heap_inv s R → cache_inv s R c k ls → kc_empty k = Some a →
  (∀ o s', alloc_done c s R (Some o) s' → Q (Some o) s') →
  wp (slab_list_remove c Empty a ;;
      obj ← slab_alloc_obj a; slab_file c a ;; count_alloc c ;; mret obj) Q s.
Proof.
  intros Hi Hci He HQ. destruct (list_head_slab s R c k ls Empty a Hci He) as (Hain & Hha & L0 & Hst & Hcl).
  pose proof Hci as [H1 H2 H3 H4 H5 H6]. pose proof (pk_total _ H2).
  destruct L0 as [|o L]; [simpl in Hcl; lia|].
  assert (is_obj k a o ∧ o ∉ L) as [Hob HoL].
  { destruct Hst as [_ [? ?]%NoDup_cons Hobs _]. split; [apply Hobs; left|done]. }
  apply wp_bind. apply (detach_wp s R c k ls Empty a (λ b, b = a)); [|done|done|].
  { apply cache_inv_pre; [tauto|done]. }
  intros s1 k1 ls1 [V1 V2 V3 V4 V5 V6] Hpre1 Hn1 _.
  eapply (alloc_detached_wp s s1 R R c k k1 a o L ls1).
  - done.
  - done.
  - intros b L' _. apply V2.
  - done.
  - by eapply pages_ok_same; [..|apply Hi].
  - done.
  - done.
  - done.
  - done.
  - by apply V2.
  - intros s2 k2 Hsd. apply HQ. eapply settled_done; [done|exact Hsd|done|done|by left].
Qed.

Lemma alloc_new_wp s R c k ls (Q : option Z → heap S → Prop) :
  heap_inv s R → cache_inv s R c k ls →
  (∀ r s', alloc_done c s R r s' → Q r s') →
  wp (r ← slab_create c;
      match r with
      | None => if has (kc_flags k) SLAB_PANIC then fault else mret None
      | Some a => obj ← slab_alloc_obj a; slab_file c a ;; count_alloc c ;; mret obj
      end) Q s.
Proof.
  intros Hi Hci HQ. pose proof Hci as [H1 H2 H3 H4 H5 H6]. pose proof (pk_total _ H2) as Htot.
  apply wp_bind. apply (slab_create_wp s R c k); [apply Hi|done|done|..].
  { intros p Hp. rewrite (pk_flags _ H2). apply wp_ret, HQ. exists R.
    assert (others c s (set_pm p s) R R) as Hot by by split; auto.
    split_and!; [|done|done|by intros kx Hkx; exists kx|intros x; by apply live_ext].
    eapply heap_inv_step; [done..|]. by eapply cache_inv_ext; [..|exact Hci]. }
  intros a k' s1 Hsm. pose proof (slab_made_others _ _ _ _ _ _ _ Hi H1 H2 Hsm) as (Hot & Hoth & Hhs & Hna).
  destruct Hsm as [M1 M2 M3 M4 M5 (sl & Esl & M6) M7 (L0 & Hst & Hlen & Hall) M8].
  destruct L0 as [|o L]; [simpl in Hlen; lia|].
  assert (is_obj k a o ∧ o ∉ L) as [Hob HoL].
  { destruct Hst as [_ [? ?]%NoDup_cons Hobs _]. split; [|done].
    apply (same_par_obj k k'); [done|]. apply Hobs. left. }
  assert (∀ b, on_lists ls b → b ≠ a) as Hla.
  { intros b Hb ->. apply H5 in Hb as (x & Ex & _). congruence. }
  eapply (alloc_detached_wp s s1 R (<[a := kc_slab_size k]> R) c k k' a o L ls).
  - done.
  - done.
  - done.
  - done.
  - done.
  - done.
  - intros x Hx. by apply lookup_insert_None in Hx as [? _].
  - split.
    + by rewrite M4, lookup_insert_eq.
    + by eapply same_par_params.
    + intros b Hb. pose proof M1 as (_ & _ & E3 & _). rewrite E3.
      apply Hhs in Hb as [Hb| ->]; [|by rewrite lookup_insert_eq; eauto].
      assert (b ≠ a) as Hba by (apply Hla, H5, Hb).
      destruct (H3 b Hb) as [HR [L' HL']]. rewrite lookup_insert_ne by done. split; [done|].
      exists L'. by apply Hoth.
    + destruct H4 as [L1 L2 L3 L4]. split; [|..|done|done].
      * intros w. by rewrite M5.
      * intros w. apply (dlist_frame s); [|done]. intros x Hx. rewrite M6, lookup_insert_ne; [done|].
        intros <-. apply (Hla a); [by exists w|done].
    + intros b. by rewrite Hhs, H5.
    + intros w b L' Hb Hne HL'. eapply class_par; [done|]. apply (H6 w b); [done|tauto|].
      by apply Hoth.
  - intros Hl. by apply (Hla a).
  - done.
  - intros s2 k2 Hsd. apply HQ. eapply settled_done; [done|exact Hsd|done|done|right].
    split; [|done]. intros (x & Ex & _). congruence.
Qed.

Lemma kmem_cache_alloc_wp s R c k :
  heap_inv s R → h_caches s !! c = Some k →
  wp (kmem_cache_alloc (Some c)) (alloc_done c s R) s.
Proof.
  intros Hi Hk. destruct (heap_inv_cache s R c k Hi Hk) as (_ & _ & ls & Hci).
  unfold kmem_cache_alloc. apply wp_bind. eapply rd_cache_wp; [exact Hk|].
  destruct (kc_partial k) as [a|] eqn:Hp; [by eapply alloc_partial_wp|].
  destruct (kc_empty k) as [a|] eqn:He; [by eapply alloc_empty_wp|].
  by eapply alloc_new_wp.
Qed.

(** ** Finding the slab of an object *)

Lemma length_le_size (m : gmap Z slab) (L : list Z) :
  NoDup L → (∀ x, x ∈ L → is_Some (m !! x)) → (length L ≤ size m)%nat.
Proof.
  intros Hnd Hin. rewrite <-(size_list_to_set (C := gset Z) L) by done.
  rewrite <-size_dom. apply subseteq_size. intros x Hx%elem_of_list_to_set.
  apply elem_of_dom. auto.
Qed.

(** The objects of a slab that are in a list without repetitions. *)
Lemma objs_length k a L :
  0 ≤ kc_objs_per_slab k → NoDup L → (∀ o, o ∈ L → is_obj k a o) →
  Z.of_nat (length L) ≤ kc_objs_per_slab k.
Proof.
  intros Ht Hnd Hin.
  set (G := (λ i, obj_base k a + i * kc_obj_size k) <$> seqZ 0 (kc_objs_per_slab k)).
  assert (length L ≤ length G)%nat as Hle.
  { apply submseteq_length, NoDup_submseteq; [done|]. intros o Ho.
    destruct (Hin o Ho) as (i & Hi & ->). apply list_elem_of_fmap. exists i. split; [done|].
    apply elem_of_seqZ. lia. }
  unfold G in Hle. rewrite length_fmap, length_seqZ in Hle. lia.
Qed.

Lemma unused_all s c k a L :
  params_ok k → slab_st s c k a L → Z.of_nat (length L) = kc_objs_per_slab k →
  ∀ o, is_obj k a o → o ∈ L.
Proof.
  intros Hk [_ Hnd Hob _] Hlen o Ho. destruct (decide (o ∈ L)) as [|Hn]; [done|].
  assert (Z.of_nat (length (o :: L)) ≤ kc_objs_per_slab k) as Hle.
  { pose proof (pk_total _ Hk). apply (objs_length k a); [lia|by apply NoDup_cons|].
    intros x [->|Hx]%elem_of_cons; auto. }
  simpl in Hle. lia.
Qed.

Definition slab_holds n addr a : bool :=
  (a <=? addr) && (addr <? a +u64 (n *u64 PAGE_SIZE)).

Lemma find_in_list_wp s fuel n addr pr L :
  dlseg (slinks s) pr L None → (length L ≤ fuel)%nat →
  wp (find_in_list fuel n addr (head L)) (λ r s', s' = s ∧
    match r with
    | Some a => a ∈ L ∧ slab_holds n addr a = true
    | None => ∀ a, a ∈ L → slab_holds n addr a = false
    end) s.
Proof.
  revert fuel pr. induction L as [|a L IH]; intros fuel pr Hd Hf.
  { destruct fuel; apply wp_ret; (split; [done|]); by intros a Ha%elem_of_nil. }
  destruct fuel as [|fuel]; [simpl in Hf; lia|]. destruct Hd as [Ha Hd]. unfold slinks in Ha.
  destruct (h_slabs s !! a) as [sl|] eqn:Hsl; [|done]. injection Ha as _ Hnx.
  simpl. apply wp_bind. eapply rd_slab_wp; [exact Hsl|]. fold (slab_holds n addr a).
  destruct (slab_holds n addr a) eqn:Hh.
  { apply wp_ret. split; [done|]. split; [left|done]. }
  rewrite Hnx, or_else_None. eapply wp_mono; [eapply IH; [exact Hd|simpl in Hf; lia]|].
  intros r s' [-> Hr]. split; [done|]. destruct r as [b|].
  - destruct Hr. split; [by right|done].
  - intros x [->|Hx]%elem_of_cons; auto.
Qed.

Lemma slab_holds_obj s R k a o b :
  pages_ok s R → params_ok k → R !! a = Some (kc_slab_size k) → R !! b = Some (kc_slab_size k) →
  is_obj k a o → slab_holds (kc_slab_size k) o b = true ↔ b = a.
Proof.
  intros Hp Hk Ha Hb Ho. pose proof (region_heap_addr _ _ _ _ Hp Ha) as Haa.
  pose proof (region_heap_addr _ _ _ _ Hp Hb) as (Hb1 & _ & Hb2).
  pose proof (is_obj_bounds k a o Hk Haa Ho) as (H1 & H2 & _). pose proof (pk_obj _ Hk).
  pose proof (pk_slab _ Hk). unfold slab_holds.
  assert (b +u64 (kc_slab_size k *u64 PAGE_SIZE) = b + kc_slab_size k * PAGE_SIZE) as ->.
  { unfold KHEAP_START, KHEAP_END, PAGE_SIZE in *.
    rewrite (wrap_small 64 (_ * _)), wrap_small by lia. done. }
  rewrite andb_true_iff, Z.leb_le, Z.ltb_lt. split; [|intros ->; lia].
  intros Hin. destruct (decide (b = a)) as [|Hne]; [done|].
  destruct (po_disjoint _ _ Hp _ _ _ _ Hb Ha Hne); lia.
Qed.

(** The search finds the slab of an object in use. *)
Lemma find_slab_wp s R c k ls a o L (Q : option Z → heap S → Prop) :
  pages_ok s R → cache_inv s R c k ls → slab_st s c k a L → is_obj k a o → o ∉ L →
  Q (Some a) s → wp (find_slab_for_obj c o) Q s.
Proof.
  intros Hp [H1 H2 H3 H4 H5 H6] Hst Ho HoL HQ.
  assert (has_slab s c a) as Hha by by eapply slab_st_has.
  assert (∀ w b, b ∈ ls w → slab_holds (kc_slab_size k) o b = true ↔ b = a) as Hholds.
  { intros w b Hb. destruct (H3 a Hha) as [Ra _], (H3 b) as [Rb _]; [apply H5; by exists w|].
    by eapply slab_holds_obj. }
  assert (∀ w, wp (find_in_list (size (h_slabs s)) (kc_slab_size k) o (get_list w k)) (λ r s',
    s' = s ∧ r = if decide (a ∈ ls w) then Some a else None) s) as Hfind.
  { intros w. destruct H4 as [Hh Hd Hnd _]. rewrite Hh.
    eapply wp_mono; [eapply find_in_list_wp; [apply Hd|]|].
    - apply length_le_size; [apply Hnd|]. intros x Hx.
      destruct (dlist_lookup _ _ _ (Hd w) Hx) as (? & ? & _ & Hl). unfold slinks in Hl.
      destruct (h_slabs s !! x); [eauto|done].
    - intros r s' [-> Hr]. split; [done|]. destruct r as [b|].
      + destruct Hr as [Hb Hbh]. apply (Hholds w b Hb) in Hbh as ->. by rewrite decide_True.
      + rewrite decide_False; [done|]. intros Ha. specialize (Hr a Ha).
        rewrite (proj2 (Hholds w a Ha)) in Hr; done. }
  unfold find_slab_for_obj. apply wp_bind. eapply rd_cache_wp; [exact H1|].
  apply wp_bind, wp_get, wp_bind. eapply wp_mono; [apply (Hfind Partial)|].
  intros r s' [-> ->]. case_decide as Hpart; [by apply wp_ret|].
  eapply wp_mono; [apply (Hfind Full)|]. intros r s' [-> ->]. rewrite decide_True; [done|].
  destruct (proj1 (H5 a) Hha) as [[] Ha]; [done|done|].
  destruct HoL. eapply unused_all; [done|done| |done]. by apply (H6 Empty a L); [..|tauto|].
Qed.

(** ** Destroying a slab *)

Lemma drop_lookup {A} (m : gmap Z A) x y z :
  filter (outside x y) m !! z = if decide (x ≤ z < y) then None else m !! z.
Proof.
  case_decide as Hz.
  - apply map_lookup_filter_None. right. intros v _. unfold outside. simpl. lia.
  - destruct (m !! z) as [v|] eqn:Hv.
    + apply map_lookup_filter_Some. split; [done|]. unfold outside. simpl. lia.
    + apply map_lookup_filter_None. by left.
Qed.

(** Every descriptor and every slab is a run of heap pages of its own. *)
Record regions_ok s R : Prop := RegionsOk {
  ro_pages : pages_ok s R;
  ro_descs : ∀ c k, h_caches s !! c = Some k → R !! c = Some 1 ∧ h_slabs s !! c = None;
  ro_slabs : ∀ c b, has_slab s c b → ∃ k, h_caches s !! c = Some k ∧ params_ok k ∧
    R !! b = Some (kc_slab_size k) }.

Lemma regions_mid s0 s R c k0 k ls (D X : Z → Prop) :
  heap_inv s0 R → h_caches s0 !! c = Some k0 → others c s0 s R R → pages_ok s R →
  cache_pre s R c k ls D X → regions_ok s R.
Proof.
  intros [_ Hc0 Hw0] Hk0 [O1 O2 O3 O4 _ _ _ _ _] Hp [P1 P2 P3 _ _ _]. split; [done|..].
  - intros c' k' Hk'.
    assert (∃ k1, h_caches s0 !! c' = Some k1) as [k1 Hk1].
    { destruct (decide (c' = c)) as [->|]; [by exists k0|]. rewrite O1 in Hk' by done. by exists k'. }
    destruct (Hc0 c' k1 Hk1) as (HR & Hn & _). split; [done|].
    destruct (h_slabs s !! c') as [sl|] eqn:Hsl; [exfalso|done].
    destruct (decide (sl_cache sl = c)) as [He|He].
    + destruct (O4 c') as [(x & Hx & _)|?]; [by exists sl|congruence..].
    + destruct (O3 (sl_cache sl) c' He) as (x & Hx & _); [by exists sl|congruence].
  - intros c' b Hb. destruct (decide (c' = c)) as [->|Hne].
    + exists k. destruct (P3 b Hb) as [? _]. done.
    + apply (O3 c') in Hb as Hb0; [|done]. destruct Hb0 as (x & Hx & Hxc).
      destruct (Hw0 b x Hx) as [k' Hk']. rewrite Hxc in Hk'.
      destruct (Hc0 c' k' Hk') as (_ & _ & ls' & Hci).
      destruct (ci_core _ _ _ _ _ Hci b) as [HR _]; [by exists x|].
      exists k'. split_and!; [by rewrite O1|apply Hci|done].
Qed.

(** A slab that is on no list is given back. *)
Lemma slab_destroy_wp s R c k ls a L (Q : unit → heap S → Prop) :
  regions_ok s R → cache_pre s R c k ls (λ b, b = a) (λ b, b = a) → ¬ on_lists ls a →
  slab_st s c k a L →
  (∀ s' k', pages_ok s' (delete a R) → same_par k k' → cache_inv s' (delete a R) c k' ls →
     others c s s' R (delete a R) → kmalloc_caches s' = kmalloc_caches s → ¬ has_slab s' c a →
     (∀ b L', b ≠ a → slab_st s' c k' b L' ↔ slab_st s c k b L') → Q tt s') →
  wp (slab_destroy c a) Q s.
Proof.
  intros [Hp Hde Hsl] [P1 P2 P3 P4 P5 P6] Hn Hst HQ.
  assert (has_slab s c a) as Hha by by eapply slab_st_has.
  destruct (P3 a Hha) as [HRa _]. destruct (po_region _ _ Hp _ _ HRa) as (Hn0 & _ & _ & _).
  unfold slab_destroy. apply wp_bind. eapply rd_cache_wp; [exact P1|].
  apply wp_bind. apply (heap_free_pages_wp s R); [done..|]. intros p s1 Hp1.
  set (e := a + kc_slab_size k * PAGE_SIZE) in *.
  assert (∀ b n, R !! b = Some n → b ≠ a → ¬ (a ≤ b < e)) as Hout.
  { intros b n Hb Hne Hin. destruct (po_region _ _ Hp _ _ Hb) as (? & _ & _ & _).
    unfold e in Hin. destruct (po_disjoint _ _ Hp _ _ _ _ Hb HRa Hne); unfold PAGE_SIZE in *; lia. }
  assert (∀ c' k', h_caches s !! c' = Some k' → c' ≠ a ∧ h_caches s1 !! c' = Some k') as Hcs.
  { intros c' k' Hk'. destruct (Hde c' k' Hk') as [HRc Hnc].
    assert (c' ≠ a) as Hca by (intros ->; destruct Hha as (x & Hx & _); congruence).
    split; [done|]. cbn [h_caches s1 drop_range set_pm]. rewrite drop_lookup, decide_False; [done|].
    by eapply Hout. }
  assert (∀ c', h_caches s1 !! c' = h_caches s !! c') as Hcs'.
  { intros c'. destruct (h_caches s !! c') as [k'|] eqn:Hk'; [by apply Hcs|].
    cbn [h_caches s1 drop_range set_pm]. rewrite drop_lookup. by case_decide. }
  assert (∀ c' b, b ≠ a → has_slab s c' b → h_slabs s1 !! b = h_slabs s !! b) as Hss.
  { intros c' b Hb Hhb. destruct (Hsl c' b Hhb) as (k' & _ & _ & HRb).
    cbn [h_slabs s1 drop_range set_pm]. rewrite drop_lookup, decide_False; [done|]. by eapply Hout. }
  assert (∀ c' b, has_slab s1 c' b → has_slab s c' b ∧ b ≠ a) as Hhs.
  { intros c' b (x & Hx & Hxc). cbn [h_slabs s1 drop_range set_pm] in Hx.
    rewrite drop_lookup in Hx. case_decide as Hin; [done|]. split; [by exists x|].
    intros ->. apply Hin. unfold e, PAGE_SIZE. lia. }
  assert (∀ c' k' b o, b ≠ a → has_slab s c' b → h_caches s !! c' = Some k' → is_obj k' b o →
    h_objs s1 !! o = h_objs s !! o) as Hos.
  { intros c' k' b o Hb Hhb Hk' Ho. destruct (Hsl c' b Hhb) as (k2 & Hk2 & Hpk & HRb). simplify_eq.
    pose proof (is_obj_bounds k' b o Hpk (region_heap_addr _ _ _ _ Hp HRb) Ho) as (? & ? & _).
    pose proof (pk_obj _ Hpk). cbn [h_objs s1 drop_range set_pm].
    rewrite drop_lookup, decide_False; [done|]. unfold e.
    destruct (po_disjoint _ _ Hp _ _ _ _ HRb HRa Hb); lia. }
  assert (∀ b L', b ≠ a → slab_st s1 c k b L' ↔ slab_st s c k b L') as Hst1.
  { intros b L' Hb. split; intros Hx.
    - destruct (Hhs c b (slab_st_has _ _ _ _ _ Hx)) as [Hhb _].
      eapply slab_st_same; [by rewrite (Hss c)| |exact Hx].
      intros o Ho. symmetry. by eapply Hos.
    - eapply slab_st_same; [eapply Hss; [done|by eapply slab_st_has]| |exact Hx].
      intros o Ho. eapply Hos; [done|by eapply slab_st_has|done|done]. }
  assert (∀ b, on_lists ls b → b ≠ a ∧ has_slab s c b) as Hls.
  { intros b Hb. split; [by intros ->|]. apply P5. by left. }
  assert (others c s s1 R (delete a R)) as Hot1.
  { split.
    - done.
    - intros c' b Hc' Hhb. apply (Hss c'); [|done]. intros ->.
      destruct Hha as (x & Ex & E1), Hhb as (y & Ey & E2). congruence.
    - intros c' b _ Hb. by apply Hhs.
    - intros b Hb. left. by apply Hhs.
    - intros c' k' b o Hc' Hk' Hhb Ho. eapply (Hos c' k' b); try done. intros ->.
      destruct Hha as (x & Ex & E1), Hhb as (y & Ey & E2). congruence.
    - intros c' b Hc' Hhb. rewrite lookup_delete_ne; [done|]. intros <-.
      destruct Hha as (x & Ex & E1), Hhb as (y & Ey & E2). congruence.
    - intros c' [k' Hk']. destruct (Hcs c' k' Hk') as [? _]. by rewrite lookup_delete_ne.
    - by rewrite Hcs'.
    - intros x n Hx Hs. assert (x ≠ a) as Hxa by (intros ->; destruct Hha as (y & ? & _); congruence).
      rewrite lookup_delete_ne by done. split; [done|].
      cbn [h_slabs s1 drop_range set_pm]. rewrite drop_lookup. by case_decide. }
  apply (recount_wp s1 (delete a R) c k _ ls); [|done|by intros []|].
  - split.
    + by rewrite Hcs'.
    + done.
    + intros b Hb. destruct (Hhs c b Hb) as [Hb0 Hne]. destruct (P3 b Hb0) as [HR [L' HL']].
      rewrite lookup_delete_ne by done. split; [done|]. exists L'. by apply Hst1.
    + destruct P4 as [L1 L2 L3 L4]. split; [done| |done|done]. intros w.
      apply (dlist_frame s); [|done]. intros x Hx.
      destruct (Hls x) as [? ?]; [by exists w|]. by eapply Hss.
    + intros b. split.
      * intros [Hb Hne]%Hhs. apply P5 in Hb as [?| ->]; done.
      * intros [Hne (x & Hx & Hxc)]%Hls. exists x. split; [|done].
        rewrite (Hss c); [done|done|by exists x].
    + intros w b L' Hb _ HL'. destruct (Hls b) as [Hne _]; [by exists w|].
      apply (P6 w b); [done..|]. by apply Hst1.
  - intros s2 [V1 V2 V3 V4 V5 V6] Hci. eapply HQ; [|done|exact Hci|..].
    + by eapply pages_ok_same; [..|exact Hp1].
    + eapply others_trans; [|exact Hot1|exact V3]. intros x Hx HRx.
      destruct (ci_core _ _ _ _ _ Hci x Hx) as [HR' _]. congruence.
    + done.
    + intros Hx. destruct (ci_core _ _ _ _ _ Hci a Hx) as [HR' _].
      by rewrite lookup_delete_eq in HR'.
    + intros b L' Hb. by rewrite V2, Hst1.
Qed.

(** ** kmem_cache_free *)

Definition free_done c o s R s' : Prop := ∃ R', heap_inv s' R' ∧
  others c s s' R R' ∧ kmalloc_caches s' = kmalloc_caches s ∧ keeps_par c s s' ∧
  ∀ x, live s' c x ↔ live s c x ∧ x ≠ o.

(** The state after the object [o] is back on the free list of [a], while the
    slab may be on the wrong list. *)
Record freed c k k' a o L R s s' : Prop := Freed {
  fd_ref : refiled c k k' a (o :: L) s s';
  fd_others : others c s s' R R;
  fd_pages : pages_ok s' R;
  fd_kmalloc : kmalloc_caches s' = kmalloc_caches s;
  fd_live : ∀ x, live s' c x ↔ live s c x ∧ x ≠ o }.

Lemma freed_moved c k k1 k2 a o L R s s1 s2 :
  freed c k k1 a o L R s s1 → moved c k1 k2 R s1 s2 → h_caches s2 !! c = Some k2 →
  freed c k k2 a o L R s s2.
Proof.
  intros [Hrf Ho Hp Hkm Hl] [V1 V2 V3 V4 V5 V6] Hc. pose proof Hrf as [F1 F2 F3 F4 F5].
  assert (refiled c k k2 a (o :: L) s s2) as Hrf2.
  { split; [done|done|by eapply same_par_trans| |by apply V2].
    intros b L' Hb. by rewrite V2, F4. }
  split; [done|by eapply others_trans|by eapply pages_ok_same|by rewrite V6|].
  intros x. rewrite <-Hl. rewrite (refiled_live _ _ _ _ _ _ _ _ Hrf2).
  by rewrite (refiled_live _ _ _ _ _ _ _ _ Hrf).
Qed.

Lemma freed_done c k k' a o L R s s' ls :
  heap_inv s R → freed c k k' a o L R s s' → cache_inv s' R c k' ls → free_done c o s R s'.
Proof.
  intros Hi [[F1 F2 F3 _ _] Ho Hp Hkm Hl] Hci. exists R.
  split_and!; [by eapply heap_inv_step|done|done| |done].
  intros kx Hkx. simplify_eq. by exists k'.
Qed.

(** The slab is put on the list it now belongs on, or given back. *)
Lemma free_refile_wp s0 s R c k0 k ls a o L :
  heap_inv s0 R → freed c k0 k a o L R s0 s →
  cache_pre s R c k ls (λ _, False) (λ b, b = a) → a ∈ ls Partial → L ≠ [] →
  wp (sl ← rd_slab a;
      if sl_in_use sl =? 0 then
        slab_list_remove c Partial a ;;
        k ← rd_cache c;
        match kc_empty k with
        | None => slab_list_add c Empty a
        | Some _ => slab_destroy c a
        end
      else mret tt) (λ _, free_done c o s0 R) s.
Proof.
  intros Hi Hfd Hpre Ha HL. pose proof Hpre as [P1 P2 P3 P4 P5 P6].
  pose proof (rf_st _ _ _ _ _ _ _ (fd_ref _ _ _ _ _ _ _ _ _ Hfd)) as Hst.
  destruct (ss_desc _ _ _ _ _ Hst) as (sl & Hsl & _).
  apply wp_bind. eapply rd_slab_wp; [exact Hsl|]. rewrite (slab_st_unused _ _ _ _ _ _ Hst Hsl).
  case_bool_decide as Hun; last first.
  { apply wp_ret. eapply freed_done; [done|exact Hfd|].
    apply (cache_pre_inv _ _ _ _ ls (λ _, False) (λ b, b = a)); [tauto| | |exact Hpre].
    - intros w b L' -> Hb HL'. rewrite (slab_st_det _ _ _ _ _ _ HL' Hst).
      by rewrite <-(li_disj _ _ _ _ P4 Partial w a) by done.
    - intros b. destruct (decide (b = a)); tauto. }
  apply wp_bind. apply (detach_wp s R c k ls Partial a (λ b, b = a)); [done..|].
  intros s1 k1 ls1 Hmv1 Hpre1 Hn1 _. pose proof (cp_cache _ _ _ _ _ _ _ Hpre1) as Hk1.
  pose proof (freed_moved _ _ _ _ _ _ _ _ _ _ _ Hfd Hmv1 Hk1) as Hfd1.
  pose proof Hfd1 as [[F1 F2 F3 F4 F5] G2 G3 G4 G5].
  assert (Z.of_nat (length (o :: L)) = kc_objs_per_slab k1) as Hun1.
  { destruct (mv_par _ _ _ _ _ _ Hmv1) as (_ & _ & _ & E & _). by rewrite E. }
  apply wp_bind. eapply rd_cache_wp; [exact Hk1|]. destruct (kc_empty k1) as [e|].
  - apply (slab_destroy_wp s1 R c k1 ls1 a (o :: L)); [by eapply regions_mid|done..|].
    intros s2 k2 Hp2 Hpar2 Hci2 Hot2 Hkm2 Hgone Hst2. exists (delete a R).
    assert (others c s0 s2 R (delete a R)) as Hot by by eapply others_trans.
    split_and!; [by eapply heap_inv_step|done|congruence|..].
    { intros kx Hkx. simplify_eq. exists k2. split; [apply Hci2|by eapply same_par_trans]. }
    intros x. rewrite <-G5.
    apply (live_gone c k1 k2 a (o :: L) s1 s2); [done|apply Hci2|done|done| |done|done].
    intros y. by eapply unused_all; [apply Hpre1|..].
  - apply (attach_wp s1 R c k1 ls1 Empty a (o :: L)); [done..|].
    intros s2 k2 ls2 Hmv2 Hci2. eapply freed_done; [done| |exact Hci2].
    eapply freed_moved; [exact Hfd1|exact Hmv2|apply Hci2].
Qed.

(** Putting an object back changes no other slab of the cache. *)
Lemma touched_free_other s s' R c k a o b L :
  pages_ok s R → params_ok k → core_inv s R c k → touched a o s s' → has_slab s c a →
  is_obj k a o → b ≠ a → slab_st s' c k b L ↔ slab_st s c k b L.
Proof.
  intros Hp Hk Hcore Ht Ha Ho Hb. pose proof (touched_other _ _ _ _ _ Ht Hb) as Es.
  assert (has_slab s c b → ∀ x, is_obj k b x → h_objs s' !! x = h_objs s !! x) as Hob.
  { intros Hhb x Hx. apply (tc_objs _ _ _ _ Ht). intros ->.
    by apply (slabs_apart s R c k Hp Hk Hcore a b o). }
  split; intros Hst.
  - assert (has_slab s c b) as Hhb.
    { apply (touched_has_slab a o s s'); [done|]. by eapply slab_st_has. }
    eapply slab_st_same; [by rewrite Es| |exact Hst]. intros x Hx. symmetry. auto.
  - assert (has_slab s c b) as Hhb by by eapply slab_st_has.
    eapply slab_st_same; [done| |exact Hst]. auto.
Qed.

Lemma kmem_cache_free_wp s R c o :
  heap_inv s R → live s c o →
  wp (kmem_cache_free (Some c) (Some o)) (λ _, free_done c o s R) s.
Proof.
  intros Hi (k & a & L & Hk & Hst & Ho & HoL).
  destruct (heap_inv_cache s R c k Hi Hk) as (_ & _ & ls & Hci).
  pose proof Hci as [H1 H2 H3 H4 H5 H6]. pose proof (pk_total _ H2) as Htot.
  assert (has_slab s c a) as Hha by by eapply slab_st_has.
  unfold kmem_cache_free. apply wp_bind.
  apply (find_slab_wp s R c k ls a o L); [apply Hi|done..|].
  destruct (ss_desc _ _ _ _ _ Hst) as (sl & Hsl & _).
  apply wp_bind. eapply rd_slab_wp; [exact Hsl|]. rewrite (slab_st_full _ _ _ _ _ _ Hst Hsl).
  cbv zeta. apply wp_bind.
  assert (Z.of_nat (length L) < kc_objs_per_slab k) as Hlen.
  { assert (Z.of_nat (length (o :: L)) ≤ kc_objs_per_slab k) as Hle; [|simpl in Hle; lia].
    destruct Hst as [_ Hnd Hob _]. apply (objs_length k a); [lia|by apply NoDup_cons|].
    intros x [->|Hx]%elem_of_cons; auto. }
  apply (slab_free_obj_wp s c k a o L); [done..|]. intros s1 Ht Hst1.
  assert (∀ b L', b ≠ a → slab_st s1 c k b L' ↔ slab_st s c k b L') as Hoth1.
  { intros b L' Hb. by eapply touched_free_other; [apply Hi|..]. }
  assert (cache_pre s1 R c k ls (λ _, False) (λ b, b = a)) as Hpre1.
  { eapply touched_pre; [|done|exact Ht|exact Hst1|done]. apply cache_inv_pre; [tauto|done]. }
  assert (freed c k k a o L R s s1) as Hfd1.
  { pose proof Ht as [T1 T2 T3 T4 T5 T6].
    assert (refiled c k k a (o :: L) s s1) as Hrf by (split; [done|by rewrite T1|done..]).
    split; [done| |by eapply pages_ok_same; [..|apply Hi]|done|].
    - eapply (touched_others c k a o); [apply Hi| |done..].
      intros c' k' Hk'. by destruct (heap_inv_cache s R c' k' Hi Hk') as (? & ? & _).
    - eapply refiled_free; [exact Hrf|done|done|]. intros b x Hb Hhb.
      by apply (slabs_apart s R c k (hi_pages _ _ Hi) H2 H3 a b x). }
  apply wp_bind. apply (recount_pre_wp s1 R c k _ ls (λ _, False) (λ b, b = a)); [done|done|by intros []|].
  intros s2 Hmv2 Hpre2. set (k2 := set_counts _ _ _ _) in *.
  pose proof (freed_moved _ _ _ _ _ _ _ _ _ _ _ Hfd1 Hmv2 (cp_cache _ _ _ _ _ _ _ Hpre2)) as Hfd2.
  destruct (proj1 (H5 a) Hha) as [w Ha]. pose proof (H6 w a L Ha ltac:(tauto) Hst) as Hcl.
  case_bool_decide as HL.
  - assert (w = Full) as -> by (destruct w; simpl in Hcl; [done|done|subst L; simpl in Hcl; lia]).
    apply (move_wp s2 R c k2 ls Full Partial a (o :: L)); [done|done| |done|].
    + by apply (mv_st _ _ _ _ _ _ Hmv2).
    + intros s3 k3 ls3 Hmv3 Hci3. eapply freed_done; [done| |exact Hci3].
      eapply freed_moved; [exact Hfd2|exact Hmv3|apply Hci3].
  - assert (w = Partial) as -> by (destruct w; simpl in Hcl; [done|done|lia]).
    by eapply free_refile_wp.
Qed.

(** ** kmem_cache_create *)

Lemma kmem_cache_create_wp s R name size align flags (Q : option Z → heap S → Prop) :
  heap_inv s R → params_ok (new_cache name size align flags (cache_list s)) →
  (∀ s', heap_inv s' R → (∀ c, h_caches s' !! c = h_caches s !! c) → h_slabs s' = h_slabs s →
     (∀ c x, live s' c x ↔ live s c x) → kmalloc_caches s' = kmalloc_caches s → Q None s') →
  (∀ c s' R', let k := new_cache name size align flags (cache_list s) in
     heap_inv s' R' → R' = <[c := 1]> R → R !! c = None → h_slabs s' = h_slabs s →
     h_caches s !! c = None → h_caches s' = <[c := k]> (h_caches s) →
     (∀ x, ¬ live s' c x) → (∀ c' x, c' ≠ c → live s' c' x ↔ live s c' x) →
     kmalloc_caches s' = kmalloc_caches s → Q (Some c) s') →
  wp (kmem_cache_create name size align flags) Q s.
Proof.
  intros Hi Hpk HN HS. pose proof Hi as [Hp Hc Hw]. unfold kmem_cache_create. apply wp_bind.
  apply (heap_alloc_pages_wp s R); [done|split; lia|..].
  { intros p Hp'. apply wp_ret, HN; [|done|done|intros; by apply live_ext|done]. split; [done| |done].
    intros c k Hk. destruct (Hc c k Hk) as (? & ? & ls & Hci). split_and!; [done..|].
    exists ls. by eapply cache_inv_ext; [..|exact Hci]. }
  intros p c s1 Hfresh Hp1. apply wp_bind, wp_get, wp_bind, wp_modify, wp_bind, wp_modify, wp_ret.
  assert (h_caches s !! c = None) as Hnc.
  { destruct (h_caches s !! c) as [k|] eqn:Hk; [|done]. destruct (Hc c k Hk) as [? _]. congruence. }
  assert (∀ c' b, has_slab s c' b → c' ≠ c ∧ b ≠ c) as Hold.
  { intros c' b (x & Hx & Hxc). destruct (Hw b x Hx) as [k' Hk']. rewrite Hxc in Hk'.
    split; [congruence|]. destruct (Hc c' k' Hk') as (_ & _ & ls & Hci).
    destruct (ci_core _ _ _ _ _ Hci b) as [HR _]; [by exists x|]. congruence. }
  set (k := new_cache _ _ _ _ _). set (s2 := set_cache_list _ _).
  assert (others c s s2 R (<[c := 1]> R)) as Hot.
  { split; cbn [h_caches h_slabs h_objs s2 s1 set_cache_list set_caches set_current set_pm].
    - intros c' Hne. by rewrite lookup_insert_ne.
    - done.
    - by intros.
    - intros a Ha. by left.
    - done.
    - intros c' a _ Ha. destruct (Hold c' a Ha). by rewrite lookup_insert_ne.
    - intros c' Hc'. rewrite lookup_insert_ne; [done|]. intros <-. by rewrite Hnc in Hc'; destruct Hc'.
    - intros _. rewrite lookup_insert_eq. by eexists.
    - intros x n Hx Hs. split; [|done]. rewrite lookup_insert_ne; [done|congruence]. }
  assert (cache_inv s2 (<[c := 1]> R) c k (λ _, [])) as Hci.
  { assert (∀ a, ¬ has_slab s2 c a) as Hno by (intros a Ha; by destruct (Hold c a Ha)).
    split; [by cbn; rewrite lookup_insert_eq|done|..].
    - intros a Ha. by destruct (Hno a).
    - split; [by intros []|done|intros; constructor|]. by intros w w' a Ha%elem_of_nil.
    - intros a. split; [by intros Ha%Hno|]. by intros [w Ha%elem_of_nil].
    - by intros w a L Ha%elem_of_nil. }
  eapply (HS c s2 (<[c := 1]> R)).
  - split.
    + by eapply pages_ok_same; [..|exact Hp1].
    + intros c' k' Hk'. change (h_caches s2) with (<[c := k]> (h_caches s)) in Hk'.
      destruct (decide (c' = c)) as [He|Hne].
      * rewrite He in Hk' |- *. rewrite lookup_insert_eq in Hk'. rewrite lookup_insert_eq. injection Hk' as <-. split_and!; [done| |by eexists].
        destruct (h_slabs s !! c) as [x|] eqn:Hx; [|done].
        destruct (Hold (sl_cache x) c) as [_ ?]; [by exists x|done].
      * rewrite lookup_insert_ne in Hk' by done. rewrite lookup_insert_ne by done.
        destruct (Hc c' k' Hk') as (? & ? & ls & Hci').
        split_and!; [done..|]. exists ls. by eapply others_cache_inv.
    + intros a sl Hsl. change (h_caches s2) with (<[c := k]> (h_caches s)). destruct (Hw a sl Hsl) as [k' Hk'].
      rewrite lookup_insert_ne; [by exists k'|]. intros He. rewrite <-He in Hk'. congruence.
  - done.
  - done.
  - done.
  - done.
  - done.
  - intros x (k' & a & L & Hk' & Hst & _). apply slab_st_has in Hst. by destruct (Hold c a).
  - intros c' x Hne. unfold live. cbn [h_caches s2 s1 set_cache_list set_caches set_current set_pm].
    rewrite lookup_insert_ne by done.
    split; intros (k' & a & L & Hk' & Hst & Hr); exists k', a, L; (split; [done|]); (split; [|done]);
      (eapply slab_st_ext; [..|exact Hst]; done).
  - done.
Qed.

End alloc.

(** ** The sizes kmem_cache_create computes *)

Lemma calc_objs_eq size n :
  0 < size → 0 < n ≤ 16 → calc_objs_per_slab size n = (n * PAGE_SIZE - sizeof_slab_t) / size.
Proof.
  intros Hs Hn. unfold calc_objs_per_slab, sizeof_slab_t, PAGE_SIZE.
  rewrite (wrap_small 64 (n * _)), (wrap_small 64) by lia. apply wrap_small.
  split; [apply Z.div_pos; lia|]. apply Z.div_lt_upper_bound; nia.
Qed.

(** The doubling stops with two objects to a slab, or at 16 pages. *)
Lemma grow_slab_spec fuel size n :
  n = 1 ∨ n = 2 ∨ n = 4 ∨ n = 8 ∨ n = 16 → 16 < n * 2 ^ Z.of_nat fuel →
  let m := grow_slab fuel size n in
  1 ≤ m ≤ 16 ∧ (2 ≤ calc_objs_per_slab size m ∨ m = 16).
Proof.
  revert n. induction fuel as [|fuel IH]; intros n Hn Hf; [simpl in *; lia|].
  cbn [grow_slab]. destruct (Z.ltb_spec (calc_objs_per_slab size n) 2) as [Hlt|Hge];
    cbn [andb]; [|split; [lia|by left]].
  destruct (Z.ltb_spec n 16) as [Hlt16|Hge16]; [|split; [lia|right; lia]].
  apply IH; [lia|]. rewrite Nat2Z.inj_succ, Z.pow_succ_r in Hf by lia. lia.
Qed.

Lemma cache_align_spec size align :
  16 ≤ size → align = 0 ∨ align = 8 → ∃ j, 3 ≤ j ≤ 4 ∧ cache_align size align = 2 ^ j.
Proof.
  intros Hs [->| ->]; unfold cache_align; cbn [Z.eqb]; [|by exists 3].
  exists 4. split; [lia|]. destruct (Z.ltb_spec 8 size); [|lia].
  destruct (Z.leb_spec size 16); cbn [andb]; [done|]. by destruct (Z.ltb_spec 16 size); [|lia].
Qed.

Lemma new_cache_params name size align flags next :
  0 < size ≤ 32768 → align = 0 ∨ align = 8 → has flags SLAB_PANIC = false →
  params_ok (new_cache name size align flags next) ∧
  size ≤ kc_obj_size (new_cache name size align flags next).
Proof.
  intros Hs Ha Hf. unfold new_cache, SLAB_MIN_SIZE.
  set (size1 := if size <? 16 then 16 else size).
  assert (16 ≤ size1 ≤ 32768 ∧ size ≤ size1) as [Hs1 Hle].
  { unfold size1. destruct (Z.ltb_spec size 16); lia. }
  destruct (cache_align_spec size1 align) as (j & Hj & Hal); [lia|done|].
  cbv zeta. rewrite Hal.
  assert (8 ≤ 2 ^ j ≤ 16) as Hj2 by (assert (j = 3 ∨ j = 4) as [->| ->] by lia; lia).
  rewrite ALIGN_UP_spec by lia.
  set (sz := size1 + (2 ^ j - 1) - (size1 + (2 ^ j - 1)) mod 2 ^ j).
  assert (size1 ≤ sz ≤ 32784 ∧ sz mod 2 ^ j = 0) as [Hsz Hm].
  { unfold sz. split; [Z.to_euclidean_division_equations; lia|].
    rewrite Zminus_mod_idemp_r, Z.sub_diag. apply Z.mod_0_l. lia. }
  destruct (grow_slab_spec 5 sz (initial_slab_size sz)) as [Hm16 Hobj].
  { unfold initial_slab_size. repeat case_match; auto. }
  { unfold initial_slab_size. repeat case_match; simpl; lia. }
  set (n := grow_slab 5 sz (initial_slab_size sz)) in *.
  assert (0 < calc_objs_per_slab sz n) as Hpos.
  { destruct Hobj as [?| ->]; [lia|]. rewrite calc_objs_eq by lia.
    apply Z.div_str_pos. unfold PAGE_SIZE, sizeof_slab_t. lia. }
  split; [|cbn [kc_obj_size]; lia]. split; cbn [kc_slab_size kc_obj_size kc_align kc_objs_per_slab kc_flags].
  - lia.
  - lia.
  - exists j. split; [lia|done].
  - done.
  - split; [done|]. apply wrap_bounds. lia.
  - rewrite calc_objs_eq by lia. pose proof (Z.mul_div_le (n * PAGE_SIZE - sizeof_slab_t) sz ltac:(lia)). lia.
  - done.
Qed.
