(* ===== verification/KHeap.v ===== *)
(** * The kernel heap as its users see it

    The rest of the kernel takes memory with kmalloc and from object caches and
    gives it back.  [KHeap] is what it uses of mm/slab.c and [KHeapLaws] what it
    relies on, in terms of the blocks it holds: a map from addresses to the
    cache a block came from ([None] for kmalloc) and its size.  The slab
    allocator over any page mapper is the instance, so every theorem proved
    against this interface holds for the kernel's own memory management. *)

From stdpp Require Import functions strings.
From S2P Require Import Prelude DList Pmm PmmThm Frames Vmm VmmInv VmmThm PageMap.
From S2P Require Import Slab SlabInv SlabOps SlabThm.

(** ** The interface *)

Abbreviation blocks := (gmap Z (option Z * Z)).

(** The largest request to kmalloc that is covered: 512MB. *)
Definition KMALLOC_LIMIT : Z := 2 ^ 29.

(** [kh_inv s C H]: the caches [C] exist, with their object sizes, and the
    blocks [H] are held. *)
Class KHeap (S : Type) := {
  kh_kmalloc : Z → M S (option Z);
  kh_kfree : Z → M S unit;
  kh_cache_alloc : Z → M S (option Z);
  kh_cache_free : Z → Z → M S unit;
  kh_cache_create : string → Z → Z → Z → M S (option Z);
  kh_inv : S → gmap Z Z → blocks → Prop }.

Class KHeapLaws (S : Type) `{KH : KHeap S} : Prop := {
  kh_kmalloc_law s C H n : kh_inv s C H → 0 ≤ n ≤ KMALLOC_LIMIT →
    wp (kh_kmalloc n) (λ r s', match r with
      | None => kh_inv s' C H
      | Some p => 0 < p ∧ 0 < n ∧ H !! p = None ∧ kh_inv s' C (<[p := (None, n)]> H)
      end) s;
  kh_kfree_law s C H p n : kh_inv s C H → H !! p = Some (None, n) →
    wp (kh_kfree p) (λ _ s', kh_inv s' C (delete p H)) s;
  kh_alloc_law s C H c sz : kh_inv s C H → C !! c = Some sz →
    wp (kh_cache_alloc c) (λ r s', match r with
      | None => kh_inv s' C H
      | Some p => 0 < p ∧ H !! p = None ∧ kh_inv s' C (<[p := (Some c, sz)]> H)
      end) s;
  kh_free_law s C H c p n : kh_inv s C H → H !! p = Some (Some c, n) →
    wp (kh_cache_free c p) (λ _ s', kh_inv s' C (delete p H)) s;
  kh_kfree_cached_law s C H c p n sz : kh_inv s C H → H !! p = Some (Some c, n) → C !! c = Some sz →
    wp (kh_kfree p) (λ _ s', kh_inv s' C H) s;
  kh_free_other_law s C H c p t n sz : kh_inv s C H → H !! p = Some (t, n) → C !! c = Some sz →
    t ≠ Some c → wp (kh_cache_free c p) (λ _ s', kh_inv s' C H) s;
  kh_create_law s C H name size align flags : kh_inv s C H →
    0 < size ≤ 32768 → align = 0 ∨ align = 8 → has flags SLAB_PANIC = false →
    wp (kh_cache_create name size align flags) (λ r s', match r with
      | None => kh_inv s' C H
      | Some c => 0 < c ∧ C !! c = None ∧ kh_inv s' (<[c := size]> C) H
      end) s;
  kh_disjoint s C H p t n q t' m : kh_inv s C H →
    H !! p = Some (t, n) → H !! q = Some (t', m) → p ≠ q → p + n ≤ q ∨ q + m ≤ p }.

(** kmem_cache_alloc and kmem_cache_free with a cache that may be NULL. *)
Definition kmem_alloc {S} {KH : KHeap S} (c : option Z) : M S (option Z) :=
  match c with Some c => kh_cache_alloc c | None => mret None end.

Definition kmem_free {S} {KH : KHeap S} (c : option Z) (p : Z) : M S unit :=
  match c with Some c => kh_cache_free c p | None => mret tt end.

Section kheap.
Context {S : Type} {PM : PageMapper S} {PML : PageMapperLaws S}.
Implicit Types (s : heap S) (R : gmap Z Z) (a b c o p q : Z) (k : kmem_cache).

(** ** Blocks *)

(** A block of [n] bytes at [p] that came from the cache [t], or from kmalloc. *)
Definition from_cache s c p n : Prop :=
  ∃ k, h_caches s !! c = Some k ∧ live s c p ∧ n ≤ kc_obj_size k.

Definition large s R p n : Prop :=
  ∃ m, R !! p = Some m ∧ n ≤ m * PAGE_SIZE ∧ h_caches s !! p = None ∧ h_slabs s !! p = None.

Definition held s R p (t : option Z) n : Prop :=
  match t with
  | Some c => from_cache s c p n
  | None => (∃ c, Some c ∈ kmalloc_caches s ∧ from_cache s c p n) ∨ large s R p n
  end.

Lemma live_place s R c p :
  heap_inv s R → live s c p → ∃ k a, h_caches s !! c = Some k ∧ params_ok k ∧
    R !! a = Some (kc_slab_size k) ∧ has_slab s c a ∧ is_obj k a p ∧
    a < p ∧ p + kc_obj_size k ≤ a + kc_slab_size k * PAGE_SIZE.
Proof.
  intros Hi (k & a & L & Hk & Hst & Ho & _).
  destruct (heap_inv_cache s R c k Hi Hk) as (Hpk & Hcore & _).
  assert (has_slab s c a) as Ha by by eapply slab_st_has. destruct (Hcore a Ha) as [HR _].
  exists k, a. split_and!; try done;
    eapply is_obj_bounds; try done; eapply region_heap_addr; [apply Hi|done|apply Hi|done].
Qed.

Lemma from_cache_apart s R c p n c' q m :
  heap_inv s R → from_cache s c p n → from_cache s c' q m → p ≠ q → p + n ≤ q ∨ q + m ≤ p.
Proof.
  intros Hi (k & Hk & Hp & Hn) (k' & Hk' & Hq & Hm) Hne.
  destruct (live_place s R c p Hi Hp) as (k1 & a & E1 & Hpk & HRa & Ha & Hop & ? & ?).
  destruct (live_place s R c' q Hi Hq) as (k2 & b & E2 & Hpk' & HRb & Hb & Hoq & ? & ?).
  simplify_eq. destruct (decide (a = b)) as [->|Hab].
  - destruct Ha as (x & Hx & Hxc), Hb as (y & Hy & Hyc). simplify_eq.
    destruct (is_obj_apart _ _ _ _ Hpk Hop Hoq Hne); lia.
  - destruct (po_disjoint _ _ (hi_pages _ _ Hi) _ _ _ _ HRa HRb Hab); lia.
Qed.

(** An object from a cache lies inside a slab, away from a large block. *)
Lemma from_cache_large s R c p n q m :
  heap_inv s R → from_cache s c p n → large s R q m → p + n ≤ q ∨ q + m ≤ p.
Proof.
  intros Hi (k & Hk & Hp & Hn) (x & HRq & Hm & Hcq & Hsq).
  destruct (live_place s R c p Hi Hp) as (k1 & a & E1 & Hpk & HRa & (y & Hy & _) & Hop & ? & ?).
  simplify_eq. assert (a ≠ q) as Haq by congruence.
  destruct (po_disjoint _ _ (hi_pages _ _ Hi) _ _ _ _ HRa HRq Haq); lia.
Qed.

Lemma large_apart s R p n q m :
  heap_inv s R → large s R p n → large s R q m → p ≠ q → p + n ≤ q ∨ q + m ≤ p.
Proof.
  intros Hi (x & HRp & Hn & _) (y & HRq & Hm & _) Hne.
  destruct (po_disjoint _ _ (hi_pages _ _ Hi) _ _ _ _ HRp HRq Hne); lia.
Qed.

Definition any_block s R p n : Prop := (∃ c, from_cache s c p n) ∨ large s R p n.

Lemma held_any s R p t n : held s R p t n → any_block s R p n.
Proof. destruct t as [c|]; [left; by exists c|]. intros [(c & _ & ?)|?]; [left; by exists c|by right]. Qed.

Lemma any_block_apart s R p n q m :
  heap_inv s R → any_block s R p n → any_block s R q m → p ≠ q → p + n ≤ q ∨ q + m ≤ p.
Proof.
  intros Hi [[c Hc]|Hl] [[c' Hc']|Hl'] Hne.
  - by eapply from_cache_apart.
  - by eapply from_cache_large.
  - destruct (from_cache_large s R c' q m p n Hi Hc' Hl); tauto.
  - by eapply large_apart.
Qed.

Lemma any_block_pos s R p n : heap_inv s R → any_block s R p n → 0 < p.
Proof.
  intros Hi Hb.
  assert (∃ a m, R !! a = Some m ∧ a ≤ p) as (a & m & HR & Hle).
  { destruct Hb as [(c & k & Hk & Hl & _)|(m & HR & _)].
    - destruct (live_place s R c p Hi Hl) as (k1 & a & _ & _ & HR & _ & _ & ? & _).
      exists a, (kc_slab_size k1). split; [done|lia].
    - exists p, m. done. }
  destruct (po_region _ _ (hi_pages _ _ Hi) _ _ HR) as (_ & ? & _). unfold KHEAP_START in *. lia.
Qed.

(** ** Blocks across an operation on a cache *)

Lemma from_cache_keep c s s' R R' c' p n :
  others c s s' R R' → keeps_par c s s' → (live s c p → live s' c p) →
  heap_inv s R → from_cache s c' p n → from_cache s' c' p n.
Proof.
  intros Ho Hk Hl Hi (k & Hc & Hp & Hn). destruct (decide (c' = c)) as [->|Hne].
  - destruct (Hk k Hc) as (k' & Hc' & E & _). exists k'. split_and!; [done|by apply Hl|by rewrite E].
  - exists k. pose proof (ot_caches _ _ _ _ _ Ho c' Hne) as Ec. split_and!; [by rewrite Ec| |done].
    destruct Hp as (k1 & a & L & Hk1 & Hst & Hob & HL). exists k1, a, L.
    split_and!; [by rewrite Ec| |done|done].
    assert (has_slab s c' a) as Ha by by eapply slab_st_has.
    eapply slab_st_same; [by eapply (ot_slabs _ _ _ _ _ Ho c')| |done].
    intros o Hob'. by eapply (ot_objs _ _ _ _ _ Ho c' k1 a).
Qed.

Lemma large_keep c s s' R R' p n :
  others c s s' R R' → is_Some (h_caches s !! c) → large s R p n → large s' R' p n.
Proof.
  intros Ho [k Hk] (m & HR & Hn & Hc & Hs). destruct (ot_large _ _ _ _ _ Ho p m HR Hs).
  exists m. split_and!; [done|done| |done]. rewrite (ot_caches _ _ _ _ _ Ho); [done|]. congruence.
Qed.

Lemma held_keep c s s' R R' p t n :
  others c s s' R R' → keeps_par c s s' → (live s c p → live s' c p) →
  is_Some (h_caches s !! c) → kmalloc_caches s' = kmalloc_caches s →
  heap_inv s R → held s R p t n → held s' R' p t n.
Proof.
  intros Ho Hk Hl Hc Hkm Hi. destruct t as [c'|]; simpl.
  - by eapply from_cache_keep.
  - rewrite Hkm. intros [(c' & Hin & Hf)|Hf].
    + left. exists c'. split; [done|]. by eapply from_cache_keep.
    + right. by eapply large_keep.
Qed.

(** A new object of a cache is no block that was held before. *)
Lemma new_object_fresh c s s' R R' o p t n :
  others c s s' R R' → keeps_par c s s' → heap_inv s R → heap_inv s' R' →
  is_Some (h_caches s !! c) → ¬ live s c o → live s' c o → held s R p t n → p ≠ o.
Proof.
  intros Ho Hk Hi Hi' Hc Hn Hl Hb ->.
  destruct (live_place s' R' c o Hi' Hl) as (k & a & Hk1 & Hpk & HRa & (x & Hx & Hxc) & Hoa & ? & ?).
  pose proof (pk_obj _ Hpk). apply held_any in Hb as [[c2 Hf]|Hlg].
  - assert (c2 ≠ c) as Hne by (intros ->; destruct Hf as (? & ? & ? & _); done).
    assert (from_cache s' c2 o n) as (k2 & _ & Hl2 & _) by by eapply (from_cache_keep c s s').
    destruct (live_place s' R' c2 o Hi' Hl2) as (k3 & b & _ & Hpk3 & HRb & (y & Hy & Hyc) & Hob & _).
    apply (slab_objs_apart s' R' a b k k3 o); try done; [apply Hi'|congruence].
  - destruct (large_keep c s s' R R' o n Ho Hc Hlg) as (m & HRo & _ & _ & Hso).
    assert (a ≠ o) as Hne by congruence. destruct (po_region _ _ (hi_pages _ _ Hi') _ _ HRo).
    destruct (po_disjoint _ _ (hi_pages _ _ Hi') _ _ _ _ HRa HRo Hne); unfold PAGE_SIZE in *; lia.
Qed.

(** ** The invariant behind the interface *)

(** The kmalloc caches exist and their objects are large enough. *)
Definition kmalloc_ok s : Prop :=
  length (kmalloc_caches s) = length kmalloc_sizes ∧
  ∀ i n, kmalloc_sizes !! i = Some n →
    ∃ c k, kmalloc_caches s !! i = Some (Some c) ∧ h_caches s !! c = Some k ∧ n ≤ kc_obj_size k.

(** The caches [C] exist, and are not those of kmalloc. *)
Definition caches_exist s (C : gmap Z Z) : Prop :=
  ∀ c sz, C !! c = Some sz → (Some c ∉ kmalloc_caches s) ∧
    ∃ k, h_caches s !! c = Some k ∧ sz ≤ kc_obj_size k.

Record heap_holds s (C : gmap Z Z) (H : blocks) : Prop := HeapHolds {
  hh_inv : ∃ R, heap_inv s R ∧ ∀ p t n, H !! p = Some (t, n) → held s R p t n;
  hh_kmalloc : kmalloc_ok s;
  hh_caches : caches_exist s C }.

#[export] Instance slab_kheap : KHeap (heap S) := {|
  kh_kmalloc := kmalloc;
  kh_kfree := λ p, kfree (Some p);
  kh_cache_alloc := λ c, kmem_cache_alloc (Some c);
  kh_cache_free := λ c p, kmem_cache_free (Some c) (Some p);
  kh_cache_create := kmem_cache_create;
  kh_inv := heap_holds |}.

Lemma caches_keep c s s' R R' :
  others c s s' R R' → keeps_par c s s' →
  ∀ c' k, h_caches s !! c' = Some k → ∃ k', h_caches s' !! c' = Some k' ∧ kc_obj_size k' = kc_obj_size k.
Proof.
  intros Ho Hk c' k Hc'. destruct (decide (c' = c)) as [->|Hne].
  - destruct (Hk k Hc') as (k' & ? & E & _). by exists k'.
  - exists k. by rewrite (ot_caches _ _ _ _ _ Ho).
Qed.

Lemma kmalloc_ok_keep c s s' R R' :
  others c s s' R R' → keeps_par c s s' → kmalloc_caches s' = kmalloc_caches s →
  kmalloc_ok s → kmalloc_ok s'.
Proof.
  intros Ho Hk Hkm [Hlen Hok]. split; [by rewrite Hkm|].
  intros i n Hi. destruct (Hok i n Hi) as (c' & k & Hc & Hck & Hn).
  destruct (caches_keep _ _ _ _ _ Ho Hk c' k Hck) as (k' & Hk' & E).
  exists c', k'. rewrite Hkm, E. done.
Qed.

Lemma caches_exist_keep c s s' R R' C :
  others c s s' R R' → keeps_par c s s' → kmalloc_caches s' = kmalloc_caches s →
  caches_exist s C → caches_exist s' C.
Proof.
  intros Ho Hk Hkm Hok c' sz Hc. destruct (Hok c' sz Hc) as (Hap & k & Hck & Hsz). split; [by rewrite Hkm|].
  destruct (caches_keep c s s' R R' Ho Hk c' k Hck) as (k' & ? & E). exists k'. by rewrite E.
Qed.

(** An allocation from the cache [c], seen through the blocks. *)
Lemma cache_alloc_holds s C H c k :
  heap_holds s C H → h_caches s !! c = Some k →
  wp (kmem_cache_alloc (Some c)) (λ r s',
    match r with
    | None => heap_holds s' C H
    | Some p => 0 < p ∧ H !! p = None ∧
        ∀ t n, t = Some c ∨ (t = None ∧ Some c ∈ kmalloc_caches s) → n ≤ kc_obj_size k →
          heap_holds s' C (<[p := (t, n)]> H)
    end) s.
Proof.
  intros [(R & Hi & Hh) Hok Hce] Hk. eapply wp_mono; [by eapply kmem_cache_alloc_wp|].
  intros r s' (R' & Hi' & Ho & Hkm & Hpar & Hl).
  assert (is_Some (h_caches s !! c)) as Hsome by by eexists.
  assert (∀ p t n, H !! p = Some (t, n) → held s' R' p t n) as Hh'.
  { intros p t n Hp. eapply (held_keep c s s' R R'); try done; [|by apply Hh].
    destruct r as [o|]; [destruct Hl as [_ Hl]|]; intros Hx; apply Hl; auto. }
  assert (kmalloc_ok s') as Hok' by by eapply kmalloc_ok_keep.
  assert (caches_exist s' C) as Hce' by by eapply caches_exist_keep.
  destruct r as [o|]; [|by split; [exists R'|..]]. destruct Hl as [Hn Hl].
  assert (live s' c o) as Hlo by (apply Hl; by right).
  destruct (Hpar k Hk) as (k' & Hk' & E & _).
  assert (from_cache s' c o (kc_obj_size k)) as Hfc by (exists k'; by rewrite E).
  split_and!.
  - eapply any_block_pos; [exact Hi'|]. left. by exists c.
  - destruct (H !! o) as [[t n]|] eqn:Hp; [|done]. exfalso.
    by apply (new_object_fresh c s s' R R' o o t n); [..|apply Hh|].
  - intros t n Ht Hn'. split; [|done|done]. exists R'. split; [done|].
    intros p t' n' [[<- [= <- <-]]|[_ Hp]]%lookup_insert_Some; [|by apply Hh'].
    assert (from_cache s' c o n) as Hf.
    { destruct Hfc as (k2 & ? & ? & ?). exists k2. split_and!; [done..|lia]. }
    destruct Ht as [->|[-> Hin]]; [done|]. left. exists c. by rewrite Hkm.
Qed.

Lemma cache_free_holds s C H c p t n :
  heap_holds s C H → H !! p = Some (t, n) → live s c p →
  wp (kmem_cache_free (Some c) (Some p)) (λ _ s', heap_holds s' C (delete p H)) s.
Proof.
  intros [(R & Hi & Hh) Hok Hce] Hp Hl. eapply wp_mono; [by eapply kmem_cache_free_wp|].
  intros [] s' (R' & Hi' & Ho & Hkm & Hpar & Hl').
  assert (is_Some (h_caches s !! c)) as Hsome by (destruct Hl as (k & _ & _ & ? & _); by exists k).
  split; [|by eapply kmalloc_ok_keep|by eapply caches_exist_keep].
  exists R'. split; [done|]. intros q t' n' [Hne Hq]%lookup_delete_Some.
  eapply (held_keep c s s' R R'); try done; [|by apply Hh]. intros Hx. by apply Hl'.
Qed.

(** ** kmalloc *)

Lemma find_kmalloc_from_spec sizes i size :
  (∃ j n, find_kmalloc_from sizes i size = i + Z.of_nat j ∧ sizes !! j = Some n ∧ size ≤ n) ∨
  (∀ n, n ∈ sizes → n < size).
Proof.
  revert i. induction sizes as [|n sizes IH]; intros i; [right; by intros n Hn%elem_of_nil|].
  simpl. destruct (Z.leb_spec size n) as [Hle|Hlt].
  - left. exists 0%nat, n. split_and!; [lia|done|done].
  - destruct (IH (i + 1)) as [(j & m & -> & Hj & Hm)|Hall].
    + left. exists (Datatypes.S j), m. split_and!; [lia|done|done].
    + right. intros m [->|Hm]%elem_of_cons; auto.
Qed.

Lemma heap_inv_grow s s' R R' :
  h_caches s' = h_caches s → h_slabs s' = h_slabs s → h_objs s' = h_objs s →
  (∀ a n, R !! a = Some n → R' !! a = Some n) → pages_ok s' R' → heap_inv s R → heap_inv s' R'.
Proof.
  intros E1 E2 E3 HR Hp [_ Hc Hw]. split; [done|..].
  - intros c k Hk. rewrite E1 in Hk. destruct (Hc c k Hk) as (? & ? & ls & Hci).
    split_and!; [by apply HR|by rewrite E2|]. exists ls.
    eapply (cache_inv_ext s s'); [done..|]. destruct Hci as [C1 C2 C3 C4 C5 C6]. split; try done.
    intros a Ha. destruct (C3 a Ha) as [? ?]. auto.
  - intros a sl Hsl. rewrite E2 in Hsl. rewrite E1. by eapply Hw.
Qed.

Lemma held_grow s s' R R' p t n :
  h_caches s' = h_caches s → h_slabs s' = h_slabs s → h_objs s' = h_objs s →
  kmalloc_caches s' = kmalloc_caches s → (∀ a m, R !! a = Some m → R' !! a = Some m) →
  held s R p t n → held s' R' p t n.
Proof.
  intros E1 E2 E3 E4 HR.
  assert (∀ c, from_cache s c p n → from_cache s' c p n) as Hf.
  { intros c (k & Hk & Hl & Hn). exists k. rewrite E1. split_and!; [done| |done].
    by apply (live_ext s s'). }
  destruct t as [c|]; simpl; [auto|]. rewrite E4. intros [(c & Hin & Hc)|(m & Hm & Hrest)].
  - left. exists c. auto.
  - right. exists m. rewrite E1, E2. auto.
Qed.

Lemma kmalloc_large_holds s C H n :
  heap_holds s C H → SLAB_MAX_SIZE < n ≤ KMALLOC_LIMIT →
  wp (heap_alloc_pages (((n +u64 PAGE_SIZE) -u64 1) / PAGE_SIZE)) (λ r s',
    match r with
    | None => heap_holds s' C H
    | Some p => 0 < p ∧ H !! p = None ∧ heap_holds s' C (<[p := (None, n)]> H)
    end) s.
Proof.
  intros [(R & Hi & Hh) Hok Hce] Hn. unfold SLAB_MAX_SIZE, KMALLOC_LIMIT in Hn.
  assert (((n +u64 PAGE_SIZE) -u64 1) / PAGE_SIZE = (n + 4095) / 4096) as ->.
  { unfold PAGE_SIZE. rewrite (wrap_small 64 (n + _)), wrap_small by lia. f_equal. lia. }
  assert (0 < (n + 4095) / 4096 < 2 ^ 18 ∧ n ≤ (n + 4095) / 4096 * PAGE_SIZE) as [Hsz Hfit].
  { unfold PAGE_SIZE. Z.to_euclidean_division_equations. lia. }
  apply (heap_alloc_pages_wp s R); [apply Hi|done|..].
  - intros p Hp. split; [|done|done]. exists R. split.
    + by eapply (heap_inv_grow s); [..|done].
    + intros q t m Hq. by apply (held_grow s _ R); [..|apply Hh].
  - intros p a s1 Hfresh Hp1. pose proof Hi as [Hpg Hca Hw].
    assert (∀ b m, R !! b = Some m → <[a := (n + 4095) / 4096]> R !! b = Some m) as HR.
    { intros b m Hb. rewrite lookup_insert_ne; [done|congruence]. }
    assert (heap_inv s1 (<[a := (n + 4095) / 4096]> R)) as Hi1 by by eapply (heap_inv_grow s).
    assert (large s1 (<[a := (n + 4095) / 4096]> R) a n) as Hlg.
    { exists ((n + 4095) / 4096). rewrite lookup_insert_eq. split_and!; [done|done|..].
      - destruct (h_caches s !! a) as [k|] eqn:Hk; [|done]. destruct (Hca a k Hk). congruence.
      - destruct (h_slabs s !! a) as [x|] eqn:Hx; [|done]. destruct (Hw a x Hx) as [k Hk].
        destruct (Hca _ k Hk) as (_ & _ & ls & Hci).
        destruct (ci_core _ _ _ _ _ Hci a) as [? _]; [by exists x|congruence]. }
    split_and!.
    + eapply any_block_pos; [exact Hi1|]. by right.
    + destruct (H !! a) as [[t m]|] eqn:Ha; [|done]. exfalso.
      apply Hh, held_any in Ha as [(c & k & Hk & Hl & _)|(x & Hx & _)]; [|congruence].
      destruct (live_place s R c a Hi Hl) as (k1 & b & _ & Hpk & HRb & _ & _ & ? & ?).
      pose proof (pk_obj _ Hpk). destruct (po_region _ _ Hpg _ _ HRb) as (_ & _ & _ & ?).
      unfold a in *. lia.
    + split; [|done|done]. exists (<[a := (n + 4095) / 4096]> R). split; [done|].
      intros q t m [[<- [= <- <-]]|[_ Hq]]%lookup_insert_Some; [by right|].
      by apply (held_grow s _ R); [..|apply Hh].
Qed.

Lemma kmalloc_holds s C H n :
  heap_holds s C H → 0 ≤ n ≤ KMALLOC_LIMIT →
  wp (kmalloc n) (λ r s', match r with
    | None => heap_holds s' C H
    | Some p => 0 < p ∧ 0 < n ∧ H !! p = None ∧ heap_holds s' C (<[p := (None, n)]> H)
    end) s.
Proof.
  intros Hh Hn. unfold kmalloc. destruct (Z.eqb_spec n 0) as [->|Hn0]; [by apply wp_ret|].
  destruct (Z.ltb_spec SLAB_MAX_SIZE n) as [Hlt|Hle].
  { eapply wp_mono; [apply kmalloc_large_holds; [done|lia]|]. intros [p|] s'; [|done].
    intros (? & ? & ?). split_and!; [done|lia|done|done]. }
  unfold find_kmalloc_cache. cbv zeta.
  destruct (find_kmalloc_from_spec kmalloc_sizes 0 n) as [(j & m & -> & Hj & Hm)|Hall]; last first.
  { assert (4096 < n) as ?; [|unfold SLAB_MAX_SIZE in *; lia]. apply Hall. by vm_compute; repeat constructor. }
  destruct (Z.ltb_spec (0 + Z.of_nat j) 0) as [?|_]; [lia|].
  apply wp_bind, wp_get, wp_bind.
  destruct (proj2 (hh_kmalloc _ _ _ Hh) j m Hj) as (c & k & Hc & Hk & Hsz).
  eapply wp_lift.
  { unfold aget. rewrite decide_True by lia.
    replace (Z.to_nat (0 + Z.of_nat j)) with j by lia. exact Hc. }
  eapply wp_mono; [by eapply cache_alloc_holds|]. intros [p|] s'; [|done].
  intros (? & ? & Hp). split_and!; [done|lia|done|]. apply Hp; [|lia].
  right. split; [done|]. by eapply list_elem_of_lookup_2.
Qed.

(** ** kfree *)

Lemma find_slab_none_wp s R c k ls o (Q : option Z → heap S → Prop) :
  cache_inv s R c k ls →
  (∀ b, has_slab s c b → slab_holds (kc_slab_size k) o b = false) →
  Q None s → wp (find_slab_for_obj c o) Q s.
Proof.
  intros [C1 C2 C3 C4 C5 C6] Hno HQ.
  assert (∀ w, wp (find_in_list (size (h_slabs s)) (kc_slab_size k) o (get_list w k)) (λ r s',
    s' = s ∧ r = None) s) as Hfind.
  { intros w. destruct C4 as [Hh Hd Hnd _]. rewrite Hh.
    eapply wp_mono; [eapply find_in_list_wp; [apply Hd|]|].
    - apply length_le_size; [apply Hnd|]. intros x Hx.
      destruct (dlist_lookup _ _ _ (Hd w) Hx) as (? & ? & _ & Hl). unfold slinks in Hl.
      destruct (h_slabs s !! x); [eauto|done].
    - intros r s' [-> Hr]. split; [done|]. destruct r as [b|]; [|done]. destruct Hr as [Hb Hbh].
      rewrite Hno in Hbh; [done|]. apply C5. by exists w. }
  unfold find_slab_for_obj. apply wp_bind. eapply rd_cache_wp; [exact C1|].
  apply wp_bind, wp_get, wp_bind. eapply wp_mono; [apply (Hfind Partial)|].
  intros r s' [-> ->]. eapply wp_mono; [apply (Hfind Full)|]. by intros r s' [-> ->].
Qed.

(** The addresses outside the slabs of a cache. *)
Lemma slab_holds_other s R b n a m o :
  pages_ok s R → R !! b = Some n → R !! a = Some m → a ≠ b →
  a ≤ o < a + m * PAGE_SIZE → slab_holds n o b = false.
Proof.
  intros Hp Hb Ha Hne Ho. pose proof (region_heap_addr _ _ _ _ Hp Hb) as (Hb1 & _ & Hb2).
  destruct (po_region _ _ Hp _ _ Hb) as (Hn & _ & _ & _).
  unfold slab_holds.
  assert (b +u64 (n *u64 PAGE_SIZE) = b + n * PAGE_SIZE) as ->.
  { unfold KHEAP_START, KHEAP_END, PAGE_SIZE in *.
    rewrite (wrap_small 64 (_ * _)), wrap_small by lia. done. }
  apply andb_false_iff. rewrite Z.leb_gt, Z.ltb_ge.
  destruct (po_disjoint _ _ Hp _ _ _ _ Ha Hb Hne); lia.
Qed.

Lemma find_owner_wp s R cs o a n (Q : option Z → heap S → Prop) :
  heap_inv s R → R !! a = Some n → a ≤ o < a + n * PAGE_SIZE →
  (∀ c, Some c ∈ cs → is_Some (h_caches s !! c)) →
  (∀ c, live s c o → Some c ∈ cs → Q (Some c) s) →
  ((∀ c, Some c ∈ cs → ¬ has_slab s c a) → Q None s) →
  (∀ c, has_slab s c a → live s c o) →
  wp (find_owner cs o) Q s.
Proof.
  intros Hi HRa Ho. induction cs as [|[c|] cs IH]; intros Hex HS HN Hlive; simpl.
  - apply wp_ret, HN. by intros c Hc%elem_of_nil.
  - destruct (Hex c) as [k Hk]; [left|].
    destruct (heap_inv_cache s R c k Hi Hk) as (Hpk & Hcore & ls & Hci). apply wp_bind.
    assert (has_slab s c a ∨ ¬ has_slab s c a) as [Hha|Hha].
    { unfold has_slab. destruct (h_slabs s !! a) as [sl|]; [|right; by intros (? & ? & _)].
      destruct (decide (sl_cache sl = c)); [left; by exists sl|right; intros (? & ? & ?); congruence]. }
    + pose proof (Hlive c Hha) as Hl. pose proof Hl as (k1 & b & L & Hk1 & Hst & Hob & HoL).
      replace k1 with k in * by congruence.
      eapply (find_slab_wp s R c k ls b o L); [apply Hi|done..|].
      apply wp_ret, HS; [done|left].
    + eapply find_slab_none_wp; [exact Hci| |].
      * intros b Hb. destruct (Hcore b Hb) as [HRb _].
        eapply slab_holds_other; [apply Hi|done|exact HRa| |done]. by intros ->.
      * apply IH; [|..|done].
        -- intros c' Hc'. apply Hex. by right.
        -- intros c' Hl Hc'. apply HS; [done|by right].
        -- intros Hno. apply HN. intros c' [[= ->]|Hc']%elem_of_cons; auto.
  - apply IH; [|..|done].
    + intros c' Hc'. apply Hex. by right.
    + intros c' Hl Hc'. apply HS; [done|by right].
    + intros Hno. apply HN. intros c' [?|Hc']%elem_of_cons; [done|auto].
Qed.

Lemma heap_holds_less s C H p : heap_holds s C H → heap_holds s C (delete p H).
Proof.
  intros [(R & Hi & Hh) Hok Hce]. split; [|done|done]. exists R. split; [done|].
  intros q t n [_ Hq]%lookup_delete_Some. by apply Hh.
Qed.

Lemma kmalloc_caches_exist s c : kmalloc_ok s → Some c ∈ kmalloc_caches s → is_Some (h_caches s !! c).
Proof.
  intros [Hlen Hok] [i Hi]%list_elem_of_lookup.
  assert (is_Some (kmalloc_sizes !! i)) as [n Hn].
  { apply lookup_lt_is_Some. rewrite <-Hlen. by eapply lookup_lt_Some. }
  destruct (Hok i n Hn) as (c' & k & Hc & Hk & _). simplify_eq. by exists k.
Qed.

Lemma kfree_holds s C H p n :
  heap_holds s C H → H !! p = Some (None, n) →
  wp (kfree (Some p)) (λ _ s', heap_holds s' C (delete p H)) s.
Proof.
  intros Hhh Hp. pose proof Hhh as [(R & Hi & Hh) Hok Hce]. pose proof (hi_pages _ _ Hi) as Hpg.
  assert (∃ a m, R !! a = Some m ∧ a ≤ p < a + m * PAGE_SIZE ∧
    (∀ c, has_slab s c a → live s c p)) as (a & m & HRa & Hap & Hlive).
  { destruct (Hh p None n Hp) as [(c & _ & k & Hk & Hl & _)|(m & HRp & _ & _ & Hsp)].
    - destruct (live_place s R c p Hi Hl) as (k1 & a & _ & Hpk & HRa & (x & Hx & Hxc) & _ & ? & ?).
      pose proof (pk_obj _ Hpk). exists a, (kc_slab_size k1). split_and!; [done|lia|lia|].
      intros c' (y & Hy & Hyc). by simplify_eq.
    - exists p, m. destruct (po_region _ _ Hpg _ _ HRp). unfold PAGE_SIZE. split_and!; [done|lia|lia|].
      intros c (x & Hx & _). congruence. }
  destruct (po_region _ _ Hpg _ _ HRa) as (_ & Hs & _ & He).
  unfold kfree. apply wp_bind, wp_get. rewrite (proj2 (Z.ltb_ge p KHEAP_START)) by lia.
  rewrite (proj2 (Z.leb_gt _ _)) by lia. cbn [orb]. apply wp_bind.
  eapply (find_owner_wp s R _ p a m); [done..| | | |done].
  - intros c. by apply kmalloc_caches_exist.
  - intros c Hl _. by eapply cache_free_holds.
  - intros _. apply wp_ret. by apply heap_holds_less.
Qed.

(** ** Blocks given back to the wrong place

    kfree looks only at the caches of kmalloc, and kmem_cache_free only at its
    cache: given another block they do nothing, and the block is lost. *)

(** Where a block lies: a region, and the cache whose slab it is, if any. *)
Lemma held_region s R p t n :
  heap_inv s R → held s R p t n →
  ∃ a m, R !! a = Some m ∧ a ≤ p < a + m * PAGE_SIZE ∧ ∀ c, has_slab s c a →
    live s c p ∧ (t = Some c ∨ t = None ∧ Some c ∈ kmalloc_caches s).
Proof.
  intros Hi Hp. pose proof (hi_pages _ _ Hi) as Hpg.
  assert (∀ c, live s c p → (t = Some c ∨ t = None ∧ Some c ∈ kmalloc_caches s) →
    ∃ a m, R !! a = Some m ∧ a ≤ p < a + m * PAGE_SIZE ∧ ∀ c, has_slab s c a →
      live s c p ∧ (t = Some c ∨ t = None ∧ Some c ∈ kmalloc_caches s)) as Hlive.
  { intros c Hl Ht. destruct (live_place s R c p Hi Hl) as (k & a & _ & Hpk & HRa & (x & Hx & Hxc) & _ & ? & ?).
    pose proof (pk_obj _ Hpk). exists a, (kc_slab_size k). split_and!; [done|lia|lia|].
    intros c' (y & Hy & Hyc). by simplify_eq. }
  destruct t as [c|]; [destruct Hp as (k & _ & Hl & _); apply (Hlive c); auto|].
  destruct Hp as [(c & Hin & k & _ & Hl & _)|(m & HRp & _ & _ & Hsp)]; [apply (Hlive c); auto|].
  exists p, m. destruct (po_region _ _ Hpg _ _ HRp). unfold PAGE_SIZE. split_and!; [done|lia|lia|].
  intros c (x & Hx & _). congruence.
Qed.

Lemma kfree_cached_holds s C H c p n sz :
  heap_holds s C H → H !! p = Some (Some c, n) → C !! c = Some sz →
  wp (kfree (Some p)) (λ _ s', heap_holds s' C H) s.
Proof.
  intros Hhh Hp Hc. pose proof Hhh as [(R & Hi & Hh) Hok Hce].
  destruct (held_region s R p _ n Hi (Hh _ _ _ Hp)) as (a & m & HRa & Hap & Ha).
  destruct (po_region _ _ (hi_pages _ _ Hi) _ _ HRa) as (_ & Hs & _ & He).
  unfold kfree. apply wp_bind, wp_get. rewrite (proj2 (Z.ltb_ge p KHEAP_START)) by lia.
  rewrite (proj2 (Z.leb_gt _ _)) by lia. cbn [orb]. apply wp_bind.
  eapply (find_owner_wp s R _ p a m); [done..| | | |].
  - intros c'. by apply kmalloc_caches_exist.
  - intros c' Hl Hin. exfalso. destruct (Hh p (Some c) n Hp) as (k & _ & Hl' & _).
    destruct (live_place s R c p Hi Hl') as (k1 & a1 & _ & Hpk1 & HR1 & Hs1 & _ & ? & ?).
    destruct (live_place s R c' p Hi Hl) as (k2 & a2 & _ & Hpk2 & HR2 & Hs2 & _ & ? & ?).
    pose proof (pk_obj _ Hpk1). pose proof (pk_obj _ Hpk2). destruct (decide (a1 = a2)) as [<-|Hne].
    + destruct Hs1 as (x & Hx & <-), Hs2 as (y & Hy & <-). simplify_eq. by destruct (Hce _ _ Hc).
    + destruct (po_disjoint _ _ (hi_pages _ _ Hi) _ _ _ _ HR1 HR2 Hne); lia.
  - intros _. by apply wp_ret.
  - intros c' Hc'. by apply Ha.
Qed.

Lemma cache_free_other_holds s C H c p t n sz :
  heap_holds s C H → H !! p = Some (t, n) → C !! c = Some sz → t ≠ Some c →
  wp (kmem_cache_free (Some c) (Some p)) (λ _ s', heap_holds s' C H) s.
Proof.
  intros Hhh Hp Hc Ht. pose proof Hhh as [(R & Hi & Hh) Hok Hce].
  destruct (Hce c sz Hc) as (Hnk & k & Hk & _).
  destruct (heap_inv_cache s R c k Hi Hk) as (_ & Hcore & ls & Hci).
  destruct (held_region s R p t n Hi (Hh _ _ _ Hp)) as (a & m & HRa & Hap & Ha).
  unfold kmem_cache_free. apply wp_bind. eapply find_slab_none_wp; [exact Hci| |by apply wp_ret].
  intros b Hb. destruct (Hcore b Hb) as [HRb _].
  eapply slab_holds_other; [apply Hi|done|exact HRa| |done]. intros ->.
  destruct (Ha c Hb) as [_ [?|[_ ?]]]; done.
Qed.

(** ** kmem_cache_create *)

(** What another cache leaves alone. *)
Lemma held_more s s' R R' p t n :
  (∀ c k, h_caches s !! c = Some k → h_caches s' !! c = Some k) →
  (∀ q, is_Some (R !! q) → h_caches s' !! q = h_caches s !! q) →
  (∀ c x, is_Some (h_caches s !! c) → live s c x → live s' c x) → h_slabs s' = h_slabs s →
  kmalloc_caches s' = kmalloc_caches s → (∀ a m, R !! a = Some m → R' !! a = Some m) →
  held s R p t n → held s' R' p t n.
Proof.
  intros Hc Hq Hl Hs Hkm HR.
  assert (∀ c, from_cache s c p n → from_cache s' c p n) as Hf.
  { intros c (k & Hk & Hlc & Hn). exists k. split_and!; [by apply Hc|by apply Hl; [exists k|]|done]. }
  destruct t as [c|]; simpl; [auto|]. rewrite Hkm. intros [(c & Hin & Hfc)|(m & Hm & Hn & Hc' & Hs')].
  - left. exists c. auto.
  - right. exists m. rewrite Hs, Hq by by exists m. auto.
Qed.

Lemma kmalloc_ok_more s s' :
  (∀ c k, h_caches s !! c = Some k → h_caches s' !! c = Some k) →
  kmalloc_caches s' = kmalloc_caches s → kmalloc_ok s → kmalloc_ok s'.
Proof.
  intros Hc Hkm [Hlen Hok]. split; [by rewrite Hkm|]. intros i n Hi.
  destruct (Hok i n Hi) as (c & k & ? & ? & ?). exists c, k. rewrite Hkm. auto.
Qed.

Lemma cache_create_holds s C H name size align flags :
  heap_holds s C H → 0 < size ≤ 32768 → align = 0 ∨ align = 8 → has flags SLAB_PANIC = false →
  wp (kmem_cache_create name size align flags) (λ r s', match r with
    | None => heap_holds s' C H
    | Some c => 0 < c ∧ C !! c = None ∧ heap_holds s' (<[c := size]> C) H
    end) s.
Proof.
  intros [(R & Hi & Hh) Hok Hce] Hs Ha Hf.
  destruct (new_cache_params name size align flags (cache_list s) Hs Ha Hf) as [Hpk Hsz].
  apply (kmem_cache_create_wp s R); [done|done|..].
  - intros s' Hi' Hc Hsl Hl Hkm. split; [exists R; split; [done|]| |].
    + intros p t n Hp. apply (held_more s s' R R); [by intros ? ? <-|done|intros; by apply Hl|done..|by apply Hh].
    + by apply (kmalloc_ok_more s s'); [intros ? ? <-|..].
    + intros c sz HC. rewrite Hc, Hkm. by apply Hce.
  - intros c s' R' k Hi' -> HRc Hsl Hc Hcs Hl Hl' Hkm.
    assert (∀ c' k', h_caches s !! c' = Some k' → h_caches s' !! c' = Some k') as Hmore.
    { intros c' k' Hk'. rewrite Hcs, lookup_insert_ne; [done|congruence]. }
    split_and!; [|destruct (C !! c) as [sz|] eqn:HC; [|done];
      destruct (Hce c sz HC) as (_ & ? & ? & _); congruence|split].
    + destruct (po_region _ _ (hi_pages _ _ Hi') c 1 (lookup_insert_eq _ _ _)) as (_ & ? & _).
      unfold KHEAP_START in *. lia.
    + exists (<[c := 1]> R). split; [done|]. intros p t n Hp.
      apply (held_more s s' R); [done| | |done|done| |by apply Hh].
      * intros q Hq. rewrite Hcs, lookup_insert_ne; [done|]. intros <-. by rewrite HRc in Hq; destruct Hq.
      * intros c' x [k' Hk'] Hx. apply Hl'; [congruence|done].
      * intros a m Hm. rewrite lookup_insert_ne; [done|congruence].
    + by apply (kmalloc_ok_more s s').
    + intros c' sz. destruct (decide (c' = c)) as [->|Hne].
      * rewrite lookup_insert_eq. intros [= <-]. split.
        -- rewrite Hkm. intros [k' Hk']%kmalloc_caches_exist; [congruence|done].
        -- exists k. by rewrite Hcs, lookup_insert_eq.
      * rewrite lookup_insert_ne by done. intros HC. destruct (Hce c' sz HC) as (? & k' & Hk' & ?).
        split; [by rewrite Hkm|]. exists k'. auto.
Qed.

#[export] Instance slab_kheap_laws : KHeapLaws (heap S).
Proof.
  split; cbn [kh_inv kh_kmalloc kh_kfree kh_cache_alloc kh_cache_free kh_cache_create slab_kheap].
  - exact kmalloc_holds.
  - exact kfree_holds.
  - intros s C H c sz Hh Hc. destruct (hh_caches _ _ _ Hh c sz Hc) as (_ & k & Hk & Hsz).
    eapply wp_mono; [by eapply cache_alloc_holds|]. intros [p|] s'; [|done].
    intros (? & ? & Hp). split_and!; [done..|]. apply Hp; [by left|done].
  - intros s C H c p n Hh Hp. pose proof Hh as [(R & _ & Hb) _ _].
    destruct (Hb p (Some c) n Hp) as (k & _ & Hl & _). by eapply cache_free_holds.
  - exact kfree_cached_holds.
  - exact cache_free_other_holds.
  - exact cache_create_holds.
  - intros s C H p t n q t' m [(R & Hi & Hb) _ _] Hp Hq Hne.
    apply (any_block_apart s R); [done|by apply (held_any s R p t), Hb|
      by apply (held_any s R q t'), Hb|done].
Qed.

(** ** slab_init *)

Lemma kmalloc_sizes_range i n : kmalloc_sizes !! i = Some n → 0 < n ≤ 32768.
Proof. intros Hi. do 12 (destruct i as [|i]; [simpl in Hi; simplify_eq; lia|]). done. Qed.

(** A heap before slab_init: nothing is allocated. *)
Record fresh_heap s : Prop := FreshHeap {
  fh_pm : pm_inv (h_pm s) ∅ ∅;
  fh_caches : h_caches s = ∅;
  fh_slabs : h_slabs s = ∅;
  fh_kmalloc : length (kmalloc_caches s) = length kmalloc_sizes }.

Lemma fresh_heap_inv s : fresh_heap s → heap_inv (set_current KHEAP_START s) ∅.
Proof.
  intros [F1 F2 F3 _]. split.
  - split.
    + split; [by vm_compute|done].
    + intros a n Ha. by rewrite lookup_empty in Ha.
    + intros a n b k Ha. by rewrite lookup_empty in Ha.
    + exists ∅. split; [done|]. intros v. rewrite lookup_empty. split; [by intros []|].
      intros (a & n & Ha & _). by rewrite lookup_empty in Ha.
  - intros c k Hk. cbn in Hk. by rewrite F2, lookup_empty in Hk.
  - intros a sl Ha. cbn in Ha. by rewrite F3, lookup_empty in Ha.
Qed.

Lemma slab_init_holds s s' :
  fresh_heap s → slab_init s = Some (tt, s') → heap_holds s' ∅ ∅.
Proof.
  intros Hf Hrun. pose proof (fresh_heap_inv s Hf) as Hi0. unfold slab_init in Hrun.
  change ((for_ 0 KMALLOC_MAX_CACHE init_kmalloc_cache) (set_current KHEAP_START s) = Some (tt, s')) in Hrun.
  apply (run_for (λ j x, (∃ R, heap_inv x R) ∧ length (kmalloc_caches x) = length kmalloc_sizes ∧
    ∀ i n, Z.of_nat i < j → kmalloc_sizes !! i = Some n → ∃ c k,
      kmalloc_caches x !! i = Some (Some c) ∧ h_caches x !! c = Some k ∧ n ≤ kc_obj_size k)) in Hrun.
  - destruct Hrun as ([R Hi] & Hlen & Hall). split.
    + exists R. split; [done|]. intros p t n Hp. by rewrite lookup_empty in Hp.
    + split; [done|]. intros i n Hin. apply Hall; [|done].
      apply lookup_lt_Some in Hin. simpl in Hin. unfold KMALLOC_MAX_CACHE. lia.
    + intros c sz Hc. by rewrite lookup_empty in Hc.
  - intros j x x' Hj ([R Hi] & Hlen & Hall) Hbody. unfold KMALLOC_MAX_CACHE in Hj.
    assert (∃ nm n, aget kmalloc_names j = Some nm ∧ aget kmalloc_sizes j = Some n) as (nm & n & Hnm & Hn).
    { destruct (aget_is_Some kmalloc_names j) as [nm ?]; [by vm_compute in Hj |- *|].
      destruct (aget_is_Some kmalloc_sizes j) as [n ?]; [by vm_compute in Hj |- *|]. eauto. }
    assert (kmalloc_sizes !! Z.to_nat j = Some n) as Hn'.
    { unfold aget in Hn. by rewrite decide_True in Hn by lia. }
    destruct (new_cache_params nm n 0 0 (cache_list x) (kmalloc_sizes_range _ _ Hn') (or_introl eq_refl) eq_refl) as [Hpk Hsz].
    unfold init_kmalloc_cache in Hbody.
    unfold mbind, M_bind, lift in Hbody. rewrite Hnm, Hn in Hbody.
    pose proof (kmem_cache_create_wp x R nm n 0 0 (λ r y, match r with
      | None => True
      | Some c => (∃ R', heap_inv y R') ∧ kmalloc_caches y = kmalloc_caches x ∧
          h_caches x !! c = None ∧
          h_caches y = <[c := new_cache nm n 0 0 (cache_list x)]> (h_caches x)
      end) Hi Hpk) as Hwp. unfold wp in Hwp.
    destruct (kmem_cache_create nm n 0 0 x) as [[[c|] y]|]; [|done|].
    2: { exfalso. by apply Hwp; [|intros; split_and!; eauto]. }
    destruct Hwp as ([R' Hi'] & Hkm & Hnc & Hcs); [done|intros; split_and!; eauto|].
    unfold modify in Hbody. injection Hbody as <-. split_and!.
    + exists R'. eapply (heap_inv_grow y); [..|exact Hi']; try done.
      eapply pages_ok_same; [..|apply Hi']; done.
    + cbn. unfold aset; rewrite decide_True by lia; by rewrite length_insert, Hkm.
    + intros i m Him Hm. cbn [kmalloc_caches h_caches set_kmalloc].
      destruct (decide (Z.of_nat i = j)) as [<-|Hne].
      * rewrite Nat2Z.id in Hn'. simplify_eq. exists c, (new_cache nm n 0 0 (cache_list x)).
        split_and!; [|by rewrite Hcs, lookup_insert_eq|done].
        unfold aset. rewrite decide_True by lia. rewrite Nat2Z.id, Hkm.
        apply list_lookup_insert_eq. rewrite Hlen. by eapply lookup_lt_Some.
      * destruct (Hall i m ltac:(lia) Hm) as (c' & k & Hc' & Hk & Hle). exists c', k.
        split_and!; [|rewrite Hcs, lookup_insert_ne by congruence; done|done].
        unfold aset. rewrite decide_True by lia. rewrite Hkm, list_lookup_insert_ne by lia. done.
  - split_and!; [by exists ∅|apply Hf|]. intros i n ?. lia.
  - unfold KMALLOC_MAX_CACHE. lia.
Qed.

(** ** The theorems *)

(** The users of the heap: they make caches of their own, ask for memory from
    kmalloc or from a cache, and give back what they hold. *)
Inductive heap_op :=
  | KMalloc (n : Z)
  | KFree (p : Z)
  | CacheCreate (name : string) (size align flags : Z)
  | CacheAlloc (c : Z)
  | CacheFree (c p : Z).

Definition heap_call (op : heap_op) : M (heap S) (option Z) :=
  match op with
  | KMalloc n => kmalloc n
  | KFree p => kfree (Some p) ;; mret None
  | CacheCreate name size align flags => kmem_cache_create name size align flags
  | CacheAlloc c => kmem_cache_alloc (Some c)
  | CacheFree c p => kmem_cache_free (Some c) (Some p) ;; mret None
  end.

(** What a user may call, with the caches [C] made and the blocks [H] held. *)
Definition heap_may (C : gmap Z Z) (H : blocks) (op : heap_op) : Prop :=
  match op with
  | KMalloc n => 0 ≤ n ≤ KMALLOC_LIMIT
  | KFree p => ∃ n, H !! p = Some (None, n)
  | CacheCreate _ size align flags => 0 < size ≤ 32768 ∧ (align = 0 ∨ align = 8) ∧ has flags SLAB_PANIC = false
  | CacheAlloc c => is_Some (C !! c)
  | CacheFree c p => ∃ n, H !! p = Some (Some c, n)
  end.

(** The block that the result [r] of a call stands for. *)
Definition new_block (C : gmap Z Z) (op : heap_op) (r : option Z) : option (Z * (option Z * Z)) :=
  match op, r with
  | KMalloc n, Some p => Some (p, (None, n))
  | CacheAlloc c, Some p => (λ sz, (p, (Some c, sz))) <$> C !! c
  | _, _ => None
  end.

Definition caches_after (C : gmap Z Z) (op : heap_op) (r : option Z) : gmap Z Z :=
  match op, r with CacheCreate _ size _ _, Some c => <[c := size]> C | _, _ => C end.

Definition blocks_after (C : gmap Z Z) (H : blocks) (op : heap_op) (r : option Z) : blocks :=
  match op with
  | KFree p | CacheFree _ p => delete p H
  | _ => match new_block C op r with Some (p, b) => <[p := b]> H | None => H end
  end.

Inductive heap_step : heap S * gmap Z Z * blocks → heap S * gmap Z Z * blocks → Prop :=
| hs_call s s' C H op r :
    heap_may C H op → heap_call op s = Some (r, s') →
    heap_step (s, C, H) (s', caches_after C op r, blocks_after C H op r).

Lemma heap_call_holds s C H op :
  heap_holds s C H → heap_may C H op →
  wp (heap_call op) (λ r s', heap_holds s' (caches_after C op r) (blocks_after C H op r) ∧
    ∀ p t n, new_block C op r = Some (p, (t, n)) → 0 < p ∧ H !! p = None) s.
Proof.
  intros Hh Hm. destruct op as [n|p|name size align flags|c|c p]; cbn [heap_call heap_may] in *.
  - eapply wp_mono; [by apply kmalloc_holds|]. intros [p|] s'; [|by split].
    intros (H1 & H2 & H3 & H4). split; [done|]. intros q t k [= <- _ _]. done.
  - destruct Hm as [n Hp]. wp_step. eapply wp_mono; [by eapply kfree_holds|]. intros [] s' Hs'. by wp_step.
  - destruct Hm as (H1 & H2 & H3). eapply wp_mono; [by apply (cache_create_holds s C H)|].
    intros [c|] s'; [intros (_ & _ & ?)|]; by split.
  - destruct Hm as [sz Hc]. eapply wp_mono; [by apply (kh_alloc_law (KH := slab_kheap) s C H c sz)|].
    intros [p|] s'; cbn [new_block caches_after blocks_after]; [|by split].
    rewrite Hc. cbn. intros (H1 & H2 & H3). split; [done|]. intros q t k [= <- _ _]. done.
  - destruct Hm as [n Hp]. wp_step. eapply wp_mono; [by apply (kh_free_law (KH := slab_kheap) s C H c p n)|].
    intros [] s' Hs'. by wp_step.
Qed.

Lemma heap_reachable_holds s0 s1 s C H :
  fresh_heap s0 → slab_init s0 = Some (tt, s1) → rtc heap_step (s1, ∅, ∅) (s, C, H) → heap_holds s C H.
Proof.
  intros Hf Hrun Hrtc. change (heap_holds (s, C, H).1.1 (s, C, H).1.2 (s, C, H).2). revert Hrtc.
  generalize (s, C, H). apply (rtc_ind_r (λ x, heap_holds x.1.1 x.1.2 x.2)); simpl.
  - by eapply slab_init_holds.
  - intros x y _ Hstep Hh. destruct Hstep as [t t' D G op r Hm Hcall]. cbn in *.
    pose proof (heap_call_holds t D G op Hh Hm) as Hwp. unfold wp in Hwp. rewrite Hcall in Hwp. apply Hwp.
Qed.


(** C25. Allocation from a cache.  From a heap in order, kmem_cache_alloc does
    not fault, keeps the heap in order, and returns NULL, with the same objects
    in use, or an object that was not in use and is now, aligned and inside a
    slab of the cache; the objects in use of other caches stay the same. *)
Theorem kmem_cache_alloc_correct s R c k :
  heap_inv s R → h_caches s !! c = Some k →
  ∃ r s' R', kmem_cache_alloc (Some c) s = Some (r, s') ∧ heap_inv s' R' ∧
    (∀ c' x, c' ≠ c → live s c' x → live s' c' x) ∧
    match r with
    | None => ∀ x, live s' c x ↔ live s c x
    | Some o => ¬ live s c o ∧ (∀ x, live s' c x ↔ live s c x ∨ x = o) ∧
        o mod kc_align k = 0 ∧
        ∃ a, R' !! a = Some (kc_slab_size k) ∧ a < o ∧
             o + kc_obj_size k ≤ a + kc_slab_size k * PAGE_SIZE
    end.
Proof.
  intros Hi Hk.
  destruct (wp_elim _ _ _ (kmem_cache_alloc_wp s R c k Hi Hk))
    as (r & s' & Hrun & R' & Hi' & Ho & Hkm & Hpar & Hl).
  exists r, s', R'. split_and!; [done|done|..].
  - intros c' x Hne Hx. destruct Hx as (k' & a & L & Hk' & Hx).
    assert (from_cache s c' x (kc_obj_size k')) as Hf by (exists k'; split_and!; [done|by exists k', a, L|done]).
    assert (from_cache s' c' x (kc_obj_size k')) as (? & _ & ? & _); [|done].
    eapply (from_cache_keep c s s'); try done. destruct r as [o|]; [destruct Hl as [_ Hl]|];
      intros ?; apply Hl; auto.
  - destruct r as [o|]; [|done]. destruct Hl as [Hn Hl]. split_and!; [done|done|..].
    all: assert (live s' c o) as Hlo by (apply Hl; by right);
      destruct (live_place s' R' c o Hi' Hlo) as (k' & a & Hk' & Hpk & HRa & _ & Hob & ? & ?);
      destruct (Hpar k Hk) as (k2 & Hk2 & E1 & E2 & E3 & _); simplify_eq.
    + rewrite <-E2. eapply is_obj_bounds; [done|eapply region_heap_addr; [apply Hi'|done]|done].
    + exists a. rewrite <-E1, <-E3. done.
Qed.

(** C26. Release to a cache.  kmem_cache_free of an object in use finds its slab,
    does not fault, keeps the heap in order and takes exactly this object out
    of use, also when its slab is then empty and given back. *)
Theorem kmem_cache_free_correct s R c o :
  heap_inv s R → live s c o →
  ∃ s' R', kmem_cache_free (Some c) (Some o) s = Some (tt, s') ∧ heap_inv s' R' ∧
    (∀ x, live s' c x ↔ live s c x ∧ x ≠ o) ∧
    (∀ c' x, c' ≠ c → live s c' x → live s' c' x).
Proof.
  intros Hi Hl.
  destruct (wp_elim _ _ _ (kmem_cache_free_wp s R c o Hi Hl))
    as ([] & s' & Hrun & R' & Hi' & Ho & Hkm & Hpar & Hl').
  exists s', R'. split_and!; [done..|].
  intros c' x Hne (k' & a & L & Hk' & Hst & Hob & HL).
  pose proof (ot_caches _ _ _ _ _ Ho c' Hne) as Ec. exists k', a, L. split_and!; [by rewrite Ec| |done|done].
  assert (has_slab s c' a) as Ha by by eapply slab_st_has.
  eapply slab_st_same; [by eapply (ot_slabs _ _ _ _ _ Ho c')| |done].
  intros y Hy. by eapply (ot_objs _ _ _ _ _ Ho c' k' a).
Qed.

(** kmalloc of almost 2^64 bytes.  The rounding of the size to pages wraps
    around to no pages at all, and kmalloc returns the end of the heap as if it
    were a block, having allocated nothing: the next block is at the same
    address. *)
Theorem kmalloc_wraps s n :
  heap_current s ≤ KHEAP_END → 0 ≤ heap_current s → 2 ^ 64 - PAGE_SIZE < n < 2 ^ 64 →
  kmalloc n s = Some (Some (heap_current s), s).
Proof.
  unfold KHEAP_END, PAGE_SIZE. intros Hc Hc0 Hn. unfold kmalloc, SLAB_MAX_SIZE.
  rewrite (proj2 (Z.eqb_neq n 0)) by lia. rewrite (proj2 (Z.ltb_lt 4096 n)) by lia.
  assert (((n +u64 PAGE_SIZE) -u64 1) / PAGE_SIZE = 0) as ->.
  { unfold PAGE_SIZE. replace (n +u64 4096) with (n + 4096 - 2 ^ 64).
    - rewrite wrap_small by lia. apply Z.div_small. lia.
    - unfold wrap. rewrite <-(Z.mod_add _ (-1)) by lia. symmetry. apply Z.mod_small. lia. }
  unfold heap_alloc_pages. cbn [Z.to_nat heap_map_from].
  unfold mbind, M_bind, get, mret, M_ret, modify.
  assert (heap_current s +u64 (0 *u64 PAGE_SIZE) = heap_current s) as Hw.
  { rewrite Z.mul_0_l. change (wrap64 0) with 0. rewrite Z.add_0_r. apply wrap_small. lia. }
  rewrite Hw. rewrite (proj2 (Z.ltb_ge KHEAP_END _)) by (unfold KHEAP_END; lia).
  change (heap_map_from (Z.to_nat 0) 0 (heap_current s) s) with (Some (true, s)).
  cbv beta iota. rewrite Hw. by destruct s.
Qed.

(** A successful allocation leaves an object in use. *)
Lemma live_after_alloc s R c k :
  heap_inv s R → h_caches s !! c = Some k →
  match kmem_cache_alloc (Some c) s with Some (Some _, _) => true | _ => false end = true →
  ∃ s' R' o, heap_inv s' R' ∧ live s' c o.
Proof.
  intros Hi Hk Ho.
  destruct (wp_elim _ _ _ (kmem_cache_alloc_wp s R c k Hi Hk))
    as (r & s' & Hrun & R' & Hi' & _ & _ & _ & Hl).
  rewrite Hrun in Ho. destruct r as [o|]; [|done]. exists s', R', o. split; [done|].
  apply (proj2 Hl). by right.
Qed.

End kheap.

(** ** A concrete heap: the machine of VmmThm.v before slab_init *)

Definition demo_heap0 : heap (vm mem_info) :=
  Heap demo_vm 0 None ∅ ∅ ∅ (replicate 12 None).

Lemma demo_mapper : pm_inv demo_vm ∅ ∅.
Proof.
  split; [exact demo_vm_wf|..].
  - intros v f Hv. by rewrite lookup_empty in Hv.
  - intros f Hf. by apply elem_of_empty in Hf.
  - intros v w f Hv. by rewrite lookup_empty in Hv.
Qed.

Lemma demo_fresh : fresh_heap demo_heap0.
Proof. split; [exact demo_mapper|done|done|done]. Qed.

Definition demo_heap : heap (vm mem_info) := run_state slab_init demo_heap0.

Lemma demo_heap_runs : slab_init demo_heap0 = Some (tt, demo_heap).
Proof.
  unfold demo_heap. apply run_state_some.
  vm_cast_no_check (eq_refl true).
Qed.

(** A call that returns a pointer. *)
Definition is_some2 {A B} (o : option (option A * B)) : bool := match o with Some (Some _, _) => true | _ => false end.

Lemma some2_eq {A} (o : option (option Z * A)) (d : A) :
  is_some2 o = true → o = Some (Some (default 0 (default (None, d) o).1), (default (None, d) o).2).
Proof. by destruct o as [[[z|] a]|]. Qed.

(** A cache for objects of 40 bytes is made and an object taken from it; then
    kmalloc is called. *)
Definition demo_made : option Z * heap (vm mem_info) :=
  default (None, demo_heap) (heap_call (CacheCreate "things"%string 40 0 0) demo_heap).
Definition demo_things : Z := default 0 demo_made.1.
Definition demo_taken : option Z * heap (vm mem_info) :=
  default (None, demo_made.2) (heap_call (CacheAlloc demo_things) demo_made.2).
Definition demo_thing : Z := default 0 demo_taken.1.

Lemma demo_makes : heap_call (CacheCreate "things"%string 40 0 0) demo_heap = Some (Some demo_things, demo_made.2).
Proof. refine (some2_eq _ demo_heap _). vm_cast_no_check (eq_refl true). Qed.

Lemma demo_takes : heap_call (CacheAlloc demo_things) demo_made.2 = Some (Some demo_thing, demo_taken.2).
Proof. refine (some2_eq _ demo_made.2 _). vm_cast_no_check (eq_refl true). Qed.

Lemma demo_heap_steps :
  rtc heap_step (demo_heap, ∅, ∅) (demo_taken.2, {[demo_things := 40]}, {[demo_thing := (Some demo_things, 40)]}).
Proof.
  eapply rtc_l.
  - apply (hs_call demo_heap demo_made.2 ∅ ∅ (CacheCreate "things"%string 40 0 0) (Some demo_things)); [|exact demo_makes].
    split; [lia|]. split; [by left|by vm_compute].
  - cbn [caches_after blocks_after new_block]. eapply rtc_l; [|apply rtc_refl].
    assert ((<[demo_things := 40]> ∅ : gmap Z Z) !! demo_things = Some 40) as Hc by apply lookup_insert_eq.
    pose proof (hs_call demo_made.2 demo_taken.2 (<[demo_things := 40]> ∅) ∅ (CacheAlloc demo_things) (Some demo_thing)
      (ex_intro _ 40 Hc) demo_takes) as Hs. cbn [caches_after blocks_after new_block] in Hs. rewrite Hc in Hs. exact Hs.
Qed.


(** The first kmalloc cache of the demo heap, for objects of 16 bytes. *)
Definition demo_cache : Z := KHEAP_START.

Lemma demo_holds : heap_holds demo_heap ∅ ∅.
Proof. exact (slab_init_holds _ _ demo_fresh demo_heap_runs). Qed.

Lemma demo_cache_exists : is_Some (h_caches demo_heap !! demo_cache).
Proof. vm_compute. by eexists. Qed.

Lemma kmem_cache_alloc_correct_witness :
  ∃ r s' R', kmem_cache_alloc (Some demo_cache) demo_heap = Some (r, s') ∧ heap_inv s' R'.
Proof.
  destruct demo_holds as [(R & Hi & _) _ _]. destruct demo_cache_exists as [k Hk].
  destruct (kmem_cache_alloc_correct demo_heap R demo_cache k) as (r & s' & R' & Hrun & Hi' & _).
  - exact Hi.
  - exact Hk.
  - exists r, s', R'. split; [exact Hrun|exact Hi'].
Defined.

(** An object of the demo cache in use. *)
Lemma demo_live : ∃ s R o, heap_inv s R ∧ live s demo_cache o.
Proof.
  destruct demo_holds as [(R & Hi & _) _ _]. destruct demo_cache_exists as [k Hk].
  refine (live_after_alloc demo_heap R demo_cache k Hi Hk _). by vm_compute.
Qed.

Lemma kmem_cache_free_correct_witness :
  ∃ s o s' R', kmem_cache_free (Some demo_cache) (Some o) s = Some (tt, s') ∧ heap_inv s' R' ∧
    ¬ live s' demo_cache o.
Proof.
  destruct demo_live as (s & R & o & Hi & Hl).
  destruct (kmem_cache_free_correct s R demo_cache o Hi Hl) as (s' & R' & Hrun & Hi' & Hl' & _).
  exists s, o, s', R'. split; [exact Hrun|]. split; [exact Hi'|]. intros Ho. apply Hl' in Ho.
  destruct Ho as [_ Ho]. apply Ho. reflexivity.
Defined.

Lemma kmalloc_wraps_witness :
  kmalloc (2 ^ 64 - 1) demo_heap = Some (Some (heap_current demo_heap), demo_heap).
Proof.
  apply (kmalloc_wraps demo_heap (2 ^ 64 - 1)).
  - vm_compute. discriminate.
  - vm_compute. discriminate.
  - unfold PAGE_SIZE. lia.
Defined.
