(* ===== verification/Vma.v ===== *)
(** * Virtual memory areas: model (mm/vma.h, mm/vma.c)

    The areas of an address space: a doubly linked list of [vma_t] sorted by
    address, with a descriptor [vma_list_t].  Both are objects of a cache of the
    kernel heap (KHeap.v); the memory the module reads and writes is kept by
    kind, a map from the address of an object to its contents, which loses the
    object when it is given back: an access to it then faults. *)

From stdpp Require Import strings.
From S2P Require Import Prelude KHeap.

(** ** Data (vma.h) *)

Record vma := Vma {
  vma_start : Z;
  vma_end : Z;
  vma_flags : Z;
  vma_prot : Z;
  vma_next : option Z;
  vma_prev : option Z;
  vma_file : option Z;
  vma_file_offset : Z }.

Record vma_list := VmaList {
  vl_head : option Z;
  vl_tail : option Z;
  vl_count : Z }.

Definition sizeof_vma_t : Z := 56.
Definition sizeof_vma_list_t : Z := 24.

Definition set_vma_links (p n : option Z) (v : vma) : vma :=
  Vma (vma_start v) (vma_end v) (vma_flags v) (vma_prot v) n p (vma_file v) (vma_file_offset v).
Definition set_vma_next (n : option Z) (v : vma) : vma := set_vma_links (vma_prev v) n v.
Definition set_vma_prev (p : option Z) (v : vma) : vma := set_vma_links p (vma_next v) v.
Definition set_vma_file (f : option Z) (o : Z) (v : vma) : vma :=
  Vma (vma_start v) (vma_end v) (vma_flags v) (vma_prot v) (vma_next v) (vma_prev v) f o.

Definition set_vl_head (h : option Z) (l : vma_list) : vma_list := VmaList h (vl_tail l) (vl_count l).
Definition set_vl_tail (t : option Z) (l : vma_list) : vma_list := VmaList (vl_head l) t (vl_count l).
Definition set_vl_count (n : Z) (l : vma_list) : vma_list := VmaList (vl_head l) (vl_tail l) n.

(** User space bounds (vma_find_free). *)
Definition space_start : Z := 0x400000.
Definition space_end : Z := 0x7FFFFFFFFFFF.

(** ** State (vma.c): the two caches, and the objects in use *)

Section vma.
Context {S : Type} {KH : KHeap S}.

Record vmas := Vmas {
  vs_heap : S;
  vma_cache : option Z;
  vma_list_cache : option Z;
  vs_vmas : gmap Z vma;
  vs_lists : gmap Z vma_list }.

Definition set_heap (h : S) (s : vmas) : vmas :=
  Vmas h (vma_cache s) (vma_list_cache s) (vs_vmas s) (vs_lists s).
Definition set_vma_caches (a b : option Z) (s : vmas) : vmas :=
  Vmas (vs_heap s) a b (vs_vmas s) (vs_lists s).
Definition set_vmas (m : gmap Z vma) (s : vmas) : vmas :=
  Vmas (vs_heap s) (vma_cache s) (vma_list_cache s) m (vs_lists s).
Definition set_lists (m : gmap Z vma_list) (s : vmas) : vmas :=
  Vmas (vs_heap s) (vma_cache s) (vma_list_cache s) (vs_vmas s) m.

Abbreviation VM := (M vmas).

Definition on_heap {A} : M S A → VM A := zoom vs_heap set_heap.

Definition rd_vma (x : Z) : VM vma := s ← get; lift (vs_vmas s !! x).
Definition rd_list (l : Z) : VM vma_list := s ← get; lift (vs_lists s !! l).
Definition upd_vma (x : Z) (f : vma → vma) : VM unit :=
  v ← rd_vma x; modify (λ s, set_vmas (<[x := f v]> (vs_vmas s)) s).
Definition upd_list (l : Z) (f : vma_list → vma_list) : VM unit :=
  d ← rd_list l; modify (λ s, set_lists (<[l := f d]> (vs_lists s)) s).

(** Allocation of an object and its first contents; giving it back. *)
Definition new_vma (v : vma) : VM (option Z) :=
  c ← gets vma_cache;
  r ← on_heap (kmem_alloc c);
  match r with
  | None => mret None
  | Some x => modify (λ s, set_vmas (<[x := v]> (vs_vmas s)) s) ;; mret (Some x)
  end.

Definition free_vma (x : Z) : VM unit :=
  c ← gets vma_cache;
  on_heap (kmem_free c x) ;;
  modify (λ s, set_vmas (delete x (vs_vmas s)) s).

Definition free_list (l : Z) : VM unit :=
  c ← gets vma_list_cache;
  on_heap (kmem_free c l) ;;
  modify (λ s, set_lists (delete l (vs_lists s)) s).

(** ** Operations *)

Definition vma_init : VM unit :=
  a ← on_heap (kh_cache_create "vma" sizeof_vma_t 0 0);
  match a with
  | None => fault
  | Some _ =>
      modify (λ s, set_vma_caches a (vma_list_cache s) s) ;;
      b ← on_heap (kh_cache_create "vma_list" sizeof_vma_list_t 0 0);
      match b with
      | None => fault
      | Some _ => modify (λ s, set_vma_caches (vma_cache s) b s)
      end
  end.

Definition vma_list_create : VM (option Z) :=
  c ← gets vma_list_cache;
  r ← on_heap (kmem_alloc c);
  match r with
  | None => mret None
  | Some l =>
      modify (λ s, set_lists (<[l := VmaList None None 0]> (vs_lists s)) s) ;; mret (Some l)
  end.

(** No list has more areas than there are. *)
Definition walk_fuel : VM nat := gets (λ s, Datatypes.S (size (vs_vmas s))).

Fixpoint destroy_vmas (fuel : nat) (p : option Z) : VM unit :=
  match p, fuel with
  | None, _ => mret tt
  | Some _, O => fault
  | Some x, Datatypes.S fuel' =>
      v ← rd_vma x; free_vma x ;; destroy_vmas fuel' (vma_next v)
  end.

Definition vma_list_destroy (list : option Z) : VM unit :=
  match list with
  | None => mret tt
  | Some l =>
      d ← rd_list l; fuel ← walk_fuel; destroy_vmas fuel (vl_head d) ;; free_list l
  end.

(** [while (curr && curr->start < vma->start)] *)
Fixpoint insertion_point (fuel : nat) (start : Z) (prev curr : option Z) :
    VM (option Z * option Z) :=
  match curr, fuel with
  | None, _ => mret (prev, None)
  | Some _, O => fault
  | Some c, Datatypes.S fuel' =>
      v ← rd_vma c;
      if vma_start v <? start then insertion_point fuel' start (Some c) (vma_next v)
      else mret (prev, Some c)
  end.

Definition vma_insert (l x : Z) : VM unit :=
  d ← rd_list l;
  v ← rd_vma x;
  fuel ← walk_fuel;
  pc ← insertion_point fuel (vma_start v) None (vl_head d);
  let '(prev, curr) := pc in
  upd_vma x (set_vma_links prev curr) ;;
  match prev with
  | Some p => upd_vma p (set_vma_next (Some x))
  | None => upd_list l (set_vl_head (Some x))
  end ;;
  match curr with
  | Some c => upd_vma c (set_vma_prev (Some x))
  | None => upd_list l (set_vl_tail (Some x))
  end ;;
  upd_list l (λ d, set_vl_count (vl_count d +u32 1) d).

Fixpoint overlaps_from (fuel : nat) (start end_ : Z) (p : option Z) : VM bool :=
  match p, fuel with
  | None, _ => mret false
  | Some _, O => fault
  | Some x, Datatypes.S fuel' =>
      v ← rd_vma x;
      if (start <? vma_end v) && (vma_start v <? end_) then mret true
      else if end_ <=? vma_start v then mret false
      else overlaps_from fuel' start end_ (vma_next v)
  end.

Definition vma_overlaps (list : option Z) (start end_ : Z) : VM bool :=
  match list with
  | None => mret false
  | Some l => d ← rd_list l; fuel ← walk_fuel; overlaps_from fuel start end_ (vl_head d)
  end.

Definition vma_create (list : option Z) (start0 end0 flags prot : Z) : VM (option Z) :=
  match list with
  | None => mret None
  | Some l =>
      let start := ALIGN_DOWN start0 PAGE_SIZE in
      let end_ := ALIGN_UP end0 PAGE_SIZE in
      if end_ <=? start then mret None else
      o ← vma_overlaps (Some l) start end_;
      if (o : bool) then mret None else
      r ← new_vma (Vma start end_ flags prot None None None 0);
      match r with
      | None => mret None
      | Some x => vma_insert l x ;; mret (Some x)
      end
  end.

Fixpoint clone_vmas (fuel : nat) (dst : Z) (p : option Z) : VM bool :=
  match p, fuel with
  | None, _ => mret true
  | Some _, O => fault
  | Some x, Datatypes.S fuel' =>
      v ← rd_vma x;
      r ← vma_create (Some dst) (vma_start v) (vma_end v) (vma_flags v) (vma_prot v);
      match r with
      | None => vma_list_destroy (Some dst) ;; mret false
      | Some y =>
          upd_vma y (set_vma_file (vma_file v) (vma_file_offset v)) ;;
          v' ← rd_vma x; clone_vmas fuel' dst (vma_next v')
      end
  end.

Definition vma_list_clone (src : option Z) : VM (option Z) :=
  match src with
  | None => mret None
  | Some l =>
      r ← vma_list_create;
      match r with
      | None => mret None
      | Some dst =>
          d ← rd_list l; fuel ← walk_fuel;
          ok ← clone_vmas fuel dst (vl_head d);
          mret (if (ok : bool) then Some dst else None)
      end
  end.

Definition vma_destroy (list0 vma0 : option Z) : VM unit :=
  match list0, vma0 with
  | Some l, Some x =>
      v ← rd_vma x;
      match vma_prev v with
      | Some p => upd_vma p (set_vma_next (vma_next v))
      | None => upd_list l (set_vl_head (vma_next v))
      end ;;
      match vma_next v with
      | Some n => upd_vma n (set_vma_prev (vma_prev v))
      | None => upd_list l (set_vl_tail (vma_prev v))
      end ;;
      upd_list l (λ d, set_vl_count (vl_count d -u32 1) d) ;;
      free_vma x
  | _, _ => mret tt
  end.

Fixpoint find_from (fuel : nat) (addr : Z) (p : option Z) : VM (option Z) :=
  match p, fuel with
  | None, _ => mret None
  | Some _, O => fault
  | Some x, Datatypes.S fuel' =>
      v ← rd_vma x;
      if (vma_start v <=? addr) && (addr <? vma_end v) then mret (Some x)
      else if addr <? vma_start v then mret None
      else find_from fuel' addr (vma_next v)
  end.

Definition vma_find (list : option Z) (addr : Z) : VM (option Z) :=
  match list with
  | None => mret None
  | Some l => d ← rd_list l; fuel ← walk_fuel; find_from fuel addr (vl_head d)
  end.

Fixpoint find_or_next_from (fuel : nat) (addr : Z) (p : option Z) : VM (option Z) :=
  match p, fuel with
  | None, _ => mret None
  | Some _, O => fault
  | Some x, Datatypes.S fuel' =>
      v ← rd_vma x;
      if addr <? vma_end v then mret (Some x) else find_or_next_from fuel' addr (vma_next v)
  end.

Definition vma_find_or_next (list : option Z) (addr : Z) : VM (option Z) :=
  match list with
  | None => mret None
  | Some l => d ← rd_list l; fuel ← walk_fuel; find_or_next_from fuel addr (vl_head d)
  end.

(** The search for a gap: an address, or the end of the last area. *)
Fixpoint gap_from (fuel : nat) (size search_start : Z) (p : option Z) : VM (Z * bool) :=
  match p, fuel with
  | None, _ => mret (search_start, false)
  | Some _, O => fault
  | Some x, Datatypes.S fuel' =>
      v ← rd_vma x;
      if search_start +u64 size <=? vma_start v then mret (search_start, true)
      else gap_from fuel' size
             (if search_start <? vma_end v then vma_end v else search_start) (vma_next v)
  end.

(** The attempt at the hint; the result is 0 when it is no good. *)
Definition try_hint (l size hint0 : Z) : VM Z :=
  if hint0 =? 0 then mret 0
  else
    let hint := ALIGN_UP hint0 PAGE_SIZE in
    if (space_start <=? hint) && (hint +u64 size <=? space_end) then
      o ← vma_overlaps (Some l) hint (hint +u64 size);
      mret (if (o : bool) then 0 else hint)
    else mret 0.

Definition vma_find_free (list : option Z) (size0 hint : Z) : VM Z :=
  match list with
  | None => mret 0
  | Some l =>
      let size := ALIGN_UP size0 PAGE_SIZE in
      h ← try_hint l size hint;
      if negb (h =? 0) then mret h else
      d ← rd_list l; fuel ← walk_fuel;
      g ← gap_from fuel size space_start (vl_head d);
      let '(search_start, found) := g in
      if (found : bool) then mret search_start
      else if search_start +u64 size <=? space_end then mret search_start
      else mret 0
  end.

End vma.

Arguments vmas : clear implicits.
