(* ===== verification/VmaInv.v ===== *)
(** * Virtual memory areas: the list of an address space and its invariant

    What a list of areas is in the memory of Vma.v, seen as a list of addresses
    with the regions the areas describe; what the loops of vma.c compute on it;
    and how splicing an area in or out changes it. *)

From stdpp Require Import sorting.
From S2P Require Import Prelude DList KHeap Vma.

(** ** Regions *)

Record region := Region {
  rg_start : Z;
  rg_end : Z;
  rg_flags : Z;
  rg_prot : Z;
  rg_file : option Z;
  rg_offset : Z }.

Definition region_of (v : vma) : region :=
  Region (vma_start v) (vma_end v) (vma_flags v) (vma_prot v) (vma_file v) (vma_file_offset v).

(** A region is a run of whole pages, and not empty. *)
Record region_ok (r : region) : Prop := RegionOk {
  ro_start : 0 ≤ rg_start r;
  ro_nonempty : rg_start r < rg_end r;
  ro_end : rg_end r < 2 ^ 64;
  ro_start_page : rg_start r mod PAGE_SIZE = 0;
  ro_end_page : rg_end r mod PAGE_SIZE = 0 }.

Definition before (r r' : region) : Prop := rg_end r ≤ rg_start r'.
Definition contains (r : region) (addr : Z) : Prop := rg_start r ≤ addr < rg_end r.
Definition meets (a b : Z) (r : region) : Prop := a < rg_end r ∧ rg_start r < b.

(** The areas of a list, in order: addresses and regions. *)
Abbreviation areas := (list (Z * region)).

Record ordered (V : areas) : Prop := Ordered {
  od_sorted : StronglySorted before V.*2;
  od_regions : Forall region_ok V.*2 }.

(** ** Sorted lists *)

Lemma ordered_app V W :
  ordered (V ++ W) ↔ ordered V ∧ ordered W ∧ ∀ v w, v ∈ V → w ∈ W → before v.2 w.2.
Proof.
  split.
  - intros [Hs Hr]. rewrite fmap_app in Hs, Hr.
    apply StronglySorted_app in Hs as (Hb & ? & ?). apply Forall_app in Hr as [? ?].
    split_and!; [done..|]. intros v w Hv Hw. apply Hb; by apply list_elem_of_fmap_2.
  - intros ([? ?] & [? ?] & Hb). split; rewrite fmap_app; [|by apply Forall_app].
    apply StronglySorted_app. split_and!; [|done..].
    intros r r' (v & -> & Hv)%list_elem_of_fmap_1 (w & -> & Hw)%list_elem_of_fmap_1. auto.
Qed.

Lemma ordered_cons v W :
  ordered (v :: W) ↔ region_ok v.2 ∧ ordered W ∧ ∀ w, w ∈ W → before v.2 w.2.
Proof.
  change (v :: W) with ([v] ++ W). rewrite ordered_app. split.
  - intros ([_ Hv] & HW & Hb). apply Forall_inv in Hv. split_and!; [exact Hv|exact HW|].
    intros w Hw. apply Hb; [set_solver|done].
  - intros (? & ? & Hb). split_and!; [|done|].
    + split; [repeat constructor|by apply Forall_singleton].
    + intros x w ->%list_elem_of_singleton. auto.
Qed.

(** A free range goes between what lies below it and what does not. *)
Lemma ordered_insert A B v :
  ordered (A ++ B) → region_ok v.2 → (∀ w, w ∈ A ++ B → ¬ meets (rg_start v.2) (rg_end v.2) w.2) →
  (∀ w, w ∈ A → rg_start w.2 < rg_start v.2) →
  (∀ w, head B = Some w → rg_start v.2 ≤ rg_start w.2) →
  ordered (A ++ v :: B).
Proof.
  intros (HA & HB & Hb)%ordered_app Hv Hfree Hlo Hhi.
  assert (∀ w, w ∈ A → before w.2 v.2) as HAv.
  { intros w Hw. specialize (Hfree w ltac:(set_solver)). specialize (Hlo w Hw).
    unfold meets, before in *. destruct Hv. lia. }
  assert (∀ w, w ∈ B → before v.2 w.2) as HvB.
  { destruct B as [|b B]; [by intros w ?%elem_of_nil|].
    specialize (Hhi b eq_refl). pose proof (Hfree b ltac:(set_solver)) as Hfb.
    apply ordered_cons in HB as (Hbok & _ & HbB). unfold meets, before in *.
    intros w [->|Hw]%elem_of_cons; [destruct Hv, Hbok; lia|]. specialize (HbB w Hw).
    destruct Hv, Hbok. lia. }
  apply ordered_app. split_and!; [done| |].
  - apply ordered_cons. auto.
  - intros a w Ha [->|Hw]%elem_of_cons; auto.
Qed.

Lemma ordered_remove A B v : ordered (A ++ v :: B) → ordered (A ++ B).
Proof.
  rewrite !ordered_app, ordered_cons. intros (? & (_ & ? & _) & Hb). split_and!; [done..|].
  intros a b Ha Hb'. apply Hb; [done|set_solver].
Qed.

(** ** Lists of areas in memory *)

Section inv.
Context {S : Type} {KH : KHeap S} {KHL : KHeapLaws S}.
Implicit Types (s : vmas S) (V A B : areas) (l x y : Z) (r : region) (v : vma).

Definition vlinks s : links := λ x, (λ v, (vma_prev v, vma_next v)) <$> vs_vmas s !! x.
Definition data s V : Prop := ∀ x r, (x, r) ∈ V → region_of <$> vs_vmas s !! x = Some r.

(** The areas [V] are linked in memory under the descriptor [l]. *)
Record linked s l V : Prop := Linked {
  lk_desc : vs_lists s !! l = Some (VmaList (head V.*1) (last V.*1) (wrap32 (Z.of_nat (length V))));
  lk_nodup : NoDup V.*1;
  lk_links : dlist (vlinks s) V.*1;
  lk_data : data s V }.

(** From [pr] on, the areas [V] follow to the end of a list. *)
Definition seg s (pr : option Z) V : Prop := dlseg (vlinks s) pr V.*1 None ∧ data s V.

Lemma linked_seg s l V : linked s l V → seg s None V.
Proof. by intros []. Qed.

Lemma seg_cons s pr x r V :
  seg s pr ((x, r) :: V) →
  ∃ v, vs_vmas s !! x = Some v ∧ region_of v = r ∧ vma_prev v = pr ∧ vma_next v = head V.*1 ∧
    seg s (Some x) V.
Proof.
  intros [[Hx HV] Hd]. specialize (Hd x r ltac:(set_solver)) as Hr. cbn in Hx.
  rewrite or_else_None in Hx. unfold vlinks in Hx. destruct (vs_vmas s !! x) as [v|]; [|done].
  cbn in Hx, Hr. injection Hx as Hp Hn. injection Hr as Hr. exists v. split_and!; [done..|].
  split; [done|]. intros y r' Hy. apply Hd. set_solver.
Qed.

Lemma linked_size s l V : linked s l V → (length V ≤ size (vs_vmas s))%nat.
Proof.
  intros [_ Hnd _ Hd]. rewrite <-(length_fmap fst), <-(size_list_to_set (C := gset Z)) by done.
  rewrite <-(size_dom (D := gset Z) (vs_vmas s)). apply subseteq_size. intros x Hx.
  apply elem_of_list_to_set, list_elem_of_fmap_1 in Hx as ([y r] & -> & Hy).
  apply elem_of_dom. specialize (Hd y r Hy). cbn [fst]. destruct (vs_vmas s !! y); [by eexists|done].
Qed.

Lemma linked_at s l V x r : linked s l V → (x, r) ∈ V → ∃ v, vs_vmas s !! x = Some v ∧ region_of v = r.
Proof. intros [_ _ _ Hd] Hx. specialize (Hd x r Hx). destruct (vs_vmas s !! x); [|done]. simplify_eq/=. eauto. Qed.

(** A list is untouched where its memory is. *)
Lemma linked_frame s s' l V :
  vs_lists s' !! l = vs_lists s !! l → (∀ x, x ∈ V.*1 → vs_vmas s' !! x = vs_vmas s !! x) →
  linked s l V → linked s' l V.
Proof.
  intros Hl Hx [H1 H2 H3 H4]. split; [by rewrite Hl|done|..].
  - eapply dlseg_ext; [|exact H3]. intros y Hy. unfold vlinks. by rewrite Hx.
  - intros y r Hy. rewrite Hx; [by apply H4|]. apply list_elem_of_fmap. by exists (y, r).
Qed.

(** ** Single accesses *)

Lemma rd_vma_wp s x v (Q : vma → vmas S → Prop) :
  vs_vmas s !! x = Some v → Q v s → wp (rd_vma x) Q s.
Proof. intros Hx HQ. unfold rd_vma. wp_step. wp_step. by eapply wp_lift. Qed.

Lemma rd_list_wp s l d (Q : vma_list → vmas S → Prop) :
  vs_lists s !! l = Some d → Q d s → wp (rd_list l) Q s.
Proof. intros Hx HQ. unfold rd_list. wp_step. wp_step. by eapply wp_lift. Qed.

Lemma upd_vma_wp s x v f (Q : unit → vmas S → Prop) :
  vs_vmas s !! x = Some v → Q tt (set_vmas (<[x := f v]> (vs_vmas s)) s) → wp (upd_vma x f) Q s.
Proof. intros Hx HQ. unfold upd_vma. wp_step. eapply rd_vma_wp; [done|]. by wp_step. Qed.

Lemma upd_list_wp s l d f (Q : unit → vmas S → Prop) :
  vs_lists s !! l = Some d → Q tt (set_lists (<[l := f d]> (vs_lists s)) s) → wp (upd_list l f) Q s.
Proof. intros Hx HQ. unfold upd_list. wp_step. eapply rd_list_wp; [done|]. by wp_step. Qed.

Lemma walk_wp {T : Type} s l V (k : option Z → nat → M (vmas S) T) (Q : T → vmas S → Prop) :
  linked s l V → wp (k (head V.*1) (Datatypes.S (size (vs_vmas s)))) Q s →
  wp (d ← rd_list l; fuel ← walk_fuel; k (vl_head d) fuel) Q s.
Proof.
  intros HV HQ. wp_step. eapply rd_list_wp; [apply HV|]. wp_step. unfold walk_fuel. by wp_step.
Qed.

(** ** The loops that only read *)

Lemma find_from_wp s pr V fuel addr :
  seg s pr V → ordered V → (length V < fuel)%nat →
  wp (find_from fuel addr (head V.*1)) (λ o s', s' = s ∧ match o with
    | Some x => ∃ r, (x, r) ∈ V ∧ contains r addr
    | None => ∀ x r, (x, r) ∈ V → ¬ contains r addr
    end) s.
Proof.
  revert pr fuel. induction V as [|[x r] V IH]; intros pr fuel Hs Ho Hf.
  { destruct fuel; apply wp_ret; (split; [done|]); by intros y r ?%elem_of_nil. }
  destruct fuel as [|fuel]; [simpl in Hf; lia|]. cbn [find_from head fmap list_fmap fst].
  apply seg_cons in Hs as (v & Hv & <- & _ & Hn & Hs). apply ordered_cons in Ho as (Hr & Ho & Hb).
  wp_step. eapply rd_vma_wp; [done|]. rewrite Hn. cbn [snd] in *.
  destruct (Z.leb_spec (vma_start v) addr) as [Hle|Hlt]; cbn [andb].
  - destruct (Z.ltb_spec addr (vma_end v)) as [Hlt|Hge].
    + apply wp_ret. split; [done|]. exists (region_of v). split; [set_solver|]. split; done.
    + destruct (Z.ltb_spec addr (vma_start v)); [lia|].
      eapply wp_mono; [by eapply IH; [done|done|simpl in Hf; lia]|]. intros o s' [-> Ho']. split; [done|].
      destruct o as [y|].
      * destruct Ho' as (g & ? & ?). exists g. split; [set_solver|done].
      * intros y g [[= -> ->]|Hy]%elem_of_cons; [|by eapply Ho'].
        unfold contains. cbn [region_of rg_start rg_end]. lia.
  - destruct (Z.ltb_spec addr (vma_start v)); [|lia]. apply wp_ret. split; [done|].
    intros y g [[= -> ->]|Hy]%elem_of_cons; unfold contains; [cbn; lia|].
    specialize (Hb (y, g) Hy). unfold before in Hb. cbn in *. destruct Hr. cbn in *. lia.
Qed.

Lemma find_or_next_from_wp s pr V fuel addr :
  seg s pr V → (length V < fuel)%nat →
  wp (find_or_next_from fuel addr (head V.*1)) (λ o s', s' = s ∧ match o with
    | Some x => ∃ A r B, V = A ++ (x, r) :: B ∧ addr < rg_end r ∧ ∀ w, w ∈ A → rg_end w.2 ≤ addr
    | None => ∀ w, w ∈ V → rg_end w.2 ≤ addr
    end) s.
Proof.
  revert pr fuel. induction V as [|[x r] V IH]; intros pr fuel Hs Hf.
  { destruct fuel; apply wp_ret; (split; [done|]); by intros w ?%elem_of_nil. }
  destruct fuel as [|fuel]; [simpl in Hf; lia|]. cbn [find_or_next_from head fmap list_fmap fst].
  apply seg_cons in Hs as (v & Hv & <- & _ & Hn & Hs).
  wp_step. eapply rd_vma_wp; [done|]. rewrite Hn.
  destruct (Z.ltb_spec addr (vma_end v)) as [Hlt|Hge].
  - apply wp_ret. split; [done|]. exists [], (region_of v), V. split_and!; [done..|]. by intros w ?%elem_of_nil.
  - eapply wp_mono; [by eapply IH; [done|simpl in Hf; lia]|]. intros o s' [-> Ho]. split; [done|].
    destruct o as [y|].
    + destruct Ho as (A & g & B & -> & Hg & HA). exists ((x, region_of v) :: A), g, B.
      split_and!; [done..|]. intros w [->|Hw]%elem_of_cons; [done|auto].
    + intros w [->|Hw]%elem_of_cons; [done|auto].
Qed.

Lemma overlaps_from_wp s pr V fuel a b :
  seg s pr V → ordered V → (length V < fuel)%nat →
  wp (overlaps_from fuel a b (head V.*1)) (λ o s', s' = s ∧
    if o then ∃ w, w ∈ V ∧ meets a b w.2 else ∀ w, w ∈ V → ¬ meets a b w.2) s.
Proof.
  revert pr fuel. induction V as [|[x r] V IH]; intros pr fuel Hs Ho Hf.
  { destruct fuel; apply wp_ret; (split; [done|]); by intros w ?%elem_of_nil. }
  destruct fuel as [|fuel]; [simpl in Hf; lia|]. cbn [overlaps_from head fmap list_fmap fst].
  apply seg_cons in Hs as (v & Hv & <- & _ & Hn & Hs). apply ordered_cons in Ho as (Hr & Ho & Hb).
  wp_step. eapply rd_vma_wp; [done|]. rewrite Hn.
  assert ((a <? vma_end v) && (vma_start v <? b) = true ↔ meets a b (region_of v)) as Hm.
  { rewrite andb_true_iff, !Z.ltb_lt. done. }
  destruct ((a <? vma_end v) && (vma_start v <? b)).
  { apply wp_ret. split; [done|]. exists (x, region_of v). split; [set_solver|]. by apply Hm. }
  assert (¬ meets a b (region_of v)) as Hno by (intros ?%Hm; done).
  destruct (Z.leb_spec b (vma_start v)) as [Hle|Hlt].
  - apply wp_ret. split; [done|]. intros w [->|Hw]%elem_of_cons; [done|].
    specialize (Hb w Hw). unfold before, meets in *. destruct Hr. cbn in *. lia.
  - eapply wp_mono; [by eapply IH; [done|done|simpl in Hf; lia]|]. intros [|] s' [-> Ho']; (split; [done|]).
    + destruct Ho' as (w & ? & ?). exists w. split; [set_solver|done].
    + intros w [->|Hw]%elem_of_cons; [done|auto].
Qed.

(** The search for a gap of [n] bytes.  Every address between the start of the
    search and the place reached is taken. *)
Lemma gap_from_wp s pr A V fuel n a0 a :
  seg s pr V → ordered (A ++ V) → (length V < fuel)%nat → 0 < n ≤ 2 ^ 47 →
  Forall (λ w, rg_end w.2 ≤ 2 ^ 63) V → 0 ≤ a0 → a0 ≤ a ≤ 2 ^ 63 →
  (∀ w, w ∈ A → rg_end w.2 ≤ a) →
  (∀ b, a0 ≤ b < a → ∃ w, w ∈ A ∧ meets b (b + n) w.2) →
  wp (gap_from fuel n a (head V.*1)) (λ g s', s' = s ∧ a0 ≤ g.1 ≤ 2 ^ 63 ∧
    (∀ b, a0 ≤ b < g.1 → ∃ w, w ∈ A ++ V ∧ meets b (b + n) w.2) ∧
    (g.1 = a ∨ ∃ w, w ∈ V ∧ g.1 = rg_end w.2) ∧
    (∀ w, w ∈ A ++ V → ¬ meets g.1 (g.1 + n) w.2) ∧
    (g.2 = true → ∃ w, w ∈ V ∧ g.1 + n ≤ rg_start w.2)) s.
Proof.
  revert pr A fuel a. induction V as [|[x r] V IH]; intros pr A fuel a Hs Ho Hf Hn Hmax H0 Ha Hlo Htaken.
  { rewrite app_nil_r. destruct fuel; apply wp_ret; cbn [fst snd]; (split_and!; [done|lia|lia|done|by left| |done]);
      intros w Hw; specialize (Hlo w Hw); unfold meets; lia. }
  destruct fuel as [|fuel]; [simpl in Hf; lia|]. cbn [gap_from head fmap list_fmap fst].
  apply seg_cons in Hs as (v & Hv & <- & _ & Hnx & Hs).
  wp_step. eapply rd_vma_wp; [done|]. rewrite Hnx.
  apply Forall_cons in Hmax as [Hmv Hmax]. cbn [snd rg_end region_of] in Hmv.
  rewrite wrap_small by lia.
  pose proof Ho as Ho'. apply ordered_app in Ho' as (_ & (Hr & HoV & Hb)%ordered_cons & _). cbn [snd] in *.
  destruct (Z.leb_spec (a + n) (vma_start v)) as [Hle|Hlt].
  - apply wp_ret. cbn [fst snd]. split_and!; [done|lia|lia| |by left| |].
    + intros b Hbb. destruct (Htaken b Hbb) as (w & ? & ?). exists w. split; [set_solver|done].
    + intros w [Hw|[->|Hw]%elem_of_cons]%elem_of_app; unfold meets.
      * specialize (Hlo w Hw). lia.
      * cbn. lia.
      * specialize (Hb w Hw). unfold before in Hb. destruct Hr. cbn in *. lia.
    + intros _. exists (x, region_of v). split; [set_solver|]. done.
  - set (a' := if a <? vma_end v then vma_end v else a).
    assert (a' = Z.max a (vma_end v)) as Ha' by (unfold a'; destruct (Z.ltb_spec a (vma_end v)); lia).
    rewrite (cons_middle _ A V), app_assoc in Ho |- *.
    eapply wp_mono; [apply (IH (Some x) (A ++ [(x, region_of v)]) fuel a'); try done|].
    + simpl in Hf. lia.
    + lia.
    + intros w [Hw| ->%list_elem_of_singleton]%elem_of_app; [specialize (Hlo w Hw); lia|]. cbn. lia.
    + intros b Hbb. destruct (decide (b < a)) as [Hba|Hba].
      * destruct (Htaken b ltac:(lia)) as (w & ? & ?). exists w. split; [set_solver|done].
      * exists (x, region_of v). split; [set_solver|]. unfold meets. cbn. lia.
    + intros [c f] s' (-> & ? & ? & Hc & ? & Hg). cbn [fst snd] in *. split_and!; try done; [lia|lia|..].
      * destruct Hc as [->|(w & ? & ?)]; [|right; exists w; split; [set_solver|done]].
        rewrite Ha'. destruct (Z.max_spec a (vma_end v)) as [[_ ->]|[_ ->]]; [right|by left].
        exists (x, region_of v). split; [set_solver|done].
      * intros Hf'. destruct (Hg Hf') as (w & ? & ?). exists w. split; [set_solver|done].
Qed.

(** ** Splicing *)

Definition opt_alter (f : vma → vma) (o : option Z) (m : gmap Z vma) : gmap Z vma :=
  match o with Some p => alter f p m | None => m end.

Lemma lookup_opt_alter f o m y :
  opt_alter f o m !! y = if decide (o = Some y) then f <$> m !! y else m !! y.
Proof.
  destruct o as [p|]; cbn [opt_alter]; [|by rewrite decide_False].
  destruct (decide (Some p = Some y)) as [[= ->]|Hne].
  - apply lookup_alter_eq.
  - apply lookup_alter_ne. congruence.
Qed.

(** [if (p) p->field = ...; else list->field = ...] *)
Lemma splice_wp s l d o f g (Q : unit → vmas S → Prop) :
  vs_lists s !! l = Some d → (∀ p, o = Some p → is_Some (vs_vmas s !! p)) →
  Q tt (set_lists (<[l := match o with Some _ => d | None => g d end]> (vs_lists s))
         (set_vmas (opt_alter f o (vs_vmas s)) s)) →
  wp (match o with Some p => upd_vma p f | None => upd_list l g end) Q s.
Proof.
  intros Hl Ho HQ. destruct o as [p|].
  - destruct (Ho p eq_refl) as [v Hv]. eapply upd_vma_wp; [done|]. rewrite insert_id in HQ by done.
    cbn [opt_alter] in HQ. replace (<[p := f v]> (vs_vmas s)) with (alter f p (vs_vmas s)); [by destruct s|].
    apply map_eq. intros y. destruct (decide (y = p)) as [->|Hne].
    + by rewrite lookup_alter_eq, lookup_insert_eq, Hv.
    + by rewrite lookup_alter_ne, lookup_insert_ne.
  - eapply upd_list_wp; [done|]. by destruct s.
Qed.

Lemma insertion_point_wp s pr V fuel start :
  seg s pr V → (length V < fuel)%nat →
  wp (insertion_point fuel start pr (head V.*1)) (λ pc s', s' = s ∧ ∃ A B, V = A ++ B ∧
    pc = (or_else (last A.*1) pr, head B.*1) ∧
    (∀ w, w ∈ A → rg_start w.2 < start) ∧ (∀ w, head B = Some w → start ≤ rg_start w.2)) s.
Proof.
  revert pr fuel. induction V as [|[x r] V IH]; intros pr fuel Hs Hf.
  { destruct fuel; apply wp_ret; (split; [done|]); exists [], []; split_and!; try done;
      by intros w ?%elem_of_nil. }
  destruct fuel as [|fuel]; [simpl in Hf; lia|]. cbn [insertion_point head fmap list_fmap fst].
  apply seg_cons in Hs as (v & Hv & <- & _ & Hn & Hs).
  wp_step. eapply rd_vma_wp; [done|]. rewrite Hn. destruct (Z.ltb_spec (vma_start v) start) as [Hlt|Hge].
  - eapply wp_mono; [by eapply IH; [done|simpl in Hf; lia]|].
    intros pc s' (-> & A & B & -> & -> & HA & HB). split; [done|].
    exists ((x, region_of v) :: A), B. split_and!; [done| | |done].
    + cbn [fmap list_fmap fst]. by rewrite last_or_else.
    + intros w [->|Hw]%elem_of_cons; [done|auto].
  - apply wp_ret. split; [done|]. exists [], ((x, region_of v) :: V). split_and!; [done..| |].
    + by intros w ?%elem_of_nil.
    + by intros w [= <-].
Qed.

(** What a change to the list [l] and the areas [X] leaves alone. *)
Record only s s' l (X : list Z) : Prop := Only {
  on_heap_same : vs_heap s' = vs_heap s;
  on_c1 : vma_cache s' = vma_cache s;
  on_c2 : vma_list_cache s' = vma_list_cache s;
  on_vmas : ∀ y, y ∉ X → vs_vmas s' !! y = vs_vmas s !! y;
  on_lists : ∀ l', l' ≠ l → vs_lists s' !! l' = vs_lists s !! l' }.

Lemma region_of_links p n v : region_of (set_vma_links p n v) = region_of v.
Proof. done. Qed.

Lemma head_splice (P R : list Z) x :
  head (P ++ x :: R) = match last P with Some _ => head (P ++ R) | None => Some x end.
Proof. destruct P as [|a P]; [done|]. rewrite last_cons. by destruct (last P). Qed.

Lemma last_splice (P R : list Z) x :
  last (P ++ x :: R) = match head R with Some _ => last (P ++ R) | None => Some x end.
Proof. destruct R as [|b R]; cbn [head]; by rewrite !last_app_cons. Qed.

Lemma linked_is_some s l V y : linked s l V → y ∈ V.*1 → is_Some (vs_vmas s !! y).
Proof.
  intros HV ([x r] & -> & Hx)%list_elem_of_fmap_1. destruct (linked_at _ _ _ _ _ HV Hx) as (v & ? & _). by exists v.
Qed.

Lemma vma_insert_wp s l V x v (Q : unit → vmas S → Prop) :
  linked s l V → x ∉ V.*1 → vs_vmas s !! x = Some v →
  (∀ A B s', V = A ++ B → (∀ w, w ∈ A → rg_start w.2 < vma_start v) →
     (∀ w, head B = Some w → vma_start v ≤ rg_start w.2) →
     linked s' l (A ++ (x, region_of v) :: B) → only s s' l (x :: V.*1) → Q tt s') →
  wp (vma_insert l x) Q s.
Proof.
  intros HV Hx Hv HQ. unfold vma_insert.
  wp_step. eapply rd_list_wp; [apply HV|]. wp_step. eapply rd_vma_wp; [done|].
  wp_step. unfold walk_fuel. wp_step. wp_step. cbn [vl_head].
  pose proof (linked_size s l V HV) as Hsz.
  eapply wp_mono; [apply (insertion_point_wp s None V); [by eapply linked_seg|lia]|].
  intros pc s0 (-> & A & B & HAB & -> & HA & HB). rewrite or_else_None. cbv beta iota.
  wp_step. eapply upd_vma_wp; [done|].
  set (m0 := <[x := _]> (vs_vmas s)).
  pose proof HV as [Hdesc Hnd Hlk Hd]. rewrite HAB, fmap_app in Hnd, Hlk.
  assert (∀ y, y ∈ V.*1 → m0 !! y = vs_vmas s !! y) as Hm0.
  { intros y Hy. unfold m0. rewrite lookup_insert_ne; [done|]. by intros ->. }
  assert (∀ p, last A.*1 = Some p → p ∈ V.*1) as HpV.
  { intros p Hp%last_Some_elem_of. rewrite HAB, fmap_app. set_solver. }
  assert (∀ c, head B.*1 = Some c → c ∈ V.*1) as HcV.
  { intros c Hc%head_Some_elem_of. rewrite HAB, fmap_app. set_solver. }
  wp_step. eapply splice_wp; [exact Hdesc| |].
  { intros p Hp. cbn. rewrite Hm0 by auto. eapply linked_is_some; [exact HV|auto]. }
  wp_step. eapply splice_wp; [apply lookup_insert_eq| |].
  { intros c Hc. cbn. rewrite lookup_opt_alter. destruct (decide _); rewrite Hm0 by auto;
      [apply fmap_is_Some|]; (eapply linked_is_some; [exact HV|auto]). }
  eapply upd_list_wp; [apply lookup_insert_eq|].
  cbn [set_lists set_vmas vs_heap vma_cache vma_list_cache vs_vmas vs_lists].
  rewrite !insert_insert_eq. set (m := opt_alter _ _ (opt_alter _ _ m0)). set (d := set_vl_count _ _).
  apply NoDup_app in Hnd as Hnd'. destruct Hnd' as (HndA & Hdisj & HndB).
  assert (∀ y, m !! y = if decide (y = x) then Some (set_vma_links (last A.*1) (head B.*1) v) else
            (if decide (head B.*1 = Some y) then set_vma_prev (Some x) else
             if decide (last A.*1 = Some y) then set_vma_next (Some x) else id) <$> vs_vmas s !! y) as Hm.
  { intros y. unfold m. rewrite !lookup_opt_alter. unfold m0. destruct (decide (y = x)) as [->|Hne].
    - rewrite lookup_insert_eq. rewrite !decide_False by (intros ?; apply Hx; auto). done.
    - rewrite lookup_insert_ne by done. destruct (decide (head B.*1 = Some y)) as [Hc|].
      + rewrite decide_False; [done|]. intros Hp. apply (Hdisj y); [by apply last_Some_elem_of|by apply head_Some_elem_of].
      + destruct (decide _); [done|]. by rewrite option_fmap_id. }
  apply (HQ A B); try done.
  - split; cbn [vs_lists vs_vmas set_lists].
    + rewrite lookup_insert_eq. f_equal. rewrite fmap_app, fmap_cons, length_app. cbn [fst length].
      rewrite head_splice, last_splice, <-fmap_app, <-HAB. unfold d, set_vl_count. f_equal.
      * by destruct (last A.*1), (head B.*1).
      * by destruct (last A.*1), (head B.*1).
      * rewrite HAB, length_app. destruct (last A.*1), (head B.*1); cbn;
          unfold wrap; rewrite Zplus_mod_idemp_l; f_equal; lia.
    + rewrite fmap_app, fmap_cons. cbn [fst]. apply NoDup_app. split_and!; [done| |].
      * intros y Hy [->|Hy']%elem_of_cons; [|by eapply Hdisj].
        apply Hx. rewrite HAB, fmap_app. set_solver.
      * apply NoDup_cons. split; [|done]. intros Hy. apply Hx. rewrite HAB, fmap_app. set_solver.
    + rewrite fmap_app, fmap_cons. cbn [fst].
      eapply (dlist_insert (vlinks s)); [done|by apply NoDup_app|..]; unfold vlinks; cbn [vs_vmas set_lists set_vmas].
      * rewrite Hm, decide_True by done. done.
      * intros a Ha. rewrite Hm, decide_False by (intros ->; auto).
        rewrite decide_False by (intros ?; apply (Hdisj a); [by apply last_Some_elem_of|by apply head_Some_elem_of]).
        rewrite decide_True by done. by destruct (vs_vmas s !! a).
      * intros b Hb. rewrite Hm, decide_False by (intros ->; auto). rewrite decide_True by done.
        by destruct (vs_vmas s !! b).
      * intros y Hy Hy1 Hy2. rewrite Hm, decide_False by (intros ->; apply Hx; by rewrite HAB, fmap_app).
        rewrite !decide_False by done. by rewrite option_fmap_id.
    + intros y r Hy. cbn [vs_vmas set_lists set_vmas]. rewrite Hm. destruct (decide (y = x)) as [->|Hne].
      * apply elem_of_app in Hy as [Hy|[[= ->]|Hy]%elem_of_cons]; [|done|];
          (exfalso; apply Hx; rewrite HAB; apply list_elem_of_fmap; exists (x, r); set_solver).
      * assert ((y, r) ∈ V) as HyV by (rewrite HAB; set_solver). specialize (Hd y r HyV).
        destruct (vs_vmas s !! y); [|done]. simpl in Hd |- *. rewrite <-Hd. f_equal.
        by repeat destruct (decide _).
  - split; [done..| |]; cbn [vs_vmas vs_lists set_lists set_vmas].
    + intros y Hy. rewrite Hm, decide_False by set_solver.
      rewrite !decide_False by (intros ?; apply Hy; set_solver). by rewrite option_fmap_id.
    + intros l' Hl'. by rewrite lookup_insert_ne.
Qed.

Lemma linked_mid s l A x r B :
  linked s l (A ++ (x, r) :: B) → ∃ v, vs_vmas s !! x = Some v ∧ region_of v = r ∧
    vma_prev v = last A.*1 ∧ vma_next v = head B.*1.
Proof.
  intros HV. destruct (linked_at _ _ _ x r HV) as (v & Hv & Hr); [set_solver|]. exists v.
  pose proof (lk_links _ _ _ HV) as Hl. rewrite fmap_app, fmap_cons in Hl.
  apply dlist_links in Hl. unfold vlinks in Hl. cbn [fst] in Hl. rewrite Hv in Hl. simpl in Hl.
  by injection Hl.
Qed.

(** Taking an area out of its list. *)
Definition vma_unlink (l : Z) (v : vma) : M (vmas S) unit :=
  match vma_prev v with
  | Some p => upd_vma p (set_vma_next (vma_next v))
  | None => upd_list l (set_vl_head (vma_next v))
  end ;;
  match vma_next v with
  | Some n => upd_vma n (set_vma_prev (vma_prev v))
  | None => upd_list l (set_vl_tail (vma_prev v))
  end ;;
  upd_list l (λ d, set_vl_count (vl_count d -u32 1) d).

Lemma head_unsplice (P R : list Z) x :
  head (P ++ R) = match last P with Some _ => head (P ++ x :: R) | None => head R end.
Proof. destruct P as [|a P]; [done|]. rewrite last_cons. by destruct (last P). Qed.

Lemma last_unsplice (P R : list Z) x :
  last (P ++ R) = match head R with Some _ => last (P ++ x :: R) | None => last P end.
Proof. destruct R as [|b R]; cbn [head]; [by rewrite app_nil_r|]. by rewrite !last_app_cons. Qed.

Lemma vma_unlink_wp s l A x r B v (Q : unit → vmas S → Prop) :
  linked s l (A ++ (x, r) :: B) → vs_vmas s !! x = Some v →
  (∀ s', linked s' l (A ++ B) → only s s' l (A ++ B).*1 → Q tt s') →
  wp (vma_unlink l v) Q s.
Proof.
  intros HV Hv HQ. pose proof HV as [Hdesc Hnd Hlk Hd]. rewrite fmap_app, fmap_cons in Hnd, Hlk.
  destruct (linked_mid _ _ _ _ _ _ HV) as (v' & Hv' & _ & Hp & Hn). simplify_eq.
  unfold vma_unlink. rewrite Hp, Hn. cbn [fst] in *.
  apply NoDup_app in Hnd as (HndA & Hdisj & [HxB HndB]%NoDup_cons).
  assert (∀ y, y ∈ A.*1 → y ∉ B.*1) as Hdisj' by (intros y ? ?; apply (Hdisj y); set_solver).
  assert (x ∉ A.*1) as HxA by (intros ?; apply (Hdisj x); set_solver).
  assert (∀ y, y ∈ A.*1 ∨ y ∈ B.*1 → is_Some (vs_vmas s !! y)) as Hin.
  { intros y Hy. eapply linked_is_some; [exact HV|]. rewrite fmap_app, fmap_cons. set_solver. }
  wp_step. eapply splice_wp; [exact Hdesc| |].
  { intros p' Hp'. apply Hin. left. by apply last_Some_elem_of. }
  wp_step. eapply splice_wp; [apply lookup_insert_eq| |].
  { intros c Hc. cbn. rewrite lookup_opt_alter. destruct (decide _); [apply fmap_is_Some|];
      (apply Hin; right; by apply head_Some_elem_of). }
  eapply upd_list_wp; [apply lookup_insert_eq|].
  cbn [set_lists set_vmas vs_heap vma_cache vma_list_cache vs_vmas vs_lists].
  rewrite !insert_insert_eq. set (m := opt_alter _ _ (opt_alter _ _ (vs_vmas s))). set (d := set_vl_count _ _).
  remember (set_lists (<[l := d]> (vs_lists s)) _) as s' eqn:Hs'.
  assert (vs_lists s' = <[l := d]> (vs_lists s)) as Hls by by rewrite Hs'.
  assert (∀ y, vs_vmas s' !! y = (if decide (head B.*1 = Some y) then set_vma_prev (last A.*1) else
             if decide (last A.*1 = Some y) then set_vma_next (head B.*1) else id) <$> vs_vmas s !! y) as Hm.
  { intros y. rewrite Hs'. cbn. unfold m. rewrite !lookup_opt_alter. destruct (decide (head B.*1 = Some y)) as [Hc|].
    - rewrite decide_False; [done|]. intros Hl. apply (Hdisj' y); [by apply last_Some_elem_of|by apply head_Some_elem_of].
    - destruct (decide _); [done|]. by rewrite option_fmap_id. }
  apply HQ.
  - split.
    + rewrite Hls, lookup_insert_eq. f_equal. rewrite fmap_app, length_app, (head_unsplice _ _ x), (last_unsplice _ _ x).
      unfold d, set_vl_count. rewrite fmap_app, fmap_cons, length_app. cbn [fst length]. f_equal.
      * by destruct (last A.*1), (head B.*1).
      * by destruct (last A.*1), (head B.*1).
      * destruct (last A.*1), (head B.*1); cbn; unfold wrap; rewrite Zminus_mod_idemp_l; f_equal; lia.
    + rewrite fmap_app. by apply NoDup_app.
    + rewrite fmap_app. eapply (dlist_remove (vlinks s)); [done|by apply NoDup_app|..]; unfold vlinks.
      * intros a Ha. rewrite Hm. rewrite decide_False by (intros ?; apply (Hdisj' a); [by apply last_Some_elem_of|by apply head_Some_elem_of]).
        rewrite decide_True by done. by destruct (vs_vmas s !! a).
      * intros b Hb. rewrite Hm, decide_True by done. by destruct (vs_vmas s !! b).
      * intros y Hy Hy1 Hy2. rewrite Hm, !decide_False by done. by rewrite option_fmap_id.
    + intros y g Hy. rewrite Hm. specialize (Hd y g ltac:(set_solver)).
      destruct (vs_vmas s !! y); [|done]. simpl in Hd |- *. rewrite <-Hd. f_equal. by repeat destruct (decide _).
  - split; [by rewrite Hs'..| |].
    + intros y Hy. rewrite fmap_app in Hy. rewrite Hm, !decide_False.
      * by rewrite option_fmap_id.
      * intros Hl%last_Some_elem_of. set_solver.
      * intros Hl%head_Some_elem_of. set_solver.
    + intros l' Hl'. by rewrite Hls, lookup_insert_ne.
Qed.

End inv.
