(* ===== verification/VmaThm.v ===== *)
(** * Virtual memory areas: what the operations of mm/vma.c do

    The invariant of the whole module over any kernel heap: every list is linked
    in memory, sorted, of disjoint page-aligned regions, and made of blocks the
    module holds.  Each operation runs without a fault and changes the abstract
    lists as its name says, on every branch. *)

From stdpp Require Import sorting strings.
From S2P Require Import Prelude DList KHeap Vma VmaInv.
From S2P Require Import Pmm PmmThm Frames Vmm VmmThm PageMap Slab.

Section thm.
Context {S : Type} {KH : KHeap S} {KHL : KHeapLaws S}.
Implicit Types (s : vmas S) (C : gmap Z Z) (H : blocks) (Ls : gmap Z areas) (V W A B : areas).
Implicit Types (l x y : Z) (r : region) (v : vma).

Abbreviation vma_block s := (vma_cache s, sizeof_vma_t).
Abbreviation list_block s := (vma_list_cache s, sizeof_vma_list_t).

(** One list: linked, in order, and of blocks that are held. *)
Record list_inv s H l V : Prop := ListInv {
  li_linked : linked s l V;
  li_ordered : ordered V;
  li_block : H !! l = Some (list_block s);
  li_blocks : ∀ x, x ∈ V.*1 → H !! x = Some (vma_block s) }.

Record vma_inv s C H Ls : Prop := VmaInv {
  vi_heap : kh_inv (vs_heap s) C H;
  vi_c1 : ∃ c, vma_cache s = Some c ∧ C !! c = Some sizeof_vma_t;
  vi_c2 : ∃ c, vma_list_cache s = Some c ∧ C !! c = Some sizeof_vma_list_t;
  vi_ne : vma_cache s ≠ vma_list_cache s;
  vi_lists : ∀ l V, Ls !! l = Some V → list_inv s H l V;
  vi_apart : ∀ l l' V V' x, Ls !! l = Some V → Ls !! l' = Some V' →
    x ∈ V.*1 → x ∈ V'.*1 → l = l' }.

(** ** Page rounding *)

Lemma align_down_page x : 0 ≤ x < 2 ^ 64 →
  ALIGN_DOWN x PAGE_SIZE = x - x mod PAGE_SIZE.
Proof. intros Hx. change PAGE_SIZE with (2 ^ 12). apply ALIGN_DOWN_spec; lia. Qed.

Lemma align_up_range x : 0 ≤ ALIGN_UP x PAGE_SIZE < 2 ^ 64 ∧ ALIGN_UP x PAGE_SIZE mod PAGE_SIZE = 0.
Proof.
  unfold ALIGN_UP. change PAGE_SIZE with (2 ^ 12).
  pose proof (wrap_bounds 64 (x + (2 ^ 12 - 1)) ltac:(lia)) as Hw.
  rewrite land_align_mask by lia. set (z := wrap64 _) in *. clearbody z.
  Z.to_euclidean_division_equations; lia.
Qed.

Lemma align_up_page x : 0 ≤ x → x + 4095 < 2 ^ 64 →
  x ≤ ALIGN_UP x PAGE_SIZE < x + PAGE_SIZE.
Proof.
  intros Hx Hb. change PAGE_SIZE with (2 ^ 12). rewrite ALIGN_UP_spec by lia.
  Z.to_euclidean_division_equations; lia.
Qed.

(** The region vma_create makes. *)
Definition new_region (start end_ flags prot : Z) : region :=
  Region (ALIGN_DOWN start PAGE_SIZE) (ALIGN_UP end_ PAGE_SIZE) flags prot None 0.

Lemma new_region_ok start end_ flags prot :
  0 ≤ start < 2 ^ 64 → ALIGN_DOWN start PAGE_SIZE < ALIGN_UP end_ PAGE_SIZE →
  region_ok (new_region start end_ flags prot).
Proof.
  intros Hs Hlt. destruct (align_up_range end_) as [Hr Hm].
  rewrite align_down_page in Hlt by done.
  split; cbn [new_region rg_start rg_end]; try lia; try done; rewrite align_down_page by done;
    unfold PAGE_SIZE in *; Z.to_euclidean_division_equations; lia.
Qed.

(** A region of whole pages is what vma_create makes of its own bounds. *)
Lemma new_region_id r :
  region_ok r → ALIGN_DOWN (rg_start r) PAGE_SIZE = rg_start r ∧ ALIGN_UP (rg_end r) PAGE_SIZE = rg_end r.
Proof.
  intros [H1 H2 H3 H4 H5]. rewrite align_down_page by lia. split; [lia|].
  change PAGE_SIZE with (2 ^ 12) in *.
  assert (rg_end r + (2 ^ 12 - 1) < 2 ^ 64).
  { Z.to_euclidean_division_equations; lia. }
  rewrite ALIGN_UP_spec by lia. Z.to_euclidean_division_equations; lia.
Qed.

(** ** Framing *)

Lemma list_inv_frame s s' H H' l V :
  vma_cache s' = vma_cache s → vma_list_cache s' = vma_list_cache s →
  vs_lists s' !! l = vs_lists s !! l → (∀ x, x ∈ V.*1 → vs_vmas s' !! x = vs_vmas s !! x) →
  H' !! l = H !! l → (∀ x, x ∈ V.*1 → H' !! x = H !! x) →
  list_inv s H l V → list_inv s' H' l V.
Proof.
  intros E1 E2 Hl Hx Hb Hbs [HV Ho Hbl Hbx]. split; [by eapply linked_frame|done|by rewrite Hb, E2|].
  intros x Hx'. rewrite Hbs, E1 by done. auto.
Qed.

(** Only the heap changed, and no block of the module with it. *)
Lemma vma_inv_heap s h C H Ls :
  vma_inv s C H Ls → kh_inv h C H → vma_inv (set_heap h s) C H Ls.
Proof.
  intros [H1 H2 H3 H4 H5 H6] Hh. split; try done.
  intros l V HV. by eapply list_inv_frame; [..|by apply H5].
Qed.

(** The list [l] changed to [V'], and the blocks to [H']. *)
Lemma vma_inv_update s s' C H H' Ls l V' (X : list Z) :
  vma_inv s C H Ls → kh_inv (vs_heap s') C H' →
  vma_cache s' = vma_cache s → vma_list_cache s' = vma_list_cache s →
  (∀ y, y ∉ X → vs_vmas s' !! y = vs_vmas s !! y) →
  (∀ l', l' ≠ l → vs_lists s' !! l' = vs_lists s !! l') →
  (∀ y, y ∉ X → H' !! y = H !! y ∨ y = l ∧ Ls !! l = None) →
  (∀ l' V y, l' ≠ l → Ls !! l' = Some V → y ∈ X → y ≠ l' ∧ y ∉ V.*1) →
  (∀ l' V, l' ≠ l → Ls !! l' = Some V → l ∉ V.*1) →
  list_inv s' H' l V' → (∀ x, x ∈ V'.*1 → x ∈ X) →
  vma_inv s' C H' (<[l := V']> Ls).
Proof.
  intros [H1 H2 H3 H4 H5 H6] Hh E1 E2 Hv Hl Hb HX Hnl HV' Hin. split; [done|by rewrite E1|by rewrite E2|congruence|..].
  - intros l' V. destruct (decide (l' = l)) as [->|Hne].
    { rewrite lookup_insert_eq. by intros [= <-]. }
    rewrite lookup_insert_ne by done. intros HV.
    eapply list_inv_frame; [done|done|by apply Hl| | | |by apply H5].
    + intros x Hx. apply Hv. intros HxX. by destruct (HX l' V x Hne HV HxX).
    + destruct (Hb l') as [?|[? _]]; [|done|done]. intros HxX. by destruct (HX l' V l' Hne HV HxX).
    + intros x Hx. destruct (Hb x) as [?|[-> _]]; [|done|by destruct (Hnl l' V Hne HV)].
      intros HxX. by destruct (HX l' V x Hne HV HxX).
  - assert (∀ l1 V1 x, l1 ≠ l → Ls !! l1 = Some V1 → x ∈ V1.*1 → x ∈ V'.*1 → False) as Hno.
    { intros l1 V1 x Hne HV1 Hx Hx'. by destruct (HX l1 V1 x Hne HV1 (Hin x Hx')). }
    intros l1 l2 V1 V2 x. destruct (decide (l1 = l)) as [->|Hn1], (decide (l2 = l)) as [->|Hn2];
      rewrite ?lookup_insert_eq, ?lookup_insert_ne by done.
    + done.
    + intros [= <-] HV2 Hx Hx'. by destruct (Hno l2 V2 x Hn2 HV2 Hx').
    + intros HV1 [= <-] Hx Hx'. by destruct (Hno l1 V1 x Hn1 HV1 Hx).
    + eauto.
Qed.

(** ** Reading *)

Lemma vma_overlaps_wp s H l V a b (Q : bool → vmas S → Prop) :
  list_inv s H l V →
  ((∀ w, w ∈ V → ¬ meets a b w.2) → Q false s) →
  ((∃ w, w ∈ V ∧ meets a b w.2) → Q true s) →
  wp (vma_overlaps (Some l) a b) Q s.
Proof.
  intros [HV Ho _ _] HF HT. unfold vma_overlaps. apply (walk_wp s l V (λ p n, overlaps_from n a b p) _ HV).
  pose proof (linked_size _ _ _ HV).
  eapply wp_mono; [apply (overlaps_from_wp s None V); [by eapply linked_seg|done|lia]|].
  intros [|] s' [-> Hm]; auto.
Qed.

(** ** Creation *)

Lemma vma_create_wp s C H Ls l V start end_ flags prot (Q : option Z → vmas S → Prop) :
  vma_inv s C H Ls → Ls !! l = Some V → 0 ≤ start < 2 ^ 64 →
  (∀ s', vma_inv s' C H Ls → Q None s') →
  (∀ x A B s', let r := new_region start end_ flags prot in
     V = A ++ B → H !! x = None → rg_start r < rg_end r →
     (∀ w, w ∈ V → ¬ meets (rg_start r) (rg_end r) w.2) →
     vma_inv s' C (<[x := vma_block s]> H) (<[l := A ++ (x, r) :: B]> Ls) →
     vma_cache s' = vma_cache s → vma_list_cache s' = vma_list_cache s → Q (Some x) s') →
  wp (vma_create (Some l) start end_ flags prot) Q s.
Proof.
  intros Hi HV Hst HN HS. unfold vma_create. set (r := new_region start end_ flags prot).
  change (ALIGN_DOWN start PAGE_SIZE) with (rg_start r). change (ALIGN_UP end_ PAGE_SIZE) with (rg_end r).
  destruct (Z.leb_spec (rg_end r) (rg_start r)) as [Hle|Hlt]; [by apply wp_ret, HN|].
  pose proof (vi_lists _ _ _ _ Hi l V HV) as Hli.
  wp_step. apply (vma_overlaps_wp s H l V); [done| |]; [|intros _; by apply wp_ret, HN].
  intros Hfree. cbv beta iota. pose proof Hi as [Hh (c & Hc & HC) _ Hne _ _].
  wp_step. unfold new_vma. wp_step. wp_step. wp_step. rewrite Hc. cbn [kmem_alloc].
  apply wp_zoom. eapply wp_mono; [by apply (kh_alloc_law (vs_heap s) C H c _ Hh HC)|].
  intros [x|] h.
  2: { intros Hh'. apply wp_ret, wp_ret, HN. by apply vma_inv_heap. }
  intros (_ & Hx & Hh'). wp_step. wp_step. apply wp_ret. wp_step.
  set (s1 := set_vmas _ _). set (v := Vma _ _ _ _ _ _ _ _) in s1.
  assert (x ∉ V.*1) as HxV.
  { intros Hin. apply (li_blocks _ _ _ _ Hli) in Hin. congruence. }
  assert (linked s1 l V) as HV1.
  { eapply linked_frame; [..|apply Hli]; [done|]. intros y Hy. cbn. rewrite lookup_insert_ne; [done|]. by intros ->. }
  apply (vma_insert_wp s1 l V x v); [done|done|by cbn; rewrite lookup_insert_eq|].
  intros A B s2 HAB HA HB HV2 [O1 O2 O3 O4 O5]. apply wp_ret.
  assert (H !! l = Some (list_block s)) as Hl by apply Hli.
  assert (x ≠ l) as Hxl by congruence.
  apply (HS x A B s2); [done..| |by rewrite O2|by rewrite O3].
  apply (vma_inv_update s s2 C H (<[x := vma_block s]> H) Ls l _ (x :: V.*1)); [done|by rewrite O1, Hc|by rewrite O2|by rewrite O3|..].
  - intros y Hy. rewrite O4 by done. cbn. rewrite lookup_insert_ne; [done|set_solver].
  - intros l' Hl'. by rewrite O5.
  - intros y Hy. left. rewrite lookup_insert_ne; [done|set_solver].
  - intros l' V' y Hl' HV' [->|Hy]%elem_of_cons.
    + pose proof (vi_lists _ _ _ _ Hi l' V' HV') as Hli'. split.
      * intros ->. by rewrite (li_block _ _ _ _ Hli') in Hx.
      * intros Hin. by rewrite (li_blocks _ _ _ _ Hli' x Hin) in Hx.
    + split.
      * intros ->. pose proof (li_blocks _ _ _ _ Hli l' Hy) as E1.
        rewrite (li_block _ _ _ _ (vi_lists _ _ _ _ Hi l' V' HV')) in E1. congruence.
      * intros Hin. apply Hl'. by eapply (vi_apart _ _ _ _ Hi l' l V' V y).
  - intros l' V' Hl' HV' Hin. pose proof (li_blocks _ _ _ _ (vi_lists _ _ _ _ Hi l' V' HV') l Hin). congruence.
  - split; [done| |by rewrite O3, lookup_insert_ne|].
    + subst V. by apply ordered_insert; [apply Hli|by apply new_region_ok|..].
    + intros y. rewrite fmap_app, fmap_cons, O2. cbn [fst]. intros Hy.
      destruct (decide (y = x)) as [->|Hyx]; [by rewrite lookup_insert_eq|].
      rewrite lookup_insert_ne by done. apply (li_blocks _ _ _ _ Hli). rewrite HAB, fmap_app. set_solver.
  - intros y. rewrite HAB, !fmap_app, fmap_cons. cbn [fst]. set_solver.
Qed.

(** ** Giving blocks back *)

Lemma vma_inv_forget s C H Ls l : vma_inv s C H Ls → vma_inv s C H (delete l Ls).
Proof.
  intros [H1 H2 H3 H4 H5 H6]. split; try done.
  - intros l' V [_ HV]%lookup_delete_Some. auto.
  - intros l1 l2 V1 V2 x [_ HV1]%lookup_delete_Some [_ HV2]%lookup_delete_Some. eauto.
Qed.

Lemma free_vma_wp s C H Ls x (Q : unit → vmas S → Prop) :
  vma_inv s C H Ls → H !! x = Some (vma_block s) → (∀ l V, Ls !! l = Some V → x ∉ V.*1) →
  (∀ s', vma_inv s' C (delete x H) Ls → vs_vmas s' = delete x (vs_vmas s) →
     vs_lists s' = vs_lists s → vma_cache s' = vma_cache s →
     vma_list_cache s' = vma_list_cache s → Q tt s') →
  wp (free_vma x) Q s.
Proof.
  intros Hi Hx Hno HQ. pose proof Hi as [Hh (c & Hc & HC) H3 Hne Hls Hap]. unfold free_vma.
  wp_step. wp_step. wp_step. rewrite Hc. cbn [kmem_free]. apply wp_zoom.
  rewrite Hc in Hx. eapply wp_mono; [by apply (kh_free_law (vs_heap s) C H c x _ Hh Hx)|].
  intros [] h Hh'. wp_step. apply HQ; try done. split; try done; [by exists c|].
  intros l V HV. pose proof (Hls l V HV) as Hli.
  eapply list_inv_frame; [..|exact Hli]; try done.
  - intros y Hy. cbn. rewrite lookup_delete_ne; [done|]. intros <-. by eapply Hno.
  - rewrite lookup_delete_ne; [done|]. intros <-. rewrite (li_block _ _ _ _ Hli) in Hx. congruence.
  - intros y Hy. rewrite lookup_delete_ne; [done|]. intros <-. by eapply Hno.
Qed.

Lemma free_list_wp s C H Ls l (Q : unit → vmas S → Prop) :
  vma_inv s C H Ls → H !! l = Some (list_block s) → Ls !! l = None →
  (∀ s', vma_inv s' C (delete l H) Ls → vma_cache s' = vma_cache s →
     vma_list_cache s' = vma_list_cache s → Q tt s') →
  wp (free_list l) Q s.
Proof.
  intros Hi Hl Hno HQ. pose proof Hi as [Hh H2 (c & Hc & HC) Hne Hls Hap]. unfold free_list.
  wp_step. wp_step. wp_step. rewrite Hc. cbn [kmem_free]. apply wp_zoom.
  rewrite Hc in Hl. eapply wp_mono; [by apply (kh_free_law (vs_heap s) C H c l _ Hh Hl)|].
  intros [] h Hh'. wp_step. apply HQ; try done. split; try done; [by exists c|].
  intros l' V HV. pose proof (Hls l' V HV) as Hli. assert (l' ≠ l) as Hl' by congruence.
  eapply list_inv_frame; [..|exact Hli]; try done.
  - cbn. by rewrite lookup_delete_ne.
  - by rewrite lookup_delete_ne.
  - intros y Hy. rewrite lookup_delete_ne; [done|]. intros <-.
    rewrite (li_blocks _ _ _ _ Hli l Hy) in Hl. congruence.
Qed.

(** Facts on one list among the others. *)
Lemma other_list s C H Ls l V l' V' y :
  vma_inv s C H Ls → Ls !! l = Some V → l' ≠ l → Ls !! l' = Some V' → y ∈ V.*1 →
  y ≠ l' ∧ y ∉ V'.*1.
Proof.
  intros Hi HV Hne HV' Hy. split.
  - intros ->. pose proof (li_blocks _ _ _ _ (vi_lists _ _ _ _ Hi l V HV) l' Hy) as E1.
    rewrite (li_block _ _ _ _ (vi_lists _ _ _ _ Hi l' V' HV')) in E1. pose proof (vi_ne _ _ _ _ Hi). congruence.
  - intros Hin. apply Hne. by eapply (vi_apart _ _ _ _ Hi l' l V' V y).
Qed.

Lemma desc_no_vma s C H Ls l V l' V' :
  vma_inv s C H Ls → Ls !! l = Some V → Ls !! l' = Some V' → l ∉ V'.*1.
Proof.
  intros Hi HV HV' Hin. pose proof (li_blocks _ _ _ _ (vi_lists _ _ _ _ Hi l' V' HV') l Hin) as E.
  rewrite (li_block _ _ _ _ (vi_lists _ _ _ _ Hi l V HV)) in E. pose proof (vi_ne _ _ _ _ Hi). congruence.
Qed.

(** The list [l] is relinked to some of its own areas. *)
Lemma vma_inv_relink s s' C H Ls l V V' :
  vma_inv s C H Ls → Ls !! l = Some V → only s s' l V.*1 → linked s' l V' → ordered V' →
  (∀ x, x ∈ V'.*1 → x ∈ V.*1) → vma_inv s' C H (<[l := V']> Ls).
Proof.
  intros Hi HV [O1 O2 O3 O4 O5] HV' Ho Hsub. pose proof (vi_lists _ _ _ _ Hi l V HV) as Hli.
  eapply (vma_inv_update s s' C H H Ls l V' V.*1); try done.
  - rewrite O1. apply Hi.
  - auto.
  - intros l' W y Hl' HW Hy. by eapply (other_list s C H Ls l V).
  - intros l' W Hl' HW. by eapply (desc_no_vma s C H Ls l V).
  - split; [done|done|rewrite O3; apply Hli|]. intros x Hx. rewrite O2. apply Hli. auto.
Qed.

(** ** Destruction *)

Lemma vma_destroy_wp s C H Ls l A x r B (Q : unit → vmas S → Prop) :
  vma_inv s C H Ls → Ls !! l = Some (A ++ (x, r) :: B) →
  (∀ s', vma_inv s' C (delete x H) (<[l := A ++ B]> Ls) → Q tt s') →
  wp (vma_destroy (Some l) (Some x)) Q s.
Proof.
  intros Hi HV HQ. pose proof (vi_lists _ _ _ _ Hi l _ HV) as Hli.
  destruct (linked_mid _ _ _ _ _ _ (li_linked _ _ _ _ Hli)) as (v & Hv & _ & Hp & Hn).
  unfold vma_destroy. wp_step. eapply rd_vma_wp; [done|].
  pose proof (lk_nodup _ _ _ (li_linked _ _ _ _ Hli)) as Hnd. rewrite fmap_app, fmap_cons in Hnd.
  apply NoDup_app in Hnd as (_ & Hdisj & [HxB _]%NoDup_cons).
  assert (wp (vma_unlink l v) (λ _, wp (free_vma x) Q) s) as Hgoal.
  { apply (vma_unlink_wp s l A x r B v); [apply Hli|done|]. intros s1 HV1 Ho1.
    assert (only s s1 l (A ++ (x, r) :: B).*1) as Ho1'.
    { destruct Ho1 as [O1 O2 O3 O4 O5]. split; try done. intros y Hy. apply O4.
      rewrite fmap_app, fmap_cons in Hy. rewrite fmap_app. set_solver. }
    assert (vma_inv s1 C H (<[l := A ++ B]> Ls)) as Hi1.
    { eapply (vma_inv_relink s s1); [done|exact HV|done|done| |].
      - eapply ordered_remove, Hli.
      - intros y. rewrite !fmap_app, fmap_cons. set_solver. }
    apply (free_vma_wp s1 C H (<[l := A ++ B]> Ls)); [done| | |].
    - destruct Ho1 as [_ -> _ _ _]. apply Hli. rewrite fmap_app, fmap_cons. set_solver.
    - intros l' W HW. destruct (decide (l' = l)) as [->|Hne].
      + rewrite lookup_insert_eq in HW. simplify_eq. rewrite fmap_app.
        intros [Hin|Hin]%elem_of_app; [|done]. apply (Hdisj x Hin). set_solver.
      + rewrite lookup_insert_ne in HW by done.
        eapply (other_list s C H Ls l _ l' W x); [done|done|done|done|]. rewrite fmap_app, fmap_cons. set_solver.
    - intros s2 Hi2 _ _ _ _. by apply HQ. }
  unfold vma_unlink in Hgoal. unfold wp, mbind, M_bind in Hgoal |- *.
  repeat case_match; try done; simplify_eq; done.
Qed.

(** ** Whole lists *)

Lemma vma_list_create_wp s C H Ls (Q : option Z → vmas S → Prop) :
  vma_inv s C H Ls → (∀ s', vma_inv s' C H Ls → Q None s') →
  (∀ l s', H !! l = None → vma_inv s' C (<[l := list_block s]> H) (<[l := []]> Ls) →
     vma_cache s' = vma_cache s → vma_list_cache s' = vma_list_cache s → Q (Some l) s') →
  wp vma_list_create Q s.
Proof.
  intros Hi HN HS. pose proof Hi as [Hh H2 (c & Hc & HC) Hne Hls Hap]. unfold vma_list_create.
  wp_step. wp_step. wp_step. rewrite Hc. cbn [kmem_alloc]. apply wp_zoom.
  eapply wp_mono; [by apply (kh_alloc_law (vs_heap s) C H c _ Hh HC)|]. intros [l|] h.
  2: { intros Hh'. apply wp_ret, HN. by apply vma_inv_heap. }
  intros (_ & Hl & Hh'). wp_step. wp_step. apply wp_ret. apply HS; try done.
  assert (Ls !! l = None) as HLs.
  { destruct (Ls !! l) as [V|] eqn:HV; [|done]. pose proof (li_block _ _ _ _ (Hls l V HV)). congruence. }
  eapply (vma_inv_update s _ C H _ Ls l [] [l]); try done.
  - by rewrite Hc.
  - intros l' Hl'. cbn. by rewrite lookup_insert_ne.
  - intros y Hy. left. rewrite lookup_insert_ne; [done|set_solver].
  - intros l' V y Hl' HV ->%list_elem_of_singleton. split; [done|]. intros Hin.
    pose proof (li_blocks _ _ _ _ (Hls l' V HV) l Hin). congruence.
  - intros l' V Hl' HV Hin. pose proof (li_blocks _ _ _ _ (Hls l' V HV) l Hin). congruence.
  - split.
    + split; [by cbn; rewrite lookup_insert_eq|constructor|done|]. by intros x r ?%elem_of_nil.
    + split; constructor.
    + by rewrite lookup_insert_eq.
    + by intros x ?%elem_of_nil.
  - by intros x ?%elem_of_nil.
Qed.

(** The blocks without those at [X]. *)
Definition without (X : list Z) (H : blocks) : blocks := filter (λ pb, pb.1 ∉ X) H.

Lemma lookup_without X H y : without X H !! y = if decide (y ∈ X) then None else H !! y.
Proof.
  unfold without. destruct (decide (y ∈ X)) as [Hy|Hy].
  - apply map_lookup_filter_None. right. intros b _ Hn. by apply Hn.
  - destruct (H !! y) as [b|] eqn:Hb.
    + by apply map_lookup_filter_Some.
    + apply map_lookup_filter_None. by left.
Qed.

Lemma destroy_vmas_wp s C H Ls pr W fuel (Q : unit → vmas S → Prop) :
  vma_inv s C H Ls → seg s pr W → NoDup W.*1 → (length W < fuel)%nat →
  (∀ x, x ∈ W.*1 → H !! x = Some (vma_block s)) →
  (∀ l V x, Ls !! l = Some V → x ∈ W.*1 → x ∉ V.*1) →
  (∀ s', vma_inv s' C (without W.*1 H) Ls → vs_lists s' = vs_lists s → vma_cache s' = vma_cache s →
     vma_list_cache s' = vma_list_cache s → Q tt s') →
  wp (destroy_vmas fuel (head W.*1)) Q s.
Proof.
  revert s H pr fuel. induction W as [|[x r] W IH]; intros s H pr fuel Hi Hs Hnd Hf HW Hno HQ.
  { assert (without [] H = H) as Hw by (apply map_eq; intros y; by rewrite lookup_without).
    cbn in HQ. rewrite Hw in HQ. destruct fuel; by apply wp_ret, HQ. }
  destruct fuel as [|fuel]; [simpl in Hf; lia|]. cbn [destroy_vmas head fmap list_fmap fst] in *.
  apply seg_cons in Hs as (v & Hv & _ & _ & Hn & Hs). apply NoDup_cons in Hnd as [Hx Hnd].
  wp_step. eapply rd_vma_wp; [done|]. wp_step. rewrite Hn.
  apply (free_vma_wp s C H Ls); [done|apply HW; set_solver|intros l V HV; eapply Hno; [done|set_solver]|].
  intros s1 Hi1 Hvm Hli E1 E2. apply (IH s1 (delete x H) (Some x)); [done| |done|simpl in Hf; lia|..].
  - destruct Hs as [Hs1 Hs2].
    assert (∀ y, y ∈ W.*1 → vs_vmas s1 !! y = vs_vmas s !! y) as Hsame.
    { intros y Hy. rewrite Hvm, lookup_delete_ne; [done|]. by intros ->. }
    split.
    + eapply dlseg_ext; [|exact Hs1]. intros y Hy. unfold vlinks. by rewrite Hsame.
    + intros y g Hy. rewrite Hsame; [by apply Hs2|]. apply list_elem_of_fmap. by exists (y, g).
  - intros y Hy. rewrite lookup_delete_ne by (by intros ->). rewrite E1. apply HW. set_solver.
  - intros l V y HV Hy. eapply Hno; [done|set_solver].
  - intros s2 Hi2 L2 F1 F2. apply HQ; try congruence.
    replace (without (x :: W.*1) H) with (without W.*1 (delete x H)); [done|].
    apply map_eq. intros y. rewrite !lookup_without. destruct (decide (y = x)) as [->|Hne].
    + rewrite lookup_delete_eq. rewrite (decide_True (P := x ∈ x :: _)) by set_solver. by destruct (decide _).
    + rewrite lookup_delete_ne by done. destruct (decide (y ∈ W.*1)).
      * by rewrite decide_True by set_solver.
      * by rewrite decide_False by set_solver.
Qed.

Lemma vma_list_destroy_wp s C H Ls l V (Q : unit → vmas S → Prop) :
  vma_inv s C H Ls → Ls !! l = Some V →
  (∀ s', vma_inv s' C (without (l :: V.*1) H) (delete l Ls) → Q tt s') →
  wp (vma_list_destroy (Some l)) Q s.
Proof.
  intros Hi HV HQ. pose proof (vi_lists _ _ _ _ Hi l V HV) as Hli. unfold vma_list_destroy.
  wp_step. eapply rd_list_wp; [apply Hli|]. wp_step. unfold walk_fuel. wp_step. wp_step. cbn [vl_head].
  pose proof (linked_size _ _ _ (li_linked _ _ _ _ Hli)).
  apply (destroy_vmas_wp s C H (delete l Ls) None V); [by apply vma_inv_forget|eapply linked_seg, Hli|
    apply Hli|lia|apply Hli| |].
  { intros l' V' x [Hne HV']%lookup_delete_Some Hx. by eapply (other_list s C H Ls l V l'). }
  intros s1 Hi1 Ls1 E1 E2. assert (l ∉ V.*1) as HlV by by eapply (desc_no_vma s C H Ls l V).
  eapply (free_list_wp s1); [done| |apply lookup_delete_eq|].
  { rewrite lookup_without, decide_False, E2 by done. apply Hli. }
  intros s2 Hi2 _ _. apply HQ. replace (without (l :: V.*1) H) with (delete l (without V.*1 H)); [done|].
  apply map_eq. intros y. rewrite lookup_without. destruct (decide (y = l)) as [->|Hne].
  - rewrite lookup_delete_eq. by rewrite decide_True by set_solver.
  - rewrite lookup_delete_ne, lookup_without by done. destruct (decide (y ∈ V.*1)).
    + by rewrite decide_True by set_solver.
    + by rewrite decide_False by set_solver.
Qed.

(** ** Cloning *)

(** A region with its backing file. *)
Definition with_file (f : option Z) (o : Z) (r : region) : region :=
  Region (rg_start r) (rg_end r) (rg_flags r) (rg_prot r) f o.

Lemma upd_file_wp s C H Ls l A y r B f o (Q : unit → vmas S → Prop) :
  vma_inv s C H Ls → Ls !! l = Some (A ++ (y, r) :: B) →
  (∀ s', vma_inv s' C H (<[l := A ++ (y, with_file f o r) :: B]> Ls) →
     vma_cache s' = vma_cache s → vma_list_cache s' = vma_list_cache s → Q tt s') →
  wp (upd_vma y (set_vma_file f o)) Q s.
Proof.
  intros Hi HV HQ. pose proof (vi_lists _ _ _ _ Hi l _ HV) as Hli.
  pose proof (li_linked _ _ _ _ Hli) as Hlk.
  destruct (linked_mid _ _ _ _ _ _ Hlk) as (v & Hv & Hr & _ & _).
  eapply upd_vma_wp; [done|]. apply HQ; [|done|done].
  assert ((A ++ (y, with_file f o r) :: B).*1 = (A ++ (y, r) :: B).*1) as E1 by by rewrite !fmap_app.
  eapply (vma_inv_relink s _ C H Ls l); [done|done|..].
  - split; try done. intros z Hz. cbn. rewrite lookup_insert_ne; [done|]. intros <-. apply Hz.
    rewrite fmap_app, fmap_cons. set_solver.
  - destruct Hlk as [L1 L2 L3 L4]. split.
    + cbn [vs_lists set_vmas]. rewrite L1, E1. f_equal. f_equal. f_equal. by rewrite !length_app.
    + by rewrite E1.
    + rewrite E1. eapply dlseg_ext; [|exact L3]. intros z _. unfold vlinks. cbn.
      destruct (decide (z = y)) as [->|Hne]; [by rewrite lookup_insert_eq, Hv|by rewrite lookup_insert_ne].
    + rewrite fmap_app, fmap_cons in L2. apply NoDup_app in L2 as (_ & Hd & [HyB _]%NoDup_cons).
      intros z g Hz. cbn. destruct (decide (z = y)) as [->|Hne].
      * rewrite lookup_insert_eq. simpl. f_equal.
        apply elem_of_app in Hz as [Hz|[[= ->]|Hz]%elem_of_cons]; [exfalso|by rewrite <-Hr|exfalso].
        -- apply (Hd y); [|set_solver]. apply list_elem_of_fmap. by exists (y, g).
        -- apply HyB. apply list_elem_of_fmap. by exists (y, g).
      * rewrite lookup_insert_ne by done. apply L4. set_solver.
  - destruct (li_ordered _ _ _ _ Hli) as [Ho1 Ho2]. rewrite fmap_app, fmap_cons in Ho1, Ho2.
    split; rewrite fmap_app, fmap_cons; cbn [snd].
    + apply StronglySorted_app in Ho1 as (Ha & ? & [Hb ?]%StronglySorted_cons).
      apply StronglySorted_app. split_and!; [|done|by apply StronglySorted_cons].
      intros a b Hin [->|Hb']%elem_of_cons; [|apply Ha; set_solver]. apply (Ha a r); set_solver.
    + apply Forall_app in Ho2 as [? [[] ?]%Forall_cons]. apply Forall_app. split; [done|]. by apply Forall_cons.
  - by rewrite E1.
Qed.

(** The blocks [H] are the blocks [H0] and the new list [dst] of the areas [W]. *)
Definition grown (H0 H : blocks) (dst : Z) W : Prop :=
  (∀ y, y ∉ dst :: W.*1 → H !! y = H0 !! y) ∧ (∀ y, y ∈ dst :: W.*1 → H0 !! y = None).

Lemma grown_without H0 H dst W : grown H0 H dst W → without (dst :: W.*1) H = H0.
Proof.
  intros [H1 H2]. apply map_eq. intros y. rewrite lookup_without.
  destruct (decide (y ∈ dst :: W.*1)) as [Hy|Hy]; [by rewrite H2|auto].
Qed.

(** A copy of a region that lies above the copies made so far goes last. *)
Lemma appended A B y r : ordered (A ++ (y, r) :: B) → (∀ w, w ∈ B → before w.2 r) → B = [].
Proof.
  intros (_ & (Hr & HB & Hlo)%ordered_cons & _)%ordered_app Hhi. destruct B as [|w B]; [done|].
  exfalso. specialize (Hlo w ltac:(set_solver)). specialize (Hhi w ltac:(set_solver)).
  apply ordered_cons in HB as ([_ ? _ _ _] & _). destruct Hr as [_ ? _ _ _]. unfold before in *. cbn in *. lia.
Qed.

Lemma clone_vmas_wp s C H0 H Ls l P R dst W fuel (Q : bool → vmas S → Prop) :
  vma_inv s C H Ls → Ls !! l = Some (P ++ R) → Ls !! dst = Some W → dst ≠ l → W.*2 = P.*2 →
  (length R < fuel)%nat → grown H0 H dst W →
  (∀ s' H' W', vma_inv s' C H' (<[dst := W']> Ls) → W'.*2 = (P ++ R).*2 → grown H0 H' dst W' → Q true s') →
  (∀ s', vma_inv s' C H0 (delete dst Ls) → Q false s') →
  wp (clone_vmas fuel dst (head R.*1)) Q s.
Proof.
  revert s H Ls P W fuel. induction R as [|[x r] R IH]; intros s H Ls P W fuel Hi Hl Hd Hne HW Hf Hg HT HF.
  { rewrite app_nil_r in HT. destruct fuel; apply wp_ret; apply (HT s H W); rewrite ?insert_id by done; done. }
  destruct fuel as [|fuel]; [simpl in Hf; lia|]. cbn [clone_vmas head fmap list_fmap fst].
  pose proof (vi_lists _ _ _ _ Hi l _ Hl) as Hli.
  destruct (linked_mid _ _ _ _ _ _ (li_linked _ _ _ _ Hli)) as (v & Hv & Hr & _ & _).
  pose proof (li_ordered _ _ _ _ Hli) as (_ & (Hrok & _ & _)%ordered_cons & Hbef)%ordered_app. cbn [snd] in Hrok.
  destruct (new_region_id r Hrok) as [En1 En2]. rewrite <-Hr in En1, En2. cbn [rg_start rg_end region_of] in En1, En2.
  wp_step. eapply rd_vma_wp; [done|]. wp_step.
  apply (vma_create_wp s C H Ls dst W); [done|done| | |].
  { destruct Hrok as [H1 H2 H3 _ _]. rewrite <-Hr in H1, H2, H3. cbn in H1, H2, H3. lia. }
  { intros s1 Hi1. wp_step. apply (vma_list_destroy_wp s1 C H Ls dst W); [done|done|].
    intros s2 Hi2. apply wp_ret, HF. by rewrite (grown_without H0 H dst W Hg) in Hi2. }
  intros y A B s1 r0 HAB Hy Hlt Hfree Hi1 E1 E2. cbv beta iota.
  assert (rg_start r0 = rg_start r ∧ rg_end r0 = rg_end r) as [Es Ee].
  { cbn [r0 new_region rg_start rg_end]. by rewrite En1, En2, <-Hr. }
  assert (B = []) as ->.
  { eapply (appended A B y r0).
    - eapply li_ordered, (vi_lists _ _ _ _ Hi1). apply lookup_insert_eq.
    - intros w Hw. assert (w.2 ∈ P.*2) as (w' & E & Hw')%list_elem_of_fmap_1.
      { rewrite <-HW. apply list_elem_of_fmap_2. set_solver. }
      specialize (Hbef w' (x, r) Hw' ltac:(set_solver)). unfold before in *. cbn in Hbef.
      rewrite E. lia. }
  rewrite app_nil_r in HAB. subst A. wp_step.
  eapply (upd_file_wp s1 C _ _ dst W y r0 []); [exact Hi1|apply lookup_insert_eq|].
  intros s2. rewrite insert_insert_eq. intros Hi2 F1 F2.
  assert (with_file (vma_file v) (vma_file_offset v) r0 = r) as Ewf.
  { unfold with_file, r0, new_region. cbn. rewrite En1, En2, <-Hr. done. }
  rewrite Ewf in Hi2.
  assert ((<[dst:=W ++ [(y, r)]]> Ls) !! l = Some (P ++ (x, r) :: R)) as Hl2 by by rewrite lookup_insert_ne.
  destruct (linked_mid _ _ _ _ _ _ (li_linked _ _ _ _ (vi_lists _ _ _ _ Hi2 l _ Hl2))) as (v2 & Hv2 & _ & _ & Hn2).
  wp_step. eapply rd_vma_wp; [done|]. rewrite Hn2.
  rewrite (cons_middle (x, r) P), app_assoc in Hl2.
  eapply (IH s2 _ _ (P ++ [(x, r)]) (W ++ [(y, r)])); [exact Hi2|exact Hl2|apply lookup_insert_eq|done| |simpl in Hf; lia|..].
  - rewrite !fmap_app, HW. done.
  - destruct Hg as [G1 G2]. split.
    + intros z Hz. rewrite fmap_app in Hz. cbn in Hz. rewrite lookup_insert_ne by set_solver. apply G1. set_solver.
    + intros z Hz. rewrite fmap_app in Hz. cbn in Hz.
      destruct (decide (z ∈ dst :: W.*1)) as [Hin|Hin]; [auto|].
      assert (z = y) as -> by set_solver. by rewrite <-G1.
  - intros s3 H3 W3. rewrite insert_insert_eq. intros Hi3 HW3 Hg3. apply (HT s3 H3 W3); [done| |done].
    by rewrite HW3, <-app_assoc.
  - intros s3. rewrite delete_insert_eq. apply HF.
Qed.

Lemma vma_list_clone_wp s C H Ls l V (Q : option Z → vmas S → Prop) :
  vma_inv s C H Ls → Ls !! l = Some V →
  (∀ s', vma_inv s' C H Ls → Q None s') →
  (∀ dst W s' H', Ls !! dst = None → W.*2 = V.*2 → grown H H' dst W →
     vma_inv s' C H' (<[dst := W]> Ls) → Q (Some dst) s') →
  wp (vma_list_clone (Some l)) Q s.
Proof.
  intros Hi HV HN HS. unfold vma_list_clone. wp_step.
  apply (vma_list_create_wp s C H Ls); [done| |]; [intros s1 Hi1; by apply wp_ret, HN|].
  intros dst s1 Hd Hi1 _ _.
  assert (Ls !! dst = None) as HLd.
  { destruct (Ls !! dst) as [W|] eqn:HW; [|done].
    pose proof (li_block _ _ _ _ (vi_lists _ _ _ _ Hi dst W HW)). congruence. }
  assert (dst ≠ l) as Hne by congruence.
  assert ((<[dst := []]> Ls) !! l = Some V) as HV1 by by rewrite lookup_insert_ne.
  pose proof (li_linked _ _ _ _ (vi_lists _ _ _ _ Hi1 l V HV1)) as Hlk.
  wp_step. eapply rd_list_wp; [apply Hlk|]. wp_step. unfold walk_fuel. wp_step. wp_step. cbn [vl_head].
  pose proof (linked_size _ _ _ Hlk).
  eapply (clone_vmas_wp s1 C H _ _ l [] V dst []); [exact Hi1|done|apply lookup_insert_eq|done|done|lia|..].
  - split.
    + intros y Hy. rewrite lookup_insert_ne; [done|set_solver].
    + intros y Hy. cbn in Hy. assert (y = dst) as -> by set_solver. done.
  - intros s2 H2 W. rewrite insert_insert_eq. intros Hi2 HW Hg. apply wp_ret. by eapply HS.
  - intros s2. rewrite delete_insert_id by done. intros Hi2. by apply wp_ret, HN.
Qed.

(** ** A free range *)

Lemma vma_find_free_wp s C H Ls l V size hint :
  vma_inv s C H Ls → Ls !! l = Some V → 0 < size ≤ 2 ^ 46 → 0 ≤ hint < 2 ^ 62 →
  (∀ w, w ∈ V → rg_end w.2 ≤ 2 ^ 63) →
  wp (vma_find_free (Some l) size hint) (λ a s', s' = s ∧ let n := ALIGN_UP size PAGE_SIZE in
    if decide (a = 0) then ∀ b, space_start ≤ b → b + n ≤ space_end → ∃ w, w ∈ V ∧ meets b (b + n) w.2
    else a mod PAGE_SIZE = 0 ∧ space_start ≤ a ∧ (∀ w, w ∈ V → ¬ meets a (a + n) w.2) ∧
      ((∀ w, w ∈ V → rg_start w.2 ≤ space_end) → a + n ≤ space_end)) s.
Proof.
  intros Hi HV Hsz Hh Hmax. pose proof (vi_lists _ _ _ _ Hi l V HV) as Hli.
  pose proof (align_up_page size) as Hn. pose proof (align_up_range size) as [_ Hnm].
  unfold vma_find_free. set (n := ALIGN_UP size PAGE_SIZE) in *.
  assert (0 < n ≤ 2 ^ 47) as Hn' by (unfold PAGE_SIZE in Hn; lia). clear Hn.
  assert (∀ a, space_start ≤ a → a ≠ 0) as Hnz by (unfold space_start; lia).
  wp_step. unfold try_hint.
  assert (∀ Q : Z → vmas S → Prop, (∀ a, (a ≠ 0 → a mod PAGE_SIZE = 0 ∧ space_start ≤ a ∧
      a + n ≤ space_end ∧ ∀ w, w ∈ V → ¬ meets a (a + n) w.2) → Q a s) →
    wp (try_hint l n hint) Q s) as Htry.
  { intros Q HQ. unfold try_hint. destruct (Z.eqb_spec hint 0); [by apply wp_ret, HQ|].
    pose proof (align_up_page hint) as Ha. pose proof (align_up_range hint) as [_ Ham].
    set (a := ALIGN_UP hint PAGE_SIZE) in *.
    assert (0 ≤ a ≤ 2 ^ 63) as Ha' by (unfold PAGE_SIZE in Ha; lia).
    rewrite (wrap_small 64 (a + n)) by lia.
    destruct (Z.leb_spec space_start a); cbn [andb]; [|by apply wp_ret, HQ].
    destruct (Z.leb_spec (a + n) space_end); [|by apply wp_ret, HQ].
    wp_step. apply (vma_overlaps_wp s H l V); [done|..]; intros Hm; apply wp_ret, HQ; [by intros _|done]. }
  apply Htry. intros h Hhint. destruct (Z.eqb_spec h 0) as [->|Hh0]; cbn [negb].
  2: { apply wp_ret. split; [done|]. cbv zeta. rewrite decide_False by done.
       destruct (Hhint Hh0) as (? & ? & ? & ?). split_and!; auto. }
  wp_step. eapply rd_list_wp; [apply Hli|]. wp_step. unfold walk_fuel. wp_step. wp_step. cbn [vl_head].
  pose proof (linked_size _ _ _ (li_linked _ _ _ _ Hli)).
  eapply wp_mono; [apply (gap_from_wp s None [] V _ n space_start space_start);
    [eapply linked_seg, Hli|apply Hli|lia|done|by apply Forall_forall|done|by unfold space_start; lia| |]|].
  { by intros w ?%elem_of_nil. }
  { intros b Hb. lia. }
  intros [a f] s' (-> & Ha & Htaken & Hplace & Hfree & Hf). cbn [fst snd app] in *.
  assert (a mod PAGE_SIZE = 0) as Ham.
  { destruct Hplace as [->|(w & Hw & ->)]; [done|].
    destruct (li_ordered _ _ _ _ Hli) as [_ Hr]. rewrite Forall_forall in Hr.
    apply (Hr w.2). by apply list_elem_of_fmap_2. }
  rewrite (wrap_small 64 (a + n)) by (unfold space_start in *; lia). destruct f; cbv beta iota.
  - apply wp_ret. split; [done|]. cbv zeta. rewrite decide_False by (apply Hnz; lia).
    split_and!; [done|lia|done|]. intros Hend. destruct (Hf eq_refl) as (w & Hw & ?). specialize (Hend w Hw). lia.
  - destruct (Z.leb_spec (a + n) space_end) as [Hle|Hgt]; apply wp_ret; (split; [done|]); cbv zeta.
    + rewrite decide_False by (apply Hnz; lia). split_and!; auto; lia.
    + rewrite decide_True by done. intros b Hb Hbe. apply Htaken. lia.
Qed.

(** ** Initialisation *)

Lemma vma_init_inv s s' C H :
  kh_inv (vs_heap s) C H → vma_init s = Some (tt, s') → ∃ C', vma_inv s' C' H ∅.
Proof.
  intros Hh Hrun. assert (wp vma_init (λ _ s', ∃ C', vma_inv s' C' H ∅) s ∨ vma_init s = None) as [Hw|Hw];
    [|unfold wp in Hw; by rewrite Hrun in Hw|congruence].
  unfold vma_init. unfold wp, mbind, M_bind, on_heap, zoom.
  pose proof (kh_create_law (vs_heap s) C H "vma" sizeof_vma_t 0 0 Hh) as H1. unfold wp in H1.
  destruct (kh_cache_create "vma" sizeof_vma_t 0 0 (vs_heap s)) as [[[a|] h]|];
    [|by right|exfalso; apply H1; [done|by left|done]].
  destruct H1 as (_ & Ha & Hh1); [done|by left|done|]. cbn.
  pose proof (kh_create_law h _ H "vma_list" sizeof_vma_list_t 0 0 Hh1) as H2. unfold wp in H2.
  destruct (kh_cache_create "vma_list" sizeof_vma_list_t 0 0 h) as [[[b|] h']|];
    [|by right|exfalso; apply H2; [done|by left|done]].
  destruct H2 as (_ & Hb & Hh2); [done|by left|done|]. left. cbn. eexists.
  assert (b ≠ a) as Hne by (intros ->; by rewrite lookup_insert_eq in Hb).
  split; [exact Hh2|..]; cbn.
  - exists a. split; [done|]. by rewrite lookup_insert_ne, lookup_insert_eq by done.
  - exists b. split; [done|]. by rewrite lookup_insert_eq.
  - congruence.
  - intros l V HV. by rewrite lookup_empty in HV.
  - intros l l' V V' x HV. by rewrite lookup_empty in HV.
Qed.

(** ** Lookup *)

Lemma vma_find_wp s C H Ls l V addr :
  vma_inv s C H Ls → Ls !! l = Some V →
  wp (vma_find (Some l) addr) (λ o s', s' = s ∧ match o with
    | Some x => ∃ r, (x, r) ∈ V ∧ contains r addr
    | None => ∀ x r, (x, r) ∈ V → ¬ contains r addr
    end) s.
Proof.
  intros Hi HV. pose proof (vi_lists _ _ _ _ Hi l V HV) as [Hlk Ho _ _]. unfold vma_find.
  apply (walk_wp s l V (λ p n, find_from n addr p) _ Hlk). pose proof (linked_size _ _ _ Hlk).
  apply (find_from_wp s None V); [by eapply linked_seg|done|lia].
Qed.

Lemma vma_find_or_next_wp s C H Ls l V addr :
  vma_inv s C H Ls → Ls !! l = Some V →
  wp (vma_find_or_next (Some l) addr) (λ o s', s' = s ∧ match o with
    | Some x => ∃ A r B, V = A ++ (x, r) :: B ∧ addr < rg_end r ∧ ∀ w, w ∈ A → rg_end w.2 ≤ addr
    | None => ∀ w, w ∈ V → rg_end w.2 ≤ addr
    end) s.
Proof.
  intros Hi HV. pose proof (vi_lists _ _ _ _ Hi l V HV) as [Hlk Ho _ _]. unfold vma_find_or_next.
  apply (walk_wp s l V (λ p n, find_or_next_from n addr p) _ Hlk). pose proof (linked_size _ _ _ Hlk).
  apply (find_or_next_from_wp s None V); [by eapply linked_seg|lia].
Qed.

(** A new list with one area. *)
Definition area_prog (a b flags prot : Z) : M (vmas S) (option Z * option Z) :=
  l ← vma_list_create; x ← vma_create l a b flags prot; mret (l, x).

Lemma area_prog_inv s C a b flags prot :
  vma_inv s C ∅ ∅ → 0 ≤ a < 2 ^ 64 →
  match area_prog a b flags prot s with Some ((Some _, Some _), _) => true | _ => false end = true →
  ∃ s0 H0 l x s1 H1, vma_inv s0 C H0 {[ l := [] ]} ∧
    vma_create (Some l) a b flags prot s0 = Some (Some x, s1) ∧
    vma_inv s1 C H1 {[ l := [(x, new_region a b flags prot)] ]}.
Proof.
  intros Hi Ha Hc. unfold area_prog, mbind, M_bind in Hc.
  assert (wp vma_list_create (λ o s, ∀ l, o = Some l → ∃ H, vma_inv s C H {[ l := [] ]}) s) as Hw.
  { apply (vma_list_create_wp s C ∅ ∅); [done|done|]. intros l s' _ Hi' _ _ l' [= <-]. by eexists. }
  unfold wp in Hw. destruct (vma_list_create s) as [[[l|] s0]|]; [|done|done].
  destruct (Hw l eq_refl) as [H0 Hi0]. exists s0, H0, l.
  assert (wp (vma_create (Some l) a b flags prot) (λ o s1, ∀ x, o = Some x → ∃ H1,
    vma_inv s1 C H1 {[ l := [(x, new_region a b flags prot)] ]}) s0) as Hw'.
  { eapply (vma_create_wp s0); [done|apply lookup_insert_eq|done|done|].
    intros x A B s2 r HAB _ _ _ Hi2 _ _ x' [= <-]. eexists.
    symmetry in HAB. apply app_nil in HAB as [-> ->]. by rewrite insert_singleton_eq in Hi2. }
  unfold wp in Hw'. destruct (vma_create (Some l) a b flags prot s0) as [[[x|] s1]|]; [|done|done].
  destruct (Hw' x eq_refl) as [H1 Hi1]. by exists x, s1, H1.
Qed.

(** ** The claims *)

(** C24. Creation of an area.  vma_create does not fault.  It returns NULL and
    leaves every list and every block of the heap as it was, or takes one new
    block and puts the page-aligned region into its list where the order of
    addresses asks for it; it only does so for a range that is not empty and
    meets no area of the list.  The list stays sorted and disjoint, its links
    and its counter right, and the other lists are untouched. *)
Theorem vma_create_correct s C H Ls l V start end_ flags prot :
  vma_inv s C H Ls → Ls !! l = Some V → 0 ≤ start < 2 ^ 64 →
  ∃ o s', vma_create (Some l) start end_ flags prot s = Some (o, s') ∧
    match o with
    | None => vma_inv s' C H Ls
    | Some x => let r := new_region start end_ flags prot in
        rg_start r < rg_end r ∧ (∀ w, w ∈ V → ¬ meets (rg_start r) (rg_end r) w.2) ∧
        H !! x = None ∧ ∃ A B, V = A ++ B ∧
          vma_inv s' C (<[x := (vma_cache s, sizeof_vma_t)]> H) (<[l := A ++ (x, r) :: B]> Ls)
    end.
Proof.
  intros Hi HV Hs. apply wp_elim. apply (vma_create_wp s C H Ls l V); [done..|].
  intros x A B s' r HAB Hx Hlt Hfree Hi' _ _. split_and!; [done..|]. by exists A, B.
Qed.

(** Creating an area and destroying it again gives back the lists and the
    blocks of the heap as they were before. *)
Theorem vma_create_destroy s C H Ls l V start end_ flags prot x s1 :
  vma_inv s C H Ls → Ls !! l = Some V → 0 ≤ start < 2 ^ 64 →
  vma_create (Some l) start end_ flags prot s = Some (Some x, s1) →
  ∃ s2, vma_destroy (Some l) (Some x) s1 = Some (tt, s2) ∧ vma_inv s2 C H Ls.
Proof.
  intros Hi HV Hs Hrun.
  assert (wp (vma_create (Some l) start end_ flags prot) (λ o s1, ∀ x, o = Some x →
    wp (vma_destroy (Some l) (Some x)) (λ _ s2, vma_inv s2 C H Ls) s1) s) as Hw.
  { apply (vma_create_wp s C H Ls l V); [done..|].
    intros y A B s' r HAB Hx Hlt Hfree Hi' _ _ x' [= ->].
    eapply (vma_destroy_wp s'); [exact Hi'|apply lookup_insert_eq|].
    intros s2. rewrite insert_insert_eq, delete_insert_id by done. rewrite <-HAB, insert_id by done. done. }
  unfold wp at 1 in Hw. rewrite Hrun in Hw. destruct (wp_elim _ _ _ (Hw x eq_refl)) as ([] & s2 & ? & ?). eauto.
Qed.

(** C38. Free ranges.  For a size of at most 2^46 bytes, a hint below 2^62 and
    areas that end at or below 2^63, vma_find_free does not
    fault and changes nothing.  An address it returns starts a page-aligned
    range above 4MB that meets no area, and that ends within user space if
    no area starts beyond it; it returns 0 only when no such range of the
    rounded size is free. *)
Theorem vma_find_free_correct s C H Ls l V size hint :
  vma_inv s C H Ls → Ls !! l = Some V → 0 < size ≤ 2 ^ 46 → 0 ≤ hint < 2 ^ 62 →
  (∀ w, w ∈ V → rg_end w.2 ≤ 2 ^ 63) →
  ∃ a, vma_find_free (Some l) size hint s = Some (a, s) ∧ let n := ALIGN_UP size PAGE_SIZE in
    (a ≠ 0 → a mod PAGE_SIZE = 0 ∧ space_start ≤ a ∧ (∀ w, w ∈ V → ¬ meets a (a + n) w.2) ∧
       ((∀ w, w ∈ V → rg_start w.2 ≤ space_end) → a + n ≤ space_end)) ∧
    (a = 0 → ∀ b, space_start ≤ b → b + n ≤ space_end → ∃ w, w ∈ V ∧ meets b (b + n) w.2).
Proof.
  intros Hi HV Hs Hh Hmax.
  destruct (wp_elim _ _ _ (vma_find_free_wp s C H Ls l V size hint Hi HV Hs Hh Hmax)) as (a & s' & Hrun & -> & Ha).
  exists a. split; [done|]. cbv zeta in *. destruct (decide (a = 0)); split; [done|done|done|done].
Qed.

(** Cloning an address space's areas.  vma_list_clone does not fault; it
    returns a new list with the same regions, flags, files and offsets, all on
    new blocks, or NULL, in which case every block taken on the way has been
    given back and all lists are as before. *)
Theorem vma_list_clone_correct s C H Ls l V :
  vma_inv s C H Ls → Ls !! l = Some V →
  ∃ o s', vma_list_clone (Some l) s = Some (o, s') ∧
    match o with
    | None => vma_inv s' C H Ls
    | Some dst => Ls !! dst = None ∧ ∃ W H', W.*2 = V.*2 ∧
        (∀ y, y ∈ dst :: W.*1 → H !! y = None) ∧ (∀ y, y ∉ dst :: W.*1 → H' !! y = H !! y) ∧
        vma_inv s' C H' (<[dst := W]> Ls)
    end.
Proof.
  intros Hi HV. apply wp_elim. apply (vma_list_clone_wp s C H Ls l V); [done..|].
  intros dst W s' H' Hd HW [Hg1 Hg2] Hi'. split; [done|]. by exists W, H'.
Qed.

End thm.

(** ** A concrete address space on the heap of KHeap.v *)

Definition demo_vmas0 : vmas (heap (vm mem_info)) := Vmas demo_heap None None ∅ ∅.
Definition demo_vmas : vmas (heap (vm mem_info)) := run_state vma_init demo_vmas0.

Lemma demo_vmas_inv : ∃ C, vma_inv demo_vmas C ∅ ∅.
Proof.
  apply (vma_init_inv demo_vmas0 demo_vmas ∅ ∅); [exact demo_holds|].
  unfold demo_vmas. apply run_state_some. vm_cast_no_check (eq_refl true).
Qed.

(** A list with one area of two pages, made by the operations themselves. *)
Lemma demo_area : ∃ C s0 H0 l x s1 H1, vma_inv s0 C H0 {[ l := [] ]} ∧
  vma_create (Some l) 0x400123 0x401abc 3 7 s0 = Some (Some x, s1) ∧
  vma_inv s1 C H1 {[ l := [(x, new_region 0x400123 0x401abc 3 7)] ]}.
Proof.
  destruct demo_vmas_inv as [C Hi]. exists C.
  refine (area_prog_inv demo_vmas C 0x400123 0x401abc 3 7 Hi _ _); [lia|].
  vm_cast_no_check (eq_refl true).
Qed.

Lemma vma_create_correct_witness : ∃ (s : vmas (heap (vm mem_info))) l o s', vma_create (Some l) 0x500000 0x500001 1 5 s = Some (o, s').
Proof.
  destruct demo_area as (C & _ & _ & l & x & s & H & _ & _ & Hi).
  destruct (vma_create_correct s C H _ l _ 0x500000 0x500001 1 5 Hi (lookup_singleton_eq _ _)) as (o & s' & Hrun & _); [lia|].
  exists s, l, o, s'. exact Hrun.
Defined.

Lemma vma_find_free_correct_witness : ∃ (s : vmas (heap (vm mem_info))) l a, vma_find_free (Some l) 0x3000 0 s = Some (a, s).
Proof.
  destruct demo_area as (C & _ & _ & l & x & s & H & _ & _ & Hi).
  destruct (vma_find_free_correct s C H _ l _ 0x3000 0 Hi (lookup_singleton_eq _ _)) as (a & Hrun & _); [lia|lia| |].
  - intros w Hw. apply list_elem_of_singleton in Hw. rewrite Hw. by vm_compute.
  - exists s, l, a. exact Hrun.
Defined.

Lemma vma_list_clone_correct_witness : ∃ (s : vmas (heap (vm mem_info))) l o s', vma_list_clone (Some l) s = Some (o, s').
Proof.
  destruct demo_area as (C & _ & _ & l & x & s & H & _ & _ & Hi).
  destruct (vma_list_clone_correct s C H _ l _ Hi (lookup_singleton_eq _ _)) as (o & s' & Hrun & _).
  exists s, l, o, s'. exact Hrun.
Defined.

Lemma vma_create_destroy_witness : ∃ (s : vmas (heap (vm mem_info))) l x s2, vma_destroy (Some l) (Some x) s = Some (tt, s2).
Proof.
  destruct demo_area as (C & s & H & l & x & s1 & _ & Hi & Hrun & _).
  destruct (vma_create_destroy s C H _ l [] 0x400123 0x401abc 3 7 x s1 Hi (lookup_singleton_eq _ _)) as (s2 & Hd & _).
  - lia.
  - exact Hrun.
  - exists s1, l, x, s2. exact Hd.
Defined.

(** The sum of hint and size is taken modulo 2^64: for the last page of the
    address space vma_find_free returns the hint itself, an address of the
    kernel's half. *)
Lemma vma_find_free_hint_wraps (s : vmas (heap (vm mem_info))) l :
  vs_lists s !! l = Some (VmaList None None 0) →
  vma_find_free (Some l) 4096 (2 ^ 64 - 4096) s = Some (2 ^ 64 - 4096, s).
Proof.
  intros Hl.
  assert (wp (vma_find_free (Some l) 4096 (2 ^ 64 - 4096)) (λ a s', a = 2 ^ 64 - 4096 ∧ s' = s) s) as Hw.
  { unfold vma_find_free, try_hint, vma_overlaps. cbv zeta.
    change (ALIGN_UP 4096 PAGE_SIZE) with 4096.
    change (ALIGN_UP (2 ^ 64 - 4096) PAGE_SIZE) with (2 ^ 64 - 4096).
    change (2 ^ 64 - 4096 =? 0) with false.
    change ((space_start <=? 2 ^ 64 - 4096) && ((2 ^ 64 - 4096) +u64 4096 <=? space_end)) with true.
    cbv iota. wp_step. wp_step. wp_step. eapply rd_list_wp; [exact Hl|]. wp_step. unfold walk_fuel. wp_step.
    cbn [vl_head overlaps_from]. by apply wp_ret. }
  unfold wp in Hw. by destruct (vma_find_free _ _ _ s) as [[a s']|]; [destruct Hw as [-> ->]|].
Qed.
