(* ===== verification/As.v ===== *)
(** * Address spaces: model (mm/as.h, mm/as.c)

    An address space is a tree of page tables of its own in the lower half and
    the tables of the kernel in the upper half, with a list of areas.  The tables
    are words of physical memory, as in Vmm.v; as.c has its own walk, which sets
    PTE_USER in the tables it makes.  The descriptors come from the kernel heap;
    the heap (with the areas, Vma.v) and the frames are parts of the state that
    the module reaches through their operations only. *)

From S2P Require Import Prelude Frames Vmm KHeap Vma.

Definition PTE_USER : Z := Z.shiftl 1 2.
Definition PTE_COW : Z := Z.shiftl 1 9.
Definition PTE_NX : Z := Z.shiftl 1 63.
Definition KERNEL_PML4_START : Z := 256.
Definition SIZEOF_ADDRESS_SPACE : Z := 32.

(** ** Data (as.h) *)

Record address_space := ASpace {
  as_cr3 : Z;
  as_ref_count : Z;
  as_user_pages : Z;
  as_vmas : option Z }.

Definition set_as_ref_count (n : Z) (a : address_space) : address_space :=
  ASpace (as_cr3 a) n (as_user_pages a) (as_vmas a).
Definition set_as_user_pages (n : Z) (a : address_space) : address_space :=
  ASpace (as_cr3 a) (as_ref_count a) n (as_vmas a).
Definition set_as_vmas (l : option Z) (a : address_space) : address_space :=
  ASpace (as_cr3 a) (as_ref_count a) (as_user_pages a) l.

(** A pointer to an address space: the static kernel_as, or one of the heap. *)
Inductive as_ptr := KernelAs | UserAs (p : Z).

Definition as_is_user_addr (virt : Z) : bool := virt <? 0x0000800000000000.
Definition as_is_kernel_addr (virt : Z) : bool := 0xFFFF800000000000 <=? virt.

(** [for (i = a; i < b; i++)] with a way out: the body says whether to go on. *)
Fixpoint try_from {S} (n : nat) (i : Z) (body : Z → M S bool) : M S bool :=
  match n with
  | O => mret true
  | Datatypes.S n' => ok ← body i; if (ok : bool) then try_from n' (i + 1) body else mret false
  end.

Definition for_try {S} (a b : Z) (body : Z → M S bool) : M S bool := try_from (Z.to_nat (b - a)) a body.

(** ** Page tables *)

Section tables.
Context {S : Type} `{FR : FrameRefs S}.

Definition free_page_table (table : Z) : M (vm S) unit := on_frames (fa_free_page (table_to_phys table)).

(** The next table down, made for the user when it is missing. *)
Definition get_or_create_user (entry : Z) (create : bool) : M (vm S) (option Z) :=
  e ← rd_word entry;
  if has e PTE_PRESENT then mret (pte_to_table e)
  else if create then
    t ← alloc_page_table;
    match t with
    | None => mret None
    | Some table =>
        wr_word entry (Z.lor (Z.lor (Z.lor (table_to_phys table) PTE_PRESENT) PTE_WRITABLE) PTE_USER) ;;
        mret (Some table)
    end
  else mret None.

(** as_get_pte, for the address space with the tables at [cr3]. *)
Definition as_get_pte (cr3 virt : Z) (create : bool) : M (vm S) (option Z) :=
  let pml4 := phys_to_virt (Z.land cr3 PTE_ADDR_MASK) in
  t1 ← get_or_create_user (entry_ptr pml4 (PML4_INDEX virt)) create;
  match t1 with
  | None => mret None
  | Some pdpt =>
      let pdpte := entry_ptr pdpt (PDPT_INDEX virt) in
      e1 ← rd_word pdpte;
      if has e1 PTE_PRESENT && has e1 PTE_HUGE then mret None else
      t2 ← get_or_create_user pdpte create;
      match t2 with
      | None => mret None
      | Some pd =>
          let pde := entry_ptr pd (PD_INDEX virt) in
          e2 ← rd_word pde;
          if has e2 PTE_PRESENT && has e2 PTE_HUGE then mret None else
          t3 ← get_or_create_user pde create;
          match t3 with
          | None => mret None
          | Some pt => mret (Some (entry_ptr pt (PT_INDEX virt)))
          end
      end
  end.

(** as_map_page and as_unmap_page for the tables at [cr3]. *)
Definition map_in (cr3 virt0 phys0 flags : Z) : M (vm S) Z :=
  let virt := page_of virt0 in
  let phys := page_of phys0 in
  pte ← as_get_pte cr3 virt true;
  match pte with
  | None => mret (-1)
  | Some pte => wr_word pte (make_pte phys flags) ;; mret 0
  end.

Definition unmap_in (cr3 virt0 : Z) : M (vm S) Z :=
  let virt := page_of virt0 in
  pte ← as_get_pte cr3 virt false;
  match pte with
  | None => mret 0
  | Some pte =>
      e ← rd_word pte;
      if has e PTE_PRESENT then wr_word pte 0 ;; mret (Z.land e PTE_ADDR_MASK) else mret 0
  end.

(** The walk of as_get_phys and as_is_mapped: the entry that maps [virt] and the
    level at which it was found. *)
Definition as_walk (cr3 virt : Z) : M (vm S) (option (Z * Z)) :=
  let pml4 := phys_to_virt (Z.land cr3 PTE_ADDR_MASK) in
  e0 ← rd_word (entry_ptr pml4 (PML4_INDEX virt));
  match pte_to_table e0 with
  | None => mret None
  | Some pdpt =>
      e1 ← rd_word (entry_ptr pdpt (PDPT_INDEX virt));
      match pte_to_table e1 with
      | None => mret None
      | Some pd =>
          if has e1 PTE_HUGE then mret (Some (1, e1)) else
          e2 ← rd_word (entry_ptr pd (PD_INDEX virt));
          match pte_to_table e2 with
          | None => mret None
          | Some pt =>
              if has e2 PTE_HUGE then mret (Some (2, e2)) else
              e3 ← rd_word (entry_ptr pt (PT_INDEX virt));
              mret (if has e3 PTE_PRESENT then Some (3, e3) else None)
          end
      end
  end.

Definition phys_in (cr3 virt : Z) : M (vm S) Z :=
  w ← as_walk cr3 virt;
  mret (match w with
        | None => 0
        | Some (1, e) => Z.lor (Z.land e 0xFFFFFFC0000000) (Z.land virt 0x3FFFFFFF)
        | Some (2, e) => Z.lor (Z.land e 0xFFFFFFFE00000) (Z.land virt 0x1FFFFF)
        | Some (_, e) => Z.lor (Z.land e PTE_ADDR_MASK) (PAGE_OFFSET virt)
        end).

Definition is_mapped_in (cr3 virt : Z) : M (vm S) bool :=
  w ← as_walk cr3 virt; mret (match w with Some _ => true | None => false end).

(** [n] is [level]: 2 for a PDPT, 1 for a PD, 0 for a PT. *)
Fixpoint free_page_tables_recursive (n : nat) (table : option Z) : M (vm S) unit :=
  match table with
  | None => mret tt
  | Some t =>
      for_ 0 ENTRIES_PER_TABLE (λ i,
        e ← rd_word (entry_ptr t i);
        if negb (has e PTE_PRESENT) then mret tt else
        match n with
        | O => on_frames (fr_put_phys (Z.land e PTE_ADDR_MASK)) ;; mret tt
        | Datatypes.S n' =>
            if has e PTE_HUGE then on_frames (fr_put_phys (Z.land e PTE_ADDR_MASK)) ;; mret tt
            else free_page_tables_recursive n' (pte_to_table e)
        end) ;;
      free_page_table t
  end.

(** The part of as_destroy that frees the pages and the tables. *)
Definition destroy_tables (cr3 : Z) : M (vm S) unit :=
  let pml4 := phys_to_virt (Z.land cr3 PTE_ADDR_MASK) in
  for_ 0 KERNEL_PML4_START (λ i,
    e ← rd_word (entry_ptr pml4 i);
    if has e PTE_PRESENT then free_page_tables_recursive 2 (pte_to_table e) else mret tt) ;;
  on_frames (fa_free_page (Z.land cr3 PTE_ADDR_MASK)).

(** A new PML4 with the upper half of the kernel's. *)
Definition new_pml4 (kernel_cr3 : Z) : M (vm S) (option Z) :=
  t ← alloc_page_table;
  match t with
  | None => mret None
  | Some new =>
      let kernel_pml4 := phys_to_virt (Z.land kernel_cr3 PTE_ADDR_MASK) in
      for_ KERNEL_PML4_START ENTRIES_PER_TABLE (λ i,
        e ← rd_word (entry_ptr kernel_pml4 i); wr_word (entry_ptr new i) e) ;;
      mret (Some (table_to_phys new))
  end.

(** A page of zeros. *)
Definition zero_page (phys : Z) : M (vm S) unit :=
  let page := phys_to_virt phys in for_ 0 512 (λ i, wr_word (entry_ptr page i) 0).

End tables.

(** ** Address spaces *)

Section as_.
Context {H : Type} {KH : KHeap H}.
Context {S : Type} `{FR : FrameRefs S}.

Record asys := ASys {
  ay_vmas : vmas H;
  ay_vm : vm S;
  ay_spaces : gmap Z address_space;
  ay_kernel : address_space;
  ay_kernel_initialized : bool }.

Definition set_ay_vmas (v : vmas H) (s : asys) : asys :=
  ASys v (ay_vm s) (ay_spaces s) (ay_kernel s) (ay_kernel_initialized s).
Definition set_ay_vm (v : vm S) (s : asys) : asys :=
  ASys (ay_vmas s) v (ay_spaces s) (ay_kernel s) (ay_kernel_initialized s).
Definition set_ay_spaces (v : gmap Z address_space) (s : asys) : asys :=
  ASys (ay_vmas s) (ay_vm s) v (ay_kernel s) (ay_kernel_initialized s).
Definition set_ay_kernel (a : address_space) (s : asys) : asys :=
  ASys (ay_vmas s) (ay_vm s) (ay_spaces s) a true.

Abbreviation AM := (M asys).

Definition vmas_ {A} (c : M (vmas H) A) : AM A := zoom ay_vmas set_ay_vmas c.
Definition vm_ {A} (c : M (vm S) A) : AM A := zoom ay_vm set_ay_vm c.
Definition heap_ {A} (c : M H A) : AM A := vmas_ (on_heap c).

Definition rd_as (p : as_ptr) : AM address_space :=
  s ← get; match p with KernelAs => mret (ay_kernel s) | UserAs x => lift (ay_spaces s !! x) end.

Definition upd_as (p : as_ptr) (f : address_space → address_space) : AM unit :=
  a ← rd_as p;
  match p with
  | KernelAs => modify (λ s, ASys (ay_vmas s) (ay_vm s) (ay_spaces s) (f a) (ay_kernel_initialized s))
  | UserAs x => modify (λ s, set_ay_spaces (<[x := f a]> (ay_spaces s)) s)
  end.

Definition as_get_kernel : AM as_ptr :=
  s ← get;
  (if ay_kernel_initialized s then mret tt
   else put (set_ay_kernel (ASpace (vm_cr3 (ay_vm s)) 1 0 (as_vmas (ay_kernel s))) s)) ;;
  mret KernelAs.

Definition as_create : AM (option Z) :=
  as_get_kernel ;;
  a ← heap_ (kh_kmalloc SIZEOF_ADDRESS_SPACE);
  match a with
  | None => mret None
  | Some x =>
      k ← rd_as KernelAs;
      t ← vm_ (new_pml4 (as_cr3 k));
      match t with
      | None => heap_ (kh_kfree x) ;; mret None
      | Some cr3 =>
          l ← vmas_ vma_list_create;
          modify (λ s, set_ay_spaces (<[x := ASpace cr3 1 0 l]> (ay_spaces s)) s) ;;
          mret (Some x)
      end
  end.

Definition as_destroy (p : option as_ptr) : AM unit :=
  match p with
  | None | Some KernelAs => mret tt
  | Some (UserAs x) =>
      upd_as (UserAs x) (λ a, set_as_ref_count (as_ref_count a -u32 1) a) ;;
      a ← rd_as (UserAs x);
      if 0 <? as_ref_count a then mret tt
      else
        vm_ (destroy_tables (as_cr3 a)) ;;
        (match as_vmas a with Some l => vmas_ (vma_list_destroy (Some l)) | None => mret tt end) ;;
        heap_ (kh_kfree x) ;;
        modify (λ s, set_ay_spaces (delete x (ay_spaces s)) s)
  end.

Definition set_vm_cr3 (c : Z) (s : vm S) : vm S := Vm (vm_frames s) (vm_mem s) c.

Definition as_switch (p : option as_ptr) : AM unit :=
  match p with
  | None => mret tt
  | Some p =>
      a ← rd_as p;
      s ← get;
      if vm_cr3 (ay_vm s) =? as_cr3 a then mret tt
      else put (set_ay_vm (set_vm_cr3 (as_cr3 a) (ay_vm s)) s)
  end.

Definition as_map_page (p : option as_ptr) (virt phys flags : Z) : AM Z :=
  match p with
  | None => mret (-1)
  | Some p => a ← rd_as p; vm_ (map_in (as_cr3 a) virt phys flags)
  end.

Definition as_unmap_page (p : option as_ptr) (virt : Z) : AM Z :=
  match p with
  | None => mret 0
  | Some p => a ← rd_as p; vm_ (unmap_in (as_cr3 a) virt)
  end.

Definition as_get_phys (p : option as_ptr) (virt : Z) : AM Z :=
  match p with
  | None => mret 0
  | Some p => a ← rd_as p; vm_ (phys_in (as_cr3 a) virt)
  end.

Definition as_is_mapped (p : option as_ptr) (virt : Z) : AM bool :=
  match p with
  | None => mret false
  | Some p => a ← rd_as p; vm_ (is_mapped_in (as_cr3 a) virt)
  end.

Definition as_alloc_page (p : option as_ptr) (virt flags : Z) : AM Z :=
  match p with
  | None => mret (-1)
  | Some p =>
      if negb (as_is_user_addr virt) then mret (-1)
      else
        phys ← vm_ (on_frames fa_alloc_page);
        if phys =? 0 then mret (-1)
        else
          vm_ (zero_page phys) ;;
          r ← as_map_page (Some p) virt phys (Z.lor flags PTE_USER);
          if negb (r =? 0) then vm_ (on_frames (fa_free_page phys)) ;; mret (-1)
          else upd_as p (λ a, set_as_user_pages (as_user_pages a +u64 1) a) ;; mret 0
  end.

Definition as_free_page (p : option as_ptr) (virt : Z) : AM unit :=
  match p with
  | None => mret tt
  | Some p =>
      phys ← as_unmap_page (Some p) virt;
      if phys =? 0 then mret tt
      else
        vm_ (on_frames (fr_put_phys phys)) ;;
        a ← rd_as p;
        if 0 <? as_user_pages a then upd_as p (set_as_user_pages (as_user_pages a - 1)) else mret tt
  end.

Fixpoint alloc_pages_from (n : nat) (i : Z) (p : option as_ptr) (virt flags : Z) : AM Z :=
  match n with
  | O => mret 0
  | Datatypes.S n' =>
      r ← as_alloc_page p (virt +u64 (i *u64 PAGE_SIZE)) flags;
      if negb (r =? 0) then
        for_ 0 i (λ j, as_free_page p (virt +u64 (j *u64 PAGE_SIZE))) ;; mret (-1)
      else alloc_pages_from n' (i + 1) p virt flags
  end.

Definition as_alloc_pages (p : option as_ptr) (virt count flags : Z) : AM Z :=
  alloc_pages_from (Z.to_nat count) 0 p virt flags.

(** *** Cloning *)

(** What both sides of a clone have for the entry [e]. *)
Definition cow_flags (orig_flags : Z) : Z :=
  if has orig_flags PTE_WRITABLE
  then Z.lor (Z.land orig_flags (wrap64 (Z.lnot PTE_WRITABLE))) PTE_COW
  else orig_flags.

Definition clone_virt (pml4_i pdpt_i pd_i pt_i : Z) : Z :=
  Z.lor (Z.lor (Z.lor (Z.shiftl pml4_i 39) (Z.shiftl pdpt_i 30)) (Z.shiftl pd_i 21)) (Z.shiftl pt_i 12).

(** One present entry [e] of a PT, at [pte]; [false] after a failure. *)
Definition clone_entry (dst pte virt e : Z) : AM bool :=
  let phys := Z.land e PTE_ADDR_MASK in
  let orig_flags := Z.land e (wrap64 (Z.lnot PTE_ADDR_MASK)) in
  vm_ (on_frames (fr_get_phys phys)) ;;
  (if has orig_flags PTE_WRITABLE
   then vm_ (wr_word pte (Z.lor (Z.land phys PTE_ADDR_MASK) (cow_flags orig_flags)))
   else mret tt) ;;
  r ← as_map_page (Some (UserAs dst)) virt phys (cow_flags orig_flags);
  if negb (r =? 0) then
    vm_ (on_frames (fr_put_phys phys)) ;;
    as_destroy (Some (UserAs dst)) ;;
    mret false
  else upd_as (UserAs dst) (λ a, set_as_user_pages (as_user_pages a +u64 1) a) ;; mret true.

(** The loop over a table: [k i e] for each present entry [e], at index [i]. *)
Definition each_entry (table n : Z) (k : Z → Z → AM bool) : AM bool :=
  for_try 0 n (λ i,
    e ← vm_ (rd_word (entry_ptr table i));
    if negb (has e PTE_PRESENT) then mret true else k i e).

(** The same with the table below, huge pages left out. *)
Definition each_table (table n : Z) (huge : bool) (k : Z → Z → AM bool) : AM bool :=
  each_entry table n (λ i e,
    if huge && has e PTE_HUGE then mret true
    else match pte_to_table e with Some t => k i t | None => fault end).

Definition clone_tables (src_cr3 dst : Z) : AM bool :=
  each_table (phys_to_virt (Z.land src_cr3 PTE_ADDR_MASK)) KERNEL_PML4_START false (λ pml4_i src_pdpt,
    each_table src_pdpt ENTRIES_PER_TABLE true (λ pdpt_i src_pd,
      each_table src_pd ENTRIES_PER_TABLE true (λ pd_i src_pt,
        each_entry src_pt ENTRIES_PER_TABLE (λ pt_i e,
          clone_entry dst (entry_ptr src_pt pt_i) (clone_virt pml4_i pdpt_i pd_i pt_i) e)))).

Definition as_clone (src : option as_ptr) : AM (option Z) :=
  match src with
  | None => mret None
  | Some sp =>
      d ← as_create;
      match d with
      | None => mret None
      | Some dst =>
          sa ← rd_as sp;
          (match as_vmas sa with
           | None => mret tt
           | Some l =>
               da ← rd_as (UserAs dst);
               (match as_vmas da with Some dl => vmas_ (vma_list_destroy (Some dl)) | None => mret tt end) ;;
               nl ← vmas_ (vma_list_clone (Some l));
               upd_as (UserAs dst) (set_as_vmas nl)
           end) ;;
          ok ← clone_tables (as_cr3 sa) dst;
          mret (if (ok : bool) then Some dst else None)
      end
  end.

End as_.

Arguments asys H S : clear implicits.
