(* ===== verification/AsInv.v ===== *)
(** * Address spaces: trees that share the upper half

    [shape fr m R U]: the tables with roots [R] in the memory [m] are trees; the
    tables of the lower half belong to one address space each; and the pages of
    the lower half are mapped as [U] says, a map from an address space and a page
    number to an entry.  Walking down and making tables in one address space
    leaves all others, and the contents of all other frames, as they are. *)

From stdpp Require Import gmap.
From S2P Require Import Prelude Frames Vmm VmmInv VmmThm As.

(** An address of the lower half. *)
Definition user (v : Z) : Prop := vpn v < 2 ^ 35.

#[export] Instance user_dec v : Decision (user v).
Proof. unfold user. apply _. Defined.

Lemma vpn_bounds v : 0 ≤ vpn v < 2 ^ 36.
Proof. apply Z.mod_pos_bound. lia. Qed.

Lemma user_index v : user v ↔ index 0 v < 256.
Proof.
  unfold user. rewrite index_vpn by lia. pose proof (vpn_bounds v) as Hv. cbn.
  Z.to_euclidean_division_equations. lia.
Qed.

Lemma user_prefix v w d : (0 < d)%nat → same_prefix d v w → user v → user w.
Proof. intros Hd Hp. rewrite !user_index. by rewrite (Hp 0%nat Hd). Qed.

Definition user_entry (f : Z) : Z := Z.lor (new_entry f) PTE_USER.

Lemma user_entry_frame f : frame_addr f → frame_of (user_entry f) = f.
Proof.
  intros Hf. unfold user_entry. rewrite frame_of_lor, new_entry_frame by done.
  change (frame_of PTE_USER) with 0. apply Z.lor_0_r.
Qed.

Lemma user_entry_table d f : frame_addr f → is_table d (user_entry f) = true.
Proof.
  intros Hf. unfold is_table, user_entry, new_entry, PTE_PRESENT, PTE_WRITABLE, PTE_HUGE, PTE_USER.
  rewrite !has_bit by lia.
  rewrite !testbit_lor_flag, !(frame_low_bit f) by (done || lia). cbn. by rewrite andb_false_r.
Qed.

(** The tables of an address space that are its own. *)
Definition owned (m : gmap Z Z) (r v : Z) (d : nat) (f : Z) : Prop :=
  (d ≤ 3)%nat ∧ table_at m r v d = Some f ∧ (d = O ∨ user v).

(** The frame [f] holds a table of one of the address spaces. *)
Definition any_table (m : gmap Z Z) (R : gset Z) (f : Z) : Prop :=
  ∃ r v d, r ∈ R ∧ (d ≤ 3)%nat ∧ table_at m r v d = Some f.

Section shape.
Context {S : Type} {FA : FrameAlloc S} {FL : FrameLaws S} {FR : FrameRefs S} {FRL : FrameRefsLaws S}.
Implicit Types (fr : S) (m : gmap Z Z) (R : gset Z) (U : gmap (Z * Z) Z) (r v w f g t p : Z) (d k : nat).

Record shape fr m R U : Prop := Shape {
  sp_inv : fa_inv fr;
  sp_tree : ∀ r, r ∈ R → tree_ok m r;
  sp_tables : ∀ f, any_table m R f → ¬ fa_free fr f;
  sp_held : ∀ r v d f, r ∈ R → owned m r v d f → fa_held fr f;
  sp_own : ∀ r v d f r' w k, r ∈ R → owned m r v d f → r' ∈ R → (k ≤ 3)%nat →
    table_at m r' w k = Some f → r' = r;
  sp_map : ∀ r v, r ∈ R → user v → mapping m r v = (λ e, (3%nat, e)) <$> U !! (r, vpn v);
  sp_dom : ∀ r p e, U !! (r, p) = Some e → r ∈ R ∧ 0 ≤ p < 2 ^ 35;
  sp_data : ∀ r p e, U !! (r, p) = Some e → fa_held fr (frame_of e) ∧ ¬ any_table m R (frame_of e) }.

(** ** One address space grows *)

(** From [(fr, m)] to [(fr', m')] tables were added below [r] on the way to [v],
    in frames that were free; no mapping of [r] changes. *)
Record grown r v fr m fr' m' : Prop := Grown {
  gr_inv : fa_inv fr';
  gr_tree : tree_ok m' r;
  gr_safe : ∀ w d f, (d ≤ 3)%nat → table_at m' r w d = Some f → ¬ fa_free fr' f;
  gr_free : ∀ f, fa_free fr' f → fa_free fr f;
  gr_keep : ∀ f, fa_held fr f → fa_held fr' f ∧ fr_count fr' f = fr_count fr f;
  gr_maps : ∀ w, mapping m' r w = mapping m r w;
  gr_old : ∀ w d f, (d ≤ 3)%nat → table_at m r w d = Some f → table_at m' r w d = Some f;
  gr_new : ∀ w d f, (d ≤ 3)%nat → table_at m' r w d = Some f → table_at m r w d = Some f ∨
    (fa_free fr f ∧ fa_held fr' f ∧ (0 < d)%nat ∧ index 0 w = index 0 v);
  gr_words : ∀ f i, frame_addr f → 0 ≤ i < 512 → ¬ fa_free fr f →
    (∀ d, (d ≤ 3)%nat → table_at m r v d ≠ Some f) → rd_mem m' (f + 8 * i) = rd_mem m (f + 8 * i);
  gr_lost : ∀ f, fa_free fr f → fa_free fr' f ∨ ∃ w d, (d ≤ 3)%nat ∧ table_at m' r w d = Some f }.

Definition safe_tree r fr m : Prop :=
  fa_inv fr ∧ tree_ok m r ∧ ∀ w d f, (d ≤ 3)%nat → table_at m r w d = Some f → ¬ fa_free fr f.

Lemma grown_safe r v fr m fr' m' : grown r v fr m fr' m' → safe_tree r fr' m'.
Proof. intros []. by split_and!. Qed.

Lemma grown_refl r v fr m : safe_tree r fr m → grown r v fr m fr m.
Proof. intros (H1 & H2 & H3). split; auto. Qed.

Lemma grown_trans r v fr m fr' m' fr'' m'' :
  grown r v fr m fr' m' → grown r v fr' m' fr'' m'' → grown r v fr m fr'' m''.
Proof.
  intros [A1 A2 A3 A4 A5 A6 A7 A8 A9 A10] [B1 B2 B3 B4 B5 B6 B7 B8 B9 B10]. split; auto.
  - intros f Hf. destruct (A5 f Hf) as [Hf' <-]. by apply B5.
  - intros w. by rewrite B6.
  - intros w d f Hd Hf. destruct (B8 w d f Hd Hf) as [Hf'|(Hfr & Hh & H0 & Hi)].
    + destruct (A8 w d f Hd Hf') as [?|(? & ? & ? & ?)]; [by left|right]. split_and!; [done|by apply B5|done|done].
    + right. split_and!; [by apply A4|done|done|done].
  - intros f i Hf Hi Hnf Hp. rewrite B9; [by apply A9|done|done| |].
    + intros Hff. by apply Hnf, A4.
    + intros d Hd Ht. destruct (A8 v d f Hd Ht) as [?|[? _]]; [by apply (Hp d)|done].
  - intros f [?|(w & d & Hd & Ht)]%A10; [by apply B10|right]. exists w, d. auto.
Qed.

(** The tables on the way to [v] are frames of the allocator. *)
Definition own_path m r v : Prop := ∀ d t, (d ≤ 3)%nat → table_at m r v d = Some t → fa_addr t.

Lemma grown_path r v fr m fr' m' : fa_inv fr → grown r v fr m fr' m' → own_path m r v → own_path m' r v.
Proof.
  intros Hi Hg Hp d t Hd Ht. destruct (gr_new _ _ _ _ _ _ Hg v d t Hd Ht) as [?|[Hf _]]; [by eapply Hp|].
  by apply (fa_free_in _ _ Hi).
Qed.

(** *** Tables *)

Lemma zero_words_wp r s (Q : unit → vm S → Prop) :
  seen (vm_cr3 s) r →
  (∀ m1, zeroed r (vm_mem s) m1 → Q tt (Vm (vm_frames s) m1 (vm_cr3 s))) →
  wp (for_ 0 512 (λ i, wr_word (entry_ptr (phys_to_virt r) i) 0)) Q s.
Proof.
  intros Hseen HQ. pose proof (seen_addr _ _ Hseen) as Haddr.
  apply (wp_for (λ j s', ∃ m1, s' = Vm (vm_frames s) m1 (vm_cr3 s) ∧
    (∀ i, 0 ≤ i < j → rd_mem m1 (r + 8 * i) = 0) ∧
    (∀ f i, frame_addr f → f ≠ r → 0 ≤ i < 512 →
       rd_mem m1 (f + 8 * i) = rd_mem (vm_mem s) (f + 8 * i)))).
  - exists (vm_mem s). split_and!; [by destruct s|lia|done].
  - intros j s' Hj (m1 & -> & Hz & Ho). apply wr_entry_wp; [done|exact Hj|].
    eexists. split_and!; [done|..]; cbn [vm_mem].
    + intros i Hi. destruct (decide (i = j)) as [->|]; [apply rd_mem_insert_eq|].
      rewrite rd_mem_insert_ne by lia. apply Hz. lia.
    + intros f i Hf Hne Hi. rewrite rd_mem_insert_ne; [by apply Ho|].
      apply word_ne; [done|done|exact Hj|done|left; done].
  - intros s' (m1 & -> & Hz & Ho). by apply HQ.
Qed.

(** A frame for a table, cleared. *)
Lemma new_table_wp s (Q : option Z → vm S → Prop) :
  fa_inv (vm_frames s) → sees (vm_cr3 s) →
  ((∀ f, ¬ fa_free (vm_frames s) f) → Q None s) →
  (∀ r fr m1, fa_inv fr → fa_free (vm_frames s) r → frame_addr r →
     (∀ f, fa_free fr f ↔ fa_free (vm_frames s) f ∧ f ≠ r) → fa_held fr r → fr_count fr r = 1 →
     (∀ f, fa_held (vm_frames s) f → fa_held fr f ∧ fr_count fr f = fr_count (vm_frames s) f) →
     zeroed r (vm_mem s) m1 → Q (Some (phys_to_virt r)) (Vm fr m1 (vm_cr3 s))) →
  wp alloc_page_table Q s.
Proof.
  intros Hinv Hsees HN HS. unfold alloc_page_table. apply wp_bind, on_frames_wp.
  eapply wp_mono; [by apply fr_alloc_law|].
  intros r fr (Hinv' & [(-> & -> & Hno)|(Hr & Hfree & Hheld & Hc1 & Hc)]).
  { cbn. apply wp_ret. destruct s. by apply HN. }
  pose proof (fa_free_addr _ _ Hinv Hr) as Haddr.
  rewrite (proj2 (Z.eqb_neq r 0)) by (destruct Haddr; lia). cbv zeta. apply wp_bind.
  apply zero_words_wp; [by apply Hsees, (fa_free_in _ _ Hinv)|]. intros m1 Hz. apply wp_ret. apply HS; try done.
  - apply Hheld. by right.
  - intros f Hf. split; [apply Hheld; by left|by apply Hc].
Qed.

Lemma grown_create r v d t f fr m fr' m1 :
  safe_tree r fr m → (d < 3)%nat → table_at m r v d = Some t →
  has (pte_at m t d v) PTE_PRESENT = false →
  fa_inv fr' → fa_free fr f → frame_addr f →
  (∀ g, fa_free fr' g ↔ fa_free fr g ∧ g ≠ f) → fa_held fr' f →
  (∀ g, fa_held fr g → fa_held fr' g ∧ fr_count fr' g = fr_count fr g) →
  zeroed f m m1 →
  let m' := <[t + 8 * index d v := user_entry f]> m1 in
  grown r v fr m fr' m' ∧ table_at m' r v (Datatypes.S d) = Some f.
Proof.
  intros (Hinv & Htr & Hsafe) Hd Ht Habs Hinv' Hf Haddr Hfree Hheld Hkeep Hz m'.
  pose proof (user_entry_frame f Haddr) as Hef. pose proof (user_entry_table d f Haddr) as Het.
  assert (∀ w k, (k ≤ 3)%nat → table_at m r w k ≠ Some f) as Hfresh.
  { intros w k Hk He. by apply (Hsafe w k f). }
  assert (∀ w k g, (k ≤ 3)%nat → table_at m' r w k = Some g → table_at m r w k = Some g ∨
            (k = Datatypes.S d ∧ same_prefix (Datatypes.S d) v w ∧ g = f)) as Hnew.
  { intros w k g Hk. by apply (create_tables m m1 r v t f (user_entry f) d). }
  assert (table_at m' r v (Datatypes.S d) = Some f) as Hat by by apply (create_new m m1 r v t f (user_entry f) d).
  split; [|done]. split.
  - done.
  - by apply (create_tree_ok m m1 r v t f (user_entry f) d).
  - intros w k g Hk Hg. rewrite Hfree. destruct (Hnew w k g Hk Hg) as [Hg'|(_ & _ & ->)]; [|tauto].
    intros [? _]. by apply (Hsafe w k g).
  - intros g [? _]%Hfree. done.
  - done.
  - intros w. by apply (create_mapping m m1 r v t f (user_entry f) d).
  - intros w k g Hk Hg. apply (create_tables m m1 r v t f (user_entry f) d); auto.
  - intros w k g Hk Hg. destruct (Hnew w k g Hk Hg) as [Hg'|(-> & Hp & ->)]; [by left|right].
    split_and!; [done|done|lia|]. symmetry. apply Hp. lia.
  - intros g i Hg Hi Hnf Hp. unfold m'. rewrite rd_mem_insert_ne.
    + apply Hz; [done| |done]. by intros ->.
    + apply word_ne; [apply (tr_addr _ _ Htr v d t); [lia|done]|done|apply index_bounds|done|left].
      intros ->. apply (Hp d); [lia|done].
  - intros g Hg. destruct (decide (g = f)) as [->|Hne]; [right|left; by apply Hfree].
    exists v, (Datatypes.S d). split; [lia|done].
Qed.

Lemma get_or_create_user_wp r s v d t create (Q : option Z → vm S → Prop) :
  safe_tree r (vm_frames s) (vm_mem s) → own_path (vm_mem s) r v → sees (vm_cr3 s) → (d < 3)%nat → table_at (vm_mem s) r v d = Some t →
  (has (pte_at (vm_mem s) t d v) PTE_PRESENT = true → is_table d (pte_at (vm_mem s) t d v) = true) →
  (∀ fr m f, grown r v (vm_frames s) (vm_mem s) fr m → (create = false → fr = vm_frames s ∧ m = vm_mem s) →
     table_at m r v (Datatypes.S d) = Some f → Q (Some (phys_to_virt f)) (Vm fr m (vm_cr3 s))) →
  (table_at (vm_mem s) r v (Datatypes.S d) = None → mapping (vm_mem s) r v = None →
     (create = true → ∀ f, ¬ fa_free (vm_frames s) f) → Q None s) →
  wp (get_or_create_user (entry_ptr (phys_to_virt t) (index d v)) create) Q s.
Proof.
  intros Hs Hpath Hsees Hd Ht Hhuge HS HN. pose proof Hs as (Hinv & Htr & Hsafe).
  assert (seen (vm_cr3 s) t) as Hseen by (eapply Hsees, Hpath; [|exact Ht]; lia).
  pose proof (index_bounds d v) as Hi. unfold get_or_create_user. apply wp_bind.
  apply rd_entry_wp; [done..|]. fold (pte_at (vm_mem s) t d v).
  destruct (has (pte_at (vm_mem s) t d v) PTE_PRESENT) eqn:Hp.
  { unfold pte_to_table. rewrite Hp. apply wp_ret.
    specialize (HS (vm_frames s) (vm_mem s)). destruct s as [fr m c]. cbn [vm_frames vm_mem vm_cr3] in *.
    apply HS; [by apply grown_refl|done|]. cbn [table_at]. by rewrite Ht, (Hhuge eq_refl). }
  assert (table_at (vm_mem s) r v (Datatypes.S d) = None) as Hnt.
  { simpl. by rewrite Ht, pte_absent. }
  assert (mapping (vm_mem s) r v = None) as Hnm.
  { rewrite (walk_table _ _ v d t) by (done || lia). destruct (3 - d)%nat; simpl; by rewrite Hp. }
  destruct create; [|apply wp_ret, HN; done].
  apply wp_bind. apply new_table_wp; [done|done| |].
  { intros Hno. by apply wp_ret, HN. }
  intros f fr m1 Hinv' Hf Hfa Hfree Hheld _ Hkeep Hz.
  destruct (grown_create r v d t f _ _ fr m1 Hs Hd Ht Hp Hinv' Hf Hfa Hfree Hheld Hkeep Hz) as [Hg Hnew].
  apply wp_bind. apply wr_entry_wp; [done..|]. apply wp_ret.
  rewrite table_to_phys_virt by done. by apply HS.
Qed.

(** A walk of a page that no huge page maps. *)
Definition no_huge m r v : Prop := ∀ d e, mapping m r v = Some (d, e) → d = 3%nat.

(** The check for a huge page, then the step down. *)
Lemma step_user_wp r fr0 m0 s v d t create {A} (k : Z → M (vm S) (option A)) (Q : option A → vm S → Prop) :
  grown r v fr0 m0 (vm_frames s) (vm_mem s) → (create = false → vm_frames s = fr0 ∧ vm_mem s = m0) →
  own_path (vm_mem s) r v → sees (vm_cr3 s) → no_huge m0 r v → (0 < d < 3)%nat → table_at (vm_mem s) r v d = Some t →
  (∀ fr m f, grown r v fr0 m0 fr m → (create = false → fr = fr0 ∧ m = m0) →
     table_at m r v (Datatypes.S d) = Some f → wp (k (phys_to_virt f)) Q (Vm fr m (vm_cr3 s))) →
  (∀ fr m, grown r v fr0 m0 fr m → (create = false → fr = fr0 ∧ m = m0) → mapping m0 r v = None →
     (create = true → ∀ f, ¬ fa_free fr f) → Q None (Vm fr m (vm_cr3 s))) →
  wp (e ← rd_word (entry_ptr (phys_to_virt t) (index d v));
      if has e PTE_PRESENT && has e PTE_HUGE then mret None else
      t' ← get_or_create_user (entry_ptr (phys_to_virt t) (index d v)) create;
      match t' with None => mret None | Some t' => k t' end) Q s.
Proof.
  intros Hg Hc Hpath Hsees Hnh Hd Ht HS HN. pose proof (grown_safe _ _ _ _ _ _ Hg) as Hs.
  assert (seen (vm_cr3 s) t) as Hseen by (eapply Hsees, Hpath; [|exact Ht]; lia).
  apply wp_bind. apply rd_entry_wp; [done|apply index_bounds|]. fold (pte_at (vm_mem s) t d v).
  assert (has (pte_at (vm_mem s) t d v) PTE_PRESENT = true → is_table d (pte_at (vm_mem s) t d v) = true) as Hist.
  { intros Hp. destruct (is_table d (pte_at (vm_mem s) t d v)) eqn:Hn; [done|]. exfalso.
    assert (mapping m0 r v = Some (d, pte_at (vm_mem s) t d v)) as Hm; [|apply Hnh in Hm; lia].
    rewrite <-(gr_maps _ _ _ _ _ _ Hg), (walk_table _ _ v d t) by (done || lia).
    replace (3 - d)%nat with (Datatypes.S (2 - d)) by lia. simpl. by rewrite Hp, Hn. }
  destruct (has (pte_at (vm_mem s) t d v) PTE_PRESENT && has (pte_at (vm_mem s) t d v) PTE_HUGE) eqn:Hh.
  { apply andb_true_iff in Hh as [Hp Hh]. specialize (Hist Hp). unfold is_table in Hist. rewrite Hp, Hh in Hist.
    rewrite (proj2 (Nat.ltb_lt 0 d)) in Hist by lia. done. }
  apply wp_bind. apply (get_or_create_user_wp r s v d t); [done|done|done|lia|done|done|..].
  - intros fr m f Hg' Hc' Hf. apply HS; [by eapply grown_trans| |done].
    intros Hcr. destruct (Hc Hcr), (Hc' Hcr). split; congruence.
  - intros _ Hnm Hno. apply wp_ret. specialize (HN (vm_frames s) (vm_mem s)). destruct s as [fr m c]. cbn [vm_frames vm_mem vm_cr3] in *.
    apply HN; [done|done| |done]. by rewrite <-(gr_maps _ _ _ _ _ _ Hg).
Qed.

Lemma as_get_pte_wp r cr3 s v create (Q : option Z → vm S → Prop) :
  frame_of cr3 = r → safe_tree r (vm_frames s) (vm_mem s) → own_path (vm_mem s) r v → sees (vm_cr3 s) →
  no_huge (vm_mem s) r v →
  (∀ fr m t, grown r v (vm_frames s) (vm_mem s) fr m →
     (create = false → fr = vm_frames s ∧ m = vm_mem s) → table_at m r v 3 = Some t →
     Q (Some (entry_ptr (phys_to_virt t) (index 3 v))) (Vm fr m (vm_cr3 s))) →
  (∀ fr m, grown r v (vm_frames s) (vm_mem s) fr m →
     (create = false → fr = vm_frames s ∧ m = vm_mem s) → mapping (vm_mem s) r v = None →
     (create = true → ∀ f, ¬ fa_free fr f) → Q None (Vm fr m (vm_cr3 s))) →
  wp (as_get_pte cr3 v create) Q s.
Proof.
  intros Hr Hs Hpath Hsees Hnh HS HN. pose proof Hs as (Hinv & _). unfold as_get_pte. cbv zeta. fold (frame_of cr3). rewrite Hr.
  change (PML4_INDEX v) with (index 0 v). apply wp_bind.
  apply (get_or_create_user_wp r s v 0); [done|done|done|lia|done|by unfold is_table; intros ->|..].
  2:{ intros _ Hnm Hno. apply wp_ret. specialize (HN (vm_frames s) (vm_mem s)). destruct s as [fr m c]. cbn [vm_frames vm_mem vm_cr3] in *.
      apply HN; [by apply grown_refl|done..]. }
  intros fr1 m1 t1 Hg1 Hc1 Ht1. change (PDPT_INDEX v) with (index 1 v). cbv zeta.
  apply (step_user_wp r (vm_frames s) (vm_mem s)); [done|done|by eapply grown_path|done|done|lia|done| |done].
  intros fr2 m2 t2 Hg2 Hc2 Ht2. change (PD_INDEX v) with (index 2 v). cbv zeta.
  apply (step_user_wp r (vm_frames s) (vm_mem s)); [done|done|by eapply grown_path|done|done|lia|done| |done].
  intros fr3 m3 t3 Hg3 Hc3 Ht3. by apply wp_ret, HS.
Qed.

End shape.

(** * Address spaces: mapping, unmapping, looking up

    The operations of as.c on the tables of one address space, against [shape]:
    one page of one address space changes, all other pages of all address spaces
    stay, and no frame that is not a table changes its contents. *)

Section as_thm.
Context {S : Type} {FA : FrameAlloc S} {FL : FrameLaws S} {FR : FrameRefs S} {FRL : FrameRefsLaws S}.
Implicit Types (fr : S) (m : gmap Z Z) (R : gset Z) (U : gmap (Z * Z) Z) (r v w f g t p : Z) (d k : nat).

Lemma shape_safe fr m R U r : shape fr m R U → r ∈ R → safe_tree r fr m.
Proof.
  intros Hs Hr. split_and!; [apply Hs|by apply Hs|]. intros w d f Hd Hf. apply (sp_tables _ _ _ _ Hs).
  by exists r, w, d.
Qed.

Lemma shape_path fr m R U r v : shape fr m R U → r ∈ R → user v → own_path m r v.
Proof.
  intros Hs Hr Hv d t Hd Ht. apply (fa_held_in _ _ (sp_inv _ _ _ _ Hs)), (sp_held _ _ _ _ Hs r v d); [done|].
  split_and!; [done|done|by right].
Qed.

(** The tables of an address space can be reached. *)
Lemma shape_seen fr m R U c r v d t :
  shape fr m R U → sees c → r ∈ R → owned m r v d t → seen c t.
Proof. intros Hs Hc Hr Ho. apply Hc, (fa_held_in _ _ (sp_inv _ _ _ _ Hs)). by eapply (sp_held _ _ _ _ Hs). Qed.

Lemma leaf_seen fr m R U c r v t :
  shape fr m R U → sees c → r ∈ R → user v → table_at m r v 3 = Some t → seen c t.
Proof. intros Hs Hc Hr Hv Ht. eapply Hc, (shape_path fr m R U r v); [done|done|done| |exact Ht]. lia. Qed.

Lemma shape_no_huge fr m R U r v : shape fr m R U → r ∈ R → user v → no_huge m r v.
Proof.
  intros Hs Hr Hv d e. rewrite (sp_map _ _ _ _ Hs r v Hr Hv). by destruct (U !! (r, vpn v)); intros [= <- _].
Qed.

(** ** Growing one address space *)

Section grow.
Context (fr : S) (m : gmap Z Z) (R : gset Z) (U : gmap (Z * Z) Z) (r v : Z) (fr' : S) (m' : gmap Z Z).
Hypothesis Hs : shape fr m R U.
Hypothesis Hr : r ∈ R.
Hypothesis Hv : user v.
Hypothesis Hg : grown r v fr m fr' m'.

Lemma grow_words r' w k f i :
  r' ∈ R → r' ≠ r → (k ≤ 3)%nat → table_at m r' w k = Some f → 0 ≤ i < 512 →
  rd_mem m' (f + 8 * i) = rd_mem m (f + 8 * i).
Proof.
  intros Hr' Hne Hk Hf Hi. apply (gr_words _ _ _ _ _ _ Hg); [|done| |].
  - by apply (tr_addr _ _ (sp_tree _ _ _ _ Hs r' Hr') w k).
  - apply (sp_tables _ _ _ _ Hs). by exists r', w, k.
  - intros d Hd Hp. apply Hne. apply (sp_own _ _ _ _ Hs r v d f r' w k); [done| |done..].
    split_and!; [done|done|by right].
Qed.

Lemma grow_others r' w k : r' ∈ R → r' ≠ r → (k ≤ 3)%nat → table_at m' r' w k = table_at m r' w k.
Proof.
  intros Hr' Hne Hk. apply table_at_ext. intros j f Hj Hf.
  eapply grow_words; [done|done| |done|apply index_bounds]. lia.
Qed.

Lemma grow_maps r' w : r' ∈ R → mapping m' r' w = mapping m r' w.
Proof.
  intros Hr'. destruct (decide (r' = r)) as [->|Hne]; [apply Hg|]. apply mapping_ext.
  intros j f Hj Hf. eapply grow_words; [done|done| |done|apply index_bounds]. done.
Qed.

(** A table is an old one of the same address space, or was free. *)
Lemma grow_table r' w k f :
  r' ∈ R → (k ≤ 3)%nat → table_at m' r' w k = Some f → table_at m r' w k = Some f ∨
    (r' = r ∧ fa_free fr f ∧ fa_held fr' f ∧ (0 < k)%nat ∧ index 0 w = index 0 v).
Proof.
  intros Hr' Hk Hf. destruct (decide (r' = r)) as [->|Hne].
  - destruct (gr_new _ _ _ _ _ _ Hg w k f Hk Hf) as [?|?]; [by left|by right].
  - rewrite grow_others in Hf by done. by left.
Qed.

Lemma grow_any_table f : any_table m' R f → any_table m R f ∨ fa_free fr f.
Proof.
  intros (r' & w & k & Hr' & Hk & Hf). destruct (grow_table r' w k f Hr' Hk Hf) as [Hf'|(_ & ? & _)]; [|by right].
  left. by exists r', w, k.
Qed.

Lemma grow_held f : fa_held fr f → ¬ any_table m R f → fa_held fr' f ∧ ¬ any_table m' R f.
Proof.
  intros Hf Hn. split; [by apply Hg|]. intros [?|Hff]%grow_any_table; [done|].
  by apply (fa_held_not_free _ _ (sp_inv _ _ _ _ Hs) Hf).
Qed.

Lemma grow_shape : shape fr' m' R U.
Proof.
  assert (∀ r' w k f, r' ∈ R → (k ≤ 3)%nat → table_at m r' w k = Some f → ¬ fa_free fr f) as Hnf.
  { intros r' w k f Hr' Hk Hf. apply (sp_tables _ _ _ _ Hs). by exists r', w, k. }
  split.
  - apply Hg.
  - intros r' Hr'. destruct (decide (r' = r)) as [->|Hne]; [apply Hg|].
    destruct (sp_tree _ _ _ _ Hs r' Hr') as [Ha Hi]. split.
    + intros w k f Hk. rewrite grow_others by done. by apply Ha.
    + intros w w' j k f Hj Hk. rewrite !grow_others by done. by apply Hi.
  - intros f (r' & w & k & Hr' & Hk & Hf) Hff.
    destruct (grow_table r' w k f Hr' Hk Hf) as [Hf'|(-> & _)].
    + by apply (Hnf r' w k f Hr' Hk Hf'), Hg.
    + by apply (gr_safe _ _ _ _ _ _ Hg w k f).
  - intros r1 w d f Hr1 (Hd & Hf & Ho). destruct (grow_table r1 w d f Hr1 Hd Hf) as [Hf'|(_ & _ & ? & _)]; [|done].
    apply Hg. by apply (sp_held _ _ _ _ Hs r1 w d f).
  - intros r1 w d f r2 w2 k Hr1 (Hd & Hf & Ho) Hr2 Hk Hf2.
    destruct (grow_table r1 w d f Hr1 Hd Hf) as [Hf'|(-> & Hff & _)];
      destruct (grow_table r2 w2 k f Hr2 Hk Hf2) as [Hf2'|(-> & Hff2 & _)]; [|exfalso..|done].
    + by apply (sp_own _ _ _ _ Hs r1 w d f r2 w2 k).
    + by apply (Hnf r1 w d f).
    + by apply (Hnf r2 w2 k f).
  - intros r' w Hr' Hw. rewrite grow_maps by done. by apply Hs.
  - apply Hs.
  - intros r1 p e He. destruct (sp_data _ _ _ _ Hs r1 p e He) as [H1 H2]. by apply grow_held.
Qed.

End grow.

(** ** Writing a leaf *)

Section leaf.
Context (fr : S) (m : gmap Z Z) (R : gset Z) (U : gmap (Z * Z) Z) (r v t e : Z).
Hypothesis Hs : shape fr m R U.
Hypothesis Hr : r ∈ R.
Hypothesis Hv : user v.
Hypothesis Ht : table_at m r v 3 = Some t.
Let m' := <[t + 8 * index 3 v := e]> m.

Lemma leaf_addr : frame_addr t.
Proof. by apply (tr_addr _ _ (sp_tree _ _ _ _ Hs r Hr) v 3). Qed.

Lemma leaf_words f i :
  frame_addr f → 0 ≤ i < 512 → f ≠ t → rd_mem m' (f + 8 * i) = rd_mem m (f + 8 * i).
Proof.
  intros Hf Hi Hne. apply rd_mem_insert_ne. apply word_ne; [apply leaf_addr|done|apply index_bounds|done|].
  left. congruence.
Qed.

Lemma leaf_other_words r' w k f :
  r' ∈ R → r' ≠ r → (k ≤ 3)%nat → table_at m r' w k = Some f → pte_at m' f k w = pte_at m f k w.
Proof.
  intros Hr' Hne Hk Hf. apply leaf_words; [|apply index_bounds|].
  - by apply (tr_addr _ _ (sp_tree _ _ _ _ Hs r' Hr') w k).
  - intros ->. apply Hne. apply (sp_own _ _ _ _ Hs r v 3 t r' w k); [done| |done..].
    split_and!; [done|done|by right].
Qed.

Lemma leaf_table_at r' w k : r' ∈ R → (k ≤ 3)%nat → table_at m' r' w k = table_at m r' w k.
Proof.
  intros Hr' Hk. destruct (decide (r' = r)) as [->|Hne].
  - apply leaf_tables; [by apply Hs|done|done].
  - apply table_at_ext. intros j f Hj Hf. apply (leaf_other_words r'); [done|done|lia|done].
Qed.

Lemma leaf_any_table f : any_table m' R f ↔ any_table m R f.
Proof.
  split; intros (r' & w & k & Hr' & Hk & Hf); exists r', w, k; (split; [done|split; [done|]]).
  - by rewrite leaf_table_at in Hf.
  - by rewrite leaf_table_at.
Qed.

Lemma leaf_map r' w :
  r' ∈ R → user w → mapping m' r' w =
    (λ e, (3%nat, e)) <$> (if decide (r' = r ∧ vpn w = vpn v)
                            then if has e PTE_PRESENT then Some e else None else U !! (r', vpn w)).
Proof.
  intros Hr' Hw. destruct (decide (r' = r)) as [->|Hne].
  - unfold m'. rewrite leaf_mapping by (done || by apply Hs).
    destruct (decide (vpn w = vpn v)).
    + rewrite decide_True by done. by destruct (has e PTE_PRESENT).
    + rewrite decide_False by tauto. by apply Hs.
  - rewrite decide_False by tauto. rewrite <-(sp_map _ _ _ _ Hs r' w) by done. apply mapping_ext.
    intros j f Hj Hf. by apply (leaf_other_words r').
Qed.

(** The shape after the write, for the map that the walk now gives. *)
Lemma leaf_shape U' :
  (∀ r' w, r' ∈ R → user w → U' !! (r', vpn w) =
     if decide (r' = r ∧ vpn w = vpn v) then if has e PTE_PRESENT then Some e else None else U !! (r', vpn w)) →
  (∀ r' p x, U' !! (r', p) = Some x → U !! (r', p) = Some x ∨
     (r' = r ∧ p = vpn v ∧ fa_held fr (frame_of x) ∧ ¬ any_table m R (frame_of x))) →
  shape fr m' R U'.
Proof.
  intros HU' Hnew. destruct Hs as [H1 H2 H3 H4 H5 H6 H7 H8]. split.
  - done.
  - intros r' Hr'. destruct (H2 r' Hr') as [Ha Hi]. split.
    + intros w k f Hk. rewrite leaf_table_at by done. by apply Ha.
    + intros w w' j k f Hj Hk. rewrite !leaf_table_at by done. by apply Hi.
  - intros f Hf. by apply H3, leaf_any_table.
  - intros r1 w d f Hr1 (Hd & Hf & Ho). rewrite leaf_table_at in Hf by done. by apply (H4 r1 w d f).
  - intros r1 w d f r2 w2 k Hr1 (Hd & Hf & Ho) Hr2 Hk Hf2. rewrite leaf_table_at in Hf, Hf2 by done.
    by apply (H5 r1 w d f r2 w2 k).
  - intros r' w Hr' Hw. by rewrite leaf_map, HU' by done.
  - intros r' p x Hx. destruct (Hnew r' p x Hx) as [?|(-> & -> & _)]; [by eapply H7|].
    split; [done|]. pose proof (vpn_bounds v). unfold user in Hv. lia.
  - intros r' p x Hx. rewrite leaf_any_table. destruct (Hnew r' p x Hx) as [?|(_ & _ & ?)]; [by eapply H8|done].
Qed.

Lemma leaf_set :
  has e PTE_PRESENT = true → fa_held fr (frame_of e) → ¬ any_table m R (frame_of e) →
  shape fr m' R (<[(r, vpn v) := e]> U).
Proof.
  intros Hp Hh Hn. apply leaf_shape.
  - intros r' w Hr' Hw. rewrite Hp. destruct (decide (r' = r ∧ vpn w = vpn v)) as [[-> ->]|Hne].
    + apply lookup_insert_eq.
    + apply lookup_insert_ne. intros [= ? ?]. apply Hne. by split.
  - intros r' p x [[[= <- <-] <-]|[_ ?]]%lookup_insert_Some; [by right|by left].
Qed.

Lemma leaf_clear : has e PTE_PRESENT = false → shape fr m' R (delete (r, vpn v) U).
Proof.
  intros Hp. apply leaf_shape.
  - intros r' w Hr' Hw. rewrite Hp. destruct (decide (r' = r ∧ vpn w = vpn v)) as [[-> ->]|Hne].
    + apply lookup_delete_eq.
    + apply lookup_delete_ne. intros [= ? ?]. apply Hne. by split.
  - intros r' p x [_ ?]%lookup_delete_Some. by left.
Qed.

End leaf.

(** ** The operations *)

(** What an operation on the address space [r] leaves alone: the frames that are
    in use, the contents of those that are no tables, and the tables of the other
    address spaces. *)
Record kept r R fr m fr' m' : Prop := Kept {
  kp_free : ∀ f, fa_free fr' f → fa_free fr f;
  kp_held : ∀ f, fa_held fr f → fa_held fr' f ∧ fr_count fr' f = fr_count fr f;
  kp_words : ∀ f i, fa_held fr f → ¬ any_table m R f → 0 ≤ i < 512 →
    rd_mem m' (f + 8 * i) = rd_mem m (f + 8 * i);
  kp_tables : ∀ f, fa_held fr f → ¬ any_table m R f → ¬ any_table m' R f;
  kp_others : ∀ r' w k, r' ∈ R → r' ≠ r → (k ≤ 3)%nat → table_at m' r' w k = table_at m r' w k;
  kp_old : ∀ w k f, (k ≤ 3)%nat → table_at m r w k = Some f → table_at m' r w k = Some f;
  kp_new : ∀ f, any_table m' R f → any_table m R f ∨ fa_free fr f;
  kp_mem : ∀ f i, frame_addr f → ¬ fa_free fr f → (∀ w k, ¬ owned m r w k f) → 0 ≤ i < 512 →
    rd_mem m' (f + 8 * i) = rd_mem m (f + 8 * i);
  kp_own : ∀ w k f, owned m' r w k f → owned m r w k f ∨ fa_free fr f;
  kp_lost : ∀ f, fa_free fr f → fa_free fr' f ∨ any_table m' R f }.

(** Tables stay tables. *)
Lemma kept_any_table r R fr m fr' m' f : kept r R fr m fr' m' → any_table m R f → any_table m' R f.
Proof.
  intros Hk (r' & w & d & Hr & Hd & Hf). exists r', w, d. split_and!; [done|done|].
  destruct (decide (r' = r)) as [->|Hne]; [by apply (kp_old _ _ _ _ _ _ Hk)|].
  by rewrite (kp_others _ _ _ _ _ _ Hk).
Qed.

Lemma kept_trans r R fr m fr1 m1 fr2 m2 :
  kept r R fr m fr1 m1 → kept r R fr1 m1 fr2 m2 → kept r R fr m fr2 m2.
Proof.
  intros HA HB. pose proof HA as [A1 A2 A3 A4 A5 A6 A7 A8 A9 A10].
  pose proof HB as [B1 B2 B3 B4 B5 B6 B7 B8 B9 B10]. split; auto.
  - intros f Hf. destruct (A2 f Hf) as [Hf' <-]. by apply B2.
  - intros f i Hf Hn Hi. rewrite B3; [by apply A3|by apply A2|by apply A4|done].
  - intros f Hf Hn. apply B4; [by apply A2|by apply A4].
  - intros r' w k Hr' Hne Hk. by rewrite B5, A5.
  - intros f [?|?]%B7; auto.
  - intros f i Hf Hn Ho Hi. rewrite B8; [by apply A8|done|by intros ?%A1| |done].
    intros w k [?|?]%A9; [by apply (Ho w k)|done].
  - intros w k f [?|?]%B9; auto.
  - intros f [?|?]%A10; [by apply B10|right]. by eapply kept_any_table.
Qed.

Lemma kept_refl r R fr m : kept r R fr m fr m.
Proof. split; auto. Qed.

Lemma grow_kept fr m R U r v fr' m' :
  shape fr m R U → r ∈ R → user v → grown r v fr m fr' m' → kept r R fr m fr' m'.
Proof.
  intros Hs Hr Hv Hg. split.
  - apply Hg.
  - apply Hg.
  - intros f i Hf Hn Hi. apply (gr_words _ _ _ _ _ _ Hg); [|done| |].
    + by apply (fa_held_addr _ _ (sp_inv _ _ _ _ Hs)).
    + by apply (fa_held_not_free _ _ (sp_inv _ _ _ _ Hs)).
    + intros d Hd Ht. apply Hn. by exists r, v, d.
  - intros f Hf Hn. by eapply grow_held.
  - intros r' w k Hr' Hne Hk. by apply (grow_others fr m R U r v fr' m').
  - apply Hg.
  - intros f (r' & w & k & Hr' & Hk & Hf). destruct (decide (r' = r)) as [->|Hne].
    + destruct (gr_new _ _ _ _ _ _ Hg w k f Hk Hf) as [?|[? _]]; [left; by exists r, w, k|by right].
    + rewrite (grow_others fr m R U r v fr' m') in Hf by done. left. by exists r', w, k.
  - intros f i Hf Hn Ho Hi. apply (gr_words _ _ _ _ _ _ Hg); [done|done|done|].
    intros d Hd Ht. apply (Ho v d). split_and!; [done|done|by right].
  - intros w k f (Hk & Hf & Hu). destruct (gr_new _ _ _ _ _ _ Hg w k f Hk Hf) as [?|[? _]]; [left|by right].
    by split_and!.
  - intros f [?|(w & d & Hd & Hf)]%(gr_lost _ _ _ _ _ _ Hg); [by left|right]. by exists r, w, d.
Qed.

Lemma leaf_kept fr m R U r v t e :
  shape fr m R U → r ∈ R → user v → table_at m r v 3 = Some t →
  kept r R fr m fr (<[t + 8 * index 3 v := e]> m).
Proof.
  intros Hs Hr Hv Ht. split.
  - done.
  - done.
  - intros f i Hf Hn Hi. eapply leaf_words; [done|done|done| |done|].
    + by apply (fa_held_addr _ _ (sp_inv _ _ _ _ Hs)).
    + intros ->. apply Hn. by exists r, v, 3%nat.
  - intros f Hf Hn. by rewrite leaf_any_table.
  - intros r' w k Hr' Hne Hk. by apply (leaf_table_at fr m R U r v t e).
  - intros w k f Hk Hf. by rewrite (leaf_table_at fr m R U r v t e).
  - intros f Hf. left. by rewrite leaf_any_table in Hf.
  - intros f i Hf Hn Ho Hi. eapply leaf_words; [done|done|done|done|done|]. intros ->. apply (Ho v 3%nat).
    split_and!; [lia|done|by right].
  - intros w k f (Hk & Hf & Hu). rewrite (leaf_table_at fr m R U r v t e) in Hf by done. left. by split_and!.
  - by left.
Qed.

Lemma page_of_user v : 0 ≤ v < 2 ^ 64 → user v → user (page_of v).
Proof. intros Hv. unfold user. by rewrite page_of_vpn. Qed.

Lemma page_of_frame f : frame_addr f → page_of f = f.
Proof.
  intros (H1 & H2 & H3). unfold IDENTITY_LIMIT, PAGE_SIZE in *. rewrite page_of_spec; unfold PAGE_SIZE; lia.
Qed.

Lemma map_in_wp s R U cr3 r v f flags :
  shape (vm_frames s) (vm_mem s) R U → sees (vm_cr3 s) → frame_of cr3 = r → r ∈ R → 0 ≤ v < 2 ^ 64 → user v →
  fa_held (vm_frames s) f → ¬ any_table (vm_mem s) R f →
  wp (map_in cr3 v f flags) (λ res s', vm_cr3 s' = vm_cr3 s ∧
    kept r R (vm_frames s) (vm_mem s) (vm_frames s') (vm_mem s') ∧
    ((res = 0 ∧ shape (vm_frames s') (vm_mem s') R (<[(r, vpn v) := make_pte f flags]> U)) ∨
     (res = -1 ∧ shape (vm_frames s') (vm_mem s') R U ∧ U !! (r, vpn v) = None ∧
      ∀ g, ¬ fa_free (vm_frames s') g))) s.
Proof.
  intros Hs Hsees Hc Hr Hv Hu Hh Hn. unfold map_in.
  pose proof (page_of_user v Hv Hu) as Hu'. pose proof (page_of_vpn v Hv) as Hpv.
  pose proof (fa_held_addr _ _ (sp_inv _ _ _ _ Hs) Hh) as Haddr. rewrite (page_of_frame f Haddr).
  wp_step. apply (as_get_pte_wp r); [done|by eapply shape_safe|by eapply shape_path|done|by eapply shape_no_huge|..].
  - intros fr m t Hg _ Ht. pose proof (grow_shape _ _ _ _ _ _ _ _ Hs Hr Hu' Hg) as Hs1.
    destruct (grow_held _ _ _ _ _ _ _ _ Hs Hr Hu' Hg f Hh Hn) as [Hh1 Hn1].
    assert (frame_of (make_pte f flags) = f) as Hef by by rewrite make_pte_frame, frame_of_frame.
    wp_step. apply wr_entry_wp; [by eapply leaf_seen|apply index_bounds|]. wp_step.
    cbn [vm_frames vm_mem vm_cr3 set_mem]. split; [done|]. split.
    + eapply kept_trans; [by eapply grow_kept|by eapply leaf_kept].
    + left. split; [done|]. rewrite <-Hpv. apply leaf_set; [done|done|done|done|apply make_pte_present|..]; by rewrite Hef.
  - intros fr m Hg _ Hnm Hno. wp_step. cbn [vm_frames vm_mem vm_cr3]. split; [done|]. split; [by eapply grow_kept|].
    right. split; [done|]. split; [by eapply grow_shape|]. split; [|by apply Hno].
    rewrite (sp_map _ _ _ _ Hs r _ Hr Hu'), Hpv in Hnm. by destruct (U !! (r, vpn v)).
Qed.

Lemma unmap_in_wp s R U cr3 r v :
  shape (vm_frames s) (vm_mem s) R U → sees (vm_cr3 s) → frame_of cr3 = r → r ∈ R → 0 ≤ v < 2 ^ 64 → user v →
  wp (unmap_in cr3 v) (λ res s', vm_cr3 s' = vm_cr3 s ∧ vm_frames s' = vm_frames s ∧
    kept r R (vm_frames s) (vm_mem s) (vm_frames s') (vm_mem s') ∧
    shape (vm_frames s') (vm_mem s') R (delete (r, vpn v) U) ∧
    res = match U !! (r, vpn v) with Some e => frame_of e | None => 0 end) s.
Proof.
  intros Hs Hsees Hc Hr Hv Hu. unfold unmap_in.
  pose proof (page_of_user v Hv Hu) as Hu'. pose proof (page_of_vpn v Hv) as Hpv.
  pose proof (sp_map _ _ _ _ Hs r _ Hr Hu') as Hmap. rewrite Hpv in Hmap.
  assert (mapping (vm_mem s) r (page_of v) = None → shape (vm_frames s) (vm_mem s) R (delete (r, vpn v) U) ∧
    U !! (r, vpn v) = None) as Hnone.
  { rewrite Hmap. intros HU. destruct (U !! (r, vpn v)) eqn:He; [done|]. by rewrite delete_id. }
  wp_step. apply (as_get_pte_wp r); [done|by eapply shape_safe|by eapply shape_path|done|by eapply shape_no_huge|..].
  - intros fr m t Hg Hsame Ht. destruct (Hsame eq_refl) as [-> ->]. clear Hsame.
    pose proof (leaf_seen _ _ _ _ _ _ _ _ Hs Hsees Hr Hu' Ht) as Hta.
    wp_step. apply rd_entry_wp; [done|apply index_bounds|]. cbn [vm_mem].
    fold (pte_at (vm_mem s) t 3 (page_of v)).
    rewrite (walk_table _ _ _ 3 t) in Hmap, Hnone by done. cbn [Nat.sub walk] in Hmap, Hnone.
    destruct (has (pte_at (vm_mem s) t 3 (page_of v)) PTE_PRESENT) eqn:Hp.
    + wp_step. apply wr_entry_wp; [done|apply index_bounds|]. wp_step.
      cbn [vm_frames vm_mem vm_cr3 set_mem]. split_and!; [done|done|by eapply leaf_kept|..].
      * rewrite <-Hpv. by apply leaf_clear.
      * destruct (U !! (r, vpn v)) as [e|]; [|done]. by injection Hmap as <-.
    + wp_step. cbn [vm_frames vm_mem vm_cr3]. destruct (Hnone eq_refl) as [Hs' HU]. rewrite HU.
      split_and!; [done|done|apply kept_refl|done|done].
  - intros fr m Hg Hsame Hnm _. destruct (Hsame eq_refl) as [-> ->]. wp_step. cbn [vm_frames vm_mem vm_cr3].
    destruct (Hnone Hnm) as [Hs' HU]. rewrite HU. split_and!; [done|done|apply kept_refl|done|done].
Qed.

End as_thm.
