(* ===== verification/Cow.v ===== *)
(** * Copy on write: model and isolation (mm/fault.c)

    The part of the page fault handler that gives a process its own copy of a
    shared page, and what it is for: a store of one process is never seen by
    another. *)

From stdpp Require Import gmap.
From S2P Require Import Prelude Frames Vmm VmmInv VmmThm As AsInv.

Section model.
Context {S : Type} `{FR : FrameRefs S}.

Definition get_pte_for_addr (cr3 virt : Z) : M (vm S) (option Z) :=
  let pml4 := phys_to_virt (Z.land cr3 PTE_ADDR_MASK) in
  e0 ← rd_word (entry_ptr pml4 (PML4_INDEX virt));
  if negb (has e0 PTE_PRESENT) then mret None else
  let pdpt := phys_to_virt (Z.land e0 PTE_ADDR_MASK) in
  e1 ← rd_word (entry_ptr pdpt (PDPT_INDEX virt));
  if negb (has e1 PTE_PRESENT) then mret None else
  if has e1 PTE_HUGE then mret None else
  let pd := phys_to_virt (Z.land e1 PTE_ADDR_MASK) in
  e2 ← rd_word (entry_ptr pd (PD_INDEX virt));
  if negb (has e2 PTE_PRESENT) then mret None else
  if has e2 PTE_HUGE then mret None else
  let pt := phys_to_virt (Z.land e2 PTE_ADDR_MASK) in
  mret (Some (entry_ptr pt (PT_INDEX virt))).

Definition clear_bits (e bits : Z) : Z := Z.land e (wrap64 (Z.lnot bits)).

Definition copy_page (old_phys new_phys : Z) : M (vm S) unit :=
  let old_data := phys_to_virt old_phys in
  let new_data := phys_to_virt new_phys in
  for_ 0 512 (λ i, x ← rd_word (entry_ptr old_data i); wr_word (entry_ptr new_data i) x).

Definition handle_cow_fault (fault_addr : Z) : M (vm S) Z :=
  let page_addr := page_of fault_addr in
  cr3 ← gets vm_cr3;
  p ← get_pte_for_addr cr3 page_addr;
  match p with
  | None => mret (-1)
  | Some pte =>
      e ← rd_word pte;
      if negb (has e PTE_PRESENT) || negb (has e PTE_COW) then mret (-1) else
      let old_phys := Z.land e PTE_ADDR_MASK in
      old_page ← on_frames (fr_refcount old_phys);
      match old_page with
      | None => mret (-1)
      | Some refcount =>
          if refcount =? 1 then
            wr_word pte (clear_bits (Z.lor e PTE_WRITABLE) PTE_COW) ;; mret 0
          else
            new_phys ← on_frames fa_alloc_page;
            if new_phys =? 0 then mret (-1) else
            copy_page old_phys new_phys ;;
            e ← rd_word pte;
            let flags := Z.lor (clear_bits (clear_bits e PTE_ADDR_MASK) PTE_COW) PTE_WRITABLE in
            wr_word pte (Z.lor (Z.land new_phys PTE_ADDR_MASK) flags) ;;
            on_frames (fr_put_phys old_phys) ;;
            mret 0
      end
  end.

(** A store of a program at [v], an address of a 64-bit word, by the processor:
    through the tables at cr3 where the page may be written; where it may not,
    the fault is handled and the store repeated.  [false]: the fault was not
    handled. *)
Definition store_through (v x : Z) : M (vm S) bool :=
  s ← get;
  match mapping (vm_mem s) (frame_of (vm_cr3 s)) v with
  | Some (3%nat, e) =>
      if has e PTE_WRITABLE then
        put (set_mem (<[frame_of e + PAGE_OFFSET v := x]> (vm_mem s)) s) ;; mret true
      else mret false
  | _ => mret false
  end.

Definition user_store (v x : Z) : M (vm S) bool :=
  ok ← store_through v x;
  if (ok : bool) then mret true
  else
    s ← get;
    match mapping (vm_mem s) (frame_of (vm_cr3 s)) v with
    | Some (3%nat, e) =>
        if has e PTE_COW then
          r ← handle_cow_fault v;
          if r =? 0 then store_through v x else mret false
        else mret false
    | _ => mret false
    end.

End model.

(** ** Entries *)

Lemma land_lnot_wrap e b n :
  0 ≤ b < 2 ^ 64 → 0 ≤ n → Z.testbit (clear_bits e b) n = Z.testbit e n && (n <? 64) && negb (Z.testbit b n).
Proof.
  intros Hb Hn. unfold clear_bits, wrap. rewrite Z.land_spec.
  destruct (Z.ltb_spec n 64).
  - rewrite Z.mod_pow2_bits_low by lia. rewrite Z.lnot_spec by lia. by rewrite andb_true_r.
  - rewrite Z.mod_pow2_bits_high by lia. by rewrite !andb_false_r.
Qed.

Lemma mask_bit n : 0 ≤ n → Z.testbit PTE_ADDR_MASK n = (12 <=? n) && (n <? 52).
Proof.
  intros Hn. change PTE_ADDR_MASK with (Z.shiftl (Z.ones 40) 12). rewrite Z.shiftl_spec by lia.
  destruct (Z.leb_spec 12 n); cbn [andb]; [|by rewrite Z.testbit_neg_r by lia].
  rewrite Z.testbit_ones by lia. rewrite (proj2 (Z.leb_le 0 (n - 12))) by lia. cbn [andb].
  destruct (Z.ltb_spec n 52), (Z.ltb_spec (n - 12) 40); lia || done.
Qed.

Lemma frame_of_bit e n : 0 ≤ n → Z.testbit (frame_of e) n = Z.testbit e n && ((12 <=? n) && (n <? 52)).
Proof. intros Hn. unfold frame_of. by rewrite Z.land_spec, mask_bit. Qed.

(** The entry of the only user of a page. *)
Definition own_entry (e : Z) : Z := clear_bits (Z.lor e PTE_WRITABLE) PTE_COW.

(** The entry of a copy at [f]. *)
Definition copy_entry (e f : Z) : Z :=
  Z.lor (Z.land f PTE_ADDR_MASK) (Z.lor (clear_bits (clear_bits e PTE_ADDR_MASK) PTE_COW) PTE_WRITABLE).

Lemma own_entry_bit e n :
  0 ≤ n < 64 → Z.testbit (own_entry e) n = (Z.testbit e n || (n =? 1)) && negb (n =? 9).
Proof.
  intros Hn. unfold own_entry, PTE_WRITABLE, PTE_COW. rewrite land_lnot_wrap by first [lia|by vm_compute].
  rewrite testbit_lor_flag by lia. rewrite (proj2 (Z.ltb_lt n 64)) by lia. rewrite andb_true_r.
  rewrite Z.shiftl_1_l, Z.pow2_bits_eqb, (Z.eqb_sym 9 n) by lia. f_equal.
  destruct (decide (n = 1)) as [->|Hne]; [by rewrite orb_true_r|].
  by rewrite (proj2 (Z.eqb_neq n 1) Hne), orb_false_r.
Qed.

Lemma copy_entry_bit e f n :
  0 ≤ n < 64 → Z.testbit (copy_entry e f) n =
    (Z.testbit f n && ((12 <=? n) && (n <? 52))) ||
    ((Z.testbit e n && negb ((12 <=? n) && (n <? 52)) && negb (n =? 9)) || (n =? 1)).
Proof.
  intros Hn. unfold copy_entry, PTE_WRITABLE, PTE_COW. rewrite !Z.lor_spec, Z.land_spec, mask_bit by lia.
  rewrite !land_lnot_wrap by first [lia|by vm_compute]. rewrite mask_bit by lia. rewrite (proj2 (Z.ltb_lt n 64)) by lia.
  rewrite !andb_true_r, !Z.shiftl_1_l, !Z.pow2_bits_eqb, (Z.eqb_sym 9 n), (Z.eqb_sym 1 n) by lia. done.
Qed.

Lemma own_entry_props e :
  has e PTE_PRESENT = true →
  frame_of (own_entry e) = frame_of e ∧ has (own_entry e) PTE_PRESENT = true ∧
  has (own_entry e) PTE_WRITABLE = true ∧ has (own_entry e) PTE_COW = false.
Proof.
  unfold PTE_PRESENT, PTE_WRITABLE, PTE_COW. rewrite !has_bit by lia. intros Hp. split_and!.
  - apply Z.bits_inj'. intros n Hn. rewrite !frame_of_bit by done.
    destruct (Z.leb_spec 12 n); cbn [andb]; [|by rewrite !andb_false_r].
    destruct (Z.ltb_spec n 52); [|by rewrite !andb_false_r]. rewrite own_entry_bit by lia.
    rewrite (proj2 (Z.eqb_neq n 1)), (proj2 (Z.eqb_neq n 9)) by lia. by rewrite orb_false_r, !andb_true_r.
  - rewrite own_entry_bit, Hp by lia. done.
  - rewrite own_entry_bit by lia. by rewrite orb_true_r.
  - rewrite own_entry_bit by lia. by rewrite andb_false_r.
Qed.

Lemma copy_entry_props e f :
  has e PTE_PRESENT = true → frame_addr f →
  frame_of (copy_entry e f) = f ∧ has (copy_entry e f) PTE_PRESENT = true ∧
  has (copy_entry e f) PTE_WRITABLE = true ∧ has (copy_entry e f) PTE_COW = false.
Proof.
  unfold PTE_PRESENT, PTE_WRITABLE, PTE_COW. rewrite !has_bit by lia. intros Hp Hf. split_and!.
  - rewrite <-(frame_of_frame f Hf) at 2. apply Z.bits_inj'. intros n Hn. rewrite !frame_of_bit by done.
    destruct (Z.leb_spec 12 n) as [H12|]; cbn [andb]; [|by rewrite !andb_false_r].
    destruct (Z.ltb_spec n 52) as [H52|]; [|by rewrite !andb_false_r]. rewrite copy_entry_bit by lia.
    rewrite (proj2 (Z.leb_le _ _) H12), (proj2 (Z.ltb_lt _ _) H52). cbn [andb negb].
    rewrite (proj2 (Z.eqb_neq n 1)) by lia. by rewrite andb_false_r, !andb_true_r, !orb_false_r.
  - rewrite copy_entry_bit, Hp by lia. cbn. by rewrite orb_true_r.
  - rewrite copy_entry_bit by lia. by rewrite !orb_true_r.
  - rewrite copy_entry_bit by lia. cbn. by rewrite !andb_false_r.
Qed.

(** ** Counting the uses of a frame *)

Definition uses (U : gmap (Z * Z) Z) (f : Z) : Z :=
  Z.of_nat (size (filter (λ kv : (Z * Z) * Z, frame_of kv.2 = f) U)).

Definition is1 (b : bool) : Z := if b then 1 else 0.

Lemma uses_nonneg U f : 0 ≤ uses U f.
Proof. unfold uses. lia. Qed.

Lemma uses_insert_new U k e f :
  U !! k = None → uses (<[k := e]> U) f = uses U f + is1 (bool_decide (frame_of e = f)).
Proof.
  intros Hk. unfold uses. rewrite map_filter_insert. cbn [snd].
  destruct (decide (frame_of e = f)) as [He|He].
  - rewrite bool_decide_eq_true_2 by done. rewrite map_size_insert_None; [cbn; lia|].
    apply map_lookup_filter_None. by left.
  - rewrite bool_decide_eq_false_2 by done. rewrite delete_id; [cbn; lia|done].
Qed.

Lemma uses_delete U k e f :
  U !! k = Some e → uses (delete k U) f = uses U f - is1 (bool_decide (frame_of e = f)).
Proof.
  intros Hk. rewrite <-(insert_delete_id U k e Hk) at 2.
  rewrite uses_insert_new by apply lookup_delete_eq. lia.
Qed.

Lemma uses_insert_old U k e0 e f :
  U !! k = Some e0 →
  uses (<[k := e]> U) f = uses U f + is1 (bool_decide (frame_of e = f)) - is1 (bool_decide (frame_of e0 = f)).
Proof.
  intros Hk. rewrite <-insert_delete_eq, uses_insert_new by apply lookup_delete_eq.
  rewrite (uses_delete U k e0 f Hk). lia.
Qed.

Lemma uses_pos U k e : U !! k = Some e → 1 ≤ uses U (frame_of e).
Proof.
  intros Hk. pose proof (uses_delete U k e (frame_of e) Hk) as Hd.
  rewrite bool_decide_eq_true_2 in Hd by done. pose proof (uses_nonneg (delete k U) (frame_of e)). cbn in Hd. lia.
Qed.

(** Two users make two uses. *)
Lemma uses_two U k k' e e' :
  U !! k = Some e → U !! k' = Some e' → k ≠ k' → frame_of e = frame_of e' → 2 ≤ uses U (frame_of e).
Proof.
  intros Hk Hk' Hne He. pose proof (uses_delete U k e (frame_of e) Hk) as Hd.
  rewrite bool_decide_eq_true_2 in Hd by done. cbn in Hd.
  pose proof (uses_pos (delete k U) k' e' ltac:(by rewrite lookup_delete_ne)) as Hp. rewrite <-He in Hp. lia.
Qed.

Lemma uses_some U f : 0 < uses U f → ∃ k e, U !! k = Some e ∧ frame_of e = f.
Proof.
  intros Hf. unfold uses in Hf.
  destruct (map_choose_or_empty (filter (λ kv : Z * Z * Z, frame_of kv.2 = f) U)) as [(k & e & He)|Hemp].
  - apply map_lookup_filter_Some in He as [He Hef]. eauto.
  - rewrite Hemp, map_size_empty in Hf. lia.
Qed.

Lemma uses_mono (U U' : gmap (Z * Z) Z) f : U ⊆ U' → uses U f ≤ uses U' f.
Proof.
  intros Hs. unfold uses. apply inj_le, map_subseteq_size. by apply map_filter_subseteq_mono.
Qed.

(** * Copy on write: a store of one process is not seen by another

    [spaces_ok s R U K]: the address spaces [R] map pages as [U] says; the count
    of a frame is the number of pages that use it and of the references [K] that
    others keep; and a page that may be written is used once.  Handling a fault
    keeps this and changes no view of memory; a store changes one word of one
    view. *)

(** The word [i] of the page [p] as the address space [r] sees it. *)
Definition view (m : gmap Z Z) (U : gmap (Z * Z) Z) (r p i : Z) : option Z :=
  (λ e, rd_mem m (frame_of e + 8 * i)) <$> U !! (r, p).

Section cow.
Context {S : Type} {FA : FrameAlloc S} {FL : FrameLaws S} {FR : FrameRefs S} {FRL : FrameRefsLaws S}.
Implicit Types (s : vm S) (fr : S) (m : gmap Z Z) (R : gset Z) (U : gmap (Z * Z) Z) (K : Z → Z)
  (r v w f g t p e : Z) (d k : nat).

(** The counts, for the frames that pages use. *)
Definition counted fr U K : Prop :=
  ∀ f, 0 < uses U f → fr_count fr f = uses U f + K f ∧ uses U f + K f < 2 ^ 32.

(** What others keep. *)
Definition kept_by_others fr K : Prop := ∀ f, 0 ≤ K f ∧ (fa_free fr f → K f = 0).

(** A page that may be written has no other user. *)
Definition sole_writers U K : Prop :=
  ∀ r p e, U !! (r, p) = Some e → has e PTE_WRITABLE = true → uses U (frame_of e) + K (frame_of e) = 1.

Record spaces_ok s R U K : Prop := SpacesOk {
  so_shape : shape (vm_frames s) (vm_mem s) R U;
  so_counted : counted (vm_frames s) U K;
  so_others : kept_by_others (vm_frames s) K;
  so_tables : ∀ f, any_table (vm_mem s) R f → K f = 0;
  so_writers : sole_writers U K;
  so_sees : sees (vm_cr3 s) }.

(** *** Frames of others *)

(** A frame in use that is no table and no page of an address space. *)
Definition foreign s R U K f : Prop :=
  frame_addr f ∧ ¬ fa_free (vm_frames s) f ∧ (∀ r w k, r ∈ R → ¬ owned (vm_mem s) r w k f) ∧ uses U f = 0 ∧ K f = 0.

(** Such frames stay in use and keep their contents. *)
Definition untouched s R U K s' R' U' K' : Prop := ∀ f, foreign s R U K f →
  foreign s' R' U' K' f ∧ ∀ i, 0 ≤ i < 512 → rd_mem (vm_mem s') (f + 8 * i) = rd_mem (vm_mem s) (f + 8 * i).

Lemma untouched_refl s R U K : untouched s R U K s R U K.
Proof. by intros f Hf. Qed.

Lemma untouched_trans s R U K s1 R1 U1 K1 s2 R2 U2 K2 :
  untouched s R U K s1 R1 U1 K1 → untouched s1 R1 U1 K1 s2 R2 U2 K2 → untouched s R U K s2 R2 U2 K2.
Proof.
  intros H1 H2 f Hf. destruct (H1 f Hf) as [Hf1 Hw1]. destruct (H2 f Hf1) as [Hf2 Hw2]. split; [done|].
  intros i Hi. by rewrite Hw2, Hw1.
Qed.

Lemma untouched_intro s R U K s' U' K' :
  (∀ f, foreign s R U K f → ¬ fa_free (vm_frames s') f ∧ uses U' f = 0 ∧ K' f = 0 ∧
     (∀ r w k, r ∈ R → owned (vm_mem s') r w k f → owned (vm_mem s) r w k f) ∧
     ∀ i, 0 ≤ i < 512 → rd_mem (vm_mem s') (f + 8 * i) = rd_mem (vm_mem s) (f + 8 * i)) →
  untouched s R U K s' R U' K'.
Proof.
  intros Ht f Hf. destruct (Ht f Hf) as (H1 & H2 & H3 & H4 & H5). destruct Hf as (Ha & _ & Ho & _).
  split; [|done]. split_and!; try done. intros r w k Hr Hown. by apply (Ho r w k), H4.
Qed.

Lemma untouched_kept s R U K s' U' K' r :
  kept r R (vm_frames s) (vm_mem s) (vm_frames s') (vm_mem s') → r ∈ R →
  (∀ f, foreign s R U K f → uses U' f = 0 ∧ K' f = 0) → untouched s R U K s' R U' K'.
Proof.
  intros Hk Hr Hu. apply untouched_intro. intros f Hf. destruct (Hu f Hf) as [Hu1 Hu2].
  destruct Hf as (Ha & Hnf & Ho & _). split_and!; [|done|done| |].
  - by intros ?%(kp_free _ _ _ _ _ _ Hk).
  - intros r' w k Hr' Hown. destruct (decide (r' = r)) as [->|Hne].
    + by destruct (kp_own _ _ _ _ _ _ Hk w k f Hown).
    + destruct Hown as (H1 & H2 & H3). rewrite (kp_others _ _ _ _ _ _ Hk) in H2 by done. by split_and!.
  - intros i Hi. apply (kp_mem _ _ _ _ _ _ Hk); [done|done| |done]. intros w k. by apply Ho.
Qed.

Lemma untouched_frames s R U K fr' U' K' :
  (∀ f, foreign s R U K f → ¬ fa_free fr' f ∧ uses U' f = 0 ∧ K' f = 0) →
  untouched s R U K (set_frames fr' s) R U' K'.
Proof. intros Ht. apply untouched_intro. intros f Hf. by destruct (Ht f Hf) as (? & ? & ?). Qed.

(** ** The entry of a page *)

Lemma mapping_path m r v e :
  mapping m r v = Some (3%nat, e) → ∃ t, table_at m r v 3 = Some t ∧ pte_at m t 3 v = e ∧ has e PTE_PRESENT = true.
Proof.
  unfold mapping. cbn [walk table_at].
  destruct (has (pte_at m r 0 v) PTE_PRESENT); [|done]. destruct (is_table 0 (pte_at m r 0 v)); [|done].
  set (t1 := frame_of (pte_at m r 0 v)). destruct (has (pte_at m t1 1 v) PTE_PRESENT); [|done].
  destruct (is_table 1 (pte_at m t1 1 v)); [|done]. set (t2 := frame_of (pte_at m t1 1 v)).
  destruct (has (pte_at m t2 2 v) PTE_PRESENT); [|done]. destruct (is_table 2 (pte_at m t2 2 v)); [|done].
  destruct (has (pte_at m (frame_of (pte_at m t2 2 v)) 3 v) PTE_PRESENT) eqn:Hp; [|done].
  intros [= <-]. eauto.
Qed.

Lemma table_level m r v d t :
  table_at m r v (Datatypes.S d) = Some t → ∃ t', table_at m r v d = Some t' ∧
    has (pte_at m t' d v) PTE_PRESENT = true ∧ (d ≠ O → has (pte_at m t' d v) PTE_HUGE = false) ∧
    t = frame_of (pte_at m t' d v).
Proof.
  intros (t' & Ht' & Hist & ->)%table_at_up. exists t'. unfold is_table in Hist.
  apply andb_true_iff in Hist as [Hp Hh]. split_and!; [done|done| |done]. intros Hd.
  rewrite (proj2 (Nat.ltb_lt 0 d)) in Hh by lia. by apply negb_true_iff in Hh.
Qed.

Lemma get_pte_for_addr_wp s r cr3 v t (Q : option Z → vm S → Prop) :
  frame_of cr3 = r → own_path (vm_mem s) r v → sees (vm_cr3 s) → table_at (vm_mem s) r v 3 = Some t →
  Q (Some (entry_ptr (phys_to_virt t) (index 3 v))) s → wp (get_pte_for_addr cr3 v) Q s.
Proof.
  intros Hr Hpath Hsees Ht HQ. unfold get_pte_for_addr. cbv zeta. fold (frame_of cr3). rewrite Hr.
  destruct (table_level _ _ _ _ _ Ht) as (t2 & Ht2 & Hp2 & Hh2 & ->).
  destruct (table_level _ _ _ _ _ Ht2) as (t1 & Ht1 & Hp1 & Hh1 & ->).
  destruct (table_level _ _ _ _ _ Ht1) as (t0 & [= <-] & Hp0 & _ & ->).
  change (PML4_INDEX v) with (index 0 v). change (PDPT_INDEX v) with (index 1 v).
  change (PD_INDEX v) with (index 2 v). change (PT_INDEX v) with (index 3 v).
  wp_step. apply rd_entry_wp; [eapply Hsees, (Hpath 0%nat); [lia|done]|apply index_bounds|].
  fold (pte_at (vm_mem s) r 0 v). rewrite Hp0. cbn [negb].
  wp_step. fold (frame_of (pte_at (vm_mem s) r 0 v)).
  apply rd_entry_wp; [eapply Hsees, (Hpath 1%nat); [lia|done]|apply index_bounds|].
  fold (pte_at (vm_mem s) (frame_of (pte_at (vm_mem s) r 0 v)) 1 v). rewrite Hp1, Hh1 by lia. cbn [negb].
  wp_step. fold (frame_of (pte_at (vm_mem s) (frame_of (pte_at (vm_mem s) r 0 v)) 1 v)).
  apply rd_entry_wp; [eapply Hsees, (Hpath 2%nat); [lia|done]|apply index_bounds|].
  fold (pte_at (vm_mem s) (frame_of (pte_at (vm_mem s) (frame_of (pte_at (vm_mem s) r 0 v)) 1 v)) 2 v).
  rewrite Hp2, Hh2 by lia. cbn [negb]. by wp_step.
Qed.

(** ** Copying a page *)

Lemma copy_page_wp s f g (Q : unit → vm S → Prop) :
  seen (vm_cr3 s) f → seen (vm_cr3 s) g → f ≠ g →
  (∀ m1, (∀ i, 0 ≤ i < 512 → rd_mem m1 (g + 8 * i) = rd_mem (vm_mem s) (f + 8 * i)) →
     (∀ h i, frame_addr h → h ≠ g → 0 ≤ i < 512 → rd_mem m1 (h + 8 * i) = rd_mem (vm_mem s) (h + 8 * i)) →
     Q tt (set_mem m1 s)) →
  wp (copy_page f g) Q s.
Proof.
  intros Hfs Hgs Hne HQ. pose proof (seen_addr _ _ Hfs) as Hf. pose proof (seen_addr _ _ Hgs) as Hg.
  unfold copy_page. cbv zeta.
  apply (wp_for (λ j s', ∃ m1, s' = set_mem m1 s ∧
    (∀ i, 0 ≤ i < j → rd_mem m1 (g + 8 * i) = rd_mem (vm_mem s) (f + 8 * i)) ∧
    (∀ h i, frame_addr h → h ≠ g → 0 ≤ i < 512 → rd_mem m1 (h + 8 * i) = rd_mem (vm_mem s) (h + 8 * i)))).
  - exists (vm_mem s). split_and!; [by destruct s|lia|done].
  - intros j s' Hj (m1 & -> & Hc & Ho). wp_step. apply rd_entry_wp; [done|exact Hj|].
    apply wr_entry_wp; [done|exact Hj|]. eexists. split_and!; [done|..]; cbn [vm_mem set_mem].
    + intros i Hi. destruct (decide (i = j)) as [->|].
      * rewrite rd_mem_insert_eq. by apply Ho.
      * rewrite rd_mem_insert_ne by lia. apply Hc. lia.
    + intros h i Hh Hhg Hi. rewrite rd_mem_insert_ne; [by apply Ho|].
      apply word_ne; [done|done|exact Hj|done|]. left. congruence.
  - intros s' (m1 & -> & Hc & Ho). by apply HQ.
Qed.

(** ** A frame gets new contents *)

(** The shape does not depend on frames that hold no table. *)
Lemma shape_mem fr m m' R U :
  (∀ f i, frame_addr f → any_table m R f → 0 ≤ i < 512 → rd_mem m' (f + 8 * i) = rd_mem m (f + 8 * i)) →
  shape fr m R U → shape fr m' R U ∧ (∀ r w k, r ∈ R → (k ≤ 3)%nat → table_at m' r w k = table_at m r w k).
Proof.
  intros Hw Hs.
  assert (∀ r w k f, r ∈ R → (k ≤ 3)%nat → table_at m r w k = Some f → pte_at m' f k w = pte_at m f k w) as He.
  { intros r w k f Hr Hk Hf. apply Hw; [by apply (tr_addr _ _ (sp_tree _ _ _ _ Hs r Hr) w k)| |apply index_bounds].
    by exists r, w, k. }
  assert (∀ r w k, r ∈ R → (k ≤ 3)%nat → table_at m' r w k = table_at m r w k) as Ht.
  { intros r w k Hr Hk. apply table_at_ext. intros j f Hj Hf. apply (He r); [done|lia|done]. }
  split; [|done].
  assert (∀ f, any_table m' R f ↔ any_table m R f) as Ha.
  { intros f. split; intros (r & w & k & Hr & Hk & Hf); exists r, w, k; (split; [done|split; [done|]]).
    - by rewrite Ht in Hf.
    - by rewrite Ht. }
  destruct Hs as [H1 H2 H3 H4 H5 H6 H7 H8]. split.
  - done.
  - intros r Hr. destruct (H2 r Hr) as [Ht1 Ht2]. split.
    + intros w k f Hk. rewrite Ht by done. by apply Ht1.
    + intros w w' j k f Hj Hk. rewrite !Ht by done. by apply Ht2.
  - intros f Hf. by apply H3, Ha.
  - intros r w d f Hr (Hd & Hf & Ho). rewrite Ht in Hf by done. by apply (H4 r w d f).
  - intros r w d f r2 w2 k Hr (Hd & Hf & Ho) Hr2 Hk Hf2. rewrite Ht in Hf, Hf2 by done. by apply (H5 r w d f r2 w2 k).
  - intros r w Hr Hv. rewrite <-(H6 r w Hr Hv). apply mapping_ext. intros j f Hj Hf. by apply (He r).
  - done.
  - intros r p e Hpe. rewrite Ha. by apply (H8 r p).
Qed.

(** The frames in use change, the ones that the shape speaks of stay. *)
Lemma shape_frames fr fr' m R U :
  fa_inv fr' → (∀ f, any_table m R f → ¬ fa_free fr' f) →
  (∀ f, fa_held fr f → any_table m R f ∨ 0 < uses U f → fa_held fr' f) →
  shape fr m R U → shape fr' m R U.
Proof.
  intros Hinv Hf Hh [H1 H2 H3 H4 H5 H6 H7 H8]. split; try done.
  - intros r v d f Hr Ho. apply Hh; [by apply (H4 r v d f)|]. left. exists r, v, d. by destruct Ho as (? & ? & _).
  - intros r p e He. destruct (H8 r p e He) as [Hhe Hn]. split; [|done]. apply Hh; [done|]. right.
    pose proof (uses_pos U (r, p) e He). lia.
Qed.

(** ** The fault *)

Lemma spaces_entry s R U K r p e :
  spaces_ok s R U K → U !! (r, p) = Some e →
  fa_held (vm_frames s) (frame_of e) ∧ ¬ any_table (vm_mem s) R (frame_of e) ∧ frame_addr (frame_of e) ∧
  1 ≤ uses U (frame_of e) ∧ fr_count (vm_frames s) (frame_of e) = uses U (frame_of e) + K (frame_of e) ∧
  uses U (frame_of e) + K (frame_of e) < 2 ^ 32 ∧ 0 ≤ K (frame_of e).
Proof.
  intros [Hs Hc Ho _ _ _] He. destruct (sp_data _ _ _ _ Hs r p e He) as [Hh Hn].
  pose proof (uses_pos U _ e He) as Hu. destruct (Hc (frame_of e)) as [H1 H2]; [lia|]. destruct (Ho (frame_of e)).
  split_and!; try done. by apply (fa_held_addr _ _ (sp_inv _ _ _ _ Hs)).
Qed.

(** Writing the entry of a page that keeps its frame. *)
Lemma views_keep m m' U r p e e' :
  U !! (r, p) = Some e → frame_of e' = frame_of e →
  (∀ r' q x i, U !! (r', q) = Some x → 0 ≤ i < 512 →
     rd_mem m' (frame_of x + 8 * i) = rd_mem m (frame_of x + 8 * i)) →
  ∀ r' q i, 0 ≤ i < 512 → view m' (<[(r, p) := e']> U) r' q i = view m U r' q i.
Proof.
  intros He Hf Hw r' q i Hi. unfold view. destruct (decide ((r', q) = (r, p))) as [[= -> ->]|Hne].
  - rewrite lookup_insert_eq, He. cbn. by rewrite Hf, (Hw r p e).
  - rewrite lookup_insert_ne by congruence. destruct (U !! (r', q)) as [x|] eqn:Hx; [|done]. cbn.
    by rewrite (Hw r' q x).
Qed.

(** The only user of a page. *)
Lemma cow_own s R U K r v t e :
  spaces_ok s R U K → r ∈ R → user v → table_at (vm_mem s) r v 3 = Some t → U !! (r, vpn v) = Some e →
  has e PTE_PRESENT = true → fr_count (vm_frames s) (frame_of e) = 1 →
  let m' := <[t + 8 * index 3 v := own_entry e]> (vm_mem s) in
  spaces_ok (set_mem m' s) R (<[(r, vpn v) := own_entry e]> U) K ∧
  (∀ r' q i, 0 ≤ i < 512 → view m' (<[(r, vpn v) := own_entry e]> U) r' q i = view (vm_mem s) U r' q i) ∧
  untouched s R U K (set_mem m' s) R (<[(r, vpn v) := own_entry e]> U) K.
Proof.
  intros Hok Hr Hv Ht He Hp H1 m'. pose proof Hok as [Hs Hc Ho Htb Hw].
  destruct (spaces_entry s R U K _ _ e Hok He) as (Hh & Hn & Ha & Hu & Hcnt & Hlt & HK).
  destruct (own_entry_props e Hp) as (Hf & Hp' & Hwr & _).
  assert (∀ f, uses (<[(r, vpn v) := own_entry e]> U) f = uses U f) as Huse.
  { intros f. rewrite (uses_insert_old U _ e) by done. rewrite Hf. lia. }
  split; [split; cbn [vm_frames vm_mem set_mem]|split].
  - apply leaf_set; [done|done|done|done|done|by rewrite Hf..].
  - intros f. rewrite Huse. apply Hc.
  - done.
  - intros f Hft. apply Htb. by eapply leaf_any_table.
  - intros r' p' x [[[= <- <-] <-]|[_ Hx]]%lookup_insert_Some Hxw; rewrite Huse; [rewrite Hf; lia|by eapply Hw].
  - apply Hok.
  - apply (views_keep _ _ _ _ _ e); [done|done|]. intros r' q x i Hx Hi.
    destruct (spaces_entry s R U K _ _ x Hok Hx) as (_ & Hxn & Hxa & _).
    eapply leaf_words; [done|done|done|done|done|]. intros Heq. apply Hxn. rewrite Heq. by exists r, v, 3%nat.
  - apply (untouched_kept s R U K _ _ K r); [by apply (leaf_kept _ _ _ U)|done|].
    intros f (_ & _ & _ & Huf & HKf). by rewrite Huse.
Qed.

(** Taking a frame. *)
Lemma spaces_alloc s R U K g fr :
  spaces_ok s R U K → fa_inv fr → fa_free (vm_frames s) g →
  (∀ f, fa_free fr f ↔ fa_free (vm_frames s) f ∧ f ≠ g) →
  (∀ f, fa_held fr f ↔ fa_held (vm_frames s) f ∨ f = g) →
  (∀ f, fa_held (vm_frames s) f → fr_count fr f = fr_count (vm_frames s) f) →
  spaces_ok (set_frames fr s) R U K ∧ uses U g = 0 ∧ K g = 0 ∧ ¬ any_table (vm_mem s) R g.
Proof.
  intros Hok Hinv Hg Hfree Hheld Hcnt. pose proof Hok as [Hs Hc Ho Htb Hw].
  assert (∀ f, 0 < uses U f → fa_held (vm_frames s) f) as Hused.
  { intros f Hf. destruct (uses_some U f Hf) as ([r p] & e & He & <-). by apply (sp_data _ _ _ _ Hs r p). }
  assert (uses U g = 0) as Hug.
  { destruct (decide (0 < uses U g)) as [Hpos|]; [|pose proof (uses_nonneg U g); lia].
    by destruct (fa_held_not_free _ _ (sp_inv _ _ _ _ Hs) (Hused g Hpos)). }
  split_and!.
  - split; cbn [vm_frames vm_mem set_frames].
    + eapply shape_frames; [done| | |exact Hs].
      * intros f Hf [Hff _]%Hfree. by apply (sp_tables _ _ _ _ Hs f).
      * intros f Hf _. apply Hheld. by left.
    + intros f Hf. rewrite Hcnt by by apply Hused. by apply Hc.
    + intros f. destruct (Ho f). split; [done|]. intros [? _]%Hfree. auto.
    + done.
    + done.
    + apply Hok.
  - done.
  - by apply Ho.
  - intros Ht. by apply (sp_tables _ _ _ _ Hs g).
Qed.

(** A copy at [g], and one reference less to the page. *)
Lemma cow_copy s R U K r v t e g m1 fr2 :
  spaces_ok s R U K → r ∈ R → user v → table_at (vm_mem s) r v 3 = Some t → U !! (r, vpn v) = Some e →
  has e PTE_PRESENT = true → fr_count (vm_frames s) (frame_of e) ≠ 1 →
  fa_held (vm_frames s) g → fr_count (vm_frames s) g = 1 → uses U g = 0 → K g = 0 → ¬ any_table (vm_mem s) R g →
  (∀ i, 0 ≤ i < 512 → rd_mem m1 (g + 8 * i) = rd_mem (vm_mem s) (frame_of e + 8 * i)) →
  (∀ h i, frame_addr h → h ≠ g → 0 ≤ i < 512 → rd_mem m1 (h + 8 * i) = rd_mem (vm_mem s) (h + 8 * i)) →
  fa_inv fr2 → (∀ h, fa_free fr2 h ↔ fa_free (vm_frames s) h) → (∀ h, fa_held fr2 h ↔ fa_held (vm_frames s) h) →
  (∀ h, fa_held (vm_frames s) h →
     fr_count fr2 h = fr_count (vm_frames s) h - if decide (h = frame_of e) then 1 else 0) →
  let U' := <[(r, vpn v) := copy_entry e g]> U in
  let m2 := <[t + 8 * index 3 v := copy_entry e g]> m1 in
  spaces_ok (Vm fr2 m2 (vm_cr3 s)) R U' K ∧
  (∀ r' q i, 0 ≤ i < 512 → view m2 U' r' q i = view (vm_mem s) U r' q i) ∧
  ∀ f, foreign s R U K f → f ≠ g → foreign (Vm fr2 m2 (vm_cr3 s)) R U' K f ∧
    ∀ i, 0 ≤ i < 512 → rd_mem m2 (f + 8 * i) = rd_mem (vm_mem s) (f + 8 * i).
Proof.
  intros Hok Hr Hv Ht He Hp Hn1 Hg Hg1 Hug HKg Hgt Hcopy Hother Hinv2 Hfree2 Hheld2 Hcnt2 U' m2.
  pose proof Hok as [Hs Hc Ho Htb Hw].
  destruct (spaces_entry s R U K _ _ e Hok He) as (Hh & Hn & Ha & Hu & Hcnt & Hlt & HK).
  pose proof (fa_held_addr _ _ (sp_inv _ _ _ _ Hs) Hg) as Hga.
  destruct (copy_entry_props e g Hp Hga) as (Hf & Hp' & Hwr & _).
  assert (frame_of e ≠ g) as Hne by (intros Heq; rewrite Heq in Hu; lia).
  destruct (shape_mem (vm_frames s) (vm_mem s) m1 R U) as [Hs1 Ht1]; [|done|].
  { intros f i Hfa Hft Hi. apply Hother; [done| |done]. by intros ->. }
  assert (table_at m1 r v 3 = Some t) as Htm1 by by rewrite Ht1.
  assert (¬ any_table m1 R g) as Hgt1.
  { intros (r' & w & k & Hr' & Hk & Hfk). apply Hgt. exists r', w, k. by rewrite Ht1 in Hfk. }
  assert (∀ f, uses U' f = uses U f + is1 (bool_decide (g = f)) - is1 (bool_decide (frame_of e = f))) as Huse.
  { intros f. unfold U'. by rewrite (uses_insert_old U _ e), Hf by done. }
  assert (∀ f, f ≠ g → f ≠ frame_of e → uses U' f = uses U f) as Hsame.
  { intros f H1 H2. rewrite Huse, !bool_decide_eq_false_2 by congruence. cbn. lia. }
  assert (uses U' g = 1) as Hug'.
  { rewrite Huse, bool_decide_eq_true_2, bool_decide_eq_false_2 by done. cbn. lia. }
  assert (uses U' (frame_of e) = uses U (frame_of e) - 1) as Hue'.
  { rewrite Huse, bool_decide_eq_false_2, bool_decide_eq_true_2 by congruence. cbn. lia. }
  split; [split; cbn [vm_frames vm_mem]|split].
  - eapply shape_frames; [done| | |].
    3:{ unfold m2, U'. eapply leaf_set; [exact Hs1|done|done|done|done|by rewrite Hf..]. }
    + intros f Hft Hff%Hfree2. apply (sp_tables _ _ _ _ Hs1 f); [|done]. by eapply leaf_any_table.
    + intros f Hfh _. by apply Hheld2.
  - intros f Hf0. destruct (decide (f = g)) as [->|Hfg].
    + rewrite Hcnt2, decide_False, Hug', HKg, Hg1 by (congruence || done). lia.
    + destruct (decide (f = frame_of e)) as [->|Hfe].
      * rewrite Hcnt2, decide_True, Hue', Hcnt by done. lia.
      * rewrite Hsame in Hf0 |- * by done. destruct (Hc f Hf0) as [Hcf Hcl]. split; [|done].
        rewrite Hcnt2, decide_False; [lia|done|].
        destruct (uses_some U f Hf0) as ([r' p'] & x & Hx & <-). by apply (sp_data _ _ _ _ Hs r' p').
  - intros f. rewrite Hfree2. apply Ho.
  - intros f Hft. apply Htb. apply (leaf_any_table (vm_frames s) m1 R U r v t) in Hft as (r' & w & k & Hr' & Hk & Hfk);
      [|done..]. exists r', w, k. by rewrite Ht1 in Hfk.
  - intros r' p' x [[[= <- <-] <-]|[_ Hx]]%lookup_insert_Some Hxw; [rewrite Hf; lia|].
    specialize (Hw r' p' x Hx Hxw). pose proof (uses_pos U _ x Hx) as Hx1.
    rewrite Hsame; [done| |]; intros Heq; rewrite Heq in Hw, Hx1; lia.
  - apply Hok.
  - intros r' q i Hi. unfold view, U'. destruct (decide ((r', q) = (r, vpn v))) as [[= -> ->]|Hq].
    + rewrite lookup_insert_eq, He. cbn. rewrite Hf. f_equal. unfold m2.
      rewrite (leaf_words (vm_frames s) m1 R U r v t); [by apply Hcopy|done..|].
      intros ->. apply Hgt1. by exists r, v, 3%nat.
    + rewrite lookup_insert_ne by congruence. destruct (U !! (r', q)) as [x|] eqn:Hx; [|done]. cbn. f_equal.
      destruct (spaces_entry s R U K _ _ x Hok Hx) as (_ & Hxn & Hxa & Hxu & _).
      unfold m2. rewrite (leaf_words (vm_frames s) m1 R U r v t); [|done..|].
      * apply Hother; [done| |done]. intros Heq. rewrite Heq in Hxu. lia.
      * intros Heq. apply Hxn. rewrite Heq. by exists r, v, 3%nat.
  - intros f (Hfa & Hff & Hfo & Hfu & HfK) Hfg. assert (f ≠ frame_of e) as Hfe by (intros ->; lia). split.
    + split_and!; cbn [vm_frames vm_mem]; [done|by rewrite Hfree2| |by rewrite Hsame|done].
      intros r' w k Hr' (H1 & H2 & H3). apply (Hfo r' w k Hr'). unfold m2 in H2.
      rewrite (leaf_table_at (vm_frames s) m1 R U r v t), Ht1 in H2 by done. by split_and!.
    + intros i Hi. unfold m2. rewrite (leaf_words (vm_frames s) m1 R U r v t); [by apply Hother|done..|].
      intros ->. apply (Hfo r v 3%nat Hr). split_and!; [lia|done|by right].
Qed.

(** Handling the fault at a page that is to be copied: the page becomes writable
    for this address space, all views stay, or there is no frame for the copy. *)
Lemma handle_cow_fault_wp s R U K v e :
  let r := frame_of (vm_cr3 s) in
  spaces_ok s R U K → r ∈ R → 0 ≤ v < 2 ^ 64 → user v → U !! (r, vpn v) = Some e → has e PTE_COW = true →
  wp (handle_cow_fault v) (λ res s', vm_cr3 s' = vm_cr3 s ∧
    ((res = -1 ∧ s' = s ∧ ∀ f, ¬ fa_free (vm_frames s) f) ∨
     (res = 0 ∧ ∃ e', has e' PTE_WRITABLE = true ∧ has e' PTE_COW = false ∧
        spaces_ok s' R (<[(r, vpn v) := e']> U) K ∧
        (∀ r' q i, 0 ≤ i < 512 → view (vm_mem s') (<[(r, vpn v) := e']> U) r' q i = view (vm_mem s) U r' q i) ∧
        untouched s R U K s' R (<[(r, vpn v) := e']> U) K))) s.
Proof.
  intros r Hok Hr Hv Hu He Hcow. pose proof Hok as [Hs _ _ _ _ Hsees]. pose proof (page_of_vpn v Hv) as Hpv.
  pose proof (page_of_user v Hv Hu) as Hu'.
  pose proof (sp_map _ _ _ _ Hs r (page_of v) Hr Hu') as Hmap. rewrite Hpv, He in Hmap. cbn in Hmap.
  destruct (mapping_path _ _ _ _ Hmap) as (t & Ht & Hte & Hp).
  destruct (spaces_entry s R U K _ _ e Hok He) as (Hh & Hn & Ha & Hue & Hcnt & Hlt & HK).
  pose proof (leaf_seen _ _ _ _ _ _ _ _ Hs Hsees Hr Hu' Ht) as Hts. pose proof (seen_addr _ _ Hts) as Hta.
  unfold handle_cow_fault. cbv zeta. wp_step. wp_step. wp_step.
  apply (get_pte_for_addr_wp _ r _ _ t); [done|by eapply shape_path|done|done|]. cbv iota.
  wp_step. apply rd_entry_wp; [done|apply index_bounds|]. fold (pte_at (vm_mem s) t 3 (page_of v)).
  rewrite Hte, Hp, Hcow. cbn [negb orb]. fold (frame_of e).
  wp_step. apply on_frames_wp. eapply wp_mono; [by apply fr_refcount_law; [apply Hs|]|].
  intros c fr (-> & ->). cbv beta iota. replace (set_frames (vm_frames s) s) with s by by destruct s.
  destruct (Z.eqb_spec (fr_count (vm_frames s) (frame_of e)) 1) as [H1|H1].
  { wp_step. apply wr_entry_wp; [done|apply index_bounds|]. wp_step. split; [done|]. right. split; [done|].
    destruct (own_entry_props e Hp) as (_ & _ & Hwr & Hnc). fold (own_entry e). exists (own_entry e).
    rewrite <-Hpv. rewrite <-Hpv in He.
    destruct (cow_own s R U K r (page_of v) t e) as (Hok' & Hview & Hun); done. }
  wp_step. apply on_frames_wp. eapply wp_mono; [apply fr_alloc_law, Hs|].
  intros g fr1 (Hinv1 & [(-> & -> & Hno)|(Hg & Hfree1 & Hheld1 & Hg1 & Hcnt1)]).
  { cbn [Z.eqb]. wp_step. split; [done|]. left. split_and!; [done|by destruct s|done]. }
  destruct (spaces_alloc s R U K g fr1 Hok Hinv1 Hg Hfree1 Hheld1 Hcnt1) as (Hok1 & Hug & HKg & Hgt).
  pose proof (fa_free_addr _ _ (sp_inv _ _ _ _ Hs) Hg) as Hga.
  assert (frame_of e ≠ g) as Hne by (intros Heq; rewrite Heq in Hue; lia).
  rewrite (proj2 (Z.eqb_neq g 0)) by (destruct Hga; lia).
  wp_step. apply copy_page_wp; [by apply Hsees, (fa_held_in _ _ (sp_inv _ _ _ _ Hs))
    |by apply Hsees, (fa_free_in _ _ (sp_inv _ _ _ _ Hs))|done|]. intros m1 Hcopy Hother.
  cbn [vm_mem set_frames] in Hcopy, Hother.
  wp_step. apply rd_entry_wp; [done|apply index_bounds|]. cbn [vm_mem set_mem set_frames].
  rewrite Hother; [|done|intros ->; apply Hgt; by exists r, (page_of v), 3%nat|apply index_bounds].
  fold (pte_at (vm_mem s) t 3 (page_of v)). rewrite Hte.
  wp_step. apply wr_entry_wp; [done|apply index_bounds|]. fold (copy_entry e g).
  cbn [vm_mem vm_frames vm_cr3 set_mem set_frames].
  wp_step. apply on_frames_wp. cbn [vm_mem vm_frames vm_cr3 set_mem set_frames].
  assert (fr_count fr1 (frame_of e) = fr_count (vm_frames s) (frame_of e)) as Hce by by apply Hcnt1.
  eapply wp_mono; [apply fr_put_law; [done|apply Hheld1; by left|lia]|].
  intros c fr2 (_ & Hinv2 & Hfree2 & Hheld2 & Hcnt2). wp_step. cbn [vm_mem vm_frames vm_cr3 set_mem set_frames].
  destruct (copy_entry_props e g Hp Hga) as (_ & _ & Hwr & Hnc).
  split; [done|]. right. split; [done|]. exists (copy_entry e g).
  split; [done|]. split; [done|]. rewrite <-Hpv. rewrite <-Hpv in He.
  destruct (cow_copy (set_frames fr1 s) R U K r (page_of v) t e g m1 fr2) as (Hok2 & Hview2 & Hfor2);
    cbn [vm_mem vm_frames set_frames] in *; try done; rewrite ?Hce; try done.
  - apply Hheld1. by right.
  - intros h. rewrite Hfree2, Hce. split; [|by left]. intros [?|[_ ?]]; [done|lia].
  - intros h. rewrite Hheld2, Hce. split; [by intros [? _]|]. intros ?. split; [done|]. intros [_ ?]. lia.
  - intros h Hh1. rewrite Hcnt2; [done|]. apply Hheld2. split; [done|]. rewrite Hce. intros [_ ?]. lia.
  - split; [done|]. split; [done|]. intros f (Hfa & Hff & Hfo & Hfu & HfK). apply Hfor2; [|by intros ->].
    split_and!; try done. by intros [? _]%Hfree1.
Qed.

(** ** Stores of a program *)

(** The word of its page that an address names. *)
Definition word_of (v : Z) : Z := PAGE_OFFSET v / 8.

Lemma word_of_spec v : v mod 8 = 0 → PAGE_OFFSET v = 8 * word_of v ∧ 0 ≤ word_of v < 512.
Proof.
  intros H8. unfold word_of, PAGE_OFFSET. change 0xFFF with (Z.ones 12). rewrite Z.land_ones by lia.
  Z.to_euclidean_division_equations. lia.
Qed.

(** Memory as all address spaces see it, with one word of one of them changed. *)
Definition stored (m m' : gmap Z Z) (U U' : gmap (Z * Z) Z) (r v x : Z) : Prop :=
  ∀ r' q i, 0 ≤ i < 512 → view m' U' r' q i =
    if decide (r' = r ∧ q = vpn v ∧ i = word_of v) then Some x else view m U r' q i.

Lemma store_through_wp s R U K v x e :
  let r := frame_of (vm_cr3 s) in
  spaces_ok s R U K → r ∈ R → user v → v mod 8 = 0 → U !! (r, vpn v) = Some e → has e PTE_WRITABLE = true →
  wp (store_through v x) (λ ok s', vm_cr3 s' = vm_cr3 s ∧ ok = true ∧ (spaces_ok s' R U K ∧
    stored (vm_mem s) (vm_mem s') U U r v x) ∧ untouched s R U K s' R U K) s.
Proof.
  intros r Hok Hr Hu H8 He Hw. pose proof Hok as [Hs Hc Ho Htb Hsw].
  destruct (spaces_entry s R U K _ _ e Hok He) as (Hh & Hn & Ha & Hue & Hcnt & Hlt & HK).
  destruct (word_of_spec v H8) as [Hoff Hi].
  unfold store_through. wp_step. wp_step. fold r. rewrite (sp_map _ _ _ _ Hs r v Hr Hu), He. cbn [fmap option_fmap option_map]. rewrite Hw. wp_step. wp_step. wp_step.
  split; [done|]. split; [done|]. rewrite Hoff.
  assert (∀ f i, frame_addr f → 0 ≤ i < 512 → f ≠ frame_of e →
    rd_mem (<[frame_of e + 8 * word_of v := x]> (vm_mem s)) (f + 8 * i) = rd_mem (vm_mem s) (f + 8 * i)) as Hkeep.
  { intros f i Hf Hi' Hne. apply rd_mem_insert_ne, word_ne; [done|done|done|done|]. left. congruence. }
  destruct (shape_mem (vm_frames s) (vm_mem s) (<[frame_of e + 8 * word_of v := x]> (vm_mem s)) R U)
    as [Hs' Hts].
  { intros f i Hf Hft Hi'. apply Hkeep; [done|done|]. by intros ->. }
  { done. }
  split; [split|].
  - split; [done|done|done| |done|apply Hok]. intros f (r' & w & k & Hr' & Hk & Hfk). apply Htb. exists r', w, k.
      split; [done|]. split; [done|]. rewrite <-Hfk. symmetry. by apply Hts.
  - intros r' q i Hi'. cbn [vm_mem set_mem]. unfold view.
    destruct (decide ((r', q) = (r, vpn v))) as [[= -> ->]|Hq].
    + rewrite He. cbn. destruct (decide (i = word_of v)) as [->|Hne].
      * rewrite decide_True by done. by rewrite rd_mem_insert_eq.
      * rewrite decide_False by tauto. rewrite rd_mem_insert_ne; [done|]. lia.
    + rewrite decide_False by (intros (-> & -> & _); done). destruct (U !! (r', q)) as [y|] eqn:Hy; [|done]. cbn.
      f_equal. destruct (spaces_entry s R U K _ _ y Hok Hy) as (_ & _ & Hya & _). apply Hkeep; [done|done|].
      intros Heq. pose proof (uses_two U (r, vpn v) (r', q) e y He Hy ltac:(congruence) (eq_sym Heq)).
      specialize (Hsw _ _ e He Hw). lia.
  - apply untouched_intro. intros f (Hfa & Hff & Hfo & Hfu & HfK). split_and!; [done|done|done| |].
    + intros r' w k Hr' (H1 & H2 & H3). cbn [vm_mem set_mem] in H2. rewrite Hts in H2 by done. by split_and!.
    + intros i Hi'. apply Hkeep; [done|done|]. intros ->. lia.
Qed.

(** A program stores a word at an address of a page that it may write, or that
    is to be copied.  The store is done, this program sees the word and nothing
    else changes for any program; or a copy was needed and no frame is free. *)
Lemma user_store_wp s R U K v x e :
  let r := frame_of (vm_cr3 s) in
  spaces_ok s R U K → r ∈ R → 0 ≤ v < 2 ^ 64 → user v → v mod 8 = 0 → U !! (r, vpn v) = Some e →
  has e PTE_WRITABLE = true ∨ has e PTE_COW = true →
  wp (user_store v x) (λ ok s', vm_cr3 s' = vm_cr3 s ∧
    ((ok = false ∧ s' = s ∧ ∀ f, ¬ fa_free (vm_frames s) f) ∨
    (ok = true ∧ ∃ U', spaces_ok s' R U' K ∧ stored (vm_mem s) (vm_mem s') U U' r v x ∧
       untouched s R U K s' R U' K))) s.
Proof.
  intros r Hok Hr Hv Hu H8 He Hwc. unfold user_store. wp_step.
  destruct (has e PTE_WRITABLE) eqn:Hw.
  { eapply wp_mono; [by eapply store_through_wp|]. intros ok s' (Hcr & -> & [Hok' Hst] & Hun). wp_step.
    split; [done|]. right. split; [done|]. by exists U. }
  destruct Hwc as [?|Hcow]; [done|]. pose proof (so_shape _ _ _ _ Hok) as Hs.
  pose proof (sp_map _ _ _ _ Hs r v Hr Hu) as Hmap. rewrite He in Hmap.
  cbn [fmap option_fmap option_map] in Hmap.
  unfold store_through at 1. wp_step. wp_step. fold r. rewrite Hmap, Hw. wp_step. wp_step. wp_step. fold r.
  rewrite Hmap, Hcow. wp_step. eapply wp_mono; [by eapply handle_cow_fault_wp|].
  intros res s1 (Hc3 & [(-> & -> & Hno)|(-> & e' & Hw' & _ & Hok1 & Hview & Hun1)]).
  { change (-1 =? 0) with false. cbv iota. wp_step. split; [done|]. by left. }
  cbn [Z.eqb]. fold r in Hok1, Hview, Hun1. assert (r = frame_of (vm_cr3 s1)) as Hr1 by (unfold r; by rewrite Hc3).
  eapply wp_mono.
  { eapply (store_through_wp s1 R _ K v x e'); [exact Hok1|by rewrite <-Hr1|done|done| |done].
    rewrite <-Hr1. apply lookup_insert_eq. }
  intros ok s2 (Hc2 & -> & [Hok2 Hst] & Hun2). split; [congruence|]. right. split; [done|]. eexists.
  split; [exact Hok2|]. split; [|by eapply untouched_trans]. intros r' q i Hi. rewrite (Hst r' q i Hi), <-Hr1. destruct (decide _); [done|]. by apply Hview.
Qed.

End cow.
