(* ===== verification/AsDestroy.v ===== *)
(** * Address spaces: giving one up

    as_destroy walks the lower half of the tables and gives back every page (one
    reference) and every table.  Afterwards the address space is gone, the frames
    of its tables are free, the pages that nobody else uses are free, and all
    other address spaces are as before. *)

From stdpp Require Import gmap.
From S2P Require Import Prelude Frames Vmm VmmInv VmmThm As AsInv Cow.

(** ** Pages and the tables that cover them *)

(** The first address of the page [p]. *)
Definition va (p : Z) : Z := p * PAGE_SIZE.

(** The pages below an entry of a table of level [n] (0 is a PT). *)
Definition span (n : nat) : Z := 512 ^ Z.of_nat n.

Lemma span_pos n : 0 < span n.
Proof. unfold span. apply Z.pow_pos_nonneg; lia. Qed.

Lemma span_S n : span (S n) = 512 * span n.
Proof. unfold span. rewrite Nat2Z.inj_succ, Z.pow_succ_r by lia. done. Qed.

Lemma span_add a b : span (a + b) = span a * span b.
Proof. unfold span. rewrite Nat2Z.inj_add, Z.pow_add_r by lia. done. Qed.

Lemma vpn_va p : 0 ≤ p < 2 ^ 36 → vpn (va p) = p.
Proof. intros Hp. unfold vpn, va. rewrite Z.div_mul by done. apply Z.mod_small. lia. Qed.

Lemma user_va p : 0 ≤ p < 2 ^ 35 → user (va p).
Proof. intros Hp. unfold user. rewrite vpn_va; lia. Qed.

Lemma index_va n p : (n ≤ 3)%nat → 0 ≤ p < 2 ^ 36 → index (3 - n) (va p) = (p / span n) mod 512.
Proof.
  intros Hn Hp. rewrite index_vpn by lia. rewrite vpn_va by done. f_equal. f_equal. unfold span.
  destruct n as [|[|[|[|]]]]; [reflexivity..|lia].
Qed.

Lemma prefix_va n p q :
  (n ≤ 3)%nat → 0 ≤ p < 2 ^ 36 → 0 ≤ q < 2 ^ 36 → p / span (S n) = q / span (S n) →
  same_prefix (3 - n) (va p) (va q).
Proof.
  intros Hn Hp Hq He k Hk. replace k with (3 - (3 - k))%nat by lia. rewrite !index_va by lia.
  replace (3 - k)%nat with (S n + (2 - k - n))%nat by lia. rewrite span_add.
  pose proof (span_pos (S n)). pose proof (span_pos (2 - k - n)). rewrite <-!Z.div_div by lia. by rewrite He.
Qed.

(** The pages [b, b + span (S n)) of a table of level [n]. *)
Definition block_of (n : nat) (b : Z) : Prop := 0 ≤ b ∧ b mod span (S n) = 0 ∧ b + span (S n) ≤ 2 ^ 35.

Lemma block_div n b q : block_of n b → b ≤ q < b + span (S n) → q / span (S n) = b / span (S n).
Proof.
  intros (_ & Hm & _) Hq. pose proof (span_pos (S n)). symmetry. apply Z.div_unique with (q - b); [lia|].
  pose proof (Z.div_mod b (span (S n)) ltac:(lia)). lia.
Qed.

Section destroy.
Context {S : Type} {FA : FrameAlloc S} {FL : FrameLaws S} {FR : FrameRefs S} {FRL : FrameRefsLaws S}.
Context (m : gmap Z Z) (R : gset Z) (U0 : gmap (Z * Z) Z) (K : Z → Z) (r : Z) (fr0 : S).
Hypothesis Hshape : shape fr0 m R U0.
Hypothesis Hr : r ∈ R.
Hypothesis HK : ∀ f, any_table m R f → K f = 0.
Implicit Types (fr : S) (U : gmap (Z * Z) Z) (T : Z → Prop) (b p q f g t e i : Z) (n d k : nat).

(** *** Walks by page number *)

Lemma page_map q : 0 ≤ q < 2 ^ 35 → mapping m r (va q) = (λ e, (3%nat, e)) <$> U0 !! (r, q).
Proof. intros Hq. rewrite (sp_map _ _ _ _ Hshape r _ Hr (user_va q Hq)). by rewrite vpn_va by lia. Qed.

Lemma table_block n b q :
  (n ≤ 2)%nat → block_of n b → b ≤ q < b + span (Datatypes.S n) →
  table_at m r (va q) (3 - n) = table_at m r (va b) (3 - n).
Proof.
  intros Hn Hb Hq. apply table_at_prefix. pose proof Hb as (? & _ & ?). apply prefix_va; [lia|lia|lia|].
  by apply block_div.
Qed.

Lemma absent_pages n t q :
  (n ≤ 3)%nat → table_at m r (va q) (3 - n) = Some t → 0 ≤ q < 2 ^ 35 →
  has (pte_at m t (3 - n) (va q)) PTE_PRESENT = false →
  U0 !! (r, q) = None ∧ ∀ k, (3 - n < k)%nat → table_at m r (va q) k = None.
Proof.
  intros Hn Ht Hq Hp. split.
  - assert (mapping m r (va q) = None) as Hm.
    { rewrite (walk_table _ _ _ (3 - n) t) by (done || lia). replace (3 - (3 - n))%nat with n by lia.
      destruct n; cbn [walk]; by rewrite Hp. }
    rewrite page_map in Hm by done. by destruct (U0 !! (r, q)).
  - intros k Hk. induction k as [|k IH]; [lia|]. cbn [table_at].
    destruct (decide (k = 3 - n)%nat) as [->|]; [|by rewrite IH by lia]. by rewrite Ht, pte_absent.
Qed.

Lemma present_table n t q :
  (0 < n ≤ 3)%nat → table_at m r (va q) (3 - n) = Some t → 0 ≤ q < 2 ^ 35 →
  has (pte_at m t (3 - n) (va q)) PTE_PRESENT = true →
  ((n ≤ 2)%nat → has (pte_at m t (3 - n) (va q)) PTE_HUGE = false) ∧
  table_at m r (va q) (3 - (n - 1)) = Some (frame_of (pte_at m t (3 - n) (va q))).
Proof.
  intros Hn Ht Hq Hp.
  assert (is_table (3 - n) (pte_at m t (3 - n) (va q)) = true) as Hist.
  { destruct (is_table (3 - n) (pte_at m t (3 - n) (va q))) eqn:Hi; [done|]. exfalso.
    assert (mapping m r (va q) = Some ((3 - n)%nat, pte_at m t (3 - n) (va q))) as Hm.
    { rewrite (walk_table _ _ _ (3 - n) t) by (done || lia).
      replace (3 - (3 - n))%nat with (Datatypes.S (n - 1)) by lia. cbn [walk]. by rewrite Hp, Hi. }
    rewrite page_map in Hm by done. destruct (U0 !! (r, q)); [|done]. injection Hm. lia. }
  split.
  - intros Hn2. unfold is_table in Hist. apply andb_true_iff in Hist as [_ Hh].
    rewrite (proj2 (Nat.ltb_lt 0 (3 - n))) in Hh by lia. by apply negb_true_iff in Hh.
  - replace (3 - (n - 1))%nat with (Datatypes.S (3 - n)) by lia. cbn [table_at]. by rewrite Ht, Hist.
Qed.

Lemma present_page t q :
  table_at m r (va q) 3 = Some t → 0 ≤ q < 2 ^ 35 → has (pte_at m t 3 (va q)) PTE_PRESENT = true →
  U0 !! (r, q) = Some (pte_at m t 3 (va q)).
Proof.
  intros Ht Hq Hp. pose proof (page_map q Hq) as Hm. rewrite (walk_table _ _ _ 3 t) in Hm by done.
  cbn [Nat.sub walk] in Hm. rewrite Hp in Hm. destruct (U0 !! (r, q)); [|done]. by injection Hm as ->.
Qed.

(** *** The invariant while the address space is taken apart

    [U] is what is left of the pages and [T] holds the tables that are left. *)
Record dying fr U T : Prop := Dying {
  dy_inv : fa_inv fr;
  dy_tables : ∀ f, T f → fa_held fr f ∧ any_table m R f;
  dy_other : ∀ r' v d f, r' ∈ R → r' ≠ r → (d ≤ 3)%nat → table_at m r' v d = Some f →
    ¬ fa_free fr f ∧ (d = O ∨ user v → fa_held fr f);
  dy_sub : ∀ (k : Z * Z) e, U !! k = Some e → U0 !! k = Some e;
  dy_pages : ∀ (k : Z * Z) e, U !! k = Some e → fa_held fr (frame_of e);
  dy_counted : counted fr U K;
  dy_others : kept_by_others fr K;
  dy_writers : sole_writers U K;
  dy_gone : ∀ (k : Z * Z) e, U0 !! k = Some e → uses U (frame_of e) + K (frame_of e) = 0 → fa_free fr (frame_of e);
  dy_foreign : ∀ f, ¬ fa_free fr0 f → (∀ w k, ¬ owned m r w k f) → uses U0 f = 0 → ¬ fa_free fr f }.

Lemma dying_weaken fr U T T' : (∀ f, T' f → T f) → dying fr U T → dying fr U T'.
Proof. intros HT [H1 H2 H3 H4 H5 H6 H7 H8 H9 H10]. split; auto. Qed.

Lemma page_not_table (k : Z * Z) e : U0 !! k = Some e → ¬ any_table m R (frame_of e).
Proof. destruct k as [r' p]. intros He. by apply (sp_data _ _ _ _ Hshape r' p e). Qed.

Lemma table_any r' v d f : r' ∈ R → (d ≤ 3)%nat → table_at m r' v d = Some f → any_table m R f.
Proof. intros H1 H2 H3. by exists r', v, d. Qed.

(** A page of [r] is given back. *)
Lemma put_page_wp s U T q e (Q : unit → vm S → Prop) :
  dying (vm_frames s) U T → U !! (r, q) = Some e →
  (∀ fr', dying fr' (delete (r, q) U) T → (∀ f, fa_free (vm_frames s) f → fa_free fr' f) →
     Q tt (set_frames fr' s)) →
  wp (on_frames (fr_put_phys (frame_of e)) ;; mret tt) Q s.
Proof.
  intros [Hi Ht Ho Hs Hp Hc Hk Hw Hg Hx0] He HQ. wp_step. apply on_frames_wp.
  pose proof (uses_pos U _ e He) as Hu. destruct (Hc (frame_of e)) as [Hcnt Hlt]; [lia|].
  destruct (Hk (frame_of e)) as [HK0 HK1].
  pose proof (page_not_table _ _ (Hs _ _ He)) as Hnt.
  eapply wp_mono; [apply fr_put_law; [done|by apply (Hp _ _ He)|lia]|].
  intros c fr' (_ & Hi' & Hf' & Hh' & Hc'). wp_step. apply HQ; [|intros f Hf; apply Hf'; by left].
  assert (∀ f, uses (delete (r, q) U) f = uses U f - is1 (bool_decide (frame_of e = f))) as Huse.
  { intros f. by apply uses_delete. }
  assert (∀ f, any_table m R f → f ≠ frame_of e) as Hne by (by intros f Hf ->).
  assert (∀ f, fa_held (vm_frames s) f → 0 < uses (delete (r, q) U) f → fa_held fr' f) as Hstay.
  { intros f Hf Hfu. apply Hh'. split; [done|]. intros [-> Hone].
    rewrite Huse, bool_decide_eq_true_2 in Hfu by done. cbn in Hfu. lia. }
  split.
  - done.
  - intros f Hf. destruct (Ht f Hf) as [Hfh Hft]. split; [|done]. apply Hh'. split; [done|].
    intros [-> _]. by apply (Hne (frame_of e)).
  - intros r' v d f Hr' Hrr Hd Hf. destruct (Ho r' v d f Hr' Hrr Hd Hf) as [H1 H2].
    pose proof (Hne f (table_any _ _ _ _ Hr' Hd Hf)) as Hfe. split.
    + intros [?|[? _]]%Hf'; done.
    + intros Hown. apply Hh'. split; [by apply H2|]. by intros [? _].
  - intros k x [_ Hx]%lookup_delete_Some. by apply Hs.
  - intros k x Hx. pose proof (uses_pos _ _ _ Hx) as Hxu. apply lookup_delete_Some in Hx as [_ Hx].
    apply Hstay; [by apply (Hp k)|lia].
  - intros f Hfu. pose proof Hfu as Hfu'. rewrite Huse in Hfu |- *.
    assert (0 < uses U f) as Hf0 by (destruct (bool_decide _); cbn in Hfu; lia).
    destruct (Hc f Hf0) as [Hcf Hcl].
    assert (fa_held (vm_frames s) f) as Hfh.
    { destruct (uses_some U f Hf0) as (k & x & Hx & <-). by apply (Hp k). }
    rewrite Hc' by by apply Hstay. destruct (decide (f = frame_of e)) as [->|Hfe].
    + rewrite bool_decide_eq_true_2 by done. cbn. lia.
    + rewrite bool_decide_eq_false_2 by congruence. cbn. lia.
  - intros f. destruct (Hk f). split; [done|]. intros [?|[-> Hone]]%Hf'; [auto|lia].
  - intros r' p' x Hx Hxw. apply lookup_delete_Some in Hx as [Hne' Hx]. specialize (Hw r' p' x Hx Hxw).
    rewrite Huse. destruct (decide (frame_of e = frame_of x)) as [Hfx|Hfx].
    + pose proof (uses_two U (r, q) (r', p') e x He Hx Hne' Hfx) as H2. rewrite Hfx in H2.
      destruct (Hk (frame_of x)). lia.
    + rewrite bool_decide_eq_false_2 by done. cbn. lia.
  - intros k x Hx. rewrite Huse. destruct (decide (frame_of e = frame_of x)) as [Hfx|Hfx].
    + rewrite bool_decide_eq_true_2, <-Hfx by done. cbn [is1]. intros Hz. apply Hf'. right. split; [done|lia].
    + rewrite bool_decide_eq_false_2 by done. cbn [is1]. intros Hz. apply Hf'. left. apply (Hg k); [done|lia].
  - intros f H1 H2 H3 [?|[-> _]]%Hf'; [by apply (Hx0 f)|]. pose proof (uses_pos U0 _ e (Hs _ _ He)). lia.
Qed.

(** A table of [r] is given back. *)
Lemma free_table_wp s U T t v d (Q : unit → vm S → Prop) :
  dying (vm_frames s) U T → T t → owned m r v d t →
  (∀ fr', dying fr' U (λ f, T f ∧ f ≠ t) → (∀ f, fa_free (vm_frames s) f → fa_free fr' f) → fa_free fr' t →
     Q tt (set_frames fr' s)) →
  wp (on_frames (fa_free_page t)) Q s.
Proof.
  intros [Hi Ht Ho Hs Hp Hc Hk Hw Hg Hx0] HTt Hown HQ. apply on_frames_wp. destruct (Ht t HTt) as [Hth Htt].
  eapply wp_mono; [by apply fr_free_law|]. intros [] fr' (Hi' & Hf' & Hh' & Hc').
  assert (∀ (k : Z * Z) x, U !! k = Some x → frame_of x ≠ t) as Hne.
  { intros k x Hx Heq. apply (page_not_table k x (Hs k x Hx)). by rewrite Heq. }
  assert (∀ r' w k, r' ∈ R → r' ≠ r → (k ≤ 3)%nat → table_at m r' w k ≠ Some t) as Hnot.
  { intros r' w k Hr' Hrr Hk' Hf. by apply Hrr, (sp_own _ _ _ _ Hshape r v d t r' w k). }
  assert (kept_by_others fr' K) as Hk''.
  { intros f. destruct (Hk f) as [H0 H1]. split; [done|]. intros [?| ->]%Hf'; [auto|].
    by apply HK. }
  apply HQ; [|intros f Hf; apply Hf'; by left|apply Hf'; by right]. split.
  - done.
  - intros f [Hf Hft]. destruct (Ht f Hf) as [Hfh Hfa]. split; [|done]. by apply Hh'.
  - intros r' w k f Hr' Hrr Hk' Hf. destruct (Ho r' w k f Hr' Hrr Hk' Hf) as [H1 H2].
    assert (f ≠ t) as Hft by (intros ->; by apply (Hnot r' w k)). split.
    + by intros [?|?]%Hf'.
    + intros Hown'. apply Hh'. split; [by apply H2|done].
  - done.
  - intros k x Hx. apply Hh'. split; [by apply (Hp k)|by apply (Hne k)].
  - intros f Hf0. destruct (Hc f Hf0) as [Hcf Hcl]. split; [|done]. rewrite Hc'; [done|]. apply Hh'.
    destruct (uses_some U f Hf0) as (k & x & Hx & <-). split; [by apply (Hp k)|by apply (Hne k)].
  - done.
  - done.
  - intros k x Hx Hz. apply Hf'. left. by apply (Hg k).
  - intros f H1 H2 H3 [?| ->]%Hf'; [by apply (Hx0 f)|]. by apply (H2 v d).
Qed.

(** *** A table and all below it *)

(** The tables of level [n] and below for the pages from [b] on. *)
Definition below n b f : Prop :=
  ∃ q k, b ≤ q < b + span (Datatypes.S n) ∧ (3 - n ≤ k ≤ 3)%nat ∧ table_at m r (va q) k = Some f.

(** The tables below an entry of a table of level [n]. *)
Definition under n b f : Prop := match n with O => False | Datatypes.S n' => below n' b f end.

(** [U] without the pages from [b] up to [c]. *)
Definition without U (b c : Z) : gmap (Z * Z) Z :=
  filter (λ kv : (Z * Z) * Z, ¬ (kv.1.1 = r ∧ b ≤ kv.1.2 < c)) U.

Lemma without_lookup U (b c : Z) (k : Z * Z) :
  without U b c !! k = if decide (k.1 = r ∧ b ≤ k.2 < c) then None else U !! k.
Proof.
  unfold without. destruct (decide (k.1 = r ∧ b ≤ k.2 < c)) as [Hk|Hk].
  - apply map_lookup_filter_None. right. intros e _ Hn. by apply Hn.
  - destruct (U !! k) as [e|] eqn:He.
    + by apply map_lookup_filter_Some.
    + apply map_lookup_filter_None. by left.
Qed.

Lemma without_empty U b : without U b b = U.
Proof. apply map_eq. intros k. rewrite without_lookup, decide_False; [done|]. lia. Qed.

Lemma without_more U (b c c' : Z) :
  b ≤ c ≤ c' → (∀ q, c ≤ q < c' → U !! (r, q) = None) → without U b c' = without U b c.
Proof.
  intros Hc Hn. apply map_eq. intros [r' q]. rewrite !without_lookup. cbn [fst snd].
  destruct (decide (r' = r ∧ b ≤ q < c)) as [[-> Hq]|Hq].
  - rewrite decide_True; [done|]. split; [done|lia].
  - destruct (decide (r' = r ∧ b ≤ q < c')) as [[-> Hq']|Hq']; [|done]. symmetry. apply Hn. lia.
Qed.

Lemma without_join U (b c c' : Z) : b ≤ c ≤ c' → without (without U b c) c c' = without U b c'.
Proof.
  intros Hc. apply map_eq. intros [r' q]. rewrite !without_lookup. cbn [fst snd].
  destruct (decide (r' = r ∧ c ≤ q < c')) as [[-> Hq]|Hq]; [rewrite decide_True; [done|]; split; [done|lia]|].
  destruct (decide (r' = r ∧ b ≤ q < c)) as [[-> Hq']|Hq']; [rewrite decide_True; [done|]; split; [done|lia]|].
  rewrite decide_False; [done|]. intros [-> ?]. destruct (decide (q < c)); [apply Hq'|apply Hq]; split; (done || lia).
Qed.

Lemma without_one U (c : Z) : without U c (c + 1) = delete (r, c) U.
Proof.
  apply map_eq. intros [r' q]. rewrite without_lookup. cbn [fst snd].
  destruct (decide ((r', q) = (r, c))) as [[= -> ->]|Hne].
  - rewrite lookup_delete_eq, decide_True; [done|]. split; [done|lia].
  - rewrite lookup_delete_ne, decide_False; [done| |congruence]. intros [-> ?]. apply Hne. f_equal. lia.
Qed.

(** Entry [i] of the table of level [n] for the pages from [b] on. *)
Definition entry_of n b i : Prop :=
  (n ≤ 3)%nat ∧ 0 ≤ b ∧ b mod span (Datatypes.S n) = 0 ∧ 0 ≤ i < 512 ∧ b + (i + 1) * span n ≤ 2 ^ 35.

Lemma block_entry n b i : (n ≤ 2)%nat → block_of n b → 0 ≤ i < 512 → entry_of n b i.
Proof.
  intros Hn (? & ? & Hl) Hi. rewrite span_S in Hl. pose proof (span_pos n). split_and!; [lia|done|done|lia|lia|nia].
Qed.

Lemma entry_range n b i q :
  entry_of n b i → b + i * span n ≤ q < b + (i + 1) * span n →
  b ≤ q < b + span (Datatypes.S n) ∧ (q / span n) mod 512 = i ∧ 0 ≤ q < 2 ^ 35.
Proof.
  intros (_ & H0 & Hm & Hi & Hl) Hq. rewrite span_S in *. pose proof (span_pos n) as Hs.
  split_and!; [nia|nia| |nia|nia].
  apply Z.mod_divide in Hm as [c ->]; [|lia].
  assert (q / span n = c * 512 + i) as ->.
  { symmetry. apply Z.div_unique with (q - (c * 512 + i) * span n); lia. }
  rewrite Z.add_comm, Z.mod_add by lia. by apply Z.mod_small.
Qed.

(** Each page of a table is below one of its entries. *)
Lemma entry_exists n b q :
  b ≤ q < b + span (Datatypes.S n) → ∃ i, 0 ≤ i < 512 ∧ b + i * span n ≤ q < b + (i + 1) * span n.
Proof.
  intros Hq. rewrite span_S in Hq. pose proof (span_pos n) as Hs. exists ((q - b) / span n).
  pose proof (Z.div_mod (q - b) (span n) ltac:(lia)). pose proof (Z.mod_pos_bound (q - b) (span n) Hs).
  split; [|nia]. split; [apply Z.div_pos; lia|]. apply Z.div_lt_upper_bound; lia.
Qed.

Lemma entry_block n b i : entry_of (Datatypes.S n) b i → block_of n (b + i * span (Datatypes.S n)).
Proof.
  intros (_ & H0 & Hm & Hi & Hl). rewrite (span_S (Datatypes.S n)) in Hm. pose proof (span_pos (Datatypes.S n)).
  apply Z.mod_divide in Hm as [c ->]; [|lia].
  replace (c * (512 * span (Datatypes.S n)) + i * span (Datatypes.S n))
    with ((c * 512 + i) * span (Datatypes.S n)) in * by lia.
  split_and!; [nia|by apply Z.mod_mul; lia|nia].
Qed.

(** The table that an entry is in. *)
Lemma entry_table n b i t q :
  entry_of n b i → table_at m r (va b) (3 - n) = Some t → b + i * span n ≤ q < b + (i + 1) * span n →
  table_at m r (va q) (3 - n) = Some t ∧ pte_at m t (3 - n) (va q) = rd_mem m (t + 8 * i).
Proof.
  intros He Ht Hq. destruct (entry_range n b i q He Hq) as (Hbq & Hx & Hq35).
  destruct He as (Hn & H0 & Hm & Hi & Hl). split.
  - rewrite <-Ht. apply table_at_prefix. apply prefix_va; [lia|lia|lia|].
    symmetry. pose proof (span_pos (Datatypes.S n)). pose proof (Z.div_mod b (span (Datatypes.S n)) ltac:(lia)).
    apply Z.div_unique with (q - b); lia.
  - unfold pte_at. by rewrite index_va, Hx by lia.
Qed.

(** The tables below different entries are different, and not the table itself. *)
Lemma under_inj n b i j f :
  entry_of n b i → entry_of n b j → under n (b + i * span n) f → under n (b + j * span n) f → i = j.
Proof.
  intros Hi Hj. destruct n as [|n]; [done|]. intros (q & k & Hq & Hk & Hf) (q' & k' & Hq' & Hk' & Hf').
  destruct (tr_inj _ _ (sp_tree _ _ _ _ Hshape r Hr) _ _ k k' f ltac:(lia) ltac:(lia) Hf Hf') as [_ Hp].
  destruct (entry_range (Datatypes.S n) b i q Hi) as (_ & Hqi & ?); [lia|].
  destruct (entry_range (Datatypes.S n) b j q' Hj) as (_ & Hqj & ?); [lia|].
  destruct Hi as (Hn & _).
  specialize (Hp (3 - Datatypes.S n)%nat ltac:(lia)). rewrite !index_va in Hp by lia. congruence.
Qed.

Lemma under_not_self n b i t f :
  entry_of n b i → table_at m r (va b) (3 - n) = Some t → under n (b + i * span n) f → f ≠ t.
Proof.
  intros (Hn & _) Ht. destruct n as [|n]; [done|]. intros (q & k & Hq & Hk & Hf) ->.
  destruct (tr_inj _ _ (sp_tree _ _ _ _ Hshape r Hr) _ _ k (3 - Datatypes.S n) t ltac:(lia) ltac:(lia) Hf Ht) as [? _].
  lia.
Qed.

Lemma under_below n b i f : entry_of n b i → under n (b + i * span n) f → below n b f.
Proof.
  intros He. destruct n as [|n]; [done|]. intros (q & k & Hq & Hk & Hf). exists q, k.
  destruct (entry_range (Datatypes.S n) b i q He) as (? & _ & _); [lia|].
  destruct He as (? & _). split_and!; [lia|lia|lia|lia|done].
Qed.

Lemma below_self n b t : table_at m r (va b) (3 - n) = Some t → below n b t.
Proof.
  intros Ht. exists b, (3 - n)%nat. pose proof (span_pos (Datatypes.S n)). split_and!; [lia|lia|lia|lia|done].
Qed.

Lemma below_cases n b t f :
  (n ≤ 2)%nat → block_of n b → table_at m r (va b) (3 - n) = Some t → below n b f →
  f = t ∨ ∃ i, 0 ≤ i < 512 ∧ under n (b + i * span n) f.
Proof.
  intros Hn Hb Ht (q & k & Hq & Hk & Hf). destruct (decide (k = 3 - n)%nat) as [->|].
  - left. rewrite (table_block n b q) in Hf by done. congruence.
  - right. destruct (entry_exists n b q Hq) as (i & Hi & Hqi). exists i. split; [done|].
    destruct n as [|n]; [lia|]. exists q, k. split_and!; [lia|lia|lia|lia|done].
Qed.

(** *** The loop over a table *)

(** What the first [i] entries of a table leave of [U] and [T]. *)
Definition rest_pages U n b i : gmap (Z * Z) Z := without U b (b + i * span n).

Definition rest_tables T n b i : Z → Prop :=
  λ f, T f ∧ ∀ j, 0 ≤ j < i → ¬ under n (b + j * span n) f.

Definition cleared s U T n b i (s' : vm S) : Prop :=
  ∃ fr, s' = set_frames fr s ∧ dying fr (rest_pages U n b i) (rest_tables T n b i) ∧
    (∀ f, fa_free (vm_frames s) f → fa_free fr f) ∧
    (∀ f j, 0 ≤ j < i → under n (b + j * span n) f → fa_free fr f).

(** What is known of the pages and the tables before the loop. *)
Definition intact U T n b : Prop :=
  (∀ q, b ≤ q < b + span (Datatypes.S n) → U !! (r, q) = U0 !! (r, q)) ∧
  ∀ i f, entry_of n b i → under n (b + i * span n) f → T f.

Lemma cleared_start s U T n b : dying (vm_frames s) U T → cleared s U T n b 0 s.
Proof.
  intros Hd. exists (vm_frames s). split_and!; [by destruct s| |done|lia].
  unfold rest_pages. rewrite Z.mul_0_l, Z.add_0_r, without_empty.
  eapply dying_weaken; [|done]. by intros f [? _].
Qed.

Lemma rest_pages_lookup U n b i q :
  entry_of n b i → b + i * span n ≤ q → rest_pages U n b i !! (r, q) = U !! (r, q).
Proof. intros _ Hq. unfold rest_pages. rewrite without_lookup, decide_False; [done|]. cbn. lia. Qed.

(** The next entry: its pages and its tables are gone from [fr] to [fr']. *)
Lemma cleared_next s U T n b i fr fr' :
  entry_of n b i →
  dying fr' (without (rest_pages U n b i) (b + i * span n) (b + (i + 1) * span n))
    (λ f, rest_tables T n b i f ∧ ¬ under n (b + i * span n) f) →
  (∀ f, fa_free (vm_frames s) f → fa_free fr f) →
  (∀ f j, 0 ≤ j < i → under n (b + j * span n) f → fa_free fr f) →
  (∀ f, fa_free fr f → fa_free fr' f) → (∀ f, under n (b + i * span n) f → fa_free fr' f) →
  cleared s U T n b (i + 1) (set_frames fr' s).
Proof.
  intros (_ & _ & _ & Hi & _) Hd Hf Hu Hff Hfu. pose proof (span_pos n). exists fr'. split_and!; [done| |auto|].
  - unfold rest_pages in Hd. rewrite without_join in Hd by nia.
    eapply dying_weaken; [|exact Hd]. intros f [HT Hn].
    split; [split; [done|]; intros j Hj|]; apply Hn; lia.
  - intros f j Hj Hu'. destruct (decide (j = i)) as [->|]; [by apply Hfu|]. apply Hff, (Hu f j); [lia|done].
Qed.

Lemma cleared_absent s U T n b i t s' :
  entry_of n b i → intact U T n b → table_at m r (va b) (3 - n) = Some t →
  has (rd_mem m (t + 8 * i)) PTE_PRESENT = false →
  cleared s U T n b i s' → cleared s U T n b (i + 1) s'.
Proof.
  intros He [HU _] Ht Hp (fr & -> & Hd & Hf & Hu). pose proof (span_pos n) as Hs.
  assert (∀ q, b + i * span n ≤ q < b + (i + 1) * span n →
    U !! (r, q) = None ∧ ∀ k, (3 - n < k)%nat → table_at m r (va q) k = None) as Hnone.
  { intros q Hq. destruct (entry_table n b i t q He Ht Hq) as [Htq Hpq].
    destruct (entry_range n b i q He Hq) as (Hbq & _ & Hq35). rewrite HU by done.
    apply (absent_pages n t q); [apply He|done|done|by rewrite Hpq]. }
  assert (∀ f, ¬ under n (b + i * span n) f) as Hnu.
  { intros f. destruct n as [|n]; [by intros []|]. intros (q & k & Hq & Hk & Hfq).
    destruct (Hnone q ltac:(lia)) as [_ Hnq]. destruct He as (Hn & _). rewrite Hnq in Hfq by lia. done. }
  apply (cleared_next s U T n b i fr fr); [done| |done|done|done|by intros f ?%Hnu].
  assert (without (rest_pages U n b i) (b + i * span n) (b + (i + 1) * span n) = rest_pages U n b i) as ->.
  { rewrite (without_more _ _ (b + i * span n)), without_empty; [done|nia|].
    intros q Hq. rewrite rest_pages_lookup by (done || lia). by apply Hnone. }
  eapply dying_weaken; [|done]. by intros f [? _].
Qed.

Lemma cleared_page s U T b i t s' (Q : unit → vm S → Prop) :
  entry_of 0 b i → intact U T 0 b → table_at m r (va b) 3 = Some t →
  has (rd_mem m (t + 8 * i)) PTE_PRESENT = true → cleared s U T 0 b i s' →
  (∀ s'', cleared s U T 0 b (i + 1) s'' → Q tt s'') →
  wp (on_frames (fr_put_phys (frame_of (rd_mem m (t + 8 * i)))) ;; mret tt) Q s'.
Proof.
  intros He [HU _] Ht Hp (fr & -> & Hd & Hf & Hu) HQ.
  assert (b + i * span 0 ≤ b + i < b + (i + 1) * span 0) as Hq by (change (span 0) with 1; lia).
  destruct (entry_table 0 b i t (b + i) He Ht Hq) as [Htq Hpq].
  destruct (entry_range 0 b i (b + i) He Hq) as (Hbq & _ & Hq35).
  apply (put_page_wp _ (rest_pages U 0 b i) (rest_tables T 0 b i) (b + i)); [done| |].
  - rewrite rest_pages_lookup, HU by (done || lia). rewrite <-Hpq. apply present_page; [done|done|].
    cbn [Nat.sub] in Hpq. by rewrite Hpq.
  - intros fr' Hd' Hff. apply HQ. cbn [vm_frames] in Hff.
    apply (cleared_next s U T 0 b i fr fr'); [done| |done|done|done|by intros f []].
    replace (b + i * span 0) with (b + i) by (change (span 0) with 1; lia).
    replace (b + (i + 1) * span 0) with (b + i + 1) by (change (span 0) with 1; lia).
    rewrite without_one. eapply dying_weaken; [|done]. by intros f [? _].
Qed.

(** What freeing a table of level [n] and all below it does. *)
Definition frees n : Prop := ∀ b t s U T (Q : unit → vm S → Prop),
  block_of n b → table_at m r (va b) (3 - n) = Some t → vm_mem s = m → sees (vm_cr3 s) → dying (vm_frames s) U T →
  intact U T n b → T t →
  (∀ fr', dying fr' (without U b (b + span (Datatypes.S n))) (λ f, T f ∧ ¬ below n b f) →
     (∀ f, fa_free (vm_frames s) f → fa_free fr' f) → (∀ f, below n b f → fa_free fr' f) →
     Q tt (set_frames fr' s)) →
  wp (free_page_tables_recursive n (Some (phys_to_virt t))) Q s.

Lemma cleared_table s U T n b i t s' (Q : unit → vm S → Prop) :
  frees n → entry_of (Datatypes.S n) b i → intact U T (Datatypes.S n) b →
  table_at m r (va b) (3 - Datatypes.S n) = Some t → vm_mem s = m → sees (vm_cr3 s) →
  has (rd_mem m (t + 8 * i)) PTE_PRESENT = true → cleared s U T (Datatypes.S n) b i s' →
  (∀ s'', cleared s U T (Datatypes.S n) b (i + 1) s'' → Q tt s'') →
  wp (free_page_tables_recursive n (pte_to_table (rd_mem m (t + 8 * i)))) Q s'.
Proof.
  intros IH He [HU HT] Ht Hm Hsees Hp (fr & -> & Hd & Hf & Hu) HQ. pose proof (span_pos (Datatypes.S n)) as Hs.
  set (c := b + i * span (Datatypes.S n)).
  assert (c + span (Datatypes.S n) = b + (i + 1) * span (Datatypes.S n)) as Hc by (unfold c; lia).
  destruct (entry_table _ b i t c He Ht) as [Htc Hpc]; [unfold c; lia|].
  destruct (entry_range _ b i c He) as (Hbc & _ & Hc35); [unfold c; lia|].
  destruct (present_table (Datatypes.S n) t c) as [_ Hg]; [destruct He; lia|done|done|by rewrite Hpc|].
  rewrite Hpc in Hg. replace (3 - (Datatypes.S n - 1))%nat with (3 - n)%nat in Hg by lia.
  unfold pte_to_table. rewrite Hp. cbn [negb].
  assert (∀ f, below n c f → rest_tables T (Datatypes.S n) b i f) as Hchild.
  { intros f Hfb. split; [by apply (HT i)|]. intros j Hj Huj.
    enough (j = i) by lia. apply (under_inj (Datatypes.S n) b j i f); [|done|done|done].
    destruct He as (? & ? & ? & ? & ?). split_and!; [done..|lia|lia|nia]. }
  apply (IH c _ _ (rest_pages U (Datatypes.S n) b i) (rest_tables T (Datatypes.S n) b i));
    [by apply entry_block|done|done|done|done| |apply Hchild, (below_self n c (frame_of (rd_mem m (t + 8 * i)))); done|].
  - split.
    + intros q Hq. rewrite rest_pages_lookup by (done || (unfold c in Hq; lia)). apply HU.
      destruct (entry_range _ b i q He); [unfold c in *; lia|done].
    + intros j f Hj Hfj. apply Hchild. by apply (under_below _ c j).
  - intros fr' Hd' Hff Hfb. apply HQ. rewrite Hc in Hd'.
    by apply (cleared_next s U T (Datatypes.S n) b i fr fr').
Qed.

Lemma free_last n b t s U T s' (Q : unit → vm S → Prop) :
  (n ≤ 2)%nat → block_of n b → table_at m r (va b) (3 - n) = Some t → T t → cleared s U T n b 512 s' →
  (∀ fr', dying fr' (without U b (b + span (Datatypes.S n))) (λ f, T f ∧ ¬ below n b f) →
     (∀ f, fa_free (vm_frames s) f → fa_free fr' f) → (∀ f, below n b f → fa_free fr' f) →
     Q tt (set_frames fr' s)) →
  wp (free_page_table (phys_to_virt t)) Q s'.
Proof.
  intros Hn Hb Ht HTt (fr & -> & Hd & Hf & Hu) HQ. pose proof (below_self n b t Ht) as Hself.
  assert (frame_addr t) as Haddr by (by apply (tr_addr _ _ (sp_tree _ _ _ _ Hshape r Hr) (va b) (3 - n)); [lia|]).
  unfold free_page_table. rewrite table_to_phys_virt by done.
  apply (free_table_wp _ (rest_pages U n b 512) (rest_tables T n b 512) t (va b) (3 - n)); [done| | |].
  - split; [done|]. intros j Hj Hj'. by apply (under_not_self n b j t t); [apply block_entry|..].
  - split_and!; [lia|done|]. right. apply user_va. destruct Hb as (? & _ & ?). pose proof (span_pos (Datatypes.S n)). lia.
  - intros fr' Hd' Hff Hft. apply HQ.
    + unfold rest_pages in Hd'. rewrite span_S. eapply dying_weaken; [|exact Hd'].
      intros f [HTf Hnf]. split; [|by intros ->]. split; [done|]. intros j Hj Hj'. apply Hnf.
      by apply (under_below n b j); [apply block_entry|].
    + intros f Hfs. by apply Hff, Hf.
    + intros f Hfb. destruct (below_cases n b t f Hn Hb Ht Hfb) as [->|(j & Hj & Hj')]; [done|].
      by apply Hff, (Hu f j).
Qed.

(** The loop over [len] entries, given what it does for an entry that is present. *)
Lemma clear_loop n b t len s U T (k : Z → M (vm S) unit) (Q : unit → vm S → Prop) :
  seen (vm_cr3 s) t → (∀ i, 0 ≤ i < len → entry_of n b i) → 0 ≤ len →
  table_at m r (va b) (3 - n) = Some t → vm_mem s = m → dying (vm_frames s) U T → intact U T n b →
  (∀ i s' (Q' : unit → vm S → Prop), entry_of n b i → has (rd_mem m (t + 8 * i)) PTE_PRESENT = true →
     cleared s U T n b i s' → (∀ s'', cleared s U T n b (i + 1) s'' → Q' tt s'') →
     wp (k (rd_mem m (t + 8 * i))) Q' s') →
  (∀ e, has e PTE_PRESENT = false → k e = mret tt) → (∀ s', cleared s U T n b len s' → Q tt s') →
  wp (for_ 0 len (λ i, e ← rd_word (entry_ptr (phys_to_virt t) i); k e)) Q s.
Proof.
  intros Haddr Hent Hlen Ht Hm Hd Hint Hk Hk0 HQ. apply (wp_for (cleared s U T n b)); [by apply cleared_start| |].
  - intros i s' Hi Hcl. pose proof (Hent i ltac:(lia)) as He.
    assert (vm_mem s' = m ∧ vm_cr3 s' = vm_cr3 s) as [Hm' Hc'] by (by destruct Hcl as (fr & -> & _)).
    wp_step. apply rd_entry_wp; [by rewrite Hc'|apply He|]. rewrite Hm'.
    destruct (has (rd_mem m (t + 8 * i)) PTE_PRESENT) eqn:Hp; [by apply Hk|].
    rewrite Hk0 by done. apply wp_ret. by apply (cleared_absent s U T n b i t).
  - intros s'. rewrite Z.max_r by done. apply HQ.
Qed.

Lemma frees_all n : (n ≤ 2)%nat → frees n.
Proof.
  induction n as [n IH] using lt_wf_ind. intros Hn b t s U T Q Hb Ht Hm Hsees Hd Hint HTt HQ.
  assert (seen (vm_cr3 s) t) as Haddr.
  { apply (shape_seen _ _ _ _ _ r (va b) (3 - n) t Hshape Hsees Hr). split_and!; [lia|done|right].
    apply user_va. destruct Hb as (? & _ & ?). pose proof (span_pos (Datatypes.S n)). lia. }
  destruct n as [|n]; cbn [free_page_tables_recursive]; apply wp_bind.
  - apply (clear_loop 0 b t 512 s U T (λ e, if negb (has e PTE_PRESENT) then mret tt
      else on_frames (fr_put_phys (Z.land e PTE_ADDR_MASK)) ;; mret tt));
      [done|by intros; apply block_entry|done..| |by intros e ->|intros s' Hs'; by apply (free_last 0 b t s U T)].
    intros i s' Q' He Hp Hcl HQ'. rewrite Hp. cbn [negb]. by apply (cleared_page s U T b i t).
  - apply (clear_loop (Datatypes.S n) b t 512 s U T (λ e, if negb (has e PTE_PRESENT) then mret tt else
      if has e PTE_HUGE then on_frames (fr_put_phys (Z.land e PTE_ADDR_MASK)) ;; mret tt
      else free_page_tables_recursive n (pte_to_table e)));
      [done|by intros; apply block_entry|done..| |by intros e ->
      |intros s' Hs'; by apply (free_last (Datatypes.S n) b t s U T)].
    intros i s' Q' He Hp Hcl HQ'. rewrite Hp. cbn [negb]. set (c := b + i * span (Datatypes.S n)).
    pose proof (span_pos (Datatypes.S n)) as Hs.
    destruct (entry_table _ b i t c He Ht) as [Htq Hpq]; [unfold c; lia|].
    destruct (entry_range _ b i c He) as (_ & _ & Hq35); [unfold c; lia|].
    destruct (present_table (Datatypes.S n) t c) as [Hh _]; [lia|done|done|by rewrite Hpq|].
    rewrite Hpq in Hh. rewrite (Hh Hn). apply (cleared_table s U T n b i t); [apply IH; lia|done..].
Qed.

(** *** The whole address space *)

(** The tables of [r] itself. *)
Definition tables_of f : Prop := ∃ v d, owned m r v d f.

Lemma dying_start : counted fr0 U0 K → kept_by_others fr0 K → sole_writers U0 K → dying fr0 U0 tables_of.
Proof.
  intros Hc Hk Hw. pose proof Hshape as [Hi Htr Hta Hh Ho Hm Hdom Hd]. split; [done| | |done| |done|done|done| |done].
  - intros f (v & d & Hown). split; [by apply (Hh r v d)|]. destruct Hown as (? & ? & _). by exists r, v, d.
  - intros r' v d f Hr' _ Hd' Hf. split; [|intros Hu; by apply (Hh r' v d)]. apply Hta. by exists r', v, d.
  - intros [r' p] e He. by apply (Hd r' p).
  - intros k e He Hz. pose proof (uses_pos U0 k e He). destruct (Hk (frame_of e)). lia.
Qed.

Lemma root_entry i : 0 ≤ i < 256 → entry_of 3 0 i.
Proof. intros Hi. change (span 4) with (2 ^ 36). split_and!; [lia|lia|done|lia|lia|]. change (span 3) with (2 ^ 27). lia. Qed.

Lemma under_owned i f : entry_of 3 0 i → under 3 (0 + i * span 3) f → tables_of f.
Proof.
  intros He (q & k & Hq & Hk & Hf). destruct (entry_range 3 0 i q He) as (_ & _ & ?); [lia|].
  exists (va q), k. split_and!; [lia|done|]. right. by apply user_va.
Qed.

Lemma owned_under v d f :
  owned m r v d f → f = r ∨ ∃ i, 0 ≤ i < 256 ∧ under 3 (0 + i * span 3) f.
Proof.
  intros (Hd & Hf & [->|Hu]); [left; by injection Hf|]. destruct d as [|d]; [left; by injection Hf|]. right.
  pose proof (vpn_bounds v) as Hv. unfold user in Hu.
  assert (same_prefix (Datatypes.S d) (va (vpn v)) v) as Hp.
  { intros k Hk. rewrite !index_vpn by lia. by rewrite vpn_va by lia. }
  exists (vpn v / span 3). change (span 3) with (2 ^ 27). split; [Z.to_euclidean_division_equations; lia|].
  exists (vpn v), (Datatypes.S d). change (span 3) with (2 ^ 27).
  split_and!; [Z.to_euclidean_division_equations; lia..|lia|lia|]. by rewrite (table_at_prefix _ _ _ _ _ Hp).
Qed.

Lemma under_root i f : entry_of 3 0 i → under 3 (0 + i * span 3) f → f ≠ r.
Proof. intros He. by apply (under_not_self 3 0 i r f He). Qed.

Lemma destroy_root_wp s cr3 (Q : unit → vm S → Prop) :
  vm_frames s = fr0 → vm_mem s = m → sees (vm_cr3 s) → frame_of cr3 = r → dying fr0 U0 tables_of →
  (∀ fr', dying fr' (without U0 0 (2 ^ 35)) (λ _, False) → (∀ f, tables_of f → fa_free fr' f) → Q tt (set_frames fr' s)) →
  wp (destroy_tables cr3) Q s.
Proof.
  intros Hfr Hm Hsees Hcr Hd HQ.
  assert (seen (vm_cr3 s) r) as Haddr.
  { apply (shape_seen _ _ _ _ _ r 0 0 r Hshape Hsees Hr). split_and!; [lia|done|by left]. }
  unfold destroy_tables. fold (frame_of cr3). rewrite Hcr. apply wp_bind.
  apply (clear_loop 3 0 r 256 s U0 tables_of (λ e,
    if has e PTE_PRESENT then free_page_tables_recursive 2 (pte_to_table e) else mret tt));
    [done|by intros; apply root_entry|done|done|done|by rewrite Hfr|split; [done|apply under_owned]| |by intros e ->|].
  - intros i s' Q' He Hp Hcl HQ'. rewrite Hp. apply (cleared_table s U0 tables_of 2 0 i r);
      [by apply frees_all|done|split; [done|apply under_owned]|done..].
  - intros s' (fr & -> & Hd' & Hf & Hu).
    apply (free_table_wp _ (rest_pages U0 3 0 256) (rest_tables tables_of 3 0 256) r 0 0); [done| | |].
    + split; [exists 0, 0%nat; split_and!; [lia|done|by left]|]. intros j Hj Hj'. by apply (under_root j r (root_entry j Hj)).
    + split_and!; [lia|done|by left].
    + intros fr' Hd'' Hff Hfr'. apply HQ.
      * unfold rest_pages in Hd''. change (0 + 256 * span 3) with (2 ^ 35) in Hd''.
        eapply dying_weaken; [|exact Hd'']. done.
      * intros f (v & d & Hown). destruct (owned_under v d f Hown) as [->|(i & Hi & Hui)]; [done|].
        by apply Hff, (Hu f i).
Qed.

(** *** What is left *)

Lemma dying_end s fr' T :
  vm_mem s = m → sees (vm_cr3 s) → dying fr' (without U0 0 (2 ^ 35)) T → spaces_ok (set_frames fr' s) (R ∖ {[r]}) (without U0 0 (2 ^ 35)) K.
Proof.
  intros Hm Hsees [Hi _ Ho Hs Hp Hc Hk Hw _ _]. pose proof Hshape as [_ Htr Hta Hh Hon Hma Hdom Hd].
  assert (∀ f, any_table m (R ∖ {[r]}) f → any_table m R f) as Hsub.
  { intros f (r' & v & d & Hr' & Hf). exists r', v, d. set_solver. }
  split; cbn [vm_frames vm_mem set_frames]; rewrite ?Hm; [split| | | | |]; try done.
  - intros r' Hr'. apply Htr. set_solver.
  - intros f (r' & v & d & Hr' & Hd' & Hf). apply (Ho r' v d f); set_solver.
  - intros r' v d f Hr' (Hd' & Hf & Hu). apply (Ho r' v d f); set_solver.
  - intros r1 v d f r' w k Hr1 Hown Hr' Hk' Hf. apply (Hon r1 v d f r' w k); set_solver.
  - intros r' v Hr' Hv. rewrite (Hma r' v) by set_solver. rewrite without_lookup, decide_False; [done|].
    cbn. intros [-> _]. set_solver.
  - intros r' p e He. pose proof (Hs _ _ He) as He0. destruct (Hdom r' p e He0) as [Hr' Hp']. split; [|done].
    apply elem_of_difference. split; [done|]. intros ->%elem_of_singleton.
    rewrite without_lookup, decide_True in He; done.
  - intros r' p e He. split; [by apply (Hp _ _ He)|]. intros Ht%Hsub. by apply (Hd r' p e (Hs _ _ He)).
  - intros f Hf%Hsub. by apply HK.
Qed.

End destroy.

Section theorem.
Context {S : Type} {FA : FrameAlloc S} {FL : FrameLaws S} {FR : FrameRefs S} {FRL : FrameRefsLaws S}.
Implicit Types (s : vm S) (R : gset Z) (U : gmap (Z * Z) Z) (K : Z → Z) (r v p f e : Z).

(** The pages of all address spaces but [r]. *)
Definition spaces_without U r : gmap (Z * Z) Z := filter (λ kv : (Z * Z) * Z, kv.1.1 ≠ r) U.

Lemma spaces_without_lookup U r r' p : r' ≠ r → spaces_without U r !! (r', p) = U !! (r', p).
Proof.
  intros Hr. unfold spaces_without. destruct (U !! (r', p)) as [e|] eqn:He.
  - by apply map_lookup_filter_Some.
  - apply map_lookup_filter_None. by left.
Qed.

Lemma without_all s R U K r : spaces_ok s R U K → without r U 0 (2 ^ 35) = spaces_without U r.
Proof.
  intros [[_ _ _ _ _ _ Hdom _] _ _ _ _ _]. apply map_filter_ext. intros [r' p] e He. cbn.
  destruct (Hdom _ _ _ He) as [_ Hp]. split; [|by intros ? []]. intros Hn ->. by apply Hn.
Qed.

(** All of [r] is given up, and nothing else. *)
Record given_up s s' R U K r : Prop := GivenUp {
  gu_mem : vm_mem s' = vm_mem s;
  gu_cr3 : vm_cr3 s' = vm_cr3 s;
  gu_spaces : spaces_ok s' (R ∖ {[r]}) (spaces_without U r) K;
  gu_tables : ∀ v d f, owned (vm_mem s) r v d f → fa_free (vm_frames s') f;
  gu_pages : ∀ p e, U !! (r, p) = Some e → uses (spaces_without U r) (frame_of e) = 0 → K (frame_of e) = 0 →
    fa_free (vm_frames s') (frame_of e);
  gu_untouched : untouched s R U K s' (R ∖ {[r]}) (spaces_without U r) K }.

Lemma destroy_tables_wp s R U K r cr3 :
  spaces_ok s R U K → frame_of cr3 = r → r ∈ R →
  wp (destroy_tables cr3) (λ _ s', given_up s s' R U K r) s.
Proof.
  intros Hok Hcr Hr. pose proof Hok as [Hsh Hc Hk Ht Hw Hsees].
  eapply (destroy_root_wp (vm_mem s) R U K r (vm_frames s)); [done..|by apply dying_start|].
  intros fr' Hd Hf. pose proof (dying_end _ _ _ _ _ _ Hsh Hr Ht s fr' _ eq_refl Hsees Hd) as Hend.
  rewrite (without_all s R U K r Hok) in Hd, Hend. split; [done|done|done| | |].
  - intros v d f Hown. apply Hf. by exists v, d.
  - intros p e He Hu HK. apply (dy_gone _ _ _ _ _ _ _ _ _ Hd (r, p)); [done|]. lia.
  - intros f (H1 & H2 & H3 & H4 & H5). split; [|done]. split_and!; cbn [vm_frames vm_mem set_frames]; [done| | | |done].
    + apply (dy_foreign _ _ _ _ _ _ _ _ _ Hd); [done| |done]. intros w k. by apply H3.
    + intros r' w k Hr'. apply H3. set_solver.
    + pose proof (uses_nonneg (spaces_without U r) f).
      pose proof (uses_mono (spaces_without U r) U f (map_filter_subseteq _ _)). lia.
Qed.

End theorem.
