(* ===== verification/AsSys.v ===== *)
(** * Address spaces: creating and destroying

    as_create makes a PML4 whose upper half is the kernel's and whose lower half
    is empty: the new address space joins the others with no pages.  The invariant
    of all address spaces with their areas and descriptors, and as_destroy as a
    whole. *)

From stdpp Require Import gmap.
From S2P Require Import Prelude Frames Vmm VmmInv VmmThm KHeap Vma VmaInv VmaThm As AsInv Cow.
From S2P Require Import AsDestroy.

Lemma table_at_next m r v d :
  table_at m r v (S d) = match table_at m r v d with
    | Some t => if is_table d (pte_at m t d v) then Some (frame_of (pte_at m t d v)) else None
    | None => None end.
Proof. done. Qed.

Section create.
Context {S : Type} {FA : FrameAlloc S} {FL : FrameLaws S} {FR : FrameRefs S} {FRL : FrameRefsLaws S}.
Implicit Types (s : vm S) (fr : S) (m : gmap Z Z) (R : gset Z) (U : gmap (Z * Z) Z) (K : Z → Z)
  (r v w f g t p e c i : Z) (d k : nat).

(** What as_create relies on of the kernel's tables, below [rk]: those of the
    upper half are a tree, and none of them is a table or a page of an address
    space. *)
Record kernel_half s R U K (rk : Z) : Prop := KernelHalf {
  ku_own : ∀ w d f, ¬ user w → (d ≤ 3)%nat → table_at (vm_mem s) rk w d = Some f → foreign s R U K f;
  ku_inj : ∀ v w d k f, ¬ user v → ¬ user w → (d ≤ 3)%nat → (k ≤ 3)%nat →
    table_at (vm_mem s) rk v d = Some f → table_at (vm_mem s) rk w k = Some f → d = k ∧ same_prefix d v w }.

(** It stays so while the frames of others are left alone. *)
Lemma kernel_untouched s R U K s' R' U' K' rk :
  kernel_half s R U K rk → untouched s R U K s' R' U' K' → kernel_half s' R' U' K' rk.
Proof.
  intros [Ho Hi] Hun.
  assert (∀ w d, ¬ user w → (d ≤ 3)%nat → table_at (vm_mem s') rk w d = table_at (vm_mem s) rk w d) as Hsame.
  { intros w d Hw Hd. apply table_at_ext. intros k f Hk Hf. apply (Hun f); [|apply index_bounds].
    apply (Ho w k); [done|lia|done]. }
  split.
  - intros w d f Hw Hd. rewrite Hsame by done. intros Hf. by apply Hun, (Ho w d).
  - intros v w d k f Hv Hw Hd Hk. rewrite !Hsame by done. by apply Hi.
Qed.

(** An address of the upper half. *)
Lemma upper_address : ¬ user (2 ^ 47).
Proof. unfold user, vpn. by vm_compute. Qed.

Lemma kernel_root_foreign s R U K rk : kernel_half s R U K rk → foreign s R U K rk.
Proof. intros Hk. apply (ku_own _ _ _ _ _ Hk (2 ^ 47) 0); [apply upper_address|lia|done]. Qed.

(** ** The tables below a new root *)

Section root.
Context (s : vm S) (fr' : S) (m' : gmap Z Z) (R : gset Z) (U : gmap (Z * Z) Z) (K : Z → Z) (rk c : Z).
Hypothesis Hs : shape (vm_frames s) (vm_mem s) R U.
Hypothesis Hkh : kernel_half s R U K rk.
Hypothesis Hc : fa_free (vm_frames s) c.
Hypothesis Hca : frame_addr c.
Hypothesis Hlow : ∀ i, 0 ≤ i < 256 → rd_mem m' (c + 8 * i) = 0.
Hypothesis Hhigh : ∀ i, 256 ≤ i < 512 → rd_mem m' (c + 8 * i) = rd_mem (vm_mem s) (rk + 8 * i).
Hypothesis Hother : ∀ f i, frame_addr f → f ≠ c → 0 ≤ i < 512 → rd_mem m' (f + 8 * i) = rd_mem (vm_mem s) (f + 8 * i).
Hypothesis Hinv : fa_inv fr'.
Hypothesis Hfree : ∀ f, fa_free fr' f ↔ fa_free (vm_frames s) f ∧ f ≠ c.
Hypothesis Hheld : fa_held fr' c.
Hypothesis Hkeep : ∀ f, fa_held (vm_frames s) f → fa_held fr' f.

Lemma root_upper w d : ¬ user w → (0 < d ≤ 3)%nat → table_at m' c w d = table_at (vm_mem s) rk w d.
Proof.
  intros Hw. induction d as [|d IH]; intros Hd; [lia|]. destruct d as [|d].
  - cbn [table_at]. unfold pte_at. rewrite Hhigh; [done|]. rewrite user_index in Hw.
    pose proof (index_bounds 0 w). lia.
  - rewrite !(table_at_next _ _ _ (Datatypes.S d)), IH by lia.
    destruct (table_at (vm_mem s) rk w (Datatypes.S d)) as [t|] eqn:Ht; [|done].
    assert (pte_at m' t (Datatypes.S d) w = pte_at (vm_mem s) t (Datatypes.S d) w) as ->; [|done].
    destruct (ku_own _ _ _ _ _ Hkh w (Datatypes.S d) t Hw ltac:(lia) Ht) as (Hta & Htf & _).
    apply Hother; [done|by intros ->|apply index_bounds].
Qed.

Lemma root_lower w d : user w → (0 < d)%nat → table_at m' c w d = None.
Proof.
  intros Hw. rewrite user_index in Hw. pose proof (index_bounds 0 w). induction d as [|[|d] IH]; intros Hd; [lia| |].
  - cbn [table_at]. unfold pte_at. rewrite Hlow by lia. done.
  - cbn [table_at] in *. by rewrite IH by lia.
Qed.

Lemma root_empty w : user w → mapping m' c w = None.
Proof.
  intros Hw. rewrite user_index in Hw. pose proof (index_bounds 0 w). unfold mapping. cbn [walk]. unfold pte_at.
  by rewrite Hlow by lia.
Qed.

(** A table of the new root is the root or one of the kernel's. *)
Lemma root_tables w d f :
  (d ≤ 3)%nat → table_at m' c w d = Some f →
  (d = O ∧ f = c) ∨ ((0 < d)%nat ∧ ¬ user w ∧ table_at (vm_mem s) rk w d = Some f).
Proof.
  intros Hd Hf. destruct d as [|d]; [left; by injection Hf|]. right. destruct (decide (user w)) as [Hw|Hw].
  - rewrite root_lower in Hf by (done || lia). done.
  - rewrite root_upper in Hf by (done || lia). split_and!; [lia|done|done].
Qed.

Lemma root_owned w d f : owned m' c w d f → f = c.
Proof. intros (Hd & Hf & Ho). apply root_tables in Hf as [[_ ->]|(? & ? & _)]; [done| |done]. destruct Ho; [lia|done]. Qed.

Lemma root_tree : tree_ok m' c.
Proof.
  split.
  - intros w d f Hd [[_ ->]|(_ & Hw & Hf)]%(root_tables w d f Hd); [done|by apply (ku_own _ _ _ _ _ Hkh w d)].
  - assert (∀ w d, ¬ user w → (0 < d ≤ 3)%nat → table_at (vm_mem s) rk w d ≠ Some c) as Hnc.
    { intros w d Hw Hd Hf. by destruct (ku_own _ _ _ _ _ Hkh w d c Hw ltac:(lia) Hf) as (_ & ? & _). }
    intros v w d k f Hd Hk Hf Hf'.
    apply (root_tables v d f Hd) in Hf as [[-> ->]|(Hd0 & Hv & Hf)];
      apply (root_tables w k _ Hk) in Hf' as [[-> Hfc]|(Hk0 & Hw & Hf')]; try done.
    + split; [done|]. intros j Hj. lia.
    + by destruct (Hnc w k Hw ltac:(lia)).
    + subst f. by destruct (Hnc v d Hv ltac:(lia)).
    + by apply (ku_inj _ _ _ _ _ Hkh v w d k f).
Qed.

Lemma root_fresh f : any_table (vm_mem s) R f → f ≠ c.
Proof. intros Hf ->. by apply (sp_tables _ _ _ _ Hs c). Qed.

Lemma root_old : shape (vm_frames s) m' R U ∧ ∀ r w k, r ∈ R → (k ≤ 3)%nat → table_at m' r w k = table_at (vm_mem s) r w k.
Proof.
  apply (shape_mem (vm_frames s) (vm_mem s) m' R U); [|exact Hs]. intros f i Hf Ht Hi. apply Hother; [done|by apply root_fresh|done].
Qed.

Lemma root_any f : any_table m' ({[c]} ∪ R) f →
  f = c ∨ any_table (vm_mem s) R f ∨ ∃ w d, ¬ user w ∧ (0 < d ≤ 3)%nat ∧ table_at (vm_mem s) rk w d = Some f.
Proof.
  destruct root_old as [_ Hold]. intros (r & w & d & Hr & Hd & Hf).
  apply elem_of_union in Hr as [->%elem_of_singleton|Hr].
  - apply root_tables in Hf as [[_ ->]|(? & ? & ?)]; [by left|right; right|done]. exists w, d. split_and!; [done|lia|lia|done].
  - right; left. rewrite Hold in Hf by done. by exists r, w, d.
Qed.

Lemma root_new : c ∉ R.
Proof. intros Hr. apply (root_fresh c); [|done]. exists c, 0, 0%nat. split_and!; [done|lia|done]. Qed.

Lemma root_shape : shape fr' m' ({[c]} ∪ R) U.
Proof.
  destruct root_old as [[_ H2 H3 H4 H5 H6 H7 H8] Hold]. pose proof root_new as Hnew.
  assert (∀ f, any_table m' ({[c]} ∪ R) f → f ≠ c → ¬ fa_free (vm_frames s) f) as Hused.
  { intros f [->|[Hf|(w & d & Hw & Hd & Hf)]]%root_any Hne; [done|by apply (sp_tables _ _ _ _ Hs)|].
    apply (ku_own _ _ _ _ _ Hkh w d f Hw); [lia|done]. }
  split.
  - done.
  - intros r [->%elem_of_singleton|Hr]%elem_of_union; [apply root_tree|by apply H2].
  - intros f Hf [Hff Hfc]%Hfree. by apply (Hused f).
  - intros r v d f [->%elem_of_singleton|Hr]%elem_of_union Ho; [by rewrite (root_owned v d f)|]. by apply Hkeep, (H4 r v d).
  - intros r v d f r' w k Hr Ho Hr' Hk Hf.
    apply elem_of_union in Hr as [->%elem_of_singleton|Hr]; apply elem_of_union in Hr' as [->%elem_of_singleton|Hr'].
    + done.
    + rewrite (root_owned v d f Ho), Hold in Hf by done. exfalso. apply (root_fresh c); [|done]. by exists r', w, k.
    + exfalso. destruct Ho as (Hd & Hfd & Ho). rewrite Hold in Hfd by done.
      apply root_tables in Hf as [[_ ->]|(Hk0 & Hw & Hf)]; [| |done].
      * apply (root_fresh c); [|done]. by exists r, v, d.
      * destruct (ku_own _ _ _ _ _ Hkh w k f Hw ltac:(lia) Hf) as (_ & _ & Hno & _). by apply (Hno r v d).
    + by apply (H5 r v d f r' w k).
  - intros r v [->%elem_of_singleton|Hr]%elem_of_union Hv; [|by apply H6].
    rewrite root_empty by done. destruct (U !! (c, vpn v)) eqn:He; [|done].
    by destruct (H7 _ _ _ He).
  - intros r p e He. destruct (H7 r p e He) as [Hr Hp]. split; [set_solver|done].
  - intros r p e He. destruct (sp_data _ _ _ _ Hs r p e He) as [Hh Hn]. split; [by apply Hkeep|].
    intros [Hfc|[?|(w & d & Hw & Hd & Hf)]]%root_any; [|done|].
    + apply (fa_held_not_free (vm_frames s) (frame_of e)); [apply (sp_inv _ _ _ _ Hs)|done|by rewrite Hfc].
    + destruct (ku_own _ _ _ _ _ Hkh w d _ Hw ltac:(lia) Hf) as (_ & _ & _ & Hu & _). pose proof (uses_pos U _ e He). lia.
Qed.

End root.

(** ** The operation *)

(** The loop that copies the upper half. *)
Lemma copy_half_wp s m rk c (Q : unit → vm S → Prop) :
  seen (vm_cr3 s) rk → seen (vm_cr3 s) c → rk ≠ c → zeroed c m (vm_mem s) →
  (∀ m', (∀ i, 0 ≤ i < 256 → rd_mem m' (c + 8 * i) = 0) →
     (∀ i, 256 ≤ i < 512 → rd_mem m' (c + 8 * i) = rd_mem m (rk + 8 * i)) →
     (∀ f i, frame_addr f → f ≠ c → 0 ≤ i < 512 → rd_mem m' (f + 8 * i) = rd_mem m (f + 8 * i)) →
     Q tt (set_mem m' s)) →
  wp (for_ KERNEL_PML4_START ENTRIES_PER_TABLE (λ i,
        e ← rd_word (entry_ptr (phys_to_virt rk) i); wr_word (entry_ptr (phys_to_virt c) i) e)) Q s.
Proof.
  intros Hks Hcs Hne [Hz Ho] HQ. pose proof (seen_addr _ _ Hks) as Hk. pose proof (seen_addr _ _ Hcs) as Hc.
  apply (wp_for (λ j s', ∃ m', s' = set_mem m' s ∧
    (∀ i, 0 ≤ i < 256 → rd_mem m' (c + 8 * i) = 0) ∧
    (∀ i, 256 ≤ i < j → rd_mem m' (c + 8 * i) = rd_mem m (rk + 8 * i)) ∧
    (∀ f i, frame_addr f → f ≠ c → 0 ≤ i < 512 → rd_mem m' (f + 8 * i) = rd_mem m (f + 8 * i)))).
  - exists (vm_mem s). split_and!; [by destruct s|intros; apply Hz; lia|unfold KERNEL_PML4_START; lia|done].
  - intros j s' Hj (m' & -> & H1 & H2 & H3). unfold KERNEL_PML4_START, ENTRIES_PER_TABLE in Hj.
    wp_step. apply rd_entry_wp; [done|lia|]. apply wr_entry_wp; [done|lia|].
    eexists. split_and!; [done|..]; cbn [vm_mem set_mem].
    + intros i Hi. rewrite rd_mem_insert_ne by lia. by apply H1.
    + intros i Hi. destruct (decide (i = j)) as [->|]; [rewrite rd_mem_insert_eq; apply H3; (done || lia)|].
      rewrite rd_mem_insert_ne by lia. apply H2. lia.
    + intros f i Hf Hfc Hi. rewrite rd_mem_insert_ne; [by apply H3|]. apply word_ne; [done|done|lia|done|by left].
  - intros s' (m' & -> & H1 & H2 & H3). by apply HQ.
Qed.

Lemma new_pml4_wp s R U K cr3 :
  spaces_ok s R U K → kernel_half s R U K (frame_of cr3) → seen (vm_cr3 s) (frame_of cr3) →
  wp (new_pml4 cr3) (λ res s', vm_cr3 s' = vm_cr3 s ∧ match res with
    | None => (s' = s)%type
    | Some c => frame_of c = c ∧ (c ∉ R) ∧ spaces_ok s' ({[c]} ∪ R) U K ∧
        (∀ r p i, 0 ≤ i < 512 → view (vm_mem s') U r p i = view (vm_mem s) U r p i) ∧
        untouched s R U K s' ({[c]} ∪ R) U K
    end) s.
Proof.
  intros Hok Hkh Hseen. set (rk := frame_of cr3) in *. pose proof Hok as [Hs Hc Ho Ht Hw Hsees]. unfold new_pml4.
  destruct (kernel_root_foreign _ _ _ _ _ Hkh) as (Hrk & Hrf & _).
  wp_step. apply new_table_wp; [apply Hs|done|by intros _; wp_step|].
  intros c fr m1 Hinv Hcf Hca Hfree Hheld Hc1 Hkeep Hz. fold (frame_of cr3). fold rk. wp_step.
  apply (copy_half_wp _ (vm_mem s)); [done|by apply Hsees, (fa_free_in _ _ (sp_inv _ _ _ _ Hs))|by intros <-|done|].
  intros m' H1 H2 H3. wp_step. cbn [vm_cr3 set_mem]. rewrite table_to_phys_virt by done.
  assert (shape fr m' ({[c]} ∪ R) U) as Hs'.
  { apply (root_shape s fr m' R U K rk c); try done. intros f Hf. by apply Hkeep. }
  split_and!; [done|by apply frame_of_frame|by apply (root_new s R U)| | |].
  - split; cbn [vm_frames vm_mem set_mem].
    + done.
    + intros f Hf. destruct (uses_some U f Hf) as ([r p] & e & He & <-).
      destruct (sp_data _ _ _ _ Hs r p e He) as [Hh _]. destruct (Hkeep _ Hh) as [_ ->]. by apply Hc.
    + intros f. destruct (Ho f). split; [done|]. intros [? _]%Hfree. auto.
    + intros f Hf. eapply (root_any s m' R U K rk) in Hf; try done.
      destruct Hf as [->|[Hf|(w & d & Hw' & Hd & Hf)]].
      * by apply Ho.
      * by apply Ht.
      * apply (ku_own _ _ _ _ _ Hkh w d f Hw'); [lia|done].
    + done.
    + done.
  - intros r p i Hi. cbn [vm_mem set_mem]. unfold view. destruct (U !! (r, p)) as [e|] eqn:He; [|done].
    cbn. f_equal. destruct (spaces_entry s R U K r p e Hok He) as (Hh & _ & Ha & _).
    apply H3; [done| |done]. intros Hec. apply (fa_held_not_free (vm_frames s) (frame_of e)); [apply Hs|done|by rewrite Hec].
  - intros f (Hfa & Hff & Hfo & Hfu & HfK). assert (f ≠ c) as Hfc by (by intros ->).
    split; [|intros i Hi; by apply H3]. split_and!; cbn [vm_frames vm_mem set_mem]; [done| | |done|done].
    + by intros [? _]%Hfree.
    + intros r w k [->%elem_of_singleton|Hr]%elem_of_union Hown.
      * apply Hfc. by apply (root_owned s m' R U K rk c) with w k.
      * destruct Hown as (Hk & Hfk & Hu). destruct (root_old s m' R U c Hs Hcf H3) as [_ Hsame].
        rewrite Hsame in Hfk by done. apply (Hfo r w k Hr). by split_and!.
Qed.

End create.

(** * Address spaces with their structures

    The address spaces of the system: each has a block of the kernel heap, a list
    of areas and a PML4, and no two share any of these.  as_create adds one,
    as_destroy takes one away with all that belongs to it. *)

Section sys.
Context {H : Type} {KH : KHeap H} {KHL : KHeapLaws H}.
Context {S : Type} {FA : FrameAlloc S} {FL : FrameLaws S} {FR : FrameRefs S} {FRL : FrameRefsLaws S}.
Implicit Types (s : asys H S) (C : gmap Z Z) (B : blocks) (Ls : gmap Z areas) (R : gset Z)
  (U : gmap (Z * Z) Z) (K : Z → Z) (x y l r p i : Z) (a b : address_space) (o : option Z).

Definition as_root a : Z := frame_of (as_cr3 a).

(** The root of the kernel's tables. *)
Definition kernel_root s : Z :=
  frame_of (if ay_kernel_initialized s then as_cr3 (ay_kernel s) else vm_cr3 (ay_vm s)).

(** The kernel's PML4 can be reached with the tables that are loaded.  It is the
    boot loader's, below the higher half's memory: so it can only while the boot
    loader's tables are loaded themselves. *)
Definition kernel_seen s : Prop := seen (vm_cr3 (ay_vm s)) (kernel_root s).

Record asys_ok s C B Ls R U K : Prop := AsysOk {
  ao_kernel : kernel_half (ay_vm s) R U K (kernel_root s);
  ao_vmas : vma_inv (ay_vmas s) C B Ls;
  ao_pages : spaces_ok (ay_vm s) R U K;
  ao_space : ∀ x a, ay_spaces s !! x = Some a →
    B !! x = Some (None, SIZEOF_ADDRESS_SPACE) ∧ as_root a ∈ R ∧ 1 ≤ as_ref_count a < 2 ^ 32 ∧
    ∀ l, as_vmas a = Some l → is_Some (Ls !! l);
  ao_apart : ∀ x y a b, x ≠ y → ay_spaces s !! x = Some a → ay_spaces s !! y = Some b →
    as_root a ≠ as_root b ∧ ∀ l, as_vmas a = Some l → as_vmas b ≠ Some l }.

(** What is left when the structure at [x] with the list [o] is gone. *)
Definition blocks_without B Ls x o : blocks :=
  delete x (match o with Some l => VmaThm.without (l :: (default [] (Ls !! l)).*1) B | None => B end).

Definition lists_without Ls o : gmap Z areas :=
  match o with Some l => delete l Ls | None => Ls end.

Lemma asys_pages s C B Ls R U U' K (v : vm S) :
  asys_ok s C B Ls R U K → spaces_ok v R U' K → untouched (ay_vm s) R U K v R U' K → vm_cr3 v = vm_cr3 (ay_vm s) →
  asys_ok (set_ay_vm v s) C B Ls R U' K.
Proof.
  intros [H0 H1 H2 H3 H4] Hv Hun Hcr. split; try done. cbn [ay_vm set_ay_vm].
  unfold kernel_root. cbn [ay_vm ay_kernel ay_kernel_initialized set_ay_vm]. rewrite Hcr. by eapply kernel_untouched.
Qed.

Lemma asys_switch s C B Ls R U K c :
  asys_ok s C B Ls R U K → ay_kernel_initialized s = true → sees c →
  asys_ok (set_ay_vm (set_vm_cr3 c (ay_vm s)) s) C B Ls R U K.
Proof.
  intros [H0 H1 H2 H3 H4] Hk Hc. split; [|done| |done|done]; cbn [ay_vm set_ay_vm].
  - unfold kernel_root in *. cbn [ay_kernel ay_kernel_initialized set_ay_vm]. rewrite Hk in *. by apply (kernel_untouched (ay_vm s) R U K).
  - destruct H2. by split.
Qed.

Lemma asys_user_pages s C B Ls R U K x a n :
  asys_ok s C B Ls R U K → ay_spaces s !! x = Some a →
  asys_ok (set_ay_spaces (<[x := set_as_user_pages n a]> (ay_spaces s)) s) C B Ls R U K.
Proof.
  intros [H0 H1 H2 H3 H4] Hx. split; cbn [ay_spaces set_ay_spaces]; [done|done|done| |].
  - intros y b [[<- <-]|[_ Hy]]%lookup_insert_Some; [by apply (H3 x a)|by apply H3].
  - intros y z b c Hyz [[<- <-]|[_ Hy]]%lookup_insert_Some [[<- <-]|[_ Hz]]%lookup_insert_Some; [done|..].
    + by apply (H4 x z a c).
    + by apply (H4 y x b a).
    + by apply (H4 y z).
Qed.

(** A block that kmalloc gave is no area and no list. *)
Lemma block_no_area (v : vmas H) C B Ls l V x n :
  vma_inv v C B Ls → Ls !! l = Some V → B !! x = Some (None, n) → x ∉ l :: V.*1.
Proof.
  intros Hi HV Hx [->|Hin]%elem_of_cons; pose proof (vi_lists _ _ _ _ Hi l V HV) as Hli.
  - pose proof (li_block _ _ _ _ Hli) as Hb. destruct (vi_c2 _ _ _ _ Hi) as (c & Hc & _). congruence.
  - pose proof (li_blocks _ _ _ _ Hli x Hin) as Hb. destruct (vi_c1 _ _ _ _ Hi) as (c & Hc & _). congruence.
Qed.

(** The heap changed, but no block of an area or of a list. *)
Lemma vma_inv_blocks (v : vmas H) h C B B' Ls :
  vma_inv v C B Ls → kh_inv h C B' → (∀ l V y, Ls !! l = Some V → y ∈ l :: V.*1 → B' !! y = B !! y) →
  vma_inv (set_heap h v) C B' Ls.
Proof.
  intros [_ H1 H2 H3 H4 H5] Hh Hb. split; try done. intros l V HV.
  eapply list_inv_frame; [..|by apply H4]; try done.
  - apply (Hb l V l HV). set_solver.
  - intros y Hy. apply (Hb l V y HV). set_solver.
Qed.

Lemma on_kfree_wp (v : vmas H) C B Ls x n (Q : unit → vmas H → Prop) :
  vma_inv v C B Ls → B !! x = Some (None, n) →
  (∀ v', vma_inv v' C (delete x B) Ls → Q tt v') → wp (on_heap (kh_kfree x)) Q v.
Proof.
  intros Hi Hx HQ. apply wp_zoom. eapply wp_mono; [by apply (kh_kfree_law _ C B x n); [apply Hi|]|].
  intros [] h Hh. apply HQ. apply (vma_inv_blocks v h C B); [done|done|]. intros l V y HV Hy.
  apply lookup_delete_ne. intros <-. by apply (block_no_area v C B Ls l V x n).
Qed.

Lemma on_kmalloc_wp (v : vmas H) C B Ls n (Q : option Z → vmas H → Prop) :
  vma_inv v C B Ls → 0 ≤ n ≤ KMALLOC_LIMIT →
  (∀ v', vma_inv v' C B Ls → Q None v') →
  (∀ x v', B !! x = None → vma_inv v' C (<[x := (None, n)]> B) Ls → Q (Some x) v') →
  wp (on_heap (kh_kmalloc n)) Q v.
Proof.
  intros Hi Hn HN HS. apply wp_zoom. eapply wp_mono; [by apply (kh_kmalloc_law _ C B n); [apply Hi|]|].
  intros [x|] h; [intros (_ & _ & Hx & Hh)|intros Hh].
  - apply HS; [done|]. apply (vma_inv_blocks v h C B); [done|done|]. intros l V y HV Hy.
    apply lookup_insert_ne. intros <-. pose proof (vi_lists _ _ _ _ Hi l V HV) as Hli.
    apply elem_of_cons in Hy as [<-|Hy].
    + pose proof (li_block _ _ _ _ Hli). congruence.
    + pose proof (li_blocks _ _ _ _ Hli x Hy). congruence.
  - apply HN. by apply (vma_inv_blocks v h C B).
Qed.

(** ** Destroying *)

Lemma upd_user_wp s x a g (Q : unit → asys H S → Prop) :
  ay_spaces s !! x = Some a → Q tt (set_ay_spaces (<[x := g a]> (ay_spaces s)) s) →
  wp (upd_as (UserAs x) g) Q s.
Proof. intros Hx HQ. unfold upd_as, rd_as. do 3 wp_step. eapply wp_lift; [done|]. by wp_step. Qed.

Lemma rd_user_wp s x a (Q : address_space → asys H S → Prop) :
  ay_spaces s !! x = Some a → Q a s → wp (rd_as (UserAs x)) Q s.
Proof. intros Hx HQ. unfold rd_as. do 2 wp_step. by eapply wp_lift. Qed.

(** Without the structure at [x] and all that belongs to it. *)
Record destroyed s s' C B Ls R U K x a : Prop := Destroyed {
  ds_ok : asys_ok s' C (blocks_without B Ls x (as_vmas a)) (lists_without Ls (as_vmas a))
    (R ∖ {[as_root a]}) (spaces_without U (as_root a)) K;
  ds_given_up : given_up (ay_vm s) (ay_vm s') R U K (as_root a);
  ds_spaces : ay_spaces s' = delete x (ay_spaces s);
  ds_kernel : ay_kernel s' = ay_kernel s ∧ ay_kernel_initialized s' = ay_kernel_initialized s }.

Lemma destroyed_intro s v' m' C B Ls R U K x a :
  asys_ok s C B Ls R U K → ay_spaces s !! x = Some a →
  vma_inv v' C (blocks_without B Ls x (as_vmas a)) (lists_without Ls (as_vmas a)) →
  given_up (ay_vm s) m' R U K (as_root a) →
  destroyed s (ASys v' m' (delete x (ay_spaces s)) (ay_kernel s) (ay_kernel_initialized s)) C B Ls R U K x a.
Proof.
  intros [Hk Hv Hp Hs Ha] Hx Hv' Hg. split; [split|done|done|done]; cbn [ay_vmas ay_vm ay_spaces].
  - unfold kernel_root. cbn [ay_vm ay_kernel ay_kernel_initialized]. rewrite (gu_cr3 _ _ _ _ _ _ Hg).
    eapply kernel_untouched; [exact Hk|apply Hg].
  - done.
  - apply Hg.
  - intros y b [Hne Hy]%lookup_delete_Some. destruct (Hs y b Hy) as (HB & Hr & Href & Hl).
    destruct (Ha x y a b Hne Hx Hy) as [Hroot Hlist]. split_and!; [|set_solver|lia|lia|].
    + unfold blocks_without. rewrite lookup_delete_ne by done. destruct (as_vmas a) as [l|] eqn:Hla; [|done].
      destruct (Hs x a Hx) as (_ & _ & _ & Hal). destruct (Hal l Hla) as [V HV]. rewrite HV. cbn [default].
      rewrite VmaThm.lookup_without, decide_False; [done|]. by apply (block_no_area (ay_vmas s) C B Ls l V y SIZEOF_ADDRESS_SPACE).
    + intros l Hyl. unfold lists_without. destruct (as_vmas a) as [la|] eqn:Hla; [|by apply Hl].
      rewrite lookup_delete_ne; [by apply Hl|]. intros <-. by apply (Hlist la).
  - intros y z b c Hyz [_ Hy]%lookup_delete_Some [_ Hz]%lookup_delete_Some. by apply (Ha y z).
Qed.

Lemma as_destroy_last_wp s C B Ls R U K x a :
  asys_ok s C B Ls R U K → ay_spaces s !! x = Some a → as_ref_count a = 1 →
  wp (as_destroy (Some (UserAs x))) (λ _ s', destroyed s s' C B Ls R U K x a) s.
Proof.
  intros Hok Hx H1. pose proof Hok as [_ Hv Hp Hs _]. destruct (Hs x a Hx) as (HB & Hr & _ & Hl).
  unfold as_destroy. wp_step. apply (upd_user_wp s x a); [done|]. wp_step.
  eapply rd_user_wp; [apply lookup_insert_eq|]. cbn [as_ref_count set_as_ref_count]. rewrite H1. cbn [Z.ltb].
  change (0 <? 1 -u32 1) with false. cbv iota. wp_step. apply wp_zoom.
  cbn [ay_vm set_ay_spaces as_cr3 set_as_ref_count].
  eapply wp_mono; [by apply (destroy_tables_wp _ R U K (as_root a))|]. intros [] m' Hg. wp_step.
  assert (∀ v', vma_inv v' C (match as_vmas a with
      | Some l => VmaThm.without (l :: (default [] (Ls !! l)).*1) B | None => B end) (lists_without Ls (as_vmas a)) →
    (match as_vmas a with
      | Some l => VmaThm.without (l :: (default [] (Ls !! l)).*1) B | None => B end) !! x = Some (None, SIZEOF_ADDRESS_SPACE) →
    wp (heap_ (kh_kfree x) ;; modify (λ s, set_ay_spaces (delete x (ay_spaces s)) s))
      (λ _ s', destroyed s s' C B Ls R U K x a)
      (ASys v' m' (<[x := set_as_ref_count (1 -u32 1) a]> (ay_spaces s)) (ay_kernel s) (ay_kernel_initialized s)))
    as Hlast.
  { intros v' Hv' HB'. wp_step. apply wp_zoom. eapply on_kfree_wp; [exact Hv'|exact HB'|]. intros v'' Hv''.
    wp_step. unfold set_ay_spaces. cbn [ay_vmas ay_vm ay_spaces ay_kernel ay_kernel_initialized set_ay_vmas].
    rewrite delete_insert_eq. by apply destroyed_intro. }
  cbn [as_vmas set_as_ref_count]. destruct (as_vmas a) as [l|] eqn:Hla.
  - destruct (Hl l eq_refl) as [V HV]. rewrite HV in Hlast. cbn [default from_option] in Hlast.
    apply wp_zoom. cbn [ay_vmas set_ay_vm set_ay_spaces]. eapply vma_list_destroy_wp; [exact Hv|exact HV|].
    intros v' Hv'. apply Hlast; [done|].
    rewrite VmaThm.lookup_without, decide_False; [done|].
    by apply (block_no_area (ay_vmas s) C B Ls l V x SIZEOF_ADDRESS_SPACE).
  - wp_step. by apply Hlast.
Qed.

(** ** Creating *)

(** The address spaces with the new one at [x], of root [c] and list [o]. *)
Record created s s' C B Ls B' Ls' R U K x c o : Prop := Created {
  ct_ok : asys_ok s' C B' Ls' ({[c]} ∪ R) U K;
  ct_root : frame_of c = c ∧ c ∉ R;
  ct_fresh : ay_spaces s !! x = None;
  ct_spaces : ay_spaces s' = <[x := ASpace c 1 0 o]> (ay_spaces s);
  ct_blocks : blocks_without B' Ls' x o = B;
  ct_lists : lists_without Ls' o = Ls;
  ct_empty : ∀ l, o = Some l → Ls' !! l = Some [];
  ct_cr3 : vm_cr3 (ay_vm s') = vm_cr3 (ay_vm s);
  ct_kernel : ay_kernel_initialized s' = true;
  ct_untouched : untouched (ay_vm s) R U K (ay_vm s') ({[c]} ∪ R) U K;
  ct_views : ∀ r p i, 0 ≤ i < 512 → view (vm_mem (ay_vm s')) U r p i = view (vm_mem (ay_vm s)) U r p i }.

Lemma list_fresh (v : vmas H) C B Ls l : vma_inv v C B Ls → B !! l = None → Ls !! l = None.
Proof.
  intros Hi Hl. destruct (Ls !! l) as [V|] eqn:HV; [|done].
  pose proof (li_block _ _ _ _ (vi_lists _ _ _ _ Hi l V HV)). congruence.
Qed.

Lemma as_created_intro s v' m' C B Ls B' Ls' R U K x c o k :
  asys_ok s C B Ls R U K → frame_of (as_cr3 k) = kernel_root s →
  untouched (ay_vm s) R U K m' ({[c]} ∪ R) U K → B !! x = None →
  vma_inv v' C B' Ls' → B' !! x = Some (None, SIZEOF_ADDRESS_SPACE) → (∀ y bk, B !! y = Some bk → B' !! y = Some bk) →
  blocks_without B' Ls' x o = B → lists_without Ls' o = Ls →
  (∀ l, o = Some l → Ls !! l = None ∧ Ls' !! l = Some []) → (∀ l, is_Some (Ls !! l) → is_Some (Ls' !! l)) →
  frame_of c = c → c ∉ R → spaces_ok m' ({[c]} ∪ R) U K → vm_cr3 m' = vm_cr3 (ay_vm s) →
  (∀ r p i, 0 ≤ i < 512 → view (vm_mem m') U r p i = view (vm_mem (ay_vm s)) U r p i) →
  created s (ASys v' m' (<[x := ASpace c 1 0 o]> (ay_spaces s)) k true) C B Ls B' Ls' R U K x c o.
Proof.
  intros [Hkh Hv Hp Hs Ha] Hk Hun Hx Hv' HB' Hkeep HB HL Ho Hls Hc HcR Hp' Hcr Hview.
  assert (ay_spaces s !! x = None) as Hfresh.
  { destruct (ay_spaces s !! x) as [a|] eqn:Hxa; [|done]. destruct (Hs x a Hxa) as [? _]. congruence. }
  split; try done; [|intros l Hl; by apply Ho]. split; cbn [ay_vmas ay_vm ay_spaces]; [|done|done| |].
  - unfold kernel_root at 1. cbn [ay_kernel ay_kernel_initialized]. rewrite Hk. by eapply kernel_untouched.
  - intros y a [[<- <-]|[Hne Hy]]%lookup_insert_Some.
    + cbn [as_ref_count as_vmas]. unfold as_root. cbn [as_cr3].
      rewrite Hc. split_and!; [done|set_solver|lia|lia|]. intros l Hl. destruct (Ho l Hl) as [_ ->]. by eexists.
    + destruct (Hs y a Hy) as (H1 & H2 & H3 & H4). split_and!; [by apply Hkeep|set_solver|lia|lia|auto].
  - intros y z a b Hyz [[<- <-]|[_ Hy]]%lookup_insert_Some [[<- <-]|[_ Hz]]%lookup_insert_Some; [done|..].
    + destruct (Hs z b Hz) as (_ & Hr & _ & Hl). unfold as_root in *. cbn [as_cr3 as_vmas]. rewrite Hc.
      split; [by intros ->|]. intros l Hol Hbl. destruct (Ho l Hol) as [Hno _].
      destruct (Hl l Hbl). congruence.
    + destruct (Hs y a Hy) as (_ & Hr & _ & Hl). unfold as_root in *. cbn [as_cr3 as_vmas]. rewrite Hc.
      split; [by intros <-|]. intros l Hal Hol. destruct (Ho l Hol) as [Hno _].
      destruct (Hl l Hal). congruence.
    + by apply (Ha y z).
Qed.

Lemma as_get_kernel_wp s (Q : as_ptr → asys H S → Prop) :
  (∀ k, frame_of (as_cr3 k) = kernel_root s →
     Q KernelAs (ASys (ay_vmas s) (ay_vm s) (ay_spaces s) k true)) → wp as_get_kernel Q s.
Proof.
  intros HQ. unfold as_get_kernel, kernel_root in *. wp_step. wp_step.
  destruct (ay_kernel_initialized s) eqn:Hk.
  - wp_step. wp_step. wp_step. specialize (HQ (ay_kernel s) eq_refl). destruct s. cbn in *. by subst.
  - wp_step. wp_step. wp_step. by apply HQ.
Qed.

Lemma as_create_wp s C B Ls R U K (Q : option Z → asys H S → Prop) :
  asys_ok s C B Ls R U K → kernel_seen s →
  (∀ s', asys_ok s' C B Ls R U K → ay_spaces s' = ay_spaces s → ay_vm s' = ay_vm s → Q None s') →
  (∀ x c o B' Ls' s', created s s' C B Ls B' Ls' R U K x c o → Q (Some x) s') →
  wp as_create Q s.
Proof.
  intros Hok Hseen HN HS. pose proof Hok as [Hkh Hv Hp Hs Ha]. unfold as_create. wp_step. apply as_get_kernel_wp.
  intros k Hk. wp_step. apply wp_zoom. cbn [ay_vmas]. apply (on_kmalloc_wp _ C B Ls); [done|done| |].
  { intros v' Hv'. wp_step. apply HN; [|done|done]. split; try done. unfold kernel_root at 1. cbn. by rewrite Hk. }
  intros x v1 Hx Hv1. wp_step. unfold rd_as. wp_step. wp_step. wp_step. wp_step. apply wp_zoom.
  cbn [ay_kernel ay_vm set_ay_vmas]. eapply wp_mono; [apply (new_pml4_wp _ R U K); [done|by rewrite Hk|by rewrite Hk]|].
  intros [c|] m' (Hcr & Hres).
  2: { wp_step. subst m'. apply wp_zoom. cbn [ay_vmas set_ay_vm set_ay_vmas].
       eapply on_kfree_wp; [exact Hv1|apply lookup_insert_eq|]. intros v2. rewrite delete_insert_id by done.
       intros Hv2. wp_step. apply HN; [|done|done]. split; try done. unfold kernel_root at 1. cbn. by rewrite Hk. }
  destruct Hres as (Hc & HcR & Hp' & Hview & Hun). wp_step. apply wp_zoom. cbn [ay_vmas set_ay_vm set_ay_vmas].
  assert (∀ y bk, B !! y = Some bk → <[x := (None, SIZEOF_ADDRESS_SPACE)]> B !! y = Some bk) as Hkeep.
  { intros y b Hy. rewrite lookup_insert_ne by congruence. done. }
  eapply (vma_list_create_wp v1 C _ Ls); [done| |].
  - intros v2 Hv2. do 2 wp_step. eapply (HS x c None (<[x := (None, SIZEOF_ADDRESS_SPACE)]> B) Ls).
    apply (as_created_intro s v2 m' C B Ls _ Ls R U K x c None k); try done.
    + apply lookup_insert_eq.
    + unfold blocks_without. by rewrite delete_insert_id.
  - intros l v2 Hl Hv2 _ _. do 2 wp_step. pose proof (list_fresh _ _ _ _ _ Hv1 Hl) as Hlf.
    assert (l ≠ x) as Hlx by (intros ->; by rewrite lookup_insert_eq in Hl).
    eapply (HS x c (Some l) (<[l := (vma_list_cache v1, sizeof_vma_list_t)]> (<[x := (None, SIZEOF_ADDRESS_SPACE)]> B)) (<[l := []]> Ls)).
    apply (as_created_intro s v2 m' C B Ls _ (<[l := []]> Ls) R U K x c (Some l) k); try done.
    + rewrite lookup_insert_ne by done. apply lookup_insert_eq.
    + intros y b Hy. rewrite lookup_insert_ne; [by apply Hkeep|]. intros <-. rewrite lookup_insert_ne in Hl by done. congruence.
    + unfold blocks_without. rewrite lookup_insert_eq. cbn [from_option id fmap list_fmap].
      apply map_eq. intros y. destruct (decide (y = x)) as [->|Hyx]; [by rewrite lookup_delete_eq|].
      rewrite lookup_delete_ne, VmaThm.lookup_without by done. destruct (decide (y ∈ [l])) as [Hy|Hy].
      * apply list_elem_of_singleton in Hy as ->. rewrite lookup_insert_ne in Hl by done. by rewrite Hl.
      * rewrite !lookup_insert_ne; [done|done|]. intros ->. apply Hy. set_solver.
    + cbn. by rewrite delete_insert_id.
    + intros l' [= <-]. split; [done|]. by rewrite lookup_insert_eq.
    + intros l' [V HV]. destruct (decide (l' = l)) as [->|]; [by rewrite lookup_insert_eq|].
      rewrite lookup_insert_ne by done. by exists V.
Qed.

(** ** What as_destroy does *)

Lemma asys_ref_count s C B Ls R U K x a n :
  asys_ok s C B Ls R U K → ay_spaces s !! x = Some a → 1 ≤ n < 2 ^ 32 →
  asys_ok (set_ay_spaces (<[x := set_as_ref_count n a]> (ay_spaces s)) s) C B Ls R U K.
Proof.
  intros [H0 H1 H2 H3 H4] Hx Hn. split; cbn [ay_spaces set_ay_spaces]; [done|done|done| |].
  - intros y b [[<- <-]|[_ Hy]]%lookup_insert_Some; [|by apply H3].
    destruct (H3 x a Hx) as (? & ? & _ & ?). split; [done|]. split; [done|]. split; [cbn; lia|done].
  - intros y z b c Hyz [[<- <-]|[_ Hy]]%lookup_insert_Some [[<- <-]|[_ Hz]]%lookup_insert_Some; [done|..].
    + by apply (H4 x z a c).
    + by apply (H4 y x b a).
    + by apply (H4 y z).
Qed.

(** C12. as_destroy of an address space that others still refer to only counts down.
    For the last reference the address space goes with all that it has: its
    tables are free, its pages are free unless another address space or the
    kernel uses them, its areas and its structure are given back to the heap.
    The other address spaces, the kernel's half and every frame of others are as
    before. *)
Theorem as_destroy_correct s C B Ls R U K x a :
  asys_ok s C B Ls R U K → ay_spaces s !! x = Some a →
  ∃ s', as_destroy (Some (UserAs x)) s = Some (tt, s') ∧
    if as_ref_count a =? 1 then destroyed s s' C B Ls R U K x a
    else asys_ok s' C B Ls R U K ∧ ay_vm s' = ay_vm s ∧ ay_vmas s' = ay_vmas s ∧
      ay_spaces s' = <[x := set_as_ref_count (as_ref_count a - 1) a]> (ay_spaces s).
Proof.
  intros Hok Hx. destruct (ao_space _ _ _ _ _ _ _ Hok x a Hx) as (_ & _ & Href & _).
  destruct (Z.eqb_spec (as_ref_count a) 1) as [H1|H1].
  - destruct (wp_elim _ _ _ (as_destroy_last_wp s C B Ls R U K x a Hok Hx H1)) as ([] & s' & Hrun & Hd). by exists s'.
  - assert (as_ref_count a -u32 1 = as_ref_count a - 1) as Hw by (apply wrap_small; lia).
    edestruct (wp_elim (as_destroy (Some (UserAs x))) (λ _ s', s' =
      set_ay_spaces (<[x := set_as_ref_count (as_ref_count a - 1) a]> (ay_spaces s)) s) s) as ([] & s' & Hrun & ->).
    { unfold as_destroy. wp_step. apply (upd_user_wp s x a); [done|]. wp_step.
      eapply rd_user_wp; [apply lookup_insert_eq|]. cbn [as_ref_count set_as_ref_count]. rewrite Hw.
      rewrite (proj2 (Z.ltb_lt 0 (as_ref_count a - 1))) by lia. by wp_step. }
    eexists. split; [exact Hrun|]. split_and!; [|done..]. apply asys_ref_count; [done|done|lia].
Qed.

End sys.
