(* ===== verification/AsPage.v ===== *)
(** * Address spaces: single pages

    as_alloc_page maps a page of zeros, as_free_page takes a page away and gives
    its reference back, as_alloc_pages maps a range or nothing at all. *)

From stdpp Require Import gmap.
From S2P Require Import Prelude Frames KHeap Vmm VmmInv VmmThm Vma VmaInv VmaThm.
From S2P Require Import As AsInv Cow AsDestroy AsSys.

(** One more reference to [f] than [K] says. *)
Definition bump (K : Z → Z) (f g : Z) : Z := K g + is1 (bool_decide (g = f)).

Lemma bump_eq K f : bump K f f = K f + 1.
Proof. unfold bump. by rewrite bool_decide_eq_true_2. Qed.

Lemma bump_ne K f g : g ≠ f → bump K f g = K g.
Proof. intros Hg. unfold bump. rewrite bool_decide_eq_false_2 by done. cbn. lia. Qed.

Lemma bump_ge K f g : K g ≤ bump K f g.
Proof. unfold bump. destruct (bool_decide _); cbn; lia. Qed.

Section pages.
Context {S : Type} {FA : FrameAlloc S} {FL : FrameLaws S} {FR : FrameRefs S} {FRL : FrameRefsLaws S}.
Implicit Types (s : vm S) (fr : S) (m : gmap Z Z) (R : gset Z) (U : gmap (Z * Z) Z) (K : Z → Z)
  (r v f g t p q e i : Z).

(** ** A page goes *)

(** An entry is cleared: its reference is now held by the kernel. *)
Lemma spaces_unmapped s s' R U K r p e :
  spaces_ok s R U K → U !! (r, p) = Some e → vm_frames s' = vm_frames s →
  kept r R (vm_frames s) (vm_mem s) (vm_frames s') (vm_mem s') →
  shape (vm_frames s') (vm_mem s') R (delete (r, p) U) → vm_cr3 s' = vm_cr3 s →
  spaces_ok s' R (delete (r, p) U) (bump K (frame_of e)).
Proof.
  intros Hok He Hfr Hk Hs' Hcr. pose proof Hok as [Hs Hc Ho Ht Hw Hse].
  destruct (spaces_entry s R U K r p e Hok He) as (Hh & Hn & _ & Hu & Hcnt & Hlt & HK).
  assert (∀ f, uses (delete (r, p) U) f + bump K (frame_of e) f = uses U f + K f) as Huse.
  { intros f. rewrite (uses_delete U _ e) by done. unfold bump.
    rewrite (bool_decide_ext (f = frame_of e) (frame_of e = f)) by done. lia. }
  split; [done|..].
  - intros f Hf. rewrite Huse, Hfr. apply Hc. rewrite (uses_delete U _ e) in Hf by done.
    destruct (bool_decide (frame_of e = f)); cbn in Hf; lia.
  - intros f. destruct (Ho f) as [H0 H1]. pose proof (bump_ge K (frame_of e) f). split; [lia|].
    rewrite Hfr. intros Hf. rewrite bump_ne; [by apply H1|]. intros ->.
    by apply (fa_held_not_free _ _ (sp_inv _ _ _ _ Hs) Hh).
  - intros f Hf. rewrite bump_ne.
    + apply (kp_new _ _ _ _ _ _ Hk) in Hf as [?|?]; [by apply Ht|by apply Ho].
    + intros ->. by apply (kp_tables _ _ _ _ _ _ Hk (frame_of e)).
  - intros r' q x Hx Hxw. rewrite Huse. apply lookup_delete_Some in Hx as [_ Hx]. by apply (Hw r' q).
  - by rewrite Hcr.
Qed.

(** The kernel gives its reference back. *)
Lemma spaces_put_wp s R U K f (Q : Z → vm S → Prop) :
  spaces_ok s R U (bump K f) → (∀ g, 0 ≤ K g) → fa_held (vm_frames s) f → ¬ any_table (vm_mem s) R f →
  fr_count (vm_frames s) f = uses U f + K f + 1 → uses U f + K f + 1 < 2 ^ 32 →
  (∀ c fr', spaces_ok (set_frames fr' s) R U K → (uses U f + K f = 0 → fa_free fr' f) →
     (∀ g, fa_free (vm_frames s) g → fa_free fr' g) →
     untouched s R U (bump K f) (set_frames fr' s) R U K → Q c (set_frames fr' s)) →
  wp (on_frames (fr_put_phys f)) Q s.
Proof.
  intros [Hs Hc Ho Ht Hw Hse] HK Hh Hn Hcnt Hlt HQ. pose proof (uses_nonneg U f) as Hu0. specialize (HK f) as HKf.
  apply on_frames_wp. eapply wp_mono; [apply fr_put_law; [apply Hs|done|lia]|].
  intros c fr' (_ & Hinv & Hfree & Hheld & Hc'). apply HQ; [|intros Hz; apply Hfree; right; split; [done|lia]|intros g Hg; apply Hfree; by left|].
  2: { apply untouched_frames. intros g (_ & Hgf & _ & Hgu & HgK). pose proof (bump_ge K f g). specialize (HK g).
       split_and!; [|done|lia]. intros [?|[-> _]]%Hfree; [done|]. rewrite bump_eq in HgK. lia. }
  assert (∀ g, 0 < uses U g → fa_held (vm_frames s) g ∧ fa_held fr' g) as Hstay.
  { intros g Hg. destruct (uses_some U g Hg) as ([r' q] & x & Hx & Hxg).
    destruct (sp_data _ _ _ _ Hs r' q x Hx) as [Hhx _]. rewrite Hxg in Hhx. split; [done|].
    apply Hheld. split; [done|]. intros [-> ?]. lia. }
  split; cbn [vm_frames vm_mem set_frames].
  - eapply shape_frames; [done| | |exact Hs].
    + intros g Hg [Hf|[-> _]]%Hfree; [by apply (sp_tables _ _ _ _ Hs g)|done].
    + intros g Hg [Hgt|Hgu]; [|by apply Hstay]. apply Hheld. split; [done|]. by intros [-> _].
  - intros g Hg. destruct (Hc g Hg) as [Hcg Hcl]. destruct (Hstay g Hg) as [_ Hg']. rewrite Hc' by done.
    destruct (decide (g = f)) as [->|Hne]; [rewrite bump_eq in *; lia|rewrite bump_ne in * by done; lia].
  - intros g. split; [done|]. intros [Hg|[-> ?]]%Hfree; [|lia]. destruct (Ho g) as [_ Hz]. specialize (Hz Hg).
    pose proof (bump_ge K f g). specialize (HK g). lia.
  - intros g Hg. pose proof (bump_ge K f g). specialize (HK g). specialize (Ht g Hg). lia.
  - intros r' q x Hx Hxw. specialize (Hw r' q x Hx Hxw). pose proof (uses_pos U _ x Hx).
    destruct (decide (frame_of x = f)) as [Heq|Hne]; [rewrite Heq, bump_eq in *; lia|by rewrite bump_ne in Hw].
  - done.
Qed.

(** ** A page comes *)

(** The kernel takes a reference to a frame that nobody uses. *)
Lemma spaces_bump s R U K f :
  spaces_ok s R U K → ¬ fa_free (vm_frames s) f → ¬ any_table (vm_mem s) R f → uses U f = 0 →
  spaces_ok s R U (bump K f).
Proof.
  intros [Hs Hc Ho Ht Hw Hse] Hf Hn Hu.
  assert (∀ g, g ≠ f → bump K f g = K g) as Hne by apply bump_ne. split; [done|..].
  - intros g Hg. rewrite Hne by (intros ->; lia). by apply Hc.
  - intros g. destruct (Ho g). pose proof (bump_ge K f g). split; [lia|]. intros Hg.
    rewrite Hne by (by intros ->). auto.
  - intros g Hg. rewrite Hne by (by intros ->). by apply Ht.
  - intros r q x Hx Hxw. pose proof (uses_pos U _ x Hx). rewrite Hne; [by apply (Hw r q)|]. intros Heq. rewrite Heq in *. lia.
  - done.
Qed.

(** A new entry takes the kernel's reference. *)
Lemma spaces_mapped s s' R U K r p f e' :
  spaces_ok s R U (bump K f) → (∀ g, 0 ≤ K g) → fa_held (vm_frames s) f →
  fr_count (vm_frames s) f = uses U f + K f + 1 → uses U f + K f + 1 < 2 ^ 32 → U !! (r, p) = None →
  frame_of e' = f → (has e' PTE_WRITABLE = true → uses U f + K f = 0) →
  kept r R (vm_frames s) (vm_mem s) (vm_frames s') (vm_mem s') →
  shape (vm_frames s') (vm_mem s') R (<[(r, p) := e']> U) → vm_cr3 s' = vm_cr3 s →
  spaces_ok s' R (<[(r, p) := e']> U) K.
Proof.
  intros [Hs Hc Ho Ht Hw Hse] HK Hh Hcnt Hlt Hnew Hf Hsole Hk Hs' Hcr.
  assert (∀ g, uses (<[(r, p) := e']> U) g = uses U g + is1 (bool_decide (g = f))) as Huse.
  { intros g. rewrite uses_insert_new by done. rewrite Hf. do 2 f_equal. apply bool_decide_ext. done. }
  split.
  - done.
  - intros g. rewrite Huse. destruct (decide (g = f)) as [->|Hne].
    + intros _. destruct (kp_held _ _ _ _ _ _ Hk f Hh) as [_ ->]. rewrite bool_decide_eq_true_2 by done. cbn. lia.
    + rewrite bool_decide_eq_false_2 by done. cbn [is1]. rewrite Z.add_0_r. intros Hg.
      destruct (Hc g Hg) as [Hcg Hcl]. rewrite bump_ne in Hcg, Hcl by done.
      destruct (uses_some U g Hg) as ([r' q] & x & Hx & Hxg). destruct (sp_data _ _ _ _ Hs r' q x Hx) as [Hhx _].
      rewrite Hxg in Hhx. destruct (kp_held _ _ _ _ _ _ Hk g Hhx) as [_ ->]. lia.
  - intros g. split; [done|]. intros Hg%(kp_free _ _ _ _ _ _ Hk). destruct (Ho g) as [_ Hz]. specialize (Hz Hg).
    pose proof (bump_ge K f g). specialize (HK g). lia.
  - intros g Hg%(kp_new _ _ _ _ _ _ Hk). pose proof (bump_ge K f g). specialize (HK g).
    assert (bump K f g = 0) by (destruct Hg; [by apply Ht|by apply Ho]). lia.
  - intros r' q x [[[= <- <-] <-]|[Hne Hx]]%lookup_insert_Some Hxw; rewrite Huse.
    + rewrite Hf, bool_decide_eq_true_2 by done. specialize (Hsole Hxw). cbn. lia.
    + specialize (Hw r' q x Hx Hxw). unfold bump in Hw. lia.
  - by rewrite Hcr.
Qed.

(** A frame that is no table is cleared. *)
Lemma spaces_zeroed s R U K g m1 :
  spaces_ok s R U K → ¬ any_table (vm_mem s) R g → zeroed g (vm_mem s) m1 →
  spaces_ok (Vm (vm_frames s) m1 (vm_cr3 s)) R U K ∧ ∀ f, any_table m1 R f ↔ any_table (vm_mem s) R f.
Proof.
  intros [Hs Hc Ho Ht Hw Hse] Hn [_ Hz].
  destruct (shape_mem (vm_frames s) (vm_mem s) m1 R U) as [Hs1 Hsame]; [|done|].
  { intros f i Hf Hft Hi. apply Hz; [done|by intros ->|done]. }
  assert (∀ f, any_table m1 R f ↔ any_table (vm_mem s) R f) as Hany.
  { intros f. split; intros (r & w & k & Hr & Hk & Hf); exists r, w, k; (split; [done|split; [done|]]).
    - by rewrite Hsame in Hf.
    - by rewrite Hsame. }
  split; [|done]. split; auto. intros f ?%Hany. auto.
Qed.

(** A frame that nobody uses is freed. *)
Lemma spaces_free_wp s R U K g (Q : unit → vm S → Prop) :
  spaces_ok s R U K → fa_held (vm_frames s) g → ¬ any_table (vm_mem s) R g → uses U g = 0 → K g = 0 →
  (∀ fr', spaces_ok (set_frames fr' s) R U K → untouched s R U (bump K g) (set_frames fr' s) R U K →
     (∀ f, fa_free fr' f ↔ fa_free (vm_frames s) f ∨ f = g) → Q tt (set_frames fr' s)) →
  wp (on_frames (fa_free_page g)) Q s.
Proof.
  intros [Hs Hc Ho Ht Hw Hse] Hh Hn Hu HK HQ. apply on_frames_wp.
  eapply wp_mono; [apply fr_free_law; [apply Hs|done]|]. intros [] fr' (Hinv & Hfree & Hheld & Hcnt). apply HQ; [| |done].
  2: { apply untouched_frames. intros f (_ & Hff & _ & Hfu & HfK). destruct (decide (f = g)) as [->|Hfg].
       - rewrite bump_eq in HfK. lia.
       - rewrite bump_ne in HfK by done. split_and!; [|done|done]. by intros [?|?]%Hfree. }
  assert (∀ f, 0 < uses U f → fa_held fr' f) as Hstay.
  { intros f Hf. destruct (uses_some U f Hf) as ([r' q] & x & Hx & Hxf). apply Hheld. split; [|by intros ->; lia].
    rewrite <-Hxf. by apply (sp_data _ _ _ _ Hs r' q). }
  split; cbn [vm_frames vm_mem set_frames]; [|..|done|done|done].
  - eapply shape_frames; [done| | |exact Hs].
    + intros f Hf [?| ->]%Hfree; [by apply (sp_tables _ _ _ _ Hs f)|done].
    + intros f Hf [Hft|?]; [|by apply Hstay]. apply Hheld. split; [done|]. by intros ->.
  - intros f Hf. rewrite Hcnt by by apply Hstay. by apply Hc.
  - intros f. destruct (Ho f). split; [done|]. intros [?| ->]%Hfree; auto.
Qed.

(** A page of zeros in a frame of its own. *)
Record fresh_page s w R U K g : Prop := FreshPage {
  fp_ok : spaces_ok w R U K;
  fp_cr3 : vm_cr3 w = vm_cr3 s;
  fp_held : fa_held (vm_frames w) g ∧ fr_count (vm_frames w) g = 1;
  fp_none : ¬ any_table (vm_mem w) R g ∧ uses U g = 0 ∧ K g = 0;
  fp_lost : (∀ f, any_table (vm_mem s) R f → any_table (vm_mem w) R f) ∧
    ∀ f, fa_free (vm_frames s) f → f = g ∨ fa_free (vm_frames w) f;
  fp_untouched : untouched s R U K w R U (bump K g);
  fp_zero : ∀ i, 0 ≤ i < 512 → rd_mem (vm_mem w) (g + 8 * i) = 0;
  fp_words : ∀ (k : Z * Z) e i, U !! k = Some e → 0 ≤ i < 512 →
    rd_mem (vm_mem w) (frame_of e + 8 * i) = rd_mem (vm_mem s) (frame_of e + 8 * i) }.

Lemma fresh_page_intro s R U K g fr m1 :
  spaces_ok s R U K → fa_inv fr → fa_free (vm_frames s) g →
  (∀ f, fa_free fr f ↔ fa_free (vm_frames s) f ∧ f ≠ g) →
  (∀ f, fa_held fr f ↔ fa_held (vm_frames s) f ∨ f = g) → fr_count fr g = 1 →
  (∀ f, fa_held (vm_frames s) f → fr_count fr f = fr_count (vm_frames s) f) →
  zeroed g (vm_mem s) m1 → fresh_page s (Vm fr m1 (vm_cr3 s)) R U K g.
Proof.
  intros Hp Hinv Hg Hfree Hheld Hg1 Hcnt Hz.
  destruct (spaces_alloc s R U K g fr Hp Hinv Hg Hfree Hheld Hcnt) as (Hp1 & Hug & HKg & Hng).
  destruct (spaces_zeroed _ R U K g m1 Hp1 Hng Hz) as [Hp2 Hany]. cbn [vm_frames vm_cr3 set_frames] in *.
  split; cbn [vm_frames vm_mem];
    [done|done|split; [apply Hheld; by right|done]|by rewrite Hany|split; [by intros f ?%Hany|]| |apply Hz|].
  { intros f Hf. destruct (decide (f = g)) as [->|]; [by left|right]. by apply Hfree. }
  { intros f (Hfa & Hff & Hfo & Hfu & HfK). assert (f ≠ g) as Hfg by (by intros ->).
    destruct (shape_mem fr (vm_mem s) m1 R U) as [_ Hsame]; [|apply Hp1|].
    { intros h i Hh Hht Hi. apply Hz; [done|by intros ->|done]. }
    split; [|intros i Hi; by apply Hz]. split_and!; cbn [vm_frames vm_mem]; [done|by intros [? _]%Hfree| |done|by rewrite bump_ne].
    intros r w k Hr (H1 & H2 & H3). rewrite Hsame in H2 by done. apply (Hfo r w k Hr). by split_and!. }
  intros [r q] e i He Hi. destruct (sp_data _ _ _ _ (so_shape _ _ _ _ Hp2) r q e He) as [Hh Hn].
  apply Hz; [by apply (fa_held_addr fr)| |done]. intros Heq. pose proof (uses_pos U _ e He). rewrite Heq in *. lia.
Qed.

(** An operation that only made tables. *)
Lemma spaces_kept s s' R U K r :
  spaces_ok s R U K → kept r R (vm_frames s) (vm_mem s) (vm_frames s') (vm_mem s') →
  shape (vm_frames s') (vm_mem s') R U → vm_cr3 s' = vm_cr3 s → spaces_ok s' R U K.
Proof.
  intros [Hs Hc Ho Ht Hw Hse] Hk Hs' Hcr. split; [done| | | |done|by rewrite Hcr].
  - intros g Hg. destruct (Hc g Hg) as [Hcg Hcl]. split; [|done].
    destruct (uses_some _ g Hg) as ([r' q] & x & Hx & <-). destruct (sp_data _ _ _ _ Hs r' q x Hx) as [Hh _].
    by destruct (kp_held _ _ _ _ _ _ Hk _ Hh) as [_ ->].
  - intros g. destruct (Ho g) as [H1 H2]. split; [done|]. intros Hg%(kp_free _ _ _ _ _ _ Hk). auto.
  - intros g [?|?]%(kp_new _ _ _ _ _ _ Hk); [by apply Ht|by apply Ho].
Qed.

End pages.

(** ** The operations *)

Section ops.
Context {H : Type} {KH : KHeap H} {KHL : KHeapLaws H}.
Context {S : Type} {FA : FrameAlloc S} {FL : FrameLaws S} {FR : FrameRefs S} {FRL : FrameRefsLaws S}.
Implicit Types (s : asys H S) (C : gmap Z Z) (B : blocks) (Ls : gmap Z areas) (R : gset Z)
  (U : gmap (Z * Z) Z) (K : Z → Z) (x r v p q i n : Z) (a : address_space).

Abbreviation mem s := (vm_mem (ay_vm s)).

(** A frame is free, holds a table or is mapped: it is not lost. *)
Definition accounted (w : vm S) R U (f : Z) : Prop :=
  fa_free (vm_frames w) f ∨ any_table (vm_mem w) R f ∨ 0 < uses U f.

(** The state [s'] has the pages [U'] where [s] had [U], and counts [n] pages for
    the address space at [x]; nothing else changed, and no frame is lost. *)
Record repaged s s' C B Ls R U U' K x a n : Prop := Repaged {
  rp_ok : asys_ok s' C B Ls R U' K;
  rp_spaces : ay_spaces s' = <[x := set_as_user_pages n a]> (ay_spaces s);
  rp_cr3 : vm_cr3 (ay_vm s') = vm_cr3 (ay_vm s);
  rp_untouched : untouched (ay_vm s) R U K (ay_vm s') R U' K;
  rp_views : ∀ k : Z * Z, U' !! k = U !! k → ∀ i, 0 ≤ i < 512 →
    view (mem s') U' k.1 k.2 i = view (mem s) U k.1 k.2 i;
  rp_frames : ∀ f, K f = 0 → accounted (ay_vm s) R U f → accounted (ay_vm s') R U' f }.

Lemma set_user_pages_id a : set_as_user_pages (as_user_pages a) a = a.
Proof. by destruct a. Qed.

Lemma repaged_refl s C B Ls R U K x a :
  asys_ok s C B Ls R U K → ay_spaces s !! x = Some a → repaged s s C B Ls R U U K x a (as_user_pages a).
Proof. intros Hok Hx. split; try done. by rewrite set_user_pages_id, insert_id. Qed.

(** Pages came or went below, and the count was set. *)
Lemma repaged_intro s (w : vm S) C B Ls R U U' K x a n :
  asys_ok s C B Ls R U K → ay_spaces s !! x = Some a → spaces_ok w R U' K → vm_cr3 w = vm_cr3 (ay_vm s) →
  untouched (ay_vm s) R U K w R U' K →
  (∀ (k : Z * Z) e i, U !! k = Some e → 0 ≤ i < 512 →
     rd_mem (vm_mem w) (frame_of e + 8 * i) = rd_mem (mem s) (frame_of e + 8 * i)) →
  (∀ f, K f = 0 → accounted (ay_vm s) R U f → accounted w R U' f) →
  repaged s (set_ay_spaces (<[x := set_as_user_pages n a]> (ay_spaces s)) (set_ay_vm w s)) C B Ls R U U' K x a n.
Proof.
  intros Hok Hx Hw Hcr Hun Hwords Hacc. split; cbn [ay_spaces ay_vm set_ay_spaces set_ay_vm].
  - apply (asys_user_pages (set_ay_vm w s)); [by apply (asys_pages s C B Ls R U)|done].
  - done.
  - done.
  - done.
  - intros [r q] Hk i Hi. cbn [fst snd]. unfold view. rewrite Hk. destruct (U !! (r, q)) as [e|] eqn:He; [|done].
    cbn. f_equal. by apply (Hwords (r, q)).
  - done.
Qed.

(** The number of pages after one is taken away at [p]. *)
Definition one_less U r p (n : Z) : Z :=
  match U !! (r, p) with Some _ => if 0 <? n then n - 1 else n | None => n end.

Lemma as_free_page_wp s C B Ls R U K x a v :
  asys_ok s C B Ls R U K → ay_spaces s !! x = Some a → 0 ≤ v < 2 ^ 64 → user v →
  wp (as_free_page (Some (UserAs x)) v)
    (λ _ s', repaged s s' C B Ls R U (delete (as_root a, vpn v) U) K x a
         (one_less U (as_root a) (vpn v) (as_user_pages a)) ∧
       ∀ e, U !! (as_root a, vpn v) = Some e → uses U (frame_of e) + K (frame_of e) = 1 →
         fa_free (vm_frames (ay_vm s')) (frame_of e)) s.
Proof.
  intros Hok Hx Hv Hu. pose proof (ao_pages _ _ _ _ _ _ _ Hok) as Hp. pose proof (so_shape _ _ _ _ Hp) as Hs.
  assert (as_root a ∈ R) as Hr by apply (ao_space _ _ _ _ _ _ _ Hok x a Hx).
  unfold as_free_page, as_unmap_page. wp_step. wp_step. eapply rd_user_wp; [done|]. apply wp_zoom.
  eapply wp_mono; [by apply (unmap_in_wp (ay_vm s) R U (as_cr3 a) (as_root a) v); [|apply Hp|..]|]. unfold one_less.
  intros res w (Hcr & Hfr & Hk & Hs' & ->).
  assert (∀ (k : Z * Z) e i, U !! k = Some e → 0 ≤ i < 512 →
     rd_mem (vm_mem w) (frame_of e + 8 * i) = rd_mem (mem s) (frame_of e + 8 * i)) as Hwords.
  { intros [r q] e i He Hi. destruct (sp_data _ _ _ _ Hs r q e He) as [Hh Hn]. by apply (kp_words _ _ _ _ _ _ Hk). }
  destruct (U !! (as_root a, vpn v)) as [e|] eqn:He.
  - destruct (spaces_entry _ R U K _ _ e Hp He) as (Hh & Hn & Ha & Hu1 & Hcnt & Hlt & HKe).
    rewrite (proj2 (Z.eqb_neq (frame_of e) 0)) by (destruct Ha; lia). wp_step. apply wp_zoom. cbn [ay_vm set_ay_vm].
    pose proof (uses_delete U _ e (frame_of e) He) as Hud. rewrite bool_decide_eq_true_2 in Hud by done. cbn in Hud.
    apply (spaces_put_wp w R (delete (as_root a, vpn v) U) K (frame_of e)).
    + by apply (spaces_unmapped (ay_vm s)).
    + apply (so_others _ _ _ _ Hp).
    + by rewrite Hfr.
    + by apply (kp_tables _ _ _ _ _ _ Hk).
    + rewrite Hfr, Hcnt. lia.
    + lia.
    + intros c fr' Hok' Hgone Hfmore Hun2. wp_step. eapply rd_user_wp; [done|].
      assert (untouched (ay_vm s) R U K (set_frames fr' w) R (delete (as_root a, vpn v) U) K) as Hun.
      { eapply untouched_trans; [|exact Hun2]. apply (untouched_kept _ _ _ _ _ _ _ (as_root a)); [done|done|].
        intros f (_ & _ & _ & Hfu & HfK). assert (f ≠ frame_of e) by (intros ->; lia).
        rewrite (uses_delete U _ e), bool_decide_eq_false_2, bump_ne by (done || congruence). cbn. lia. }
      assert (∀ f, K f = 0 → accounted (ay_vm s) R U f →
        accounted (set_frames fr' w) R (delete (as_root a, vpn v) U) f) as Hacc.
      { intros f Hf0 [Hf|[Hf|Hf]]; [left; apply Hfmore; by rewrite Hfr|right; left; by eapply kept_any_table|].
        destruct (decide (f = frame_of e)) as [->|Hne].
        - destruct (decide (uses U (frame_of e) = 1)); [left; apply Hgone; lia|right; right; lia].
        - right; right. rewrite (uses_delete U _ e), bool_decide_eq_false_2 by (done || congruence). cbn. lia. }
      assert (∀ n, repaged s (set_ay_spaces (<[x := set_as_user_pages n a]> (ay_spaces s)) (set_ay_vm (set_frames fr' w) s))
        C B Ls R U (delete (as_root a, vpn v) U) K x a n) as Hrep by (intros n; by apply repaged_intro).
      destruct (0 <? as_user_pages a).
      * eapply upd_user_wp; [done|]. split; [apply Hrep|]. intros e' [= <-] Huse. cbn. apply Hgone. lia.
      * wp_step. split; [|intros e' [= <-] Huse; cbn; apply Hgone; lia].
        specialize (Hrep (as_user_pages a)). rewrite set_user_pages_id, insert_id in Hrep by done. exact Hrep.
  - cbn [Z.eqb]. wp_step. split; [|done]. rewrite delete_id in Hs' |- * by done.
    pose proof (repaged_intro s w C B Ls R U U K x a (as_user_pages a) Hok Hx) as Hrep.
    rewrite set_user_pages_id, insert_id in Hrep by done. apply Hrep; [|done| |done|].
    + by apply (spaces_kept (ay_vm s) w R U K (as_root a)).
    + apply (untouched_kept _ _ _ _ _ _ _ (as_root a)); [done|done|]. by intros f (_ & _ & _ & ? & ?).
    + intros f _ [Hf|[Hf|Hf]]; [left; by rewrite Hfr|right; left; by eapply kept_any_table|by right; right].
Qed.

Lemma user_addr v : 0 ≤ v → as_is_user_addr v = true → user v ∧ 0 ≤ v < 2 ^ 64.
Proof.
  unfold as_is_user_addr, user, vpn, PAGE_SIZE. intros H0 Hv%Z.ltb_lt. split; [|lia].
  rewrite Z.mod_small; Z.to_euclidean_division_equations; lia.
Qed.

Lemma user_entry_writable f flags :
  has (make_pte f (Z.lor flags PTE_USER)) PTE_WRITABLE = has flags PTE_WRITABLE.
Proof.
  unfold make_pte, PTE_WRITABLE, PTE_USER, PTE_PRESENT. rewrite !has_bit by lia.
  rewrite testbit_lor_flag, Z.lor_spec, !Z.land_spec, testbit_lor_flag by lia.
  change (Z.testbit PTE_ADDR_MASK 1) with false. change (Z.testbit (wrap64 (Z.lnot PTE_ADDR_MASK)) 1) with true.
  cbn. by rewrite andb_false_r, andb_true_r.
Qed.

(** The new page of the address space [a] at [v]: zeros, counted, and writable if
    asked. *)
Definition new_page s s' C B Ls R U K x a v flags : Prop := ∃ e,
  repaged s s' C B Ls R U (<[(as_root a, vpn v) := e]> U) K x a (as_user_pages a +u64 1) ∧
  has e PTE_WRITABLE = has flags PTE_WRITABLE ∧
  ∀ i, 0 ≤ i < 512 → view (mem s') (<[(as_root a, vpn v) := e]> U) (as_root a) (vpn v) i = Some 0.

(** A fresh page is mapped, or freed when there is no frame for a table. *)
Lemma map_fresh_wp s w C B Ls R U K x a v g flags :
  asys_ok s C B Ls R U K → ay_spaces s !! x = Some a → user v → 0 ≤ v < 2 ^ 64 → U !! (as_root a, vpn v) = None →
  fresh_page (ay_vm s) w R U K g →
  wp (r ← as_map_page (Some (UserAs x)) v g (Z.lor flags PTE_USER);
      if negb (r =? 0) then vm_ (on_frames (fa_free_page g)) ;; mret (-1)
      else upd_as (UserAs x) (λ a, set_as_user_pages (as_user_pages a +u64 1) a) ;; mret 0) (λ res s',
    (res = -1 ∧ repaged s s' C B Ls R U U K x a (as_user_pages a)) ∨
    (res = 0 ∧ new_page s s' C B Ls R U K x a v flags)) (set_ay_vm w s).
Proof.
  intros Hok Hx Hu Hv Hnew [Hw Hcw [Hgh Hg1] (Hgn & Hug & HKg) [Hlt Hlf] Hunw Hzero Hww].
  pose proof (so_shape _ _ _ _ Hw) as Hs. pose proof (fa_held_addr _ _ (sp_inv _ _ _ _ Hs) Hgh) as Hga.
  assert (as_root a ∈ R) as Hr by apply (ao_space _ _ _ _ _ _ _ Hok x a Hx).
  wp_step. unfold as_map_page. wp_step. eapply rd_user_wp; [done|]. apply wp_zoom. cbn [ay_vm set_ay_vm].
  eapply wp_mono; [by apply (map_in_wp w R U (as_cr3 a) (as_root a) v g); [|apply Hw|..]|].
  intros res w2 (Hcr & Hk & Hres).
  assert (∀ f, accounted (ay_vm s) R U f → f = g ∨ accounted w2 R U f) as Hacc.
  { intros f [[->|Hf]%Hlf|[Hf|Hf]]; [by left|right..|by right; right; right].
    - apply (kp_lost _ _ _ _ _ _ Hk) in Hf as [?|?]; [by left|by right; left].
    - right; left. eapply kept_any_table; [exact Hk|]. auto. }
  assert (∀ (k : Z * Z) e i, U !! k = Some e → 0 ≤ i < 512 →
     rd_mem (vm_mem w2) (frame_of e + 8 * i) = rd_mem (mem s) (frame_of e + 8 * i)) as Hwords.
  { intros [r q] e i He Hi. destruct (sp_data _ _ _ _ Hs r q e He) as [Hh Hn].
    rewrite (kp_words _ _ _ _ _ _ Hk) by done. by apply (Hww (r, q)). }
  destruct Hres as [(-> & Hs2)|(-> & Hs2 & _ & _)].
  - change (negb (0 =? 0)) with false. cbv iota. wp_step. eapply upd_user_wp; [done|]. wp_step. right. split; [done|].
    exists (make_pte g (Z.lor flags PTE_USER)). split_and!; [|apply user_entry_writable|].
    + apply (repaged_intro s w2); try done; [|congruence| |].
      3: { intros f Hf0 [->|Ha]%Hacc; [right; right|destruct Ha as [?|[?|Ha]]; [by left|by right; left|right; right]];
             rewrite uses_insert_new, make_pte_frame, frame_of_frame by done; [|destruct (bool_decide _); cbn; lia].
           rewrite bool_decide_eq_true_2 by done. cbn. lia. }
      2: { eapply untouched_trans; [exact Hunw|]. apply (untouched_kept _ _ _ _ _ _ _ (as_root a)); [done|done|].
           intros f (_ & _ & _ & Hfu & HfK). assert (f ≠ g) as Hfg by (intros ->; rewrite bump_eq in HfK; lia).
           rewrite bump_ne in HfK by done. split; [|done].
           rewrite uses_insert_new, bool_decide_eq_false_2 by (done || by rewrite make_pte_frame, frame_of_frame).
           cbn. lia. }
      apply (spaces_mapped w w2 R U K (as_root a) (vpn v) g); try done; try lia.
      * apply spaces_bump; [done| |done|done]. by apply fa_held_not_free; [apply Hs|].
      * apply (so_others _ _ _ _ Hw).
      * by rewrite make_pte_frame, frame_of_frame.
    + intros i Hi. cbn [ay_vm set_ay_spaces set_ay_vm]. unfold view. rewrite lookup_insert_eq.
      cbn [fmap option_fmap option_map]. rewrite make_pte_frame, frame_of_frame by done. f_equal.
      rewrite (kp_words _ _ _ _ _ _ Hk) by done. by apply Hzero.
  - change (negb (-1 =? 0)) with true. cbv iota. wp_step. apply wp_zoom. cbn [ay_vm set_ay_vm].
    apply (spaces_free_wp w2 R U K g); [by apply (spaces_kept w w2 R U K (as_root a))| | |done|done|].
    + by apply (kp_held _ _ _ _ _ _ Hk).
    + by apply (kp_tables _ _ _ _ _ _ Hk).
    + intros fr' Hok' Hun2 Hfree2. wp_step. left. split; [done|].
      pose proof (repaged_intro s (set_frames fr' w2) C B Ls R U U K x a (as_user_pages a) Hok Hx) as Hrep.
      rewrite set_user_pages_id, insert_id in Hrep by done. apply Hrep; [done|cbn; congruence| |done|].
      2: { intros f _ [->|[?|?]]%Hacc; [left|left|by right]; apply Hfree2; [by right|by left]. }
      eapply untouched_trans; [exact Hunw|]. eapply untouched_trans; [|exact Hun2].
      apply (untouched_kept _ _ _ _ _ _ _ (as_root a)); [done|done|]. by intros f (_ & _ & _ & ? & ?).
Qed.

Lemma as_alloc_page_wp s C B Ls R U K x a v flags :
  asys_ok s C B Ls R U K → ay_spaces s !! x = Some a → 0 ≤ v →
  (as_is_user_addr v = true → U !! (as_root a, vpn v) = None) →
  wp (as_alloc_page (Some (UserAs x)) v flags) (λ res s',
    (res = -1 ∧ repaged s s' C B Ls R U U K x a (as_user_pages a)) ∨
    (res = 0 ∧ as_is_user_addr v = true ∧ new_page s s' C B Ls R U K x a v flags)) s.
Proof.
  intros Hok Hx Hv0 Hnew. pose proof (repaged_refl s C B Ls R U K x a Hok Hx) as Hsame.
  pose proof (ao_pages _ _ _ _ _ _ _ Hok) as Hp. pose proof (sp_inv _ _ _ _ (so_shape _ _ _ _ Hp)) as Hi.
  unfold as_alloc_page. destruct (as_is_user_addr v) eqn:Huv; cbn [negb]; [|wp_step; by left].
  destruct (user_addr v Hv0 Huv) as [Hu Hv]. wp_step. apply wp_zoom, on_frames_wp.
  eapply wp_mono; [by apply fr_alloc_law|]. intros g fr (Hinv & [(-> & -> & _)|(Hg & Hfree & Hheld & Hg1 & Hcnt)]).
  { cbn [Z.eqb]. wp_step. left. split; [done|]. by destruct s as [? [] ? ? ?]. }
  pose proof (fa_free_addr _ _ Hi Hg) as Hga. rewrite (proj2 (Z.eqb_neq g 0)) by (destruct Hga; lia).
  wp_step. apply wp_zoom. cbn [ay_vm set_ay_vm]. apply zero_words_wp; [by apply (so_sees _ _ _ _ Hp), (fa_free_in _ _ Hi)|].
  intros m1 Hz.
  cbn [vm_frames vm_cr3 vm_mem set_frames] in *.
  pose proof (fresh_page_intro (ay_vm s) R U K g fr m1 Hp Hinv Hg Hfree Hheld Hg1 Hcnt Hz) as Hfp.
  eapply wp_mono; [exact (map_fresh_wp s _ C B Ls R U K x a v g flags Hok Hx Hu Hv (Hnew eq_refl) Hfp)|].
  intros res s' [?|[-> ?]]; [by left|by right].
Qed.

(** ** A range of pages *)

Lemma repaged_trans s s1 s2 C B Ls R U U1 U2 K x a n n2 :
  repaged s s1 C B Ls R U U1 K x a n → repaged s1 s2 C B Ls R U1 U2 K x (set_as_user_pages n a) n2 → U ⊆ U1 →
  repaged s s2 C B Ls R U U2 K x a n2.
Proof.
  intros [A1 A2 A3 A5 A4 A6] [B1 B2 B3 B5 B4 B6] Hsub. split; [done| |congruence|by eapply untouched_trans| |auto].
  - rewrite B2, A2, insert_insert_eq. done.
  - intros k Hk i Hi. destruct (U !! k) as [e|] eqn:He.
    + assert (U1 !! k = Some e) as He1 by (by apply (lookup_weaken U U1 k e)). rewrite B4, A4 by (done || congruence). done.
    + destruct k as [r q]. unfold view. cbn [fst snd]. by rewrite Hk, He.
Qed.

(** [U'] is [U] but for the pages from [p] up to [p'] of [r]. *)
Definition outside U U' r p p' : Prop := ∀ k : Z * Z, ¬ (k.1 = r ∧ p ≤ k.2 < p') → U' !! k = U !! k.

Lemma outside_sub U U' r p p' : outside U U' r p p' → (∀ q, p ≤ q < p' → U !! (r, q) = None) → U ⊆ U'.
Proof.
  intros Ho Hn. apply map_subseteq_spec. intros [r' q] e He. rewrite Ho; [done|]. cbn. intros [-> Hq].
  rewrite Hn in He by done. done.
Qed.

Lemma user_page v i :
  0 ≤ v → 0 ≤ i → v mod PAGE_SIZE = 0 → as_is_user_addr (v + i * PAGE_SIZE) = true →
  vpn (v + i * PAGE_SIZE) = v / PAGE_SIZE + i ∧ 0 ≤ v / PAGE_SIZE + i < 2 ^ 35.
Proof.
  unfold as_is_user_addr, vpn, PAGE_SIZE. intros Hv Hi Hm Hu%Z.ltb_lt. rewrite Z.div_add by lia.
  rewrite Z.mod_small; Z.to_euclidean_division_equations; lia.
Qed.

(** The pages made so far are given back. *)
Lemma free_range_wp s C B Ls R U U1 K x a v i s1 n1 :
  asys_ok s C B Ls R U K → ay_spaces s !! x = Some a → 0 ≤ v → v mod PAGE_SIZE = 0 → 0 ≤ i →
  (∀ j, 0 ≤ j < i → as_is_user_addr (v + j * PAGE_SIZE) = true) →
  (∀ q, v / PAGE_SIZE ≤ q < v / PAGE_SIZE + i → U !! (as_root a, q) = None ∧ is_Some (U1 !! (as_root a, q))) →
  repaged s s1 C B Ls R U U1 K x a n1 → outside U U1 (as_root a) (v / PAGE_SIZE) (v / PAGE_SIZE + i) →
  wp (for_ 0 i (λ j, as_free_page (Some (UserAs x)) (v +u64 (j *u64 PAGE_SIZE))))
    (λ _ s', ∃ n, repaged s s' C B Ls R U U K x a n ∧ (i ≤ n1 → n = n1 - i)) s1.
Proof.
  intros Hok Hx Hv Hm Hi Hus Hno Hr1 Ho1.
  apply (wp_for (λ j s', ∃ U' n, repaged s s' C B Ls R U U' K x a n ∧ (i ≤ n1 → n = n1 - j) ∧
    outside U U' (as_root a) (v / PAGE_SIZE + j) (v / PAGE_SIZE + i) ∧
    ∀ q, v / PAGE_SIZE + j ≤ q < v / PAGE_SIZE + i → is_Some (U' !! (as_root a, q)))).
  - exists U1, n1. rewrite Z.add_0_r. split_and!; [done|lia|done|]. intros q Hq. by apply Hno.
  - intros j s' Hj (U' & n & Hr & Hn & Ho & Hpres). pose proof (rp_spaces _ _ _ _ _ _ _ _ _ _ _ _ Hr) as Hsp.
    assert (as_is_user_addr (v + j * PAGE_SIZE) = true) as Huj by (apply Hus; lia).
    destruct (user_page v j Hv ltac:(lia) Hm Huj) as [Hvj Hpj].
    destruct (user_addr (v + j * PAGE_SIZE) ltac:(unfold PAGE_SIZE; lia) Huj) as [Hu Hv64].
    assert (v +u64 (j *u64 PAGE_SIZE) = v + j * PAGE_SIZE) as ->.
    { unfold PAGE_SIZE in *. rewrite (wrap_small 64 (j * 4096)) by lia. apply wrap_small. lia. }
    eapply wp_mono.
    { apply (as_free_page_wp s' C B Ls R U' K x (set_as_user_pages n a)); [apply Hr| |done|done].
      by rewrite Hsp, lookup_insert_eq. }
    change (as_root (set_as_user_pages n a)) with (as_root a). rewrite Hvj. intros [] s2 [Hr2 _].
    unfold one_less in Hr2. destruct (Hpres (v / PAGE_SIZE + j)) as [e He]; [lia|]. rewrite He in Hr2.
    cbn [as_user_pages set_as_user_pages] in Hr2.
    exists (delete (as_root a, v / PAGE_SIZE + j) U'). eexists. split; [|split; [|split]].
    + eapply (repaged_trans s s' s2); [exact Hr|exact Hr2|].
      apply (outside_sub U U' (as_root a) _ _ Ho). intros q Hq. apply Hno. lia.
    + intros Hle. specialize (Hn Hle). rewrite (proj2 (Z.ltb_lt 0 n)) by lia. lia.
    + intros [r q] Hk. cbn [fst snd] in Hk. destruct (decide ((r, q) = (as_root a, v / PAGE_SIZE + j))) as [[= -> ->]|Hne].
      * rewrite lookup_delete_eq. symmetry. apply Hno. lia.
      * rewrite lookup_delete_ne by congruence. apply Ho. cbn. intros [-> ?]. apply Hk. split; [done|].
        assert (q ≠ v / PAGE_SIZE + j) by congruence. lia.
    + intros q Hq. rewrite lookup_delete_ne by (intros [=]; lia). apply Hpres. lia.
  - rewrite Z.max_r by done. intros s' (U' & n & Hr & Hn & Ho & _).
    assert (U' = U) as ->; [|by exists n]. apply map_eq. intros [r q]. apply Ho. cbn. lia.
Qed.

(** The [i] pages from the address [v] on are new: zeros, counted, writable if
    asked. *)
Definition new_pages s s' C B Ls R U K x a v i flags : Prop := ∃ U',
  repaged s s' C B Ls R U U' K x a (as_user_pages a +u64 i) ∧
  outside U U' (as_root a) (v / PAGE_SIZE) (v / PAGE_SIZE + i) ∧
  ∀ j, 0 ≤ j < i → as_is_user_addr (v + j * PAGE_SIZE) = true ∧
    ∃ e, U' !! (as_root a, v / PAGE_SIZE + j) = Some e ∧ has e PTE_WRITABLE = has flags PTE_WRITABLE ∧
      ∀ k, 0 ≤ k < 512 → view (mem s') U' (as_root a) (v / PAGE_SIZE + j) k = Some 0.

(** One more page. *)
Lemma new_pages_next s s1 s2 C B Ls R U U1 K x a v i flags :
  0 ≤ i → 0 ≤ v → v mod PAGE_SIZE = 0 → as_is_user_addr (v + i * PAGE_SIZE) = true →
  (∀ q, v / PAGE_SIZE ≤ q < v / PAGE_SIZE + i → U !! (as_root a, q) = None) →
  repaged s s1 C B Ls R U U1 K x a (as_user_pages a +u64 i) →
  outside U U1 (as_root a) (v / PAGE_SIZE) (v / PAGE_SIZE + i) →
  (∀ j, 0 ≤ j < i → as_is_user_addr (v + j * PAGE_SIZE) = true ∧
    ∃ e, U1 !! (as_root a, v / PAGE_SIZE + j) = Some e ∧ has e PTE_WRITABLE = has flags PTE_WRITABLE ∧
      ∀ k, 0 ≤ k < 512 → view (mem s1) U1 (as_root a) (v / PAGE_SIZE + j) k = Some 0) →
  new_page s1 s2 C B Ls R U1 K x (set_as_user_pages (as_user_pages a +u64 i) a) (v + i * PAGE_SIZE) flags →
  new_pages s s2 C B Ls R U K x a v (i + 1) flags.
Proof.
  intros Hi Hv Hm Hui Hno Hr1 Ho Hpages (e & Hr2 & Hew & Hez).
  change (as_root (set_as_user_pages (as_user_pages a +u64 i) a)) with (as_root a) in *.
  cbn [as_user_pages set_as_user_pages] in Hr2.
  destruct (user_page v i Hv Hi Hm Hui) as [Hvi _]. rewrite Hvi in *.
  eexists. split; [|split].
  - replace (as_user_pages a +u64 (i + 1)) with (as_user_pages a +u64 i +u64 1)
      by (unfold wrap; rewrite Z.add_mod_idemp_l by done; f_equal; lia).
    by eapply (repaged_trans s s1 s2); [exact Hr1|exact Hr2|apply (outside_sub U U1 (as_root a) _ _ Ho)].
  - intros [r q] Hk. cbn in Hk. rewrite lookup_insert_ne.
    + apply Ho. cbn. intros [-> ?]. apply Hk. split; [done|lia].
    + intros [= <- <-]. apply Hk. split; [done|lia].
  - intros j Hj. destruct (decide (j = i)) as [->|Hji].
    + split; [done|]. exists e. rewrite lookup_insert_eq. done.
    + destruct (Hpages j ltac:(lia)) as (Huj & x' & Hx' & Hxw & Hxz). split; [done|]. exists x'.
      assert (<[(as_root a, v / PAGE_SIZE + i) := e]> U1 !! (as_root a, v / PAGE_SIZE + j) = U1 !! (as_root a, v / PAGE_SIZE + j))
        as Hsame by (rewrite lookup_insert_ne by (intros [=]; lia); done).
      rewrite Hsame. split_and!; [done|done|]. intros k Hk.
      pose proof (rp_views _ _ _ _ _ _ _ _ _ _ _ _ Hr2 (as_root a, v / PAGE_SIZE + j) Hsame k Hk) as Hvk.
      cbn [fst snd] in Hvk. rewrite Hvk. by apply Hxz.
Qed.

Lemma alloc_pages_from_wp (n : nat) s s1 C B Ls R U K x a v i flags :
  asys_ok s C B Ls R U K → ay_spaces s !! x = Some a → 0 ≤ as_user_pages a → 0 ≤ v → v mod PAGE_SIZE = 0 →
  0 ≤ i → v + (i + Z.of_nat n) * PAGE_SIZE ≤ 2 ^ 64 →
  (∀ q, v / PAGE_SIZE ≤ q < v / PAGE_SIZE + i + Z.of_nat n → U !! (as_root a, q) = None) →
  new_pages s s1 C B Ls R U K x a v i flags →
  wp (alloc_pages_from n i (Some (UserAs x)) v flags) (λ res s',
    (res = -1 ∧ ∃ n', repaged s s' C B Ls R U U K x a n' ∧
       (as_user_pages a + i + Z.of_nat n < 2 ^ 64 → n' = as_user_pages a)) ∨
    (res = 0 ∧ new_pages s s' C B Ls R U K x a v (i + Z.of_nat n) flags)) s1.
Proof.
  intros Hok Hx Hup Hv Hm. revert i s1. induction n as [|n IH]; intros i s1 Hi Hend Hno Hnew; cbn [alloc_pages_from].
  { wp_step. right. by rewrite Z.add_0_r. }
  destruct Hnew as (U1 & Hr1 & Ho & Hpages). pose proof (rp_spaces _ _ _ _ _ _ _ _ _ _ _ _ Hr1) as Hsp.
  set (m := as_user_pages a +u64 i) in *. assert (v +u64 (i *u64 PAGE_SIZE) = v + i * PAGE_SIZE) as Hvi.
  { unfold PAGE_SIZE in *. rewrite (wrap_small 64 (i * 4096)) by lia. apply wrap_small. lia. }
  wp_step. rewrite Hvi. eapply wp_mono.
  { apply (as_alloc_page_wp s1 C B Ls R U1 K x (set_as_user_pages m a)); [apply Hr1| |unfold PAGE_SIZE; lia|].
    - by rewrite Hsp, lookup_insert_eq.
    - intros Hu. change (as_root (set_as_user_pages m a)) with (as_root a).
      destruct (user_page v i Hv Hi Hm Hu) as [-> _]. rewrite Ho by (cbn; lia). apply Hno. lia. }
  intros res s2 [(-> & Hr2)|(-> & Hui & Hpg)].
  - change (negb (-1 =? 0)) with true. cbv iota. wp_step. eapply wp_mono.
    { apply (free_range_wp s C B Ls R U U1 K x a v i s2 m); try done.
      - intros j Hj. by apply Hpages.
      - intros q Hq. split; [apply Hno; lia|]. destruct (Hpages (q - v / PAGE_SIZE) ltac:(lia)) as (_ & e & He & _).
        replace (v / PAGE_SIZE + (q - v / PAGE_SIZE)) with q in He by lia. by exists e.
      - eapply (repaged_trans s s1 s2); [exact Hr1|exact Hr2|].
        apply (outside_sub U U1 (as_root a) _ _ Ho). intros q Hq. apply Hno. lia. }
    intros [] s3 (n' & Hr3 & Hn'). wp_step. left. split; [done|]. exists n'. split; [done|]. intros Hlt.
    assert (m = as_user_pages a + i) as Hmi by (apply wrap_small; lia). rewrite Hn'; lia.
  - change (negb (0 =? 0)) with false. cbv iota.
    replace (i + Z.of_nat (Datatypes.S n)) with (i + 1 + Z.of_nat n) by lia.
    replace (as_user_pages a + i + Z.of_nat (Datatypes.S n)) with (as_user_pages a + (i + 1) + Z.of_nat n) by lia.
    apply IH; [lia|lia|intros q Hq; apply Hno; lia|].
    apply (new_pages_next s s1 s2 C B Ls R U U1 K x a); try done. intros q Hq. apply Hno. lia.
Qed.

(** C13. as_alloc_pages on a range that is aligned to pages, does not wrap around
    and has no page of the address space in it.  It maps all pages of the range,
    each filled with zeros and with the permission asked for, and counts them; or
    it fails, and the pages of every address space are the same as before and so
    is the number of pages (if it cannot pass 2^64).  Tables made on the way stay
    when it fails, and the frames of the pages go back: no frame is lost.  No
    other page, no table of another address space and no frame of others changes
    in either case. *)
Theorem as_alloc_pages_correct s C B Ls R U K x a v count flags :
  asys_ok s C B Ls R U K → ay_spaces s !! x = Some a → 0 ≤ as_user_pages a < 2 ^ 64 →
  0 ≤ v → v mod PAGE_SIZE = 0 → 0 ≤ count → v + count * PAGE_SIZE ≤ 2 ^ 64 →
  (∀ q, v / PAGE_SIZE ≤ q < v / PAGE_SIZE + count → U !! (as_root a, q) = None) →
  ∃ res s', as_alloc_pages (Some (UserAs x)) v count flags s = Some (res, s') ∧
    ((res = -1 ∧ ∃ n, repaged s s' C B Ls R U U K x a n ∧
        (as_user_pages a + count < 2 ^ 64 → n = as_user_pages a)) ∨
     (res = 0 ∧ new_pages s s' C B Ls R U K x a v count flags)).
Proof.
  intros Hok Hx Hup Hv Hm Hc Hend Hno. apply wp_elim. unfold as_alloc_pages.
  eapply wp_mono; [apply (alloc_pages_from_wp (Z.to_nat count) s s C B Ls R U K x a v 0 flags); try done|].
  - lia.
  - rewrite Z2Nat.id by done. by rewrite Z.add_0_l.
  - intros q Hq. apply Hno. lia.
  - exists U. rewrite Z.add_0_r, wrap_small by lia. split_and!; [by apply repaged_refl|done|lia].
  - rewrite Z.add_0_r, Z.add_0_l, Z2Nat.id by done. intros res s' [?|[-> Hn]]; [by left|by right].
Qed.

End ops.
