(* ===== verification/AsClone.v ===== *)
(** * Address spaces: cloning

    as_clone gives the child the frames of the parent, with the pages that could
    be written marked copy-on-write on both sides.  The child sees what the parent
    sees, no other address space changes, and each frame has one more reference. *)

From stdpp Require Import gmap.
From S2P Require Import Prelude Frames Vmm VmmInv VmmThm KHeap Vma VmaInv VmaThm As AsInv Cow.
From S2P Require Import AsDestroy AsSys AsPage.

(** ** Entries *)

(** [e'] is what both sides of a clone have for [e]. *)
Definition shared_entry (e e' : Z) : Prop :=
  frame_of e' = frame_of e ∧ has e' PTE_PRESENT = true ∧ has e' PTE_WRITABLE = false ∧
  has e' PTE_COW = has e PTE_WRITABLE || has e PTE_COW.

Definition orig_flags (e : Z) : Z := Z.land e (wrap64 (Z.lnot PTE_ADDR_MASK)).

Lemma orig_flags_has e k : k = 0 ∨ k = 1 ∨ k = 9 → Z.testbit (orig_flags e) k = Z.testbit e k.
Proof.
  intros Hk. unfold orig_flags. rewrite Z.land_spec.
  assert (Z.testbit (wrap64 (Z.lnot PTE_ADDR_MASK)) k = true) as -> by (by destruct Hk as [->|[->| ->]]).
  apply andb_true_r.
Qed.

Lemma cow_flags_has e k : k = 0 ∨ k = 1 ∨ k = 9 →
  Z.testbit (cow_flags (orig_flags e)) k =
    if Z.testbit e 1 then (Z.testbit e k && negb (k =? 1)) || (k =? 9) else Z.testbit e k.
Proof.
  intros Hk. unfold cow_flags, PTE_WRITABLE, PTE_COW. rewrite has_bit by lia. rewrite orig_flags_has by lia.
  destruct (Z.testbit e 1); [|by apply orig_flags_has].
  rewrite Z.lor_spec, Z.land_spec, orig_flags_has by done. by destruct Hk as [->|[->| ->]].
Qed.

Lemma orig_flags_frame e : frame_of (orig_flags e) = 0.
Proof.
  unfold frame_of, orig_flags. rewrite <-Z.land_assoc.
  replace (Z.land (wrap64 (Z.lnot PTE_ADDR_MASK)) PTE_ADDR_MASK) with 0 by (by vm_compute). apply Z.land_0_r.
Qed.

Lemma cow_flags_frame e : frame_of (cow_flags (orig_flags e)) = 0.
Proof.
  unfold cow_flags. destruct (has _ _); [|apply orig_flags_frame].
  rewrite frame_of_lor. change (frame_of PTE_COW) with 0. rewrite Z.lor_0_r. unfold frame_of.
  rewrite <-Z.land_assoc, (Z.land_comm (wrap64 _)), Z.land_assoc. fold (frame_of (orig_flags e)).
  by rewrite orig_flags_frame.
Qed.

Lemma frame_bits f k : k = 0 ∨ k = 1 ∨ k = 9 → Z.testbit (Z.land f PTE_ADDR_MASK) k = false.
Proof.
  intros Hk. rewrite Z.land_spec.
  assert (Z.testbit PTE_ADDR_MASK k = false) as -> by (by destruct Hk as [->|[->| ->]]). apply andb_false_r.
Qed.

Lemma shared_intro e x :
  has e PTE_PRESENT = true → frame_of x = frame_of e →
  (∀ k, k = 0 ∨ k = 1 ∨ k = 9 → Z.testbit x k = Z.testbit (cow_flags (orig_flags e)) k) → shared_entry e x.
Proof.
  unfold shared_entry, PTE_PRESENT, PTE_WRITABLE, PTE_COW. rewrite !has_bit by lia. intros Hp Hf Hk.
  rewrite !Hk, !cow_flags_has, Hp by lia. split; [done|]. by destruct (Z.testbit e 1), (Z.testbit e 9).
Qed.

(** What the parent keeps. *)
Lemma shared_parent e :
  has e PTE_PRESENT = true →
  shared_entry e (if has (orig_flags e) PTE_WRITABLE
    then Z.lor (Z.land (Z.land e PTE_ADDR_MASK) PTE_ADDR_MASK) (cow_flags (orig_flags e)) else e).
Proof.
  intros Hp. apply shared_intro; [done|..].
  - destruct (has (orig_flags e) PTE_WRITABLE); [|done]. rewrite frame_of_lor, cow_flags_frame, Z.lor_0_r. unfold frame_of.
    by rewrite <-!Z.land_assoc, !Z.land_diag.
  - intros k Hk. unfold cow_flags. destruct (has (orig_flags e) PTE_WRITABLE) eqn:Hw.
    + by rewrite Z.lor_spec, frame_bits by done.
    + symmetry. by apply orig_flags_has.
Qed.

(** What the child gets. *)
Lemma shared_child e :
  has e PTE_PRESENT = true → shared_entry e (make_pte (frame_of e) (cow_flags (orig_flags e))).
Proof.
  intros Hp. apply shared_intro; [done|..].
  - rewrite make_pte_frame. unfold frame_of. by rewrite <-!Z.land_assoc, !Z.land_diag.
  - intros k Hk. unfold make_pte. rewrite !Z.lor_spec, frame_bits by done. cbn [orb].
    rewrite Z.land_spec.
    assert (Z.testbit (wrap64 (Z.lnot PTE_ADDR_MASK)) k = true) as -> by (by destruct Hk as [->|[->| ->]]).
    rewrite andb_true_r. unfold PTE_PRESENT in Hp |- *. rewrite has_bit in Hp by lia.
    destruct Hk as [->|Hk]; [|by destruct Hk as [->| ->]; rewrite orb_false_r].
    rewrite cow_flags_has, Hp by lia. by destruct (Z.testbit e 1).
Qed.

(** ** Pages and references *)

Section share.
Context {S : Type} {FA : FrameAlloc S} {FL : FrameLaws S} {FR : FrameRefs S} {FRL : FrameRefsLaws S}.
Implicit Types (s : vm S) (fr : S) (m : gmap Z Z) (R : gset Z) (U : gmap (Z * Z) Z) (K : Z → Z)
  (r v f g t p q e i : Z).

Lemma uses_shared U (k : Z * Z) e e' f :
  U !! k = Some e → shared_entry e e' → uses (<[k := e']> U) f = uses U f.
Proof. intros Hk [He _]. rewrite (uses_insert_old U k e) by done. rewrite He. lia. Qed.

(** The parent's page after the new reference: its entry is [e']. *)
Lemma share_parent s R U K r p e e' fr' m' c :
  spaces_ok s R U K → sees c → U !! (r, p) = Some e → shared_entry e e' →
  uses U (frame_of e) + K (frame_of e) + 1 < 2 ^ 32 →
  fa_inv fr' → (∀ g, fa_free fr' g ↔ fa_free (vm_frames s) g) → (∀ g, fa_held fr' g ↔ fa_held (vm_frames s) g) →
  (∀ g, fa_held (vm_frames s) g → fr_count fr' g = fr_count (vm_frames s) g + if decide (g = frame_of e) then 1 else 0) →
  shape (vm_frames s) m' R (<[(r, p) := e']> U) → kept r R (vm_frames s) (vm_mem s) (vm_frames s) m' →
  spaces_ok (Vm fr' m' c) R (<[(r, p) := e']> U) (bump K (frame_of e)) ∧
  untouched s R U K (Vm fr' m' c) R (<[(r, p) := e']> U) (bump K (frame_of e)).
Proof.
  intros Hok Hsees He Hsh Hlt Hinv Hfree Hheld Hcnt Hshape Hk. pose proof Hok as [Hs Hc Ho Ht Hw _].
  destruct (spaces_entry s R U K r p e Hok He) as (Hh & Hn & _ & Hu & _).
  pose proof (uses_shared U (r, p) e e') as Huse.
  assert (r ∈ R) as Hr by apply (sp_dom _ _ _ _ Hs r p e He).
  split; [split; cbn [vm_frames vm_mem]|].
  - eapply shape_frames; [done| | |exact Hshape].
    + intros f Hf. rewrite Hfree. by apply (sp_tables _ _ _ _ Hshape).
    + intros f Hf _. by apply Hheld.
  - intros f. rewrite Huse by done. intros Hf. destruct (Hc f Hf) as [Hcf Hcl].
    assert (fa_held (vm_frames s) f) as Hfh.
    { destruct (uses_some U f Hf) as ([r' q] & x & Hx & <-). by apply (sp_data _ _ _ _ Hs r' q). }
    rewrite Hcnt by done. destruct (decide (f = frame_of e)) as [->|Hne].
    + rewrite bump_eq. lia.
    + rewrite bump_ne by done. lia.
  - intros f. destruct (Ho f) as [H0 H1]. pose proof (bump_ge K (frame_of e) f). split; [lia|].
    rewrite Hfree. intros Hf. rewrite bump_ne; [by apply H1|]. intros ->.
    by apply (fa_held_not_free _ _ (sp_inv _ _ _ _ Hs) Hh).
  - intros f Hf. rewrite bump_ne.
    + apply (kp_new _ _ _ _ _ _ Hk) in Hf as [?|?]; [by apply Ht|by apply Ho].
    + intros ->. by apply (kp_tables _ _ _ _ _ _ Hk (frame_of e)).
  - intros r' q x [[[= <- <-] <-]|[Hne Hx]]%lookup_insert_Some Hxw.
    + destruct Hsh as (_ & _ & Hno & _). congruence.
    + rewrite Huse by done. specialize (Hw r' q x Hx Hxw). destruct (decide (frame_of x = frame_of e)) as [Heq|Hfe].
      * pose proof (uses_two U (r, p) (r', q) e x He Hx Hne (eq_sym Heq)) as H2. rewrite <-Heq in H2.
        destruct (Ho (frame_of x)). lia.
      * by rewrite bump_ne.
  - done.
  - apply (untouched_trans _ _ _ _ (Vm (vm_frames s) m' c) R (<[(r, p) := e']> U) (bump K (frame_of e))).
    + apply (untouched_kept _ _ _ _ _ _ _ r); [done|done|]. intros f (_ & _ & _ & Hfu & HfK).
      rewrite Huse by done. rewrite bump_ne; [done|]. intros ->. lia.
    + apply (untouched_frames (Vm (vm_frames s) m' c) R _ _ fr'). intros f (_ & Hff & _ & Hfu & HfK).
      cbn [vm_frames] in Hff. by rewrite Hfree.
Qed.

End share.

(** ** Loops that can stop *)

Lemma wp_for_try {S} (I : Z → S → Prop) (F : S → Prop) a b (body : Z → M S bool) s :
  a ≤ b → I a s →
  (∀ i s', a ≤ i < b → I i s' → wp (body i) (λ ok s'', if (ok : bool) then I (i + 1) s'' else F s'') s') →
  wp (for_try a b body) (λ ok s', if (ok : bool) then I b s' else F s') s.
Proof.
  intros Hab Ha Hbody. unfold for_try. remember (Z.to_nat (b - a)) as n eqn:Hn. revert a s Hab Hn Ha Hbody.
  induction n as [|n IH]; intros a s Hab Hn Ha Hbody; cbn [try_from].
  - wp_step. by replace b with a by lia.
  - wp_step. eapply wp_mono; [by apply Hbody; [lia|]|]. intros [] s' Hs'; [|by wp_step].
    apply IH; [lia|lia|done|]. intros i s'' Hi. apply Hbody. lia.
Qed.

(** ** Addresses *)

Lemma lor_add_shift a b k : 0 ≤ k → 0 ≤ b < 2 ^ k → Z.lor (Z.shiftl a k) b = a * 2 ^ k + b.
Proof.
  intros Hk Hb. rewrite Z.shiftl_mul_pow2 by done. symmetry. apply Z.add_nocarry_lor. apply Z.bits_inj'.
  intros n Hn. rewrite Z.land_spec, Z.bits_0. destruct (decide (n < k)).
  - by rewrite Z.mul_pow2_bits_low by lia.
  - destruct (decide (b = 0)) as [->|]; [by rewrite Z.bits_0, andb_false_r|].
    rewrite (Z.bits_above_log2 b n); [apply andb_false_r|lia|]. apply Z.log2_lt_pow2; [lia|].
    apply Z.lt_le_trans with (2 ^ k); [lia|]. apply Z.pow_le_mono_r; lia.
Qed.

Lemma clone_virt_va a b c d :
  0 ≤ b < 512 → 0 ≤ c < 512 → 0 ≤ d < 512 →
  clone_virt a b c d = va (a * span 3 + b * span 2 + c * span 1 + d * span 0).
Proof.
  intros Hb Hc Hd. unfold clone_virt.
  rewrite (lor_add_shift a) by (rewrite ?Z.shiftl_mul_pow2 by lia; lia).
  replace (a * 2 ^ 39 + Z.shiftl b 30) with (Z.shiftl (a * 512 + b) 30) by (rewrite !Z.shiftl_mul_pow2 by lia; lia).
  rewrite (lor_add_shift _ (Z.shiftl c 21)) by (rewrite ?Z.shiftl_mul_pow2 by lia; lia).
  replace ((a * 512 + b) * 2 ^ 30 + Z.shiftl c 21) with (Z.shiftl ((a * 512 + b) * 512 + c) 21)
    by (rewrite !Z.shiftl_mul_pow2 by lia; lia).
  rewrite lor_add_shift by (rewrite ?Z.shiftl_mul_pow2 by lia; lia). rewrite Z.shiftl_mul_pow2 by lia.
  unfold va, PAGE_SIZE. change (span 3) with (2 ^ 27). change (span 2) with (2 ^ 18). change (span 1) with (2 ^ 9).
  change (span 0) with 1. lia.
Qed.

(** * Address spaces: the walk that clones

    clone_tables goes through the lower half of the parent in the order of the
    pages.  [cloned p s U]: the pages below [p] are shared, the rest is as it was. *)

Section clone.
Context {H : Type} {KH : KHeap H} {KHL : KHeapLaws H}.
Context {S : Type} {FA : FrameAlloc S} {FL : FrameLaws S} {FR : FrameRefs S} {FRL : FrameRefsLaws S}.
Context (s0 : asys H S) (C : gmap Z Z) (B : blocks) (Ls : gmap Z areas) (R : gset Z) (U0 : gmap (Z * Z) Z) (K : Z → Z).
Context (dst : Z) (a0 : address_space) (rs : Z).
Hypothesis Hok0 : asys_ok s0 C B Ls R U0 K.
Hypothesis Hdst : ay_spaces s0 !! dst = Some a0.
Hypothesis Href : as_ref_count a0 = 1.
Hypothesis Hcount0 : as_user_pages a0 = 0.
Hypothesis Hrs : rs ∈ R.
Hypothesis Hne : rs ≠ as_root a0.
Hypothesis Hempty : ∀ q, U0 !! (as_root a0, q) = None.
Hypothesis Hroom : ∀ f, 2 * uses U0 f + K f < 2 ^ 32.
Implicit Types (s : asys H S) (U : gmap (Z * Z) Z) (r v f g t p q e i b n : Z) (d k : nat).

Abbreviation rd := (as_root a0).
Abbreviation mem s := (vm_mem (ay_vm s)).

(** The pages of the parent below [p]. *)
Definition first_pages p : gmap (Z * Z) Z := filter (λ kv : (Z * Z) * Z, kv.1.1 = rs ∧ kv.1.2 < p) U0.

Lemma first_pages_next p e :
  U0 !! (rs, p) = Some e → first_pages (p + 1) = <[(rs, p) := e]> (first_pages p) ∧ first_pages p !! (rs, p) = None.
Proof.
  intros He. split.
  - apply map_eq. intros [r q]. destruct (decide ((r, q) = (rs, p))) as [[= -> ->]|Hk].
    + rewrite lookup_insert_eq. apply map_lookup_filter_Some. cbn. split_and!; [done|done|lia].
    + rewrite lookup_insert_ne by congruence. apply option_eq. intros x. unfold first_pages.
      rewrite !map_lookup_filter_Some. cbn. split; intros (? & -> & ?); (split_and!; [done|done|]); [|lia].
      destruct (decide (q = p)) as [->|]; [done|lia].
  - apply map_lookup_filter_None. right. intros x _ [_ Hlt]. cbn in Hlt. lia.
Qed.

Lemma first_pages_absent p : U0 !! (rs, p) = None → first_pages (p + 1) = first_pages p.
Proof.
  intros Hn. apply map_filter_ext. intros [r q] x Hx. cbn. split; intros [-> Hq]; (split; [done|]); [|lia].
  destruct (decide (q = p)) as [->|]; [congruence|lia].
Qed.

(** How many there are, as the child counts them. *)
Definition shared_count p : Z := wrap64 (Z.of_nat (size (first_pages p))).

Lemma shared_count_next p e : U0 !! (rs, p) = Some e → shared_count (p + 1) = shared_count p +u64 1.
Proof.
  intros He. destruct (first_pages_next p e He) as [Hn Hno]. unfold shared_count.
  rewrite Hn, map_size_insert_None by done. unfold wrap. rewrite Z.add_mod_idemp_l by done. f_equal. lia.
Qed.

Lemma first_pages_start : first_pages 0 = ∅.
Proof.
  pose proof (so_shape _ _ _ _ (ao_pages _ _ _ _ _ _ _ Hok0)) as Hs.
  apply map_empty. intros [r q]. apply map_lookup_filter_None. cbn. destruct (U0 !! (r, q)) as [e|] eqn:He; [|by left].
  right. intros x _ [_ Hq]. destruct (sp_dom _ _ _ _ Hs r q e He). lia.
Qed.

Lemma first_pages_room p e : U0 !! (rs, p) = Some e → uses (first_pages p) (frame_of e) + 1 ≤ uses U0 (frame_of e).
Proof.
  intros He. destruct (first_pages_next p e He) as [Hn Hno].
  assert (uses (first_pages (p + 1)) (frame_of e) ≤ uses U0 (frame_of e)) as Hle
    by apply uses_mono, map_filter_subseteq.
  rewrite Hn, uses_insert_new, bool_decide_eq_true_2 in Hle by done. cbn in Hle. lia.
Qed.

Record cloned p s U : Prop := Cloned {
  cl_ok : asys_ok s C B Ls R U K;
  cl_dst : ay_spaces s = <[dst := set_as_user_pages (shared_count p) a0]> (ay_spaces s0);
  cl_cr3 : vm_cr3 (ay_vm s) = vm_cr3 (ay_vm s0);
  cl_kernel : ay_kernel_initialized s = ay_kernel_initialized s0;
  cl_untouched : untouched (ay_vm s0) R U0 K (ay_vm s) R U K;
  cl_other : ∀ r q, r ≠ rs → r ≠ rd → U !! (r, q) = U0 !! (r, q);
  cl_done : ∀ r q, r = rs ∨ r = rd → q < p → option_Forall2 shared_entry (U0 !! (rs, q)) (U !! (r, q));
  cl_src : ∀ q, p ≤ q → U !! (rs, q) = U0 !! (rs, q);
  cl_new : ∀ q, p ≤ q → U !! (rd, q) = None;
  cl_uses : ∀ f, uses U f = uses U0 f + uses (first_pages p) f;
  cl_tables : ∀ w k, (k ≤ 3)%nat → table_at (mem s) rs w k = table_at (mem s0) rs w k;
  cl_views : ∀ r q i, r ≠ rd → 0 ≤ i < 512 → view (mem s) U r q i = view (mem s0) U0 r q i;
  cl_child : ∀ q i, q < p → 0 ≤ i < 512 → view (mem s) U rd q i = view (mem s0) U0 rs q i }.

(** The clone was given up: the child is gone. *)
Definition failed s : Prop := ∃ U,
  asys_ok s C (blocks_without B Ls dst (as_vmas a0)) (lists_without Ls (as_vmas a0)) (R ∖ {[rd]}) U K ∧
  ay_spaces s = delete dst (ay_spaces s0) ∧ vm_cr3 (ay_vm s) = vm_cr3 (ay_vm s0) ∧
  untouched (ay_vm s0) R U0 K (ay_vm s) (R ∖ {[rd]}) U K ∧
  ∀ r q i, r ≠ rd → 0 ≤ i < 512 → view (mem s) U r q i = view (mem s0) U0 r q i.

(** Pages that are absent need nothing. *)
Lemma cloned_absent p s U : U0 !! (rs, p) = None → cloned p s U → cloned (p + 1) s U.
Proof.
  intros Hn [H1 H2 H3 Hki Hun H4 H5 H6 H7 H8 H9 H10 H11]. split; try done.
  - unfold shared_count. by rewrite first_pages_absent.
  - intros r q Hr Hq. destruct (decide (q = p)) as [->|]; [|apply H5; [done|lia]].
    rewrite Hn. destruct Hr as [->| ->]; [rewrite H6 by lia; rewrite Hn|rewrite H7 by lia]; constructor.
  - intros q Hq. apply H6. lia.
  - intros q Hq. apply H7. lia.
  - by rewrite first_pages_absent.
  - intros q i Hq Hi. destruct (decide (q = p)) as [->|]; [|apply H11; [lia|done]].
    unfold view. by rewrite H7, Hn by lia.
Qed.

Lemma cloned_skip p p' s U : p ≤ p' → (∀ q, p ≤ q < p' → U0 !! (rs, q) = None) → cloned p s U → cloned p' s U.
Proof.
  intros Hp. remember (Z.to_nat (p' - p)) as n eqn:Hn. revert p Hp Hn.
  induction n as [|n IH]; intros p Hp Hn Hno Hc; [by replace p' with p by lia|].
  apply (IH (p + 1)); [lia|lia|intros q Hq; apply Hno; lia|]. apply cloned_absent; [apply Hno; lia|done].
Qed.

(** ** One page *)

Lemma cloned_entry p s U e :
  cloned p s U → U0 !! (rs, p) = Some e →
  U !! (rs, p) = Some e ∧ U !! (rd, p) = None ∧ uses U (frame_of e) + K (frame_of e) + 1 < 2 ^ 32.
Proof.
  intros Hc He. rewrite (cl_src _ _ _ Hc), (cl_new _ _ _ Hc), (cl_uses _ _ _ Hc) by lia.
  pose proof (first_pages_room p e He). pose proof (Hroom (frame_of e)). split_and!; [done|done|lia].
Qed.

(** The parent's side. *)
Lemma parent_wp p s U e t (c : M (asys H S) bool) (Q : bool → asys H S → Prop) :
  cloned p s U → U0 !! (rs, p) = Some e → 0 ≤ p < 2 ^ 35 → table_at (mem s) rs (va p) 3 = Some t →
  has e PTE_PRESENT = true →
  (∀ (v' : vm S) e', spaces_ok v' R (<[(rs, p) := e']> U) (bump K (frame_of e)) → shared_entry e e' →
     vm_cr3 v' = vm_cr3 (ay_vm s) →
     untouched (ay_vm s) R U K v' R (<[(rs, p) := e']> U) (bump K (frame_of e)) →
     (∀ w k, (k ≤ 3)%nat → table_at (vm_mem v') rs w k = table_at (mem s) rs w k) →
     (∀ (k : Z * Z) x i, U !! k = Some x → 0 ≤ i < 512 →
        rd_mem (vm_mem v') (frame_of x + 8 * i) = rd_mem (mem s) (frame_of x + 8 * i)) →
     wp c Q (set_ay_vm v' s)) →
  wp (vm_ (on_frames (fr_get_phys (frame_of e))) ;;
      (if has (orig_flags e) PTE_WRITABLE
       then vm_ (wr_word (entry_ptr (phys_to_virt t) (index 3 (va p)))
              (Z.lor (Z.land (Z.land e PTE_ADDR_MASK) PTE_ADDR_MASK) (cow_flags (orig_flags e))))
       else mret tt) ;; c) Q s.
Proof.
  intros Hc He0 Hp Ht Hpr HQ. destruct (cloned_entry p s U e Hc He0) as (He & _ & Hlt).
  pose proof (ao_pages _ _ _ _ _ _ _ (cl_ok _ _ _ Hc)) as Hok. pose proof (so_shape _ _ _ _ Hok) as Hs.
  pose proof (so_sees _ _ _ _ Hok) as Hsees.
  destruct (spaces_entry _ R U K rs p e Hok He) as (Hh & Hn & Ha & Hu & Hcnt & _ & HK).
  pose proof (shared_parent e Hpr) as Hsh. pose proof (user_va p Hp) as Hus.
  pose proof (vpn_va p ltac:(lia)) as Hv.
  wp_step. apply wp_zoom, on_frames_wp. eapply wp_mono; [apply fr_get_law; [apply Hs|done|lia]|].
  intros [] fr' (Hinv & Hfree & Hheld & Hc'). wp_step. destruct (has (orig_flags e) PTE_WRITABLE).
  - apply wp_zoom. cbn [ay_vm set_ay_vm]. apply wr_entry_wp; [by eapply leaf_seen|apply index_bounds|].
    set (e' := Z.lor _ (cow_flags (orig_flags e))) in *. cbn [set_mem set_frames vm_frames vm_mem vm_cr3].
    set (m' := <[t + 8 * index 3 (va p) := e']> (mem s)).
    destruct (share_parent (ay_vm s) R U K rs p e e' fr' m' (vm_cr3 (ay_vm s)) Hok Hsees He Hsh) as [Hok' Hun]; try done.
    { destruct Hsh as (Hf & Hp' & _).
      pose proof (leaf_set (vm_frames (ay_vm s)) (mem s) R U rs (va p) t _ Hs Hrs Hus Ht Hp') as HL.
      rewrite Hf, Hv in HL. by apply HL. }
    { by apply (leaf_kept _ _ _ U). }
    apply (HQ (Vm fr' m' (vm_cr3 (ay_vm s))) e'); [done|exact Hsh|done|done|..]; cbn [vm_mem].
    + intros w k Hk. by eapply (leaf_table_at (vm_frames (ay_vm s)) (mem s) R U).
    + intros [r q] x i Hx Hi. destruct (spaces_entry _ R U K r q x Hok Hx) as (_ & Hxn & Hxa & _).
      eapply leaf_words; [done|done|done|done|done|]. intros Heq. apply Hxn. rewrite Heq. by exists rs, (va p), 3%nat.
  - wp_step.
    destruct (share_parent (ay_vm s) R U K rs p e e fr' (mem s) (vm_cr3 (ay_vm s)) Hok Hsees He Hsh) as [Hok' Hun]; try done.
    { by rewrite insert_id. }
    { apply kept_refl. }
    by apply (HQ (Vm fr' (mem s) (vm_cr3 (ay_vm s))) e).
Qed.

(** What both sides come to. *)
Lemma cloned_next p s U e e1 e2 (v : vm S) :
  cloned p s U → U0 !! (rs, p) = Some e → shared_entry e e1 → shared_entry e e2 →
  spaces_ok v R (<[(rd, p) := e2]> (<[(rs, p) := e1]> U)) K → vm_cr3 v = vm_cr3 (ay_vm s) →
  untouched (ay_vm s) R U K v R (<[(rd, p) := e2]> (<[(rs, p) := e1]> U)) K →
  (∀ w k, (k ≤ 3)%nat → table_at (vm_mem v) rs w k = table_at (mem s) rs w k) →
  (∀ (k : Z * Z) x i, U !! k = Some x → 0 ≤ i < 512 →
     rd_mem (vm_mem v) (frame_of x + 8 * i) = rd_mem (mem s) (frame_of x + 8 * i)) →
  cloned (p + 1) (set_ay_spaces (<[dst := set_as_user_pages (shared_count p +u64 1) a0]> (ay_spaces s)) (set_ay_vm v s))
    (<[(rd, p) := e2]> (<[(rs, p) := e1]> U)).
Proof.
  intros Hc He0 Hs1 Hs2 Hok Hcr Hunv Htab Hwords. destruct (cloned_entry p s U e Hc He0) as (He & Hnew & _).
  pose proof Hc as [H1 H2 H3 Hki Hun H4 H5 H6 H7 H8 H9 H10 H11].
  assert (∀ r q i, 0 ≤ i < 512 → view (vm_mem v) (<[(rs, p) := e1]> U) r q i = view (mem s) U r q i) as Hv1.
  { apply (views_keep _ _ _ _ _ e); [done|apply Hs1|]. intros r q x i Hx. by apply (Hwords (r, q)). }
  assert (∀ r q i, (r, q) ≠ (rd, p) → 0 ≤ i < 512 →
    view (vm_mem v) (<[(rd, p) := e2]> (<[(rs, p) := e1]> U)) r q i = view (mem s) U r q i) as Hv2.
  { intros r q i Hrq Hi. rewrite <-Hv1 by done. unfold view. by rewrite lookup_insert_ne by congruence. }
  split; cbn [ay_spaces ay_vm set_ay_spaces set_ay_vm].
  - pose proof (asys_pages s C B Ls R U _ K v H1 Hok Hunv Hcr) as H1'.
    pose proof (asys_user_pages _ C B Ls R _ K dst (set_as_user_pages (shared_count p) a0) (shared_count p +u64 1) H1') as Hfin.
    apply Hfin. cbn [ay_spaces set_ay_vm]. by rewrite H2, lookup_insert_eq.
  - by rewrite H2, insert_insert_eq, (shared_count_next p e).
  - by rewrite Hcr.
  - done.
  - by eapply untouched_trans.
  - intros r q Hr Hr'. rewrite !lookup_insert_ne by congruence. by apply H4.
  - intros r q Hr Hq. destruct (decide (q = p)) as [->|Hqp].
    + rewrite He0. destruct Hr as [->| ->].
      * rewrite lookup_insert_ne, lookup_insert_eq by congruence. by constructor.
      * rewrite lookup_insert_eq. by constructor.
    + rewrite !lookup_insert_ne by congruence. apply H5; [done|lia].
  - intros q Hq. rewrite !lookup_insert_ne by (intros [=]; (congruence || lia)). apply H6. lia.
  - intros q Hq. rewrite !lookup_insert_ne by (intros [=]; (congruence || lia)). apply H7. lia.
  - intros f. rewrite uses_insert_new by (by rewrite lookup_insert_ne by congruence).
    destruct Hs2 as [Hf2 _]. rewrite (uses_shared U (rs, p) e e1), Hf2, H8 by done.
    destruct (first_pages_next p e He0) as [-> Hno]. rewrite uses_insert_new by done. lia.
  - intros w k Hk. by rewrite Htab, H9.
  - intros r q i Hr Hi. rewrite Hv2 by congruence. by apply H10.
  - intros q i Hq Hi. destruct (decide (q = p)) as [->|Hqp].
    + rewrite <-H10, <-Hv1 by done. unfold view. rewrite lookup_insert_eq.
      rewrite (lookup_insert_eq U). cbn. by rewrite (proj1 Hs1), (proj1 Hs2).
    + rewrite Hv2 by congruence. apply H11; [lia|done].
Qed.

(** The clone is given up with the child's page missing. *)
Lemma give_up_wp p s U e e1 (v : vm S) :
  cloned p s U → U0 !! (rs, p) = Some e → shared_entry e e1 →
  spaces_ok v R (<[(rs, p) := e1]> U) (bump K (frame_of e)) → vm_cr3 v = vm_cr3 (ay_vm s) →
  untouched (ay_vm s) R U K v R (<[(rs, p) := e1]> U) (bump K (frame_of e)) →
  (∀ (k : Z * Z) x i, U !! k = Some x → 0 ≤ i < 512 →
     rd_mem (vm_mem v) (frame_of x + 8 * i) = rd_mem (mem s) (frame_of x + 8 * i)) →
  wp (vm_ (on_frames (fr_put_phys (frame_of e))) ;; as_destroy (Some (UserAs dst)) ;; mret false)
    (λ ok s', ok = false ∧ failed s') (set_ay_vm v s).
Proof.
  intros Hc He0 Hs1 Hok Hcr Hun1 Hwords. destruct (cloned_entry p s U e Hc He0) as (He & _).
  pose proof Hok as [Hs Hcn Ho _ _ _].
  assert (∀ g, 0 ≤ K g) as HK by apply (so_others _ _ _ _ (ao_pages _ _ _ _ _ _ _ (cl_ok _ _ _ Hc))).
  assert (frame_of e1 = frame_of e) as Hf by apply Hs1.
  assert ((<[(rs, p) := e1]> U) !! (rs, p) = Some e1) as He1 by apply lookup_insert_eq.
  assert (0 < uses (<[(rs, p) := e1]> U) (frame_of e)) as Hu.
  { pose proof (uses_pos _ _ _ He1). rewrite Hf in *. lia. }
  destruct (Hcn _ Hu) as [Hcnt Hlt]. rewrite bump_eq in Hcnt, Hlt. specialize (HK (frame_of e)) as HKe.
  wp_step. apply wp_zoom. cbn [ay_vm set_ay_vm].
  apply (spaces_put_wp v R (<[(rs, p) := e1]> U) K (frame_of e)); [done|done| | |lia|lia|].
  1, 2: rewrite <-Hf; by apply (sp_data _ _ _ _ Hs rs p).
  intros c fr' Hok' _ _ Hun2. wp_step. pose proof (untouched_trans _ _ _ _ _ _ _ _ _ _ _ _ Hun1 Hun2) as Hun. set (s3 := set_ay_vm (set_frames fr' v) s).
  assert (asys_ok s3 C B Ls R (<[(rs, p) := e1]> U) K) as Hok3.
  { by apply (asys_pages s C B Ls R U); [apply Hc|..]. }
  pose proof (cl_dst _ _ _ Hc) as Hsp.
  eapply wp_mono; [apply (as_destroy_last_wp s3 C B Ls R _ K dst (set_as_user_pages (shared_count p) a0) Hok3); [|done]|].
  { cbn [s3 ay_spaces set_ay_vm]. by rewrite Hsp, lookup_insert_eq. }
  intros [] s' [Hd1 [Hg1 Hg2 _ _ _ Hg3] Hd3 _]. wp_step. split; [done|]. eexists. split_and!; [exact Hd1|..].
  - rewrite Hd3. cbn [s3 ay_spaces set_ay_vm]. by rewrite Hsp, delete_insert_eq.
  - rewrite Hg2. cbn [s3 ay_vm set_ay_vm set_frames vm_cr3]. rewrite Hcr. by apply (cl_cr3 _ _ _ Hc).
  - eapply untouched_trans; [exact (cl_untouched _ _ _ Hc)|]. by eapply untouched_trans.
  - intros r q i Hr Hi. rewrite <-(cl_views _ _ _ Hc) by done. rewrite Hg1. cbn [s3 ay_vm set_ay_vm set_frames vm_mem].
    rewrite <-(views_keep (mem s) (vm_mem v) U rs p e e1 He Hf (λ r' q' x j, Hwords (r', q') x j) r q i Hi).
    unfold view. by rewrite spaces_without_lookup.
Qed.

Definition after p (ok : bool) s : Prop := if ok then ∃ U, cloned p s U else failed s.

Lemma va_range p : 0 ≤ p < 2 ^ 35 → 0 ≤ va p < 2 ^ 64.
Proof. unfold va, PAGE_SIZE. lia. Qed.

Lemma share_entry_wp p s U e t :
  cloned p s U → U0 !! (rs, p) = Some e → 0 ≤ p < 2 ^ 35 → table_at (mem s) rs (va p) 3 = Some t →
  has e PTE_PRESENT = true →
  wp (clone_entry dst (entry_ptr (phys_to_virt t) (index 3 (va p))) (va p) e) (after (p + 1)) s.
Proof.
  intros Hc He0 Hp Ht Hpr. unfold clone_entry. fold (orig_flags e).
  apply (parent_wp p s U e t); [done..|]. intros v1 e1 Hok1 Hs1 Hcr1 Hun1 Htab1 Hw1.
  assert (∀ g, 0 ≤ K g) as HKpos by apply (so_others _ _ _ _ (ao_pages _ _ _ _ _ _ _ (cl_ok _ _ _ Hc))).
  destruct (cloned_entry p s U e Hc He0) as (He & Hnew & _). pose proof (cl_dst _ _ _ Hc) as Hsp.
  pose proof (so_shape _ _ _ _ Hok1) as Hsh1. pose proof (shared_child e Hpr) as Hs2.
  assert (rd ∈ R) as Hrd by apply (ao_space _ _ _ _ _ _ _ Hok0 dst a0 Hdst).
  assert (fa_held (vm_frames v1) (frame_of e) ∧ ¬ any_table (vm_mem v1) R (frame_of e)) as [Hh Hn].
  { rewrite <-(proj1 Hs1). apply (sp_data _ _ _ _ Hsh1 rs p). apply lookup_insert_eq. }
  assert (∀ (k : Z * Z) x, U !! k = Some x → fa_held (vm_frames v1) (frame_of x) ∧ ¬ any_table (vm_mem v1) R (frame_of x))
    as Hpages.
  { intros [r q] x Hx. destruct (decide ((r, q) = (rs, p))) as [[= -> ->]|Hrq]; [by simplify_eq|].
    apply (sp_data _ _ _ _ Hsh1 r q). by rewrite lookup_insert_ne by congruence. }
  fold (frame_of e). wp_step. unfold as_map_page. wp_step.
  eapply rd_user_wp; [cbn [ay_spaces set_ay_vm]; rewrite Hsp; apply lookup_insert_eq|].
  apply wp_zoom. cbn [ay_vm set_ay_vm as_cr3 set_as_user_pages].
  eapply wp_mono; [apply (map_in_wp v1 R (<[(rs, p) := e1]> U) (as_cr3 a0) rd (va p));
    [done|apply Hok1|done|done|by apply va_range|by apply user_va|done|done]|].
  rewrite vpn_va by lia. intros res v2 (Hcr2 & Hk & Hres).
  assert (∀ (k : Z * Z) x i, U !! k = Some x → 0 ≤ i < 512 →
    rd_mem (vm_mem v2) (frame_of x + 8 * i) = rd_mem (mem s) (frame_of x + 8 * i)) as Hw2.
  { intros k x i Hx Hi. destruct (Hpages k x Hx). rewrite (kp_words _ _ _ _ _ _ Hk) by done. by apply (Hw1 k). }
  destruct Hres as [(-> & Hsh2)|(-> & Hsh2 & _ & Hfull)].
  - change (negb (0 =? 0)) with false. cbv iota. wp_step.
    eapply upd_user_wp; [cbn [ay_spaces set_ay_vm]; rewrite Hsp; apply lookup_insert_eq|]. wp_step.
    eexists. apply (cloned_next p s U e e1 (make_pte (frame_of e) (cow_flags (orig_flags e))) v2); [done|done|done|exact Hs2| |by rewrite Hcr2| | |done].
    + assert (0 < uses (<[(rs, p) := e1]> U) (frame_of e)) as Hu.
      { rewrite (uses_shared U (rs, p) e e1) by done. pose proof (uses_pos U _ e He). lia. }
      destruct (so_counted _ _ _ _ Hok1 _ Hu) as [Hcnt Hlt]. rewrite bump_eq in Hcnt, Hlt.
      destruct Hs2 as (Hf2 & _ & Hnw & _).
      apply (spaces_mapped v1 v2 R (<[(rs, p) := e1]> U) K rd p (frame_of e)); try done; [lia|lia| |by rewrite Hnw].
      by rewrite lookup_insert_ne by congruence.
    + eapply untouched_trans; [exact Hun1|]. apply (untouched_kept _ _ _ _ _ _ _ rd); [done|done|].
      intros f (_ & _ & _ & Hfu & HfK). rewrite uses_insert_new by (by rewrite lookup_insert_ne by congruence).
      destruct (decide (f = frame_of e)) as [->|Hfe]; [rewrite bump_eq in HfK; specialize (HKpos (frame_of e)); lia|].
      rewrite bump_ne in HfK by done. rewrite (proj1 Hs2), bool_decide_eq_false_2 by congruence. cbn. split; [lia|done].
    + intros w k Hk3. rewrite (kp_others _ _ _ _ _ _ Hk) by done. by apply Htab1.
  - change (negb (-1 =? 0)) with true. cbv iota. change (set_ay_vm v2 (set_ay_vm v1 s)) with (set_ay_vm v2 s).
    eapply wp_mono; [apply (give_up_wp p s U e e1 v2); [done|done|done| |by rewrite Hcr2| |done]|].
    3: { intros ok s' [-> Hf]. exact Hf. }
    + by apply (spaces_kept v1 v2 R _ _ rd).
    + eapply untouched_trans; [exact Hun1|]. apply (untouched_kept _ _ _ _ _ _ _ rd); [done|done|].
      by intros f (_ & _ & _ & ? & ?).
Qed.

(** ** Tables *)

Lemma cloned_shape p s U : cloned p s U → shape (vm_frames (ay_vm s)) (mem s) R U.
Proof. intros Hc. apply (so_shape _ _ _ _ (ao_pages _ _ _ _ _ _ _ (cl_ok _ _ _ Hc))). Qed.

(** The loop over [len] entries of the table [t] of level [n], given what it does
    for an entry that is present. *)
Lemma each_entry_wp d b t len s U (k : Z → Z → M (asys H S) bool) :
  (∀ i, 0 ≤ i < len → entry_of d b i) → 0 ≤ len ≤ 512 → table_at (mem s0) rs (va b) (3 - d) = Some t → cloned b s U →
  (∀ i s' U', 0 ≤ i < len → cloned (b + i * span d) s' U' → has (rd_mem (mem s') (t + 8 * i)) PTE_PRESENT = true →
     wp (k i (rd_mem (mem s') (t + 8 * i))) (after (b + (i + 1) * span d)) s') →
  wp (each_entry (phys_to_virt t) len k) (after (b + len * span d)) s.
Proof.
  intros Hent Hlen Ht Hc Hk. pose proof (span_pos d) as Hsp.
  eapply wp_mono; [apply (wp_for_try (λ i s', ∃ U', cloned (b + i * span d) s' U') failed); [lia| |]|by intros [] s' Hs'].
  { exists U. by rewrite Z.mul_0_l, Z.add_0_r. }
  intros i s' Hi (U' & Hc'). pose proof (cloned_shape _ _ _ Hc') as Hs. pose proof (Hent i Hi) as He.
  assert ((d ≤ 3)%nat) as Hd by apply He.
  assert (table_at (mem s') rs (va b) (3 - d) = Some t) as Ht' by (rewrite (cl_tables _ _ _ Hc') by lia; done).
  assert (seen (vm_cr3 (ay_vm s')) t) as Ha.
  { apply (shape_seen _ _ _ _ _ rs (va b) (3 - d) t Hs); [|done|].
    - apply (so_sees _ _ _ _ (ao_pages _ _ _ _ _ _ _ (cl_ok _ _ _ Hc'))).
    - split_and!; [lia|done|right]. apply user_va. destruct He as (_ & ? & _ & ? & ?). nia. }
  wp_step. apply wp_zoom, rd_entry_wp; [done|lia|].
  replace (set_ay_vm (ay_vm s') s') with s' by (by destruct s').
  destruct (has (rd_mem (mem s') (t + 8 * i)) PTE_PRESENT) eqn:Hp; cbn [negb]; [by apply (Hk i s' U')|].
  wp_step. exists U'. apply (cloned_skip (b + i * span d)); [nia| |done]. intros q Hq.
  rewrite <-(cl_src _ _ _ Hc') by lia.
  destruct (entry_table (mem s') rs d b i t q He Ht' Hq) as [Htq Hpq].
  destruct (entry_range d b i q He Hq) as (_ & _ & Hq35).
  apply (absent_pages (mem s') R U' rs _ Hs Hrs d t q); [done|done|done|by rewrite Hpq].
Qed.

(** The same for a table of tables. *)
Lemma each_table_wp d b t len huge s U (k : Z → Z → M (asys H S) bool) :
  (0 < d ≤ 3)%nat → (∀ i, 0 ≤ i < len → entry_of d b i) → 0 ≤ len ≤ 512 → (huge = true → (d ≤ 2)%nat) →
  table_at (mem s0) rs (va b) (3 - d) = Some t → cloned b s U →
  (∀ i g s' U', 0 ≤ i < len → cloned (b + i * span d) s' U' →
     table_at (mem s0) rs (va (b + i * span d)) (3 - (d - 1)) = Some g →
     wp (k i (phys_to_virt g)) (after (b + (i + 1) * span d)) s') →
  wp (each_table (phys_to_virt t) len huge k) (after (b + len * span d)) s.
Proof.
  intros Hd Hent Hlen Hhuge Ht Hc Hk. unfold each_table. apply (each_entry_wp d b t len s U); [done..|].
  intros i s' U' Hi Hc' Hp. pose proof (cloned_shape _ _ _ Hc') as Hs. pose proof (Hent i Hi) as He.
  pose proof (span_pos d) as Hsp. set (q := b + i * span d) in *.
  assert (table_at (mem s') rs (va b) (3 - d) = Some t) as Ht' by (rewrite (cl_tables _ _ _ Hc') by lia; done).
  destruct (entry_table (mem s') rs d b i t q He Ht') as [Htq Hpq]; [unfold q; lia|].
  destruct (entry_range d b i q He) as (_ & _ & Hq35); [unfold q; lia|].
  destruct (present_table (mem s') R U' rs _ Hs Hrs d t q) as [Hh Hg]; [lia|done|done|by rewrite Hpq|].
  rewrite Hpq in Hh, Hg. rewrite (cl_tables _ _ _ Hc') in Hg by lia.
  assert (huge && has (rd_mem (mem s') (t + 8 * i)) PTE_HUGE = false) as ->.
  { destruct huge; [|done]. cbn [andb]. by apply Hh, Hhuge. }
  unfold pte_to_table. rewrite Hp. cbn [negb]. by apply (Hk i _ s' U').
Qed.

Lemma cloned_start : cloned 0 s0 U0.
Proof.
  pose proof (so_shape _ _ _ _ (ao_pages _ _ _ _ _ _ _ Hok0)) as Hs.
  assert (∀ q, q < 0 → U0 !! (rs, q) = None) as Hneg.
  { intros q Hq. destruct (U0 !! (rs, q)) as [e|] eqn:He; [|done]. destruct (sp_dom _ _ _ _ Hs rs q e He). lia. }
  split; try done.
  - rewrite insert_id; [done|]. rewrite Hdst. unfold shared_count. rewrite first_pages_start, map_size_empty.
    change (wrap64 (Z.of_nat 0)) with 0. rewrite <-Hcount0. by destruct a0.
  - intros r q [->| ->] Hq; rewrite ?Hempty, ?Hneg by done; constructor.
  - intros f. rewrite first_pages_start. unfold uses at 3. rewrite map_filter_empty, map_size_empty. cbn. lia.
  - intros q i Hq Hi. unfold view. by rewrite Hempty, Hneg.
Qed.

(** A PT. *)
Lemma clone_pt_wp b t s U j3 j2 j1 :
  block_of 0 b → b = j3 * span 3 + j2 * span 2 + j1 * span 1 → 0 ≤ j2 < 512 → 0 ≤ j1 < 512 →
  table_at (mem s0) rs (va b) 3 = Some t → cloned b s U →
  wp (each_entry (phys_to_virt t) ENTRIES_PER_TABLE (λ pt_i e,
        clone_entry dst (entry_ptr (phys_to_virt t) pt_i) (clone_virt j3 j2 j1 pt_i) e)) (after (b + span 1)) s.
Proof.
  intros Hb Hbj Hj2 Hj1 Ht Hc. change (span 1) with (512 * span 0).
  apply (each_entry_wp 0 b t 512 s U); [by intros; apply block_entry; [lia|..]|lia|done|done|].
  intros i s' U' Hi Hc' Hp. change (span 0) with 1 in *. rewrite Z.mul_1_r in *.
  replace (b + (i + 1)) with (b + i + 1) by lia.
  pose proof (cloned_shape _ _ _ Hc') as Hs. pose proof (block_entry 0 b i ltac:(lia) Hb Hi) as He.
  assert (table_at (mem s') rs (va b) 3 = Some t) as Ht' by (by rewrite (cl_tables _ _ _ Hc')).
  destruct (entry_table (mem s') rs 0 b i t (b + i) He Ht') as [Htq Hpq]; [change (span 0) with 1; lia|].
  destruct (entry_range 0 b i (b + i) He) as (_ & Hx & Hq35); [change (span 0) with 1; lia|].
  change (3 - 0)%nat with 3%nat in *.
  assert (U0 !! (rs, b + i) = Some (rd_mem (mem s') (t + 8 * i))) as He0.
  { rewrite <-(cl_src _ _ _ Hc') by lia. rewrite <-Hpq.
    apply (present_page (mem s') R U' rs _ Hs Hrs t (b + i)); [done|done|by rewrite Hpq]. }
  rewrite clone_virt_va by lia. replace (j3 * span 3 + j2 * span 2 + j1 * span 1 + i * span 0) with (b + i)
    by (change (span 0) with 1; lia).
  assert (entry_ptr (phys_to_virt t) i = entry_ptr (phys_to_virt t) (index 3 (va (b + i)))) as ->.
  { rewrite (index_va 0) by lia. by rewrite Hx. }
  by apply (share_entry_wp (b + i) s' U').
Qed.

Lemma clone_tables_wp cr3 : frame_of cr3 = rs → wp (clone_tables cr3 dst) (after (2 ^ 35)) s0.
Proof.
  intros Hcr. unfold clone_tables. fold (frame_of cr3). rewrite Hcr. change (2 ^ 35) with (0 + 256 * span 3).
  apply (each_table_wp 3 0 rs 256 false s0 U0); [lia|by intros; apply root_entry|lia|done|done|apply cloned_start|].
  intros j3 g3 s3 U3 Hj3 Hc3 Hg3. pose proof (entry_block 2 0 j3 (root_entry j3 Hj3)) as Hb3.
  replace (0 + (j3 + 1) * span 3) with (0 + j3 * span 3 + 512 * span 2) by (rewrite (span_S 2); lia).
  apply (each_table_wp 2 _ g3 512 true s3 U3); [lia|by intros; apply block_entry; [lia|..]|lia|lia|done|done|].
  intros j2 g2 s2 U2 Hj2 Hc2 Hg2. pose proof (entry_block 1 _ j2 (block_entry 2 _ j2 ltac:(lia) Hb3 Hj2)) as Hb2.
  replace (0 + j3 * span 3 + (j2 + 1) * span 2) with (0 + j3 * span 3 + j2 * span 2 + 512 * span 1) by (rewrite (span_S 1); lia).
  apply (each_table_wp 1 _ g2 512 true s2 U2); [lia|by intros; apply block_entry; [lia|..]|lia|lia|done|done|].
  intros j1 g1 s1 U1 Hj1 Hc1 Hg1. pose proof (entry_block 0 _ j1 (block_entry 1 _ j1 ltac:(lia) Hb2 Hj1)) as Hb1.
  replace (0 + j3 * span 3 + j2 * span 2 + (j1 + 1) * span 1)
    with (0 + j3 * span 3 + j2 * span 2 + j1 * span 1 + span 1) by lia.
  by apply (clone_pt_wp _ g1 s1 U1).
Qed.

End clone.
