(* ===== verification/AsFork.v ===== *)
(** * Address spaces: a clone and its parent

    as_clone as a whole: a new address space with a copy of the areas and a view
    of the parent's pages, or, when memory runs out on the way, the address spaces
    there were before.  What one side stores afterwards, the other does not see. *)

From stdpp Require Import gmap.
From S2P Require Import Prelude Frames KHeap Vmm VmmInv VmmThm Vma VmaInv VmaThm.
From S2P Require Import As AsInv Cow AsDestroy AsSys AsPage AsClone.

Section fork.
Context {H : Type} {KH : KHeap H} {KHL : KHeapLaws H}.
Context {S : Type} {FA : FrameAlloc S} {FL : FrameLaws S} {FR : FrameRefs S} {FRL : FrameRefsLaws S}.
Implicit Types (s : asys H S) (C : gmap Z Z) (B : blocks) (Ls : gmap Z areas) (V W : areas) (R : gset Z)
  (U : gmap (Z * Z) Z) (K : Z → Z) (x y l r p q i : Z) (a b : address_space) (o : option Z).

(** ** The areas of the child *)

(** The areas without those of the list [o]. *)
Definition area_blocks B Ls o : blocks :=
  match o with Some l => VmaThm.without (l :: (default [] (Ls !! l)).*1) B | None => B end.

(** The structure at [x] has the list [n] in place of its own. *)
Lemma asys_relist s v' C B Ls B' Ls' R U K x a n :
  asys_ok s C B Ls R U K → ay_spaces s !! x = Some a → vma_inv v' C B' Ls' →
  (∀ y z, B !! y = Some (None, z) → B' !! y = Some (None, z)) →
  (∀ l, is_Some (lists_without Ls (as_vmas a) !! l) → is_Some (Ls' !! l) ∧ n ≠ Some l) →
  (∀ l, n = Some l → is_Some (Ls' !! l)) →
  asys_ok (ASys v' (ay_vm s) (<[x := set_as_vmas n a]> (ay_spaces s)) (ay_kernel s) (ay_kernel_initialized s))
    C B' Ls' R U K.
Proof.
  intros [H0 H1 H2 H3 H4] Hx Hv HB Hls Hn.
  assert (∀ y b l, y ≠ x → ay_spaces s !! y = Some b → as_vmas b = Some l → is_Some (Ls' !! l) ∧ n ≠ Some l) as Hother.
  { intros y b l Hyx Hy Hl. apply Hls. destruct (H3 y b Hy) as (_ & _ & _ & Hbl). specialize (Hbl l Hl).
    unfold lists_without. destruct (as_vmas a) as [la|] eqn:Hla; [|done]. rewrite lookup_delete_ne; [done|]. intros ->.
    by apply (proj2 (H4 x y a b (not_eq_sym Hyx) Hx Hy) l). }
  split; cbn [ay_vmas ay_vm ay_spaces]; [done|done|done| |].
  - intros y b [[<- <-]|[Hyx Hy]]%lookup_insert_Some.
    + destruct (H3 x a Hx) as (? & ? & ? & _). split; [by apply HB|]. split; [done|]. split; [done|]. done.
    + destruct (H3 y b Hy) as (? & ? & ? & _). split_and!; [by apply HB|done|lia|lia|].
      intros l Hl. by apply (Hother y b).
  - intros y z b c Hyz [[<- <-]|[Hyx Hy]]%lookup_insert_Some [[<- <-]|[Hzx Hz]]%lookup_insert_Some; [done|..].
    + split; [by apply (H4 x z a c)|]. cbn [as_vmas set_as_vmas]. intros l Hl Hc. by destruct (Hother z c l (not_eq_sym Hzx) Hz Hc).
    + split; [by apply (H4 y x b a)|]. cbn [as_vmas set_as_vmas]. intros l Hl Hc. by destruct (Hother y b l (not_eq_sym Hyx) Hy Hl).
    + by apply (H4 y z).
Qed.

(** Taking the list [o] of the structure away. *)
Lemma drop_list_wp s C B Ls o (Q : unit → asys H S → Prop) :
  vma_inv (ay_vmas s) C B Ls → (∀ l, o = Some l → is_Some (Ls !! l)) →
  (∀ v', vma_inv v' C (area_blocks B Ls o) (lists_without Ls o) → Q tt (set_ay_vmas v' s)) →
  wp (match o with Some l => vmas_ (vma_list_destroy (Some l)) | None => mret tt end) Q s.
Proof.
  intros Hv Ho HQ. destruct o as [l|].
  - destruct (Ho l eq_refl) as [V HV]. apply wp_zoom. eapply vma_list_destroy_wp; [done|done|].
    intros v' Hv'. apply HQ. cbn. by rewrite HV.
  - wp_step. specialize (HQ (ay_vmas s) Hv). by destruct s.
Qed.

Lemma area_blocks_struct (v : vmas H) C B Ls o y z :
  vma_inv v C B Ls → (∀ l, o = Some l → is_Some (Ls !! l)) → B !! y = Some (None, z) →
  area_blocks B Ls o !! y = Some (None, z).
Proof.
  intros Hv Ho Hy. unfold area_blocks. destruct o as [l|]; [|done]. destruct (Ho l eq_refl) as [V HV]. rewrite HV.
  rewrite VmaThm.lookup_without, decide_False; [done|]. by apply (block_no_area v C B Ls l V y z).
Qed.

(** The areas of the child [a]: a copy of those of the parent [sa] in a list of
    its own.  as_clone does not look whether vma_list_clone could make one, so
    the child may also have none at all; the child of a parent without a list
    has the empty list as_create made, or none. *)
Definition copied_areas sa a Ls Ls' : Prop :=
  match as_vmas sa with
  | Some l => as_vmas a = None ∨
      ∃ la V W, as_vmas a = Some la ∧ Ls !! l = Some V ∧ Ls' !! la = Some W ∧ W.*2 = V.*2
  | None => ∀ la, as_vmas a = Some la → Ls' !! la = Some []
  end.

(** The part of as_clone that copies the areas of the list [l]. *)
Definition clone_areas (l x : Z) : M (asys H S) unit :=
  da ← rd_as (UserAs x);
  (match as_vmas da with Some dl => vmas_ (vma_list_destroy (Some dl)) | None => mret tt end) ;;
  nl ← vmas_ (vma_list_clone (Some l));
  upd_as (UserAs x) (set_as_vmas nl).

Lemma clone_areas_wp s C B Ls R U K x a l V (Q : unit → asys H S → Prop) :
  asys_ok s C B Ls R U K → ay_spaces s !! x = Some a → as_vmas a ≠ Some l → Ls !! l = Some V →
  (∀ v' n B' Ls',
     asys_ok (ASys v' (ay_vm s) (<[x := set_as_vmas n a]> (ay_spaces s)) (ay_kernel s) (ay_kernel_initialized s))
       C B' Ls' R U K →
     blocks_without B' Ls' x n = blocks_without B Ls x (as_vmas a) →
     lists_without Ls' n = lists_without Ls (as_vmas a) →
     (∀ l', n = Some l' → ∃ W, Ls' !! l' = Some W ∧ W.*2 = V.*2) →
     Q tt (ASys v' (ay_vm s) (<[x := set_as_vmas n a]> (ay_spaces s)) (ay_kernel s) (ay_kernel_initialized s))) →
  wp (clone_areas l x) Q s.
Proof.
  intros Hok Hx Hal HV HQ. pose proof Hok as [_ Hv _ Hs _]. destruct (Hs x a Hx) as (_ & _ & _ & Hl).
  unfold clone_areas. wp_step. eapply rd_user_wp; [done|]. wp_step. apply (drop_list_wp s C B Ls); [done|done|].
  intros v1 Hv1. set (B1 := area_blocks B Ls (as_vmas a)) in *. set (L1 := lists_without Ls (as_vmas a)) in *.
  assert (∀ y z, B !! y = Some (None, z) → B1 !! y = Some (None, z)) as HB1.
  { intros y z Hy. by apply (area_blocks_struct (ay_vmas s) C). }
  assert (L1 !! l = Some V) as HV1.
  { unfold L1, lists_without. destruct (as_vmas a) as [la|]; [|done]. rewrite lookup_delete_ne; [done|]. by intros ->. }
  wp_step. apply wp_zoom. cbn [ay_vmas set_ay_vmas].
  apply (vma_list_clone_wp v1 C B1 L1 l V); [done|done| |].
  - intros v2 Hv2. eapply upd_user_wp; [done|]. apply (HQ v2 None B1 L1); [|done|done|done].
    apply (asys_relist s v2 C B Ls); try done.
  - intros dst W v2 B2 Hd HW Hg Hv2. eapply upd_user_wp; [done|].
    apply (HQ v2 (Some dst) B2 (<[dst := W]> L1)).
    + apply (asys_relist s v2 C B Ls); try done.
      * intros y z Hy%HB1. destruct Hg as [Hg1 Hg2]. rewrite Hg1; [done|]. intros Hin%Hg2. congruence.
      * intros l' [V' HV']. assert (l' ≠ dst) by (intros ->; unfold L1 in Hd; congruence). split; [|congruence].
        rewrite lookup_insert_ne by done. by exists V'.
      * intros l' [= <-]. by rewrite lookup_insert_eq.
    + unfold blocks_without. rewrite lookup_insert_eq. cbn [from_option id]. by rewrite (VmaThm.grown_without B1).
    + cbn [lists_without]. by rewrite delete_insert_id.
    + intros l' [= <-]. exists W. by rewrite lookup_insert_eq.
Qed.

(** ** The clone *)

Abbreviation mem s := (vm_mem (ay_vm s)).

(** The pages of the address space [r]. *)
Definition space_pages U r : gmap (Z * Z) Z := filter (λ kv : (Z * Z) * Z, kv.1.1 = r) U.

(** The structure [a] at [x] is new: one reference, as many pages as the parent
    [sa] has, its areas; nothing else came to the heap or went from it. *)
Record child_of s B Ls R U sa x a B' Ls' : Prop := ChildOf {
  ch_new : ay_spaces s !! x = None ∧ as_root a ∉ R;
  ch_refs : as_ref_count a = 1;
  ch_count : as_user_pages a = wrap64 (Z.of_nat (size (space_pages U (as_root sa))));
  ch_areas : copied_areas sa a Ls Ls';
  ch_lists : lists_without Ls' (as_vmas a) = Ls;
  ch_blocks : blocks_without B' Ls' x (as_vmas a) = B }.

(** The new address space [a] at [x] is a clone of [sa]. *)
Record forked s s' C B Ls R U K sa x a B' Ls' U' : Prop := Forked {
  fk_new : child_of s B Ls R U sa x a B' Ls';
  fk_spaces : ay_spaces s' = <[x := a]> (ay_spaces s);
  fk_cr3 : vm_cr3 (ay_vm s') = vm_cr3 (ay_vm s);
  fk_kernel : ay_kernel_initialized s' = true;
  fk_untouched : untouched (ay_vm s) R U K (ay_vm s') ({[as_root a]} ∪ R) U' K;
  fk_ok : asys_ok s' C B' Ls' ({[as_root a]} ∪ R) U' K;
  fk_entries : ∀ r q, r = as_root sa ∨ r = as_root a → option_Forall2 shared_entry (U !! (as_root sa, q)) (U' !! (r, q));
  fk_views : ∀ r q i, r ≠ as_root a → 0 ≤ i < 512 → view (mem s') U' r q i = view (mem s) U r q i;
  fk_child : ∀ q i, 0 ≤ i < 512 → view (mem s') U' (as_root a) q i = view (mem s) U (as_root sa) q i }.

(** There is no clone; all is as before, but for pages that are now copied on
    the next write. *)
Definition not_forked s s' C B Ls R U K : Prop := ∃ U',
  asys_ok s' C B Ls R U' K ∧ ay_spaces s' = ay_spaces s ∧ vm_cr3 (ay_vm s') = vm_cr3 (ay_vm s) ∧
  untouched (ay_vm s) R U K (ay_vm s') R U' K ∧
  ∀ r q i, r ∈ R → 0 ≤ i < 512 → view (mem s') U' r q i = view (mem s) U r q i.

(** The pages, once the child has its structure and its areas. *)
Lemma clone_pages_wp s s2 C B Ls B2 Ls2 R U K x sa a2 (Q : option Z → asys H S → Prop) :
  asys_ok s2 C B2 Ls2 ({[as_root a2]} ∪ R) U K → as_root sa ∈ R → as_root a2 ∉ R →
  as_ref_count a2 = 1 → as_user_pages a2 = 0 →
  ay_spaces s !! x = None → ay_spaces s2 = <[x := a2]> (ay_spaces s) → vm_cr3 (ay_vm s2) = vm_cr3 (ay_vm s) →
  ay_kernel_initialized s2 = true → untouched (ay_vm s) R U K (ay_vm s2) ({[as_root a2]} ∪ R) U K →
  (∀ q r e, U !! (r, q) = Some e → r ∈ R ∧ 0 ≤ q < 2 ^ 35) →
  (∀ r q i, 0 ≤ i < 512 → view (mem s2) U r q i = view (mem s) U r q i) →
  blocks_without B2 Ls2 x (as_vmas a2) = B → lists_without Ls2 (as_vmas a2) = Ls → copied_areas sa a2 Ls Ls2 →
  (∀ f, 2 * uses U f + K f < 2 ^ 32) →
  (∀ s', not_forked s s' C B Ls R U K → Q None s') →
  (∀ s' a U', forked s s' C B Ls R U K sa x a B2 Ls2 U' → Q (Some x) s') →
  wp (ok ← clone_tables (as_cr3 sa) x; mret (if (ok : bool) then Some x else None)) Q s2.
Proof.
  intros Hok Hsa Ha2 Href Hup Hx Hsp Hcr Hki Hun Hdom Hview HB HL Hcp Hroom HN HS.
  assert (as_root sa ≠ as_root a2) as Hne by (intros Heq; apply Ha2; by rewrite <-Heq).
  assert (∀ q, U !! (as_root a2, q) = None) as Hempty.
  { intros q. destruct (U !! (as_root a2, q)) as [e|] eqn:He; [|done]. by destruct (Hdom q _ e He). }
  assert (({[as_root a2]} ∪ R) ∖ {[as_root a2]} = R) as HR by set_solver.
  wp_step. eapply wp_mono.
  { apply (clone_tables_wp s2 C B2 Ls2 ({[as_root a2]} ∪ R) U K x a2 (as_root sa)); try done; [|set_solver].
    by rewrite Hsp, lookup_insert_eq. }
  intros [] s'.
  - intros (U' & [H1 H2 H3 Hk1 Hun1 H4 H5 H6 H7 H8 H9 H10 H11]). wp_step.
    set (n := shared_count U (as_root sa) (2 ^ 35)) in *.
    apply (HS s' (set_as_user_pages n a2) U'). split; try done.
    + split; try done. cbn [as_user_pages set_as_user_pages].
      unfold n, shared_count. do 3 f_equal. apply map_filter_ext. intros [r q] e He. cbn.
      destruct (Hdom q r e He). split; [by intros [-> _]|]. intros ->. split; [done|lia].
    + by rewrite H2, Hsp, insert_insert_eq.
    + congruence.
    + congruence.
    + by eapply untouched_trans.
    + intros r q Hr. destruct (decide (q < 2 ^ 35)) as [Hq|Hq]; [by apply H5|].
      assert (U !! (as_root sa, q) = None) as Hn.
      { destruct (U !! (as_root sa, q)) as [e|] eqn:He; [|done]. destruct (Hdom q _ e He). lia. }
      rewrite Hn. destruct Hr as [->| ->]; [rewrite H6, Hn by lia; constructor|].
      change (as_root (set_as_user_pages n a2)) with (as_root a2). rewrite H7 by lia. constructor.
    + intros r q i Hr Hi. by rewrite H10, Hview.
    + intros q i Hi. change (as_root (set_as_user_pages n a2)) with (as_root a2). rewrite <-Hview by done.
      destruct (decide (q < 2 ^ 35)) as [Hq|Hq]; [by apply H11|]. unfold view. rewrite H7 by lia.
      destruct (U !! (as_root sa, q)) as [e|] eqn:He; [|done]. destruct (Hdom q _ e He). lia.
  - intros (U' & H1 & H2 & H3 & Hun1 & H4). wp_step. apply HN. exists U'. rewrite HB, HL in H1. split_and!.
    + by rewrite HR in H1.
    + by rewrite H2, Hsp, delete_insert_id.
    + congruence.
    + rewrite HR in Hun1. by eapply untouched_trans.
    + intros r q i Hr Hi. rewrite H4, Hview by (done || by intros ->). done.
Qed.

Lemma as_clone_wp s C B Ls R U K x sa (Q : option Z → asys H S → Prop) :
  asys_ok s C B Ls R U K → kernel_seen s → ay_spaces s !! x = Some sa → (∀ f, 2 * uses U f + K f < 2 ^ 32) →
  (∀ s', not_forked s s' C B Ls R U K → Q None s') →
  (∀ s' d a B' Ls' U', forked s s' C B Ls R U K sa d a B' Ls' U' → Q (Some d) s') →
  wp (as_clone (Some (UserAs x))) Q s.
Proof.
  intros Hok Hseen Hx Hroom HN HS. pose proof Hok as [_ Hv Hp Hs _]. destruct (Hs x sa Hx) as (_ & Hsa & _ & Hl).
  assert (∀ q r e, U !! (r, q) = Some e → r ∈ R ∧ 0 ≤ q < 2 ^ 35) as Hdom.
  { intros q r e He. by apply (sp_dom _ _ _ _ (so_shape _ _ _ _ Hp) r q e). }
  unfold as_clone. wp_step. apply (as_create_wp s C B Ls R U K); [done|done| |].
  { intros s1 Hok1 Hsp Hvm. wp_step. apply HN. exists U. rewrite Hvm. by split_and!. }
  intros d c o B1 L1 s1 [Hok1 [Hc HcR] Hfresh Hsp HB1 HL1 Hemp Hcr Hki Hun Hview].
  assert (d ≠ x) as Hdx by congruence. set (a0 := ASpace c 1 0 o) in *.
  assert (as_root a0 = c) as Hroot by (unfold as_root; cbn; done).
  assert (ay_spaces s1 !! d = Some a0) as Hd by (by rewrite Hsp, lookup_insert_eq).
  wp_step. eapply rd_user_wp; [rewrite Hsp, lookup_insert_ne by done; exact Hx|]. wp_step.
  destruct (as_vmas sa) as [l|] eqn:Hsl.
  - destruct (Hl l eq_refl) as [V HV].
    assert (L1 !! l = Some V ∧ o ≠ Some l) as [HV1 Hol].
    { rewrite <-HL1 in HV. unfold lists_without in HV. destruct o as [lo|]; [|done].
      apply lookup_delete_Some in HV as [? ?]. split; [done|congruence]. }
    fold (clone_areas l d). apply (clone_areas_wp s1 C B1 L1 ({[c]} ∪ R) U K d a0 l V); [done|done|done|done|].
    intros v' n B2 L2 Hok2 HB2 HL2 Hcopy.
    apply (clone_pages_wp s _ C B Ls B2 L2 R U K d sa (set_as_vmas n a0)); try done.
    + change (as_root (set_as_vmas n a0)) with (as_root a0). by rewrite Hroot.
    + change (as_root (set_as_vmas n a0)) with (as_root a0). by rewrite Hroot.
    + cbn [ay_spaces]. by rewrite Hsp, insert_insert_eq.
    + change (as_root (set_as_vmas n a0)) with (as_root a0). by rewrite Hroot.
    + cbn [as_vmas set_as_vmas]. by rewrite HB2.
    + cbn [as_vmas set_as_vmas]. by rewrite HL2.
    + unfold copied_areas. rewrite Hsl. cbn [as_vmas set_as_vmas]. destruct n as [la|]; [right|by left].
      destruct (Hcopy la eq_refl) as (W & HW & HWV). by exists la, V, W.
    + intros s' a U' Hf. by apply (HS s' d a B2 L2 U').
  - wp_step. apply (clone_pages_wp s s1 C B Ls B1 L1 R U K d sa a0); try done.
    + by rewrite Hroot.
    + by rewrite Hroot.
    + by rewrite Hroot.
    + unfold copied_areas. by rewrite Hsl.
    + intros s' a U' Hf. by apply (HS s' d a B1 L1 U').
Qed.

(** ** A store after the clone *)

(** A clone, and then a store of [w] at the address [v] in the child or in the
    parent, with a copy-on-write fault taken on the way if there is one. *)
Definition fork_and_store (x : Z) (child : bool) (v w : Z) : M (asys H S) (option Z * bool) :=
  d ← as_clone (Some (UserAs x));
  match d with
  | None => mret (None, false)
  | Some y =>
      as_switch (Some (UserAs (if child then y else x))) ;;
      ok ← vm_ (user_store v w);
      mret (Some y, ok)
  end.

Lemma as_switch_wp s x a (Q : unit → asys H S → Prop) :
  ay_spaces s !! x = Some a → Q tt (set_ay_vm (set_vm_cr3 (as_cr3 a) (ay_vm s)) s) →
  wp (as_switch (Some (UserAs x))) Q s.
Proof.
  intros Hx HQ. unfold as_switch. wp_step. eapply rd_user_wp; [done|]. wp_step. wp_step.
  destruct (Z.eqb_spec (vm_cr3 (ay_vm s)) (as_cr3 a)) as [He|He]; [|by wp_step].
  wp_step. rewrite <-He in HQ. by destruct s as [? [] ? ? ?].
Qed.

Lemma shared_cow e e' :
  shared_entry e e' → has e PTE_WRITABLE = true ∨ has e PTE_COW = true → has e' PTE_COW = true.
Proof. intros (_ & _ & _ & ->). intros [->| ->]; [done|]. apply orb_true_r. Qed.

(** What is seen after the store: the clone [a] starts with the view of [sa], and
    only the address space [r] sees the word [w]. *)
Definition fork_stored s s' U U' sa a R r (ok : bool) v w : Prop :=
  ∀ r' q i, r' ∈ {[as_root a]} ∪ R → 0 ≤ i < 512 → view (mem s') U' r' q i =
    if decide (ok = true ∧ r' = r ∧ q = vpn v ∧ i = word_of v) then Some w
    else view (mem s) U (if decide (r' = as_root a) then as_root sa else r') q i.

Lemma fork_and_store_wp s C B Ls R U K x sa child v w e :
  asys_ok s C B Ls R U K → kernel_seen s → (∀ f, fa_addr f → in_kernel_window f) →
  ay_spaces s !! x = Some sa → (∀ f, 2 * uses U f + K f < 2 ^ 32) →
  0 ≤ v < 2 ^ 64 → user v → v mod 8 = 0 → U !! (as_root sa, vpn v) = Some e →
  has e PTE_WRITABLE = true ∨ has e PTE_COW = true →
  wp (fork_and_store x child v w) (λ res s', match res with
    | (None, ok) => ok = false ∧ not_forked s s' C B Ls R U K
    | (Some y, ok) => ∃ a B' Ls' U', child_of s B Ls R U sa y a B' Ls' ∧
        ay_spaces s' = <[y := a]> (ay_spaces s) ∧ asys_ok s' C B' Ls' ({[as_root a]} ∪ R) U' K ∧
        untouched (ay_vm s) R U K (ay_vm s') ({[as_root a]} ∪ R) U' K ∧
        fork_stored s s' U U' sa a R (if child then as_root a else as_root sa) ok v w
    end) s.
Proof.
  intros Hok Hseen Hwin Hx Hroom Hv Hu H8 He Hwc. unfold fork_and_store. wp_step.
  apply (as_clone_wp s C B Ls R U K x sa); [done|done|done|done|by intros s' Hn; wp_step|].
  intros s1 y a B1 L1 U1 [Hchild Hsp Hcr Hki Hun1 Hok1 Hent Hview Hch].
  pose proof (ch_new _ _ _ _ _ _ _ _ _ _ Hchild) as [Hfr HaR].
  assert (as_root sa ∈ R) as HsR by apply (ao_space _ _ _ _ _ _ _ Hok x sa Hx).
  assert (as_root sa ≠ as_root a) as Hne by (intros Heq; apply HaR; by rewrite <-Heq).
  set (z := if child then y else x). set (az := if child then a else sa).
  assert (ay_spaces s1 !! z = Some az) as Hz.
  { rewrite Hsp. unfold z, az. destruct child; [apply lookup_insert_eq|]. rewrite lookup_insert_ne; [done|congruence]. }
  assert (∃ e', U1 !! (as_root az, vpn v) = Some e' ∧ has e' PTE_COW = true) as (e' & He' & Hcow).
  { specialize (Hent (as_root az) (vpn v) ltac:(unfold az; destruct child; auto)). rewrite He in Hent.
    inversion Hent as [? e' Hsh Heq1 Heq2|]. exists e'. split; [done|]. by apply (shared_cow e). }
  wp_step. eapply as_switch_wp; [done|]. wp_step. apply wp_zoom. cbn [ay_vm set_ay_vm].
  set (v1 := set_vm_cr3 (as_cr3 az) (ay_vm s1)).
  pose proof (asys_switch s1 C B1 L1 _ U1 K (as_cr3 az) Hok1 Hki (sees_window _ Hwin)) as Hoks.
  assert (spaces_ok v1 ({[as_root a]} ∪ R) U1 K) as Hv1 by apply (ao_pages _ _ _ _ _ _ _ Hoks).
  eapply wp_mono; [apply (user_store_wp v1 ({[as_root a]} ∪ R) U1 K v w e'); [done| |done|done|done|done|by right]|].
  { cbn [v1 vm_cr3 set_vm_cr3]. fold (as_root az). unfold az. destruct child; set_solver. }
  cbn [v1 vm_cr3 set_vm_cr3]. fold (as_root az).
  intros ok v2 (Hcr2 & Hres). wp_step.
  assert (∀ r q i, 0 ≤ i < 512 → view (mem s1) U1 r q i =
    view (mem s) U (if decide (r = as_root a) then as_root sa else r) q i) as Hboth.
  { intros r q i Hi. destruct (decide (r = as_root a)) as [->|]; [by apply Hch|by apply Hview]. }
  destruct Hres as [(-> & -> & _)|(-> & U2 & Hok2 & Hst & Hun2)].
  - exists a, B1, L1, U1. split_and!; [done|done|done|done|].
    intros r q i _ Hi. rewrite decide_False by (by intros [? _]). by apply Hboth.
  - exists a, B1, L1, U2. split_and!; [done|done|by apply (asys_pages _ C B1 L1 _ U1 U2 K v2 Hoks)| |].
    { by eapply untouched_trans; [exact Hun1|]. }
    intros r q i _ Hi. cbn [ay_vm set_ay_vm]. rewrite (Hst r q i Hi).
    replace (if child then as_root a else as_root sa) with (as_root az) by (unfold az; by destruct child).
    destruct (decide (r = as_root az ∧ _)) as [Hd|Hd]; [by rewrite decide_True|].
    rewrite decide_False; [by apply Hboth|]. by intros [_ ?].
Qed.

(** ** Other tables than the boot loader's *)

(** as_create reads the kernel's PML4 through phys_to_virt.  It lies below the
    memory that the higher half maps, so the address is the one-to-one one, and
    in the lower half of a process's tables there is no such page. *)
Lemma wr_word_cr3 (w w' : vm S) (va x : Z) u : wr_word va x w = Some (u, w') → vm_cr3 w' = vm_cr3 w.
Proof.
  unfold wr_word, mbind, M_bind, get, lift, put. destruct (window (vm_cr3 w) va) as [p|]; [|done]. by intros [= _ <-].
Qed.

Lemma alloc_page_table_cr3 (w w' : vm S) o : alloc_page_table w = Some (o, w') → vm_cr3 w' = vm_cr3 w.
Proof.
  unfold alloc_page_table, mbind, M_bind, on_frames.
  destruct (fa_alloc_page (vm_frames w)) as [[p fr]|]; [|done]. destruct (p =? 0); [by intros [= _ <-]|].
  destruct (for_ 0 _ _ (set_frames fr w)) as [[[] w1]|] eqn:Hf; [|done]. intros [= _ <-].
  apply (run_for (λ _ (u : vm S), vm_cr3 u = vm_cr3 w)) in Hf; [done| |done|done].
  intros i u u' _ Hu Hb. apply wr_word_cr3 in Hb. congruence.
Qed.

Lemma new_pml4_faults (w w' : vm S) cr3 o :
  frame_of (vm_cr3 w) ≠ BOOT_PML4 → frame_of cr3 = BOOT_PML4 → new_pml4 cr3 w = Some (o, w') → o = None.
Proof.
  intros Hc Hk. unfold new_pml4. unfold mbind at 1, M_bind at 1.
  destruct (alloc_page_table w) as [[[t|] w1]|] eqn:Ha; [|by intros [= <- _]|done].
  apply alloc_page_table_cr3 in Ha. cbv zeta. fold (frame_of cr3). rewrite Hk. unfold mbind at 1, M_bind at 1.
  destruct (for_ _ _ _ w1) as [[[] w2]|] eqn:Hf; [|done]. exfalso.
  apply (run_for (λ i (u : vm S), i = 256 ∧ vm_cr3 u = vm_cr3 w)) in Hf; [by destruct Hf| |done|done].
  intros i u u' _ [-> Hu]. unfold rd_word, mbind, M_bind, get, lift. cbv beta iota.
  rewrite Hu, window_unseen; [done|done|by split_and!; vm_compute| |done].
  intros [Hlow _]. by vm_compute in Hlow.
Qed.

(** A process that asks for a clone with its own tables loaded, as every system
    call does, never gets one: as_clone fails or faults. *)
Theorem clone_faults_in_user_tables s (p : as_ptr) o s' :
  frame_of (vm_cr3 (ay_vm s)) ≠ BOOT_PML4 → kernel_root s = BOOT_PML4 →
  as_clone (Some p) s = Some (o, s') → o = None.
Proof.
  intros Hc Hk. unfold as_clone. unfold mbind at 1, M_bind at 1.
  destruct (as_create s) as [[d s1]|] eqn:Hrun; [|done].
  assert (d = None) as ->; [|by intros [= <- _]].
  unfold kernel_root in Hk. destruct (ay_kernel_initialized s) eqn:Hi; [|done].
  revert Hrun. unfold as_create, as_get_kernel. unfold mbind, M_bind, get. rewrite Hi. cbn [mret M_ret].
  unfold heap_, vmas_, vm_, zoom, rd_as, mbind, M_bind, get. cbn [mret M_ret ay_kernel ay_vm set_ay_vmas].
  destruct (on_heap _ (ay_vmas s)) as [[[x|] v1]|]; [|by intros [= <- _]|done].
  cbn [mret M_ret ay_kernel ay_vm set_ay_vmas].
  destruct (new_pml4 (as_cr3 (ay_kernel s)) (ay_vm s)) as [[[c|] w]|] eqn:Hp; [|..|done].
  - apply new_pml4_faults in Hp; done.
  - destruct (on_heap _ _) as [[? ?]|]; [|done]. by intros [= <- _].
Qed.


End fork.
