(* ===== verification/AsDemo.v ===== *)
(** * Address spaces: an example

    The machine of the physical memory manager's example with one address space
    of two pages: the theorems on address spaces apply to it.  All its memory is
    in the 128MB that every page table maps, and the boot loader's tables are
    loaded. *)

From stdpp Require Import gmap.
From S2P Require Import Prelude DList Pmm PmmInv PmmInit PmmThm Frames Vmm VmmInv VmmThm PageMap Slab KHeap Vma VmaInv VmaThm.
From S2P Require Import As AsInv Cow AsDestroy AsSys AsPage AsClone AsFork.

(** ** The memory of the example *)

Definition low_mem : Type := mem_info.
#[local] Typeclasses Opaque low_mem.

#[local] Instance low_frames : FrameAlloc low_mem := @only_frames mem_info pmm_frames in_kernel_window.
#[local] Instance low_frames_laws : FrameLaws low_mem := @only_frames_laws mem_info _ _ in_kernel_window.
#[local] Instance low_refs : FrameRefs low_mem := @only_refs mem_info _ _ in_kernel_window.
#[local] Instance low_refs_laws : FrameRefsLaws low_mem := @only_refs_laws mem_info _ _ _ in_kernel_window.

Lemma low_window (f : Z) : fa_addr (S := low_mem) f → in_kernel_window f.
Proof. by intros [_ ?]. Qed.

(** Every descriptor below 2MB is reserved. *)
Lemma demo_low_reserved : forallb is_reserved (take 512 (page_array demo_state)) = true.
Proof. by vm_compute. Qed.

Lemma demo_total : total_pages demo_state = 1024.
Proof. by vm_compute. Qed.

Lemma unreserved_above ps p :
  forallb is_reserved (take 512 ps) = true → unreserved ps p → 0 ≤ p → 512 ≤ p.
Proof.
  intros Hall (pg & Hpg & Hr) Hp. destruct (decide (512 ≤ p)) as [|Hlt]; [done|]. exfalso.
  rewrite forallb_forall in Hall. specialize (Hall pg). rewrite Hall in Hr; [done|].
  apply list_elem_of_In, list_elem_of_lookup. exists (Z.to_nat p). rewrite lookup_take_lt by lia.
  unfold aget in Hpg. by case_decide.
Qed.

Lemma demo_low : fa_inv (S := low_mem) demo_state.
Proof.
  split; [exact demo_fa_inv|]. destruct (proj1 demo_inv) as [Hwf _ _ _ _].
  assert (∀ p, 0 < p < total_pages demo_state → unreserved (page_array demo_state) p →
    in_kernel_window (p * PAGE_SIZE)) as Hin.
  { intros p Hp Hu. rewrite demo_total in Hp.
    pose proof (unreserved_above _ p demo_low_reserved Hu ltac:(lia)).
    unfold in_kernel_window, KERNEL_PHYS_BASE, PAGE_SIZE. lia. }
  intros f [(p & -> & Hf)|(p & -> & Hf)].
  - apply Hin; [by apply is_free_bounds|]. destruct Hf as (x & o & Hh & Hp).
    by apply (bo_unres _ _ _ (wf_blocks _ Hwf _ _ Hh)).
  - apply addable_0 in Hf as (Hp & Hu & _). by apply Hin.
Qed.

Abbreviation machine := (asys (heap (vm mem_info)) low_mem).

Definition demo_lvm : vm low_mem := Vm (S := low_mem) demo_state ∅ 0x1000.
Definition demo_as0 : machine := ASys demo_vmas demo_lvm ∅ (ASpace 0 0 0 None) false.
Definition no_users : Z → Z := λ _, 0.

Lemma demo_root_used : ¬ fa_free (S := low_mem) demo_state 0x1000.
Proof.
  intros (p & Hp & Hf). apply (proj2 demo_inv) in Hf.
  assert (p = 1) as -> by (unfold PAGE_SIZE in Hp; lia).
  destruct Hf as [Hf _]. apply usable_cons in Hf as [(a & b & Hr & Hab)|Hf]; [|by apply usable_nil in Hf].
  assert (usable_range (MmapEntry 0x200000 0x200000 1) = Some (512, 1024)) as Hr' by by vm_compute.
  rewrite Hr' in Hr. injection Hr as <- <-. lia.
Qed.

Lemma demo_root_foreign : foreign demo_lvm ∅ ∅ no_users 0x1000.
Proof.
  split; [split_and!; by vm_compute|]. split; [exact demo_root_used|].
  split; [by intros r w k ?%elem_of_empty|done].
Qed.

Lemma no_tables w d f : table_at ∅ 0x1000 w d = Some f → d = O ∧ f = 0x1000.
Proof.
  destruct d as [|d]; [by intros [= <-]|]. assert (table_at ∅ 0x1000 w (S d) = None) as ->; [|done].
  induction d as [|d IH]; [done|]. rewrite table_at_next, IH. done.
Qed.

Lemma demo_spaces : spaces_ok demo_lvm ∅ ∅ no_users.
Proof.
  assert (∀ f, ¬ any_table (vm_mem demo_lvm) ∅ f) as Hno by (intros f (r & _ & _ & ?%elem_of_empty & _); contradiction).
  split.
  - split.
    + exact demo_low.
    + intros r ?%elem_of_empty. contradiction.
    + intros f ?%Hno. contradiction.
    + intros r v d f ?%elem_of_empty. contradiction.
    + intros r v d f r' w k ?%elem_of_empty. contradiction.
    + intros r v ?%elem_of_empty. contradiction.
    + intros r p e. rewrite lookup_empty. discriminate.
    + intros r p e. rewrite lookup_empty. discriminate.
  - intros f Hf. exfalso. unfold uses in Hf. rewrite map_filter_empty, map_size_empty in Hf. lia.
  - intros f. unfold no_users. split; [lia|reflexivity].
  - intros f ?%Hno. contradiction.
  - intros r p e. rewrite lookup_empty. discriminate.
  - apply sees_window. exact low_window.
Qed.

Lemma demo_seen (s : machine) : vm_cr3 (ay_vm s) = 0x1000 → kernel_root s = 0x1000 → kernel_seen s.
Proof.
  intros Hc Hk. unfold kernel_seen. rewrite Hc, Hk. apply seen_boot; [by vm_compute|split_and!; by vm_compute].
Qed.

Lemma demo_as0_ok : ∃ C, asys_ok demo_as0 C ∅ ∅ ∅ ∅ no_users.
Proof.
  destruct demo_vmas_inv as [C HC]. exists C. split.
  - change (kernel_root demo_as0) with 0x1000. split.
    + intros w d f _ _ [-> ->]%no_tables. exact demo_root_foreign.
    + intros v w d k f _ _ _ _ [-> _]%no_tables [-> _]%no_tables. split; [reflexivity|]. intros j Hj. lia.
  - exact HC.
  - exact demo_spaces.
  - intros x a. cbn [ay_spaces demo_as0]. rewrite lookup_empty. discriminate.
  - intros x y a b _. cbn [ay_spaces demo_as0]. rewrite lookup_empty. discriminate.
Qed.

(** ** One address space, with two pages *)

Definition demo_created : option Z * machine := default (None, demo_as0) (as_create demo_as0).
Definition demo_space : Z := default 0 demo_created.1.
Definition demo_as1 : machine := demo_created.2.

Lemma demo_creates : is_some2 (as_create demo_as0) = true.
Proof. by vm_compute. Qed.

Abbreviation demo_pages := (as_alloc_pages (Some (UserAs demo_space)) 0x400000 2 PTE_WRITABLE).
Definition demo_as2 : machine := from_option snd demo_as1 (demo_pages demo_as1).

Lemma demo_pages_returns : fst <$> demo_pages demo_as1 = Some 0.
Proof. by vm_compute. Qed.

Lemma demo_result res s' : demo_pages demo_as1 = Some (res, s') → res = 0.
Proof. pose proof demo_pages_returns as Hret. intros Hrun. rewrite Hrun in Hret. by injection Hret. Qed.

Lemma demo_as1_ok : ∃ C B Ls a, asys_ok demo_as1 C B Ls ({[as_root a]} ∪ ∅) ∅ no_users ∧
  ay_spaces demo_as1 !! demo_space = Some a ∧ as_ref_count a = 1 ∧ as_user_pages a = 0.
Proof.
  destruct demo_as0_ok as [C Hok].
  destruct (wp_elim as_create (λ o s', ∀ x, o = Some x → ∃ c l B Ls, created demo_as0 s' C ∅ ∅ B Ls ∅ ∅ no_users x c l)
    demo_as0) as (o & s' & Hrun & Hres).
  { apply (as_create_wp demo_as0 C ∅ ∅ ∅ ∅ no_users _ Hok).
    - exact (demo_seen demo_as0 eq_refl eq_refl).
    - intros s' _ _ _ x [=].
    - intros x c l B Ls s' Hc y [= <-]. by exists c, l, B, Ls. }
  pose proof demo_creates as Hsome. rewrite Hrun in Hsome. destruct o as [x|]; [|discriminate Hsome].
  destruct (Hres x eq_refl) as (c & l & B & Ls & [Hok1 [Hc _] _ Hsp _ _ _ _ _ _ _]).
  assert (demo_as1 = s' ∧ demo_space = x) as [Hs Hx].
  { unfold demo_as1, demo_space, demo_created. rewrite Hrun. split; reflexivity. }
  rewrite Hs, Hx. exists C, B, Ls, (ASpace c 1 0 l). split_and!.
  - unfold as_root. cbn [as_cr3]. rewrite Hc. exact Hok1.
  - rewrite Hsp. apply lookup_insert_eq.
  - reflexivity.
  - reflexivity.
Qed.

Lemma as_alloc_pages_correct_witness : ∃ C B Ls R K x a s',
  demo_pages demo_as1 = Some (0, s') ∧ new_pages demo_as1 s' C B Ls R ∅ K x a 0x400000 2 PTE_WRITABLE.
Proof.
  destruct demo_as1_ok as (C & B & Ls & a & Hok & Hx & _ & H0).
  destruct (as_alloc_pages_correct demo_as1 C B Ls ({[as_root a]} ∪ ∅) ∅ no_users demo_space a 0x400000 2 PTE_WRITABLE)
    as (res & s' & Hrun & Hres).
  - exact Hok.
  - exact Hx.
  - rewrite H0. lia.
  - lia.
  - reflexivity.
  - lia.
  - unfold PAGE_SIZE. lia.
  - intros q _. apply lookup_empty.
  - pose proof (demo_result res s' Hrun) as ->.
    exists C, B, Ls, ({[as_root a]} ∪ ∅), no_users, demo_space, a, s'. split; [exact Hrun|].
    destruct Hres as [[Hr _]|[_ Hn]]; [discriminate Hr|exact Hn].
Defined.

Lemma as_destroy_correct_witness : ∃ s', as_destroy (Some (UserAs demo_space)) demo_as1 = Some (tt, s') ∧
  ay_spaces s' = delete demo_space (ay_spaces demo_as1).
Proof.
  destruct demo_as1_ok as (C & B & Ls & a & Hok & Hx & H1 & _).
  destruct (as_destroy_correct demo_as1 C B Ls ({[as_root a]} ∪ ∅) ∅ no_users demo_space a Hok Hx) as (s' & Hrun & Hres).
  exists s'. split; [exact Hrun|]. rewrite H1 in Hres. change (1 =? 1) with true in Hres. exact (ds_spaces _ _ _ _ _ _ _ _ _ _ Hres).
Defined.

(** ** A clone *)

Lemma demo_as2_ok : ∃ C B Ls R U a e, asys_ok demo_as2 C B Ls R U no_users ∧
  ay_spaces demo_as2 !! demo_space = Some a ∧ U !! (as_root a, vpn 0x400008) = Some e ∧ has e PTE_WRITABLE = true ∧
  ∀ f, uses U f ≤ 1.
Proof.
  destruct demo_as1_ok as (C & B & Ls & a & Hok & Hx & _ & H0).
  destruct (wp_elim demo_pages (λ res s', res = 0 →
    new_pages demo_as1 s' C B Ls ({[as_root a]} ∪ ∅) ∅ no_users demo_space a 0x400000 2 PTE_WRITABLE) demo_as1)
    as (res & s' & Hrun & Hres).
  { unfold as_alloc_pages. eapply wp_mono.
    - apply (alloc_pages_from_wp 2 demo_as1 demo_as1 C B Ls ({[as_root a]} ∪ ∅) ∅ no_users demo_space a 0x400000 0 PTE_WRITABLE
        Hok Hx); [lia|lia|reflexivity|lia|by vm_compute|intros q _; apply lookup_empty|].
      exists ∅. rewrite H0. change (0 +u64 0) with 0. rewrite <-H0.
      split; [by apply repaged_refl|]. split; [by intros k _|lia].
    - intros res s' [[-> _]|[_ Hn]] Hz; [discriminate Hz|exact Hn]. }
  pose proof (demo_result res s' Hrun) as ->. destruct (Hres eq_refl) as (U & [Hok2 Hsp _ _ _ _] & Hout & Hpg).
  set (n := as_user_pages a +u64 2) in *.
  assert (demo_as2 = s') as -> by (unfold demo_as2; rewrite Hrun; reflexivity).
  change (0x400000 / PAGE_SIZE) with 1024 in *.
  assert (∀ (k : Z * Z) x, U !! k = Some x → has x PTE_WRITABLE = true) as Hall.
  { intros [r q] x Hk. destruct (decide (r = as_root a ∧ 1024 ≤ q < 1024 + 2)) as [[-> Hq]|Hq].
    - destruct (Hpg (q - 1024) ltac:(lia)) as (_ & e & He & Hw & _). replace (1024 + (q - 1024)) with q in He by lia.
      rewrite Hk in He. injection He as <-. rewrite Hw. reflexivity.
    - rewrite Hout, lookup_empty in Hk by exact Hq. discriminate Hk. }
  destruct (Hpg 0 ltac:(lia)) as (_ & e & He & Hw & _). rewrite Z.add_0_r in He.
  exists C, B, Ls, ({[as_root a]} ∪ ∅), U, (set_as_user_pages n a), e. split_and!; [done| | |by eapply Hall|].
  - rewrite Hsp. apply lookup_insert_eq.
  - exact He.
  - intros f. destruct (decide (0 < uses U f)) as [Hf|Hf]; [|lia].
    destruct (uses_some U f Hf) as ([r q] & x & Hk & <-).
    pose proof (so_writers _ _ _ _ (ao_pages _ _ _ _ _ _ _ Hok2) r q x Hk (Hall _ _ Hk)) as H1. unfold no_users in H1. lia.
Qed.

Lemma demo_as2_cr3 : vm_cr3 (ay_vm demo_as2) = 0x1000.
Proof. vm_compute. reflexivity. Qed.

Lemma demo_as2_root : kernel_root demo_as2 = 0x1000.
Proof. vm_compute. reflexivity. Qed.

Lemma demo_forks : from_option (λ r, bool_decide (is_Some r.1.1) && r.1.2) false
  (fork_and_store demo_space true 0x400008 77 demo_as2) = true.
Proof. vm_compute. reflexivity. Qed.

