(* ===== verification/CString.v ===== *)
(** * Strings and memory blocks: model (lib/string.h, lib/string.c)

    Byte memory is a map from addresses to bytes (0 to 255); an address that is
    not in the map is not mapped, and reading or writing it faults.  Pointers
    are addresses.  A loop that walks over consecutive bytes ends, or leaves
    the mapped memory and faults, after no more steps than there are mapped
    bytes: that is the fuel of the loops. *)

From Stdlib Require Import Ascii.
From stdpp Require Import strings.
From S2P Require Import Prelude.

Abbreviation bytes := (gmap Z Z).
Abbreviation BM := (M bytes).

Definition rd (p : Z) : BM Z := m ← get; lift (m !! p).

Definition wr (p x : Z) : BM unit :=
  m ← get; lift (m !! p) ;; put (<[p := x]> m).

(** No walk over mapped bytes takes more steps. *)
Definition bytes_fuel : BM nat := gets (λ m, S (size m)).

(** A character constant, and the characters of a string constant. *)
Definition chr (a : Ascii.ascii) : Z := Z.of_N (Ascii.N_of_ascii a).
Arguments chr a%_char.

Fixpoint chars (s : string) : list Z :=
  match s with
  | EmptyString => []
  | String a s' => chr a :: chars s'
  end.

(** ** Strings *)

Fixpoint strlen_from (fuel : nat) (s len : Z) : BM Z :=
  match fuel with
  | O => fault
  | S fuel' =>
      c ← rd (s + len);
      if c =? 0 then mret len else strlen_from fuel' s (len + 1)
  end.

Definition strlen (s : Z) : BM Z := fuel ← bytes_fuel; strlen_from fuel s 0.

Fixpoint strcmp_from (fuel : nat) (s1 s2 : Z) : BM Z :=
  match fuel with
  | O => fault
  | S fuel' =>
      c1 ← rd s1; c2 ← rd s2;
      if negb (c1 =? 0) && (c1 =? c2) then strcmp_from fuel' (s1 + 1) (s2 + 1)
      else mret (c1 - c2)
  end.

Definition strcmp (s1 s2 : Z) : BM Z := fuel ← bytes_fuel; strcmp_from fuel s1 s2.

Fixpoint strncmp_from (n : nat) (s1 s2 : Z) : BM Z :=
  match n with
  | O => mret 0
  | S n' =>
      c1 ← rd s1;
      if c1 =? 0 then c2 ← rd s2; mret (c1 - c2)
      else
        c2 ← rd s2;
        if c1 =? c2 then strncmp_from n' (s1 + 1) (s2 + 1) else mret (c1 - c2)
  end.

Definition strncmp (s1 s2 n : Z) : BM Z := strncmp_from (Z.to_nat n) s1 s2.

Definition tolower (c : Z) : Z := if (chr "A" <=? c) && (c <=? chr "Z") then c + 32 else c.

Fixpoint strcasecmp_from (fuel : nat) (s1 s2 : Z) : BM Z :=
  match fuel with
  | O => fault
  | S fuel' =>
      c1 ← rd s1; c2 ← rd s2;
      if negb (c1 =? 0) && (tolower c1 =? tolower c2) then strcasecmp_from fuel' (s1 + 1) (s2 + 1)
      else mret (tolower c1 - tolower c2)
  end.

Definition strcasecmp (s1 s2 : Z) : BM Z := fuel ← bytes_fuel; strcasecmp_from fuel s1 s2.

(** [while ( ( *dst++ = *src++ ) )] *)
Fixpoint copy_string (fuel : nat) (dst src : Z) : BM unit :=
  match fuel with
  | O => fault
  | S fuel' =>
      c ← rd src; wr dst c ;;
      if c =? 0 then mret tt else copy_string fuel' (dst + 1) (src + 1)
  end.

Definition strcpy (dst src : Z) : BM Z := fuel ← bytes_fuel; copy_string fuel dst src ;; mret dst.

(** [while (n > 0 && *src) { *dst++ = *src++; n--; }]: where it stops. *)
Fixpoint copy_n (n : nat) (dst src : Z) : BM (Z * nat) :=
  match n with
  | O => mret (dst, O)
  | S n' =>
      c ← rd src;
      if c =? 0 then mret (dst, n) else wr dst c ;; copy_n n' (dst + 1) (src + 1)
  end.

Fixpoint fill (n : nat) (p x : Z) : BM unit :=
  match n with
  | O => mret tt
  | S n' => wr p x ;; fill n' (p + 1) x
  end.

Definition strncpy (dst src n : Z) : BM Z :=
  r ← copy_n (Z.to_nat n) dst src; fill r.2 r.1 0 ;; mret dst.

Fixpoint find_end (fuel : nat) (p : Z) : BM Z :=
  match fuel with
  | O => fault
  | S fuel' => c ← rd p; if c =? 0 then mret p else find_end fuel' (p + 1)
  end.

Definition strcat (dst src : Z) : BM Z :=
  fuel ← bytes_fuel; e ← find_end fuel dst; copy_string fuel e src ;; mret dst.

Definition strncat (dst src n : Z) : BM Z :=
  fuel ← bytes_fuel; e ← find_end fuel dst;
  r ← copy_n (Z.to_nat n) e src; wr r.1 0 ;; mret dst.

Fixpoint strchr_from (fuel : nat) (s c : Z) : BM (option Z) :=
  match fuel with
  | O => fault
  | S fuel' =>
      x ← rd s;
      if x =? 0 then mret (if c =? 0 then Some s else None)
      else if x =? wrap8 c then mret (Some s) else strchr_from fuel' (s + 1) c
  end.

Definition strchr (s c : Z) : BM (option Z) := fuel ← bytes_fuel; strchr_from fuel s c.

Fixpoint strrchr_from (fuel : nat) (s c : Z) (last : option Z) : BM (option Z) :=
  match fuel with
  | O => fault
  | S fuel' =>
      x ← rd s;
      if x =? 0 then mret (if c =? 0 then Some s else last)
      else strrchr_from fuel' (s + 1) c (if x =? wrap8 c then Some s else last)
  end.

Definition strrchr (s c : Z) : BM (option Z) := fuel ← bytes_fuel; strrchr_from fuel s c None.

(** ** Memory blocks *)

Fixpoint copy_up (n : nat) (d s : Z) : BM unit :=
  match n with
  | O => mret tt
  | S n' => c ← rd s; wr d c ;; copy_up n' (d + 1) (s + 1)
  end.

(** From one past the end down: [*--d = *--s]. *)
Fixpoint copy_down (n : nat) (d s : Z) : BM unit :=
  match n with
  | O => mret tt
  | S n' => c ← rd (s - 1); wr (d - 1) c ;; copy_down n' (d - 1) (s - 1)
  end.

Definition memcpy (dst src n : Z) : BM Z := copy_up (Z.to_nat n) dst src ;; mret dst.

Definition memmove (dst src n : Z) : BM Z :=
  (if dst <? src then copy_up (Z.to_nat n) dst src
   else if src <? dst then copy_down (Z.to_nat n) (dst + n) (src + n)
   else mret tt) ;;
  mret dst.

Definition memset (s c n : Z) : BM Z := fill (Z.to_nat n) s (wrap8 c) ;; mret s.

Fixpoint memcmp_from (n : nat) (p1 p2 : Z) : BM Z :=
  match n with
  | O => mret 0
  | S n' =>
      c1 ← rd p1; c2 ← rd p2;
      if negb (c1 =? c2) then mret (c1 - c2) else memcmp_from n' (p1 + 1) (p2 + 1)
  end.

Definition memcmp (s1 s2 n : Z) : BM Z := memcmp_from (Z.to_nat n) s1 s2.

(** ** vsnprintf *)

(** An argument of a variadic call: an integer, or a string pointer. *)
Inductive varg := VInt (z : Z) | VPtr (p : option Z).

(** [do { *p++ = digits[val % base]; val /= base; } while (val)]: digits of a
    64-bit value, lowest first. *)
Definition digit (upper : bool) (d : Z) : Z :=
  if d <? 10 then chr "0" + d else (if upper then chr "A" else chr "a") + (d - 10).

Fixpoint put_digits (fuel : nat) (base : Z) (upper : bool) (val : Z) (buf : list Z) : list Z :=
  match fuel with
  | O => buf
  | S fuel' =>
      let buf' := buf ++ [digit upper (val mod base)] in
      let val' := val / base in
      if val' =? 0 then buf' else put_digits fuel' base upper val' buf'
  end.

(** [while (start < r)]: exchange the outer digits and move inwards. *)
Fixpoint reverse_digits (fuel : nat) (buf : list Z) (i j : Z) : list Z :=
  match fuel with
  | O => buf
  | S fuel' =>
      if i <? j then
        match aget buf i, aget buf j with
        | Some x, Some y => reverse_digits fuel' (aset (aset buf i y) j x) (i + 1) (j - 1)
        | _, _ => buf
        end
      else buf
  end.

(** The text of a number in [buf], with a sign before the digits.  A 64-bit
    value has at most 20 digits. *)
Definition number (base : Z) (upper neg : bool) (val : Z) : list Z :=
  let pre := if neg then [chr "-"] else [] in
  let buf := put_digits 20 base upper val pre in
  reverse_digits 20 buf (alen pre) (alen buf - 1).

(** The flag characters 0 and -. *)
Fixpoint parse_flags (fuel : nat) (format : Z) (zero_pad left_justify : bool) :
    BM (Z * bool * bool) :=
  match fuel with
  | O => fault
  | S fuel' =>
      c ← rd format;
      if c =? chr "0" then parse_flags fuel' (format + 1) true left_justify
      else if c =? chr "-" then parse_flags fuel' (format + 1) zero_pad true
      else mret (format, zero_pad, left_justify)
  end.

(** A width that does not fit an int is undefined. *)
Fixpoint parse_width (fuel : nat) (format width : Z) : BM (Z * Z) :=
  match fuel with
  | O => fault
  | S fuel' =>
      c ← rd format;
      if (chr "0" <=? c) && (c <=? chr "9") then
        let w := width * 10 + (c - chr "0") in
        if w <? 2 ^ 31 then parse_width fuel' (format + 1) w else fault
      else mret (format, width)
  end.

Definition parse_length (format : Z) : BM (Z * bool) :=
  c ← rd format;
  if c =? chr "l" then
    c2 ← rd (format + 1);
    if c2 =? chr "l" then mret (format + 2, true) else mret (format + 1, false)
  else mret (format, false).

(** [while ( *s && out < end )] *)
Fixpoint put_string (fuel : nat) (s out end_ written : Z) : BM (Z * Z) :=
  match fuel with
  | O => fault
  | S fuel' =>
      c ← rd s;
      if (c =? 0) || negb (out <? end_) then mret (out, written)
      else wr out c ;; put_string fuel' (s + 1) (out + 1) end_ (written + 1)
  end.

(** The characters of a list while there is room: the buffer of a number, or
    the constant "(null)". *)
Fixpoint put_list (l : list Z) (out end_ written : Z) : BM (Z * Z) :=
  match l with
  | [] => mret (out, written)
  | c :: l' =>
      if out <? end_ then wr out c ;; put_list l' (out + 1) end_ (written + 1)
      else mret (out, written)
  end.

Definition put_padding (n : Z) (c out end_ written : Z) : BM (Z * Z) :=
  put_list (replicate (Z.to_nat n) c) out end_ written.

(** A number with its padding. *)
Definition put_number (buf : list Z) (width : Z) (zero_pad left_justify : bool)
    (out end_ written : Z) : BM (Z * Z) :=
  let padding := width - alen buf in
  r1 ← (if negb left_justify && (0 <? padding)
        then put_padding padding (if zero_pad then chr "0" else chr " ") out end_ written
        else mret (out, written));
  r2 ← put_list buf r1.1 end_ r1.2;
  if left_justify && (0 <? padding)
  then put_padding padding (chr " ") r2.1 end_ r2.2
  else mret r2.

(** One conversion: where the output and the argument list are after it. *)
Definition convert (fuel : nat) (conv : Z) (long_long zero_pad left_justify : bool)
    (width out end_ written : Z) (ap : list varg) : BM (Z * Z * list varg) :=
  if conv =? chr "s" then
    match ap with
    | VPtr (Some s) :: ap' => r ← put_string fuel s out end_ written; mret (r, ap')
    | VPtr None :: ap' => r ← put_list (chars "(null)") out end_ written; mret (r, ap')
    | _ => fault
    end
  else if conv =? chr "c" then
    match ap with
    | VInt c :: ap' => wr out (wrap8 c) ;; mret (out + 1, written + 1, ap')
    | _ => fault
    end
  else if (conv =? chr "d") || (conv =? chr "i") then
    match ap with
    | VInt z :: ap' =>
        let val := if long_long then int64 z else int32 z in
        if val =? - 2 ^ 63 then fault else
        r ← put_number (number 10 false (val <? 0) (Z.abs val)) width zero_pad left_justify out end_ written;
        mret (r, ap')
    | _ => fault
    end
  else if conv =? chr "u" then
    match ap with
    | VInt z :: ap' =>
        let val := if long_long then wrap64 z else wrap32 z in
        r ← put_number (number 10 false false val) width zero_pad left_justify out end_ written;
        mret (r, ap')
    | _ => fault
    end
  else if (conv =? chr "x") || (conv =? chr "X") then
    match ap with
    | VInt z :: ap' =>
        let val := if long_long then wrap64 z else wrap32 z in
        r ← put_number (number 16 (conv =? chr "X") false val) width zero_pad left_justify out end_ written;
        mret (r, ap')
    | _ => fault
    end
  else
    wr out (chr "%") ;;
    (if out + 1 <? end_ then wr (out + 1) conv ;; mret (out + 2, written + 2, ap)
     else mret (out + 1, written + 2, ap)).

(** [while ( *format && out < end )] *)
Fixpoint format_loop (fuel walk : nat) (format out end_ written : Z) (ap : list varg) : BM (Z * Z) :=
  match fuel with
  | O => fault
  | S fuel' =>
      c ← rd format;
      if (c =? 0) || negb (out <? end_) then mret (out, written)
      else if negb (c =? chr "%") then
        wr out c ;; format_loop fuel' walk (format + 1) (out + 1) end_ (written + 1) ap
      else
        c2 ← rd (format + 1);
        if c2 =? chr "%" then
          wr out (chr "%") ;; format_loop fuel' walk (format + 2) (out + 1) end_ (written + 1) ap
        else
          f ← parse_flags walk (format + 1) false false;
          let '(f1, zero_pad, left_justify) := f in
          w ← parse_width walk f1 0;
          let '(f2, width) := w in
          l ← parse_length f2;
          let '(f3, long_long) := l in
          conv ← rd f3;
          r ← convert walk conv long_long zero_pad left_justify width out end_ written ap;
          let '(out', written', ap') := r in
          format_loop fuel' walk (f3 + 1) out' end_ written' ap'
  end.

Definition vsnprintf (str size_ format : Z) (ap : list varg) : BM Z :=
  if size_ =? 0 then mret 0
  else
    fuel ← bytes_fuel;
    r ← format_loop fuel fuel format str (str + size_ - 1) 0 ap;
    wr r.1 0 ;; mret r.2.

Definition snprintf (str size_ format : Z) (ap : list varg) : BM Z := vsnprintf str size_ format ap.
