(* ===== verification/CStringThm.v ===== *)
(** * Strings and memory blocks: what lib/string.c computes

    Bytes in memory as lists, the copying and comparing functions in terms of
    them, and vsnprintf as a rendering of its format cut off at the size of
    the buffer. *)

From Stdlib Require Import Ascii.
From stdpp Require Import strings.
From S2P Require Import Prelude CString.

(** ** Bytes in memory *)

Implicit Types (m : bytes) (l k : list Z).

(** The bytes [l] lie at [p]. *)
Fixpoint block m (p : Z) l : Prop :=
  match l with
  | [] => True
  | c :: l' => m !! p = Some c ∧ block m (p + 1) l'
  end.

Fixpoint store m (p : Z) l : bytes :=
  match l with
  | [] => m
  | c :: l' => store (<[p := c]> m) (p + 1) l'
  end.

Definition mapped m (p n : Z) : Prop := ∀ y, p ≤ y < p + n → is_Some (m !! y).

(** The C string [l] lies at [p]. *)
Record cstr m (p : Z) l : Prop := CStr {
  cs_block : block m p (l ++ [0]);
  cs_chars : Forall (λ c, 0 < c < 256) l }.

Lemma aget_cons {A} (x : A) (xs : list A) i : aget (x :: xs) i = if decide (i = 0) then Some x else aget xs (i - 1).
Proof.
  unfold aget. destruct (decide (i = 0)) as [->|Hi]; [done|].
  destruct (decide (0 ≤ i)), (decide (0 ≤ i - 1)); try lia; [|done].
  replace (Z.to_nat i) with (S (Z.to_nat (i - 1))) by lia. done.
Qed.

Lemma lookup_store m p l y :
  store m p l !! y = match aget l (y - p) with Some c => Some c | None => m !! y end.
Proof.
  revert m p. induction l as [|c l IH]; intros m p; cbn [store].
  { unfold aget. by destruct (decide _). }
  rewrite IH, aget_cons. destruct (decide (y - p = 0)) as [Hy|Hy].
  - rewrite aget_out by lia. replace y with p by lia. by rewrite lookup_insert_eq.
  - replace (y - (p + 1)) with (y - p - 1) by lia. destruct (aget l (y - p - 1)); [done|].
    rewrite lookup_insert_ne; [done|lia].
Qed.

Lemma lookup_store_out m p l y : y < p ∨ p + alen l ≤ y → store m p l !! y = m !! y.
Proof. intros Hy. rewrite lookup_store, aget_out by lia. done. Qed.

Lemma block_lookup m p l i : block m p l → 0 ≤ i < alen l → m !! (p + i) = aget l i.
Proof.
  revert p i. induction l as [|c l IH]; intros p i Hb Hi; [unfold alen in Hi; simpl in Hi; lia|].
  destruct Hb as [Hc Hb]. rewrite alen_cons in Hi. rewrite aget_cons.
  destruct (decide (i = 0)) as [->|Hne]; [by rewrite Z.add_0_r|].
  rewrite <-IH with (p := p + 1) by (done || lia). f_equal. lia.
Qed.

Lemma block_intro m p l : (∀ i, 0 ≤ i < alen l → m !! (p + i) = aget l i) → block m p l.
Proof.
  revert p. induction l as [|c l IH]; intros p Hl; [done|]. rewrite alen_cons in Hl. split.
  - specialize (Hl 0 ltac:(pose proof (alen_nonneg l); lia)). by rewrite Z.add_0_r in Hl.
  - apply IH. intros i Hi. specialize (Hl (i + 1) ltac:(lia)). rewrite aget_cons, decide_False in Hl by lia.
    replace (i + 1 - 1) with i in Hl by lia. rewrite <-Hl. f_equal. lia.
Qed.

Lemma block_app m p l k : block m p (l ++ k) ↔ block m p l ∧ block m (p + alen l) k.
Proof.
  revert p. induction l as [|c l IH]; intros p; cbn [app block].
  { change (alen (@nil Z)) with 0. rewrite Z.add_0_r. tauto. }
  rewrite IH, alen_cons. replace (p + 1 + alen l) with (p + (alen l + 1)) by lia. tauto.
Qed.

Lemma block_store m p l : block (store m p l) p l.
Proof.
  apply block_intro. intros i Hi. rewrite lookup_store. replace (p + i - p) with i by lia.
  by destruct (aget_is_Some l i Hi) as [c ->].
Qed.

Lemma block_ext m m' p l : (∀ y, p ≤ y < p + alen l → m' !! y = m !! y) → block m p l → block m' p l.
Proof. intros Hy Hb. apply block_intro. intros i Hi. rewrite Hy by lia. by apply block_lookup. Qed.

Lemma store_app m p l k : store m p (l ++ k) = store (store m p l) (p + alen l) k.
Proof.
  revert m p. induction l as [|c l IH]; intros m p; cbn [app store].
  { change (alen (@nil Z)) with 0. by rewrite Z.add_0_r. }
  rewrite IH, alen_cons. f_equal. lia.
Qed.

Lemma mapped_store m p n q l : mapped m p n → mapped (store m q l) p n.
Proof. intros Hm y Hy. rewrite lookup_store. destruct (aget l _); [by eexists|by apply Hm]. Qed.

Lemma dom_store m p l : mapped m p (alen l) → dom (store m p l) = dom m.
Proof.
  intros Hm. apply set_eq. intros y. rewrite !elem_of_dom, lookup_store.
  destruct (aget l (y - p)) as [c|] eqn:Hc; [|done]. apply aget_Some_bounds in Hc.
  split; [intros _; apply Hm; lia|by eexists].
Qed.

Lemma size_store m p l : mapped m p (alen l) → size (store m p l) = size m.
Proof. intros Hm. by rewrite <-!size_dom, dom_store. Qed.

(** A string is no longer than the memory. *)
Lemma block_size m p l : block m p l → (length l ≤ size m)%nat.
Proof.
  intros Hb. assert ((list_to_set ((λ i, p + Z.of_nat i) <$> seq 0 (length l)) : gset Z) ⊆ dom m) as Hsub.
  { intros y. rewrite elem_of_list_to_set. intros (i & -> & Hi)%list_elem_of_fmap_1. apply elem_of_seq in Hi.
    apply elem_of_dom. rewrite (block_lookup _ _ _ _ Hb) by (unfold alen; lia). apply aget_is_Some. unfold alen. lia. }
  apply subseteq_size in Hsub. rewrite size_dom, size_list_to_set, length_fmap, length_seq in Hsub; [done|].
  apply NoDup_fmap_2_strong; [lia|apply NoDup_seq].
Qed.

(** ** Single accesses *)

Lemma rd_wp m p c (Q : Z → bytes → Prop) : m !! p = Some c → Q c m → wp (rd p) Q m.
Proof. intros Hp HQ. unfold rd. wp_step. wp_step. by eapply wp_lift. Qed.

Lemma wr_wp m p x (Q : unit → bytes → Prop) : is_Some (m !! p) → Q tt (<[p := x]> m) → wp (wr p x) Q m.
Proof. intros [c Hp] HQ. unfold wr. wp_step. wp_step. wp_step. eapply wp_lift; [done|]. by wp_step. Qed.

(** ** Blocks *)

Lemma copy_up_wp n m d s l (Q : unit → bytes → Prop) :
  length l = n → block m s l → mapped m d (alen l) → d ≤ s ∨ s + alen l ≤ d →
  Q tt (store m d l) → wp (copy_up n d s) Q m.
Proof.
  revert m d s n. induction l as [|c l IH]; intros m d s n <- Hb Hm Hd HQ; [by apply wp_ret|].
  cbn [length copy_up block] in *. rewrite alen_cons in Hm, Hd. destruct Hb as [Hc Hb].
  wp_step. eapply rd_wp; [done|]. wp_step. apply wr_wp; [apply Hm; pose proof (alen_nonneg l); lia|].
  apply (IH (<[d := c]> m) (d + 1) (s + 1)); [done|..].
  - eapply block_ext; [|exact Hb]. intros y Hy. rewrite lookup_insert_ne; [done|lia].
  - intros y Hy. destruct (decide (y = d)) as [->|]; [rewrite lookup_insert_eq; by eexists|].
    rewrite lookup_insert_ne by done. apply Hm. lia.
  - lia.
  - exact HQ.
Qed.

Lemma store_snoc m p l c : store m p (l ++ [c]) = <[p + alen l := c]> (store m p l).
Proof. by rewrite store_app. Qed.

Lemma store_insert_last m p l c : store (<[p + alen l := c]> m) p l = store m p (l ++ [c]).
Proof.
  apply map_eq. intros y. rewrite store_snoc, !lookup_store.
  destruct (decide (y = p + alen l)) as [->|Hne].
  - rewrite aget_out by lia. by rewrite !lookup_insert_eq.
  - by rewrite lookup_insert_ne, lookup_insert_ne, lookup_store by done.
Qed.

Lemma copy_down_wp n m d s l (Q : unit → bytes → Prop) :
  length l = n → block m s l → mapped m d (alen l) → s ≤ d ∨ d + alen l ≤ s →
  Q tt (store m d l) → wp (copy_down n (d + Z.of_nat n) (s + Z.of_nat n)) Q m.
Proof.
  revert m n. induction l as [|c l IH] using rev_ind; intros m n <- Hb Hm Hd HQ; [by apply wp_ret|].
  rewrite length_app. cbn [length]. replace (length l + 1)%nat with (S (length l)) by lia. cbn [copy_down].
  apply block_app in Hb as [Hb [Hc _]]. rewrite alen_app in Hm, Hd. change (alen [c]) with 1 in Hm, Hd.
  replace (s + Z.of_nat (S (length l)) - 1) with (s + alen l) by (unfold alen; lia).
  replace (d + Z.of_nat (S (length l)) - 1) with (d + alen l) by (unfold alen; lia).
  wp_step. eapply rd_wp; [done|]. wp_step. apply wr_wp; [apply Hm; pose proof (alen_nonneg l); lia|].
  apply (IH (<[d + alen l := c]> m) (length l)); [done|..].
  - eapply block_ext; [|exact Hb]. intros y Hy. rewrite lookup_insert_ne; [done|lia].
  - intros y Hy. destruct (decide (y = d + alen l)) as [->|]; [rewrite lookup_insert_eq; by eexists|].
    rewrite lookup_insert_ne by done. apply Hm. lia.
  - lia.
  - by rewrite store_insert_last.
Qed.

Lemma fill_wp n m p x (Q : unit → bytes → Prop) :
  mapped m p (Z.of_nat n) → Q tt (store m p (replicate n x)) → wp (fill n p x) Q m.
Proof.
  revert m p. induction n as [|n IH]; intros m p Hm HQ; [by apply wp_ret|]. cbn [fill].
  wp_step. apply wr_wp; [apply Hm; lia|]. apply IH; [|exact HQ].
  intros y Hy. destruct (decide (y = p)) as [->|]; [rewrite lookup_insert_eq; by eexists|].
  rewrite lookup_insert_ne by done. apply Hm. lia.
Qed.

Lemma store_same m p l : block m p l → store m p l = m.
Proof.
  intros Hb. apply map_eq. intros y. rewrite lookup_store. destruct (aget l (y - p)) as [c|] eqn:Hc; [|done].
  pose proof (aget_Some_bounds _ _ _ Hc). rewrite <-Hc, <-(block_lookup m p l (y - p)) by (done || lia). f_equal. lia.
Qed.

(** ** Strings *)

Lemma cstr_nil m p : cstr m p [] → m !! p = Some 0.
Proof. by intros [[Hp _] _]. Qed.

Lemma cstr_cons m p c l : cstr m p (c :: l) → m !! p = Some c ∧ 0 < c < 256 ∧ cstr m (p + 1) l.
Proof. intros [[Hp Hb] Hc]. apply Forall_cons in Hc as [? ?]. done. Qed.

Lemma cstr_ext m m' p l : (∀ y, p ≤ y ≤ p + alen l → m' !! y = m !! y) → cstr m p l → cstr m' p l.
Proof.
  intros Hy [Hb Hc]. split; [|done]. eapply block_ext; [|exact Hb]. intros y. rewrite alen_app.
  change (alen [0]) with 1. intros ?. apply Hy. lia.
Qed.

Lemma cstr_size m p l : cstr m p l → (length l < size m)%nat.
Proof. intros [Hb _]. apply block_size in Hb. rewrite length_app in Hb. simpl in Hb. lia. Qed.

(** The head of a string, read and tested. *)
Lemma cstr_head m p l : cstr m p l →
  ∃ c, m !! p = Some c ∧ (c = 0 ∧ l = [] ∨ ∃ l', l = c :: l' ∧ 0 < c < 256 ∧ cstr m (p + 1) l').
Proof.
  destruct l as [|c l].
  - intros Hp%cstr_nil. exists 0. split; [done|]. by left.
  - intros (? & ? & ?)%cstr_cons. exists c. split; [done|]. right. by exists l.
Qed.

Lemma strlen_from_wp fuel m s n l (Q : Z → bytes → Prop) :
  cstr m (s + n) l → (length l < fuel)%nat → Q (n + alen l) m → wp (strlen_from fuel s n) Q m.
Proof.
  revert n l. induction fuel as [|fuel IH]; intros n l Hs Hf HQ; [lia|]. cbn [strlen_from].
  destruct (cstr_head _ _ _ Hs) as (c & Hc & [[-> ->]|(l' & -> & Hr & Hs')]); (wp_step; eapply rd_wp; [done|]).
  - apply wp_ret. by rewrite Z.add_0_r in HQ.
  - rewrite (proj2 (Z.eqb_neq c 0)) by lia. rewrite alen_cons in HQ.
    apply (IH _ l'); [by rewrite Z.add_assoc|simpl in Hf; lia|]. by replace (n + 1 + alen l') with (n + (alen l' + 1)) by lia.
Qed.

Lemma strlen_wp m s l (Q : Z → bytes → Prop) : cstr m s l → Q (alen l) m → wp (strlen s) Q m.
Proof.
  intros Hs HQ. unfold strlen, bytes_fuel. wp_step. wp_step. pose proof (cstr_size _ _ _ Hs).
  apply (strlen_from_wp _ m s 0 l); [by rewrite Z.add_0_r|lia|done].
Qed.

(** Comparison of strings as lists: the difference of the first characters that
    differ, the end of a string counting as 0. *)
Fixpoint compare l k : Z :=
  match l, k with
  | [], [] => 0
  | [], d :: _ => - d
  | c :: _, [] => c
  | c :: l', d :: k' => if c =? d then compare l' k' else c - d
  end.

Lemma compare_eq l k : Forall (λ c, 0 < c < 256) l → Forall (λ c, 0 < c < 256) k → compare l k = 0 ↔ l = k.
Proof.
  revert k. induction l as [|c l IH]; intros [|d k] Hl Hk; cbn [compare]; [done|..].
  - apply Forall_cons in Hk as [? _]. split; [lia|done].
  - apply Forall_cons in Hl as [? _]. split; [lia|done].
  - apply Forall_cons in Hl as [? Hl], Hk as [? Hk]. destruct (Z.eqb_spec c d) as [->|Hne].
    + rewrite IH by done. split; [by intros ->|by intros [= ->]].
    + split; [lia|]. by intros [= ->].
Qed.

Lemma strcmp_wp m s1 s2 l k (Q : Z → bytes → Prop) :
  cstr m s1 l → cstr m s2 k → Q (compare l k) m → wp (strcmp s1 s2) Q m.
Proof.
  intros H1 H2 HQ. unfold strcmp, bytes_fuel. wp_step. wp_step.
  assert (length l < S (size m))%nat as Hf by (pose proof (cstr_size _ _ _ H1); lia).
  revert s1 s2 l k H1 H2 HQ Hf. generalize (S (size m)) as fuel.
  induction fuel as [|fuel IH]; intros s1 s2 l k H1 H2 HQ Hf; [lia|]. cbn [strcmp_from].
  destruct (cstr_head _ _ _ H1) as (c & Hc & Hl), (cstr_head _ _ _ H2) as (d & Hd & Hk).
  wp_step. eapply rd_wp; [done|]. wp_step. eapply rd_wp; [done|].
  destruct Hl as [[-> ->]|(l' & -> & Hr & H1')], Hk as [[-> ->]|(k' & -> & Hr' & H2')]; cbn [compare] in HQ.
  - by apply wp_ret.
  - by apply wp_ret.
  - rewrite (proj2 (Z.eqb_neq c 0)) by lia. apply wp_ret. by rewrite Z.sub_0_r.
  - rewrite (proj2 (Z.eqb_neq c 0)) by lia. cbn [negb andb]. destruct (Z.eqb_spec c d) as [->|Hne].
    + apply (IH _ _ l' k'); [done|done|done|simpl in Hf; lia].
    + by apply wp_ret.
Qed.

(** strncmp compares the first [n] characters. *)
Lemma strncmp_from_wp n m s1 s2 l k (Q : Z → bytes → Prop) :
  cstr m s1 l → cstr m s2 k → Q (compare (take n l) (take n k)) m → wp (strncmp_from n s1 s2) Q m.
Proof.
  revert s1 s2 l k. induction n as [|n IH]; intros s1 s2 l k H1 H2 HQ; [by apply wp_ret|]. cbn [strncmp_from].
  destruct (cstr_head _ _ _ H1) as (c & Hc & Hl), (cstr_head _ _ _ H2) as (d & Hd & Hk).
  wp_step. eapply rd_wp; [done|].
  destruct Hl as [[-> ->]|(l' & -> & Hr & H1')], Hk as [[-> ->]|(k' & -> & Hr' & H2')]; cbn [take compare] in HQ.
  - cbn [Z.eqb]. wp_step. eapply rd_wp; [done|]. by apply wp_ret.
  - cbn [Z.eqb]. wp_step. eapply rd_wp; [done|]. by apply wp_ret.
  - rewrite (proj2 (Z.eqb_neq c 0)) by lia. wp_step. eapply rd_wp; [done|].
    rewrite (proj2 (Z.eqb_neq c 0)) by lia. apply wp_ret. by rewrite Z.sub_0_r.
  - rewrite (proj2 (Z.eqb_neq c 0)) by lia. wp_step. eapply rd_wp; [done|].
    destruct (Z.eqb_spec c d) as [->|Hne]; [by apply (IH _ _ l' k')|by apply wp_ret].
Qed.

(** ** Copies of strings *)

Lemma copy_string_wp fuel m d s l (Q : unit → bytes → Prop) :
  cstr m s l → (length l < fuel)%nat → mapped m d (alen l + 1) → d ≤ s ∨ s + alen l < d →
  Q tt (store m d (l ++ [0])) → wp (copy_string fuel d s) Q m.
Proof.
  revert m d s l. induction fuel as [|fuel IH]; intros m d s l Hs Hf Hm Hd HQ; [lia|]. cbn [copy_string].
  pose proof (alen_nonneg l). destruct (cstr_head _ _ _ Hs) as (c & Hc & Hl).
  wp_step. eapply rd_wp; [done|]. wp_step. apply wr_wp; [apply Hm; lia|].
  destruct Hl as [[-> ->]|(l' & -> & Hr & Hs')]; [by apply wp_ret|].
  rewrite (proj2 (Z.eqb_neq c 0)) by lia. rewrite alen_cons in Hm, Hd.
  apply (IH (<[d := c]> m) (d + 1) (s + 1) l'); [|simpl in Hf; lia| |lia|exact HQ].
  - eapply cstr_ext; [|exact Hs']. intros y Hy. rewrite lookup_insert_ne; [done|lia].
  - intros y Hy. destruct (decide (y = d)) as [->|]; [rewrite lookup_insert_eq; by eexists|].
    rewrite lookup_insert_ne by done. apply Hm. lia.
Qed.

Lemma strcpy_wp m d s l (Q : Z → bytes → Prop) :
  cstr m s l → mapped m d (alen l + 1) → d ≤ s ∨ s + alen l < d →
  Q d (store m d (l ++ [0])) → wp (strcpy d s) Q m.
Proof.
  intros Hs Hm Hd HQ. unfold strcpy, bytes_fuel. wp_step. wp_step. wp_step. pose proof (cstr_size _ _ _ Hs).
  apply (copy_string_wp _ m d s l); [done|lia|done|done|]. by apply wp_ret.
Qed.

(** strncpy cuts the string off at [n] characters, or pads it with zeros. *)
Lemma copy_n_wp n m d s l (Q : Z * nat → bytes → Prop) :
  cstr m s l → mapped m d (Z.of_nat n) → d ≤ s ∨ s + alen l < d →
  (let w := take n l in Q (d + alen w, (n - length w)%nat) (store m d w)) → wp (copy_n n d s) Q m.
Proof.
  revert m d s l. induction n as [|n IH]; intros m d s l Hs Hm Hd HQ; cbv zeta in HQ.
  { rewrite take_0 in HQ. change (alen (@nil Z)) with 0 in HQ. rewrite Z.add_0_r in HQ. by apply wp_ret. }
  cbn [copy_n]. destruct (cstr_head _ _ _ Hs) as (c & Hc & Hl). wp_step. eapply rd_wp; [done|].
  destruct Hl as [[-> ->]|(l' & -> & Hr & Hs')].
  { rewrite take_nil in HQ. change (alen (@nil Z)) with 0 in HQ. rewrite Z.add_0_r in HQ. by apply wp_ret. }
  rewrite (proj2 (Z.eqb_neq c 0)) by lia. rewrite alen_cons in Hd. pose proof (alen_nonneg l').
  wp_step. apply wr_wp; [apply Hm; lia|]. apply (IH _ _ _ l'); [| |lia|].
  - eapply cstr_ext; [|exact Hs']. intros y Hy. rewrite lookup_insert_ne; [done|lia].
  - intros y Hy. destruct (decide (y = d)) as [->|]; [rewrite lookup_insert_eq; by eexists|].
    rewrite lookup_insert_ne by done. apply Hm. lia.
  - cbn [take store length] in HQ. rewrite alen_cons in HQ. cbv zeta.
    replace (d + 1 + alen (take n l')) with (d + (alen (take n l') + 1)) by lia. exact HQ.
Qed.

Lemma strncpy_wp n m d s l (Q : Z → bytes → Prop) :
  0 ≤ n → cstr m s l → mapped m d n → d ≤ s ∨ s + alen l < d →
  Q d (store m d (take (Z.to_nat n) l ++ replicate (Z.to_nat n - length l) 0)) → wp (strncpy d s n) Q m.
Proof.
  intros Hn Hs Hm Hd HQ. unfold strncpy. wp_step.
  apply (copy_n_wp _ m d s l); [done|by rewrite Z2Nat.id by lia|done|]. cbv zeta. cbn [fst snd]. wp_step.
  rewrite length_take. replace (Z.to_nat n - Z.to_nat n `min` length l)%nat with (Z.to_nat n - length l)%nat by lia.
  apply fill_wp.
  - apply mapped_store. intros y Hy. apply Hm. unfold alen in Hy. rewrite length_take in Hy. lia.
  - apply wp_ret. by rewrite store_app in HQ.
Qed.

(** ** Numbers *)

(** The value of a list of digit characters, highest first. *)
Definition digit_value (c : Z) : Z :=
  if c <? chr "A" then c - chr "0" else if c <? chr "a" then c - chr "A" + 10 else c - chr "a" + 10.

Definition value (base : Z) l : Z := foldl (λ v c, v * base + digit_value c) 0 l.

Lemma digit_value_digit upper d : 0 ≤ d < 16 → digit_value (digit upper d) = d.
Proof.
  intros Hd. unfold digit_value, digit. change (chr "0") with 48. change (chr "A") with 65. change (chr "a") with 97.
  destruct (Z.ltb_spec d 10); [|destruct upper];
    repeat match goal with |- context [?a <? ?b] => destruct (Z.ltb_spec a b) end; lia.
Qed.

(** Digits lowest first: the reference for the loop. *)
Fixpoint low_digits (fuel : nat) (base : Z) (upper : bool) (val : Z) : list Z :=
  match fuel with
  | O => []
  | S fuel' => digit upper (val mod base) ::
      (if val / base =? 0 then [] else low_digits fuel' base upper (val / base))
  end.

Lemma put_digits_eq fuel base upper val buf :
  put_digits fuel base upper val buf = buf ++ low_digits fuel base upper val.
Proof.
  revert val buf. induction fuel as [|fuel IH]; intros val buf; cbn [put_digits low_digits]; [by rewrite app_nil_r|].
  destruct (val / base =? 0); [done|]. by rewrite IH, <-app_assoc.
Qed.

Lemma low_digits_value fuel base upper val :
  2 ≤ base ≤ 16 → 0 ≤ val < base ^ Z.of_nat fuel →
  value base (rev (low_digits fuel base upper val)) = val.
Proof.
  intros Hb. revert val. induction fuel as [|fuel IH]; intros val Hv; [change (0 = val); rewrite Z.pow_0_r in Hv; lia|].
  rewrite Nat2Z.inj_succ, Z.pow_succ_r in Hv by lia. cbn [low_digits rev].
  assert (0 ≤ val mod base < base) as Hm by (apply Z.mod_pos_bound; lia).
  pose proof (Z.div_mod val base ltac:(lia)) as Hdm.
  destruct (Z.eqb_spec (val / base) 0) as [Hz|Hz].
  - cbn. rewrite digit_value_digit by lia. lia.
  - unfold value in *. rewrite foldl_app. cbn [foldl]. rewrite digit_value_digit by lia. rewrite IH; [lia|].
    split; [apply Z.div_pos; lia|]. apply Z.div_lt_upper_bound; lia.
Qed.

(** Exchanging the outer elements of a list reverses it. *)
Lemma reverse_digits_eq fuel (pre ds post : list Z) :
  (length ds ≤ 2 * fuel)%nat →
  reverse_digits fuel (pre ++ ds ++ post) (alen pre) (alen pre + alen ds - 1) = pre ++ rev ds ++ post.
Proof.
  revert pre ds post. induction fuel as [|fuel IH]; intros pre ds post Hf.
  { destruct ds; [done|simpl in Hf; lia]. }
  cbn [reverse_digits]. destruct ds as [|x ds]; [by destruct (Z.ltb_spec (alen pre) (alen pre + alen (@nil Z) - 1)) as [Hlt|];
    [change (alen (@nil Z)) with 0 in Hlt; lia|]|].
  destruct ds as [|y ds _] using rev_ind.
  { change (alen [x]) with 1. by rewrite (proj2 (Z.ltb_ge _ _)) by lia. }
  assert (alen (x :: ds ++ [y]) = alen ds + 2) as Hlen by (rewrite alen_cons, alen_app; change (alen [y]) with 1; lia).
  rewrite Hlen. rewrite (proj2 (Z.ltb_lt _ _)) by (pose proof (alen_nonneg ds); lia).
  set (L := pre ++ (x :: ds ++ [y]) ++ post).
  assert (L = (pre ++ x :: ds) ++ y :: post) as EL by (unfold L; by rewrite <-!app_assoc; cbn [app]; rewrite <-app_assoc).
  assert (∀ A (z : Z) B, aget (A ++ z :: B) (alen A) = Some z) as Hget.
  { intros A z B. unfold aget, alen. rewrite decide_True, Nat2Z.id by lia. by rewrite lookup_app_r, Nat.sub_diag by lia. }
  assert (∀ A (z w : Z) B, aset (A ++ z :: B) (alen A) w = A ++ w :: B) as Hset.
  { intros A z w B. unfold aset, alen. rewrite decide_True, Nat2Z.id by lia. by rewrite insert_app_r_alt, Nat.sub_diag by lia. }
  replace (alen pre + (alen ds + 2) - 1) with (alen (pre ++ x :: ds)) by (rewrite alen_app, alen_cons; lia).
  assert (aget L (alen pre) = Some x) as -> by (unfold L; apply Hget).
  assert (aget L (alen (pre ++ x :: ds)) = Some y) as -> by (rewrite EL; apply Hget).
  assert (aset L (alen pre) y = (pre ++ y :: ds) ++ y :: post) as ->.
  { unfold L. cbn [app]. rewrite Hset. by rewrite <-!app_assoc. }
  replace (alen (pre ++ x :: ds)) with (alen (pre ++ y :: ds)) by (by rewrite !alen_app, !alen_cons).
  rewrite Hset. replace ((pre ++ y :: ds) ++ x :: post) with ((pre ++ [y]) ++ ds ++ (x :: post))
    by (by rewrite <-!app_assoc).
  replace (alen pre + 1) with (alen (pre ++ [y])) by (rewrite alen_app; done).
  replace (alen (pre ++ y :: ds) - 1) with (alen (pre ++ [y]) + alen ds - 1)
    by (rewrite !alen_app, !alen_cons; change (alen (@nil Z)) with 0; lia).
  rewrite IH by (rewrite length_cons, length_app in Hf; simpl in Hf; lia).
  cbn [rev]. rewrite rev_app_distr. cbn [rev app]. by rewrite <-!app_assoc.
Qed.

Lemma low_digits_length fuel base upper val : (length (low_digits fuel base upper val) ≤ fuel)%nat.
Proof.
  revert val. induction fuel as [|fuel IH]; intros val; cbn [low_digits length]; [lia|].
  destruct (_ =? _); [simpl; lia|]. specialize (IH (val / base)). lia.
Qed.

(** The text of a number: a sign, and the digits highest first. *)
Lemma number_eq base upper neg val :
  number base upper neg val = (if neg then [chr "-"] else []) ++ rev (low_digits 20 base upper val).
Proof.
  unfold number. rewrite put_digits_eq. set (pre := if neg then _ else _). set (ds := low_digits _ _ _ _).
  rewrite alen_app. rewrite <-(app_nil_r (rev ds)), <-(reverse_digits_eq 20); [by rewrite app_nil_r|].
  pose proof (low_digits_length 20 base upper val). unfold ds. lia.
Qed.

Lemma number_value base upper val :
  base = 10 ∨ base = 16 → 0 ≤ val < 2 ^ 64 → value base (number base upper false val) = val.
Proof.
  intros Hb Hv. rewrite number_eq. cbn [app]. apply low_digits_value; [lia|].
  split; [lia|]. destruct Hb as [->| ->]; cbn; lia.
Qed.

(** ** The claims *)

(** memmove copies a block to a place that may overlap it.  The destination
    then holds the bytes the source held before the call, and no byte outside
    of the destination changes. *)
Theorem memmove_correct m (d s : Z) l :
  block m s l → mapped m d (alen l) →
  ∃ m', memmove d s (alen l) m = Some (d, m') ∧ block m' d l ∧
    ∀ y, y < d ∨ d + alen l ≤ y → m' !! y = m !! y.
Proof.
  intros Hb Hm. exists (store m d l).
  assert (wp (memmove d s (alen l)) (λ r m', r = d ∧ m' = store m d l) m) as Hw.
  { unfold memmove. wp_step. replace (Z.to_nat (alen l)) with (length l) by (unfold alen; lia).
    destruct (Z.ltb_spec d s) as [Hlt|Hge].
    - apply (copy_up_wp _ m d s l); [done|done|done|lia|]. by apply wp_ret.
    - destruct (Z.ltb_spec s d) as [Hlt2|Hge2].
      + unfold alen. apply (copy_down_wp _ m d s l); [done|done|done|lia|]. by apply wp_ret.
      + apply wp_ret, wp_ret. assert (d = s) as -> by lia. by rewrite store_same. }
  destruct (wp_elim _ _ _ Hw) as (r & m' & Hrun & -> & ->).
  split_and!; [done|apply block_store|]. intros y. apply lookup_store_out.
Qed.

Lemma memmove_correct_witness :
  ∃ m', memmove 12 10 5 (store ∅ 10 [1; 2; 3; 4; 5; 6; 7]) = Some (12, m') ∧ block m' 12 [1; 2; 3; 4; 5].
Proof.
  destruct (memmove_correct (store ∅ 10 [1; 2; 3; 4; 5; 6; 7]) 12 10 [1; 2; 3; 4; 5]) as (m' & Hrun & Hb & _).
  - vm_compute. tauto.
  - intros y Hy. change (alen [1; 2; 3; 4; 5]) with 5 in Hy.
    assert (y = 12 ∨ y = 13 ∨ y = 14 ∨ y = 15 ∨ y = 16) as Hcases by lia.
    repeat destruct Hcases as [->|Hcases]; subst; vm_compute; by eexists.
  - exists m'. split; [exact Hrun|exact Hb].
Defined.

(** strcmp: 0 exactly on equal strings. *)
Lemma strcmp_zero m s1 s2 l k :
  cstr m s1 l → cstr m s2 k → ∃ r, strcmp s1 s2 m = Some (r, m) ∧ (r = 0 ↔ l = k).
Proof.
  intros H1 H2. destruct (wp_elim _ _ _ (strcmp_wp m s1 s2 l k (λ r m', r = compare l k ∧ m' = m) H1 H2 (conj eq_refl eq_refl)))
    as (r & m' & Hrun & -> & ->).
  exists (compare l k). split; [done|]. apply compare_eq; [apply H1|apply H2].
Qed.
