(* ===== verification/CFormat.v ===== *)
(** * Formatted output: vsnprintf renders its format (lib/string.c)

    [render] gives the text of a format and its arguments as a list of
    characters: numbers as the numerals that read back as them, sign and fill
    characters as C has them.  vsnprintf writes exactly this text, cut off one before the
    size of the buffer, and a terminator; it touches no other byte. *)

From Stdlib Require Import Ascii.
From stdpp Require Import strings.
From S2P Require Import Prelude CString CStringThm.

(** ** The text of a format *)

(** An argument, with the contents of a string argument. *)
Inductive farg := FInt (z : Z) | FStr (s : option (list Z)).

Fixpoint read_flags (l : list Z) (zero lj : bool) : list Z * bool * bool :=
  match l with
  | c :: l' =>
      if c =? chr "0" then read_flags l' true lj
      else if c =? chr "-" then read_flags l' zero true
      else (l, zero, lj)
  | [] => (l, zero, lj)
  end.

Fixpoint read_width (l : list Z) (w : Z) : option (list Z * Z) :=
  match l with
  | c :: l' =>
      if (chr "0" <=? c) && (c <=? chr "9") then
        let w' := w * 10 + (c - chr "0") in if w' <? 2 ^ 31 then read_width l' w' else None
      else Some (l, w)
  | [] => Some (l, w)
  end.

Definition read_length (l : list Z) : list Z * bool :=
  match l with
  | c :: l' =>
      if c =? chr "l" then
        match l' with
        | d :: l'' => if d =? chr "l" then (l'', true) else (l', false)
        | [] => (l', false)
        end
      else (l, false)
  | [] => (l, false)
  end.

(** The numeral of [n]: the numeral of [n / base] and the last digit.  A 64-bit
    number has no more than 64 digits in any base. *)
Definition glyph (upper : bool) (d : Z) : Z :=
  default 0 (chars (if upper then "0123456789ABCDEF" else "0123456789abcdef") !! Z.to_nat d).

Fixpoint numeral_from (fuel : nat) (base : Z) (upper : bool) (n : Z) : list Z :=
  match fuel with
  | O => []
  | S fuel' =>
      (if n <? base then [] else numeral_from fuel' base upper (n / base)) ++ [glyph upper (n mod base)]
  end.

Definition numeral (base : Z) (upper : bool) (n : Z) : list Z := numeral_from 64 base upper n.

(** A number in a field of width [w]: filled up with blanks on the right, or with
    zeros between the sign and the digits, or with blanks on the left. *)
Definition in_field (sign digits : list Z) (w : Z) (zero lj : bool) : list Z :=
  let n := Z.to_nat (w - alen (sign ++ digits)) in
  if lj then sign ++ digits ++ replicate n (chr " ")
  else if zero then sign ++ replicate n (chr "0") ++ digits
  else replicate n (chr " ") ++ sign ++ digits.

(** The text of one conversion, and the arguments that are left.  Only numbers
    are put into a field.  Not covered ([None]) are the least 64-bit integer,
    whose negation is undefined, and filling up a negative number with zeros,
    which this vsnprintf does not do as C says ([zeros_before_sign] below). *)
Definition conversion (conv : Z) (ll zero lj : bool) (w : Z) (args : list farg) :
    option (list Z * list farg) :=
  if conv =? chr "s" then
    match args with FStr s :: args' => Some (default (chars "(null)") s, args') | _ => None end
  else if conv =? chr "c" then
    match args with FInt c :: args' => Some ([wrap8 c], args') | _ => None end
  else if (conv =? chr "d") || (conv =? chr "i") then
    match args with
    | FInt z :: args' =>
        let val := if ll then int64 z else int32 z in
        let digits := numeral 10 false (Z.abs val) in
        if val =? - 2 ^ 63 then None
        else if 0 <=? val then Some (in_field [] digits w zero lj, args')
        else if zero && negb lj && (alen digits + 1 <? w) then None
        else Some (in_field [chr "-"] digits w zero lj, args')
    | _ => None
    end
  else if conv =? chr "u" then
    match args with
    | FInt z :: args' =>
        Some (in_field [] (numeral 10 false (if ll then wrap64 z else wrap32 z)) w zero lj, args')
    | _ => None
    end
  else if (conv =? chr "x") || (conv =? chr "X") then
    match args with
    | FInt z :: args' =>
        Some (in_field [] (numeral 16 (conv =? chr "X") (if ll then wrap64 z else wrap32 z)) w zero lj, args')
    | _ => None
    end
  else Some ([chr "%"; conv], args).

(** The text of a format; [None] where the behaviour is undefined: a format
    that ends inside a conversion, a missing argument, a width too large for an
    int, or a conversion that is not covered. *)
Fixpoint render_from (fuel : nat) (l : list Z) (args : list farg) : option (list Z) :=
  match fuel, l with
  | O, _ => None
  | S _, [] => Some []
  | S fuel', c :: l1 =>
      if negb (c =? chr "%") then cons c <$> render_from fuel' l1 args
      else match l1 with
      | [] => None
      | c2 :: l2 =>
          if c2 =? chr "%" then cons (chr "%") <$> render_from fuel' l2 args
          else
            let '(k1, zero, lj) := read_flags l1 false false in
            match read_width k1 0 with
            | None => None
            | Some (k2, w) =>
                let '(k3, ll) := read_length k2 in
                match k3 with
                | [] => None
                | conv :: k4 =>
                    match conversion conv ll zero lj w args with
                    | None => None
                    | Some (t, args') => app t <$> render_from fuel' k4 args'
                    end
                end
            end
      end
  end.

Definition render (l : list Z) (args : list farg) : option (list Z) := render_from (S (length l)) l args.

(** ** Numerals *)

(** The numeral is the one that reads back as the number, without zeros in
    front. *)
Definition digit_value (c : Z) : Z :=
  if c <=? chr "9" then c - chr "0" else if c <=? chr "F" then c - chr "A" + 10 else c - chr "a" + 10.

Definition numeral_value (base : Z) (l : list Z) : Z := foldl (λ n c, n * base + digit_value c) 0 l.

Lemma small_digits (P : Z → Prop) : Forall P (seqZ 0 16) → ∀ d, 0 ≤ d < 16 → P d.
Proof. intros HF d Hd. rewrite Forall_forall in HF. apply HF, elem_of_seqZ. lia. Qed.

Lemma digit_glyph upper d : 0 ≤ d < 16 → digit upper d = glyph upper d.
Proof. revert d. apply small_digits. destruct upper; repeat constructor. Qed.

Lemma glyph_value upper d : 0 ≤ d < 16 → digit_value (glyph upper d) = d.
Proof. revert d. apply small_digits. destruct upper; repeat constructor. Qed.

Lemma numeral_from_value fuel base upper n :
  2 ≤ base ≤ 16 → 0 ≤ n < base ^ Z.of_nat fuel → numeral_value base (numeral_from fuel base upper n) = n.
Proof.
  intros Hb. revert n. induction fuel as [|fuel IH]; intros n Hn; [cbn in *; lia|].
  rewrite Nat2Z.inj_succ, Z.pow_succ_r in Hn by lia. cbn [numeral_from].
  pose proof (Z.mod_pos_bound n base ltac:(lia)). pose proof (Z.div_mod n base ltac:(lia)).
  unfold numeral_value. rewrite foldl_app. cbn [foldl]. rewrite glyph_value by lia.
  destruct (Z.ltb_spec n base); [cbn; rewrite Z.mod_small by lia; lia|].
  fold (numeral_value base (numeral_from fuel base upper (n / base))). rewrite IH; [lia|].
  split; [apply Z.div_pos; lia|]. apply Z.div_lt_upper_bound; lia.
Qed.

(** The digits come out lowest first. *)
Lemma put_digits_numeral f1 f2 base upper n buf :
  2 ≤ base ≤ 16 → 0 ≤ n → n < base ^ (Z.of_nat f1 + 1) → n < base ^ (Z.of_nat f2 + 1) →
  put_digits (S f1) base upper n buf = buf ++ reverse (numeral_from (S f2) base upper n).
Proof.
  intros Hb. revert f2 n buf. induction f1 as [|f1 IH]; intros f2 n buf H0 H1 H2.
  all: rewrite Z.pow_add_r, Z.pow_1_r in H1, H2 by lia.
  all: pose proof (Z.mod_pos_bound n base ltac:(lia)); cbn [put_digits numeral_from].
  all: rewrite digit_glyph, reverse_app, app_assoc by lia; change (reverse [?x]) with [x].
  all: destruct (Z.ltb_spec n base) as [Hlt|Hge]; [rewrite Z.div_small by lia; cbn; by rewrite app_nil_r|].
  { cbn in H1. lia. }
  assert (0 < n / base) by (apply Z.div_str_pos; lia). rewrite (proj2 (Z.eqb_neq _ 0)) by lia.
  destruct f2 as [|f2]; [cbn in H2; lia|]. rewrite !Nat2Z.inj_succ in *.
  apply IH; [lia|apply Z.div_lt_upper_bound; rewrite <-?Z.add_1_r in *; lia..].
Qed.

Lemma aget_middle (a c : list Z) x i : i = alen a → aget (a ++ x :: c) i = Some x.
Proof. intros ->. unfold aget, alen. rewrite decide_True by lia. by apply list_lookup_middle; lia. Qed.

Lemma aset_middle (a c : list Z) x y i : i = alen a → aset (a ++ x :: c) i y = a ++ y :: c.
Proof.
  intros ->. unfold aset, alen. rewrite decide_True by lia.
  by rewrite insert_app_r_alt, Nat2Z.id, Nat.sub_diag by lia.
Qed.

(** Exchanging the outer elements and moving inwards reverses. *)
Lemma reverse_digits_spec fuel (a l c : list Z) :
  (length l ≤ 2 * fuel)%nat →
  reverse_digits fuel (a ++ l ++ c) (alen a) (alen a + alen l - 1) = a ++ reverse l ++ c.
Proof.
  revert a l c. induction fuel as [|fuel IH]; intros a l c Hl; [by destruct l; [|simpl in Hl; lia]|].
  cbn [reverse_digits]. destruct l as [|x l]; [rewrite (proj2 (Z.ltb_ge _ _)) by (change (alen (@nil Z)) with 0; lia); done|].
  destruct l as [|y m _] using rev_ind; [rewrite (proj2 (Z.ltb_ge _ _)) by (change (alen [x]) with 1; lia); done|].
  assert (alen (x :: m ++ [y]) = alen m + 2) as -> by (unfold alen; simpl; rewrite length_app; simpl; lia).
  pose proof (alen_nonneg m). rewrite (proj2 (Z.ltb_lt _ _)) by lia.
  assert (∀ u w, a ++ (u :: m ++ [w]) ++ c = (a ++ u :: m) ++ w :: c) as Hsplit
    by (intros u w; by rewrite <-!app_assoc; simpl; rewrite <-app_assoc).
  assert (aget (a ++ (x :: m ++ [y]) ++ c) (alen a) = Some x) as -> by exact (aget_middle a _ x _ eq_refl).
  rewrite (Hsplit x y), aget_middle, <-(Hsplit x y) by (rewrite alen_app, alen_cons; lia).
  assert (aset (a ++ (x :: m ++ [y]) ++ c) (alen a) y = a ++ (y :: m ++ [y]) ++ c) as ->
    by exact (aset_middle a _ x y _ eq_refl).
  rewrite Hsplit, aset_middle by (rewrite alen_app, alen_cons; lia).
  replace ((a ++ y :: m) ++ x :: c) with ((a ++ [y]) ++ m ++ x :: c) by (by rewrite <-!app_assoc).
  replace (alen a + 1) with (alen (a ++ [y])) by (rewrite alen_app; done).
  replace (alen a + (alen m + 2) - 1 - 1) with (alen (a ++ [y]) + alen m - 1)
    by (rewrite alen_app; change (alen [y]) with 1; lia).
  rewrite IH by (simpl in Hl; rewrite length_app in Hl; simpl in Hl; lia).
  rewrite reverse_cons, reverse_app, <-!app_assoc. done.
Qed.

Lemma length_numeral f base upper n : (length (numeral_from f base upper n) ≤ f)%nat.
Proof.
  revert n. induction f as [|f IH]; intros n; [done|]. cbn [numeral_from]. rewrite length_app. simpl.
  destruct (n <? base); [simpl; lia|]. specialize (IH (n / base)). lia.
Qed.

(** What the code writes into its buffer is the numeral, behind the sign. *)
Lemma number_numeral base upper neg n :
  10 ≤ base ≤ 16 → 0 ≤ n < 2 ^ 64 →
  number base upper neg n = (if neg then [chr "-"] else []) ++ numeral base upper n.
Proof.
  intros Hb Hn. unfold number, numeral. set (pre := if neg then _ else _).
  assert (∀ f, 20 ≤ f → n < base ^ f) as Hf.
  { intros f Hf. apply (Z.lt_le_trans _ (10 ^ 20)); [lia|]. etrans; [apply (Z.pow_le_mono_l _ base); lia|].
    apply Z.pow_le_mono_r; lia. }
  assert (numeral_from 20 base upper n = numeral_from 64 base upper n) as <-.
  { apply (inj reverse), (inj (app [])). rewrite <-!(put_digits_numeral 19) by first [lia|apply Hf; lia]. done. }
  rewrite (put_digits_numeral 19 19) by first [lia|apply Hf; lia].
  set (l := numeral_from 20 base upper n). pose proof (reverse_digits_spec 20 pre (reverse l) []) as Hr.
  rewrite !app_nil_r, reverse_involutive in Hr. rewrite alen_app. apply Hr. rewrite length_reverse.
  pose proof (length_numeral 20 base upper n). unfold l. lia.
Qed.

(** ** Memory around the output *)

Section format.
Context (lo hi : Z).
Implicit Types (m : bytes) (l k t : list Z).

(** A string that ends at [e], outside of the buffer from [lo] to [hi]. *)
Record str m (e p : Z) l : Prop := Str {
  st_cstr : cstr m p l;
  st_end : p + alen l = e;
  st_away : e < lo ∨ hi < p }.

Inductive arg_ok m : varg → farg → Prop :=
  | arg_int z : arg_ok m (VInt z) (FInt z)
  | arg_null : arg_ok m (VPtr None) (FStr None)
  | arg_str p e l : str m e p l → arg_ok m (VPtr (Some p)) (FStr (Some l)).

Lemma str_store m e p l out t :
  lo ≤ out → out + alen t ≤ hi → str m e p l → str (store m out t) e p l.
Proof.
  intros H1 H2 [Hc He Ha]. split; [|done|done]. eapply cstr_ext; [|exact Hc].
  intros y Hy. apply lookup_store_out. lia.
Qed.

Lemma args_store m out t ap args :
  lo ≤ out → out + alen t ≤ hi → Forall2 (arg_ok m) ap args → Forall2 (arg_ok (store m out t)) ap args.
Proof.
  intros H1 H2 HF. eapply Forall2_impl; [exact HF|]. intros a f [z| |p e l Hs]; [constructor..|].
  econstructor. by apply str_store.
Qed.

Lemma str_head m e p l : str m e p l →
  ∃ c, m !! p = Some c ∧ (c = 0 ∧ l = [] ∨ ∃ l', l = c :: l' ∧ 0 < c < 256 ∧ str m e (p + 1) l').
Proof.
  intros [Hc He Ha]. destruct (cstr_head _ _ _ Hc) as (c & Hp & [[-> ->]|(l' & -> & Hr & Hc')]).
  - exists 0. split; [done|]. by left.
  - exists c. split; [done|]. right. exists l'. split; [done|]. split; [done|]. rewrite alen_cons in He. split; [done|lia|lia].
Qed.

(** ** Output *)

Lemma room_len (k : Z) (t : list Z) : 0 ≤ k → alen (take (Z.to_nat k) t) = Z.min k (alen t).
Proof. intros Hk. unfold alen. rewrite length_take. lia. Qed.

Lemma put_list_wp t m out written (Q : Z * Z → bytes → Prop) :
  mapped m lo (hi - lo + 1) → lo ≤ out ≤ hi →
  (let w := take (Z.to_nat (hi - out)) t in Q (out + alen w, written + alen w) (store m out w)) →
  wp (put_list t out hi written) Q m.
Proof.
  revert m out written. induction t as [|c t IH]; intros m out written Hm Ho HQ; cbn [put_list]; cbv zeta in HQ.
  { rewrite take_nil in HQ. apply wp_ret. change (alen (@nil Z)) with 0 in HQ. by rewrite !Z.add_0_r in HQ. }
  destruct (Z.ltb_spec out hi) as [Hlt|Hge].
  - wp_step. apply wr_wp; [apply Hm; lia|]. apply IH; [|lia|].
    + by apply (mapped_store m lo _ out [c]).
    + replace (Z.to_nat (hi - out)) with (S (Z.to_nat (hi - (out + 1)))) in HQ by lia. cbn [take store] in HQ.
      cbv zeta in *. rewrite alen_cons in HQ.
      by replace (out + 1 + alen _) with (out + (alen (take (Z.to_nat (hi - (out + 1))) t) + 1)) by lia;
        replace (written + 1 + alen _) with (written + (alen (take (Z.to_nat (hi - (out + 1))) t) + 1)) by lia.
  - apply wp_ret. replace (Z.to_nat (hi - out)) with O in HQ by lia. cbn [take store] in HQ.
    change (alen (@nil Z)) with 0 in HQ. by rewrite !Z.add_0_r in HQ.
Qed.

Lemma put_string_wp fuel l m e s out written (Q : Z * Z → bytes → Prop) :
  str m e s l → (length l < fuel)%nat → mapped m lo (hi - lo + 1) → lo ≤ out ≤ hi →
  (let w := take (Z.to_nat (hi - out)) l in Q (out + alen w, written + alen w) (store m out w)) →
  wp (put_string fuel s out hi written) Q m.
Proof.
  revert l m s out written. induction fuel as [|fuel IH]; intros l m s out written Hs Hf Hm Ho HQ; [lia|].
  cbv zeta in HQ.
  cbn [put_string]. destruct (str_head _ _ _ _ Hs) as (c & Hc & Hl). wp_step. eapply rd_wp; [done|].
  destruct Hl as [[-> ->]|(l' & -> & Hr & Hs')].
  { rewrite take_nil in HQ. apply wp_ret. change (alen (@nil Z)) with 0 in HQ. by rewrite !Z.add_0_r in HQ. }
  rewrite (proj2 (Z.eqb_neq c 0)) by lia. cbn [orb]. destruct (Z.ltb_spec out hi) as [Hlt|Hge]; cbn [negb].
  - wp_step. apply wr_wp; [apply Hm; lia|]. eapply (IH l'); [|simpl in Hf; lia| |lia|].
    + apply (str_store m e (s + 1) l' out [c]); [lia|change (alen [c]) with 1; lia|done].
    + by apply (mapped_store m lo _ out [c]).
    + replace (Z.to_nat (hi - out)) with (S (Z.to_nat (hi - (out + 1)))) in HQ by lia. cbn [take store] in HQ.
      cbv zeta in *. rewrite alen_cons in HQ.
      by replace (out + 1 + alen _) with (out + (alen (take (Z.to_nat (hi - (out + 1))) l') + 1)) by lia;
        replace (written + 1 + alen _) with (written + (alen (take (Z.to_nat (hi - (out + 1))) l') + 1)) by lia.
  - apply wp_ret. replace (Z.to_nat (hi - out)) with O in HQ by lia. cbn [take store] in HQ.
    change (alen (@nil Z)) with 0 in HQ. by rewrite !Z.add_0_r in HQ.
Qed.

(** Output after output is the output of both, cut off. *)
Lemma take_room (k : Z) (t t' : list Z) :
  0 ≤ k → take (Z.to_nat k) (t ++ t') =
    take (Z.to_nat k) t ++ take (Z.to_nat (k - alen (take (Z.to_nat k) t))) t'.
Proof.
  intros Hk. rewrite take_app, room_len by done. f_equal. f_equal. unfold alen. lia.
Qed.

Lemma seq_output m out t t' :
  out ≤ hi → let w := take (Z.to_nat (hi - out)) t in
  let out' := out + alen w in
  store (store m out w) out' (take (Z.to_nat (hi - out')) t') = store m out (take (Z.to_nat (hi - out)) (t ++ t')) ∧
  alen w + alen (take (Z.to_nat (hi - out')) t') = alen (take (Z.to_nat (hi - out)) (t ++ t')) ∧
  out ≤ out' ≤ hi.
Proof.
  intros Ho w out'. unfold out'. rewrite (take_room (hi - out) t t') by lia.
  replace (hi - (out + alen w)) with (hi - out - alen w) by lia. fold w. rewrite store_app, alen_app.
  split_and!; [done|done|pose proof (alen_nonneg w); lia|]. unfold w. rewrite room_len by lia. lia.
Qed.

(** What the code puts out for the text [buf] of a number. *)
Definition padded (buf : list Z) (w : Z) (zero lj : bool) : list Z :=
  let n := Z.to_nat (w - alen buf) in
  if lj then buf ++ replicate n (chr " ")
  else replicate n (if zero then chr "0" else chr " ") ++ buf.

Lemma padded_field sign digits w zero lj :
  sign = [] ∨ zero && negb lj && (alen (sign ++ digits) <? w) = false →
  padded (sign ++ digits) w zero lj = in_field sign digits w zero lj.
Proof.
  intros Hs. unfold padded, in_field. destruct lj; [by rewrite app_assoc|]. destruct zero; [|done].
  destruct Hs as [->|Hw]; [done|]. cbn [andb negb] in Hw. apply Z.ltb_ge in Hw.
  by replace (Z.to_nat _) with O by lia.
Qed.

Lemma put_number_wp buf w zero lj m out written (Q : Z * Z → bytes → Prop) :
  mapped m lo (hi - lo + 1) → lo ≤ out ≤ hi →
  (let t := take (Z.to_nat (hi - out)) (padded buf w zero lj) in
   Q (out + alen t, written + alen t) (store m out t)) →
  wp (put_number buf w zero lj out hi written) Q m.
Proof.
  intros Hm Ho HQ. unfold put_number, put_padding, padded in *. cbv zeta in HQ. destruct lj; cbn [negb andb].
  - wp_step. apply wp_ret. cbn [fst snd]. wp_step. apply put_list_wp; [done|done|]. cbv zeta.
    destruct (seq_output m out buf (replicate (Z.to_nat (w - alen buf)) (chr " "))) as (E1 & E2 & E3); [lia|].
    rewrite <-E1, <-E2 in HQ. destruct (Z.ltb_spec 0 (w - alen buf)) as [Hlt|Hge].
    + apply put_list_wp; [by apply mapped_store|cbn [fst]; lia|]. cbn [fst snd]. by rewrite !Z.add_assoc in HQ.
    + apply wp_ret. replace (Z.to_nat (w - alen buf)) with O in HQ by lia. cbn [replicate] in HQ.
      rewrite take_nil in HQ. change (alen (@nil Z)) with 0 in HQ. by rewrite !Z.add_0_r in HQ.
  - set (c := if zero then chr "0" else chr " ") in *.
    destruct (seq_output m out (replicate (Z.to_nat (w - alen buf)) c) buf) as (E1 & E2 & E3); [lia|].
    rewrite <-E1, <-E2 in HQ. wp_step. destruct (Z.ltb_spec 0 (w - alen buf)) as [Hlt|Hge].
    + apply put_list_wp; [done|done|]. cbv zeta. wp_step.
      apply put_list_wp; [by apply mapped_store|cbn [fst]; lia|]. cbn [fst snd]. apply wp_ret.
      by rewrite !Z.add_assoc in HQ.
    + apply wp_ret. cbn [fst snd]. wp_step. apply put_list_wp; [done|done|]. apply wp_ret.
      replace (Z.to_nat (w - alen buf)) with O in HQ by lia. cbn [replicate] in HQ.
      rewrite take_nil in HQ. change (alen (@nil Z)) with 0 in HQ. by rewrite !Z.add_0_r in HQ.
Qed.

(** ** Reading the format *)

Lemma parse_flags_wp fuel m e f l zero lj (Q : Z * bool * bool → bytes → Prop) :
  str m e f l → (length l < fuel)%nat →
  (∀ f', let '(l', z', j') := read_flags l zero lj in
     str m e f' l' → (length l' ≤ length l)%nat → Q (f', z', j') m) →
  wp (parse_flags fuel f zero lj) Q m.
Proof.
  revert f l zero lj. induction fuel as [|fuel IH]; intros f l zero lj Hs Hf HQ; [lia|]. cbn [parse_flags].
  destruct (str_head _ _ _ _ Hs) as (c & Hc & [[-> ->]|(l' & -> & Hr & Hs')]); (wp_step; eapply rd_wp; [done|]).
  { cbn. apply wp_ret. by apply (HQ f). }
  cbn [read_flags] in HQ. simpl in Hf. destruct (c =? chr "0").
  { apply (IH _ l'); [done|lia|]. intros f'. specialize (HQ f'). destruct (read_flags l' true lj) as [[l2 z'] j'].
    intros Hs2 Hl2. apply HQ; [done|]. simpl. lia. }
  destruct (c =? chr "-").
  { apply (IH _ l'); [done|lia|]. intros f'. specialize (HQ f'). destruct (read_flags l' zero true) as [[l2 z'] j'].
    intros Hs2 Hl2. apply HQ; [done|]. simpl. lia. }
  apply wp_ret. by apply (HQ f).
Qed.

Lemma parse_width_wp fuel m e f l w l' w' (Q : Z * Z → bytes → Prop) :
  str m e f l → (length l < fuel)%nat → read_width l w = Some (l', w') →
  (∀ f', str m e f' l' → (length l' ≤ length l)%nat → Q (f', w') m) →
  wp (parse_width fuel f w) Q m.
Proof.
  revert f l w. induction fuel as [|fuel IH]; intros f l w Hs Hf Hw HQ; [lia|]. cbn [parse_width].
  destruct (str_head _ _ _ _ Hs) as (c & Hc & [[-> ->]|(l2 & -> & Hr & Hs')]); (wp_step; eapply rd_wp; [done|]).
  { cbn in Hw |- *. simplify_eq. apply wp_ret. by apply HQ. }
  cbn [read_width] in Hw. simpl in Hf, HQ. destruct (_ && _).
  - destruct (_ <? _); [|done]. apply (IH _ l2); [done|lia|done|]. intros f' Hs2 Hl2. apply HQ; [done|lia].
  - simplify_eq. apply wp_ret. by apply HQ.
Qed.

Lemma parse_length_wp m e f l (Q : Z * bool → bytes → Prop) :
  str m e f l →
  (∀ f', let '(l', ll) := read_length l in
     str m e f' l' → (length l' ≤ length l)%nat → Q (f', ll) m) →
  wp (parse_length f) Q m.
Proof.
  intros Hs HQ. unfold parse_length.
  destruct (str_head _ _ _ _ Hs) as (c & Hc & [[-> ->]|(l2 & -> & Hr & Hs')]); (wp_step; eapply rd_wp; [done|]).
  { cbn. apply wp_ret. by apply (HQ f). }
  cbn [read_length] in HQ. destruct (c =? chr "l"); [|by apply wp_ret, (HQ f)].
  destruct (str_head _ _ _ _ Hs') as (d & Hd & [[-> ->]|(l3 & -> & Hr2 & Hs2)]); (wp_step; eapply rd_wp; [done|]).
  - cbn. apply wp_ret. apply (HQ (f + 1)); [done|simpl; lia].
  - destruct (d =? chr "l"); apply wp_ret.
    + apply (HQ (f + 2)); [by replace (f + 2) with (f + 1 + 1) by lia|simpl; lia].
    + apply (HQ (f + 1)); [done|simpl; lia].
Qed.

(** ** One conversion *)

(** The output [t] has been written as far as there was room. *)
Definition printed m out written t (r : Z * Z) m' : Prop :=
  let w := take (Z.to_nat (hi - out)) t in
  m' = store m out w ∧ r.1 = out + alen w ∧ (alen t ≤ hi - out → r.2 = written + alen t).

Lemma printed_all m out written t w :
  out ≤ hi → w = take (Z.to_nat (hi - out)) t → printed m out written t (out + alen w, written + alen w) (store m out w).
Proof.
  intros Ho ->. split_and!; [done|done|]. intros Hl. cbn [snd]. by rewrite take_ge by (unfold alen in Hl; lia).
Qed.

Lemma signed_range w z : 0 < w → - 2 ^ (w - 1) ≤ signed w z < 2 ^ (w - 1).
Proof.
  intros Hw. unfold signed, wrap. pose proof (Z.mod_pos_bound z (2 ^ w) ltac:(apply Z.pow_pos_nonneg; lia)).
  assert (2 ^ w = 2 * 2 ^ (w - 1)) by (rewrite <-Z.pow_succ_r by lia; f_equal; lia). case_decide; lia.
Qed.

Lemma unsigned_arg (ll : bool) z : 0 ≤ (if ll then wrap64 z else wrap32 z) < 2 ^ 64.
Proof. destruct ll; unfold wrap; [pose proof (Z.mod_pos_bound z (2 ^ 64))|pose proof (Z.mod_pos_bound z (2 ^ 32))]; lia. Qed.

Lemma convert_wp walk m conv ll zero lj w out written ap args t args' (Q : Z * Z * list varg → bytes → Prop) :
  (size m < walk)%nat → Forall2 (arg_ok m) ap args → mapped m lo (hi - lo + 1) → lo ≤ out < hi →
  conversion conv ll zero lj w args = Some (t, args') →
  (∀ r ap' m', printed m out written t r m' → (∃ n, args' = drop n args ∧ ap' = drop n ap) → Q (r, ap') m') →
  wp (convert walk conv ll zero lj w out hi written ap) Q m.
Proof.
  intros Hwalk Hargs Hm Ho Hconv HQ.
  assert (∀ r m' a ap', ap = a :: ap' → args' = drop 1 args → printed m out written t r m' → Q (r, ap') m') as HQ1.
  { intros r m' a ap' -> -> Hp. apply HQ; [done|]. by exists 1%nat. }
  unfold convert, conversion in *. destruct (conv =? chr "s").
  { destruct Hargs as [|a f ap args Ha Hargs]; [done|]. destruct Ha as [z| |p e l Hs]; [done|..]; injection Hconv as <- <-.
    - wp_step. apply put_list_wp; [done|lia|]. apply wp_ret. eapply HQ1; [done|done|]. apply printed_all; [lia|done].
    - wp_step. pose proof (cstr_size _ _ _ (st_cstr _ _ _ _ Hs)).
      eapply (put_string_wp _ l); [done|lia|done|lia|]. apply wp_ret. eapply HQ1; [done|done|].
      apply printed_all; [lia|done]. }
  destruct (conv =? chr "c").
  { destruct Hargs as [|a f ap args Ha Hargs]; [done|]. destruct Ha as [z| |p e l Hs]; [|done..]. injection Hconv as <- <-.
    wp_step. apply wr_wp; [apply Hm; lia|]. apply wp_ret. eapply HQ1; [done|done|].
    unfold printed. replace (Z.to_nat (hi - out)) with (S (Z.to_nat (hi - out - 1))) by lia. cbn [take].
    rewrite take_nil. done. }
  destruct ((conv =? chr "d") || (conv =? chr "i")).
  { destruct Hargs as [|a f ap args Ha Hargs]; [done|]. destruct Ha as [z| |p e l Hs]; [|done..].
    set (val := if ll then int64 z else int32 z) in *. assert (- 2 ^ 63 ≤ val < 2 ^ 63) as Hval.
    { unfold val. destruct ll; [pose proof (signed_range 64 z ltac:(lia))|pose proof (signed_range 32 z ltac:(lia))]; lia. }
    destruct (Z.eqb_spec val (- 2 ^ 63)); [done|]. rewrite number_numeral by lia.
    wp_step. apply put_number_wp; [done|lia|]. apply wp_ret.
    destruct (Z.leb_spec 0 val); [|destruct (zero && negb lj && _) eqn:Hz in Hconv; [done|]]; injection Hconv as <- <-.
    - rewrite (proj2 (Z.ltb_ge val 0)), padded_field by (lia || by left).
      eapply HQ1; [done|done|]. apply printed_all; [lia|done].
    - rewrite (proj2 (Z.ltb_lt val 0)), padded_field by (lia || (right; rewrite alen_app, Z.add_comm; exact Hz)).
      eapply HQ1; [done|done|]. apply printed_all; [lia|done]. }
  destruct (conv =? chr "u").
  { destruct Hargs as [|a f ap args Ha Hargs]; [done|]. destruct Ha as [z| |p e l Hs]; [|done..].
    injection Hconv as <- <-. rewrite number_numeral by (lia || apply unsigned_arg).
    wp_step. apply put_number_wp; [done|lia|]. apply wp_ret.
    rewrite padded_field by (by left). eapply HQ1; [done|done|]. apply printed_all; [lia|done]. }
  destruct ((conv =? chr "x") || (conv =? chr "X")).
  { destruct Hargs as [|a f ap args Ha Hargs]; [done|]. destruct Ha as [z| |p e l Hs]; [|done..].
    injection Hconv as <- <-. rewrite number_numeral by (lia || apply unsigned_arg).
    wp_step. apply put_number_wp; [done|lia|]. apply wp_ret.
    rewrite padded_field by (by left). eapply HQ1; [done|done|]. apply printed_all; [lia|done]. }
  simplify_eq. wp_step. apply wr_wp; [apply Hm; lia|]. destruct (Z.ltb_spec (out + 1) hi) as [Hlt|Hge].
  - wp_step. apply wr_wp; [rewrite lookup_insert_ne by lia; apply Hm; lia|]. apply wp_ret. apply HQ; [|by exists O].
    unfold printed. rewrite take_ge by (simpl; lia). done.
  - apply wp_ret. apply HQ; [|by exists O]. unfold printed. replace (hi - out) with 1 by lia. split_and!; [done|done|].
    unfold alen. simpl. lia.
Qed.

(** ** The whole format *)

Lemma printed_app m out written t t' r1 m1 r2 m2 :
  out ≤ hi → printed m out written t r1 m1 → printed m1 r1.1 r1.2 t' r2 m2 → printed m out written (t ++ t') r2 m2.
Proof.
  intros Ho (-> & E1 & W1) (-> & E2 & W2). rewrite E1 in E2 |- *. rewrite E1 in W2.
  destruct (seq_output m out t t') as (S1 & S2 & S3); [done|].
  split_and!; [done|lia|]. intros Hl. rewrite alen_app in Hl. pose proof (alen_nonneg t'). rewrite alen_app.
  assert (alen (take (Z.to_nat (hi - out)) t) = alen t) as Hw by (rewrite room_len by lia; lia).
  rewrite Hw in W2. rewrite W2, W1 by lia. lia.
Qed.

Lemma printed_range m out written t r m' : lo ≤ out ≤ hi → printed m out written t r m' → lo ≤ r.1 ≤ hi.
Proof. intros Ho (_ & -> & _). rewrite room_len by lia. pose proof (alen_nonneg t). lia. Qed.

Lemma format_loop_wp fuel walk m e f l n out written ap args txt (Q : Z * Z → bytes → Prop) :
  (size m < walk)%nat → (length l < fuel)%nat → str m e f l → Forall2 (arg_ok m) ap args →
  mapped m lo (hi - lo + 1) → lo ≤ out ≤ hi → render_from n l args = Some txt →
  (∀ r m', printed m out written txt r m' → Q r m') →
  wp (format_loop fuel walk f out hi written ap) Q m.
Proof.
  revert m f l n out written ap args txt Q.
  induction fuel as [|fuel IH]; intros m f l n out written ap args txt Q Hwalk Hf Hs Hargs Hm Ho Hr HQ; [lia|].
  cbn [format_loop]. destruct (str_head _ _ _ _ Hs) as (c & Hc & Hl). wp_step. eapply rd_wp; [done|].
  destruct n as [|n]; [done|].
  destruct Hl as [[-> ->]|(l1 & -> & Hcr & Hs1)].
  { cbn in Hr |- *. simplify_eq. apply wp_ret, HQ. unfold printed. rewrite take_nil. cbn [store fst snd].
    change (alen (@nil Z)) with 0. split_and!; [done|lia|lia]. }
  rewrite (proj2 (Z.eqb_neq c 0)) by lia. cbn [orb].
  destruct (Z.ltb_spec out hi) as [Hlt|Hge]; cbn [negb].
  2: { apply wp_ret, HQ. unfold printed. replace (Z.to_nat (hi - out)) with O by lia. rewrite take_0. cbn [store fst snd].
       change (alen (@nil Z)) with 0. split_and!; [done|lia|]. intros Hl. pose proof (alen_nonneg txt). lia. }
  (* the state after [t] is printed *)
  assert (∀ t txt' n' f' l' r ap' args' m', txt = t ++ txt' → render_from n' l' args' = Some txt' →
    str m e f' l' → (length l' ≤ length l1)%nat → printed m out written t r m' →
    (∃ j, args' = drop j args ∧ ap' = drop j ap) →
    wp (format_loop fuel walk f' r.1 hi r.2 ap') Q m') as Hnext.
  { intros t txt' n' f' l' r ap' args' m' -> Hr' Hs' Hl' Hp (j & -> & ->).
    pose proof Hp as (Em & _ & _).
    assert (out + alen (take (Z.to_nat (hi - out)) t) ≤ hi) as Hfit by (rewrite room_len by lia; lia).
    eapply (IH m' f' l' n' r.1 r.2 (drop j ap) (drop j args) txt'); [..|exact Hr'|].
    - rewrite Em, size_store; [done|]. intros y Hy. apply Hm. lia.
    - simpl in Hf. lia.
    - rewrite Em. by apply str_store; [lia|..].
    - rewrite Em. apply args_store; [lia|done|]. by apply Forall2_drop.
    - rewrite Em. by apply mapped_store.
    - by eapply printed_range; [|exact Hp].
    - intros r2 m2 Hp2. apply HQ. eapply printed_app; [lia|exact Hp|exact Hp2]. }
  cbn [render_from] in Hr. destruct (c =? chr "%"); cbn [negb] in Hr |- *.
  2: { destruct (render_from n l1 args) as [txt'|] eqn:Hr'; [|done]. simplify_eq/=.
       wp_step. apply wr_wp; [apply Hm; lia|].
       apply (Hnext [c] txt' n (f + 1) l1 (out + 1, written + 1) ap args); [done..| |by exists O].
       unfold printed. rewrite take_ge by (simpl; lia). done. }
  destruct (str_head _ _ _ _ Hs1) as (c2 & Hc2 & Hl1). wp_step. eapply rd_wp; [done|].
  destruct l1 as [|x l2]; [done|]. destruct Hl1 as [[_ ?]|(l2' & [= <- <-] & Hcr2 & Hs2)]; [done|].
  destruct (x =? chr "%").
  { destruct (render_from n l2 args) as [txt'|] eqn:Hr'; [|done]. simplify_eq/=.
    wp_step. apply wr_wp; [apply Hm; lia|].
    apply (Hnext [chr "%"] txt' n (f + 2) l2 (out + 1, written + 1) ap args); [done|done| |lia| |by exists O].
    - by replace (f + 2) with (f + 1 + 1) by lia.
    - unfold printed. rewrite take_ge by (simpl; lia). done. }
  assert (length (x :: l2) < walk)%nat as Hw1 by (pose proof (cstr_size _ _ _ (st_cstr _ _ _ _ Hs1)); lia).
  wp_step. eapply (parse_flags_wp _ m e _ (x :: l2)); [done|done|]. intros f1.
  destruct (read_flags (x :: l2) false false) as [[k1 zero] lj]. intros Hk1 Hk1l.
  destruct (read_width k1 0) as [[k2 w]|] eqn:Hrw; [|done].
  wp_step. eapply (parse_width_wp _ m e _ k1); [done|lia|done|]. intros f2 Hk2 Hk2l.
  wp_step. eapply parse_length_wp; [done|]. intros f3. destruct (read_length k2) as [k3 ll]. intros Hk3 Hk3l.
  destruct k3 as [|conv k4]; [done|].
  destruct (conversion conv ll zero lj w args) as [[t args']|] eqn:Hcv; [|done].
  destruct (render_from n k4 args') as [txt'|] eqn:Hr'; [|done]. simplify_eq/=.
  destruct (str_head _ _ _ _ Hk3) as (c3 & Hc3 & [[_ ?]|(k4' & [= <- <-] & _ & Hk4)]); [done|].
  wp_step. eapply rd_wp; [done|]. wp_step.
  eapply (convert_wp walk); [done|done|done|lia|done|].
  intros [out' written'] ap' m' Hp Hd. cbv beta iota.
  apply (Hnext t txt' n (f3 + 1) k4 (out', written') ap' args' m'); try done. simpl in *. lia.
Qed.

End format.

(** C35. vsnprintf renders its format.  Given a format and arguments whose text
    is covered by [render] (every conversion complete and with its argument; no
    negative number to be filled up with zeros and not the least 64-bit
    integer), with the format and string arguments outside of the buffer,
    vsnprintf does not fault, writes the text cut off after [size - 1]
    characters and a terminator at the start of the buffer, and changes no
    other byte of memory; when the text was not cut off it returns its
    length. *)
Theorem vsnprintf_renders m (p n f : Z) l ap args txt :
  0 < n → mapped m p n → str p (p + n - 1) m (f + alen l) f l →
  Forall2 (arg_ok p (p + n - 1) m) ap args → render l args = Some txt →
  ∃ r, vsnprintf p n f ap m = Some (r, store m p (take (Z.to_nat (n - 1)) txt ++ [0])) ∧
    (alen txt ≤ n - 1 → r = alen txt).
Proof.
  intros Hn Hm Hs Hargs Hr. unfold render in Hr.
  assert (wp (vsnprintf p n f ap) (λ r m', m' = store m p (take (Z.to_nat (n - 1)) txt ++ [0]) ∧
    (alen txt ≤ n - 1 → r = alen txt)) m) as Hw.
  { unfold vsnprintf. rewrite (proj2 (Z.eqb_neq n 0)) by lia. wp_step. unfold bytes_fuel. wp_step. wp_step.
    pose proof (cstr_size _ _ _ (st_cstr _ _ _ _ _ _ Hs)).
    eapply (format_loop_wp p (p + n - 1)); [lia| |done|done| |lia|exact Hr|]; [lia| |].
    - intros y Hy. apply Hm. lia.
    - intros r m' (-> & E1 & E2). replace (p + n - 1 - p) with (n - 1) in * by lia. wp_step. apply wr_wp.
      + rewrite E1. eapply (mapped_store m p n); [done|]. rewrite room_len by lia. pose proof (alen_nonneg txt). lia.
      + apply wp_ret. rewrite E1, store_snoc. split; [done|]. intros Hl. rewrite E2 by lia. lia. }
  destruct (wp_elim _ _ _ Hw) as (r & m' & Hrun & -> & Hret). by exists r.
Qed.

(** ** A concrete call *)

Definition demo_mem : bytes :=
  store (store (store ∅ 100 (replicate 16 7)) 1000 (chars "n=%3u,%s" ++ [0])) 2000 (chars "ok" ++ [0]).

Lemma vsnprintf_renders_witness :
  ∃ r, vsnprintf 100 16 1000 [VInt 42; VPtr (Some 2000)] demo_mem =
    Some (r, store demo_mem 100 (take 15 (chars "n= 42,ok") ++ [0])) ∧ (8 ≤ 15 → r = 8).
Proof.
  apply (vsnprintf_renders demo_mem 100 16 1000 (chars "n=%3u,%s") [VInt 42; VPtr (Some 2000)]
    [FInt 42; FStr (Some (chars "ok"))] (chars "n= 42,ok")).
  - lia.
  - intros y Hy. assert (∃ i : nat, (i < 16)%nat ∧ y = 100 + Z.of_nat i) as (i & Hi & ->).
    { exists (Z.to_nat (y - 100)). lia. }
    do 16 (destruct i as [|i]; [vm_compute; by eexists|]). lia.
  - split; [split; [vm_compute; tauto|]|done|right; lia]. repeat constructor; lia.
  - constructor; [constructor|]. constructor; [|constructor]. apply (arg_str _ _ _ 2000 2002).
    split; [split; [vm_compute; tauto|]|done|right; lia]. repeat constructor; lia.
  - by vm_compute.
Defined.

(** A format that ends in a percent sign: after the terminator is taken as the
    conversion, the loop goes on behind the end of the format. *)
Lemma vsnprintf_reads_past_format :
  vsnprintf 100 16 1000 [] (store (store ∅ 100 (replicate 16 7)) 1000 (chars "50%" ++ [0])) = None.
Proof. by vm_compute. Qed.

(** With the flag 0 a negative number is filled up with zeros before its sign,
    where C puts them behind it: "00-42" and not "-0042". *)
Lemma zeros_before_sign :
  let m := store (store ∅ 100 (replicate 16 7)) 1000 (chars "%05d" ++ [0]) in
  vsnprintf 100 16 1000 [VInt (-42)] m = Some (5, store m 100 (chars "00-42" ++ [0])).
Proof. by vm_compute. Qed.
