(* ===== verification/Cmdline.v ===== *)
(** * The kernel command line (cmdline.h, cmdline.c)

    The command line is copied to a static buffer, and parameters are found by
    walking over it.  [buf] is the address of the buffer and [empty] that of
    the empty string returned for a flag; the memory is that of CString.v. *)

From Stdlib Require Import Ascii.
From stdpp Require Import strings.
From S2P Require Import Prelude CString CStringThm.

Definition CMDLINE_MAX_LEN : Z := 1024.

Record cmdline := Cmdline { cl_mem : bytes; cmdline_initialized : bool }.

Definition set_cl_mem (m : bytes) (s : cmdline) : cmdline := Cmdline m (cmdline_initialized s).
Definition on_mem {A} : BM A → M cmdline A := zoom cl_mem set_cl_mem.

Definition is_space (c : Z) : bool := (c =? 32) || (c =? 9).

Section cmdline.
Context (buf empty : Z).

Definition cmdline_init (line : option Z) : M cmdline unit :=
  let start := match line with Some p => c ← on_mem (rd p); mret (negb (c =? 0)) | None => mret false end in
  some ← start;
  match line, some with
  | Some p, true =>
      len0 ← on_mem (strlen p);
      let len := if CMDLINE_MAX_LEN <=? len0 then CMDLINE_MAX_LEN - 1 else len0 in
      on_mem (memcpy buf p len) ;;
      on_mem (wr (buf + len) 0) ;;
      modify (λ s, Cmdline (cl_mem s) true)
  | _, _ => on_mem (wr buf 0) ;; modify (λ s, Cmdline (cl_mem s) true)
  end.

Fixpoint skip_space (fuel : nat) (p : Z) : BM Z :=
  match fuel with
  | O => fault
  | S fuel' => c ← rd p; if is_space c then skip_space fuel' (p + 1) else mret p
  end.

Fixpoint skip_token (fuel : nat) (p : Z) : BM Z :=
  match fuel with
  | O => fault
  | S fuel' =>
      c ← rd p;
      if negb (c =? 0) && negb (is_space c) then skip_token fuel' (p + 1) else mret p
  end.

(** The loop over the tokens. *)
Fixpoint find_param (fuel walk : nat) (key key_len p0 : Z) : BM (option Z) :=
  match fuel with
  | O => fault
  | S fuel' =>
      c ← rd p0;
      if c =? 0 then mret None
      else
        p ← skip_space walk p0;
        r ← strncmp p key key_len;
        d ← (if r =? 0 then x ← rd (p + key_len); mret (Some x) else mret None);
        match d with
        | Some x =>
            if x =? chr "=" then mret (Some (p + key_len + 1))
            else if is_space x || (x =? 0) then mret (Some empty)
            else q ← skip_token walk p; find_param fuel' walk key key_len q
        | None => q ← skip_token walk p; find_param fuel' walk key key_len q
        end
  end.

Definition cmdline_get_param (key0 : option Z) : M cmdline (option Z) :=
  init ← gets cmdline_initialized;
  match key0 with
  | Some key =>
      if (init : bool) then
        key_len ← on_mem (strlen key);
        on_mem (fuel ← bytes_fuel; find_param fuel fuel key key_len buf)
      else mret None
  | None => mret None
  end.

Definition cmdline_has_flag (key : option Z) : M cmdline bool :=
  v ← cmdline_get_param key; mret (match v with Some _ => true | None => false end).

Definition cmdline_get_raw : M cmdline (option Z) :=
  init ← gets cmdline_initialized; mret (if (init : bool) then Some buf else None).

End cmdline.

(** ** Tokens *)

Definition flush (cur : list Z) : list (list Z) := match cur with [] => [] | _ => [cur] end.

Fixpoint tokens_from (cur l : list Z) : list (list Z) :=
  match l with
  | [] => flush cur
  | c :: l' => if is_space c then flush cur ++ tokens_from [] l' else tokens_from (cur ++ [c]) l'
  end.

(** The words of a line: its longest runs of characters that are no space. *)
Definition tokens (l : list Z) : list (list Z) := tokens_from [] l.

(** The token [t] sets [key]: it is [key], or [key=value]. *)
Definition sets (key t : list Z) : Prop := t = key ∨ ∃ v, t = key ++ chr "=" :: v.

Definition word (l : list Z) : Prop := Forall (λ c, is_space c = false) l.

Lemma tokens_space c l : is_space c = true → tokens (c :: l) = tokens l.
Proof. intros Hc. unfold tokens. cbn [tokens_from]. by rewrite Hc. Qed.

Lemma tokens_from_word cur t l : word t → tokens_from cur (t ++ l) = tokens_from (cur ++ t) l.
Proof.
  revert cur. induction t as [|c t IH]; intros cur Ht; [by rewrite app_nil_r|].
  apply Forall_cons in Ht as [Hc Ht]. cbn [app tokens_from]. rewrite Hc, IH, <-app_assoc by done. done.
Qed.

(** A first word, and the rest after it. *)
Lemma tokens_word t l :
  word t → t ≠ [] → (l = [] ∨ ∃ c l', l = c :: l' ∧ is_space c = true) → tokens (t ++ l) = t :: tokens l.
Proof.
  intros Ht Hne Hl. unfold tokens. rewrite tokens_from_word by done. cbn [app].
  destruct Hl as [->|(c & l' & -> & Hc)]; cbn [tokens_from].
  - by destruct t.
  - rewrite Hc. by destruct t.
Qed.

(** ** The walk over the buffer *)

Lemma skip_space_wp fuel m p l (Q : Z → bytes → Prop) :
  cstr m p l → (length l < fuel)%nat →
  (∀ p' l', cstr m p' l' → tokens l' = tokens l → (length l' ≤ length l)%nat →
     (∀ c l2, l' = c :: l2 → is_space c = false) → Q p' m) →
  wp (skip_space fuel p) Q m.
Proof.
  revert p l. induction fuel as [|fuel IH]; intros p l Hs Hf HQ; [lia|]. cbn [skip_space].
  destruct (cstr_head _ _ _ Hs) as (c & Hc & [[-> ->]|(l' & -> & Hr & Hs')]); (wp_step; eapply rd_wp; [done|]).
  - cbn. apply wp_ret. by apply (HQ p []).
  - destruct (is_space c) eqn:Hsp.
    + apply (IH _ l'); [done|simpl in Hf; lia|]. intros p' l2 H1 H2 H3 H4. apply (HQ p' l2); [done| |simpl; lia|done].
      by rewrite tokens_space.
    + apply wp_ret. eapply HQ; [exact Hs|done|done|]. by intros d l2 [= -> ->].
Qed.

Lemma skip_token_wp fuel m p l (Q : Z → bytes → Prop) :
  cstr m p l → (length l < fuel)%nat →
  (∀ p' t l', cstr m p' l' → l = t ++ l' → word t → (l' = [] ∨ ∃ c l2, l' = c :: l2 ∧ is_space c = true) → Q p' m) →
  wp (skip_token fuel p) Q m.
Proof.
  revert p l. induction fuel as [|fuel IH]; intros p l Hs Hf HQ; [lia|]. cbn [skip_token].
  destruct (cstr_head _ _ _ Hs) as (c & Hc & [[-> ->]|(l' & -> & Hr & Hs')]); (wp_step; eapply rd_wp; [done|]).
  - cbn. apply wp_ret. apply (HQ p [] []); [done|done|constructor|by left].
  - rewrite (proj2 (Z.eqb_neq c 0)) by lia. cbn [negb andb]. destruct (is_space c) eqn:Hsp; cbn [negb].
    + apply wp_ret. apply (HQ p [] (c :: l')); [done|done|constructor|]. right. eauto.
    + apply (IH _ l'); [done|simpl in Hf; lia|]. intros p' t l2 H1 -> H3 H4.
      apply (HQ p' (c :: t) l2); [done|done|by constructor|done].
Qed.

(** The prefix test of the loop. *)
Lemma compare_take key l :
  Forall (λ c, 0 < c < 256) key → Forall (λ c, 0 < c < 256) l →
  compare (take (length key) l) (take (length key) key) = 0 ↔ ∃ r, l = key ++ r.
Proof.
  intros Hk Hl. rewrite (take_ge key) by lia. rewrite compare_eq; [|by apply Forall_take|done]. split.
  - intros E. exists (drop (length key) l). by rewrite <-(take_drop (length key) l) at 1; rewrite E.
  - intros [r ->]. apply take_app_length.
Qed.

(** The first word that begins with [key]: what follows decides. *)
Lemma sets_word key t l' r :
  word t → word key → t ++ l' = key ++ r → (l' = [] ∨ ∃ c l2, l' = c :: l2 ∧ is_space c = true) →
  sets key t ↔ (∃ v, r = chr "=" :: v) ∨ r = [] ∨ ∃ c r', r = c :: r' ∧ is_space c = true.
Proof.
  intros Ht Hk E Hl'.
  assert (∃ u, t = key ++ u ∧ r = u ++ l') as (u & -> & ->).
  { apply app_eq_app in E as (x & [[-> ->]|[-> ->]]); [by exists x|].
    destruct x as [|c x]; [exists []; by rewrite !app_nil_r|]. exfalso.
    destruct Hl' as [?|(d & l2 & [= <- _] & Hd)]; [done|].
    apply Forall_app in Hk as [_ [Hc _]%Forall_cons]. congruence. }
  apply Forall_app in Ht as [_ Hu]. split.
  - intros [E'|[v E']].
    + right. destruct u; [|by rewrite <-(app_nil_r key) in E' at 2; apply app_inj_1 in E' as [_ ?]].
      cbn [app]. destruct Hl' as [->|(c & l2 & -> & Hc)]; eauto.
    + apply app_inv_head in E'. subst u. left. by eexists.
  - intros [[v Ev]|[Ev|(c & r' & Ev & Hc)]].
    + destruct u as [|c u]; cbn [app] in Ev; [|right; exists u; by injection Ev as -> _].
      destruct Hl' as [->|(c & l2 & -> & Hc)]; [done|]. injection Ev as -> _. done.
    + apply app_nil in Ev as [-> _]. left. by rewrite app_nil_r.
    + destruct u as [|d u]; [left; by rewrite app_nil_r|]. injection Ev as -> _.
      apply Forall_cons in Hu as [? _]. congruence.
Qed.

Lemma find_param_wp fuel walk m empty k key p l (Q : option Z → bytes → Prop) :
  cstr m k key → key ≠ [] → word key → cstr m p l → (length l < fuel)%nat → (length l < walk)%nat →
  ((∀ t, t ∈ tokens l → ¬ sets key t) → Q None m) →
  (∀ ts t ts' v, tokens l = ts ++ t :: ts' → (∀ u, u ∈ ts → ¬ sets key u) → sets key t →
     (t = key ∧ v = empty ∨ ∃ val rest, t = key ++ chr "=" :: val ∧ cstr m v (val ++ rest)) → Q (Some v) m) →
  wp (find_param empty fuel walk k (alen key) p) Q m.
Proof.
  intros Hk Hne Hkw. revert p l Q. induction fuel as [|fuel IH]; intros p l Q Hs Hf Hw HN HS; [lia|].
  cbn [find_param]. destruct (cstr_head _ _ _ Hs) as (c & Hc & Hl). wp_step. eapply rd_wp; [done|].
  destruct Hl as [[-> ->]|(l0 & El & Hr & _)].
  { cbn. apply wp_ret, HN. by intros t ?%elem_of_nil. }
  rewrite (proj2 (Z.eqb_neq c 0)) by lia. wp_step. apply (skip_space_wp _ m p l); [done|done|].
  intros p1 l1 Hs1 Ht1 Hl1 Hns. wp_step. unfold strncmp.
  replace (Z.to_nat (alen key)) with (length key) by (unfold alen; lia).
  eapply strncmp_from_wp; [exact Hs1|exact Hk|].
  pose proof (compare_take key l1 (cs_chars _ _ _ Hk) (cs_chars _ _ _ Hs1)) as Hcmp.
  set (r := compare _ _) in *.
  (* going on with the next token *)
  assert ((∀ t l2, l1 = t ++ l2 → word t → (l2 = [] ∨ ∃ c l3, l2 = c :: l3 ∧ is_space c = true) → ¬ sets key t) →
    wp (q ← skip_token walk p1; find_param empty fuel walk k (alen key) q) Q m) as Hgo.
  { intros Hno. wp_step. apply (skip_token_wp _ m p1 l1); [done|lia|]. intros p2 t l2 Hs2 E2 Htw Hl2.
    pose proof (Hno t l2 E2 Htw Hl2) as Hnt.
    assert (tokens l = flush t ++ tokens l2) as Et.
    { rewrite <-Ht1, E2. destruct t as [|x t]; [done|]. by rewrite (tokens_word (x :: t)). }
    assert (length l2 < length l)%nat as Hlt.
    { rewrite E2, length_app in Hl1. destruct t as [|x t]; [|simpl in Hl1; lia]. cbn [app] in E2.
      destruct Hl2 as [->|(x & l3 & -> & Hx)]; [subst l; simpl; lia|]. by specialize (Hns x l3 E2); congruence. }
    apply (IH p2 l2); [done|lia|lia|..].
    - intros Hall. apply HN. intros u. rewrite Et. intros [Hu|Hu]%elem_of_app; [|auto].
      destruct t; [by apply elem_of_nil in Hu|]. by apply list_elem_of_singleton in Hu as ->.
    - intros ts u ts' v E3 Hts Hset Hv. apply (HS (flush t ++ ts) u ts' v); [by rewrite Et, E3, app_assoc| |done|done].
      intros x [Hx|Hx]%elem_of_app; [|auto]. destruct t; [by apply elem_of_nil in Hx|].
      by apply list_elem_of_singleton in Hx as ->. }
  wp_step. destruct (Z.eqb_spec r 0) as [Hr0|Hr0].
  2: { apply wp_ret. apply Hgo. intros t l2 E _ _ Hset. apply Hr0, Hcmp. rewrite E.
       destruct Hset as [->|[v ->]]; [by eexists|]. rewrite <-app_assoc. by eexists. }
  apply Hcmp in Hr0 as [rest El1]. rewrite El1 in Hs1.
  assert (cstr m (p1 + alen key) rest) as Hsr.
  { destruct Hs1 as [Hb Hch]. rewrite <-app_assoc in Hb. apply block_app in Hb as [_ Hb].
    apply Forall_app in Hch as [_ ?]. by split. }
  (* the token at hand *)
  assert (∃ t l2, l1 = t ++ l2 ∧ word t ∧ t ≠ [] ∧ (l2 = [] ∨ ∃ c l3, l2 = c :: l3 ∧ is_space c = true)) as
    (t & l2 & Et & Htw & Htne & Hl2).
  { clear -El1 Hkw Hne. assert (∃ u l2, rest = u ++ l2 ∧ word u ∧ (l2 = [] ∨ ∃ c l3, l2 = c :: l3 ∧ is_space c = true)) as (u & l2 & -> & Hu & Hl2).
    { clear El1. induction rest as [|c rest (u & l2 & -> & Hu & Hl2)]; [exists [], []; split_and!; [done|constructor|by left]|].
      destruct (is_space c) eqn:Hc; [exists [], (c :: u ++ l2); split_and!; [done|constructor|right; eauto]|].
      exists (c :: u), l2. split_and!; [done|by constructor|done]. }
    exists (key ++ u), l2. rewrite <-app_assoc. split_and!; [done|by apply Forall_app|by destruct key|done]. }
  assert (tokens l = t :: tokens l2) as Etok by (rewrite <-Ht1, Et; by apply tokens_word).
  pose proof (sets_word key t l2 rest Htw Hkw ltac:(congruence) Hl2) as Hsets.
  destruct (cstr_head _ _ _ Hsr) as (x & Hx & Hrest). wp_step. eapply rd_wp; [done|]. apply wp_ret.
  destruct (Z.eqb_spec x (chr "=")) as [->|Hneq].
  - apply wp_ret. destruct Hrest as [[? _]|(v & -> & _ & Hsv)]; [done|].
    apply (HS [] t (tokens l2)); [done|by intros u ?%elem_of_nil|apply Hsets; by left; eexists|]. right.
    assert (sets key t) as [->|[val Et']] by (apply Hsets; by left; eexists).
    { exfalso. rewrite El1 in Et. apply app_inv_head in Et. subst l2.
      destruct Hl2 as [?|(d & l3 & [= <- _] & Hd)]; [done|by vm_compute in Hd]. }
    exists val, l2. split; [done|]. rewrite El1, Et', <-app_assoc in Et. apply app_inv_head in Et.
    injection Et as ->. done.
  - destruct (is_space x || (x =? 0)) eqn:Hend.
    + apply wp_ret. assert (rest = [] ∨ ∃ c r', rest = c :: r' ∧ is_space c = true) as Hre.
      { destruct Hrest as [[_ ->]|(r' & -> & Hr' & _)]; [by left|right]. apply orb_true_iff in Hend as [?|Hz%Z.eqb_eq]; [eauto|lia]. }
      apply (HS [] t (tokens l2)); [done|by intros u ?%elem_of_nil|apply Hsets; by right|]. left. split; [|done].
      assert (sets key t) as [->|[val Et']] by (apply Hsets; by right); [done|]. exfalso.
      rewrite El1, Et', <-app_assoc in Et. apply app_inv_head in Et. subst rest.
      destruct Hre as [?|(d & r' & [= <- _] & Hd)]; [done|by vm_compute in Hd].
    + apply Hgo. intros t' l2' E' Htw' Hl2' Hset. apply orb_false_iff in Hend as [Hsp Hz%Z.eqb_neq].
      rewrite (sets_word key t' l2' rest Htw' Hkw ltac:(congruence) Hl2') in Hset.
      destruct Hrest as [[-> _]|(r' & -> & _ & _)]; [done|].
      destruct Hset as [[v [= ? _]]|[?|(d & r2 & [= <- _] & Hd)]]; [done|done|congruence].
Qed.

(** ** The claims *)

Lemma cmdline_init_wp s buf p line (Q : unit → cmdline → Prop) :
  cstr (cl_mem s) p line → alen line < CMDLINE_MAX_LEN → mapped (cl_mem s) buf CMDLINE_MAX_LEN →
  buf + CMDLINE_MAX_LEN ≤ p ∨ p + alen line < buf →
  Q tt (Cmdline (store (cl_mem s) buf (line ++ [0])) true) → wp (cmdline_init buf (Some p)) Q s.
Proof.
  unfold CMDLINE_MAX_LEN. intros Hs Hlen Hm Hd HQ. unfold cmdline_init. pose proof (alen_nonneg line).
  destruct (cstr_head _ _ _ Hs) as (c & Hc & Hl). wp_step. wp_step. apply wp_zoom. eapply rd_wp; [done|]. apply wp_ret.
  destruct Hl as [[-> ->]|(l' & -> & Hr & _)].
  { cbn. wp_step. apply wp_zoom. apply wr_wp; [apply Hm; lia|]. by wp_step. }
  rewrite (proj2 (Z.eqb_neq c 0)) by lia. cbn [negb]. wp_step. apply wp_zoom. eapply strlen_wp; [exact Hs|].
  unfold CMDLINE_MAX_LEN. rewrite (proj2 (Z.leb_gt 1024 _)) by lia. wp_step. apply wp_zoom. unfold memcpy. wp_step.
  set (L := c :: l') in *. replace (Z.to_nat (alen L)) with (length L) by (unfold alen; lia).
  destruct s as [m i]; cbn [cl_mem set_cl_mem] in *.
  apply (copy_up_wp _ m buf p L); [done| |intros y Hy; apply Hm; lia|lia|].
  { destruct Hs as [Hb _]. by apply block_app in Hb as [Hb _]. }
  apply wp_ret. wp_step. apply wp_zoom. cbn [cl_mem set_cl_mem cmdline_initialized].
  apply wr_wp; [apply (mapped_store m buf 1024); [done|lia]|]. wp_step.
  cbn [cl_mem set_cl_mem cmdline_initialized]. by rewrite <-store_snoc.
Qed.

Lemma init_cstr m buf line : Forall (λ c, 0 < c < 256) line → cstr (store m buf (line ++ [0])) buf line.
Proof. intros Hl. split; [apply block_store|done]. Qed.

(** Flags of the command line.  After cmdline_init with a line of less than
    1024 characters, cmdline_has_flag does not fault, changes nothing, and
    answers yes exactly when one of the words of the line is the key, or the
    key followed by an equals sign and a value. *)
Theorem cmdline_has_flag_correct s buf empty p line k key :
  cstr (cl_mem s) p line → alen line < CMDLINE_MAX_LEN → mapped (cl_mem s) buf CMDLINE_MAX_LEN →
  buf + CMDLINE_MAX_LEN ≤ p ∨ p + alen line < buf →
  cstr (cl_mem s) k key → buf + CMDLINE_MAX_LEN ≤ k ∨ k + alen key < buf → key ≠ [] → word key →
  ∃ b s', cmdline_init buf (Some p) s = Some (tt, s') ∧
    cmdline_has_flag buf empty (Some k) s' = Some (b, s') ∧
    (b = true ↔ ∃ t, t ∈ tokens line ∧ sets key t).
Proof.
  intros Hs Hlen Hm Hd Hk Hkd Hne Hkw. set (s' := Cmdline (store (cl_mem s) buf (line ++ [0])) true).
  assert (wp (cmdline_init buf (Some p)) (λ _ x, x = s') s) as Hi by by eapply cmdline_init_wp.
  destruct (wp_elim _ _ _ Hi) as ([] & x & Hrun & ->).
  assert (wp (cmdline_has_flag buf empty (Some k)) (λ b x, x = s' ∧ (b = true ↔ ∃ t, t ∈ tokens line ∧ sets key t)) s') as Hw.
  { assert (cstr (cl_mem s') k key) as Hk'.
    { eapply cstr_ext; [|exact Hk]. intros y Hy. apply lookup_store_out. rewrite alen_app. change (alen [0]) with 1.
      unfold CMDLINE_MAX_LEN in *. lia. }
    assert (cstr (cl_mem s') buf line) as Hb by apply init_cstr, Hs.
    unfold cmdline_has_flag, cmdline_get_param. wp_step. wp_step. wp_step. cbn [cmdline_initialized s'].
    wp_step. apply wp_zoom. eapply strlen_wp; [exact Hk'|]. apply wp_zoom.
    wp_step. unfold bytes_fuel. wp_step. pose proof (cstr_size _ _ _ Hb).
    change (set_cl_mem (cl_mem s') s') with s'.
    eapply (find_param_wp _ _ (cl_mem s') empty k key buf line); [done|done|done|done|lia|lia|..].
    - intros Hno. apply wp_ret. split; [done|]. split; [done|]. intros (t & Ht & Hset). by destruct (Hno t Ht).
    - intros ts t ts' v E _ Hset _. apply wp_ret. split; [done|]. split; [intros _|done].
      exists t. split; [rewrite E; set_solver|done]. }
  destruct (wp_elim _ _ _ Hw) as (b & x & Hrun' & -> & Hb). by exists b, s'.
Qed.

Definition demo_line : string := "root=/dev/sda1  quiet".
Definition demo_cmdline : cmdline :=
  Cmdline (store (store (store ∅ 4096 (replicate 1024 0)) 100 (chars demo_line ++ [0])) 200 (chars "quiet" ++ [0])) false.

Lemma cmdline_has_flag_correct_witness :
  ∃ b s', cmdline_init 4096 (Some 100) demo_cmdline = Some (tt, s') ∧
    cmdline_has_flag 4096 3000 (Some 200) s' = Some (b, s').
Proof.
  destruct (cmdline_has_flag_correct demo_cmdline 4096 3000 100 (chars demo_line) 200 (chars "quiet")) as (b & s' & H1 & H2 & _).
  - split; [vm_compute; tauto|]. repeat constructor; lia.
  - vm_compute. reflexivity.
  - cbn [cl_mem demo_cmdline]. apply mapped_store, mapped_store. intros y Hy. rewrite lookup_store.
    unfold CMDLINE_MAX_LEN in Hy. destruct (aget_is_Some (replicate 1024 0) (y - 4096)) as [c Hc].
    + change (alen (replicate 1024 0)) with 1024. lia.
    + rewrite Hc. by exists c.
  - right. vm_compute. reflexivity.
  - split; [vm_compute; tauto|]. repeat constructor; lia.
  - right. vm_compute. reflexivity.
  - discriminate.
  - repeat constructor.
  - exists b, s'. split; [exact H1|exact H2].
Defined.

(** The value cmdline_get_param returns is not ended where its word ends: it
    runs on to the end of the line. *)
Lemma cmdline_value_runs_on m :
  let s := Cmdline (store m 4096 (chars "root=/dev/sda1 quiet" ++ [0])) true in
  cstr (cl_mem s) 4101 (chars "/dev/sda1 quiet").
Proof.
  cbv zeta. split; [|repeat constructor; lia].
  pose proof (block_store m 4096 (chars "root=/dev/sda1 quiet" ++ [0])) as Hb.
  apply (block_app _ 4096 (chars "root=") (chars "/dev/sda1 quiet" ++ [0])) in Hb as [_ Hb]. exact Hb.
Qed.

Lemma cmdline_get_param_value :
  match (cmdline_init 4096 (Some 100) ;; cmdline_get_param 4096 3000 (Some 200))
    (Cmdline (store (store (store ∅ 4096 (replicate 1024 0)) 100 (chars "root=/dev/sda1 quiet" ++ [0])) 200 (chars "root" ++ [0])) false)
  with Some (Some 4101, _) => true | _ => false end = true.
Proof. by vm_compute. Qed.
