(* ===== verification/Block.v ===== *)
(** * Block devices and partitions: model (drivers/block.[ch], drivers/partition.[ch])

    The table of block devices, the checked entry points of the block layer, the
    asynchronous requests, and the partition devices that the layer makes when a
    disk is registered.  The descriptors are kept by kind, in maps from their
    addresses; partition descriptors and requests come from caches of the kernel
    heap.  A buffer of a read or write is the list of bytes it holds; buffers of
    asynchronous requests are bytes of a memory.  What is behind the operations
    of a disk (drivers/virtio) is a parameter, [DiskDriver]. *)

From stdpp Require Import strings.
From S2P Require Import Prelude KHeap CString CFormat.

Definition BLOCK_SECTOR_SIZE : Z := 512.
Definition BLOCK_MAX_DEVICES : Z := 16.
Definition BLOCK_NAME_MAX : Z := 32.

(** ** Data (block.h) *)

Inductive block_req_type := BLOCK_READ | BLOCK_WRITE | BLOCK_FLUSH.

#[export] Instance block_req_type_eq : EqDecision block_req_type.
Proof. solve_decision. Defined.

Record block_request := BlockRequest {
  rq_type : block_req_type;
  rq_sector : Z;
  rq_count : Z;
  rq_buffer : option Z;
  rq_complete : bool;
  rq_status : Z;
  rq_next : option Z;
  rq_callback : option Z;
  rq_callback_ctx : Z }.

Definition set_rq_span (sector count : Z) (r : block_request) : block_request :=
  BlockRequest (rq_type r) sector count (rq_buffer r) (rq_complete r) (rq_status r) (rq_next r)
    (rq_callback r) (rq_callback_ctx r).
Definition set_rq_done (complete : bool) (status : Z) (r : block_request) : block_request :=
  BlockRequest (rq_type r) (rq_sector r) (rq_count r) (rq_buffer r) complete status (rq_next r)
    (rq_callback r) (rq_callback_ctx r).
Definition set_rq_next (n : option Z) (r : block_request) : block_request :=
  BlockRequest (rq_type r) (rq_sector r) (rq_count r) (rq_buffer r) (rq_complete r) (rq_status r) n
    (rq_callback r) (rq_callback_ctx r).
Definition set_rq_callback (c : option Z) (ctx : Z) (r : block_request) : block_request :=
  BlockRequest (rq_type r) (rq_sector r) (rq_count r) (rq_buffer r) (rq_complete r) (rq_status r)
    (rq_next r) c ctx.

(** A pointer to a function of the driver of a disk, or to one of partition.c. *)
Inductive op_fn := DriverFn | PartFn.

Record block_ops := BlockOps {
  ops_read : option op_fn;
  ops_write : option op_fn;
  ops_flush : option op_fn;
  ops_submit : option op_fn;
  ops_poll : option op_fn }.

Record block_device := BlockDevice {
  bd_name : list Z;
  bd_index : Z;
  bd_sector_count : Z;
  bd_sector_size : Z;
  bd_capacity : Z;
  bd_read_only : bool;
  bd_removable : bool;
  bd_async_capable : bool;
  bd_ops : option block_ops;
  bd_queue_head : option Z;
  bd_queue_tail : option Z;
  bd_in_flight : Z;
  bd_read_sectors : Z;
  bd_write_sectors : Z;
  bd_read_ops : Z;
  bd_write_ops : Z;
  bd_private : option Z;
  bd_next : option Z }.

Definition set_bd_stats (rs ws ro wo : Z) (d : block_device) : block_device :=
  BlockDevice (bd_name d) (bd_index d) (bd_sector_count d) (bd_sector_size d) (bd_capacity d)
    (bd_read_only d) (bd_removable d) (bd_async_capable d) (bd_ops d) (bd_queue_head d) (bd_queue_tail d)
    (bd_in_flight d) rs ws ro wo (bd_private d) (bd_next d).
Definition set_bd_capacity (c : Z) (d : block_device) : block_device :=
  BlockDevice (bd_name d) (bd_index d) (bd_sector_count d) (bd_sector_size d) c
    (bd_read_only d) (bd_removable d) (bd_async_capable d) (bd_ops d) (bd_queue_head d) (bd_queue_tail d)
    (bd_in_flight d) (bd_read_sectors d) (bd_write_sectors d) (bd_read_ops d) (bd_write_ops d)
    (bd_private d) (bd_next d).
Definition set_bd_listed (index : Z) (next : option Z) (d : block_device) : block_device :=
  BlockDevice (bd_name d) index (bd_sector_count d) (bd_sector_size d) (bd_capacity d)
    (bd_read_only d) (bd_removable d) (bd_async_capable d) (bd_ops d) (bd_queue_head d) (bd_queue_tail d)
    (bd_in_flight d) (bd_read_sectors d) (bd_write_sectors d) (bd_read_ops d) (bd_write_ops d)
    (bd_private d) next.
Definition set_bd_next (next : option Z) (d : block_device) : block_device :=
  set_bd_listed (bd_index d) next d.
Definition set_bd_queue (head tail : option Z) (d : block_device) : block_device :=
  BlockDevice (bd_name d) (bd_index d) (bd_sector_count d) (bd_sector_size d) (bd_capacity d)
    (bd_read_only d) (bd_removable d) (bd_async_capable d) (bd_ops d) head tail
    (bd_in_flight d) (bd_read_sectors d) (bd_write_sectors d) (bd_read_ops d) (bd_write_ops d)
    (bd_private d) (bd_next d).
Definition set_bd_in_flight (n : Z) (d : block_device) : block_device :=
  BlockDevice (bd_name d) (bd_index d) (bd_sector_count d) (bd_sector_size d) (bd_capacity d)
    (bd_read_only d) (bd_removable d) (bd_async_capable d) (bd_ops d) (bd_queue_head d) (bd_queue_tail d)
    n (bd_read_sectors d) (bd_write_sectors d) (bd_read_ops d) (bd_write_ops d)
    (bd_private d) (bd_next d).

(** ** Data (partition.h) *)

Record partition_dev := PartitionDev {
  pt_parent : Z;
  pt_start_sector : Z;
  pt_sector_count : Z;
  pt_partition_number : Z;
  pt_type : Z;
  pt_is_gpt : bool;
  pt_type_guid : list Z }.

(** The embedded block device of a partition: [&part->dev]. *)
Definition DEV_OFFSET : Z := 48.
Definition part_device (part : Z) : Z := part + DEV_OFFSET.

Definition sizeof_block_request_t : Z := 72.
Definition sizeof_partition_dev_t : Z := 200.
Definition sizeof_gpt_header_t : Z := 92.
Definition sizeof_gpt_partition_t : Z := 128.

Definition MBR_SIGNATURE : Z := 0xAA55.
Definition MBR_TYPE_EMPTY : Z := 0x00.
Definition MBR_TYPE_EXTENDED : Z := 0x05.
Definition MBR_TYPE_EXTENDED_LBA : Z := 0x0F.
Definition MBR_TYPE_GPT_PROTECTIVE : Z := 0xEE.
Definition PARTITION_MAX : Z := 128.
Definition GPT_SIGNATURE : list Z := chars "EFI PART".
Definition GPT_TYPE_UNUSED : list Z := replicate 16 0.
Definition GPT_TYPE_EFI_SYSTEM : list Z :=
  [0x28; 0x73; 0x2A; 0xC1; 0x1F; 0xF8; 0xD2; 0x11; 0xBA; 0x4B; 0x00; 0xA0; 0xC9; 0x3E; 0xC9; 0x3B].
Definition GPT_TYPE_BASIC_DATA : list Z :=
  [0xA2; 0xA0; 0xD0; 0xEB; 0xE5; 0xB9; 0x33; 0x44; 0x87; 0xC0; 0x68; 0xB6; 0xB7; 0x26; 0x99; 0xC7].

Definition partition_ops : block_ops := BlockOps (Some PartFn) (Some PartFn) (Some PartFn) None None.

(** Little-endian fields of a buffer: [n] bytes at [off]; [None] past its end. *)
Definition bytes_at (buf : list Z) (off n : Z) : option (list Z) :=
  if (0 <=? off) && (off + n <=? alen buf) then Some (take (Z.to_nat n) (drop (Z.to_nat off) buf)) else None.

Definition le_at (buf : list Z) (off n : Z) : option Z := le_value <$> bytes_at buf off n.

(** The buffer [old] after [new] was stored at its start. *)
Definition overlay (new old : list Z) : list Z := new ++ drop (length new) old.

(** ** The drivers of disks *)

(** Per device, a read gives the result and the bytes it stored. *)
Class DiskDriver (D : Type) := {
  dd_read : Z → Z → Z → M D (Z * list Z);
  dd_write : Z → Z → Z → list Z → M D Z;
  dd_flush : Z → M D Z;
  dd_submit : Z → Z → block_request → M D Z }.

(** ** State *)

Section block.
Context {H : Type} {KH : KHeap H}.
Context {D : Type} {DD : DiskDriver D}.

Record blk := Blk {
  bk_heap : H;
  bk_disks : D;
  bk_devs : gmap Z block_device;
  bk_parts : gmap Z partition_dev;
  bk_reqs : gmap Z block_request;
  bk_mem : gmap Z Z;
  block_devices : option Z;
  block_device_count : Z;
  block_request_cache : option Z;
  partition_cache : option Z }.

Definition set_bk_heap (x : H) (s : blk) : blk :=
  Blk x (bk_disks s) (bk_devs s) (bk_parts s) (bk_reqs s) (bk_mem s) (block_devices s)
    (block_device_count s) (block_request_cache s) (partition_cache s).
Definition set_bk_disks (x : D) (s : blk) : blk :=
  Blk (bk_heap s) x (bk_devs s) (bk_parts s) (bk_reqs s) (bk_mem s) (block_devices s)
    (block_device_count s) (block_request_cache s) (partition_cache s).
Definition set_bk_devs (x : gmap Z block_device) (s : blk) : blk :=
  Blk (bk_heap s) (bk_disks s) x (bk_parts s) (bk_reqs s) (bk_mem s) (block_devices s)
    (block_device_count s) (block_request_cache s) (partition_cache s).
Definition set_bk_parts (x : gmap Z partition_dev) (s : blk) : blk :=
  Blk (bk_heap s) (bk_disks s) (bk_devs s) x (bk_reqs s) (bk_mem s) (block_devices s)
    (block_device_count s) (block_request_cache s) (partition_cache s).
Definition set_bk_reqs (x : gmap Z block_request) (s : blk) : blk :=
  Blk (bk_heap s) (bk_disks s) (bk_devs s) (bk_parts s) x (bk_mem s) (block_devices s)
    (block_device_count s) (block_request_cache s) (partition_cache s).
Definition set_bk_mem (x : gmap Z Z) (s : blk) : blk :=
  Blk (bk_heap s) (bk_disks s) (bk_devs s) (bk_parts s) (bk_reqs s) x (block_devices s)
    (block_device_count s) (block_request_cache s) (partition_cache s).
Definition set_bk_list (l : option Z) (n : Z) (s : blk) : blk :=
  Blk (bk_heap s) (bk_disks s) (bk_devs s) (bk_parts s) (bk_reqs s) (bk_mem s) l n
    (block_request_cache s) (partition_cache s).
Definition set_bk_caches (r p : option Z) (s : blk) : blk :=
  Blk (bk_heap s) (bk_disks s) (bk_devs s) (bk_parts s) (bk_reqs s) (bk_mem s) (block_devices s)
    (block_device_count s) r p.

Abbreviation BM := (M blk).

Definition on_bk_heap {A} : M H A → BM A := zoom bk_heap set_bk_heap.
Definition on_disks {A} : M D A → BM A := zoom bk_disks set_bk_disks.

Definition rd_dev (d : Z) : BM block_device := s ← get; lift (bk_devs s !! d).
Definition upd_dev (d : Z) (f : block_device → block_device) : BM unit :=
  x ← rd_dev d; modify (λ s, set_bk_devs (<[d := f x]> (bk_devs s)) s).
Definition rd_part (p : option Z) : BM partition_dev :=
  match p with None => fault | Some p => s ← get; lift (bk_parts s !! p) end.
Definition rd_req (r : Z) : BM block_request := s ← get; lift (bk_reqs s !! r).
Definition upd_req (r : Z) (f : block_request → block_request) : BM unit :=
  x ← rd_req r; modify (λ s, set_bk_reqs (<[r := f x]> (bk_reqs s)) s).

(** Bytes of a buffer in memory. *)
Definition rd_buffer (p n : Z) : BM (list Z) :=
  s ← get; mret ((λ i, default 0 (bk_mem s !! (p + Z.of_nat i))) <$> seq 0 (Z.to_nat n)).

Fixpoint put_bytes (m : gmap Z Z) (p : Z) (l : list Z) : gmap Z Z :=
  match l with [] => m | b :: l' => put_bytes (<[p := b]> m) (p + 1) l' end.

Definition wr_buffer (p : Z) (l : list Z) : BM unit := modify (λ s, set_bk_mem (put_bytes (bk_mem s) p l) s).

(** ** The block layer (block.c) *)

Definition block_init : BM unit :=
  c ← on_bk_heap (kh_cache_create "block_request" sizeof_block_request_t 0 0);
  modify (λ s, set_bk_caches c (partition_cache s) s).

Fixpoint find_dev_from (fuel : nat) (name : list Z) (dev : option Z) : BM (option Z) :=
  match dev, fuel with
  | None, _ => mret None
  | Some _, O => fault
  | Some d, S fuel' =>
      x ← rd_dev d;
      if decide (bd_name x = name) then mret (Some d) else find_dev_from fuel' name (bd_next x)
  end.

(** No list of devices is longer than there are devices. *)
Definition devs_fuel : BM nat := gets (λ s, S (size (bk_devs s))).

Definition block_find (name : option (list Z)) : BM (option Z) :=
  match name with
  | None => mret None
  | Some name => s ← get; fuel ← devs_fuel; find_dev_from fuel name (block_devices s)
  end.

(** part_read and part_write, over block_read and block_write of the parent. *)
Definition part_read (read : option Z → Z → Z → bool → BM (Z * list Z)) (dev sector count : Z) (buf : bool) :
    BM (Z * list Z) :=
  d ← rd_dev dev;
  part ← rd_part (bd_private d);
  if pt_sector_count part <? (sector +u64 count) then mret (-1, [])
  else read (Some (pt_parent part)) (pt_start_sector part +u64 sector) count buf.

Definition part_write (write : option Z → Z → Z → option (list Z) → BM Z) (dev sector count : Z)
    (buf : option (list Z)) : BM Z :=
  d ← rd_dev dev;
  part ← rd_part (bd_private d);
  if pt_sector_count part <? (sector +u64 count) then mret (-1)
  else write (Some (pt_parent part)) (pt_start_sector part +u64 sector) count buf.

Definition part_flush (flush : option Z → BM Z) (dev : Z) : BM Z :=
  d ← rd_dev dev; part ← rd_part (bd_private d); flush (Some (pt_parent part)).

(** A partition calls back into the layer for its parent: no more than [n] deep.
    [buf]: whether the buffer is not NULL. *)
Fixpoint block_read_n (n : nat) (dev : option Z) (sector count : Z) (buf : bool) : BM (Z * list Z) :=
  match dev, n with
  | None, _ => mret (-22, [])
  | Some _, O => fault
  | Some d, S n' =>
      if negb buf || (count =? 0) then mret (-22, []) else
      x ← rd_dev d;
      if bd_sector_count x <? (sector +u64 count) then mret (-22, []) else
      match bd_ops x with
      | None => mret (-5, [])
      | Some o =>
          match ops_read o with
          | None => mret (-5, [])
          | Some fn =>
              res ← match fn with
                    | DriverFn => on_disks (dd_read d sector count)
                    | PartFn => part_read (block_read_n n') d sector count buf
                    end;
              (if res.1 =? 0
               then upd_dev d (λ x, set_bd_stats (bd_read_sectors x +u64 count) (bd_write_sectors x)
                                      (bd_read_ops x +u64 1) (bd_write_ops x) x)
               else mret tt) ;;
              mret res
          end
      end
  end.

Fixpoint block_write_n (n : nat) (dev : option Z) (sector count : Z) (buf : option (list Z)) : BM Z :=
  match dev, n with
  | None, _ => mret (-22)
  | Some _, O => fault
  | Some d, S n' =>
      match buf with
      | None => mret (-22)
      | Some data =>
          if count =? 0 then mret (-22) else
          x ← rd_dev d;
          if bd_read_only x then mret (-30) else
          if bd_sector_count x <? (sector +u64 count) then mret (-22) else
          match bd_ops x with
          | None => mret (-5)
          | Some o =>
              match ops_write o with
              | None => mret (-5)
              | Some fn =>
                  res ← match fn with
                        | DriverFn => on_disks (dd_write d sector count data)
                        | PartFn => part_write (block_write_n n') d sector count buf
                        end;
                  (if res =? 0
                   then upd_dev d (λ x, set_bd_stats (bd_read_sectors x) (bd_write_sectors x +u64 count)
                                          (bd_read_ops x) (bd_write_ops x +u64 1) x)
                   else mret tt) ;;
                  mret res
              end
          end
      end
  end.

Fixpoint block_flush_n (n : nat) (dev : option Z) : BM Z :=
  match dev, n with
  | None, _ => mret (-22)
  | Some _, O => fault
  | Some d, S n' =>
      x ← rd_dev d;
      match bd_ops x with
      | None => mret 0
      | Some o =>
          match ops_flush o with
          | None => mret 0
          | Some DriverFn => on_disks (dd_flush d)
          | Some PartFn => part_flush (block_flush_n n') d
          end
      end
  end.

Definition block_read (dev : option Z) (sector count : Z) (buf : bool) : BM (Z * list Z) :=
  n ← devs_fuel; block_read_n n dev sector count buf.
Definition block_write (dev : option Z) (sector count : Z) (buf : option (list Z)) : BM Z :=
  n ← devs_fuel; block_write_n n dev sector count buf.
Definition block_flush (dev : option Z) : BM Z := n ← devs_fuel; block_flush_n n dev.

(** *** Registration *)

(** [snprintf(part->dev.name, BLOCK_NAME_MAX, "%s%d", parent->name, num)] *)
Definition partition_name (parent : list Z) (num : Z) : list Z :=
  take (Z.to_nat (BLOCK_NAME_MAX - 1))
    (default [] (render (chars "%s%d") [FStr (Some parent); FInt num])).

Definition free_part (x : Z) : BM unit :=
  c ← gets partition_cache;
  on_bk_heap (kmem_free c x) ;;
  modify (λ s, set_bk_devs (delete (part_device x) (bk_devs s)) (set_bk_parts (delete x (bk_parts s)) s)).

Section scan.
Context (register : option Z → BM Z).

Definition partition_create (parent num start count type : Z) (is_gpt : bool) (type_guid : option (list Z)) :
    BM (option Z) :=
  c ← gets partition_cache;
  r ← on_bk_heap (kmem_alloc c);
  match r with
  | None => mret None
  | Some part =>
      d ← rd_dev parent;
      let p := PartitionDev parent start count (wrap8 num) type is_gpt (default (replicate 16 0) type_guid) in
      let dev := BlockDevice (partition_name (bd_name d) num) (bd_index d * 16 +u32 num) count
                   (bd_sector_size d) (count *u64 bd_sector_size d) (bd_read_only d) (bd_removable d) false
                   (Some partition_ops) None None 0 0 0 0 0 (Some part) None in
      modify (λ s, set_bk_devs (<[part_device part := dev]> (bk_devs s))
                     (set_bk_parts (<[part := p]> (bk_parts s)) s)) ;;
      r ← register (Some (part_device part));
      if negb (r =? 0) then free_part part ;; mret None
      else mret (Some part)
  end.

(** The entries [i], ..., 3 of the table; [None] stands for -1, a GPT disk. *)
Fixpoint mbr_entries (n : nat) (i : Z) (dev : Z) (mbr : list Z) (count : Z) : BM (option Z) :=
  match n with
  | O => mret (Some count)
  | S n' =>
      let entry := 446 + 16 * i in
      type ← lift (le_at mbr (entry + 4) 1);
      if type =? MBR_TYPE_EMPTY then mbr_entries n' (i + 1) dev mbr count else
      if (type =? MBR_TYPE_EXTENDED) || (type =? MBR_TYPE_EXTENDED_LBA)
      then mbr_entries n' (i + 1) dev mbr count else
      if type =? MBR_TYPE_GPT_PROTECTIVE then mret None else
      start_lba ← lift (le_at mbr (entry + 8) 4);
      sector_count ← lift (le_at mbr (entry + 12) 4);
      if (start_lba =? 0) || (sector_count =? 0) then mbr_entries n' (i + 1) dev mbr count else
      let end_ := start_lba +u64 sector_count in
      d ← rd_dev dev;
      if bd_sector_count d <? end_ then mbr_entries n' (i + 1) dev mbr count else
      part ← partition_create dev (i + 1) start_lba sector_count type false None;
      mbr_entries n' (i + 1) dev mbr (match part with Some _ => count + 1 | None => count end)
  end.

Definition mbr_scan (dev : Z) (mbr : list Z) : BM (option Z) := mbr_entries 4 0 dev mbr 0.

Definition guid_equal (a b : list Z) : bool := bool_decide (a = b).

(** The loop over the entries from [i] on, with [n] to go; [sector] is the buffer. *)
Fixpoint gpt_entries (n : nat) (i : Z) (dev table_lba entry_size per_sector : Z) (sector : list Z)
    (count part_num : Z) : BM Z :=
  match n with
  | O => mret count
  | S n' =>
      buf ← (if i mod per_sector =? 0 then
               r ← block_read (Some dev) (table_lba +u64 (i / per_sector)) 1 true;
               mret (if r.1 =? 0 then Some (overlay r.2 sector) else None)
             else mret (Some sector));
      match buf with
      | None => mret count
      | Some sector =>
          let offset := (i mod per_sector) * entry_size in
          type_guid ← lift (bytes_at sector offset 16);
          if guid_equal type_guid GPT_TYPE_UNUSED
          then gpt_entries n' (i + 1) dev table_lba entry_size per_sector sector count part_num else
          first_lba ← lift (le_at sector (offset + 32) 8);
          last_lba ← lift (le_at sector (offset + 40) 8);
          if (first_lba =? 0) || (last_lba <? first_lba)
          then gpt_entries n' (i + 1) dev table_lba entry_size per_sector sector count part_num else
          let sector_count := last_lba - first_lba + 1 in
          let type := if guid_equal type_guid GPT_TYPE_EFI_SYSTEM then 0xEF
                      else if guid_equal type_guid GPT_TYPE_BASIC_DATA then 0x0C else 0x83 in
          part ← partition_create dev part_num first_lba (wrap64 sector_count) type true (Some type_guid);
          match part with
          | Some _ => gpt_entries n' (i + 1) dev table_lba entry_size per_sector sector (count + 1) (part_num + 1)
          | None => gpt_entries n' (i + 1) dev table_lba entry_size per_sector sector count part_num
          end
      end
  end.

(** [None] stands for -1. *)
Definition gpt_scan (dev : Z) : BM (option Z) :=
  d ← rd_dev dev;
  b ← on_bk_heap (kh_kmalloc (bd_sector_size d));
  match b with
  | None => mret None
  | Some sector =>
      r ← block_read (Some dev) 1 1 true;
      if negb (r.1 =? 0) then on_bk_heap (kh_kfree sector) ;; mret None else
      let header := overlay r.2 [] in
      signature ← lift (bytes_at header 0 8);
      if negb (bool_decide (signature = GPT_SIGNATURE)) then on_bk_heap (kh_kfree sector) ;; mret None else
      header_size ← lift (le_at header 12 4);
      entry_size ← lift (le_at header 84 4);
      if (header_size <? sizeof_gpt_header_t) || (entry_size <? sizeof_gpt_partition_t)
      then on_bk_heap (kh_kfree sector) ;; mret None else
      num_entries ← lift (le_at header 80 4);
      table_lba ← lift (le_at header 72 8);
      let num_entries := if PARTITION_MAX <? num_entries then PARTITION_MAX else num_entries in
      let per_sector := bd_sector_size d / entry_size in
      if per_sector =? 0 then on_bk_heap (kh_kfree sector) ;; mret None else
      count ← gpt_entries (Z.to_nat num_entries) 0 dev table_lba entry_size per_sector header 0 1;
      on_bk_heap (kh_kfree sector) ;;
      mret (Some count)
  end.

Definition partition_scan (dev : option Z) : BM Z :=
  match dev with
  | None => mret (-1)
  | Some dev =>
      d ← rd_dev dev;
      b ← on_bk_heap (kh_kmalloc (bd_sector_size d));
      match b with
      | None => mret (-1)
      | Some sector =>
          r ← block_read (Some dev) 0 1 true;
          if negb (r.1 =? 0) then on_bk_heap (kh_kfree sector) ;; mret (-1) else
          let mbr := overlay r.2 [] in
          signature ← lift (le_at mbr 510 2);
          if negb (signature =? MBR_SIGNATURE) then on_bk_heap (kh_kfree sector) ;; mret 0 else
          count ← mbr_scan dev mbr;
          on_bk_heap (kh_kfree sector) ;;
          match count with
          | Some count => mret count
          | None => count ← gpt_scan dev; mret (match count with Some count => count | None => 0 end)
          end
      end
  end.

End scan.

(** A character from 0 to 9. *)
Definition is_digit (c : Z) : bool := (48 <=? c) && (c <=? 57).

(** Registering a disk registers its partitions: no more than [n] deep. *)
Fixpoint block_register_n (n : nat) (dev : option Z) : BM Z :=
  match dev, n with
  | None, _ => mret (-22)
  | Some _, O => fault
  | Some d, S n' =>
      x ← rd_dev d;
      match last (bd_name x) with
      | None => mret (-22)
      | Some c =>
          f ← block_find (Some (bd_name x));
          match f with
          | Some _ => mret (-17)
          | None =>
              s ← get;
              if BLOCK_MAX_DEVICES <=? block_device_count s then mret (-28) else
              (if (bd_capacity x =? 0) && (0 <? bd_sector_count x)
               then upd_dev d (set_bd_capacity (bd_sector_count x *u64 bd_sector_size x))
               else mret tt) ;;
              upd_dev d (set_bd_listed (block_device_count s) (block_devices s)) ;;
              modify (set_bk_list (Some d) (block_device_count s +u32 1)) ;;
              (if negb (is_digit c) then partition_scan (block_register_n n') (Some d) ;; mret tt else mret tt) ;;
              mret 0
          end
      end
  end.

(** A partition of a disk has a name that ends in a digit, so that it is not
    scanned for partitions in turn: two levels are enough. *)
Definition block_register (dev : option Z) : BM Z := block_register_n 2 dev.

(** [while ( *pp ) ...]: [pp] is the list head ([None]) or the next of a device. *)
Definition wr_link (pp : option Z) (v : option Z) : BM unit :=
  match pp with
  | None => modify (λ s, set_bk_list v (block_device_count s) s)
  | Some d => upd_dev d (set_bd_next v)
  end.

Fixpoint unregister_from (fuel : nat) (dev : Z) (pp cur : option Z) : BM unit :=
  match cur, fuel with
  | None, _ => mret tt
  | Some _, O => fault
  | Some c, S fuel' =>
      x ← rd_dev c;
      if decide (c = dev) then
        wr_link pp (bd_next x) ;;
        modify (λ s, set_bk_list (block_devices s) (block_device_count s -u32 1) s)
      else unregister_from fuel' dev (Some c) (bd_next x)
  end.

Definition block_unregister (dev : option Z) : BM unit :=
  match dev with
  | None => mret tt
  | Some d => s ← get; fuel ← devs_fuel; unregister_from fuel d None (block_devices s)
  end.

Definition partition_init : BM unit :=
  c ← on_bk_heap (kh_cache_create "partition_dev" sizeof_partition_dev_t 8 0);
  modify (λ s, set_bk_caches (block_request_cache s) c s).

(** *** Requests *)

Definition block_request_alloc : BM (option Z) :=
  c ← gets block_request_cache;
  match c with
  | None => mret None
  | Some c =>
      r ← on_bk_heap (kh_cache_alloc c);
      match r with
      | None => mret None
      | Some x =>
          modify (λ s, set_bk_reqs (<[x := BlockRequest BLOCK_READ 0 0 None false 0 None None 0]> (bk_reqs s)) s) ;;
          mret (Some x)
      end
  end.

Definition block_request_free (req : option Z) : BM unit :=
  c ← gets block_request_cache;
  match req, c with
  | Some r, Some c => on_bk_heap (kh_cache_free c r) ;; modify (λ s, set_bk_reqs (delete r (bk_reqs s)) s)
  | _, _ => mret tt
  end.

(** The switch of block_submit and block_submit_async. *)
Definition sync_io (dev : Z) (r : block_request) : BM Z :=
  match rq_type r with
  | BLOCK_READ =>
      res ← block_read (Some dev) (rq_sector r) (rq_count r) (match rq_buffer r with Some _ => true | None => false end);
      (match rq_buffer r with Some p => wr_buffer p res.2 | None => mret tt end) ;;
      mret res.1
  | BLOCK_WRITE =>
      d ← rd_dev dev;
      data ← match rq_buffer r with
             | Some p => l ← rd_buffer p (rq_count r * bd_sector_size d); mret (Some l)
             | None => mret None
             end;
      block_write (Some dev) (rq_sector r) (rq_count r) data
  | BLOCK_FLUSH => block_flush (Some dev)
  end.

(** The driver's own submit, where it has one. *)
Definition driver_submit (d : block_device) : bool :=
  match bd_ops d with Some o => match ops_submit o with Some _ => true | None => false end | None => false end.

Definition block_submit (dev req : option Z) : BM Z :=
  match dev, req with
  | Some dev, Some req =>
      d ← rd_dev dev;
      r ← rd_req req;
      if driver_submit d then on_disks (dd_submit dev req r)
      else
        result ← sync_io dev r;
        upd_req req (set_rq_done true result) ;;
        mret result
  | _, _ => mret (-22)
  end.

(** block_wait of a request that is complete; of one that is not, it does not
    return. *)
Definition block_wait (req : option Z) : BM Z :=
  match req with
  | None => mret (-22)
  | Some req => r ← rd_req req; if rq_complete r then mret (rq_status r) else fault
  end.

Definition block_queue_add_locked (dev req : Z) : BM unit :=
  upd_req req (set_rq_next None) ;;
  d ← rd_dev dev;
  match bd_queue_tail d with
  | Some tail =>
      upd_req tail (set_rq_next (Some req)) ;;
      upd_dev dev (λ d, set_bd_queue (bd_queue_head d) (Some req) d)
  | None => upd_dev dev (set_bd_queue (Some req) (Some req))
  end.

Definition block_queue_pop_locked (dev : Z) : BM (option Z) :=
  d ← rd_dev dev;
  match bd_queue_head d with
  | None => mret None
  | Some req =>
      r ← rd_req req;
      upd_dev dev (λ d, set_bd_queue (rq_next r) (match rq_next r with None => None | _ => bd_queue_tail d end) d) ;;
      upd_req req (set_rq_next None) ;;
      mret (Some req)
  end.

Section callbacks.
(** What a completion callback does, given its address, the request and its context. *)
Context (call : Z → Z → Z → BM unit).

Definition run_callback (req : Z) : BM unit :=
  r ← rd_req req;
  match rq_callback r with None => mret tt | Some f => call f req (rq_callback_ctx r) end.

Definition block_submit_async (dev req callback : option Z) (ctx : Z) : BM Z :=
  match dev, req with
  | Some dev, Some req =>
      upd_req req (λ r, set_rq_done false 0 (set_rq_callback callback ctx r)) ;;
      block_queue_add_locked dev req ;;
      upd_dev dev (λ d, set_bd_in_flight (bd_in_flight d +u32 1) d) ;;
      d ← rd_dev dev;
      r ← rd_req req;
      if driver_submit d then on_disks (dd_submit dev req r)
      else
        result ← sync_io dev r;
        upd_req req (set_rq_done true result) ;;
        run_callback req ;;
        upd_dev dev (λ d, set_bd_in_flight (bd_in_flight d -u32 1) d) ;;
        mret result
  | _, _ => mret (-22)
  end.

Definition block_complete (dev req : option Z) : BM unit :=
  match dev, req with
  | Some dev, Some req =>
      upd_req req (λ r, set_rq_done true (rq_status r) r) ;;
      run_callback req ;;
      d ← rd_dev dev;
      if 0 <? bd_in_flight d then upd_dev dev (set_bd_in_flight (bd_in_flight d - 1)) else mret tt
  | _, _ => mret tt
  end.

End callbacks.
End block.

Arguments blk H D : clear implicits.
