(* ===== verification/BlockIO.v ===== *)
(** * Block devices: reading and writing

    What a driver promises about the sectors of its disk ([DiskLaws]), and what
    the block layer makes of it: a read or write of a disk or of a partition
    reaches exactly the sectors asked for, of exactly one disk, and leaves all
    else as it is but for the statistics. *)

From stdpp Require Import gmap list numbers.
From S2P Require Import Prelude KHeap Block.

(** ** What is relied on of a driver *)

(** [dd_data d dev t]: the bytes of sector [t] of the disk behind the device [dev]. *)
Class DiskLaws (D : Type) `{DD : DiskDriver D} := {
  dd_data : D → Z → Z → list Z;
  dd_sector_size : Z → Z;
  dd_sector_len d dev t : alen (dd_data d dev t) = dd_sector_size dev;
  dd_bytes d dev t : Forall (λ b, 0 ≤ b < 256) (dd_data d dev t);
  dd_read_law d dev sector count : 0 ≤ sector → 0 < count →
    wp (dd_read dev sector count) (λ r d', (∀ x t, dd_data d' x t = dd_data d x t) ∧
      (r.1 = 0 → r.2 = mjoin (dd_data d dev <$> seqZ sector count))) d;
  dd_write_law d dev sector count data : 0 ≤ sector → 0 < count →
    alen data = count * dd_sector_size dev →
    wp (dd_write dev sector count data) (λ r d',
      (∀ x t, x ≠ dev ∨ ¬ (sector ≤ t < sector + count) → dd_data d' x t = dd_data d x t) ∧
      (r = 0 → mjoin (dd_data d' dev <$> seqZ sector count) = data)) d;
  dd_flush_law d dev : wp (dd_flush dev) (λ _ d', ∀ x t, dd_data d' x t = dd_data d x t) d }.

(** ** Devices up to their statistics *)

Definition still (x : block_device) : block_device := set_bd_stats 0 0 0 0 x.

Section io.
Context {H : Type} {KH : KHeap H}.
Context {D : Type} {DD : DiskDriver D} {DL : DiskLaws D}.
Implicit Types (s : blk H D) (d p : Z) (x y : block_device) (part : partition_dev) (n : nat).

(** From [s] to [s'] nothing changed but the disks and the statistics. *)
Record only_io s s' : Prop := OnlyIo {
  oi_heap : bk_heap s' = bk_heap s;
  oi_devs : ∀ d, still <$> bk_devs s' !! d = still <$> bk_devs s !! d;
  oi_parts : bk_parts s' = bk_parts s;
  oi_reqs : bk_reqs s' = bk_reqs s;
  oi_mem : bk_mem s' = bk_mem s;
  oi_list : block_devices s' = block_devices s;
  oi_count : block_device_count s' = block_device_count s;
  oi_rcache : block_request_cache s' = block_request_cache s;
  oi_pcache : partition_cache s' = partition_cache s }.

#[global] Instance only_io_preorder : PreOrder only_io.
Proof.
  split; [by split|]. intros s1 s2 s3 [A1 A2 A3 A4 A5 A6 A7 A8 A9] [B1 B2 B3 B4 B5 B6 B7 B8 B9].
  split; congruence.
Qed.

Lemma only_io_dev s s' d x :
  only_io s s' → bk_devs s !! d = Some x → ∃ y, bk_devs s' !! d = Some y ∧ still y = still x.
Proof.
  intros Ho Hx. pose proof (oi_devs _ _ Ho d) as He. rewrite Hx in He.
  destruct (bk_devs s' !! d) as [y|]; [|done]. exists y. split; [done|]. cbn in He. congruence.
Qed.

Lemma still_stats x a b c e : still (set_bd_stats a b c e x) = still x.
Proof. done. Qed.

Lemma still_eq x y : still y = still x →
  bd_name y = bd_name x ∧ bd_sector_count y = bd_sector_count x ∧ bd_sector_size y = bd_sector_size x ∧
  bd_read_only y = bd_read_only x ∧ bd_ops y = bd_ops x ∧ bd_private y = bd_private x ∧ bd_next y = bd_next x.
Proof. destruct x, y. cbn. intros [=]. by split_and!. Qed.

Lemma only_io_stats s dk d x a b c e :
  bk_devs s !! d = Some x →
  only_io s (set_bk_devs (<[d := set_bd_stats a b c e x]> (bk_devs s)) (set_bk_disks dk s)).
Proof.
  intros Hx. split; try done. cbn. intros d'. destruct (decide (d' = d)) as [->|].
  - by rewrite lookup_insert_eq, Hx.
  - by rewrite lookup_insert_ne.
Qed.

Lemma only_io_disks s dk : only_io s (set_bk_disks dk s).
Proof. by split. Qed.

(** The contents of the disks are the same. *)
Definition same_data s s' : Prop := ∀ d t, dd_data (bk_disks s') d t = dd_data (bk_disks s) d t.

(** ** Disks and partitions *)

Record disk_dev x : Prop := DiskDev {
  dk_read : (bd_ops x ≫= ops_read) = Some DriverFn;
  dk_write : (bd_ops x ≫= ops_write) = Some DriverFn }.

(** The device [d] is the partition [part], of the disk with descriptor [y]. *)
Record part_dev s d x part y : Prop := PartDev {
  pd_dev : bk_devs s !! d = Some x;
  pd_ops : bd_ops x = Some partition_ops;
  pd_part : ∃ p, bd_private x = Some p ∧ bk_parts s !! p = Some part;
  pd_count : pt_sector_count part = bd_sector_count x;
  pd_parent : bk_devs s !! pt_parent part = Some y;
  pd_disk : disk_dev y;
  pd_ne : pt_parent part ≠ d }.

Lemma disk_dev_still x y : still y = still x → disk_dev x → disk_dev y.
Proof. intros (_ & _ & _ & _ & Ho & _)%still_eq [Hr Hw]. split; by rewrite Ho. Qed.

Lemma part_dev_io s s' d x part y :
  only_io s s' → part_dev s d x part y → ∃ x' y', still x' = still x ∧ still y' = still y ∧ part_dev s' d x' part y'.
Proof.
  intros Ho [Hx Hops (p & Hp & Hpart) Hc Hy Hdk Hne].
  destruct (only_io_dev _ _ _ _ Ho Hx) as (x' & Hx' & Ex), (only_io_dev _ _ _ _ Ho Hy) as (y' & Hy' & Ey).
  exists x', y'. split_and!; [done..|]. destruct (still_eq _ _ Ex) as (_ & Ec & _ & _ & Eo & Ep & _).
  split; [done|by rewrite Eo| |by rewrite Ec|done|by eapply disk_dev_still|done].
  exists p. split; [by rewrite Ep|by rewrite (oi_parts _ _ Ho)].
Qed.

(** ** The driver is called *)

Lemma upd_dev_wp s d x f (Q : unit → blk H D → Prop) :
  bk_devs s !! d = Some x → Q tt (set_bk_devs (<[d := f x]> (bk_devs s)) s) → wp (upd_dev d f) Q s.
Proof. intros Hx HQ. unfold upd_dev, rd_dev. wp_step. wp_step. wp_step. eapply wp_lift; [exact Hx|]. by wp_step. Qed.

Lemma rd_dev_wp s d x (Q : block_device → blk H D → Prop) : bk_devs s !! d = Some x → Q x s → wp (rd_dev d) Q s.
Proof. intros Hx HQ. unfold rd_dev. wp_step. wp_step. by eapply wp_lift. Qed.

Lemma disk_read_wp n s d x sector count (Q : Z * list Z → blk H D → Prop) :
  bk_devs s !! d = Some x → disk_dev x → 0 ≤ sector → 0 < count →
  (bd_sector_count x < sector +u64 count → Q (-22, []) s) →
  (∀ r s', only_io s s' → same_data s s' → sector +u64 count ≤ bd_sector_count x →
     (r.1 = 0 → r.2 = mjoin (dd_data (bk_disks s) d <$> seqZ sector count)) → Q r s') →
  wp (block_read_n (S n) (Some d) sector count true) Q s.
Proof.
  intros Hx [Hr _] Hs Hc HE HQ. cbn [block_read_n negb orb]. rewrite (proj2 (Z.eqb_neq count 0)) by lia.
  wp_step. apply (rd_dev_wp _ _ x); [done|].
  destruct (Z.ltb_spec (bd_sector_count x) (sector +u64 count)) as [Hlt|Hle].
  { apply wp_ret. by apply HE. }
  destruct (bd_ops x) as [o|] eqn:Ho; [|done]. cbn in Hr. rewrite Hr. wp_step. unfold on_disks. apply wp_zoom.
  eapply wp_mono; [by apply dd_read_law|]. cbn beta. intros r dk [Hd Hv]. wp_step.
  destruct (Z.eqb_spec r.1 0) as [H0|H0].
  - apply (upd_dev_wp _ _ x); [done|]. apply wp_ret. apply HQ; [exact (only_io_stats s dk d x _ _ _ _ Hx)| |done|done].
    intros d' t. apply Hd.
  - apply wp_ret, wp_ret. apply HQ; [by apply only_io_disks| |done|done]. intros d' t. apply Hd.
Qed.

(** The contents of the disks are the same but for [count] sectors of [d]. *)
Definition disk_written s s' d sector count : Prop := ∀ d' t,
  d' ≠ d ∨ ¬ (sector ≤ t < sector + count) → dd_data (bk_disks s') d' t = dd_data (bk_disks s) d' t.

Lemma disk_write_wp n s d x sector count data (Q : Z → blk H D → Prop) :
  bk_devs s !! d = Some x → disk_dev x → 0 ≤ sector → 0 < count → alen data = count * dd_sector_size d →
  (bd_read_only x = true → Q (-30) s) →
  (bd_read_only x = false → bd_sector_count x < sector +u64 count → Q (-22) s) →
  (∀ r s', only_io s s' → disk_written s s' d sector count → sector +u64 count ≤ bd_sector_count x →
     (r = 0 → mjoin (dd_data (bk_disks s') d <$> seqZ sector count) = data) → Q r s') →
  wp (block_write_n (S n) (Some d) sector count (Some data)) Q s.
Proof.
  intros Hx [_ Hr] Hs Hc Hdata HR HE HQ. cbn [block_write_n]. rewrite (proj2 (Z.eqb_neq count 0)) by lia.
  wp_step. apply (rd_dev_wp _ _ x); [done|]. destruct (bd_read_only x) eqn:Hro; [by apply wp_ret, HR|].
  destruct (Z.ltb_spec (bd_sector_count x) (sector +u64 count)) as [Hlt|Hle].
  { apply wp_ret. by apply HE. }
  destruct (bd_ops x) as [o|] eqn:Ho; [|done]. cbn in Hr. rewrite Hr. wp_step. unfold on_disks. apply wp_zoom.
  eapply wp_mono; [by apply dd_write_law|]. cbn beta. intros r dk [Hd Hv]. wp_step.
  destruct (Z.eqb_spec r 0) as [H0|H0].
  - apply (upd_dev_wp _ _ x); [done|]. apply wp_ret. apply HQ; [exact (only_io_stats s dk d x _ _ _ _ Hx)| |done|done].
    intros d' t Ht. by apply Hd.
  - apply wp_ret, wp_ret. apply HQ; [by apply only_io_disks| |done|done]. intros d' t Ht. by apply Hd.
Qed.

(** ** Through a partition *)

(** The sectors of a partition are sectors of the disk that have numbers. *)
Definition part_placed part : Prop :=
  0 ≤ pt_start_sector part ∧ 0 ≤ pt_sector_count part ∧ pt_start_sector part + pt_sector_count part ≤ 2 ^ 64.

(** A partition and its disk are two devices: the fuel is enough. *)
Lemma part_fuel s d x part y : part_dev s d x part y → ∃ n, size (bk_devs s) = S (S n).
Proof.
  intros [Hx _ _ _ Hy _ Hne]. pose proof (nodup_size (bk_devs s) [d; pt_parent part]) as Hn. cbn in Hn.
  exists (size (bk_devs s) - 2)%nat. enough (2 ≤ size (bk_devs s))%nat by lia. apply Hn.
  - repeat constructor; set_solver.
  - intros z [->|[->|[]%not_elem_of_nil]%elem_of_cons]%elem_of_cons; by eexists.
Qed.

Lemma rd_part_wp s p part (Q : partition_dev → blk H D → Prop) :
  bk_parts s !! p = Some part → Q part s → wp (rd_part (Some p)) Q s.
Proof. intros Hp HQ. unfold rd_part. wp_step. wp_step. by eapply wp_lift. Qed.

(** The statistics of a device after an operation that gave [ok]. *)
Lemma account_wp s s1 d x (ok : bool) f (Q : unit → blk H D → Prop) :
  bk_devs s !! d = Some x → only_io s s1 → (∀ z, still (f z) = still z) →
  (∀ s', only_io s s' → bk_disks s' = bk_disks s1 → Q tt s') →
  wp (if ok then upd_dev d f else mret tt) Q s1.
Proof.
  intros Hx Ho Hf HQ. destruct ok; [|by apply wp_ret, HQ].
  destruct (only_io_dev _ _ _ _ Ho Hx) as (z & Hz & Ez). apply (upd_dev_wp _ _ z); [done|].
  apply HQ; [|done]. transitivity s1; [done|]. split; try done. cbn. intros d'.
  destruct (decide (d' = d)) as [->|]; [|by rewrite lookup_insert_ne]. rewrite lookup_insert_eq, Hz. cbn. by rewrite Hf.
Qed.

Lemma part_read_wp s d x part y sector count (Q : Z * list Z → blk H D → Prop) :
  part_dev s d x part y → part_placed part → 0 ≤ sector → 0 < count → sector + count < 2 ^ 64 →
  (pt_sector_count part < sector + count → Q (-22, []) s) →
  (∀ r s', only_io s s' → same_data s s' → sector + count ≤ pt_sector_count part →
     (r.1 = 0 → r.2 = mjoin (dd_data (bk_disks s) (pt_parent part) <$> seqZ (pt_start_sector part + sector) count)) →
     Q r s') →
  wp (block_read (Some d) sector count true) Q s.
Proof.
  intros Hp (P1 & P2 & P3) Hs Hc Hw HE HQ. destruct (part_fuel _ _ _ _ _ Hp) as (n & Hn).
  pose proof Hp as [Hx Hops (p & Hpp & Hpart) Hpc Hy Hdk Hne].
  unfold block_read, devs_fuel. wp_step. apply wp_gets. rewrite Hn.
  cbn [block_read_n negb orb]. rewrite (proj2 (Z.eqb_neq count 0)) by lia.
  wp_step. apply (rd_dev_wp _ _ x); [done|]. rewrite (wrap_small 64 (sector + count)), <-Hpc by lia.
  destruct (Z.ltb_spec (pt_sector_count part) (sector + count)) as [Hlt|Hle]; [by apply wp_ret, HE|].
  rewrite Hops. cbn [ops_read partition_ops]. wp_step. unfold part_read.
  wp_step. apply (rd_dev_wp _ _ x); [done|]. rewrite Hpp. wp_step. apply (rd_part_wp _ _ part); [done|].
  rewrite (wrap_small 64 (sector + count)), (proj2 (Z.ltb_ge _ _) Hle) by lia.
  rewrite (wrap_small 64 (pt_start_sector part + sector)) by lia.
  apply (disk_read_wp (S n) s (pt_parent part) y); [done|done|lia|lia| |].
  - intros _. wp_step. cbn [fst Z.eqb]. apply wp_ret, wp_ret. by apply HQ.
  - intros r s1 Ho Hd _ Hr. wp_step. apply (account_wp s s1 d x); [done|done|done|].
    intros s' Ho' Hd'. apply wp_ret. apply HQ; [done| |done|done]. intros z t. rewrite Hd'. apply Hd.
Qed.

Lemma part_write_wp s d x part y sector count data (Q : Z → blk H D → Prop) :
  part_dev s d x part y → part_placed part → 0 ≤ sector → 0 < count → sector + count < 2 ^ 64 →
  alen data = count * dd_sector_size (pt_parent part) →
  (bd_read_only x = true ∨ pt_sector_count part < sector + count → ∀ r, r ≠ 0 → Q r s) →
  (∀ r s', only_io s s' → disk_written s s' (pt_parent part) (pt_start_sector part + sector) count →
     bd_read_only x = false → sector + count ≤ pt_sector_count part →
     (r = 0 → mjoin (dd_data (bk_disks s') (pt_parent part) <$> seqZ (pt_start_sector part + sector) count) = data) →
     Q r s') →
  wp (block_write (Some d) sector count (Some data)) Q s.
Proof.
  intros Hp (P1 & P2 & P3) Hs Hc Hw Hdata HE HQ. destruct (part_fuel _ _ _ _ _ Hp) as (n & Hn).
  pose proof Hp as [Hx Hops (p & Hpp & Hpart) Hpc Hy Hdk Hne].
  unfold block_write, devs_fuel. wp_step. apply wp_gets. rewrite Hn.
  cbn [block_write_n]. rewrite (proj2 (Z.eqb_neq count 0)) by lia.
  wp_step. apply (rd_dev_wp _ _ x); [done|]. destruct (bd_read_only x) eqn:Hro; [by apply wp_ret, HE; [left|]|].
  rewrite (wrap_small 64 (sector + count)), <-Hpc by lia.
  destruct (Z.ltb_spec (pt_sector_count part) (sector + count)) as [Hlt|Hle]; [by apply wp_ret, HE; [right|]|].
  rewrite Hops. cbn [ops_write partition_ops]. wp_step. unfold part_write.
  wp_step. apply (rd_dev_wp _ _ x); [done|]. rewrite Hpp. wp_step. apply (rd_part_wp _ _ part); [done|].
  rewrite (wrap_small 64 (sector + count)), (proj2 (Z.ltb_ge _ _) Hle) by lia.
  rewrite (wrap_small 64 (pt_start_sector part + sector)) by lia.
  assert (∀ r, r ≠ 0 → Q r s) as Hfail.
  { intros r Hr. apply HQ; [done|by intros z t _|done..]. }
  apply (disk_write_wp (S n) s (pt_parent part) y); [done|done|lia|lia|done| | |].
  - intros _. wp_step. cbn [Z.eqb]. apply wp_ret, wp_ret. by apply Hfail.
  - intros _ _. wp_step. cbn [Z.eqb]. apply wp_ret, wp_ret. by apply Hfail.
  - intros r s1 Ho Hd _ Hr. wp_step. apply (account_wp s s1 d x); [done|done|done|].
    intros s' Ho' Hd'. apply wp_ret. apply HQ; [done| |done|done|by rewrite Hd']. intros z t Ht. rewrite Hd'. by apply Hd.
Qed.

(** ** Properties *)

(** C15. For a partition whose sectors are numbered below 2^64, as those that
    registration makes are, and a range whose end [sector + count] is below 2^64
    (beyond, the test of the code wraps around: [partition_escapes]): a write to
    the partition returns, reaches no sector of any disk but the
    [count] sectors of its own disk from [sector] of the partition on, and none
    at all when they do not all lie in the partition; nothing else changes but
    statistics.  After a write that reported success, a read of the same sectors
    that reports success gives what was written. *)
Theorem partition_confined s d x part y sector count data :
  part_dev s d x part y → part_placed part → 0 ≤ sector → 0 < count → sector + count < 2 ^ 64 →
  alen data = count * dd_sector_size (pt_parent part) →
  ∃ r s', block_write (Some d) sector count (Some data) s = Some (r, s') ∧ only_io s s' ∧
    disk_written s s' (pt_parent part) (pt_start_sector part + sector) count ∧
    (bd_read_only x = true ∨ pt_sector_count part < sector + count → r ≠ 0 ∧ same_data s s') ∧
    (r = 0 → ∃ res s'', block_read (Some d) sector count true s' = Some (res, s'') ∧
       only_io s' s'' ∧ same_data s' s'' ∧ (res.1 = 0 → res.2 = data)).
Proof.
  intros Hp Hpl Hs Hc Hw Hdata. set (P := λ r s', only_io s s' ∧
    disk_written s s' (pt_parent part) (pt_start_sector part + sector) count ∧
    (bd_read_only x = true ∨ pt_sector_count part < sector + count → r ≠ 0 ∧ same_data s s') ∧
    (r = 0 → mjoin (dd_data (bk_disks s') (pt_parent part) <$> seqZ (pt_start_sector part + sector) count) = data)).
  assert (wp (block_write (Some d) sector count (Some data)) P s) as Hwp.
  { apply (part_write_wp s d x part y); [done..| |].
    - intros _ r Hr. split_and!; [done|by intros z t _| |done]. intros _. split; [done|by intros z t].
    - intros r s' Ho Hd Hro Hle Hr. split_and!; [done|done| |done]. intros [Hro'|Hlt]; [congruence|lia]. }
  destruct (wp_elim _ _ _ Hwp) as (r & s' & Hrun & Ho & Hd & Hr & Hdata'). exists r, s'. split_and!; [done..|].
  intros H0. specialize (Hdata' H0). destruct (part_dev_io _ _ _ _ _ _ Ho Hp) as (x' & y' & Ex & Ey & Hp').
  assert (wp (block_read (Some d) sector count true)
    (λ res s'', only_io s' s'' ∧ same_data s' s'' ∧ (res.1 = 0 → res.2 = data)) s') as Hwp'.
  { apply (part_read_wp s' d x' part y'); [done..| |].
    - intros _. split_and!; [done|by intros z t|done].
    - intros res s'' Ho' Hd' _ Hres. split_and!; [done|done|]. intros Hz. by rewrite Hres. }
  destruct (wp_elim _ _ _ Hwp') as (res & s'' & Hrun' & ?). by exists res, s''.
Qed.

(** The sum of sector and count that is compared with the size is taken modulo
    2^64: two sectors from 2^64 - 1 on pass the check, and the first of them is
    the sector of the disk before the partition. *)
Theorem partition_escapes s d x part y data :
  part_dev s d x part y → bd_read_only x = false → bd_read_only y = false →
  0 < pt_start_sector part < 2 ^ 64 - 1 → 1 ≤ pt_sector_count part →
  pt_start_sector part + 1 ≤ bd_sector_count y → alen data = 2 * dd_sector_size (pt_parent part) →
  ∃ r s', block_write (Some d) (2 ^ 64 - 1) 2 (Some data) s = Some (r, s') ∧
    (r = 0 → dd_data (bk_disks s') (pt_parent part) (pt_start_sector part - 1) ++
             dd_data (bk_disks s') (pt_parent part) (pt_start_sector part) = data).
Proof.
  intros Hp Hro Hroy Hst Hpc Hy1 Hdata. destruct (part_fuel _ _ _ _ _ Hp) as (n & Hn).
  pose proof Hp as [Hx Hops (p & Hpp & Hpart) Hpx Hy Hdk Hne]. set (start := pt_start_sector part) in *.
  assert ((2 ^ 64 - 1) +u64 2 = 1) as Ew by done.
  assert (start +u64 (2 ^ 64 - 1) = start - 1) as Es.
  { unfold wrap. replace (start + (2 ^ 64 - 1)) with (start - 1 + 1 * 2 ^ 64) by lia.
    rewrite Z.mod_add by lia. apply Z.mod_small. lia. }
  assert (wp (block_write (Some d) (2 ^ 64 - 1) 2 (Some data)) (λ r s',
    r = 0 → dd_data (bk_disks s') (pt_parent part) (start - 1) ++
            dd_data (bk_disks s') (pt_parent part) start = data) s) as Hwp.
  { unfold block_write, devs_fuel. wp_step. apply wp_gets. rewrite Hn. cbn [block_write_n].
    change (2 =? 0) with false. cbn match. wp_step. apply (rd_dev_wp _ _ x); [done|].
    rewrite Hro, Ew, <-Hpx, (proj2 (Z.ltb_ge _ _) Hpc), Hops. cbn [ops_write partition_ops]. wp_step. unfold part_write.
    wp_step. apply (rd_dev_wp _ _ x); [done|]. rewrite Hpp. wp_step. apply (rd_part_wp _ _ part); [done|].
    rewrite Ew, (proj2 (Z.ltb_ge _ _) Hpc). fold start. rewrite Es.
    apply (disk_write_wp (S n) s (pt_parent part) y); [done|done|lia|lia|done|congruence| |].
    - rewrite wrap_small by lia. lia.
    - intros r s1 Ho Hd _ Hr. wp_step. apply (account_wp s s1 d x); [done|done|done|].
      intros s' Ho' Hd'. apply wp_ret. rewrite Hd'. intros <-%Hr. change (seqZ (start - 1) 2) with [0 + (start - 1); 1 + (start - 1)].
      cbn [fmap list_fmap mjoin list_join]. rewrite app_nil_r. do 2 f_equal; lia. }
  destruct (wp_elim _ _ _ Hwp) as (r & s' & Hrun & Hr). by exists r, s'.
Qed.

End io.

(** ** Asynchronous requests *)

Section async.
Context {H : Type} {KH : KHeap H} {KHL : KHeapLaws H}.
Context {D : Type} {DD : DiskDriver D}.
Context (call : Z → Z → Z → M (blk H D) unit).
Implicit Types (s : blk H D) (dev req : Z) (d : block_device) (r : block_request).

Lemma upd_req_at_wp s req r f (Q : unit → blk H D → Prop) :
  bk_reqs s !! req = Some r → Q tt (set_bk_reqs (<[req := f r]> (bk_reqs s)) s) → wp (upd_req req f) Q s.
Proof. intros Hr HQ. unfold upd_req, rd_req. wp_step. wp_step. wp_step. eapply wp_lift; [exact Hr|]. by wp_step. Qed.

Lemma rd_req_at_wp s req r (Q : block_request → blk H D → Prop) : bk_reqs s !! req = Some r → Q r s → wp (rd_req req) Q s.
Proof. intros Hr HQ. unfold rd_req. wp_step. wp_step. by eapply wp_lift. Qed.

(** A request that was completed at once is still the last one of the queue. *)
Lemma submit_async_queued s dev d req r :
  bk_devs s !! dev = Some d → driver_submit d = false → (bd_ops d ≫= ops_flush) = None → bd_queue_tail d = None →
  bk_reqs s !! req = Some r → rq_type r = BLOCK_FLUSH →
  wp (block_submit_async call (Some dev) (Some req) None 0) (λ res s', res = 0 ∧
    (∃ d', bk_devs s' !! dev = Some d' ∧ bd_queue_tail d' = Some req) ∧
    (∀ x, x ≠ req → bk_reqs s' !! x = bk_reqs s !! x) ∧
    bk_heap s' = bk_heap s ∧ block_request_cache s' = block_request_cache s) s.
Proof.
  intros Hd Hs Hf Ht Hr Hty. cbn [block_submit_async]. wp_step. apply (upd_req_at_wp _ _ r); [done|]. wp_step.
  unfold block_queue_add_locked. wp_step. eapply upd_req_at_wp; [apply lookup_insert_eq|]. cbn [set_bk_reqs bk_reqs].
  rewrite insert_insert_eq. wp_step. apply (rd_dev_wp _ _ d); [done|]. rewrite Ht. apply (upd_dev_wp _ _ d); [done|].
  wp_step. eapply upd_dev_wp; [apply lookup_insert_eq|]. cbn [set_bk_devs bk_devs]. rewrite insert_insert_eq.
  wp_step. eapply rd_dev_wp; [apply lookup_insert_eq|]. wp_step. eapply rd_req_at_wp; [apply lookup_insert_eq|].
  unfold driver_submit in *. cbn [set_bd_in_flight set_bd_queue bd_ops]. rewrite Hs. wp_step. unfold sync_io. cbn [set_rq_next set_rq_done set_rq_callback rq_type].
  rewrite Hty. unfold block_flush, devs_fuel. wp_step. apply wp_gets. cbn [block_flush_n].
  wp_step. eapply rd_dev_wp; [apply lookup_insert_eq|]. cbn [bd_ops].
  assert (∀ (Q : Z → blk H D → Prop) t, Q 0 t → wp (match bd_ops d with None => mret 0 | Some o =>
    match ops_flush o with None => mret 0 | Some DriverFn => on_disks (dd_flush dev)
    | Some PartFn => part_flush (block_flush_n (size (bk_devs t))) dev end end) Q t) as Hfl.
  { intros Q t HQ. destruct (bd_ops d) as [o|]; [|by apply wp_ret]. cbn in Hf. rewrite Hf. by apply wp_ret. }
  apply Hfl. wp_step. eapply upd_req_at_wp; [apply lookup_insert_eq|].
  wp_step. unfold run_callback. wp_step. eapply rd_req_at_wp; [apply lookup_insert_eq|]. apply wp_ret.
  wp_step. eapply upd_dev_wp; [apply lookup_insert_eq|]. apply wp_ret. cbn.
  split_and!; [done| | |done|done].
  - eexists. split; [apply lookup_insert_eq|done].
  - intros x Hx. by rewrite !lookup_insert_ne.
Qed.

(** block_submit_async puts a request on the queue of the device, and nothing
    takes it off: when the owner gives the completed request back, the next
    submission writes to the freed request. *)
Theorem async_request_dangles s dev d (r1 r2 c n : Z) (q1 q2 : block_request) C B :
  bk_devs s !! dev = Some d → driver_submit d = false → (bd_ops d ≫= ops_flush) = None → bd_queue_tail d = None →
  bk_reqs s !! r1 = Some q1 → rq_type q1 = BLOCK_FLUSH → bk_reqs s !! r2 = Some q2 → r1 ≠ r2 →
  kh_inv (bk_heap s) C B → block_request_cache s = Some c → B !! r1 = Some (Some c, n) →
  (block_submit_async call (Some dev) (Some r1) None 0 ;;
   block_request_free (Some r1) ;;
   block_submit_async call (Some dev) (Some r2) None 0) s = None.
Proof.
  intros Hd Hs Hf Ht Hq1 Hty Hq2 Hne Hh Hc Hb.
  destruct (wp_elim _ _ _ (submit_async_queued s dev d r1 q1 Hd Hs Hf Ht Hq1 Hty))
    as (res & s1 & Hrun & _ & (d1 & Hd1 & Ht1) & Hreqs & Eh & Ec).
  unfold mbind, M_bind. rewrite Hrun.
  assert (wp (block_request_free (Some r1)) (λ _ s2, bk_devs s2 !! dev = Some d1 ∧ bk_reqs s2 !! r1 = None ∧
    bk_reqs s2 !! r2 = Some q2) s1) as Hwp.
  { unfold block_request_free. wp_step. apply wp_gets. rewrite Ec, Hc. wp_step. unfold on_bk_heap. apply wp_zoom.
    eapply wp_mono; [apply (kh_free_law _ C B c r1 n); [by rewrite Eh|done]|]. cbn beta. intros [] h _. apply wp_modify. cbn.
    split_and!; [done|apply lookup_delete_eq|]. rewrite lookup_delete_ne by done. by rewrite Hreqs. }
  destruct (wp_elim _ _ _ Hwp) as ([] & s2 & -> & Hd2 & Hr1 & Hr2).
  cbn [block_submit_async]. unfold block_queue_add_locked, upd_req, rd_req, rd_dev, mbind, M_bind, get, lift, modify. cbn.
  rewrite Hr2. cbn. rewrite lookup_insert_eq. cbn. rewrite Hd2. cbn. rewrite Ht1. cbn. by rewrite !lookup_insert_ne, Hr1 by done.
Qed.
End async.
