(* ===== verification/BlockReg.v ===== *)
(** * Block devices: the table of devices and the partitions of a disk

    An invariant of the table of block devices and of the partitions in memory,
    and that registering a disk, which reads its partition tables and registers
    a device for each entry, keeps it, whatever the disk holds. *)

From stdpp Require Import gmap list numbers strings.
From S2P Require Import Prelude KHeap CString CFormat Block BlockIO.

(** ** Fields of a sector *)

Abbreviation bytes_ok := (Forall (λ b, 0 ≤ b < 256)).

Lemma bytes_at_Some buf off n :
  0 ≤ off → 0 ≤ n → off + n ≤ alen buf → ∃ l, bytes_at buf off n = Some l ∧ alen l = n.
Proof.
  intros Ho Hn Hl. unfold bytes_at. rewrite (proj2 (Z.leb_le _ _) Ho), (proj2 (Z.leb_le _ _) Hl). eexists.
  split; [done|]. unfold alen in *. rewrite length_take, length_drop. lia.
Qed.

Lemma bytes_at_ok buf off n l : bytes_ok buf → bytes_at buf off n = Some l → bytes_ok l.
Proof. unfold bytes_at. destruct (_ && _); [|done]. intros Hb [= <-]. by apply Forall_take, Forall_drop. Qed.

Lemma le_value_bound l : bytes_ok l → 0 ≤ le_value l < 256 ^ alen l.
Proof.
  induction 1 as [|b l Hb Hl IH]; [done|]. rewrite alen_cons, Z.pow_add_r by (auto with kernel || lia).
  cbn [le_value]. change (256 ^ 1) with 256. nia.
Qed.

Lemma le_at_Some buf off n :
  bytes_ok buf → 0 ≤ off → 0 ≤ n → off + n ≤ alen buf → ∃ v, le_at buf off n = Some v ∧ 0 ≤ v < 256 ^ n.
Proof.
  intros Hb Ho Hn Hl. destruct (bytes_at_Some buf off n Ho Hn Hl) as (l & E & Hlen). unfold le_at. rewrite E.
  eexists. split; [done|]. rewrite <-Hlen. by apply le_value_bound, (bytes_at_ok buf off n).
Qed.

(** ** Names *)

Lemma numeral_digits num : 1 ≤ num ≤ 128 → ∃ c l, numeral 10 false num = c :: l ∧ forallb is_digit (c :: l) = true.
Proof.
  intros Hn. assert (forallb (λ n, match numeral 10 false n with [] => false | l => forallb is_digit l end)
    (seqZ 1 128) = true) as Hall by by vm_compute.
  rewrite forallb_forall in Hall. specialize (Hall num). rewrite <-list_elem_of_In, elem_of_seqZ in Hall.
  specialize (Hall ltac:(lia)). destruct (numeral 10 false num) as [|c l]; [done|]. by exists c, l.
Qed.

Lemma partition_name_eq nm num :
  1 ≤ num ≤ 128 → partition_name nm num = take 31 (nm ++ numeral 10 false num).
Proof.
  intros Hn. unfold partition_name. f_equal.
  assert (render (chars "%s%d") [FStr (Some nm); FInt num] =
    Some (nm ++ in_field [] (numeral 10 false num) 0 false false ++ [])) as ->.
  { lazy -[numeral signed in_field app]. rewrite !signed_small by lia. destruct num; [lia|done|lia]. }
  unfold in_field. rewrite app_nil_r. cbn [app].
  replace (Z.to_nat (0 - alen (numeral 10 false num))) with O; [done|].
  pose proof (alen_nonneg (numeral 10 false num)). lia.
Qed.

(** The name of a partition ends in a digit, or it is the name of the disk. *)
Lemma partition_name_last nm num :
  1 ≤ num ≤ 128 → alen nm ≤ 31 → ∃ c, last (partition_name nm num) = Some c ∧
    (partition_name nm num = nm ∨ is_digit c = true).
Proof.
  intros Hn Hl. rewrite partition_name_eq by done. unfold alen in *.
  destruct (decide (length nm = 31%nat)) as [He|He].
  { rewrite <-He, take_app_length. destruct (last nm) as [c|] eqn:E; [by exists c; auto|].
    apply last_None in E. by rewrite E in He. }
  destruct (numeral_digits num Hn) as (c & l & -> & Hd).
  rewrite take_app_ge by lia. destruct (31 - length nm)%nat as [|k] eqn:Ek; [lia|]. cbn [take].
  destruct (last (c :: take k l)) as [c'|] eqn:Hlast; [|by rewrite last_cons in Hlast; destruct (last (take k l))].
  exists c'. split; [by rewrite last_app, Hlast|]. right.
  rewrite forallb_forall in Hd. apply Hd. rewrite <-list_elem_of_In. apply last_Some_elem_of in Hlast.
  apply elem_of_cons in Hlast as [->|Hin]; [by left|right].
  apply elem_of_take in Hin as (i & Hi & _). by eapply list_elem_of_lookup_2.
Qed.

(** ** The invariant *)

Section reg.
Context {H : Type} {KH : KHeap H} {KHL : KHeapLaws H}.
Context {D : Type} {DD : DiskDriver D} {DL : DiskLaws D}.
Implicit Types (s : blk H D) (C : gmap Z Z) (B G : blocks) (L : list Z) (d p q b : Z)
  (x y z : block_device) (part : partition_dev) (m : gmap Z block_device).

(** The devices in the list that starts at [p]. *)
Fixpoint dev_list m (p : option Z) L : Prop :=
  match L with
  | [] => p = None
  | d :: L' => p = Some d ∧ ∃ x, m !! d = Some x ∧ dev_list m (bd_next x) L'
  end.

(** What the layer does not change in a device once it is set up. *)
Definition dev_core x : list Z * Z * Z * bool * option block_ops * option Z :=
  (bd_name x, bd_sector_count x, bd_sector_size x, bd_read_only x, bd_ops x, bd_private x).

(** A disk whose sectors can hold the tables. *)
Record disk_ok d x : Prop := DiskOk {
  do_disk : disk_dev x;
  do_size : 512 ≤ bd_sector_size x ≤ KMALLOC_LIMIT;
  do_sector : dd_sector_size d = bd_sector_size x;
  do_count : 0 ≤ bd_sector_count x < 2 ^ 64;
  do_name : alen (bd_name x) ≤ 31 }.

(** A partition lies behind sector 0, and one of an MBR lies inside its disk. *)
Record part_ok part y : Prop := PartOk {
  po_placed : part_placed part;
  po_start : 0 < pt_start_sector part;
  po_inside : pt_is_gpt part = false → pt_start_sector part + pt_sector_count part ≤ bd_sector_count y }.

(** The blocks [G] are those of the drivers, in which the disks lie; [L] are the
    registered devices. *)
Record blk_ok s C B G L : Prop := BlkOk {
  bo_heap : kh_inv (bk_heap s) C B;
  bo_cache : ∀ c, partition_cache s = Some c → C !! c = Some sizeof_partition_dev_t;
  bo_drivers : G ⊆ B;
  bo_list : dev_list (bk_devs s) (block_devices s) L;
  bo_nodup : NoDup L;
  bo_count : block_device_count s = alen L;
  bo_max : alen L ≤ BLOCK_MAX_DEVICES;
  bo_names : ∀ d d' x x', d ∈ L → d' ∈ L → bk_devs s !! d = Some x → bk_devs s !! d' = Some x' →
    bd_name x = bd_name x' → d = d';
  bo_devs : ∀ d x, bk_devs s !! d = Some x →
    (disk_ok d x ∧ ∃ q t n, G !! q = Some (t, n) ∧ q ≤ d < q + n) ∨
    (∃ p, d = part_device p ∧ is_Some (bk_parts s !! p));
  bo_parts : ∀ p part, bk_parts s !! p = Some part → G !! p = None ∧
    (∃ c, partition_cache s = Some c ∧ B !! p = Some (Some c, sizeof_partition_dev_t)) ∧
    ∃ x y, bd_private x = Some p ∧ part_dev s (part_device p) x part y ∧ disk_ok (pt_parent part) y ∧ part_ok part y }.

(** *** Lists of devices *)

Lemma dev_list_in m (o : option Z) L d : dev_list m o L → d ∈ L → is_Some (m !! d).
Proof.
  revert o. induction L as [|e L IH]; cbn; [set_solver|]. intros o (-> & x & Hx & Hl) [->|Hd]%elem_of_cons; [by eexists|].
  by eapply IH.
Qed.

Lemma dev_list_ext m m' (o : option Z) L :
  (∀ d, d ∈ L → bd_next <$> m' !! d = bd_next <$> m !! d) → dev_list m o L → dev_list m' o L.
Proof.
  revert o. induction L as [|e L IH]; cbn; [done|]. intros o Hm (-> & x & Hx & Hl). split; [done|].
  pose proof (Hm e ltac:(by left)) as He. rewrite Hx in He. destruct (m' !! e) as [x'|]; [|done].
  exists x'. split; [done|]. cbn in He. simplify_eq. rewrite He. apply IH; [|done]. intros d Hd. apply Hm. by right.
Qed.

(** *** Changes that the invariant does not see *)

Lemma core_disk d x x' : dev_core x' = dev_core x → disk_ok d x → disk_ok d x'.
Proof.
  unfold dev_core. intros [= E1 E2 E3 E4 E5 E6] [[Hr Hw] ? ? ? ?].
  split; [split; by rewrite E5|by rewrite E3|by rewrite E3|by rewrite E2|by rewrite E1].
Qed.

Lemma core_lookup m m' d x :
  (∀ d, dev_core <$> m' !! d = dev_core <$> m !! d) → m !! d = Some x → ∃ x', m' !! d = Some x' ∧ dev_core x' = dev_core x.
Proof.
  intros Hm Hx. specialize (Hm d). rewrite Hx in Hm. destruct (m' !! d) as [x'|]; [|done]. apply (inj Some) in Hm. by exists x'.
Qed.

Lemma core_part s s' d x part y :
  (∀ d, dev_core <$> bk_devs s' !! d = dev_core <$> bk_devs s !! d) → bk_parts s' = bk_parts s →
  part_dev s d x part y → ∃ x' y', dev_core x' = dev_core x ∧ dev_core y' = dev_core y ∧ part_dev s' d x' part y'.
Proof.
  intros Hm Hp [Hx Ho (p & Hpp & Hpart) Hc Hy Hdk Hne].
  destruct (core_lookup _ _ _ _ Hm Hx) as (x' & Hx' & Ex), (core_lookup _ _ _ _ Hm Hy) as (y' & Hy' & Ey).
  exists x', y'. split_and!; [done..|]. injection Ex as E1 E2 E3 E4 E5 E6. split; [done|congruence| |congruence|done| |done].
  - exists p. rewrite E6, Hp. done.
  - injection Ey as F1 F2 F3 F4 F5 F6. destruct Hdk. split; by rewrite F5.
Qed.

(** The list changed, the devices are the same at their core. *)
Lemma blk_ok_core s s' C B G L L' :
  blk_ok s C B G L → bk_heap s' = bk_heap s → bk_parts s' = bk_parts s → partition_cache s' = partition_cache s →
  (∀ d, dev_core <$> bk_devs s' !! d = dev_core <$> bk_devs s !! d) →
  dev_list (bk_devs s') (block_devices s') L' → NoDup L' → block_device_count s' = alen L' →
  alen L' ≤ BLOCK_MAX_DEVICES →
  (∀ d d' x x', d ∈ L' → d' ∈ L' → bk_devs s !! d = Some x → bk_devs s !! d' = Some x' →
     bd_name x = bd_name x' → d = d') →
  blk_ok s' C B G L'.
Proof.
  intros [O1 O2 O3 O4 O5 O6 O7 O8 O9 O10] E1 E2 E3 Hm Hl Hnd Hc Hmax Hnm.
  assert (∀ d, dev_core <$> bk_devs s !! d = dev_core <$> bk_devs s' !! d) as Hm' by done.
  split; rewrite ?E1, ?E2, ?E3; try done.
  - intros d d' x x' Hd Hd' Hx Hx' He.
    destruct (core_lookup _ _ _ _ Hm' Hx) as (z & Hz & Ez), (core_lookup _ _ _ _ Hm' Hx') as (z' & Hz' & Ez').
    apply (Hnm d d' z z'); [done..|]. unfold dev_core in *. congruence.
  - intros d x Hx. destruct (core_lookup _ _ _ _ Hm' Hx) as (z & Hz & Ez).
    destruct (O9 d z Hz) as [[Hdk Hg]|Hp]; [left|by right]. split; [|done]. by apply (core_disk d z).
  - intros p part Hp. destruct (O10 p part Hp) as (Hg & Hc' & x & y & Hx & Hpd & Hdk & Hpo). split_and!; [done..|].
    destruct (core_part s s' _ _ _ _ Hm E2 Hpd) as (x' & y' & Ex & Ey & Hpd').
    exists x', y'. split_and!; [|done|by eapply core_disk|].
    + unfold dev_core in Ex. congruence.
    + destruct Hpo. split; [done..|]. unfold dev_core in Ey. replace (bd_sector_count y') with (bd_sector_count y) by congruence. done.
Qed.

Lemma still_core x y : still y = still x → dev_core y = dev_core x.
Proof. intros (E1 & E2 & E3 & E4 & E5 & E6 & _)%still_eq. unfold dev_core. congruence. Qed.

Lemma blk_ok_io s s' C B G L : blk_ok s C B G L → only_io s s' → blk_ok s' C B G L.
Proof.
  intros Hok Ho. assert (∀ {A} (f : block_device → A) d, (∀ x, f (still x) = f x) →
    f <$> bk_devs s' !! d = f <$> bk_devs s !! d) as Hf.
  { intros A f d Hf. pose proof (oi_devs _ _ Ho d) as He.
    destruct (bk_devs s' !! d) as [x'|], (bk_devs s !! d) as [x|]; try done. apply (inj Some) in He. cbn.
    by rewrite <-(Hf x'), He, Hf. }
  eapply blk_ok_core; [done|apply Ho|apply Ho|apply Ho| | |apply Hok| |apply Hok|apply Hok].
  - intros d. by apply Hf.
  - rewrite (oi_list _ _ Ho). eapply dev_list_ext; [|apply Hok]. intros d _. by apply Hf.
  - rewrite (oi_count _ _ Ho). apply Hok.
Qed.

(** *** Blocks of the heap *)

Lemma blk_ok_heap s h C B B' G L :
  blk_ok s C B G L → kh_inv h C B' → G ⊆ B' → (∀ p, is_Some (bk_parts s !! p) → B' !! p = B !! p) →
  blk_ok (set_bk_heap h s) C B' G L.
Proof.
  intros [O1 O2 O3 O4 O5 O6 O7 O8 O9 O10] Hh HG HB. split; try done. cbn. intros p part Hp.
  destruct (O10 p part Hp) as (Hg & (c & Hc & Hb) & x & y & Hx & [] & Hdk & Hpo). split_and!; [done| |].
  - exists c. rewrite HB by by eexists. done.
  - by exists x, y.
Qed.

Lemma blk_ok_kmalloc s h C B G L b (v : option Z * Z) :
  blk_ok s C B G L → B !! b = None → kh_inv h C (<[b := v]> B) → blk_ok (set_bk_heap h s) C (<[b := v]> B) G L.
Proof.
  intros Hok Hb Hh. eapply blk_ok_heap; [done|done| |].
  - etrans; [apply Hok|]. by apply insert_subseteq.
  - intros p [part Hp]. destruct (bo_parts _ _ _ _ _ Hok p part Hp) as (_ & (c & _ & Hc) & _).
    rewrite lookup_insert_ne; [done|congruence].
Qed.

Lemma blk_ok_kfree s h C B G L b n :
  blk_ok s C B G L → B !! b = Some (None, n) → G !! b = None → kh_inv h C (delete b B) →
  blk_ok (set_bk_heap h s) C (delete b B) G L.
Proof.
  intros Hok Hb Hg Hh. eapply blk_ok_heap; [done|done| |].
  - apply map_subseteq_spec. intros q v Hq. rewrite lookup_delete_ne by congruence.
    by apply (lookup_weaken _ _ _ _ Hq), Hok.
  - intros p [part Hp]. destruct (bo_parts _ _ _ _ _ Hok p part Hp) as (_ & (c & _ & Hc) & _).
    rewrite lookup_delete_ne; [done|congruence].
Qed.

(** *** Partitions come and go *)

(** Apart from the device [d] and the partition [p], the devices are those of [s]. *)
Lemma part_dev_frame s s' p d e x part y :
  (∀ d', d' ≠ e → bk_devs s' !! d' = bk_devs s !! d') → (∀ q, q ≠ p → bk_parts s' !! q = bk_parts s !! q) →
  (∀ q, bd_private x = Some q → q ≠ p) → d ≠ e → pt_parent part ≠ e →
  part_dev s d x part y → part_dev s' d x part y.
Proof.
  intros Hd Hp Hq Hde Hpe [Hx Ho (q & Hxq & Hpart) Hc Hy Hdk Hne]. split; try done.
  - by rewrite Hd.
  - exists q. split; [done|]. rewrite Hp by by apply Hq. done.
  - by rewrite Hd.
Qed.

Lemma part_not_disk x : bd_ops x = Some partition_ops → ¬ disk_dev x.
Proof. intros Ho [Hr _]. by rewrite Ho in Hr. Qed.

Section new_part.
Context s C B G L (Hok : blk_ok s C B G L) (c : Z) p part x y (h : H).
Hypothesis Hb : B !! p = None.
Hypothesis Hc : partition_cache s = Some c.
Hypothesis Hh : kh_inv h C (<[p := (Some c, sizeof_partition_dev_t)]> B).
Hypothesis Hy : bk_devs s !! pt_parent part = Some y.
Hypothesis Hdk : disk_ok (pt_parent part) y.
Hypothesis Hpo : part_ok part y.
Hypothesis Hops : bd_ops x = Some partition_ops.
Hypothesis Hpriv : bd_private x = Some p.
Hypothesis Hcnt : bd_sector_count x = pt_sector_count part.
Let s' := set_bk_devs (<[part_device p := x]> (bk_devs s)) (set_bk_parts (<[p := part]> (bk_parts s)) (set_bk_heap h s)).

Lemma new_part_fresh : bk_parts s !! p = None.
Proof.
  destruct (bk_parts s !! p) eqn:E; [|done]. destruct (bo_parts _ _ _ _ _ Hok _ _ E) as (_ & (? & _ & ?) & _). congruence.
Qed.

Lemma new_dev_fresh : bk_devs s !! part_device p = None.
Proof.
  destruct (bk_devs s !! part_device p) eqn:E; [|done].
  destruct (bo_devs _ _ _ _ _ Hok _ _ E) as [(_ & q & t & n & Hq & Hr)|(q & Eq & [z Hz])].
  - assert (B !! q = Some (t, n)) as HBq by by apply (lookup_weaken _ _ _ _ Hq), Hok.
    assert (q ≠ p) as Hne by congruence.
    destruct (kh_disjoint _ _ _ q t n p (Some c) sizeof_partition_dev_t Hh) as [?|?].
    + by rewrite lookup_insert_ne.
    + by rewrite lookup_insert_eq.
    + done.
    + unfold part_device, DEV_OFFSET in Hr. lia.
    + unfold part_device, DEV_OFFSET, sizeof_partition_dev_t in *. lia.
  - unfold part_device in Eq. assert (q = p) as -> by lia. by rewrite new_part_fresh in Hz.
Qed.

Lemma blk_ok_new : blk_ok s' C (<[p := (Some c, sizeof_partition_dev_t)]> B) G L.
Proof.
  pose proof Hok as [O1 O2 O3 O4 O5 O6 O7 O8 O9 O10]. pose proof new_part_fresh as Fp. pose proof new_dev_fresh as Fd.
  assert (∀ d, is_Some (bk_devs s !! d) → d ≠ part_device p) as Hne by (intros d [? ?] ->; congruence).
  assert (∀ d, d ∈ L → d ≠ part_device p) as HL by (intros d Hd; apply Hne; by eapply dev_list_in).
  split; cbn [s' set_bk_devs set_bk_parts set_bk_heap bk_devs bk_parts bk_heap partition_cache block_devices block_device_count]; try done.
  - etrans; [exact O3|]. by apply insert_subseteq.
  - eapply dev_list_ext; [|exact O4]. intros d Hd. by rewrite lookup_insert_ne by by apply not_eq_sym, HL.
  - intros d d' z z' Hd Hd'. rewrite !lookup_insert_ne by by apply not_eq_sym, HL. by apply O8.
  - intros d z Hz. destruct (decide (d = part_device p)) as [->|Hd].
    + right. exists p. by rewrite lookup_insert_eq.
    + rewrite lookup_insert_ne in Hz by done. destruct (O9 d z Hz) as [?|(q & -> & Hq)]; [by left|right].
      exists q. split; [done|]. rewrite lookup_insert_ne; [done|]. intros ->. by rewrite Fp in Hq; destruct Hq.
  - intros q pt Hq. destruct (decide (q = p)) as [->|Hqp].
    + rewrite lookup_insert_eq in Hq. injection Hq as <-. split_and!.
      * destruct (G !! p) eqn:E; [|done]. pose proof (lookup_weaken _ _ _ _ E O3). congruence.
      * exists c. by rewrite lookup_insert_eq.
      * exists x, y. split_and!; [done| |done|done]. split; cbn; rewrite ?lookup_insert_eq; try done.
        -- exists p. by rewrite lookup_insert_eq.
        -- rewrite lookup_insert_ne; [done|]. apply not_eq_sym, Hne. by eexists.
        -- apply Hdk.
        -- apply Hne. by eexists.
    + rewrite lookup_insert_ne in Hq by done.
      destruct (O10 q pt Hq) as (Hg & (c' & Hc' & Hbq) & x' & y' & Hx' & Hpd & Hdk' & Hpo'). split_and!; [done| |].
      * exists c'. by rewrite lookup_insert_ne.
      * exists x', y'. split_and!; [done| |done|done].
        apply (part_dev_frame s s' p (part_device q) (part_device p)); [..|done]; cbn.
        -- intros d' Hd'. by rewrite lookup_insert_ne.
        -- intros q' Hq'. by rewrite lookup_insert_ne.
        -- intros q'. congruence.
        -- unfold part_device. lia.
        -- apply Hne. destruct Hpd. by eexists.
Qed.
End new_part.

Lemma blk_ok_drop s C B G L c p h :
  blk_ok s C B G L → is_Some (bk_parts s !! p) → partition_cache s = Some c → part_device p ∉ L →
  kh_inv h C (delete p B) →
  blk_ok (set_bk_devs (delete (part_device p) (bk_devs s)) (set_bk_parts (delete p (bk_parts s)) (set_bk_heap h s)))
    C (delete p B) G L.
Proof.
  intros [O1 O2 O3 O4 O5 O6 O7 O8 O9 O10] [part Hp] Hc HL Hh. set (s' := set_bk_devs _ _).
  destruct (O10 p part Hp) as (Hg & _ & x & y & _ & Hpd & _).
  assert (∀ d, d ∈ L → part_device p ≠ d) as Hne by (intros d Hd <-; done).
  split; cbn [s' set_bk_devs set_bk_parts set_bk_heap bk_devs bk_parts bk_heap partition_cache block_devices block_device_count]; try done.
  - apply map_subseteq_spec. intros q v Hq. rewrite lookup_delete_ne by congruence. by apply (lookup_weaken _ _ _ _ Hq).
  - eapply dev_list_ext; [|exact O4]. intros d Hd. by rewrite lookup_delete_ne by by apply Hne.
  - intros d d' z z' Hd Hd'. rewrite !lookup_delete_ne by by apply Hne. by apply O8.
  - intros d z [Hd Hz]%lookup_delete_Some. destruct (O9 d z Hz) as [?|(q & -> & Hq)]; [by left|right].
    exists q. split; [done|]. rewrite lookup_delete_ne; [done|]. by intros ->.
  - intros q pt [Hq Hpt]%lookup_delete_Some.
    destruct (O10 q pt Hpt) as (Hg' & (c' & Hc' & Hbq) & x' & y' & Hx' & Hpd' & Hdk' & Hpo'). split_and!; [done| |].
    + exists c'. by rewrite lookup_delete_ne.
    + exists x', y'. split_and!; [done| |done|done].
      apply (part_dev_frame s s' p (part_device q) (part_device p)); [..|done]; cbn.
      * intros d' Hd'. by rewrite lookup_delete_ne.
      * intros q' Hq'. by rewrite lookup_delete_ne.
      * intros q'. congruence.
      * unfold part_device. lia.
      * intros He. destruct Hpd as [Hx Ho _ _ _ _ _], Hpd' as [_ _ _ _ Hy Hdk _]. rewrite He, Hx in Hy. simplify_eq.
        by eapply part_not_disk.
Qed.

(** ** Registration *)

Lemma find_dev_from_wp fuel name (o : option Z) L s (Q : option Z → blk H D → Prop) :
  dev_list (bk_devs s) o L → (length L ≤ fuel)%nat →
  ((∀ d x, d ∈ L → bk_devs s !! d = Some x → bd_name x ≠ name) → Q None s) →
  (∀ d x, d ∈ L → bk_devs s !! d = Some x → bd_name x = name → Q (Some d) s) →
  wp (find_dev_from fuel name o) Q s.
Proof.
  revert fuel o. induction L as [|e L IH]; intros fuel o Hl Hf HN HS; cbn in Hl.
  { subst o. destruct fuel; apply wp_ret, HN; set_solver. }
  destruct Hl as (-> & x & Hx & Hl). destruct fuel as [|fuel]; [cbn in Hf; lia|]. cbn [find_dev_from].
  wp_step. apply (rd_dev_wp _ _ x); [done|]. destruct (decide (bd_name x = name)) as [He|He].
  { apply wp_ret, (HS e x); [by left|done|done]. }
  apply IH; [done|cbn in Hf; lia| |].
  - intros Hno. apply HN. intros d z [->|Hd]%elem_of_cons Hz; [congruence|by eapply Hno].
  - intros d z Hd Hz Hn. apply (HS d z); [by right|done|done].
Qed.

Lemma block_find_wp s C B G L name (Q : option Z → blk H D → Prop) :
  blk_ok s C B G L →
  ((∀ d x, d ∈ L → bk_devs s !! d = Some x → bd_name x ≠ name) → Q None s) →
  (∀ d x, d ∈ L → bk_devs s !! d = Some x → bd_name x = name → Q (Some d) s) →
  wp (block_find (Some name)) Q s.
Proof.
  intros Hok HN HS. unfold block_find, devs_fuel. wp_step. wp_step. wp_step. apply wp_gets.
  apply (find_dev_from_wp _ _ _ L); [apply Hok| |done|done].
  enough (length L ≤ size (bk_devs s))%nat by lia. apply nodup_size; [apply Hok|].
  intros d. apply (dev_list_in _ (block_devices s)), Hok.
Qed.

(** The device [d] was put on the list, all else is as it was. *)
Record enlisted s s1 : Prop := Enlisted {
  en_heap : bk_heap s1 = bk_heap s;
  en_disks : bk_disks s1 = bk_disks s;
  en_parts : bk_parts s1 = bk_parts s;
  en_cache : partition_cache s1 = partition_cache s;
  en_core : ∀ d, dev_core <$> bk_devs s1 !! d = dev_core <$> bk_devs s !! d }.

Lemma enlist_ok s s1 C B G L d x x1 :
  blk_ok s C B G L → bk_devs s !! d = Some x → d ∉ L → alen L < BLOCK_MAX_DEVICES →
  (∀ d' x', d' ∈ L → bk_devs s !! d' = Some x' → bd_name x' ≠ bd_name x) →
  dev_core x1 = dev_core x → bd_next x1 = block_devices s →
  s1 = set_bk_list (Some d) (block_device_count s +u32 1) (set_bk_devs (<[d := x1]> (bk_devs s)) s) →
  blk_ok s1 C B G (d :: L) ∧ enlisted s s1.
Proof.
  intros Hok Hx Hd Hlt Hnm Ecore Enext ->.
  assert (∀ e, dev_core <$> <[d := x1]> (bk_devs s) !! e = dev_core <$> bk_devs s !! e) as Hcore.
  { intros e. destruct (decide (e = d)) as [->|]; [by rewrite lookup_insert_eq, Hx; cbn; rewrite Ecore|by rewrite lookup_insert_ne]. }
  pose proof (alen_nonneg L). split; [|by split].
  eapply blk_ok_core; [exact Hok|done|done|done|exact Hcore|..]; cbn.
  - split; [done|]. exists x1. rewrite lookup_insert_eq, Enext. split; [done|].
    eapply dev_list_ext; [|apply Hok]. intros e He. rewrite lookup_insert_ne; [done|]. by intros ->.
  - constructor; [done|apply Hok].
  - rewrite (bo_count _ _ _ _ _ Hok), alen_cons. unfold BLOCK_MAX_DEVICES in Hlt. apply wrap_small. lia.
  - rewrite alen_cons. lia.
  - intros e e' z z' [->|He]%elem_of_cons [->|He']%elem_of_cons Hz Hz' Hn; [done|..].
    + simplify_eq. by destruct (Hnm e' z').
    + simplify_eq. by destruct (Hnm e z).
    + by eapply (bo_names _ _ _ _ _ Hok).
Qed.

Lemma register_wp (n : nat) s C B G L d x (c : Z) (Q : Z → blk H D → Prop) :
  blk_ok s C B G L → bk_devs s !! d = Some x → d ∉ L → last (bd_name x) = Some c →
  (∀ r, r ≠ 0 → Q r s) →
  (∀ s1, blk_ok s1 C B G (d :: L) → enlisted s s1 →
     (∀ d' x', d' ∈ L → bk_devs s !! d' = Some x' → bd_name x' ≠ bd_name x) →
     if is_digit c then Q 0 s1 else wp (partition_scan (block_register_n n) (Some d)) (λ _ s', Q 0 s') s1) →
  wp (block_register_n (S n) (Some d)) Q s.
Proof.
  intros Hok Hx Hd Hlast HE HQ. cbn [block_register_n]. wp_step. apply (rd_dev_wp _ _ x); [done|]. rewrite Hlast.
  wp_step. apply (block_find_wp s C B G L); [done| |]; last first.
  { intros d' x' _ _ _. by apply wp_ret, HE. }
  intros Hnm. wp_step. wp_step. destruct (Z.leb_spec BLOCK_MAX_DEVICES (block_device_count s)) as [|Hlt]; [by apply wp_ret, HE|].
  rewrite (bo_count _ _ _ _ _ Hok) in Hlt.
  assert (∀ x1, dev_core x1 = dev_core x → bd_next x1 = block_devices s →
    (let s1 := set_bk_list (Some d) (block_device_count s +u32 1) (set_bk_devs (<[d := x1]> (bk_devs s)) s) in
     wp ((if negb (is_digit c) then partition_scan (block_register_n n) (Some d) ;; mret tt else mret tt) ;; mret 0) Q s1)) as Htail.
  { intros x1 E1 E2 s1. destruct (enlist_ok s s1 C B G L d x x1) as [Hok1 Hen]; [done..|].
    specialize (HQ s1 Hok1 Hen Hnm). destruct (is_digit c); cbn [negb]; wp_step; [by apply wp_ret, wp_ret|].
    wp_step. eapply wp_mono; [exact HQ|]. intros r s' Hs'. apply wp_ret. by apply wp_ret. }
  wp_step. destruct ((bd_capacity x =? 0) && (0 <? bd_sector_count x)).
  - apply (upd_dev_wp _ _ x); [done|]. wp_step. eapply upd_dev_wp; [apply lookup_insert_eq|].
    cbn [set_bk_devs bk_devs]. rewrite insert_insert_eq. wp_step. wp_step. by apply Htail.
  - apply wp_ret. wp_step. apply (upd_dev_wp _ _ x); [done|]. wp_step. wp_step. by apply Htail.
Qed.

(** ** Scanning a disk *)

(** From [s] to [s'] partitions for which [P] holds were added in front of the
    list; the disks, and what the devices are, did not change. *)
Record scanned (P : partition_dev → Prop) s s' B B' L L' : Prop := Scanned {
  sn_data : same_data s s';
  sn_cache : partition_cache s' = partition_cache s;
  sn_blocks : B ⊆ B';
  sn_parts : bk_parts s ⊆ bk_parts s';
  sn_core : ∀ d x, bk_devs s !! d = Some x → ∃ x', bk_devs s' !! d = Some x' ∧ dev_core x' = dev_core x;
  sn_list : ∃ ps, L' = ps ++ L ∧ ∀ d, d ∈ ps → ∃ p part, d = part_device p ∧ bk_parts s' !! p = Some part ∧ P part }.

Lemma scanned_refl P s B L : scanned P s s B B L L.
Proof. split; [done..| |]; [intros d x Hx; by exists x|]. exists []. split; [done|set_solver]. Qed.

Lemma scanned_trans P s s1 s2 B B1 B2 L L1 L2 :
  scanned P s s1 B B1 L L1 → scanned P s1 s2 B1 B2 L1 L2 → scanned P s s2 B B2 L L2.
Proof.
  intros [A1 A2 A3 A4 A5 (ps & -> & A6)] [C1 C2 C3 C4 C5 (ps' & -> & C6)]. split.
  - intros d t. by rewrite C1.
  - congruence.
  - by etrans.
  - by etrans.
  - intros d x Hx. destruct (A5 d x Hx) as (x1 & Hx1 & E1), (C5 d x1 Hx1) as (x2 & Hx2 & E2). exists x2. split; [done|congruence].
  - exists (ps' ++ ps). split; [by rewrite app_assoc|]. intros d [Hd|Hd]%elem_of_app; [by apply C6|].
    destruct (A6 d Hd) as (p & part & -> & Hp & HP). exists p, part. split_and!; [done|by eapply lookup_weaken|done].
Qed.

Lemma scanned_mono (P P' : partition_dev → Prop) s s' B B' L L' :
  (∀ part, P part → P' part) → scanned P s s' B B' L L' → scanned P' s s' B B' L L'.
Proof.
  intros HP [A1 A2 A3 A4 A5 (ps & -> & A6)]. split; [done..|]. exists ps. split; [done|].
  intros d Hd. destruct (A6 d Hd) as (p & part & ? & ? & ?). exists p, part. auto.
Qed.

Lemma scanned_io P s s' B L : only_io s s' → same_data s s' → scanned P s s' B B L L.
Proof.
  intros Ho Hd. split; [done|apply Ho|done|by rewrite (oi_parts _ _ Ho)| |].
  - intros d x Hx. destruct (only_io_dev _ _ _ _ Ho Hx) as (y & Hy & Ey). exists y. split; [done|by apply still_core].
  - exists []. split; [done|set_solver].
Qed.

Lemma scanned_heap P s h B B' L : B ⊆ B' → scanned P s (set_bk_heap h s) B B' L L.
Proof. intros HB. split; [done..| |]; [intros d x Hx; by exists x|]. exists []. split; [done|set_solver]. Qed.

(** A disk that is on the list, before and after. *)
Definition listed_disk s L d y : Prop := bk_devs s !! d = Some y ∧ disk_ok d y ∧ d ∈ L.

Lemma listed_disk_scanned P s s' B B' L L' d y :
  scanned P s s' B B' L L' → listed_disk s L d y → ∃ y', listed_disk s' L' d y' ∧ dev_core y' = dev_core y.
Proof.
  intros Hsc (Hy & Hdk & HL). destruct (sn_core _ _ _ _ _ _ _ Hsc d y Hy) as (y' & Hy' & Ey). exists y'. split; [|done].
  destruct (sn_list _ _ _ _ _ _ _ Hsc) as (ps & -> & _). split_and!; [done|by eapply core_disk|apply elem_of_app; by right].
Qed.

(** The partition that partition_create makes. *)
Definition made_part (dev num start count type : Z) (gpt : bool) (guid : option (list Z)) : partition_dev :=
  PartitionDev dev start count (wrap8 num) type gpt (default (replicate 16 0) guid).

(** A new partition that could not be registered is taken away again. *)
Lemma free_part_wp s s1 C B G L c p part x h (Q : unit → blk H D → Prop) :
  s1 = set_bk_devs (<[part_device p := x]> (bk_devs s)) (set_bk_parts (<[p := part]> (bk_parts s)) (set_bk_heap h s)) →
  bk_parts s !! p = None → bk_devs s !! part_device p = None → B !! p = None → partition_cache s = Some c →
  part_device p ∉ L → blk_ok s1 C (<[p := (Some c, sizeof_partition_dev_t)]> B) G L →
  (∀ h', blk_ok (set_bk_heap h' s) C B G L → Q tt (set_bk_heap h' s)) →
  wp (free_part p) Q s1.
Proof.
  intros Es Fp Fd Fb Hc HL Hok HQ. unfold free_part. wp_step. apply wp_gets. rewrite Es at 1. cbn [partition_cache set_bk_devs set_bk_parts set_bk_heap].
  rewrite Hc. cbn [kmem_free]. wp_step. unfold on_bk_heap. apply wp_zoom.
  eapply wp_mono; [eapply (kh_free_law _ C _ c p sizeof_partition_dev_t); [apply Hok|by rewrite lookup_insert_eq]|].
  cbn beta. intros _ h' Hh'. apply wp_modify.
  assert (blk_ok (set_bk_devs (delete (part_device p) (bk_devs s1))
    (set_bk_parts (delete p (bk_parts s1)) (set_bk_heap h' s1))) C B G L) as Hok'.
  { rewrite <-(delete_insert_id B p (Some c, sizeof_partition_dev_t)) by done.
    eapply (blk_ok_drop s1 C _ G L c); [done| |by rewrite Es|done|done]. rewrite Es. cbn. rewrite lookup_insert_eq. by eexists. }
  assert (set_bk_devs (delete (part_device p) (bk_devs s1))
    (set_bk_parts (delete p (bk_parts s1)) (set_bk_heap h' s1)) = set_bk_heap h' s) as Es'.
  { rewrite Es. cbn. rewrite !delete_insert_id by done. by destruct s. }
  rewrite Es' in Hok'. specialize (HQ h' Hok'). rewrite <-Es' in HQ. exact HQ.
Qed.

Lemma partition_create_wp (n : nat) P s C B G L dev y num start count type gpt guid (Q : option Z → blk H D → Prop) :
  blk_ok s C B G L → listed_disk s L dev y → 1 ≤ num ≤ 128 →
  part_ok (made_part dev num start count type gpt guid) y → P (made_part dev num start count type gpt guid) →
  (∀ r s' B' L', blk_ok s' C B' G L' → scanned P s s' B B' L L' → Q r s') →
  wp (partition_create (block_register_n (S n)) dev num start count type gpt guid) Q s.
Proof.
  intros Hok (Hy & Hdk & HLdev) Hnum Hpo HP HQ. unfold partition_create. wp_step. apply wp_gets. wp_step.
  unfold on_bk_heap. apply wp_zoom. destruct (partition_cache s) as [c|] eqn:Hc; cbn [kmem_alloc]; last first.
  { apply wp_ret. destruct s; cbn in *. apply wp_ret. by apply (HQ _ _ B L), scanned_refl. }
  eapply wp_mono; [apply (kh_alloc_law _ C B); [apply Hok|by apply (bo_cache _ _ _ _ _ Hok)]|].
  intros [p|] h; last first.
  { intros Hh. apply wp_ret. apply (HQ _ _ B L); [|by apply scanned_heap]. eapply blk_ok_heap; [done|done|apply Hok|done]. }
  intros (Hp0 & Hb & Hh). wp_step. apply (rd_dev_wp _ _ y); [done|]. wp_step. wp_step.
  fold (made_part dev num start count type gpt guid). set (part := made_part dev num start count type gpt guid) in *.
  set (x := BlockDevice _ _ _ _ _ _ _ _ _ _ _ _ _ _ _ _ _ _).
  assert (bk_parts s !! p = None) as Fp by by eapply new_part_fresh.
  assert (bk_devs s !! part_device p = None) as Fd by by eapply (new_dev_fresh s C B G L Hok c).
  assert (part_device p ∉ L) as HpL.
  { intros Hin. destruct (dev_list_in (bk_devs s) (block_devices s) L (part_device p)) as [? ?]; [apply Hok|done|congruence]. }
  pose proof (blk_ok_new s C B G L Hok c p part x y h Hb Hc Hh Hy Hdk Hpo eq_refl eq_refl eq_refl) as Hok1.
  match type of Hok1 with blk_ok ?t _ _ _ _ => set (s1 := t) in Hok1 end.
  match goal with |- wp ?k ?Q _ => change (wp k Q s1) end.
  assert (∀ r, r ≠ 0 → wp (if negb (r =? 0) then free_part p ;; mret None else mret (Some p)) Q s1) as Hfail.
  { intros r Hr. rewrite (proj2 (Z.eqb_neq r 0) Hr). cbn [negb]. wp_step.
    eapply (free_part_wp s s1 C B G L c); [done..|]. intros h' Hok'. apply wp_ret. eapply HQ; [done|by apply scanned_heap]. }
  destruct (partition_name_last (bd_name y) num Hnum ltac:(apply Hdk)) as (ch & Hlast & Hor).
  wp_step. eapply (register_wp n s1 C _ G L (part_device p) x ch); [done|by apply lookup_insert_eq|done|done|done|].
  intros s2 Hok2 Hen Hnm. destruct Hor as [Hsame|Hdig].
  { destruct (Hnm dev y); [done| |by symmetry]. unfold s1. cbn. rewrite lookup_insert_ne; [done|congruence]. }
  rewrite Hdig. apply wp_ret. eapply HQ; [exact Hok2|]. destruct Hen as [_ E1 E2 E3 E4]. split.
  - intros d t. by rewrite E1.
  - by rewrite E3.
  - by apply insert_subseteq.
  - rewrite E2. by apply insert_subseteq.
  - intros d z Hz. apply (core_lookup (bk_devs s1)); [exact E4|]. unfold s1. cbn. rewrite lookup_insert_ne; [done|congruence].
  - exists [part_device p]. split; [done|]. intros d ->%list_elem_of_singleton. exists p, part. split_and!; [done| |done].
    rewrite E2. apply lookup_insert_eq.
Qed.

(** *** One sector of the disk *)

Lemma sector_read_wp s C B G L dev y t (Q : Z * list Z → blk H D → Prop) :
  blk_ok s C B G L → listed_disk s L dev y → 0 ≤ t →
  (∀ r s', blk_ok s' C B G L → only_io s s' → same_data s s' →
     (r.1 = 0 → r.2 = dd_data (bk_disks s) dev t) → Q r s') →
  wp (block_read (Some dev) t 1 true) Q s.
Proof.
  intros Hok (Hy & Hdk & _) Ht HQ. unfold block_read, devs_fuel. wp_step. apply wp_gets.
  apply (disk_read_wp _ _ _ y); [done|apply Hdk|done|lia| |].
  - intros _. apply HQ; [done|done|by intros d z|done].
  - intros r s' Ho Hd _ Hr. apply HQ; [by eapply blk_ok_io|done|done|]. intros H0. rewrite (Hr H0).
    change (seqZ t 1) with [0 + t]. cbn [fmap list_fmap mjoin list_join]. by rewrite app_nil_r.
Qed.

Lemma sector_ok s dev y t : disk_ok dev y →
  alen (dd_data (bk_disks s) dev t) = bd_sector_size y ∧ bytes_ok (dd_data (bk_disks s) dev t).
Proof. intros Hdk. rewrite dd_sector_len. split; [apply Hdk|apply dd_bytes]. Qed.

Lemma overlay_all (l l' : list Z) : alen l' ≤ alen l → overlay l l' = l.
Proof. intros Hl. unfold overlay, alen in *. by rewrite drop_ge, app_nil_r by lia. Qed.

Lemma overlay_nil (l : list Z) : overlay l [] = l.
Proof. unfold overlay. by rewrite drop_nil, app_nil_r. Qed.

(** *** The table of an MBR *)

(** The partition is that of an entry of the table. *)
Definition from_mbr (dev : Z) (mbr : list Z) part : Prop := ∃ i, 0 ≤ i < 4 ∧
  pt_parent part = dev ∧ pt_is_gpt part = false ∧ pt_partition_number part = i + 1 ∧
  le_at mbr (446 + 16 * i + 4) 1 = Some (pt_type part) ∧
  le_at mbr (446 + 16 * i + 8) 4 = Some (pt_start_sector part) ∧
  le_at mbr (446 + 16 * i + 12) 4 = Some (pt_sector_count part).

Lemma mbr_entries_wp (k n : nat) s C B G L dev y mbr i count (Q : option Z → blk H D → Prop) :
  i + Z.of_nat n = 4 → 0 ≤ i → 512 ≤ alen mbr → bytes_ok mbr → blk_ok s C B G L → listed_disk s L dev y →
  (∀ r s' B' L', blk_ok s' C B' G L' → scanned (from_mbr dev mbr) s s' B B' L L' → Q r s') →
  wp (mbr_entries (block_register_n (S k)) n i dev mbr count) Q s.
Proof.
  intros Hin Hi Hlen Hby. revert s B L y i count Hin Hi Q. induction n as [|n IH]; intros s B L y i count Hin Hi Q Hok Hld HQ.
  { apply wp_ret. eapply HQ; [done|apply scanned_refl]. }
  cbn [mbr_entries]. destruct (le_at_Some mbr (446 + 16 * i + 4) 1 Hby) as (ty & Ety & _); [lia..|].
  destruct (le_at_Some mbr (446 + 16 * i + 8) 4 Hby) as (st & Est & Hst); [lia..|].
  destruct (le_at_Some mbr (446 + 16 * i + 12) 4 Hby) as (sc & Esc & Hsc); [lia..|].
  assert (∀ c', wp (mbr_entries (block_register_n (S k)) n (i + 1) dev mbr c') Q s) as Hskip.
  { intros c'. apply (IH s B L y); [lia|lia|done|done|done]. }
  wp_step. eapply wp_lift; [exact Ety|]. destruct (ty =? MBR_TYPE_EMPTY); [apply Hskip|].
  destruct (_ || _); [apply Hskip|]. destruct (ty =? MBR_TYPE_GPT_PROTECTIVE).
  { apply wp_ret. eapply HQ; [done|apply scanned_refl]. }
  wp_step. eapply wp_lift; [exact Est|]. wp_step. eapply wp_lift; [exact Esc|].
  destruct (Z.eqb_spec st 0); [apply Hskip|]. destruct (Z.eqb_spec sc 0); [apply Hskip|]. cbn [orb].
  wp_step. apply (rd_dev_wp _ _ y); [apply Hld|]. change (256 ^ 4) with (2 ^ 32) in *. rewrite wrap_small by lia.
  destruct (Z.ltb_spec (bd_sector_count y) (st + sc)) as [|Hle]; [apply Hskip|]. wp_step.
  apply (partition_create_wp k (from_mbr dev mbr) s C B G L dev y); [done|done|lia| | |].
  - split; [split_and!; cbn; lia|cbn; lia|done].
  - exists i. split_and!; try done; cbn; [lia|apply wrap_small; lia].
  - intros r s1 B1 L1 Hok1 Hs1. destruct (listed_disk_scanned _ _ _ _ _ _ _ _ _ Hs1 Hld) as (y1 & Hld1 & _).
    apply (IH s1 B1 L1 y1); [lia|lia|done|done|]. intros r' s2 B2 L2 Hok2 Hs2. eapply HQ; [done|by eapply scanned_trans].
Qed.

(** *** The table of a GPT *)

(** The [i]-th entry of a table of entries of [es] bytes at sector [tl], with
    [per] of them in a sector; [data] is the contents of the disk. *)
Record from_entry (dev : Z) (data : Z → list Z) (tl es per i : Z) part : Prop := FromEntry {
  fe_guid : bytes_at (data (tl +u64 (i / per))) (i mod per * es) 16 = Some (pt_type_guid part);
  fe_used : pt_type_guid part ≠ GPT_TYPE_UNUSED;
  fe_first : le_at (data (tl +u64 (i / per))) (i mod per * es + 32) 8 = Some (pt_start_sector part);
  fe_last : le_at (data (tl +u64 (i / per))) (i mod per * es + 40) 8 =
    Some (pt_start_sector part + pt_sector_count part - 1);
  fe_place : 0 < pt_start_sector part ∧ 0 < pt_sector_count part;
  fe_type : pt_type part = if decide (pt_type_guid part = GPT_TYPE_EFI_SYSTEM) then 0xEF
    else if decide (pt_type_guid part = GPT_TYPE_BASIC_DATA) then 0x0C else 0x83;
  fe_disk : pt_parent part = dev ∧ pt_is_gpt part = true }.

(** The partition is that of an entry of the table that the header, in sector 1,
    describes; of a longer table the first 128 entries count. *)
Definition from_gpt (dev : Z) (data : Z → list Z) (size : Z) part : Prop := ∃ tl ne es i,
  bytes_at (data 1) 0 8 = Some GPT_SIGNATURE ∧ le_at (data 1) 72 8 = Some tl ∧
  le_at (data 1) 80 4 = Some ne ∧ le_at (data 1) 84 4 = Some es ∧
  0 ≤ i < Z.min ne PARTITION_MAX ∧ from_entry dev data tl es (size / es) i part.

(** Two entries of one sector. *)
Lemma same_sector per i : 1 ≤ per → (i + 1) mod per ≠ 0 → (i + 1) / per = i / per.
Proof.
  intros Hp Hm. pose proof (Z.div_mod i per ltac:(lia)). pose proof (Z.mod_pos_bound i per ltac:(lia)).
  pose proof (Z.div_mod (i + 1) per ltac:(lia)). pose proof (Z.mod_pos_bound (i + 1) per ltac:(lia)). nia.
Qed.

(** An entry of the buffer lies inside it. *)
Lemma entry_inside per i size len : 1 ≤ per → 0 ≤ size → per * size ≤ len → 0 ≤ i mod per * size ∧ i mod per * size + size ≤ len.
Proof. intros Hp Hs Hl. pose proof (Z.mod_pos_bound i per ltac:(lia)). nia. Qed.

Section gpt.
Context C G (k : nat) (dev table_lba entry_size per : Z) (data : Z → list Z) (num : Z).
Hypothesis Hentry : 128 ≤ entry_size.
Hypothesis Hper : 1 ≤ per.
Hypothesis Hnum : num ≤ 128.

(** One of the first [num] entries. *)
Definition an_entry part : Prop := ∃ i, 0 ≤ i < num ∧ from_entry dev data table_lba entry_size per i part.

Lemma gpt_entries_wp (n : nat) s B L y i sector count part_num (Q : Z → blk H D → Prop) :
  0 ≤ i → i + Z.of_nat n = num → 1 ≤ part_num ≤ i + 1 → per * entry_size ≤ bd_sector_size y →
  alen sector = bd_sector_size y → (i mod per ≠ 0 → sector = data (table_lba +u64 (i / per))) →
  blk_ok s C B G L → listed_disk s L dev y → (∀ t, dd_data (bk_disks s) dev t = data t) →
  (∀ r s' B' L', blk_ok s' C B' G L' → scanned an_entry s s' B B' L L' → Q r s') →
  wp (gpt_entries (block_register_n (S k)) n i dev table_lba entry_size per sector count part_num) Q s.
Proof.
  revert s B L y i sector count part_num Q.
  induction n as [|n IH]; intros s B L y i sector count part_num Q Hi Hn Hpn Hsz Hlen Hsec Hok Hld Hdata HQ.
  { apply wp_ret. eapply HQ; [done|apply scanned_refl]. }
  cbn [gpt_entries]. wp_step. set (P := λ (o : option (list Z)) s1, blk_ok s1 C B G L ∧ scanned an_entry s s1 B B L L ∧
    match o with None => True | Some l => l = data (table_lba +u64 (i / per)) end).
  destruct (sector_ok s dev y (table_lba +u64 (i / per))) as [Hl Hb]; [apply Hld|]. rewrite Hdata in Hl, Hb.
  apply (wp_mono _ P).
  { destruct (Z.eqb_spec (i mod per) 0); [|apply wp_ret; split_and!; [done|apply scanned_refl|by apply Hsec]].
    wp_step. apply (sector_read_wp s C B G L dev y); [done|done|by apply wrap_bounds|].
    intros r s1 Hok1 Ho Hd Hr. apply wp_ret. split_and!; [done|by apply scanned_io|].
    destruct (Z.eqb_spec r.1 0) as [H0|]; [|done]. rewrite (Hr H0), Hdata. apply overlay_all. lia. }
  clear Hlen Hsec. intros [buf|] s1 (Hok1 & Hs1 & Hbuf); last first.
  { apply wp_ret. by eapply HQ. }
  subst buf. destruct (listed_disk_scanned _ _ _ _ _ _ _ _ _ Hs1 Hld) as (y1 & Hld1 & Ey).
  assert (bd_sector_size y1 = bd_sector_size y) as Esz by (unfold dev_core in Ey; congruence).
  set (buf := data (table_lba +u64 (i / per))) in *.
  assert (∀ c' p' s2 B2 L2, 1 ≤ p' ≤ i + 2 → blk_ok s2 C B2 G L2 → scanned an_entry s1 s2 B B2 L L2 →
    wp (gpt_entries (block_register_n (S k)) n (i + 1) dev table_lba entry_size per buf c' p') Q s2) as Hnext.
  { intros c' p' s2 B2 L2 Hp' Hok2 Hs2. destruct (listed_disk_scanned _ _ _ _ _ _ _ _ _ Hs2 Hld1) as (y2 & Hld2 & Ey2).
    assert (bd_sector_size y2 = bd_sector_size y) as Esz2 by (unfold dev_core in Ey2; congruence).
    pose proof (scanned_trans _ _ _ _ _ _ _ _ _ _ Hs1 Hs2) as Hs12.
    apply (IH s2 B2 L2 y2); rewrite ?Esz2; [lia|lia|lia|done|done| |done|done| |].
    - intros Hm. unfold buf. by rewrite (same_sector per i).
    - intros t. by rewrite (sn_data _ _ _ _ _ _ _ Hs12).
    - intros r s3 B3 L3 Hok3 Hs3. eapply HQ; [done|]. by eapply scanned_trans. }
  assert (∀ c' p', 1 ≤ p' ≤ i + 2 →
    wp (gpt_entries (block_register_n (S k)) n (i + 1) dev table_lba entry_size per buf c' p') Q s1) as Hskip.
  { intros c' p' Hp'. apply (Hnext c' p' s1 B L); [done|done|apply scanned_refl]. }
  destruct (entry_inside per i entry_size (bd_sector_size y)) as [O1 O2]; [done|lia|done|].
  set (off := i mod per * entry_size) in *.
  destruct (bytes_at_Some buf off 16) as (guid & Eg & _); [lia..|].
  destruct (le_at_Some buf (off + 32) 8 Hb) as (first & Ef & Hf); [lia..|].
  destruct (le_at_Some buf (off + 40) 8 Hb) as (last_lba & El & Hll); [lia..|].
  wp_step. eapply wp_lift; [exact Eg|]. unfold guid_equal.
  destruct (bool_decide_reflect (guid = GPT_TYPE_UNUSED)) as [|Hused]; [by apply Hskip; lia|].
  wp_step. eapply wp_lift; [exact Ef|]. wp_step. eapply wp_lift; [exact El|].
  change (256 ^ 8) with (2 ^ 64) in *.
  destruct (Z.eqb_spec first 0); [by apply Hskip; lia|]. destruct (Z.ltb_spec last_lba first); [by apply Hskip; lia|]. cbn [orb].
  rewrite (wrap_small 64) by lia. wp_step.
  apply (partition_create_wp k an_entry s1 C B G L dev y1); [done|done|lia| | |].
  - split; [split_and!; cbn; lia|cbn; lia|done].
  - exists i. split; [lia|]. split; cbn; [done|done|done| |lia| |done].
    + replace (first + (last_lba - first + 1) - 1) with last_lba by lia. done.
    + unfold bool_decide. by repeat case_decide.
  - intros [part|] s2 B2 L2 Hok2 Hs2; eapply Hnext; try done; lia.
Qed.
End gpt.

(** *** The scan *)

Lemma sector_alloc_wp s C B G L n (Q : option Z → blk H D → Prop) :
  blk_ok s C B G L → 0 ≤ n ≤ KMALLOC_LIMIT →
  (∀ h, blk_ok (set_bk_heap h s) C B G L → Q None (set_bk_heap h s)) →
  (∀ b h, B !! b = None → G !! b = None → blk_ok (set_bk_heap h s) C (<[b := (None, n)]> B) G L →
     Q (Some b) (set_bk_heap h s)) →
  wp (on_bk_heap (kh_kmalloc n)) Q s.
Proof.
  intros Hok Hn HN HS. unfold on_bk_heap. apply wp_zoom.
  eapply wp_mono; [by apply (kh_kmalloc_law _ C B); [apply Hok|]|]. intros [b|] h.
  - intros (_ & _ & Hb & Hh). apply HS; [done| |by apply blk_ok_kmalloc].
    destruct (G !! b) eqn:E; [|done]. pose proof (lookup_weaken _ _ _ _ E (bo_drivers _ _ _ _ _ Hok)). congruence.
  - intros Hh. apply HN. eapply blk_ok_heap; [done|done|apply Hok|done].
Qed.

Lemma sector_free_wp P s s2 C B B2 G L L2 b n (Q : unit → blk H D → Prop) :
  B !! b = None → G !! b = None → blk_ok s2 C B2 G L2 → scanned P s s2 (<[b := (None, n)]> B) B2 L L2 →
  (∀ s3 B3, blk_ok s3 C B3 G L2 → scanned P s s3 B B3 L L2 → Q tt s3) →
  wp (on_bk_heap (kh_kfree b)) Q s2.
Proof.
  intros Hb Hg Hok [S1 S2 S3 S4 S5 S6] HQ. unfold on_bk_heap. apply wp_zoom.
  assert (B2 !! b = Some (None, n)) as Hb2 by (apply (lookup_weaken (<[b := (None, n)]> B)); [apply lookup_insert_eq|done]).
  eapply wp_mono; [by apply (kh_kfree_law _ C B2 b n); [apply Hok|]|]. cbn beta. intros [] h Hh.
  apply (HQ _ (delete b B2)); [by eapply blk_ok_kfree|]. split; try done.
  apply map_subseteq_spec. intros q v Hq. rewrite lookup_delete_ne by congruence.
  apply (lookup_weaken (<[b := (None, n)]> B)); [|done]. rewrite lookup_insert_ne; [done|congruence].
Qed.

Lemma gpt_scan_wp (k : nat) s C B G L dev y (Q : option Z → blk H D → Prop) :
  blk_ok s C B G L → listed_disk s L dev y →
  (∀ r s' B' L', blk_ok s' C B' G L' → scanned (from_gpt dev (dd_data (bk_disks s) dev) (bd_sector_size y)) s s' B B' L L' → Q r s') →
  wp (gpt_scan (block_register_n (S k)) dev) Q s.
Proof.
  intros Hok Hld HQ. pose proof Hld as (Hy & Hdk & HL). pose proof (do_size _ _ Hdk) as Hsz. unfold gpt_scan.
  wp_step. apply (rd_dev_wp _ _ y); [done|]. wp_step. apply (sector_alloc_wp s C B G L); [done|lia| |].
  { intros h Hok1. apply wp_ret. eapply HQ; [done|by apply scanned_heap]. }
  intros b h Hb Hg Hok1. set (B1 := <[b := (None, bd_sector_size y)]> B) in *. set (s1 := set_bk_heap h s) in *.
  wp_step. apply (sector_read_wp s1 C B1 G L dev y); [done|done|lia|]. intros r s2 Hok2 Ho2 Hd2 Hr.
  set (P := from_gpt dev (dd_data (bk_disks s) dev) (bd_sector_size y)) in *.
  assert (scanned P s s2 B1 B1 L L) as Hs2.
  { eapply scanned_trans; [by apply (scanned_heap _ s h)|by apply scanned_io]. }
  assert (wp (on_bk_heap (kh_kfree b) ;; mret None) Q s2) as Hfail.
  { wp_step. eapply (sector_free_wp _ s s2 C B B1); [done|done|done|exact Hs2|]. intros s3 B3 Hok3 Hs3. apply wp_ret. by eapply HQ. }
  destruct (Z.eqb_spec r.1 0) as [H0|]; cbn [negb]; [|done]. rewrite (Hr H0).
  destruct (sector_ok s1 dev y 1 Hdk) as [Hlen Hby]. rewrite overlay_nil.
  set (hd := dd_data (bk_disks s1) dev 1) in *.
  destruct (bytes_at_Some hd 0 8) as (sig & Esig & _); [lia..|].
  destruct (le_at_Some hd 12 4 Hby) as (hs & Ehs & _); [lia..|].
  destruct (le_at_Some hd 84 4 Hby) as (es & Ees & Hes); [lia..|].
  destruct (le_at_Some hd 80 4 Hby) as (ne & Ene & Hne); [lia..|].
  destruct (le_at_Some hd 72 8 Hby) as (tl & Etl & Htl); [lia..|].
  wp_step. eapply wp_lift; [exact Esig|]. destruct (bool_decide_reflect (sig = GPT_SIGNATURE)) as [->|]; cbn [negb]; [|done].
  wp_step. eapply wp_lift; [exact Ehs|]. wp_step. eapply wp_lift; [exact Ees|].
  destruct (_ <? sizeof_gpt_header_t); [done|].
  destruct (Z.ltb_spec es sizeof_gpt_partition_t) as [|Hes']; cbn [orb]; [done|].
  unfold sizeof_gpt_partition_t in Hes'.
  wp_step. eapply wp_lift; [exact Ene|]. wp_step. eapply wp_lift; [exact Etl|].
  destruct (Z.eqb_spec (bd_sector_size y / es) 0) as [|Hper]; [done|].
  assert (1 ≤ bd_sector_size y / es) as Hper' by (pose proof (Z.div_pos (bd_sector_size y) es); lia).
  destruct (listed_disk_scanned _ _ _ _ _ _ _ _ _ Hs2 Hld) as (y2 & Hld2 & Ey).
  assert (bd_sector_size y2 = bd_sector_size y) as Esz by (unfold dev_core in Ey; congruence).
  set (num := if PARTITION_MAX <? ne then PARTITION_MAX else ne).
  assert (num = Z.min ne PARTITION_MAX ∧ 0 ≤ num ≤ 128) as [Enum Hnum].
  { unfold num, PARTITION_MAX. destruct (Z.ltb_spec 128 ne); lia. }
  wp_step. apply (gpt_entries_wp C G k dev tl es (bd_sector_size y / es) (dd_data (bk_disks s) dev) num Hes' Hper'
    (proj2 Hnum) _ s2 B1 L y2); [lia|lia|lia| |by rewrite Esz| |done|done| |].
  - rewrite Esz, Z.mul_comm. apply Z.mul_div_le. lia.
  - by rewrite Z.mod_0_l by lia.
  - intros t. by rewrite (sn_data _ _ _ _ _ _ _ Hs2).
  - intros cnt s3 B3 L3 Hok3 Hs3. apply (scanned_mono _ P) in Hs3; last first.
    { intros part (i & Hi & Hp). exists tl, ne, es, i. by rewrite <-Enum. }
    wp_step. eapply (sector_free_wp _ s s3 C B B3); [done|done|done|by eapply scanned_trans|].
    intros s4 B4 Hok4 Hs4. apply wp_ret. by eapply HQ.
Qed.

(** A partition that came from the tables of the disk. *)
Definition from_table (dev : Z) (data : Z → list Z) (size : Z) part : Prop :=
  from_mbr dev (data 0) part ∨ from_gpt dev data size part.

Lemma from_gpt_same dev data data' size size' part :
  (∀ t, data' t = data t) → size' = size → from_gpt dev data' size' part → from_gpt dev data size part.
Proof.
  intros Hd ->. unfold from_gpt. rewrite Hd. intros (tl & ne & es & i & H1 & H2 & H3 & H4 & H5 & [E1 E2 E3 E4 E5 E6 E7]).
  rewrite Hd in E1, E3, E4. exists tl, ne, es, i. do 5 (split; [done|]). by split.
Qed.

Lemma partition_scan_wp (k : nat) s C B G L dev y (Q : Z → blk H D → Prop) :
  blk_ok s C B G L → listed_disk s L dev y →
  (∀ r s' B' L', blk_ok s' C B' G L' → scanned (from_table dev (dd_data (bk_disks s) dev) (bd_sector_size y)) s s' B B' L L' → Q r s') →
  wp (partition_scan (block_register_n (S k)) (Some dev)) Q s.
Proof.
  intros Hok Hld HQ. pose proof Hld as (Hy & Hdk & HL). pose proof (do_size _ _ Hdk) as Hsz. unfold partition_scan.
  wp_step. apply (rd_dev_wp _ _ y); [done|]. wp_step. apply (sector_alloc_wp s C B G L); [done|lia| |].
  { intros h Hok1. apply wp_ret. eapply HQ; [done|by apply scanned_heap]. }
  intros b h Hb Hg Hok1. set (B1 := <[b := (None, bd_sector_size y)]> B) in *. set (s1 := set_bk_heap h s) in *.
  wp_step. apply (sector_read_wp s1 C B1 G L dev y); [done|done|lia|]. intros r s2 Hok2 Ho2 Hd2 Hr.
  set (P := from_table dev (dd_data (bk_disks s) dev) (bd_sector_size y)) in *.
  assert (scanned P s s2 B1 B1 L L) as Hs2.
  { eapply scanned_trans; [by apply (scanned_heap _ s h)|by apply scanned_io]. }
  assert (∀ v, wp (on_bk_heap (kh_kfree b) ;; mret v) Q s2) as Hfail.
  { intros v. wp_step. eapply (sector_free_wp _ s s2 C B B1); [done|done|done|exact Hs2|]. intros s3 B3 Hok3 Hs3. apply wp_ret. by eapply HQ. }
  destruct (Z.eqb_spec r.1 0) as [H0|]; cbn [negb]; [|done]. rewrite (Hr H0).
  destruct (sector_ok s1 dev y 0 Hdk) as [Hlen Hby]. rewrite overlay_nil.
  change (dd_data (bk_disks s1) dev 0) with (dd_data (bk_disks s) dev 0) in *. set (mbr := dd_data (bk_disks s) dev 0) in *.
  destruct (le_at_Some mbr 510 2 Hby) as (sig & Esig & _); [lia..|].
  wp_step. eapply wp_lift; [exact Esig|]. destruct (sig =? MBR_SIGNATURE); cbn [negb]; [|done].
  destruct (listed_disk_scanned _ _ _ _ _ _ _ _ _ Hs2 Hld) as (y2 & Hld2 & _).
  wp_step. unfold mbr_scan. apply (mbr_entries_wp k 4 s2 C B1 G L dev y2); [lia|lia|lia|done|done|done|].
  intros cnt s3 B3 L3 Hok3 Hs3. apply (scanned_mono _ P) in Hs3; last first.
  { intros part Hp. by left. }
  wp_step. eapply (sector_free_wp P s s3 C B B3); [done|done|done|by eapply scanned_trans|]. intros s4 B4 Hok4 Hs4.
  destruct cnt as [cnt|]; [by apply wp_ret; eapply HQ|]. wp_step.
  destruct (listed_disk_scanned _ _ _ _ _ _ _ _ _ Hs4 Hld) as (y4 & Hld4 & Ey4).
  apply (gpt_scan_wp k s4 C B4 G L3 dev y4); [done|done|]. intros cnt s5 B5 L5 Hok5 Hs5. apply wp_ret.
  eapply HQ; [exact Hok5|]. eapply scanned_trans; [exact Hs4|]. eapply scanned_mono; [|exact Hs5].
  intros part Hp. right. revert Hp. apply from_gpt_same.
  - exact (sn_data _ _ _ _ _ _ _ Hs4 dev).
  - unfold dev_core in Ey4. congruence.
Qed.

(** ** Property *)

(** C14. Registering a disk returns, whatever the disk holds, although it registers
    the partitions of the disk in turn.  It fails and changes nothing, or the
    disk is put on the list and in front of it devices of partitions, each with
    the first sector, the length and the type that an entry of the MBR, or of the
    table that the GPT header points to, gives; the table of devices stays
    well-formed: no name twice, no more than 16 devices, each partition of an MBR
    inside its disk, each descriptor in its own block of the heap.  No disk is
    written. *)
Theorem block_register_correct s C B G L d x :
  blk_ok s C B G L → bk_devs s !! d = Some x → disk_ok d x → d ∉ L →
  ∃ r s' B' L', block_register (Some d) s = Some (r, s') ∧ blk_ok s' C B' G L' ∧ B ⊆ B' ∧ same_data s s' ∧
    ((r ≠ 0 ∧ s' = s ∧ L' = L) ∨
     (r = 0 ∧ ∃ ps, L' = ps ++ d :: L ∧ ∀ e, e ∈ ps → ∃ p part, e = part_device p ∧
        bk_parts s' !! p = Some part ∧ from_table d (dd_data (bk_disks s) d) (bd_sector_size x) part)).
Proof.
  intros Hok Hx Hdk Hd. set (R := λ r s', ∃ B' L', blk_ok s' C B' G L' ∧ B ⊆ B' ∧ same_data s s' ∧
    ((r ≠ 0 ∧ s' = s ∧ L' = L) ∨
     (r = 0 ∧ ∃ ps, L' = ps ++ d :: L ∧ ∀ e, e ∈ ps → ∃ p part, e = part_device p ∧
        bk_parts s' !! p = Some part ∧ from_table d (dd_data (bk_disks s) d) (bd_sector_size x) part))).
  assert (wp (block_register (Some d)) R s) as Hwp; last first.
  { destruct (wp_elim _ _ _ Hwp) as (r & s' & Hrun & B' & L' & ?). by exists r, s', B', L'. }
  assert (∀ r, r ≠ 0 → R r s) as Hfail.
  { intros r Hr. exists B, L. split_and!; [done|done|by intros e t|by left]. }
  destruct (last (bd_name x)) as [c|] eqn:Hlast; last first.
  { unfold block_register. cbn [block_register_n]. wp_step. apply (rd_dev_wp _ _ x); [done|]. rewrite Hlast. by apply wp_ret, Hfail. }
  unfold block_register. apply (register_wp 1 s C B G L d x c); [done..|].
  intros s1 Hok1 [E1 E2 E3 E4 E5] _. destruct (is_digit c).
  { exists B, (d :: L). split_and!; [done|done|intros e t; by rewrite E2|]. right. split; [done|]. exists []. split; [done|set_solver]. }
  destruct (core_lookup _ _ _ _ E5 Hx) as (x1 & Hx1 & Ex).
  apply (partition_scan_wp 0 s1 C B G (d :: L) d x1); [done|split_and!; [done|by eapply core_disk|by left]|].
  assert (bd_sector_size x1 = bd_sector_size x) as -> by (unfold dev_core in Ex; congruence).
  rewrite E2. intros r s2 B2 L2 Hok2 [S1 S2 S3 S4 S5 S6]. exists B2, L2. split_and!; [done|done| |by right].
  intros e t. by rewrite S1, E2.
Qed.
End reg.
