(* ===== verification/IoSched.v ===== *)
(** * The I/O scheduler (drivers/io_sched.[ch])

    The queue of block requests of a device: first in, first out, with adjacent
    requests merged.  The requests are those of Block.v; the scheduler
    instances come from a cache of the kernel heap. *)

From stdpp Require Import gmap strings list.
From S2P Require Import Prelude KHeap Block BlockIO.

(** ** Data (io_sched.h) *)

(** The operations of an instance are always those of the NOOP scheduler. *)
Record io_scheduler := IoScheduler {
  is_dev : Z;
  is_queue_head : option Z;
  is_queue_tail : option Z;
  is_queue_len : Z;
  is_added : Z;
  is_dispatched : Z;
  is_merged : Z }.

Definition sizeof_io_scheduler_t : Z := 72.

Definition set_is_queue (head tail : option Z) (len added dispatched : Z) (i : io_scheduler) : io_scheduler :=
  IoScheduler (is_dev i) head tail len added dispatched (is_merged i).
Definition set_is_merged (n : Z) (i : io_scheduler) : io_scheduler :=
  IoScheduler (is_dev i) (is_queue_head i) (is_queue_tail i) (is_queue_len i) (is_added i) (is_dispatched i) n.

Section sched.
Context {H : Type} {KH : KHeap H}.
Context {D : Type} {DD : DiskDriver D}.

Record iosys := IoSys {
  io_blk : blk H D;
  io_scheds : gmap Z io_scheduler;
  io_sched_cache : option Z }.

Definition set_io_blk (b : blk H D) (s : iosys) : iosys := IoSys b (io_scheds s) (io_sched_cache s).
Definition set_io_scheds (m : gmap Z io_scheduler) (s : iosys) : iosys := IoSys (io_blk s) m (io_sched_cache s).

Abbreviation IM := (M iosys).

Definition blk_ {A} : M (blk H D) A → IM A := zoom io_blk set_io_blk.
Definition rd_sched (i : Z) : IM io_scheduler := s ← get; lift (io_scheds s !! i).
Definition upd_sched (i : Z) (f : io_scheduler → io_scheduler) : IM unit :=
  x ← rd_sched i; modify (λ s, set_io_scheds (<[i := f x]> (io_scheds s)) s).

(** ** The NOOP scheduler *)

Definition noop_init (sched : Z) : IM Z :=
  upd_sched sched (λ i, set_is_queue None None 0 (is_added i) (is_dispatched i) i) ;; mret 0.

(** No queue is longer than there are requests. *)
Definition reqs_fuel : IM nat := gets (λ s, S (size (bk_reqs (io_blk s)))).

Fixpoint free_requests (fuel : nat) (req : option Z) : IM unit :=
  match req, fuel with
  | None, _ => mret tt
  | Some _, O => fault
  | Some r, S fuel' =>
      x ← blk_ (rd_req r); blk_ (block_request_free (Some r)) ;; free_requests fuel' (rq_next x)
  end.

Definition noop_exit (sched : Z) : IM unit :=
  i ← rd_sched sched;
  fuel ← reqs_fuel;
  free_requests fuel (is_queue_head i) ;;
  upd_sched sched (λ i, set_is_queue None None 0 (is_added i) (is_dispatched i) i).

Definition noop_add_request (sched req : Z) : IM unit :=
  blk_ (upd_req req (set_rq_next None)) ;;
  i ← rd_sched sched;
  let count i head := set_is_queue head (Some req) (is_queue_len i +u32 1) (is_added i +u64 1) (is_dispatched i) i in
  match is_queue_tail i with
  | Some tail =>
      blk_ (upd_req tail (set_rq_next (Some req))) ;;
      upd_sched sched (λ i, count i (is_queue_head i))
  | None => upd_sched sched (λ i, count i (Some req))
  end.

Definition noop_dispatch (sched : Z) : IM (option Z) :=
  i ← rd_sched sched;
  match is_queue_head i with
  | None => mret None
  | Some req =>
      r ← blk_ (rd_req req);
      blk_ (upd_req req (set_rq_next None)) ;;
      upd_sched sched (λ i, set_is_queue (rq_next r) (match rq_next r with None => None | _ => is_queue_tail i end)
                              (is_queue_len i -u32 1) (is_added i) (is_dispatched i +u64 1) i) ;;
      mret (Some req)
  end.

(** The loop of noop_merge, from the request [cur] on. *)
Fixpoint merge_from (fuel : nat) (sched : Z) (cur : option Z) (new : block_request) : IM bool :=
  match cur, fuel with
  | None, _ => mret false
  | Some _, O => fault
  | Some req, S fuel' =>
      r ← blk_ (rd_req req);
      if negb (bool_decide (rq_type r = rq_type new)) then merge_from fuel' sched (rq_next r) new
      else if (rq_sector r +u64 rq_count r) =? rq_sector new then
        blk_ (upd_req req (set_rq_span (rq_sector r) (rq_count r +u32 rq_count new))) ;;
        upd_sched sched (λ i, set_is_merged (is_merged i +u64 1) i) ;; mret true
      else if (rq_sector new +u64 rq_count new) =? rq_sector r then
        blk_ (upd_req req (set_rq_span (rq_sector new) (rq_count r +u32 rq_count new))) ;;
        upd_sched sched (λ i, set_is_merged (is_merged i +u64 1) i) ;; mret true
      else merge_from fuel' sched (rq_next r) new
  end.

Definition noop_merge (sched new_req : Z) : IM bool :=
  i ← rd_sched sched;
  match is_queue_head i with
  | None => mret false
  | Some head => new ← blk_ (rd_req new_req); fuel ← reqs_fuel; merge_from fuel sched (Some head) new
  end.

Definition noop_completed (sched req : Z) : IM unit := mret tt.

(** ** The interface *)

Definition io_sched_init : IM unit :=
  c ← blk_ (on_bk_heap (kh_cache_create "io_sched" sizeof_io_scheduler_t 0 0));
  modify (λ s, IoSys (io_blk s) (io_scheds s) c).

Definition io_sched_create (dev : option Z) : IM (option Z) :=
  match dev with
  | None => mret None
  | Some d =>
      c ← gets io_sched_cache;
      r ← blk_ (on_bk_heap (kmem_alloc c));
      match r with
      | None => mret None
      | Some sched =>
          modify (λ s, set_io_scheds (<[sched := IoScheduler d None None 0 0 0 0]> (io_scheds s)) s) ;;
          res ← noop_init sched;
          if negb (res =? 0) then
            blk_ (on_bk_heap (kmem_free c sched)) ;;
            modify (λ s, set_io_scheds (delete sched (io_scheds s)) s) ;; mret None
          else mret (Some sched)
      end
  end.

Definition io_sched_destroy (sched : option Z) : IM unit :=
  match sched with
  | None => mret tt
  | Some i =>
      noop_exit i ;;
      c ← gets io_sched_cache;
      blk_ (on_bk_heap (kmem_free c i)) ;;
      modify (λ s, set_io_scheds (delete i (io_scheds s)) s)
  end.

Definition io_sched_add_request (sched req : option Z) : IM unit :=
  match sched, req with
  | Some i, Some r =>
      m ← noop_merge i r;
      if (m : bool) then blk_ (block_request_free (Some r)) else noop_add_request i r
  | _, _ => mret tt
  end.

Definition io_sched_dispatch (sched : option Z) : IM (option Z) :=
  match sched with None => mret None | Some i => noop_dispatch i end.

Definition io_sched_completed (sched req : option Z) : IM unit :=
  match sched, req with Some i, Some r => noop_completed i r | _, _ => mret tt end.

End sched.

Arguments iosys H D : clear implicits.

(** ** Queues *)

Abbreviation queue := (list (Z * block_request)).

(** The requests reached from [o]. *)
Fixpoint rq_chain (m : gmap Z block_request) (o : option Z) (Q : queue) : Prop :=
  match Q with
  | [] => o = None
  | (x, r) :: Q' => o = Some x ∧ m !! x = Some r ∧ rq_chain m (rq_next r) Q'
  end.

Record rq_queue_ok (m : gmap Z block_request) (i : io_scheduler) (Q : queue) : Prop := QueueOk {
  qo_chain : rq_chain m (is_queue_head i) Q;
  qo_nodup : NoDup Q.*1;
  qo_tail : is_queue_tail i = last Q.*1 }.

(** The sectors a request asks for, and those all requests of a queue ask for. *)
Definition rq_span (r : block_request) : list (block_req_type * Z) := (rq_type r,.) <$> seqZ (rq_sector r) (rq_count r).
Definition cover (Q : queue) : list (block_req_type * Z) := mjoin (rq_span ∘ snd <$> Q).

(** The numbers of a request are those of sectors. *)
Definition req_ok (r : block_request) : Prop := 0 ≤ rq_sector r ∧ 0 ≤ rq_count r ∧ rq_sector r + rq_count r < 2 ^ 64.

Lemma rq_chain_ext m m' o Q : (∀ x, x ∈ Q.*1 → m' !! x = m !! x) → rq_chain m o Q → rq_chain m' o Q.
Proof.
  revert o. induction Q as [|[x r] Q IH]; cbn; [done|]. intros o Hm (-> & Hx & Hq).
  split_and!; [done|rewrite Hm; [done|by left]|]. apply IH; [|done]. intros y Hy. apply Hm. by right.
Qed.

Lemma rq_chain_in m o Q x r : rq_chain m o Q → (x, r) ∈ Q → m !! x = Some r.
Proof.
  revert o. induction Q as [|[y z] Q IH]; cbn; [set_solver|]. intros o (-> & Hy & Hq) [[= -> ->]|Hin]%elem_of_cons; [done|by eapply IH].
Qed.

(** A request in the middle changes, but for the pointer. *)
Lemma rq_chain_update m o Q1 x r r' Q2 :
  rq_next r' = rq_next r → NoDup (Q1 ++ (x, r) :: Q2).*1 → rq_chain m o (Q1 ++ (x, r) :: Q2) →
  rq_chain (<[x := r']> m) o (Q1 ++ (x, r') :: Q2).
Proof.
  intros Hn. revert o. induction Q1 as [|[y z] Q1 IH]; cbn; intros o Hnd.
  - intros (-> & Hx & Hq). split_and!; [done|apply lookup_insert_eq|]. rewrite Hn.
    eapply rq_chain_ext; [|done]. intros y Hy. apply NoDup_cons in Hnd as [Hnot _].
    apply lookup_insert_ne. by intros ->.
  - intros (-> & Hy & Hq). apply NoDup_cons in Hnd as [Hnot Hnd]. split_and!; [done| |by apply IH].
    rewrite lookup_insert_ne; [done|]. intros ->. apply Hnot. rewrite fmap_app. apply elem_of_app. right. by left.
Qed.

(** A request is put behind the last one. *)
Lemma rq_chain_snoc m o Q t rt req new :
  rq_chain m o (Q ++ [(t, rt)]) → NoDup (Q ++ [(t, rt)]).*1 → req ∉ (Q ++ [(t, rt)]).*1 → rq_next new = None →
  rq_chain (<[t := set_rq_next (Some req) rt]> (<[req := new]> m)) o (Q ++ [(t, set_rq_next (Some req) rt); (req, new)]).
Proof.
  revert o. induction Q as [|[y z] Q IH]; cbn; intros o.
  - intros (-> & Ht & _) _ [Hne _]%not_elem_of_cons Hn. split_and!; [done|apply lookup_insert_eq|done| |done].
    rewrite lookup_insert_ne, lookup_insert_eq; [done|by apply not_eq_sym].
  - intros (-> & Hy & Hq) [Hnot Hnd]%NoDup_cons [Hne Hreq]%not_elem_of_cons Hn. split_and!; [done| |by apply IH].
    rewrite !lookup_insert_ne; [done|done|]. intros ->. apply Hnot. rewrite fmap_app. apply elem_of_app. right. by left.
Qed.

(** Two spans that meet make one. *)
Lemma span_join r r' ty a n k :
  rq_type r = ty → rq_type r' = ty → rq_sector r' = a → rq_count r' = n + k → 0 ≤ n → 0 ≤ k →
  rq_span r' = ((ty,.) <$> seqZ a n) ++ ((ty,.) <$> seqZ (a + n) k).
Proof. intros _ E1 E2 E3 Hn Hk. unfold rq_span. rewrite E1, E2, E3, seqZ_app by lia. by rewrite fmap_app. Qed.

Lemma cover_app Q Q' : cover (Q ++ Q') = cover Q ++ cover Q'.
Proof. unfold cover. by rewrite fmap_app, join_app. Qed.

Lemma cover_cons x r Q : cover ((x, r) :: Q) = rq_span r ++ cover Q.
Proof. done. Qed.

Section thm.
Context {H : Type} {KH : KHeap H} {KHL : KHeapLaws H}.
Context {D : Type} {DD : DiskDriver D}.
Implicit Types (s : iosys H D) (Q : queue) (i : io_scheduler) (r new : block_request).

Abbreviation reqs s := (bk_reqs (io_blk s)).
Definition with_reqs (m : gmap Z block_request) s : iosys H D := set_io_blk (set_bk_reqs m (io_blk s)) s.

Lemma rd_req_wp s x r (K : block_request → iosys H D → Prop) : reqs s !! x = Some r → K r s → wp (blk_ (rd_req x)) K s.
Proof. intros Hx HK. unfold blk_. apply wp_zoom. unfold rd_req. wp_step. wp_step. eapply wp_lift; [exact Hx|]. by destruct s. Qed.

Lemma upd_req_wp s x r f (K : unit → iosys H D → Prop) :
  reqs s !! x = Some r → K tt (with_reqs (<[x := f r]> (reqs s)) s) → wp (blk_ (upd_req x f)) K s.
Proof.
  intros Hx HK. unfold blk_. apply wp_zoom. unfold upd_req, rd_req. wp_step. wp_step. wp_step. eapply wp_lift; [exact Hx|]. by wp_step.
Qed.

Lemma rd_sched_wp s k i (K : io_scheduler → iosys H D → Prop) : io_scheds s !! k = Some i → K i s → wp (rd_sched k) K s.
Proof. intros Hx HK. unfold rd_sched. wp_step. wp_step. by eapply wp_lift. Qed.

Lemma upd_sched_wp s k i f (K : unit → iosys H D → Prop) :
  io_scheds s !! k = Some i → K tt (set_io_scheds (<[k := f i]> (io_scheds s)) s) → wp (upd_sched k f) K s.
Proof. intros Hx HK. unfold upd_sched. wp_step. apply (rd_sched_wp _ _ i); [done|]. by wp_step. Qed.

(** ** Merging *)

(** What noop_merge leads to: nothing, or one request of the queue covers the
    sectors of the new one as well. *)
Definition merged s s' k i Q new (ok : bool) : Prop :=
  if ok then ∃ Q1 x r r' Q2, Q = Q1 ++ (x, r) :: Q2 ∧ rq_next r' = rq_next r ∧ rq_buffer r' = rq_buffer r ∧
    rq_span r' ≡ₚ rq_span r ++ rq_span new ∧
    s' = set_io_scheds (<[k := set_is_merged (is_merged i +u64 1) i]> (io_scheds s)) (with_reqs (<[x := r']> (reqs s)) s)
  else s' = s.

Lemma merge_from_wp (fuel : nat) s k i o Q new (K : bool → iosys H D → Prop) :
  io_scheds s !! k = Some i → rq_chain (reqs s) o Q → (length Q ≤ fuel)%nat → req_ok new →
  (∀ x r, (x, r) ∈ Q → req_ok r ∧ rq_count r + rq_count new < 2 ^ 32) →
  (∀ ok s', merged s s' k i Q new ok → K ok s') →
  wp (merge_from fuel k o new) K s.
Proof.
  intros Hi. revert fuel o K. induction Q as [|[x r] Q IH]; intros fuel o K Hq Hf Hnew Hok HK; cbn in Hq.
  { subst o. destruct fuel; by apply wp_ret, (HK false). }
  destruct Hq as (-> & Hx & Hq). destruct fuel as [|fuel]; [cbn in Hf; lia|]. cbn [merge_from].
  wp_step. apply (rd_req_wp _ _ r); [done|].
  destruct (Hok x r ltac:(by left)) as ((R1 & R2 & R3) & R4). destruct Hnew as (N1 & N2 & N3).
  assert (wp (merge_from fuel k (rq_next r) new) K s) as Hskip.
  { apply IH; [done|cbn in Hf; lia|done| |].
    - intros y z Hy. apply (Hok y z). by right.
    - intros [|] s'; [|by apply (HK false)]. intros (Q1 & y & z & z' & Q2 & -> & E). apply (HK true). by exists ((x, r) :: Q1), y, z, z', Q2. }
  destruct (bool_decide_reflect (rq_type r = rq_type new)) as [Ht|]; cbn [negb]; [|done].
  rewrite !(wrap_small 64) by lia. rewrite (wrap_small 32) by lia.
  assert (∀ sec, rq_span (set_rq_span sec (rq_count r + rq_count new) r) ≡ₚ rq_span r ++ rq_span new →
    wp (blk_ (upd_req x (set_rq_span sec (rq_count r + rq_count new))) ;;
        upd_sched k (λ i, set_is_merged (is_merged i +u64 1) i) ;; mret true) K s) as Htake.
  { intros sec Hspan. wp_step. apply (upd_req_wp _ _ r); [done|]. wp_step. apply (upd_sched_wp _ _ i); [done|]. apply wp_ret.
    apply (HK true). by exists [], x, r, (set_rq_span sec (rq_count r + rq_count new) r), Q. }
  destruct (Z.eqb_spec (rq_sector r + rq_count r) (rq_sector new)) as [E|].
  { apply Htake. rewrite (span_join r _ (rq_type r) (rq_sector r) (rq_count r) (rq_count new)) by done.
    unfold rq_span at 2. rewrite <-Ht, <-E. done. }
  destruct (Z.eqb_spec (rq_sector new + rq_count new) (rq_sector r)) as [E|]; [|done].
  apply Htake. rewrite (span_join r _ (rq_type r) (rq_sector new) (rq_count new) (rq_count r)) by (done || cbn; lia).
  unfold rq_span at 1. rewrite E, Permutation_app_comm. unfold rq_span. by rewrite <-Ht.
Qed.

(** The queue after one of its requests took over the new one. *)
Lemma merged_queue s s' k i Q new :
  merged s s' k i Q new true → rq_queue_ok (reqs s) i Q →
  ∃ Q', rq_queue_ok (reqs s') (set_is_merged (is_merged i +u64 1) i) Q' ∧ Q'.*1 = Q.*1 ∧ cover Q' ≡ₚ cover Q ++ rq_span new ∧
    io_scheds s' !! k = Some (set_is_merged (is_merged i +u64 1) i) ∧ bk_heap (io_blk s') = bk_heap (io_blk s) ∧
    block_request_cache (io_blk s') = block_request_cache (io_blk s).
Proof.
  intros (Q1 & x & r & r' & Q2 & -> & Hn & _ & Hspan & ->) [Hc Hnd Ht]. exists (Q1 ++ (x, r') :: Q2).
  assert ((Q1 ++ (x, r') :: Q2).*1 = (Q1 ++ (x, r) :: Q2).*1) as Ef by by rewrite !fmap_app.
  split_and!; [|done| |apply lookup_insert_eq|done|done].
  - split; [by apply (rq_chain_update _ _ Q1 x r)|by rewrite Ef|by rewrite Ef].
  - rewrite !cover_app, !cover_cons, Hspan, <-!app_assoc. apply Permutation_app_head, Permutation_app_head, Permutation_app_comm.
Qed.

Lemma free_req_wp s C B c n x (K : unit → iosys H D → Prop) :
  kh_inv (bk_heap (io_blk s)) C B → block_request_cache (io_blk s) = Some c → B !! x = Some (Some c, n) →
  (∀ h, K tt (set_io_blk (set_bk_reqs (delete x (reqs s)) (set_bk_heap h (io_blk s))) s)) →
  wp (blk_ (block_request_free (Some x))) K s.
Proof.
  intros Hh Hc Hx HK. unfold blk_. apply wp_zoom. unfold block_request_free. wp_step. apply wp_gets. rewrite Hc.
  wp_step. unfold on_bk_heap. apply wp_zoom. eapply wp_mono; [by apply (kh_free_law _ C B c x n)|].
  cbn beta. intros [] h _. apply wp_modify. apply HK.
Qed.

Lemma add_request_wp s k i Q req new (K : unit → iosys H D → Prop) :
  io_scheds s !! k = Some i → rq_queue_ok (reqs s) i Q → reqs s !! req = Some new → req ∉ Q.*1 →
  (∀ s' i' Q', io_scheds s' !! k = Some i' → rq_queue_ok (reqs s') i' Q' → Q'.*1 = Q.*1 ++ [req] →
     cover Q' = cover Q ++ rq_span new → K tt s') →
  wp (noop_add_request k req) K s.
Proof.
  intros Hi [Hc Hnd Ht] Hreq Hnot HK. unfold noop_add_request. wp_step. apply (upd_req_wp _ _ new); [done|].
  wp_step. apply (rd_sched_wp _ _ i); [done|]. set (new' := set_rq_next None new).
  destruct Q as [|e Q0 _] using rev_ind.
  { cbn in Ht, Hc. rewrite Ht. apply (upd_sched_wp _ _ i); [done|]. eapply (HK _ _ [(req, new')]); [apply lookup_insert_eq| |done|].
    - split; [cbn; split_and!; [done|apply lookup_insert_eq|done]|apply NoDup_singleton|done].
    - unfold cover. cbn. by rewrite app_nil_r. }
  destruct e as [t rt]. rewrite Ht. rewrite fmap_app, last_app. cbn [fmap list_fmap last fst].
  assert (reqs s !! t = Some rt) as Hrt by (eapply rq_chain_in; [exact Hc|apply elem_of_app; right; by left]).
  assert (t ≠ req) as Hne.
  { intros ->. apply Hnot. rewrite fmap_app. apply elem_of_app. right. by left. }
  wp_step. apply (upd_req_wp _ _ rt); [cbn; by rewrite lookup_insert_ne|]. apply (upd_sched_wp _ _ i); [done|].
  eapply (HK _ _ (Q0 ++ [(t, set_rq_next (Some req) rt); (req, new')])); [apply lookup_insert_eq| | |].
  - split; cbn.
    + by apply rq_chain_snoc.
    + rewrite fmap_app in Hnd, Hnot |- *. cbn in *. change ([t; req]) with ([t] ++ [req]). rewrite app_assoc. apply NoDup_app.
      split_and!; [done| |apply NoDup_singleton]. intros y Hy ->%list_elem_of_singleton. done.
    + by rewrite fmap_app, last_app.
  - rewrite !fmap_app. cbn. by rewrite <-app_assoc.
  - rewrite !cover_app. unfold cover at 2 4. cbn. by rewrite !app_nil_r, <-app_assoc.
Qed.

(** ** Properties *)

(** A request handed to the scheduler is put behind all others, or is merged
    into one of them and given back; in both cases the queue asks for exactly
    the sectors it asked for before and those of the new request. *)
Theorem io_sched_add_correct s k i Q req new C B c n :
  io_scheds s !! k = Some i → rq_queue_ok (reqs s) i Q → reqs s !! req = Some new → req ∉ Q.*1 → req_ok new →
  (∀ x r, (x, r) ∈ Q → req_ok r ∧ rq_count r + rq_count new < 2 ^ 32) →
  kh_inv (bk_heap (io_blk s)) C B → block_request_cache (io_blk s) = Some c → B !! req = Some (Some c, n) →
  ∃ s' i' Q', io_sched_add_request (Some k) (Some req) s = Some (tt, s') ∧ io_scheds s' !! k = Some i' ∧
    rq_queue_ok (reqs s') i' Q' ∧ cover Q' ≡ₚ cover Q ++ rq_span new ∧
    (Q'.*1 = Q.*1 ++ [req] ∨ (Q'.*1 = Q.*1 ∧ reqs s' !! req = None)).
Proof.
  intros Hi Hq Hreq Hnot Hnew Hok Hh Hc Hb.
  set (R := λ (_ : unit) s', ∃ i' Q', io_scheds s' !! k = Some i' ∧ rq_queue_ok (reqs s') i' Q' ∧
    cover Q' ≡ₚ cover Q ++ rq_span new ∧ (Q'.*1 = Q.*1 ++ [req] ∨ (Q'.*1 = Q.*1 ∧ reqs s' !! req = None))).
  assert (wp (io_sched_add_request (Some k) (Some req)) R s) as Hwp; last first.
  { destruct (wp_elim _ _ _ Hwp) as ([] & s' & Hrun & i' & Q' & ?). by exists s', i', Q'. }
  assert (wp (noop_add_request k req) R s) as Hadd.
  { apply (add_request_wp s k i Q req new); [done..|]. intros s' i' Q' Hi' Hq' Ef Ec. exists i', Q'.
    split_and!; [done|done|by rewrite Ec|by left]. }
  cbn [io_sched_add_request]. wp_step. unfold noop_merge. wp_step. apply (rd_sched_wp _ _ i); [done|].
  destruct (is_queue_head i) as [hd|] eqn:Eh; [|by apply wp_ret]. wp_step. apply (rd_req_wp _ _ new); [done|].
  unfold reqs_fuel. wp_step. apply wp_gets. apply (merge_from_wp _ s k i _ Q); [done|rewrite <-Eh; apply Hq| |done|done|].
  { enough (length Q.*1 ≤ size (reqs s))%nat as Hl by (rewrite length_fmap in Hl; lia). apply nodup_size; [apply Hq|].
    intros y ([y' z] & -> & Hy)%list_elem_of_fmap. exists z. eapply rq_chain_in; [apply Hq|done]. }
  intros [|] s1 Hm; [|rewrite Hm; exact Hadd].
  destruct (merged_queue s s1 k i Q new Hm Hq) as (Q' & Hq' & Ef & Ec & Hi' & Eh' & Ec').
  apply (free_req_wp s1 C B c n); [by rewrite Eh'|by rewrite Ec'|done|]. intros h. exists (set_is_merged (is_merged i +u64 1) i), Q'.
  split_and!; [done| |by rewrite Ec|right; split; [by rewrite Ef|apply lookup_delete_eq]].
  destruct Hq' as [Q1 Q2 Q3]. split; [|done|done]. eapply rq_chain_ext; [|exact Q1].
  intros y Hy. cbn. rewrite lookup_delete_ne; [done|]. intros <-. by rewrite Ef in Hy.
Qed.

(** The next request is the oldest one; the others stay in their order. *)
Theorem io_sched_dispatch_correct s k i Q :
  io_scheds s !! k = Some i → rq_queue_ok (reqs s) i Q →
  ∃ s' i', io_sched_dispatch (Some k) s = Some (fst <$> head Q, s') ∧ io_scheds s' !! k = Some i' ∧
    rq_queue_ok (reqs s') i' (tail Q) ∧ (∀ x r, head Q = Some (x, r) → reqs s' !! x = Some (set_rq_next None r)).
Proof.
  intros Hi [Hc Hnd Ht]. unfold io_sched_dispatch.
  assert (wp (noop_dispatch k) (λ res s', res = fst <$> head Q ∧ ∃ i', io_scheds s' !! k = Some i' ∧
    rq_queue_ok (reqs s') i' (tail Q) ∧ (∀ x r, head Q = Some (x, r) → reqs s' !! x = Some (set_rq_next None r))) s) as Hwp; last first.
  { destruct (wp_elim _ _ _ Hwp) as (res & s' & Hrun & -> & i' & ?). by exists s', i'. }
  unfold noop_dispatch. wp_step. apply (rd_sched_wp _ _ i); [done|]. destruct Q as [|[x r] Q0]; cbn in Hc.
  { rewrite Hc. apply wp_ret. split; [done|]. exists i. by split_and!. }
  destruct Hc as (Eh & Hx & Hc). rewrite Eh. wp_step. apply (rd_req_wp _ _ r); [done|]. wp_step.
  apply (upd_req_wp _ _ r); [done|]. wp_step. apply (upd_sched_wp _ _ i); [done|]. apply wp_ret. split; [done|].
  eexists. split_and!; [apply lookup_insert_eq| |intros y z [= <- <-]; apply lookup_insert_eq].
  apply NoDup_cons in Hnd as [Hnot Hnd]. split; [|done|].
  - cbn. eapply rq_chain_ext; [|exact Hc]. intros y Hy. rewrite lookup_insert_ne; [done|]. by intros ->.
  - cbn. destruct Q0 as [|[y z] Q0]; cbn in Hc; [by rewrite Hc|]. destruct Hc as (-> & _ & _). by rewrite Ht.
Qed.

(** Merging two writes: the queue holds one request, for the sectors of both,
    with the buffer of the first only; the second one, with its buffer, is gone
    and is never completed. *)
Theorem io_sched_merge_drops_buffer s k i x r req new C B c n :
  io_scheds s !! k = Some i → rq_queue_ok (reqs s) i [(x, r)] → reqs s !! req = Some new → req ≠ x →
  req_ok r → req_ok new → rq_count r + rq_count new < 2 ^ 32 →
  rq_type r = BLOCK_WRITE → rq_type new = BLOCK_WRITE → rq_sector new = rq_sector r + rq_count r →
  kh_inv (bk_heap (io_blk s)) C B → block_request_cache (io_blk s) = Some c → B !! req = Some (Some c, n) →
  ∃ s', io_sched_add_request (Some k) (Some req) s = Some (tt, s') ∧ reqs s' !! req = None ∧
    reqs s' !! x = Some (set_rq_span (rq_sector r) (rq_count r + rq_count new) r) ∧
    ∀ y z, reqs s' !! y = Some z → y ≠ x → reqs s !! y = Some z ∧ y ≠ req.
Proof.
  intros Hi [(Eh & Hx & Hn) _ _] Hreq Hne (R1 & R2 & R3) (N1 & N2 & N3) Hsum Ht Ht' Hsec Hh Hc Hb.
  set (R := λ (_ : unit) s', reqs s' !! req = None ∧
    reqs s' !! x = Some (set_rq_span (rq_sector r) (rq_count r + rq_count new) r) ∧
    ∀ y z, reqs s' !! y = Some z → y ≠ x → reqs s !! y = Some z ∧ y ≠ req).
  assert (wp (io_sched_add_request (Some k) (Some req)) R s) as Hwp; last first.
  { destruct (wp_elim _ _ _ Hwp) as ([] & s' & Hrun & ?). by exists s'. }
  cbn [io_sched_add_request]. wp_step. unfold noop_merge. wp_step. apply (rd_sched_wp _ _ i); [done|]. rewrite Eh.
  wp_step. apply (rd_req_wp _ _ new); [done|]. unfold reqs_fuel. wp_step. apply wp_gets. cbn [merge_from].
  wp_step. apply (rd_req_wp _ _ r); [done|]. rewrite bool_decide_eq_true_2 by congruence. cbn [negb].
  rewrite (wrap_small 64 (rq_sector r + rq_count r)) by lia. rewrite (proj2 (Z.eqb_eq _ _)) by done.
  rewrite (wrap_small 32) by lia. wp_step. apply (upd_req_wp _ _ r); [done|]. wp_step. apply (upd_sched_wp _ _ i); [done|].
  apply wp_ret. apply (free_req_wp _ C B c n); [done..|]. intros h. unfold R. cbn. split_and!.
  - apply lookup_delete_eq.
  - rewrite lookup_delete_ne, lookup_insert_eq by done. done.
  - intros y z [Hy Hz]%lookup_delete_Some Hyx. rewrite lookup_insert_ne in Hz by done. done.
Qed.
End thm.
