(* ===== verification/BlockDemo.v ===== *)
(** * Block devices: an example

    A driver that keeps its sectors in memory meets the laws; with it, a disk
    with one MBR partition is registered on the heap of KHeap.v. *)

From stdpp Require Import gmap list numbers strings.
From S2P Require Import Prelude DList Pmm PmmThm Frames Vmm VmmThm PageMap Slab KHeap CString Block BlockIO BlockReg.

(** ** A disk in memory *)

Abbreviation ramdisk := (gmap (Z * Z) (list Z)).

Definition sector_of (d : ramdisk) (dev t : Z) : list Z :=
  wrap8 <$> take 512 (default [] (d !! (dev, t)) ++ replicate 512 0).

Fixpoint store_sectors (n : nat) (d : ramdisk) (dev t : Z) (data : list Z) : ramdisk :=
  match n with
  | O => d
  | S n' => store_sectors n' (<[(dev, t) := take 512 data]> d) dev (t + 1) (drop 512 data)
  end.

Definition is_byte (b : Z) : bool := (0 <=? b) && (b <? 256).

#[export] Instance ram_driver : DiskDriver ramdisk := {|
  dd_read := λ dev sector count d, Some ((0, mjoin (sector_of d dev <$> seqZ sector count)), d);
  dd_write := λ dev sector count data d,
    if forallb is_byte data then Some (0, store_sectors (Z.to_nat count) d dev sector data) else Some (-5, d);
  dd_flush := λ _ d, Some (0, d);
  dd_submit := λ _ _ _ d, Some (-22, d) |}.

Lemma sector_of_len d dev t : alen (sector_of d dev t) = 512.
Proof. unfold alen, sector_of. rewrite length_fmap, length_take, length_app, length_replicate. lia. Qed.

Lemma sector_of_stored d dev t l :
  Forall (λ b, 0 ≤ b < 256) l → length l = 512%nat → sector_of (<[(dev, t) := l]> d) dev t = l.
Proof.
  intros Hb Hl. unfold sector_of. rewrite lookup_insert_eq. cbn [default from_option id]. rewrite <-Hl, take_app_length.
  rewrite <-(list_fmap_id l) at 2. apply list_fmap_ext. intros i b Hi. apply wrap_small.
  by apply (Forall_lookup_1 _ _ _ _ Hb Hi).
Qed.

Lemma store_sectors_other n d dev t data x u :
  x ≠ dev ∨ ¬ (t ≤ u < t + Z.of_nat n) → sector_of (store_sectors n d dev t data) x u = sector_of d x u.
Proof.
  revert d t data. induction n as [|n IH]; intros d t data Hu; [done|]. cbn [store_sectors].
  rewrite IH by (destruct Hu; [by left|right; lia]). unfold sector_of. rewrite lookup_insert_ne; [done|].
  intros [= -> ->]. destruct Hu; [done|lia].
Qed.

Lemma store_sectors_data n d dev t data :
  Forall (λ b, 0 ≤ b < 256) data → length data = (n * 512)%nat →
  mjoin (sector_of (store_sectors n d dev t data) dev <$> seqZ t (Z.of_nat n)) = data.
Proof.
  revert d t data. induction n as [|n IH]; intros d t data Hb Hl; [by destruct data|]. cbn [store_sectors].
  rewrite seqZ_cons by lia. replace (Z.pred (Z.of_nat (S n))) with (Z.of_nat n) by lia.
  rewrite fmap_cons. cbn [mjoin list_join]. rewrite store_sectors_other by (right; lia).
  rewrite sector_of_stored; [|by apply Forall_take|rewrite length_take; lia].
  replace (Z.succ t) with (t + 1) by lia. rewrite IH; [apply take_drop|by apply Forall_drop|rewrite length_drop; lia].
Qed.

Lemma is_byte_all l : forallb is_byte l = true → Forall (λ b, 0 ≤ b < 256) l.
Proof.
  rewrite forallb_forall. intros Hl. apply Forall_forall. intros b Hb. specialize (Hl b).
  rewrite <-list_elem_of_In in Hl. apply Hl, andb_true_iff in Hb as [?%Z.leb_le ?%Z.ltb_lt]. done.
Qed.

#[export] Instance ram_laws : DiskLaws ramdisk.
Proof.
  refine {| dd_data := sector_of; dd_sector_size := λ _, 512 |}.
  - intros d dev t. apply sector_of_len.
  - intros d dev t. unfold sector_of. apply Forall_fmap, Forall_forall. intros b _. by apply wrap_bounds.
  - intros d dev sector count _ _. by split.
  - intros d dev sector count data Hs Hc Hl. unfold wp. cbn. destruct (forallb is_byte data) eqn:Hb; [|by split].
    split.
    + intros x t Ht. apply store_sectors_other. destruct Ht; [by left|right; lia].
    + intros _. rewrite <-(Z2Nat.id count) at 2 by lia. apply store_sectors_data; [by apply is_byte_all|].
      unfold alen in Hl. lia.
  - by intros d dev.
Defined.

(** ** A disk with one partition *)

Abbreviation kblk := (blk (heap (vm mem_info)) ramdisk).

Definition demo_blk0 : kblk := Blk demo_heap ∅ ∅ ∅ ∅ ∅ None 0 None None.

(** The cache of partitions, and a block for the descriptor of a driver. *)
Abbreviation demo_setup := (partition_init ;; on_bk_heap (kh_kmalloc 400) : M kblk (option Z)).
Definition demo_made : option Z * kblk := default (None, demo_blk0) (demo_setup demo_blk0).
Definition demo_base : Z := default 0 demo_made.1.
Definition demo_disk : Z := demo_base + 8.

Definition demo_mbr : list Z :=
  replicate 446 0 ++ [0x80; 0; 0; 0; 0x83; 0; 0; 0; 100; 0; 0; 0; 0xf4; 1; 0; 0] ++ replicate 48 0 ++ [0x55; 0xaa].

Definition demo_device : block_device :=
  BlockDevice (chars "vda") 0 2048 512 (2048 * 512) false false true
    (Some (BlockOps (Some DriverFn) (Some DriverFn) (Some DriverFn) None None)) None None 0 0 0 0 0 (Some demo_base) None.

Definition demo_blk : kblk :=
  set_bk_devs {[demo_disk := demo_device]} (set_bk_disks {[(demo_disk, 0) := demo_mbr]} demo_made.2).

Lemma demo_setup_runs : ∃ b s c C, demo_setup demo_blk0 = Some (Some b, s) ∧ s = demo_made.2 ∧ b = demo_base ∧
  s = set_bk_caches None c (set_bk_heap (bk_heap s) demo_blk0) ∧
  (∀ x, c = Some x → C !! x = Some sizeof_partition_dev_t) ∧ kh_inv (bk_heap s) C {[b := (None, 400)]}.
Proof.
  assert (match demo_setup demo_blk0 with Some (Some _, _) => true | _ => false end = true) as Hsome by by vm_compute.
  assert (wp demo_setup (λ r s, ∃ c C, s = set_bk_caches None c (set_bk_heap (bk_heap s) demo_blk0) ∧
    (∀ x, c = Some x → C !! x = Some sizeof_partition_dev_t) ∧
    ∀ b, r = Some b → kh_inv (bk_heap s) C {[b := (None, 400)]}) demo_blk0) as Hwp.
  { wp_step. unfold partition_init. wp_step. unfold on_bk_heap at 1. apply wp_zoom.
    eapply wp_mono; [apply (kh_create_law _ ∅ ∅ "partition_dev" sizeof_partition_dev_t 8 0);
      [exact demo_holds|unfold sizeof_partition_dev_t; lia|by right|reflexivity]|].
    cbn beta. intros c h Hc. apply wp_modify. unfold on_bk_heap. apply wp_zoom.
    assert (∃ C, kh_inv h C ∅ ∧ ∀ x, c = Some x → C !! x = Some sizeof_partition_dev_t) as (C & Hh & Hx).
    { destruct c as [x|].
      - destruct Hc as (_ & _ & Hh). eexists. split; [exact Hh|]. intros y [= <-]. apply lookup_insert_eq.
      - exists ∅. split; [exact Hc|]. intros x [=]. }
    eapply wp_mono; [apply (kh_kmalloc_law _ C ∅ 400); [exact Hh|unfold KMALLOC_LIMIT; lia]|].
    cbn beta. intros r h' Hr. exists c, C. refine (conj eq_refl (conj Hx _)). intros b ->. apply Hr. }
  destruct (wp_elim _ _ _ Hwp) as (r & s & Hrun & c & C & Hs & Hx & Hh). rewrite Hrun in Hsome.
  destruct r as [b|]; [|discriminate Hsome]. exists b, s, c, C.
  assert (demo_made = (Some b, s)) as Hm by (unfold demo_made; rewrite Hrun; reflexivity).
  assert (s = demo_made.2) as E1 by exact (f_equal snd (eq_sym Hm)).
  assert (b = demo_base) as E2 by exact (f_equal (λ m, default 0 m.1) (eq_sym Hm)).
  exact (conj Hrun (conj E1 (conj E2 (conj Hs (conj Hx (Hh b eq_refl)))))).
Qed.

Lemma demo_disk_ok : disk_ok demo_disk demo_device.
Proof. split; [by split|unfold KMALLOC_LIMIT; cbn; lia|reflexivity|cbn; lia|by vm_compute]. Qed.

Lemma demo_blk_ok : ∃ C B G, blk_ok demo_blk C B G [].
Proof.
  destruct demo_setup_runs as (b & s & c & C & _ & Es & Eb & Hs & Hx & Hh). exists C, {[b := (None, 400)]}, {[b := (None, 400)]}.
  assert (demo_blk = set_bk_devs {[demo_disk := demo_device]} (set_bk_disks {[(demo_disk, 0) := demo_mbr]} s)) as Ed.
  { unfold demo_blk. rewrite <-Es. reflexivity. }
  assert (demo_disk = b + 8) as Hk by (unfold demo_disk; rewrite Eb; reflexivity).
  pose proof demo_disk_ok as Hdk. clear Es Eb. revert Ed Hk Hdk. generalize demo_disk, demo_device, demo_mbr. intros dk dv mbr Ed Hk Hdk.
  generalize dependent demo_blk. intros t ->. revert Hs Hh. generalize (bk_heap s). intros h -> Hh.
  split.
  - exact Hh.
  - exact Hx.
  - reflexivity.
  - reflexivity.
  - constructor.
  - reflexivity.
  - unfold BLOCK_MAX_DEVICES, alen. cbn. lia.
  - intros d d' x x' Hd. destruct (not_elem_of_nil d Hd).
  - cbn [bk_devs set_bk_devs]. intros d x [<- <-]%lookup_singleton_Some. left. split; [exact Hdk|].
    exists b, None, 400. split; [apply lookup_singleton_eq|lia].
  - intros p part Hp. discriminate Hp.
Qed.

Lemma demo_lookup : bk_devs demo_blk !! demo_disk = Some demo_device.
Proof. apply lookup_singleton_eq. Qed.

(** *** Registering the disk *)

Abbreviation demo_register := (block_register (Some demo_disk) : M kblk Z).
Definition demo_registered : kblk := from_option snd demo_blk (demo_register demo_blk).

Lemma demo_registers : fst <$> demo_register demo_blk = Some 0.
Proof. by vm_compute. Qed.

Lemma block_register_correct_witness : ∃ s' C B' G L', demo_register demo_blk = Some (0, s') ∧ blk_ok s' C B' G L' ∧
  ∃ ps, L' = ps ++ [demo_disk].
Proof.
  destruct demo_blk_ok as (C & B & G & Hok).
  destruct (block_register_correct demo_blk C B G [] demo_disk demo_device Hok demo_lookup demo_disk_ok)
    as (r & s' & B' & L' & Hrun & Hok' & _ & _ & Hres).
  - apply not_elem_of_nil.
  - pose proof demo_registers as Hret. rewrite Hrun in Hret. injection Hret as ->.
    exists s', C, B', G, L'. split; [exact Hrun|]. split; [exact Hok'|].
    destruct Hres as [[Hr _]|(_ & ps & HL & _)]; [contradiction (Hr eq_refl)|]. exists ps. exact HL.
Defined.

(** *** The partition *)

Definition demo_vda1 : Z := default 0 (block_devices demo_registered).

Lemma demo_vda1_ops : (λ x, (bd_name x, bd_ops x)) <$> bk_devs demo_registered !! demo_vda1 = Some (chars "vda1", Some partition_ops).
Proof. by vm_compute. Qed.

Lemma demo_partition : ∃ x part y, part_dev demo_registered demo_vda1 x part y ∧ part_placed part.
Proof.
  destruct demo_blk_ok as (C & B & G & Hok).
  destruct (wp_elim demo_register (λ _ s', ∃ B' L', blk_ok s' C B' G L') demo_blk) as (r & s' & Hrun & B' & L' & Hok').
  { eapply register_wp; [exact Hok|exact demo_lookup|apply not_elem_of_nil|reflexivity| |].
    - intros r _. exists B, []. exact Hok.
    - intros s1 Hok1 [_ _ _ _ E] _. cbn match.
      destruct (core_lookup _ _ _ _ E demo_lookup) as (x1 & Hx1 & Ex).
      apply (partition_scan_wp 0 s1 C B G [demo_disk] demo_disk x1 _ Hok1).
      + split; [exact Hx1|]. split; [exact (core_disk _ _ _ Ex demo_disk_ok)|apply list_elem_of_here].
      + intros _ s2 B2 L2 Hok2 _. exists B2, L2. exact Hok2. }
  assert (demo_registered = s') as E by (unfold demo_registered; rewrite Hrun; reflexivity).
  pose proof demo_vda1_ops as Hops. rewrite E in *. destruct (bk_devs s' !! demo_vda1) as [x|] eqn:Hx; [|discriminate Hops].
  injection Hops as _ Ho. destruct (bo_devs _ _ _ _ _ Hok' _ _ Hx) as [[Hdk _]|(p & Ep & [part Hp])].
  { destruct (part_not_disk x Ho (do_disk _ _ Hdk)). }
  destruct (bo_parts _ _ _ _ _ Hok' _ _ Hp) as (_ & _ & x' & y & _ & Hpd & _ & Hpo). rewrite <-Ep in Hpd.
  exists x', part, y. split; [exact Hpd|exact (po_placed _ _ Hpo)].
Qed.

Lemma partition_confined_witness : ∃ x part y r s', part_dev demo_registered demo_vda1 x part y ∧
  block_write (Some demo_vda1) 3 1 (Some (replicate 512 7)) demo_registered = Some (r, s') ∧
  disk_written demo_registered s' (pt_parent part) (pt_start_sector part + 3) 1.
Proof.
  destruct demo_partition as (x & part & y & Hpd & Hpl).
  destruct (partition_confined demo_registered demo_vda1 x part y 3 1 (replicate 512 7) Hpd Hpl)
    as (r & s' & Hrun & _ & Hw & _).
  - lia.
  - lia.
  - lia.
  - reflexivity.
  - exists x, part, y, r, s'. split; [exact Hpd|]. split; [exact Hrun|exact Hw].
Defined.
