(* ===== verification/Rwlock.v ===== *)
(** * Spinlocks and read-write locks (sync/spinlock.h, sync/rwlock.h, sync/rwlock.c)

    Threads that call the operations of one read-write lock, interleaved at
    every access to the shared memory: each load and each store of the spinlock,
    of the counter of readers and of the writer flag is a step of its own, and
    only the compare and exchange of spin_trylock reads and writes at once.  The
    state is the lock and, for each thread, where it is in the operation it
    executes and what it has loaded; a step lets one thread make its next access.
    Steps are sequentially consistent, as the acquire and release orderings of
    the spinlock make the accesses between them.  Interrupt flags are local to a
    processor and do not take part; [cpu_pause] does nothing. *)

From S2P Require Import Prelude.

(** ** The lock in memory *)

(** A spinlock is held when its word is not 0. *)
Record rwlock := RwLock {
  rw_lock : Z;
  rw_readers : Z;
  rw_writer : bool }.

Definition RWLOCK_INIT : rwlock := RwLock 0 0 false.

Definition rwlock_init (l : rwlock) : rwlock := RwLock 0 0 false.

Definition set_lock (x : Z) (l : rwlock) : rwlock := RwLock x (rw_readers l) (rw_writer l).
Definition set_readers (n : Z) (l : rwlock) : rwlock := RwLock (rw_lock l) n (rw_writer l).
Definition set_writer (w : bool) (l : rwlock) : rwlock := RwLock (rw_lock l) (rw_readers l) w.

(** The compare and exchange of spin_trylock, and the store of spin_unlock. *)
Definition spin_trylock (l : rwlock) : bool * rwlock :=
  if rw_lock l =? 0 then (true, set_lock 1 l) else (false, l).

Definition spin_is_locked (l : rwlock) : bool := negb (rw_lock l =? 0).

Definition spin_unlock (l : rwlock) : rwlock := set_lock 0 l.

(** ** Where a thread is

    In an operation a thread first runs spin_lock ([Try] the exchange, [Spin]
    on the word until it is 0).  With the spinlock held it makes one access after
    the other: it loads the writer flag or the number of readers for a
    condition, loads the number of readers to change it and stores the changed
    number ([StoreCount n], with [n] the number it loaded), or stores the writer
    flag.  A waiting operation may have to [Retry], giving the spinlock up for a
    moment; at the end it gives it up to [Leave]. *)
Inductive at_ :=
  | Try | Spin
  | LoadWriter | LoadReaders | LoadCount | StoreCount (n : Z) | StoreWriter
  | Retry | Leave.

Inductive pc :=
  | Idle
  | ReadLock (k : at_)
  | ReadUnlock (k : at_)
  | WriteLock (k : at_)
  | WriteUnlock (k : at_)
  | TryReadLock (k : at_) (won : bool)
  | TryWriteLock (k : at_) (won : bool)
  | Reading
  | Writing.

#[export] Instance at_eq_dec : EqDecision at_.
Proof. solve_decision. Defined.
#[export] Instance pc_eq_dec : EqDecision pc.
Proof. solve_decision. Defined.

(** spin_lock: the next access and where it leads; [op] is the operation and
    [first] its first access with the spinlock held. *)
Definition spin_lock (op : at_ → pc) (first : at_) (spinning : bool) (l : rwlock) : rwlock * pc :=
  if spinning then (l, op (if spin_is_locked l then Spin else Try))
  else let '(won, l') := spin_trylock l in (l', op (if won then first else Spin)).

(** The operations: the access at [k], the memory after it and where the thread
    is then; [None] where the operation has no such access. *)
Definition rwlock_read_lock (k : at_) (l : rwlock) : option (rwlock * pc) :=
  match k with
  | Try => Some (spin_lock ReadLock LoadWriter false l)
  | Spin => Some (spin_lock ReadLock LoadWriter true l)
  | LoadWriter => Some (l, ReadLock (if rw_writer l then Retry else LoadCount))
  | LoadCount => Some (l, ReadLock (StoreCount (rw_readers l)))
  | StoreCount n => Some (set_readers (int32 (n + 1)) l, ReadLock Leave)
  | Retry => Some (spin_unlock l, ReadLock Try)
  | Leave => Some (spin_unlock l, Reading)
  | _ => None
  end.

Definition rwlock_read_unlock (k : at_) (l : rwlock) : option (rwlock * pc) :=
  match k with
  | Try => Some (spin_lock ReadUnlock LoadReaders false l)
  | Spin => Some (spin_lock ReadUnlock LoadReaders true l)
  | LoadReaders => Some (l, ReadUnlock (if 0 <? rw_readers l then LoadCount else Leave))
  | LoadCount => Some (l, ReadUnlock (StoreCount (rw_readers l)))
  | StoreCount n => Some (set_readers (n - 1) l, ReadUnlock Leave)
  | Leave => Some (spin_unlock l, Idle)
  | _ => None
  end.

Definition rwlock_write_lock (k : at_) (l : rwlock) : option (rwlock * pc) :=
  match k with
  | Try => Some (spin_lock WriteLock LoadWriter false l)
  | Spin => Some (spin_lock WriteLock LoadWriter true l)
  | LoadWriter => Some (l, WriteLock (if rw_writer l then Retry else LoadReaders))
  | LoadReaders => Some (l, WriteLock (if 0 <? rw_readers l then Retry else StoreWriter))
  | StoreWriter => Some (set_writer true l, WriteLock Leave)
  | Retry => Some (spin_unlock l, WriteLock Try)
  | Leave => Some (spin_unlock l, Writing)
  | _ => None
  end.

Definition rwlock_write_unlock (k : at_) (l : rwlock) : option (rwlock * pc) :=
  match k with
  | Try => Some (spin_lock WriteUnlock StoreWriter false l)
  | Spin => Some (spin_lock WriteUnlock StoreWriter true l)
  | StoreWriter => Some (set_writer false l, WriteUnlock Leave)
  | Leave => Some (spin_unlock l, Idle)
  | _ => None
  end.

Definition rwlock_try_read_lock (k : at_) (won : bool) (l : rwlock) : option (rwlock * pc) :=
  match k with
  | Try => Some (spin_lock (λ k, TryReadLock k won) LoadWriter false l)
  | Spin => Some (spin_lock (λ k, TryReadLock k won) LoadWriter true l)
  | LoadWriter => Some (l, if negb (rw_writer l) then TryReadLock LoadCount won else TryReadLock Leave false)
  | LoadCount => Some (l, TryReadLock (StoreCount (rw_readers l)) won)
  | StoreCount n => Some (set_readers (int32 (n + 1)) l, TryReadLock Leave true)
  | Leave => Some (spin_unlock l, if won then Reading else Idle)
  | _ => None
  end.

Definition rwlock_try_write_lock (k : at_) (won : bool) (l : rwlock) : option (rwlock * pc) :=
  match k with
  | Try => Some (spin_lock (λ k, TryWriteLock k won) LoadWriter false l)
  | Spin => Some (spin_lock (λ k, TryWriteLock k won) LoadWriter true l)
  | LoadWriter => Some (l, if negb (rw_writer l) then TryWriteLock LoadReaders won else TryWriteLock Leave false)
  | LoadReaders => Some (l, if rw_readers l =? 0 then TryWriteLock StoreWriter won else TryWriteLock Leave false)
  | StoreWriter => Some (set_writer true l, TryWriteLock Leave true)
  | Leave => Some (spin_unlock l, if won then Writing else Idle)
  | _ => None
  end.

(** ** Threads *)

(** The next access of a thread inside an operation. *)
Definition exec (p : pc) (l : rwlock) : option (rwlock * pc) :=
  match p with
  | ReadLock k => rwlock_read_lock k l
  | ReadUnlock k => rwlock_read_unlock k l
  | WriteLock k => rwlock_write_lock k l
  | WriteUnlock k => rwlock_write_unlock k l
  | TryReadLock k w => rwlock_try_read_lock k w l
  | TryWriteLock k w => rwlock_try_write_lock k w l
  | Idle | Reading | Writing => None
  end.

(** The operation a thread may call next: a thread releases what it holds. *)
Inductive call : pc → pc → Prop :=
  | call_read : call Idle (ReadLock Try)
  | call_write : call Idle (WriteLock Try)
  | call_try_read : call Idle (TryReadLock Try false)
  | call_try_write : call Idle (TryWriteLock Try false)
  | call_read_unlock : call Reading (ReadUnlock Try)
  | call_write_unlock : call Writing (WriteUnlock Try).

Record conf := Conf { c_lock : rwlock; c_threads : list pc }.

Inductive step : conf → conf → Prop :=
  | step_call l ts i p q : ts !! i = Some p → call p q → step (Conf l ts) (Conf l (<[i := q]> ts))
  | step_exec l ts i p l' q :
      ts !! i = Some p → exec p l = Some (l', q) → step (Conf l ts) (Conf l' (<[i := q]> ts)).

Definition start (n : nat) : conf := Conf RWLOCK_INIT (replicate n Idle).

(** ** Counting threads *)

Fixpoint count (f : pc → bool) (ts : list pc) : Z :=
  match ts with
  | [] => 0
  | p :: ts' => (if f p then 1 else 0) + count f ts'
  end.

Definition b2z (b : bool) : Z := if b then 1 else 0.

Lemma count_insert f ts i p q :
  ts !! i = Some p → count f (<[i := q]> ts) = count f ts - b2z (f p) + b2z (f q).
Proof.
  revert i. induction ts as [|r ts IH]; intros [|i] Hi; [done|done|..]; simpl in *.
  - simplify_eq. unfold b2z. lia.
  - rewrite (IH i Hi). lia.
Qed.

Lemma count_nonneg f ts : 0 ≤ count f ts ≤ Z.of_nat (length ts).
Proof. induction ts as [|p ts IH]; simpl; [lia|]. destruct (f p); lia. Qed.

Lemma count_pos f ts i p : ts !! i = Some p → f p = true → 0 < count f ts.
Proof.
  revert i. induction ts as [|r ts IH]; intros [|i] Hi Hf; [done|done|..]; simpl in *.
  - simplify_eq. rewrite Hf. pose proof (count_nonneg f ts). lia.
  - specialize (IH i Hi Hf). destruct (f r); lia.
Qed.

Lemma count_lt f ts i p : ts !! i = Some p → f p = false → count f ts < Z.of_nat (length ts).
Proof.
  revert i. induction ts as [|r ts IH]; intros [|i] Hi Hf; [done|done|..]; simpl in *.
  - simplify_eq. rewrite Hf. pose proof (count_nonneg f ts). lia.
  - specialize (IH i Hi Hf). destruct (f r); lia.
Qed.

Lemma count_two f ts i j p q :
  ts !! i = Some p → ts !! j = Some q → i ≠ j → f p = true → f q = true → 2 ≤ count f ts.
Proof.
  revert i j. induction ts as [|r ts IH]; intros [|i] [|j] Hi Hj Hne Hp Hq; try done; simpl in *.
  - simplify_eq. rewrite Hp. pose proof (count_pos f ts j q Hj Hq). lia.
  - simplify_eq. rewrite Hq. pose proof (count_pos f ts i p Hi Hp). lia.
  - specialize (IH i j Hi Hj ltac:(congruence) Hp Hq). destruct (f r); lia.
Qed.

Lemma count_replicate f n p : f p = false → count f (replicate n p) = 0.
Proof. intros Hf. induction n as [|n IH]; simpl; [done|]. rewrite Hf. lia. Qed.

Lemma count_zero f ts i p : count f ts = 0 → ts !! i = Some p → f p = false.
Proof. intros Hc Hi. destruct (f p) eqn:Hf; [|done]. pose proof (count_pos f ts i p Hi Hf). lia. Qed.

Lemma count_find f ts : 0 < count f ts → ∃ i p, ts !! i = Some p ∧ f p = true.
Proof.
  induction ts as [|p ts IH]; simpl; [lia|]. destruct (f p) eqn:Hf; [by exists O, p|].
  intros Hc. destruct IH as (i & q & ? & ?); [lia|]. by exists (S i), q.
Qed.

(** ** The invariant *)

(** Who holds the spinlock. *)
Definition holding (k : at_) : bool := match k with Try | Spin => false | _ => true end.

Definition holds_spin (p : pc) : bool :=
  match p with
  | ReadLock k | ReadUnlock k | WriteLock k | WriteUnlock k | TryReadLock k _ | TryWriteLock k _ => holding k
  | _ => false
  end.

(** Who counts as a reader, and as the writer. *)
Definition is_reader (p : pc) : bool :=
  match p with
  | Reading | ReadLock Leave | TryReadLock Leave true => true
  | ReadUnlock Leave => false
  | ReadUnlock _ => true
  | _ => false
  end.

Definition is_writer (p : pc) : bool :=
  match p with
  | Writing | WriteLock Leave | TryWriteLock Leave true => true
  | WriteUnlock Leave => false
  | WriteUnlock _ => true
  | _ => false
  end.

(** A thread is where the code can be. *)
Definition pc_ok (p : pc) : bool :=
  match p with
  | ReadLock (LoadReaders | StoreWriter) | ReadUnlock (LoadWriter | StoreWriter | Retry) => false
  | WriteLock (LoadCount | StoreCount _) => false
  | WriteUnlock (LoadWriter | LoadReaders | LoadCount | StoreCount _ | Retry) => false
  | TryReadLock (LoadReaders | StoreWriter | Retry) _ | TryWriteLock (LoadCount | StoreCount _ | Retry) _ => false
  | TryReadLock Leave _ | TryWriteLock Leave _ => true
  | TryReadLock _ w | TryWriteLock _ w => negb w
  | _ => true
  end.

(** What a thread has found out with the spinlock held is still so. *)
Definition knows (p : pc) (l : rwlock) : Prop :=
  match p with
  | ReadLock LoadCount | TryReadLock LoadCount _ => rw_writer l = false
  | ReadLock (StoreCount n) | TryReadLock (StoreCount n) _ => rw_writer l = false ∧ n = rw_readers l
  | ReadUnlock (StoreCount n) => n = rw_readers l
  | WriteLock LoadReaders | TryWriteLock LoadReaders _ => rw_writer l = false
  | WriteLock StoreWriter | TryWriteLock StoreWriter _ => rw_writer l = false ∧ rw_readers l = 0
  | _ => True
  end.

Record inv (c : conf) : Prop := Inv {
  inv_spin : rw_lock (c_lock c) = count holds_spin (c_threads c);
  inv_bit : rw_lock (c_lock c) = 0 ∨ rw_lock (c_lock c) = 1;
  inv_readers : rw_readers (c_lock c) = count is_reader (c_threads c);
  inv_writer : b2z (rw_writer (c_lock c)) = count is_writer (c_threads c);
  inv_excl : rw_writer (c_lock c) = true → rw_readers (c_lock c) = 0;
  inv_pcs : ∀ i p, c_threads c !! i = Some p → pc_ok p = true ∧ knows p (c_lock c);
  inv_few : Z.of_nat (length (c_threads c)) < 2 ^ 31 }.

Lemma start_inv n : Z.of_nat n < 2 ^ 31 → inv (start n).
Proof.
  intros Hn. split; cbn; rewrite ?count_replicate by done; try done; [by left| |by rewrite length_replicate].
  intros i p [-> _]%lookup_replicate. done.
Qed.

Lemma int32_readers n : 0 ≤ n < 2 ^ 31 - 1 → int32 (n + 1) = n + 1.
Proof. intros Hn. apply signed_small; lia. Qed.

Lemma knows_free p l : holds_spin p = false → knows p l.
Proof. destruct p as [|k|k|k|k|k w|k w| |]; try done; by destruct k. Qed.

Lemma knows_same p l l' : rw_readers l' = rw_readers l → rw_writer l' = rw_writer l → knows p l → knows p l'.
Proof. intros Hr Hw. destruct p as [|k|k|k|k|k w|k w| |]; try done; destruct k; cbn; rewrite ?Hr, ?Hw; done. Qed.

(** Without the spinlock a thread changes neither the readers nor the writer. *)
Lemma exec_outside p l l' q :
  exec p l = Some (l', q) → holds_spin p = false → rw_readers l' = rw_readers l ∧ rw_writer l' = rw_writer l.
Proof.
  intros Hx Hh. destruct p as [|k|k|k|k|k w|k w| |]; try done; destruct k; try done; cbn in Hx;
    unfold spin_lock, spin_trylock in Hx; repeat case_match; by simplify_eq/=.
Qed.

(** A thread moves from [p] to [q], with counts that follow; only the holder of
    the spinlock changes what another thread may know. *)
Lemma inv_move l l' ts i p q :
  inv (Conf l ts) → ts !! i = Some p →
  rw_lock l' = rw_lock l - b2z (holds_spin p) + b2z (holds_spin q) → (rw_lock l' = 0 ∨ rw_lock l' = 1) →
  rw_readers l' = rw_readers l - b2z (is_reader p) + b2z (is_reader q) →
  b2z (rw_writer l') = b2z (rw_writer l) - b2z (is_writer p) + b2z (is_writer q) →
  (rw_writer l' = true → rw_readers l' = 0) → pc_ok q = true → knows q l' →
  (holds_spin p = false → rw_readers l' = rw_readers l ∧ rw_writer l' = rw_writer l) →
  inv (Conf l' (<[i := q]> ts)).
Proof.
  intros [H1 H2 H3 H4 H5 H6 H7] Hi E1 E2 E3 E4 E5 E6 E7 E8. cbn in *.
  split; cbn; rewrite ?(count_insert _ ts i p q Hi), ?length_insert; try done; try lia.
  intros j r. destruct (decide (j = i)) as [->|Hne].
  - rewrite list_lookup_insert_eq by (by eapply lookup_lt_Some). by intros [= <-].
  - rewrite list_lookup_insert_ne by done. intros Hj. destruct (H6 j r Hj) as [Hok Hk]. split; [done|].
    destruct (holds_spin r) eqn:Hr; [|by apply knows_free].
    destruct (holds_spin p) eqn:Hp; [pose proof (count_two holds_spin _ j i r p Hj Hi Hne Hr Hp); lia|].
    destruct (E8 eq_refl) as [Er Ew]. by apply (knows_same _ l).
Qed.

Lemma step_call_inv l ts i p q :
  inv (Conf l ts) → ts !! i = Some p → call p q → inv (Conf l (<[i := q]> ts)).
Proof.
  intros Hi Hp Hc. pose proof Hi as [_ Hb _ _ He _ _].
  apply (inv_move l l ts i p q Hi Hp); try done; destruct Hc; cbn; try lia; done.
Qed.

(** The bounds that the counts give on the lock of a thread [p]. *)
Lemma inv_bounds l ts i p :
  inv (Conf l ts) → ts !! i = Some p →
  b2z (holds_spin p) ≤ rw_lock l ∧ b2z (is_reader p) ≤ rw_readers l ≤ Z.of_nat (length ts) ∧
  (is_reader p = false → rw_readers l < Z.of_nat (length ts)) ∧ b2z (is_writer p) ≤ b2z (rw_writer l).
Proof.
  intros [H1 _ H3 H4 _ _ _] Hp. cbn in *.
  assert (∀ f, b2z (f p) ≤ count f ts) as Hc.
  { intros f. destruct (f p) eqn:E; cbn; [pose proof (count_pos _ _ _ _ Hp E)|pose proof (count_nonneg f ts)]; lia. }
  rewrite H1, H3, H4. pose proof (count_nonneg is_reader ts).
  split_and!; [apply Hc|apply Hc|lia|intros E; by apply (count_lt _ _ i p)|apply Hc].
Qed.

(** One access of the thread [i]. *)
Lemma step_exec_inv l ts i p l' q :
  inv (Conf l ts) → ts !! i = Some p → exec p l = Some (l', q) → inv (Conf l' (<[i := q]> ts)).
Proof.
  intros Hinv Hp Hx. destruct (inv_bounds l ts i p Hinv Hp) as (Hs & Hr & Hlt & Hw).
  pose proof (exec_outside p l l' q Hx) as Hout. pose proof Hinv as [_ H2 _ _ H5 H6 H7]. cbn in *.
  destruct (H6 i p Hp) as [Hok Hk]. destruct l as [s n w]. cbn [rw_lock rw_readers rw_writer] in *.
  assert (w = true → n = 0 ∧ b2z (is_reader p) = 0) as H5' by (intros Hwt; specialize (H5 Hwt); split; [done|];
    destruct (is_reader p); cbn in *; lia). clear H5 H6.
  apply (inv_move (RwLock s n w) l' ts i p q Hinv Hp); [..|exact Hout]; clear Hout;
    destruct w; [destruct (H5' eq_refl) as [-> Hn0]|clear H5'|..];
    destruct p as [|k|k|k|k|k b|k b| |]; try done; destruct k; try done; try (destruct b; try done);
    cbn in *; unfold spin_lock, spin_trylock, spin_is_locked in *; cbn in *;
    repeat match goal with
    | H : context [?x =? 0] |- _ => destruct (Z.eqb_spec x 0)
    | H : context [0 <? ?x] |- _ => destruct (Z.ltb_spec 0 x)
    end; cbn in *; simplify_eq; cbn in *; destruct_and?; simplify_eq; rewrite ?int32_readers by lia; try done; try lia.
Qed.

Lemma step_inv c c' : inv c → step c c' → inv c'.
Proof.
  intros Hi Hs. destruct Hs as [l ts i p q Hp Hc|l ts i p l' q Hp Hx].
  - by eapply step_call_inv.
  - by eapply step_exec_inv.
Qed.

Lemma steps_inv c c' : inv c → rtc step c c' → inv c'.
Proof. intros Hi Hs. induction Hs as [|x y z Hxy Hyz IH]; [done|]. eauto using step_inv. Qed.

(** ** Running one thread *)

(** The next access of a thread that takes and gives up without a pause. *)
Definition advance (p : pc) (l : rwlock) : rwlock * pc :=
  match p with
  | Idle => (l, Idle)
  | Reading => (l, ReadUnlock Try)
  | Writing => (l, WriteUnlock Try)
  | _ => default (l, p) (exec p l)
  end.

Fixpoint drive (n : nat) (p : pc) (l : rwlock) : rwlock * pc :=
  match n with
  | O => (l, p)
  | S n' => let '(l', q) := advance p l in drive n' q l'
  end.

Lemma advance_step l ts i p :
  ts !! i = Some p → rtc step (Conf l ts) (Conf (advance p l).1 (<[i := (advance p l).2]> ts)).
Proof.
  intros Hp. assert (∀ o, exec p l = o → rtc step (Conf l ts) (Conf (default (l, p) o).1 (<[i := (default (l, p) o).2]> ts))) as Hx.
  { intros [[l' q]|] Hx; cbn; [apply rtc_once; by eapply step_exec|by rewrite list_insert_id]. }
  destruct p as [|k|k|k|k|k w|k w| |]; cbn [advance]; try by apply Hx.
  - by rewrite list_insert_id.
  - apply rtc_once. eapply step_call; [done|constructor].
  - apply rtc_once. eapply step_call; [done|constructor].
Qed.

Lemma drive_steps n l ts i p :
  ts !! i = Some p → rtc step (Conf l ts) (Conf (drive n p l).1 (<[i := (drive n p l).2]> ts)).
Proof.
  revert l ts p. induction n as [|n IH]; intros l ts p Hp; cbn [drive].
  { by rewrite list_insert_id. }
  pose proof (advance_step l ts i p Hp) as Hs. destruct (advance p l) as [l' q]. cbn [fst snd] in Hs.
  etrans; [exact Hs|]. specialize (IH l' (<[i := q]> ts) q). rewrite list_insert_insert_eq in IH.
  apply IH. apply list_lookup_insert_eq. by eapply lookup_lt_Some.
Qed.

Definition busy (p : pc) : bool := match p with Idle => false | _ => true end.

Ltac leaves_after n :=
  exists n; cbn; repeat match goal with H : _ = _ :> bool |- _ => rewrite H; clear H end; reflexivity.

(** The holder of the spinlock gives it up within four accesses. *)
Lemma holder_leaves p l :
  pc_ok p = true → holds_spin p = true → rw_lock l = 1 → ∃ n, rw_lock (drive n p l).1 = 0.
Proof.
  intros Hok Hp Hl. destruct l as [x r w]. cbn in Hl. subst x.
  destruct p as [|k|k|k|k|k b|k b| |]; try done; destruct k; try done;
    try (destruct b; try done); destruct w; destruct (0 <? r) eqn:Hr, (r =? 0) eqn:Hz;
    first [leaves_after 1%nat|leaves_after 2%nat|leaves_after 3%nat|leaves_after 4%nat].
Qed.

Lemma release_spin c :
  inv c → ∃ c', rtc step c c' ∧ rw_lock (c_lock c') = 0 ∧
    count busy (c_threads c') ≤ count busy (c_threads c).
Proof.
  intros Hi. destruct c as [l ts]. pose proof Hi as [H1 [H2|H2] _ _ _ H6 _]; cbn in *; [by exists (Conf l ts)|].
  destruct (count_find holds_spin ts) as (i & p & Hp & Hh); [lia|].
  destruct (holder_leaves p l (proj1 (H6 i p Hp)) Hh H2) as [n Hn]. pose proof (drive_steps n l ts i p Hp) as Hs.
  eexists. split; [exact Hs|]. cbn. split; [done|]. rewrite (count_insert _ _ _ _ _ Hp).
  destruct p; try done; cbn; destruct (busy _); cbn; lia.
Qed.

(** With the spinlock free, a thread that is inside, or any thread when nobody
    is inside, comes out again when it runs alone. *)
Lemma thread_leaves p l :
  pc_ok p = true → holds_spin p = false → rw_lock l = 0 →
  is_reader p = true ∨ is_writer p = true ∨ (rw_readers l = 0 ∧ rw_writer l = false) →
  (drive 12 p l).2 = Idle ∧ rw_lock (drive 12 p l).1 = 0.
Proof.
  intros Hok Hs Hl Hin. destruct l as [x r w]. cbn in Hl. subst x.
  destruct p as [|k|k|k|k|k b|k b| |]; try done; try (destruct k; try done); try (destruct b; try done);
    (destruct Hin as [?|[?|[Hr Hw]]]; [try done|try done|try (cbn in Hr, Hw; subst r w; done)]);
    cbn; repeat (case_match; simplify_eq/=); done.
Qed.

Lemma drain k c :
  inv c → count busy (c_threads c) ≤ Z.of_nat k →
  ∃ c', rtc step c c' ∧ count busy (c_threads c') = 0.
Proof.
  revert c. induction k as [|k IH]; intros c Hi Hk.
  { exists c. split; [done|]. pose proof (count_nonneg busy (c_threads c)). lia. }
  destruct (release_spin c Hi) as (c1 & Hs1 & Hl1 & Hb1). pose proof (steps_inv _ _ Hi Hs1) as Hi1.
  destruct (decide (count busy (c_threads c1) = 0)) as [Hz|Hz]; [by exists c1|].
  destruct c1 as [l ts]. pose proof Hi1 as [H1 _ H3 H4 _ H6 _]. cbn in *.
  assert (∃ i p, ts !! i = Some p ∧ busy p = true ∧
    (is_reader p = true ∨ is_writer p = true ∨ (rw_readers l = 0 ∧ rw_writer l = false))) as (i & p & Hp & Hbp & Hin).
  { destruct (decide (0 < count is_reader ts)) as [Hr|Hr].
    - destruct (count_find _ _ Hr) as (i & p & Hp & Hf). exists i, p. split_and!; [done|by destruct p|auto].
    - destruct (decide (0 < count is_writer ts)) as [Hw|Hw].
      + destruct (count_find _ _ Hw) as (i & p & Hp & Hf). exists i, p. split_and!; [done|by destruct p|auto].
      + destruct (count_find busy ts) as (i & p & Hp & Hf); [pose proof (count_nonneg busy ts); lia|].
        exists i, p. split_and!; [done|done|]. right; right. pose proof (count_nonneg is_reader ts).
        pose proof (count_nonneg is_writer ts). split; [lia|]. destruct (rw_writer l); [cbn in H4; lia|done]. }
  assert (holds_spin p = false) as Hsp by (eapply count_zero; [|done]; lia).
  destruct (thread_leaves p l (proj1 (H6 i p Hp)) Hsp Hl1 Hin) as [Hq _].
  pose proof (drive_steps 12 l ts i p Hp) as Hs2. rewrite Hq in Hs2.
  pose proof (steps_inv _ _ Hi1 Hs2) as Hi2.
  destruct (IH _ Hi2) as (c' & Hs3 & Hz3).
  { cbn. rewrite (count_insert _ _ _ _ _ Hp), Hbp. cbn. lia. }
  exists c'. split; [|done]. etrans; [exact Hs1|]. by etrans; [exact Hs2|].
Qed.

(** ** The claims *)

(** C36. Mutual exclusion of the read-write lock.  However the operations of any
    number of threads interleave at their accesses to memory, while one thread
    is inside as the writer no other thread is inside, as a writer or as a
    reader; and the counter of readers is the number of those inside or on
    their way in or out. *)
Theorem rwlock_exclusion n c i j :
  Z.of_nat n < 2 ^ 31 → rtc step (start n) c → i ≠ j →
  rw_readers (c_lock c) = count is_reader (c_threads c) ∧
  (c_threads c !! i = Some Writing → c_threads c !! j ≠ Some Writing ∧ c_threads c !! j ≠ Some Reading).
Proof.
  intros Hn Hs Hne. pose proof (steps_inv _ _ (start_inv n Hn) Hs) as [H1 H2 H3 H4 H5 H6 H7].
  split; [done|]. intros Hi.
  assert (0 < count is_writer (c_threads c)) as Hw by by eapply count_pos.
  assert (rw_writer (c_lock c) = true) as Hwt by (destruct (rw_writer (c_lock c)); [done|cbn in H4; lia]).
  specialize (H5 Hwt). rewrite Hwt in H4. cbn in H4. split; intros Hj.
  - pose proof (count_two is_writer _ i j _ _ Hi Hj Hne eq_refl eq_refl). lia.
  - pose proof (count_pos is_reader _ j _ Hj eq_refl). lia.
Qed.

(** No deadlock.  From every state the threads can reach, however they are
    waiting for each other, there is a continuation in which all of them have
    left the lock. *)
Theorem rwlock_no_deadlock n c :
  Z.of_nat n < 2 ^ 31 → rtc step (start n) c →
  ∃ c', rtc step c c' ∧ ∀ i p, c_threads c' !! i = Some p → p = Idle.
Proof.
  intros Hn Hs. pose proof (steps_inv _ _ (start_inv n Hn) Hs) as Hi.
  destruct (drain (Z.to_nat (count busy (c_threads c))) c Hi) as (c' & Hs' & Hz).
  { pose proof (count_nonneg busy (c_threads c)). lia. }
  exists c'. split; [done|]. intros i p Hp. pose proof (count_zero busy _ i p Hz Hp). by destruct p.
Qed.

(** Two threads, the first inside as the writer and the second waiting. *)
Definition demo_conf : conf := Conf (RwLock 0 0 true) [Writing; ReadLock Try].

Lemma demo_conf_reachable : rtc step (start 2) demo_conf.
Proof.
  eapply rtc_l; [eapply (step_call _ _ 0%nat); [done|apply call_write]|].
  do 5 (eapply rtc_l; [eapply (step_exec _ _ 0%nat); done|]).
  eapply rtc_l; [eapply (step_call _ _ 1%nat); [done|apply call_read]|].
  apply rtc_refl.
Qed.

Lemma rwlock_exclusion_witness : c_threads demo_conf !! 1%nat ≠ Some Writing.
Proof.
  apply (rwlock_exclusion 2 demo_conf 0 1); [lia|exact demo_conf_reachable|lia|reflexivity].
Defined.

Lemma rwlock_no_deadlock_witness :
  ∃ c', rtc step demo_conf c' ∧ ∀ i p, c_threads c' !! i = Some p → p = Idle.
Proof. apply (rwlock_no_deadlock 2 demo_conf); [lia|exact demo_conf_reachable]. Defined.
