(* ===== verification/UAccess.v ===== *)
(** * Access to user memory (mm/uaccess.c)

    The memory that the kernel shares with the running program is the byte
    memory of CString.v.  In [copy_from_user] and [copy_to_user] the kernel
    side is a kernel object: the bytes of the object, or [None] for a null
    pointer.  The model is of the build without DEBUG_TESTS. *)

From S2P Require Import Prelude CString CStringThm.

Implicit Types (m : bytes) (l : list Z).

(** ** Error numbers (include/types.h) *)

Definition EPERM : Z := 1.
Definition ESRCH : Z := 3.
Definition ECHILD : Z := 10.
Definition EACCES : Z := 13.
Definition EFAULT : Z := 14.
Definition EINVAL : Z := 22.
Definition ENAMETOOLONG : Z := 36.
Definition ENOSYS : Z := 38.

(** ** Blocks of bytes and words *)

Fixpoint rd_bytes (n : nat) (p : Z) : BM (list Z) :=
  match n with
  | O => mret []
  | S n' => c ← rd p; l ← rd_bytes n' (p + 1); mret (c :: l)
  end.

Fixpoint wr_bytes (p : Z) (l : list Z) : BM unit :=
  match l with
  | [] => mret tt
  | c :: l' => wr p c ;; wr_bytes (p + 1) l'
  end.

(** The [n] bytes of a number, the lowest first, and back. *)
Fixpoint le_bytes (n : nat) (v : Z) : list Z :=
  match n with
  | O => []
  | S n' => v mod 256 :: le_bytes n' (v / 256)
  end.

(** ** uaccess.c *)

Definition USER_ADDR_MAX : Z := 0x00007FFFFFFFFFFF.

Definition access_ok (addr size : Z) : bool :=
  if size =? 0 then true
  else if 2 ^ 64 <=? addr + (size - 1) then false
  else
    let end_ := addr + (size - 1) in
    if (USER_ADDR_MAX <? addr) || (USER_ADDR_MAX <? end_) then false
    else if (0x0000800000000000 <=? addr) && (addr <? 0xFFFF800000000000) then false
    else if (0x0000800000000000 <=? end_) && (end_ <? 0xFFFF800000000000) then false
    else true.

(** The result, and the bytes of the object [dst] afterwards. *)
Definition copy_from_user (dst : option (list Z)) (src size : Z) : BM (Z * list Z) :=
  match dst with
  | None => mret (- EFAULT, [])
  | Some d =>
      if size =? 0 then mret (0, d)
      else if negb (access_ok src size) then mret (- EFAULT, d)
      else
        l ← rd_bytes (Z.to_nat size) src;
        mret (0, l ++ drop (Z.to_nat size) d)
  end.

Definition copy_to_user (dst : Z) (src : option (list Z)) (size : Z) : BM Z :=
  match src with
  | None => mret (- EFAULT)
  | Some l =>
      if size =? 0 then mret 0
      else if negb (access_ok dst size) then mret (- EFAULT)
      else if alen l <? size then fault
      else wr_bytes dst (take (Z.to_nat size) l) ;; mret 0
  end.

(** The loop of strncpy_from_user; [n] turns are left. *)
Fixpoint strncpy_user_from (n : nat) (dst src len max : Z) : BM Z :=
  match n with
  | O => wr (dst + (max - 1)) 0 ;; mret (- ENAMETOOLONG)
  | S n' =>
      if negb (access_ok (src + len) 1) then mret (- EFAULT)
      else
        c ← rd (src + len);
        wr (dst + len) c ;;
        if c =? 0 then mret len else strncpy_user_from n' dst src (len + 1) max
  end.

Definition strncpy_from_user (dst src max : Z) : BM Z :=
  if (dst =? 0) || (max =? 0) then mret (- EFAULT)
  else if negb (access_ok src 1) then mret (- EFAULT)
  else strncpy_user_from (Z.to_nat (max - 1)) dst src 0 max.

Fixpoint strnlen_user_from (n : nat) (str len : Z) : BM Z :=
  match n with
  | O => mret (- ENAMETOOLONG)
  | S n' =>
      if negb (access_ok (str + len) 1) then mret (- EFAULT)
      else
        c ← rd (str + len);
        if c =? 0 then mret len else strnlen_user_from n' str (len + 1)
  end.

Definition strnlen_user (str max : Z) : BM Z :=
  if negb (access_ok str 1) then mret (- EFAULT)
  else strnlen_user_from (Z.to_nat max) str 0.

(** ** Bytes and words *)

Lemma alen_le_bytes n v : alen (le_bytes n v) = Z.of_nat n.
Proof. revert v. induction n as [|n IH]; intros v; [done|]. cbn [le_bytes]. rewrite alen_cons, IH. lia. Qed.

Lemma le_value_bytes n v : 0 ≤ v < 256 ^ Z.of_nat n → le_value (le_bytes n v) = v.
Proof.
  revert v. induction n as [|n IH]; intros v Hv; cbn [le_bytes le_value].
  { change (256 ^ Z.of_nat 0) with 1 in Hv. lia. }
  rewrite IH; [pose proof (Z.div_mod v 256); lia|].
  replace (Z.of_nat (S n)) with (Z.succ (Z.of_nat n)) in Hv by lia. rewrite Z.pow_succ_r in Hv by lia.
  split; [apply Z.div_pos; lia|apply Z.div_lt_upper_bound; lia].
Qed.

Lemma rd_bytes_wp n m p l (Q : list Z → bytes → Prop) :
  block m p l → length l = n → Q l m → wp (rd_bytes n p) Q m.
Proof.
  revert p l Q. induction n as [|n IH]; intros p [|c l] Q Hb Hn HQ; try done.
  destruct Hb as [Hc Hb]. cbn [rd_bytes]. wp_step. apply (rd_wp m p c); [done|].
  wp_step. apply (IH _ l); [done|simpl in Hn; lia|]. by wp_step.
Qed.

Lemma mapped_cons m p c n x : 0 ≤ n → mapped m p (n + 1) → is_Some (m !! p) ∧ mapped (<[c := x]> m) (p + 1) n.
Proof.
  intros Hn Hm. split; [apply Hm; lia|]. intros y Hy.
  destruct (decide (y = c)) as [->|]; [by rewrite lookup_insert_eq|].
  rewrite lookup_insert_ne by done. apply Hm. lia.
Qed.

Lemma wr_bytes_wp m p l (Q : unit → bytes → Prop) :
  mapped m p (alen l) → Q tt (store m p l) → wp (wr_bytes p l) Q m.
Proof.
  revert m p. induction l as [|c l IH]; intros m p Hm HQ; [done|].
  rewrite alen_cons in Hm. destruct (mapped_cons m p p (alen l) c (alen_nonneg l) Hm) as [Hp Hm'].
  cbn [wr_bytes]. wp_step. apply wr_wp; [done|]. by apply IH.
Qed.

Lemma block_mapped m p l : block m p l → mapped m p (alen l).
Proof.
  intros Hb y Hy. replace y with (p + (y - p)) by lia.
  rewrite (block_lookup _ _ _ _ Hb) by lia. apply aget_is_Some. lia.
Qed.

(** ** What a range check admits *)

Lemma access_ok_iff addr size :
  0 ≤ addr → 0 ≤ size → access_ok addr size = true ↔ size = 0 ∨ addr + size - 1 ≤ USER_ADDR_MAX.
Proof.
  intros Ha Hs. unfold access_ok, USER_ADDR_MAX.
  destruct (Z.eqb_spec size 0); [tauto|].
  destruct (Z.leb_spec (2 ^ 64) (addr + (size - 1))); [split; [done|lia]|].
  destruct (Z.ltb_spec 0x00007FFFFFFFFFFF addr); [split; [done|lia]|].
  destruct (Z.ltb_spec 0x00007FFFFFFFFFFF (addr + (size - 1))); cbn [orb]; [split; [done|lia]|].
  rewrite (proj2 (Z.leb_gt 0x0000800000000000 addr)) by lia.
  rewrite (proj2 (Z.leb_gt 0x0000800000000000 (addr + (size - 1)))) by lia. cbn [andb].
  split; [lia|done].
Qed.

Lemma access_ok_user addr size :
  0 ≤ addr → 0 ≤ size → addr + size - 1 ≤ USER_ADDR_MAX → access_ok addr size = true.
Proof. intros. apply access_ok_iff; auto. Qed.

(** ** Copying *)

Section copying.
Context (m : bytes).

(** A copy out of the kernel writes the object where the program asked, if all
    of that lies in user space, and is refused otherwise. *)
Lemma wp_copy_to_user dst l (Q : Z → bytes → Prop) :
  0 ≤ dst → (dst + alen l - 1 ≤ USER_ADDR_MAX → mapped m dst (alen l)) →
  (if decide (l = [] ∨ dst + alen l - 1 ≤ USER_ADDR_MAX) then Q 0 (store m dst l) else Q (- EFAULT) m) →
  wp (copy_to_user dst (Some l) (alen l)) Q m.
Proof.
  intros Hd Hm HQ. unfold copy_to_user. pose proof (alen_nonneg l) as Hl.
  destruct (Z.eqb_spec (alen l) 0) as [H0|Hne].
  { destruct l as [|c l]; [|unfold alen in H0; simpl in H0; lia]. by rewrite decide_True in HQ by auto. }
  destruct (access_ok dst (alen l)) eqn:Hok; cbn [negb].
  - apply access_ok_iff in Hok as [?|Hok]; [done| |lia|lia].
    rewrite decide_True in HQ by auto. rewrite Z.ltb_irrefl.
    replace (Z.to_nat (alen l)) with (length l) by (unfold alen; lia). rewrite firstn_all.
    wp_step. apply wr_bytes_wp; auto.
  - rewrite decide_False in HQ; [done|]. intros [->|Hle]; [done|].
    by rewrite access_ok_user in Hok by lia.
Qed.

(** A copy into the kernel replaces a whole object by the bytes at [src]. *)
Lemma wp_copy_from_user d src l (Q : Z * list Z → bytes → Prop) :
  0 ≤ src → length d = length l → (src + alen l - 1 ≤ USER_ADDR_MAX → block m src l) →
  (if decide (l = [] ∨ src + alen l - 1 ≤ USER_ADDR_MAX) then Q (0, l) m else Q (- EFAULT, d) m) →
  wp (copy_from_user (Some d) src (alen l)) Q m.
Proof.
  intros Hs Hdl Hm HQ. unfold copy_from_user. pose proof (alen_nonneg l) as Hl.
  destruct (Z.eqb_spec (alen l) 0) as [H0|Hne].
  { destruct l as [|c l]; [|unfold alen in H0; simpl in H0; lia]. destruct d; [|done].
    by rewrite decide_True in HQ by auto. }
  destruct (access_ok src (alen l)) eqn:Hok; cbn [negb].
  - apply access_ok_iff in Hok as [?|Hok]; [done| |lia|lia].
    rewrite decide_True in HQ by auto. wp_step.
    apply (rd_bytes_wp _ m src l); [auto|unfold alen; lia|].
    wp_step. rewrite drop_ge by (unfold alen; lia). by rewrite app_nil_r.
  - rewrite decide_False in HQ; [done|]. intros [->|Hle]; [done|].
    by rewrite access_ok_user in Hok by lia.
Qed.

End copying.

(** ** Strings from user space *)

Lemma strncpy_user_from_wp n m0 dst src pre cs max (Q : Z → bytes → Prop) :
  block m0 (src + alen pre) (cs ++ [0]) → Forall (λ c, 0 < c < 256) cs → 0 ≤ src →
  src + alen pre + alen cs ≤ USER_ADDR_MAX → USER_ADDR_MAX < dst → mapped m0 dst max →
  Z.of_nat n = max - 1 - alen pre →
  (if decide (alen pre + alen cs < max - 1)
   then Q (alen pre + alen cs) (store m0 dst (pre ++ cs ++ [0]))
   else Q (- ENAMETOOLONG) (store m0 dst (take (Z.to_nat (max - 1)) (pre ++ cs) ++ [0]))) →
  wp (strncpy_user_from n dst src (alen pre) max) Q (store m0 dst pre).
Proof.
  revert pre cs. induction n as [|n IH]; intros pre cs Hb Hcs Hs Hu Hk Hm Hn HQ; cbn [strncpy_user_from].
  { pose proof (alen_nonneg pre). pose proof (alen_nonneg cs).
    rewrite decide_False in HQ by lia. wp_step.
    apply wr_wp; [refine (mapped_store m0 dst max dst pre Hm _ _); lia|].
    wp_step. replace (max - 1) with (alen pre) in * by lia. rewrite <-store_snoc.
    replace (Z.to_nat (alen pre)) with (length pre) in HQ by (unfold alen; lia). by rewrite take_app_length in HQ. }
  pose proof (alen_nonneg pre). pose proof (alen_nonneg cs).
  rewrite access_ok_user by lia. cbn [negb]. wp_step.
  assert (∀ c, m0 !! (src + alen pre) = Some c → store m0 dst pre !! (src + alen pre) = Some c) as Hrd.
  { intros c Hc. by rewrite lookup_store_out by lia. }
  assert (is_Some (store m0 dst pre !! (dst + alen pre))) as Hwr.
  { refine (mapped_store m0 dst max dst pre Hm _ _); lia. }
  destruct cs as [|c cs].
  - destruct Hb as [Hz _]. apply (rd_wp _ _ 0); [auto|]. wp_step. apply wr_wp; [done|]. cbn [Z.eqb].
    wp_step. change (alen (@nil Z)) with 0 in HQ. rewrite decide_True, Z.add_0_r in HQ by lia.
    by rewrite <-store_snoc.
  - destruct Hb as [Hc Hb]. inversion_clear Hcs as [|? ? Hc0 Hcs']. rewrite alen_cons in *.
    apply (rd_wp _ _ c); [auto|]. wp_step. apply wr_wp; [done|].
    rewrite (proj2 (Z.eqb_neq c 0)) by lia. rewrite <-store_snoc.
    replace (alen pre + 1) with (alen (pre ++ [c])) by (rewrite alen_app; done).
    assert (alen (pre ++ [c]) = alen pre + 1) as Hal by (rewrite alen_app; done).
    apply IH with cs; rewrite ?Hal; [by rewrite Z.add_assoc|done|done|lia|done|done|lia|].
    rewrite <-!app_assoc. replace (alen pre + 1 + alen cs) with (alen pre + (alen cs + 1)) by lia. done.
Qed.


