(* ===== verification/Sched.v ===== *)
(** * Kernel threads and the scheduler (sched/thread.c, sched/sched.c, sched/context.asm, smp/percpu.c)

    Threads live at addresses of the kernel heap; the run queue of a processor
    is a doubly linked list of them.  Before the other processors are started
    there is one queue, in static variables; afterwards each processor has its
    own, in its per-CPU data.  The registers of the executing processor and the
    memory of the stacks are part of the state, because switching threads is
    what the scheduler is for.  The spinlocks make every operation on a queue
    atomic and are left out. *)

From stdpp Require Import functions strings.
From S2P Require Import Prelude DList KHeap CString.

(** ** Threads and run queues (thread.h, percpu.h) *)

Inductive thread_state :=
  | THREAD_READY
  | THREAD_RUNNING
  | THREAD_BLOCKED
  | THREAD_SLEEPING
  | THREAD_TERMINATED.

#[export] Instance thread_state_eq_dec : EqDecision thread_state.
Proof. solve_decision. Defined.

Definition MAX_THREADS : Z := 256.
Definition MAX_CPUS : Z := 256.
Definition DEFAULT_STACK_SIZE : Z := 16 * 1024.
Definition TIME_SLICE_TICKS : Z := 10.
Definition SIZEOF_THREAD : Z := 112.

Record thread := Thread {
  t_tid : Z;
  t_name : list Z;
  t_state : thread_state;
  t_stack_base : option Z;
  t_stack_size : Z;
  t_rsp : Z;
  t_wake_time : Z;
  t_priority : Z;
  t_cpu_time : Z;
  t_cpu_mask : Z;
  t_next : option Z;
  t_prev : option Z }.

Definition set_t_state (x : thread_state) (t : thread) : thread :=
  Thread (t_tid t) (t_name t) x (t_stack_base t) (t_stack_size t) (t_rsp t) (t_wake_time t)
    (t_priority t) (t_cpu_time t) (t_cpu_mask t) (t_next t) (t_prev t).
Definition set_t_rsp (x : Z) (t : thread) : thread :=
  Thread (t_tid t) (t_name t) (t_state t) (t_stack_base t) (t_stack_size t) x (t_wake_time t)
    (t_priority t) (t_cpu_time t) (t_cpu_mask t) (t_next t) (t_prev t).
Definition set_t_wake_time (x : Z) (t : thread) : thread :=
  Thread (t_tid t) (t_name t) (t_state t) (t_stack_base t) (t_stack_size t) (t_rsp t) x
    (t_priority t) (t_cpu_time t) (t_cpu_mask t) (t_next t) (t_prev t).
Definition set_t_priority (x : Z) (t : thread) : thread :=
  Thread (t_tid t) (t_name t) (t_state t) (t_stack_base t) (t_stack_size t) (t_rsp t)
    (t_wake_time t) x (t_cpu_time t) (t_cpu_mask t) (t_next t) (t_prev t).
Definition set_t_cpu_time (x : Z) (t : thread) : thread :=
  Thread (t_tid t) (t_name t) (t_state t) (t_stack_base t) (t_stack_size t) (t_rsp t)
    (t_wake_time t) (t_priority t) x (t_cpu_mask t) (t_next t) (t_prev t).
Definition set_t_cpu_mask (x : Z) (t : thread) : thread :=
  Thread (t_tid t) (t_name t) (t_state t) (t_stack_base t) (t_stack_size t) (t_rsp t)
    (t_wake_time t) (t_priority t) (t_cpu_time t) x (t_next t) (t_prev t).
Definition set_t_next (x : option Z) (t : thread) : thread :=
  Thread (t_tid t) (t_name t) (t_state t) (t_stack_base t) (t_stack_size t) (t_rsp t)
    (t_wake_time t) (t_priority t) (t_cpu_time t) (t_cpu_mask t) x (t_prev t).
Definition set_t_prev (x : option Z) (t : thread) : thread :=
  Thread (t_tid t) (t_name t) (t_state t) (t_stack_base t) (t_stack_size t) (t_rsp t)
    (t_wake_time t) (t_priority t) (t_cpu_time t) (t_cpu_mask t) (t_next t) x.

(** The scheduler state of a processor: fields of its percpu_data, or the static
    variables of thread.c and sched.c while there is one processor. *)
Record runq := RunQ {
  rq_current : option Z;
  rq_idle : option Z;
  rq_head : option Z;
  rq_tail : option Z;
  rq_slice : Z }.

Definition set_rq_current (x : option Z) (q : runq) : runq :=
  RunQ x (rq_idle q) (rq_head q) (rq_tail q) (rq_slice q).
Definition set_rq_idle (x : option Z) (q : runq) : runq :=
  RunQ (rq_current q) x (rq_head q) (rq_tail q) (rq_slice q).
Definition set_rq_head (x : option Z) (q : runq) : runq :=
  RunQ (rq_current q) (rq_idle q) x (rq_tail q) (rq_slice q).
Definition set_rq_tail (x : option Z) (q : runq) : runq :=
  RunQ (rq_current q) (rq_idle q) (rq_head q) x (rq_slice q).
Definition set_rq_slice (x : Z) (q : runq) : runq :=
  RunQ (rq_current q) (rq_idle q) (rq_head q) (rq_tail q) x.

(** Registers that a switch concerns. *)
Inductive reg := RBP | RBX | R12 | R13 | R14 | R15 | RFLAGS | RSP | RIP | RDI | RAX.

#[export] Instance reg_eq_dec : EqDecision reg.
Proof. solve_decision. Defined.

(** Addresses of code, which the linker chooses. *)
Class Code := {
  thread_entry_trampoline_addr : Z;
  sched_reschedule_return : Z;
  thread_entry_trampoline_return : Z;
  idle_thread_func : Z }.

Record sched := Sched {
  sc_threads : gmap Z thread;
  sc_thread_table : list (option Z);
  sc_next_tid : Z;
  sc_boot : runq;
  sc_percpu : list (option runq);
  sc_smp_init_done : bool;
  sc_num_cpus_online : Z;
  sc_cpu : Z;
  sc_running : bool;
  sc_balance_tick : Z;
  sc_ticks : Z;
  sc_frequency : Z;
  sc_regs : reg → Z;
  sc_words : Z → Z }.

Definition set_sc_threads (x : gmap Z thread) (s : sched) : sched :=
  Sched x (sc_thread_table s) (sc_next_tid s) (sc_boot s) (sc_percpu s) (sc_smp_init_done s)
    (sc_num_cpus_online s) (sc_cpu s) (sc_running s) (sc_balance_tick s) (sc_ticks s)
    (sc_frequency s) (sc_regs s) (sc_words s).
Definition set_sc_table (tb : list (option Z)) (n : Z) (s : sched) : sched :=
  Sched (sc_threads s) tb n (sc_boot s) (sc_percpu s) (sc_smp_init_done s)
    (sc_num_cpus_online s) (sc_cpu s) (sc_running s) (sc_balance_tick s) (sc_ticks s)
    (sc_frequency s) (sc_regs s) (sc_words s).
Definition set_sc_queues (b : runq) (pc : list (option runq)) (s : sched) : sched :=
  Sched (sc_threads s) (sc_thread_table s) (sc_next_tid s) b pc (sc_smp_init_done s)
    (sc_num_cpus_online s) (sc_cpu s) (sc_running s) (sc_balance_tick s) (sc_ticks s)
    (sc_frequency s) (sc_regs s) (sc_words s).
Definition set_sc_running (x : bool) (s : sched) : sched :=
  Sched (sc_threads s) (sc_thread_table s) (sc_next_tid s) (sc_boot s) (sc_percpu s)
    (sc_smp_init_done s) (sc_num_cpus_online s) (sc_cpu s) x (sc_balance_tick s) (sc_ticks s)
    (sc_frequency s) (sc_regs s) (sc_words s).
Definition set_sc_balance_tick (x : Z) (s : sched) : sched :=
  Sched (sc_threads s) (sc_thread_table s) (sc_next_tid s) (sc_boot s) (sc_percpu s)
    (sc_smp_init_done s) (sc_num_cpus_online s) (sc_cpu s) (sc_running s) x (sc_ticks s)
    (sc_frequency s) (sc_regs s) (sc_words s).
Definition set_sc_ticks (x : Z) (s : sched) : sched :=
  Sched (sc_threads s) (sc_thread_table s) (sc_next_tid s) (sc_boot s) (sc_percpu s)
    (sc_smp_init_done s) (sc_num_cpus_online s) (sc_cpu s) (sc_running s) (sc_balance_tick s)
    x (sc_frequency s) (sc_regs s) (sc_words s).
Definition set_sc_machine (r : reg → Z) (w : Z → Z) (s : sched) : sched :=
  Sched (sc_threads s) (sc_thread_table s) (sc_next_tid s) (sc_boot s) (sc_percpu s)
    (sc_smp_init_done s) (sc_num_cpus_online s) (sc_cpu s) (sc_running s) (sc_balance_tick s)
    (sc_ticks s) (sc_frequency s) r w.

Abbreviation SM := (M sched).

(** ** Access to threads, queues, registers and the stack *)

Definition rd_thread (x : Z) : SM thread := s ← get; lift (sc_threads s !! x).

Definition upd_thread (x : Z) (f : thread → thread) : SM unit :=
  t ← rd_thread x; modify (λ s, set_sc_threads (<[x := f t]> (sc_threads s)) s).

(** Which scheduler state: the static variables, or the data of a processor. *)
Inductive rqref := Boot | Cpu (i : Z).

#[export] Instance rqref_eq_dec : EqDecision rqref.
Proof. solve_decision. Defined.

Definition get_rq (r : rqref) (s : sched) : option runq :=
  match r with
  | Boot => Some (sc_boot s)
  | Cpu i => mjoin (aget (sc_percpu s) i)
  end.

Definition set_rq (r : rqref) (q : runq) (s : sched) : sched :=
  match r with
  | Boot => set_sc_queues q (sc_percpu s) s
  | Cpu i => set_sc_queues (sc_boot s) (aset (sc_percpu s) i (Some q)) s
  end.

Definition rd_rq (r : rqref) : SM runq := s ← get; lift (get_rq r s).
Definition upd_rq (r : rqref) (f : runq → runq) : SM unit :=
  q ← rd_rq r; modify (set_rq r (f q)).

(** smp_initialized, cpu_id, cpu_count and percpu_get_cpu of percpu.c. *)
Definition smp_initialized : SM bool := gets sc_smp_init_done.
Definition cpu_id : SM Z := gets sc_cpu.
Definition cpu_count : SM Z := gets sc_num_cpus_online.
Definition percpu_get_cpu (i : Z) : SM (option rqref) :=
  s ← get;
  mret (if MAX_CPUS <=? i then None
        else match get_rq (Cpu i) s with Some _ => Some (Cpu i) | None => None end).

(** What get_ready_head, get_ready_tail, get_current_slice and
    get_current_thread_ptr select. *)
Definition this_rq (s : sched) : rqref := if sc_smp_init_done s then Cpu (sc_cpu s) else Boot.

Definition thread_current : SM (option Z) :=
  s ← get; q ← rd_rq (this_rq s); mret (rq_current q).

Definition thread_set_current (x : option Z) : SM unit :=
  s ← get; upd_rq (this_rq s) (set_rq_current x).

Definition thread_get_idle : SM (option Z) :=
  s ← get; q ← rd_rq (this_rq s); mret (rq_idle q).

Definition set_reg (r : reg) (v : Z) : SM unit :=
  modify (λ s, set_sc_machine (<[r := v]> (sc_regs s)) (sc_words s) s).

Definition get_reg (r : reg) : SM Z := gets (λ s, sc_regs s r).

Definition store (a v : Z) : SM unit :=
  modify (λ s, set_sc_machine (sc_regs s) (<[a := v]> (sc_words s)) s).

Definition load (a : Z) : SM Z := gets (λ s, sc_words s a).

Definition push (v : Z) : SM unit :=
  rsp ← get_reg RSP; set_reg RSP (rsp -u64 8) ;; store (rsp -u64 8) v.

Definition push_reg (r : reg) : SM unit := v ← get_reg r; push v.

Definition pop_reg (r : reg) : SM unit :=
  rsp ← get_reg RSP; v ← load rsp; set_reg RSP (rsp +u64 8) ;; set_reg r v.

Definition RFLAGS_IF : Z := 0x200.
Definition cli : SM unit := f ← get_reg RFLAGS; set_reg RFLAGS (Z.land f (Z.lnot RFLAGS_IF)).
Definition sti : SM unit := f ← get_reg RFLAGS; set_reg RFLAGS (Z.lor f RFLAGS_IF).

(** ** Switching (context.asm) *)

(** [rdi] is the address of the [rsp] field of the thread [old]. *)
Definition context_switch (old : Z) (new_rsp : Z) : SM unit :=
  push_reg RBP ;; push_reg RBX ;; push_reg R12 ;; push_reg R13 ;; push_reg R14 ;; push_reg R15 ;;
  push_reg RFLAGS ;;
  rsp ← get_reg RSP;
  upd_thread old (set_t_rsp rsp) ;;
  set_reg RSP new_rsp ;;
  pop_reg RFLAGS ;;
  pop_reg R15 ;; pop_reg R14 ;; pop_reg R13 ;; pop_reg R12 ;; pop_reg RBX ;; pop_reg RBP ;;
  pop_reg RIP.

Definition thread_entry_trampoline `{Code} : SM unit :=
  sti ;;
  pop_reg RDI ;;
  pop_reg RAX ;;
  rax ← get_reg RAX;
  push thread_entry_trampoline_return ;;
  set_reg RIP rax.

(** ** The run queue (sched.c) *)

Definition sched_init : SM unit :=
  upd_rq Boot (λ q, set_rq_slice TIME_SLICE_TICKS (set_rq_tail None (set_rq_head None q))) ;;
  modify (set_sc_running false).

Definition queue_add_locked (x : Z) : SM unit :=
  s ← get;
  let r := this_rq s in
  q ← rd_rq r;
  upd_thread x (λ t, set_t_prev (rq_tail q) (set_t_next None (set_t_state THREAD_READY t))) ;;
  match rq_tail q with
  | None => upd_rq r (λ q, set_rq_tail (Some x) (set_rq_head (Some x) q))
  | Some t => upd_thread t (set_t_next (Some x)) ;; upd_rq r (set_rq_tail (Some x))
  end.

(** A queue holds each thread at most once, so a walk along it makes no more
    steps than there are threads. *)
Definition queue_fuel : SM nat := gets (λ s, S (size (sc_threads s))).

Fixpoint contains_from (fuel : nat) (p : option Z) (x : Z) : SM bool :=
  match p, fuel with
  | None, _ => mret false
  | Some _, O => fault
  | Some y, S fuel' =>
      if y =? x then mret true else t ← rd_thread y; contains_from fuel' (t_next t) x
  end.

Definition queue_contains_locked (x : Z) : SM bool :=
  s ← get; q ← rd_rq (this_rq s); fuel ← queue_fuel; contains_from fuel (rq_head q) x.

(** Taking the thread [x] out of the list of [r]. *)
Definition unlink_thread (r : rqref) (x : Z) : SM unit :=
  t ← rd_thread x;
  match t_prev t with
  | Some p => upd_thread p (set_t_next (t_next t))
  | None => upd_rq r (set_rq_head (t_next t))
  end ;;
  t ← rd_thread x;
  match t_next t with
  | Some n => upd_thread n (set_t_prev (t_prev t))
  | None => upd_rq r (set_rq_tail (t_prev t))
  end.

Definition queue_remove_locked (x : Z) : SM unit :=
  s ← get;
  c ← queue_contains_locked x;
  if (c : bool) then
    unlink_thread (this_rq s) x ;; upd_thread x (λ t, set_t_prev None (set_t_next None t))
  else mret tt.

Definition sched_ready (x : option Z) : SM unit :=
  match x with
  | None => mret tt
  | Some x =>
      t ← rd_thread x;
      if bool_decide (t_state t = THREAD_TERMINATED) then mret tt else queue_add_locked x
  end.

Definition sched_remove (x : option Z) : SM unit :=
  match x with None => mret tt | Some x => queue_remove_locked x end.

(** The body of wake_sleeping_threads_locked, and its loop. *)
Definition wake (now : Z) (t : thread) : thread :=
  if bool_decide (t_state t = THREAD_SLEEPING) && (t_wake_time t <=? now)
  then set_t_state THREAD_READY t else t.

Fixpoint wake_from (fuel : nat) (now : Z) (p : option Z) : SM unit :=
  match p, fuel with
  | None, _ => mret tt
  | Some _, O => fault
  | Some y, S fuel' =>
      upd_thread y (wake now) ;; t ← rd_thread y; wake_from fuel' now (t_next t)
  end.

Definition wake_sleeping_threads_locked (now : Z) : SM unit :=
  s ← get; q ← rd_rq (this_rq s); fuel ← queue_fuel; wake_from fuel now (rq_head q).

(** [1 << cpu] as an int, which the language defines for less than 32 only. *)
Definition cpu_bit (cpu : Z) : option Z :=
  if (0 <=? cpu) && (cpu <? 32) then Some (Z.shiftl 1 cpu) else None.

Definition runnable (bit : Z) (t : thread) : bool :=
  bool_decide (t_state t = THREAD_READY) && has (t_cpu_mask t) bit.

Fixpoint ready_from (fuel : nat) (bit : Z) (p : option Z) : SM (option Z) :=
  match p, fuel with
  | None, _ => mret None
  | Some _, O => fault
  | Some y, S fuel' =>
      t ← rd_thread y;
      if runnable bit t then mret (Some y) else ready_from fuel' bit (t_next t)
  end.

Definition pick_next_locked : SM (option Z) :=
  s ← get;
  bit ← lift (cpu_bit (if sc_smp_init_done s then sc_cpu s else 0));
  wake_sleeping_threads_locked (sc_ticks s) ;;
  q ← rd_rq (this_rq s);
  fuel ← queue_fuel;
  next ← ready_from fuel bit (rq_head q);
  match next with Some _ => mret next | None => thread_get_idle end.

(** What sched_reschedule does with the thread that stops running. *)
Definition requeue_current (c : Z) : SM unit :=
  t ← rd_thread c;
  match t_state t with
  | THREAD_RUNNING => queue_add_locked c
  | THREAD_SLEEPING => queue_add_locked c ;; upd_thread c (set_t_state THREAD_SLEEPING)
  | THREAD_BLOCKED => queue_add_locked c ;; upd_thread c (set_t_state THREAD_BLOCKED)
  | THREAD_TERMINATED | THREAD_READY => mret tt
  end.

Definition sched_reschedule `{Code} : SM unit :=
  s ← get;
  let r := this_rq s in
  current ← thread_current;
  next ← pick_next_locked;
  match next with
  | None => mret tt
  | Some n =>
      if bool_decide (next = current) then upd_thread n (set_t_state THREAD_RUNNING)
      else
        match current with Some c => requeue_current c | None => mret tt end ;;
        queue_remove_locked n ;;
        upd_thread n (set_t_state THREAD_RUNNING) ;;
        thread_set_current (Some n) ;;
        upd_rq r (set_rq_slice TIME_SLICE_TICKS) ;;
        t ← rd_thread n;
        push sched_reschedule_return ;;
        context_switch (default n current) (t_rsp t)
  end.

Definition sched_start : SM unit :=
  modify (set_sc_running true) ;;
  s ← get; upd_rq (this_rq s) (set_rq_slice TIME_SLICE_TICKS) ;;
  sti.

Definition sched_is_running : SM bool := gets sc_running.

(** ** Balancing the queues of several processors (sched.c) *)

Fixpoint count_ready (fuel : nat) (p : option Z) (count : Z) : SM Z :=
  match p, fuel with
  | None, _ => mret count
  | Some _, O => fault
  | Some y, S fuel' =>
      t ← rd_thread y;
      count_ready fuel' (t_next t)
        (if bool_decide (t_state t = THREAD_READY) then count +u32 1 else count)
  end.

Definition sched_queue_length (cpu : Z) : SM Z :=
  s ← get;
  fuel ← queue_fuel;
  if negb (sc_smp_init_done s) then q ← rd_rq Boot; count_ready fuel (rq_head q) 0
  else
    p ← (if cpu =? 0 then mret (Some (Cpu (sc_cpu s))) else percpu_get_cpu cpu);
    match p with
    | None => mret 0
    | Some r => q ← rd_rq r; count_ready fuel (rq_head q) 0
    end.

(** The loads seen so far: the greatest and the least, and whose they are. *)
Record loads := Loads { ld_max : Z; ld_min : Z; ld_busiest : Z; ld_idlest : Z }.

Definition see_load (i load : Z) (l : loads) : loads :=
  let l1 := if ld_max l <? load then Loads load (ld_min l) i (ld_idlest l) else l in
  if load <? ld_min l1 then Loads (ld_max l1) load (ld_busiest l1) i else l1.

Fixpoint scan_loads (n : nat) (i : Z) (l : loads) : SM loads :=
  match n with
  | O => mret l
  | S n' => load ← sched_queue_length i; scan_loads n' (i + 1) (see_load i load l)
  end.

(** The migration of one thread, with both queues locked. *)
Definition migrate (busy idle : rqref) (bit : Z) : SM unit :=
  qb ← rd_rq busy;
  fuel ← queue_fuel;
  th ← ready_from fuel bit (rq_head qb);
  match th with
  | None => mret tt
  | Some x =>
      unlink_thread busy x ;;
      qi ← rd_rq idle;
      upd_thread x (λ t, set_t_prev (rq_tail qi) (set_t_next None t)) ;;
      match rq_tail qi with
      | Some t => upd_thread t (set_t_next (Some x))
      | None => upd_rq idle (set_rq_head (Some x))
      end ;;
      upd_rq idle (set_rq_tail (Some x))
  end.

Definition sched_balance_load : SM unit :=
  s ← get;
  let num_cpus := sc_num_cpus_online s in
  if negb (sc_smp_init_done s) || (num_cpus <=? 1) then mret tt else
  l ← scan_loads (Z.to_nat num_cpus) 0 (Loads 0 0xFFFFFFFF 0 0);
  if (ld_max l -u32 ld_min l <=? 2) || (ld_busiest l =? sc_cpu s) then mret tt else
  busy ← percpu_get_cpu (ld_busiest l);
  idle ← percpu_get_cpu (ld_idlest l);
  match busy, idle with
  | Some b, Some i => bit ← lift (cpu_bit (ld_idlest l)); migrate b i bit
  | _, _ => mret tt
  end.

(** ** The timer tick (sched.c) *)

Definition sched_tick `{Code} : SM unit :=
  s ← get;
  if negb (sc_running s) then mret tt else
  let r := this_rq s in
  current ← thread_current;
  match current with
  | Some c => upd_thread c (λ t, set_t_cpu_time (t_cpu_time t +u64 1) t)
  | None => mret tt
  end ;;
  q ← rd_rq r;
  (if 0 <? rq_slice q then upd_rq r (set_rq_slice (rq_slice q -u32 1)) else mret tt) ;;
  wake_sleeping_threads_locked (sc_ticks s) ;;
  let balance_tick := sc_balance_tick s +u64 1 in
  (if 100 <=? balance_tick then modify (set_sc_balance_tick 0) ;; sched_balance_load
   else modify (set_sc_balance_tick balance_tick)) ;;
  q ← rd_rq r;
  match current with
  | None => mret tt
  | Some c =>
      t ← rd_thread c;
      if (rq_slice q =? 0) && bool_decide (t_state t = THREAD_RUNNING) then
        upd_rq r (set_rq_slice TIME_SLICE_TICKS) ;; sched_reschedule
      else mret tt
  end.

(** The handler of the timer interrupt (drivers/pit.c), once threads exist. *)
Definition pit_handler `{Code} (thread_is_initialized : bool) : SM unit :=
  modify (λ s, set_sc_ticks (sc_ticks s +u64 1) s) ;;
  if thread_is_initialized then sched_tick else mret tt.

(** ** Affinity (sched.c) *)

Definition thread_get (tid : Z) : SM (option Z) :=
  s ← get;
  if MAX_THREADS <=? tid then mret None else lift (aget (sc_thread_table s) tid).

Definition sched_setaffinity `{Code} (tid cpu_mask : Z) : SM Z :=
  if cpu_mask =? 0 then mret (-22) else
  th ← thread_get tid;
  match th with
  | None => mret (-3)
  | Some x =>
      upd_thread x (set_t_cpu_mask cpu_mask) ;;
      t ← rd_thread x;
      s ← get;
      (if bool_decide (t_state t = THREAD_RUNNING) && sc_smp_init_done s then
         bit ← lift (cpu_bit (sc_cpu s));
         if negb (has cpu_mask bit) then sched_reschedule else mret tt
       else mret tt) ;;
      mret 0
  end.

(** The mask is stored through a pointer, which may be NULL. *)
Definition sched_getaffinity (tid : Z) (cpu_mask : bool) : SM (Z * option Z) :=
  if negb cpu_mask then mret (-22, None) else
  th ← thread_get tid;
  match th with
  | None => mret (-3, None)
  | Some x => t ← rd_thread x; mret (0, Some (t_cpu_mask t))
  end.

(** ** What a thread does to itself and to others (thread.c) *)

Definition thread_yield `{Code} : SM unit := sched_reschedule.

(** Without a switch to another thread the call returns, and thread_exit panics. *)
Definition thread_exit `{Code} : SM unit :=
  current ← thread_current;
  cli ;;
  c ← lift current;
  upd_thread c (set_t_state THREAD_TERMINATED) ;;
  sched_reschedule ;;
  now ← thread_current;
  if bool_decide (now = current) then fault else mret tt.

Definition thread_sleep_ms `{Code} (ms : Z) : SM unit :=
  if ms =? 0 then mret tt else
  s ← get;
  let freq := sc_frequency s in
  if freq =? 0 then mret tt else
  cli ;;
  current ← thread_current;
  c ← lift current;
  upd_thread c (λ t, set_t_wake_time (sc_ticks s +u64 ((ms *u64 freq) `div` 1000))
                       (set_t_state THREAD_SLEEPING t)) ;;
  sched_reschedule.

Definition thread_block `{Code} : SM unit :=
  cli ;;
  current ← thread_current;
  c ← lift current;
  upd_thread c (set_t_state THREAD_BLOCKED) ;;
  sched_reschedule.

Definition thread_unblock (x : option Z) : SM unit :=
  match x with
  | None => mret tt
  | Some y =>
      t ← rd_thread y;
      if bool_decide (t_state t = THREAD_BLOCKED) then
        upd_thread y (set_t_state THREAD_READY) ;; sched_ready (Some y)
      else mret tt
  end.

(** ** Creating threads (thread.c) *)

(** [(next + i) % 256] with 0 replaced by 1, for i from 0 on; the identifier
    found and the next one to try. *)
Definition id_candidate (next i : Z) : Z :=
  let id := wrap32 (next + i) mod 256 in if id =? 0 then 1 else id.

Definition id_after (id : Z) : Z := let n := (id + 1) mod 256 in if n =? 0 then 1 else n.

Fixpoint alloc_id (n : nat) (i : Z) (table : list (option Z)) (next : Z) : option Z :=
  match n with
  | O => None
  | S n' =>
      let id := id_candidate next i in
      match aget table id with
      | Some None => Some id
      | _ => alloc_id n' (i + 1) table next
      end
  end.

Definition alloc_tid_locked : SM Z :=
  s ← get;
  match alloc_id (Z.to_nat MAX_THREADS) 0 (sc_thread_table s) (sc_next_tid s) with
  | Some tid => put (set_sc_table (sc_thread_table s) (id_after tid) s) ;; mret tid
  | None => mret 0
  end.

(** copy_thread_name and copy_process_name: at most 31 characters. *)
Definition copy_name (name : option (list Z)) : list Z := take 31 (default [] name).

(** The words that thread_create puts on a new stack, from the top down. *)
Definition initial_stack `{Code} (entry arg : Z) : list Z :=
  [entry; arg; thread_entry_trampoline_addr; 0x202; 0; 0; 0; 0; 0; 0].

Fixpoint store_down (top : Z) (ws : list Z) : SM Z :=
  match ws with
  | [] => mret top
  | w :: ws' => store (top - 8) w ;; store_down (top - 8) ws'
  end.

Section create.
Context {S : Type} {KH : KHeap S} {CD : Code}.

Record kern := Kern { kn_heap : S; kn_sched : sched }.

Abbreviation KM := (M kern).

Definition heap_ {A} (c : M S A) : KM A := zoom kn_heap (λ h k, Kern h (kn_sched k)) c.
Definition sched_ {A} (c : SM A) : KM A := zoom kn_sched (λ s k, Kern (kn_heap k) s) c.

Definition new_thread (x : Z) (t : thread) : SM unit :=
  modify (λ s, set_sc_threads (<[x := t]> (sc_threads s)) s).

Definition thread_create (name : option (list Z)) (entry : option Z) (arg : Z) : KM (option Z) :=
  match entry with
  | None => mret None
  | Some entry =>
      th ← heap_ (kh_kmalloc SIZEOF_THREAD);
      match th with
      | None => mret None
      | Some x =>
          tid ← sched_ alloc_tid_locked;
          boot ← sched_ (s ← get; lift (aget (sc_thread_table s) 0));
          if (tid =? 0) && bool_decide (boot ≠ None) then heap_ (kh_kfree x) ;; mret None else
          stack ← heap_ (kh_kmalloc DEFAULT_STACK_SIZE);
          match stack with
          | None => heap_ (kh_kfree x) ;; mret None
          | Some base =>
              sched_ (
                rsp ← store_down (base + DEFAULT_STACK_SIZE) (initial_stack entry arg);
                new_thread x (Thread tid (copy_name name) THREAD_READY (Some base)
                  DEFAULT_STACK_SIZE rsp 0 10 0 0xFFFFFFFF None None) ;;
                modify (λ s, set_sc_table (aset (sc_thread_table s) tid (Some x))
                               (sc_next_tid s) s) ;;
                sched_ready (Some x)) ;;
              mret (Some x)
          end
      end
  end.

(** Making a new thread an idle thread: it is ready but in no queue. *)
Definition make_idle (x : Z) : SM unit :=
  upd_thread x (set_t_priority 255) ;;
  sched_remove (Some x) ;;
  upd_thread x (set_t_state THREAD_READY).

(** The first thread stands for the code that runs already; panics are faults.
    The first processor's data exists or not ([percpu_get]). *)
Definition thread_init : KM unit :=
  sched_ (modify (λ s, set_sc_table (replicate (Z.to_nat MAX_THREADS) None) (sc_next_tid s) s)) ;;
  th ← heap_ (kh_kmalloc SIZEOF_THREAD);
  x ← lift th;
  sched_ (
    new_thread x (Thread 0 (copy_name (Some (chars "boot"))) THREAD_RUNNING None 0 0 0 10 0
      0xFFFFFFFF None None) ;;
    modify (λ s, set_sc_table (aset (sc_thread_table s) 0 (Some x)) (sc_next_tid s) s) ;;
    thread_set_current (Some x) ;;
    sched_init) ;;
  idle ← thread_create (Some (chars "idle")) (Some idle_thread_func) 0;
  i ← lift idle;
  sched_ (
    upd_rq Boot (set_rq_idle (Some i)) ;;
    make_idle i ;;
    s ← get;
    match get_rq (Cpu (sc_cpu s)) s with
    | Some _ => upd_rq (Cpu (sc_cpu s)) (set_rq_idle (Some i))
    | None => mret tt
    end).

(** The name is the text of "idle%u". *)
Definition thread_create_idle (cpu_id : Z) : KM (option Z) :=
  let name := chars "idle" ++ number 10 false false cpu_id in
  idle ← thread_create (Some name) (Some idle_thread_func) 0;
  match idle with
  | None => mret None
  | Some x => sched_ (make_idle x) ;; mret (Some x)
  end.

Definition sched_init_cpu (percpu : option Z) : KM unit :=
  match percpu with
  | None => mret tt
  | Some i =>
      sched_ (upd_rq (Cpu i) (λ q, RunQ None (rq_idle q) None None TIME_SLICE_TICKS)) ;;
      idle ← thread_create_idle i;
      sched_ (upd_rq (Cpu i) (set_rq_idle idle))
  end.
End create.

Arguments kern S : clear implicits.
Abbreviation KM S := (M (kern S)).
