(* ===== verification/SchedQueue.v ===== *)
(** * The run queue and the abstract scheduler state

    An abstract state of the scheduler gives, for each processor, the list of
    threads in its queue, and everything else of the concrete state with the
    links erased.  [rep s Q e] relates the two.  The operations on a queue are
    those on the list. *)

From stdpp Require Import functions.
From S2P Require Import Prelude DList KHeap Sched.

Implicit Types (s e : sched) (m : gmap Z thread) (q : runq) (r : rqref) (x y : Z) (t : thread)
  (L A B : list Z) (Q : rqref → list Z).

(** ** Abstraction *)

Definition erase_t t : thread := set_t_prev None (set_t_next None t).
Definition erase_q q : runq := set_rq_tail None (set_rq_head None q).
Definition erase s : sched :=
  set_sc_queues (erase_q (sc_boot s)) ((λ o : option runq, erase_q <$> o) <$> sc_percpu s)
    (set_sc_threads (erase_t <$> sc_threads s) s).

Definition tlinks m : links := λ x, (λ t, (t_prev t, t_next t)) <$> m !! x.

(** The list [L] is linked in memory, with the ends in [q]. *)
Record queue_ok m q L : Prop := QueueOk {
  qo_head : rq_head q = head L;
  qo_tail : rq_tail q = last L;
  qo_nodup : NoDup L;
  qo_links : dlist (tlinks m) L }.

(** Every queue is a list, and no thread is in two of them. *)
Record queues_ok s Q : Prop := QueuesOk {
  qs_queue r q : get_rq r s = Some q → queue_ok (sc_threads s) q (Q r);
  qs_none r : get_rq r s = None → Q r = [];
  qs_disj r r' x : x ∈ Q r → x ∈ Q r' → r = r' }.

Definition rep s Q e : Prop := queues_ok s Q ∧ erase s = e.

(** ** The state *)

Lemma get_rq_erase r s : get_rq r (erase s) = erase_q <$> get_rq r s.
Proof.
  destruct r as [|i]; [done|]. unfold get_rq, aget. simpl.
  case_decide; [|done]. rewrite list_lookup_fmap. by destruct (sc_percpu s !! _) as [[]|].
Qed.

Lemma get_set_rq r q s : is_Some (get_rq r s) → get_rq r (set_rq r q s) = Some q.
Proof.
  destruct r as [|i]; [done|]. intros [q0 Hq]. unfold get_rq in *. simpl.
  destruct (aget (sc_percpu s) i) as [o|] eqn:Ho; [|done].
  rewrite aget_aset_eq; [done|]. by eapply aget_Some_bounds.
Qed.

Lemma get_set_rq_ne r r' q s : r ≠ r' → get_rq r' (set_rq r q s) = get_rq r' s.
Proof.
  destruct r as [|i], r' as [|j]; try done. intros Hne. unfold get_rq. simpl.
  rewrite aget_aset_ne; [done|congruence].
Qed.

Lemma get_rq_threads r m s : get_rq r (set_sc_threads m s) = get_rq r s.
Proof. by destruct r. Qed.

Lemma set_sc_threads_id s : set_sc_threads (sc_threads s) s = s.
Proof. by destruct s. Qed.

Lemma set_rq_threads r q s : sc_threads (set_rq r q s) = sc_threads s.
Proof. by destruct r. Qed.

Lemma threads_set_rq r q m s :
  set_sc_threads m (set_rq r q s) = set_rq r q (set_sc_threads m s).
Proof. by destruct r. Qed.

Lemma this_rq_set r q s : this_rq (set_rq r q s) = this_rq s.
Proof. by destruct r. Qed.

Lemma erase_set_rq r q s :
  is_Some (get_rq r s) → erase (set_rq r q s) = set_rq r (erase_q q) (erase s).
Proof.
  destruct r as [|i]; [done|]. intros [q0 Hq]. unfold erase, set_rq, set_sc_queues. simpl. f_equal.
  unfold aset. case_decide; [|done]. by rewrite list_fmap_insert.
Qed.

Lemma set_rq_id r q s : get_rq r s = Some q → set_rq r q s = s.
Proof.
  destruct r as [|i], s as [? ? ? ? pc]; simpl; [by intros [= ->]|].
  intros Hq. unfold set_sc_queues. simpl. f_equal. unfold aset, aget in *.
  case_decide; [|done]. apply list_insert_id.
  by destruct (pc !! _) as [[]|]; simplify_eq/=.
Qed.

Lemma set_rq_set r q q' s : set_rq r q (set_rq r q' s) = set_rq r q s.
Proof. destruct r; [done|]. simpl. unfold set_sc_queues. simpl. by rewrite aset_aset. Qed.

(** A field other than the ends of the list is the same in the abstract state. *)
Lemma rep_rq s Q e r q :
  rep s Q e → get_rq r s = Some q → get_rq r e = Some (erase_q q).
Proof. intros [_ <-] Hq. by rewrite get_rq_erase, Hq. Qed.

Lemma rep_rq_inv s Q e r qe :
  rep s Q e → get_rq r e = Some qe → ∃ q, get_rq r s = Some q ∧ erase_q q = qe.
Proof.
  intros [_ <-]. rewrite get_rq_erase. destruct (get_rq r s) as [q|]; [|done].
  intros [= <-]. eauto.
Qed.

Lemma rep_thread s Q e x te :
  rep s Q e → sc_threads e !! x = Some te → ∃ t, sc_threads s !! x = Some t ∧ erase_t t = te.
Proof.
  intros [_ <-]. simpl. rewrite lookup_fmap. destruct (sc_threads s !! x) as [t|]; [|done].
  intros [= <-]. eauto.
Qed.

Lemma rep_thread_fwd s Q e x t :
  rep s Q e → sc_threads s !! x = Some t → sc_threads e !! x = Some (erase_t t).
Proof. intros [_ <-] Hx. simpl. by rewrite lookup_fmap, Hx. Qed.

Lemma rep_this s Q e : rep s Q e → this_rq s = this_rq e.
Proof. by intros [_ <-]. Qed.

Lemma queue_ok_exists m q L x : queue_ok m q L → x ∈ L → is_Some (m !! x).
Proof.
  intros [_ _ _ Hd] Hx. destruct (dlist_lookup _ _ _ Hd Hx) as (A & B & _ & Hl).
  unfold tlinks in Hl. destruct (m !! x); [eauto|done].
Qed.

(** ** Rules for the primitives *)

Lemma wp_rd_thread x t (P : thread → sched → Prop) s :
  sc_threads s !! x = Some t → P t s → wp (rd_thread x) P s.
Proof. intros. unfold rd_thread. wp_steps. done. Qed.

Lemma insert_as_alter {X} (f : X → X) (m : gmap Z X) x a :
  m !! x = Some a → <[x := f a]> m = alter f x m.
Proof.
  intros Hx. apply map_eq. intros y. destruct (decide (x = y)) as [<-|Hne].
  - by rewrite lookup_insert_eq, lookup_alter_eq, Hx.
  - by rewrite lookup_insert_ne, lookup_alter_ne.
Qed.

Lemma wp_upd_thread x f (P : unit → sched → Prop) s :
  is_Some (sc_threads s !! x) → P tt (set_sc_threads (alter f x (sc_threads s)) s) →
  wp (upd_thread x f) P s.
Proof.
  intros [t Ht] HP. unfold upd_thread. wp_steps. eapply wp_rd_thread; [done|]. wp_steps.
  by rewrite (insert_as_alter _ _ _ _ Ht).
Qed.

Lemma wp_rd_rq r q (P : runq → sched → Prop) s :
  get_rq r s = Some q → P q s → wp (rd_rq r) P s.
Proof. intros. unfold rd_rq. wp_steps. done. Qed.

Lemma wp_upd_rq r q f (P : unit → sched → Prop) s :
  get_rq r s = Some q → P tt (set_rq r (f q) s) → wp (upd_rq r f) P s.
Proof. intros. unfold upd_rq. wp_steps. eapply wp_rd_rq; [done|]. by wp_steps. Qed.

(** ** Changes to threads that leave the links alone *)

Definition keeps_links (f : thread → thread) : Prop :=
  ∀ t, t_next (f t) = t_next t ∧ t_prev (f t) = t_prev t ∧ erase_t (f t) = f (erase_t t).

Lemma tlinks_alter f x m y : keeps_links f → tlinks (alter f x m) y = tlinks m y.
Proof.
  intros Hf. unfold tlinks. rewrite lookup_alter. case_decide; [subst|done].
  destruct (m !! y) as [t|]; [|done]. simpl. by destruct (Hf t) as (-> & -> & _).
Qed.

Lemma erase_alter f g x m :
  (∀ t, erase_t (f t) = g (erase_t t)) → erase_t <$> alter f x m = alter g x (erase_t <$> m).
Proof.
  intros Hf. apply map_eq. intros y. rewrite lookup_fmap, !lookup_alter.
  rewrite !lookup_fmap. case_decide; [subst|done]. destruct (m !! y); [|done]. simpl. by rewrite Hf.
Qed.

Lemma queue_ok_ext m m' q L :
  (∀ y, y ∈ L → tlinks m' y = tlinks m y) → queue_ok m q L → queue_ok m' q L.
Proof. intros Hm [? ? ? ?]. split; [done..|]. by eapply dlseg_ext. Qed.

Lemma rep_alter s Q e x f :
  rep s Q e → keeps_links f →
  rep (set_sc_threads (alter f x (sc_threads s)) s) Q
      (set_sc_threads (alter f x (sc_threads e)) e).
Proof.
  intros [[Hq Hn Hd] <-] Hf. split.
  - split; [|by intros r; rewrite get_rq_threads; apply Hn|done].
    intros r q. rewrite get_rq_threads. intros ?%Hq. eapply queue_ok_ext; [|done].
    intros y _. by apply tlinks_alter.
  - change (set_sc_threads (erase_t <$> alter f x (sc_threads s)) (erase s) =
      set_sc_threads (alter f x (erase_t <$> sc_threads s)) (erase s)).
    f_equal. apply erase_alter. intros t. apply Hf.
Qed.

(** A field of a queue other than its ends. *)
Lemma rep_set_rq s Q e r q f :
  rep s Q e → get_rq r s = Some q →
  rq_head (f q) = rq_head q → rq_tail (f q) = rq_tail q → erase_q (f q) = f (erase_q q) →
  rep (set_rq r (f q) s) Q (set_rq r (f (erase_q q)) e).
Proof.
  intros [[Hq Hn Hd] <-] Hr Hh Ht Hf. split; [split; [| |done]|].
  - intros r' q'. rewrite set_rq_threads. destruct (decide (r = r')) as [<-|Hne].
    + rewrite get_set_rq by eauto. intros [= <-]. destruct (Hq _ _ Hr) as [? ? ? ?].
      split; congruence.
    + rewrite get_set_rq_ne by done. apply Hq.
  - intros r'. destruct (decide (r = r')) as [<-|Hne]; [by rewrite get_set_rq by eauto|].
    rewrite get_set_rq_ne by done. apply Hn.
  - rewrite erase_set_rq by eauto. by rewrite Hf.
Qed.

(** ** Changes to one queue *)

Lemma rep_relink s Q r q q' m' L' :
  queues_ok s Q → get_rq r s = Some q → queue_ok m' q' L' → erase_q q' = erase_q q →
  (∀ y r', y ∈ L' → y ∈ Q r' → r' = r) →
  (∀ r' y, r' ≠ r → y ∈ Q r' → tlinks m' y = tlinks (sc_threads s) y) →
  rep (set_rq r q' (set_sc_threads m' s)) (<[r := L']> Q)
      (set_sc_threads (erase_t <$> m') (erase s)).
Proof.
  intros [Hq Hn Hd] Hr Hq' He Hdisj Hother. split; [split|].
  - intros r' q0. rewrite set_rq_threads. destruct (decide (r = r')) as [<-|Hne].
    + rewrite get_set_rq by (rewrite get_rq_threads; eauto). intros [= <-].
      by rewrite fn_lookup_insert.
    + rewrite get_set_rq_ne, get_rq_threads, fn_lookup_insert_ne by done. intros Hg%Hq.
      eapply queue_ok_ext; [|exact Hg]. intros y Hy. by apply Hother with r'.
  - intros r'. destruct (decide (r = r')) as [<-|Hne].
    + by rewrite get_set_rq by (rewrite get_rq_threads; eauto).
    + rewrite get_set_rq_ne, get_rq_threads, fn_lookup_insert_ne by done. apply Hn.
  - intros r1 r2 x. destruct (decide (r = r1)) as [<-|H1], (decide (r = r2)) as [<-|H2].
    + done.
    + rewrite fn_lookup_insert, fn_lookup_insert_ne by done. intros ? ?. symmetry. eauto.
    + rewrite fn_lookup_insert, fn_lookup_insert_ne by done. eauto.
    + rewrite !fn_lookup_insert_ne by done. apply Hd.
  - rewrite erase_set_rq by (rewrite get_rq_threads; eauto). rewrite He. apply set_rq_id.
    assert (get_rq r (erase s) = Some (erase_q q)) as Hg by (by rewrite get_rq_erase, Hr).
    by destruct r.
Qed.

Lemma tlinks_alter_ne f x y m : x ≠ y → tlinks (alter f x m) y = tlinks m y.
Proof. intros. unfold tlinks. by rewrite lookup_alter_ne. Qed.

Lemma tlinks_alter_eq f x m :
  tlinks (alter f x m) x = (λ t, (t_prev (f t), t_next (f t))) <$> m !! x.
Proof. unfold tlinks. rewrite lookup_alter_eq. by destruct (m !! x). Qed.

Lemma tlinks_set_next n x m : tlinks (alter (set_t_next n) x m) x = set_nx n <$> tlinks m x.
Proof. rewrite tlinks_alter_eq. unfold tlinks. by destruct (m !! x). Qed.

Lemma tlinks_set_prev p x m : tlinks (alter (set_t_prev p) x m) x = set_pr p <$> tlinks m x.
Proof. rewrite tlinks_alter_eq. unfold tlinks. by destruct (m !! x). Qed.

(** The link from the thread [p], if there is one, to what follows it. *)
Definition link_next (p : option Z) (n : option Z) m : gmap Z thread :=
  match p with Some a => alter (set_t_next n) a m | None => m end.
Definition link_prev (n : option Z) (p : option Z) m : gmap Z thread :=
  match n with Some b => alter (set_t_prev p) b m | None => m end.

Lemma erase_link_next p n m : erase_t <$> link_next p n m = erase_t <$> m.
Proof.
  destruct p as [a|]; [|done]. simpl. rewrite (erase_alter _ id) by done.
  apply map_eq. intros y. rewrite lookup_alter. case_decide; [subst|done]. by destruct ((erase_t <$> m) !! y).
Qed.

Lemma erase_link_prev n p m : erase_t <$> link_prev n p m = erase_t <$> m.
Proof.
  destruct n as [b|]; [|done]. simpl. rewrite (erase_alter _ id) by done.
  apply map_eq. intros y. rewrite lookup_alter. case_decide; [subst|done]. by destruct ((erase_t <$> m) !! y).
Qed.

Lemma tlinks_link_next_ne p n m y : p ≠ Some y → tlinks (link_next p n m) y = tlinks m y.
Proof. destruct p; [|done]. intros. apply tlinks_alter_ne. congruence. Qed.

Lemma tlinks_link_prev_ne p n m y : n ≠ Some y → tlinks (link_prev n p m) y = tlinks m y.
Proof. destruct n; [|done]. intros. apply tlinks_alter_ne. congruence. Qed.

(** Appending a thread that is in no list. *)
Lemma queue_ok_snoc m q L x f :
  queue_ok m q L → x ∉ L → is_Some (m !! x) →
  (∀ t, t_prev (f t) = last L ∧ t_next (f t) = None) →
  queue_ok (link_next (last L) (Some x) (alter f x m))
    (set_rq_tail (Some x) (match last L with None => set_rq_head (Some x) q | _ => q end))
    (L ++ [x]).
Proof.
  intros [Hh Ht Hnd Hd] Hx [t Hm] Hf. split.
  - destruct L as [|y L]; [done|]. rewrite last_cons. by destruct (last L).
  - by rewrite last_snoc.
  - apply NoDup_app. split_and!; [done| |apply NoDup_singleton]. set_solver.
  - assert (∀ y, y ∈ L → y ≠ x) as Hne by (intros y ? ->; done).
    assert (last L ≠ Some x) as Hl by (intros ?%last_Some_elem_of; done).
    eapply dlist_insert with (B := []) (lk := tlinks m).
    + by rewrite app_nil_r.
    + by rewrite app_nil_r.
    + rewrite tlinks_link_next_ne, tlinks_alter_eq, Hm by done. simpl. by destruct (Hf t) as [-> ->].
    + intros a Ha. rewrite Ha. simpl. rewrite tlinks_set_next, tlinks_alter_ne; [done|].
      intros ->. by apply Hl.
    + done.
    + intros y Hy Hyl _. rewrite app_nil_r in Hy.
      rewrite tlinks_link_next_ne, tlinks_alter_ne; [done| |done]. intros ->. by apply (Hne y).
Qed.

Lemma wp_queue_add s Q e x q :
  rep s Q e → get_rq (this_rq s) s = Some q → is_Some (sc_threads s !! x) → (∀ r, x ∉ Q r) →
  wp (queue_add_locked x) (λ _ s',
    rep s' (<[this_rq e := Q (this_rq e) ++ [x]]> Q)
      (set_sc_threads (alter (set_t_state THREAD_READY) x (sc_threads e)) e)) s.
Proof.
  intros [Hok <-] Hq Hx Hnin. change (this_rq (erase s)) with (this_rq s).
  set (r := this_rq s) in *. pose proof (qs_queue _ _ Hok _ _ Hq) as HL.
  set (f := λ t, set_t_prev (rq_tail q) (set_t_next None (set_t_state THREAD_READY t))).
  assert (rep (set_rq r (set_rq_tail (Some x) (match last (Q r) with
      None => set_rq_head (Some x) q | _ => q end))
      (set_sc_threads (link_next (last (Q r)) (Some x) (alter f x (sc_threads s))) s))
      (<[r := Q r ++ [x]]> Q)
      (set_sc_threads (alter (set_t_state THREAD_READY) x (sc_threads (erase s))) (erase s)))
    as Hrep.
  { change (sc_threads (erase s)) with (erase_t <$> sc_threads s).
    rewrite <-(erase_alter f) by done. rewrite <-(erase_link_next (last (Q r)) (Some x)).
    eapply rep_relink; [done..| | | |].
    - apply queue_ok_snoc; [done..|]. intros t. split; [apply HL|done].
    - by destruct (last (Q r)).
    - intros y r' Hy Hy'. apply elem_of_app in Hy as [Hy|Hy]; [by eapply qs_disj|].
      apply list_elem_of_singleton in Hy as ->. by destruct (Hnin r').
    - intros r' y Hne Hy. rewrite tlinks_link_next_ne, tlinks_alter_ne; [done| |].
      + intros ->. by apply (Hnin r').
      + intros Hl%last_Some_elem_of. apply Hne. by eapply qs_disj. }
  unfold queue_add_locked. wp_steps. eapply wp_rd_rq; [done|]. wp_steps.
  apply wp_upd_thread; [done|]. rewrite (qo_tail _ _ _ HL). subst f.
  rewrite (qo_tail _ _ _ HL) in Hrep. destruct (last (Q r)) as [a|] eqn:Ha; simpl in Hrep.
  - wp_steps. apply wp_upd_thread.
    { simpl. rewrite lookup_alter_is_Some. eapply queue_ok_exists; [done|]. by apply last_Some_elem_of. }
    eapply wp_upd_rq; [by rewrite !get_rq_threads|]. done.
  - eapply wp_upd_rq; [by rewrite get_rq_threads|]. done.
Qed.

(** A thread in no queue may change in every field. *)
Lemma rep_alter_out s Q e x f g :
  rep s Q e → (∀ r, x ∉ Q r) → (∀ t, erase_t (f t) = g (erase_t t)) →
  rep (set_sc_threads (alter f x (sc_threads s)) s) Q
      (set_sc_threads (alter g x (sc_threads e)) e).
Proof.
  intros [[Hq Hn Hd] <-] Hx Hf. split.
  - split; [|by intros r; rewrite get_rq_threads; apply Hn|done].
    intros r q. rewrite get_rq_threads. intros ?%Hq. eapply queue_ok_ext; [|done].
    intros y Hy. apply tlinks_alter_ne. intros ->. by apply (Hx r).
  - change (set_sc_threads (erase_t <$> alter f x (sc_threads s)) (erase s) =
      set_sc_threads (alter g x (erase_t <$> sc_threads s)) (erase s)).
    f_equal. by apply erase_alter.
Qed.

(** Taking a thread out. *)
Definition unlinked A B m : gmap Z thread :=
  link_prev (head B) (last A) (link_next (last A) (head B) m).
Definition unlinked_q A B q : runq :=
  let q1 := match last A with None => set_rq_head (head B) q | _ => q end in
  match head B with None => set_rq_tail (last A) q1 | _ => q1 end.

Lemma last_app_list A B : last (A ++ B) = or_else (last B) (last A).
Proof. rewrite last_app. by destruct (last B). Qed.

Lemma queue_ok_unlink m q A x B :
  queue_ok m q (A ++ x :: B) → queue_ok (unlinked A B m) (unlinked_q A B q) (A ++ B).
Proof.
  intros [Hh Ht Hnd Hd]. assert (NoDup (A ++ B)) as HndAB.
  { apply NoDup_app in Hnd as (HA & Hdis & [? HB]%NoDup_cons). apply NoDup_app.
    split_and!; [done| |done]. set_solver. }
  split; [| |done|].
  - unfold unlinked_q. rewrite head_app_or_else in *. destruct A as [|a A]; [by destruct B|].
    rewrite last_cons. simpl in *. by destruct (last A), B.
  - unfold unlinked_q. rewrite last_app_list in *.
    destruct B as [|b B]; [by destruct (last A)|]. simpl head. rewrite !last_cons in *.
    destruct (last A), (last B); done.
  - assert (∀ a b, last A = Some a → head B = Some b → a ≠ b) as Hab.
    { intros a b Ha%last_Some_elem_of Hb%head_Some_elem_of ->.
      apply NoDup_app in HndAB as (_ & Hdis & _). by apply (Hdis b). }
    unfold unlinked. eapply dlist_remove; [done|done| | |].
    + intros a Ha. rewrite tlinks_link_prev_ne by (intros Hb; by apply (Hab a a)).
      rewrite Ha. apply tlinks_set_next.
    + intros b Hb. rewrite Hb. simpl. rewrite tlinks_set_prev, tlinks_link_next_ne; [done|].
      intros Ha. by apply (Hab b b).
    + intros y Hy Ha Hb. by rewrite tlinks_link_prev_ne, tlinks_link_next_ne.
Qed.

Lemma wp_link_next r q (p n : option Z) (P : unit → sched → Prop) s :
  get_rq r s = Some q → (∀ a, p = Some a → is_Some (sc_threads s !! a)) →
  P tt (set_rq r (match p with None => set_rq_head n q | _ => q end)
    (set_sc_threads (link_next p n (sc_threads s)) s)) →
  wp (match p with
      | Some a => upd_thread a (set_t_next n)
      | None => upd_rq r (set_rq_head n)
      end) P s.
Proof.
  intros Hq Hex HP. destruct p as [a|].
  - apply wp_upd_thread; [by apply Hex|]. by rewrite set_rq_id in HP by by rewrite get_rq_threads.
  - eapply wp_upd_rq; [done|]. by destruct s.
Qed.

Lemma wp_link_prev r q (p n : option Z) (P : unit → sched → Prop) s :
  get_rq r s = Some q → (∀ b, n = Some b → is_Some (sc_threads s !! b)) →
  P tt (set_rq r (match n with None => set_rq_tail p q | _ => q end)
    (set_sc_threads (link_prev n p (sc_threads s)) s)) →
  wp (match n with
      | Some b => upd_thread b (set_t_prev p)
      | None => upd_rq r (set_rq_tail p)
      end) P s.
Proof.
  intros Hq Hex HP. destruct n as [b|].
  - apply wp_upd_thread; [by apply Hex|]. by rewrite set_rq_id in HP by by rewrite get_rq_threads.
  - eapply wp_upd_rq; [done|]. by destruct s.
Qed.

Lemma rep_unlinked s Q e r q A x B :
  rep s Q e → get_rq r s = Some q → Q r = A ++ x :: B →
  rep (set_rq r (unlinked_q A B q) (set_sc_threads (unlinked A B (sc_threads s)) s))
    (<[r := A ++ B]> Q) e.
Proof.
  intros [Hok <-] Hq HQ. pose proof (qs_queue _ _ Hok _ _ Hq) as HL. rewrite HQ in HL.
  assert (erase s = set_sc_threads (erase_t <$> unlinked A B (sc_threads s)) (erase s)) as He.
  { unfold unlinked. by rewrite erase_link_prev, erase_link_next. }
  rewrite He. eapply rep_relink; [done..|by apply queue_ok_unlink with x| | |].
  - unfold unlinked_q. by destruct (last A), (head B).
  - intros y r' Hy Hy'. eapply qs_disj; [done|done|]. rewrite HQ. set_solver.
  - intros r' y Hne Hy. unfold unlinked.
    rewrite tlinks_link_prev_ne, tlinks_link_next_ne; [done|..].
    + intros Ha%last_Some_elem_of. apply Hne. eapply qs_disj; [done|done|]. rewrite HQ. set_solver.
    + intros Hb%head_Some_elem_of. apply Hne. eapply qs_disj; [done|done|]. rewrite HQ. set_solver.
Qed.

Lemma link_next_lookup p n m x : p ≠ Some x → link_next p n m !! x = m !! x.
Proof. destruct p; [|done]. intros. apply lookup_alter_ne. congruence. Qed.

Lemma link_next_is_Some p n m x : is_Some (m !! x) → is_Some (link_next p n m !! x).
Proof. destruct p; [|done]. intros. by apply lookup_alter_is_Some. Qed.

Lemma nodup_middle A x B : NoDup (A ++ x :: B) → x ∉ A ++ B.
Proof.
  intros (_ & Hdis & [Hxb _]%NoDup_cons)%NoDup_app.
  rewrite elem_of_app. intros [Hy|Hy]; [|done]. apply (Hdis x Hy). set_solver.
Qed.

Lemma wp_unlink_thread s Q e r q A x B :
  rep s Q e → get_rq r s = Some q → Q r = A ++ x :: B →
  wp (unlink_thread r x) (λ _ s', rep s' (<[r := A ++ B]> Q) e) s.
Proof.
  intros Hrep Hq HQ. pose proof (qs_queue _ _ (proj1 Hrep) _ _ Hq) as HL. rewrite HQ in HL.
  pose proof (rep_unlinked _ _ _ _ _ _ _ _ Hrep Hq HQ) as Hrep'.
  pose proof (dlist_links _ _ _ _ (qo_links _ _ _ HL)) as Hx. unfold tlinks in Hx.
  destruct (sc_threads s !! x) as [t|] eqn:Ht; [|done]. injection Hx as Hp Hn.
  assert (∀ y, y ∈ A ++ x :: B → is_Some (sc_threads s !! y)) as Hex.
  { intros y. by apply (queue_ok_exists _ q). }
  pose proof (nodup_middle _ _ _ (qo_nodup _ _ _ HL)) as HxAB.
  unfold unlink_thread. wp_steps. eapply wp_rd_thread; [done|]. rewrite Hp. wp_steps.
  eapply wp_link_next; [done|..].
  { intros a Ha%last_Some_elem_of. apply Hex. set_solver. }
  wp_steps. apply (wp_rd_thread _ t).
  { rewrite set_rq_threads. simpl. rewrite link_next_lookup; [done|].
    intros Ha%last_Some_elem_of. set_solver. }
  rewrite Hn, Hp. eapply wp_link_prev.
  - rewrite get_set_rq; [done|]. rewrite get_rq_threads. eauto.
  - intros b Hb%head_Some_elem_of. rewrite set_rq_threads. apply link_next_is_Some, Hex. set_solver.
  - rewrite set_rq_threads, threads_set_rq, set_rq_set. exact Hrep'.
Qed.

(** ** Walks along a queue *)

Lemma queue_length m q L : queue_ok m q L → (length L ≤ S (size m))%nat.
Proof.
  intros HL. assert (length L ≤ size m)%nat; [|lia].
  apply nodup_size; [by apply HL|]. intros y. by apply (queue_ok_exists _ q).
Qed.

Lemma dlseg_thread m pr x L :
  dlseg (tlinks m) pr (x :: L) None →
  ∃ t, m !! x = Some t ∧ t_next t = head L ∧ dlseg (tlinks m) (Some x) L None.
Proof.
  intros [Hx HL]. rewrite or_else_None in Hx. unfold tlinks in Hx.
  destruct (m !! x) as [t|]; simplify_eq/=. eauto.
Qed.

Lemma wp_contains_from s fuel pr L x :
  dlseg (tlinks (sc_threads s)) pr L None → (length L ≤ fuel)%nat →
  wp (contains_from fuel (head L) x) (λ b s', b = bool_decide (x ∈ L) ∧ s' = s) s.
Proof.
  revert pr fuel. induction L as [|y L IH]; intros pr fuel HL Hf.
  { destruct fuel; apply wp_ret; (split; [|done]); symmetry; apply bool_decide_eq_false; set_solver. }
  destruct fuel as [|fuel]; [simpl in Hf; lia|]. simpl.
  destruct (dlseg_thread _ _ _ _ HL) as (t & Ht & Hn & HL'). destruct (Z.eqb_spec y x) as [->|Hne].
  - wp_steps. split; [|done]. symmetry. apply bool_decide_eq_true. set_solver.
  - wp_steps. eapply wp_rd_thread; [done|]. rewrite Hn.
    eapply wp_mono; [eapply IH; [done|simpl in Hf; lia]|].
    intros b s' [-> ->]. split; [|done]. apply bool_decide_ext. set_solver.
Qed.

Lemma rep_ext s Q Q' e : (∀ r, Q r = Q' r) → rep s Q e → rep s Q' e.
Proof.
  intros HQ [[Hq Hn Hd] He]. split; [|done]. split.
  - intros r q. rewrite <-HQ. apply Hq.
  - intros r. rewrite <-HQ. apply Hn.
  - intros r r' x. rewrite <-!HQ. apply Hd.
Qed.

(** A list without a thread. *)
Definition without (x : Z) L : list Z := filter (λ y, y ≠ x) L.

Lemma without_notin x L : x ∉ L → without x L = L.
Proof.
  induction L as [|y L IH]; intros Hx; [done|]. unfold without in *. rewrite filter_cons.
  rewrite decide_True by set_solver. f_equal. apply IH. set_solver.
Qed.

Lemma without_middle A x B : NoDup (A ++ x :: B) → without x (A ++ x :: B) = A ++ B.
Proof.
  intros Hnd. apply nodup_middle in Hnd. unfold without. rewrite filter_app, filter_cons.
  rewrite decide_False by naive_solver. fold (without x A) (without x B).
  rewrite !without_notin by set_solver. done.
Qed.

Lemma elem_without x y L : y ∈ without x L ↔ y ∈ L ∧ y ≠ x.
Proof. unfold without. rewrite list_elem_of_filter. tauto. Qed.

Lemma wp_queue_remove s Q e x q :
  rep s Q e → get_rq (this_rq s) s = Some q →
  wp (queue_remove_locked x) (λ _ s',
    rep s' (<[this_rq e := without x (Q (this_rq e))]> Q) e) s.
Proof.
  intros Hrep Hq. rewrite <-(rep_this _ _ _ Hrep).
  pose proof (qs_queue _ _ (proj1 Hrep) _ _ Hq) as HL.
  unfold queue_remove_locked, queue_contains_locked, queue_fuel. wp_steps.
  eapply wp_rd_rq; [done|]. wp_steps. rewrite (qo_head _ _ _ HL).
  eapply wp_mono; [eapply wp_contains_from; [apply HL|by eapply queue_length]|].
  intros b ? [-> ->]. case_bool_decide as Hx; cycle 1.
  { wp_steps. rewrite without_notin by done. eapply rep_ext; [|done].
    intros r. destruct (decide (this_rq s = r)) as [<-|Hne]; [by rewrite fn_lookup_insert|].
    by rewrite fn_lookup_insert_ne. }
  destruct (queue_ok_exists _ _ _ _ HL Hx) as [t Ht].
  apply list_elem_of_split in Hx as (A & B & HQ). pose proof (qo_nodup _ _ _ HL) as Hnd.
  rewrite HQ in Hnd. rewrite HQ, without_middle by done.
  assert (∀ r, x ∉ (<[this_rq s := A ++ B]> Q) r) as Hout.
  { intros r. destruct (decide (this_rq s = r)) as [<-|Hne].
    - rewrite fn_lookup_insert. by apply nodup_middle.
    - rewrite fn_lookup_insert_ne by done. intros Hx. apply Hne.
      eapply qs_disj; [apply Hrep| |done]. rewrite HQ. set_solver. }
  wp_steps. eapply wp_mono; [by eapply wp_unlink_thread|]. intros [] s1 Hrep1. cbv beta in Hrep1.
  pose proof (rep_thread_fwd _ _ _ _ _ Hrep Ht) as Hte.
  destruct (rep_thread _ _ _ _ _ Hrep1 Hte) as (t1 & Ht1 & _).
  apply wp_upd_thread; [eauto|].
  eapply (rep_alter_out _ _ _ x erase_t id) in Hrep1; [|done|done].
  assert (alter id x (sc_threads e) = sc_threads e) as E.
  { apply map_eq. intros y. rewrite lookup_alter. case_decide as Hxy; [|done].
    rewrite <-Hxy. by destruct (sc_threads e !! x). }
  by rewrite E, set_sc_threads_id in Hrep1.
Qed.

(** What waking and looking for a thread that can run come to. *)
Definition wake_all (now : Z) L m : gmap Z thread := foldl (λ m y, alter (wake now) y m) m L.

Lemma keeps_links_wake now : keeps_links (wake now).
Proof. intros t. unfold wake. simpl. by destruct (_ && _). Qed.

Lemma wp_wake_from s fuel now pr L Q e :
  rep s Q e → dlseg (tlinks (sc_threads s)) pr L None → (length L ≤ fuel)%nat →
  wp (wake_from fuel now (head L)) (λ _ s',
    rep s' Q (set_sc_threads (wake_all now L (sc_threads e)) e) ∧
    ∃ m, s' = set_sc_threads m s ∧ size m = size (sc_threads s)) s.
Proof.
  revert pr fuel s e. induction L as [|y L IH]; intros pr fuel s e Hrep HL Hf.
  { destruct fuel; apply wp_ret; simpl; rewrite set_sc_threads_id;
      (split; [done|]); exists (sc_threads s); by rewrite set_sc_threads_id. }
  destruct fuel as [|fuel]; [simpl in Hf; lia|]. simpl.
  destruct (dlseg_thread _ _ _ _ HL) as (t & Ht & Hn & HL'). wp_steps.
  apply wp_upd_thread; [eauto|]. wp_steps. eapply wp_rd_thread.
  { simpl. by rewrite lookup_alter_eq, Ht. }
  destruct (keeps_links_wake now t) as (-> & _ & _). rewrite Hn.
  pose proof (rep_alter _ _ _ y _ Hrep (keeps_links_wake now)) as Hrep1.
  eapply wp_mono; [eapply IH; [exact Hrep1| |simpl in Hf; lia]|].
  - eapply dlseg_ext; [|exact HL']. intros z _. apply tlinks_alter, keeps_links_wake.
  - intros _ s' (Hr & m & -> & Hm). split; [exact Hr|]. exists m. split; [done|]. rewrite Hm. simpl.
    rewrite <-!size_dom. f_equal. apply dom_alter_L.
Qed.

Definition first_runnable (bit : Z) m L : option Z :=
  List.find (λ y, from_option (runnable bit) false (m !! y)) L.

Lemma first_runnable_erase bit m L : first_runnable bit (erase_t <$> m) L = first_runnable bit m L.
Proof.
  induction L as [|y L IH]; [done|]. unfold first_runnable in *. simpl. rewrite IH, lookup_fmap.
  by destruct (m !! y).
Qed.

Lemma wp_ready_from s fuel bit pr L :
  dlseg (tlinks (sc_threads s)) pr L None → (length L ≤ fuel)%nat →
  wp (ready_from fuel bit (head L))
    (λ o s', o = first_runnable bit (sc_threads s) L ∧ s' = s) s.
Proof.
  revert pr fuel. induction L as [|y L IH]; intros pr fuel HL Hf.
  { destruct fuel; by apply wp_ret. }
  destruct fuel as [|fuel]; [simpl in Hf; lia|]. simpl.
  destruct (dlseg_thread _ _ _ _ HL) as (t & Ht & Hn & HL'). wp_steps.
  eapply wp_rd_thread; [done|]. unfold first_runnable. simpl. rewrite Ht. simpl.
  destruct (runnable bit t); [by wp_steps|]. rewrite Hn.
  eapply wp_mono; [eapply IH; [done|simpl in Hf; lia]|]. done.
Qed.

(** ** Code that looks at no links

    Running it in the abstract state gives what it gives in the concrete one. *)
Definition lockstep {X} (c : SM X) : Prop :=
  ∀ s Q e (a : X) e', rep s Q e → c e = Some (a, e') → ∃ s', c s = Some (a, s') ∧ rep s' Q e'.

Lemma lockstep_bind {X Y} (c : SM X) (k : X → SM Y) :
  lockstep c → (∀ a, lockstep (k a)) → lockstep (a ← c; k a).
Proof.
  intros Hc Hk s Q e b e' Hrep. unfold mbind, M_bind. destruct (c e) as [[a e1]|] eqn:He; [|done].
  intros Hke. destruct (Hc _ _ _ _ _ Hrep He) as (s1 & -> & Hrep1). by apply (Hk a s1 Q e1).
Qed.

Lemma lockstep_get_reg g : lockstep (get_reg g).
Proof. intros s Q e a e' [Hok <-] [= <- <-]. by exists s. Qed.

Lemma lockstep_load b : lockstep (load b).
Proof. intros s Q e a e' [Hok <-] [= <- <-]. by exists s. Qed.

Lemma rep_machine s Q e rg w :
  rep s Q e → rep (set_sc_machine rg w s) Q (set_sc_machine rg w e).
Proof. intros [[Hq Hn Hd] <-]. split; [|done]. by split. Qed.

Lemma lockstep_set_reg g v : lockstep (set_reg g v).
Proof.
  intros s Q e a e' Hrep [= <- <-]. eexists. split; [done|]. destruct Hrep as [Hok <-].
  by apply (rep_machine s Q (erase s)).
Qed.

Lemma lockstep_store b v : lockstep (store b v).
Proof.
  intros s Q e a e' Hrep [= <- <-]. eexists. split; [done|]. destruct Hrep as [Hok <-].
  by apply (rep_machine s Q (erase s)).
Qed.

Lemma lockstep_upd_thread x f : keeps_links f → lockstep (upd_thread x f).
Proof.
  intros Hf s Q e a e' Hrep. unfold upd_thread, rd_thread, lift, mbind, M_bind, get. simpl.
  destruct (sc_threads e !! x) as [te|] eqn:Hte; [|done]. intros [= <- <-].
  destruct (rep_thread _ _ _ _ _ Hrep Hte) as (t & Ht & Et). rewrite Ht. eexists. split; [done|].
  rewrite (insert_as_alter _ _ _ _ Ht), (insert_as_alter _ _ _ _ Hte). by apply rep_alter.
Qed.

Lemma keeps_links_rsp v : keeps_links (set_t_rsp v).
Proof. done. Qed.

Create HintDb lockstep.
#[export] Hint Resolve lockstep_bind lockstep_get_reg lockstep_load lockstep_set_reg lockstep_store
  lockstep_upd_thread keeps_links_rsp : lockstep.

Lemma lockstep_push v : lockstep (push v).
Proof. unfold push. eauto 8 with lockstep. Qed.

Lemma lockstep_push_reg g : lockstep (push_reg g).
Proof. unfold push_reg. apply lockstep_bind; [apply lockstep_get_reg|apply lockstep_push]. Qed.

Lemma lockstep_pop_reg g : lockstep (pop_reg g).
Proof. unfold pop_reg. eauto 10 with lockstep. Qed.

Lemma lockstep_context_switch x rsp : lockstep (context_switch x rsp).
Proof.
  unfold context_switch.
  repeat (apply lockstep_bind; [by eauto using lockstep_push_reg, lockstep_pop_reg with lockstep|intros ?]).
  apply lockstep_set_reg.
Qed.

Lemma wp_lockstep {X} (c : SM X) s Q e a e' :
  lockstep c → rep s Q e → c e = Some (a, e') → wp c (λ b s', b = a ∧ rep s' Q e') s.
Proof. intros Hc Hrep He. destruct (Hc _ _ _ _ _ Hrep He) as (s' & Hs & Hr). by eapply wp_intro. Qed.
