(* ===== verification/SchedThm.v ===== *)
(** * The scheduler: round robin, and what unblocking does to the queue

    The abstract scheduler picks from lists; sched.c implements it on linked
    threads.  From the abstract scheduler: every thread that can run gets the
    processor after those before it in the queue. *)

From stdpp Require Import functions.
From S2P Require Import Prelude DList KHeap Sched SchedQueue.

Implicit Types (s e : sched) (m : gmap Z thread) (q : runq) (r : rqref) (x y c n : Z) (t : thread)
  (L A B : list Z) (Q : rqref → list Z).

(** ** The abstract scheduler *)

Definition woken Q e : sched :=
  set_sc_threads (wake_all (sc_ticks e) (Q (this_rq e)) (sc_threads e)) e.

Definition set_state x (st : thread_state) e : sched :=
  set_sc_threads (alter (set_t_state st) x (sc_threads e)) e.

Definition this_cpu e : Z := if sc_smp_init_done e then sc_cpu e else 0.

(** The first thread of the queue that can run, or the idle thread. *)
Definition choose Q e q (bit : Z) : option Z :=
  or_else (first_runnable bit (sc_threads (woken Q e)) (Q (this_rq e))) (rq_idle q).

(** The thread that stops running goes to the end of the queue, unless it has
    terminated. *)
Definition stop_current (current : option Z) L e : list Z * sched :=
  match current with
  | None => (L, e)
  | Some c =>
      match t_state <$> sc_threads e !! c with
      | Some THREAD_RUNNING => (L ++ [c], set_state c THREAD_READY e)
      | Some (THREAD_SLEEPING | THREAD_BLOCKED) => (L ++ [c], e)
      | _ => (L, e)
      end
  end.

Definition switch `{Code} (current : option Z) n e : option (unit * sched) :=
  match sc_threads e !! n with
  | Some t => (push sched_reschedule_return ;; context_switch (default n current) (t_rsp t)) e
  | None => None
  end.

Definition resched `{Code} Q e : option ((rqref → list Z) * sched) :=
  let r := this_rq e in
  q ← get_rq r e;
  bit ← cpu_bit (this_cpu e);
  let e1 := woken Q e in
  match choose Q e q bit with
  | None => Some (Q, e1)
  | Some n =>
      if bool_decide (rq_current q = Some n) then Some (Q, set_state n THREAD_RUNNING e1)
      else
        let '(L, e2) := stop_current (rq_current q) (Q r) e1 in
        let e3 := set_rq r (set_rq_slice TIME_SLICE_TICKS (set_rq_current (Some n) q))
                    (set_state n THREAD_RUNNING e2) in
        o ← switch (rq_current q) n e3;
        Some (<[r := without n L]> Q, o.2)
  end.

(** ** sched.c implements it *)

Section refine.
Context `{Code}.

Lemma keeps_links_state st : keeps_links (set_t_state st).
Proof. done. Qed.

Lemma wp_upd_data s Q e x f te :
  rep s Q e → keeps_links f → sc_threads e !! x = Some te →
  wp (upd_thread x f) (λ _ s', rep s' Q (set_sc_threads (alter f x (sc_threads e)) e)) s.
Proof.
  intros Hrep Hf Hx. destruct (rep_thread _ _ _ _ _ Hrep Hx) as (t & Ht & _).
  apply wp_upd_thread; [eauto|]. by apply rep_alter.
Qed.

Lemma wp_pick_next s Q e q bit :
  rep s Q e → get_rq (this_rq e) e = Some q → cpu_bit (this_cpu e) = Some bit →
  wp pick_next_locked (λ o s', o = choose Q e q bit ∧ rep s' Q (woken Q e)) s.
Proof.
  intros Hrep Hqe Hbit. destruct (rep_rq_inv _ _ _ _ _ Hrep Hqe) as (qc & Hq & <-).
  pose proof (proj2 Hrep) as He. pose proof (qs_queue _ _ (proj1 Hrep) _ _ Hq) as HL.
  assert (this_cpu e = if sc_smp_init_done s then sc_cpu s else 0) as Hcpu by by rewrite <-He.
  assert (sc_ticks s = sc_ticks e) as Htk by by rewrite <-He.
  pose proof (rep_this _ _ _ Hrep) as Hthis. rewrite <-Hthis in Hq, HL.
  unfold pick_next_locked, wake_sleeping_threads_locked, queue_fuel, thread_get_idle. wp_steps.
  eapply wp_lift; [by rewrite <-Hcpu|]. wp_steps. eapply wp_rd_rq; [done|]. wp_steps.
  rewrite (qo_head _ _ _ HL).
  eapply wp_mono; [eapply wp_wake_from; [done|apply HL|by eapply queue_length]|].
  intros [] s1 (Hrep1 & m & -> & Hm). rewrite Htk, Hthis in Hrep1. fold (woken Q e) in Hrep1.
  change (this_rq s) with (this_rq (set_sc_threads m s)) in Hq.
  wp_steps. eapply wp_rd_rq; [by rewrite get_rq_threads|]. wp_steps.
  pose proof (qs_queue _ _ (proj1 Hrep1) _ _ Hq) as HL1. rewrite (qo_head _ _ _ HL1).
  eapply wp_mono; [eapply wp_ready_from; [apply HL1|by eapply queue_length]|].
  intros o ? [-> ->]. unfold choose. rewrite <-(proj2 Hrep1). simpl.
  rewrite first_runnable_erase. change (this_rq (set_sc_threads m s)) with (this_rq s).
  rewrite Hthis. destruct (first_runnable bit m (Q (this_rq e))) as [x|] eqn:Hf.
  - wp_steps. by rewrite (proj2 Hrep1).
  - wp_steps. eapply wp_rd_rq; [done|]. wp_steps. by rewrite (proj2 Hrep1).
Qed.

(** The thread [c] may be put into a queue: it exists and is in none. *)
Definition outside Q e c : Prop := is_Some (sc_threads e !! c) ∧ ∀ r, c ∉ Q r.

Lemma alter_state_same st x m t :
  m !! x = Some t → t_state t = st → alter (set_t_state st) x m = m.
Proof.
  intros Hx <-. apply map_eq. intros y. rewrite lookup_alter. case_decide as Hxy; [|done].
  rewrite <-Hxy, Hx. by destruct t.
Qed.

Lemma alter_state_twice st st' x m :
  alter (set_t_state st) x (alter (set_t_state st') x m) = alter (set_t_state st) x m.
Proof.
  apply map_eq. intros y. destruct (decide (x = y)) as [<-|Hne].
  - rewrite !lookup_alter_eq. by destruct (m !! x).
  - by rewrite !lookup_alter_ne.
Qed.

Lemma wp_requeue s Q e c q :
  rep s Q e → get_rq (this_rq e) e = Some q → outside Q e c →
  wp (requeue_current c) (λ _ s',
    rep s' (<[this_rq e := (stop_current (Some c) (Q (this_rq e)) e).1]> Q)
      (stop_current (Some c) (Q (this_rq e)) e).2) s.
Proof.
  intros Hrep Hqe [[te Hte] Hout]. destruct (rep_rq_inv _ _ _ _ _ Hrep Hqe) as (qc & Hq & <-).
  rewrite <-(rep_this _ _ _ Hrep) in Hq.
  destruct (rep_thread _ _ _ _ _ Hrep Hte) as (t & Ht & Et).
  assert (∀ Q', (∀ r, Q r = Q' r) → rep s Q' e) as Hsame by (intros; by eapply rep_ext).
  assert (∀ r, Q r = <[this_rq e := Q (this_rq e)]> Q r) as Hid.
  { intros r. destruct (decide (this_rq e = r)) as [<-|]; [by rewrite fn_lookup_insert|].
    by rewrite fn_lookup_insert_ne. }
  pose proof (wp_queue_add _ _ _ _ _ Hrep Hq ltac:(eauto) Hout) as Hadd.
  unfold requeue_current, stop_current. wp_steps. eapply wp_rd_thread; [done|].
  rewrite Hte. simpl. assert (t_state te = t_state t) as -> by by rewrite <-Et.
  destruct (t_state t) eqn:Hst; simpl.
  - wp_steps. by apply Hsame.
  - done.
  - wp_steps. eapply wp_mono; [exact Hadd|]. intros [] s1 Hrep1. cbv beta in Hrep1.
    eapply wp_mono; [eapply (wp_upd_data _ _ _ c); [done|done|]|].
    + simpl. by rewrite lookup_alter_eq, Hte.
    + intros [] s2. cbv beta. simpl. rewrite alter_state_twice.
      rewrite (alter_state_same _ _ _ _ Hte) by by rewrite <-Et. by destruct e.
  - wp_steps. eapply wp_mono; [exact Hadd|]. intros [] s1 Hrep1. cbv beta in Hrep1.
    eapply wp_mono; [eapply (wp_upd_data _ _ _ c); [done|done|]|].
    + simpl. by rewrite lookup_alter_eq, Hte.
    + intros [] s2. cbv beta. simpl. rewrite alter_state_twice.
      rewrite (alter_state_same _ _ _ _ Hte) by by rewrite <-Et. by destruct e.
  - wp_steps. by apply Hsame.
Qed.

Lemma wake_all_lookup now L m y :
  wake_all now L m !! y = if decide (y ∈ L) then wake now <$> m !! y else m !! y.
Proof.
  revert m. induction L as [|z L IH]; intros m; [done|]. simpl. rewrite IH.
  destruct (decide (z = y)) as [->|Hne].
  - rewrite lookup_alter_eq, (decide_True (P := y ∈ y :: L)) by set_solver.
    case_decide; [|done]. destruct (m !! y) as [t|]; [|done]. simpl. f_equal.
    unfold wake. destruct (bool_decide (t_state t = THREAD_SLEEPING) && (t_wake_time t <=? now)) eqn:E;
      [done|by rewrite E].
  - rewrite lookup_alter_ne by done. apply decide_ext. set_solver.
Qed.

Lemma outside_woken Q e c : outside Q e c → outside Q (woken Q e) c.
Proof.
  intros [[t Ht] Hout]. split; [|done]. simpl. rewrite wake_all_lookup, Ht.
  case_decide; eauto.
Qed.

Lemma stop_current_queues current L e :
  ∃ m, (stop_current current L e).2 = set_sc_threads m e.
Proof.
  unfold stop_current, set_state. exists (sc_threads (stop_current current L e).2).
  unfold stop_current, set_state. destruct current as [c|]; [|by destruct e].
  destruct (sc_threads e !! c) as [t|]; simpl; [|by destruct e].
  destruct (t_state t); simpl; by destruct e.
Qed.

Lemma wp_stop_current s Q e q :
  rep s Q e → get_rq (this_rq e) e = Some q →
  (∀ c, rq_current q = Some c → outside Q e c) →
  wp (match rq_current q with Some c => requeue_current c | None => mret tt end) (λ _ s',
    rep s' (<[this_rq e := (stop_current (rq_current q) (Q (this_rq e)) e).1]> Q)
      (stop_current (rq_current q) (Q (this_rq e)) e).2) s.
Proof.
  intros Hrep Hq Hout. destruct (rq_current q) as [c|]; [by eapply wp_requeue; eauto|].
  apply wp_ret. eapply rep_ext; [|done]. intros r. simpl.
  destruct (decide (this_rq e = r)) as [<-|]; [by rewrite fn_lookup_insert|].
  by rewrite fn_lookup_insert_ne.
Qed.

Lemma lockstep_switch old rsp : lockstep (push sched_reschedule_return ;; context_switch old rsp).
Proof.
  apply lockstep_bind; [apply lockstep_push|]. intros _. apply lockstep_context_switch.
Qed.

Lemma switch_some current n e t :
  sc_threads e !! n = Some t →
  switch current n e =
    (push sched_reschedule_return ;; context_switch (default n current) (t_rsp t)) e.
Proof. intros Ht. unfold switch. by rewrite Ht. Qed.

Lemma switch_none current n e : sc_threads e !! n = None → switch current n e = None.
Proof. intros Ht. unfold switch. by rewrite Ht. Qed.

(** The end of sched_reschedule: [n] leaves the queue and runs. *)
Lemma wp_switch_to s Q e q current n L o :
  rep s (<[this_rq e := L]> Q) e → get_rq (this_rq e) e = Some q →
  switch current n (set_rq (this_rq e) (set_rq_slice TIME_SLICE_TICKS (set_rq_current (Some n) q))
    (set_state n THREAD_RUNNING e)) = Some o →
  wp (queue_remove_locked n ;;
      upd_thread n (set_t_state THREAD_RUNNING) ;;
      thread_set_current (Some n) ;;
      upd_rq (this_rq e) (set_rq_slice TIME_SLICE_TICKS) ;;
      t ← rd_thread n;
      push sched_reschedule_return ;;
      context_switch (default n current) (t_rsp t))
    (λ _ s', rep s' (<[this_rq e := without n L]> Q) o.2) s.
Proof.
  intros Hrep Hqe Hsw. destruct (rep_rq_inv _ _ _ _ _ Hrep Hqe) as (qc & Hq & Eq).
  pose proof (rep_this _ _ _ Hrep) as Hthis. set (r := this_rq e) in *.
  set (e3 := set_rq r _ _) in Hsw.
  assert (sc_threads e3 !! n = set_t_state THREAD_RUNNING <$> sc_threads e !! n) as Hten.
  { unfold e3. rewrite set_rq_threads. apply lookup_alter_eq. }
  destruct (sc_threads e !! n) as [te|] eqn:Hte; [|by rewrite switch_none in Hsw].
  simpl in Hten. rewrite (switch_some _ _ _ _ Hten) in Hsw.
  wp_steps. eapply wp_mono; [eapply wp_queue_remove; [done|by rewrite Hthis]|].
  intros [] s1 Hrep1. cbv beta in Hrep1. fold r in Hrep1. rewrite fn_lookup_insert in Hrep1.
  apply (rep_ext _ _ (<[r := without n L]> Q)) in Hrep1; cycle 1.
  { intros r'. destruct (decide (r = r')) as [<-|]; [by rewrite !fn_lookup_insert|].
    by rewrite !fn_lookup_insert_ne. }
  wp_steps. eapply wp_mono; [by eapply wp_upd_data|]. intros [] s2 Hrep2. cbv beta in Hrep2.
  assert (this_rq s2 = r) as Hr2 by by rewrite (rep_this _ _ _ Hrep2).
  assert (get_rq r (set_sc_threads (alter (set_t_state THREAD_RUNNING) n (sc_threads e)) e) = Some q)
    as Hqe2 by by rewrite get_rq_threads.
  destruct (rep_rq_inv _ _ _ _ _ Hrep2 Hqe2) as (q2 & Hq2 & Eq2).
  unfold thread_set_current. wp_steps. rewrite Hr2. eapply wp_upd_rq; [done|]. wp_steps.
  eapply wp_upd_rq; [apply get_set_rq; eauto|]. rewrite set_rq_set.
  eapply (rep_set_rq _ _ _ _ _ (λ q, set_rq_slice TIME_SLICE_TICKS (set_rq_current (Some n) q)))
    in Hrep2 as Hrep3; [|done..].
  rewrite Eq2 in Hrep3. fold (set_state n THREAD_RUNNING e) in Hrep3. fold e3 in Hrep3. wp_steps.
  destruct (rep_thread _ _ _ _ _ Hrep3 Hten) as (t3 & Ht3 & Et3).
  apply (wp_rd_thread _ t3); [exact Ht3|].
  rewrite (f_equal t_rsp Et3 : t_rsp t3 = t_rsp (set_t_state THREAD_RUNNING te)).
  rewrite (surjective_pairing o) in Hsw.
  refine (wp_mono _ _ _ _ (wp_lockstep _ _ _ _ _ _ (lockstep_switch _ _) Hrep3 Hsw) _).
  by intros [] s' [_ ?].
Qed.

(** sched_reschedule does what the abstract scheduler does. *)
Lemma wp_sched_reschedule s Q e Q' e' :
  rep s Q e → resched Q e = Some (Q', e') →
  (∀ q c, get_rq (this_rq e) e = Some q → rq_current q = Some c → outside Q e c) →
  wp sched_reschedule (λ _ s', rep s' Q' e') s.
Proof.
  intros Hrep Hre Hcur. unfold resched in Hre.
  destruct (get_rq (this_rq e) e) as [q|] eqn:Hqe; [|done]. simpl in Hre.
  destruct (cpu_bit (this_cpu e)) as [bit|] eqn:Hbit; [|done]. simpl in Hre.
  destruct (rep_rq_inv _ _ _ _ _ Hrep Hqe) as (qc & Hq & Eq).
  pose proof (rep_this _ _ _ Hrep) as Hthis.
  unfold sched_reschedule, thread_current. wp_steps.
  eapply wp_rd_rq; [by rewrite Hthis|]. wp_steps.
  eapply wp_mono; [by eapply wp_pick_next|]. intros o s1 [-> Hrep1].
  assert (rq_current qc = rq_current q) as -> by by rewrite <-Eq.
  destruct (choose Q e q bit) as [n|] eqn:Hn; [|wp_steps; by simplify_eq].
  destruct (decide (rq_current q = Some n)) as [Hc|Hc].
  { rewrite bool_decide_true in Hre by done. rewrite bool_decide_true by done.
    injection Hre as <- <-. destruct (outside_woken _ _ _ (Hcur q n eq_refl Hc)) as [[te Hte] _].
    by eapply wp_upd_data. }
  rewrite bool_decide_false in Hre by done. rewrite bool_decide_false by done.
  set (e1 := woken Q e) in *. change (this_rq e) with (this_rq e1) in *.
  assert (get_rq (this_rq e1) e1 = Some q) as Hq1.
  { unfold e1, woken. by rewrite get_rq_threads. }
  destruct (stop_current_queues (rq_current q) (Q (this_rq e1)) e1) as [m Hm].
  pose proof (wp_stop_current _ _ _ _ Hrep1 Hq1) as Hstop.
  destruct (stop_current (rq_current q) (Q (this_rq e1)) e1) as [L e2]. simpl in Hm, Hstop.
  wp_steps. eapply wp_mono; [apply Hstop|].
  { intros c Hcc. apply outside_woken. by apply (Hcur q). }
  intros [] s2 Hrep2. cbv beta in Hrep2. rewrite Hthis.
  assert (this_rq e1 = this_rq e2) as Hr by by rewrite Hm. rewrite Hr in *.
  destruct (switch (rq_current q) n _) as [o|] eqn:Hsw in Hre; [|done]. injection Hre as <- <-.
  eapply wp_switch_to; [done| |done]. rewrite Hm. by rewrite get_rq_threads, <-Hr, Hm in *.
Qed.

(** ** Switching changes the machine and where the old thread is saved *)

Definition on_machine s s' : Prop := ∃ rg w, s' = set_sc_machine rg w s.

Lemma on_machine_refl s : on_machine s s.
Proof. exists (sc_regs s), (sc_words s). by destruct s. Qed.

Lemma on_machine_trans s1 s2 s3 : on_machine s1 s2 → on_machine s2 s3 → on_machine s1 s3.
Proof. intros (rg1 & w1 & ->) (rg2 & w2 & ->). by exists rg2, w2. Qed.

Definition machine_only {X} (c : SM X) : Prop := ∀ s, wp c (λ _ s', on_machine s s') s.

Lemma machine_only_bind {X Y} (c : SM X) (k : X → SM Y) :
  machine_only c → (∀ a, machine_only (k a)) → machine_only (a ← c; k a).
Proof.
  intros Hc Hk s. apply wp_bind. eapply wp_mono; [apply Hc|]. intros a s1 H1.
  eapply wp_mono; [apply Hk|]. intros b s2 H2. exact (on_machine_trans _ _ _ H1 H2).
Qed.

Lemma machine_only_get_reg g : machine_only (get_reg g).
Proof. intros s. apply on_machine_refl. Qed.

Lemma machine_only_load a : machine_only (load a).
Proof. intros s. apply on_machine_refl. Qed.

Lemma machine_only_set_reg g v : machine_only (set_reg g v).
Proof. intros s. by eexists _, _. Qed.

Lemma machine_only_store a v : machine_only (store a v).
Proof. intros s. by eexists _, _. Qed.

Create HintDb machine.
#[local] Hint Resolve machine_only_bind machine_only_get_reg machine_only_load
  machine_only_set_reg machine_only_store : machine.

Lemma machine_only_push v : machine_only (push v).
Proof. unfold push. eauto 8 with machine. Qed.

Lemma machine_only_push_reg g : machine_only (push_reg g).
Proof. apply machine_only_bind; [apply machine_only_get_reg|apply machine_only_push]. Qed.

Lemma machine_only_pop_reg g : machine_only (pop_reg g).
Proof. unfold pop_reg. eauto 10 with machine. Qed.

#[local] Hint Resolve machine_only_push machine_only_push_reg machine_only_pop_reg : machine.

(** The old thread keeps everything but its saved stack pointer. *)
Definition switched old e e' : Prop :=
  ∃ v, on_machine (set_sc_threads (alter (set_t_rsp v) old (sc_threads e)) e) e'.

Lemma wp_context_switch old rsp e :
  is_Some (sc_threads e !! old) → wp (context_switch old rsp) (λ _ e', switched old e e') e.
Proof.
  intros Hold. unfold context_switch.
  do 7 (apply wp_bind; eapply wp_mono; [apply machine_only_push_reg|]; intros _ ? (? & ? & ->)).
  apply wp_bind, wp_gets. apply wp_bind, wp_upd_thread; [done|].
  apply wp_bind. eapply wp_mono; [apply machine_only_set_reg|]. intros _ ? (? & ? & ->).
  do 7 (apply wp_bind; eapply wp_mono; [apply machine_only_pop_reg|]; intros _ ? (? & ? & ->)).
  eapply wp_mono; [apply machine_only_pop_reg|]; intros _ ? (rg & w & ->).
  eexists. exists rg, w. reflexivity.
Qed.

Lemma switch_total current n e t :
  sc_threads e !! n = Some t → is_Some (sc_threads e !! default n current) →
  ∃ e', switch current n e = Some (tt, e') ∧ switched (default n current) e e'.
Proof.
  intros Hn Hc. assert (wp (push sched_reschedule_return ;;
    context_switch (default n current) (t_rsp t)) (λ _ e', switched (default n current) e e') e) as Hwp.
  { apply wp_bind. eapply wp_mono; [apply machine_only_push|]. intros _ ? (rg & w & ->).
    eapply wp_mono; [by apply wp_context_switch|]. intros _ e' (v & rg' & w' & ->).
    exists v, rg', w'. reflexivity. }
  rewrite (switch_some _ _ _ _ Hn). destruct (wp_elim _ _ _ Hwp) as ([] & e' & -> & He').
  by exists e'.
Qed.

(** ** What one call comes to *)

(** State and affinity of a thread. *)
Definition status e x : option (thread_state * Z) :=
  (λ t, (t_state t, t_cpu_mask t)) <$> sc_threads e !! x.

(** The parts of the state that scheduling does not change. *)
Definition same_cpu e e' : Prop :=
  sc_smp_init_done e' = sc_smp_init_done e ∧ sc_cpu e' = sc_cpu e ∧
  sc_num_cpus_online e' = sc_num_cpus_online e ∧ sc_running e' = sc_running e ∧
  sc_balance_tick e' = sc_balance_tick e ∧ sc_ticks e' = sc_ticks e.

Lemma same_cpu_rq e e' : same_cpu e e' → this_rq e' = this_rq e ∧ this_cpu e' = this_cpu e.
Proof. intros (H1 & H2 & _). unfold this_rq, this_cpu. by rewrite H1, H2. Qed.

Lemma status_set_state e x st y :
  status (set_state x st e) y =
    if decide (x = y) then (λ p, (st, p.2)) <$> status e y else status e y.
Proof.
  unfold status, set_state. simpl. rewrite lookup_alter. case_decide; [subst|done].
  by destruct (sc_threads e !! y).
Qed.

Lemma status_switched old e e' y : switched old e e' → status e' y = status e y.
Proof.
  intros (v & rg & w & ->). unfold status. simpl. rewrite lookup_alter. case_decide; [subst|done].
  by destruct (sc_threads e !! y).
Qed.

Lemma status_is_Some e x : is_Some (status e x) ↔ is_Some (sc_threads e !! x).
Proof. unfold status. by rewrite fmap_is_Some. Qed.

Lemma stop_current_dom current L e x :
  is_Some (sc_threads e !! x) → is_Some (sc_threads (stop_current current L e).2 !! x).
Proof.
  intros Hx. unfold stop_current. destruct current as [c|]; [|done].
  destruct (t_state <$> sc_threads e !! c) as [[]|]; try done. by apply lookup_alter_is_Some.
Qed.

Lemma resched_other Q e q c bit n :
  get_rq (this_rq e) e = Some q → cpu_bit (this_cpu e) = Some bit →
  choose Q e q bit = Some n → rq_current q = Some c → n ≠ c →
  is_Some (sc_threads e !! c) → is_Some (sc_threads e !! n) →
  let p := stop_current (Some c) (Q (this_rq e)) (woken Q e) in
  ∃ e', resched Q e = Some (<[this_rq e := without n p.1]> Q, e') ∧ same_cpu e e' ∧
    get_rq (this_rq e) e' = Some (set_rq_slice TIME_SLICE_TICKS (set_rq_current (Some n) q)) ∧
    (∀ r, r ≠ this_rq e → get_rq r e' = get_rq r e) ∧
    ∀ y, status e' y = status (set_state n THREAD_RUNNING p.2) y.
Proof.
  intros Hq Hbit Hn Hc Hne Hexc Hexn p. unfold resched. rewrite Hq. simpl. rewrite Hbit. simpl.
  rewrite Hn, Hc. rewrite bool_decide_false by congruence. fold p.
  destruct (stop_current_queues (Some c) (Q (this_rq e)) (woken Q e)) as [m Hm]. fold p in Hm.
  assert (∀ x, is_Some (sc_threads e !! x) → is_Some (sc_threads p.2 !! x)) as Hdom.
  { intros x Hx. assert (is_Some (sc_threads (woken Q e) !! x)) as Hx1.
    { simpl. rewrite wake_all_lookup. case_decide; [by rewrite fmap_is_Some|done]. }
    by apply stop_current_dom. }
  destruct p as [L e2]. simpl in Hm, Hdom |- *.
  set (q' := set_rq_slice TIME_SLICE_TICKS (set_rq_current (Some n) q)).
  set (e3 := set_rq (this_rq e) q' (set_state n THREAD_RUNNING e2)).
  assert (∀ x, is_Some (sc_threads e !! x) → is_Some (sc_threads e3 !! x)) as Hdom3.
  { intros x Hx. unfold e3. rewrite set_rq_threads. by apply lookup_alter_is_Some, Hdom. }
  destruct (Hdom3 n Hexn) as [t Ht].
  destruct (switch_total (Some c) n e3 t Ht (Hdom3 c Hexc)) as (e' & Hsw & He'). rewrite Hsw.
  exists e'. split; [done|].
  assert (∀ y, status e' y = status (set_state n THREAD_RUNNING e2) y) as Hst.
  { intros y. rewrite (status_switched _ _ _ _ He'). unfold status, e3. by rewrite set_rq_threads. }
  assert (is_Some (get_rq (this_rq e) (set_state n THREAD_RUNNING e2))) as Hq2.
  { rewrite Hm. unfold set_state. rewrite !get_rq_threads. eauto. }
  destruct He' as (v & rg & w & ->). split_and!; [|..|done].
  - unfold e3. rewrite Hm. by destruct (this_rq e); repeat split.
  - change (get_rq (this_rq e) e3 = Some q'). by apply get_set_rq.
  - intros r Hr. change (get_rq r e3 = get_rq r e). unfold e3.
    rewrite get_set_rq_ne by done. rewrite Hm. unfold set_state. by rewrite !get_rq_threads.
Qed.

(** The executing processor has a current thread, which is in no queue, and an
    idle thread, which is in no other processor's queue. *)
Record running Q e : Prop := Running {
  run_cpu : is_Some (cpu_bit (this_cpu e));
  run_queued r x : x ∈ Q r → is_Some (sc_threads e !! x);
  run_current : ∃ q c i, get_rq (this_rq e) e = Some q ∧ rq_current q = Some c ∧
    outside Q e c ∧ rq_idle q = Some i ∧ is_Some (sc_threads e !! i) ∧
    ∀ r, r ≠ this_rq e → i ∉ Q r }.

Lemma first_runnable_Some bit m L x :
  first_runnable bit m L = Some x → x ∈ L ∧ ∃ t, m !! x = Some t ∧ runnable bit t = true.
Proof.
  intros [Hx Ht]%List.find_some. split; [by apply list_elem_of_In|].
  destruct (m !! x) as [t|]; [eauto|done].
Qed.

(** The chosen thread exists and is in no queue of another processor. *)
Lemma choose_ok s Q e q bit :
  rep s Q e → running Q e → get_rq (this_rq e) e = Some q →
  ∃ n, choose Q e q bit = Some n ∧ is_Some (sc_threads e !! n) ∧
    ∀ r, r ≠ this_rq e → n ∉ Q r.
Proof.
  intros [[_ _ Hdisj] _] [_ Hqd (q' & c & i & Hq' & _ & _ & Hi & Hex & Hio)] Hq. simplify_eq.
  unfold choose. destruct (first_runnable bit _ _) as [x|] eqn:Hf; simpl; [|rewrite Hi; eauto].
  apply first_runnable_Some in Hf as [Hx _]. exists x. split_and!; [done|by eapply Hqd|].
  intros r Hr Hx'. apply Hr. eauto.
Qed.

Lemma without_insert_out Q r n L :
  (∀ r', r' ≠ r → n ∉ Q r') → ∀ r', n ∉ (<[r := without n L]> Q) r'.
Proof.
  intros Hn r'. destruct (decide (r = r')) as [<-|Hne].
  - rewrite fn_lookup_insert, elem_without. tauto.
  - rewrite fn_lookup_insert_ne by done. by apply Hn.
Qed.

Lemma stop_current_elem c L e y : y ∈ (stop_current (Some c) L e).1 → y ∈ L ∨ y = c.
Proof.
  unfold stop_current. destruct (t_state <$> _) as [[]|]; simpl; rewrite ?elem_of_app,
    ?list_elem_of_singleton; tauto.
Qed.

Lemma set_state_dom x st e y :
  is_Some (sc_threads e !! y) → is_Some (sc_threads (set_state x st e) !! y).
Proof. intros. by apply lookup_alter_is_Some. Qed.

Lemma woken_dom Q e y : is_Some (sc_threads e !! y) → is_Some (sc_threads (woken Q e) !! y).
Proof. intros. simpl. rewrite wake_all_lookup. case_decide; [by rewrite fmap_is_Some|done]. Qed.

Lemma resched_running s Q e :
  rep s Q e → running Q e → ∃ Q' e', resched Q e = Some (Q', e') ∧ running Q' e'.
Proof.
  intros Hrep Hrun. pose proof Hrun as [[bit Hbit] Hqd (q & c & i & Hq & Hc & Hout & Hi & Hiex & Hio)].
  destruct (choose_ok s Q e q bit) as (n & Hn & Hnex & Hno); [done..|].
  destruct (decide (n = c)) as [->|Hne].
  - unfold resched. rewrite Hq. simpl. rewrite Hbit. simpl. rewrite Hn, Hc.
    rewrite bool_decide_true by done. eexists _, _. split; [done|]. split.
    + eauto.
    + intros r x Hx%Hqd. by apply set_state_dom, woken_dom.
    + exists q, c, i. unfold set_state, woken. rewrite !get_rq_threads.
      split_and!; [done|done| |done| |done].
      * destruct (outside_woken _ _ _ Hout). split; [by apply set_state_dom|done].
      * by apply set_state_dom, woken_dom.
  - destruct (resched_other Q e q c bit n) as (e' & Hre & Hcpu & Hq' & _ & Hst); [done..|apply Hout|done|].
    destruct (same_cpu_rq _ _ Hcpu) as [Hr Hcp].
    assert (∀ y, is_Some (sc_threads e !! y) → is_Some (sc_threads e' !! y)) as Hdom.
    { intros y Hy. apply status_is_Some. rewrite Hst. apply status_is_Some.
      by apply set_state_dom, stop_current_dom, woken_dom. }
    eexists _, e'. split; [exact Hre|]. split.
    + rewrite Hcp. eauto.
    + intros r x. destruct (decide (this_rq e = r)) as [<-|Hner].
      * rewrite fn_lookup_insert, elem_without. intros [[?| ->]%stop_current_elem _]; [eauto|].
        apply Hdom, Hout.
      * rewrite fn_lookup_insert_ne by done. eauto.
    + rewrite Hr. eexists _, n, i. split_and!; [done|done| |done|by apply Hdom|].
      * split; [by apply Hdom|]. by apply without_insert_out.
      * intros r Hner. rewrite fn_lookup_insert_ne by done. by apply Hio.
Qed.

End refine.
