(* ===== verification/SchedLive.v ===== *)
(** * The scheduler: every thread that can run gets the processor

    While one processor runs and no thread blocks, the timer lets each thread
    run for a time slice in the order of the queue. *)

From stdpp Require Import functions.
From S2P Require Import Prelude DList KHeap Sched SchedQueue SchedThm.

Section live.
Implicit Types (s e : sched) (m : gmap Z thread) (q : runq) (r : rqref) (x y c n : Z) (t : thread)
  (L A B : list Z) (Q : rqref → list Z).
Context `{Code}.

(** A thread in state [st] that may run on the first processor. *)
Definition allowed e x (st : thread_state) : Prop :=
  ∃ mask, status e x = Some (st, mask) ∧ has mask 1 = true.

(** One processor runs [c], with [v] ticks left, and the threads [L] wait. *)
Record busy Q e L c (v : Z) : Prop := Busy {
  bz_single : sc_smp_init_done e = false;
  bz_on : sc_running e = true;
  bz_running : running Q e;
  bz_queue : Q Boot = L;
  bz_slice : rq_slice (sc_boot e) = v;
  bz_current : rq_current (sc_boot e) = Some c;
  bz_current_state : allowed e c THREAD_RUNNING;
  bz_waiting x : x ∈ L → allowed e x THREAD_READY }.

Lemma busy_this Q e L c v : busy Q e L c v → this_rq e = Boot ∧ this_cpu e = 0.
Proof. intros [Hs _ _ _ _ _ _ _]. unfold this_rq, this_cpu. by rewrite Hs. Qed.

(** Changes that leave scheduling data alone. *)
Lemma busy_mono Q e L c v e' v' :
  busy Q e L c v → same_cpu e e' ∨ (sc_smp_init_done e' = false ∧ sc_running e' = true) →
  sc_boot e' = set_rq_slice v' (sc_boot e) → (∀ x, status e' x = status e x) →
  busy Q e' L c v'.
Proof.
  intros [Hs Ho Hr HQ Hsl Hc Hcs Hw] Hcpu Hb Hst.
  assert (sc_smp_init_done e' = false ∧ sc_running e' = true) as [Hs' Ho'].
  { destruct Hcpu as [(? & _ & _ & ? & _)|?]; [|done]. split; congruence. }
  assert (this_rq e' = this_rq e ∧ this_cpu e' = this_cpu e ∧ this_rq e = Boot) as (Hrq & Hcp & Hboot).
  { unfold this_rq, this_cpu. by rewrite Hs, Hs'. }
  assert (∀ x, is_Some (sc_threads e !! x) → is_Some (sc_threads e' !! x)) as Hdom.
  { intros x. rewrite <-!status_is_Some. by rewrite Hst. }
  destruct Hr as [Hbit Hqd (q & c1 & i & Hq & Hc1 & [Hex Hout] & Hi & Hiex & Hio)].
  rewrite Hboot in *. injection Hq as <-. split; [done|done| |done|by rewrite Hb|by rewrite Hb|..].
  - split; [by rewrite Hcp|by eauto|]. rewrite Hrq.
    exists (set_rq_slice v' (sc_boot e)), c1, i.
    split_and!; [by simpl; rewrite Hb|done| |done|by apply Hdom|done].
    split; [by apply Hdom|done].
  - destruct Hcs as (mask & ? & ?). exists mask. by rewrite Hst.
  - intros x (mask & ? & ?)%Hw. exists mask. by rewrite Hst.
Qed.

Lemma status_wake_all now Q e L c v y :
  busy Q e L c v →
  status (set_sc_threads (wake_all now (Q (this_rq e)) (sc_threads e)) e) y = status e y.
Proof.
  intros Hb. destruct (busy_this _ _ _ _ _ Hb) as [Hthis _]. unfold status. simpl.
  rewrite wake_all_lookup, Hthis. case_decide as Hy; [|done]. rewrite (bz_queue _ _ _ _ _ Hb) in Hy.
  destruct (bz_waiting _ _ _ _ _ Hb y Hy) as (mask & Hst & _). unfold status in Hst.
  destruct (sc_threads e !! y) as [t|]; [|done]. simpl in *. injection Hst as Hst _. unfold wake.
  by rewrite bool_decide_false by (rewrite Hst; done).
Qed.

Lemma status_woken Q e L c v y : busy Q e L c v → status (woken Q e) y = status e y.
Proof. apply status_wake_all. Qed.

Lemma first_runnable_head bit m x L t :
  m !! x = Some t → runnable bit t = true → first_runnable bit m (x :: L) = Some x.
Proof.
  intros Ht Hr. unfold first_runnable, List.find. rewrite Ht.
  change (from_option (runnable bit) false (Some t)) with (runnable bit t). by rewrite Hr.
Qed.

(** The first thread waiting is chosen. *)
Lemma choose_first Q e L c v x :
  busy Q e (x :: L) c v → choose Q e (sc_boot e) 1 = Some x.
Proof.
  intros Hb. destruct (busy_this _ _ _ _ _ Hb) as [Hthis _]. unfold choose.
  rewrite Hthis, (bz_queue _ _ _ _ _ Hb).
  destruct (bz_waiting _ _ _ _ _ Hb x ltac:(set_solver)) as (mask & Hst & Hm).
  rewrite <-(status_woken Q e (x :: L) c v) in Hst by done. unfold status in Hst.
  destruct (sc_threads (woken Q e) !! x) as [t|] eqn:Ht; [|done]. simpl in Hst. injection Hst as Hs Hk.
  erewrite first_runnable_head; [done|done|]. unfold runnable. by rewrite bool_decide_true, Hk, Hm.
Qed.

Lemma stop_running Q e L c v :
  busy Q e L c v →
  stop_current (Some c) (Q (this_rq e)) (woken Q e) =
    (Q (this_rq e) ++ [c], set_state c THREAD_READY (woken Q e)).
Proof.
  intros Hb. destruct (bz_current_state _ _ _ _ _ Hb) as (mc & Hmc & _).
  rewrite <-(status_woken _ _ _ _ _ _ Hb) in Hmc. unfold stop_current, status in *.
  destruct (sc_threads (woken Q e) !! c) as [tc|]; [|done]. injection Hmc as Hsc _.
  simpl. by rewrite Hsc.
Qed.

Lemma resched_busy s Q e L c v x :
  rep s Q e → busy Q e (x :: L) c v →
  ∃ Q' e', resched Q e = Some (Q', e') ∧ busy Q' e' (L ++ [c]) x TIME_SLICE_TICKS.
Proof.
  intros Hrep Hb. destruct (busy_this _ _ _ _ _ Hb) as [Hthis Hcpu].
  destruct (resched_running s Q e Hrep (bz_running _ _ _ _ _ Hb)) as (Q' & e' & Hre & Hrun).
  exists Q', e'. split; [done|].
  destruct (bz_running _ _ _ _ _ Hb) as [_ Hqd (q & c1 & i & Hq & Hc1 & [Hcex Hcout] & _)].
  rewrite Hthis in Hq. injection Hq as <-. rewrite (bz_current _ _ _ _ _ Hb) in Hc1. injection Hc1 as <-.
  pose proof (bz_queue _ _ _ _ _ Hb) as HQ.
  assert (x ≠ c) as Hxc by (intros ->; apply (Hcout Boot); rewrite HQ; set_solver).
  pose proof (qs_queue _ _ (proj1 Hrep) Boot _ eq_refl) as HL. rewrite HQ in HL.
  pose proof (qo_nodup _ _ _ HL) as [HxL _]%NoDup_cons.
  destruct (resched_other Q e (sc_boot e) c 1 x) as (e1 & Hre1 & Hsame & Hq1 & _ & Hst);
    [by rewrite Hthis|by rewrite Hcpu|by eapply choose_first|apply Hb|done|done| |].
  { apply (Hqd Boot). rewrite HQ. set_solver. }
  cbv zeta in Hre1, Hst. rewrite (stop_running _ _ _ _ _ Hb) in Hre1, Hst.
  rewrite Hthis in *. cbn [fst snd] in Hre1, Hst. rewrite Hre1 in Hre. injection Hre as <- <-.
  assert (∀ y, status e1 y = if decide (x = y) then (λ p, (THREAD_RUNNING, p.2)) <$> status e y
    else if decide (c = y) then (λ p, (THREAD_READY, p.2)) <$> status e y else status e y) as Hst'.
  { intros y. rewrite Hst, !status_set_state, !(status_woken _ _ _ _ _ _ Hb).
    repeat case_decide; congruence. }
  destruct Hsame as (Hsm & _ & _ & Hon & _). injection Hq1 as Hq1.
  split; [by rewrite Hsm; apply Hb|by rewrite Hon; apply Hb|done| | | | |].
  - rewrite fn_lookup_insert, HQ. change ((x :: L) ++ [c]) with (x :: (L ++ [c])).
    unfold without. rewrite filter_cons, decide_False by naive_solver.
    fold (without x (L ++ [c])). apply without_notin. set_solver.
  - by rewrite Hq1.
  - by rewrite Hq1.
  - destruct (bz_waiting _ _ _ _ _ Hb x ltac:(set_solver)) as (mask & Hx & Hm). exists mask.
    by rewrite Hst', decide_True, Hx.
  - intros y Hy. rewrite elem_of_app, list_elem_of_singleton in Hy. destruct Hy as [Hy| ->].
    + destruct (bz_waiting _ _ _ _ _ Hb y ltac:(set_solver)) as (mask & Hx & Hm). exists mask.
      rewrite Hst', decide_False by (by intros ->).
      rewrite decide_False; [done|]. intros ->. apply (Hcout Boot). rewrite HQ. set_solver.
    + destruct (bz_current_state _ _ _ _ _ Hb) as (mask & Hx & Hm). exists mask.
      by rewrite Hst', decide_False, decide_True, Hx.
Qed.

(** ** Timer interrupts *)

Lemma rep_ticks s Q e v : rep s Q e → rep (set_sc_ticks v s) Q (set_sc_ticks v e).
Proof. intros [[Hq Hn Hd] <-]. split; [|done]. by split. Qed.

Lemma rep_balance_tick s Q e v :
  rep s Q e → rep (set_sc_balance_tick v s) Q (set_sc_balance_tick v e).
Proof. intros [[Hq Hn Hd] <-]. split; [|done]. by split. Qed.

Lemma keeps_links_cpu_time (f : thread → Z) :
  (∀ t, f (erase_t t) = f t) → keeps_links (λ t, set_t_cpu_time (f t) t).
Proof. intros Hf t. split_and!; [done..|]. unfold erase_t at 1. simpl. by rewrite Hf. Qed.

Lemma status_cpu_time e c (f : thread → Z) y :
  status (set_sc_threads (alter (λ t, set_t_cpu_time (f t) t) c (sc_threads e)) e) y = status e y.
Proof.
  unfold status. simpl. rewrite lookup_alter. case_decide; [subst|done].
  by destruct (sc_threads e !! y).
Qed.

Lemma wp_wake_sleeping s Q e now q :
  rep s Q e → get_rq (this_rq e) e = Some q →
  wp (wake_sleeping_threads_locked now) (λ _ s',
    rep s' Q (set_sc_threads (wake_all now (Q (this_rq e)) (sc_threads e)) e)) s.
Proof.
  intros Hrep Hqe. destruct (rep_rq_inv _ _ _ _ _ Hrep Hqe) as (qc & Hq & _).
  rewrite <-(rep_this _ _ _ Hrep) in *. pose proof (qs_queue _ _ (proj1 Hrep) _ _ Hq) as HL.
  unfold wake_sleeping_threads_locked, queue_fuel. wp_steps. eapply wp_rd_rq; [done|]. wp_steps.
  rewrite (qo_head _ _ _ HL).
  eapply wp_mono; [eapply wp_wake_from; [done|apply HL|by eapply queue_length]|].
  by intros [] s' (? & _).
Qed.

Lemma wp_balance_single s : sc_smp_init_done s = false → wp sched_balance_load (λ _ s', s' = s) s.
Proof. intros Hs. unfold sched_balance_load. wp_steps. rewrite Hs. simpl. by wp_steps. Qed.

(** sched_tick up to the decision to preempt. *)
Definition preempt r (current : option Z) : SM unit :=
  q ← rd_rq r;
  match current with
  | None => mret tt
  | Some c =>
      t ← rd_thread c;
      if (rq_slice q =? 0) && bool_decide (t_state t = THREAD_RUNNING) then
        upd_rq r (set_rq_slice TIME_SLICE_TICKS) ;; sched_reschedule
      else mret tt
  end.

Lemma busy_concrete s Q e L c v :
  rep s Q e → busy Q e L c v →
  this_rq s = Boot ∧ sc_running s = true ∧ sc_smp_init_done s = false ∧
  rq_current (sc_boot s) = Some c ∧ rq_slice (sc_boot s) = v.
Proof.
  intros Hrep Hb. rewrite (rep_this _ _ _ Hrep). destruct (busy_this _ _ _ _ _ Hb) as [-> _].
  destruct Hb as [? ? _ _ ? ? _ _]. destruct Hrep as [_ <-]. done.
Qed.

Lemma busy_same Q e L c v e' :
  busy Q e L c v → sc_smp_init_done e' = sc_smp_init_done e → sc_running e' = sc_running e →
  sc_boot e' = sc_boot e → (∀ x, status e' x = status e x) → busy Q e' L c v.
Proof.
  intros Hb H1 H2 H3 Hst. eapply busy_mono; [done|right|rewrite H3|done].
  - rewrite H1, H2. split; apply Hb.
  - rewrite <-(bz_slice _ _ _ _ _ Hb). by destruct (sc_boot e).
Qed.

Lemma wp_tick_slice s Q e L c v :
  rep s Q e → busy Q e L c v → 0 ≤ v < 2 ^ 32 →
  wp (if 0 <? v then upd_rq Boot (set_rq_slice (v -u32 1)) else mret tt) (λ _ s',
    ∃ e', rep s' Q e' ∧ busy Q e' L c (Z.max 0 (v - 1))) s.
Proof.
  intros Hrep Hb Hv. destruct (Z.ltb_spec 0 v) as [Hlt|Hge].
  - eapply wp_upd_rq; [done|]. eexists. split; [by eapply rep_set_rq|].
    eapply busy_mono; [done|right; split; apply Hb| |done].
    rewrite wrap_small, Z.max_r by lia. destruct Hrep as [_ <-]. done.
  - wp_steps. exists e. split; [done|]. by replace (Z.max 0 (v - 1)) with v by lia.
Qed.

Lemma wp_tick_prefix s Q e L c v P :
  rep s Q e → busy Q e L c v → 0 ≤ v < 2 ^ 32 →
  (∀ s' e', rep s' Q e' → busy Q e' L c (Z.max 0 (v - 1)) → wp (preempt Boot (Some c)) P s') →
  wp sched_tick P s.
Proof.
  intros Hrep Hb Hv Hk. destruct (busy_concrete _ _ _ _ _ _ Hrep Hb) as (Hts & Hon & Hsm & Hcs & _).
  destruct (bz_current_state _ _ _ _ _ Hb) as (mc & Hmc & _).
  assert (is_Some (sc_threads e !! c)) as [te Hte] by (apply status_is_Some; eauto).
  unfold sched_tick, thread_current. wp_steps. rewrite Hon. simpl negb. cbv iota.
  wp_steps. rewrite Hts. eapply wp_rd_rq; [done|]. wp_steps. rewrite Hcs.
  eapply wp_mono; [eapply wp_upd_data; [done|by apply keeps_links_cpu_time|done]|].
  intros [] s1 Hrep1. cbv beta in Hrep1.
  pose proof (busy_same _ _ _ _ _ (set_sc_threads _ e) Hb eq_refl eq_refl eq_refl
    (status_cpu_time e c (λ t, t_cpu_time t +u64 1))) as Hb1.
  destruct (busy_concrete _ _ _ _ _ _ Hrep1 Hb1) as (_ & _ & _ & _ & Hsl1).
  wp_steps. eapply wp_rd_rq; [done|]. rewrite Hsl1. wp_steps.
  eapply wp_mono; [by eapply wp_tick_slice|]. intros [] s2 (e2 & Hrep2 & Hb2).
  wp_steps. eapply wp_mono; [eapply wp_wake_sleeping; [done|]|].
  { destruct (busy_this _ _ _ _ _ Hb2) as [-> _]. done. }
  intros [] s3 Hrep3. cbv beta in Hrep3.
  pose proof (busy_same _ _ _ _ _ (set_sc_threads _ e2) Hb2 eq_refl eq_refl eq_refl
    (λ y, status_wake_all (sc_ticks s) _ _ _ _ _ y Hb2)) as Hb3.
  destruct (busy_concrete _ _ _ _ _ _ Hrep3 Hb3) as (_ & _ & Hsm3 & _).
  wp_steps. destruct (100 <=? _).
  - wp_steps. eapply wp_mono; [by apply wp_balance_single|]. intros [] ? ->.
    eapply Hk; [by apply rep_balance_tick|]. by eapply busy_same.
  - wp_steps. eapply Hk; [by apply rep_balance_tick|]. by eapply busy_same.
Qed.

Lemma wp_preempt_not_yet s Q e L c v :
  rep s Q e → busy Q e L c v → 0 < v →
  wp (preempt Boot (Some c)) (λ _ s', rep s' Q e) s.
Proof.
  intros Hrep Hb Hv. destruct (busy_concrete _ _ _ _ _ _ Hrep Hb) as (_ & _ & _ & _ & Hsl).
  destruct (bz_current_state _ _ _ _ _ Hb) as (mc & Hmc & _).
  assert (is_Some (sc_threads e !! c)) as [te Hte] by (apply status_is_Some; eauto).
  destruct (rep_thread _ _ _ _ _ Hrep Hte) as (t & Ht & _).
  unfold preempt. wp_steps. eapply wp_rd_rq; [done|]. wp_steps. eapply wp_rd_thread; [done|].
  rewrite Hsl. replace (v =? 0) with false by lia. by wp_steps.
Qed.

Lemma wp_preempt s Q e L c x :
  rep s Q e → busy Q e (x :: L) c 0 →
  wp (preempt Boot (Some c)) (λ _ s',
    ∃ Q' e', rep s' Q' e' ∧ busy Q' e' (L ++ [c]) x TIME_SLICE_TICKS) s.
Proof.
  intros Hrep Hb. destruct (busy_concrete _ _ _ _ _ _ Hrep Hb) as (_ & _ & _ & _ & Hsl).
  destruct (bz_current_state _ _ _ _ _ Hb) as (mc & Hmc & _). unfold status in Hmc.
  destruct (sc_threads e !! c) as [te|] eqn:Hte; [|done]. injection Hmc as Hst _.
  destruct (rep_thread _ _ _ _ _ Hrep Hte) as (t & Ht & Et).
  unfold preempt. wp_steps. eapply wp_rd_rq; [done|]. wp_steps. eapply wp_rd_thread; [done|].
  rewrite Hsl. rewrite bool_decide_true by (by rewrite <-Hst, <-Et). simpl. wp_steps.
  eapply wp_upd_rq; [done|].
  assert (rep (set_rq Boot (set_rq_slice TIME_SLICE_TICKS (sc_boot s)) s) Q
    (set_rq Boot (set_rq_slice TIME_SLICE_TICKS (erase_q (sc_boot s))) e)) as Hrep1.
  { by apply (rep_set_rq _ _ _ Boot (sc_boot s)). }
  assert (busy Q (set_rq Boot (set_rq_slice TIME_SLICE_TICKS (erase_q (sc_boot s))) e) (x :: L) c
    TIME_SLICE_TICKS) as Hb1.
  { eapply busy_mono; [done|right; split; apply Hb| |done]. by destruct Hrep as [_ <-]. }
  destruct (resched_busy _ _ _ _ _ _ _ Hrep1 Hb1) as (Q' & e' & Hre & Hb').
  eapply wp_mono; [eapply wp_sched_reschedule; [exact Hrep1|exact Hre|]|].
  - intros q c1 Hq Hc1. destruct (run_current _ _ (bz_running _ _ _ _ _ Hb1))
      as (q2 & c2 & i & Hq2 & Hc2 & Hout & _). by simplify_eq.
  - intros [] s' Hrep'. eauto.
Qed.

Fixpoint interrupts (k : nat) : SM unit :=
  match k with O => mret tt | S k' => pit_handler true ;; interrupts k' end.

Lemma wp_interrupt s Q e L c v P :
  rep s Q e → busy Q e L c v → 0 ≤ v < 2 ^ 32 →
  (∀ s' e', rep s' Q e' → busy Q e' L c (Z.max 0 (v - 1)) → wp (preempt Boot (Some c)) P s') →
  wp (pit_handler true) P s.
Proof.
  intros Hrep Hb Hv Hk. unfold pit_handler. wp_steps.
  eapply wp_tick_prefix; [by apply rep_ticks| |done|done]. by eapply busy_same.
Qed.

Lemma wp_slice v s Q e L c x (P : unit → sched → Prop) k :
  rep s Q e → busy Q e (x :: L) c (Z.of_nat (S v)) → Z.of_nat (S v) < 2 ^ 32 →
  (∀ s' Q' e', rep s' Q' e' → busy Q' e' (L ++ [c]) x TIME_SLICE_TICKS → wp (interrupts k) P s') →
  wp (interrupts (S v + k)) P s.
Proof.
  revert s e. induction v as [|v IH]; intros s e Hrep Hb Hv Hk; simpl; apply wp_bind;
    (eapply wp_interrupt; [done|done|lia|]); intros s1 e1 Hrep1 Hb1.
  - eapply wp_mono; [by eapply wp_preempt|]. intros [] s2 (Q' & e' & ? & ?). eauto.
  - replace (Z.max 0 (Z.of_nat (S (S v)) - 1)) with (Z.of_nat (S v)) in Hb1 by lia.
    eapply wp_mono; [eapply wp_preempt_not_yet; [done..|lia]|]. intros [] s2 Hrep2.
    eapply (IH s2 e1); [done|done|lia|done].
Qed.

(** C9. Every waiting thread gets the processor. *)
Theorem sched_round_robin k s Q e L c v x :
  rep s Q e → busy Q e L c v → 1 ≤ v ≤ TIME_SLICE_TICKS → L !! k = Some x →
  wp (interrupts (Z.to_nat v + 10 * k)) (λ _ s', rq_current (sc_boot s') = Some x) s.
Proof.
  revert s Q e L c v. induction k as [|k IH]; intros s Q e L c v Hrep Hb Hv HL;
    (destruct L as [|y L]; [done|]); destruct (Z.to_nat v) as [|n] eqn:Hn; try lia;
    assert (v = Z.of_nat (S n)) as -> by lia; unfold TIME_SLICE_TICKS in Hv.
  - simplify_eq/=. eapply (wp_slice _ _ _ _ _ _ _ _ 0); [done|done|lia|].
    intros s' Q' e' Hrep' Hb'. apply wp_ret. by eapply busy_concrete.
  - replace (S n + 10 * S k)%nat with (S n + (Z.to_nat TIME_SLICE_TICKS + 10 * k))%nat
      by (unfold TIME_SLICE_TICKS; lia).
    eapply wp_slice; [done|done|lia|]. intros s' Q' e' Hrep' Hb'.
    eapply IH; [done|done|done|]. simpl in HL. by apply lookup_app_l_Some.
Qed.
End live.

(** * The scheduler: unblocking a thread that is still queued

    sched_reschedule leaves a thread that blocks in the run queue, and
    thread_unblock adds it to the queue once more.  This part shows what the
    queue is afterwards: the threads behind the unblocked one are no longer
    reached from its head, and when there are none the list closes on itself,
    so that the loops over it do not end. *)

Implicit Types (s e : sched) (m : gmap Z thread) (q : runq) (r : rqref) (x y z : Z) (t : thread)
  (L A B : list Z) (Q : rqref → list Z) (p : option Z).

(** ** Following the [next] pointers *)

(** From [p], the pointers lead through the threads [L] to [p']. *)
Fixpoint chain m p L p' : Prop :=
  match L with
  | [] => p = p'
  | y :: L' => p = Some y ∧ ∃ t, m !! y = Some t ∧ chain m (t_next t) L' p'
  end.

Lemma chain_app m p A B p' p'' : chain m p A p' → chain m p' B p'' → chain m p (A ++ B) p''.
Proof.
  revert p. induction A as [|y A IH]; intros p; simpl; [by intros ->|].
  intros (-> & t & Ht & HA) HB. eauto.
Qed.

Lemma chain_ext m m' p L p' :
  (∀ y, y ∈ L → t_next <$> m' !! y = t_next <$> m !! y) → chain m p L p' → chain m' p L p'.
Proof.
  revert p. induction L as [|y L IH]; intros p Hm; simpl; [done|].
  intros (-> & t & Ht & HL). split; [done|]. specialize (Hm y ltac:(set_solver)) as Hy.
  rewrite Ht in Hy. destruct (m' !! y) as [t'|]; [|done]. injection Hy as Hy.
  exists t'. split; [done|]. rewrite Hy. apply IH; [|done]. intros z Hz. apply Hm. set_solver.
Qed.

Lemma chain_dlseg m pr L nx : dlseg (tlinks m) pr L nx → chain m (or_else (head L) nx) L nx.
Proof.
  revert pr. induction L as [|y L IH]; intros pr; simpl; [done|]. intros [Hy HL].
  unfold tlinks in Hy. destruct (m !! y) as [t|]; [|done]. injection Hy as _ Hn.
  split; [done|]. exists t. split; [done|]. rewrite Hn. by eapply IH.
Qed.

(** ** thread_unblock *)

(** The threads after queue_add_locked was called on the thread [x] with the
    tail [z]. *)
Definition added x z m : gmap Z thread :=
  alter (set_t_next (Some x)) z
    (alter (λ t, set_t_prev (Some z) (set_t_next None (set_t_state THREAD_READY t))) x
       (alter (set_t_state THREAD_READY) x m)).

Lemma added_next_ne x z m y : y ≠ x → y ≠ z → t_next <$> added x z m !! y = t_next <$> m !! y.
Proof. intros. unfold added. by rewrite !lookup_alter_ne. Qed.

Lemma added_next_x x z m :
  is_Some (m !! x) → t_next <$> added x z m !! x = Some (if decide (z = x) then Some x else None).
Proof.
  intros [t Ht]. unfold added. case_decide as Hzx.
  - subst z. by rewrite !lookup_alter_eq, Ht.
  - rewrite lookup_alter_ne by done. by rewrite !lookup_alter_eq, Ht.
Qed.

Lemma wp_thread_unblock s q x z t :
  get_rq (this_rq s) s = Some q → rq_tail q = Some z → is_Some (sc_threads s !! z) →
  sc_threads s !! x = Some t → t_state t = THREAD_BLOCKED →
  wp (thread_unblock (Some x)) (λ _ s',
    s' = set_rq (this_rq s) (set_rq_tail (Some x) q)
           (set_sc_threads (added x z (sc_threads s)) s)) s.
Proof.
  intros Hq Hz Hzex Hx Hst. unfold thread_unblock, sched_ready. wp_steps.
  eapply wp_rd_thread; [done|]. rewrite bool_decide_true by done. wp_steps.
  apply wp_upd_thread; [eauto|]. wp_steps. eapply wp_rd_thread.
  { simpl. by rewrite lookup_alter_eq, Hx. }
  simpl. unfold queue_add_locked. wp_steps. eapply wp_rd_rq; [by rewrite get_rq_threads|]. wp_steps.
  apply wp_upd_thread; [simpl; by rewrite lookup_alter_eq, Hx; eauto|]. rewrite Hz.
  wp_steps. apply wp_upd_thread; [by simpl; rewrite !lookup_alter_is_Some|].
  eapply wp_upd_rq; [by rewrite !get_rq_threads|]. done.
Qed.

(** What thread_unblock does to the queue of a thread that blocked. *)
Lemma unblock_chain s Q e q A x B t :
  rep s Q e → get_rq (this_rq s) s = Some q → Q (this_rq s) = A ++ x :: B →
  sc_threads s !! x = Some t → t_state t = THREAD_BLOCKED →
  wp (thread_unblock (Some x)) (λ _ s', ∃ q', get_rq (this_rq s') s' = Some q' ∧
    chain (sc_threads s') (rq_head q') (A ++ [x])
      (match B with [] => Some x | _ => None end)) s.
Proof.
  intros Hrep Hq HQ Hx Hst. pose proof (qs_queue _ _ (proj1 Hrep) _ _ Hq) as HL. rewrite HQ in HL.
  assert (∃ z, last (A ++ x :: B) = Some z ∧ z = default x (last B)) as (z & Hz & Ez).
  { rewrite last_app. simpl. exists (default x (last B)). rewrite last_cons. by destruct (last B). }
  assert (z ∈ x :: B) as HzB.
  { subst z. destruct (last B) as [b|] eqn:Hb; simpl; [apply last_Some_elem_of in Hb|]; set_solver. }
  pose proof (qo_nodup _ _ _ HL) as (_ & Hdis & HndB)%NoDup_app.
  eapply wp_mono; [eapply wp_thread_unblock; [done|by rewrite (qo_tail _ _ _ HL)| |done|done]|].
  { eapply queue_ok_exists; [exact HL|]. set_solver. }
  intros [] s' ->. rewrite this_rq_set. change (this_rq (set_sc_threads _ s)) with (this_rq s).
  eexists. split; [apply get_set_rq; rewrite get_rq_threads; eauto|].
  rewrite set_rq_threads. simpl. rewrite (qo_head _ _ _ HL), head_app_or_else.
  destruct (proj1 (dlseg_app _ _ _ _ _) (qo_links _ _ _ HL)) as [HA _]. simpl in HA.
  apply (chain_app _ _ _ _ (Some x)).
  - simpl. eapply chain_ext; [|by eapply chain_dlseg]. intros y Hy. apply added_next_ne.
    + intros ->. apply (Hdis x Hy). set_solver.
    + intros ->. by apply (Hdis z Hy).
  - split; [done|]. pose proof (added_next_x x z (sc_threads s) ltac:(eauto)) as Hn.
    destruct (added x z (sc_threads s) !! x) as [t'|]; [|done]. injection Hn as Hn.
    exists t'. split; [done|]. simpl. rewrite Hn. destruct B as [|b B].
    + subst z. by rewrite decide_True.
    + rewrite decide_False; [done|]. apply NoDup_cons in HndB as [HxB _]. intros Hzx. apply HxB.
      rewrite last_cons in Ez. destruct (last B) as [b'|] eqn:Hb'; simpl in Ez; [|set_solver].
      apply last_Some_elem_of in Hb'. set_solver.
Qed.

(** Threads behind the unblocked one are dropped from the queue. *)
Theorem thread_unblock_drops_queue s Q e q A x b B t :
  rep s Q e → get_rq (this_rq s) s = Some q → Q (this_rq s) = A ++ x :: b :: B →
  sc_threads s !! x = Some t → t_state t = THREAD_BLOCKED →
  wp (thread_unblock (Some x)) (λ _ s', ∃ q', get_rq (this_rq s') s' = Some q' ∧
    chain (sc_threads s') (rq_head q') (A ++ [x]) None ∧ b ∉ A ++ [x]) s.
Proof.
  intros Hrep Hq HQ Hx Hst. eapply wp_mono; [by eapply unblock_chain|].
  intros [] s' (q' & Hq' & Hch). exists q'. split_and!; [done|done|].
  pose proof (qo_nodup _ _ _ (qs_queue _ _ (proj1 Hrep) _ _ Hq)) as Hnd. rewrite HQ in Hnd.
  apply NoDup_app in Hnd as (_ & Hdis & [Hxb _]%NoDup_cons).
  rewrite elem_of_app, list_elem_of_singleton. intros [Hb| ->]; [|set_solver].
  apply (Hdis b Hb). set_solver.
Qed.

(** ** Walks that do not end *)

Lemma wake_keeps_next now y m z : t_next <$> alter (wake now) y m !! z = t_next <$> m !! z.
Proof.
  rewrite lookup_alter. case_decide; [subst|done]. destruct (m !! z) as [t|]; [|done]. simpl.
  f_equal. apply keeps_links_wake.
Qed.

Lemma wake_from_cycle fuel now s A x p :
  chain (sc_threads s) p (A ++ [x]) (Some x) → wake_from fuel now p s = None.
Proof.
  revert s A p. induction fuel as [|fuel IH]; intros s A p Hch.
  { destruct A; by destruct Hch as (-> & _). }
  assert (∃ y t B, p = Some y ∧ sc_threads s !! y = Some t ∧
    chain (sc_threads s) (t_next t) (B ++ [x]) (Some x)) as (y & t & B & -> & Ht & HB).
  { destruct A as [|y A]; destruct Hch as (-> & t & Ht & HA); eexists _, t.
    - exists []. split_and!; [done..|]. simpl in HA. rewrite HA. simpl. eauto.
    - eauto. }
  simpl. unfold upd_thread, rd_thread, mbind, M_bind, lift, get, modify. rewrite Ht. simpl.
  rewrite lookup_insert_eq. destruct (keeps_links_wake now t) as (-> & _ & _).
  apply (IH _ B). simpl. rewrite (insert_as_alter _ _ _ _ Ht).
  eapply chain_ext; [|done]. intros z _. apply wake_keeps_next.
Qed.

(** With the last thread of the queue unblocked, the next walk never ends. *)
Lemma unblock_last_hangs s Q e q A x t :
  rep s Q e → get_rq (this_rq s) s = Some q → Q (this_rq s) = A ++ [x] →
  sc_threads s !! x = Some t → t_state t = THREAD_BLOCKED →
  wp (thread_unblock (Some x)) (λ _ s', ∃ q', get_rq (this_rq s') s' = Some q' ∧
    ∀ fuel now, wake_from fuel now (rq_head q') s' = None) s.
Proof.
  intros Hrep Hq HQ Hx Hst.
  eapply wp_mono; [by eapply unblock_chain|]. intros [] s' (q' & Hq' & Hch).
  exists q'. split; [done|]. intros fuel now. by eapply wake_from_cycle.
Qed.

(** ** Blocking and unblocking *)

Section block.
Context `{Code}.

Lemma running_mono Q e e' :
  running Q e → same_cpu e e' → (∀ r, get_rq r e' = get_rq r e) →
  (∀ x, is_Some (sc_threads e !! x) → is_Some (sc_threads e' !! x)) → running Q e'.
Proof.
  intros [Hcpu Hqd (q & c & i & Hq & Hc & [Hex Hout] & Hi & Hie & Hio)] Hsame Hrq Hdom.
  destruct (same_cpu_rq _ _ Hsame) as [Hr Hcp]. split.
  - by rewrite Hcp.
  - intros r x Hx. by eapply Hdom, Hqd.
  - rewrite Hr. exists q, c, i. rewrite Hrq. split_and!; [done|done| |done|by apply Hdom|done].
    split; [by apply Hdom|done].
Qed.

Lemma lockstep_cli : lockstep cli.
Proof. unfold cli. eauto with lockstep. Qed.

Lemma choose_ne Q e q bit n c i :
  choose Q e q bit = Some n → (∀ r, c ∉ Q r) → rq_idle q = Some i → i ≠ c → n ≠ c.
Proof.
  unfold choose. intros Hn Hout Hi Hic ->. destruct (first_runnable _ _ _) as [x|] eqn:Hf.
  - simpl in Hn. simplify_eq. apply first_runnable_Some in Hf as [Hx _]. by apply (Hout (this_rq e)).
  - simpl in Hn. congruence.
Qed.

Lemma without_last n c L : n ≠ c → without n (L ++ [c]) = without n L ++ [c].
Proof.
  intros Hne. unfold without. rewrite filter_app. f_equal. rewrite filter_cons, filter_nil.
  by rewrite decide_True by congruence.
Qed.

(** Scheduling away from a blocked thread. *)
Lemma wp_resched_blocked s Q e q c i tc :
  rep s Q e → running Q e → get_rq (this_rq e) e = Some q →
  rq_current q = Some c → rq_idle q = Some i → i ≠ c →
  sc_threads e !! c = Some tc → t_state tc = THREAD_BLOCKED →
  wp sched_reschedule (λ _ s', ∃ A Q' e', rep s' Q' e' ∧ this_rq e' = this_rq e ∧
    Q' (this_rq e) = A ++ [c] ∧ is_Some (get_rq (this_rq e) e') ∧
    ∃ mask, status e' c = Some (THREAD_BLOCKED, mask)) s.
Proof.
  intros Hrep Hrun Hq Hc Hi Hic Htc Hst. destruct (run_cpu _ _ Hrun) as [bit Hbit].
  destruct (run_current _ _ Hrun) as (q' & c' & i' & Hq' & Hc' & [Hex Hout] & _). simplify_eq.
  destruct (choose_ok s Q e q bit) as (n & Hn & Hnex & _); [done..|].
  assert (n ≠ c) as Hnc by by eapply choose_ne.
  assert (sc_threads (woken Q e) !! c = Some tc) as Hwc.
  { simpl. rewrite wake_all_lookup, decide_False by done. done. }
  assert (stop_current (Some c) (Q (this_rq e)) (woken Q e) = (Q (this_rq e) ++ [c], woken Q e)) as Hstop.
  { unfold stop_current. rewrite Hwc. simpl. by rewrite Hst. }
  destruct (resched_other Q e q c bit n) as (e' & Hre & Hsame & Hq' & _ & Hstat); [done..|].
  cbv zeta in Hre, Hstat. rewrite Hstop in Hre, Hstat. cbn [fst snd] in Hre, Hstat.
  destruct (same_cpu_rq _ _ Hsame) as [Hr _].
  eapply wp_mono; [eapply wp_sched_reschedule; [done|exact Hre|]|].
  { intros q1 c1 Hq1 Hc1. simplify_eq. by split. }
  intros [] s' Hrep'. eexists (without n (Q (this_rq e))), _, e'.
  split; [exact Hrep'|]. split; [done|]. split; [|split; [eauto|]].
  - rewrite fn_lookup_insert. by apply without_last.
  - exists (t_cpu_mask tc). rewrite Hstat, status_set_state, decide_False by done.
    unfold status. rewrite Hwc. simpl. by rewrite Hst.
Qed.

(** What thread_block leaves: the thread is the last of the queue, and blocked. *)
Lemma wp_thread_block s Q e q c i :
  rep s Q e → running Q e → get_rq (this_rq e) e = Some q →
  rq_current q = Some c → rq_idle q = Some i → i ≠ c →
  wp thread_block (λ _ s', ∃ A Q' e', rep s' Q' e' ∧ this_rq e' = this_rq e ∧
    Q' (this_rq e) = A ++ [c] ∧ is_Some (get_rq (this_rq e) e') ∧
    ∃ mask, status e' c = Some (THREAD_BLOCKED, mask)) s.
Proof.
  intros Hrep Hrun Hq Hc Hi Hic. unfold thread_block, thread_current. wp_steps.
  destruct (cli e) as [[[] e1]|] eqn:He1; [|done].
  eapply wp_mono; [by eapply wp_lockstep; [apply lockstep_cli|..]|]. intros [] s1 [_ Hrep1].
  injection He1 as <-. set (e1 := set_sc_machine _ _ e) in Hrep1.
  destruct (rep_rq_inv _ _ _ (this_rq e1) q Hrep1 Hq) as (qc & Hqc & Eq).
  wp_steps. eapply wp_rd_rq; [by rewrite (rep_this _ _ _ Hrep1)|]. wp_steps.
  eapply wp_lift; [change (rq_current qc) with (rq_current (erase_q qc)); by rewrite Eq|]. wp_steps.
  destruct (run_current _ _ Hrun) as (q' & c' & i' & Hq' & Hc' & [[tc Htc] Hout] & _).
  simplify_eq. eapply wp_mono; [eapply (wp_upd_data _ _ e1); [done|done|exact Htc]|].
  intros [] s2 Hrep2. cbv beta in Hrep2.
  eapply wp_mono; [eapply (wp_resched_blocked s2 Q (set_state c THREAD_BLOCKED e1)); [exact Hrep2| |exact Hq|done|done|done| |]|].
  - eapply running_mono; [exact Hrun|done|intros r; by destruct r|].
    intros x Hx. by apply lookup_alter_is_Some.
  - simpl. by rewrite lookup_alter_eq, Htc.
  - done.
  - done.
Qed.

(** A thread that blocks and is unblocked by the next one closes the queue on itself. *)
Theorem block_unblock_hangs s Q e q c i :
  rep s Q e → running Q e → get_rq (this_rq e) e = Some q →
  rq_current q = Some c → rq_idle q = Some i → i ≠ c →
  wp (thread_block ;; thread_unblock (Some c)) (λ _ s', ∃ q', get_rq (this_rq s') s' = Some q' ∧
    ∀ fuel now, wake_from fuel now (rq_head q') s' = None) s.
Proof.
  intros Hrep Hrun Hq Hc Hi Hic. apply wp_bind. eapply wp_mono; [by eapply wp_thread_block|].
  intros [] s1 (A & Q' & e' & Hrep' & Hr & HQ' & [q1 Hq1] & mask & Hst). rewrite <-Hr in HQ', Hq1.
  destruct (rep_rq_inv _ _ _ _ _ Hrep' Hq1) as (q1c & Hq1c & _).
  rewrite <-(rep_this _ _ _ Hrep') in *. unfold status in Hst.
  destruct (sc_threads e' !! c) as [te|] eqn:Hte; [|done]. injection Hst as Hst _.
  destruct (rep_thread _ _ _ _ _ Hrep' Hte) as (t & Ht & Et).
  eapply unblock_last_hangs; [done|done|done|done|]. by rewrite <-Hst, <-Et.
Qed.
End block.
