(* ===== verification/SchedBalance.v ===== *)
(** * The scheduler: balancing the queues of several processors (sched/sched.c)

    sched_balance_load moves at most one thread from one queue to another: no
    thread is lost and none is in two queues.  The loads it compares, however,
    never include those of the first processor when another one runs it. *)

From stdpp Require Import functions.
From S2P Require Import Prelude DList KHeap Sched SchedQueue SchedThm.

Implicit Types (s e : sched) (m : gmap Z thread) (q : runq) (r b i : rqref) (x y : Z) (t : thread)
  (L A B : list Z) (Q : rqref → list Z) (l : loads).

(** ** Loads *)

Definition ready_count m L : Z :=
  Z.of_nat (length (List.filter (λ y, from_option (λ t, bool_decide (t_state t = THREAD_READY)) false
    (m !! y)) L)).

Lemma ready_count_bound m L : 0 ≤ ready_count m L ≤ Z.of_nat (length L).
Proof. unfold ready_count. pose proof (List.filter_length_le (λ y, from_option
  (λ t, bool_decide (t_state t = THREAD_READY)) false (m !! y)) L). lia. Qed.

Lemma ready_count_cons m y L t :
  m !! y = Some t →
  ready_count m (y :: L) =
    ready_count m L + (if bool_decide (t_state t = THREAD_READY) then 1 else 0).
Proof.
  intros Ht. unfold ready_count. cbn [List.filter]. rewrite Ht.
  cbn [from_option]. case_bool_decide; cbn [length]; lia.
Qed.

Lemma wp_count_ready s fuel pr L count :
  dlseg (tlinks (sc_threads s)) pr L None → (length L ≤ fuel)%nat →
  0 ≤ count → count + Z.of_nat (length L) < 2 ^ 32 →
  wp (count_ready fuel (head L) count)
    (λ c s', c = count + ready_count (sc_threads s) L ∧ s' = s) s.
Proof.
  revert pr fuel count. induction L as [|y L IH]; intros pr fuel count HL Hf H0 Hc.
  { destruct fuel; apply wp_ret; (split; [|done]); unfold ready_count; simpl; lia. }
  destruct fuel as [|fuel]; [simpl in Hf; lia|]. cbn [count_ready head].
  destruct (dlseg_thread _ _ _ _ HL) as (t & Ht & Hn & HL'). wp_steps. eapply wp_rd_thread; [done|].
  rewrite Hn, (ready_count_cons _ _ _ _ Ht). simpl length in Hf, Hc. case_bool_decide.
  - rewrite wrap_small by lia. eapply wp_mono; [eapply IH; [done|lia..]|].
    intros c s' [-> ->]. split; [lia|done].
  - eapply wp_mono; [eapply IH; [done|lia..]|]. intros c s' [-> ->]. split; [lia|done].
Qed.

(** The queue whose length sched_queue_length gives. *)
Definition measured s (cpu : Z) : rqref := if cpu =? 0 then Cpu (sc_cpu s) else Cpu cpu.

(** What sched_balance_load needs: processors are started, this one has its data,
    there is a place for every processor in the table and a bit in the masks. *)
Record smp_ok s : Prop := SmpOk {
  sm_on : sc_smp_init_done s = true;
  sm_table : alen (sc_percpu s) = MAX_CPUS;
  sm_this : is_Some (get_rq (Cpu (sc_cpu s)) s);
  sm_count : 0 ≤ sc_num_cpus_online s ≤ 32;
  sm_threads : Z.of_nat (size (sc_threads s)) < 2 ^ 32 - 2 }.

Lemma queue_small s Q e r q :
  rep s Q e → smp_ok s → get_rq r s = Some q → Z.of_nat (length (Q r)) < 2 ^ 32 - 1.
Proof.
  intros Hrep Hs Hq. pose proof (queue_length _ _ _ (qs_queue _ _ (proj1 Hrep) _ _ Hq)).
  pose proof (sm_threads _ Hs). lia.
Qed.

Lemma wp_sched_queue_length s Q e cpu :
  rep s Q e → smp_ok s →
  wp (sched_queue_length cpu) (λ n s', s' = s ∧ 0 ≤ n < 2 ^ 32 - 1 ∧
    n = ready_count (sc_threads s) (Q (measured s cpu))) s.
Proof.
  intros Hrep Hs. unfold sched_queue_length, queue_fuel. wp_steps. rewrite (sm_on _ Hs).
  cbn [negb]. cbv iota.
  assert (∀ r, is_Some (get_rq r s) →
    wp (q ← rd_rq r; count_ready (S (size (sc_threads s))) (rq_head q) 0) (λ n s', s' = s ∧
      0 ≤ n < 2 ^ 32 - 1 ∧ n = ready_count (sc_threads s) (Q r)) s) as Hcount.
  { intros r [q Hq]. pose proof (qs_queue _ _ (proj1 Hrep) _ _ Hq) as HL.
    pose proof (queue_small _ _ _ _ _ Hrep Hs Hq) as Hsz.
    pose proof (ready_count_bound (sc_threads s) (Q r)).
    wp_steps. eapply wp_rd_rq; [done|]. rewrite (qo_head _ _ _ HL).
    eapply wp_mono; [eapply wp_count_ready; [apply HL|by eapply queue_length|lia|lia]|].
    intros c s' [-> ->]. split_and!; [done|lia..]. }
  unfold measured, percpu_get_cpu. destruct (cpu =? 0) eqn:Hcpu; wp_steps;
    [exact (wp_bind_inv _ _ _ _ (Hcount _ (sm_this _ Hs)))|].
  assert (get_rq (Cpu cpu) s = None → ready_count (sc_threads s) (Q (Cpu cpu)) = 0) as Hnone.
  { intros Hn. by rewrite (qs_none _ _ (proj1 Hrep) _ Hn). }
  destruct (Z.leb_spec MAX_CPUS cpu) as [Hge|Hlt]; wp_steps.
  - rewrite Hnone; [done|]. unfold get_rq. rewrite aget_out; [done|]. right. by rewrite sm_table.
  - destruct (get_rq (Cpu cpu) s) as [q|] eqn:Hq;
      [wp_steps; exact (wp_bind_inv _ _ _ _ (Hcount _ (mk_is_Some _ _ Hq)))|]. wp_steps. by rewrite Hnone.
Qed.

(** The loads seen up to a processor: the greatest is that of the busiest, the
    least that of the idlest. *)
Definition seen s Q (k : Z) l : Prop :=
  let load c := ready_count (sc_threads s) (Q (measured s c)) in
  0 ≤ ld_max l < 2 ^ 32 - 1 ∧ 0 ≤ ld_min l ≤ ld_max l ∧
  0 ≤ ld_busiest l < k ∧ 0 ≤ ld_idlest l < k ∧
  (0 < ld_max l → ld_max l = load (ld_busiest l)) ∧ ld_min l = load (ld_idlest l).

Lemma see_load_seen s Q k l load :
  0 < k → seen s Q k l → load = ready_count (sc_threads s) (Q (measured s k)) → load < 2 ^ 32 - 1 →
  seen s Q (k + 1) (see_load k load l).
Proof.
  intros Hk (Hmax & Hmin & Hb & Hi & Hbl & Hil) -> Hlt. pose proof (ready_count_bound (sc_threads s)
    (Q (measured s k))). unfold see_load, seen.
  destruct (Z.ltb_spec (ld_max l) (ready_count (sc_threads s) (Q (measured s k)))); simpl;
    destruct (Z.ltb_spec (ready_count (sc_threads s) (Q (measured s k))) (ld_min l)); simpl;
    split_and!; try done; try lia; intros; apply Hbl; lia.
Qed.

Lemma wp_scan_loads s Q e n k l :
  rep s Q e → smp_ok s → 0 < k → seen s Q k l →
  wp (scan_loads n k l) (λ l' s', s' = s ∧ seen s Q (k + Z.of_nat n) l') s.
Proof.
  intros Hrep Hs. revert k l. induction n as [|n IH]; intros k l Hk Hl; cbn [scan_loads].
  - wp_steps. split; [done|]. by replace (k + Z.of_nat 0) with k by lia.
  - wp_steps. eapply wp_mono; [by eapply wp_sched_queue_length|]. intros load ? (-> & Hld & El).
    eapply wp_mono; [apply IH; [lia|]|].
    + apply see_load_seen; [lia|done|done|lia].
    + intros l' s' [-> Hl']. split; [done|]. by replace (k + Z.of_nat (S n)) with (k + 1 + Z.of_nat n) by lia.
Qed.

Lemma seen_first s Q load :
  load = ready_count (sc_threads s) (Q (measured s 0)) → 0 ≤ load < 2 ^ 32 - 1 →
  seen s Q 1 (see_load 0 load (Loads 0 0xFFFFFFFF 0 0)).
Proof.
  intros El Hld. unfold seen, see_load. simpl.
  destruct (Z.ltb_spec 0 load); simpl; (destruct (Z.ltb_spec load 0xFFFFFFFF); [|lia]); simpl;
    split_and!; try lia; done.
Qed.

(** ** Moving a thread *)

(** Appending a thread that is in no queue, its state as it is. *)
Lemma wp_append s Q e r q x :
  rep s Q e → get_rq r s = Some q → is_Some (sc_threads s !! x) → (∀ r', x ∉ Q r') →
  wp (upd_thread x (λ t, set_t_prev (rq_tail q) (set_t_next None t)) ;;
      match rq_tail q with
      | Some t => upd_thread t (set_t_next (Some x))
      | None => upd_rq r (set_rq_head (Some x))
      end ;;
      upd_rq r (set_rq_tail (Some x)))
    (λ _ s', rep s' (<[r := Q r ++ [x]]> Q) e) s.
Proof.
  intros [Hok <-] Hq Hx Hnin. pose proof (qs_queue _ _ Hok _ _ Hq) as HL.
  set (f := λ t, set_t_prev (rq_tail q) (set_t_next None t)).
  set (m' := link_next (last (Q r)) (Some x) (alter f x (sc_threads s))).
  assert (erase_t <$> m' = erase_t <$> sc_threads s) as Em.
  { unfold m'. rewrite erase_link_next, (erase_alter f id) by done.
    apply map_eq. intros y. rewrite lookup_alter. case_decide as Hxy; [|done]. rewrite <-Hxy.
    by destruct ((erase_t <$> sc_threads s) !! x). }
  assert (rep (set_rq r (set_rq_tail (Some x) (match last (Q r) with
      None => set_rq_head (Some x) q | _ => q end)) (set_sc_threads m' s))
      (<[r := Q r ++ [x]]> Q) (set_sc_threads (erase_t <$> m') (erase s))) as Hrep.
  { eapply rep_relink; [done..| | | |].
    - apply queue_ok_snoc; [done..|]. intros t. split; [apply HL|done].
    - by destruct (last (Q r)).
    - intros y r' Hy Hy'. apply elem_of_app in Hy as [Hy|Hy]; [by eapply qs_disj|].
      apply list_elem_of_singleton in Hy as ->. by destruct (Hnin r').
    - intros r' y Hne Hy. unfold m'. rewrite tlinks_link_next_ne, tlinks_alter_ne; [done| |].
      + intros ->. by apply (Hnin r').
      + intros Hl%last_Some_elem_of. apply Hne. by eapply qs_disj. }
  rewrite Em in Hrep. wp_steps. apply wp_upd_thread; [done|]. fold f. rewrite (qo_tail _ _ _ HL).
  wp_steps. unfold m' in Hrep. destruct (last (Q r)) as [a|] eqn:Ha; simpl in Hrep.
  - apply wp_upd_thread.
    { simpl. rewrite lookup_alter_is_Some. eapply queue_ok_exists; [done|]. by apply last_Some_elem_of. }
    eapply wp_upd_rq; [by rewrite !get_rq_threads|]. exact Hrep.
  - eapply wp_upd_rq; [by rewrite get_rq_threads|].
    eapply wp_upd_rq; [apply get_set_rq; rewrite get_rq_threads; eauto|].
    rewrite set_rq_set. exact Hrep.
Qed.

(** The queues after the move of the thread [x] from [b] to [i]. *)
Definition moved Q b i x : rqref → list Z :=
  <[i := Q i ++ [x]]> (<[b := without x (Q b)]> Q).

Lemma wp_migrate s Q e b i qb qi bit :
  rep s Q e → get_rq b s = Some qb → get_rq i s = Some qi → b ≠ i →
  wp (migrate b i bit) (λ _ s', match first_runnable bit (sc_threads e) (Q b) with
    | Some x => rep s' (moved Q b i x) e
    | None => s' = s
    end) s.
Proof.
  intros Hrep Hb Hi Hne. pose proof (qs_queue _ _ (proj1 Hrep) _ _ Hb) as HL.
  pose proof (proj2 Hrep) as He. unfold migrate, queue_fuel. wp_steps. eapply wp_rd_rq; [done|].
  wp_steps. rewrite (qo_head _ _ _ HL).
  eapply wp_mono; [eapply wp_ready_from; [apply HL|by eapply queue_length]|]. intros o ? [-> ->].
  assert (first_runnable bit (sc_threads e) (Q b) = first_runnable bit (sc_threads s) (Q b)) as ->
    by (rewrite <-He; apply first_runnable_erase).
  destruct (first_runnable bit (sc_threads s) (Q b)) as [x|] eqn:Hf; [|by wp_steps].
  apply first_runnable_Some in Hf as (Hx & t & Ht & _).
  apply list_elem_of_split in Hx as (A & B & HQ). pose proof (qo_nodup _ _ _ HL) as Hnd.
  rewrite HQ in Hnd. wp_steps. eapply wp_mono; [by eapply wp_unlink_thread|].
  intros [] s1 Hrep1. cbv beta in Hrep1.
  pose proof (rep_thread_fwd _ _ _ _ _ Hrep Ht) as Hte.
  destruct (rep_thread _ _ _ _ _ Hrep1 Hte) as (t1 & Ht1 & _).
  destruct (rep_rq_inv _ _ _ _ _ Hrep1 (rep_rq _ _ _ _ _ Hrep Hi)) as (qi1 & Hi1 & _).
  assert (∀ r', x ∉ (<[b := A ++ B]> Q) r') as Hout.
  { intros r. destruct (decide (b = r)) as [<-|Hner].
    - rewrite fn_lookup_insert. by apply nodup_middle.
    - rewrite fn_lookup_insert_ne by done. intros Hx. apply Hner.
      eapply qs_disj; [apply Hrep| |done]. rewrite HQ. set_solver. }
  wp_steps. eapply wp_rd_rq; [done|].
  eapply wp_mono; [eapply wp_append; [done|done|eauto|done]|]. intros [] s2. cbv beta.
  apply rep_ext. intros r. unfold moved. rewrite HQ, without_middle by done.
  destruct (decide (i = r)) as [<-|Hner].
  - rewrite !fn_lookup_insert. by rewrite fn_lookup_insert_ne.
  - by rewrite !(fn_lookup_insert_ne _ i r) by done.
Qed.


Lemma see_load_twice n :
  0 ≤ n < 2 ^ 32 - 1 →
  let l := see_load (0 + 1) n (see_load 0 n (Loads 0 0xFFFFFFFF 0 0)) in ld_max l = ld_min l.
Proof.
  intros Hn. destruct (Z.ltb_spec 0 n) as [Hp|]; [|by assert (n = 0) as -> by lia].
  unfold see_load. cbn [ld_max ld_min]. replace (0 <? n) with true by lia. cbn [ld_max ld_min].
  replace (n <? 0xFFFFFFFF) with true by lia. cbn [ld_max ld_min]. rewrite Z.ltb_irrefl.
  cbn [ld_max ld_min]. by rewrite Z.ltb_irrefl.
Qed.

(** On a machine with two processors the second one never balances. *)
Theorem sched_balance_load_one_way s Q e :
  rep s Q e → smp_ok s → sc_num_cpus_online s = 2 → sc_cpu s = 1 →
  wp sched_balance_load (λ _ s', s' = s) s.
Proof.
  intros Hrep Hs Hn Hc. unfold sched_balance_load. wp_steps. rewrite (sm_on _ Hs), Hn.
  change (negb true || (2 <=? 1)) with false. cbv iota. change (Z.to_nat 2) with 2%nat.
  cbn [scan_loads]. wp_steps. eapply wp_mono; [by eapply wp_sched_queue_length|].
  intros n0 ? (-> & Hn0 & E0). wp_steps. eapply wp_mono; [by eapply wp_sched_queue_length|].
  intros n1 ? (-> & Hn1 & E1). wp_steps. unfold measured in E0, E1. rewrite Hc in E0.
  change (0 =? 0) with true in E0. change (0 + 1 =? 0) with false in E1. cbv iota in E0, E1.
  change (0 + 1) with 1 in E1. rewrite <-E0 in E1. subst n1.
  rewrite see_load_twice by done. rewrite Z.sub_diag. by wp_steps.
Qed.
