(* ===== verification/SchedCreate.v ===== *)
(** * Switching between threads and starting them (sched/context.asm, sched/thread.c)

    What context_switch leaves in the registers and on the stack, that a thread
    switched away from comes back as it was, and how a new thread starts. *)

From stdpp Require Import functions.
From S2P Require Import Prelude DList KHeap Sched SchedQueue SchedThm.

Implicit Types (s : sched) (x : Z) (t : thread) (rg : reg → Z) (w : Z → Z).

(** The stack pointer has room for a saved context above it, and below it. *)
Definition frame_room (rsp : Z) : Prop := 0 ≤ rsp < 2 ^ 64 - 64.
Definition stack_room (rsp : Z) : Prop := 64 ≤ rsp < 2 ^ 64 - 64.

(** What context_switch saves below [rsp]. *)
Definition saved_frame rg w (rsp : Z) : Z → Z :=
  <[rsp - 56 := rg RFLAGS]> (<[rsp - 48 := rg R15]> (<[rsp - 40 := rg R14]> (<[rsp - 32 := rg R13]>
  (<[rsp - 24 := rg R12]> (<[rsp - 16 := rg RBX]> (<[rsp - 8 := rg RBP]> w)))))).

(** The registers it restores from [rsp]. *)
Definition restored rg w (rsp : Z) : Prop :=
  rg RFLAGS = w rsp ∧ rg R15 = w (rsp + 8) ∧ rg R14 = w (rsp + 16) ∧ rg R13 = w (rsp + 24) ∧
  rg R12 = w (rsp + 32) ∧ rg RBX = w (rsp + 40) ∧ rg RBP = w (rsp + 48) ∧
  rg RIP = w (rsp + 56) ∧ rg RSP = rsp + 64.

(** [s'] is [s] with other registers and words. *)
Definition others_same (g : reg) s s' : Prop :=
  sc_threads s' = sc_threads s ∧ ∀ g', g' ≠ RSP → g' ≠ g → sc_regs s' g' = sc_regs s g'.

Lemma wp_push a v (P : unit → sched → Prop) s :
  sc_regs s RSP = a → 8 ≤ a < 2 ^ 64 →
  (∀ s', sc_words s' = <[a - 8 := v]> (sc_words s) → sc_regs s' RSP = a - 8 →
     others_same RSP s s' → P tt s') →
  wp (push v) P s.
Proof.
  intros Ha Hb HP. apply HP; simpl; rewrite Ha, wrap_small by lia; [done|done|].
  split; [done|]. intros g' H1 _. by apply fn_lookup_insert_ne.
Qed.

Lemma wp_push_reg a g (P : unit → sched → Prop) s :
  sc_regs s RSP = a → 8 ≤ a < 2 ^ 64 →
  (∀ s', sc_words s' = <[a - 8 := sc_regs s g]> (sc_words s) → sc_regs s' RSP = a - 8 →
     others_same RSP s s' → P tt s') →
  wp (push_reg g) P s.
Proof. intros Ha Hb HP. unfold push_reg. wp_steps. by eapply wp_push. Qed.

Lemma wp_pop_reg a g (P : unit → sched → Prop) s :
  sc_regs s RSP = a → 0 ≤ a < 2 ^ 64 - 8 → g ≠ RSP →
  (∀ s', sc_words s' = sc_words s → sc_regs s' RSP = a + 8 → sc_regs s' g = sc_words s a →
     others_same g s s' → P tt s') →
  wp (pop_reg g) P s.
Proof.
  intros Ha Hb Hg HP. apply HP; simpl; rewrite ?Ha; [done|..].
  - rewrite fn_lookup_insert_ne by done. by rewrite fn_lookup_insert, wrap_small by lia.
  - by rewrite fn_lookup_insert.
  - split; [done|]. intros g' H1 H2. simpl. by rewrite !fn_lookup_insert_ne.
Qed.

Lemma wp_get_reg g (P : Z → sched → Prop) s : P (sc_regs s g) s → wp (get_reg g) P s.
Proof. done. Qed.

Lemma wp_set_reg g v (P : unit → sched → Prop) s :
  P tt (set_sc_machine (<[g := v]> (sc_regs s)) (sc_words s) s) → wp (set_reg g v) P s.
Proof. done. Qed.

(** After a push the registers other than the stack pointer are those of before. *)
Lemma wp_push_saved rg a g (P : unit → sched → Prop) s w (k : SM unit) :
  sc_regs s RSP = a → 8 ≤ a < 2 ^ 64 → sc_words s = w → (∀ g', g' ≠ RSP → sc_regs s g' = rg g') →
  g ≠ RSP →
  (∀ s', sc_threads s' = sc_threads s → sc_regs s' RSP = a - 8 →
     sc_words s' = <[a - 8 := rg g]> w → (∀ g', g' ≠ RSP → sc_regs s' g' = rg g') → wp k P s') →
  wp (push_reg g ;; k) P s.
Proof.
  intros Ha Hb <- Hrg Hg HP. apply wp_bind. eapply wp_push_reg; [done|done|].
  intros s' Hw Hsp [Ht Ho]. apply HP; [done|done|by rewrite Hw, Hrg|].
  intros g' Hg'. by rewrite Ho, Hrg.
Qed.

Lemma wp_save_context s rsp (P : unit → sched → Prop) (k : SM unit) :
  sc_regs s RSP = rsp → stack_room rsp →
  (∀ s', sc_words s' = saved_frame (sc_regs s) (sc_words s) rsp → sc_regs s' RSP = rsp - 56 →
     sc_threads s' = sc_threads s → wp k P s') →
  wp (push_reg RBP ;; push_reg RBX ;; push_reg R12 ;; push_reg R13 ;; push_reg R14 ;;
      push_reg R15 ;; push_reg RFLAGS ;; k) P s.
Proof.
  intros Hr Hroom Hk. unfold stack_room in Hroom.
  eapply (wp_push_saved (sc_regs s)); [done|lia|done|done|done|]. intros s1 T1 R1 W1 G1.
  eapply wp_push_saved; [done|lia|done|done|done|]. intros s2 T2 R2 W2 G2.
  eapply wp_push_saved; [done|lia|done|done|done|]. intros s3 T3 R3 W3 G3.
  eapply wp_push_saved; [done|lia|done|done|done|]. intros s4 T4 R4 W4 G4.
  eapply wp_push_saved; [done|lia|done|done|done|]. intros s5 T5 R5 W5 G5.
  eapply wp_push_saved; [done|lia|done|done|done|]. intros s6 T6 R6 W6 G6.
  eapply wp_push_saved; [done|lia|done|done|done|]. intros s7 T7 R7 W7 G7.
  apply Hk; [|lia|congruence]. rewrite W7. unfold saved_frame. by rewrite <-!Z.sub_add_distr.
Qed.

Lemma wp_pop_saved a g (P : unit → sched → Prop) s w (k : SM unit) :
  sc_regs s RSP = a → 0 ≤ a < 2 ^ 64 - 8 → sc_words s = w → g ≠ RSP →
  (∀ s', sc_threads s' = sc_threads s → sc_regs s' RSP = a + 8 → sc_words s' = w →
     sc_regs s' g = w a → (∀ g', g' ≠ RSP → g' ≠ g → sc_regs s' g' = sc_regs s g') → wp k P s') →
  wp (pop_reg g ;; k) P s.
Proof.
  intros Ha Hb <- Hg HP. apply wp_bind. eapply wp_pop_reg; [done|done|done|].
  intros s' Hw Hsp Hv [Ht Ho]. by apply HP.
Qed.

Lemma wp_restore_context s rsp (P : unit → sched → Prop) :
  sc_regs s RSP = rsp → frame_room rsp →
  (∀ s', sc_words s' = sc_words s → restored (sc_regs s') (sc_words s) rsp →
     sc_threads s' = sc_threads s → P tt s') →
  wp (pop_reg RFLAGS ;; pop_reg R15 ;; pop_reg R14 ;; pop_reg R13 ;; pop_reg R12 ;; pop_reg RBX ;;
      pop_reg RBP ;; pop_reg RIP) P s.
Proof.
  intros Hr Hroom Hk. unfold frame_room in Hroom.
  eapply wp_pop_saved; [done|lia|done|done|]. intros s1 T1 R1 W1 V1 G1.
  eapply wp_pop_saved; [done|lia|done|done|]. intros s2 T2 R2 W2 V2 G2.
  eapply wp_pop_saved; [done|lia|done|done|]. intros s3 T3 R3 W3 V3 G3.
  eapply wp_pop_saved; [done|lia|done|done|]. intros s4 T4 R4 W4 V4 G4.
  eapply wp_pop_saved; [done|lia|done|done|]. intros s5 T5 R5 W5 V5 G5.
  eapply wp_pop_saved; [done|lia|done|done|]. intros s6 T6 R6 W6 V6 G6.
  eapply wp_pop_saved; [done|lia|done|done|]. intros s7 T7 R7 W7 V7 G7.
  eapply wp_pop_reg; [done|lia|done|]. intros s8 W8 R8 V8 [T8 G8].
  rewrite W7 in V8, W8. rewrite <-!Z.add_assoc in *.
  apply Hk; [done| |congruence]. unfold restored.
  rewrite (G8 RFLAGS), (G7 RFLAGS), (G6 RFLAGS), (G5 RFLAGS), (G4 RFLAGS), (G3 RFLAGS),
    (G2 RFLAGS), V1 by done.
  rewrite (G8 R15), (G7 R15), (G6 R15), (G5 R15), (G4 R15), (G3 R15), V2 by done.
  rewrite (G8 R14), (G7 R14), (G6 R14), (G5 R14), (G4 R14), V3 by done.
  rewrite (G8 R13), (G7 R13), (G6 R13), (G5 R13), V4 by done.
  rewrite (G8 R12), (G7 R12), (G6 R12), V5 by done.
  rewrite (G8 RBX), (G7 RBX), V6 by done. rewrite (G8 RBP), V7 by done. done.
Qed.

Lemma wp_context_switch_frame old new t s :
  sc_threads s !! old = Some t → stack_room (sc_regs s RSP) → frame_room new →
  wp (context_switch old new) (λ _ s',
    sc_words s' = saved_frame (sc_regs s) (sc_words s) (sc_regs s RSP) ∧
    restored (sc_regs s') (sc_words s') new ∧
    sc_threads s' = alter (set_t_rsp (sc_regs s RSP - 56)) old (sc_threads s)) s.
Proof.
  intros Ht Hr Hn. unfold context_switch. eapply wp_save_context; [done|done|].
  intros s1 W1 R1 T1. apply wp_bind, wp_get_reg. rewrite R1.
  apply wp_bind, wp_upd_thread; [rewrite T1; eauto|]. apply wp_bind, wp_set_reg.
  eapply wp_restore_context; [|done|].
  - simpl. by rewrite fn_lookup_insert.
  - intros s2 W2 R2 T2. simpl in W2, R2, T2. rewrite T2, T1, W2, <-W1. done.
Qed.

(** The word of a saved frame at each place. *)
Lemma saved_frame_words rg w rsp :
  let w' := saved_frame rg w rsp in
  w' (rsp - 56) = rg RFLAGS ∧ w' (rsp - 56 + 8) = rg R15 ∧ w' (rsp - 56 + 16) = rg R14 ∧
  w' (rsp - 56 + 24) = rg R13 ∧ w' (rsp - 56 + 32) = rg R12 ∧ w' (rsp - 56 + 40) = rg RBX ∧
  w' (rsp - 56 + 48) = rg RBP ∧ ∀ a, rsp ≤ a ∨ a < rsp - 56 → w' a = w a.
Proof.
  unfold saved_frame. cbv zeta.
  split_and!; try (intros a Ha); rewrite ?fn_lookup_insert_ne by lia; try done;
    match goal with |- <[?b := ?v]> _ ?a = _ => replace a with b by lia; apply fn_lookup_insert end.
Qed.

(** C27. A thread that is switched away from comes back as it was.  The switch
    from [a] saves a stack pointer in [a]; from any later state in which this
    stack pointer and the eight words it points to are as the switch left them,
    a switch back to it, by a thread [b] whose own saved words lie elsewhere,
    gives the registers a callee has to preserve, the flags and the stack
    pointer of before, and continues at the return address of the first call. *)
Theorem context_switch_roundtrip a new ta s1 :
  sc_threads s1 !! a = Some ta → stack_room (sc_regs s1 RSP) → frame_room new →
  ∃ s2 ta2, context_switch a new s1 = Some (tt, s2) ∧ sc_threads s2 !! a = Some ta2 ∧
    ∀ b ta3 tb s3,
      sc_threads s3 !! a = Some ta3 → t_rsp ta3 = t_rsp ta2 →
      (∀ i, 0 ≤ i < 8 → sc_words s3 (t_rsp ta3 + 8 * i) = sc_words s2 (t_rsp ta3 + 8 * i)) →
      sc_threads s3 !! b = Some tb → stack_room (sc_regs s3 RSP) →
      (sc_regs s3 RSP ≤ t_rsp ta3 ∨ t_rsp ta3 + 64 ≤ sc_regs s3 RSP - 56) →
      wp (context_switch b (t_rsp ta3)) (λ _ s4,
        (∀ g, g ∈ [RBP; RBX; R12; R13; R14; R15; RFLAGS] → sc_regs s4 g = sc_regs s1 g) ∧
        sc_regs s4 RSP = sc_regs s1 RSP + 8 ∧
        sc_regs s4 RIP = sc_words s1 (sc_regs s1 RSP)) s3.
Proof.
  intros Ha Hr1 Hnew. set (rsp := sc_regs s1 RSP) in *.
  destruct (wp_elim _ _ _ (wp_context_switch_frame _ _ _ _ Ha Hr1 Hnew)) as ([] & s2 & H12 & W2 & _ & T2).
  exists s2, (set_t_rsp (rsp - 56) ta). split; [done|].
  split; [rewrite T2; by rewrite lookup_alter_eq, Ha|].
  intros b ta3 tb s3 Ha3 Hrsp Hw Hb Hr3 Hdis. cbn [t_rsp set_t_rsp] in Hrsp. rewrite Hrsp in *.
  eapply wp_mono; [eapply wp_context_switch_frame; [done|done|unfold stack_room, frame_room in *; lia]|].
  intros _ s4 (W4 & (F & F15 & F14 & F13 & F12 & Fx & Fb & Fi & Fs) & _).
  destruct (saved_frame_words (sc_regs s1) (sc_words s1) rsp) as (E0 & E1 & E2 & E3 & E4 & E5 & E6 & Eo).
  fold rsp in W2. rewrite <-W2 in E0, E1, E2, E3, E4, E5, E6, Eo.
  assert (∀ i, 0 ≤ i < 8 → sc_words s4 (rsp - 56 + 8 * i) = sc_words s2 (rsp - 56 + 8 * i)) as Hs.
  { intros i Hi. rewrite W4. destruct (saved_frame_words (sc_regs s3) (sc_words s3) (sc_regs s3 RSP))
      as (_ & _ & _ & _ & _ & _ & _ & Ho). rewrite Ho by lia. by apply Hw. }
  pose proof (Hs 0 ltac:(lia)) as H0. change (8 * 0) with 0 in H0. rewrite !Z.add_0_r in H0.
  rewrite (Hs 1 ltac:(lia) : sc_words s4 (rsp - 56 + 8) = sc_words s2 (rsp - 56 + 8)) in F15.
  rewrite (Hs 2 ltac:(lia) : sc_words s4 (rsp - 56 + 16) = sc_words s2 (rsp - 56 + 16)) in F14.
  rewrite (Hs 3 ltac:(lia) : sc_words s4 (rsp - 56 + 24) = sc_words s2 (rsp - 56 + 24)) in F13.
  rewrite (Hs 4 ltac:(lia) : sc_words s4 (rsp - 56 + 32) = sc_words s2 (rsp - 56 + 32)) in F12.
  rewrite (Hs 5 ltac:(lia) : sc_words s4 (rsp - 56 + 40) = sc_words s2 (rsp - 56 + 40)) in Fx.
  rewrite (Hs 6 ltac:(lia) : sc_words s4 (rsp - 56 + 48) = sc_words s2 (rsp - 56 + 48)) in Fb.
  rewrite (Hs 7 ltac:(lia) : sc_words s4 (rsp - 56 + 56) = sc_words s2 (rsp - 56 + 56)) in Fi. rewrite H0 in F.
  split_and!.
  - intros g Hg. repeat (apply elem_of_cons in Hg as [->|Hg]; [congruence|]). by apply elem_of_nil in Hg.
  - lia.
  - rewrite Fi. rewrite Eo by lia. f_equal. lia.
Qed.

(** * Creating and starting threads (sched/thread.c)

    Identifiers are handed out from the free slots of a table; a new thread has
    its own stack, is in the table and at the end of the run queue; and when it
    is first switched to it calls its entry function with its argument. *)

(** ** Identifiers *)

Section ids.
Implicit Types (table : list (option Z)) (next i id : Z).

Lemma id_candidate_range next i : 1 ≤ id_candidate next i ≤ 255.
Proof.
  unfold id_candidate. pose proof (Z.mod_pos_bound (wrap32 (next + i)) 256).
  destruct (Z.eqb_spec (wrap32 (next + i) mod 256) 0); lia.
Qed.

Lemma id_candidate_all next id :
  0 ≤ next < 256 → 1 ≤ id ≤ 255 → id_candidate next ((id - next) mod 256) = id.
Proof.
  intros Hn Hid. pose proof (Z.mod_pos_bound (id - next) 256). unfold id_candidate.
  rewrite wrap_small by lia. rewrite Zplus_mod_idemp_r. replace (next + (id - next)) with id by lia.
  rewrite Z.mod_small by lia. destruct (Z.eqb_spec id 0); lia.
Qed.

Lemma alloc_id_Some n i table next id :
  alloc_id n i table next = Some id → 1 ≤ id ≤ 255 ∧ aget table id = Some None.
Proof.
  revert i. induction n as [|n IH]; intros i; simpl; [done|].
  destruct (aget table (id_candidate next i)) as [[?|]|] eqn:Hg; [apply IH| |apply IH].
  intros [= <-]. split; [apply id_candidate_range|done].
Qed.

Lemma alloc_id_None n i j table next :
  alloc_id n i table next = None → i ≤ j < i + Z.of_nat n →
  aget table (id_candidate next j) ≠ Some None.
Proof.
  revert i. induction n as [|n IH]; intros i; simpl; [lia|]. intros Ha Hj.
  destruct (decide (j = i)) as [->|Hne].
  - by destruct (aget table (id_candidate next i)) as [[?|]|].
  - apply (IH (i + 1)); [|lia]. by destruct (aget table (id_candidate next i)) as [[?|]|].
Qed.

(** An identifier is found whenever one is free. *)
Lemma alloc_id_full table next id :
  0 ≤ next < 256 → alloc_id 256 0 table next = None → 1 ≤ id ≤ 255 → aget table id ≠ Some None.
Proof.
  intros Hn Ha Hid. rewrite <-(id_candidate_all next id) by done.
  eapply alloc_id_None; [done|]. pose proof (Z.mod_pos_bound (id - next) 256). lia.
Qed.

Lemma id_after_range id : 0 ≤ id < 256 → 0 ≤ id_after id < 256.
Proof.
  intros. unfold id_after. pose proof (Z.mod_pos_bound (id + 1) 256).
  destruct (Z.eqb_spec ((id + 1) mod 256) 0); lia.
Qed.
End ids.

Implicit Types (e : sched) (q : runq) (r : rqref) (Q : rqref → list Z).

Lemma rep_table s Q e tb n : rep s Q e → rep (set_sc_table tb n s) Q (set_sc_table tb n e).
Proof. intros [[Hq Hn Hd] <-]. split; [|done]. by split. Qed.

Lemma rep_new_thread s Q e x t :
  rep s Q e → sc_threads e !! x = None →
  rep (set_sc_threads (<[x := t]> (sc_threads s)) s) Q
      (set_sc_threads (<[x := erase_t t]> (sc_threads e)) e) ∧ ∀ r, x ∉ Q r.
Proof.
  intros [[Hq Hn Hd] <-] Hx. simpl in Hx. rewrite lookup_fmap, fmap_None in Hx.
  assert (∀ r, x ∉ Q r) as Hout.
  { intros r Hin. destruct (get_rq r s) as [q|] eqn:Hg; [|by rewrite (Hn r Hg) in Hin; set_solver].
    destruct (queue_ok_exists _ _ _ _ (Hq r q Hg) Hin). congruence. }
  split; [|done]. split.
  - split; [|by intros r; rewrite get_rq_threads; apply Hn|done].
    intros r q. rewrite get_rq_threads. intros Hg%Hq. eapply queue_ok_ext; [|exact Hg].
    intros y Hy. unfold tlinks. simpl. rewrite lookup_insert_ne; [done|]. intros ->. by apply (Hout r).
  - change (set_sc_threads (erase_t <$> <[x := t]> (sc_threads s)) (erase s) =
      set_sc_threads (<[x := erase_t t]> (erase_t <$> sc_threads s)) (erase s)).
    by rewrite fmap_insert.
Qed.

Section create.
Context {S : Type} {KH : KHeap S} {KHL : KHeapLaws S} {CD : Code}.

Lemma wp_alloc_tid s Q e :
  rep s Q e → 0 ≤ sc_next_tid e < 256 →
  wp alloc_tid_locked (λ tid s', ∃ n, rep s' Q (set_sc_table (sc_thread_table e) n e) ∧ 0 ≤ n < 256 ∧
    (tid = 0 ∧ (∀ id, 1 ≤ id ≤ 255 → aget (sc_thread_table e) id ≠ Some None) ∨
     1 ≤ tid ≤ 255 ∧ aget (sc_thread_table e) tid = Some None)) s.
Proof.
  intros Hrep Hn. pose proof Hrep as [_ He]. unfold alloc_tid_locked. wp_steps.
  assert (sc_thread_table s = sc_thread_table e ∧ sc_next_tid s = sc_next_tid e) as [Et En]
    by by rewrite <-He.
  rewrite Et, En. change (Z.to_nat MAX_THREADS) with 256%nat.
  destruct (alloc_id 256 0 (sc_thread_table e) (sc_next_tid e)) as [tid|] eqn:Ha; wp_steps.
  - apply alloc_id_Some in Ha as [Htid Hfree]. exists (id_after tid).
    split_and!; [by apply rep_table|apply id_after_range; lia..|by right].
  - exists (sc_next_tid e). split_and!; [|lia..|].
    + by destruct e.
    + left. split; [done|]. intros id. by apply alloc_id_full with (sc_next_tid e).
Qed.

(** The memory after the words [ws] were stored downwards from [top]. *)
Fixpoint stack_words (top : Z) (ws : list Z) (w : Z → Z) : Z → Z :=
  match ws with [] => w | v :: ws' => stack_words (top - 8) ws' (<[top - 8 := v]> w) end.

Lemma store_down_eq top ws s :
  store_down top ws s =
    Some (top - 8 * Z.of_nat (length ws),
          set_sc_machine (sc_regs s) (stack_words top ws (sc_words s)) s).
Proof.
  revert top s. induction ws as [|v ws IH]; intros top s.
  - change (Some (top, s) = Some (top - 0, set_sc_machine (sc_regs s) (sc_words s) s)).
    rewrite Z.sub_0_r. by destruct s.
  - cbn [store_down]. unfold mbind, M_bind, store, modify. rewrite IH. simpl. do 2 f_equal. lia.
Qed.

Lemma stack_words_above top ws w a : top ≤ a → stack_words top ws w a = w a.
Proof.
  revert top w. induction ws as [|v ws IH]; intros top w Ha; [done|]. simpl.
  rewrite IH by lia. apply fn_lookup_insert_ne. lia.
Qed.

Lemma stack_words_below top ws w a : a < top - 8 * Z.of_nat (length ws) → stack_words top ws w a = w a.
Proof.
  revert top w. induction ws as [|v ws IH]; intros top w Ha; [done|]. simpl in *.
  rewrite IH by lia. apply fn_lookup_insert_ne. lia.
Qed.

Lemma stack_words_at top ws w i v :
  ws !! i = Some v → stack_words top ws w (top - 8 * (Z.of_nat i + 1)) = v.
Proof.
  revert top w i. induction ws as [|u ws IH]; intros top w i; [done|]. destruct i as [|i]; simpl.
  - intros [= ->]. rewrite stack_words_above by lia.
    replace (top - 8) with (top - 8 * (0 + 1)) by lia. apply fn_lookup_insert.
  - intros Hi. rewrite <-(IH (top - 8) (<[top - 8 := u]> w) i Hi). f_equal. lia.
Qed.

(** The state of the kernel as the creation of threads sees it: the heap holds
    the blocks [H], and every thread is one of them. *)
Record kern_ok (k : kern S) (C : gmap Z Z) (H : blocks) Q e : Prop := KernOk {
  ko_heap : kh_inv (kn_heap k) C H;
  ko_rep : rep (kn_sched k) Q e;
  ko_threads x : is_Some (sc_threads e !! x) → is_Some (H !! x);
  ko_table : alen (sc_thread_table e) = MAX_THREADS;
  ko_next : 0 ≤ sc_next_tid e < 256 }.

(** The thread thread_create makes, and the state it leaves. *)
Definition created name tid base : thread :=
  Thread tid (copy_name name) THREAD_READY (Some base) DEFAULT_STACK_SIZE
    (base + DEFAULT_STACK_SIZE - 80) 0 10 0 0xFFFFFFFF None None.

Definition after_create name entry arg x tid base n e : sched :=
  Sched (<[x := created name tid base]> (sc_threads e)) (aset (sc_thread_table e) tid (Some x)) n
    (sc_boot e) (sc_percpu e) (sc_smp_init_done e) (sc_num_cpus_online e) (sc_cpu e)
    (sc_running e) (sc_balance_tick e) (sc_ticks e) (sc_frequency e) (sc_regs e)
    (stack_words (base + DEFAULT_STACK_SIZE) (initial_stack entry arg) (sc_words e)).

Lemma after_create_table name entry arg x tid base n e :
  after_create name entry arg x tid base n (set_sc_table (sc_thread_table e) n e) =
    after_create name entry arg x tid base n e.
Proof. reflexivity. Qed.

Lemma wp_heap_ {A} (c : M S A) (P : A → kern S → Prop) (k : kern S) :
  wp c (λ a h, P a (Kern h (kn_sched k))) (kn_heap k) → wp (heap_ c) P k.
Proof. exact (wp_zoom kn_heap (λ h k, Kern h (kn_sched k)) c P k). Qed.

Lemma wp_sched_ {A} (c : SM A) (P : A → kern S → Prop) (k : kern S) :
  wp c (λ a s, P a (Kern (kn_heap k) s)) (kn_sched k) → wp (sched_ c) P k.
Proof. exact (wp_zoom kn_sched (λ s k, Kern (kn_heap k) s) c P k). Qed.

Lemma wp_sched_ready_new s Q e x t q :
  rep s Q e → get_rq (this_rq e) e = Some q → (∀ r, x ∉ Q r) →
  sc_threads e !! x = Some t → t_state t = THREAD_READY →
  wp (sched_ready (Some x)) (λ _ s', rep s' (<[this_rq e := Q (this_rq e) ++ [x]]> Q) e) s.
Proof.
  intros Hrep Hqe Hout Hx Hst. destruct (rep_rq_inv _ _ _ _ _ Hrep Hqe) as (qc & Hq & _).
  destruct (rep_thread _ _ _ _ _ Hrep Hx) as (tc & Htc & Et). unfold sched_ready. wp_steps.
  eapply wp_rd_thread; [done|]. rewrite bool_decide_false.
  - eapply wp_mono; [eapply wp_queue_add; [done|by rewrite (rep_this _ _ _ Hrep)|eauto|done]|].
    intros [] s'. cbv beta. rewrite (alter_state_same _ _ _ _ Hx Hst). by rewrite set_sc_threads_id.
  - assert (t_state tc = t_state t) as -> by by rewrite <-Et. by rewrite Hst.
Qed.

(** The part of thread_create on the scheduler's state. *)
Lemma wp_install name entry arg x tid base s Q e q :
  rep s Q e → get_rq (this_rq e) e = Some q → sc_threads e !! x = None →
  wp (rsp ← store_down (base + DEFAULT_STACK_SIZE) (initial_stack entry arg);
      new_thread x (Thread tid (copy_name name) THREAD_READY (Some base)
        DEFAULT_STACK_SIZE rsp 0 10 0 0xFFFFFFFF None None) ;;
      modify (λ s, set_sc_table (aset (sc_thread_table s) tid (Some x)) (sc_next_tid s) s) ;;
      sched_ready (Some x))
    (λ _ s', rep s' (<[this_rq e := Q (this_rq e) ++ [x]]> Q)
       (after_create name entry arg x tid base (sc_next_tid e) e)) s.
Proof.
  intros Hrep Hqe Hx. apply wp_bind. eapply wp_intro; [apply store_down_eq|].
  unfold new_thread. wp_steps.
  pose proof (rep_machine _ _ _ (sc_regs e) (stack_words (base + DEFAULT_STACK_SIZE)
    (initial_stack entry arg) (sc_words e)) Hrep) as Hrep1.
  assert (sc_regs s = sc_regs e ∧ sc_words s = sc_words e ∧ sc_thread_table s = sc_thread_table e ∧
    sc_next_tid s = sc_next_tid e) as (Er & Ew & Et & En) by by destruct Hrep as [_ <-].
  destruct (rep_new_thread _ _ _ x (created name tid base) Hrep1 Hx) as [Hrep2 Hout].
  apply (rep_table _ _ _ (aset (sc_thread_table e) tid (Some x)) (sc_next_tid e)) in Hrep2.
  replace (8 * Z.of_nat (length (initial_stack entry arg))) with 80 by done.
  fold (created name tid base).
  change (this_rq e) with (this_rq (after_create name entry arg x tid base (sc_next_tid e) e)).
  eapply wp_sched_ready_new; [|exact Hqe|done|apply lookup_insert_eq|done].
  rewrite <-Er, <-Ew, <-Et, <-En in Hrep2. unfold after_create. rewrite <-Er, <-Ew, <-Et, <-En.
  exact Hrep2.
Qed.

Lemma wp_thread_create name entry arg k C H Q e q :
  kern_ok k C H Q e → get_rq (this_rq e) e = Some q → aget (sc_thread_table e) 0 ≠ Some None →
  wp (thread_create name (Some entry) arg) (λ res k', match res with
    | Some x => ∃ tid base n, 1 ≤ tid ≤ 255 ∧ aget (sc_thread_table e) tid = Some None ∧
        H !! x = None ∧ H !! base = None ∧ x ≠ base ∧
        kern_ok k' C (<[base := (None, DEFAULT_STACK_SIZE)]> (<[x := (None, SIZEOF_THREAD)]> H))
          (<[this_rq e := Q (this_rq e) ++ [x]]> Q)
          (after_create name entry arg x tid base n e)
    | None => ∃ n, kern_ok k' C H Q (set_sc_table (sc_thread_table e) n e)
    end) k.
Proof.
  intros [Hh Hrep Hth Htb Hnx] Hqe Hboot. unfold thread_create. wp_steps.
  apply wp_heap_. eapply wp_mono; [apply (kh_kmalloc_law _ C H); [done|unfold KMALLOC_LIMIT, SIZEOF_THREAD; lia]|].
  intros [x|] h1 Hx; cycle 1.
  { wp_steps. exists (sc_next_tid e). split; [done| |done|done|done]. by destruct e. }
  destruct Hx as (_ & _ & HxH & Hh1). wp_steps. apply wp_sched_. simpl kn_sched.
  eapply wp_mono; [by apply wp_alloc_tid|]. intros tid s1 (n & Hrep1 & Hn & Htid). simpl kn_heap.
  assert (sc_thread_table s1 = sc_thread_table e) as Et1.
  { destruct Hrep1 as [_ He1]. exact (f_equal sc_thread_table He1). }
  wp_steps. apply wp_sched_. simpl kn_sched.
  destruct (aget (sc_thread_table e) 0) as [b0|] eqn:Hb0; cycle 1.
  { exfalso. assert (is_Some (aget (sc_thread_table e) 0)) as [? ?]; [|congruence].
    apply aget_is_Some. rewrite Htb. done. }
  wp_steps. eapply wp_lift; [by rewrite Et1|]. simpl kn_heap.
  destruct b0 as [b0|]; [|done]. rewrite (bool_decide_true (Some b0 ≠ None)) by done. rewrite andb_true_r.
  destruct Htid as [[-> _]|[Htid Hfree]].
  { simpl. wp_steps. apply wp_heap_. eapply wp_mono; [eapply kh_kfree_law; [done|apply lookup_insert_eq]|].
    intros [] h2 Hh2. cbv beta in Hh2. rewrite delete_insert_id in Hh2 by done. wp_steps.
    exists n. by split. }
  replace (tid =? 0) with false by lia. wp_steps. apply wp_heap_. simpl kn_heap.
  eapply wp_mono; [eapply kh_kmalloc_law; [done|unfold KMALLOC_LIMIT, DEFAULT_STACK_SIZE; lia]|].
  intros [base|] h2 Hb; simpl kn_sched; cycle 1.
  { wp_steps. apply wp_heap_. eapply wp_mono; [eapply kh_kfree_law; [done|apply lookup_insert_eq]|].
    intros [] h3 Hh3. cbv beta in Hh3. rewrite delete_insert_id in Hh3 by done. wp_steps.
    exists n. by split. }
  destruct Hb as (_ & _ & Hbase & Hh2). wp_steps. apply wp_sched_. simpl kn_sched.
  assert (sc_threads e !! x = None) as Hxe.
  { destruct (sc_threads e !! x) eqn:E; [|done]. destruct (Hth x); [by rewrite E|congruence]. }
  eapply wp_mono; [eapply (wp_install name entry arg x tid base); [exact Hrep1|exact Hqe|exact Hxe]|].
  intros [] s2 Hrep2. rewrite after_create_table in Hrep2. simpl kn_heap. wp_steps.
  apply lookup_insert_None in Hbase as [Hbase Hxb].
  exists tid, base, n. split_and!; [lia|lia|done|done|done|done|].
  split; [exact Hh2|exact Hrep2| | |exact Hn].
  - intros y. unfold after_create. simpl. rewrite lookup_insert_is_Some.
    rewrite !lookup_insert_is_Some. destruct (decide (base = y)); [by left|].
    intros [->|[? Hy]]; right; (split; [done|]); [by left|].
    destruct (decide (x = y)); [by left|]. right. split; [done|]. by apply Hth.
  - unfold after_create. simpl. by rewrite alen_aset.
Qed.

(** C28. thread_create. *)
Theorem thread_create_correct name entry arg k C H Q e q :
  kern_ok k C H Q e → get_rq (this_rq e) e = Some q → aget (sc_thread_table e) 0 ≠ Some None →
  wp (thread_create name (Some entry) arg) (λ res k', match res with
    | Some x => ∃ tid base n, 1 ≤ tid ≤ 255 ∧ aget (sc_thread_table e) tid = Some None ∧
        H !! x = None ∧ H !! base = None ∧ x ≠ base ∧
        kern_ok k' C (<[base := (None, DEFAULT_STACK_SIZE)]> (<[x := (None, SIZEOF_THREAD)]> H))
          (<[this_rq e := Q (this_rq e) ++ [x]]> Q)
          (after_create name entry arg x tid base n e)
    | None => ∃ n, kern_ok k' C H Q (set_sc_table (sc_thread_table e) n e)
    end) k.
Proof. apply wp_thread_create. Qed.

(** ** The first switch to a new thread *)

Lemma wp_trampoline s rsp (P : unit → sched → Prop) :
  sc_regs s RSP = rsp → 0 ≤ rsp < 2 ^ 64 - 64 →
  (∀ s', sc_regs s' RDI = sc_words s rsp → sc_regs s' RIP = sc_words s (rsp + 8) →
     sc_regs s' RFLAGS = Z.lor (sc_regs s RFLAGS) RFLAGS_IF → sc_regs s' RBP = sc_regs s RBP →
     sc_regs s' RSP = rsp + 8 → sc_words s' (rsp + 8) = thread_entry_trampoline_return → P tt s') →
  wp thread_entry_trampoline P s.
Proof.
  intros Hr Hb HP. unfold thread_entry_trampoline, sti.
  apply wp_bind, wp_bind, wp_get_reg, wp_set_reg.
  eapply wp_pop_saved; [simpl; by rewrite fn_lookup_insert_ne|lia|done|done|].
  intros s1 _ R1 W1 V1 G1. eapply wp_pop_saved; [done|lia|done|done|]. intros s2 _ R2 W2 V2 G2.
  apply wp_bind, wp_get_reg. apply wp_bind. eapply wp_push; [done|lia|].
  intros s3 W3 R3 [_ G3]. apply wp_set_reg. apply HP; simpl.
  - rewrite fn_lookup_insert_ne, G3, G2, V1 by done. done.
  - by rewrite fn_lookup_insert, V2.
  - rewrite fn_lookup_insert_ne, G3, G2, G1 by done. simpl. by rewrite fn_lookup_insert.
  - rewrite fn_lookup_insert_ne, G3, G2, G1 by done. simpl. by rewrite fn_lookup_insert_ne.
  - rewrite fn_lookup_insert_ne, R3 by done. lia.
  - rewrite W3. replace (rsp + 8 + 8 - 8) with (rsp + 8) by lia. apply fn_lookup_insert.
Qed.

(** The first run of a thread. *)
Theorem thread_first_run entry arg base b tb s :
  let top := base + DEFAULT_STACK_SIZE in
  128 ≤ top < 2 ^ 64 - 64 →
  (∀ i v, initial_stack entry arg !! i = Some v → sc_words s (top - 8 * (Z.of_nat i + 1)) = v) →
  sc_threads s !! b = Some tb → stack_room (sc_regs s RSP) →
  sc_regs s RSP ≤ top - 80 ∨ top ≤ sc_regs s RSP - 56 →
  wp (context_switch b (top - 80)) (λ _ s1,
    sc_regs s1 RIP = thread_entry_trampoline_addr ∧
    wp thread_entry_trampoline (λ _ s2,
      sc_regs s2 RIP = entry ∧ sc_regs s2 RDI = arg ∧ sc_regs s2 RFLAGS = RFLAGS_IF ∧
      sc_regs s2 RBP = 0x202 ∧ sc_regs s2 RSP = top - 8 ∧
      sc_words s2 (top - 8) = thread_entry_trampoline_return) s1) s.
Proof.
  intros top Htop Hw Hb Hroom Hdis.
  eapply wp_mono; [eapply wp_context_switch_frame; [done|done|unfold frame_room; lia]|].
  intros _ s1 (W1 & (F & _ & _ & _ & _ & _ & Fb & Fi & Fs) & _).
  assert (∀ i v, initial_stack entry arg !! i = Some v → (i < 10)%nat →
    sc_words s1 (top - 8 * (Z.of_nat i + 1)) = v) as Hw1.
  { intros i v Hi Hlt. rewrite W1.
    destruct (saved_frame_words (sc_regs s) (sc_words s) (sc_regs s RSP))
      as (_ & _ & _ & _ & _ & _ & _ & Ho). rewrite Ho by lia. by apply Hw. }
  pose proof (Hw1 9%nat 0 eq_refl ltac:(lia)) as E9. pose proof (Hw1 3%nat 0x202 eq_refl ltac:(lia)) as E3.
  pose proof (Hw1 2%nat _ eq_refl ltac:(lia)) as E2. pose proof (Hw1 1%nat arg eq_refl ltac:(lia)) as E1.
  pose proof (Hw1 0%nat entry eq_refl ltac:(lia)) as E0.
  split.
  { rewrite Fi, <-E2. f_equal. lia. }
  eapply wp_trampoline; [exact Fs|lia|]. intros s2 Hdi Hip Hfl Hbp Hsp Hret.
  split_and!.
  - rewrite Hip, <-E0. f_equal. lia.
  - rewrite Hdi, <-E1. f_equal. lia.
  - rewrite Hfl, F. replace (top - 80) with (top - 8 * (Z.of_nat 9 + 1)) by lia. by rewrite E9.
  - rewrite Hbp, Fb, <-E3. f_equal. lia.
  - lia.
  - rewrite <-Hret. f_equal. lia.
Qed.
End create.
