(* ===== verification/SchedInit.v ===== *)
(** * Starting the threads (sched/thread.c: thread_init)

    After thread_init the code that runs is a thread, there is an idle thread
    and the queue is empty: the state the theorems on the scheduler start from. *)

From stdpp Require Import functions strings.
From S2P Require Import Prelude DList KHeap CString Sched SchedQueue SchedThm SchedCreate.

(** ** If a call returns *)

Definition after {S A} (c : M S A) (s : S) (P : A → S → Prop) : Prop :=
  ∀ a s', c s = Some (a, s') → P a s'.

Lemma after_bind {S A B} (c : M S A) (k : A → M S B) s (P : B → S → Prop) :
  after c s (λ a s1, after (k a) s1 P) → after (a ← c; k a) s P.
Proof.
  intros Hc b s'. unfold mbind, M_bind. destruct (c s) as [[a s1]|] eqn:Hs; [|done].
  by apply Hc.
Qed.

Lemma after_wp {S A} (c : M S A) s (P : A → S → Prop) : wp c P s → after c s P.
Proof. intros Hwp a s' Hs. by eapply wp_at. Qed.

Lemma after_lift {S A} (o : option A) s (P : A → S → Prop) :
  (∀ a, o = Some a → P a s) → after (lift o) s P.
Proof. intros HP a s' Hs. unfold lift in Hs. destruct o; [|done]. injection Hs as <- <-. by apply HP. Qed.

Section init.
Context {S : Type} {KH : KHeap S} {KHL : KHeapLaws S} {CD : Code}.
Implicit Types (s e : sched) (k : kern S) (C : gmap Z Z) (H : blocks) (Q : rqref → list Z).

(** No threads yet, on one processor. *)
Record unstarted s : Prop := Unstarted {
  us_threads : sc_threads s = ∅;
  us_single : sc_smp_init_done s = false;
  us_queues r q : get_rq r s = Some q → rq_head q = None ∧ rq_tail q = None;
  us_next : 0 ≤ sc_next_tid s < 256 }.

Definition no_queue : rqref → list Z := λ _, [].

Lemma unstarted_rep s : unstarted s → rep s no_queue (erase s).
Proof.
  intros [Ht Hs Hq _]. split; [|done]. split; [|done|].
  - intros r q [Hh Htl]%Hq. split; [done|done|constructor|done].
  - intros r r' x Hx. by apply elem_of_nil in Hx.
Qed.

(** sched_init leaves an empty queue as it is. *)
Lemma wp_sched_init s Q e :
  rep s Q e → Q Boot = [] →
  wp sched_init (λ _ s', rep s' Q (set_sc_running false
    (set_rq Boot (set_rq_slice TIME_SLICE_TICKS (sc_boot e)) e))) s.
Proof.
  intros Hrep HQ. pose proof (qs_queue _ _ (proj1 Hrep) Boot _ eq_refl) as HL. rewrite HQ in HL.
  unfold sched_init. wp_steps. eapply wp_upd_rq; [done|].
  assert (set_rq_slice TIME_SLICE_TICKS (set_rq_tail None (set_rq_head None (sc_boot s))) =
    set_rq_slice TIME_SLICE_TICKS (sc_boot s)) as ->.
  { destruct HL as [Hh Ht _ _]. destruct (sc_boot s). simpl in *. by subst. }
  wp_steps.
  assert (sc_boot e = erase_q (sc_boot s)) as -> by by destruct Hrep as [_ <-].
  pose proof (rep_set_rq s Q e Boot _ (set_rq_slice TIME_SLICE_TICKS) Hrep eq_refl eq_refl eq_refl eq_refl)
    as [[Hq Hn Hd] He]. split; [|by rewrite <-He]. by split.
Qed.

Lemma without_snoc x L : x ∉ L → without x (L ++ [x]) = L.
Proof.
  intros Hx. unfold without. rewrite filter_app, filter_cons, decide_False by naive_solver.
  rewrite app_nil_r. fold (without x L). by apply without_notin.
Qed.

Lemma wp_make_idle s Q e x t q :
  rep s Q e → get_rq (this_rq e) e = Some q → sc_threads e !! x = Some t →
  wp (make_idle x) (λ _ s',
    rep s' (<[this_rq e := without x (Q (this_rq e))]> Q)
      (set_sc_threads (alter (λ t, set_t_state THREAD_READY (set_t_priority 255 t)) x (sc_threads e)) e)) s.
Proof.
  intros Hrep Hqe Hx. unfold make_idle, sched_remove. wp_steps.
  eapply wp_mono; [eapply (wp_upd_data _ _ _ _ (set_t_priority 255)); [done|done|done]|].
  intros [] s1 Hrep1. cbv beta in Hrep1. wp_steps.
  destruct (rep_rq_inv _ _ _ (this_rq e) q Hrep1) as (qc & Hq & _); [by rewrite get_rq_threads|].
  eapply wp_mono; [eapply wp_queue_remove; [done|by rewrite (rep_this _ _ _ Hrep1)]|].
  intros [] s2 Hrep2. cbv beta in Hrep2.
  eapply wp_mono; [eapply (wp_upd_data _ _ _ x (set_t_state THREAD_READY)); [done|done|]|].
  { simpl. by rewrite lookup_alter_eq, Hx. }
  intros [] s3 Hrep3. cbv beta in Hrep3. simpl in Hrep3.
  assert (alter (set_t_state THREAD_READY) x (alter (set_t_priority 255) x (sc_threads e)) =
    alter (λ t, set_t_state THREAD_READY (set_t_priority 255 t)) x (sc_threads e)) as <-; [|done].
  apply map_eq. intros y. destruct (decide (x = y)) as [<-|].
  - rewrite !lookup_alter_eq. by destruct (sc_threads e !! x).
  - by rewrite !lookup_alter_ne.
Qed.

Definition boot_thread : thread :=
  Thread 0 (copy_name (Some (chars "boot"))) THREAD_RUNNING None 0 0 0 10 0 0xFFFFFFFF None None.

(** The first half: the code that runs becomes the thread [x]. *)
Definition adopt x : SM unit :=
  new_thread x boot_thread ;;
  modify (λ s, set_sc_table (aset (sc_thread_table s) 0 (Some x)) (sc_next_tid s) s) ;;
  thread_set_current (Some x) ;;
  sched_init.

(** One processor runs the thread [x], which is the only one. *)
Record adopted x s e : Prop := Adopted {
  ad_rep : rep s no_queue e;
  ad_single : sc_smp_init_done e = false;
  ad_threads : sc_threads e = {[x := boot_thread]};
  ad_current : rq_current (sc_boot e) = Some x;
  ad_table : alen (sc_thread_table e) = MAX_THREADS;
  ad_slot : aget (sc_thread_table e) 0 = Some (Some x);
  ad_next : 0 ≤ sc_next_tid e < 256 }.

Lemma wp_adopt x s e :
  rep s no_queue e → sc_threads e = ∅ → sc_smp_init_done e = false →
  alen (sc_thread_table e) = MAX_THREADS → 0 ≤ sc_next_tid e < 256 →
  wp (adopt x) (λ _ s', ∃ e', adopted x s' e') s.
Proof.
  intros Hrep He Hs Htb Hnx. unfold adopt, new_thread, thread_set_current. wp_steps.
  assert (sc_threads e !! x = None) as Hx by by rewrite He.
  destruct (rep_new_thread _ _ _ x boot_thread Hrep Hx) as [Hrep1 _].
  assert (sc_thread_table s = sc_thread_table e ∧ sc_next_tid s = sc_next_tid e ∧
    sc_smp_init_done s = sc_smp_init_done e) as (Et & En & Es) by by destruct Hrep as [_ <-].
  apply (rep_table _ _ _ (aset (sc_thread_table e) 0 (Some x)) (sc_next_tid e)) in Hrep1.
  rewrite <-Et, <-En in Hrep1. unfold this_rq. cbn [sc_smp_init_done set_sc_table set_sc_threads].
  rewrite Es, Hs. eapply wp_upd_rq; [done|].
  pose proof (rep_set_rq _ _ _ Boot _ (set_rq_current (Some x)) Hrep1 eq_refl eq_refl eq_refl eq_refl)
    as Hrep2.
  eapply wp_mono; [eapply wp_sched_init; [exact Hrep2|done]|]. intros [] s' Hrep3.
  eexists. split; [exact Hrep3|done| |done| | |].
  - simpl. rewrite He. done.
  - simpl. by rewrite alen_aset, Et.
  - simpl. apply aget_aset_eq. by rewrite Et, Htb.
  - simpl. by rewrite En.
Qed.

(** The second half: the new thread [i] becomes the idle thread. *)
Definition adopt_idle i : SM unit :=
  upd_rq Boot (set_rq_idle (Some i)) ;;
  make_idle i ;;
  s ← get;
  match get_rq (Cpu (sc_cpu s)) s with
  | Some _ => upd_rq (Cpu (sc_cpu s)) (set_rq_idle (Some i))
  | None => mret tt
  end.

Lemma thread_init_parts :
  thread_init =
    (sched_ (modify (λ s, set_sc_table (replicate (Z.to_nat MAX_THREADS) None) (sc_next_tid s) s)) ;;
     th ← heap_ (kh_kmalloc SIZEOF_THREAD);
     x ← lift th;
     sched_ (adopt x) ;;
     idle ← thread_create (Some (chars "idle")) (Some idle_thread_func) 0;
     i ← lift idle;
     sched_ (adopt_idle i)).
Proof. reflexivity. Qed.

(** The result of thread_init, as far as the scheduler goes. *)
Record started x i s Q e : Prop := Started {
  st_rep : rep s Q e;
  st_single : sc_smp_init_done e = false;
  st_queues r : Q r = [];
  st_current : rq_current (sc_boot e) = Some x;
  st_idle : rq_idle (sc_boot e) = Some i;
  st_x : is_Some (sc_threads e !! x);
  st_i : is_Some (sc_threads e !! i) }.

Lemma started_running x i s Q e : started x i s Q e → running Q e.
Proof.
  intros [Hrep Hs HQ Hc Hi Hx Hie]. split.
  - unfold this_cpu. rewrite Hs. by exists 1.
  - intros r y. rewrite HQ. by intros ?%elem_of_nil.
  - unfold this_rq. rewrite Hs. exists (sc_boot e), x, i. split_and!; [done|done| |done|done|].
    + split; [done|]. intros r. rewrite HQ. apply not_elem_of_nil.
    + intros r _. rewrite HQ. apply not_elem_of_nil.
Qed.

Lemma wp_adopt_idle s Q e x i ti :
  rep s Q e → Q Boot = [i] → (∀ r, r ≠ Boot → Q r = []) → sc_smp_init_done e = false →
  sc_threads e !! i = Some ti → is_Some (sc_threads e !! x) → rq_current (sc_boot e) = Some x →
  wp (adopt_idle i) (λ _ s', ∃ Q' e', started x i s' Q' e' ∧
    sc_thread_table e' = sc_thread_table e ∧ sc_next_tid e' = sc_next_tid e ∧
    ∀ y, is_Some (sc_threads e' !! y) → is_Some (sc_threads e !! y)) s.
Proof.
  intros Hrep HQ HQ' Hs Hi Hx Hcur. unfold adopt_idle. wp_steps. eapply wp_upd_rq; [done|].
  pose proof (rep_set_rq _ _ _ Boot _ (set_rq_idle (Some i)) Hrep eq_refl eq_refl eq_refl eq_refl) as Hrep1.
  assert (sc_boot e = erase_q (sc_boot s)) as Eb by by destruct Hrep as [_ <-].
  rewrite <-Eb in Hrep1. set (e1 := set_rq Boot _ e) in Hrep1.
  assert (this_rq e1 = Boot) as Hthis by (unfold this_rq; simpl; by rewrite Hs).
  wp_steps. eapply wp_mono; [eapply wp_make_idle; [exact Hrep1| |exact Hi]|].
  { rewrite Hthis. done. }
  intros [] s2 Hrep2. cbv beta in Hrep2. rewrite Hthis, HQ in Hrep2.
  set (e2 := set_sc_threads _ e1) in Hrep2.
  assert (∀ y, is_Some (sc_threads e2 !! y) ↔ is_Some (sc_threads e !! y)) as Hdom.
  { intros y. apply lookup_alter_is_Some. }
  assert (started x i s2 (<[Boot := without i [i]]> Q) e2) as Hst.
  { split; [done|done| |done|done|by apply Hdom|apply Hdom; eauto].
    intros r. destruct (decide (Boot = r)) as [<-|Hne]; [|by rewrite fn_lookup_insert_ne; auto].
    rewrite fn_lookup_insert. apply (without_snoc i []). apply not_elem_of_nil. }
  wp_steps. destruct (get_rq (Cpu (sc_cpu s2)) s2) as [q2|] eqn:Hq2.
  - eapply wp_upd_rq; [done|]. destruct Hst as [_ ? ? ? ? ? ?].
    eexists _, _. split; [split; [by apply (rep_set_rq _ _ _ _ _ (set_rq_idle (Some i)) Hrep2)|..]|];
      try done. split_and!; [done|done|]. intros y. apply Hdom.
  - wp_steps. eexists _, _. split; [exact Hst|]. split_and!; [done|done|]. intros y. apply Hdom.
Qed.

(** thread_init establishes the scheduler's invariant. *)
Theorem thread_init_correct k C H :
  kh_inv (kn_heap k) C H → unstarted (kn_sched k) →
  after thread_init k (λ _ k', ∃ H' Q e x i, kern_ok k' C H' Q e ∧ running Q e ∧
    (∀ r, Q r = []) ∧ rq_current (sc_boot e) = Some x ∧ rq_idle (sc_boot e) = Some i ∧ x ≠ i ∧
    aget (sc_thread_table e) 0 = Some (Some x)).
Proof.
  intros Hh Hun. pose proof Hun as [Hth Hs _ Hnx]. rewrite thread_init_parts.
  apply after_bind, after_wp, wp_sched_, wp_modify.
  pose proof (rep_table _ _ _ (replicate (Z.to_nat MAX_THREADS) None) (sc_next_tid (kn_sched k))
    (unstarted_rep _ Hun)) as Hrep1. set (s1 := set_sc_table _ _ (kn_sched k)) in *.
  apply after_bind, after_wp, wp_heap_. simpl kn_heap. simpl kn_sched.
  eapply wp_mono; [apply (kh_kmalloc_law _ C H); [done|unfold KMALLOC_LIMIT, SIZEOF_THREAD; lia]|].
  intros th h1 Hth1. apply after_bind, after_lift. intros x ->. destruct Hth1 as (_ & _ & Hx & Hh1).
  apply after_bind, after_wp, wp_sched_. simpl kn_sched. simpl kn_heap.
  eapply wp_mono; [eapply (wp_adopt x); [exact Hrep1|simpl; by rewrite Hth, fmap_empty|exact Hs|done|exact Hnx]|].
  intros [] s2 (e2 & [Hrep2 Hs2 Ht2 Hc2 Htb2 Hsl2 Hn2]).
  assert (this_rq e2 = Boot) as Hthis by (unfold this_rq; by rewrite Hs2).
  apply after_bind, after_wp.
  eapply wp_mono; [eapply (wp_thread_create _ _ _ _ C (<[x := (None, SIZEOF_THREAD)]> H)); [|by rewrite Hthis|]|].
  { split; [done|done| |done|done]. intros y. rewrite Ht2. intros [t Hy].
    apply lookup_singleton_Some in Hy as [<- _]. rewrite lookup_insert_eq. eauto. }
  { by rewrite Hsl2. }
  intros idle k3 Hidle. apply after_bind, after_lift. intros i ->.
  destruct Hidle as (tid & base & n & Htid & _ & Hi & Hbase & Hib & [Hh3 Hrep3 Hk3 Htb3 Hn3]).
  rewrite Hthis in Hrep3.
  apply lookup_insert_None in Hi as [Hi Hxi].
  apply after_wp, wp_sched_. eapply wp_mono; [eapply (wp_adopt_idle _ _ _ x i); [exact Hrep3|..]|].
  - by rewrite fn_lookup_insert.
  - intros r Hr. by rewrite fn_lookup_insert_ne.
  - exact Hs2.
  - simpl. apply lookup_insert_eq.
  - simpl. rewrite lookup_insert_ne by done. rewrite Ht2, lookup_singleton_eq. eauto.
  - exact Hc2.
  - intros [] s4 (Q' & e' & Hst & Et & En & Hdom). eexists _, Q', e', x, i.
    split_and!; [|by eapply started_running|apply Hst|apply Hst|apply Hst|done|].
    2:{ rewrite Et. simpl. rewrite aget_aset_ne by lia. exact Hsl2. }
    split; [exact Hh3|apply Hst| |by rewrite Et|by rewrite En].
    intros y Hy. by apply Hk3, Hdom.
Qed.
End init.
