(* ===== verification/SchedDemo.v ===== *)
(** * An example: a machine with a few threads

    The theorems on threads and the scheduler, applied to concrete states. *)

From stdpp Require Import functions strings.
From S2P Require Import Prelude DList Pmm PmmThm Frames Vmm VmmThm PageMap Slab KHeap CString.
From S2P Require Import Sched SchedQueue SchedThm SchedLive SchedCreate SchedBalance SchedInit.

#[export] Instance demo_code : Code := {|
  thread_entry_trampoline_addr := 0xFFFFFFFF80001000;
  sched_reschedule_return := 0xFFFFFFFF80002000;
  thread_entry_trampoline_return := 0xFFFFFFFF80001008;
  idle_thread_func := 0xFFFFFFFF80003000 |}.

(** ** One processor *)

Definition demo_thread (tid : Z) (st : thread_state) (prev next : option Z) : thread :=
  Thread tid [] st (Some (tid * 0x10000)) DEFAULT_STACK_SIZE (tid * 0x10000 + 0x3000) 0 10 0
    0xFFFFFFFF next prev.

(** The thread at 100 runs, 200 and 300 wait and 400 is the idle thread. *)
Definition demo_sched (st st' : thread_state) : sched :=
  Sched {[100 := demo_thread 0 THREAD_RUNNING None None;
          200 := demo_thread 2 st None (Some 300);
          300 := demo_thread 3 st' (Some 200) None;
          400 := demo_thread 1 THREAD_READY None None]}
    [] 5 (RunQ (Some 100) (Some 400) (Some 200) (Some 300) 10) [] false 1 0 true 0 0 100
    (λ _, 0x8000) (λ _, 0).

Definition demo_queues (r : rqref) : list Z := match r with Boot => [200; 300] | Cpu _ => [] end.

(** A state with one queue. *)
Lemma single_rep s L :
  sc_percpu s = [] → queue_ok (sc_threads s) (sc_boot s) L →
  rep s (λ r, match r with Boot => L | Cpu _ => [] end) (erase s).
Proof.
  intros Hp Hq. split; [|done]. split.
  - intros [|i] q; simpl; [by intros [= <-]|]. by rewrite Hp, aget_nil.
  - intros [|i]; [done|done].
  - intros [|i] [|j] x; [done|..]; try (by intros ? ?%elem_of_nil); by intros ?%elem_of_nil.
Qed.

Lemma demo_rep st st' : rep (demo_sched st st') demo_queues (erase (demo_sched st st')).
Proof.
  apply single_rep; [done|]. split; [done|done| |].
  - apply (bool_decide_unpack _). by vm_compute.
  - repeat split.
Qed.

Lemma demo_running st st' : running demo_queues (erase (demo_sched st st')).
Proof.
  split.
  - by exists 1.
  - intros [|i] x; [|by intros ?%elem_of_nil]. simpl.
    intros [->|[->|?%elem_of_nil]%elem_of_cons]%elem_of_cons; [by eexists..|done].
  - exists (RunQ (Some 100) (Some 400) None None 10), 100, 400.
    split_and!; [done|done| |done|by eexists|by intros [] ?; [|apply not_elem_of_nil]].
    split; [by eexists|]. intros [|i]; [|apply not_elem_of_nil].
    apply (bool_decide_unpack _). by vm_compute.
Qed.


Lemma demo_busy :
  busy demo_queues (erase (demo_sched THREAD_READY THREAD_READY)) [200; 300] 100 TIME_SLICE_TICKS.
Proof.
  split; [done|done|apply demo_running|done|done|done|by eexists|]. intros x Hx.
  apply elem_of_cons in Hx as [->|Hx]; [by eexists|].
  apply elem_of_cons in Hx as [->|Hx]; [by eexists|]. by apply elem_of_nil in Hx.
Qed.

(** After twenty ticks the second thread that waits runs. *)
Lemma sched_round_robin_witness :
  wp (interrupts 20) (λ _ s', rq_current (sc_boot s') = Some 300) (demo_sched THREAD_READY THREAD_READY).
Proof.
  refine (sched_round_robin 1 _ _ _ _ _ _ 300 (demo_rep _ _) demo_busy _ eq_refl).
  unfold TIME_SLICE_TICKS. lia.
Defined.

(** Unblocking the first of two threads drops the second from the queue. *)
Lemma thread_unblock_drops_queue_witness :
  wp (thread_unblock (Some 200)) (λ _ s', ∃ q', get_rq (this_rq s') s' = Some q' ∧
    chain (sc_threads s') (rq_head q') [200] None ∧ 300 ∉ [200]) (demo_sched THREAD_BLOCKED THREAD_READY).
Proof.
  exact (thread_unblock_drops_queue _ _ _ _ [] 200 300 [] _ (demo_rep _ _) eq_refl eq_refl eq_refl eq_refl).
Defined.

(** The running thread blocks and is unblocked. *)
Lemma block_unblock_hangs_witness :
  wp (thread_block ;; thread_unblock (Some 100)) (λ _ s', ∃ q', get_rq (this_rq s') s' = Some q' ∧
    ∀ fuel now, wake_from fuel now (rq_head q') s' = None) (demo_sched THREAD_READY THREAD_READY).
Proof.
  exact (block_unblock_hangs _ _ _ _ 100 400 (demo_rep _ _) (demo_running _ _) eq_refl eq_refl eq_refl
    ltac:(done)).
Defined.

(** ** Switching *)

(** The thread at 100 is switched to that at 200 and back. *)
Lemma context_switch_roundtrip_witness :
  let s1 := demo_sched THREAD_READY THREAD_READY in
  ∃ s2 rsp, context_switch 100 0x23000 s1 = Some (tt, s2) ∧
    wp (context_switch 200 rsp) (λ _ s4,
      (∀ g, g ∈ [RBP; RBX; R12; R13; R14; R15; RFLAGS] → sc_regs s4 g = 0x8000) ∧
      sc_regs s4 RSP = 0x8008 ∧ sc_regs s4 RIP = 0) s2.
Proof.
  intros s1. destruct (context_switch_roundtrip 100 0x23000 (demo_thread 0 THREAD_RUNNING None None) s1)
    as (s2 & ta2 & Hrun & Hta & Hback); [done|by split|by split|].
  exists s2, (t_rsp ta2). split; [exact Hrun|].
  assert (s2 = run_state (context_switch 100 0x23000) s1) as -> by (unfold run_state; by rewrite Hrun).
  assert (t_rsp ta2 = 0x8000 - 56) as Hrsp.
  { assert (t_rsp <$> sc_threads (run_state (context_switch 100 0x23000) s1) !! 100 = Some (0x8000 - 56)) as Hd
      by by vm_compute. rewrite Hta in Hd. by injection Hd. }
  apply (Hback 200 ta2 (demo_thread 2 THREAD_READY None (Some 300)));
    [exact Hta|done|done|by vm_compute|split; by vm_compute|right; rewrite Hrsp; by vm_compute].
Defined.

(** A thread with its first stack from 0x10000 to 0x14000. *)
Definition demo_new (entry arg : Z) : sched :=
  let s := demo_sched THREAD_READY THREAD_READY in
  set_sc_machine (sc_regs s) (stack_words 0x14000 (initial_stack entry arg) (sc_words s)) s.

Lemma thread_first_run_witness :
  wp (context_switch 100 (0x14000 - 80)) (λ _ s1,
    sc_regs s1 RIP = thread_entry_trampoline_addr ∧
    wp thread_entry_trampoline (λ _ s2,
      sc_regs s2 RIP = 0x4000 ∧ sc_regs s2 RDI = 42 ∧ sc_regs s2 RFLAGS = RFLAGS_IF ∧
      sc_regs s2 RBP = 0x202 ∧ sc_regs s2 RSP = 0x14000 - 8 ∧
      sc_words s2 (0x14000 - 8) = thread_entry_trampoline_return) s1) (demo_new 0x4000 42).
Proof.
  refine (thread_first_run 0x4000 42 0x10000 100 _ (demo_new 0x4000 42) _ _ eq_refl _ _);
    [by split|intros i v Hi; by apply stack_words_at|by split|by left].
Defined.

(** ** Creating *)

Definition demo_unstarted : sched :=
  Sched ∅ [] 1 (RunQ None None None None 0) [] false 1 0 false 0 0 100 (λ _, 0x8000) (λ _, 0).

Definition demo_kern0 : kern (heap (vm mem_info)) := Kern demo_heap demo_unstarted.
Definition demo_kern : kern (heap (vm mem_info)) := run_state thread_init demo_kern0.

Lemma demo_kern_run : thread_init demo_kern0 = Some (tt, demo_kern).
Proof. unfold demo_kern. apply run_state_some. vm_cast_no_check (eq_refl true). Qed.

Lemma demo_unstarted_ok : unstarted demo_unstarted.
Proof.
  split; [done|done| |by split]. intros [|i] q; simpl; [by intros [= <-]|]. by rewrite aget_nil.
Qed.

(** A started kernel creates a thread. *)
Lemma thread_create_correct_witness :
  ∃ C H Q e q, kern_ok demo_kern C H Q e ∧ get_rq (this_rq e) e = Some q ∧
    wp (thread_create (Some (chars "worker")) (Some 0x4000) 42) (λ res k', match res with
      | Some x => ∃ tid base n, 1 ≤ tid ≤ 255 ∧ aget (sc_thread_table e) tid = Some None ∧
          H !! x = None ∧ H !! base = None ∧ x ≠ base ∧
          kern_ok k' C (<[base := (None, DEFAULT_STACK_SIZE)]> (<[x := (None, SIZEOF_THREAD)]> H))
            (<[this_rq e := Q (this_rq e) ++ [x]]> Q)
            (after_create (Some (chars "worker")) 0x4000 42 x tid base n e)
      | None => ∃ n, kern_ok k' C H Q (set_sc_table (sc_thread_table e) n e)
      end) demo_kern.
Proof.
  assert (kh_inv (kn_heap demo_kern0) ∅ ∅) as Hh by exact demo_holds.
  destruct (thread_init_correct demo_kern0 ∅ ∅ Hh demo_unstarted_ok _ _ demo_kern_run)
    as (H & Q & e & x & i & Hok & Hrun & _ & _ & _ & _ & Hslot).
  destruct (run_current _ _ Hrun) as (q & _ & _ & Hq & _).
  exists ∅, H, Q, e, q. refine (conj Hok (conj Hq _)).
  refine (thread_create_correct _ 0x4000 42 demo_kern ∅ H Q e q Hok Hq _).
  by rewrite Hslot.
Defined.

(** ** Two processors *)

(** Processor [cpu] executes; three threads wait for the second one. *)
Definition demo_smp (cpu : Z) : sched :=
  Sched {[100 := demo_thread 0 THREAD_RUNNING None None;
          200 := demo_thread 2 THREAD_READY None (Some 300);
          300 := demo_thread 3 THREAD_READY (Some 200) (Some 400);
          400 := demo_thread 4 THREAD_READY (Some 300) None]}
    [] 5 (RunQ None None None None 10)
    (Some (RunQ (Some 100) None None None 10) :: Some (RunQ None None (Some 200) (Some 400) 10) ::
     replicate 254 None) true 2 cpu true 0 0 100 (λ _, 0x8000) (λ _, 0).

Definition demo_smp_queues (r : rqref) : list Z :=
  match r with Cpu 1 => [200; 300; 400] | _ => [] end.

Lemma demo_smp_percpu cpu i q :
  get_rq (Cpu i) (demo_smp cpu) = Some q →
  i = 0 ∧ q = RunQ (Some 100) None None None 10 ∨
  i = 1 ∧ q = RunQ None None (Some 200) (Some 400) 10.
Proof.
  unfold get_rq, aget. case_decide; [|done]. cbn [sc_percpu demo_smp].
  destruct (Z.to_nat i) as [|[|n]] eqn:Hi.
  - intros [= <-]. left. split; [lia|done].
  - intros [= <-]. right. split; [lia|done].
  - change (mjoin (replicate 254 None !! n) = Some q → i = 0 ∧ q = RunQ (Some 100) None None None 10 ∨
      i = 1 ∧ q = RunQ None None (Some 200) (Some 400) 10).
    destruct (decide (n < 254)%nat) as [Hn|Hn].
    + by rewrite lookup_replicate_2.
    + rewrite lookup_ge_None_2; [done|]. rewrite length_replicate. lia.
Qed.

Lemma demo_smp_rep cpu : rep (demo_smp cpu) demo_smp_queues (erase (demo_smp cpu)).
Proof.
  split; [|done]. split.
  - intros [|i] q; [by intros [= <-]; repeat constructor|].
    intros [[-> ->]|[-> ->]]%demo_smp_percpu; [by repeat constructor|].
    split; [done|done| |by repeat split]. apply (bool_decide_unpack _). by vm_compute.
  - intros [|[|[p|p|]|p]]; try done.
  - intros [|[|[p|p|]|p]] [|[|[p'|p'|]|p']] x; simpl; try done; try (by intros ?%elem_of_nil);
      by intros ? ?%elem_of_nil.
Qed.

Lemma demo_smp_ok cpu : cpu = 0 ∨ cpu = 1 → smp_ok (demo_smp cpu).
Proof.
  intros Hc. split; [done|done| |by split|by vm_compute].
  by destruct Hc as [-> | ->]; eexists.
Qed.


Lemma sched_balance_load_one_way_witness :
  wp sched_balance_load (λ _ s', s' = demo_smp 1) (demo_smp 1).
Proof.
  exact (sched_balance_load_one_way _ _ _ (demo_smp_rep 1) (demo_smp_ok 1 (or_intror eq_refl)) eq_refl eq_refl).
Defined.
