(* ===== verification/Ipc.v ===== *)
(** * Semaphores and message queues (ipc/sem.c, ipc/mqueue.c)

    Semaphores, queues and messages live at addresses of the kernel heap, from
    which they are allocated; tables of pointers hold the named objects and the
    open handles.  The lock of an object makes each of its operations atomic up
    to the point where the thread blocks; blocking, with all that other threads
    do until the thread runs again, is a parameter of the operations that
    wait.  Names and message contents are byte strings. *)

From S2P Require Import Prelude KHeap UAccess Sched.

Definition ENOENT : Z := 2.
Definition EBADF : Z := 9.
Definition EAGAIN : Z := 11.
Definition ENOMEM : Z := 12.
Definition EEXIST : Z := 17.
Definition EMFILE : Z := 24.
Definition ENOSPC : Z := 28.
Definition EMSGSIZE : Z := 90.

Definition O_CREAT : Z := 0x0100.
Definition O_EXCL : Z := 0x0200.
Definition O_NONBLOCK : Z := 0x1000.

Definition SEM_MAX : Z := 256.
Definition SEM_HANDLE_MAX : Z := 64.
Definition MQ_MAX : Z := 128.
Definition MQ_HANDLE_MAX : Z := 64.
Definition MQ_DEFAULT_MAXMSG : Z := 10.
Definition MQ_DEFAULT_MSGSIZE : Z := 8192.
Definition SIZEOF_SEM : Z := 288.
Definition SIZEOF_MQUEUE : Z := 328.
Definition SIZEOF_MESSAGE : Z := 32.

(** ** Data (sem.h, mqueue.h) *)

(** An array of waiting threads: its address, the threads in it, of which there
    are waiter_count, and its capacity. *)
Record waitq := WaitQ {
  wq_array : option Z;
  wq_threads : list Z;
  wq_capacity : Z }.

Definition set_wq_threads (v : list Z) (x : waitq) : waitq :=
  WaitQ (wq_array x) v (wq_capacity x).

Definition no_waiters : waitq := WaitQ None [] 0.

Record sem := Sem {
  sem_name : list Z;
  sem_value : Z;
  sem_refcount : Z;
  sem_unlinked : bool;
  sem_waiters : waitq }.

Definition set_sem_value (v : Z) (x : sem) : sem :=
  Sem (sem_name x) v (sem_refcount x) (sem_unlinked x) (sem_waiters x).
Definition set_sem_refcount (v : Z) (x : sem) : sem :=
  Sem (sem_name x) (sem_value x) v (sem_unlinked x) (sem_waiters x).
Definition set_sem_unlinked (v : bool) (x : sem) : sem :=
  Sem (sem_name x) (sem_value x) (sem_refcount x) v (sem_waiters x).
Definition set_sem_waiters (v : waitq) (x : sem) : sem :=
  Sem (sem_name x) (sem_value x) (sem_refcount x) (sem_unlinked x) v.

Record mq_attr := MqAttr {
  mq_flags : Z;
  mq_maxmsg : Z;
  mq_msgsize : Z;
  mq_curmsgs : Z }.

Definition set_mq_flags (v : Z) (x : mq_attr) : mq_attr :=
  MqAttr v (mq_maxmsg x) (mq_msgsize x) (mq_curmsgs x).
Definition set_mq_curmsgs (v : Z) (x : mq_attr) : mq_attr :=
  MqAttr (mq_flags x) (mq_maxmsg x) (mq_msgsize x) v.

(** [mm_bytes] is what [data] points to. *)
Record mq_message := MqMessage {
  mm_data : Z;
  mm_bytes : list Z;
  mm_size : Z;
  mm_priority : Z;
  mm_next : option Z }.

Definition set_mm_next (v : option Z) (x : mq_message) : mq_message :=
  MqMessage (mm_data x) (mm_bytes x) (mm_size x) (mm_priority x) v.

Record mqueue := MQueue {
  mq_name : list Z;
  mq_attr_ : mq_attr;
  mq_refcount : Z;
  mq_unlinked : bool;
  mq_head : option Z;
  mq_send : waitq;
  mq_recv : waitq }.

Definition set_mq_attr_ (v : mq_attr) (x : mqueue) : mqueue :=
  MQueue (mq_name x) v (mq_refcount x) (mq_unlinked x) (mq_head x) (mq_send x) (mq_recv x).
Definition set_mq_refcount (v : Z) (x : mqueue) : mqueue :=
  MQueue (mq_name x) (mq_attr_ x) v (mq_unlinked x) (mq_head x) (mq_send x) (mq_recv x).
Definition set_mq_unlinked (v : bool) (x : mqueue) : mqueue :=
  MQueue (mq_name x) (mq_attr_ x) (mq_refcount x) v (mq_head x) (mq_send x) (mq_recv x).
Definition set_mq_head (v : option Z) (x : mqueue) : mqueue :=
  MQueue (mq_name x) (mq_attr_ x) (mq_refcount x) (mq_unlinked x) v (mq_send x) (mq_recv x).
Definition set_mq_send (v : waitq) (x : mqueue) : mqueue :=
  MQueue (mq_name x) (mq_attr_ x) (mq_refcount x) (mq_unlinked x) (mq_head x) v (mq_recv x).
Definition set_mq_recv (v : waitq) (x : mqueue) : mqueue :=
  MQueue (mq_name x) (mq_attr_ x) (mq_refcount x) (mq_unlinked x) (mq_head x) (mq_send x) v.

Section ipc.
Context {S : Type} {KH : KHeap S}.

Record ipc := Ipc {
  ip_heap : S;
  ip_sched : sched;
  ip_sems : gmap Z sem;
  ip_sem_table : list (option Z);
  ip_sem_handles : list (option Z);
  ip_mqs : gmap Z mqueue;
  ip_msgs : gmap Z mq_message;
  ip_mq_table : list (option Z);
  ip_mq_handles : list (option Z) }.

Definition set_ip_heap (v : S) (s : ipc) : ipc :=
  Ipc v (ip_sched s) (ip_sems s) (ip_sem_table s) (ip_sem_handles s) (ip_mqs s) (ip_msgs s)
    (ip_mq_table s) (ip_mq_handles s).
Definition set_ip_sched (v : sched) (s : ipc) : ipc :=
  Ipc (ip_heap s) v (ip_sems s) (ip_sem_table s) (ip_sem_handles s) (ip_mqs s) (ip_msgs s)
    (ip_mq_table s) (ip_mq_handles s).
Definition set_ip_sems (v : gmap Z sem) (s : ipc) : ipc :=
  Ipc (ip_heap s) (ip_sched s) v (ip_sem_table s) (ip_sem_handles s) (ip_mqs s) (ip_msgs s)
    (ip_mq_table s) (ip_mq_handles s).
Definition set_ip_sem_table (v : list (option Z)) (s : ipc) : ipc :=
  Ipc (ip_heap s) (ip_sched s) (ip_sems s) v (ip_sem_handles s) (ip_mqs s) (ip_msgs s)
    (ip_mq_table s) (ip_mq_handles s).
Definition set_ip_sem_handles (v : list (option Z)) (s : ipc) : ipc :=
  Ipc (ip_heap s) (ip_sched s) (ip_sems s) (ip_sem_table s) v (ip_mqs s) (ip_msgs s) (ip_mq_table
    s) (ip_mq_handles s).
Definition set_ip_mqs (v : gmap Z mqueue) (s : ipc) : ipc :=
  Ipc (ip_heap s) (ip_sched s) (ip_sems s) (ip_sem_table s) (ip_sem_handles s) v (ip_msgs s)
    (ip_mq_table s) (ip_mq_handles s).
Definition set_ip_msgs (v : gmap Z mq_message) (s : ipc) : ipc :=
  Ipc (ip_heap s) (ip_sched s) (ip_sems s) (ip_sem_table s) (ip_sem_handles s) (ip_mqs s) v
    (ip_mq_table s) (ip_mq_handles s).
Definition set_ip_mq_table (v : list (option Z)) (s : ipc) : ipc :=
  Ipc (ip_heap s) (ip_sched s) (ip_sems s) (ip_sem_table s) (ip_sem_handles s) (ip_mqs s) (ip_msgs
    s) v (ip_mq_handles s).
Definition set_ip_mq_handles (v : list (option Z)) (s : ipc) : ipc :=
  Ipc (ip_heap s) (ip_sched s) (ip_sems s) (ip_sem_table s) (ip_sem_handles s) (ip_mqs s) (ip_msgs
    s) (ip_mq_table s) v.

Abbreviation IM := (M ipc).

Definition heap_ {A} (c : M S A) : IM A := zoom ip_heap set_ip_heap c.
Definition sched_ {A} (c : SM A) : IM A := zoom ip_sched set_ip_sched c.

Definition rd_sem (x : Z) : IM sem := s ← get; lift (ip_sems s !! x).
Definition upd_sem (x : Z) (f : sem → sem) : IM unit :=
  m ← rd_sem x; modify (λ s, set_ip_sems (<[x := f m]> (ip_sems s)) s).

Definition rd_mq (x : Z) : IM mqueue := s ← get; lift (ip_mqs s !! x).
Definition upd_mq (x : Z) (f : mqueue → mqueue) : IM unit :=
  q ← rd_mq x; modify (λ s, set_ip_mqs (<[x := f q]> (ip_mqs s)) s).

Definition rd_msg (x : Z) : IM mq_message := s ← get; lift (ip_msgs s !! x).
Definition upd_msg (x : Z) (f : mq_message → mq_message) : IM unit :=
  m ← rd_msg x; modify (λ s, set_ip_msgs (<[x := f m]> (ip_msgs s)) s).

(** The sum of two ints: overflow is undefined. *)
Definition add_int (a b : Z) : IM Z :=
  if (- 2 ^ 31 <=? a + b) && (a + b <? 2 ^ 31) then mret (a + b) else fault.

(** ** Tables *)

(** The first free slot of a table of pointers. *)
Fixpoint free_slot (l : list (option Z)) (i : Z) : option Z :=
  match l with
  | [] => None
  | None :: _ => Some i
  | Some _ :: l' => free_slot l' (i + 1)
  end.

(** The table without the object [x]: its first occurrence is cleared. *)
Fixpoint clear_slot (l : list (option Z)) (x : Z) : list (option Z) :=
  match l with
  | [] => []
  | Some y :: l' => if y =? x then None :: l' else Some y :: clear_slot l' x
  | None :: l' => None :: clear_slot l' x
  end.

(** The first object of a table that satisfies a condition, if all of it up to
    that one can be read. *)
Fixpoint find_object {T} (objs : gmap Z T) (cond : T → bool) (l : list (option Z)) : IM (option Z) :=
  match l with
  | [] => mret None
  | None :: l' => find_object objs cond l'
  | Some x :: l' =>
      o ← lift (objs !! x);
      if cond o then mret (Some x) else find_object objs cond l'
  end.

(** The names that the operations accept start with a slash; a stored name has
    at most 255 characters. *)
Definition valid_name (name : option (list Z)) : option (list Z) :=
  match name with
  | Some (47 :: _ as n) => Some n
  | _ => None
  end.

Definition stored_name (name : list Z) : list Z := take 255 name.

Definition same_name (a b : list Z) : bool := bool_decide (a = b).

(** The pointer that a handle stands for. *)
Definition handle_get (max : Z) (handles : list (option Z)) (handle : Z) : IM (option Z) :=
  if (handle <? 0) || (max <=? handle) then mret None else lift (aget handles handle).

(** ** Waiting threads *)

Definition add_waiter (q : waitq) (t : Z) : IM (Z * waitq) :=
  r ← (if wq_capacity q <=? alen (wq_threads q) then
         let new_capacity := if wq_capacity q =? 0 then 4 else wq_capacity q * 2 in
         if 2 ^ 31 <=? new_capacity then fault
         else
           a ← heap_ (kh_kmalloc (new_capacity * 8));
           match a with
           | None => mret None
           | Some p =>
               match wq_array q with Some old => heap_ (kh_kfree old) | None => mret tt end ;;
               mret (Some (WaitQ (Some p) (wq_threads q) new_capacity))
           end
       else mret (Some q));
  match r with
  | None => mret (- ENOMEM, q)
  | Some q' => mret (0, set_wq_threads (wq_threads q' ++ [t]) q')
  end.

(** The first waiter, and the queue without it. *)
Definition remove_waiter (q : waitq) : Z * waitq :=
  match wq_threads q with
  | [] => (0, q)
  | t :: ts => (t, set_wq_threads ts q)
  end.

Definition unblock (t : Z) : IM unit :=
  if negb (t =? 0) then sched_ (thread_unblock (Some t)) else mret tt.

Definition free_waiters (q : waitq) : IM unit :=
  match wq_array q with Some p => heap_ (kh_kfree p) | None => mret tt end.

(** ** Semaphores (sem.c) *)

Definition sem_init_subsystem : IM unit :=
  modify (λ s, set_ip_sem_handles (replicate (Z.to_nat SEM_HANDLE_MAX) None)
                 (set_ip_sem_table (replicate (Z.to_nat SEM_MAX) None) s)).

Definition sem_find_by_name (name : list Z) : IM (option Z) :=
  s ← get; find_object (ip_sems s) (λ m, same_name (sem_name m) name) (ip_sem_table s).

Definition sem_alloc_handle (x : Z) : IM Z :=
  s ← get;
  match free_slot (ip_sem_handles s) 0 with
  | Some i => put (set_ip_sem_handles (aset (ip_sem_handles s) i (Some x)) s) ;; mret i
  | None => mret (- EMFILE)
  end.

Definition sem_get_by_handle (handle : Z) : IM (option Z) :=
  s ← get; handle_get SEM_HANDLE_MAX (ip_sem_handles s) handle.

Definition sem_free_handle (handle : Z) : IM unit :=
  if (handle <? 0) || (SEM_HANDLE_MAX <=? handle) then mret tt
  else modify (λ s, set_ip_sem_handles (aset (ip_sem_handles s) handle None) s).

Definition sem_add_waiter (x t : Z) : IM Z :=
  m ← rd_sem x;
  r ← add_waiter (sem_waiters m) t;
  upd_sem x (set_sem_waiters r.2) ;; mret r.1.

Definition sem_remove_waiter (x : Z) : IM Z :=
  m ← rd_sem x;
  let r := remove_waiter (sem_waiters m) in
  upd_sem x (set_sem_waiters r.2) ;; mret r.1.

Definition sem_open_syscall (name : option (list Z)) (oflag value : Z) : IM Z :=
  match valid_name name with
  | None => mret (- EINVAL)
  | Some name =>
      found ← sem_find_by_name name;
      match found with
      | Some x =>
          m ← rd_sem x;
          if has oflag O_EXCL then mret (- EEXIST)
          else if sem_unlinked m then mret (- ENOENT)
          else n ← add_int (sem_refcount m) 1; upd_sem x (set_sem_refcount n) ;; sem_alloc_handle x
      | None =>
          if negb (has oflag O_CREAT) then mret (- ENOENT)
          else
            s ← get;
            match free_slot (ip_sem_table s) 0 with
            | None => mret (- ENOSPC)
            | Some slot =>
                a ← heap_ (kh_kmalloc SIZEOF_SEM);
                match a with
                | None => mret (- ENOMEM)
                | Some x =>
                    modify (λ s, set_ip_sem_table (aset (ip_sem_table s) slot (Some x))
                      (set_ip_sems (<[x := Sem (stored_name name) (int32 value) 1 false no_waiters]> (ip_sems s)) s)) ;;
                    sem_alloc_handle x
                end
            end
      end
  end.

(** Out of the table, and back to the heap. *)
Definition sem_destroy (x : Z) : IM unit :=
  modify (λ s, set_ip_sem_table (clear_slot (ip_sem_table s) x) s) ;;
  m ← rd_sem x;
  free_waiters (sem_waiters m) ;;
  heap_ (kh_kfree x) ;;
  modify (λ s, set_ip_sems (delete x (ip_sems s)) s).

Definition sem_close_syscall (sem_id : Z) : IM Z :=
  h ← sem_get_by_handle sem_id;
  match h with
  | None => mret (- EINVAL)
  | Some x =>
      m ← rd_sem x;
      n ← add_int (sem_refcount m) (-1);
      upd_sem x (set_sem_refcount n) ;;
      let should_free := (n =? 0) && sem_unlinked m in
      sem_free_handle sem_id ;;
      (if should_free then sem_destroy x else mret tt) ;;
      mret 0
  end.

Definition sem_unlink_syscall (name : option (list Z)) : IM Z :=
  match valid_name name with
  | None => mret (- EINVAL)
  | Some name =>
      found ← sem_find_by_name name;
      match found with
      | None => mret (- ENOENT)
      | Some x =>
          upd_sem x (set_sem_unlinked true) ;;
          m ← rd_sem x;
          (if sem_refcount m =? 0 then sem_destroy x else mret tt) ;;
          mret 0
      end
  end.

(** The part of the loop of sem_wait_syscall that runs under the lock: the
    result of the call, or [None] when the thread has put itself among the
    waiters and goes on to block. *)
Definition sem_wait_turn (x : Z) : IM (option Z) :=
  m ← rd_sem x;
  if sem_value m =? 0 then
    current ← sched_ thread_current;
    match current with
    | None => mret (Some (- EINVAL))
    | Some t =>
        ret ← sem_add_waiter x t;
        mret (if ret <? 0 then Some ret else None)
    end
  else
    n ← add_int (sem_value m) (-1);
    upd_sem x (set_sem_value n) ;;
    mret (Some 0).

Section wait.

(** [thread_block(); sched_reschedule();], with all that other threads do before
    the thread runs again. *)
Variable wait : IM unit.

Fixpoint sem_wait_loop (fuel : nat) (x : Z) : IM Z :=
  match fuel with
  | O => fault
  | Datatypes.S fuel' =>
      r ← sem_wait_turn x;
      match r with
      | Some v => mret v
      | None => wait ;; sem_wait_loop fuel' x
      end
  end.

Definition sem_wait_syscall (fuel : nat) (sem_id : Z) : IM Z :=
  h ← sem_get_by_handle sem_id;
  match h with None => mret (- EINVAL) | Some x => sem_wait_loop fuel x end.

End wait.

Definition sem_post_syscall (sem_id : Z) : IM Z :=
  h ← sem_get_by_handle sem_id;
  match h with
  | None => mret (- EINVAL)
  | Some x =>
      m ← rd_sem x;
      n ← add_int (sem_value m) 1;
      upd_sem x (set_sem_value n) ;;
      (if 0 <? alen (wq_threads (sem_waiters m)) then t ← sem_remove_waiter x; unblock t else mret tt) ;;
      mret 0
  end.

Definition sem_trywait_syscall (sem_id : Z) : IM Z :=
  h ← sem_get_by_handle sem_id;
  match h with
  | None => mret (- EINVAL)
  | Some x =>
      m ← rd_sem x;
      if sem_value m =? 0 then mret (- EAGAIN)
      else
        n ← add_int (sem_value m) (-1);
        upd_sem x (set_sem_value n) ;;
        mret 0
  end.

(** With the result, the value that is stored. *)
Definition sem_getvalue_syscall (sem_id : Z) (sval : bool) : IM (Z * option Z) :=
  h ← sem_get_by_handle sem_id;
  match h with
  | None => mret (- EINVAL, None)
  | Some x =>
      if negb sval then mret (- EFAULT, None)
      else m ← rd_sem x; mret (0, Some (sem_value m))
  end.

(** ** Message queues (mqueue.c) *)

Definition mq_init_subsystem : IM unit :=
  modify (λ s, set_ip_mq_handles (replicate (Z.to_nat MQ_HANDLE_MAX) None)
                 (set_ip_mq_table (replicate (Z.to_nat MQ_MAX) None) s)).

Definition mq_find_by_name (name : list Z) : IM (option Z) :=
  s ← get; find_object (ip_mqs s) (λ q, same_name (mq_name q) name) (ip_mq_table s).

Definition mq_alloc_handle (x : Z) : IM Z :=
  s ← get;
  match free_slot (ip_mq_handles s) 0 with
  | Some i => put (set_ip_mq_handles (aset (ip_mq_handles s) i (Some x)) s) ;; mret i
  | None => mret (- EMFILE)
  end.

Definition mq_get_by_handle (handle : Z) : IM (option Z) :=
  s ← get; handle_get MQ_HANDLE_MAX (ip_mq_handles s) handle.

Definition mq_free_handle (handle : Z) : IM unit :=
  if (handle <? 0) || (MQ_HANDLE_MAX <=? handle) then mret tt
  else modify (λ s, set_ip_mq_handles (aset (ip_mq_handles s) handle None) s).

(** [while (prev->next && prev->next->priority >= msg->priority)]: a queue has
    no more messages than there are, which bounds the walk. *)
Fixpoint insert_place (fuel : nat) (prev priority : Z) : IM Z :=
  match fuel with
  | O => fault
  | Datatypes.S fuel' =>
      p ← rd_msg prev;
      match mm_next p with
      | None => mret prev
      | Some n =>
          nm ← rd_msg n;
          if priority <=? mm_priority nm then insert_place fuel' n priority else mret prev
      end
  end.

Definition mq_insert_message (x msg : Z) : IM unit :=
  q ← rd_mq x;
  m ← rd_msg msg;
  at_head ← match mq_head q with
            | None => mret true
            | Some h => hm ← rd_msg h; mret (mm_priority hm <? mm_priority m)
            end;
  if (at_head : bool) then
    upd_msg msg (set_mm_next (mq_head q)) ;; upd_mq x (set_mq_head (Some msg))
  else
    h ← lift (mq_head q);
    s ← get;
    prev ← insert_place (Datatypes.S (size (ip_msgs s))) h (mm_priority m);
    p ← rd_msg prev;
    upd_msg msg (set_mm_next (mm_next p)) ;; upd_msg prev (set_mm_next (Some msg)).

Definition mq_remove_message (x : Z) : IM (option Z) :=
  q ← rd_mq x;
  match mq_head q with
  | None => mret None
  | Some msg =>
      m ← rd_msg msg;
      upd_mq x (set_mq_head (mm_next m)) ;;
      upd_msg msg (set_mm_next None) ;;
      mret (Some msg)
  end.

Definition mq_add_send_waiter (x t : Z) : IM Z :=
  q ← rd_mq x; r ← add_waiter (mq_send q) t; upd_mq x (set_mq_send r.2) ;; mret r.1.

Definition mq_add_recv_waiter (x t : Z) : IM Z :=
  q ← rd_mq x; r ← add_waiter (mq_recv q) t; upd_mq x (set_mq_recv r.2) ;; mret r.1.

Definition mq_wake_send_waiter (x : Z) : IM unit :=
  q ← rd_mq x;
  if 0 <? alen (wq_threads (mq_send q)) then
    let r := remove_waiter (mq_send q) in upd_mq x (set_mq_send r.2) ;; unblock r.1
  else mret tt.

Definition mq_wake_recv_waiter (x : Z) : IM unit :=
  q ← rd_mq x;
  if 0 <? alen (wq_threads (mq_recv q)) then
    let r := remove_waiter (mq_recv q) in upd_mq x (set_mq_recv r.2) ;; unblock r.1
  else mret tt.

Definition default_attr : mq_attr := MqAttr 0 MQ_DEFAULT_MAXMSG MQ_DEFAULT_MSGSIZE 0.

Definition mq_open_syscall (name : option (list Z)) (oflag : Z) (attr : option mq_attr) : IM Z :=
  match valid_name name with
  | None => mret (- EINVAL)
  | Some name =>
      found ← mq_find_by_name name;
      match found with
      | Some x =>
          q ← rd_mq x;
          if has oflag O_EXCL then mret (- EEXIST)
          else if mq_unlinked q then mret (- ENOENT)
          else n ← add_int (mq_refcount q) 1; upd_mq x (set_mq_refcount n) ;; mq_alloc_handle x
      | None =>
          if negb (has oflag O_CREAT) then mret (- ENOENT)
          else
            s ← get;
            match free_slot (ip_mq_table s) 0 with
            | None => mret (- ENOSPC)
            | Some slot =>
                a ← heap_ (kh_kmalloc SIZEOF_MQUEUE);
                match a with
                | None => mret (- ENOMEM)
                | Some x =>
                    modify (λ s, set_ip_mq_table (aset (ip_mq_table s) slot (Some x))
                      (set_ip_mqs (<[x := MQueue (stored_name name) (default default_attr attr) 1 false None
                                            no_waiters no_waiters]> (ip_mqs s)) s)) ;;
                    mq_alloc_handle x
                end
            end
      end
  end.

(** [while (mq->head)]: free all messages. *)
Fixpoint free_messages (fuel : nat) (x : Z) : IM unit :=
  q ← rd_mq x;
  match mq_head q, fuel with
  | None, _ => mret tt
  | Some _, O => fault
  | Some _, Datatypes.S fuel' =>
      msg ← mq_remove_message x;
      match msg with
      | None => free_messages fuel' x
      | Some a =>
          m ← rd_msg a;
          heap_ (kh_kfree (mm_data m)) ;; heap_ (kh_kfree a) ;;
          modify (λ s, set_ip_msgs (delete a (ip_msgs s)) s) ;;
          free_messages fuel' x
      end
  end.

Definition mq_destroy (x : Z) : IM unit :=
  modify (λ s, set_ip_mq_table (clear_slot (ip_mq_table s) x) s) ;;
  s ← get;
  free_messages (size (ip_msgs s)) x ;;
  q ← rd_mq x;
  free_waiters (mq_send q) ;; free_waiters (mq_recv q) ;;
  heap_ (kh_kfree x) ;;
  modify (λ s, set_ip_mqs (delete x (ip_mqs s)) s).

Definition mq_close_syscall (mqdes : Z) : IM Z :=
  h ← mq_get_by_handle mqdes;
  match h with
  | None => mret (- EBADF)
  | Some x =>
      q ← rd_mq x;
      n ← add_int (mq_refcount q) (-1);
      upd_mq x (set_mq_refcount n) ;;
      let should_free := (n =? 0) && mq_unlinked q in
      mq_free_handle mqdes ;;
      (if should_free then mq_destroy x else mret tt) ;;
      mret 0
  end.

Definition mq_unlink_syscall (name : option (list Z)) : IM Z :=
  match valid_name name with
  | None => mret (- EINVAL)
  | Some name =>
      found ← mq_find_by_name name;
      match found with
      | None => mret (- ENOENT)
      | Some x =>
          upd_mq x (set_mq_unlinked true) ;;
          q ← rd_mq x;
          (if mq_refcount q =? 0 then mq_destroy x else mret tt) ;;
          mret 0
      end
  end.

(** An int converted to size_t. *)
Definition size_of_int (z : Z) : Z := wrap64 z.

Section blocking.
Variable wait : IM unit.

(** The loop of mq_send_syscall: [None] when there is room. *)
Fixpoint send_room (fuel : nat) (x : Z) : IM (option Z) :=
  match fuel with
  | O => fault
  | Datatypes.S fuel' =>
      q ← rd_mq x;
      if mq_maxmsg (mq_attr_ q) <=? mq_curmsgs (mq_attr_ q) then
        if has (mq_flags (mq_attr_ q)) O_NONBLOCK then mret (Some (- EAGAIN))
        else
          current ← sched_ thread_current;
          match current with
          | None => mret (Some (- EINVAL))
          | Some t =>
              ret ← mq_add_send_waiter x t;
              if ret <? 0 then mret (Some ret) else wait ;; send_room fuel' x
          end
      else mret None
  end.

Definition mq_send_syscall (fuel : nat) (mqdes : Z) (data : list Z) (prio : Z) : IM Z :=
  h ← mq_get_by_handle mqdes;
  match h with
  | None => mret (- EBADF)
  | Some x =>
      q ← rd_mq x;
      if size_of_int (mq_msgsize (mq_attr_ q)) <? alen data then mret (- EMSGSIZE)
      else
        r ← send_room fuel x;
        match r with
        | Some e => mret e
        | None =>
            a ← heap_ (kh_kmalloc SIZEOF_MESSAGE);
            match a with
            | None => mret (- ENOMEM)
            | Some msg =>
                b ← heap_ (kh_kmalloc (alen data));
                match b with
                | None => heap_ (kh_kfree msg) ;; mret (- ENOMEM)
                | Some d =>
                    modify (λ s, set_ip_msgs (<[msg := MqMessage d data (alen data) prio None]> (ip_msgs s)) s) ;;
                    mq_insert_message x msg ;;
                    upd_mq x (λ q, set_mq_attr_ (set_mq_curmsgs (mq_curmsgs (mq_attr_ q) + 1) (mq_attr_ q)) q) ;;
                    mq_wake_recv_waiter x ;;
                    mret 0
                end
            end
        end
  end.

Fixpoint recv_room (fuel : nat) (x : Z) : IM (option Z) :=
  match fuel with
  | O => fault
  | Datatypes.S fuel' =>
      q ← rd_mq x;
      if mq_curmsgs (mq_attr_ q) =? 0 then
        if has (mq_flags (mq_attr_ q)) O_NONBLOCK then mret (Some (- EAGAIN))
        else
          current ← sched_ thread_current;
          match current with
          | None => mret (Some (- EINVAL))
          | Some t =>
              ret ← mq_add_recv_waiter x t;
              if ret <? 0 then mret (Some ret) else wait ;; recv_room fuel' x
          end
      else mret None
  end.

(** The result, and what is copied to the buffer and stored as the priority. *)
Definition mq_receive_syscall (fuel : nat) (mqdes msg_len : Z) : IM (Z * option (list Z * Z)) :=
  h ← mq_get_by_handle mqdes;
  match h with
  | None => mret (- EBADF, None)
  | Some x =>
      q ← rd_mq x;
      if msg_len <? size_of_int (mq_msgsize (mq_attr_ q)) then mret (- EMSGSIZE, None)
      else
        r ← recv_room fuel x;
        match r with
        | Some e => mret (e, None)
        | None =>
            msg ← mq_remove_message x;
            match msg with
            | None => mret (- EINVAL, None)
            | Some a =>
                upd_mq x (λ q, set_mq_attr_ (set_mq_curmsgs (mq_curmsgs (mq_attr_ q) - 1) (mq_attr_ q)) q) ;;
                m ← rd_msg a;
                let copy_len := if mm_size m <? msg_len then mm_size m else msg_len in
                let ret_len := mm_size m in
                heap_ (kh_kfree (mm_data m)) ;; heap_ (kh_kfree a) ;;
                modify (λ s, set_ip_msgs (delete a (ip_msgs s)) s) ;;
                mq_wake_send_waiter x ;;
                mret (int32 ret_len, Some (take (Z.to_nat copy_len) (mm_bytes m), mm_priority m))
            end
        end
  end.

End blocking.

Definition mq_getattr_syscall (mqdes : Z) (attr : bool) : IM (Z * option mq_attr) :=
  h ← mq_get_by_handle mqdes;
  match h with
  | None => mret (- EBADF, None)
  | Some x =>
      if negb attr then mret (- EFAULT, None)
      else q ← rd_mq x; mret (0, Some (mq_attr_ q))
  end.

Definition mq_setattr_syscall (mqdes : Z) (newattr : option mq_attr) : IM (Z * option mq_attr) :=
  h ← mq_get_by_handle mqdes;
  match h with
  | None => mret (- EBADF, None)
  | Some x =>
      match newattr with
      | None => mret (- EFAULT, None)
      | Some n =>
          q ← rd_mq x;
          upd_mq x (λ q, set_mq_attr_ (set_mq_flags (mq_flags n) (mq_attr_ q)) q) ;;
          mret (0, Some (mq_attr_ q))
      end
  end.

End ipc.

Arguments ipc S : clear implicits.
