(* ===== verification/MqThm.v ===== *)
(** * Message queues: priority order

    A queue refines a list of entries: [mq_ok s C H Q] says that every queue of
    [Q] is the list of its messages, linked through the heap, with blocks that
    no two messages share.  Sending inserts an entry behind those of at least
    its priority, receiving takes the first one, and both move the blocks of the
    message between the heap and the queue. *)

From S2P Require Import Prelude KHeap UAccess Sched Ipc.

(** ** Lists in priority order *)

(** [x] behind the elements of at least its priority. *)
Fixpoint insert_by {A} (key : A → Z) (x : A) (l : list A) : list A :=
  match l with
  | [] => [x]
  | y :: l' => if key x <=? key y then y :: insert_by key x l' else x :: l
  end.

(** [l] without what was inserted: one insertion after the other. *)
Definition insert_all {A} (key : A → Z) (xs l : list A) : list A :=
  foldl (λ l x, insert_by key x l) l xs.

Section lists.
Context {A : Type} (key : A → Z).
Implicit Types (x y : A) (l : list A).

Definition descending l : Prop := ∀ i j x y, (i < j)%nat → l !! i = Some x → l !! j = Some y → key y ≤ key x.

Lemma descending_cons x l : descending (x :: l) ↔ (∀ y, y ∈ l → key y ≤ key x) ∧ descending l.
Proof.
  split.
  - intros Hd. split.
    + intros y [j Hj]%list_elem_of_lookup. by apply (Hd 0%nat (S j) x y); [lia| |].
    + intros i j u v Hij Hi Hj. apply (Hd (S i) (S j) u v); [lia|done|done].
  - intros [Hx Hd] [|i] [|j] u v Hij Hi Hj; cbn in Hi, Hj; [lia| |lia|].
    + injection Hi as <-. by apply Hx, list_elem_of_lookup_2 with j.
    + apply (Hd i j u v); [lia|done|done].
Qed.

Lemma elem_of_insert_by x y l : y ∈ insert_by key x l ↔ y = x ∨ y ∈ l.
Proof.
  induction l as [|z l IH]; cbn [insert_by]; [rewrite list_elem_of_singleton, elem_of_nil; tauto|].
  destruct (key x <=? key z); rewrite ?elem_of_cons, ?IH; tauto.
Qed.

Lemma descending_insert_by x l : descending l → descending (insert_by key x l).
Proof.
  induction l as [|z l IH]; intros Hd; cbn [insert_by].
  { apply descending_cons. split; [intros y []%elem_of_nil|done]. }
  pose proof Hd as Hd0. apply descending_cons in Hd as [Hz Hd]. destruct (Z.leb_spec (key x) (key z)) as [Hle|Hlt].
  - apply descending_cons. split; [|by apply IH]. intros y [->|Hy]%elem_of_insert_by; [done|by apply Hz].
  - apply descending_cons. split; [|done]. intros y [->|Hy]%elem_of_cons; [lia|]. specialize (Hz y Hy). lia.
Qed.

Lemma length_insert_by x l : length (insert_by key x l) = S (length l).
Proof. induction l as [|z l IH]; cbn [insert_by]; [done|]. destruct (key x <=? key z); cbn; by rewrite ?IH. Qed.

Lemma filter_none (P : A → Prop) `{!∀ x, Decision (P x)} l : (∀ x, x ∈ l → ¬ P x) → filter P l = [].
Proof.
  induction l as [|x l IH]; intros Hl; [done|]. rewrite filter_cons, decide_False by (apply Hl; by left).
  apply IH. intros y Hy. apply Hl. by right.
Qed.

(** Among the elements of one priority, the order of insertion. *)
Definition of_key (p : Z) (l : list A) : list A := filter (λ x, key x = p) l.

Lemma of_key_insert_by p x l :
  descending l → of_key p (insert_by key x l) = of_key p l ++ of_key p [x].
Proof.
  unfold of_key. induction l as [|z l IH]; intros Hd; cbn [insert_by]; [done|].
  apply descending_cons in Hd as [Hz Hd]. destruct (Z.leb_spec (key x) (key z)) as [Hle|Hlt].
  - rewrite !filter_cons. rewrite IH by done. by destruct (decide (key z = p)).
  - rewrite (filter_cons _ x (z :: l)), (filter_cons _ x []). destruct (decide (key x = p)) as [Hp|Hp]; last first.
    { by rewrite filter_nil, app_nil_r. }
    rewrite filter_none; [done|]. intros u [->|Hu]%elem_of_cons; [lia|]. specialize (Hz u Hu). lia.
Qed.

Lemma insert_all_sorted xs l : descending l → descending (insert_all key xs l).
Proof. revert l. induction xs as [|x xs IH]; intros l Hd; [done|]. by apply IH, descending_insert_by. Qed.

Lemma insert_all_stable p xs l :
  descending l → of_key p (insert_all key xs l) = of_key p l ++ of_key p xs.
Proof.
  revert l. induction xs as [|x xs IH]; intros l Hd; [by rewrite app_nil_r|].
  change (insert_all key (x :: xs) l) with (insert_all key xs (insert_by key x l)).
  rewrite IH by by apply descending_insert_by. rewrite of_key_insert_by by done.
  unfold of_key. rewrite <-app_assoc, <-filter_app. done.
Qed.

End lists.

Lemma insert_by_map {A B} (f : A → B) (key : B → Z) x l :
  f <$> insert_by (key ∘ f) x l = insert_by key (f x) (f <$> l).
Proof.
  induction l as [|y l IH]; [done|]. cbn [insert_by fmap list_fmap]. unfold compose in *.
  destruct (key (f x) <=? key (f y)); [|done]. cbn [fmap list_fmap]. by rewrite <-IH.
Qed.

(** ** Queues *)

(** A message: where it is, where its contents are, its contents and its
    priority. *)
Record entry := Entry {
  e_addr : Z;
  e_data : Z;
  e_bytes : list Z;
  e_prio : Z }.

Definition message_of (e : entry) (next : option Z) : mq_message :=
  MqMessage (e_data e) (e_bytes e) (alen (e_bytes e)) (e_prio e) next.

(** The messages of a list are linked from [o] to [n]. *)
Fixpoint seg (ms : gmap Z mq_message) (o : option Z) (l : list entry) (n : option Z) : Prop :=
  match l with
  | [] => o = n
  | e :: l' => o = Some (e_addr e) ∧ ∃ k, ms !! e_addr e = Some (message_of e k) ∧ seg ms k l' n
  end.

(** The blocks of a list of messages. *)
Definition entry_blocks (e : entry) : list (Z * Z) :=
  [(e_addr e, SIZEOF_MESSAGE); (e_data e, alen (e_bytes e))].

Definition blocks_of (l : list entry) : list (Z * Z) := l ≫= entry_blocks.

Definition places (l : list entry) : list Z := (blocks_of l).*1.

(** What the scheduler is after the first of the waiters was woken. *)
Definition after_wake (q : waitq) (d : sched) : option sched :=
  match wq_threads q with
  | [] => Some d
  | t :: _ => if t =? 0 then Some d else snd <$> thread_unblock (Some t) d
  end.

(** The contents of a queue, as the programs see them. *)
Definition e_msg (e : entry) : list Z * Z := (e_bytes e, e_prio e).

Section mq.
Context {S : Type} {KH : KHeap S}.
Implicit Types (s : ipc S) (C : gmap Z Z) (H : blocks) (x y a : Z) (q : mqueue) (l : list entry) (e : entry).

Record mqueue_ok s H x q l : Prop := MQueueOk {
  qo_at : ip_mqs s !! x = Some q;
  qo_seg : seg (ip_msgs s) (mq_head q) l None;
  qo_count : mq_curmsgs (mq_attr_ q) = alen l;
  qo_room : alen l < 2 ^ 31;
  qo_fits : ∀ e, e ∈ l → alen (e_bytes e) ≤ size_of_int (mq_msgsize (mq_attr_ q)) ∧
                   alen (e_bytes e) ≤ KMALLOC_LIMIT;
  qo_held : ∀ p n, (p, n) ∈ blocks_of l → H !! p = Some (None, n);
  qo_apart : NoDup (places l) }.

Record mq_ok s C H (Q : gmap Z (list entry)) : Prop := MqOk {
  mo_heap : kh_inv (ip_heap s) C H;
  mo_handles : alen (ip_mq_handles s) = MQ_HANDLE_MAX;
  mo_queues : ∀ x l, Q !! x = Some l → ∃ q, mqueue_ok s H x q l;
  mo_apart : ∀ x y l l' p, Q !! x = Some l → Q !! y = Some l' → x ≠ y → p ∈ places l → p ∉ places l' }.

(** *** Linked messages *)

Lemma seg_app ms o l1 l2 n : seg ms o (l1 ++ l2) n ↔ ∃ k, seg ms o l1 k ∧ seg ms k l2 n.
Proof.
  revert o. induction l1 as [|e l1 IH]; intros o; cbn [app seg].
  - split; [by exists o|by intros (k & -> & Hk)].
  - split.
    + intros (Ho & k & Hk & (k' & H1 & H2)%IH). exists k'. eauto.
    + intros (k' & (Ho & k & Hk & H1) & H2). split; [done|]. exists k. split; [done|]. apply IH. eauto.
Qed.

Lemma seg_frame ms ms' o l n :
  (∀ e, e ∈ l → ms' !! e_addr e = ms !! e_addr e) → seg ms o l n → seg ms' o l n.
Proof.
  revert o. induction l as [|e l IH]; intros o Hf; cbn [seg]; [done|].
  intros (Ho & k & Hk & Hl). split; [done|]. exists k. split.
  - rewrite Hf; [done|by left].
  - apply IH; [|done]. intros e' He'. apply Hf. by right.
Qed.

Lemma seg_lookup ms o l n e : seg ms o l n → e ∈ l → ∃ k, ms !! e_addr e = Some (message_of e k).
Proof.
  revert o. induction l as [|f l IH]; intros o; cbn [seg]; [by intros _ []%elem_of_nil|].
  intros (_ & k & Hk & Hl) [->|He]%elem_of_cons; [eauto|by eapply IH].
Qed.

Lemma elem_of_places l p : p ∈ places l ↔ ∃ e, e ∈ l ∧ (p = e_addr e ∨ p = e_data e).
Proof.
  unfold places, blocks_of. rewrite list_elem_of_fmap. setoid_rewrite list_elem_of_bind. unfold entry_blocks. split.
  - intros ([a n] & -> & e & Hin & He). exists e. split; [done|]. set_solver.
  - intros (e & He & [->| ->]).
    + exists (e_addr e, SIZEOF_MESSAGE). split; [done|]. exists e. split; [by left|done].
    + exists (e_data e, alen (e_bytes e)). split; [done|]. exists e. split; [right; by left|done].
Qed.

Lemma addr_in_places l e : e ∈ l → e_addr e ∈ places l.
Proof. intros He. apply elem_of_places. eauto. Qed.

Lemma places_app l1 l2 : places (l1 ++ l2) = places l1 ++ places l2.
Proof. unfold places, blocks_of. by rewrite bind_app, fmap_app. Qed.

Lemma places_cons e l : places (e :: l) = e_addr e :: e_data e :: places l.
Proof. done. Qed.

Lemma addrs_nodup l : NoDup (places l) → NoDup (e_addr <$> l).
Proof.
  induction l as [|e l IH]; [constructor|]. rewrite places_cons. intros [Ha [Hd Hn]%NoDup_cons]%NoDup_cons.
  cbn. constructor; [|by apply IH]. intros (f & Hf & Hin)%list_elem_of_fmap. apply Ha. right.
  rewrite Hf. by apply addr_in_places.
Qed.

(** *** Where a message goes *)

Lemma wp_rd_msg s a m (P : mq_message → ipc S → Prop) :
  ip_msgs s !! a = Some m → P m s → wp (rd_msg a) P s.
Proof. intros Ha HP. unfold rd_msg. wp_step. wp_step. by eapply wp_lift. Qed.

Lemma wp_rd_mq s x q (P : mqueue → ipc S → Prop) :
  ip_mqs s !! x = Some q → P q s → wp (rd_mq x) P s.
Proof. intros Ha HP. unfold rd_mq. wp_step. wp_step. by eapply wp_lift. Qed.

Lemma wp_upd_mq s x q f (P : unit → ipc S → Prop) :
  ip_mqs s !! x = Some q → P tt (set_ip_mqs (<[x := f q]> (ip_mqs s)) s) → wp (upd_mq x f) P s.
Proof. intros Ha HP. unfold upd_mq. wp_step. eapply wp_rd_mq; [done|]. by wp_step. Qed.

Lemma wp_upd_msg s a m f (P : unit → ipc S → Prop) :
  ip_msgs s !! a = Some m → P tt (set_ip_msgs (<[a := f m]> (ip_msgs s)) s) → wp (upd_msg a f) P s.
Proof. intros Ha HP. unfold upd_msg. wp_step. eapply wp_rd_msg; [done|]. by wp_step. Qed.

(** The walk ends at the last message in front of the place of the new one. *)
Lemma insert_place_wp s fuel e l (m : entry) (P : Z → ipc S → Prop) :
  seg (ip_msgs s) (Some (e_addr e)) (e :: l) None → (length l < fuel)%nat → e_prio m ≤ e_prio e →
  (∀ l1 f l2, e :: l = l1 ++ f :: l2 → insert_by e_prio m (e :: l) = l1 ++ f :: m :: l2 → P (e_addr f) s) →
  wp (insert_place fuel (e_addr e) (e_prio m)) P s.
Proof.
  revert fuel e P. induction l as [|g l IH]; intros [|fuel] e P Hseg Hf Hle HP; try (cbn in Hf; lia).
  - destruct Hseg as (_ & k & Hk & Hend). cbn [insert_place]. wp_step. eapply wp_rd_msg; [done|].
    cbn in Hend. rewrite Hend. cbn [message_of mm_next]. wp_step. apply (HP [] e []); [done|].
    cbn [insert_by app]. by rewrite (proj2 (Z.leb_le _ _) Hle).
  - destruct Hseg as (_ & k & Hk & Hl). pose proof Hl as (Hg & k' & Hk' & Hl').
    cbn [insert_place]. wp_step. eapply wp_rd_msg; [done|]. cbn [message_of mm_next]. rewrite Hg.
    wp_step. eapply wp_rd_msg; [done|]. cbn [message_of mm_priority].
    cbn [insert_by] in HP. rewrite (proj2 (Z.leb_le _ _) Hle) in HP.
    destruct (Z.leb_spec (e_prio m) (e_prio g)) as [Hge|Hlt].
    + apply IH; [by rewrite <-Hg|cbn in Hf; lia|done|]. intros l1 f l2 Heq Hins.
      apply (HP (e :: l1) f l2); [by rewrite Heq|]. cbn [app]. rewrite <-Hins. cbn [insert_by].
      by rewrite (proj2 (Z.leb_le _ _) Hge).
    + wp_step. apply (HP [] e (g :: l)); done.
Qed.

(** Linking a message in behind another. *)
Lemma seg_link ms o l1 f (m : entry) l2 k :
  NoDup (places (l1 ++ f :: l2)) → e_addr m ∉ places (l1 ++ f :: l2) →
  seg ms o (l1 ++ f :: l2) None → ms !! e_addr f = Some (message_of f k) →
  seg (<[e_addr f := message_of f (Some (e_addr m))]> (<[e_addr m := message_of m k]> ms)) o
      (l1 ++ f :: m :: l2) None.
Proof.
  intros Hnd Hm (o' & H1 & Ho' & k' & Hf & H2)%seg_app Hk. rewrite Hk in Hf. injection Hf as <-.
  rewrite places_app, places_cons in Hnd, Hm. apply NoDup_app in Hnd as (Hnd1 & Hnd12 & Hnd2).
  apply NoDup_cons in Hnd2 as [Hf2 [_ _]%NoDup_cons].
  apply not_elem_of_app in Hm as [Hm1 [Hmf [_ Hm2]%not_elem_of_cons]%not_elem_of_cons].
  apply seg_app. exists o'. split; [|cbn [seg]; split; [done|]; exists (Some (e_addr m))].
  - eapply seg_frame; [|exact H1]. intros e He%addr_in_places.
    rewrite !lookup_insert_ne; [done|congruence|]. intros Heq. apply (Hnd12 _ He). rewrite <-Heq. by left.
  - split; [by rewrite lookup_insert_eq|]. split; [done|]. exists k. split.
    + rewrite lookup_insert_ne by done. by rewrite lookup_insert_eq.
    + eapply seg_frame; [|exact H2]. intros e He%addr_in_places.
      rewrite !lookup_insert_ne; [done|congruence|]. intros Heq. apply Hf2. right. by rewrite Heq.
Qed.

Lemma mq_insert_message_wp s x q l (m : entry) (P : unit → ipc S → Prop) :
  ip_mqs s !! x = Some q → seg (ip_msgs s) (mq_head q) l None → NoDup (places l) → e_addr m ∉ places l →
  ip_msgs s !! e_addr m = Some (message_of m None) →
  (∀ ms h, seg ms h (insert_by e_prio m l) None →
     (∀ a, a ∉ places l → a ≠ e_addr m → ms !! a = ip_msgs s !! a) →
     P tt (set_ip_mqs (<[x := set_mq_head h q]> (ip_mqs s)) (set_ip_msgs ms s))) →
  wp (mq_insert_message x (e_addr m)) P s.
Proof.
  intros Hx Hseg Hnd Hm Hat HP. unfold mq_insert_message.
  wp_step. eapply wp_rd_mq; [done|]. wp_step. eapply wp_rd_msg; [done|]. wp_step.
  destruct l as [|e l].
  { cbn in Hseg. rewrite Hseg. wp_step. wp_step. eapply wp_upd_msg; [done|]. eapply wp_upd_mq; [done|].
    apply HP; [|intros a _ Ha; by rewrite lookup_insert_ne].
    split; [done|]. exists None. split; [by rewrite lookup_insert_eq|done]. }
  pose proof Hseg as (Hh & k & Hk & Hl). rewrite Hh.
  wp_step. eapply wp_rd_msg; [done|]. wp_step. cbn [message_of mm_priority].
  destruct (Z.ltb_spec (e_prio e) (e_prio m)) as [Hlt|Hge].
  - wp_step. eapply wp_upd_msg; [done|]. eapply wp_upd_mq; [done|].
    apply HP; [|intros a _ Ha; by rewrite lookup_insert_ne].
    cbn [insert_by]. rewrite (proj2 (Z.leb_gt _ _) Hlt). split; [done|].
    exists (Some (e_addr e)). split; [by rewrite lookup_insert_eq|].
    rewrite <-Hh. eapply seg_frame; [|exact Hseg]. intros f Hf%addr_in_places.
    rewrite lookup_insert_ne; [done|]. intros Heq. apply Hm. by rewrite Heq.
  - wp_step. apply (wp_lift _ (e_addr e)); [done|]. wp_step. wp_step. wp_step.
    apply (insert_place_wp s _ e l m); [by rewrite <-Hh| |lia|].
    { pose proof (nodup_size (ip_msgs s) (e_addr <$> e :: l) (addrs_nodup _ Hnd)) as Hs.
      rewrite length_fmap in Hs. cbn [length] in Hs. enough (length l < size (ip_msgs s))%nat by lia.
      apply Hs. intros a (f & -> & Hf)%list_elem_of_fmap. destruct (seg_lookup _ _ _ _ f Hseg Hf); eauto. }
    intros l1 f l2 Heq Hins. rewrite Heq in Hseg, Hnd, Hm, HP.
    destruct (seg_lookup _ _ _ _ f Hseg) as [n Hn]; [set_solver|].
    assert (e_addr m ≠ e_addr f) as Hmf by (intros Hmf; apply Hm; rewrite Hmf; apply addr_in_places; set_solver).
    wp_step. eapply wp_rd_msg; [done|]. wp_step. eapply wp_upd_msg; [done|].
    eapply wp_upd_msg; [cbn; by rewrite lookup_insert_ne|]. cbn [message_of mm_next set_mm_next].
    pose proof (seg_link _ _ l1 f m l2 n Hnd Hm Hseg Hn) as Hseg'. rewrite <-Hins, Heq in Hseg'.
    specialize (HP _ _ Hseg'). revert HP. destruct s, q; cbn in *. rewrite (insert_id _ x) by done.
    intros HP. apply HP. intros a Ha Ham. rewrite !lookup_insert_ne; [done|congruence|].
    intros Hfa. apply Ha. rewrite <-Hfa. apply addr_in_places. set_solver.
Qed.

(** *** Waking *)

Lemma wp_unblock s t d (P : unit → ipc S → Prop) :
  (if t =? 0 then Some (ip_sched s) else snd <$> thread_unblock (Some t) (ip_sched s)) = Some d →
  P tt (set_ip_sched d s) → wp (unblock t) P s.
Proof.
  unfold unblock. destruct (t =? 0); cbn [negb].
  - intros [= <-] HP. wp_step. by destruct s.
  - intros Hd HP. apply wp_zoom. destruct (thread_unblock _ _) as [[[] d']|] eqn:Hu; [|done].
    injection Hd as ->. by eapply wp_intro.
Qed.

Lemma mq_wake_recv_wp s x q d (P : unit → ipc S → Prop) :
  ip_mqs s !! x = Some q → after_wake (mq_recv q) (ip_sched s) = Some d →
  P tt (set_ip_sched d (set_ip_mqs (<[x := set_mq_recv (remove_waiter (mq_recv q)).2 q]> (ip_mqs s)) s)) →
  wp (mq_wake_recv_waiter x) P s.
Proof.
  intros Hx Hd HP. unfold mq_wake_recv_waiter. wp_step. eapply wp_rd_mq; [done|].
  unfold after_wake, remove_waiter in *. destruct (wq_threads (mq_recv q)) as [|t ts] eqn:Hts.
  - injection Hd as <-. change (0 <? alen (@nil Z)) with false. cbv iota. wp_step. revert HP. destruct s, q; cbn in *. by rewrite insert_id.
  - rewrite alen_cons. rewrite (proj2 (Z.ltb_lt _ _)) by (pose proof (alen_nonneg ts); lia).
    wp_step. eapply wp_upd_mq; [done|]. by eapply wp_unblock.
Qed.

Lemma mq_wake_send_wp s x q d (P : unit → ipc S → Prop) :
  ip_mqs s !! x = Some q → after_wake (mq_send q) (ip_sched s) = Some d →
  P tt (set_ip_sched d (set_ip_mqs (<[x := set_mq_send (remove_waiter (mq_send q)).2 q]> (ip_mqs s)) s)) →
  wp (mq_wake_send_waiter x) P s.
Proof.
  intros Hx Hd HP. unfold mq_wake_send_waiter. wp_step. eapply wp_rd_mq; [done|].
  unfold after_wake, remove_waiter in *. destruct (wq_threads (mq_send q)) as [|t ts] eqn:Hts.
  - injection Hd as <-. change (0 <? alen (@nil Z)) with false. cbv iota. wp_step. revert HP. destruct s, q; cbn in *. by rewrite insert_id.
  - rewrite alen_cons. rewrite (proj2 (Z.ltb_lt _ _)) by (pose proof (alen_nonneg ts); lia).
    wp_step. eapply wp_upd_mq; [done|]. by eapply wp_unblock.
Qed.

(** *** One queue changes *)

Lemma mq_ok_change s s' C H H' Q x l l' :
  mq_ok s C H Q → Q !! x = Some l → kh_inv (ip_heap s') C H' → ip_mq_handles s' = ip_mq_handles s →
  (∀ y, y ≠ x → ip_mqs s' !! y = ip_mqs s !! y) →
  (∀ a b, H !! a = Some b → a ∉ places l → ip_msgs s' !! a = ip_msgs s !! a ∧ H' !! a = Some b) →
  (∀ p, p ∈ places l' → p ∈ places l ∨ H !! p = None) →
  (∃ q, mqueue_ok s' H' x q l') → mq_ok s' C H' (<[x := l']> Q).
Proof.
  intros Hok Hx Hh Hhs Hmq Hold Hnew Hq'. destruct Hok as [Hh0 Hhs0 Hqs Hap].
  assert (∀ y k p, Q !! y = Some k → p ∈ places k → is_Some (H !! p)) as Hin.
  { intros y k p Hy Hp. destruct (Hqs y k Hy) as (q & Hq). unfold places in Hp.
    apply list_elem_of_fmap in Hp as ([p' n] & -> & Hpn). cbn. rewrite (qo_held _ _ _ _ _ Hq _ _ Hpn). eauto. }
  split; [done|by rewrite Hhs| |].
  - intros y k [[<- <-]|[Hne Hy]]%lookup_insert_Some; [done|].
    destruct (Hqs y k Hy) as (q & Hq). exists q. destruct Hq as [Ha Hs Hc Hr Hf Hhe Hn].
    split; [by rewrite Hmq| |done|done|done| |done].
    + eapply seg_frame; [|exact Hs]. intros e He%addr_in_places. destruct (Hin y k _ Hy He) as [b Hb].
      by apply (Hold _ _ Hb), (Hap y x k l).
    + intros p n Hp. apply Hold; [by apply Hhe|]. apply (Hap y x k l); [done..|].
      apply list_elem_of_fmap. by exists (p, n).
  - assert (∀ y k p, y ≠ x → Q !! y = Some k → p ∈ places k → p ∉ places l') as Hsep.
    { intros y k p Hy Hk Hp [Hp'|Hp']%Hnew; [by apply (Hap y x k l p)|].
      destruct (Hin y k p Hk Hp). congruence. }
    intros y z k k' p [[<- <-]|[Hne Hy]]%lookup_insert_Some [[<- <-]|[Hne' Hz]]%lookup_insert_Some Hyz Hp Hp'.
    + done.
    + by eapply (Hsep z k' p).
    + by eapply (Hsep y k p).
    + by apply (Hap y z k k' p).
Qed.

(** *** Sending and receiving *)

Context {KHL : KHeapLaws S}.

Lemma wp_mq_handle s h o (P : option Z → ipc S → Prop) :
  alen (ip_mq_handles s) = MQ_HANDLE_MAX → aget (ip_mq_handles s) h = Some o → P o s →
  wp (mq_get_by_handle h) P s.
Proof.
  intros Hlen Hh HP. unfold mq_get_by_handle, handle_get. wp_step. wp_step.
  pose proof (aget_Some_bounds _ _ _ Hh) as Hb. rewrite Hlen in Hb.
  rewrite (proj2 (Z.ltb_ge h 0)), (proj2 (Z.leb_gt MQ_HANDLE_MAX h)) by lia. cbn [orb]. by eapply wp_lift.
Qed.

Lemma wp_kmalloc s C H n (P : option Z → ipc S → Prop) :
  kh_inv (ip_heap s) C H → 0 ≤ n ≤ KMALLOC_LIMIT →
  (∀ hp, kh_inv hp C H → P None (set_ip_heap hp s)) →
  (∀ a hp, 0 < a → 0 < n → H !! a = None → kh_inv hp C (<[a := (None, n)]> H) → P (Some a) (set_ip_heap hp s)) →
  wp (heap_ (kh_kmalloc n)) P s.
Proof.
  intros Hh Hn HN HS. apply wp_zoom. eapply wp_mono; [by apply kh_kmalloc_law|].
  intros [a|] hp; cbn beta iota; [intros (H1 & H2 & H3 & H4); by apply HS|by apply HN].
Qed.

Lemma wp_kfree s C H a n (P : unit → ipc S → Prop) :
  kh_inv (ip_heap s) C H → H !! a = Some (None, n) →
  (∀ hp, kh_inv hp C (delete a H) → P tt (set_ip_heap hp s)) → wp (heap_ (kh_kfree a)) P s.
Proof.
  intros Hh Ha HP. apply wp_zoom. eapply wp_mono; [by eapply kh_kfree_law|]. intros [] hp. apply HP.
Qed.

Lemma mq_ok_heap s hp C H Q : mq_ok s C H Q → kh_inv hp C H → mq_ok (set_ip_heap hp s) C H Q.
Proof.
  intros [Hh Hhs Hqs Hap] Hhp. split; [done|done| |done]. intros x l Hx.
  destruct (Hqs x l Hx) as (q & [H1 H2 H3 H4 H5 H6 H7]). by exists q.
Qed.

(** What an operation leaves of a queue: the number of messages and the waiters
    change, the limits stay. *)
Record queue_step q q' (n : Z) (snd_ rcv : waitq) : Prop := QueueStep {
  qs_attr : mq_attr_ q' = set_mq_curmsgs n (mq_attr_ q);
  qs_send : mq_send q' = snd_;
  qs_recv : mq_recv q' = rcv }.

Lemma places_insert_by (m : entry) l p :
  p ∈ places (insert_by e_prio m l) → p ∈ places l ∨ p = e_addr m ∨ p = e_data m.
Proof.
  intros (e & [->|He]%elem_of_insert_by & Hp)%elem_of_places; [by right|]. left. apply elem_of_places. eauto.
Qed.

Lemma blocks_insert_by (m : entry) l :
  blocks_of (insert_by e_prio m l) ≡ₚ entry_blocks m ++ blocks_of l.
Proof.
  induction l as [|e l IH]; [done|]. cbn [insert_by]. destruct (e_prio m <=? e_prio e); [|done].
  change (entry_blocks e ++ blocks_of (insert_by e_prio m l) ≡ₚ entry_blocks m ++ entry_blocks e ++ blocks_of l).
  rewrite IH. apply Permutation_app_swap_app.
Qed.

Lemma places_nodup_insert (m : entry) l :
  NoDup (places l) → e_addr m ∉ places l → e_data m ∉ places l → e_addr m ≠ e_data m →
  NoDup (places (insert_by e_prio m l)).
Proof.
  intros Hl Ha Hd Hne. unfold places. rewrite (blocks_insert_by m l). cbn.
  constructor; [|by constructor]. intros [?|?]%elem_of_cons; done.
Qed.

(** Entering the new message, the blocks of which were just taken. *)
Lemma enter_wp s hp C H Q x q l (m : entry) d :
  mq_ok s C H Q → Q !! x = Some l → ip_mqs s !! x = Some q →
  let H' := <[e_data m := (None, alen (e_bytes m))]> (<[e_addr m := (None, SIZEOF_MESSAGE)]> H) in
  kh_inv hp C H' → H !! e_addr m = None → H !! e_data m = None → e_addr m ≠ e_data m →
  alen (e_bytes m) ≤ size_of_int (mq_msgsize (mq_attr_ q)) → alen (e_bytes m) ≤ KMALLOC_LIMIT →
  alen l + 1 < 2 ^ 31 → after_wake (mq_recv q) (ip_sched s) = Some d →
  wp (modify (λ s, set_ip_msgs (<[e_addr m := message_of m None]> (ip_msgs s)) s) ;;
      mq_insert_message x (e_addr m) ;;
      upd_mq x (λ q, set_mq_attr_ (set_mq_curmsgs (mq_curmsgs (mq_attr_ q) + 1) (mq_attr_ q)) q) ;;
      mq_wake_recv_waiter x ;;
      mret 0)
     (λ r s', r = 0 ∧ mq_ok s' C H' (<[x := insert_by e_prio m l]> Q) ∧ ip_sched s' = d ∧
        ip_mq_handles s' = ip_mq_handles s ∧
        ∃ q', ip_mqs s' !! x = Some q' ∧
          queue_step q q' (alen l + 1) (mq_send q) (remove_waiter (mq_recv q)).2)
     (set_ip_heap hp s).
Proof.
  intros Hok HQ Hx H' Hhp Ha Hd Hne Hsz Hlim Hroom Hwk.
  destruct (mo_queues _ _ _ _ Hok x l HQ) as (q0 & Hq). pose proof (qo_at _ _ _ _ _ Hq) as Hx0.
  rewrite Hx in Hx0. injection Hx0 as <-.
  assert (∀ p, p ∈ places l → is_Some (H !! p)) as Hin.
  { intros p ([p' n] & -> & Hpn)%list_elem_of_fmap. cbn. rewrite (qo_held _ _ _ _ _ Hq _ _ Hpn). eauto. }
  assert (e_addr m ∉ places l) as Hma by (intros [? ?]%Hin; congruence).
  assert (e_data m ∉ places l) as Hmd by (intros [? ?]%Hin; congruence).
  wp_step. wp_step. wp_step.
  eapply (mq_insert_message_wp _ x q l m); [done| |by apply Hq|done|apply lookup_insert_eq|].
  { eapply seg_frame; [|by apply Hq]. intros e He%addr_in_places. cbn. rewrite lookup_insert_ne; [done|].
    intros Heq. apply Hma. by rewrite Heq. }
  intros ms hd Hseg Hms. wp_step. eapply wp_upd_mq; [apply lookup_insert_eq|].
  wp_step. eapply mq_wake_recv_wp; [apply lookup_insert_eq|done|]. wp_step.
  cbn [set_ip_sched set_ip_mqs set_ip_msgs set_ip_heap ip_mqs ip_msgs ip_sched ip_mq_handles ip_heap] in *.
  rewrite !insert_insert_eq. split; [done|]. split; [|split; [done|split; [done|]]]; last first.
  { eexists. split; [apply lookup_insert_eq|]. split; [|done|done].
    cbn. by rewrite (qo_count _ _ _ _ _ Hq). }
  eapply mq_ok_change; [exact Hok|exact HQ|done|done| | | |].
  - intros y Hy. cbn. by rewrite lookup_insert_ne.
  - intros p b Hp Hpl. cbn. assert (p ≠ e_addr m ∧ p ≠ e_data m) as [Hp1 Hp2] by (split; intros ->; congruence).
    rewrite Hms by done. unfold H'. rewrite !lookup_insert_ne by done. done.
  - intros p [Hp|[->| ->]]%places_insert_by; [by left|by right|by right].
  - eexists. split; [apply lookup_insert_eq|exact Hseg| | | | |].
    + cbn. rewrite (qo_count _ _ _ _ _ Hq). unfold alen. rewrite length_insert_by. lia.
    + unfold alen in *. rewrite length_insert_by. lia.
    + cbn. intros e [->|He]%elem_of_insert_by; [done|]. by apply (qo_fits _ _ _ _ _ Hq).
    + intros p n. rewrite (blocks_insert_by m l). cbn. unfold H'.
      intros [[= -> ->]|[[= -> ->]|Hp]%elem_of_cons]%elem_of_cons.
      * rewrite lookup_insert_ne by done. apply lookup_insert_eq.
      * apply lookup_insert_eq.
      * pose proof (qo_held _ _ _ _ _ Hq _ _ Hp) as Hh.
        rewrite !lookup_insert_ne; [done|congruence|congruence].
    + apply places_nodup_insert; [by apply Hq|done|done|done].
Qed.

(** C26. Sending to a queue that has room. *)
Theorem mq_send_correct (wait : M (ipc S) unit) fuel s C H Q h x q l data prio d :
  mq_ok s C H Q → aget (ip_mq_handles s) h = Some (Some x) → Q !! x = Some l → ip_mqs s !! x = Some q →
  0 < alen data ≤ KMALLOC_LIMIT → alen data ≤ size_of_int (mq_msgsize (mq_attr_ q)) →
  alen l < mq_maxmsg (mq_attr_ q) < 2 ^ 31 → after_wake (mq_recv q) (ip_sched s) = Some d →
  wp (mq_send_syscall wait (Datatypes.S fuel) h data prio) (λ r s',
    (r = - ENOMEM ∧ mq_ok s' C H Q ∧ ∃ hp, s' = set_ip_heap hp s) ∨
    (r = 0 ∧ ∃ e q', e_msg e = (data, prio) ∧ H !! e_addr e = None ∧ H !! e_data e = None ∧
       mq_ok s' C (<[e_data e := (None, alen data)]> (<[e_addr e := (None, SIZEOF_MESSAGE)]> H))
         (<[x := insert_by e_prio e l]> Q) ∧
       ip_sched s' = d ∧ ip_mq_handles s' = ip_mq_handles s ∧ ip_mqs s' !! x = Some q' ∧
       queue_step q q' (alen l + 1) (mq_send q) (remove_waiter (mq_recv q)).2)) s.
Proof.
  intros Hok Hh HQ Hx Hlen Hsz Hroom Hwk. unfold mq_send_syscall.
  wp_step. eapply wp_mq_handle; [apply Hok|done|]. cbv iota. wp_step. eapply wp_rd_mq; [done|].
  rewrite (proj2 (Z.ltb_ge _ _)) by done.
  destruct (mo_queues _ _ _ _ Hok x l HQ) as (q0 & Hq). pose proof (qo_at _ _ _ _ _ Hq) as Hx0.
  rewrite Hx in Hx0. injection Hx0 as <-.
  wp_step. cbn [send_room]. wp_step. eapply wp_rd_mq; [done|].
  rewrite (qo_count _ _ _ _ _ Hq), (proj2 (Z.leb_gt _ _)) by lia. wp_step. cbv iota. wp_step.
  eapply wp_kmalloc; [apply Hok|unfold SIZEOF_MESSAGE, KMALLOC_LIMIT; lia| |].
  { intros hp Hhp. wp_step. left. split; [done|]. split; [by apply mq_ok_heap|by eexists]. }
  intros a hp Ha _ HHa Hhp. wp_step. eapply wp_kmalloc; [exact Hhp|lia| |].
  - intros hp2 Hhp2. wp_step. eapply wp_kfree; [exact Hhp2|apply lookup_insert_eq|].
    intros hp3 Hhp3. rewrite delete_insert_id in Hhp3 by done. wp_step. left. split; [done|].
    split; [by apply (mq_ok_heap s)|by exists hp3].
  - intros b hp2 Hb _ HHb Hhp2. apply lookup_insert_None in HHb as [HHb Hab].
    eapply wp_mono.
    { apply (enter_wp s hp2 C H Q x q l (Entry a b data prio) d); try done; cbn; lia. }
    intros r s' (-> & Hok' & Hd & Hhs & q' & Hq' & Hst). right. split; [done|].
    exists (Entry a b data prio), q'. done.
Qed.

Lemma mq_remove_message_wp s x q e l k (P : option Z → ipc S → Prop) :
  ip_mqs s !! x = Some q → mq_head q = Some (e_addr e) → ip_msgs s !! e_addr e = Some (message_of e k) →
  P (Some (e_addr e)) (set_ip_msgs (<[e_addr e := message_of e None]> (ip_msgs s))
                         (set_ip_mqs (<[x := set_mq_head k q]> (ip_mqs s)) s)) →
  wp (mq_remove_message x) P s.
Proof.
  intros Hx Hh He HP. unfold mq_remove_message. wp_step. eapply wp_rd_mq; [done|]. rewrite Hh.
  wp_step. eapply wp_rd_msg; [done|]. wp_step. eapply wp_upd_mq; [done|]. wp_step.
  eapply wp_upd_msg; [done|]. by wp_step.
Qed.

(** Giving back the blocks of the message that was taken out. *)
Lemma mq_ok_take s s' C H Q x q q' e l :
  mq_ok s C H Q → Q !! x = Some (e :: l) → ip_mqs s !! x = Some q →
  kh_inv (ip_heap s') C (delete (e_addr e) (delete (e_data e) H)) →
  ip_mq_handles s' = ip_mq_handles s → ip_mqs s' = <[x := q']> (ip_mqs s) →
  ip_msgs s' = delete (e_addr e) (ip_msgs s) →
  mq_attr_ q' = set_mq_curmsgs (alen l) (mq_attr_ q) →
  ip_msgs s !! e_addr e = Some (message_of e (mq_head q')) →
  mq_ok s' C (delete (e_addr e) (delete (e_data e) H)) (<[x := l]> Q).
Proof.
  intros Hok HQ Hx Hh Hhs Hmq Hms Hat He.
  destruct (mo_queues _ _ _ _ Hok x _ HQ) as (q0 & Hq). pose proof (qo_at _ _ _ _ _ Hq) as Hx0.
  rewrite Hx in Hx0. injection Hx0 as <-. destruct Hq as [_ Hseg Hc Hr Hf Hhe Hn].
  rewrite places_cons in Hn. apply NoDup_cons in Hn as [Ha [Hd Hn]%NoDup_cons].
  apply not_elem_of_cons in Ha as [Hne Ha].
  eapply mq_ok_change; [exact Hok|exact HQ|done|done| | | |].
  - intros y Hy. rewrite Hmq. by rewrite lookup_insert_ne.
  - intros p b Hp Hpl. rewrite places_cons in Hpl. apply not_elem_of_cons in Hpl as [H1 [H2 _]%not_elem_of_cons].
    rewrite Hms. by rewrite !lookup_delete_ne by done.
  - intros p Hp. left. rewrite places_cons. by do 2 right.
  - exists q'. rewrite alen_cons in Hr. destruct Hseg as (_ & k & Hk & Hseg). rewrite Hk in He.
    injection He as ->. split; [by rewrite Hmq, lookup_insert_eq| |by rewrite Hat|lia| | |done].
    + rewrite Hms. eapply seg_frame; [|exact Hseg]. intros f Hf'%addr_in_places.
      rewrite lookup_delete_ne; [done|]. intros Heq. apply Ha. by rewrite Heq.
    + intros f Hf'. rewrite Hat. apply Hf. by right.
    + intros p n Hp. rewrite !lookup_delete_ne; [apply Hhe; by do 2 right| |].
      * intros Hpe. apply Hd. apply list_elem_of_fmap. by exists (p, n).
      * intros Hpe. apply Ha. apply list_elem_of_fmap. by exists (p, n).
Qed.

(** Receiving from a queue that has a message. *)
Theorem mq_receive_correct (wait : M (ipc S) unit) fuel s C H Q h x q e l msg_len d :
  mq_ok s C H Q → aget (ip_mq_handles s) h = Some (Some x) → Q !! x = Some (e :: l) → ip_mqs s !! x = Some q →
  size_of_int (mq_msgsize (mq_attr_ q)) ≤ msg_len → after_wake (mq_send q) (ip_sched s) = Some d →
  wp (mq_receive_syscall wait (Datatypes.S fuel) h msg_len) (λ r s',
    r = (alen (e_bytes e), Some (e_msg e)) ∧
    mq_ok s' C (delete (e_addr e) (delete (e_data e) H)) (<[x := l]> Q) ∧
    ip_sched s' = d ∧ ip_mq_handles s' = ip_mq_handles s ∧
    ∃ q', ip_mqs s' !! x = Some q' ∧
      queue_step q q' (alen l) (remove_waiter (mq_send q)).2 (mq_recv q)) s.
Proof.
  intros Hok Hh HQ Hx Hlen Hwk. unfold mq_receive_syscall.
  wp_step. eapply wp_mq_handle; [apply Hok|done|]. cbv iota. wp_step. eapply wp_rd_mq; [done|].
  rewrite (proj2 (Z.ltb_ge _ _)) by done.
  destruct (mo_queues _ _ _ _ Hok x _ HQ) as (q0 & Hq). pose proof (qo_at _ _ _ _ _ Hq) as Hx0.
  rewrite Hx in Hx0. injection Hx0 as <-. pose proof (alen_nonneg l) as Hl0.
  wp_step. cbn [recv_room]. wp_step. eapply wp_rd_mq; [done|].
  rewrite (qo_count _ _ _ _ _ Hq), alen_cons, (proj2 (Z.eqb_neq _ _)) by lia. wp_step. cbv iota. wp_step.
  destruct (qo_seg _ _ _ _ _ Hq) as (Hhd & k & Hk & Hseg).
  destruct (qo_fits _ _ _ _ _ Hq e) as [Hfit Hlim]; [by left|].
  pose proof (qo_apart _ _ _ _ _ Hq) as Hnd. rewrite places_cons in Hnd.
  apply NoDup_cons in Hnd as [[Hne _]%not_elem_of_cons _].
  eapply mq_remove_message_wp; [done|done|done|done|]. cbv iota.
  wp_step. eapply wp_upd_mq; [apply lookup_insert_eq|].
  wp_step. eapply wp_rd_msg; [apply lookup_insert_eq|]. cbn [message_of mm_size mm_data mm_bytes mm_priority].
  wp_step. eapply (wp_kfree _ C H); [apply Hok|apply (qo_held _ _ _ _ _ Hq); right; by left|]. intros hp1 Hhp1.
  wp_step. eapply (wp_kfree _ C); [exact Hhp1| |].
  { rewrite lookup_delete_ne by done. apply (qo_held _ _ _ _ _ Hq). by left. }
  intros hp2 Hhp2. wp_step. wp_step. wp_step.
  eapply mq_wake_send_wp; [apply lookup_insert_eq|done|]. wp_step.
  cbn [set_ip_sched set_ip_mqs set_ip_msgs set_ip_heap ip_mqs ip_msgs ip_sched ip_mq_handles ip_heap] in *.
  rewrite !insert_insert_eq. split; [|split; [|split; [done|split; [done|]]]].
  - f_equal; [apply signed_small; unfold KMALLOC_LIMIT in Hlim; pose proof (alen_nonneg (e_bytes e)); lia|].
    f_equal. unfold e_msg. f_equal. apply take_ge. unfold alen in *.
    destruct (Z.ltb_spec (Z.of_nat (length (e_bytes e))) msg_len); lia.
  - eapply mq_ok_take; [exact Hok|exact HQ|exact Hx|exact Hhp2|done|done| | |exact Hk].
    + cbn. by rewrite delete_insert_eq.
    + cbn. rewrite (qo_count _ _ _ _ _ Hq), alen_cons. f_equal. lia.
  - eexists. split; [apply lookup_insert_eq|]. split; [|done|done]. cbn.
    rewrite (qo_count _ _ _ _ _ Hq), alen_cons. f_equal. lia.
Qed.

End mq.

(** * Message queues: what is sent is what is received

    Several messages are sent to an empty queue and then received: all that were
    accepted arrive, by priority and, within a priority, in the order in which
    they were sent; the memory they took is free again. *)

Section order.
Context {S : Type} {KH : KHeap S}.
Variable wait : M (ipc S) unit.
Implicit Types (s : ipc S) (C : gmap Z Z) (H : blocks) (x h : Z) (q : mqueue) (l : list entry).

(** Send the messages in turn; those that were accepted. *)
Fixpoint send_all (h : Z) (ms : list (list Z * Z)) : M (ipc S) (list (list Z * Z)) :=
  match ms with
  | [] => mret []
  | m :: ms' =>
      r ← mq_send_syscall wait 1 h m.1 m.2;
      sent ← send_all h ms';
      mret (if r =? 0 then m :: sent else sent)
  end.

(** Receive [n] messages; the ones that arrived. *)
Fixpoint receive_all (n : nat) (h len : Z) : M (ipc S) (list (list Z * Z)) :=
  match n with
  | O => mret []
  | Datatypes.S n' =>
      r ← mq_receive_syscall wait 1 h len;
      got ← receive_all n' h len;
      mret (option_list r.2 ++ got)
  end.

Definition exchange (h len : Z) (ms : list (list Z * Z)) : M (ipc S) (list (list Z * Z) * list (list Z * Z)) :=
  sent ← send_all h ms;
  got ← receive_all (length sent) h len;
  mret (sent, got).

(** The queue [x], nobody waits at it, holds the messages [l], whose blocks are
    all that was added to [H0]. *)
Record holding s C (H0 : blocks) (Q : gmap Z (list entry)) h x (a : mq_attr) l : Prop := Holding {
  hd_blocks : ∃ H, mq_ok s C H (<[x := l]> Q) ∧ (∀ p, p ∉ places l → H !! p = H0 !! p) ∧
                (∀ p, p ∈ places l → H0 !! p = None);
  hd_handle : aget (ip_mq_handles s) h = Some (Some x);
  hd_queue : ∃ q, ip_mqs s !! x = Some q ∧ mq_attr_ q = set_mq_curmsgs (alen l) a ∧
               wq_threads (mq_send q) = [] ∧ wq_threads (mq_recv q) = [] }.

Context {KHL : KHeapLaws S}.

Lemma no_waiter_woken (w : waitq) d : wq_threads w = [] → after_wake w d = Some d ∧ (remove_waiter w).2 = w.
Proof. intros Hw. unfold after_wake, remove_waiter. by rewrite Hw. Qed.

Lemma send_one_wp s C H0 Q h x a l (m : list Z * Z) :
  holding s C H0 Q h x a l → 0 < alen m.1 ≤ KMALLOC_LIMIT → alen m.1 ≤ size_of_int (mq_msgsize a) →
  alen l < mq_maxmsg a < 2 ^ 31 →
  wp (mq_send_syscall wait 1 h m.1 m.2) (λ r s',
    (r = - ENOMEM ∧ holding s' C H0 Q h x a l) ∨
    (r = 0 ∧ ∃ e, e_msg e = m ∧ holding s' C H0 Q h x a (insert_by e_prio e l))) s.
Proof.
  intros [(H & Hok & Hout & Hin) Hh (q & Hq & Ha & Hs & Hr)] Hlen Hsz Hroom.
  destruct (no_waiter_woken (mq_recv q) (ip_sched s) Hr) as [Hw Hrm].
  eapply wp_mono.
  { eapply (mq_send_correct wait 0); [exact Hok|exact Hh|apply lookup_insert_eq|exact Hq|done| | |exact Hw];
      by rewrite Ha. }
  intros r s' [(-> & Hok' & hp & ->)|(-> & e & q' & He & HHa & HHd & Hok' & _ & Hhs & Hq' & [Hat Hsd Hrc])].
  - left. split; [done|]. split; [by exists H|done|by exists q].
  - right. split; [done|]. exists e. split; [by destruct m|]. rewrite insert_insert_eq in Hok'. split.
    + eexists. split; [exact Hok'|]. split.
      * intros p Hp. rewrite !lookup_insert_ne; [apply Hout| |].
        -- intros Hpl. apply Hp. apply elem_of_places in Hpl as (f & Hf & Hpf).
           apply elem_of_places. exists f. split; [|done]. apply elem_of_insert_by. by right.
        -- intros <-. apply Hp, elem_of_places. exists e. split; [apply elem_of_insert_by; by left|by left].
        -- intros <-. apply Hp, elem_of_places. exists e. split; [apply elem_of_insert_by; by left|by right].
      * intros p [Hp|[->| ->]]%places_insert_by; [by apply Hin| |].
        -- destruct (decide (e_addr e ∈ places l)) as [Hp|Hp]; [by apply Hin|by rewrite <-Hout].
        -- destruct (decide (e_data e ∈ places l)) as [Hp|Hp]; [by apply Hin|by rewrite <-Hout].
    + by rewrite Hhs.
    + exists q'. split; [done|]. rewrite Hat, Hsd, Hrc, Hrm, Ha. split; [|done].
      unfold set_mq_curmsgs. cbn. f_equal. unfold alen. rewrite length_insert_by. lia.
Qed.

Lemma send_all_wp s C H0 Q h x a l ms :
  holding s C H0 Q h x a l → alen l + alen ms ≤ mq_maxmsg a < 2 ^ 31 →
  Forall (λ m, 0 < alen m.1 ≤ KMALLOC_LIMIT ∧ alen m.1 ≤ size_of_int (mq_msgsize a)) ms →
  wp (send_all h ms) (λ sent s', sublist sent ms ∧
    ∃ l', holding s' C H0 Q h x a l' ∧ e_msg <$> l' = insert_all snd sent (e_msg <$> l) ∧
      length l' = (length l + length sent)%nat) s.
Proof.
  revert s l. induction ms as [|m ms IH]; intros s l Hl Hroom Hms; cbn [send_all].
  { wp_step. split; [constructor|]. exists l. split; [done|]. split; [done|]. cbn. lia. }
  apply Forall_cons in Hms as [[Hm1 Hm2] Hms]. rewrite alen_cons in Hroom. pose proof (alen_nonneg ms) as Hn.
  wp_step. eapply wp_mono; [eapply send_one_wp; [exact Hl|done|done|lia]|].
  intros r s1 [(-> & Hl1)|(-> & e & He & Hl1)]; wp_step.
  - eapply wp_mono; [apply (IH s1 l Hl1); [lia|done]|]. intros sent s2 (Hsub & l' & Hl' & Heq & Hlen).
    wp_step. split; [by constructor|by exists l'].
  - eapply wp_mono; [apply (IH s1 _ Hl1); [unfold alen in *; rewrite length_insert_by; lia|done]|].
    intros sent s2 (Hsub & l' & Hl' & Heq & Hlen). wp_step. cbn [Z.eqb].
    split; [by constructor|]. exists l'. split; [done|]. rewrite length_insert_by in Hlen. split.
    + rewrite Heq. unfold insert_all. cbn [foldl]. f_equal.
      change (e_prio) with (snd ∘ e_msg). by rewrite insert_by_map, He.
    + cbn. lia.
Qed.

Lemma receive_one_wp s C H0 Q h x a e l len :
  holding s C H0 Q h x a (e :: l) → size_of_int (mq_msgsize a) ≤ len →
  wp (mq_receive_syscall wait 1 h len) (λ r s',
    r = (alen (e_bytes e), Some (e_msg e)) ∧ holding s' C H0 Q h x a l) s.
Proof.
  intros [(H & Hok & Hout & Hin) Hh (q & Hq & Ha & Hs & Hr)] Hsz.
  destruct (no_waiter_woken (mq_send q) (ip_sched s) Hs) as [Hw Hrm].
  destruct (mo_queues _ _ _ _ Hok x (e :: l) (lookup_insert_eq _ _ _)) as (q0 & Hq0).
  pose proof (qo_apart _ _ _ _ _ Hq0) as Hnd. rewrite places_cons in Hnd.
  apply NoDup_cons in Hnd as [[Hne Hel]%not_elem_of_cons [Hdl _]%NoDup_cons].
  assert (∀ p, p = e_addr e ∨ p = e_data e ∨ p ∈ places l → H0 !! p = None) as Hnone.
  { intros p Hp. apply Hin. rewrite places_cons, !elem_of_cons. exact Hp. }
  eapply wp_mono.
  { eapply (mq_receive_correct wait 0); [exact Hok|exact Hh|apply lookup_insert_eq|exact Hq| |exact Hw].
    by rewrite Ha. }
  intros r s' (-> & Hok' & _ & Hhs & q' & Hq' & [Hat Hsd Hrc]). split; [done|].
  rewrite insert_insert_eq in Hok'. split.
  - eexists. split; [exact Hok'|]. split; [|intros p Hp; by apply Hnone; right; right].
    intros p Hp. destruct (decide (p = e_addr e)) as [->|Hpa].
    { rewrite lookup_delete_eq. symmetry. apply Hnone. by left. }
    destruct (decide (p = e_data e)) as [->|Hpd].
    { rewrite lookup_delete_ne, lookup_delete_eq by done. symmetry. apply Hnone. right. by left. }
    rewrite !lookup_delete_ne by done. apply Hout. rewrite places_cons, !not_elem_of_cons. done.
  - by rewrite Hhs.
  - exists q'. split; [done|]. by rewrite Hat, Hsd, Hrc, Hrm, Ha.
Qed.

Lemma receive_all_wp s C H0 Q h x a l len :
  holding s C H0 Q h x a l → size_of_int (mq_msgsize a) ≤ len →
  wp (receive_all (length l) h len) (λ got s', got = e_msg <$> l ∧ holding s' C H0 Q h x a []) s.
Proof.
  revert s. induction l as [|e l IH]; intros s Hl Hsz; cbn [receive_all length]; [by wp_step|].
  wp_step. eapply wp_mono; [by apply (receive_one_wp s C H0 Q h x a e l len)|].
  intros r s1 (-> & Hl1). wp_step. eapply wp_mono; [by apply IH|]. intros got s2 (-> & Hl2). by wp_step.
Qed.

(** C5. An empty queue at which nobody waits: every message that was accepted is
    received, unchanged; higher priorities first, and within a priority in the
    order of sending.  The memory of the messages is given back. *)
Theorem mq_order s C H Q h x q len ms :
  mq_ok s C H Q → Q !! x = Some [] → aget (ip_mq_handles s) h = Some (Some x) → ip_mqs s !! x = Some q →
  wq_threads (mq_send q) = [] → wq_threads (mq_recv q) = [] →
  Forall (λ m, 0 < alen m.1 ≤ KMALLOC_LIMIT ∧ alen m.1 ≤ size_of_int (mq_msgsize (mq_attr_ q))) ms →
  alen ms ≤ mq_maxmsg (mq_attr_ q) < 2 ^ 31 → size_of_int (mq_msgsize (mq_attr_ q)) ≤ len →
  wp (exchange h len ms) (λ r s',
    sublist r.1 ms ∧ descending snd r.2 ∧ (∀ prio, of_key snd prio r.2 = of_key snd prio r.1) ∧
    mq_ok s' C H Q) s.
Proof.
  intros Hok HQ Hh Hq Hs Hr Hms Hroom Hsz. unfold exchange.
  assert (holding s C H Q h x (mq_attr_ q) []) as Hl.
  { split; [|done|].
    - exists H. split; [by rewrite insert_id|]. split; [done|]. intros p []%elem_of_nil.
    - exists q. split; [done|]. split; [|done].
      destruct (mo_queues _ _ _ _ Hok x [] HQ) as (q0 & [Hat _ Hc _ _ _ _]). rewrite Hq in Hat.
      injection Hat as <-. destruct (mq_attr_ q). cbn in *. by rewrite Hc. }
  wp_step. eapply wp_mono; [apply (send_all_wp s C H Q h x _ [] ms Hl); [unfold alen in *; cbn; lia|done]|].
  intros sent s1 (Hsub & l & Hl1 & Heq & Hlen). cbn in Hlen, Heq. wp_step. rewrite <-Hlen.
  eapply wp_mono; [by apply (receive_all_wp s1 C H Q h x _ l len Hl1)|].
  intros got s2 (-> & [(H2 & Hok2 & Hout & _) _ _]). wp_step. cbn [fst snd].
  split; [done|]. rewrite Heq. split; [by apply insert_all_sorted; intros i j u v _ Hi|]. split.
  - intros prio. by rewrite insert_all_stable by (by intros i j u v _ Hi).
  - rewrite insert_id in Hok2 by done. replace H with H2; [done|]. apply map_eq. intros p. apply Hout.
    by intros []%elem_of_nil.
Qed.

End order.
