(* ===== verification/SemThm.v ===== *)
(** * Semaphores: handles, references and counts

    [sem_ok s C H]: every handle and every slot of the table points to a
    semaphore that lives in the heap, and no semaphore has more handles than
    references.  All operations keep this, so none of them reaches a semaphore
    that was freed, as long as none is freed under a thread that is blocked inside
    a wait on it.  A semaphore without waiters counts: it refines a number that
    posts raise and that waits take from while it is positive. *)

From S2P Require Import Prelude KHeap UAccess Sched Ipc MqThm.

(** ** Tables of pointers *)

Definition refs (x : Z) (l : list (option Z)) : Z := Z.of_nat (length (filter (λ o, o = Some x) l)).

Lemma refs_cons x o l : refs x (o :: l) = (if decide (o = Some x) then 1 else 0) + refs x l.
Proof. unfold refs. rewrite filter_cons. destruct (decide (o = Some x)); cbn [length]; lia. Qed.

Lemma refs_nonneg x l : 0 ≤ refs x l.
Proof. unfold refs. lia. Qed.

Lemma refs_none x l : Some x ∉ l → refs x l = 0.
Proof. intros Hl. unfold refs. rewrite filter_none; [done|]. by intros o Ho ->. Qed.

Lemma refs_some x l : Some x ∈ l → 1 ≤ refs x l.
Proof.
  induction l as [|o l IH]; [by intros []%elem_of_nil|]. rewrite refs_cons. pose proof (refs_nonneg x l).
  intros [<-|Hl]%elem_of_cons; [rewrite decide_True by done; lia|]. specialize (IH Hl). destruct (decide _); lia.
Qed.

Lemma refs_zero x l : refs x l ≤ 0 → Some x ∉ l.
Proof. intros Hr Hl%refs_some. lia. Qed.

Lemma elem_of_aset l i (o o' : option Z) : o' ∈ aset l i o → o' = o ∨ o' ∈ l.
Proof.
  unfold aset. destruct (decide (0 ≤ i)); [|by right]. intros [j Hj]%list_elem_of_lookup.
  apply list_lookup_insert_Some in Hj as [(_ & <- & _)|(_ & Hj)]; [by left|right].
  by eapply list_elem_of_lookup_2.
Qed.

Lemma refs_aset x l i o o' :
  aget l i = Some o' →
  refs x (aset l i o) = refs x l + (if decide (o = Some x) then 1 else 0) - (if decide (o' = Some x) then 1 else 0).
Proof.
  unfold aget, aset. destruct (decide (0 ≤ i)); [|done]. generalize (Z.to_nat i) as n. intros n. revert n.
  induction l as [|u l IH]; intros [|n] Hn; cbn in Hn; [done|done| |].
  - injection Hn as ->. change (<[O := o]> (o' :: l)) with (o :: l). rewrite !refs_cons. lia.
  - change (<[S n := o]> (u :: l)) with (u :: <[n := o]> l). rewrite !refs_cons, (IH n Hn). lia.
Qed.

Lemma free_slot_spec l i j : free_slot l i = Some j → aget l (j - i) = Some None.
Proof.
  revert i. induction l as [|[y|] l IH]; intros i Hj; [done| |].
  - cbn [free_slot] in Hj. apply IH in Hj. replace (j - i) with (j - (i + 1) + 1) by lia.
    pose proof (aget_Some_bounds _ _ _ Hj). by rewrite aget_cons_succ by lia.
  - injection Hj as ->. by rewrite Z.sub_diag.
Qed.

Lemma elem_of_clear_slot o l x : o ∈ clear_slot l x → o = None ∨ o ∈ l.
Proof.
  induction l as [|[y|] l IH]; cbn [clear_slot]; [by intros []%elem_of_nil| |].
  - destruct (y =? x).
    + intros [->|Ho]%elem_of_cons; [by left|right; by right].
    + intros [->|[?|?]%IH]%elem_of_cons; [right; by left|by left|right; by right].
  - intros [->|[?|?]%IH]%elem_of_cons; [by left|by left|right; by right].
Qed.

Lemma refs_clear_slot y l x :
  refs y (clear_slot l x) = refs y l - (if decide (y = x ∧ Some x ∈ l) then 1 else 0).
Proof.
  induction l as [|[z|] l IH]; cbn [clear_slot].
  - rewrite decide_False; [done|]. by intros [_ []%elem_of_nil].
  - destruct (Z.eqb_spec z x) as [->|Hne].
    + rewrite !refs_cons. rewrite (decide_False (P := None = Some y)) by done. destruct (decide (y = x)) as [->|Hyx].
      * rewrite !decide_True; [lia| |done]. split; [done|by left].
      * rewrite !decide_False; [lia| |congruence]. by intros [? _].
    + rewrite !refs_cons, IH. rewrite (decide_ext (y = x ∧ Some x ∈ Some z :: l) (y = x ∧ Some x ∈ l)); [lia|].
      rewrite elem_of_cons. split; [|tauto]. intros [-> [[= ->]|?]]; done.
  - rewrite !refs_cons, IH. rewrite (decide_ext (y = x ∧ Some x ∈ None :: l) (y = x ∧ Some x ∈ l)); [lia|].
    rewrite elem_of_cons. split; [|tauto]. intros [-> [?|?]]; done.
Qed.

Lemma alen_clear_slot l x : alen (clear_slot l x) = alen l.
Proof.
  induction l as [|[z|] l IH]; cbn [clear_slot]; [done| |by rewrite !alen_cons, IH].
  destruct (z =? x); rewrite ?alen_cons, ?IH; done.
Qed.

(** ** The invariant *)

Section sem.
Context {S : Type} {KH : KHeap S}.
Implicit Types (s : ipc S) (C : gmap Z Z) (H : blocks) (x y h : Z) (m : sem).

Definition array_of m : option Z := wq_array (sem_waiters m).

Record sem_ok s C H : Prop := SemOk {
  so_heap : kh_inv (ip_heap s) C H;
  so_table_len : alen (ip_sem_table s) = SEM_MAX;
  so_handles_len : alen (ip_sem_handles s) = SEM_HANDLE_MAX;
  so_table : ∀ x, Some x ∈ ip_sem_table s → is_Some (ip_sems s !! x);
  so_once : ∀ x, refs x (ip_sem_table s) ≤ 1;
  so_handles : ∀ x, Some x ∈ ip_sem_handles s → is_Some (ip_sems s !! x);
  so_refs : ∀ x m, ip_sems s !! x = Some m → refs x (ip_sem_handles s) ≤ sem_refcount m < 2 ^ 31;
  so_mem : ∀ x m, ip_sems s !! x = Some m → H !! x = Some (None, SIZEOF_SEM);
  so_array : ∀ x m p, ip_sems s !! x = Some m → array_of m = Some p →
    ip_sems s !! p = None ∧ ∃ n, H !! p = Some (None, n);
  so_apart : ∀ x y m m' p, ip_sems s !! x = Some m → ip_sems s !! y = Some m' →
    array_of m = Some p → array_of m' = Some p → x = y }.

(** After an operation from [s]: the invariant holds, and every semaphore of [s]
    still lives but those that the operation may free. *)
Definition kept (freed : Z → Prop) s C s' : Prop :=
  (∃ H', sem_ok s' C H') ∧ ∀ x, is_Some (ip_sems s !! x) → ¬ freed x → is_Some (ip_sems s' !! x).

Definition none_freed (x : Z) : Prop := False.

Lemma kept_by freed s C s' H :
  sem_ok s' C H → (∀ x, is_Some (ip_sems s !! x) → is_Some (ip_sems s' !! x)) → kept freed s C s'.
Proof. intros Hok Hl. split; [by exists H|auto]. Qed.

Lemma still_there (sems : gmap Z sem) x m y : is_Some (sems !! y) → is_Some (<[x := m]> sems !! y).
Proof. intros Hy. apply lookup_insert_is_Some'. by right. Qed.

Lemma wp_rd_sem s x m (P : sem → ipc S → Prop) : ip_sems s !! x = Some m → P m s → wp (rd_sem x) P s.
Proof. intros Ha HP. unfold rd_sem. wp_step. wp_step. by eapply wp_lift. Qed.

Lemma wp_upd_sem s x m f (P : unit → ipc S → Prop) :
  ip_sems s !! x = Some m → P tt (set_ip_sems (<[x := f m]> (ip_sems s)) s) → wp (upd_sem x f) P s.
Proof. intros Ha HP. unfold upd_sem. wp_step. eapply wp_rd_sem; [done|]. by wp_step. Qed.

Lemma wp_add_int s a b (P : Z → ipc S → Prop) :
  - 2 ^ 31 ≤ a + b < 2 ^ 31 → P (a + b) s → wp (add_int a b) P s.
Proof.
  intros Hab HP. unfold add_int.
  rewrite (proj2 (Z.leb_le _ _)), (proj2 (Z.ltb_lt _ _)) by lia. cbn [andb]. by wp_step.
Qed.

(** The semaphore that a handle stands for, or nothing. *)
Lemma wp_sem_handle s C H h (P : option Z → ipc S → Prop) :
  sem_ok s C H → P None s →
  (∀ x m, aget (ip_sem_handles s) h = Some (Some x) → ip_sems s !! x = Some m → P (Some x) s) →
  wp (sem_get_by_handle h) P s.
Proof.
  intros Hok HN HS. unfold sem_get_by_handle, handle_get. wp_step. wp_step.
  destruct (Z.ltb_spec h 0); cbn [orb]; [by wp_step|]. destruct (Z.leb_spec SEM_HANDLE_MAX h); [by wp_step|].
  destruct (aget_is_Some (ip_sem_handles s) h) as [[x|] Hx]; [by rewrite (so_handles_len _ _ _ Hok)| |].
  - eapply wp_lift; [exact Hx|]. destruct (so_handles _ _ _ Hok x) as [m Hm]; [|by apply (HS x m)].
    unfold aget in Hx. destruct (decide _); [|done]. by eapply list_elem_of_lookup_2.
  - by eapply wp_lift.
Qed.

(** The search by name. *)
Lemma find_object_wp {T} (objs : gmap Z T) cond l s (P : option Z → ipc S → Prop) :
  (∀ x, Some x ∈ l → is_Some (objs !! x)) →
  (∀ x o, Some x ∈ l → objs !! x = Some o → cond o = true → P (Some x) s) →
  ((∀ x o, Some x ∈ l → objs !! x = Some o → cond o = false) → P None s) →
  wp (find_object objs cond l) P s.
Proof.
  induction l as [|[x|] l IH]; intros Hl HS HN; cbn [find_object].
  - wp_step. apply HN. intros x o []%elem_of_nil.
  - destruct (Hl x) as [o Ho]; [by left|]. wp_step. eapply wp_lift; [done|].
    destruct (cond o) eqn:Hc; [wp_step; apply (HS x o); [by left|done|done]|].
    apply IH; [intros y Hy; apply Hl; by right|intros y u Hy; apply HS; by right|].
    intros Hn. apply HN. intros y u [[= ->]|Hy]%elem_of_cons Hu; [by simplify_eq|by apply (Hn y)].
  - apply IH; [intros y Hy; apply Hl; by right|intros y u Hy; apply HS; by right|].
    intros Hn. apply HN. intros y u [?|Hy]%elem_of_cons Hu; [done|by apply (Hn y)].
Qed.

Lemma wp_sem_find s C H name (P : option Z → ipc S → Prop) :
  sem_ok s C H → P None s →
  (∀ x m, Some x ∈ ip_sem_table s → ip_sems s !! x = Some m → P (Some x) s) →
  wp (sem_find_by_name name) P s.
Proof.
  intros Hok HN HS. unfold sem_find_by_name. wp_step. wp_step.
  apply find_object_wp; [apply Hok|intros x m Hx Hm _; by apply (HS x m)|done].
Qed.

(** *** One semaphore changes *)

Lemma sem_ok_upd s C H x m m' :
  sem_ok s C H → ip_sems s !! x = Some m → array_of m' = array_of m →
  refs x (ip_sem_handles s) ≤ sem_refcount m' < 2 ^ 31 →
  sem_ok (set_ip_sems (<[x := m']> (ip_sems s)) s) C H.
Proof.
  intros Hok Hx Ha Hr. destruct Hok as [H1 H2 H3 H4 H5 H6 H7 H8 H9 H10].
  assert (∀ y, is_Some (ip_sems s !! y) → is_Some (<[x := m']> (ip_sems s) !! y)) as Hl.
  { intros y Hy. apply lookup_insert_is_Some. destruct (decide (x = y)); [by left|by right]. }
  assert (∀ y k, <[x := m']> (ip_sems s) !! y = Some k →
            ∃ k', ip_sems s !! y = Some k' ∧ array_of k = array_of k') as Hback.
  { intros y k [[<- <-]|[_ Hy]]%lookup_insert_Some; [by exists m|by exists k]. }
  split; cbn [ip_heap ip_sems ip_sem_table ip_sem_handles set_ip_sems]; try done.
  - intros y Hy. by apply Hl, H4.
  - intros y Hy. by apply Hl, H6.
  - intros y k [[<- <-]|[_ Hy]]%lookup_insert_Some; [done|by apply H7].
  - intros y k (k' & Hk & _)%Hback. by apply (H8 y k').
  - intros y k p (k' & Hk & Hkk)%Hback Hp. rewrite Hkk in Hp. destruct (H9 y k' p Hk Hp) as [Hn Hp'].
    split; [|done]. apply lookup_insert_None. split; [done|]. intros ->. congruence.
  - intros y z k k' p (u & Hu & Huu)%Hback (v & Hv & Hvv)%Hback Hp Hp'.
    rewrite Huu in Hp. rewrite Hvv in Hp'. by apply (H10 y z u v p).
Qed.

Lemma sem_ok_heap s hp C H : sem_ok s C H → kh_inv hp C H → sem_ok (set_ip_heap hp s) C H.
Proof. intros [H1 H2 H3 H4 H5 H6 H7 H8 H9 H10] Hhp. by split. Qed.

Lemma sem_ok_sched s d C H : sem_ok s C H → sem_ok (set_ip_sched d s) C H.
Proof. intros [H1 H2 H3 H4 H5 H6 H7 H8 H9 H10]. by split. Qed.

(** A new handle of a semaphore that has a reference for it. *)
Lemma sem_alloc_handle_wp s C H x m :
  sem_ok s C H → ip_sems s !! x = Some m → refs x (ip_sem_handles s) + 1 ≤ sem_refcount m →
  wp (sem_alloc_handle x) (λ r s', sem_ok s' C H ∧
    ((r = - EMFILE ∧ s' = s) ∨
     (0 ≤ r < SEM_HANDLE_MAX ∧ aget (ip_sem_handles s) r = Some None ∧
      s' = set_ip_sem_handles (aset (ip_sem_handles s) r (Some x)) s))) s.
Proof.
  intros Hok Hx Hr. unfold sem_alloc_handle. wp_step. wp_step.
  destruct (free_slot (ip_sem_handles s) 0) as [i|] eqn:Hi; last first.
  { wp_step. split; [done|by left]. }
  apply free_slot_spec in Hi. rewrite Z.sub_0_r in Hi. wp_step. wp_step. wp_step.
  pose proof (aget_Some_bounds _ _ _ Hi) as Hb. rewrite (so_handles_len _ _ _ Hok) in Hb.
  split; [|by right]. destruct Hok as [H1 H2 H3 H4 H5 H6 H7 H8 H9 H10].
  split; cbn [ip_heap ip_sems ip_sem_table ip_sem_handles set_ip_sem_handles]; try done.
  - by rewrite alen_aset.
  - intros y [[= ->]|Hy]%elem_of_aset; [by rewrite Hx|by apply H6].
  - intros y k Hy. rewrite (refs_aset y _ i (Some x) None Hi), (decide_False (P := None = Some y)) by done.
    specialize (H7 y k Hy). destruct (decide (Some x = Some y)) as [[= ->]|]; [|lia]. simplify_eq. lia.
Qed.

(** *** Opening *)

Context {KHL : KHeapLaws S}.

Lemma sem_ok_new s hp C H slot x m :
  sem_ok s C H → kh_inv hp C (<[x := (None, SIZEOF_SEM)]> H) → H !! x = None →
  aget (ip_sem_table s) slot = Some None → sem_refcount m = 1 → array_of m = None →
  let s' := set_ip_sem_table (aset (ip_sem_table s) slot (Some x))
              (set_ip_sems (<[x := m]> (ip_sems s)) (set_ip_heap hp s)) in
  sem_ok s' C (<[x := (None, SIZEOF_SEM)]> H) ∧ refs x (ip_sem_handles s') = 0.
Proof.
  intros Hok Hhp Hx Hslot Hr Ha s'. destruct Hok as [H1 H2 H3 H4 H5 H6 H7 H8 H9 H10].
  assert (ip_sems s !! x = None) as Hsx.
  { destruct (ip_sems s !! x) as [k|] eqn:Hk; [|done]. apply H8 in Hk. congruence. }
  assert (∀ y k, ip_sems s !! y = Some k → x ≠ y) as Hne by (intros y k Hk ->; congruence).
  assert (refs x (ip_sem_handles s) = 0) as Hrx.
  { apply refs_none. intros [k Hk]%H6. congruence. }
  assert (refs x (ip_sem_table s) = 0) as Htx.
  { apply refs_none. intros [k Hk]%H4. congruence. }
  assert (∀ y, is_Some (ip_sems s !! y) → is_Some (<[x := m]> (ip_sems s) !! y)) as Hl.
  { intros y Hy. apply lookup_insert_is_Some. destruct (decide (x = y)); [by left|by right]. }
  split; [|done]. split; cbn [s' ip_heap ip_sems ip_sem_table ip_sem_handles set_ip_sem_table set_ip_sems set_ip_heap]; try done.
  - by rewrite alen_aset.
  - intros y [[= ->]|Hy]%elem_of_aset; [rewrite lookup_insert_eq; eauto|by apply Hl, H4].
  - intros y. rewrite (refs_aset y _ slot (Some x) None Hslot), (decide_False (P := None = Some y)) by done.
    specialize (H5 y). destruct (decide (Some x = Some y)) as [[= ->]|]; lia.
  - intros y Hy. by apply Hl, H6.
  - intros y k [[<- <-]|[_ Hy]]%lookup_insert_Some; [lia|by apply H7].
  - intros y k [[<- <-]|[Hn Hy]]%lookup_insert_Some; [apply lookup_insert_eq|].
    rewrite lookup_insert_ne by done. by apply (H8 y k).
  - intros y k p [[<- <-]|[Hn Hy]]%lookup_insert_Some Hp; [congruence|].
    destruct (H9 y k p Hy Hp) as (Hpn & n & HHp). assert (x ≠ p) as Hxp by congruence.
    rewrite !lookup_insert_ne by done. eauto.
  - intros y z k k' p [[<- <-]|[Hn Hy]]%lookup_insert_Some [[<- <-]|[Hn' Hz]]%lookup_insert_Some Hp Hp';
      [congruence..|by apply (H10 y z k k' p)].
Qed.

(** Nothing is freed and the invariant holds with the blocks [H]. *)
Ltac keep H :=
  apply (kept_by _ _ _ _ H); [try done|intros ? ?; repeat apply still_there; assumption].

Lemma sem_open_wp s C H name oflag value :
  sem_ok s C H → (∀ x m, ip_sems s !! x = Some m → sem_refcount m < 2 ^ 31 - 1) →
  wp (sem_open_syscall name oflag value) (λ _ s', kept none_freed s C s') s.
Proof.
  intros Hok Hmax. unfold sem_open_syscall. destruct (valid_name name) as [n|]; [|wp_step; keep H].
  wp_step. apply (wp_sem_find s C H); [done| |].
  - cbv iota. destruct (negb _); [wp_step; keep H|]. wp_step. wp_step.
    destruct (free_slot (ip_sem_table s) 0) as [slot|] eqn:Hslot; [|wp_step; keep H].
    apply free_slot_spec in Hslot. rewrite Z.sub_0_r in Hslot.
    wp_step. eapply wp_kmalloc; [apply Hok|unfold SIZEOF_SEM, KMALLOC_LIMIT; lia| |].
    { intros hp Hhp. wp_step. keep H. by apply sem_ok_heap. }
    intros x hp Hx _ HHx Hhp. wp_step. wp_step.
    destruct (sem_ok_new s hp C H slot x (Sem (stored_name n) (int32 value) 1 false no_waiters) Hok Hhp HHx Hslot)
      as [Hok' Hr]; [done|done|].
    eapply wp_mono; [eapply sem_alloc_handle_wp; [exact Hok'|apply lookup_insert_eq|]|].
    + cbn in *. lia.
    + intros r s' [Hs' [[_ ->]|(_ & _ & ->)]]; (eapply kept_by; [exact Hs'|]; intros y Hy; by apply still_there).
  - intros x m Htx Hx. cbv iota. wp_step. eapply wp_rd_sem; [done|].
    destruct (has oflag O_EXCL); [wp_step; keep H|]. destruct (sem_unlinked m); [wp_step; keep H|].
    pose proof (so_refs _ _ _ Hok x m Hx) as Hr. pose proof (refs_nonneg x (ip_sem_handles s)).
    specialize (Hmax x m Hx).
    wp_step. apply wp_add_int; [lia|]. wp_step. eapply wp_upd_sem; [done|].
    eapply wp_mono.
    { eapply sem_alloc_handle_wp; [|apply lookup_insert_eq|cbn; lia]. eapply sem_ok_upd; [done|done|done|cbn; lia]. }
    intros r s' [Hs' [[_ ->]|(_ & _ & ->)]]; (eapply kept_by; [exact Hs'|]; intros y Hy; by apply still_there).
Qed.

(** *** Destroying, closing, unlinking *)

Lemma sem_destroy_wp s C H x m :
  sem_ok s C H → ip_sems s !! x = Some m → refs x (ip_sem_handles s) = 0 →
  wp (sem_destroy x) (λ _ s', kept (λ y, y = x) s C s') s.
Proof.
  intros Hok Hx Hr. unfold sem_destroy, free_waiters. destruct Hok as [H1 H2 H3 H4 H5 H6 H7 H8 H9 H10].
  wp_step. wp_step. wp_step. eapply wp_rd_sem; [done|]. wp_step.
  assert (∀ hp H', kh_inv hp C (delete x H') →
     (∀ p b, H !! p = Some b → Some p ≠ array_of m → H' !! p = Some b) →
     sem_ok (set_ip_sems (delete x (ip_sems s)) (set_ip_heap hp
       (set_ip_sem_table (clear_slot (ip_sem_table s) x) s))) C (delete x H')) as Hfin.
  { intros hp H' Hhp HH'.
    assert (∀ y k, delete x (ip_sems s) !! y = Some k → x ≠ y ∧ ip_sems s !! y = Some k) as Hback.
    { by intros y k [? ?]%lookup_delete_Some. }
    assert (∀ y, Some y ∈ ip_sem_handles s → x ≠ y) as Hhx.
    { intros y Hy ->. apply refs_some in Hy. lia. }
    split; cbn [ip_heap ip_sems ip_sem_table ip_sem_handles set_ip_sem_table set_ip_sems set_ip_heap]; try done.
    - by rewrite alen_clear_slot.
    - intros y Hy. pose proof (refs_some _ _ Hy) as Hy1. rewrite refs_clear_slot in Hy1.
      apply elem_of_clear_slot in Hy as [?|Hy]; [done|]. specialize (H5 y).
      destruct (decide (y = x ∧ Some x ∈ ip_sem_table s)) as [[-> _]|Hn]; [lia|].
      rewrite lookup_delete_ne by (intros ->; tauto). by apply H4.
    - intros y. rewrite refs_clear_slot. specialize (H5 y). destruct (decide _); lia.
    - intros y Hy. rewrite lookup_delete_ne by by apply Hhx. by apply H6.
    - intros y k [Hne Hy]%Hback. by apply H7.
    - intros y k [Hne Hy]%Hback. rewrite lookup_delete_ne by done. apply HH'; [by apply (H8 y k)|].
      intros Hp. destruct (H9 x m y Hx) as [? _]; [done|]. congruence.
    - intros y k p [Hne Hy]%Hback Hp. destruct (H9 y k p Hy Hp) as (Hpn & n & HHp). split.
      + apply lookup_delete_None. by right.
      + exists n. rewrite lookup_delete_ne by congruence. apply HH'; [done|]. intros Hpm.
        by apply Hne, (H10 x y m k p).
    - intros y z k k' p [_ Hy]%Hback [_ Hz]%Hback. by apply (H10 y z k k' p). }
  assert (∀ hp H', sem_ok (set_ip_sems (delete x (ip_sems s)) (set_ip_heap hp
       (set_ip_sem_table (clear_slot (ip_sem_table s) x) s))) C H' → kept (λ y, y = x) s C
     (set_ip_sems (delete x (ip_sems s)) (set_ip_heap hp (set_ip_sem_table (clear_slot (ip_sem_table s) x) s)))) as Hkept.
  { intros hp H' Hok'. split; [by exists H'|]. intros y Hy Hne. cbn. by rewrite lookup_delete_ne. }
  unfold array_of in *. destruct (wq_array (sem_waiters m)) as [p|] eqn:Hp.
  - destruct (H9 x m p Hx) as (Hpn & n & HHp); [done|].
    eapply (wp_kfree _ C H); [done|done|]. intros hp1 Hhp1.
    wp_step. eapply (wp_kfree _ C); [exact Hhp1|rewrite lookup_delete_ne by congruence; by apply (H8 x m)|].
    intros hp2 Hhp2. wp_step. apply (Hkept _ (delete x (delete p H))), (Hfin hp2 _ Hhp2).
    intros y b Hy Hne. rewrite lookup_delete_ne; [done|]. congruence.
  - wp_step. wp_step. eapply (wp_kfree _ C H); [done|by apply (H8 x m)|].
    intros hp Hhp. wp_step. apply (Hkept _ (delete x H)). by apply Hfin.
Qed.

(** One reference and the handle that held it are dropped. *)
Lemma sem_ok_drop s C H h x m n :
  sem_ok s C H → aget (ip_sem_handles s) h = Some (Some x) → ip_sems s !! x = Some m → n = sem_refcount m + -1 →
  let s' := set_ip_sem_handles (aset (ip_sem_handles s) h None)
              (set_ip_sems (<[x := set_sem_refcount n m]> (ip_sems s)) s) in
  sem_ok s' C H ∧ refs x (ip_sem_handles s') ≤ n.
Proof.
  intros Hok Hh Hx -> s'.
  assert (∀ y, refs y (ip_sem_handles s') = refs y (ip_sem_handles s) - (if decide (Some x = Some y) then 1 else 0)) as Hrf.
  { intros y. cbn. rewrite (refs_aset y _ h None _ Hh), (decide_False (P := None = Some y)) by done. lia. }
  pose proof (so_refs _ _ _ Hok x m Hx) as Hr.
  split; [|rewrite Hrf, decide_True by done; lia].
  destruct Hok as [H1 H2 H3 H4 H5 H6 H7 H8 H9 H10].
  assert (∀ y, is_Some (ip_sems s !! y) → is_Some (ip_sems s' !! y)) as Hl.
  { intros y Hy. apply lookup_insert_is_Some. destruct (decide (x = y)); [by left|by right]. }
  assert (∀ y k, ip_sems s' !! y = Some k → ∃ k', ip_sems s !! y = Some k' ∧ array_of k = array_of k') as Hback.
  { intros y k Hk. cbn in Hk. apply lookup_insert_Some in Hk as [[<- <-]|[_ Hy]]; [by exists m|by exists k]. }
  split; try done.
  - cbn. by rewrite alen_aset.
  - intros y Hy. by apply Hl, H4.
  - intros y [?|Hy]%elem_of_aset; [done|by apply Hl, H6].
  - intros y k Hy. rewrite Hrf. cbn in Hy. apply lookup_insert_Some in Hy as [[<- <-]|[Hne Hy]].
    + rewrite decide_True by done. cbn. lia.
    + rewrite decide_False by congruence. specialize (H7 y k Hy). lia.
  - intros y k (k' & Hk & _)%Hback. by apply (H8 y k').
  - intros y k p (k' & Hk & Hkk)%Hback Hp. rewrite Hkk in Hp. destruct (H9 y k' p Hk Hp) as [Hn Hp'].
    split; [|done]. apply lookup_insert_None. split; [done|]. intros ->. congruence.
  - intros y z k k' p (u & Hu & Huu)%Hback (v & Hv & Hvv)%Hback Hp Hp'.
    rewrite Huu in Hp. rewrite Hvv in Hp'. by apply (H10 y z u v p).
Qed.

(** Closing frees the semaphore with the last reference if it was unlinked. *)
Definition closing s h (x : Z) : Prop := ∃ m, aget (ip_sem_handles s) h = Some (Some x) ∧
  ip_sems s !! x = Some m ∧ sem_refcount m = 1 ∧ sem_unlinked m = true.

Lemma sem_close_wp s C H h : sem_ok s C H → wp (sem_close_syscall h) (λ _ s', kept (closing s h) s C s') s.
Proof.
  intros Hok. unfold sem_close_syscall. wp_step. eapply wp_sem_handle; [done|wp_step; keep H|].
  intros x m Hh Hx. cbv iota. wp_step. eapply wp_rd_sem; [done|].
  pose proof (so_refs _ _ _ Hok x m Hx) as Hr. pose proof (refs_nonneg x (ip_sem_handles s)) as Hn0.
  wp_step. apply wp_add_int; [lia|]. wp_step. eapply wp_upd_sem; [done|].
  destruct (sem_ok_drop s C H h x m _ Hok Hh Hx eq_refl) as [Hok' Hr']. wp_step. unfold sem_free_handle.
  pose proof (aget_Some_bounds _ _ _ Hh) as Hb. rewrite (so_handles_len _ _ _ Hok) in Hb.
  rewrite (proj2 (Z.ltb_ge h 0)), (proj2 (Z.leb_gt SEM_HANDLE_MAX h)) by lia. cbn [orb]. wp_step. wp_step.
  destruct ((sem_refcount m + -1 =? 0) && sem_unlinked m) eqn:Hz; [|wp_step; wp_step; keep H].
  apply andb_true_iff in Hz as [Hz%Z.eqb_eq Hul]. rewrite Hz in Hr', Hok' |- *.
  eapply wp_mono.
  { eapply sem_destroy_wp; [exact Hok'|apply lookup_insert_eq|].
    apply Z.le_antisymm; [exact Hr'|apply refs_nonneg]. }
  intros [] s' [Hs' Hl]. wp_step. split; [done|]. intros y Hy Hn. apply Hl; [by apply still_there|].
  intros ->. apply Hn. exists m. split_and!; [done|done|lia|done].
Qed.

(** Unlinking frees a semaphore without references. *)
Definition unlinking s (x : Z) : Prop := ∃ m, ip_sems s !! x = Some m ∧ sem_refcount m = 0.

Lemma sem_unlink_wp s C H name : sem_ok s C H → wp (sem_unlink_syscall name) (λ _ s', kept (unlinking s) s C s') s.
Proof.
  intros Hok. unfold sem_unlink_syscall. destruct (valid_name name) as [n|]; [|wp_step; keep H].
  wp_step. apply (wp_sem_find s C H); [done|wp_step; keep H|].
  intros x m _ Hx. cbv iota. pose proof (so_refs _ _ _ Hok x m Hx) as Hr.
  assert (sem_ok (set_ip_sems (<[x := set_sem_unlinked true m]> (ip_sems s)) s) C H) as Hok'.
  { eapply sem_ok_upd; done. }
  wp_step. eapply wp_upd_sem; [done|]. wp_step. eapply wp_rd_sem; [apply lookup_insert_eq|]. wp_step.
  cbn [set_sem_unlinked sem_refcount]. destruct (Z.eqb_spec (sem_refcount m) 0) as [Hz|_]; [|wp_step; wp_step; keep H].
  eapply wp_mono.
  { eapply sem_destroy_wp; [exact Hok'|apply lookup_insert_eq|]. cbn. pose proof (refs_nonneg x (ip_sem_handles s)). lia. }
  intros [] s' [Hs' Hl]. wp_step. split; [done|]. intros y Hy Hn. apply Hl; [by apply still_there|].
  intros ->. apply Hn. by exists m.
Qed.

(** *** Waiting and posting *)

(** The blocks after an array moved to [p]. *)
Definition moved (H : blocks) (old : option Z) (p n : Z) : blocks :=
  match old with Some o => delete o (<[p := (None, n)]> H) | None => <[p := (None, n)]> H end.

(** The array of waiters of [x] moves to a larger block. *)
Lemma sem_ok_grow s C H hp hp' p n x m q :
  sem_ok s C H → ip_sems s !! x = Some m → H !! p = None →
  wq_array q = Some p →
  kh_inv hp C (moved H (array_of m) p n) →
  sem_ok (set_ip_sems (<[x := set_sem_waiters q m]> (ip_sems s)) (set_ip_heap hp (set_ip_heap hp' s))) C (moved H (array_of m) p n).
Proof.
  intros Hok Hx Hp Hq Hhp. set (H' := moved H (array_of m) p n) in *.
  destruct Hok as [H1 H2 H3 H4 H5 H6 H7 H8 H9 H10].
  assert (∀ a b, H !! a = Some b → array_of m ≠ Some a → H' !! a = Some b) as Hkeep.
  { intros a b Ha Hne. subst H'. unfold moved. destruct (array_of m) as [o|]; [rewrite lookup_delete_ne by congruence|];
      (rewrite lookup_insert_ne by congruence; done). }
  assert (H' !! p = Some (None, n)) as Hp'.
  { subst H'. unfold moved. destruct (array_of m) as [o|] eqn:Ho; [|apply lookup_insert_eq].
    destruct (H9 x m o Hx Ho) as (_ & k & Hk). rewrite lookup_delete_ne by congruence. apply lookup_insert_eq. }
  assert (∀ y k, ip_sems s !! y = Some k → y ≠ p) as Hnp by (intros y k Hk%H8 ->; congruence).
  assert (∀ y, is_Some (ip_sems s !! y) → is_Some (<[x := set_sem_waiters q m]> (ip_sems s) !! y)) as Hl.
  { intros y Hy. apply lookup_insert_is_Some. destruct (decide (x = y)); [by left|by right]. }
  assert (∀ y k, ip_sems s !! y = Some k → array_of m ≠ Some y) as Hna.
  { intros y k Hy Ha. destruct (H9 x m y Hx Ha). congruence. }
  split; cbn [ip_heap ip_sems ip_sem_table ip_sem_handles set_ip_sems set_ip_heap]; try done.
  - intros y Hy. by apply Hl, H4.
  - intros y Hy. by apply Hl, H6.
  - intros y k [[<- <-]|[_ Hy]]%lookup_insert_Some; [by apply (H7 x m)|by apply H7].
  - intros y k [[<- _]|[_ Hy]]%lookup_insert_Some; (apply Hkeep; [by eapply H8|by eapply Hna]).
  - intros y k u [[<- <-]|[Hne Hy]]%lookup_insert_Some Hu.
    + unfold array_of in Hu. cbn in Hu. rewrite Hq in Hu. injection Hu as <-. split; [|by exists n].
      apply lookup_insert_None. split; [|by apply (Hnp x m)].
      destruct (ip_sems s !! p) eqn:Hsp; [|done]. by destruct (Hnp p _ Hsp).
    + destruct (H9 y k u Hy Hu) as (Hn & b & Hb). split; [apply lookup_insert_None; split; [done|congruence]|].
      exists b. apply Hkeep; [done|]. intros Ha. by apply Hne, (H10 x y m k u).
  - intros y z k k' u [[<- <-]|[Hn Hy]]%lookup_insert_Some [[<- <-]|[Hn' Hz]]%lookup_insert_Some Hu Hu'.
    + done.
    + unfold array_of in Hu. cbn in Hu. rewrite Hq in Hu. injection Hu as <-.
      destruct (H9 z k' p Hz Hu') as (_ & b & Hb). congruence.
    + unfold array_of in Hu'. cbn in Hu'. rewrite Hq in Hu'. injection Hu' as <-.
      destruct (H9 y k p Hy Hu) as (_ & b & Hb). congruence.
    + by apply (H10 y z k k' u).
Qed.

Lemma sem_add_waiter_wp s C H x m t :
  sem_ok s C H → ip_sems s !! x = Some m → 0 ≤ wq_capacity (sem_waiters m) ≤ 2 ^ 24 →
  wp (sem_add_waiter x t) (λ _ s', kept none_freed s C s') s.
Proof.
  intros Hok Hx Hcap. unfold sem_add_waiter, add_waiter. pose proof (so_refs _ _ _ Hok x m Hx) as Hr.
  assert (∀ q, wq_array q = array_of m → sem_ok (set_ip_sems (<[x := set_sem_waiters q m]> (ip_sems s)) s) C H) as Hsame.
  { intros q Hq. eapply sem_ok_upd; [done|done|exact Hq|done]. }
  wp_step. eapply wp_rd_sem; [done|]. wp_step. wp_step.
  destruct (wq_capacity (sem_waiters m) <=? alen (wq_threads (sem_waiters m))).
  2:{ wp_step. cbv iota. wp_step. wp_step. eapply wp_upd_sem; [done|]. wp_step. keep H. by apply Hsame. }
  set (c := if wq_capacity (sem_waiters m) =? 0 then 4 else _).
  assert (0 < c ≤ 2 ^ 25) as Hc by (subst c; destruct (Z.eqb_spec (wq_capacity (sem_waiters m)) 0); lia).
  rewrite (proj2 (Z.leb_gt _ _)) by lia.
  wp_step. eapply (wp_kmalloc _ C H); [apply Hok|unfold KMALLOC_LIMIT; lia| |].
  { intros hp Hhp. wp_step. cbv iota. wp_step. wp_step. eapply wp_upd_sem; [done|]. wp_step. keep H.
    cbn [fst snd]. eapply sem_ok_upd; [by apply sem_ok_heap|done|done|done]. }
  intros p hp Hp _ HHp Hhp. cbv iota. wp_step.
  assert (∀ hp1 hp2 n, kh_inv hp1 C (moved H (array_of m) p n) →
    wp (r ← mret (Some (WaitQ (Some p) (wq_threads (sem_waiters m)) c));
        match r with
        | None => mret (- ENOMEM, sem_waiters m)
        | Some q' => mret (0, set_wq_threads (wq_threads q' ++ [t]) q')
        end) (λ r, wp (upd_sem x (set_sem_waiters r.2) ;; mret r.1) (λ _ s', kept none_freed s C s'))
      (set_ip_heap hp1 (set_ip_heap hp2 s))) as Hgo.
  { intros hp1 hp2 n Hh1. wp_step. wp_step. cbv iota. wp_step. wp_step. eapply wp_upd_sem; [done|]. wp_step.
    keep (moved H (array_of m) p n). cbn [fst snd]. by eapply (sem_ok_grow s C H hp1 hp2). }
  unfold array_of in *. destruct (wq_array (sem_waiters m)) as [o|] eqn:Ho.
  - destruct (so_array _ _ _ Hok x m o Hx Ho) as (_ & k & Hk).
    eapply (wp_kfree _ C); [exact Hhp|by rewrite lookup_insert_ne by congruence|]. intros hp2 Hhp2.
    exact (Hgo hp2 hp _ Hhp2).
  - wp_step. exact (Hgo hp hp _ Hhp).
Qed.

(** The calls on semaphores.  A wait is made in turns: [SemWait] runs it up to
    where the thread [t] blocks or the call returns, [SemResume] continues it from
    there with the pointer [x] the thread has kept, up to the next such point. *)
Inductive sem_op :=
  | SemOpen (name : option (list Z)) (oflag value : Z)
  | SemClose (sem_id : Z)
  | SemUnlink (name : option (list Z))
  | SemWait (t sem_id : Z)
  | SemResume (t x : Z)
  | SemPost (sem_id : Z)
  | SemTrywait (sem_id : Z)
  | SemGetvalue (sem_id : Z).

(** [Some x]: the thread has blocked inside a wait on [x]. *)
Definition wait_turn (x : Z) : M (ipc S) (option Z) :=
  r ← sem_wait_turn x; mret (match r with None => Some x | Some _ => None end).

Definition sem_step (op : sem_op) : M (ipc S) (option Z) :=
  match op with
  | SemOpen name oflag value => sem_open_syscall name oflag value ;; mret None
  | SemClose id => sem_close_syscall id ;; mret None
  | SemUnlink name => sem_unlink_syscall name ;; mret None
  | SemWait _ id =>
      h ← sem_get_by_handle id; match h with None => mret None | Some x => wait_turn x end
  | SemResume _ x => wait_turn x
  | SemPost id => sem_post_syscall id ;; mret None
  | SemTrywait id => sem_trywait_syscall id ;; mret None
  | SemGetvalue id => sem_getvalue_syscall id true ;; mret None
  end.

(** The threads inside a wait, with the semaphores they keep a pointer to. *)
Definition waiting_after (W : gmap Z Z) (op : sem_op) (r : option Z) : gmap Z Z :=
  match op with
  | SemWait t _ | SemResume t _ => match r with Some x => <[t := x]> W | None => delete t W end
  | _ => W
  end.

Definition turn_range s (x : Z) : Prop :=
  (∃ c, thread_current (ip_sched s) = Some (c, ip_sched s)) ∧
  ∀ m, ip_sems s !! x = Some m → - 2 ^ 31 < sem_value m < 2 ^ 31 ∧ 0 ≤ wq_capacity (sem_waiters m) ≤ 2 ^ 24.

(** What is asked of a call: no count at the end of its range, a scheduler that
    can take the thread that is woken, and no semaphore freed while a thread is
    inside a wait on it. *)
Definition in_range s (W : gmap Z Z) (op : sem_op) : Prop :=
  match op with
  | SemOpen _ _ _ => ∀ x m, ip_sems s !! x = Some m → sem_refcount m < 2 ^ 31 - 1
  | SemClose h => ∀ t x, W !! t = Some x → ¬ closing s h x
  | SemUnlink _ => ∀ t x, W !! t = Some x → ¬ unlinking s x
  | SemWait t h => ∀ x, aget (ip_sem_handles s) h = Some (Some x) → turn_range s x
  | SemResume t x => W !! t = Some x ∧ turn_range s x
  | SemPost h => ∀ x m, aget (ip_sem_handles s) h = Some (Some x) → ip_sems s !! x = Some m →
      - 2 ^ 31 ≤ sem_value m < 2 ^ 31 - 1 ∧ is_Some (after_wake (sem_waiters m) (ip_sched s))
  | SemTrywait h => ∀ x m, aget (ip_sem_handles s) h = Some (Some x) → ip_sems s !! x = Some m →
      - 2 ^ 31 < sem_value m < 2 ^ 31
  | _ => True
  end.

Definition waits_live (W : gmap Z Z) s : Prop := ∀ t x, W !! t = Some x → is_Some (ip_sems s !! x).

Lemma sem_wait_turn_wp s C H x m c :
  sem_ok s C H → ip_sems s !! x = Some m → thread_current (ip_sched s) = Some (c, ip_sched s) →
  - 2 ^ 31 < sem_value m < 2 ^ 31 → 0 ≤ wq_capacity (sem_waiters m) ≤ 2 ^ 24 →
  wp (sem_wait_turn x) (λ _ s', kept none_freed s C s') s.
Proof.
  intros Hok Hx Hc Hv Hcap. unfold sem_wait_turn. wp_step. eapply wp_rd_sem; [done|].
  pose proof (so_refs _ _ _ Hok x m Hx) as Hr. destruct (sem_value m =? 0).
  - wp_step. apply wp_zoom. eapply wp_intro; [exact Hc|].
    replace (set_ip_sched (ip_sched s) s) with s by by destruct s.
    destruct c as [t|]; [|wp_step; keep H]. wp_step.
    eapply wp_mono; [by apply (sem_add_waiter_wp s C H x m t)|]. intros r s' Hs'. by wp_step.
  - wp_step. apply wp_add_int; [lia|]. wp_step. eapply wp_upd_sem; [done|]. wp_step.
    keep H. by eapply sem_ok_upd.
Qed.

Lemma wp_remove_and_unblock s C H x m d (P : unit → ipc S → Prop) :
  sem_ok s C H → ip_sems s !! x = Some m → 0 < alen (wq_threads (sem_waiters m)) →
  after_wake (sem_waiters m) (ip_sched s) = Some d →
  P tt (set_ip_sched d (set_ip_sems (<[x := set_sem_waiters (remove_waiter (sem_waiters m)).2 m]> (ip_sems s)) s)) →
  wp (t ← sem_remove_waiter x; unblock t) P s.
Proof.
  intros Hok Hx Hn Hd HP. wp_step. unfold sem_remove_waiter. wp_step. eapply wp_rd_sem; [done|].
  wp_step. eapply wp_upd_sem; [done|]. wp_step. unfold after_wake, remove_waiter in *.
  destruct (wq_threads (sem_waiters m)) as [|t ts]; [done|]. by eapply wp_unblock.
Qed.

Lemma sem_post_wp s C H W h :
  sem_ok s C H → in_range s W (SemPost h) → wp (sem_post_syscall h) (λ _ s', kept none_freed s C s') s.
Proof.
  intros Hok Hrg. unfold sem_post_syscall. wp_step. eapply wp_sem_handle; [done|wp_step; keep H|].
  intros x m Hh Hx. destruct (Hrg x m Hh Hx) as [Hv [d Hd]]. cbv iota. wp_step. eapply wp_rd_sem; [done|].
  wp_step. apply wp_add_int; [lia|]. wp_step. eapply wp_upd_sem; [done|]. wp_step.
  pose proof (so_refs _ _ _ Hok x m Hx) as Hr.
  assert (sem_ok (set_ip_sems (<[x := set_sem_value (sem_value m + 1) m]> (ip_sems s)) s) C H) as Hok'.
  { by eapply sem_ok_upd. }
  destruct (Z.ltb_spec 0 (alen (wq_threads (sem_waiters m)))) as [Hn|_]; [|wp_step; wp_step; keep H].
  eapply wp_remove_and_unblock; [exact Hok'|apply lookup_insert_eq|done|exact Hd|]. wp_step. keep H.
  apply sem_ok_sched. eapply sem_ok_upd; [exact Hok'|apply lookup_insert_eq| |done].
  unfold array_of, remove_waiter. cbn. by destruct (wq_threads _).
Qed.

Lemma kept_live freed W s C s' :
  waits_live W s → (∀ t x, W !! t = Some x → ¬ freed x) → kept freed s C s' → waits_live W s'.
Proof. intros HW Hf [_ Hk] t x Hx. apply Hk; [by eapply HW|by eapply Hf]. Qed.

(** A turn of a wait on a semaphore that lives. *)
Lemma wait_turn_wp s C H W t x :
  sem_ok s C H → waits_live W s → is_Some (ip_sems s !! x) → turn_range s x →
  wp (wait_turn x) (λ r s', (∃ H', sem_ok s' C H') ∧
    waits_live (match r with Some x => <[t := x]> W | None => delete t W end) s') s.
Proof.
  intros Hok HW [m Hx] [[c Hc] Hrg]. destruct (Hrg m Hx) as [Hv Hcap]. unfold wait_turn. wp_step.
  eapply wp_mono; [by apply (sem_wait_turn_wp s C H x m c)|]. intros r s' [Hs' Hk]. wp_step. split; [done|].
  assert (waits_live W s') as HW' by (intros u y Hu; apply Hk; [by eapply HW|by intros []]).
  destruct r; intros u y Hu.
  - apply lookup_delete_Some in Hu as [_ Hu]. by eapply HW'.
  - apply lookup_insert_Some in Hu as [[_ <-]|[_ Hu]]; [apply Hk; [by exists m|by intros []]|by eapply HW'].
Qed.


End sem.

(** * Semaphores: counting, and a wakeup that is lost

    Without waiters a semaphore refines a counter.  A post that comes between
    the unlock in sem_wait_syscall and the call of thread_block finds a thread
    that still runs: it is taken off the list and not woken, and blocks for good
    although the semaphore is positive. *)

Inductive count_op := Post | Try.

(** The counter: its results and where it ends. *)
Fixpoint count_run (v : Z) (ops : list count_op) : list Z * Z :=
  match ops with
  | [] => ([], v)
  | Post :: ops' => let r := count_run (v + 1) ops' in (0 :: r.1, r.2)
  | Try :: ops' =>
      if v =? 0 then let r := count_run v ops' in (- EAGAIN :: r.1, r.2)
      else let r := count_run (v - 1) ops' in (0 :: r.1, r.2)
  end.

Section count.
Context {S : Type} {KH : KHeap S}.
Implicit Types (s : ipc S) (C : gmap Z Z) (H : blocks) (x h : Z) (m : sem).

Fixpoint sem_run (h : Z) (ops : list count_op) : M (ipc S) (list Z) :=
  match ops with
  | [] => mret []
  | op :: ops' =>
      r ← match op with Post => sem_post_syscall h | Try => sem_trywait_syscall h end;
      rs ← sem_run h ops';
      mret (r :: rs)
  end.

(** The handle [h] stands for the semaphore [x] that is [m]. *)
Definition opened s h x m : Prop :=
  0 ≤ h < SEM_HANDLE_MAX ∧ aget (ip_sem_handles s) h = Some (Some x) ∧ ip_sems s !! x = Some m.

Lemma wp_opened s h x m (P : option Z → ipc S → Prop) :
  opened s h x m → P (Some x) s → wp (sem_get_by_handle h) P s.
Proof.
  intros (Hh & Ha & _) HP. unfold sem_get_by_handle, handle_get. wp_step. wp_step.
  rewrite (proj2 (Z.ltb_ge _ _)), (proj2 (Z.leb_gt _ _)) by lia. by eapply wp_lift.
Qed.

Lemma post_idle s h x m (P : Z → ipc S → Prop) :
  opened s h x m → wq_threads (sem_waiters m) = [] → - 2 ^ 31 ≤ sem_value m < 2 ^ 31 - 1 →
  P 0 (set_ip_sems (<[x := set_sem_value (sem_value m + 1) m]> (ip_sems s)) s) → wp (sem_post_syscall h) P s.
Proof.
  intros Ho Hw Hv HP. unfold sem_post_syscall. wp_step. eapply wp_opened; [done|].
  cbv iota. wp_step. eapply wp_rd_sem; [apply Ho|]. wp_step. apply wp_add_int; [lia|].
  wp_step. eapply wp_upd_sem; [apply Ho|]. wp_step. rewrite Hw.
  change (0 <? alen (@nil Z)) with false. cbv iota. wp_step. by wp_step.
Qed.

Lemma opened_upd s h x m m' :
  opened s h x m → opened (set_ip_sems (<[x := m']> (ip_sems s)) s) h x m'.
Proof. intros (Hh & Ha & _). split; [done|]. split; [done|]. apply lookup_insert_eq. Qed.

(** C33. Posts and attempts to take, without waiters: the results are those of a
    counter, which never falls below zero. *)
Theorem sem_counts s h x m ops :
  opened s h x m → wq_threads (sem_waiters m) = [] → 0 ≤ sem_value m → sem_value m + alen ops < 2 ^ 31 →
  wp (sem_run h ops) (λ rs s',
    rs = (count_run (sem_value m) ops).1 ∧ 0 ≤ (count_run (sem_value m) ops).2 ∧
    opened s' h x (set_sem_value (count_run (sem_value m) ops).2 m)) s.
Proof.
  revert s m. induction ops as [|op ops IH]; intros s m Ho Hw Hv Hmax; cbn [sem_run count_run].
  { wp_step. split; [done|]. split; [done|]. by destruct m. }
  rewrite alen_cons in Hmax. pose proof (alen_nonneg ops).
  wp_step. destruct op.
  - eapply post_idle; [done|done|lia|]. wp_step. eapply wp_mono.
    { apply (IH _ (set_sem_value (sem_value m + 1) m)); [by eapply opened_upd|done|cbn; lia|cbn; lia]. }
    intros rs s' (-> & Hn & Ho'). by wp_step.
  - unfold sem_trywait_syscall. wp_step. eapply wp_opened; [done|]. cbv iota. wp_step. eapply wp_rd_sem; [apply Ho|].
    destruct (Z.eqb_spec (sem_value m) 0) as [Hz|Hz].
    + wp_step. wp_step. eapply wp_mono; [apply (IH s m); [done|done|done|lia]|]. rewrite Hz.
      intros rs s' (-> & Hn & Ho'). by wp_step.
    + wp_step. apply wp_add_int; [lia|]. wp_step. eapply wp_upd_sem; [apply Ho|]. wp_step. wp_step. eapply wp_mono.
      { apply (IH _ (set_sem_value (sem_value m - 1) m)); [by eapply opened_upd|done|cbn; lia|cbn; lia]. }
      intros rs s' (-> & Hn & Ho'). by wp_step.
Qed.

(** A thread [t] finds the semaphore at zero and goes to wait; before it blocks,
    somebody posts.  It blocks although the semaphore is 1, and is not on the
    list of waiters: the next post does not wake it either. *)
Theorem sem_wakeup_lost s h x m t th :
  opened s h x m → sem_value m = 0 → wq_threads (sem_waiters m) = [] → 0 < wq_capacity (sem_waiters m) →
  thread_current (ip_sched s) = Some (Some t, ip_sched s) → t ≠ 0 →
  sc_threads (ip_sched s) !! t = Some th → t_state th ≠ THREAD_BLOCKED →
  wp (r ← sem_wait_turn x;
      sem_post_syscall h ;;
      sched_ (upd_thread t (set_t_state THREAD_BLOCKED)) ;;
      sem_post_syscall h ;;
      mret r)
     (λ r s', r = None ∧
        sc_threads (ip_sched s') !! t = Some (set_t_state THREAD_BLOCKED th) ∧
        ∃ m', opened s' h x m' ∧ sem_value m' = 2 ∧ wq_threads (sem_waiters m') = []) s.
Proof.
  intros Ho Hv Hw Hcap Hcur Ht Hth Hst. wp_step. unfold sem_wait_turn. wp_step. eapply wp_rd_sem; [apply Ho|].
  rewrite Hv. cbn [Z.eqb]. wp_step. apply wp_zoom. eapply wp_intro; [exact Hcur|].
  replace (set_ip_sched (ip_sched s) s) with s by by destruct s.
  wp_step. unfold sem_add_waiter, add_waiter. wp_step. eapply wp_rd_sem; [apply Ho|]. wp_step. wp_step.
  rewrite Hw. rewrite (proj2 (Z.leb_gt _ _)) by done. wp_step. cbv iota. wp_step. wp_step.
  eapply wp_upd_sem; [apply Ho|]. wp_step. wp_step. cbn [fst snd Z.ltb Z.compare]. rewrite Hw. cbn [app].
  set (m1 := set_sem_waiters _ m). assert (opened (set_ip_sems (<[x := m1]> (ip_sems s)) s) h x m1) as Ho1
    by by eapply opened_upd.
  wp_step. unfold sem_post_syscall at 1. wp_step. eapply wp_opened; [exact Ho1|]. cbv iota.
  wp_step. eapply wp_rd_sem; [apply Ho1|]. wp_step. apply wp_add_int; [cbn; lia|].
  wp_step. eapply wp_upd_sem; [apply Ho1|]. wp_step. change (0 <? alen (wq_threads (sem_waiters m1))) with true.
  cbv iota. wp_step. unfold sem_remove_waiter. wp_step. eapply wp_rd_sem; [apply lookup_insert_eq|].
  wp_step. eapply wp_upd_sem; [apply lookup_insert_eq|]. wp_step.
  eapply (wp_unblock _ _ (ip_sched s)).
  { cbn. rewrite (proj2 (Z.eqb_neq _ _)) by done. unfold thread_unblock, rd_thread, mbind, M_bind, get, lift.
    rewrite Hth. cbn. by rewrite bool_decide_eq_false_2. }
  wp_step. wp_step. apply wp_zoom. unfold upd_thread, rd_thread. wp_step. wp_step. wp_step.
  eapply wp_lift; [exact Hth|]. wp_step. wp_step.
  eapply (post_idle _ h x).
  { split; [apply Ho|]. split; [apply Ho|]. apply lookup_insert_eq. }
  { done. }
  { cbn. lia. }
  wp_step. split; [done|]. split; [apply lookup_insert_eq|].
  eexists. split; [|split].
  - split; [apply Ho|]. split; [apply Ho|]. apply lookup_insert_eq.
  - cbn. lia.
  - done.
Qed.

End count.
