(* ===== verification/IpcDemo.v ===== *)
(** * An example: a queue and a semaphore

    The theorems on message queues and semaphores, applied to concrete states. *)

From stdpp Require Import strings.
From S2P Require Import Prelude DList Pmm PmmThm Frames Vmm VmmThm PageMap Slab KHeap UAccess.
From S2P Require Import Sched SchedDemo Ipc MqThm SemThm.

(** Nothing happens while a thread waits: it is not used, as nobody waits. *)
Definition no_wait {S} : M (ipc S) unit := mret tt.

Definition one_slot (n : nat) (x : Z) : list (option Z) := Some x :: replicate n None.

(** A queue at 5000 and a semaphore at 6000, both behind handle 0. *)
Definition demo_ipc (q : mqueue) (m : sem) : ipc _ :=
  Ipc demo_heap (demo_sched THREAD_READY THREAD_READY) {[6000 := m]} (one_slot 255 6000) (one_slot 63 6000)
    {[5000 := q]} ∅ (one_slot 127 5000) (one_slot 63 5000).

Definition demo_mq : mqueue := MQueue [47; 113] default_attr 1 false None no_waiters no_waiters.
Definition demo_sem (v : Z) : sem := Sem [47; 115] v 1 false (WaitQ (Some 7000) [] 4).

Lemma demo_mq_ok m : mq_ok (demo_ipc demo_mq m) ∅ ∅ {[5000 := []]}.
Proof.
  split; [exact demo_holds|done| |].
  - intros x l [<- <-]%lookup_singleton_Some. exists demo_mq. split; try done.
    + by intros e []%elem_of_nil.
    + by intros p n []%elem_of_nil.
    + constructor.
  - intros x y l l' p [<- <-]%lookup_singleton_Some [<- <-]%lookup_singleton_Some. done.
Qed.

Lemma mq_order_witness :
  wp (exchange no_wait 0 8192 [([1], 0); ([2], 5); ([3], 0); ([4], 5)]) (λ r s',
    sublist r.1 [([1], 0); ([2], 5); ([3], 0); ([4], 5)] ∧ descending snd r.2 ∧
    (∀ prio, of_key snd prio r.2 = of_key snd prio r.1) ∧ mq_ok s' ∅ ∅ {[5000 := []]})
    (demo_ipc demo_mq (demo_sem 0)).
Proof.
  apply (mq_order no_wait _ ∅ ∅ {[5000 := []]} 0 5000 demo_mq 8192 _ (demo_mq_ok _)); try reflexivity.
  - repeat constructor; by vm_compute.
  - by vm_compute.
Defined.

(** Before anything was opened. *)
Definition fresh_ipc : ipc _ :=
  Ipc demo_heap (demo_sched THREAD_READY THREAD_READY) ∅ (replicate 256 None) (replicate 64 None)
    ∅ ∅ (replicate 128 None) (replicate 64 None).

Lemma fresh_sem_ok : sem_ok fresh_ipc ∅ ∅.
Proof.
  split; try done.
  - exact demo_holds.
  - intros x [[=] _]%elem_of_replicate.
  - intros x [[=] _]%elem_of_replicate.
Qed.

(** A semaphore with the value 0 is opened; its address. *)
Definition sem_opened_ipc : ipc _ := run_state (sem_step (SemOpen (Some [47; 115]) O_CREAT 0)) fresh_ipc.
Definition opened_sem : Z := default 0 (mjoin (aget (ip_sem_handles sem_opened_ipc) 0)).

Lemma sem_opened_handle : aget (ip_sem_handles sem_opened_ipc) 0 = Some (Some opened_sem).
Proof. vm_compute; reflexivity. Qed.

Lemma sem_opened_range : turn_range sem_opened_ipc opened_sem.
Proof.
  split; [exists (Some 100); vm_compute; reflexivity|]. intros m Hm.
  assert (ip_sems sem_opened_ipc !! opened_sem = Some (Sem [115] 0 1 false no_waiters)) as Hx by (vm_compute; reflexivity).
  rewrite Hx in Hm. injection Hm as <-. split; vm_compute; split; (reflexivity || discriminate).
Qed.


(** A thread blocks inside a wait; the semaphore is unlinked and its handle, which
    all processes share, is closed: this frees it.  When the thread is woken, by a
    signal say, it locks and reads the semaphore again, which is not there any
    more. *)
Definition freed_under_waiter : M (ipc _) Z :=
  h ← sem_open_syscall (Some [47; 115]) O_CREAT 0;
  x ← sem_get_by_handle h;
  let x := default 0 x in
  r ← sem_wait_turn x;
  sem_unlink_syscall (Some [47; 115]) ;;
  sem_close_syscall h ;;
  mret (match r with None => x | Some _ => 0 end).

Lemma sem_wait_reaches_freed :
  fst <$> freed_under_waiter fresh_ipc = Some opened_sem ∧
  (x ← freed_under_waiter; sem_wait_turn x) fresh_ipc = None.
Proof. split; vm_compute; reflexivity. Qed.

Lemma demo_sem_opened q v : opened (demo_ipc q (demo_sem v)) 0 6000 (demo_sem v).
Proof. repeat split. by unfold SEM_HANDLE_MAX. Qed.

Lemma sem_counts_witness :
  wp (sem_run 0 [Try; Post; Try; Try]) (λ rs s',
    rs = [0; 0; 0; - EAGAIN] ∧ 0 ≤ 0 ∧ opened s' 0 6000 (set_sem_value 0 (demo_sem 1)))
    (demo_ipc demo_mq (demo_sem 1)).
Proof.
  apply (sem_counts _ 0 6000 (demo_sem 1) [Try; Post; Try; Try] (demo_sem_opened _ _)); [done|done|by vm_compute].
Defined.

Lemma sem_wakeup_lost_witness :
  wp (r ← sem_wait_turn 6000;
      sem_post_syscall 0 ;;
      sched_ (upd_thread 100 (set_t_state THREAD_BLOCKED)) ;;
      sem_post_syscall 0 ;;
      mret r)
     (λ r s', r = None ∧
        sc_threads (ip_sched s') !! 100 =
          Some (set_t_state THREAD_BLOCKED (demo_thread 0 THREAD_RUNNING None None)) ∧
        ∃ m', opened s' 0 6000 m' ∧ sem_value m' = 2 ∧ wq_threads (sem_waiters m') = [])
     (demo_ipc demo_mq (demo_sem 0)).
Proof.
  apply (sem_wakeup_lost _ 0 6000 (demo_sem 0) 100 _ (demo_sem_opened _ _)); try done; by vm_compute.
Defined.
