(* ===== verification/Process.v ===== *)
(** * Processes, process groups and signals (process/process.c, process/pgrp.c, signal/signal.c)

    Processes live at addresses of the kernel heap; the process table maps a
    process identifier to one of them.  The signal state of a process is owned
    by it and is a field here.  Part of the state are the scheduler, which
    continuing a process calls, and the memory of the running program, where
    signal delivery builds its frame.  Fields that only the memory and file
    layers use, and process creation and destruction, which allocate and free
    address spaces, are left out.  The spinlock makes the operations on the
    table atomic and is left out. *)

From S2P Require Import Prelude CString UAccess Sched.

(** ** Data (process.h, signal.h) *)

Definition MAX_PROCESSES : Z := 256.
Definition PID_INVALID : Z := 2 ^ 32 - 1.
Definition RLIM_NLIMITS : Z := 16.

Definition SIGKILL : Z := 9.
Definition SIGUSR1 : Z := 10.
Definition SIGSEGV : Z := 11.
Definition SIGCHLD : Z := 17.
Definition SIGCONT : Z := 18.
Definition SIGSTOP : Z := 19.
Definition SIGTSTP : Z := 20.
Definition SIGTTIN : Z := 21.
Definition SIGTTOU : Z := 22.
Definition NSIG : Z := 32.

Definition SA_NOCLDSTOP : Z := 0x00000001.
Definition SA_NODEFER : Z := 0x40000000.
Definition SA_RESETHAND : Z := 0x80000000.

Definition SIG_DFL : Z := 0.
Definition SIG_IGN : Z := 1.
Definition SIG_ERR : Z := 2 ^ 64 - 1.

Definition SIG_BLOCK : Z := 0.
Definition SIG_UNBLOCK : Z := 1.
Definition SIG_SETMASK : Z := 2.

Inductive process_state :=
  | PROC_UNUSED
  | PROC_EMBRYO
  | PROC_READY
  | PROC_RUNNING
  | PROC_BLOCKED
  | PROC_STOPPED
  | PROC_ZOMBIE
  | PROC_DEAD.

#[export] Instance process_state_eq_dec : EqDecision process_state.
Proof. solve_decision. Defined.

Inductive sig_default_action :=
  | SIG_ACTION_TERM
  | SIG_ACTION_CORE
  | SIG_ACTION_STOP
  | SIG_ACTION_CONT
  | SIG_ACTION_IGN.

(** [sa_flags] as its 32 bits; [sa_pad] are the four bytes after it, which a
    copy of the whole structure carries. *)
Record sigaction := SigAction {
  sa_handler : Z;
  sa_mask : Z;
  sa_flags : Z;
  sa_pad : Z;
  sa_restorer : Z }.

Record signal_state := SignalState {
  ss_pending : Z;
  ss_blocked : Z;
  ss_actions : list sigaction }.

Record rlimit := RLimit { rlim_cur : Z; rlim_max : Z }.

Record process_t := Process {
  p_pid : Z;
  p_name : list Z;
  p_state : process_state;
  p_parent_pid : Z;
  p_pgrp : Z;
  p_session_id : Z;
  p_exit_code : Z;
  p_exec_count : Z;
  p_main_thread : option Z;
  p_signals : option signal_state;
  p_umask : Z;
  p_uid : Z;
  p_euid : Z;
  p_suid : Z;
  p_gid : Z;
  p_egid : Z;
  p_sgid : Z;
  p_alarm_ticks : Z;
  p_stop_signal : Z;
  p_stop_reported : bool;
  p_continue_reported : bool;
  p_limits : list rlimit }.

Definition set_p_state (x : process_state) (p : process_t) : process_t :=
  Process (p_pid p) (p_name p) x (p_parent_pid p) (p_pgrp p) (p_session_id p) (p_exit_code p)
    (p_exec_count p) (p_main_thread p) (p_signals p) (p_umask p) (p_uid p) (p_euid p) (p_suid p)
    (p_gid p) (p_egid p) (p_sgid p) (p_alarm_ticks p) (p_stop_signal p) (p_stop_reported p)
    (p_continue_reported p) (p_limits p).
Definition set_p_pgrp (x : Z) (p : process_t) : process_t :=
  Process (p_pid p) (p_name p) (p_state p) (p_parent_pid p) x (p_session_id p) (p_exit_code p)
    (p_exec_count p) (p_main_thread p) (p_signals p) (p_umask p) (p_uid p) (p_euid p) (p_suid p)
    (p_gid p) (p_egid p) (p_sgid p) (p_alarm_ticks p) (p_stop_signal p) (p_stop_reported p)
    (p_continue_reported p) (p_limits p).
Definition set_p_session_id (x : Z) (p : process_t) : process_t :=
  Process (p_pid p) (p_name p) (p_state p) (p_parent_pid p) (p_pgrp p) x (p_exit_code p)
    (p_exec_count p) (p_main_thread p) (p_signals p) (p_umask p) (p_uid p) (p_euid p) (p_suid p)
    (p_gid p) (p_egid p) (p_sgid p) (p_alarm_ticks p) (p_stop_signal p) (p_stop_reported p)
    (p_continue_reported p) (p_limits p).
Definition set_p_exit_code (x : Z) (p : process_t) : process_t :=
  Process (p_pid p) (p_name p) (p_state p) (p_parent_pid p) (p_pgrp p) (p_session_id p) x
    (p_exec_count p) (p_main_thread p) (p_signals p) (p_umask p) (p_uid p) (p_euid p) (p_suid p)
    (p_gid p) (p_egid p) (p_sgid p) (p_alarm_ticks p) (p_stop_signal p) (p_stop_reported p)
    (p_continue_reported p) (p_limits p).
Definition set_p_signals (x : option signal_state) (p : process_t) : process_t :=
  Process (p_pid p) (p_name p) (p_state p) (p_parent_pid p) (p_pgrp p) (p_session_id p)
    (p_exit_code p) (p_exec_count p) (p_main_thread p) x (p_umask p) (p_uid p) (p_euid p)
    (p_suid p) (p_gid p) (p_egid p) (p_sgid p) (p_alarm_ticks p) (p_stop_signal p)
    (p_stop_reported p) (p_continue_reported p) (p_limits p).
Definition set_p_umask (x : Z) (p : process_t) : process_t :=
  Process (p_pid p) (p_name p) (p_state p) (p_parent_pid p) (p_pgrp p) (p_session_id p)
    (p_exit_code p) (p_exec_count p) (p_main_thread p) (p_signals p) x (p_uid p) (p_euid p)
    (p_suid p) (p_gid p) (p_egid p) (p_sgid p) (p_alarm_ticks p) (p_stop_signal p)
    (p_stop_reported p) (p_continue_reported p) (p_limits p).
Definition set_p_alarm_ticks (x : Z) (p : process_t) : process_t :=
  Process (p_pid p) (p_name p) (p_state p) (p_parent_pid p) (p_pgrp p) (p_session_id p)
    (p_exit_code p) (p_exec_count p) (p_main_thread p) (p_signals p) (p_umask p) (p_uid p)
    (p_euid p) (p_suid p) (p_gid p) (p_egid p) (p_sgid p) x (p_stop_signal p) (p_stop_reported
    p) (p_continue_reported p) (p_limits p).
Definition set_p_stop_signal (x : Z) (p : process_t) : process_t :=
  Process (p_pid p) (p_name p) (p_state p) (p_parent_pid p) (p_pgrp p) (p_session_id p)
    (p_exit_code p) (p_exec_count p) (p_main_thread p) (p_signals p) (p_umask p) (p_uid p)
    (p_euid p) (p_suid p) (p_gid p) (p_egid p) (p_sgid p) (p_alarm_ticks p) x (p_stop_reported
    p) (p_continue_reported p) (p_limits p).
Definition set_p_stop_reported (x : bool) (p : process_t) : process_t :=
  Process (p_pid p) (p_name p) (p_state p) (p_parent_pid p) (p_pgrp p) (p_session_id p)
    (p_exit_code p) (p_exec_count p) (p_main_thread p) (p_signals p) (p_umask p) (p_uid p)
    (p_euid p) (p_suid p) (p_gid p) (p_egid p) (p_sgid p) (p_alarm_ticks p) (p_stop_signal p) x
    (p_continue_reported p) (p_limits p).
Definition set_p_continue_reported (x : bool) (p : process_t) : process_t :=
  Process (p_pid p) (p_name p) (p_state p) (p_parent_pid p) (p_pgrp p) (p_session_id p)
    (p_exit_code p) (p_exec_count p) (p_main_thread p) (p_signals p) (p_umask p) (p_uid p)
    (p_euid p) (p_suid p) (p_gid p) (p_egid p) (p_sgid p) (p_alarm_ticks p) (p_stop_signal p)
    (p_stop_reported p) x (p_limits p).
Definition set_p_limits (x : list rlimit) (p : process_t) : process_t :=
  Process (p_pid p) (p_name p) (p_state p) (p_parent_pid p) (p_pgrp p) (p_session_id p)
    (p_exit_code p) (p_exec_count p) (p_main_thread p) (p_signals p) (p_umask p) (p_uid p)
    (p_euid p) (p_suid p) (p_gid p) (p_egid p) (p_sgid p) (p_alarm_ticks p) (p_stop_signal p)
    (p_stop_reported p) (p_continue_reported p) x.
Definition set_p_uids (r : Z) (e : Z) (s : Z) (p : process_t) : process_t :=
  Process (p_pid p) (p_name p) (p_state p) (p_parent_pid p) (p_pgrp p) (p_session_id p)
    (p_exit_code p) (p_exec_count p) (p_main_thread p) (p_signals p) (p_umask p) r e s (p_gid p)
    (p_egid p) (p_sgid p) (p_alarm_ticks p) (p_stop_signal p) (p_stop_reported p)
    (p_continue_reported p) (p_limits p).
Definition set_p_gids (r : Z) (e : Z) (s : Z) (p : process_t) : process_t :=
  Process (p_pid p) (p_name p) (p_state p) (p_parent_pid p) (p_pgrp p) (p_session_id p)
    (p_exit_code p) (p_exec_count p) (p_main_thread p) (p_signals p) (p_umask p) (p_uid p)
    (p_euid p) (p_suid p) r e s (p_alarm_ticks p) (p_stop_signal p) (p_stop_reported p)
    (p_continue_reported p) (p_limits p).

Record procs := Procs {
  pr_procs : gmap Z process_t;
  pr_table : list (option Z);
  pr_next_pid : Z;
  pr_current : option Z;
  pr_sched : sched;
  pr_user : bytes }.

Definition set_pr_procs (x : gmap Z process_t) (s : procs) : procs :=
  Procs x (pr_table s) (pr_next_pid s) (pr_current s) (pr_sched s) (pr_user s).
Definition set_pr_next_pid (x : Z) (s : procs) : procs :=
  Procs (pr_procs s) (pr_table s) x (pr_current s) (pr_sched s) (pr_user s).
Definition set_pr_current (x : option Z) (s : procs) : procs :=
  Procs (pr_procs s) (pr_table s) (pr_next_pid s) x (pr_sched s) (pr_user s).
Definition set_pr_sched (x : sched) (s : procs) : procs :=
  Procs (pr_procs s) (pr_table s) (pr_next_pid s) (pr_current s) x (pr_user s).
Definition set_pr_user (x : bytes) (s : procs) : procs :=
  Procs (pr_procs s) (pr_table s) (pr_next_pid s) (pr_current s) (pr_sched s) x.

Abbreviation PM := (M procs).

Definition in_sched {A} (c : SM A) : PM A := zoom pr_sched set_pr_sched c.
Definition in_user {A} (c : BM A) : PM A := zoom pr_user set_pr_user c.

Definition rd_proc (x : Z) : PM process_t := s ← get; lift (pr_procs s !! x).

Definition upd_proc (x : Z) (f : process_t → process_t) : PM unit :=
  p ← rd_proc x; modify (λ s, set_pr_procs (<[x := f p]> (pr_procs s)) s).

(** Through [proc->signals]. *)
Definition rd_signals (x : Z) : PM signal_state := p ← rd_proc x; lift (p_signals p).

Definition upd_signals (x : Z) (f : signal_state → signal_state) : PM unit :=
  ss ← rd_signals x; upd_proc x (set_p_signals (Some (f ss))).

(** ** Signal sets (signal.h) *)

Definition sig_bit (signo : Z) : Z := Z.shiftl 1 (signo - 1).
Definition sigaddset (set signo : Z) : Z := Z.lor set (sig_bit signo).
Definition sigdelset (set signo : Z) : Z := Z.land set (Z.lnot (sig_bit signo)).
Definition sigismember (set signo : Z) : bool := negb (Z.land set (sig_bit signo) =? 0).

Definition signal_valid (signum : Z) : bool := (0 <? signum) && (signum <? NSIG).
Definition signal_catchable (signum : Z) : bool := negb (signum =? SIGKILL) && negb (signum =? SIGSTOP).

Definition set_pending (x : Z) (ss : signal_state) : signal_state :=
  SignalState x (ss_blocked ss) (ss_actions ss).
Definition set_blocked (x : Z) (ss : signal_state) : signal_state :=
  SignalState (ss_pending ss) x (ss_actions ss).
Definition set_actions (x : list sigaction) (ss : signal_state) : signal_state :=
  SignalState (ss_pending ss) (ss_blocked ss) x.

Definition pend (signo : Z) (ss : signal_state) : signal_state :=
  set_pending (sigaddset (ss_pending ss) signo) ss.
Definition unpend (signo : Z) (ss : signal_state) : signal_state :=
  set_pending (sigdelset (ss_pending ss) signo) ss.

(** ** The process table (process.c) *)

Definition alloc_pid_locked : PM Z :=
  s ← get;
  match alloc_id (Z.to_nat MAX_PROCESSES) 0 (pr_table s) (pr_next_pid s) with
  | Some pid => put (set_pr_next_pid (id_after pid) s) ;; mret pid
  | None => mret PID_INVALID
  end.

Definition process_get_by_pid (pid : Z) : PM (option Z) :=
  if MAX_PROCESSES <=? pid then mret None
  else s ← get; lift (aget (pr_table s) pid).

Definition process_current : PM (option Z) := gets pr_current.
Definition process_set_current (x : option Z) : PM unit := modify (set_pr_current x).

(** The loops that look for a process: the first slot from [i] on whose process
    satisfies the condition. *)
Fixpoint find_process (n : nat) (i : Z) (cond : process_t → bool) : PM (option Z) :=
  match n with
  | O => mret None
  | S n' =>
      s ← get;
      slot ← lift (aget (pr_table s) i);
      match slot with
      | None => find_process n' (i + 1) cond
      | Some x =>
          p ← rd_proc x;
          if cond p then mret (Some x) else find_process n' (i + 1) cond
      end
  end.

(** From slot 1 on, and from slot 0 on. *)
Definition find_child (cond : process_t → bool) : PM (option Z) :=
  find_process (Z.to_nat (MAX_PROCESSES - 1)) 1 cond.
Definition find_any (cond : process_t → bool) : PM (option Z) :=
  find_process (Z.to_nat MAX_PROCESSES) 0 cond.

Definition is_child (parent_pid child_pid : Z) (p : process_t) : bool :=
  (p_parent_pid p =? parent_pid) && ((child_pid =? PID_INVALID) || (p_pid p =? child_pid)).

Definition in_state (st : process_state) (p : process_t) : bool := bool_decide (p_state p = st).

(** Neither a zombie nor dead. *)
Definition live (p : process_t) : bool := negb (in_state PROC_ZOMBIE p) && negb (in_state PROC_DEAD p).

Definition process_find_zombie_child (parent_pid child_pid : Z) : PM (option Z) :=
  find_child (λ p, is_child parent_pid child_pid p && in_state PROC_ZOMBIE p).

Definition process_has_children (parent_pid : Z) : PM bool :=
  r ← find_child (λ p, (p_parent_pid p =? parent_pid) &&
                       negb (in_state PROC_DEAD p) && negb (in_state PROC_UNUSED p));
  mret (match r with Some _ => true | None => false end).

Definition process_find_stopped_child (parent_pid child_pid : Z) : PM (option Z) :=
  find_child (λ p, is_child parent_pid child_pid p &&
                   in_state PROC_STOPPED p && negb (p_stop_reported p)).

Definition process_find_continued_child (parent_pid child_pid : Z) : PM (option Z) :=
  find_child (λ p, is_child parent_pid child_pid p &&
                   negb (in_state PROC_STOPPED p) && negb (p_continue_reported p) &&
                   (negb (p_stop_signal p =? 0) || p_stop_reported p)).

(** ** Notifying the parent (signal.c) *)

(** The three signal_send_sigchld functions: [skip] is what they ask of the
    parent's flags. *)
Definition notify_parent (skip : sigaction → bool) (parent_pid : Z) : PM unit :=
  parent ← process_get_by_pid parent_pid;
  match parent with
  | None => mret tt
  | Some x =>
      p ← rd_proc x;
      match p_signals p with
      | None => mret tt
      | Some ss =>
          action ← lift (aget (ss_actions ss) SIGCHLD);
          if skip action then mret tt
          else if negb (sa_handler action =? SIG_IGN) then upd_signals x (pend SIGCHLD)
          else mret tt
      end
  end.

Definition signal_send_sigchld (child_pid parent_pid : Z) : PM unit :=
  notify_parent (λ _, false) parent_pid.
Definition signal_send_sigchld_stopped (child_pid parent_pid : Z) : PM unit :=
  notify_parent (λ a, has (sa_flags a) SA_NOCLDSTOP) parent_pid.
Definition signal_send_sigchld_continued (child_pid parent_pid : Z) : PM unit :=
  notify_parent (λ _, false) parent_pid.

(** ** Exiting, stopping and continuing (process.c) *)

Definition process_exit (proc : option Z) (exit_code : Z) : PM unit :=
  match proc with
  | None => mret tt
  | Some x =>
      p ← rd_proc x;
      upd_proc x (λ p, set_p_exit_code exit_code (set_p_state PROC_ZOMBIE p)) ;;
      if negb (p_parent_pid p =? p_pid p) then signal_send_sigchld (p_pid p) (p_parent_pid p)
      else mret tt
  end.

Definition process_stop (proc : option Z) (signum : Z) : PM unit :=
  match proc with
  | None => mret tt
  | Some x =>
      p ← rd_proc x;
      if negb (live p) then mret tt
      else upd_proc x (λ p, set_p_stop_reported false (set_p_stop_signal signum (set_p_state PROC_STOPPED p)))
  end.

Definition process_continue (proc : option Z) : PM unit :=
  match proc with
  | None => mret tt
  | Some x =>
      p ← rd_proc x;
      if negb (in_state PROC_STOPPED p) then mret tt
      else
        upd_proc x (λ p, set_p_continue_reported false (set_p_stop_signal 0 (set_p_state PROC_READY p))) ;;
        match p_main_thread p with
        | Some t => in_sched (thread_unblock (Some t))
        | None => mret tt
        end
  end.

(** ** Signal state (signal.c) *)

Definition default_actions : list sig_default_action :=
  [SIG_ACTION_IGN;
   SIG_ACTION_TERM; SIG_ACTION_TERM; SIG_ACTION_CORE; SIG_ACTION_CORE; SIG_ACTION_CORE;
   SIG_ACTION_CORE; SIG_ACTION_CORE; SIG_ACTION_CORE; SIG_ACTION_TERM; SIG_ACTION_TERM;
   SIG_ACTION_CORE; SIG_ACTION_TERM; SIG_ACTION_TERM; SIG_ACTION_TERM; SIG_ACTION_TERM;
   SIG_ACTION_TERM; SIG_ACTION_IGN; SIG_ACTION_CONT; SIG_ACTION_STOP; SIG_ACTION_STOP;
   SIG_ACTION_STOP; SIG_ACTION_STOP; SIG_ACTION_IGN; SIG_ACTION_CORE; SIG_ACTION_CORE;
   SIG_ACTION_TERM; SIG_ACTION_TERM; SIG_ACTION_IGN; SIG_ACTION_TERM; SIG_ACTION_TERM;
   SIG_ACTION_CORE].

Definition signal_state_init (st : signal_state) : signal_state :=
  SignalState 0 0 (map (λ a, SigAction SIG_DFL 0 0 (sa_pad a) 0) (ss_actions st)).

(** What [dst] becomes; both have NSIG actions. *)
Definition signal_state_clone (dst src : signal_state) : signal_state :=
  SignalState (ss_pending src) (ss_blocked src) (ss_actions src).

(** The current process, if it has a signal state. *)
Definition get_current_signal_state : PM (option Z) :=
  cur ← process_current;
  match cur with
  | None => mret None
  | Some x => p ← rd_proc x; mret (match p_signals p with Some _ => Some x | None => None end)
  end.

Definition signal_send (pid signum : Z) : PM Z :=
  if signum =? 0 then
    proc ← process_get_by_pid pid; mret (match proc with Some _ => 0 | None => - ESRCH end)
  else if negb (signal_valid signum) then mret (- EINVAL)
  else
    proc ← process_get_by_pid pid;
    match proc with
    | None => mret (- ESRCH)
    | Some x =>
        p ← rd_proc x;
        if negb (live p) then mret (- ESRCH)
        else
          match p_signals p with Some _ => upd_signals x (pend signum) | None => mret tt end ;;
          if (signum =? SIGCONT) && in_state PROC_STOPPED p then
            process_continue (Some x) ;;
            match p_signals p with
            | Some _ =>
                upd_signals x (unpend SIGSTOP) ;; upd_signals x (unpend SIGTSTP) ;;
                upd_signals x (unpend SIGTTIN) ;; upd_signals x (unpend SIGTTOU)
            | None => mret tt
            end ;;
            (if negb (p_parent_pid p =? p_pid p)
             then signal_send_sigchld_continued (p_pid p) (p_parent_pid p) else mret tt) ;;
            mret 0
          else mret 0
    end.

Definition signal_raise (signum : Z) : PM Z :=
  cur ← process_current;
  match cur with
  | None => mret (- ESRCH)
  | Some x => p ← rd_proc x; signal_send (p_pid p) signum
  end.

Definition signal_set (signum handler : Z) : PM Z :=
  if negb (signal_valid signum) then mret SIG_ERR
  else if negb (signal_catchable signum) && negb (handler =? SIG_DFL) then mret SIG_ERR
  else
    st ← get_current_signal_state;
    match st with
    | None => mret SIG_ERR
    | Some x =>
        ss ← rd_signals x;
        a ← lift (aget (ss_actions ss) signum);
        upd_signals x (set_actions (aset (ss_actions ss) signum
          (SigAction handler 0 0 (sa_pad a) (sa_restorer a)))) ;;
        mret (sa_handler a)
    end.

(** [act] is the new action, if there is one; with the result, the old action
    that [oldact] is given where the source writes it. *)
Definition signal_action (signum : Z) (act : option sigaction) : PM (Z * option sigaction) :=
  if negb (signal_valid signum) then mret (- EINVAL, None)
  else
    st ← get_current_signal_state;
    match st with
    | None => mret (- ESRCH, None)
    | Some x =>
        ss ← rd_signals x;
        old ← lift (aget (ss_actions ss) signum);
        match act with
        | None => mret (0, Some old)
        | Some a =>
            if negb (signal_catchable signum) && negb (sa_handler a =? SIG_DFL)
            then mret (- EINVAL, Some old)
            else upd_signals x (set_actions (aset (ss_actions ss) signum a)) ;; mret (0, Some old)
        end
    end.

(** [state->blocked] after [how], or [None] for an unknown [how]. *)
Definition change_mask (how blocked set : Z) : option Z :=
  if how =? SIG_BLOCK then Some (Z.lor blocked set)
  else if how =? SIG_UNBLOCK then Some (Z.land blocked (Z.lnot set))
  else if how =? SIG_SETMASK then Some set
  else None.

Definition signal_procmask (how : Z) (set : option Z) : PM (Z * option Z) :=
  st ← get_current_signal_state;
  match st with
  | None => mret (- ESRCH, None)
  | Some x =>
      ss ← rd_signals x;
      match set with
      | None => mret (0, Some (ss_blocked ss))
      | Some set =>
          match change_mask how (ss_blocked ss) set with
          | None => mret (- EINVAL, Some (ss_blocked ss))
          | Some b =>
              upd_signals x (set_blocked (sigdelset (sigdelset b SIGKILL) SIGSTOP)) ;;
              mret (0, Some (ss_blocked ss))
          end
      end
  end.

Definition signal_pending : PM bool :=
  st ← get_current_signal_state;
  match st with
  | None => mret false
  | Some x =>
      ss ← rd_signals x;
      mret (negb (Z.land (ss_pending ss) (Z.lnot (ss_blocked ss)) =? 0))
  end.

Definition signal_get_pending : PM Z :=
  st ← get_current_signal_state;
  match st with
  | None => mret 0
  | Some x => ss ← rd_signals x; mret (ss_pending ss)
  end.

Definition signal_default_action (signum : Z) : PM sig_default_action :=
  if negb (signal_valid signum) then mret SIG_ACTION_IGN else lift (aget default_actions signum).

Definition handle_default_signal (x signum : Z) : PM unit :=
  action ← signal_default_action signum;
  match action with
  | SIG_ACTION_TERM | SIG_ACTION_CORE => process_exit (Some x) (128 + signum)
  | SIG_ACTION_STOP =>
      process_stop (Some x) signum ;;
      p ← rd_proc x;
      if negb (p_parent_pid p =? p_pid p)
      then signal_send_sigchld_stopped (p_pid p) (p_parent_pid p) else mret tt
  | SIG_ACTION_CONT =>
      p ← rd_proc x;
      if in_state PROC_STOPPED p then
        process_continue (Some x) ;;
        if negb (p_parent_pid p =? p_pid p)
        then signal_send_sigchld_continued (p_pid p) (p_parent_pid p) else mret tt
      else mret tt
  | SIG_ACTION_IGN => mret tt
  end.

(** ** Process groups (pgrp.c) *)

(** The loop of pgrp_send_signal: how many processes took the signal.  The
    error is ESRCH unless one did. *)
Fixpoint pgrp_send_from (n : nat) (i pgrp sig count : Z) : PM Z :=
  match n with
  | O => mret count
  | S n' =>
      proc ← process_get_by_pid i;
      match proc with
      | None => pgrp_send_from n' (i + 1) pgrp sig count
      | Some x =>
          p ← rd_proc x;
          if negb (p_pgrp p =? pgrp) then pgrp_send_from n' (i + 1) pgrp sig count
          else if negb (live p) then pgrp_send_from n' (i + 1) pgrp sig count
          else
            ret ← signal_send i sig;
            pgrp_send_from n' (i + 1) pgrp sig (if ret =? 0 then count + 1 else count)
      end
  end.

Definition pgrp_send_signal (pgrp sig : Z) : PM Z :=
  count ← pgrp_send_from (Z.to_nat MAX_PROCESSES) 0 pgrp sig 0;
  mret (if 0 <? count then count else - ESRCH).

Definition pgrp_exists (pgrp : Z) : PM bool :=
  r ← find_any (λ p, (p_pgrp p =? pgrp) && live p);
  mret (match r with Some _ => true | None => false end).

Definition pgrp_validate_setpgid (target_pid new_pgrp : Z) : PM Z :=
  cur ← process_current;
  match cur with
  | None => mret (- ESRCH)
  | Some c =>
      if target_pid =? 0 then mret (- EINVAL)
      else
        target ← process_get_by_pid target_pid;
        match target with
        | None => mret (- ESRCH)
        | Some t =>
            current ← rd_proc c; target ← rd_proc t;
            if negb (target_pid =? p_pid current) && negb (p_parent_pid target =? p_pid current)
            then mret (- ESRCH)
            else if negb (target_pid =? p_pid current) && (0 <? p_exec_count target)
            then mret (- EACCES)
            else
              let new_pgrp := if new_pgrp =? 0 then target_pid else new_pgrp in
              if new_pgrp =? target_pid then mret 0
              else
                member ← find_any (λ p, (p_pgrp p =? new_pgrp) && live p);
                match member with
                | Some y =>
                    p ← rd_proc y;
                    mret (if negb (p_session_id p =? p_session_id target) then - EPERM else 0)
                | None =>
                    leader ← process_get_by_pid new_pgrp;
                    match leader with
                    | None => mret (- EPERM)
                    | Some y =>
                        p ← rd_proc y;
                        mret (if negb (p_session_id p =? p_session_id target) then - EPERM else 0)
                    end
                end
        end
  end.

(** The second pass of pgrp_is_orphaned: is there a member whose parent is in
    the same session but in another group? *)
Fixpoint outside_parent (n : nat) (i pgrp session_id : Z) : PM bool :=
  match n with
  | O => mret false
  | S n' =>
      proc ← process_get_by_pid i;
      match proc with
      | None => outside_parent n' (i + 1) pgrp session_id
      | Some x =>
          p ← rd_proc x;
          if negb (p_pgrp p =? pgrp) || negb (live p) then outside_parent n' (i + 1) pgrp session_id
          else
            parent ← process_get_by_pid (p_parent_pid p);
            match parent with
            | None => outside_parent n' (i + 1) pgrp session_id
            | Some y =>
                q ← rd_proc y;
                if (p_session_id q =? session_id) && negb (p_pgrp q =? pgrp) && live q then mret true
                else outside_parent n' (i + 1) pgrp session_id
            end
      end
  end.

Definition pgrp_is_orphaned (pgrp : Z) : PM bool :=
  member ← find_any (λ p, (p_pgrp p =? pgrp) && live p);
  match member with
  | None => mret true
  | Some x =>
      p ← rd_proc x;
      r ← outside_parent (Z.to_nat MAX_PROCESSES) 0 pgrp (p_session_id p);
      mret (negb r)
  end.
