(* ===== verification/ProcSys.v ===== *)
(** * Signal delivery and the system calls on processes (signal/signal.c, syscall/syscall.c)

    The frame of a system call holds the registers of the program; signal
    delivery saves it on the stack of the program and redirects it to the
    handler, and sigreturn restores it from there.  The other calls here read
    and change the identity, the groups, the signals and the limits of
    processes. *)

From S2P Require Import Prelude CString UAccess Process.

(** ** The frame of a system call (syscall.h) *)

Record syscall_frame := SyscallFrame {
  f_r15 : Z; f_r14 : Z; f_r13 : Z; f_r12 : Z; f_rbp : Z; f_rbx : Z;
  f_r9 : Z; f_r8 : Z; f_r10 : Z; f_rdx : Z; f_rsi : Z; f_rdi : Z;
  f_rax : Z;
  f_rcx : Z;
  f_r11 : Z;
  f_rsp : Z }.

(** Its words in memory, which are also the first words of a signal frame. *)
Definition frame_words (f : syscall_frame) : list Z :=
  [f_r15 f; f_r14 f; f_r13 f; f_r12 f; f_rbp f; f_rbx f;
   f_r9 f; f_r8 f; f_r10 f; f_rdx f; f_rsi f; f_rdi f;
   f_rax f; f_rcx f; f_r11 f; f_rsp f].

(** A frame from 16 words. *)
Definition words_frame (ws : list Z) : option syscall_frame :=
  match ws with
  | [r15; r14; r13; r12; rbp; rbx; r9; r8; r10; rdx; rsi; rdi; rax; rcx; r11; rsp] =>
      Some (SyscallFrame r15 r14 r13 r12 rbp rbx r9 r8 r10 rdx rsi rdi rax rcx r11 rsp)
  | _ => None
  end.

(** Words in user memory. *)
Definition rd_word (p : Z) : BM Z := l ← rd_bytes 8 p; mret (le_value l).
Definition wr_word (p v : Z) : BM unit := wr_bytes p (le_bytes 8 v).

Fixpoint rd_words (n : nat) (p : Z) : BM (list Z) :=
  match n with
  | O => mret []
  | S n' => w ← rd_word p; ws ← rd_words n' (p + 8); mret (w :: ws)
  end.

Fixpoint wr_words (p : Z) (ws : list Z) : BM unit :=
  match ws with
  | [] => mret tt
  | w :: ws' => wr_word p w ;; wr_words (p + 8) ws'
  end.

(** ** Delivering a signal (signal.c) *)

(** The signal frame is 16 words of context, the signal number and padding in
    one word, the saved mask and two words of code. *)
Definition SIZEOF_SIGNAL_FRAME : Z := 160.
Definition OFFSETOF_TRAMPOLINE : Z := 144.

Definition trampoline : list Z := [Z.lor 0x0000000fc0c74800 (Z.shiftl 15 32); 0x050f].

Definition signal_frame_words (f : syscall_frame) (signum blocked : Z) : list Z :=
  frame_words f ++ [signum; blocked] ++ trampoline.

(** [for (i = 1; i < NSIG; i++) if (sigismember(&deliverable, i)) break] *)
Fixpoint first_signal (n : nat) (i deliverable : Z) : Z :=
  match n with
  | O => 0
  | S n' => if sigismember deliverable i then i else first_signal n' (i + 1) deliverable
  end.

(** The address of the signal frame: below the red zone, aligned. *)
Definition signal_frame_addr (rsp : Z) : Z :=
  Z.land (wrap64 (rsp - 128 - SIZEOF_SIGNAL_FRAME)) (wrap64 (Z.lnot 0xF)).

Definition redirect (signum handler rsp : Z) (f : syscall_frame) : syscall_frame :=
  SyscallFrame (f_r15 f) (f_r14 f) (f_r13 f) (f_r12 f) (f_rbp f) (f_rbx f)
    (f_r9 f) (f_r8 f) (f_r10 f) (f_rdx f) (f_rsi f) signum (f_rax f) handler (f_r11 f) rsp.

(** The mask and the action while the handler runs. *)
Definition enter_handler (signum : Z) (a : sigaction) (ss : signal_state) : signal_state :=
  let b := Z.lor (ss_blocked ss) (sa_mask a) in
  let b := if negb (has (sa_flags a) SA_NODEFER) then sigaddset b signum else b in
  let acts :=
    if has (sa_flags a) SA_RESETHAND
    then aset (ss_actions ss) signum
           (SigAction SIG_DFL (sa_mask a) (sa_flags a) (sa_pad a) (sa_restorer a))
    else ss_actions ss in
  SignalState (ss_pending ss) b acts.

Definition signal_deliver_pending (frame : syscall_frame) : PM (bool * syscall_frame) :=
  st ← get_current_signal_state;
  match st with
  | None => mret (false, frame)
  | Some x =>
      ss ← rd_signals x;
      let deliverable := Z.land (ss_pending ss) (Z.lnot (ss_blocked ss)) in
      if deliverable =? 0 then mret (false, frame)
      else
        let signum := first_signal (Z.to_nat (NSIG - 1)) 1 deliverable in
        if signum =? 0 then mret (false, frame)
        else
          upd_signals x (unpend signum) ;;
          a ← lift (aget (ss_actions ss) signum);
          if sa_handler a =? SIG_IGN then mret (false, frame)
          else if sa_handler a =? SIG_DFL then
            handle_default_signal x signum ;; mret (false, frame)
          else
            let user_rsp := signal_frame_addr (f_rsp frame) in
            if (user_rsp <? 0x1000) || (0x00007FFFFFFFFFFF <=? user_rsp) then
              handle_default_signal x SIGSEGV ;; mret (false, frame)
            else
              in_user (wr_words user_rsp (signal_frame_words frame signum (ss_blocked ss))) ;;
              upd_signals x (enter_handler signum a) ;;
              let ret_addr := user_rsp + SIZEOF_SIGNAL_FRAME - 16 in
              in_user (wr_word ret_addr (user_rsp + OFFSETOF_TRAMPOLINE)) ;;
              mret (true, redirect signum (sa_handler a) ret_addr frame)
  end.

(** ** sigreturn (syscall.c) *)

Definition sys_sigreturn_impl (frame : syscall_frame) : PM (Z * syscall_frame) :=
  cur ← process_current;
  match cur with
  | None => mret (- ESRCH, frame)
  | Some x =>
      p ← rd_proc x;
      match p_signals p with
      | None => mret (- ESRCH, frame)
      | Some _ =>
          let frame_addr := f_rsp frame -u64 OFFSETOF_TRAMPOLINE in
          if (frame_addr <? 0x1000) || (0x00007FFFFFFFFFFF <=? frame_addr) then mret (- EFAULT, frame)
          else
            ws ← in_user (rd_words 16 frame_addr);
            frame' ← lift (words_frame ws);
            saved_mask ← in_user (rd_word (frame_addr + 8 * 17));
            upd_signals x (set_blocked saved_mask) ;;
            mret (int64 (f_rax frame'), frame')
      end
  end.

(** ** Signals (syscall.c) *)

Definition SIZEOF_SIGACTION : Z := 32.

Definition encode_action (a : sigaction) : list Z :=
  le_bytes 8 (sa_handler a) ++ le_bytes 8 (sa_mask a) ++ le_bytes 4 (sa_flags a) ++
  le_bytes 4 (sa_pad a) ++ le_bytes 8 (sa_restorer a).

Definition decode_action (l : list Z) : sigaction :=
  SigAction (le_value (take 8 l)) (le_value (take 8 (drop 8 l))) (le_value (take 4 (drop 16 l)))
    (le_value (take 4 (drop 20 l))) (le_value (take 8 (drop 24 l))).

(** The part that gives the old action. *)
Definition give_old_action (x signum oldact : Z) : PM Z :=
  if oldact =? 0 then mret 0
  else if negb (access_ok oldact SIZEOF_SIGACTION) then mret (- EFAULT)
  else
    ss ← rd_signals x;
    a ← lift (aget (ss_actions ss) signum);
    in_user (copy_to_user oldact (Some (encode_action a)) SIZEOF_SIGACTION).

Definition sys_sigaction (signum act oldact : Z) : PM Z :=
  if (NSIG <=? signum) || (signum =? 0) then mret (- EINVAL)
  else
    st ← get_current_signal_state;
    match st with
    | None => mret (- ESRCH)
    | Some x =>
        r ← give_old_action x signum oldact;
        if r <? 0 then mret (- EFAULT)
        else if act =? 0 then mret 0
        else if negb (access_ok act SIZEOF_SIGACTION) then mret (- EFAULT)
        else
          ss ← rd_signals x;
          a ← lift (aget (ss_actions ss) signum);
          r ← in_user (copy_from_user (Some (encode_action a)) act SIZEOF_SIGACTION);
          upd_signals x (set_actions (aset (ss_actions ss) signum (decode_action r.2))) ;;
          mret (if r.1 <? 0 then - EFAULT else 0)
    end.

Definition sys_sigprocmask (how set oldset : Z) : PM Z :=
  st ← get_current_signal_state;
  match st with
  | None => mret (- ESRCH)
  | Some x =>
      ss ← rd_signals x;
      r ← (if oldset =? 0 then mret 0
           else if negb (access_ok oldset 8) then mret (- EFAULT)
           else in_user (copy_to_user oldset (Some (le_bytes 8 (ss_blocked ss))) 8));
      if r <? 0 then mret (- EFAULT)
      else if set =? 0 then mret 0
      else if negb (access_ok set 8) then mret (- EFAULT)
      else
        k ← in_user (copy_from_user (Some (le_bytes 8 0)) set 8);
        if k.1 <? 0 then mret (- EFAULT)
        else
          match change_mask (int32 how) (ss_blocked ss) (le_value k.2) with
          | None => mret (- EINVAL)
          | Some b =>
              upd_signals x (set_blocked
                (Z.land b (Z.lnot (Z.lor (Z.shiftl 1 SIGKILL) (Z.shiftl 1 SIGSTOP))))) ;;
              mret 0
          end
  end.

Definition sys_kill (pid_arg sig : Z) : PM Z :=
  let pid := int32 pid_arg in
  let signum := int32 sig in
  if (signum <? 0) || (NSIG <=? signum) then mret (- EINVAL)
  else if 0 <? pid then signal_send pid signum
  else if pid =? 0 then
    cur ← process_current;
    match cur with
    | None => mret (- ESRCH)
    | Some x =>
        p ← rd_proc x;
        ret ← pgrp_send_signal (p_pgrp p) signum;
        mret (if 0 <? ret then 0 else ret)
    end
  else if pid =? -1 then mret (- ENOSYS)
  else
    ret ← pgrp_send_signal (wrap32 (- pid)) signum;
    mret (if 0 <? ret then 0 else ret).

(** ** Identity (syscall.c) *)

(** [process_current], and -ESRCH when there is none. *)
Definition with_current (f : Z → process_t → PM Z) : PM Z :=
  cur ← process_current;
  match cur with
  | None => mret (- ESRCH)
  | Some x => p ← rd_proc x; f x p
  end.

(** [proc ? (int64_t)proc->field : 0] *)
Definition current_field (f : process_t → Z) : PM Z :=
  cur ← process_current;
  match cur with
  | None => mret 0
  | Some x => p ← rd_proc x; mret (f p)
  end.

Definition sys_getpid : PM Z := current_field p_pid.
Definition sys_getppid : PM Z := current_field p_parent_pid.
Definition sys_getuid : PM Z := current_field p_uid.
Definition sys_geteuid : PM Z := current_field p_euid.
Definition sys_getgid : PM Z := current_field p_gid.
Definition sys_getegid : PM Z := current_field p_egid.

Definition sys_setuid (uid : Z) : PM Z := with_current (λ x p,
  if p_euid p =? 0 then
    upd_proc x (set_p_uids (wrap32 uid) (wrap32 uid) (wrap32 uid)) ;; mret 0
  else if (uid =? p_uid p) || (uid =? p_suid p) then
    upd_proc x (set_p_uids (p_uid p) (wrap32 uid) (p_suid p)) ;; mret 0
  else mret (- EPERM)).

Definition sys_setgid (gid : Z) : PM Z := with_current (λ x p,
  if p_euid p =? 0 then
    upd_proc x (set_p_gids (wrap32 gid) (wrap32 gid) (wrap32 gid)) ;; mret 0
  else if (gid =? p_gid p) || (gid =? p_sgid p) then
    upd_proc x (set_p_gids (p_gid p) (wrap32 gid) (p_sgid p)) ;; mret 0
  else mret (- EPERM)).

(** [(id == (uint64_t)-1) ? old : (uint32_t)id] *)
Definition new_id (id old : Z) : Z := if id =? 2 ^ 64 - 1 then old else wrap32 id.

Definition sys_setreuid (ruid euid : Z) : PM Z := with_current (λ x p,
  let new_ruid := new_id ruid (p_uid p) in
  let new_euid := new_id euid (p_euid p) in
  if negb (p_euid p =? 0) &&
     (negb (new_ruid =? p_uid p) && negb (new_ruid =? p_euid p) ||
      negb (new_euid =? p_uid p) && negb (new_euid =? p_euid p) && negb (new_euid =? p_suid p))
  then mret (- EPERM)
  else
    let new_suid :=
      if negb (new_ruid =? p_uid p) || negb (p_euid p =? 0) && negb (new_euid =? p_euid p)
      then new_euid else p_suid p in
    upd_proc x (set_p_uids new_ruid new_euid new_suid) ;; mret 0).

Definition sys_setregid (rgid egid : Z) : PM Z := with_current (λ x p,
  let new_rgid := new_id rgid (p_gid p) in
  let new_egid := new_id egid (p_egid p) in
  if negb (p_euid p =? 0) &&
     (negb (new_rgid =? p_gid p) && negb (new_rgid =? p_egid p) ||
      negb (new_egid =? p_gid p) && negb (new_egid =? p_egid p) && negb (new_egid =? p_sgid p))
  then mret (- EPERM)
  else
    let new_sgid :=
      if negb (new_rgid =? p_gid p) || negb (p_euid p =? 0) && negb (new_egid =? p_egid p)
      then new_egid else p_sgid p in
    upd_proc x (set_p_gids new_rgid new_egid new_sgid) ;; mret 0).

Definition one_of (a x y z : Z) : bool := (a =? x) || (a =? y) || (a =? z).

Definition sys_setresuid (ruid euid suid : Z) : PM Z := with_current (λ x p,
  let new_ruid := new_id ruid (p_uid p) in
  let new_euid := new_id euid (p_euid p) in
  let new_suid := new_id suid (p_suid p) in
  let ok a := one_of a (p_uid p) (p_euid p) (p_suid p) in
  if negb (p_euid p =? 0) && (negb (ok new_ruid) || negb (ok new_euid) || negb (ok new_suid))
  then mret (- EPERM)
  else upd_proc x (set_p_uids new_ruid new_euid new_suid) ;; mret 0).

Definition sys_setresgid (rgid egid sgid : Z) : PM Z := with_current (λ x p,
  let new_rgid := new_id rgid (p_gid p) in
  let new_egid := new_id egid (p_egid p) in
  let new_sgid := new_id sgid (p_sgid p) in
  let ok a := one_of a (p_gid p) (p_egid p) (p_sgid p) in
  if negb (p_euid p =? 0) && (negb (ok new_rgid) || negb (ok new_egid) || negb (ok new_sgid))
  then mret (- EPERM)
  else upd_proc x (set_p_gids new_rgid new_egid new_sgid) ;; mret 0).

(** [if (ptr) *ptr = v] for a uint32_t. *)
Definition put_u32 (ptr v : Z) : PM unit :=
  if ptr =? 0 then mret tt else in_user (wr_bytes ptr (le_bytes 4 v)).

Definition sys_getresuid (ruid_ptr euid_ptr suid_ptr : Z) : PM Z := with_current (λ x p,
  put_u32 ruid_ptr (p_uid p) ;; put_u32 euid_ptr (p_euid p) ;; put_u32 suid_ptr (p_suid p) ;; mret 0).

Definition sys_getresgid (rgid_ptr egid_ptr sgid_ptr : Z) : PM Z := with_current (λ x p,
  put_u32 rgid_ptr (p_gid p) ;; put_u32 egid_ptr (p_egid p) ;; put_u32 sgid_ptr (p_sgid p) ;; mret 0).

(** ** Groups and sessions (syscall.c) *)

Definition sys_setsid : PM Z :=
  cur ← process_current;
  match cur with
  | Some x =>
      p ← rd_proc x;
      upd_proc x (λ p, set_p_pgrp (p_pid p) (set_p_session_id (p_pid p) p)) ;;
      mret (p_pid p)
  | None => mret (- EPERM)
  end.

(** The field of the current process for 0, of the process [pid] otherwise. *)
Definition field_of_pid (f : process_t → Z) (pid : Z) : PM Z :=
  if pid =? 0 then current_field f
  else
    target ← process_get_by_pid (wrap32 pid);
    match target with
    | None => mret (- ESRCH)
    | Some x => p ← rd_proc x; mret (f p)
    end.

Definition sys_getpgid (pid : Z) : PM Z := field_of_pid p_pgrp pid.
Definition sys_getsid (pid : Z) : PM Z := field_of_pid p_session_id pid.

Definition sys_setpgid (pid pgid : Z) : PM Z := with_current (λ _ p,
  let target_pid := if pid =? 0 then p_pid p else wrap32 pid in
  let new_pgid := if pgid =? 0 then target_pid else wrap32 pgid in
  ret ← pgrp_validate_setpgid target_pid new_pgid;
  if ret <? 0 then mret ret
  else
    target ← process_get_by_pid target_pid;
    match target with
    | None => mret (- ESRCH)
    | Some x => upd_proc x (set_p_pgrp new_pgid) ;; mret 0
    end).

(** ** Waiting, the file mask, alarms and limits (syscall.c) *)

Definition sys_umask (mask : Z) : PM Z :=
  cur ← process_current;
  match cur with
  | None => mret 18
  | Some x =>
      p ← rd_proc x;
      upd_proc x (set_p_umask (Z.land mask 511)) ;;
      mret (p_umask p)
  end.

Definition sys_alarm (seconds : Z) : PM Z :=
  cur ← process_current;
  match cur with
  | None => mret 0
  | Some x =>
      p ← rd_proc x;
      s ← get;
      let current_ticks := Sched.sc_ticks (pr_sched s) in
      let old_remaining :=
        if current_ticks <? p_alarm_ticks p then (p_alarm_ticks p - current_ticks) / 100 else 0 in
      upd_proc x (set_p_alarm_ticks (if seconds =? 0 then 0 else current_ticks +u64 wrap64 (seconds * 100))) ;;
      mret (int64 old_remaining)
  end.

Definition SIZEOF_RLIMIT : Z := 16.

Definition encode_rlimit (r : rlimit) : list Z := le_bytes 8 (rlim_cur r) ++ le_bytes 8 (rlim_max r).
Definition decode_rlimit (l : list Z) : rlimit := RLimit (le_value (take 8 l)) (le_value (take 8 (drop 8 l))).

Definition sys_getrlimit (resource rlim_user : Z) : PM Z :=
  if RLIM_NLIMITS <=? resource then mret (- EINVAL)
  else with_current (λ _ p,
    if negb (access_ok rlim_user SIZEOF_RLIMIT) then mret (- EFAULT)
    else
      r ← lift (aget (p_limits p) resource);
      in_user (copy_to_user rlim_user (Some (encode_rlimit r)) SIZEOF_RLIMIT)).

Definition sys_setrlimit (resource rlim_user : Z) : PM Z :=
  if RLIM_NLIMITS <=? resource then mret (- EINVAL)
  else with_current (λ x p,
    if negb (access_ok rlim_user SIZEOF_RLIMIT) then mret (- EFAULT)
    else
      k ← in_user (copy_from_user (Some (encode_rlimit (RLimit 0 0))) rlim_user SIZEOF_RLIMIT);
      if negb (k.1 =? 0) then mret (- EFAULT)
      else
        let new_rlim := decode_rlimit k.2 in
        old ← lift (aget (p_limits p) resource);
        if (rlim_max old <? rlim_max new_rlim) && negb (p_euid p =? 0) then mret (- EPERM)
        else if rlim_max new_rlim <? rlim_cur new_rlim then mret (- EINVAL)
        else upd_proc x (set_p_limits (aset (p_limits p) resource new_rlim)) ;; mret 0).

Definition WNOHANG : Z := 1.
Definition WUNTRACED : Z := 2.
Definition WCONTINUED : Z := 8.

Section wait.

(** [process_destroy], and [sched_reschedule] with all that other threads do
    before it returns. *)
Variable process_destroy : Z → PM unit.
Variable sched_reschedule : PM unit.

Definition exit_status (exit_code : Z) : Z :=
  if 128 <=? exit_code then exit_code - 128 else Z.shiftl (Z.land exit_code 0xff) 8.

Definition stop_status (stop_sig : Z) : Z := Z.lor 0x7f (Z.shiftl (Z.land stop_sig 0xff) 8).

(** [if (status && copy_to_user(...) < 0)] *)
Definition give_status (status kstatus : Z) : PM bool :=
  if status =? 0 then mret true
  else r ← in_user (copy_to_user status (Some (le_bytes 4 (wrap32 kstatus))) 4); mret (negb (r <? 0)).

(** One turn of the loop of sys_wait4: its result, or [None] to reschedule and
    take another turn. *)
Definition wait4_turn (parent_pid wait_for status options : Z) : PM (option Z) :=
  children ← process_has_children parent_pid;
  if negb children then mret (Some (- ECHILD))
  else
    zombie ← process_find_zombie_child parent_pid wait_for;
    match zombie with
    | Some c =>
        child ← rd_proc c;
        ok ← give_status status (exit_status (p_exit_code child));
        if negb ok then mret (Some (- EFAULT))
        else process_destroy c ;; mret (Some (p_pid child))
    | None =>
        stopped ← (if has options WUNTRACED then process_find_stopped_child parent_pid wait_for else mret None);
        match stopped with
        | Some c =>
            child ← rd_proc c;
            upd_proc c (set_p_stop_reported true) ;;
            ok ← give_status status (stop_status (p_stop_signal child));
            mret (Some (if (ok : bool) then p_pid child else - EFAULT))
        | None =>
            continued ← (if has options WCONTINUED
                         then process_find_continued_child parent_pid wait_for else mret None);
            match continued with
            | Some c =>
                child ← rd_proc c;
                upd_proc c (set_p_continue_reported true) ;;
                ok ← give_status status 0xffff;
                mret (Some (if (ok : bool) then p_pid child else - EFAULT))
            | None => mret (if has options WNOHANG then Some 0 else None)
            end
        end
    end.

Fixpoint wait4_loop (fuel : nat) (parent_pid wait_for status options : Z) : PM Z :=
  match fuel with
  | O => fault
  | S fuel' =>
      r ← wait4_turn parent_pid wait_for status options;
      match r with
      | Some v => mret v
      | None => sched_reschedule ;; wait4_loop fuel' parent_pid wait_for status options
      end
  end.

(** The child that [pid] selects; zero and less than -1 select any. *)
Definition wait_target (pid_arg : Z) : Z :=
  let target_pid := wrap32 pid_arg in
  if (target_pid =? 0) || (int32 target_pid <? -1) then PID_INVALID else target_pid.

Definition sys_wait4 (fuel : nat) (pid_arg status options : Z) : PM Z :=
  if negb (status =? 0) && negb (access_ok status 4) then mret (- EFAULT)
  else with_current (λ _ parent, wait4_loop fuel (p_pid parent) (wait_target pid_arg) status options).

End wait.

(** ** Dispatching (syscall.c) *)

Definition SYS_SIGRETURN : Z := 15.
Definition SYS_FORK : Z := 57.
Definition SYS_EXECVE : Z := 59.
Definition SYS_MAX : Z := 256.

Abbreviation syscall_handler := (Z → Z → Z → Z → Z → Z → PM Z).

Section dispatch.

(** The table of handlers, an array of SYS_MAX pointers, and the two calls that
    take the whole frame and are not modelled. *)
Variable syscall_table : list (option syscall_handler).
Variable sys_fork_impl : syscall_frame → PM (Z * syscall_frame).
Variable sys_execve_impl : syscall_frame → PM (Z * syscall_frame).

Definition sys_unimplemented : syscall_handler := λ _ _ _ _ _ _, mret (- ENOSYS).

(** The result of a call, and the frame after pending signals were delivered. *)
Definition finish_syscall (result : Z) (frame : syscall_frame) : PM (Z * syscall_frame) :=
  d ← signal_deliver_pending frame; mret (result, d.2).

Definition syscall_dispatch (frame : syscall_frame) : PM (Z * syscall_frame) :=
  let syscall_num := f_rax frame in
  if SYS_MAX <=? syscall_num then mret (- ENOSYS, frame)
  else if syscall_num =? SYS_FORK then r ← sys_fork_impl frame; finish_syscall r.1 r.2
  else if syscall_num =? SYS_EXECVE then r ← sys_execve_impl frame; finish_syscall r.1 r.2
  else if syscall_num =? SYS_SIGRETURN then sys_sigreturn_impl frame
  else
    slot ← lift (aget syscall_table syscall_num);
    let handler := default sys_unimplemented slot in
    result ← handler (f_rdi frame) (f_rsi frame) (f_rdx frame) (f_r10 frame) (f_r8 frame) (f_r9 frame);
    finish_syscall result frame.

End dispatch.

(** The new table, or [None] where syscall_register returns -1: an invalid
    number, or a call that is registered already. *)
Definition syscall_register (num : Z) (handler : syscall_handler)
    (table : list (option syscall_handler)) : option (list (option syscall_handler)) :=
  if (num <? 0) || (SYS_MAX <=? num) then None
  else match aget table num with
       | Some None => Some (aset table num (Some handler))
       | _ => None
       end.
