(* ===== verification/ProcThm.v ===== *)
(** * Processes: rules for the operations, and words in user memory

    What reading and writing a process, its signal state and the memory of the
    program do to the state, for the proofs about signals and system calls. *)

From S2P Require Import Prelude CString CStringThm UAccess Process ProcSys.

Implicit Types (s : procs) (p : process_t) (ss : signal_state) (m : bytes).

(** ** One process *)

Definition set_proc (x : Z) p s : procs := set_pr_procs (<[x := p]> (pr_procs s)) s.
Definition set_signals (x : Z) p ss s : procs := set_proc x (set_p_signals (Some ss) p) s.

(** The process at [x] has the signal state [ss]. *)
Definition has_signals s (x : Z) p ss : Prop := pr_procs s !! x = Some p ∧ p_signals p = Some ss.

(** It is the running one. *)
Definition running_as s (x : Z) p ss : Prop := pr_current s = Some x ∧ has_signals s x p ss.

Lemma procs_set_proc x p s : pr_procs (set_proc x p s) = <[x := p]> (pr_procs s).
Proof. done. Qed.

Lemma set_proc_twice x p q s : set_proc x p (set_proc x q s) = set_proc x p s.
Proof. unfold set_proc. cbn. by rewrite insert_insert_eq. Qed.

Lemma set_proc_same x p s : pr_procs s !! x = Some p → set_proc x p s = s.
Proof. intros Hx. unfold set_proc. rewrite insert_id by done. by destruct s. Qed.

Lemma set_p_signals_twice a b p : set_p_signals a (set_p_signals b p) = set_p_signals a p.
Proof. done. Qed.

Lemma set_signals_twice x p a b s : set_signals x (set_p_signals (Some b) p) a (set_signals x p b s) = set_signals x p a s.
Proof. unfold set_signals. by rewrite set_proc_twice. Qed.

Lemma has_signals_set x p ss s : has_signals (set_signals x p ss s) x (set_p_signals (Some ss) p) ss.
Proof. split; [|done]. unfold set_signals. by rewrite procs_set_proc, lookup_insert_eq. Qed.

Lemma running_set x p a b s : running_as s x p a → running_as (set_signals x p b s) x (set_p_signals (Some b) p) b.
Proof. intros [Hc _]. split; [done|apply has_signals_set]. Qed.

(** ** Rules *)

Lemma wp_rd_proc x p s (Q : process_t → procs → Prop) :
  pr_procs s !! x = Some p → Q p s → wp (rd_proc x) Q s.
Proof. intros Hx HQ. unfold rd_proc. by wp_steps. Qed.

Lemma wp_upd_proc x f p s (Q : unit → procs → Prop) :
  pr_procs s !! x = Some p → Q tt (set_proc x (f p) s) → wp (upd_proc x f) Q s.
Proof. intros Hx HQ. unfold upd_proc. wp_step. apply wp_rd_proc with p; [done|]. by wp_step. Qed.

Lemma wp_rd_signals x p ss s (Q : signal_state → procs → Prop) :
  has_signals s x p ss → Q ss s → wp (rd_signals x) Q s.
Proof.
  intros [Hx Hp] HQ. unfold rd_signals. wp_step. apply wp_rd_proc with p; [done|]. by apply wp_lift with ss.
Qed.

Lemma wp_upd_signals x f p ss s (Q : unit → procs → Prop) :
  has_signals s x p ss → Q tt (set_signals x p (f ss) s) → wp (upd_signals x f) Q s.
Proof.
  intros Hs HQ. unfold upd_signals. wp_step. apply wp_rd_signals with p ss; [done|].
  apply wp_upd_proc with p; [apply Hs|done].
Qed.

Lemma wp_current_signals x p ss s (Q : option Z → procs → Prop) :
  running_as s x p ss → Q (Some x) s → wp get_current_signal_state Q s.
Proof.
  intros (Hc & Hx & Hp) HQ. unfold get_current_signal_state, process_current. wp_steps. rewrite Hc.
  wp_step. apply wp_rd_proc with p; [done|]. wp_step. by rewrite Hp.
Qed.

Lemma wp_with_current (f : Z → process_t → PM Z) x p s (Q : Z → procs → Prop) :
  pr_current s = Some x → pr_procs s !! x = Some p → wp (f x p) Q s → wp (with_current f) Q s.
Proof.
  intros Hc Hx Hw. unfold with_current, process_current. wp_steps. rewrite Hc.
  wp_step. by apply wp_rd_proc with p.
Qed.

Lemma wp_in_user {A} (c : BM A) s (Q : A → procs → Prop) :
  wp c (λ a m, Q a (set_pr_user m s)) (pr_user s) → wp (in_user c) Q s.
Proof. apply wp_zoom. Qed.

Lemma set_user_same s : set_pr_user (pr_user s) s = s.
Proof. by destruct s. Qed.

(** ** Words in memory *)

Definition words_bytes (ws : list Z) : list Z := concat (map (le_bytes 8) ws).

Definition word64 (w : Z) : Prop := 0 ≤ w < 2 ^ 64.

Lemma alen_words_bytes ws : alen (words_bytes ws) = 8 * alen ws.
Proof.
  unfold words_bytes. induction ws as [|w ws IH]; [done|].
  cbn [map concat]. rewrite alen_app, IH, alen_le_bytes, alen_cons. lia.
Qed.

Lemma le_value_word w : word64 w → le_value (le_bytes 8 w) = w.
Proof. intros Hw. apply le_value_bytes. exact Hw. Qed.

Lemma length_le_bytes n v : length (le_bytes n v) = n.
Proof. pose proof (alen_le_bytes n v). unfold alen in *. lia. Qed.

Lemma wp_rd_word m q w (Q : Z → bytes → Prop) :
  block m q (le_bytes 8 w) → word64 w → Q w m → wp (rd_word q) Q m.
Proof.
  intros Hb Hw HQ. unfold rd_word. wp_step. apply rd_bytes_wp with (le_bytes 8 w); [done|apply length_le_bytes|].
  wp_step. by rewrite le_value_word.
Qed.

Lemma wp_wr_word m q w (Q : unit → bytes → Prop) :
  mapped m q 8 → Q tt (store m q (le_bytes 8 w)) → wp (wr_word q w) Q m.
Proof. intros Hm HQ. apply wr_bytes_wp; [by rewrite alen_le_bytes|done]. Qed.

Lemma wp_rd_words m q ws (Q : list Z → bytes → Prop) :
  block m q (words_bytes ws) → Forall word64 ws → Q ws m → wp (rd_words (length ws) q) Q m.
Proof.
  revert q Q. induction ws as [|w ws IH]; intros q Q Hb Hw HQ; cbn [rd_words length]; [done|].
  unfold words_bytes in Hb. cbn [map concat] in Hb. apply block_app in Hb as [Hb1 Hb2].
  rewrite alen_le_bytes in Hb2. inversion_clear Hw.
  wp_step. apply wp_rd_word with w; [done|done|]. wp_step. apply IH; [done|done|]. by wp_step.
Qed.

Lemma wp_wr_words m q ws (Q : unit → bytes → Prop) :
  mapped m q (8 * alen ws) → Q tt (store m q (words_bytes ws)) → wp (wr_words q ws) Q m.
Proof.
  revert m q. induction ws as [|w ws IH]; intros m q Hm HQ; cbn [wr_words]; [done|].
  rewrite alen_cons in Hm. pose proof (alen_nonneg ws).
  wp_step. apply wp_wr_word; [intros y Hy; apply Hm; lia|].
  apply IH.
  - intros y Hy. apply (mapped_store m q (8 * (alen ws + 1))); [done|lia].
  - unfold words_bytes in HQ. cbn [map concat] in HQ. rewrite store_app, alen_le_bytes in HQ. exact HQ.
Qed.

(** A part of a block of words. *)
Lemma words_bytes_app ws vs : words_bytes (ws ++ vs) = words_bytes ws ++ words_bytes vs.
Proof. unfold words_bytes. by rewrite map_app, concat_app. Qed.

(** Writing the words [vs] over a block of words. *)
Lemma block_store_words m q pre old vs post :
  length old = length vs → block m q (words_bytes (pre ++ old ++ post)) →
  block (store m (q + 8 * alen pre) (words_bytes vs)) q (words_bytes (pre ++ vs ++ post)).
Proof.
  intros Hlen Hb. assert (alen old = alen vs) as Hal by (unfold alen; lia).
  rewrite !words_bytes_app in Hb |- *. apply block_app in Hb as [Hb1 Hb2].
  apply block_app in Hb2 as [_ Hb3]. rewrite !alen_words_bytes in Hb3.
  pose proof (alen_nonneg pre). pose proof (alen_nonneg vs). pose proof (alen_nonneg post).
  apply block_app. rewrite alen_words_bytes. split.
  - eapply block_ext; [|exact Hb1]. intros y Hy. rewrite alen_words_bytes in Hy.
    apply lookup_store_out. lia.
  - apply block_app. rewrite alen_words_bytes. split; [apply block_store|].
    rewrite <-Hal. eapply block_ext; [|exact Hb3]. intros y Hy. apply lookup_store_out.
    rewrite alen_words_bytes in *. lia.
Qed.

Lemma words_frame_words f : words_frame (frame_words f) = Some f.
Proof. by destruct f. Qed.

(** ** Signal sets *)

Lemma sigismember_bit set n : 1 ≤ n → sigismember set n = Z.testbit set (n - 1).
Proof. intros Hn. apply (has_bit set (n - 1)). lia. Qed.

Lemma sigismember_add set k n : 1 ≤ k → 1 ≤ n →
  sigismember (sigaddset set k) n = if decide (n = k) then true else sigismember set n.
Proof.
  intros Hk Hn. rewrite !sigismember_bit by done. unfold sigaddset, sig_bit.
  rewrite testbit_lor_flag by lia. destruct (decide (n = k)), (decide (n - 1 = k - 1)); try lia; done.
Qed.

Lemma sigismember_del set k n : 1 ≤ k → 1 ≤ n →
  sigismember (sigdelset set k) n = if decide (n = k) then false else sigismember set n.
Proof.
  intros Hk Hn. rewrite !sigismember_bit by done. unfold sigdelset, sig_bit.
  rewrite testbit_clear_flag by lia. destruct (decide (n = k)), (decide (n - 1 = k - 1)); try lia; done.
Qed.

(** A signal that is pending and not blocked. *)
Definition deliverable ss (n : Z) : Prop :=
  sigismember (ss_pending ss) n = true ∧ sigismember (ss_blocked ss) n = false.

Lemma deliverable_bit ss n : 1 ≤ n →
  sigismember (Z.land (ss_pending ss) (Z.lnot (ss_blocked ss))) n = true ↔ deliverable ss n.
Proof.
  intros Hn. unfold deliverable. rewrite !sigismember_bit by done.
  rewrite Z.land_spec, Z.lnot_spec, andb_true_iff, negb_true_iff by lia. done.
Qed.

(** The signal that is delivered first: the lowest one, or none. *)
Lemma first_signal_spec n i d :
  1 ≤ i →
  (∃ k, i ≤ k < i + Z.of_nat n ∧ sigismember d k = true ∧
        (∀ j, i ≤ j < k → sigismember d j = false) ∧ first_signal n i d = k) ∨
  ((∀ j, i ≤ j < i + Z.of_nat n → sigismember d j = false) ∧ first_signal n i d = 0).
Proof.
  revert i. induction n as [|n IH]; intros i Hi; cbn [first_signal]; [right; split; [lia|done]|].
  destruct (sigismember d i) eqn:Hd; [left; exists i; repeat split; [lia|lia|done|lia]|].
  destruct (IH (i + 1) ltac:(lia)) as [(k & Hk & Hkd & Hlow & ->)|[Hnone ->]].
  - left. exists k. repeat split; [lia|lia|done|]. intros j Hj.
    destruct (decide (j = i)) as [->|]; [done|apply Hlow; lia].
  - right. split; [|done]. intros j Hj. destruct (decide (j = i)) as [->|]; [done|apply Hnone; lia].
Qed.

Lemma first_signal_is n d k :
  1 ≤ k ≤ Z.of_nat n → sigismember d k = true → (∀ j, 1 ≤ j < k → sigismember d j = false) →
  first_signal n 1 d = k.
Proof.
  intros Hk Hd Hlow. destruct (first_signal_spec n 1 d ltac:(lia)) as [(k' & Hk' & Hd' & Hlow' & ->)|[Hnone _]].
  - destruct (Z.lt_trichotomy k k') as [Hlt|[->|Hlt]]; [|done|].
    + by rewrite Hlow' in Hd by lia.
    + by rewrite Hlow in Hd' by lia.
  - rewrite Hnone in Hd by lia. done.
Qed.
