(* ===== verification/SignalThm.v ===== *)
(** * Signal delivery and return

    Delivering a signal saves the registers of the program and the signal mask
    in a frame on the stack of the program; sigreturn restores them. *)

From S2P Require Import Prelude CString CStringThm UAccess Process ProcSys ProcThm.

Implicit Types (s : procs) (p : process_t) (ss : signal_state) (m : bytes) (f g : syscall_frame).

(** [n] is the signal to deliver: the lowest one that is pending and not
    blocked. *)
Definition next_signal ss (n : Z) : Prop :=
  1 ≤ n < NSIG ∧ deliverable ss n ∧ ∀ j, 1 ≤ j < n → ¬ deliverable ss j.

(** The stack has room for a signal frame at [sp]. *)
Definition frame_room m (sp : Z) : Prop := 0x1000 ≤ sp < 0x00007FFFFFFFFFFF ∧ mapped m sp SIZEOF_SIGNAL_FRAME.

(** The memory with the frame, and with the return address in it. *)
Definition with_frame m (sp : Z) f (n blocked : Z) : bytes :=
  store (store m sp (words_bytes (signal_frame_words f n blocked))) (sp + OFFSETOF_TRAMPOLINE)
    (words_bytes [sp + OFFSETOF_TRAMPOLINE]).

Lemma next_signal_first ss n : next_signal ss n →
  first_signal (Z.to_nat (NSIG - 1)) 1 (Z.land (ss_pending ss) (Z.lnot (ss_blocked ss))) = n ∧
  Z.land (ss_pending ss) (Z.lnot (ss_blocked ss)) ≠ 0.
Proof.
  intros (Hn & Hd & Hlow). unfold NSIG in *. apply deliverable_bit in Hd; [|lia]. split.
  - apply first_signal_is; [lia|done|]. intros j Hj. apply not_true_is_false.
    rewrite deliverable_bit by lia. by apply Hlow.
  - intros H0. rewrite H0, sigismember_bit, Z.bits_0 in Hd by lia. done.
Qed.

(** Delivery up to the choice of what to do: the signal is no longer pending. *)
Lemma wp_deliver_choice s x p ss f n a (Q : bool * syscall_frame → procs → Prop) :
  running_as s x p ss → next_signal ss n → aget (ss_actions ss) n = Some a →
  (let s1 := set_signals x p (unpend n ss) s in
   wp (if sa_handler a =? SIG_IGN then mret (false, f)
       else if sa_handler a =? SIG_DFL then handle_default_signal x n ;; mret (false, f)
       else
         let user_rsp := signal_frame_addr (f_rsp f) in
         if (user_rsp <? 0x1000) || (0x00007FFFFFFFFFFF <=? user_rsp) then
           handle_default_signal x SIGSEGV ;; mret (false, f)
         else
           in_user (wr_words user_rsp (signal_frame_words f n (ss_blocked ss))) ;;
           upd_signals x (enter_handler n a) ;;
           let ret_addr := user_rsp + SIZEOF_SIGNAL_FRAME - 16 in
           in_user (wr_word ret_addr (user_rsp + OFFSETOF_TRAMPOLINE)) ;;
           mret (true, redirect n (sa_handler a) ret_addr f)) Q s1) →
  wp (signal_deliver_pending f) Q s.
Proof.
  intros Hr Hn Ha HQ. destruct (next_signal_first ss n Hn) as [Hfirst Hne]. destruct Hn as (Hn & _).
  unfold signal_deliver_pending. wp_step. apply wp_current_signals with x p ss; [done|].
  wp_step. apply wp_rd_signals with p ss; [apply Hr|]. cbv zeta. rewrite Hfirst.
  rewrite (proj2 (Z.eqb_neq _ 0)) by done. rewrite (proj2 (Z.eqb_neq n 0)) by lia.
  wp_step. apply wp_upd_signals with p ss; [apply Hr|].
  wp_step. apply wp_lift with a; [done|]. exact HQ.
Qed.

Lemma signal_frame_length f n b : alen (signal_frame_words f n b) = 20.
Proof. done. Qed.

(** Delivery to a handler. *)
Lemma wp_deliver s x p ss f n a (Q : bool * syscall_frame → procs → Prop) :
  let sp := signal_frame_addr (f_rsp f) in
  running_as s x p ss → next_signal ss n → aget (ss_actions ss) n = Some a →
  sa_handler a ≠ SIG_DFL → sa_handler a ≠ SIG_IGN → frame_room (pr_user s) sp →
  Q (true, redirect n (sa_handler a) (sp + OFFSETOF_TRAMPOLINE) f)
    (set_pr_user (with_frame (pr_user s) sp f n (ss_blocked ss))
       (set_signals x p (enter_handler n a (unpend n ss)) s)) →
  wp (signal_deliver_pending f) Q s.
Proof.
  intros sp Hr Hn Ha Hdfl Hign [Hsp Hm] HQ. apply wp_deliver_choice with x p ss n a; [done..|].
  cbv zeta. rewrite (proj2 (Z.eqb_neq (sa_handler a) SIG_IGN)), (proj2 (Z.eqb_neq (sa_handler a) SIG_DFL)) by done.
  fold sp. rewrite (proj2 (Z.ltb_ge sp 0x1000)), (proj2 (Z.leb_gt 0x00007FFFFFFFFFFF sp)) by lia. cbn [orb].
  wp_step. apply wp_in_user. apply wp_wr_words; [exact Hm|].
  wp_step. eapply wp_upd_signals; [apply has_signals_set|].
  change (set_signals x (set_p_signals (Some (unpend n ss)) p) ?b
            (set_pr_user ?m (set_signals x p (unpend n ss) s)))
    with (set_pr_user m (set_signals x (set_p_signals (Some (unpend n ss)) p) b (set_signals x p (unpend n ss) s))).
  rewrite set_signals_twice. replace (sp + SIZEOF_SIGNAL_FRAME - 16) with (sp + OFFSETOF_TRAMPOLINE)
    by (unfold SIZEOF_SIGNAL_FRAME, OFFSETOF_TRAMPOLINE; lia).
  wp_step. apply wp_in_user. apply wp_wr_word.
  - intros y Hy. apply (mapped_store (pr_user s) sp SIZEOF_SIGNAL_FRAME); [done|].
    unfold SIZEOF_SIGNAL_FRAME, OFFSETOF_TRAMPOLINE in *. lia.
  - wp_step. exact HQ.
Qed.

(** What sigreturn restores: the words of the frame it finds below RSP. *)
Lemma wp_sigreturn s x p ss g f' w16 mask (Q : Z * syscall_frame → procs → Prop) :
  let addr := f_rsp g -u64 OFFSETOF_TRAMPOLINE in
  running_as s x p ss → 0x1000 ≤ addr < 0x00007FFFFFFFFFFF →
  block (pr_user s) addr (words_bytes (frame_words f' ++ [w16; mask])) →
  Forall word64 (frame_words f') → word64 mask →
  Q (int64 (f_rax f'), f') (set_signals x p (set_blocked mask ss) s) →
  wp (sys_sigreturn_impl g) Q s.
Proof.
  intros addr (Hc & Hx & Hp) Ha Hb Hw Hmask HQ. unfold sys_sigreturn_impl, process_current. wp_steps.
  rewrite Hc. wp_step. apply wp_rd_proc with p; [done|]. rewrite Hp. cbv zeta. fold addr.
  rewrite (proj2 (Z.ltb_ge addr 0x1000)), (proj2 (Z.leb_gt 0x00007FFFFFFFFFFF addr)) by lia. cbn [orb].
  rewrite words_bytes_app in Hb. apply block_app in Hb as [Hb1 Hb2].
  rewrite alen_words_bytes in Hb2. change (alen (frame_words f')) with 16 in Hb2.
  wp_step. apply wp_in_user. apply (wp_rd_words _ addr (frame_words f')); [done|done|].
  rewrite set_user_same. wp_step. apply wp_lift with f'; [apply words_frame_words|].
  wp_step. apply wp_in_user. apply wp_rd_word with mask; [|done|].
  - change (words_bytes [w16; mask]) with (le_bytes 8 w16 ++ words_bytes [mask]) in Hb2.
    apply block_app in Hb2 as [_ Hb2]. rewrite alen_le_bytes in Hb2.
    unfold words_bytes in Hb2. cbn [map concat] in Hb2. rewrite app_nil_r in Hb2.
    replace (addr + 8 * 17) with (addr + 8 * 16 + Z.of_nat 8) by lia. exact Hb2.
  - rewrite set_user_same. wp_step. apply wp_upd_signals with p ss; [done|]. by wp_step.
Qed.

(** The frame in memory after delivery: its first code word is overwritten by
    the return address. *)
Lemma block_with_frame m sp f n b :
  block (with_frame m sp f n b) sp
    (words_bytes (frame_words f ++ [n; b; sp + OFFSETOF_TRAMPOLINE; 0x050f])).
Proof.
  pose proof (block_store_words (store m sp (words_bytes (signal_frame_words f n b))) sp
    (frame_words f ++ [n; b]) [Z.lor 0x0000000fc0c74800 (Z.shiftl 15 32)] [sp + OFFSETOF_TRAMPOLINE] [0x050f] eq_refl) as H.
  rewrite <-!app_assoc in H. apply H. apply block_store.
Qed.

(** The program left the memory from [a] to [b] alone. *)
Definition untouched (a b : Z) m m' : Prop := ∀ y, a ≤ y < b → m' !! y = m !! y.

Lemma untouched_block a b m m' q l :
  untouched a b m m' → block m q l → a ≤ q → q + alen l ≤ b → block m' q l.
Proof. intros Hu Hb Ha Hq. eapply block_ext; [|exact Hb]. intros y Hy. apply Hu. lia. Qed.

Lemma sub_trampoline g sp k :
  f_rsp g = sp + OFFSETOF_TRAMPOLINE + k → 0 ≤ k ≤ 8 → 0x1000 ≤ sp < 0x00007FFFFFFFFFFF →
  f_rsp g -u64 OFFSETOF_TRAMPOLINE = sp + k.
Proof. intros -> Hk Hsp. unfold OFFSETOF_TRAMPOLINE. rewrite wrap_small by lia. lia. Qed.

Lemma signal_frame_aligned rsp : signal_frame_addr rsp mod 16 = 0.
Proof.
  unfold signal_frame_addr. set (y := wrap64 _).
  change 0xF with (2 ^ 4 - 1). rewrite land_align_mask by (lia || apply wrap_bounds; lia).
  change (2 ^ 4) with 16. pose proof (Z.div_mod y 16). replace (y - y mod 16) with (y / 16 * 16) by lia.
  apply Z.mod_mul. lia.
Qed.

(** C22. A signal is delivered and returned from.  The lowest signal that is
    pending and not blocked is delivered to its handler, with the stack pointer
    at the end of the saved context.  If the program calls sigreturn with the
    stack pointer it was given, and has not overwritten the saved context, all
    its registers and its signal mask are what they were before the delivery. *)
Theorem signal_delivery_roundtrip s x p ss f n a :
  let sp := signal_frame_addr (f_rsp f) in
  running_as s x p ss → next_signal ss n → aget (ss_actions ss) n = Some a →
  sa_handler a ≠ SIG_DFL → sa_handler a ≠ SIG_IGN → frame_room (pr_user s) sp →
  Forall word64 (frame_words f) → word64 (ss_blocked ss) →
  wp (signal_deliver_pending f) (λ r s1,
    r.1 = true ∧ f_rcx r.2 = sa_handler a ∧ f_rdi r.2 = n ∧
    ∀ g s2 p2 ss2,
      running_as s2 x p2 ss2 → f_rsp g = f_rsp r.2 →
      untouched sp (f_rsp r.2) (pr_user s1) (pr_user s2) →
      wp (sys_sigreturn_impl g) (λ r2 s3,
        r2 = (int64 (f_rax f), f) ∧
        s3 = set_signals x p2 (set_blocked (ss_blocked ss) ss2) s2) s2) s.
Proof.
  intros sp Hr Hn Ha Hdfl Hign Hroom Hf Hb. apply wp_deliver with x p ss n a; [done..|].
  split; [done|]. split; [done|]. split; [done|]. intros g s2 p2 ss2 Hr2 Hg Hu.
  destruct Hroom as [Hsp _]. cbn [snd redirect f_rsp] in Hg, Hu. fold sp in Hg, Hu.
  assert (f_rsp g -u64 OFFSETOF_TRAMPOLINE = sp) as Hsub.
  { rewrite (sub_trampoline g sp 0); rewrite ?Z.add_0_r; done. }
  eapply wp_sigreturn with (f' := f) (w16 := n) (mask := ss_blocked ss); rewrite ?Hsub; [done|done| |done|done|done].
  pose proof (block_with_frame (pr_user s) sp f n (ss_blocked ss)) as Hw.
  change (frame_words f ++ [n; ss_blocked ss; sp + OFFSETOF_TRAMPOLINE; 1295])
    with ((frame_words f ++ [n; ss_blocked ss]) ++ [sp + OFFSETOF_TRAMPOLINE; 1295]) in Hw.
  rewrite words_bytes_app in Hw. apply block_app in Hw as [Hw _].
  eapply untouched_block; [exact Hu|exact Hw|lia|]. rewrite alen_words_bytes.
  change (alen (frame_words f ++ [n; ss_blocked ss])) with 18. unfold OFFSETOF_TRAMPOLINE. lia.
Qed.

(** The registers and the mask that sigreturn finds one word too high. *)
Definition shifted f (n : Z) : syscall_frame :=
  SyscallFrame (f_r14 f) (f_r13 f) (f_r12 f) (f_rbp f) (f_rbx f) (f_r9 f) (f_r8 f) (f_r10 f)
    (f_rdx f) (f_rsi f) (f_rdi f) (f_rax f) (f_rcx f) (f_r11 f) (f_rsp f) n.

(** What happens when the handler returns.  The word at the stack pointer
    that the handler is given, which its return instruction takes as the return
    address, is its own address: it has replaced the first word of the code
    that was to call sigreturn.  And after a return the stack pointer is one word higher
    than where sigreturn expects it: the registers come back shifted by one,
    the program continues at its former flags with the signal number as its
    stack pointer, and its signal mask is an address. *)
Theorem sigreturn_after_handler s x p ss f n a :
  let sp := signal_frame_addr (f_rsp f) in
  running_as s x p ss → next_signal ss n → aget (ss_actions ss) n = Some a →
  sa_handler a ≠ SIG_DFL → sa_handler a ≠ SIG_IGN → frame_room (pr_user s) sp →
  Forall word64 (frame_words f) → word64 (ss_blocked ss) →
  wp (signal_deliver_pending f) (λ r s1,
    wp (in_user (rd_word (f_rsp r.2))) (λ ret _, ret = f_rsp r.2) s1 ∧
    ∀ g s2 p2 ss2,
      running_as s2 x p2 ss2 → f_rsp g = f_rsp r.2 + 8 →
      untouched sp (sp + SIZEOF_SIGNAL_FRAME) (pr_user s1) (pr_user s2) →
      wp (sys_sigreturn_impl g) (λ r2 s3,
        r2.2 = shifted f n ∧ f_rcx r2.2 = f_r11 f ∧ f_rsp r2.2 = n ∧
        s3 = set_signals x p2 (set_blocked (sp + OFFSETOF_TRAMPOLINE) ss2) s2) s2) s.
Proof.
  intros sp Hr Hn Ha Hdfl Hign Hroom Hf Hb. apply wp_deliver with x p ss n a; [done..|].
  destruct Hroom as [Hsp _]. destruct Hn as (Hn & _). unfold NSIG in Hn. cbn [snd redirect f_rsp]. fold sp.
  pose proof (block_with_frame (pr_user s) sp f n (ss_blocked ss)) as Hw.
  assert (word64 (sp + OFFSETOF_TRAMPOLINE)) as Hret by (unfold word64, OFFSETOF_TRAMPOLINE; lia).
  split.
  { apply wp_in_user. apply wp_rd_word with (sp + OFFSETOF_TRAMPOLINE); [|done|done].
    pose proof (block_store (store (pr_user s) sp (words_bytes (signal_frame_words f n (ss_blocked ss))))
      (sp + OFFSETOF_TRAMPOLINE) (words_bytes [sp + OFFSETOF_TRAMPOLINE])) as Hs.
    unfold words_bytes in Hs at 2 3. cbn [map concat] in Hs. rewrite app_nil_r in Hs. exact Hs. }
  intros g s2 p2 ss2 Hr2 Hg Hu.
  assert (f_rsp g -u64 OFFSETOF_TRAMPOLINE = sp + 8) as Hsub by (by apply sub_trampoline).
  eapply wp_sigreturn with (f' := shifted f n) (w16 := ss_blocked ss) (mask := sp + OFFSETOF_TRAMPOLINE);
    rewrite ?Hsub; [done| | | |done|done].
  - pose proof (signal_frame_aligned (f_rsp f)) as Hal. fold sp in Hal.
    pose proof (Z.div_mod sp 16). lia.
  - change (frame_words f ++ [n; ss_blocked ss; sp + OFFSETOF_TRAMPOLINE; 1295])
      with ([f_r15 f] ++ (frame_words (shifted f n) ++ [ss_blocked ss; sp + OFFSETOF_TRAMPOLINE]) ++ [1295]) in Hw.
    rewrite !words_bytes_app in Hw. apply block_app in Hw as [_ Hw]. rewrite alen_words_bytes in Hw.
    apply block_app in Hw as [Hw _]. rewrite words_bytes_app.
    eapply untouched_block; [exact Hu|exact Hw| |].
    + change (alen [f_r15 f]) with 1. lia.
    + rewrite alen_app, !alen_words_bytes. change (alen (frame_words (shifted f n))) with 16.
      change (alen [f_r15 f]) with 1. change (alen [ss_blocked ss; sp + OFFSETOF_TRAMPOLINE]) with 2.
      unfold SIZEOF_SIGNAL_FRAME. lia.
  - unfold frame_words in Hf |- *. cbn [shifted f_r15 f_r14 f_r13 f_r12 f_rbp f_rbx f_r9 f_r8 f_r10 f_rdx f_rsi f_rdi f_rax f_rcx f_r11 f_rsp].
    repeat (apply Forall_cons in Hf as [? Hf]). repeat (apply Forall_cons; split; [done|]).
    apply Forall_cons. split; [unfold word64; lia|constructor].
Qed.

(** * Signals that must not be caught or blocked

    The functions of signal.c keep SIGKILL and SIGSTOP deliverable and their
    actions default; the system calls sigprocmask and sigaction do not. *)

(** ** The functions of signal.c *)

(** Neither signal is blocked, and neither is caught or ignored. *)
Definition unstoppable ss : Prop :=
  ∀ n, signal_valid n = true → signal_catchable n = false →
    sigismember (ss_blocked ss) n = false ∧ ∃ a, aget (ss_actions ss) n = Some a ∧ sa_handler a = SIG_DFL.

Inductive signal_call :=
  | CSet (signum handler : Z)
  | CAction (signum : Z) (act : option sigaction)
  | CProcmask (how : Z) (set : option Z)
  | CPending.

Definition run_signal_call (c : signal_call) : PM unit :=
  match c with
  | CSet n h => signal_set n h ;; mret tt
  | CAction n a => signal_action n a ;; mret tt
  | CProcmask h st => signal_procmask h st ;; mret tt
  | CPending => signal_get_pending ;; mret tt
  end.

Fixpoint run_signal_calls (cs : list signal_call) : PM unit :=
  match cs with
  | [] => mret tt
  | c :: cs' => run_signal_call c ;; run_signal_calls cs'
  end.

(** The signal state of the running process [x] is unstoppable, and complete. *)
Definition kill_ok (x : Z) s : Prop :=
  ∃ p ss, running_as s x p ss ∧ alen (ss_actions ss) = NSIG ∧ unstoppable ss.

Lemma signal_valid_iff n : signal_valid n = true ↔ 1 ≤ n < NSIG.
Proof. unfold signal_valid. rewrite andb_true_iff, Z.ltb_lt, Z.ltb_lt. lia. Qed.

Lemma catchable_iff n : signal_catchable n = false ↔ n = SIGKILL ∨ n = SIGSTOP.
Proof.
  unfold signal_catchable. rewrite andb_false_iff, !negb_false_iff, !Z.eqb_eq. tauto.
Qed.

Lemma unstoppable_action ss n a :
  signal_valid n = true → alen (ss_actions ss) = NSIG →
  signal_catchable n = true ∨ sa_handler a = SIG_DFL → unstoppable ss →
  unstoppable (set_actions (aset (ss_actions ss) n a) ss).
Proof.
  intros Hn Hlen Ha Hu k Hk Hkc. destruct (Hu k Hk Hkc) as [Hb (a' & Ha' & Hdfl)]. split; [done|].
  cbn [set_actions ss_actions]. rewrite aget_aset. case_decide as Hd; [|eauto].
  destruct Hd as [-> _]. exists a. split; [done|]. destruct Ha as [Hc|]; [|done]. congruence.
Qed.

Lemma unstoppable_mask ss b :
  unstoppable ss → unstoppable (set_blocked (sigdelset (sigdelset b SIGKILL) SIGSTOP) ss).
Proof.
  intros Hu n Hn Hc. destruct (Hu n Hn Hc) as [_ Ha]. split; [|done]. cbn [set_blocked ss_blocked].
  apply signal_valid_iff in Hn. rewrite sigismember_del, sigismember_del by (unfold SIGKILL, SIGSTOP; lia).
  apply catchable_iff in Hc as [->| ->]; done.
Qed.

Lemma kill_ok_set x p ss ss' s :
  running_as s x p ss → alen (ss_actions ss') = NSIG → unstoppable ss' → kill_ok x (set_signals x p ss' s).
Proof. intros Hr Hlen Hu. exists (set_p_signals (Some ss') p), ss'. split; [|done]. by apply running_set with ss. Qed.

Lemma action_exists ss n : signal_valid n = true → alen (ss_actions ss) = NSIG → is_Some (aget (ss_actions ss) n).
Proof. intros Hn%signal_valid_iff Hlen. apply aget_is_Some. lia. Qed.

Lemma catch_guard n h :
  negb (signal_catchable n) && negb (h =? SIG_DFL) = false → signal_catchable n = true ∨ h = SIG_DFL.
Proof. destruct (signal_catchable n); [by left|]. cbn. rewrite negb_false_iff, Z.eqb_eq. by right. Qed.

Lemma signal_set_ok x n h s : kill_ok x s → wp (signal_set n h) (λ _, kill_ok x) s.
Proof.
  intros (p & ss & Hr & Hlen & Hu). unfold signal_set.
  destruct (signal_valid n) eqn:Hn; cbn [negb]; [|wp_step; by exists p, ss].
  destruct (negb _ && _) eqn:Hg; [wp_step; by exists p, ss|]. apply catch_guard in Hg.
  destruct (action_exists ss n Hn Hlen) as [a Ha].
  wp_step. apply wp_current_signals with x p ss; [done|]. wp_step. apply wp_rd_signals with p ss; [apply Hr|].
  wp_step. apply wp_lift with a; [done|]. wp_step. apply wp_upd_signals with p ss; [apply Hr|]. wp_step.
  apply kill_ok_set with ss; [done|by cbn; rewrite alen_aset|]. by apply unstoppable_action.
Qed.

Lemma signal_action_ok x n act s : kill_ok x s → wp (signal_action n act) (λ _, kill_ok x) s.
Proof.
  intros (p & ss & Hr & Hlen & Hu). unfold signal_action.
  destruct (signal_valid n) eqn:Hn; cbn [negb]; [|wp_step; by exists p, ss].
  destruct (action_exists ss n Hn Hlen) as [old Hold].
  wp_step. apply wp_current_signals with x p ss; [done|]. wp_step. apply wp_rd_signals with p ss; [apply Hr|].
  wp_step. apply wp_lift with old; [done|]. destruct act as [a|]; [|wp_step; by exists p, ss].
  destruct (negb _ && _) eqn:Hg; [wp_step; by exists p, ss|]. apply catch_guard in Hg.
  wp_step. apply wp_upd_signals with p ss; [apply Hr|]. wp_step.
  apply kill_ok_set with ss; [done|by cbn; rewrite alen_aset|]. by apply unstoppable_action.
Qed.

Lemma signal_procmask_ok x how set s : kill_ok x s → wp (signal_procmask how set) (λ _, kill_ok x) s.
Proof.
  intros (p & ss & Hr & Hlen & Hu). unfold signal_procmask.
  wp_step. apply wp_current_signals with x p ss; [done|]. wp_step. apply wp_rd_signals with p ss; [apply Hr|].
  destruct set as [set|]; [|wp_step; by exists p, ss].
  destruct (change_mask how (ss_blocked ss) set) as [b|]; [|wp_step; by exists p, ss].
  wp_step. apply wp_upd_signals with p ss; [apply Hr|]. wp_step.
  apply kill_ok_set with ss; [done|done|]. by apply unstoppable_mask.
Qed.

Lemma run_signal_call_ok x c s : kill_ok x s → wp (run_signal_call c) (λ _, kill_ok x) s.
Proof.
  intros Hk. destruct c as [n h|n a|h st|]; cbn [run_signal_call]; wp_step.
  - eapply wp_mono; [by apply signal_set_ok|]. intros ? ? H. by wp_step.
  - eapply wp_mono; [by apply signal_action_ok|]. intros ? ? H. by wp_step.
  - eapply wp_mono; [by apply signal_procmask_ok|]. intros ? ? H. by wp_step.
  - unfold signal_get_pending. destruct Hk as (p & ss & Hr & Hk).
    wp_step. apply wp_current_signals with x p ss; [done|]. wp_step. apply wp_rd_signals with p ss; [apply Hr|].
    wp_steps. by exists p, ss.
Qed.

(** C31. No sequence of calls of signal_set, signal_action and signal_procmask
    makes a process block, catch or ignore SIGKILL or SIGSTOP, whatever the
    arguments. *)
Theorem signal_api_keeps_kill x cs s :
  kill_ok x s → wp (run_signal_calls cs) (λ _ s', kill_ok x s') s.
Proof.
  revert s. induction cs as [|c cs IH]; intros s Hk; cbn [run_signal_calls]; [by wp_step|].
  wp_step. eapply wp_mono; [by apply run_signal_call_ok|]. intros [] s' Hk'. cbv beta in Hk'. by apply IH.
Qed.

(** ** The system call sigprocmask *)

Definition in_user_space (q n : Z) : Prop := 0 < q ∧ q + n - 1 ≤ USER_ADDR_MAX.

Lemma wp_read_user s q l (Q : Z * list Z → procs → Prop) d :
  in_user_space q (alen l) → length d = length l → l ≠ [] → block (pr_user s) q l → Q (0, l) s →
  wp (in_user (copy_from_user (Some d) q (alen l))) Q s.
Proof.
  intros [Hq Hmax] Hd Hl Hb HQ. apply wp_in_user. apply wp_copy_from_user; [lia|done|done|].
  rewrite decide_True by auto. by rewrite set_user_same.
Qed.

Lemma int32_how how : 0 ≤ how ≤ 2 → int32 how = how.
Proof. intros. apply signed_small; lia. Qed.

Lemma clear_mask b n : 1 ≤ n →
  sigismember (Z.land b (Z.lnot (Z.lor (Z.shiftl 1 SIGKILL) (Z.shiftl 1 SIGSTOP)))) n =
  (sigismember b n && negb (n =? SIGUSR1) && negb (n =? SIGTSTP)).
Proof.
  intros Hn. rewrite !sigismember_bit by done. rewrite Z.land_spec, Z.lnot_spec, Z.lor_spec by lia.
  rewrite !Z.shiftl_1_l, !Z.pow2_bits_eqb by (unfold SIGKILL, SIGSTOP; lia). rewrite negb_orb, andb_assoc.
  unfold SIGKILL, SIGSTOP, SIGUSR1, SIGTSTP. f_equal; [f_equal|]; f_equal; lia.
Qed.

(** What the system call sigprocmask does to the mask of the program: after
    any of its three operations, a signal is blocked if the operation blocks
    it and it is neither SIGUSR1 nor SIGTSTP.  The code means to exempt
    SIGKILL and SIGSTOP, which it lets the program block. *)
Theorem sys_sigprocmask_correct s x p ss how set kset :
  running_as s x p ss → 0 ≤ how ≤ 2 → in_user_space set 8 →
  block (pr_user s) set (le_bytes 8 kset) → word64 kset →
  wp (sys_sigprocmask how set 0) (λ r s', r = 0 ∧ ∃ ss',
    s' = set_signals x p ss' s ∧ ss_pending ss' = ss_pending ss ∧ ss_actions ss' = ss_actions ss ∧
    ∀ n, 1 ≤ n < NSIG →
      sigismember (ss_blocked ss') n =
        (if how =? SIG_BLOCK then sigismember (ss_blocked ss) n || sigismember kset n
         else if how =? SIG_UNBLOCK then sigismember (ss_blocked ss) n && negb (sigismember kset n)
         else sigismember kset n) && negb (n =? SIGUSR1) && negb (n =? SIGTSTP)) s.
Proof.
  intros Hr Hhow Hset Hb Hk. unfold sys_sigprocmask. pose proof Hset as [Hs0 Hs8].
  wp_step. apply wp_current_signals with x p ss; [done|]. wp_step. apply wp_rd_signals with p ss; [apply Hr|].
  rewrite Z.eqb_refl. wp_steps. cbn [Z.ltb Z.compare]. rewrite (proj2 (Z.eqb_neq set 0)) by lia.
  rewrite access_ok_user by lia. cbn [negb].
  wp_step. apply (wp_read_user s set (le_bytes 8 kset)); [done|done|done|done|]. cbn [fst snd Z.ltb Z.compare].
  rewrite int32_how, le_value_word by done. unfold change_mask, SIG_BLOCK, SIG_UNBLOCK, SIG_SETMASK.
  assert (how = 0 ∨ how = 1 ∨ how = 2) as [->|[->| ->]] by lia; cbn [Z.eqb Pos.eqb];
    (wp_step; apply wp_upd_signals with p ss; [apply Hr|]; wp_step; split; [done|];
     eexists; split; [done|]; split; [done|]; split; [done|]; intros n Hn;
     cbn [set_blocked ss_blocked]; rewrite clear_mask by lia; f_equal; f_equal; rewrite !sigismember_bit by lia).
  - by rewrite Z.lor_spec.
  - by rewrite Z.land_spec, Z.lnot_spec by lia.
Qed.

(** ** The system call sigaction *)

Record action_wf (a : sigaction) : Prop := ActionWf {
  aw_handler : word64 (sa_handler a);
  aw_mask : word64 (sa_mask a);
  aw_flags : 0 ≤ sa_flags a < 2 ^ 32;
  aw_pad : 0 ≤ sa_pad a < 2 ^ 32;
  aw_restorer : word64 (sa_restorer a) }.

Lemma decode_encode_action a : action_wf a → decode_action (encode_action a) = a.
Proof.
  intros [Hh Hm Hf Hp Hr].
  change (decode_action (encode_action a)) with
    (SigAction (le_value (le_bytes 8 (sa_handler a))) (le_value (le_bytes 8 (sa_mask a)))
       (le_value (le_bytes 4 (sa_flags a))) (le_value (le_bytes 4 (sa_pad a))) (le_value (le_bytes 8 (sa_restorer a)))).
  rewrite !le_value_word, !le_value_bytes by done. by destruct a.
Qed.

Lemma wp_sys_sigaction s x p ss n act a (Q : Z → procs → Prop) :
  running_as s x p ss → 1 ≤ n < NSIG → alen (ss_actions ss) = NSIG → in_user_space act SIZEOF_SIGACTION →
  block (pr_user s) act (encode_action a) → action_wf a →
  Q 0 (set_signals x p (set_actions (aset (ss_actions ss) n a) ss) s) →
  wp (sys_sigaction n act 0) Q s.
Proof.
  intros Hr Hn Hlen Hact Hb Ha HQ. unfold sys_sigaction. pose proof Hact as [Ha0 Ha32].
  rewrite (proj2 (Z.leb_gt NSIG n)), (proj2 (Z.eqb_neq n 0)) by lia. cbn [orb].
  wp_step. apply wp_current_signals with x p ss; [done|]. unfold give_old_action. rewrite Z.eqb_refl.
  wp_steps. cbn [Z.ltb Z.compare]. rewrite (proj2 (Z.eqb_neq act 0)) by lia.
  rewrite access_ok_user by (unfold SIZEOF_SIGACTION in *; lia). cbn [negb].
  wp_step. apply wp_rd_signals with p ss; [apply Hr|].
  destruct (aget_is_Some (ss_actions ss) n) as [old Hold]; [lia|].
  wp_step. apply wp_lift with old; [done|].
  wp_step. apply (wp_read_user s act (encode_action a)); [done|done|done|done|]. cbn [fst snd].
  rewrite decode_encode_action by done.
  wp_step. apply wp_upd_signals with p ss; [apply Hr|]. by wp_step.
Qed.

(** ** Sending a signal *)

Lemma wp_get_by_pid s pid o (Q : option Z → procs → Prop) :
  pid < MAX_PROCESSES → aget (pr_table s) pid = Some o → Q o s → wp (process_get_by_pid pid) Q s.
Proof.
  intros Hpid Ho HQ. unfold process_get_by_pid. rewrite (proj2 (Z.leb_gt MAX_PROCESSES pid)) by done. by wp_steps.
Qed.

(** A signal other than SIGCONT to a live process becomes pending. *)
Lemma wp_signal_send s pid x p ss n (Q : Z → procs → Prop) :
  pid < MAX_PROCESSES → aget (pr_table s) pid = Some (Some x) → has_signals s x p ss → live p = true →
  1 ≤ n < NSIG → n ≠ SIGCONT → Q 0 (set_signals x p (pend n ss) s) → wp (signal_send pid n) Q s.
Proof.
  intros Hpid Ht Hs Hl Hn Hc HQ. unfold signal_send. rewrite (proj2 (Z.eqb_neq n 0)) by lia.
  rewrite (proj2 (signal_valid_iff n)) by done. cbn [negb].
  wp_step. apply wp_get_by_pid with (Some x); [done|done|].
  wp_step. apply wp_rd_proc with p; [apply Hs|]. rewrite Hl. cbn [negb].
  destruct Hs as [Hx Hp]. rewrite Hp. rewrite (proj2 (Z.eqb_neq n SIGCONT)) by done. cbn [andb].
  wp_step. apply wp_upd_signals with p ss; [done|]. by wp_step.
Qed.

Lemma int32_small z : 0 ≤ z < 2 ^ 31 → int32 z = z.
Proof. intros. apply signed_small; lia. Qed.

Lemma wp_sys_kill s pid x p ss n (Q : Z → procs → Prop) :
  0 < pid < MAX_PROCESSES → aget (pr_table s) pid = Some (Some x) → has_signals s x p ss → live p = true →
  1 ≤ n < NSIG → n ≠ SIGCONT → Q 0 (set_signals x p (pend n ss) s) → wp (sys_kill pid n) Q s.
Proof.
  intros Hpid Ht Hs Hl Hn Hc HQ. unfold sys_kill. unfold MAX_PROCESSES, NSIG in *.
  rewrite !int32_small by lia.
  rewrite (proj2 (Z.ltb_ge n 0)), (proj2 (Z.leb_gt 32 n)), (proj2 (Z.ltb_lt 0 pid)) by lia. cbn [orb].
  apply wp_signal_send with x p ss; [apply Hpid|done..].
Qed.

Lemma next_signal_pend ss n :
  1 ≤ n < NSIG → ss_pending ss = 0 → sigismember (ss_blocked ss) n = false → next_signal (pend n ss) n.
Proof.
  intros Hn H0 Hb. split; [done|]. unfold deliverable. cbn [pend set_pending ss_pending ss_blocked]. rewrite H0.
  split; [|intros j Hj [Hp _]].
  - split; [|done]. rewrite sigismember_add, decide_True by (done || lia). done.
  - rewrite sigismember_add, decide_False in Hp by lia. by rewrite sigismember_bit, Z.bits_0 in Hp by lia.
Qed.

(** A process can catch SIGKILL.  It installs a handler for SIGKILL with the
    system call sigaction, which succeeds; when SIGKILL is then sent to it with
    kill, it is not terminated: its state stays what it is, and it continues at
    the handler. *)
Theorem sigkill_caught s x p ss pid act a f :
  running_as s x p ss → p_pid p = pid → 0 < pid < MAX_PROCESSES →
  aget (pr_table s) pid = Some (Some x) → live p = true →
  alen (ss_actions ss) = NSIG → ss_pending ss = 0 → sigismember (ss_blocked ss) SIGKILL = false →
  in_user_space act SIZEOF_SIGACTION → block (pr_user s) act (encode_action a) → action_wf a →
  sa_handler a ≠ SIG_DFL → sa_handler a ≠ SIG_IGN →
  frame_room (pr_user s) (signal_frame_addr (f_rsp f)) →
  wp (r1 ← sys_sigaction SIGKILL act 0; r2 ← sys_kill pid SIGKILL; r3 ← signal_deliver_pending f;
      mret (r1, r2, r3)) (λ r s',
    r.1.1 = 0 ∧ r.1.2 = 0 ∧ r.2.1 = true ∧ f_rcx r.2.2 = sa_handler a ∧
    ∃ p', pr_procs s' !! x = Some p' ∧ p_state p' = p_state p) s.
Proof.
  intros Hr Hpp Hpid Ht Hl Hlen Hp0 Hb Hact Hmem Hwf Hdfl Hign Hroom.
  assert (1 ≤ SIGKILL < NSIG) as Hk by (unfold SIGKILL, NSIG; lia).
  wp_step. apply wp_sys_sigaction with x p ss a; [done..|]. set (ss1 := set_actions _ ss).
  pose proof (running_set x p ss ss1 s Hr) as Hr1.
  wp_step. apply wp_sys_kill with x (set_p_signals (Some ss1) p) ss1; [done|done|apply Hr1|done|done|done|].
  rewrite set_signals_twice.
  wp_step. eapply wp_deliver with (n := SIGKILL) (a := a); [by apply running_set with ss| | |done|done|exact Hroom|].
  - by apply next_signal_pend.
  - cbn [pend set_pending ss_actions ss1 set_actions]. apply aget_aset_eq. unfold NSIG in Hlen. unfold SIGKILL. lia.
  - wp_step. repeat split; [done..|]. eexists. split; [|].
    + cbn [pr_procs set_pr_user]. unfold set_signals. rewrite procs_set_proc, lookup_insert_eq. reflexivity.
    + done.
Qed.
