(* ===== verification/ProcTable.v ===== *)
(** * The process table: searches, death by a signal, and waiting for it

    Every search over the table finds the first process that satisfies its
    condition.  A process that a signal terminates becomes a zombie and its
    parent learns of it from sys_wait4. *)

From S2P Require Import Prelude CString CStringThm UAccess Process ProcSys ProcThm SignalThm.

Implicit Types (s : procs) (p q : process_t) (ss : signal_state) (f : syscall_frame).

(** ** The table *)

(** The process [p], at [x], is in slot [i]. *)
Definition slot s (i x : Z) p : Prop := aget (pr_table s) i = Some (Some x) ∧ pr_procs s !! x = Some p.

(** Every entry is a process whose identifier is the slot. *)
Record table_ok s : Prop := TableOk {
  tb_len : alen (pr_table s) = MAX_PROCESSES;
  tb_pid : ∀ i x, aget (pr_table s) i = Some (Some x) → ∃ p, pr_procs s !! x = Some p ∧ p_pid p = i }.

Lemma slot_pid s i x p : table_ok s → slot s i x p → p_pid p = i.
Proof. intros Ht [Hi Hx]. destruct (tb_pid s Ht i x Hi) as (p' & Hp' & Hpid). congruence. Qed.

Lemma slot_inj s i j x p q : table_ok s → slot s i x p → slot s j x q → i = j ∧ p = q.
Proof.
  intros Ht Hi Hj. assert (p = q) as -> by (destruct Hi, Hj; congruence).
  by rewrite <-(slot_pid s i x q), <-(slot_pid s j x q).
Qed.

Lemma slot_fun s i x y p q : slot s i x p → slot s i y q → x = y ∧ p = q.
Proof. intros [Hi Hx] [Hj Hy]. assert (x = y) as -> by congruence. split; [done|congruence]. Qed.

(** An update that keeps the identifier keeps the table. *)
Lemma table_ok_set s x p q : table_ok s → pr_procs s !! x = Some p → p_pid q = p_pid p → table_ok (set_proc x q s).
Proof.
  intros [Hlen Hpid] Hx Hq. split; [done|]. intros i y Hi. destruct (Hpid i y Hi) as (p' & Hp' & Hi').
  rewrite procs_set_proc. destruct (decide (y = x)) as [->|Hne].
  - exists q. rewrite lookup_insert_eq. split; [done|congruence].
  - exists p'. by rewrite lookup_insert_ne.
Qed.

Lemma slot_set_ne s i x y p q : slot s i y p → x ≠ y → slot (set_proc x q s) i y p.
Proof. intros [Hi Hy] Hne. split; [done|]. by rewrite procs_set_proc, lookup_insert_ne. Qed.

Lemma slot_set_eq s i x p q : slot s i x p → slot (set_proc x q s) i x q.
Proof. intros [Hi Hx]. split; [done|]. by rewrite procs_set_proc, lookup_insert_eq. Qed.

(** ** Searches *)

Definition found s (i n : Z) (cond : process_t → bool) (r : option Z) : Prop :=
  match r with
  | Some x => ∃ k p, i ≤ k < n ∧ slot s k x p ∧ cond p = true ∧
                     ∀ j y q, i ≤ j < k → slot s j y q → cond q = false
  | None => ∀ j y q, i ≤ j < n → slot s j y q → cond q = false
  end.

Lemma wp_find_process n i s cond (Q : option Z → procs → Prop) :
  table_ok s → 0 ≤ i → i + Z.of_nat n ≤ MAX_PROCESSES →
  (∀ r, found s i (i + Z.of_nat n) cond r → Q r s) → wp (find_process n i cond) Q s.
Proof.
  intros Ht. revert i Q. induction n as [|n IH]; intros i Q Hi Hn HQ; cbn [find_process].
  { wp_step. apply HQ. cbn. intros j y q Hj. lia. }
  destruct (aget_is_Some (pr_table s) i) as [o Ho]; [rewrite (tb_len s Ht); lia|].
  wp_steps. rewrite Nat2Z.inj_succ in HQ.
  assert (∀ (Hno : ∀ y q, slot s i y q → cond q = false),
    wp (find_process n (i + 1) cond) Q s) as Hnext.
  { intros Hno. apply IH; [lia|lia|]. replace (i + 1 + Z.of_nat n) with (i + Z.succ (Z.of_nat n)) by lia.
    intros r Hr. apply HQ. destruct r as [x|]; cbn in Hr |- *.
    - destruct Hr as (k & p & Hk & Hslot & Hc & Hlow). exists k, p. split; [lia|]. split; [done|]. split; [done|].
      intros j y q Hj. destruct (decide (j = i)) as [->|]; [apply Hno|apply Hlow; lia].
    - intros j y q Hj. destruct (decide (j = i)) as [->|]; [apply Hno|apply Hr; lia]. }
  destruct o as [x|].
  - destruct (tb_pid s Ht i x Ho) as (p & Hx & _). wp_step. apply wp_rd_proc with p; [done|].
    destruct (cond p) eqn:Hc.
    + wp_step. apply HQ. exists i, p. split; [lia|]. split; [done|]. split; [done|]. lia.
    + apply Hnext. intros y q Hq. destruct (slot_fun s i x y p q) as [_ <-]; done.
  - apply Hnext. intros y q [Hy _]. congruence.
Qed.

Lemma wp_find_child s cond (Q : option Z → procs → Prop) :
  table_ok s → (∀ r, found s 1 MAX_PROCESSES cond r → Q r s) → wp (find_child cond) Q s.
Proof. intros Ht HQ. apply wp_find_process; [done|lia|done|]. exact HQ. Qed.

Lemma wp_find_any s cond (Q : option Z → procs → Prop) :
  table_ok s → (∀ r, found s 0 MAX_PROCESSES cond r → Q r s) → wp (find_any cond) Q s.
Proof. intros Ht HQ. apply wp_find_process; [done|lia|done|]. exact HQ. Qed.

(** A search that one process alone satisfies finds it. *)
Lemma found_unique s i n cond k x p r :
  found s i n cond r → slot s k x p → i ≤ k < n → cond p = true →
  (∀ j y q, i ≤ j < n → slot s j y q → cond q = true → j = k) → r = Some x.
Proof.
  intros Hf Hs Hk Hc Hu. destruct r as [y|]; cbn in Hf.
  - destruct Hf as (k' & p' & Hk' & Hs' & Hc' & _). assert (k' = k) as -> by eauto.
    destruct (slot_fun s k x y p p') as [-> _]; done.
  - by rewrite (Hf k x p) in Hc.
Qed.

(** ** Death by a signal *)

(** The signals whose default action ends the process. *)
Definition fatal (n : Z) : Prop :=
  aget default_actions n = Some SIG_ACTION_TERM ∨ aget default_actions n = Some SIG_ACTION_CORE.

Definition zombie (code : Z) p : process_t := set_p_exit_code code (set_p_state PROC_ZOMBIE p).

Lemma wp_default_fatal s x n (Q : unit → procs → Prop) :
  fatal n → 1 ≤ n < NSIG → wp (process_exit (Some x) (128 + n)) Q s → wp (handle_default_signal x n) Q s.
Proof.
  intros Hf Hn HQ. unfold handle_default_signal, signal_default_action.
  rewrite (proj2 (signal_valid_iff n)) by done. cbn [negb].
  destruct Hf as [Hf|Hf]; (wp_step; eapply wp_lift; [exact Hf|exact HQ]).
Qed.

(** The parent [y] is told, unless it ignores SIGCHLD. *)
Lemma wp_send_sigchld s c pp y q sq a (Q : unit → procs → Prop) :
  pp < MAX_PROCESSES → aget (pr_table s) pp = Some (Some y) → has_signals s y q sq →
  aget (ss_actions sq) SIGCHLD = Some a → sa_handler a ≠ SIG_IGN →
  Q tt (set_signals y q (pend SIGCHLD sq) s) → wp (signal_send_sigchld c pp) Q s.
Proof.
  intros Hpp Ht Hq Ha Hign HQ. unfold signal_send_sigchld, notify_parent.
  wp_step. apply wp_get_by_pid with (Some y); [done|done|]. wp_step. apply wp_rd_proc with q; [apply Hq|].
  destruct Hq as [Hy Hsq]. rewrite Hsq. wp_step. apply wp_lift with a; [done|].
  rewrite (proj2 (Z.eqb_neq _ _)) by done. cbn [negb]. by apply wp_upd_signals with q sq.
Qed.

Section wait.
Context (process_destroy : Z → PM unit) (sched_reschedule : PM unit).

Lemma wait_target_pid c : 0 < c < MAX_PROCESSES → wait_target c = c.
Proof.
  intros Hc. unfold MAX_PROCESSES in Hc. unfold wait_target. rewrite wrap_small by lia.
  rewrite int32_small by lia. rewrite (proj2 (Z.eqb_neq c 0)), (proj2 (Z.ltb_ge c (-1))) by lia. done.
Qed.

Lemma wp_give_status s status k (Q : bool → procs → Prop) :
  in_user_space status 4 → mapped (pr_user s) status 4 →
  Q true (set_pr_user (store (pr_user s) status (le_bytes 4 (wrap32 k))) s) → wp (give_status status k) Q s.
Proof.
  intros [Hs0 Hs4] Hm HQ. unfold give_status. rewrite (proj2 (Z.eqb_neq status 0)) by lia.
  wp_step. apply wp_in_user. apply (wp_copy_to_user _ status (le_bytes 4 (wrap32 k))); [lia|done|].
  rewrite decide_True; [by wp_step|]. right. rewrite alen_le_bytes. lia.
Qed.

(** Waiting for a child that is a zombie reports its status and destroys it. *)
Lemma wp_wait4_zombie s y q c x p status options fuel (Q : Z → procs → Prop) :
  table_ok s → pr_current s = Some y → pr_procs s !! y = Some q →
  slot s c x p → 0 < c < MAX_PROCESSES → p_parent_pid p = p_pid q → p_state p = PROC_ZOMBIE →
  in_user_space status 4 → mapped (pr_user s) status 4 →
  wp (process_destroy x) (λ _, Q c)
    (set_pr_user (store (pr_user s) status (le_bytes 4 (wrap32 (exit_status (p_exit_code p))))) s) →
  wp (sys_wait4 process_destroy sched_reschedule (S fuel) c status options) Q s.
Proof.
  intros Ht Hcur Hy Hs Hc Hpar Hz Hst Hm HQ. unfold sys_wait4. destruct Hst as [Hst0 Hst4].
  rewrite access_ok_user by lia. rewrite andb_false_r.
  apply wp_with_current with y q; [done|done|]. cbn [wait4_loop]. rewrite wait_target_pid by done. wp_step.
  assert (p_pid p = c) as Hpid by eauto using slot_pid. unfold wait4_turn, process_has_children. wp_steps.
  apply wp_find_child; [done|]. intros r Hr. wp_step. destruct r as [z|]; last first.
  { cbn in Hr. specialize (Hr c x p ltac:(lia) Hs). unfold in_state in Hr. rewrite Hpar, Z.eqb_refl, Hz in Hr. done. }
  cbn [negb]. wp_step. unfold process_find_zombie_child. apply wp_find_child; [done|]. intros r' Hr'.
  assert (r' = Some x) as ->.
  { eapply found_unique; [exact Hr'|exact Hs|lia| |].
    - unfold is_child, in_state. by rewrite Hpar, Hpid, !Z.eqb_refl, orb_true_r, Hz.
    - intros j y' q' Hj Hq' Hcond. unfold is_child in Hcond. unfold PID_INVALID, MAX_PROCESSES in *.
      rewrite (proj2 (Z.eqb_neq c (2 ^ 32 - 1))) in Hcond by lia.
      apply andb_true_iff in Hcond as [[_ Hj'%Z.eqb_eq]%andb_true_iff _]. by rewrite <-(slot_pid s j y' q'). }
  wp_step. apply wp_rd_proc with p; [apply Hs|]. wp_step. apply wp_give_status; [done|done|].
  cbn [negb]. wp_step. eapply wp_mono; [exact HQ|]. intros [] s' HQ'. cbv beta in HQ'. wp_steps. by rewrite Hpid.
Qed.

End wait.

(** Death by a signal, from delivery to the parent.  When the signal [n] is
    delivered to a process that has not changed its fatal default action, the
    process becomes a zombie and SIGCHLD becomes pending for its parent; the
    parent's sys_wait4 for that process then returns its identifier, stores the
    number of the signal as the status, and destroys the process, whatever the
    options and without rescheduling. *)
Theorem death_by_signal s x p ss y q sq n a a' f :
  table_ok s → running_as s x p ss → slot s (p_pid p) x p → 0 < p_pid p < MAX_PROCESSES →
  next_signal ss n → aget (ss_actions ss) n = Some a → sa_handler a = SIG_DFL → fatal n →
  slot s (p_parent_pid p) y q → p_signals q = Some sq → p_parent_pid p ≠ p_pid p →
  aget (ss_actions sq) SIGCHLD = Some a' → sa_handler a' ≠ SIG_IGN →
  wp (signal_deliver_pending f) (λ r s1,
    r = (false, f) ∧
    (∃ p', slot s1 (p_pid p) x p' ∧ p_state p' = PROC_ZOMBIE ∧ p_exit_code p' = 128 + n) ∧
    (∃ q', slot s1 (p_parent_pid p) y q' ∧ p_signals q' = Some (pend SIGCHLD sq)) ∧
    ∀ process_destroy sched_reschedule fuel status options (Q : Z → procs → Prop),
      let s2 := set_pr_current (Some y) s1 in
      in_user_space status 4 → mapped (pr_user s) status 4 →
      wp (process_destroy x) (λ _, Q (p_pid p)) (set_pr_user (store (pr_user s) status (le_bytes 4 n)) s2) →
      wp (sys_wait4 process_destroy sched_reschedule (S fuel) (p_pid p) status options) Q s2) s.
Proof.
  intros Ht Hr Hsx Hc Hn Ha Hdfl Hf Hsy Hsq Hne Ha' Hign.
  assert (x ≠ y) as Hxy by (intros <-; destruct (slot_inj s _ _ x p q Ht Hsx Hsy); lia).
  assert (p_pid q = p_parent_pid p) as Hqpid by eauto using slot_pid.
  apply wp_deliver_choice with x p ss n a; [done..|]. cbv zeta. rewrite Hdfl. cbn [Z.eqb SIG_DFL SIG_IGN].
  wp_step. pose proof Hn as [Hn1 _]. apply wp_default_fatal; [done|done|]. unfold process_exit.
  set (s1 := set_signals x p (unpend n ss) s). set (p1 := set_p_signals (Some (unpend n ss)) p).
  wp_step. apply wp_rd_proc with p1; [by apply has_signals_set|].
  wp_step. apply wp_upd_proc with p1; [by apply has_signals_set|].
  change (p_parent_pid p1) with (p_parent_pid p). change (p_pid p1) with (p_pid p).
  rewrite (proj2 (Z.eqb_neq _ _)) by done. cbn [negb]. unfold s1, set_signals. rewrite set_proc_twice.
  set (s2 := set_proc x _ s).
  assert (slot s2 (p_parent_pid p) y q) as Hsy2 by (by apply slot_set_ne).
  assert (p_parent_pid p < MAX_PROCESSES) as Hpp.
  { destruct Hsy as [Hsy _]. apply aget_Some_bounds in Hsy. rewrite (tb_len s Ht) in Hsy. lia. }
  apply wp_send_sigchld with y q sq a'; [done|apply Hsy2|split; [apply Hsy2|done]|done|done|].
  wp_step. unfold set_signals. set (s3 := set_proc y _ s2).
  assert (slot s3 (p_pid p) x (zombie (128 + n) p1)) as Hsx3.
  { apply slot_set_ne; [|congruence]. by apply slot_set_eq with p. }
  assert (slot s3 (p_parent_pid p) y (set_p_signals (Some (pend SIGCHLD sq)) q)) as Hsy3 by (by eapply slot_set_eq).
  split; [done|]. split; [by exists (zombie (128 + n) p1)|]. split; [by eexists|].
  intros destroy resched fuel status options Q Hst Hm HQ.
  eapply wp_wait4_zombie with (p := zombie (128 + n) p1); [|done|apply Hsy3|exact Hsx3|done|done|done|done|done|].
  - assert (table_ok s3) as Ht3.
    { apply table_ok_set with q; [|apply Hsy2|done]. apply table_ok_set with p; [done|apply Hsx|done]. }
    destruct Ht3. by split.
  - cbn [zombie set_p_exit_code p_exit_code]. unfold exit_status.
    rewrite (proj2 (Z.leb_le 128 (128 + n))) by lia. replace (128 + n - 128) with n by lia.
    unfold NSIG in Hn1. rewrite wrap_small by lia. exact HQ.
Qed.
