(* ===== verification/Creds.v ===== *)
(** * User and group identities, groups and sessions, limits

    What the system calls that change the identity of a process, its group and
    session, and its resource limits guarantee. *)

From S2P Require Import Prelude CString CStringThm UAccess Process ProcSys ProcThm SignalThm ProcTable.

Implicit Types (s : procs) (p q : process_t).

(** ** Identities *)

Inductive id_call :=
  | SetUid (uid : Z)
  | SetReuid (ruid euid : Z)
  | SetResuid (ruid euid suid : Z)
  | SetGid (gid : Z)
  | SetRegid (rgid egid : Z)
  | SetResgid (rgid egid sgid : Z).

Definition run_id_call (c : id_call) : PM Z :=
  match c with
  | SetUid u => sys_setuid u
  | SetReuid r e => sys_setreuid r e
  | SetResuid r e v => sys_setresuid r e v
  | SetGid g => sys_setgid g
  | SetRegid r e => sys_setregid r e
  | SetResgid r e v => sys_setresgid r e v
  end.

Fixpoint run_id_calls (cs : list id_call) : PM (list Z) :=
  match cs with
  | [] => mret []
  | c :: cs' => r ← run_id_call c; rs ← run_id_calls cs'; mret (r :: rs)
  end.

Definition uids p : list Z := [p_uid p; p_euid p; p_suid p].
Definition gids p : list Z := [p_gid p; p_egid p; p_sgid p].

(** [q] is [p] up to identities, all of which [p] had. *)
Record confined p q : Prop := Confined {
  cf_uids : ∀ u, u ∈ uids q → u ∈ uids p;
  cf_gids : ∀ g, g ∈ gids q → g ∈ gids p;
  cf_rest : set_p_gids 0 0 0 (set_p_uids 0 0 0 q) = set_p_gids 0 0 0 (set_p_uids 0 0 0 p) }.

Lemma confined_refl p : confined p p.
Proof. by split. Qed.

Lemma confined_trans p q r : confined p q → confined q r → confined p r.
Proof. intros [Hu Hg Hr] [Hu' Hg' Hr']. split; [auto|auto|congruence]. Qed.

Lemma elem_of_three (u a b c : Z) : u ∈ [a; b; c] ↔ u = a ∨ u = b ∨ u = c.
Proof. rewrite !list_elem_of_In. cbn. intuition congruence. Qed.

Lemma confined_uids p r e v :
  r ∈ uids p → e ∈ uids p → v ∈ uids p → confined p (set_p_uids r e v p).
Proof.
  intros Hr He Hv. split; [|done|done]. intros u. unfold uids at 1. rewrite elem_of_three. cbn.
  by intros [->|[->| ->]].
Qed.

Lemma confined_gids p r e v :
  r ∈ gids p → e ∈ gids p → v ∈ gids p → confined p (set_p_gids r e v p).
Proof.
  intros Hr He Hv. split; [done| |done]. intros u. unfold gids at 1. rewrite elem_of_three. cbn.
  by intros [->|[->| ->]].
Qed.

(** Only 32-bit identities. *)
Definition ids32 p : Prop := Forall (λ i, 0 ≤ i < 2 ^ 32) (uids p ++ gids p).

Lemma ids32_confined p q : ids32 p → confined p q → ids32 q.
Proof.
  unfold ids32. rewrite !Forall_app, !Forall_forall. intros [Hu Hg] [Hu' Hg' _]. split; auto.
Qed.

(** A computation from [s] in which the process [x] is [p]: it ends with the
    same state but for [x], which is confined to [p]. *)
Definition confines (c : PM Z) : Prop := ∀ s x p,
  pr_current s = Some x → pr_procs s !! x = Some p → p_euid p ≠ 0 → ids32 p →
  wp c (λ _ s', ∃ q, s' = set_proc x q s ∧ confined p q) s.

Lemma confines_keep s x p c : pr_procs s !! x = Some p →
  wp (mret c) (λ (_ : Z) s', ∃ q, s' = set_proc x q s ∧ confined p q) s.
Proof. intros Hx. wp_step. exists p. split; [by rewrite set_proc_same|apply confined_refl]. Qed.

Lemma confines_upd s x p g c : pr_procs s !! x = Some p → confined p (g p) →
  wp (upd_proc x g ;; mret c) (λ (_ : Z) s', ∃ q, s' = set_proc x q s ∧ confined p q) s.
Proof. intros Hx Hg. wp_step. apply wp_upd_proc with p; [done|]. wp_step. by exists (g p). Qed.

(** Reading the guards of the calls. *)
Ltac id_guards :=
  repeat match goal with
  | H : _ && _ = false |- _ => apply andb_false_iff in H
  | H : _ || _ = false |- _ => apply orb_false_iff in H
  | H : _ && _ = true |- _ => apply andb_true_iff in H
  | H : _ || _ = true |- _ => apply orb_true_iff in H
  | H : negb _ = false |- _ => apply negb_false_iff in H
  | H : negb _ = true |- _ => apply negb_true_iff in H
  | H : (_ =? _) = true |- _ => apply Z.eqb_eq in H
  | H : (_ =? _) = false |- _ => apply Z.eqb_neq in H
  | H : _ ∧ _ |- _ => destruct H
  | H : _ ∨ _ |- _ => destruct H
  end.

Lemma ids32_wrap p u : ids32 p → u ∈ uids p ++ gids p → wrap32 u = u.
Proof. unfold ids32. rewrite Forall_forall. intros H Hu. apply wrap_small. by apply H. Qed.

Ltac id_elem := rewrite ?elem_of_app; unfold uids, gids; rewrite ?elem_of_three; intuition congruence.

Lemma setuid_confines u : confines (sys_setuid u).
Proof.
  intros s x p Hc Hx He H32. apply wp_with_current with x p; [done|done|].
  rewrite (proj2 (Z.eqb_neq (p_euid p) 0)) by done.
  destruct (_ || _) eqn:Hg; [|by apply confines_keep].
  assert (u ∈ uids p) as Hu by (id_guards; subst; id_elem).
  apply confines_upd; [done|]. rewrite (ids32_wrap p) by (done || rewrite elem_of_app; auto).
  apply confined_uids; [id_elem|done|id_elem].
Qed.

Lemma setgid_confines u : confines (sys_setgid u).
Proof.
  intros s x p Hc Hx He H32. apply wp_with_current with x p; [done|done|].
  rewrite (proj2 (Z.eqb_neq (p_euid p) 0)) by done.
  destruct (_ || _) eqn:Hg; [|by apply confines_keep].
  assert (u ∈ gids p) as Hu by (id_guards; subst; id_elem).
  apply confines_upd; [done|]. rewrite (ids32_wrap p) by (done || rewrite elem_of_app; auto).
  apply confined_gids; [id_elem|done|id_elem].
Qed.

Lemma setreuid_confines r e : confines (sys_setreuid r e).
Proof.
  intros s x p Hc Hx He H32. apply wp_with_current with x p; [done|done|].
  set (nr := new_id r _). set (ne := new_id e _).
  rewrite (proj2 (Z.eqb_neq (p_euid p) 0)) by done. cbn [negb andb].
  destruct (_ || _) eqn:Hg; [by apply confines_keep|]. apply confines_upd; [done|].
  assert (nr ∈ uids p ∧ ne ∈ uids p) as [Hr1 He1] by (id_guards; subst nr ne; split; id_elem).
  apply confined_uids; [done|done|]. case_match; [done|id_elem].
Qed.

Lemma setregid_confines r e : confines (sys_setregid r e).
Proof.
  intros s x p Hc Hx He H32. apply wp_with_current with x p; [done|done|].
  set (nr := new_id r _). set (ne := new_id e _).
  rewrite (proj2 (Z.eqb_neq (p_euid p) 0)) by done. cbn [negb andb].
  destruct (_ || _) eqn:Hg; [by apply confines_keep|]. apply confines_upd; [done|].
  assert (nr ∈ gids p ∧ ne ∈ gids p) as [Hr1 He1] by (id_guards; subst nr ne; split; id_elem).
  apply confined_gids; [done|done|]. case_match; [done|id_elem].
Qed.

Lemma one_of_elem a x y z : one_of a x y z = true → a ∈ [x; y; z].
Proof. unfold one_of. rewrite elem_of_three. intros. id_guards; auto. Qed.

Lemma setresuid_confines r e v : confines (sys_setresuid r e v).
Proof.
  intros s x p Hc Hx He H32. apply wp_with_current with x p; [done|done|].
  rewrite (proj2 (Z.eqb_neq (p_euid p) 0)) by done. cbn [negb andb].
  destruct (_ || _) eqn:Hg; [by apply confines_keep|]. apply confines_upd; [done|].
  apply orb_false_iff in Hg as [[Hr%negb_false_iff He'%negb_false_iff]%orb_false_iff Hv%negb_false_iff].
  apply confined_uids; by apply one_of_elem.
Qed.

Lemma setresgid_confines r e v : confines (sys_setresgid r e v).
Proof.
  intros s x p Hc Hx He H32. apply wp_with_current with x p; [done|done|].
  rewrite (proj2 (Z.eqb_neq (p_euid p) 0)) by done. cbn [negb andb].
  destruct (_ || _) eqn:Hg; [by apply confines_keep|]. apply confines_upd; [done|].
  apply orb_false_iff in Hg as [[Hr%negb_false_iff He'%negb_false_iff]%orb_false_iff Hv%negb_false_iff].
  apply confined_gids; by apply one_of_elem.
Qed.

Lemma id_call_confines c : confines (run_id_call c).
Proof.
  destruct c; [apply setuid_confines|apply setreuid_confines|apply setresuid_confines
    |apply setgid_confines|apply setregid_confines|apply setresgid_confines].
Qed.

(** C23. An unprivileged process cannot gain an identity.  If none of the real,
    effective and saved user identities of a process is that of root, then
    after any sequence of the six calls that change identities, with any
    arguments, each of its user and group identities is one it had before;
    nothing else of it and no other process has changed. *)
Theorem unprivileged_ids_confined cs s x p :
  pr_current s = Some x → pr_procs s !! x = Some p → 0 ∉ uids p → ids32 p →
  wp (run_id_calls cs) (λ _ s', ∃ q, s' = set_proc x q s ∧ confined p q ∧ p_euid q ≠ 0) s.
Proof.
  assert (∀ q, confined p q → 0 ∉ uids p → p_euid q ≠ 0) as Hroot.
  { intros q Hq H0 He. apply H0, (cf_uids p q Hq). id_elem. }
  intros Hc Hx H0 H32. cut (∀ q, confined p q →
    wp (run_id_calls cs) (λ _ s', ∃ q', s' = set_proc x q' s ∧ confined p q' ∧ p_euid q' ≠ 0) (set_proc x q s)).
  { intros H. specialize (H p (confined_refl p)). by rewrite set_proc_same in H. }
  induction cs as [|c cs IH]; intros q Hq; cbn [run_id_calls].
  { wp_step. exists q. auto. }
  wp_step. eapply wp_mono.
  - apply (id_call_confines c _ x q); [done|by rewrite procs_set_proc, lookup_insert_eq|auto|].
    by apply ids32_confined with p.
  - intros r s' (q' & -> & Hq'). rewrite set_proc_twice.
    wp_step. eapply wp_mono; [apply IH; by apply confined_trans with q|].
    intros rs s'' (q'' & -> & Hq''). wp_step. eauto.
Qed.

(** * Limits, and results that are stored through a program's pointers

    Setting and reading resource limits; getresuid, which stores without
    checking the address. *)

Implicit Types (r : rlimit).

Definition rlimit_wf r : Prop := word64 (rlim_cur r) ∧ word64 (rlim_max r).

Lemma decode_encode_rlimit r : rlimit_wf r → decode_rlimit (encode_rlimit r) = r.
Proof.
  intros [Hc Hm]. change (decode_rlimit (encode_rlimit r)) with
    (RLimit (le_value (le_bytes 8 (rlim_cur r))) (le_value (le_bytes 8 (rlim_max r)))).
  rewrite !le_value_word by done. by destruct r.
Qed.

(** The answer of setrlimit to a request. *)
Definition setrlimit_answer p (old new : rlimit) : Z :=
  if (rlim_max old <? rlim_max new) && negb (p_euid p =? 0) then - EPERM
  else if rlim_max new <? rlim_cur new then - EINVAL
  else 0.

Lemma wp_sys_setrlimit s x p res addr old new (Q : Z → procs → Prop) :
  pr_current s = Some x → pr_procs s !! x = Some p → 0 ≤ res < RLIM_NLIMITS →
  aget (p_limits p) res = Some old → in_user_space addr SIZEOF_RLIMIT →
  block (pr_user s) addr (encode_rlimit new) → rlimit_wf new →
  Q (setrlimit_answer p old new)
    (if decide (setrlimit_answer p old new = 0) then set_proc x (set_p_limits (aset (p_limits p) res new) p) s else s) →
  wp (sys_setrlimit res addr) Q s.
Proof.
  intros Hc Hx Hres Hold Hu Hb Hwf HQ. unfold sys_setrlimit. pose proof Hu as [Hu0 Hu16].
  rewrite (proj2 (Z.leb_gt RLIM_NLIMITS res)) by lia. apply wp_with_current with x p; [done|done|].
  unfold SIZEOF_RLIMIT in *. rewrite access_ok_user by lia. cbn [negb].
  wp_step. apply (wp_read_user s addr (encode_rlimit new)); [done|done|done|done|]. cbn [fst snd Z.eqb negb].
  rewrite decode_encode_rlimit by done. cbv zeta. wp_step. apply wp_lift with old; [done|].
  unfold setrlimit_answer in HQ. destruct (_ && _); [by wp_step|]. destruct (_ <? _); [by wp_step|].
  wp_step. apply wp_upd_proc with p; [done|]. by wp_step.
Qed.

Lemma wp_sys_getrlimit s x p res addr r (Q : Z → procs → Prop) :
  pr_current s = Some x → pr_procs s !! x = Some p → 0 ≤ res < RLIM_NLIMITS →
  aget (p_limits p) res = Some r → in_user_space addr SIZEOF_RLIMIT → mapped (pr_user s) addr SIZEOF_RLIMIT →
  Q 0 (set_pr_user (store (pr_user s) addr (encode_rlimit r)) s) → wp (sys_getrlimit res addr) Q s.
Proof.
  intros Hc Hx Hres Hr Hu Hm HQ. unfold sys_getrlimit. pose proof Hu as [Hu0 Hu16].
  rewrite (proj2 (Z.leb_gt RLIM_NLIMITS res)) by lia. apply wp_with_current with x p; [done|done|].
  unfold SIZEOF_RLIMIT in *. rewrite access_ok_user by lia. cbn [negb].
  wp_step. apply wp_lift with r; [done|]. apply wp_in_user.
  apply (wp_copy_to_user _ addr (encode_rlimit r)); [lia|done|]. rewrite decide_True; [done|]. right.
  change (alen (encode_rlimit r)) with 16. lia.
Qed.

(** Soft limits do not exceed hard ones. *)
Definition limits_ok p : Prop := Forall (λ r, rlim_cur r ≤ rlim_max r) (p_limits p).

Lemma limits_ok_set p res r : limits_ok p → rlim_cur r ≤ rlim_max r → limits_ok (set_p_limits (aset (p_limits p) res r) p).
Proof. intros Hp Hr. unfold limits_ok. cbn. unfold aset. case_decide; [|done]. by apply Forall_insert. Qed.

(** A resource limit that was set is the one that is read: setrlimit refuses
    a hard limit above the old one unless the process is root's (EPERM), and a
    soft limit above the hard one (EINVAL), changing nothing; otherwise getrlimit returns
    the new limit, in the same bytes, and soft limits still do not exceed hard
    ones. *)
Theorem rlimit_set_get s x p res addr addr' old new :
  pr_current s = Some x → pr_procs s !! x = Some p → 0 ≤ res < RLIM_NLIMITS →
  aget (p_limits p) res = Some old → limits_ok p →
  in_user_space addr SIZEOF_RLIMIT → block (pr_user s) addr (encode_rlimit new) → rlimit_wf new →
  in_user_space addr' SIZEOF_RLIMIT → mapped (pr_user s) addr' SIZEOF_RLIMIT →
  wp (a ← sys_setrlimit res addr; b ← sys_getrlimit res addr'; mret (a, b)) (λ ab s',
    ab = (setrlimit_answer p old new, 0) ∧
    (ab.1 = 0 → rlim_max new ≤ rlim_max old ∨ p_euid p = 0) ∧
    block (pr_user s') addr' (encode_rlimit (if decide (ab.1 = 0) then new else old)) ∧
    ∃ p', pr_procs s' !! x = Some p' ∧ limits_ok p') s.
Proof.
  intros Hc Hx Hres Hold Hok Hu Hb Hwf Hu' Hm. wp_step. eapply wp_sys_setrlimit; [done..|].
  set (ans := setrlimit_answer p old new).
  assert (ans = 0 → (rlim_max new ≤ rlim_max old ∨ p_euid p = 0) ∧ rlim_cur new ≤ rlim_max new) as Hans.
  { unfold ans, setrlimit_answer. destruct (_ && _) eqn:Hg; [done|]. destruct (Z.ltb_spec (rlim_max new) (rlim_cur new)); [done|].
    apply andb_false_iff in Hg as [Hg%Z.ltb_ge|Hg%negb_false_iff%Z.eqb_eq]; auto. }
  assert (0 ≤ res < alen (p_limits p)) as Hlen by eauto using aget_Some_bounds.
  wp_step. case_decide as Hd.
  - destruct (Hans Hd) as [Hroot Hle]. set (p' := set_p_limits _ p).
    eapply wp_sys_getrlimit with (p := p') (r := new); [done|by rewrite procs_set_proc, lookup_insert_eq|done| |done|done|].
    { by apply aget_aset_eq. }
    wp_step. split; [done|]. split; [done|]. cbn [fst]. rewrite decide_True by done. split; [apply block_store|].
    exists p'. split; [cbn; by rewrite lookup_insert_eq|by apply limits_ok_set].
  - eapply wp_sys_getrlimit; [exact Hc|exact Hx|done|exact Hold|done|done|].
    wp_step. split; [done|]. split; [done|]. cbn [fst]. rewrite decide_False by done. split; [apply block_store|].
    by exists p.
Qed.

(** getresuid stores the identities of the caller at whatever addresses it is
    given: unlike the other calls it does not ask whether they lie in user
    space, so a program can have it overwrite kernel memory. *)
Theorem getresuid_writes_anywhere s x p ptr :
  pr_current s = Some x → pr_procs s !! x = Some p → USER_ADDR_MAX < ptr → mapped (pr_user s) ptr 4 →
  access_ok ptr 4 = false ∧
  wp (sys_getresuid ptr 0 0) (λ res s',
    res = 0 ∧ pr_user s' = store (pr_user s) ptr (le_bytes 4 (p_uid p))) s.
Proof.
  intros Hc Hx Hk Hm. split.
  { apply not_true_is_false. rewrite access_ok_iff by (unfold USER_ADDR_MAX in *; lia). lia. }
  apply wp_with_current with x p; [done|done|]. unfold put_u32, USER_ADDR_MAX in *.
  rewrite (proj2 (Z.eqb_neq ptr 0)) by lia. wp_step. apply wp_in_user.
  apply wr_bytes_wp; [by rewrite alen_le_bytes|]. rewrite !Z.eqb_refl. by wp_steps.
Qed.
