(* ===== verification/Sessions.v ===== *)
(** * Process groups, sessions and limits

    Moving a process between groups keeps every group inside one session;
    signalling a group reaches its live members; the limits of a process. *)

From S2P Require Import Prelude CString CStringThm UAccess Process ProcSys ProcThm SignalThm ProcTable.

Implicit Types (s : procs) (p q : process_t).

(** ** Sessions *)

(** The live members of a group are in one session, which is also that of the
    process the group is named after, if that one lives. *)
Record sessions_ok s : Prop := SessionsOk {
  so_members : ∀ i j x y p q, slot s i x p → slot s j y q → live p = true → live q = true →
    p_pgrp p = p_pgrp q → p_session_id p = p_session_id q;
  so_leader : ∀ i x y p q, slot s i x p → slot s (p_pgrp p) y q → live p = true → live q = true →
    p_session_id p = p_session_id q }.

(** A slot after the group of [t] has been set to [g]. *)
Lemma slot_moved s i t x target p g :
  pr_procs s !! t = Some target → slot (set_proc t (set_p_pgrp g target) s) i x p →
  ∃ p0, slot s i x p0 ∧ p_session_id p = p_session_id p0 ∧ live p = live p0 ∧
        p_pgrp p = if decide (x = t) then g else p_pgrp p0.
Proof.
  intros Ht [Hi Hx]. rewrite procs_set_proc in Hx. destruct (decide (x = t)) as [->|Hne].
  - rewrite lookup_insert_eq in Hx. injection Hx as <-. by exists target.
  - rewrite lookup_insert_ne in Hx by done. by exists p.
Qed.

(** What pgrp_validate_setpgid has to ensure before [t], in slot [tp], moves to
    the group [g]. *)
Definition may_join s (tp g : Z) target : Prop :=
  g = tp ∨
  (∃ k y p, slot s k y p ∧ p_pgrp p = g ∧ live p = true ∧ p_session_id p = p_session_id target) ∨
  ((∀ k y p, slot s k y p → p_pgrp p = g → live p = false) ∧
   ∃ y p, slot s g y p ∧ p_session_id p = p_session_id target).

(** The live members of the group that is joined are in the session of [t]. *)
Lemma join_member s tp t target g i x p :
  sessions_ok s → slot s tp t target → live target = true → may_join s tp g target →
  slot s i x p → p_pgrp p = g → live p = true → p_session_id p = p_session_id target.
Proof.
  intros [Hmem Hlead] Ht Hl [->|[(k & y & q & Hq & Hg & Hlq & Hsq)|[Hnone _]]] Hp Hpg Hlp.
  - eapply Hlead; [exact Hp| |done|done]. by rewrite Hpg.
  - rewrite <-Hsq. eapply Hmem; [exact Hp|exact Hq|done|done|congruence].
  - by rewrite (Hnone i x p) in Hlp.
Qed.

(** So is the process the group is named after. *)
Lemma join_leader s tp t target g y q :
  sessions_ok s → slot s tp t target → may_join s tp g target →
  slot s g y q → live q = true → p_session_id q = p_session_id target.
Proof.
  intros [Hmem Hlead] Ht [->|[(k & z & p & Hp & Hg & Hlp & Hsp)|[_ (z & p & Hz & Hsp)]]] Hq Hlq.
  - by destruct (slot_fun s tp t y target q Ht Hq) as [_ ->].
  - rewrite <-Hsp. symmetry. eapply Hlead; [exact Hp| |done|done]. by rewrite Hg.
  - by destruct (slot_fun s g z y p q Hz Hq) as [_ <-].
Qed.

Lemma sessions_move s tp t target g :
  table_ok s → sessions_ok s → slot s tp t target → may_join s tp g target →
  sessions_ok (set_proc t (set_p_pgrp g target) s).
Proof.
  intros Htb Hs Ht Hj. pose proof Hs as [Hmem Hlead]. pose proof Ht as [_ Htt].
  assert (∀ i p, slot s i t p → i = tp ∧ p = target) as Honly.
  { intros i p Hp. destruct (slot_inj s i tp t p target) as [-> ->]; done. }
  split.
  - intros i j x y p q Hp Hq Hlp Hlq Hpg.
    destruct (slot_moved s i t x target p g Htt Hp) as (p0 & Hp0 & -> & Hlp0 & Hpg0).
    destruct (slot_moved s j t y target q g Htt Hq) as (q0 & Hq0 & -> & Hlq0 & Hqg0).
    rewrite Hpg0, Hqg0 in Hpg. rewrite Hlp0 in Hlp. rewrite Hlq0 in Hlq.
    destruct (decide (x = t)) as [->|], (decide (y = t)) as [->|].
    + destruct (Honly _ _ Hp0) as [_ ->], (Honly _ _ Hq0) as [_ ->]. done.
    + destruct (Honly _ _ Hp0) as [_ ->]. symmetry. by apply (join_member s tp t target g j y q0).
    + destruct (Honly _ _ Hq0) as [_ ->]. by apply (join_member s tp t target g i x p0).
    + by apply (Hmem i j x y).
  - intros i x y p q Hp Hq Hlp Hlq.
    destruct (slot_moved s i t x target p g Htt Hp) as (p0 & Hp0 & -> & Hlp0 & Hpg0).
    destruct (slot_moved s _ t y target q g Htt Hq) as (q0 & Hq0 & -> & Hlq0 & _).
    rewrite Hlp0 in Hlp. rewrite Hlq0 in Hlq. rewrite Hpg0 in Hq0. destruct (decide (x = t)) as [->|].
    + destruct (Honly _ _ Hp0) as [_ ->]. symmetry. by apply (join_leader s tp t target g y q0).
    + by apply (Hlead i x y p0 q0).
Qed.

Lemma wp_get_by_pid_any s pid (Q : option Z → procs → Prop) :
  table_ok s → 0 ≤ pid → Q None s → (∀ x p, slot s pid x p → Q (Some x) s) → wp (process_get_by_pid pid) Q s.
Proof.
  intros Ht H0 Hnone Hsome. unfold process_get_by_pid.
  destruct (Z.leb_spec MAX_PROCESSES pid); [by wp_step|].
  destruct (aget_is_Some (pr_table s) pid) as [[x|] Ho]; [rewrite (tb_len s Ht); lia| |]; wp_steps; [|done].
  destruct (tb_pid s Ht pid x Ho) as (p & Hp & _). by apply Hsome with p.
Qed.

(** Either the move is refused, with an error, or it may be made. *)
Lemma wp_validate s c cur tp g (Q : Z → procs → Prop) :
  table_ok s → pr_current s = Some c → pr_procs s !! c = Some cur → 0 ≤ tp → 0 ≤ g → g ≠ 0 →
  (∀ r, r < 0 → Q r s) →
  (∀ t target, slot s tp t target → may_join s tp g target → Q 0 s) →
  wp (pgrp_validate_setpgid tp g) Q s.
Proof.
  intros Ht Hc Hcur H0 Hg Hg0 Herr Hok. unfold pgrp_validate_setpgid, process_current. wp_steps. rewrite Hc.
  destruct (Z.eqb_spec tp 0); [wp_step; by apply Herr|].
  wp_step. apply wp_get_by_pid_any; [done|done|wp_step; by apply Herr|]. intros t target Htg.
  wp_step. apply wp_rd_proc with cur; [done|]. wp_step. apply wp_rd_proc with target; [apply Htg|].
  destruct (_ && _); [wp_step; by apply Herr|]. destruct (_ && _); [wp_step; by apply Herr|].
  rewrite (proj2 (Z.eqb_neq g 0)) by done. cbv zeta.
  destruct (Z.eqb_spec g tp) as [->|Hne]; [wp_step; eapply Hok; [exact Htg|by left]|].
  wp_step. apply wp_find_any; [done|]. intros [y|] Hf; cbn in Hf.
  - destruct Hf as (k & p & _ & Hp & [Hpg%Z.eqb_eq Hl]%andb_true_iff & _).
    wp_step. apply wp_rd_proc with p; [apply Hp|]. wp_step.
    destruct (Z.eqb_spec (p_session_id p) (p_session_id target)) as [He|]; cbn [negb]; [|by apply Herr].
    eapply Hok; [exact Htg|]. right; left. by exists k, y, p.
  - wp_step. apply wp_get_by_pid_any; [done|done|wp_step; by apply Herr|]. intros y p Hp.
    wp_step. apply wp_rd_proc with p; [apply Hp|]. wp_step.
    destruct (Z.eqb_spec (p_session_id p) (p_session_id target)) as [He|]; cbn [negb]; [|by apply Herr].
    eapply Hok; [exact Htg|]. right; right. split; [|by exists y, p].
    intros k z q Hq Hqg. assert (0 ≤ k < MAX_PROCESSES) as Hk.
    { destruct Hq as [Hq _]. apply aget_Some_bounds in Hq. rewrite (tb_len s Ht) in Hq. lia. }
    specialize (Hf k z q ltac:(lia) Hq). rewrite Hqg, Z.eqb_refl in Hf. exact Hf.
Qed.

Lemma or_pid_nonneg (pid d : Z) : 0 ≤ d → 0 ≤ (if pid =? 0 then d else wrap32 pid).
Proof. intros. destruct (pid =? 0); [done|]. pose proof (wrap_bounds 32 pid). lia. Qed.


(** The check takes a group identifier whose low 32 bits are zero for a request
    to name the group after the process; setpgid then stores zero.  So a process
    moves itself to the group of the kernel process, in whatever session. *)
Theorem setpgid_joins_group_zero s x p :
  table_ok s → pr_current s = Some x → slot s (p_pid p) x p → p_pid p ≠ 0 →
  wp (sys_setpgid 0 (2 ^ 32)) (λ r s', r = 0 ∧ s' = set_proc x (set_p_pgrp 0 p) s) s.
Proof.
  intros Ht Hc Hx Hp. apply wp_with_current with x p; [done|apply Hx|]. cbv beta zeta. cbn [Z.eqb].
  change (2 ^ 32 =? 0) with false. change (wrap32 (2 ^ 32)) with 0. cbv iota.
  assert (p_pid p < MAX_PROCESSES) as Hlt.
  { destruct Hx as [Hx _]. apply aget_Some_bounds in Hx. rewrite (tb_len s Ht) in Hx. lia. }
  unfold pgrp_validate_setpgid, process_current. wp_steps. rewrite Hc, (proj2 (Z.eqb_neq (p_pid p) 0)) by done.
  wp_step. apply wp_get_by_pid with (Some x); [done|apply Hx|].
  wp_step. apply wp_rd_proc with p; [apply Hx|]. wp_step. apply wp_rd_proc with p; [apply Hx|].
  rewrite Z.eqb_refl. cbn [negb andb Z.eqb]. cbv zeta. rewrite Z.eqb_refl. wp_steps. cbn [Z.ltb Z.compare].
  wp_step. apply wp_get_by_pid with (Some x); [done|apply Hx|].
  wp_step. apply wp_upd_proc with p; [apply Hx|]. by wp_step.
Qed.

(** setsid does not: a process that leads a group with another live member of
    another session takes the group's name with it into the new session. *)
Theorem setsid_splits_group s x p j y q :
  pr_current s = Some x → slot s (p_pid p) x p → live p = true →
  slot s j y q → x ≠ y → live q = true → p_pgrp q = p_pid p → p_session_id q ≠ p_pid p →
  wp sys_setsid (λ r s', r = p_pid p ∧ ¬ sessions_ok s') s.
Proof.
  intros Hc Hx Hl Hy Hne Hlq Hg Hsq. unfold sys_setsid, process_current. wp_steps. rewrite Hc.
  wp_step. apply wp_rd_proc with p; [apply Hx|]. wp_step. apply wp_upd_proc with p; [apply Hx|]. wp_step.
  split; [done|]. intros [Hmem _]. apply Hsq. symmetry.
  eapply (Hmem (p_pid p) j x y (set_p_pgrp (p_pid p) (set_p_session_id (p_pid p) p)) q);
    [by apply slot_set_eq with p|by apply slot_set_ne|done|done|done].
Qed.

(** ** Signals to a group *)

(** What a member of the group [g] looks like after the signal [n]. *)
Definition in_group (g : Z) p : bool := (p_pgrp p =? g) && live p.

Definition receive (g n : Z) p : process_t :=
  if in_group g p then match p_signals p with
                       | Some ss => set_p_signals (Some (pend n ss)) p
                       | None => p
                       end
  else p.

Definition is_member s (g i : Z) : bool :=
  match mjoin (aget (pr_table s) i) with
  | Some x => match pr_procs s !! x with Some p => in_group g p | None => false end
  | None => false
  end.

(** How many of the [n] slots from [i] on hold a live member. *)
Fixpoint count_members s (g : Z) (n : nat) (i : Z) : Z :=
  match n with
  | O => 0
  | S n' => (if is_member s g i then 1 else 0) + count_members s g n' (i + 1)
  end.

(** [s'] is [s] with the signal received in the slots from [i] to [j]. *)
Record group_signalled (g n i j : Z) s s' : Prop := GroupSignalled {
  gs_slots : ∀ k x p, slot s k x p → slot s' k x (if decide (i ≤ k < j) then receive g n p else p);
  gs_others : ∀ x, (∀ k, aget (pr_table s) k ≠ Some (Some x)) → pr_procs s' !! x = pr_procs s !! x;
  gs_rest : set_pr_procs ∅ s' = set_pr_procs ∅ s }.

Lemma is_member_slot s g i x p : slot s i x p → is_member s g i = in_group g p.
Proof. intros [Hi Hx]. unfold is_member. rewrite Hi. cbn. by rewrite Hx. Qed.

Lemma is_member_empty s g i : aget (pr_table s) i = Some None → is_member s g i = false.
Proof. intros Hi. unfold is_member. by rewrite Hi. Qed.

(** Other slots count the same after the update of one. *)
Lemma count_members_set s g n i k x p p' :
  table_ok s → slot s k x p → k < i → count_members (set_proc x p' s) g n i = count_members s g n i.
Proof.
  intros Ht Hk. revert i. induction n as [|n IH]; intros i Hi; cbn [count_members]; [done|].
  rewrite IH by lia. f_equal. unfold is_member. rewrite procs_set_proc. change (pr_table (set_proc x p' s)) with (pr_table s).
  destruct (aget (pr_table s) i) as [[y|]|] eqn:Hy; cbn; [|done|done].
  destruct (decide (x = y)) as [->|Hne]; [|by rewrite lookup_insert_ne].
  destruct (tb_pid s Ht i y Hy) as (q & Hq & _).
  destruct (slot_inj s k i y p q Ht Hk (conj Hy Hq)). lia.
Qed.

Lemma group_signalled_skip g n i j s s' :
  (∀ x p, slot s i x p → receive g n p = p) → group_signalled g n (i + 1) j s s' → group_signalled g n i j s s'.
Proof.
  intros Hi [Hs Ho Hr]. split; [|done|done]. intros k x p Hk. specialize (Hs k x p Hk).
  destruct (decide (i ≤ k < j)), (decide (i + 1 ≤ k < j)); try lia; try done.
  assert (k = i) as -> by lia. by rewrite (Hi x p Hk).
Qed.

Lemma group_signalled_step g n i j s s' x p :
  table_ok s → slot s i x p → i < j →
  group_signalled g n (i + 1) j (set_proc x (receive g n p) s) s' → group_signalled g n i j s s'.
Proof.
  intros Ht Hi Hij [Hs Ho Hr]. split.
  - intros k y q Hk. destruct (decide (x = y)) as [<-|Hne].
    + destruct (slot_inj s i k x p q Ht Hi Hk) as [<- <-]. rewrite decide_True by lia.
      specialize (Hs i x _ (slot_set_eq s i x p (receive g n p) Hi)). by rewrite decide_False in Hs by lia.
    + specialize (Hs k y q (slot_set_ne s k x y q _ Hk Hne)).
      destruct (decide (i ≤ k < j)), (decide (i + 1 ≤ k < j)); try lia; try done.
      assert (k = i) as -> by lia. destruct (slot_fun s i x y p q Hi Hk). done.
  - intros y Hy. rewrite Ho by done. rewrite procs_set_proc, lookup_insert_ne; [done|].
    intros ->. destruct Hi as [Hi _]. by apply (Hy i).
  - by rewrite Hr.
Qed.

Lemma receive_member g n p ss :
  in_group g p = true → p_signals p = Some ss → receive g n p = set_p_signals (Some (pend n ss)) p.
Proof. intros Hg Hp. unfold receive. by rewrite Hg, Hp. Qed.

(** Sending to a live process, whether or not it has a signal state. *)
Lemma wp_signal_send_live s g i x p n (Q : Z → procs → Prop) :
  table_ok s → slot s i x p → in_group g p = true → 1 ≤ n < NSIG → n ≠ SIGCONT →
  Q 0 (set_proc x (receive g n p) s) → wp (signal_send i n) Q s.
Proof.
  intros Ht Hi Hg Hn Hc HQ. pose proof Hg as [_ Hl]%andb_true_iff.
  assert (i < MAX_PROCESSES) as Hlt.
  { destruct Hi as [Hi _]. apply aget_Some_bounds in Hi. rewrite (tb_len s Ht) in Hi. lia. }
  destruct (p_signals p) as [ss|] eqn:Hp.
  - apply wp_signal_send with x p ss; [done|apply Hi|split; [apply Hi|done]|done|done|done|].
    by rewrite (receive_member g n p ss) in HQ.
  - unfold receive in HQ. rewrite Hg, Hp, set_proc_same in HQ by apply Hi. unfold signal_send.
    rewrite (proj2 (Z.eqb_neq n 0)) by lia. rewrite (proj2 (signal_valid_iff n)) by done. cbn [negb].
    wp_step. apply wp_get_by_pid with (Some x); [done|apply Hi|].
    wp_step. apply wp_rd_proc with p; [apply Hi|]. rewrite Hl, Hp. cbn [negb]. wp_steps.
    rewrite (proj2 (Z.eqb_neq n SIGCONT)) by done. by wp_steps.
Qed.

Lemma receive_pid g n p : p_pid (receive g n p) = p_pid p.
Proof. unfold receive. destruct (in_group g p); [|done]. by destruct (p_signals p). Qed.

Lemma wp_pgrp_send_from n s i g sig count (Q : Z → procs → Prop) :
  table_ok s → 0 ≤ i → i + Z.of_nat n ≤ MAX_PROCESSES → 1 ≤ sig < NSIG → sig ≠ SIGCONT →
  (∀ s', group_signalled g sig i (i + Z.of_nat n) s s' → Q (count + count_members s g n i) s') →
  wp (pgrp_send_from n i g sig count) Q s.
Proof.
  revert s i count Q. induction n as [|n IH]; intros s i count Q Ht Hi Hn Hsig Hcont HQ; cbn [pgrp_send_from].
  { wp_step. replace count with (count + count_members s g 0 i) by (cbn; lia). apply HQ. split; [|done|done].
    intros k x p Hk. rewrite decide_False by lia. done. }
  rewrite Nat2Z.inj_succ in HQ, Hn. cbn [count_members] in HQ.
  replace (i + Z.succ (Z.of_nat n)) with (i + 1 + Z.of_nat n) in HQ by lia.
  assert (∀ (Hno : ∀ x p, slot s i x p → in_group g p = false), is_member s g i = false →
    wp (pgrp_send_from n (i + 1) g sig count) Q s) as Hskip.
  { intros Hno Hm. apply IH; [done|lia|lia|done|done|]. intros s' Hs'. rewrite Hm, Z.add_0_l in HQ. apply HQ.
    apply group_signalled_skip; [|done]. intros x p Hp. unfold receive. by rewrite (Hno x p Hp). }
  destruct (aget_is_Some (pr_table s) i) as [[x|] Ho]; [rewrite (tb_len s Ht); lia| |].
  - destruct (tb_pid s Ht i x Ho) as (p & Hp & _). pose proof (conj Ho Hp : slot s i x p) as Hsl.
    wp_step. apply wp_get_by_pid with (Some x); [lia|done|]. wp_step. apply wp_rd_proc with p; [done|].
    pose proof (is_member_slot s g i x p Hsl) as Hm.
    destruct (in_group g p) eqn:Hg.
    + pose proof Hg as [Hpg Hl]%andb_true_iff. rewrite Hpg, Hl. cbn [negb].
      wp_step. apply wp_signal_send_live with g x p; [done|done|done|done|done|].
      rewrite Z.eqb_refl. apply IH; [|lia|lia|done|done|].
      * apply table_ok_set with p; [done|done|apply receive_pid].
      * intros s' Hs'. rewrite (count_members_set s g n (i + 1) i x p) by (done || lia).
        rewrite <-Z.add_assoc. rewrite Hm in HQ. apply HQ. eapply group_signalled_step; [done|done|lia|done].
    + assert (∀ y q, slot s i y q → in_group g q = false) as Hno.
      { intros y q Hq. destruct (slot_fun s i x y p q Hsl Hq) as [_ <-]. done. }
      unfold in_group in Hg. apply andb_false_iff in Hg as [-> | ->]; cbn [negb]; [by apply Hskip|].
      destruct (negb _); by apply Hskip.
  - wp_step. apply wp_get_by_pid with None; [lia|done|]. apply Hskip; [|by apply is_member_empty].
    intros x p [Hx _]. congruence.
Qed.

(** A signal to a process group, other than SIGCONT, becomes pending for
    exactly the live members of the group; nothing else changes.  The result is
    their number, or ESRCH if there is none. *)
Theorem pgrp_send_signal_correct s g n :
  table_ok s → 1 ≤ n < NSIG → n ≠ SIGCONT →
  wp (pgrp_send_signal g n) (λ r s',
    let members := count_members s g (Z.to_nat MAX_PROCESSES) 0 in
    r = (if 0 <? members then members else - ESRCH) ∧ group_signalled g n 0 MAX_PROCESSES s s') s.
Proof.
  intros Ht Hn Hc. unfold pgrp_send_signal. wp_step. apply wp_pgrp_send_from; [done|lia|done|done|done|].
  intros s' Hs'. by wp_step.
Qed.
