(* ===== verification/SyscallEntry.v ===== *)
(** * The entry to the kernel (syscall/syscall_entry.asm)

    The instructions between a program's SYSCALL and its continuation, over the
    registers of the processor and the words of kernel memory. *)

From stdpp Require Import functions.
From S2P Require Import Prelude UAccess Process ProcSys ProcThm SignalThm.

(** ** The machine *)

Inductive ureg :=
  | R15 | R14 | R13 | R12 | RBP | RBX | R9 | R8 | R10 | RDX | RSI | RDI | RAX | RCX | R11 | RSP
  | RIP | RFLAGS.

#[export] Instance ureg_eq_dec : EqDecision ureg.
Proof. solve_decision. Defined.

Record emach := EMach { em_regs : ureg → Z; em_words : Z → Z; em_procs : procs }.

Definition set_em_procs (x : procs) (e : emach) : emach := EMach (em_regs e) (em_words e) x.

Abbreviation EM := (M emach).

Definition get_reg (r : ureg) : EM Z := gets (λ e, em_regs e r).
Definition set_reg (r : ureg) (v : Z) : EM unit :=
  modify (λ e, EMach (<[r := v]> (em_regs e)) (em_words e) (em_procs e)).
Definition load (a : Z) : EM Z := gets (λ e, em_words e a).
Definition store (a v : Z) : EM unit :=
  modify (λ e, EMach (em_regs e) (<[a := v]> (em_words e)) (em_procs e)).

Definition push (v : Z) : EM unit :=
  rsp ← get_reg RSP; set_reg RSP (rsp -u64 8) ;; store (rsp -u64 8) v.
Definition push_reg (r : ureg) : EM unit := v ← get_reg r; push v.
Definition pop_reg (r : ureg) : EM unit :=
  rsp ← get_reg RSP; v ← load rsp; set_reg RSP (rsp +u64 8) ;; set_reg r v.
Definition add_rsp (n : Z) : EM unit := rsp ← get_reg RSP; set_reg RSP (rsp +u64 n).

(** Sequences of the same instruction. *)
Fixpoint push_regs (rs : list ureg) : EM unit :=
  match rs with [] => mret tt | r :: rs' => push_reg r ;; push_regs rs' end.
Fixpoint pop_regs (rs : list ureg) : EM unit :=
  match rs with [] => mret tt | r :: rs' => pop_reg r ;; pop_regs rs' end.
Fixpoint clear_regs (rs : list ureg) : EM unit :=
  match rs with [] => mret tt | r :: rs' => set_reg r 0 ;; clear_regs rs' end.

(** SYSRET: continue at RCX with the flags of R11. *)
Definition sysret : EM unit :=
  rcx ← get_reg RCX; r11 ← get_reg R11;
  set_reg RIP rcx ;; set_reg RFLAGS (Z.lor (Z.land r11 0x3C7FD7) 2).

(** ** The code *)

Section entry.

(** Addresses that the linker chooses; the dispatcher, which is called with
    the address of the frame in RDI; and what it leaves in the registers that
    a function may change. *)
Variable user_rsp_scratch kernel_syscall_stack_top : Z.
Variable dispatch : syscall_frame → PM (Z * syscall_frame).
Variable leaves : ureg → Z.

Fixpoint load_words (n : nat) (a : Z) : EM (list Z) :=
  match n with
  | O => mret []
  | S n' => w ← load a; ws ← load_words n' (a + 8); mret (w :: ws)
  end.

Fixpoint store_words (a : Z) (ws : list Z) : EM unit :=
  match ws with
  | [] => mret tt
  | w :: ws' => store a w ;; store_words (a + 8) ws'
  end.

Fixpoint leave_regs (rs : list ureg) : EM unit :=
  match rs with [] => mret tt | r :: rs' => set_reg r (leaves r) ;; leave_regs rs' end.

(** [call syscall_dispatch] *)
Definition call_dispatch : EM unit :=
  a ← get_reg RDI;
  ws ← load_words 16 a;
  f ← lift (words_frame ws);
  r ← zoom em_procs set_em_procs (dispatch f);
  store_words a (frame_words r.2) ;;
  leave_regs [RDI; RSI; RDX; RCX; R8; R9; R10; R11] ;;
  set_reg RAX (wrap64 r.1).

Definition syscall_entry : EM unit :=
  rsp ← get_reg RSP; store user_rsp_scratch rsp ;;
  set_reg RSP kernel_syscall_stack_top ;;
  v ← load user_rsp_scratch; push v ;;
  push_regs [R11; RCX; RAX; RDI; RSI; RDX; R10; R8; R9; RBX; RBP; R12; R13; R14; R15] ;;
  rsp ← get_reg RSP; set_reg RDI rsp ;;
  call_dispatch ;;
  pop_regs [R15; R14; R13; R12; RBP; RBX] ;;
  add_rsp 48 ;;
  add_rsp 8 ;;
  pop_reg RCX ;; pop_reg R11 ;; pop_reg RSP ;;
  sysret.

(** [rdi] is the address of the frame of the parent. *)
Definition fork_child_return : EM unit :=
  rdi ← get_reg RDI;
  v ← load (rdi + 96); set_reg RAX v ;;
  v ← load (rdi + 104); set_reg RCX v ;;
  v ← load (rdi + 112); set_reg R11 v ;;
  v ← load (rdi + 120); set_reg RSP v ;;
  clear_regs [RDI; RSI; RDX; R8; R9; R10; RBX; RBP; R12; R13; R14; R15] ;;
  sysret.

End entry.

(** ** Rules *)

Implicit Types (e : emach) (f : syscall_frame).

Lemma wp_get_ureg r e (Q : Z → emach → Prop) : Q (em_regs e r) e → wp (get_reg r) Q e.
Proof. done. Qed.
Lemma wp_set_ureg r v e (Q : unit → emach → Prop) :
  Q tt (EMach (<[r := v]> (em_regs e)) (em_words e) (em_procs e)) → wp (set_reg r v) Q e.
Proof. done. Qed.
Lemma wp_load a e (Q : Z → emach → Prop) : Q (em_words e a) e → wp (load a) Q e.
Proof. done. Qed.
Lemma wp_store a v e (Q : unit → emach → Prop) :
  Q tt (EMach (em_regs e) (<[a := v]> (em_words e)) (em_procs e)) → wp (store a v) Q e.
Proof. done. Qed.

Ltac em_step :=
  lazymatch goal with
  | |- wp (get_reg _) _ _ => apply wp_get_ureg
  | |- wp (set_reg _ _) _ _ => apply wp_set_ureg
  | |- wp (load _) _ _ => apply wp_load
  | |- wp (store _ _) _ _ => apply wp_store
  end.

(** The words [vs] pushed below [p], the first one highest. *)
Fixpoint pushed (p : Z) (vs : list Z) (w : Z → Z) : Z → Z :=
  match vs with
  | [] => w
  | v :: vs' => pushed (p - 8) vs' (<[p - 8 := v]> w)
  end.

Fixpoint stored (a : Z) (vs : list Z) (w : Z → Z) : Z → Z :=
  match vs with
  | [] => w
  | v :: vs' => stored (a + 8) vs' (<[a := v]> w)
  end.

Lemma stored_out a vs w b : b < a ∨ a + 8 * alen vs ≤ b → stored a vs w b = w b.
Proof.
  revert a w. induction vs as [|v vs IH]; intros a w Hb; cbn [stored]; [done|].
  rewrite alen_cons in Hb. pose proof (alen_nonneg vs). rewrite IH by lia. apply fn_lookup_insert_ne. lia.
Qed.

Lemma stored_in a vs w i v : aget vs i = Some v → stored a vs w (a + 8 * i) = v.
Proof.
  revert a w i. induction vs as [|u vs IH]; intros a w i Hi; [by rewrite aget_nil in Hi|]. cbn [stored].
  pose proof (aget_Some_bounds _ _ _ Hi) as Hb. destruct (decide (i = 0)) as [->|Hne].
  - injection Hi as ->. rewrite stored_out by lia. replace (a + 8 * 0) with a by lia. apply fn_lookup_insert.
  - replace i with ((i - 1) + 1) in Hi by lia. rewrite aget_cons_succ in Hi by lia.
    rewrite <-(IH (a + 8) (<[a := u]> w) (i - 1) Hi). f_equal. lia.
Qed.

Lemma pushed_out p vs w b : b < p - 8 * alen vs ∨ p ≤ b → pushed p vs w b = w b.
Proof.
  revert p w. induction vs as [|v vs IH]; intros p w Hb; cbn [pushed]; [done|].
  rewrite alen_cons in Hb. pose proof (alen_nonneg vs). rewrite IH by lia. apply fn_lookup_insert_ne. lia.
Qed.

Lemma pushed_in p vs w i v : aget vs i = Some v → pushed p vs w (p - 8 * (i + 1)) = v.
Proof.
  revert p w i. induction vs as [|u vs IH]; intros p w i Hi; [by rewrite aget_nil in Hi|]. cbn [pushed].
  pose proof (aget_Some_bounds _ _ _ Hi) as Hb. destruct (decide (i = 0)) as [->|Hne].
  - injection Hi as ->. rewrite pushed_out by lia. replace (p - 8 * (0 + 1)) with (p - 8) by lia. apply fn_lookup_insert.
  - replace i with ((i - 1) + 1) in Hi by lia. rewrite aget_cons_succ in Hi by lia.
    rewrite <-(IH (p - 8) (<[p - 8 := u]> w) (i - 1) Hi). f_equal. lia.
Qed.

Lemma pushed_cons p v vs w : pushed p (v :: vs) w = pushed (p - 8) vs (<[p - 8 := v]> w).
Proof. done. Qed.

(** The registers [rs] keep their values in a sequence of pushes. *)
Lemma wp_push_regs rs e p (Q : unit → emach → Prop) :
  em_regs e RSP = p → RSP ∉ rs → 8 * alen rs ≤ p < 2 ^ 64 →
  (∀ g, g RSP = p - 8 * alen rs → (∀ r, r ≠ RSP → g r = em_regs e r) →
    Q tt (EMach g (pushed p (map (em_regs e) rs) (em_words e)) (em_procs e))) →
  wp (push_regs rs) Q e.
Proof.
  revert e p. induction rs as [|r rs IH]; intros e p Hp Hn Hb HQ; cbn [push_regs].
  { wp_step. destruct e as [g w k]. apply HQ; [|done]. change (alen (@nil ureg)) with 0. cbn in *. lia. }
  apply not_elem_of_cons in Hn as [Hr Hn]. rewrite alen_cons in Hb. pose proof (alen_nonneg rs).
  wp_step. unfold push_reg, push. wp_step. apply wp_get_ureg. wp_step. apply wp_get_ureg.
  wp_step. apply wp_set_ureg. apply wp_store. rewrite Hp, wrap_small by lia. cbn [em_regs em_words em_procs].
  apply IH with (p - 8); [cbn [em_regs]; by rewrite fn_lookup_insert|done|lia|]. cbn [em_regs em_words em_procs].
  intros g Hg Hrest. rewrite alen_cons in HQ. cbn [map pushed] in HQ.
  assert (map (<[RSP := p - 8]> (em_regs e)) rs = map (em_regs e) rs) as Hmap.
  { apply map_ext_in. intros r' Hr'. apply fn_lookup_insert_ne. intros <-. apply Hn. by apply list_elem_of_In. }
  rewrite Hmap. apply HQ; [rewrite Hg; lia|]. intros r' Hr'. rewrite Hrest by done. by apply fn_lookup_insert_ne.
Qed.

Lemma wp_load_words ws a e (Q : list Z → emach → Prop) :
  (∀ i v, aget ws i = Some v → em_words e (a + 8 * i) = v) → Q ws e → wp (load_words (length ws) a) Q e.
Proof.
  revert a Q. induction ws as [|w ws IH]; intros a Q Hw HQ; cbn [load_words length]; [done|].
  wp_step. apply wp_load. wp_step. pose proof (Hw 0 w eq_refl) as H0. rewrite Z.mul_0_r, Z.add_0_r in H0.
  apply IH; [|by rewrite H0].
  intros i v Hi. specialize (Hw (i + 1) v). rewrite aget_cons_succ in Hw by (apply aget_Some_bounds in Hi; lia).
  rewrite <-(Hw Hi). f_equal. lia.
Qed.

Lemma wp_store_words ws a e (Q : unit → emach → Prop) :
  Q tt (EMach (em_regs e) (stored a ws (em_words e)) (em_procs e)) → wp (store_words a ws) Q e.
Proof.
  revert a e. induction ws as [|w ws IH]; intros a e HQ; cbn [store_words]; [by destruct e|].
  wp_step. apply wp_store. apply IH. exact HQ.
Qed.

Lemma wp_leave_regs leaves rs e (Q : unit → emach → Prop) :
  (∀ g, (∀ r, r ∈ rs → g r = leaves r) → (∀ r, r ∉ rs → g r = em_regs e r) →
    Q tt (EMach g (em_words e) (em_procs e))) → wp (leave_regs leaves rs) Q e.
Proof.
  revert e. induction rs as [|r rs IH]; intros e HQ; cbn [leave_regs].
  { wp_step. destruct e. by apply HQ; [intros r Hr; apply elem_of_nil in Hr|]. }
  wp_step. apply wp_set_ureg. apply IH. cbn [em_regs em_words em_procs]. intros g Hg Hrest. apply HQ.
  - intros r' [->|Hr']%elem_of_cons; [|by apply Hg].
    destruct (decide (r ∈ rs)); [by apply Hg|]. rewrite Hrest by done. apply fn_lookup_insert.
  - intros r' [Hne Hn]%not_elem_of_cons. rewrite Hrest by done. by apply fn_lookup_insert_ne.
Qed.

Lemma wp_pop_regs rs e p ws (Q : unit → emach → Prop) :
  em_regs e RSP = p → RSP ∉ rs → NoDup rs → 0 ≤ p → p + 8 * alen rs < 2 ^ 64 → length ws = length rs →
  (∀ i v, aget ws i = Some v → em_words e (p + 8 * i) = v) →
  (∀ g, g RSP = p + 8 * alen rs → (∀ r v, (r, v) ∈ zip rs ws → g r = v) →
        (∀ r, r ≠ RSP → r ∉ rs → g r = em_regs e r) → Q tt (EMach g (em_words e) (em_procs e))) →
  wp (pop_regs rs) Q e.
Proof.
  revert e p ws. induction rs as [|r rs IH]; intros e p [|w ws] Hp Hn Hnd H0 Hb Hlen Hw HQ; try done; cbn [pop_regs].
  { wp_step. destruct e as [g m k]. apply HQ; [|by intros r v Hv%elem_of_nil|done].
    change (alen (@nil ureg)) with 0. cbn in *. lia. }
  apply not_elem_of_cons in Hn as [Hr Hn]. apply NoDup_cons in Hnd as [Hrn Hnd].
  rewrite alen_cons in Hb. pose proof (alen_nonneg rs). pose proof (Hw 0 w eq_refl) as Hw0.
  rewrite Z.mul_0_r, Z.add_0_r in Hw0.
  wp_step. unfold pop_reg. wp_step. apply wp_get_ureg. wp_step. apply wp_load. wp_step. apply wp_set_ureg.
  apply wp_set_ureg. rewrite Hp, wrap_small, Hw0 by lia. cbn [em_regs em_words em_procs].
  apply IH with (p + 8) ws; [|done|done|lia|lia|by injection Hlen| |].
  - cbn. rewrite fn_lookup_insert_ne by done. by rewrite fn_lookup_insert.
  - intros i v Hi. specialize (Hw (i + 1) v). rewrite aget_cons_succ in Hw by (apply aget_Some_bounds in Hi; lia).
    cbn. rewrite <-(Hw Hi). f_equal. lia.
  - cbn [em_regs em_words em_procs]. intros g Hg Hzip Hrest. rewrite alen_cons in HQ. apply HQ; [rewrite Hg; lia| |].
    + intros r' v [[= -> ->]|Hv]%elem_of_cons; [|by apply Hzip].
      rewrite Hrest by done. apply fn_lookup_insert.
    + intros r' Hr1 [Hr2 Hr3]%not_elem_of_cons. rewrite Hrest by done. by rewrite !fn_lookup_insert_ne.
Qed.

(** ** A system call *)

(** The frame that the entry code builds from the registers. *)
Definition entry_frame (g : ureg → Z) : syscall_frame :=
  SyscallFrame (g R15) (g R14) (g R13) (g R12) (g RBP) (g RBX) (g R9) (g R8) (g R10) (g RDX) (g RSI) (g RDI)
    (g RAX) (g RCX) (g R11) (g RSP).

(** The registers of the program after the call with the result [r], which is
    the value of the call and the frame it left. *)
Record returned (leaves : ureg → Z) (r : Z * syscall_frame) (g : ureg → Z) : Prop := Returned {
  rt_rip : g RIP = f_rcx r.2;
  rt_flags : g RFLAGS = Z.lor (Z.land (f_r11 r.2) 0x3C7FD7) 2;
  rt_rsp : g RSP = f_rsp r.2;
  rt_rax : g RAX = wrap64 r.1;
  rt_saved : [g RBX; g RBP; g R12; g R13; g R14; g R15] =
             [f_rbx r.2; f_rbp r.2; f_r12 r.2; f_r13 r.2; f_r14 r.2; f_r15 r.2];
  rt_args : ∀ a, a ∈ [RDI; RSI; RDX; R10; R8; R9] → g a = leaves a }.

Lemma aget_reverse {A} (l : list A) i v : aget (reverse l) i = Some v → aget l (alen l - 1 - i) = Some v.
Proof.
  intros Hi. pose proof (aget_Some_bounds _ _ _ Hi) as Hb. unfold alen in Hb. rewrite length_reverse in Hb.
  unfold aget, alen in *. rewrite decide_True in Hi by lia. rewrite decide_True by lia. rewrite reverse_lookup in Hi by lia.
  rewrite <-Hi. f_equal. lia.
Qed.

(** A decidable fact about concrete registers; the registers of a list. *)
Ltac by_regs := apply (bool_decide_unpack _); vm_compute; exact I.
Ltac reg_cases H := rewrite !elem_of_cons, elem_of_nil in H; repeat (destruct H as [->|H]); [..|destruct H].

Lemma wp_call_dispatch dispatch leaves e a f (Q : unit → emach → Prop) :
  em_regs e RDI = a → (∀ i v, aget (frame_words f) i = Some v → em_words e (a + 8 * i) = v) →
  wp (dispatch f) (λ r k, ∀ g,
    (∀ x, x ∈ [RDI; RSI; RDX; RCX; R8; R9; R10; R11] → g x = leaves x) → g RAX = wrap64 r.1 →
    (∀ x, x ∉ [RDI; RSI; RDX; RCX; R8; R9; R10; R11] → x ≠ RAX → g x = em_regs e x) →
    Q tt (EMach g (stored a (frame_words r.2) (em_words e)) k)) (em_procs e) →
  wp (call_dispatch dispatch leaves) Q e.
Proof.
  intros Ha Hw Hd. unfold call_dispatch. wp_step. apply wp_get_ureg. rewrite Ha.
  wp_step. apply (wp_load_words (frame_words f)); [done|].
  wp_step. apply wp_lift with f; [apply words_frame_words|].
  wp_step. apply wp_zoom. eapply wp_mono; [exact Hd|]. intros r k HQ. cbv beta in HQ.
  wp_step. apply wp_store_words. wp_step. apply wp_leave_regs. cbn [em_regs em_words em_procs set_em_procs].
  intros g Hg Hrest. apply wp_set_ureg. cbn [em_regs em_words em_procs]. apply HQ.
  - intros x Hx. rewrite fn_lookup_insert_ne; [by apply Hg|]. intros <-. revert Hx. by_regs.
  - apply fn_lookup_insert.
  - intros x Hx Hne. rewrite fn_lookup_insert_ne by done. by apply Hrest.
Qed.

Lemma wp_pop_at r e p v (Q : unit → emach → Prop) :
  em_regs e RSP = p → em_words e p = v → 0 ≤ p → p + 8 < 2 ^ 64 →
  Q tt (EMach (<[r := v]> (<[RSP := p + 8]> (em_regs e))) (em_words e) (em_procs e)) → wp (pop_reg r) Q e.
Proof.
  intros Hp Hv H0 Hb HQ. unfold pop_reg. wp_step. apply wp_get_ureg. wp_step. apply wp_load. wp_step.
  apply wp_set_ureg. apply wp_set_ureg. rewrite Hp, Hv, wrap_small by lia. exact HQ.
Qed.

Lemma wp_add_rsp n e p (Q : unit → emach → Prop) :
  em_regs e RSP = p → 0 ≤ p + n < 2 ^ 64 →
  Q tt (EMach (<[RSP := p + n]> (em_regs e)) (em_words e) (em_procs e)) → wp (add_rsp n) Q e.
Proof.
  intros Hp Hb HQ. unfold add_rsp. wp_step. apply wp_get_ureg. apply wp_set_ureg. rewrite Hp, wrap_small by lia. exact HQ.
Qed.

(** Reading registers after a sequence of updates. *)
Ltac regs := cbn [em_regs em_words em_procs]; repeat first [rewrite fn_lookup_insert | rewrite fn_lookup_insert_ne by done].

(** The way back to the program, from a frame at [a]. *)
Lemma wp_leave_kernel e a f (Q : unit → emach → Prop) :
  em_regs e RSP = a → 0 ≤ a → a + 128 + 8 < 2 ^ 64 →
  (∀ i v, aget (frame_words f) i = Some v → em_words e (a + 8 * i) = v) →
  (∀ g, g RIP = f_rcx f → g RFLAGS = Z.lor (Z.land (f_r11 f) 0x3C7FD7) 2 → g RSP = f_rsp f →
    [g RBX; g RBP; g R12; g R13; g R14; g R15] = [f_rbx f; f_rbp f; f_r12 f; f_r13 f; f_r14 f; f_r15 f] →
    (∀ x, x ∈ [RAX; RDI; RSI; RDX; R10; R8; R9] → g x = em_regs e x) →
    Q tt (EMach g (em_words e) (em_procs e))) →
  wp (pop_regs [R15; R14; R13; R12; RBP; RBX] ;; add_rsp 48 ;; add_rsp 8 ;;
      pop_reg RCX ;; pop_reg R11 ;; pop_reg RSP ;; sysret) Q e.
Proof.
  intros Ha H0 Hb Hw HQ. wp_step.
  apply wp_pop_regs with a [f_r15 f; f_r14 f; f_r13 f; f_r12 f; f_rbp f; f_rbx f];
    [done|by_regs|by_regs|done|change (alen _) with 6; lia|done| |].
  { intros i v Hi. apply Hw. change (frame_words f) with
      ([f_r15 f; f_r14 f; f_r13 f; f_r12 f; f_rbp f; f_rbx f] ++ drop 6 (frame_words f)).
    rewrite aget_app_l; [done|]. by apply aget_Some_bounds in Hi. }
  intros g Hg Hzip Hrest. change (alen [R15; R14; R13; R12; RBP; RBX]) with 6 in Hg.
  wp_step. apply (wp_add_rsp 48 _ (a + 48)); [cbn; lia|lia|].
  wp_step. apply (wp_add_rsp 8 _ (a + 96)); [regs; lia|lia|].
  wp_step. apply (wp_pop_at RCX _ (a + 104) (f_rcx f)); [regs; lia|apply (Hw 13); done|lia|lia|].
  wp_step. apply (wp_pop_at R11 _ (a + 112) (f_r11 f)); [regs; lia|apply (Hw 14); done|lia|lia|].
  wp_step. apply (wp_pop_at RSP _ (a + 120) (f_rsp f)); [regs; lia|apply (Hw 15); done|lia|lia|].
  unfold sysret. wp_step. apply wp_get_ureg. wp_step. apply wp_get_ureg. wp_step. apply wp_set_ureg. apply wp_set_ureg.
  regs. apply HQ; regs; [done|done|done| |].
  - rewrite (Hzip RBX (f_rbx f)), (Hzip RBP (f_rbp f)), (Hzip R12 (f_r12 f)), (Hzip R13 (f_r13 f)),
      (Hzip R14 (f_r14 f)), (Hzip R15 (f_r15 f)) by (cbn [zip zip_with]; rewrite !elem_of_cons; tauto). done.
  - intros x Hx. reg_cases Hx; regs; (apply Hrest; by_regs).
Qed.

Section call.
Context (scratch top : Z) (dispatch : syscall_frame → PM (Z * syscall_frame)) (leaves : ureg → Z).
Context (Htop : 256 ≤ top < 2 ^ 64 - 8).

(** A system call, as a rule: what the dispatcher does with the frame of the
    registers decides what the program continues with. *)
Lemma wp_syscall_entry e (Q : unit → emach → Prop) :
  wp (dispatch (entry_frame (em_regs e))) (λ r k,
    ∀ g w, returned leaves r g → Q tt (EMach g w k)) (em_procs e) →
  wp (syscall_entry scratch top dispatch leaves) Q e.
Proof.
  intros Hd. unfold syscall_entry. wp_step. apply wp_get_ureg. wp_step. apply wp_store.
  wp_step. apply wp_set_ureg. wp_step. apply wp_load. regs. set (w0 := <[scratch := em_regs e RSP]> (em_words e)).
  unfold push at 1. wp_step. wp_step. apply wp_get_ureg. regs. wp_step. apply wp_set_ureg. apply wp_store.
  rewrite wrap_small by lia. regs. wp_step.
  apply wp_push_regs with (top - 8); [regs; done|by_regs|change (alen _) with 15; lia|]. regs.
  change (alen [R11; RCX; RAX; RDI; RSI; RDX; R10; R8; R9; RBX; RBP; R12; R13; R14; R15]) with 15.
  intros g1 Hg1 Hrest1. wp_step. apply wp_get_ureg. wp_step. apply wp_set_ureg. regs.
  assert (∀ x, x ≠ RSP → g1 x = em_regs e x) as Hg1'.
  { intros x Hx. rewrite Hrest1 by done. by rewrite !fn_lookup_insert_ne. }
  cbn [map]. regs. rewrite <-pushed_cons.
  match goal with |- context [pushed top ?l _] => set (vs := l) end. wp_step.
  apply wp_call_dispatch with (top - 128) (entry_frame (em_regs e)); [regs; lia| |].
  { cbn [em_words]. intros i v Hi. change (frame_words _) with (reverse vs) in Hi.
    pose proof (aget_Some_bounds _ _ _ Hi) as Hb. change (alen (reverse vs)) with 16 in Hb.
    apply aget_reverse in Hi. change (alen vs) with 16 in Hi.
    rewrite <-(pushed_in top vs w0 _ v Hi). f_equal. lia. }
  cbn [em_regs em_words em_procs]. eapply wp_mono; [exact Hd|]. intros r k HQ g Hargs Hrax Hkeep. cbv beta in HQ.
  apply wp_leave_kernel with (top - 128) r.2; [|lia|lia| |].
  - cbn [em_regs]. rewrite Hkeep by by_regs. regs. lia.
  - cbn [em_words]. intros i v Hi. by apply stored_in.
  - cbn [em_regs em_words em_procs]. intros g' Hrip Hfl Hrsp Hsaved Hothers. apply HQ. split; [done..| |done|].
    + rewrite Hothers by by_regs. done.
    + intros x Hx. reg_cases Hx; (rewrite Hothers by by_regs; apply Hargs; by_regs).
Qed.

(** C29. A system call keeps the program's context.  If the dispatcher returns
    with the frame as it got it, the program continues after its SYSCALL
    instruction with its stack pointer and its callee-saved registers, with its
    flags as SYSRET masks them and with the result in RAX; and the dispatcher
    saw exactly the registers of the program. *)
Theorem syscall_entry_preserves e result k :
  wp (dispatch (entry_frame (em_regs e)))
    (λ r k', r = (result, entry_frame (em_regs e)) ∧ k' = k) (em_procs e) →
  wp (syscall_entry scratch top dispatch leaves) (λ _ e',
    em_procs e' = k ∧
    em_regs e' RAX = wrap64 result ∧
    em_regs e' RIP = em_regs e RCX ∧
    em_regs e' RFLAGS = Z.lor (Z.land (em_regs e R11) 0x3C7FD7) 2 ∧
    ∀ x, x ∈ [RSP; RBX; RBP; R12; R13; R14; R15] → em_regs e' x = em_regs e x) e.
Proof.
  intros Hd. apply wp_syscall_entry. eapply wp_mono; [exact Hd|]. intros r k' [-> ->] g w [Hrip Hfl Hrsp Hrax Hsaved _].
  cbn in Hrip, Hfl, Hrsp, Hrax, Hsaved. injection Hsaved as H1 H2 H3 H4 H5 H6.
  split; [done|]. split; [done|]. split; [done|]. split; [done|]. intros x Hx. cbn [em_regs].
  rewrite !elem_of_cons, elem_of_nil in Hx. intuition congruence.
Qed.

End call.

(** The number of a delivered signal does not reach its handler.  A system
    call that only computes a result, made by a process with a signal to
    deliver to a handler, continues at the handler with the result in RAX; RDI,
    where the handler expects the signal number, holds what the dispatcher
    happened to leave there, because the entry code does not load RDI from the
    frame. *)
Theorem handler_argument_lost scratch top table fork execve leaves e x p ss n a h v :
  256 ≤ top < 2 ^ 64 - 8 →
  let f := entry_frame (em_regs e) in
  f_rax f < SYS_MAX → f_rax f ≠ SYS_FORK → f_rax f ≠ SYS_EXECVE → f_rax f ≠ SYS_SIGRETURN →
  aget table (f_rax f) = Some (Some h) →
  wp (h (f_rdi f) (f_rsi f) (f_rdx f) (f_r10 f) (f_r8 f) (f_r9 f)) (λ r k, r = v ∧ k = em_procs e) (em_procs e) →
  running_as (em_procs e) x p ss → next_signal ss n → aget (ss_actions ss) n = Some a →
  sa_handler a ≠ SIG_DFL → sa_handler a ≠ SIG_IGN →
  frame_room (pr_user (em_procs e)) (signal_frame_addr (f_rsp f)) →
  wp (syscall_entry scratch top (syscall_dispatch table fork execve) leaves) (λ _ e',
    em_regs e' RIP = sa_handler a ∧
    em_regs e' RSP = signal_frame_addr (f_rsp f) + OFFSETOF_TRAMPOLINE ∧
    em_regs e' RAX = wrap64 v ∧
    em_regs e' RDI = leaves RDI) e.
Proof.
  intros Htop f Hmax Hfork Hexec Hsig Htab Hh Hr Hn Ha Hdfl Hign Hroom.
  apply wp_syscall_entry; [done|]. fold f. unfold syscall_dispatch. cbv zeta.
  rewrite (proj2 (Z.leb_gt SYS_MAX (f_rax f))) by done.
  rewrite (proj2 (Z.eqb_neq _ SYS_FORK)), (proj2 (Z.eqb_neq _ SYS_EXECVE)), (proj2 (Z.eqb_neq _ SYS_SIGRETURN)) by done.
  wp_step. apply wp_lift with (Some h); [done|]. cbn [default]. wp_step.
  eapply wp_mono; [exact Hh|]. intros r k [-> ->]. unfold finish_syscall. wp_step.
  apply wp_deliver with x p ss n a; [done..|]. wp_step. intros g w [Hrip _ Hrsp Hrax _ Hargs].
  split; [done|]. split; [done|]. split; [done|]. apply Hargs. by_regs.
Qed.

(** The child of a fork gets zeros in the registers that a system call must
    preserve. *)
Theorem fork_child_loses_registers e f :
  (∀ i v, aget (frame_words f) i = Some v → em_words e (em_regs e RDI + 8 * i) = v) →
  wp fork_child_return (λ _ e',
    em_regs e' RIP = f_rcx f ∧ em_regs e' RSP = f_rsp f ∧ em_regs e' RAX = f_rax f ∧
    ∀ x, x ∈ [RBX; RBP; R12; R13; R14; R15] → em_regs e' x = 0) e.
Proof.
  intros Hw. unfold fork_child_return, sysret. cbn [clear_regs].
  repeat first [wp_step | em_step; cbn [em_regs em_words em_procs]].
  assert (em_words e (em_regs e RDI + 96) = f_rax f) as H12 by (by apply (Hw 12)).
  assert (em_words e (em_regs e RDI + 104) = f_rcx f) as H13 by (by apply (Hw 13)).
  assert (em_words e (em_regs e RDI + 120) = f_rsp f) as H15 by (by apply (Hw 15)).
  regs. split; [done|]. split; [done|]. split; [done|]. intros x Hx. reg_cases Hx; by regs.
Qed.
