(* ===== verification/ProcDemo.v ===== *)
(** * Processes, signals and system calls: concrete runs

    Two processes, a parent and its child, to which the theorems on signals,
    identities, groups, limits and the entry code are applied. *)

From S2P Require Import Prelude CString CStringThm UAccess Sched Process ProcSys ProcThm SignalThm ProcTable Creds Sessions SyscallEntry.

(** ** The processes *)

Definition no_sched : sched :=
  Sched ∅ [] 1 (RunQ None None None None 0) [] false 1 0 false 0 0 100 (λ _, 0) (λ _, 0).

Definition dfl : sigaction := SigAction SIG_DFL 0 0 0 0.
Definition caught : sigaction := SigAction 0x4000 0 0 0 0.

(** All actions default but that of SIGUSR1. *)
Definition demo_actions : list sigaction := aset (replicate 32 dfl) SIGUSR1 caught.
Definition no_signals : signal_state := SignalState 0 0 demo_actions.

Definition limits16 : list rlimit := replicate 16 (RLimit 1024 4096).

Definition demo_proc (pid parent pgrp session uid : Z) (ss : signal_state) : process_t :=
  Process pid [] PROC_RUNNING parent pgrp session 0 0 None (Some ss) 18 uid uid uid uid uid uid 0 0 false false limits16.

Definition parent_at : Z := 0x1000.
Definition child_at : Z := 0x2000.
Definition parent : process_t := demo_proc 1 0 1 1 0 no_signals.
Definition child (ss : signal_state) : process_t := demo_proc 2 1 1 1 1000 ss.

Definition demo_table : list (option Z) := [None; Some parent_at; Some child_at] ++ replicate 253 None.

(** The memory: a stack from 0x8E00 to 0x9000, data of the program from 0x2000,
    and four bytes of the kernel. *)
Definition stack_mem : bytes := CStringThm.store ∅ 0x8E00 (replicate 512 0).
Definition data_mem (l : list Z) : bytes := CStringThm.store stack_mem 0x2000 l.

Definition demo (ss : signal_state) (m : bytes) : procs :=
  Procs (<[parent_at := parent]> (<[child_at := child ss]> ∅)) demo_table 3 (Some child_at) no_sched m.

Lemma demo_table_ok ss m : table_ok (demo ss m).
Proof.
  split; [done|]. intros i x Hi. cbn [pr_table demo] in Hi.
  assert (i = 1 ∧ x = parent_at ∨ i = 2 ∧ x = child_at) as [[-> ->]|[-> ->]].
  { pose proof (aget_Some_bounds _ _ _ Hi) as Hb. change (alen demo_table) with 256 in Hb.
    unfold demo_table in Hi. unfold aget in Hi. rewrite decide_True in Hi by lia.
    destruct (decide (i < 3)) as [Hlt|Hge].
    - assert (i = 0 ∨ i = 1 ∨ i = 2) as [->|[->| ->]] by lia; cbn in Hi; [done|left|right]; by injection Hi.
    - rewrite lookup_app_r in Hi by (cbn; lia). cbn [length] in Hi. by apply lookup_replicate in Hi as [Hi _]. }
  - by exists parent.
  - by exists (child ss).
Qed.

Lemma child_running ss m : running_as (demo ss m) child_at (child ss) ss.
Proof. done. Qed.

Lemma demo_child ss m : slot (demo ss m) 2 child_at (child ss).
Proof. done. Qed.

Lemma demo_parent ss m : slot (demo ss m) 1 parent_at parent.
Proof. done. Qed.

(** ** The frame of a call *)

Definition demo_frame : syscall_frame :=
  SyscallFrame 15 14 13 12 11 10 9 8 7 6 5 4 39 0x5000 0x202 0x9000.

Lemma demo_frame_addr : signal_frame_addr (f_rsp demo_frame) = 0x8EE0.
Proof. done. Qed.

Lemma stack_mapped l : frame_room (data_mem l) 0x8EE0.
Proof.
  split; [lia|]. apply mapped_store. intros y Hy. unfold SIZEOF_SIGNAL_FRAME in Hy.
  apply (block_mapped _ 0x8E00 (replicate 512 0)); [apply block_store|]. change (alen (replicate 512 0)) with 512. lia.
Qed.

Lemma demo_frame_words : Forall word64 (frame_words demo_frame).
Proof.
  unfold frame_words. repeat (apply Forall_cons_2; [unfold word64, demo_frame; cbn; lia|]). apply Forall_nil_2.
Qed.

(** SIGUSR1 is pending. *)
Definition usr1 : signal_state := pend SIGUSR1 no_signals.

Lemma usr1_next : next_signal usr1 SIGUSR1.
Proof. apply next_signal_pend; [unfold SIGUSR1, NSIG; lia|done|done]. Qed.

Lemma usr1_action : aget (ss_actions usr1) SIGUSR1 = Some caught.
Proof. done. Qed.

Lemma room0 : frame_room (pr_user (demo usr1 (data_mem []))) (signal_frame_addr (f_rsp demo_frame)).
Proof. rewrite demo_frame_addr. apply stack_mapped. Qed.

Lemma signal_delivery_roundtrip_witness :
  wp (signal_deliver_pending demo_frame) (λ r s1,
    r.1 = true ∧ f_rcx r.2 = 0x4000 ∧ f_rdi r.2 = SIGUSR1 ∧
    ∀ g s2 p2 ss2,
      running_as s2 child_at p2 ss2 → f_rsp g = f_rsp r.2 →
      untouched 0x8EE0 (f_rsp r.2) (pr_user s1) (pr_user s2) →
      wp (sys_sigreturn_impl g) (λ r2 s3,
        r2 = (39, demo_frame) ∧ s3 = set_signals child_at p2 (set_blocked 0 ss2) s2) s2) (demo usr1 (data_mem [])).
Proof.
  exact (signal_delivery_roundtrip (demo usr1 (data_mem [])) child_at (child usr1) usr1 demo_frame SIGUSR1 caught
    (child_running _ _) usr1_next usr1_action ltac:(done) ltac:(done) room0 demo_frame_words
    ltac:(cbn; unfold word64; lia)).
Defined.

Lemma sigreturn_after_handler_witness :
  wp (signal_deliver_pending demo_frame) (λ r s1,
    wp (in_user (rd_word (f_rsp r.2))) (λ ret _, ret = f_rsp r.2) s1) (demo usr1 (data_mem [])).
Proof.
  eapply wp_mono.
  - exact (sigreturn_after_handler (demo usr1 (data_mem [])) child_at (child usr1) usr1 demo_frame SIGUSR1 caught
      (child_running _ _) usr1_next usr1_action ltac:(done) ltac:(done) room0 demo_frame_words
      ltac:(cbn; unfold word64; lia)).
  - intros r s1 [H _]. exact H.
Defined.

(** ** Signals that must not be caught *)

Lemma demo_kill_ok : kill_ok child_at (demo no_signals stack_mem).
Proof.
  exists (child no_signals), no_signals. split; [apply child_running|]. split; [done|].
  intros n Hn [->| ->]%catchable_iff; (split; [done|]); by exists dfl.
Qed.

Lemma signal_api_keeps_kill_witness :
  wp (run_signal_calls [CSet SIGKILL 0x4000; CProcmask SIG_SETMASK (Some (2 ^ 64 - 1)); CPending])
    (λ _ s', kill_ok child_at s') (demo no_signals stack_mem).
Proof. exact (signal_api_keeps_kill child_at _ _ demo_kill_ok). Defined.

(** The program blocks SIGKILL, signal 9. *)
Lemma sys_sigprocmask_correct_witness :
  wp (sys_sigprocmask SIG_SETMASK 0x2000 0) (λ r s',
    r = 0 ∧ ∃ ss', s' = set_signals child_at (child no_signals) ss' (demo no_signals (data_mem (le_bytes 8 0x100))) ∧
    sigismember (ss_blocked ss') SIGKILL = true) (demo no_signals (data_mem (le_bytes 8 0x100))).
Proof.
  eapply wp_mono.
  - apply (sys_sigprocmask_correct (demo no_signals (data_mem (le_bytes 8 0x100))) child_at (child no_signals)
      no_signals SIG_SETMASK 0x2000 0x100 (child_running _ _)); [unfold SIG_SETMASK; lia| | |unfold word64; lia].
    + unfold in_user_space, USER_ADDR_MAX. lia.
    + apply block_store.
  - intros r s' (-> & ss' & -> & _ & _ & Hb). split; [done|]. exists ss'. split; [done|].
    rewrite Hb by (unfold SIGKILL, NSIG; lia). done.
Defined.

Definition kill_demo : procs := demo no_signals (data_mem (encode_action caught)).

Lemma sigkill_caught_witness :
  wp (r1 ← sys_sigaction SIGKILL 0x2000 0; r2 ← sys_kill 2 SIGKILL; r3 ← signal_deliver_pending demo_frame;
      mret (r1, r2, r3)) (λ r s',
    r.1.1 = 0 ∧ r.1.2 = 0 ∧ r.2.1 = true ∧ f_rcx r.2.2 = 0x4000 ∧
    ∃ p', pr_procs s' !! child_at = Some p' ∧ p_state p' = PROC_RUNNING) kill_demo.
Proof.
  apply (sigkill_caught kill_demo child_at (child no_signals) no_signals 2 0x2000 caught demo_frame (child_running _ _));
    [done|unfold MAX_PROCESSES; lia|done|done|done|done|done| | | |done|done|].
  - unfold in_user_space, USER_ADDR_MAX, SIZEOF_SIGACTION. lia.
  - apply block_store.
  - split; cbn; unfold word64; lia.
  - rewrite demo_frame_addr. apply stack_mapped.
Defined.

(** ** Death by a signal *)

Definition term : signal_state := pend 15 no_signals.

Lemma death_by_signal_witness :
  wp (signal_deliver_pending demo_frame) (λ r s1,
    r = (false, demo_frame) ∧
    (∃ p', slot s1 2 child_at p' ∧ p_state p' = PROC_ZOMBIE ∧ p_exit_code p' = 143) ∧
    wp (sys_wait4 (λ _, mret tt) (mret tt) 1 2 0x2000 0) (λ v s3,
      v = 2 ∧ pr_user s3 = CStringThm.store (data_mem [0; 0; 0; 0]) 0x2000 [15; 0; 0; 0]) (set_pr_current (Some parent_at) s1))
    (demo term (data_mem [0; 0; 0; 0])).
Proof.
  eapply wp_mono.
  - apply (death_by_signal (demo term (data_mem [0; 0; 0; 0])) child_at (child term) term parent_at parent no_signals
      15 dfl dfl demo_frame (demo_table_ok _ _) (child_running _ _) (demo_child _ _));
      [unfold MAX_PROCESSES; cbn; lia| |done|done|by left|apply demo_parent|done|done|done|done].
    apply next_signal_pend; [unfold NSIG; lia|done|done].
  - intros r s1 (-> & (p' & Hp) & _ & Hwait). split; [done|]. split; [by exists p'|].
    apply (Hwait (λ _, mret tt) (mret tt) O 0x2000 0).
    + unfold in_user_space, USER_ADDR_MAX. lia.
    + apply (block_mapped _ 0x2000 [0; 0; 0; 0]), block_store.
    + by wp_step.
Defined.

(** ** Identities, groups and limits *)

Lemma unprivileged_ids_confined_witness :
  wp (run_id_calls [SetUid 0; SetResuid 0 1000 0; SetGid 0]) (λ _ s',
    ∃ q, s' = set_proc child_at q (demo no_signals stack_mem) ∧ confined (child no_signals) q ∧ p_euid q ≠ 0)
    (demo no_signals stack_mem).
Proof.
  apply (unprivileged_ids_confined [SetUid 0; SetResuid 0 1000 0; SetGid 0] (demo no_signals stack_mem) child_at
    (child no_signals)); [done|done| |].
  2: { unfold ids32, uids, gids. cbn [app]. repeat (apply Forall_cons_2; [cbn; lia|]). apply Forall_nil_2. }
  unfold uids. cbn. rewrite elem_of_three. lia.
Defined.

Lemma demo_slots ss m i x p : slot (demo ss m) i x p → x = parent_at ∧ p = parent ∨ x = child_at ∧ p = child ss.
Proof.
  intros [Hi Hx]. cbn [pr_procs demo] in Hx. apply lookup_insert_Some in Hx as [[<- <-]|[_ Hx]]; [by left|].
  apply lookup_insert_Some in Hx as [[<- <-]|[_ Hx]]; [by right|done].
Qed.

Lemma demo_sessions ss m : sessions_ok (demo ss m).
Proof.
  split.
  - intros i j x y p q [[_ ->]|[_ ->]]%demo_slots [[_ ->]|[_ ->]]%demo_slots; done.
  - intros i x y p q [[_ ->]|[_ ->]]%demo_slots [[_ ->]|[_ ->]]%demo_slots; done.
Qed.


Lemma pgrp_send_signal_correct_witness :
  wp (pgrp_send_signal 1 SIGUSR1) (λ r s',
    r = 2 ∧ group_signalled 1 SIGUSR1 0 MAX_PROCESSES (demo no_signals stack_mem) s') (demo no_signals stack_mem).
Proof.
  apply (pgrp_send_signal_correct (demo no_signals stack_mem) 1 SIGUSR1 (demo_table_ok _ _)); [unfold SIGUSR1, NSIG; lia|done].
Defined.

Lemma rlimit_set_get_witness :
  let new := RLimit 512 2048 in
  wp (a ← sys_setrlimit 7 0x2000; b ← sys_getrlimit 7 0x2000; mret (a, b)) (λ ab s',
    ab = (0, 0) ∧ block (pr_user s') 0x2000 (encode_rlimit new)) (demo no_signals (data_mem (encode_rlimit new))).
Proof.
  intros new. eapply wp_mono.
  - apply (rlimit_set_get (demo no_signals (data_mem (encode_rlimit new))) child_at (child no_signals) 7 0x2000 0x2000
      (RLimit 1024 4096) new); [done|done|unfold RLIM_NLIMITS; lia|done| | | | | |].
    + apply Forall_replicate. cbn. lia.
    + unfold in_user_space, USER_ADDR_MAX, SIZEOF_RLIMIT. lia.
    + apply block_store.
    + split; cbn; unfold word64; lia.
    + unfold in_user_space, USER_ADDR_MAX, SIZEOF_RLIMIT. lia.
    + apply (block_mapped _ 0x2000 (encode_rlimit new)), block_store.
  - intros ab s' (-> & _ & Hb & _). split; [done|]. exact Hb.
Defined.

Lemma getresuid_writes_anywhere_witness :
  let m := CStringThm.store ∅ 0xFFFF800000000000 [1; 1; 1; 1] in
  access_ok 0xFFFF800000000000 4 = false ∧
  wp (sys_getresuid 0xFFFF800000000000 0 0) (λ r s',
    r = 0 ∧ pr_user s' = CStringThm.store m 0xFFFF800000000000 [232; 3; 0; 0]) (demo no_signals m).
Proof.
  intros m. apply (getresuid_writes_anywhere (demo no_signals m) child_at (child no_signals) 0xFFFF800000000000);
    [done|done|unfold USER_ADDR_MAX; lia|].
  apply (block_mapped _ 0xFFFF800000000000 [1; 1; 1; 1]), block_store.
Defined.

(** ** The entry code *)

Definition demo_regs (r : ureg) : Z := match r with SyscallEntry.RSP => 0x9000 | SyscallEntry.RAX => 39 | _ => 5 end.
Definition demo_mach (ss : signal_state) : emach := EMach demo_regs (λ _, 0) (demo ss (data_mem [])).

(** A table with getpid as call 39. *)
Definition demo_calls : list (option syscall_handler) :=
  aset (replicate 256 None) 39 (Some (λ _ _ _ _ _ _, sys_getpid)).

Lemma syscall_entry_preserves_witness :
  wp (syscall_entry 0x100 0x10000 (λ f, mret (2, f)) (λ _, 77)) (λ _ e',
    em_procs e' = demo no_signals (data_mem []) ∧ em_regs e' SyscallEntry.RAX = 2 ∧ em_regs e' SyscallEntry.RIP = 5 ∧
    em_regs e' SyscallEntry.RFLAGS = 7 ∧
    ∀ x, x ∈ [SyscallEntry.RSP; SyscallEntry.RBX; SyscallEntry.RBP; SyscallEntry.R12; SyscallEntry.R13;
              SyscallEntry.R14; SyscallEntry.R15] → em_regs e' x = demo_regs x) (demo_mach no_signals).
Proof.
  apply (syscall_entry_preserves 0x100 0x10000 (λ f, mret (2, f)) (λ _, 77) ltac:(lia) (demo_mach no_signals) 2
    (demo no_signals (data_mem []))). by wp_step.
Defined.

Lemma handler_argument_lost_witness :
  wp (syscall_entry 0x100 0x10000 (syscall_dispatch demo_calls (λ _, fault) (λ _, fault)) (λ _, 77)) (λ _ e',
    em_regs e' SyscallEntry.RIP = 0x4000 ∧ em_regs e' SyscallEntry.RSP = 0x8F70 ∧
    em_regs e' SyscallEntry.RAX = 2 ∧ em_regs e' SyscallEntry.RDI = 77) (demo_mach usr1).
Proof.
  apply (handler_argument_lost 0x100 0x10000 demo_calls (λ _, fault) (λ _, fault) (λ _, 77) (demo_mach usr1) child_at
    (child usr1) usr1 SIGUSR1 caught (λ _ _ _ _ _ _, sys_getpid) 2 ltac:(lia));
    [done|done|done|done|done| |apply child_running|apply usr1_next|done|done|done|].
  - unfold sys_getpid, current_field, process_current. wp_steps. cbn [em_procs demo_mach demo pr_current].
    wp_step. apply wp_rd_proc with (child usr1); [done|]. by wp_step.
  - apply stack_mapped.
Defined.
