(* ===== verification/FsObj.v ===== *)
(** * File system objects: the memory of fs/ (fs/vfs.h, fs/fd_table.h, fs/pipe.h, fs/ramfs.c)

    The structures of the file system layer and the memory they live in: a map
    from the address of an object to the object, which loses it when it is given
    back, so that a later access faults.  Objects come from the kernel heap
    (KHeap.v).  The static variables of the layer are a record of their own.
    C strings that are only passed along are values, the list of their
    characters without the terminator.  The reference counts of nodes
    (vfs_node_ref and its companions in fs/vfs.c) are at the end. *)

From stdpp Require Import strings.
From S2P Require Import Prelude KHeap CString.

(** ** Constants (vfs.h, fd_table.h, pipe.h, ramfs.h) *)

Definition VFS_FILE : Z := 1.
Definition VFS_DIR : Z := 2.
Definition VFS_CHARDEV : Z := 3.
Definition VFS_BLKDEV : Z := 4.
Definition VFS_PIPE : Z := 5.
Definition VFS_SYMLINK : Z := 6.

Definition O_RDONLY : Z := 0x0000.
Definition O_WRONLY : Z := 0x0001.
Definition O_RDWR : Z := 0x0002.
Definition O_ACCMODE : Z := 0x0003.
Definition O_CREAT : Z := 0x0100.
Definition O_TRUNC : Z := 0x0400.
Definition O_APPEND : Z := 0x0800.
Definition O_DIRECTORY : Z := 0x2000.

Definition SEEK_SET : Z := 0.
Definition SEEK_CUR : Z := 1.
Definition SEEK_END : Z := 2.

Definition VFS_PERM_READ : Z := 4.
Definition VFS_PERM_WRITE : Z := 2.

Definition VFS_OK : Z := 0.
Definition VFS_ENOENT : Z := -2.
Definition VFS_EIO : Z := -5.
Definition VFS_EBADF : Z := -9.
Definition VFS_ENOMEM : Z := -12.
Definition VFS_EBUSY : Z := -16.
Definition VFS_EEXIST : Z := -17.
Definition VFS_ENOTDIR : Z := -20.
Definition VFS_EISDIR : Z := -21.
Definition VFS_EINVAL : Z := -22.
Definition VFS_EMFILE : Z := -24.
Definition VFS_ENOTEMPTY : Z := -39.

Definition VFS_NAME_MAX : Z := 255.
Definition VFS_PATH_MAX : Z := 4096.
Definition VFS_MAX_FDS : Z := 256.
Definition VFS_MAX_FS : Z := 16.
Definition FD_MAX : Z := 256.
Definition FD_CLOEXEC : Z := 1.
Definition PIPE_BUF_SIZE : Z := 4096.
Definition RAMFS_BLOCK_SIZE : Z := 4096.
Definition RAMFS_INITIAL_BLOCKS : Z := 4.

(** ** Structures *)

(** The operation tables of the kernel, which nodes point to, and the file
    system types; those of drivers that are not modelled are known by number. *)
Inductive ops_table :=
  | ramfs_file_ops
  | ramfs_dir_ops
  | pipe_read_ops
  | pipe_write_ops
  | driver_ops (n : Z).

Inductive fs_type := ramfs_fs_ops | driver_fs (n : Z).

#[export] Instance ops_table_eq_dec : EqDecision ops_table.
Proof. solve_decision. Defined.
#[export] Instance fs_type_eq_dec : EqDecision fs_type.
Proof. solve_decision. Defined.

Record vfs_node := VfsNode {
  vn_name : list Z;
  vn_type : Z;
  vn_permissions : Z;
  vn_uid : Z;
  vn_gid : Z;
  vn_size : Z;
  vn_atime : Z;
  vn_mtime : Z;
  vn_ctime : Z;
  vn_nlink : Z;
  vn_ref_count : Z;
  vn_open_count : Z;
  vn_rdev : Z;
  vn_ops : option ops_table;
  vn_mount : option Z;
  vn_private : option Z;
  vn_parent : option Z;
  vn_children : option Z;
  vn_next : option Z;
  vn_prev : option Z }.

Definition set_node_name (x : list Z) (n : vfs_node) : vfs_node :=
  VfsNode x (vn_type n) (vn_permissions n) (vn_uid n) (vn_gid n) (vn_size n) (vn_atime n)
    (vn_mtime n) (vn_ctime n) (vn_nlink n) (vn_ref_count n) (vn_open_count n) (vn_rdev n)
    (vn_ops n) (vn_mount n) (vn_private n) (vn_parent n) (vn_children n) (vn_next n) (vn_prev n).
Definition set_node_type (x : Z) (n : vfs_node) : vfs_node :=
  VfsNode (vn_name n) x (vn_permissions n) (vn_uid n) (vn_gid n) (vn_size n) (vn_atime n)
    (vn_mtime n) (vn_ctime n) (vn_nlink n) (vn_ref_count n) (vn_open_count n) (vn_rdev n)
    (vn_ops n) (vn_mount n) (vn_private n) (vn_parent n) (vn_children n) (vn_next n) (vn_prev n).
Definition set_node_permissions (x : Z) (n : vfs_node) : vfs_node :=
  VfsNode (vn_name n) (vn_type n) x (vn_uid n) (vn_gid n) (vn_size n) (vn_atime n) (vn_mtime n)
    (vn_ctime n) (vn_nlink n) (vn_ref_count n) (vn_open_count n) (vn_rdev n) (vn_ops n)
    (vn_mount n) (vn_private n) (vn_parent n) (vn_children n) (vn_next n) (vn_prev n).
Definition set_node_uid (x : Z) (n : vfs_node) : vfs_node :=
  VfsNode (vn_name n) (vn_type n) (vn_permissions n) x (vn_gid n) (vn_size n) (vn_atime n)
    (vn_mtime n) (vn_ctime n) (vn_nlink n) (vn_ref_count n) (vn_open_count n) (vn_rdev n)
    (vn_ops n) (vn_mount n) (vn_private n) (vn_parent n) (vn_children n) (vn_next n) (vn_prev n).
Definition set_node_gid (x : Z) (n : vfs_node) : vfs_node :=
  VfsNode (vn_name n) (vn_type n) (vn_permissions n) (vn_uid n) x (vn_size n) (vn_atime n)
    (vn_mtime n) (vn_ctime n) (vn_nlink n) (vn_ref_count n) (vn_open_count n) (vn_rdev n)
    (vn_ops n) (vn_mount n) (vn_private n) (vn_parent n) (vn_children n) (vn_next n) (vn_prev n).
Definition set_node_size (x : Z) (n : vfs_node) : vfs_node :=
  VfsNode (vn_name n) (vn_type n) (vn_permissions n) (vn_uid n) (vn_gid n) x (vn_atime n)
    (vn_mtime n) (vn_ctime n) (vn_nlink n) (vn_ref_count n) (vn_open_count n) (vn_rdev n)
    (vn_ops n) (vn_mount n) (vn_private n) (vn_parent n) (vn_children n) (vn_next n) (vn_prev n).
Definition set_node_nlink (x : Z) (n : vfs_node) : vfs_node :=
  VfsNode (vn_name n) (vn_type n) (vn_permissions n) (vn_uid n) (vn_gid n) (vn_size n)
    (vn_atime n) (vn_mtime n) (vn_ctime n) x (vn_ref_count n) (vn_open_count n) (vn_rdev n)
    (vn_ops n) (vn_mount n) (vn_private n) (vn_parent n) (vn_children n) (vn_next n) (vn_prev n).
Definition set_node_ref_count (x : Z) (n : vfs_node) : vfs_node :=
  VfsNode (vn_name n) (vn_type n) (vn_permissions n) (vn_uid n) (vn_gid n) (vn_size n)
    (vn_atime n) (vn_mtime n) (vn_ctime n) (vn_nlink n) x (vn_open_count n) (vn_rdev n) (vn_ops n)
    (vn_mount n) (vn_private n) (vn_parent n) (vn_children n) (vn_next n) (vn_prev n).
Definition set_node_open_count (x : Z) (n : vfs_node) : vfs_node :=
  VfsNode (vn_name n) (vn_type n) (vn_permissions n) (vn_uid n) (vn_gid n) (vn_size n)
    (vn_atime n) (vn_mtime n) (vn_ctime n) (vn_nlink n) (vn_ref_count n) x (vn_rdev n) (vn_ops n)
    (vn_mount n) (vn_private n) (vn_parent n) (vn_children n) (vn_next n) (vn_prev n).
Definition set_node_rdev (x : Z) (n : vfs_node) : vfs_node :=
  VfsNode (vn_name n) (vn_type n) (vn_permissions n) (vn_uid n) (vn_gid n) (vn_size n)
    (vn_atime n) (vn_mtime n) (vn_ctime n) (vn_nlink n) (vn_ref_count n) (vn_open_count n) x
    (vn_ops n) (vn_mount n) (vn_private n) (vn_parent n) (vn_children n) (vn_next n) (vn_prev n).
Definition set_node_ops (x : option ops_table) (n : vfs_node) : vfs_node :=
  VfsNode (vn_name n) (vn_type n) (vn_permissions n) (vn_uid n) (vn_gid n) (vn_size n)
    (vn_atime n) (vn_mtime n) (vn_ctime n) (vn_nlink n) (vn_ref_count n) (vn_open_count n)
    (vn_rdev n) x (vn_mount n) (vn_private n) (vn_parent n) (vn_children n) (vn_next n)
    (vn_prev n).
Definition set_node_mount (x : option Z) (n : vfs_node) : vfs_node :=
  VfsNode (vn_name n) (vn_type n) (vn_permissions n) (vn_uid n) (vn_gid n) (vn_size n)
    (vn_atime n) (vn_mtime n) (vn_ctime n) (vn_nlink n) (vn_ref_count n) (vn_open_count n)
    (vn_rdev n) (vn_ops n) x (vn_private n) (vn_parent n) (vn_children n) (vn_next n) (vn_prev n).
Definition set_node_private (x : option Z) (n : vfs_node) : vfs_node :=
  VfsNode (vn_name n) (vn_type n) (vn_permissions n) (vn_uid n) (vn_gid n) (vn_size n)
    (vn_atime n) (vn_mtime n) (vn_ctime n) (vn_nlink n) (vn_ref_count n) (vn_open_count n)
    (vn_rdev n) (vn_ops n) (vn_mount n) x (vn_parent n) (vn_children n) (vn_next n) (vn_prev n).
Definition set_node_parent (x : option Z) (n : vfs_node) : vfs_node :=
  VfsNode (vn_name n) (vn_type n) (vn_permissions n) (vn_uid n) (vn_gid n) (vn_size n)
    (vn_atime n) (vn_mtime n) (vn_ctime n) (vn_nlink n) (vn_ref_count n) (vn_open_count n)
    (vn_rdev n) (vn_ops n) (vn_mount n) (vn_private n) x (vn_children n) (vn_next n) (vn_prev n).
Definition set_node_children (x : option Z) (n : vfs_node) : vfs_node :=
  VfsNode (vn_name n) (vn_type n) (vn_permissions n) (vn_uid n) (vn_gid n) (vn_size n)
    (vn_atime n) (vn_mtime n) (vn_ctime n) (vn_nlink n) (vn_ref_count n) (vn_open_count n)
    (vn_rdev n) (vn_ops n) (vn_mount n) (vn_private n) (vn_parent n) x (vn_next n) (vn_prev n).
Definition set_node_next (x : option Z) (n : vfs_node) : vfs_node :=
  VfsNode (vn_name n) (vn_type n) (vn_permissions n) (vn_uid n) (vn_gid n) (vn_size n)
    (vn_atime n) (vn_mtime n) (vn_ctime n) (vn_nlink n) (vn_ref_count n) (vn_open_count n)
    (vn_rdev n) (vn_ops n) (vn_mount n) (vn_private n) (vn_parent n) (vn_children n) x (vn_prev n).
Definition set_node_prev (x : option Z) (n : vfs_node) : vfs_node :=
  VfsNode (vn_name n) (vn_type n) (vn_permissions n) (vn_uid n) (vn_gid n) (vn_size n)
    (vn_atime n) (vn_mtime n) (vn_ctime n) (vn_nlink n) (vn_ref_count n) (vn_open_count n)
    (vn_rdev n) (vn_ops n) (vn_mount n) (vn_private n) (vn_parent n) (vn_children n) (vn_next n) x.

Record file := File {
  f_node : option Z;
  f_offset : Z;
  f_flags : Z;
  f_ref_count : Z;
  f_dir_index : Z }.

Definition set_f_offset (x : Z) (f : file) : file :=
  File (f_node f) x (f_flags f) (f_ref_count f) (f_dir_index f).
Definition set_f_ref_count (x : Z) (f : file) : file :=
  File (f_node f) (f_offset f) (f_flags f) x (f_dir_index f).
Definition set_f_dir_index (x : Z) (f : file) : file :=
  File (f_node f) (f_offset f) (f_flags f) (f_ref_count f) x.

Record vfs_mount := VfsMount {
  mt_path : list Z;
  mt_root : option Z;
  mt_mountpoint : option Z;
  mt_fs : option fs_type;
  mt_private : option Z;
  mt_next : option Z }.

Definition set_mt_next (x : option Z) (m : vfs_mount) : vfs_mount :=
  VfsMount (mt_path m) (mt_root m) (mt_mountpoint m) (mt_fs m) (mt_private m) x.

Record fd_entry := FdEntry { fe_file : option Z; fe_flags : Z }.

Record fd_table := FdTable { ft_entries : list fd_entry; ft_ref_count : Z }.

Record pipe := Pipe {
  pp_buffer : list Z;
  pp_read_pos : Z;
  pp_write_pos : Z;
  pp_count : Z;
  pp_readers : Z;
  pp_writers : Z }.

Record ramfs_data := RamfsData {
  rd_blocks : option Z;
  rd_block_count : Z;
  rd_block_capacity : Z }.

Record vfs_stat := VfsStat {
  st_size : Z; st_type : Z; st_permissions : Z; st_uid : Z; st_gid : Z; st_nlink : Z;
  st_dev : Z; st_rdev : Z; st_ino : Z; st_atime : Z; st_mtime : Z; st_ctime : Z }.

Record dirent := Dirent { de_name : list Z; de_type : Z; de_inode : Z }.

Definition sizeof_vfs_node_t : Z := 376.
Definition sizeof_file_t : Z := 32.
Definition sizeof_vfs_mount_t : Z := 4136.
Definition sizeof_fd_table_t : Z := 4104.
Definition sizeof_pipe_t : Z := 4116.
Definition sizeof_ramfs_data_t : Z := 16.

(** ** Memory *)

(** An object: a structure, an array of pointers or a block of bytes. *)
Inductive obj :=
  | ONode (n : vfs_node)
  | OFile (f : file)
  | OMount (m : vfs_mount)
  | OTable (t : fd_table)
  | OPipe (p : pipe)
  | OData (d : ramfs_data)
  | OPtrs (l : list (option Z))
  | OBytes (l : list Z).

Class Kind (T : Type) := { inj : T → obj; proj : obj → option T }.

Class KindLaws (T : Type) `{Kind T} : Prop := {
  proj_inj (x : T) : proj (inj x) = Some x;
  inj_proj (o : obj) (x : T) : proj o = Some x → o = inj x }.

#[export] Instance vfs_node_kind : Kind vfs_node :=
  {| inj := ONode; proj := λ o, match o with ONode x => Some x | _ => None end |}.
#[export] Instance file_kind : Kind file :=
  {| inj := OFile; proj := λ o, match o with OFile x => Some x | _ => None end |}.
#[export] Instance vfs_mount_kind : Kind vfs_mount :=
  {| inj := OMount; proj := λ o, match o with OMount x => Some x | _ => None end |}.
#[export] Instance fd_table_kind : Kind fd_table :=
  {| inj := OTable; proj := λ o, match o with OTable x => Some x | _ => None end |}.
#[export] Instance pipe_kind : Kind pipe :=
  {| inj := OPipe; proj := λ o, match o with OPipe x => Some x | _ => None end |}.
#[export] Instance ramfs_data_kind : Kind ramfs_data :=
  {| inj := OData; proj := λ o, match o with OData x => Some x | _ => None end |}.
#[export] Instance ptrs_kind : Kind (list (option Z)) :=
  {| inj := OPtrs; proj := λ o, match o with OPtrs x => Some x | _ => None end |}.
#[export] Instance bytes_kind : Kind (list Z) :=
  {| inj := OBytes; proj := λ o, match o with OBytes x => Some x | _ => None end |}.

Ltac kind_laws := split; [done|]; by intros [] x [= ->].
#[export] Instance vfs_node_kind_laws : KindLaws vfs_node.
Proof. kind_laws. Qed.
#[export] Instance file_kind_laws : KindLaws file.
Proof. kind_laws. Qed.
#[export] Instance vfs_mount_kind_laws : KindLaws vfs_mount.
Proof. kind_laws. Qed.
#[export] Instance fd_table_kind_laws : KindLaws fd_table.
Proof. kind_laws. Qed.
#[export] Instance pipe_kind_laws : KindLaws pipe.
Proof. kind_laws. Qed.
#[export] Instance ramfs_data_kind_laws : KindLaws ramfs_data.
Proof. kind_laws. Qed.
#[export] Instance ptrs_kind_laws : KindLaws (list (option Z)).
Proof. kind_laws. Qed.
#[export] Instance bytes_kind_laws : KindLaws (list Z).
Proof. kind_laws. Qed.

(** ** Static variables, and what is read of the current process *)

Record process := Process {
  p_euid : Z;
  p_egid : Z;
  p_fd_table : option Z;
  p_rlimit_nofile : Z }.

Record globals := Globals {
  node_cache : option Z;
  file_cache : option Z;
  mount_cache : option Z;
  fdt_cache : option Z;
  ramfs_data_cache : option Z;
  registered_fs : list (option fs_type);
  num_registered_fs : Z;
  mount_list : option Z;
  vfs_root : option Z;
  kernel_fds : list (option Z);
  process_is_initialized : bool;
  process_current : option process }.

Definition set_vfs_caches (a b c : option Z) (g : globals) : globals :=
  Globals a b c (fdt_cache g) (ramfs_data_cache g) (registered_fs g) (num_registered_fs g)
    (mount_list g) (vfs_root g) (kernel_fds g) (process_is_initialized g) (process_current g).
Definition set_fdt_cache (x : option Z) (g : globals) : globals :=
  Globals (node_cache g) (file_cache g) (mount_cache g) x (ramfs_data_cache g) (registered_fs g)
    (num_registered_fs g) (mount_list g) (vfs_root g) (kernel_fds g) (process_is_initialized g)
    (process_current g).
Definition set_ramfs_data_cache (x : option Z) (g : globals) : globals :=
  Globals (node_cache g) (file_cache g) (mount_cache g) (fdt_cache g) x (registered_fs g)
    (num_registered_fs g) (mount_list g) (vfs_root g) (kernel_fds g) (process_is_initialized g)
    (process_current g).
Definition set_registered (l : list (option fs_type)) (n : Z) (g : globals) : globals :=
  Globals (node_cache g) (file_cache g) (mount_cache g) (fdt_cache g) (ramfs_data_cache g) l n
    (mount_list g) (vfs_root g) (kernel_fds g) (process_is_initialized g) (process_current g).
Definition set_mount_list (x : option Z) (g : globals) : globals :=
  Globals (node_cache g) (file_cache g) (mount_cache g) (fdt_cache g) (ramfs_data_cache g)
    (registered_fs g) (num_registered_fs g) x (vfs_root g) (kernel_fds g)
    (process_is_initialized g) (process_current g).
Definition set_vfs_root (x : option Z) (g : globals) : globals :=
  Globals (node_cache g) (file_cache g) (mount_cache g) (fdt_cache g) (ramfs_data_cache g)
    (registered_fs g) (num_registered_fs g) (mount_list g) x (kernel_fds g)
    (process_is_initialized g) (process_current g).
Definition set_kernel_fds (l : list (option Z)) (g : globals) : globals :=
  Globals (node_cache g) (file_cache g) (mount_cache g) (fdt_cache g) (ramfs_data_cache g)
    (registered_fs g) (num_registered_fs g) (mount_list g) (vfs_root g) l
    (process_is_initialized g) (process_current g).

(** ** State *)

Section fs.
Context {S : Type} {KH : KHeap S}.

Record fs := Fs { fs_heap : S; fs_mem : gmap Z obj; fs_glob : globals }.

Definition set_heap (h : S) (s : fs) : fs := Fs h (fs_mem s) (fs_glob s).
Definition set_mem (m : gmap Z obj) (s : fs) : fs := Fs (fs_heap s) m (fs_glob s).
Definition set_glob (g : globals) (s : fs) : fs := Fs (fs_heap s) (fs_mem s) g.

Abbreviation FM := (M fs).

Definition on_heap {A} : M S A → FM A := zoom fs_heap set_heap.
Definition glob {A} (f : globals → A) : FM A := gets (λ s, f (fs_glob s)).
Definition upd_glob (f : globals → globals) : FM unit := modify (λ s, set_glob (f (fs_glob s)) s).

(** The object of kind [T] at an address. *)
Definition at_ {T} `{Kind T} (s : fs) (x : Z) : option T := fs_mem s !! x ≫= proj.

Definition put_obj {T} `{Kind T} (x : Z) (v : T) (s : fs) : fs :=
  set_mem (<[x := inj v]> (fs_mem s)) s.
Definition drop_obj (x : Z) (s : fs) : fs := set_mem (delete x (fs_mem s)) s.

Definition ld {T} `{Kind T} (x : Z) : FM T := s ← get; lift (at_ s x).
Definition upd {T} `{Kind T} (x : Z) (f : T → T) : FM unit :=
  v ← ld x; modify (put_obj x (f v)).

(** Taking memory for an object and writing its first contents; giving it back. *)
Definition new_from {T} `{Kind T} (cache : option Z) (v : T) : FM (option Z) :=
  r ← on_heap (kmem_alloc cache);
  match r with
  | None => mret None
  | Some x => modify (put_obj x v) ;; mret (Some x)
  end.

Definition new_kmalloc {T} `{Kind T} (size : Z) (v : T) : FM (option Z) :=
  r ← on_heap (kh_kmalloc size);
  match r with
  | None => mret None
  | Some x => modify (put_obj x v) ;; mret (Some x)
  end.

Definition free_to (cache : option Z) (x : Z) : FM unit :=
  on_heap (kmem_free cache x) ;; modify (drop_obj x).

Definition free_kmalloc (x : Z) : FM unit := on_heap (kh_kfree x) ;; modify (drop_obj x).

(** ** Node management (vfs.c) *)

Definition empty_node : vfs_node :=
  VfsNode [] 0 0 0 0 0 0 0 0 1 1 0 0 None None None None None None None.

Definition vfs_node_alloc : FM (option Z) := c ← glob node_cache; new_from c empty_node.

Definition vfs_node_free (node : option Z) : FM unit :=
  match node with
  | None => mret tt
  | Some x => c ← glob node_cache; free_to c x
  end.

Definition vfs_node_ref (node : option Z) : FM unit :=
  match node with
  | None => mret tt
  | Some x => upd x (λ n, set_node_ref_count (vn_ref_count n +u32 1) n)
  end.

Definition vfs_node_unref (node : option Z) : FM unit :=
  match node with
  | None => mret tt
  | Some x =>
      upd x (λ n, set_node_ref_count (vn_ref_count n -u32 1) n) ;;
      n ← ld x;
      if vn_ref_count n =? 0 then vfs_node_free (Some x) else mret tt
  end.

End fs.

Arguments fs : clear implicits.

(** ** Operation tables (vfs.h)

    The functions behind the tables a node and a file system type point to; a
    function may be missing.  A file that is read is delivered as the list of
    the bytes stored to the buffer, and written from the list of the bytes of
    the buffer. *)

Record node_ops (S : Type) := NodeOps {
  op_open : option (Z → Z → M (fs S) Z);
  op_close : option (Z → M (fs S) unit);
  op_read : option (Z → Z → Z → M (fs S) (Z * list Z));
  op_write : option (Z → list Z → Z → M (fs S) Z);
  op_readdir : option (Z → Z → M (fs S) (Z * option dirent));
  op_finddir : option (Z → list Z → M (fs S) (option Z));
  op_create : option (Z → list Z → Z → M (fs S) Z);
  op_unlink : option (Z → list Z → M (fs S) Z);
  op_mkdir : option (Z → list Z → M (fs S) Z);
  op_rmdir : option (Z → list Z → M (fs S) Z);
  op_rename : option (Z → list Z → Z → list Z → M (fs S) Z);
  op_truncate : option (Z → Z → M (fs S) Z);
  op_stat : option (Z → vfs_stat → M (fs S) (Z * vfs_stat));
  op_ioctl : option (Z → Z → Z → M (fs S) Z);
  op_symlink : option (Z → list Z → list Z → M (fs S) Z);
  op_readlink : option (Z → Z → M (fs S) (Z * list Z)) }.

Record fs_ops (S : Type) := FsOps {
  fo_name : option (list Z);
  fo_mount : option (option (list Z) → Z → M (fs S) (option Z));
  fo_unmount : option (Z → M (fs S) Z) }.

Arguments op_open {S}. Arguments op_close {S}. Arguments op_read {S}. Arguments op_write {S}.
Arguments op_readdir {S}. Arguments op_finddir {S}. Arguments op_create {S}.
Arguments op_unlink {S}. Arguments op_mkdir {S}. Arguments op_rmdir {S}. Arguments op_rename {S}.
Arguments op_truncate {S}. Arguments op_stat {S}. Arguments op_ioctl {S}.
Arguments op_symlink {S}. Arguments op_readlink {S}.
Arguments fo_name {S}. Arguments fo_mount {S}. Arguments fo_unmount {S}.

Class Drivers (S : Type) := {
  ops_at : ops_table → node_ops S;
  fs_ops_at : fs_type → fs_ops S }.
