(* ===== verification/FdTable.v ===== *)
(** * File descriptor tables (fs/fd_table.h, fs/fd_table.c)

    A table of 256 entries, each a pointer to an open file and flags.  Several
    descriptors, in one table or in several, may share a file, which counts
    them; the last one to go closes it. *)

From stdpp Require Import strings.
From S2P Require Import Prelude KHeap Slab FsObj.

Section fd_table.
Context {S : Type} {KH : KHeap S} {DR : Drivers S}.

Abbreviation FM := (M (fs S)).

(** The entry [i] of a table. *)
Definition entry (fdt i : Z) : FM fd_entry := t ← ld fdt; lift (aget (ft_entries t) i).
Definition set_entry (fdt i : Z) (e : fd_entry) : FM unit :=
  upd fdt (λ t, FdTable (aset (ft_entries t) i e) (ft_ref_count t)).

Definition fd_table_init : FM unit :=
  c ← glob fdt_cache;
  match c with
  | Some _ => mret tt
  | None =>
      r ← on_heap (kh_cache_create "fd_table" sizeof_fd_table_t 8 SLAB_ZERO);
      match r with
      | None => fault
      | Some _ => upd_glob (set_fdt_cache r)
      end
  end.

Definition fd_table_create : FM (option Z) :=
  c ← glob fdt_cache;
  match c with Some _ => mret tt | None => fd_table_init end ;;
  c ← glob fdt_cache;
  new_from c (FdTable (replicate (Z.to_nat FD_MAX) (FdEntry None 0)) 1).

(** node->ops->close(node), when there is one. *)
Definition call_close (node : Z) : FM unit :=
  n ← ld node;
  match vn_ops n with
  | None => mret tt
  | Some ops => match op_close (ops_at ops) with Some close => close node | None => mret tt end
  end.

(** A descriptor of the file goes away; the last one closes it. *)
Definition release_file (file : Z) : FM unit :=
  f ← ld file;
  (if 0 <? f_ref_count f then upd file (λ f, set_f_ref_count (f_ref_count f -u32 1) f)
   else mret tt) ;;
  f ← ld file;
  if f_ref_count f =? 0 then
    match f_node f with
    | None => mret tt
    | Some node =>
        call_close node ;;
        upd node (λ n, set_node_open_count (vn_open_count n -u32 1) n) ;;
        vfs_node_unref (Some node)
    end ;;
    free_kmalloc file
  else mret tt.

Definition destroy_entry (fdt i : Z) : FM unit :=
  e ← entry fdt i;
  match fe_file e with
  | None => mret tt
  | Some file => set_entry fdt i (FdEntry None (fe_flags e)) ;; release_file file
  end.

Definition fd_table_destroy (fdt0 : option Z) : FM unit :=
  match fdt0 with
  | None => mret tt
  | Some fdt =>
      upd fdt (λ t, FdTable (ft_entries t) (ft_ref_count t -u32 1)) ;;
      t ← ld fdt;
      if 0 <? ft_ref_count t then mret tt
      else
        for_ 0 FD_MAX (destroy_entry fdt) ;;
        c ← glob fdt_cache; free_to c fdt
  end.

Definition clone_entry (src dst i : Z) : FM unit :=
  e ← entry src i;
  match fe_file e with
  | None => mret tt
  | Some file =>
      set_entry dst i (FdEntry (Some file) (fe_flags e)) ;;
      upd file (λ f, set_f_ref_count (f_ref_count f +u32 1) f) ;;
      f ← ld file;
      vfs_node_ref (f_node f)
  end.

Definition fd_table_clone (src0 : option Z) : FM (option Z) :=
  match src0 with
  | None => fd_table_create
  | Some src =>
      r ← fd_table_create;
      match r with
      | None => mret None
      | Some dst => for_ 0 FD_MAX (clone_entry src dst) ;; mret (Some dst)
      end
  end.

Definition fd_table_free (fdt0 : option Z) (fd : Z) : FM (option Z) :=
  match fdt0 with
  | Some fdt =>
      if (fd <? 0) || (FD_MAX <=? fd) then mret None
      else e ← entry fdt fd; set_entry fdt fd (FdEntry None 0) ;; mret (fe_file e)
  | None => mret None
  end.

Definition cloexec_entry (fdt i : Z) : FM unit :=
  e ← entry fdt i;
  match fe_file e with
  | Some _ =>
      if has (fe_flags e) FD_CLOEXEC then
        r ← fd_table_free (Some fdt) i;
        match r with Some file => release_file file | None => mret tt end
      else mret tt
  | None => mret tt
  end.

Definition fd_table_close_cloexec (fdt0 : option Z) : FM unit :=
  match fdt0 with
  | None => mret tt
  | Some fdt => for_ 0 FD_MAX (cloexec_entry fdt)
  end.

(** The number of entries in use, and the first free one from [i] on. *)
Fixpoint count_open (l : list fd_entry) : Z :=
  match l with
  | [] => 0
  | e :: l' => match fe_file e with Some _ => 1 | None => 0 end + count_open l'
  end.

Fixpoint first_free (l : list fd_entry) (i : Z) : option Z :=
  match l with
  | [] => None
  | e :: l' => match fe_file e with None => Some i | Some _ => first_free l' (i + 1) end
  end.

Definition fd_table_alloc (fdt0 file0 : option Z) (flags : Z) : FM Z :=
  match fdt0, file0 with
  | Some fdt, Some file =>
      t ← ld fdt;
      proc ← glob process_current;
      let over := match proc with
        | Some p => int32 (p_rlimit_nofile p) <=? count_open (ft_entries t)
        | None => false
        end in
      if over then mret (-1)
      else match first_free (ft_entries t) 0 with
        | Some i => set_entry fdt i (FdEntry (Some file) flags) ;; mret i
        | None => mret (-1)
        end
  | _, _ => mret (-1)
  end.

Definition fd_table_alloc_at (fdt0 : option Z) (fd : Z) (file0 : option Z) (flags : Z) : FM Z :=
  match fdt0, file0 with
  | Some fdt, Some file =>
      if (fd <? 0) || (FD_MAX <=? fd) then mret (-1)
      else
        e ← entry fdt fd;
        match fe_file e with
        | Some _ => mret (-1)
        | None => set_entry fdt fd (FdEntry (Some file) flags) ;; mret fd
        end
  | _, _ => mret (-1)
  end.

Definition fd_table_get (fdt0 : option Z) (fd : Z) : FM (option Z) :=
  match fdt0 with
  | Some fdt =>
      if (fd <? 0) || (FD_MAX <=? fd) then mret None else e ← entry fdt fd; mret (fe_file e)
  | None => mret None
  end.

Definition fd_table_get_flags (fdt0 : option Z) (fd : Z) : FM Z :=
  match fdt0 with
  | Some fdt =>
      if (fd <? 0) || (FD_MAX <=? fd) then mret (-1)
      else
        e ← entry fdt fd;
        match fe_file e with Some _ => mret (int32 (fe_flags e)) | None => mret (-1) end
  | None => mret (-1)
  end.

Definition fd_table_set_flags (fdt0 : option Z) (fd flags : Z) : FM Z :=
  match fdt0 with
  | Some fdt =>
      if (fd <? 0) || (FD_MAX <=? fd) then mret (-1)
      else
        e ← entry fdt fd;
        match fe_file e with
        | Some f => set_entry fdt fd (FdEntry (Some f) flags) ;; mret 0
        | None => mret (-1)
        end
  | None => mret (-1)
  end.

End fd_table.
