(* ===== verification/Pipe.v ===== *)
(** * Pipes (fs/pipe.h, fs/pipe.c)

    A ring buffer of 4096 bytes shared by two nodes, one for each end, with
    counts of the ends that are open. *)

From stdpp Require Import strings.
From S2P Require Import Prelude KHeap CString FsObj FdTable.

Definition EAGAIN : Z := 11.
Definition EPIPE : Z := 32.

Definition set_pp_read (pos count : Z) (p : pipe) : pipe :=
  Pipe (pp_buffer p) pos (pp_write_pos p) count (pp_readers p) (pp_writers p).
Definition set_pp_write (buffer : list Z) (pos count : Z) (p : pipe) : pipe :=
  Pipe buffer (pp_read_pos p) pos count (pp_readers p) (pp_writers p).
Definition set_pp_readers (x : Z) (p : pipe) : pipe :=
  Pipe (pp_buffer p) (pp_read_pos p) (pp_write_pos p) (pp_count p) x (pp_writers p).
Definition set_pp_writers (x : Z) (p : pipe) : pipe :=
  Pipe (pp_buffer p) (pp_read_pos p) (pp_write_pos p) (pp_count p) (pp_readers p) x.

Section pipe.
Context {S : Type} {KH : KHeap S}.

Abbreviation FM := (M (fs S)).

(** [node && node->private] *)
Definition node_pipe (node : option Z) : FM (option Z) :=
  match node with
  | None => mret None
  | Some x => n ← ld x; mret (vn_private n)
  end.

Fixpoint pipe_read_loop (fuel : nat) (pipe size : Z) (dst : list Z) : FM (list Z) :=
  p ← ld pipe;
  if (alen dst <? size) && (0 <? pp_count p) then
    match fuel with
    | O => fault
    | Datatypes.S fuel' =>
        b ← lift (aget (pp_buffer p) (pp_read_pos p));
        upd pipe (set_pp_read ((pp_read_pos p +u32 1) mod PIPE_BUF_SIZE) (pp_count p -u32 1)) ;;
        pipe_read_loop fuel' pipe size (dst ++ [b])
    end
  else mret dst.

Definition pipe_read (node : option Z) (size offset : Z) : FM (Z * list Z) :=
  r ← node_pipe node;
  match r with
  | None => mret (- VFS_EINVAL, [])
  | Some pipe =>
      p ← ld pipe;
      if (pp_count p =? 0) && (pp_writers p =? 0) then mret (0, [])
      else if pp_count p =? 0 then mret (- EAGAIN, [])
      else
        dst ← pipe_read_loop (Z.to_nat (pp_count p)) pipe size [];
        mret (int64 (alen dst), dst)
  end.

Fixpoint pipe_write_loop (fuel : nat) (pipe : Z) (src : list Z) (written : Z) : FM Z :=
  p ← ld pipe;
  if (written <? alen src) && (pp_count p <? PIPE_BUF_SIZE) then
    match fuel with
    | O => fault
    | Datatypes.S fuel' =>
        b ← lift (aget src written);
        _ ← lift (aget (pp_buffer p) (pp_write_pos p));
        upd pipe (set_pp_write (aset (pp_buffer p) (pp_write_pos p) b)
                    ((pp_write_pos p +u32 1) mod PIPE_BUF_SIZE) (pp_count p +u32 1)) ;;
        pipe_write_loop fuel' pipe src (written + 1)
    end
  else mret written.

Definition pipe_write (node : option Z) (buf : list Z) (offset : Z) : FM Z :=
  r ← node_pipe node;
  match r with
  | None => mret (- VFS_EINVAL)
  | Some pipe =>
      p ← ld pipe;
      if pp_readers p =? 0 then mret (- EPIPE)
      else if PIPE_BUF_SIZE <=? pp_count p then mret (- EAGAIN)
      else
        written ← pipe_write_loop (Z.to_nat PIPE_BUF_SIZE) pipe buf 0;
        mret (int64 written)
  end.

Definition pipe_close (node0 : option Z) : FM unit :=
  r ← node_pipe node0;
  match node0, r with
  | Some node, Some pipe =>
      n ← ld node;
      p ← ld pipe;
      (if decide (vn_ops n = Some pipe_read_ops) then
         if 0 <? pp_readers p then upd pipe (set_pp_readers (pp_readers p - 1)) else mret tt
       else
         if 0 <? pp_writers p then upd pipe (set_pp_writers (pp_writers p - 1)) else mret tt) ;;
      p ← ld pipe;
      if (pp_readers p =? 0) && (pp_writers p =? 0) then
        free_kmalloc pipe ;; upd node (set_node_private None)
      else mret tt
  | _, _ => mret tt
  end.

(** The tables of the two ends. *)
Definition pipe_read_table : node_ops S :=
  {| op_open := None; op_close := Some (λ n, pipe_close (Some n));
     op_read := Some (λ n size offset, pipe_read (Some n) size offset);
     op_write := None; op_readdir := None; op_finddir := None; op_create := None;
     op_unlink := None; op_mkdir := None; op_rmdir := None; op_rename := None;
     op_truncate := None; op_stat := None; op_ioctl := None; op_symlink := None;
     op_readlink := None |}.

Definition pipe_write_table : node_ops S :=
  {| op_open := None; op_close := Some (λ n, pipe_close (Some n));
     op_read := None; op_write := Some (λ n buf offset, pipe_write (Some n) buf offset);
     op_readdir := None; op_finddir := None; op_create := None;
     op_unlink := None; op_mkdir := None; op_rmdir := None; op_rename := None;
     op_truncate := None; op_stat := None; op_ioctl := None; op_symlink := None;
     op_readlink := None |}.

Definition new_pipe : pipe := Pipe (replicate (Z.to_nat PIPE_BUF_SIZE) 0) 0 0 0 1 1.

(** The contents of the node of an end. *)
Definition pipe_node (ops : ops_table) (pipe perm : Z) (n : vfs_node) : vfs_node :=
  set_node_ref_count 1 (set_node_permissions perm (set_node_private (Some pipe)
    (set_node_ops (Some ops) (set_node_type VFS_PIPE (set_node_name (chars "pipe") n))))).

(** From the two nodes on: the files and the descriptors. *)
Definition pipe_files (fdt pipe read_node write_node : Z) : FM (Z * option (Z * Z)) :=
  read_file ← new_kmalloc sizeof_file_t (File (Some read_node) 0 O_RDONLY 1 0);
  write_file ← new_kmalloc sizeof_file_t (File (Some write_node) 0 O_WRONLY 1 0);
  match read_file, write_file with
  | Some rf, Some wf =>
      rfd ← fd_table_alloc (Some fdt) (Some rf) 0;
      if rfd <? 0 then
        free_kmalloc wf ;; free_kmalloc rf ;;
        vfs_node_free (Some write_node) ;; vfs_node_free (Some read_node) ;;
        free_kmalloc pipe ;; mret (- VFS_EMFILE, None)
      else
        wfd ← fd_table_alloc (Some fdt) (Some wf) 0;
        if wfd <? 0 then
          fd_table_free (Some fdt) rfd ;;
          free_kmalloc wf ;; free_kmalloc rf ;;
          vfs_node_free (Some write_node) ;; vfs_node_free (Some read_node) ;;
          free_kmalloc pipe ;; mret (- VFS_EMFILE, None)
        else mret (0, Some (rfd, wfd))
  | _, _ =>
      match read_file with Some rf => free_kmalloc rf | None => mret tt end ;;
      match write_file with Some wf => free_kmalloc wf | None => mret tt end ;;
      vfs_node_free (Some write_node) ;; vfs_node_free (Some read_node) ;;
      free_kmalloc pipe ;; mret (- VFS_ENOMEM, None)
  end.

Definition pipe_create : FM (Z * option (Z * Z)) :=
  proc ← glob process_current;
  match proc ≫= p_fd_table with
  | None => mret (- VFS_EINVAL, None)
  | Some fdt =>
      r ← new_kmalloc sizeof_pipe_t new_pipe;
      match r with
      | None => mret (- VFS_ENOMEM, None)
      | Some pipe =>
          rn ← vfs_node_alloc;
          match rn with
          | None => free_kmalloc pipe ;; mret (- VFS_ENOMEM, None)
          | Some read_node =>
              upd read_node (pipe_node pipe_read_ops pipe VFS_PERM_READ) ;;
              wn ← vfs_node_alloc;
              match wn with
              | None =>
                  vfs_node_free (Some read_node) ;; free_kmalloc pipe ;;
                  mret (- VFS_ENOMEM, None)
              | Some write_node =>
                  upd write_node (pipe_node pipe_write_ops pipe VFS_PERM_WRITE) ;;
                  pipe_files fdt pipe read_node write_node
              end
          end
      end
  end.

End pipe.
