(* ===== verification/Ramfs.v ===== *)
(** * The RAM file system (fs/ramfs.h, fs/ramfs.c)

    A file keeps its data in blocks of 4096 bytes behind an array of pointers
    that grows by doubling; a missing block reads as zeros.  A directory keeps
    its children in a doubly linked list through the nodes. *)

From stdpp Require Import strings.
From S2P Require Import Prelude KHeap CString FsObj.

(** [n] bytes from [off] on, all inside the block. *)
Definition slice {A} (l : list A) (off n : Z) : option (list A) :=
  if decide (0 ≤ off ∧ 0 ≤ n ∧ off + n ≤ alen l)
  then Some (take (Z.to_nat n) (drop (Z.to_nat off) l)) else None.

Definition splice {A} (l : list A) (off : Z) (src : list A) : list A :=
  take (Z.to_nat off) l ++ src ++ drop (Z.to_nat off + length src) l.

(** strncpy to a name that is followed by a terminator. *)
Definition name_copy (name : list Z) : list Z := take (Z.to_nat VFS_NAME_MAX) name.

Section ramfs.
Context {S : Type} {KH : KHeap S}.

Abbreviation FM := (M (fs S)).

(** ** Blocks of a file *)

Definition ramfs_data_alloc : FM (option Z) :=
  c ← glob ramfs_data_cache; new_from c (RamfsData None 0 0).

Definition free_block (blocks i : Z) : FM unit :=
  l ← ld blocks;
  e ← lift (aget l i);
  match e with Some b => free_kmalloc b | None => mret tt end.

Definition ramfs_data_free (data0 : option Z) : FM unit :=
  match data0 with
  | None => mret tt
  | Some data =>
      d ← ld data;
      match rd_blocks d with
      | None => mret tt
      | Some blocks => for_ 0 (rd_block_count d) (free_block blocks) ;; free_kmalloc blocks
      end ;;
      c ← glob ramfs_data_cache; free_to c data
  end.

(** [while (new_capacity < needed) new_capacity *= 2]; after 32 turns the
    capacity is 0 and stays 0, and the loop does not end. *)
Fixpoint grow_capacity (fuel : nat) (needed new_capacity : Z) : FM Z :=
  if new_capacity <? needed then
    match fuel with
    | O => fault
    | Datatypes.S fuel' => grow_capacity fuel' needed (wrap32 (new_capacity * 2))
    end
  else mret new_capacity.

(** The entries of the new array are indeterminate until the copy and the loop
    have written them.  Without an old array there is no copy, and entries below
    [block_count] would keep what the heap left there: the model stops at such
    a file, and the [None]s the array starts with are never seen. *)
Definition ramfs_ensure_blocks (data needed : Z) : FM Z :=
  d ← ld data;
  if needed <=? rd_block_capacity d then mret VFS_OK
  else
    new_capacity ← grow_capacity 33 needed
      (if rd_block_capacity d =? 0 then RAMFS_INITIAL_BLOCKS else wrap32 (rd_block_capacity d * 2));
    r ← new_kmalloc (new_capacity * 8) (replicate (Z.to_nat new_capacity) (None : option Z));
    match r with
    | None => mret VFS_ENOMEM
    | Some new_blocks =>
        match rd_blocks d with
        | None => if 0 <? rd_block_count d then fault else mret tt
        | Some blocks =>
            l ← ld blocks;
            old ← lift (slice l 0 (rd_block_count d));
            upd new_blocks (λ l : list (option Z), splice l 0 old) ;;
            free_kmalloc blocks
        end ;;
        for_ (rd_block_count d) new_capacity
          (λ i, upd new_blocks (λ l : list (option Z), aset l i None)) ;;
        upd data (λ d, RamfsData (Some new_blocks) (rd_block_count d) new_capacity) ;;
        mret VFS_OK
    end.

(** ** Nodes *)

Definition ramfs_create_node (name : list Z) (type : Z) : FM (option Z) :=
  r ← vfs_node_alloc;
  match r with
  | None => mret None
  | Some node =>
      upd node (λ n, set_node_nlink 1 (set_node_size 0 (set_node_gid 0 (set_node_uid 0
        (set_node_permissions 0x1ED (set_node_type type (set_node_name (name_copy name) n))))))) ;;
      if type =? VFS_DIR then
        upd node (set_node_ops (Some ramfs_dir_ops)) ;; mret (Some node)
      else
        upd node (set_node_ops (Some ramfs_file_ops)) ;;
        data ← ramfs_data_alloc;
        match data with
        | None => vfs_node_free (Some node) ;; mret None
        | Some _ => upd node (set_node_private data) ;; mret (Some node)
        end
  end.

Definition ramfs_add_child (parent child : Z) : FM unit :=
  p ← ld parent;
  upd child (λ n, set_node_prev None (set_node_next (vn_children p)
    (set_node_parent (Some parent) n))) ;;
  match vn_children p with
  | Some first => upd first (set_node_prev (Some child))
  | None => mret tt
  end ;;
  upd parent (set_node_children (Some child)).

Definition ramfs_remove_child (parent child : Z) : FM unit :=
  c ← ld child;
  match vn_prev c with
  | Some p => upd p (set_node_next (vn_next c))
  | None => upd parent (set_node_children (vn_next c))
  end ;;
  match vn_next c with
  | Some n => upd n (set_node_prev (vn_prev c))
  | None => mret tt
  end ;;
  upd child (λ n, set_node_prev None (set_node_next None (set_node_parent None n))).

(** ** File operations *)

Definition ramfs_file_open (node flags : Z) : FM Z := mret VFS_OK.
Definition ramfs_file_close (node : Z) : FM unit := mret tt.

(** data->blocks[block_idx] *)
Definition block_at (d : ramfs_data) (block_idx : Z) : FM (option Z) :=
  blocks ← lift (rd_blocks d);
  l ← ld blocks;
  lift (aget l block_idx).

(** The block a file has at an index: [block_idx < data->block_count &&
    data->blocks[block_idx]]. *)
Definition present_block (data block_idx : Z) : FM (option Z) :=
  d ← ld data;
  if block_idx <? rd_block_count d then block_at d block_idx else mret None.

Fixpoint read_blocks (fuel : nat) (data pos remaining : Z) (dst : list Z) : FM (list Z) :=
  if 0 <? remaining then
    match fuel with
    | O => fault
    | Datatypes.S fuel' =>
        let block_idx := wrap32 (pos / RAMFS_BLOCK_SIZE) in
        let block_off := pos mod RAMFS_BLOCK_SIZE in
        let chunk := Z.min (RAMFS_BLOCK_SIZE - block_off) remaining in
        b ← present_block data block_idx;
        bytes ← match b with
          | Some block => l ← ld block; lift (slice (l : list Z) block_off chunk)
          | None => mret (replicate (Z.to_nat chunk) 0)
          end;
        read_blocks fuel' data (pos +u64 chunk) (remaining - chunk) (dst ++ bytes)
    end
  else mret dst.

(** The turns of the loops over the blocks of [n] bytes. *)
Definition turns (n : Z) : nat := Z.to_nat (n / RAMFS_BLOCK_SIZE + 2).

Definition ramfs_file_read (node size offset : Z) : FM (Z * list Z) :=
  n ← ld node;
  match vn_private n with
  | None => mret (VFS_EIO, [])
  | Some data =>
      if vn_size n <=? offset then mret (0, [])
      else
        let size := if vn_size n <? offset +u64 size then vn_size n - offset else size in
        dst ← read_blocks (turns size) data offset size [];
        mret (int64 size, dst)
  end.

(** One turn per block; [Some] is the result of an early return. *)
Fixpoint write_blocks (fuel : nat) (node data offset pos : Z) (src : list Z) : FM (option Z) :=
  if 0 <? alen src then
    match fuel with
    | O => fault
    | Datatypes.S fuel' =>
        let block_idx := wrap32 (pos / RAMFS_BLOCK_SIZE) in
        let block_off := pos mod RAMFS_BLOCK_SIZE in
        let chunk := Z.min (RAMFS_BLOCK_SIZE - block_off) (alen src) in
        let copy :=
          d ← ld data;
          b ← block_at d block_idx;
          block ← lift b;
          l ← ld block;
          _ ← lift (slice (l : list Z) block_off chunk);
          upd block (λ l : list Z, splice l block_off (take (Z.to_nat chunk) src)) ;;
          write_blocks fuel' node data offset (pos +u64 chunk) (drop (Z.to_nat chunk) src) in
        b ← present_block data block_idx;
        match b with
        | Some _ => copy
        | None =>
            r ← new_kmalloc RAMFS_BLOCK_SIZE (replicate (Z.to_nat RAMFS_BLOCK_SIZE) 0);
            match r with
            | None =>
                if offset <? pos then
                  n ← ld node;
                  (if vn_size n <? pos then upd node (set_node_size pos) else mret tt) ;;
                  mret (Some (int64 (pos -u64 offset)))
                else mret (Some VFS_ENOMEM)
            | Some new_block =>
                d ← ld data;
                blocks ← lift (rd_blocks d);
                l ← ld blocks;
                _ ← lift (aget (l : list (option Z)) block_idx);
                upd blocks (λ l : list (option Z), aset l block_idx (Some new_block)) ;;
                (if rd_block_count d <=? block_idx
                 then upd data (λ d, RamfsData (rd_blocks d) (block_idx +u32 1) (rd_block_capacity d))
                 else mret tt) ;;
                copy
            end
        end
    end
  else mret None.

Definition ramfs_file_write (node : Z) (buf : list Z) (offset : Z) : FM Z :=
  n ← ld node;
  match vn_private n with
  | None => mret VFS_EIO
  | Some data =>
      let end_offset := offset +u64 alen buf in
      let blocks_needed :=
        wrap32 (((end_offset +u64 RAMFS_BLOCK_SIZE) -u64 1) / RAMFS_BLOCK_SIZE) in
      err ← ramfs_ensure_blocks data blocks_needed;
      if negb (err =? VFS_OK) then mret err
      else
        r ← write_blocks (turns (alen buf)) node data offset offset buf;
        match r with
        | Some res => mret res
        | None =>
            n ← ld node;
            (if vn_size n <? end_offset then upd node (set_node_size end_offset) else mret tt) ;;
            mret (int64 (alen buf))
        end
  end.

Definition truncate_block (blocks i : Z) : FM unit :=
  l ← ld blocks;
  e ← lift (aget l i);
  match e with
  | Some b => free_kmalloc b ;; upd blocks (λ l : list (option Z), aset l i None)
  | None => mret tt
  end.

Definition ramfs_file_truncate (node size : Z) : FM Z :=
  n ← ld node;
  match vn_private n with
  | None => mret VFS_EIO
  | Some data =>
      (if size <? vn_size n then
         let new_blocks := wrap32 (((size +u64 RAMFS_BLOCK_SIZE) -u64 1) / RAMFS_BLOCK_SIZE) in
         d ← ld data;
         for_ new_blocks (rd_block_count d)
           (λ i, blocks ← lift (rd_blocks d); truncate_block blocks i) ;;
         upd data (λ d, RamfsData (rd_blocks d) new_blocks (rd_block_capacity d))
       else mret tt) ;;
      upd node (set_node_size size) ;;
      mret VFS_OK
  end.

Definition ramfs_file_stat (node : Z) (st : vfs_stat) : FM (Z * vfs_stat) :=
  n ← ld node;
  mret (VFS_OK, VfsStat (vn_size n) (vn_type n) (vn_permissions n) (vn_uid n) (vn_gid n)
    (vn_nlink n) (st_dev st) (st_rdev st) (st_ino st) (vn_atime n) (vn_mtime n) (vn_ctime n)).

End ramfs.

(** * The RAM file system: directories (fs/ramfs.c)

    The operations on the list of children of a directory, and the operation
    tables of files and directories. *)

Section ramfs_dir.
Context {S : Type} {KH : KHeap S}.

Abbreviation FM := (M (fs S)).

(** No list of children has more nodes than there are objects. *)
Definition walk_fuel : FM nat := gets (λ s, Datatypes.S (size (fs_mem s))).

Definition ramfs_dir_open (node flags : Z) : FM Z := mret VFS_OK.
Definition ramfs_dir_close (node : Z) : FM unit := mret tt.

Fixpoint nth_child (fuel : nat) (child : option Z) (i index : Z) : FM (Z * option dirent) :=
  match child, fuel with
  | None, _ => mret (VFS_ENOENT, None)
  | Some _, O => fault
  | Some c, Datatypes.S fuel' =>
      n ← ld c;
      if i =? index then mret (VFS_OK, Some (Dirent (name_copy (vn_name n)) (vn_type n) c))
      else nth_child fuel' (vn_next n) (i +u32 1) index
  end.

Definition ramfs_dir_readdir (node index : Z) : FM (Z * option dirent) :=
  n ← ld node; fuel ← walk_fuel; nth_child fuel (vn_children n) 0 index.

(** The first child of that name: [strcmp(child->name, name) == 0]. *)
Fixpoint find_child (fuel : nat) (child : option Z) (name : list Z) : FM (option Z) :=
  match child, fuel with
  | None, _ => mret None
  | Some _, O => fault
  | Some c, Datatypes.S fuel' =>
      n ← ld c;
      if decide (vn_name n = name) then mret (Some c) else find_child fuel' (vn_next n) name
  end.

Definition child_named (dir : Z) (name : list Z) : FM (option Z) :=
  n ← ld dir; fuel ← walk_fuel; find_child fuel (vn_children n) name.

Definition ramfs_dir_finddir (node : Z) (name : list Z) : FM (option Z) :=
  r ← child_named node name;
  match r with
  | Some child => vfs_node_ref (Some child) ;; mret (Some child)
  | None => mret None
  end.

Definition ramfs_dir_create (parent : Z) (name : list Z) (type : Z) : FM Z :=
  r ← ramfs_dir_finddir parent name;
  match r with
  | Some _ => mret VFS_EEXIST
  | None =>
      r ← ramfs_create_node name type;
      match r with
      | None => mret VFS_ENOMEM
      | Some node =>
          p ← ld parent;
          upd node (set_node_mount (vn_mount p)) ;;
          ramfs_add_child parent node ;;
          mret VFS_OK
      end
  end.

Definition ramfs_dir_unlink (parent : Z) (name : list Z) : FM Z :=
  r ← child_named parent name;
  match r with
  | None => mret VFS_ENOENT
  | Some node =>
      n ← ld node;
      if vn_type n =? VFS_DIR then mret VFS_EISDIR
      else if 0 <? vn_open_count n then mret VFS_EBUSY
      else
        ramfs_remove_child parent node ;;
        n ← ld node;
        match vn_private n with
        | Some _ => ramfs_data_free (vn_private n)
        | None => mret tt
        end ;;
        vfs_node_unref (Some node) ;;
        mret VFS_OK
  end.

Definition ramfs_dir_mkdir (parent : Z) (name : list Z) : FM Z :=
  ramfs_dir_create parent name VFS_DIR.

Definition ramfs_dir_rmdir (parent : Z) (name : list Z) : FM Z :=
  r ← child_named parent name;
  match r with
  | None => mret VFS_ENOENT
  | Some node =>
      n ← ld node;
      if negb (vn_type n =? VFS_DIR) then mret VFS_ENOTDIR
      else match vn_children n with
        | Some _ => mret VFS_ENOTEMPTY
        | None =>
            if 0 <? vn_open_count n then mret VFS_EBUSY
            else
              ramfs_remove_child parent node ;;
              vfs_node_unref (Some node) ;;
              mret VFS_OK
        end
  end.

Definition ramfs_dir_rename (old_parent : Z) (old_name : list Z)
    (new_parent : Z) (new_name : list Z) : FM Z :=
  r ← child_named old_parent old_name;
  match r with
  | None => mret VFS_ENOENT
  | Some node =>
      n ← ld node;
      if 0 <? vn_open_count n then mret VFS_EBUSY
      else
        r ← child_named new_parent new_name;
        match r with
        | Some _ => mret VFS_EEXIST
        | None =>
            ramfs_remove_child old_parent node ;;
            upd node (set_node_name (name_copy new_name)) ;;
            ramfs_add_child new_parent node ;;
            mret VFS_OK
        end
  end.

(** ** Tables *)

Definition ramfs_file_table : node_ops S :=
  {| op_open := Some ramfs_file_open; op_close := Some ramfs_file_close;
     op_read := Some ramfs_file_read; op_write := Some ramfs_file_write;
     op_truncate := Some ramfs_file_truncate; op_stat := Some ramfs_file_stat;
     op_readdir := None; op_finddir := None; op_create := None; op_unlink := None;
     op_mkdir := None; op_rmdir := None; op_rename := None; op_ioctl := None;
     op_symlink := None; op_readlink := None |}.

Definition ramfs_dir_table : node_ops S :=
  {| op_open := Some ramfs_dir_open; op_close := Some ramfs_dir_close;
     op_read := None; op_write := None; op_truncate := None; op_stat := Some ramfs_file_stat;
     op_readdir := Some ramfs_dir_readdir; op_finddir := Some ramfs_dir_finddir;
     op_create := Some ramfs_dir_create; op_unlink := Some ramfs_dir_unlink;
     op_mkdir := Some ramfs_dir_mkdir; op_rmdir := Some ramfs_dir_rmdir;
     op_rename := Some ramfs_dir_rename; op_ioctl := None;
     op_symlink := None; op_readlink := None |}.

(** ** The file system type *)

Definition ramfs_mount (source : option (list Z)) (flags : Z) : FM (option Z) :=
  ramfs_create_node [] VFS_DIR.

Definition ramfs_unmount (mount : Z) : FM Z := mret VFS_OK.

Definition ramfs_fs_table : fs_ops S :=
  {| fo_name := Some (chars "ramfs"); fo_mount := Some ramfs_mount;
     fo_unmount := Some ramfs_unmount |}.

End ramfs_dir.
