(* ===== verification/Vfs.v ===== *)
(** * The virtual file system: types, mounts and paths (fs/vfs.c)

    Initialisation, registration of file system types, mounts, the resolution
    of paths through the finddir operation of directories, the permission check
    and the choice of the descriptor table. *)

From Stdlib Require Import Ascii.
From stdpp Require Import strings.
From S2P Require Import Prelude KHeap Slab CString FsObj FdTable.

(** ** Pieces of a path *)

Definition slash : Z := chr "/".

Fixpoint skip_slashes (p : list Z) : list Z :=
  match p with
  | c :: p' => if c =? slash then skip_slashes p' else p
  | [] => []
  end.

(** At most [n] characters up to the next slash. *)
Fixpoint component (n : nat) (p : list Z) : list Z :=
  match n, p with
  | Datatypes.S n', c :: p' => if c =? slash then [] else c :: component n' p'
  | _, _ => []
  end.

(** strrchr(path, '/'): the index of the last slash. *)
Fixpoint last_slash (p : list Z) (i : Z) : option Z :=
  match p with
  | [] => None
  | c :: p' =>
      match last_slash p' (i + 1) with
      | Some j => Some j
      | None => if c =? slash then Some i else None
      end
  end.

Section vfs.
Context {S : Type} {KH : KHeap S} {DR : Drivers S}.

Abbreviation FM := (M (fs S)).

(** ** Initialisation *)

Definition vfs_init : FM unit :=
  upd_glob (set_registered (replicate (Z.to_nat VFS_MAX_FS) None) 0) ;;
  upd_glob (set_mount_list None) ;;
  upd_glob (set_vfs_root None) ;;
  upd_glob (set_kernel_fds (replicate (Z.to_nat VFS_MAX_FDS) None)) ;;
  a ← on_heap (kh_cache_create "vfs_node" sizeof_vfs_node_t 8 SLAB_ZERO);
  b ← on_heap (kh_cache_create "vfs_file" sizeof_file_t 8 SLAB_ZERO);
  c ← on_heap (kh_cache_create "vfs_mount" sizeof_vfs_mount_t 8 SLAB_ZERO);
  upd_glob (set_vfs_caches a b c) ;;
  match a, b, c with
  | Some _, Some _, Some _ => mret tt
  | _, _, _ => fault
  end.

(** ** Permissions *)

Definition EACCES : Z := 13.

Definition vfs_check_permission (node : option Z) (access_mode : Z) : FM Z :=
  match node with
  | None => mret VFS_EINVAL
  | Some x =>
      n ← ld x;
      if (vn_type n =? VFS_CHARDEV) || (vn_type n =? VFS_BLKDEV) || (vn_type n =? VFS_DIR)
      then mret VFS_OK
      else
        proc ← glob process_current;
        match proc with
        | None => mret VFS_OK
        | Some p =>
            let required :=
              if has access_mode O_RDWR then Z.lor VFS_PERM_READ VFS_PERM_WRITE
              else if has access_mode O_WRONLY then VFS_PERM_WRITE else VFS_PERM_READ in
            let allowed perms :=
              if Z.land perms required =? required then VFS_OK else - EACCES in
            if p_euid p =? 0 then mret VFS_OK
            else if p_euid p =? vn_uid n
            then mret (allowed (Z.land (Z.shiftr (vn_permissions n) 6) 7))
            else if p_egid p =? vn_gid n
            then mret (allowed (Z.land (Z.shiftr (vn_permissions n) 3) 7))
            else mret (allowed (Z.land (vn_permissions n) 7))
        end
  end.

(** ** Registration of file system types *)

(** registered_fs[i]->name *)
Definition registered_name (g : globals) (i : Z) : option (list Z) :=
  aget (registered_fs g) i ≫= λ e, e ≫= λ t, fo_name (fs_ops_at t).

(** The first registered type of that name, among [n] from [i] on. *)
Fixpoint find_registered (n : nat) (i : Z) (name : list Z) : FM (option Z) :=
  match n with
  | O => mret None
  | Datatypes.S n' =>
      g ← glob id;
      m ← lift (registered_name g i);
      if decide (m = name) then mret (Some i) else find_registered n' (i + 1) name
  end.

Definition vfs_register_fs (fs0 : option fs_type) : FM Z :=
  match fs0, fs0 ≫= (λ t, fo_name (fs_ops_at t)) with
  | Some t, Some name =>
      n ← glob num_registered_fs;
      r ← find_registered (Z.to_nat n) 0 name;
      match r with
      | Some _ => mret VFS_EEXIST
      | None =>
          if VFS_MAX_FS <=? n then mret VFS_ENOMEM
          else
            upd_glob (λ g, set_registered (aset (registered_fs g) n (Some t)) (n + 1) g) ;;
            mret VFS_OK
      end
  | _, _ => mret VFS_EINVAL
  end.

Definition vfs_unregister_fs (name0 : option (list Z)) : FM Z :=
  match name0 with
  | None => mret VFS_EINVAL
  | Some name =>
      n ← glob num_registered_fs;
      r ← find_registered (Z.to_nat n) 0 name;
      match r with
      | None => mret VFS_ENOENT
      | Some i =>
          for_ i (n - 1) (λ j,
            g ← glob id;
            e ← lift (aget (registered_fs g) (j + 1));
            upd_glob (λ g, set_registered (aset (registered_fs g) j e) (num_registered_fs g) g)) ;;
          upd_glob (λ g, set_registered (registered_fs g) (num_registered_fs g - 1) g) ;;
          mret VFS_OK
      end
  end.

Definition vfs_find_fs (name : list Z) : FM (option fs_type) :=
  n ← glob num_registered_fs;
  r ← find_registered (Z.to_nat n) 0 name;
  match r with
  | None => mret None
  | Some i => g ← glob id; e ← lift (aget (registered_fs g) i); mret e
  end.

(** ** Mounts *)

Definition root_path : list Z := [slash].

Definition vfs_mount (source : option (list Z)) (target fstype : list Z) (flags : Z) : FM Z :=
  r ← vfs_find_fs fstype;
  match r with
  | None => mret VFS_EINVAL
  | Some t =>
      match fo_mount (fs_ops_at t) with
      | None => mret VFS_EINVAL
      | Some mount =>
          c ← glob mount_cache;
          m ← new_from c (VfsMount [] None None None None None);
          match m with
          | None => mret VFS_ENOMEM
          | Some mnt =>
              r ← mount source flags;
              match r with
              | None => free_to c mnt ;; mret VFS_EIO
              | Some root =>
                  upd mnt (λ m, VfsMount (take (Z.to_nat (VFS_PATH_MAX - 1)) target) (Some root)
                    (mt_mountpoint m) (Some t) (mt_private m) (mt_next m)) ;;
                  upd root (set_node_mount (Some mnt)) ;;
                  (if decide (target = root_path) then upd_glob (set_vfs_root (Some root))
                   else mret tt) ;;
                  next ← glob mount_list;
                  upd mnt (set_mt_next next) ;;
                  upd_glob (set_mount_list (Some mnt)) ;;
                  mret VFS_OK
              end
          end
      end
  end.

Fixpoint unmount_from (fuel : nat) (prev mnt : option Z) (target : list Z) : FM Z :=
  match mnt, fuel with
  | None, _ => mret VFS_ENOENT
  | Some _, O => fault
  | Some x, Datatypes.S fuel' =>
      m ← ld x;
      if decide (mt_path m = target) then
        match prev with
        | Some p => upd p (set_mt_next (mt_next m))
        | None => upd_glob (set_mount_list (mt_next m))
        end ;;
        match mt_fs m ≫= (λ t, fo_unmount (fs_ops_at t)) with
        | Some unmount => unmount x ;; mret tt
        | None => mret tt
        end ;;
        (if decide (target = root_path) then upd_glob (set_vfs_root None) else mret tt) ;;
        c ← glob mount_cache;
        free_to c x ;;
        mret VFS_OK
      else unmount_from fuel' (Some x) (mt_next m) target
  end.

Definition vfs_unmount (target : list Z) : FM Z :=
  l ← glob mount_list;
  fuel ← gets (λ s, Datatypes.S (size (fs_mem s)));
  unmount_from fuel None l target.

(** ** Paths *)

Definition dot : list Z := chars ".".
Definition dotdot : list Z := chars "..".

Definition lookup_in_dir (dir0 : option Z) (name : list Z) : FM (option Z) :=
  match dir0 with
  | None => mret None
  | Some dir =>
      d ← ld dir;
      if negb (vn_type d =? VFS_DIR) then mret None
      else if decide (name = dot) then vfs_node_ref (Some dir) ;; mret (Some dir)
      else if decide (name = dotdot) then
        let parent := match vn_parent d with Some p => p | None => dir end in
        vfs_node_ref (Some parent) ;; mret (Some parent)
      else match vn_ops d ≫= (λ ops, op_finddir (ops_at ops)) with
        | Some finddir => finddir dir name
        | None => mret None
        end
  end.

Fixpoint lookup_loop (fuel : nat) (current : Z) (p : list Z) : FM (option Z) :=
  match skip_slashes p, fuel with
  | [], _ => mret (Some current)
  | _, O => fault
  | p', Datatypes.S fuel' =>
      let name := component (Z.to_nat VFS_NAME_MAX) p' in
      next ← lookup_in_dir (Some current) name;
      vfs_node_unref (Some current) ;;
      match next with
      | None => mret None
      | Some n => lookup_loop fuel' n (drop (length name) p')
      end
  end.

Definition vfs_lookup (path0 : option (list Z)) : FM (option Z) :=
  root0 ← glob vfs_root;
  match path0, root0 with
  | Some path, Some root =>
      if decide (path = [] ∨ path = root_path) then
        vfs_node_ref (Some root) ;; mret (Some root)
      else
        let p := match path with c :: p' => if c =? slash then p' else path | [] => path end in
        vfs_node_ref (Some root) ;;
        lookup_loop (length path) root p
  | _, _ => mret None
  end.

(** [name_size] is the size of the buffer for the name. *)
Definition vfs_lookup_parent (path0 : option (list Z)) (name_size : Z) :
    FM (option Z * list Z) :=
  match path0 with
  | None => mret (None, [])
  | Some path =>
      if name_size =? 0 then mret (None, [])
      else
        let cut := take (Z.to_nat (name_size - 1)) in
        match last_slash path 0 with
        | None => r ← vfs_lookup (Some root_path); mret (r, cut path)
        | Some i =>
            let name := cut (drop (Z.to_nat (i + 1)) path) in
            if i =? 0 then r ← vfs_lookup (Some root_path); mret (r, name)
            else
              let parent_len := if VFS_PATH_MAX <=? i then VFS_PATH_MAX - 1 else i in
              r ← vfs_lookup (Some (take (Z.to_nat parent_len) path));
              mret (r, name)
        end
  end.

(** ** Descriptors *)

Definition get_current_fd_table : FM (option Z) :=
  ready ← glob process_is_initialized;
  proc ← glob process_current;
  mret (if (ready : bool) then proc ≫= p_fd_table else None).

Fixpoint first_null (l : list (option Z)) (i : Z) : option Z :=
  match l with
  | [] => None
  | Some _ :: l' => first_null l' (i + 1)
  | None :: _ => Some i
  end.

Definition alloc_fd (file : Z) : FM Z :=
  fdt ← get_current_fd_table;
  match fdt with
  | Some t => fd_table_alloc (Some t) (Some file) 0
  | None =>
      l ← glob kernel_fds;
      match first_null l 0 with
      | Some i => upd_glob (set_kernel_fds (aset l i (Some file))) ;; mret i
      | None => mret (-1)
      end
  end.

Definition free_fd (fd : Z) : FM unit :=
  if (fd <? 0) || (VFS_MAX_FDS <=? fd) then mret tt
  else
    fdt ← get_current_fd_table;
    match fdt with
    | Some t => fd_table_free (Some t) fd ;; mret tt
    | None => upd_glob (λ g, set_kernel_fds (aset (kernel_fds g) fd None) g)
    end.

Definition get_file (fd : Z) : FM (option Z) :=
  if (fd <? 0) || (VFS_MAX_FDS <=? fd) then mret None
  else
    fdt ← get_current_fd_table;
    match fdt with
    | Some t => fd_table_get (Some t) fd
    | None => g ← glob id; lift (aget (kernel_fds g) fd)
    end.

(** [file && file != 1], as every operation on a descriptor tests it. *)
Definition open_file (fd : Z) : FM (option Z) :=
  r ← get_file fd;
  mret (match r with Some f => if f =? 1 then None else Some f | None => None end).

End vfs.
