(* ===== verification/VfsFile.v ===== *)
(** * The virtual file system: operations on files and directories (fs/vfs.c)

    Everything the system calls use: open, close, read, write, seek, stat, the
    duplication of descriptors, and the operations on directories, which go to
    the operation table of the node. *)

From stdpp Require Import strings.
From S2P Require Import Prelude Slab KHeap CString FsObj FdTable Pipe Ramfs Vfs.

(** The size of the name buffers, and the buffer of a name. *)
Definition NAME_BUF : Z := VFS_NAME_MAX + 1.

(** Addition of int64_t values; its overflow is undefined. *)
Definition add_int64 {S} (x y : Z) : M S Z :=
  if decide (- 2 ^ 63 ≤ x + y < 2 ^ 63) then mret (x + y) else fault.

Section vfs_file.
Context {S : Type} {KH : KHeap S} {DR : Drivers S}.

Abbreviation FM := (M (fs S)).

(** A function of the operation table of a node, if there is one. *)
Definition node_op {A} (f : node_ops S → option A) (n : vfs_node) : option A :=
  vn_ops n ≫= λ ops, f (ops_at ops).

(** ** open and close *)

(** The O_CREAT part of vfs_open: an error, or the node looked up again. *)
Definition open_create (path : list Z) : FM (Z + option Z) :=
  r ← vfs_lookup_parent (Some path) NAME_BUF;
  match r with
  | (None, _) => mret (inl VFS_ENOENT)
  | (Some parent, name) =>
      p ← ld parent;
      if negb (vn_type p =? VFS_DIR) then
        vfs_node_unref (Some parent) ;; mret (inl VFS_ENOTDIR)
      else match node_op op_create p with
        | Some create =>
            err ← create parent name VFS_FILE;
            vfs_node_unref (Some parent) ;;
            if negb (err =? VFS_OK) then mret (inl err)
            else node ← vfs_lookup (Some path); mret (inr node)
        | None => vfs_node_unref (Some parent) ;; mret (inl VFS_EIO)
        end
  end.

(** From the descriptor on: the open callback, O_TRUNC and O_APPEND. *)
Definition open_finish (node file fd flags : Z) : FM Z :=
  n ← ld node;
  err ← match node_op op_open n with Some open => open node flags | None => mret VFS_OK end;
  if negb (err =? VFS_OK) then
    free_fd fd ;;
    c ← glob file_cache;
    free_to c file ;;
    vfs_node_unref (Some node) ;;
    mret err
  else
    upd node (λ n, set_node_open_count (vn_open_count n +u32 1) n) ;;
    n ← ld node;
    (if has flags O_TRUNC && (vn_type n =? VFS_FILE) then
       match node_op op_truncate n with
       | Some truncate => truncate node 0 ;; mret tt
       | None => mret tt
       end
     else mret tt) ;;
    (if has flags O_APPEND then n ← ld node; upd file (set_f_offset (vn_size n)) else mret tt) ;;
    mret fd.

Definition open_node (node flags : Z) : FM Z :=
  n ← ld node;
  if has flags O_DIRECTORY && negb (vn_type n =? VFS_DIR) then
    vfs_node_unref (Some node) ;; mret VFS_ENOTDIR
  else
    perm_err ← vfs_check_permission (Some node) (Z.land flags O_ACCMODE);
    if negb (perm_err =? VFS_OK) then vfs_node_unref (Some node) ;; mret perm_err
    else
      c ← glob file_cache;
      r ← new_from c (File (Some node) 0 flags 1 0);
      match r with
      | None => vfs_node_unref (Some node) ;; mret VFS_ENOMEM
      | Some file =>
          fd ← alloc_fd file;
          if fd <? 0 then
            free_to c file ;; vfs_node_unref (Some node) ;; mret VFS_EMFILE
          else open_finish node file fd flags
      end.

Definition vfs_open (path0 : option (list Z)) (flags : Z) : FM Z :=
  match path0 with
  | None => mret VFS_EINVAL
  | Some path =>
      node ← vfs_lookup (Some path);
      r ← match node with
          | None => if has flags O_CREAT then open_create path else mret (inr None)
          | Some _ => mret (inr node)
          end;
      match r with
      | inl err => mret err
      | inr None => mret VFS_ENOENT
      | inr (Some node) => open_node node flags
      end
  end.

Definition vfs_close (fd : Z) : FM unit :=
  r ← open_file fd;
  match r with
  | None => mret tt
  | Some file =>
      f ← ld file;
      match f_node f with
      | Some node =>
          n ← ld node;
          match node_op op_close n with Some close => close node | None => mret tt end ;;
          upd node (λ n, set_node_open_count (vn_open_count n -u32 1) n) ;;
          vfs_node_unref (Some node)
      | None => mret tt
      end ;;
      c ← glob file_cache;
      free_to c file ;;
      free_fd fd
  end.

(** ** read, write, seek *)

(** The file and the node of a descriptor; [None] is VFS_EBADF. *)
Definition fd_node (fd : Z) : FM (option (Z * Z)) :=
  r ← open_file fd;
  match r with
  | None => mret None
  | Some file => f ← ld file; mret ((λ node, (file, node)) <$> f_node f)
  end.

(** [buf] says that the buffer is not NULL. *)
Definition vfs_read (fd : Z) (buf : bool) (size : Z) : FM (Z * list Z) :=
  if negb buf then mret (VFS_EBADF, [])
  else
    r ← fd_node fd;
    match r with
    | None => mret (VFS_EBADF, [])
    | Some (file, node) =>
        f ← ld file;
        if Z.land (f_flags f) O_ACCMODE =? O_WRONLY then mret (VFS_EBADF, [])
        else
          n ← ld node;
          if vn_type n =? VFS_DIR then mret (VFS_EISDIR, [])
          else match node_op op_read n with
            | None => mret (VFS_EIO, [])
            | Some read =>
                res ← read node size (f_offset f);
                (if 0 <? res.1 then upd file (λ f, set_f_offset (f_offset f +u64 res.1) f)
                 else mret tt) ;;
                mret res
            end
    end.

Definition vfs_write (fd : Z) (buf0 : option (list Z)) : FM Z :=
  match buf0 with
  | None => mret VFS_EBADF
  | Some buf =>
      r ← fd_node fd;
      match r with
      | None => mret VFS_EBADF
      | Some (file, node) =>
          f ← ld file;
          if Z.land (f_flags f) O_ACCMODE =? O_RDONLY then mret VFS_EBADF
          else
            n ← ld node;
            if vn_type n =? VFS_DIR then mret VFS_EISDIR
            else match node_op op_write n with
              | None => mret VFS_EIO
              | Some write =>
                  (if has (f_flags f) O_APPEND then upd file (set_f_offset (vn_size n))
                   else mret tt) ;;
                  f ← ld file;
                  bytes ← write node buf (f_offset f);
                  (if 0 <? bytes then upd file (λ f, set_f_offset (f_offset f +u64 bytes) f)
                   else mret tt) ;;
                  mret bytes
              end
      end
  end.

Definition vfs_seek (fd offset whence : Z) : FM Z :=
  r ← fd_node fd;
  match r with
  | None => mret VFS_EBADF
  | Some (file, node) =>
      f ← ld file;
      n ← ld node;
      let finish new_offset :=
        if new_offset <? 0 then mret VFS_EINVAL
        else upd file (set_f_offset new_offset) ;; mret new_offset in
      if whence =? SEEK_SET then finish offset
      else if whence =? SEEK_CUR then x ← add_int64 (int64 (f_offset f)) offset; finish x
      else if whence =? SEEK_END then x ← add_int64 (int64 (vn_size n)) offset; finish x
      else mret VFS_EINVAL
  end.

(** ** stat, truncate, ioctl *)

Definition stat_of (x : Z) (n : vfs_node) : vfs_stat :=
  VfsStat (vn_size n) (vn_type n) (vn_permissions n) (vn_uid n) (vn_gid n) (vn_nlink n) 0
    (vn_rdev n) x (vn_atime n) (vn_mtime n) (vn_ctime n).

(** [st] says that the buffer for the result is not NULL. *)
Definition vfs_stat (path0 : option (list Z)) (st : bool) : FM (Z * option FsObj.vfs_stat) :=
  match path0, st with
  | Some path, true =>
      r ← vfs_lookup (Some path);
      match r with
      | None => mret (VFS_ENOENT, None)
      | Some node =>
          n ← ld node;
          vfs_node_unref (Some node) ;;
          mret (VFS_OK, Some (stat_of node n))
      end
  | _, _ => mret (VFS_EINVAL, None)
  end.

Definition vfs_fstat (fd : Z) (st : bool) : FM (Z * option FsObj.vfs_stat) :=
  if negb st then mret (VFS_EINVAL, None)
  else
    r ← fd_node fd;
    match r with
    | None => mret (VFS_EBADF, None)
    | Some (_, node) => n ← ld node; mret (VFS_OK, Some (stat_of node n))
    end.

Definition vfs_truncate (path0 : option (list Z)) (size : Z) : FM Z :=
  r ← vfs_lookup path0;
  match r with
  | None => mret VFS_ENOENT
  | Some node =>
      n ← ld node;
      if negb (vn_type n =? VFS_FILE) then vfs_node_unref (Some node) ;; mret VFS_EISDIR
      else
        err ← match node_op op_truncate n with
              | Some truncate => truncate node size
              | None => mret VFS_EIO
              end;
        vfs_node_unref (Some node) ;;
        mret err
  end.

Definition vfs_ioctl (fd request arg : Z) : FM Z :=
  if (fd <? 0) || (VFS_MAX_FDS <=? fd) then mret VFS_EBADF
  else
    r ← fd_node fd;
    match r with
    | None => mret VFS_EBADF
    | Some (_, node) =>
        n ← ld node;
        match node_op op_ioctl n with
        | Some ioctl => ioctl node request arg
        | None => mret VFS_EINVAL
        end
    end.

(** ** Duplication of descriptors *)

(** One more descriptor of a file, and the way back. *)
Definition share_file (file : Z) : FM unit :=
  upd file (λ f, set_f_ref_count (f_ref_count f +u32 1) f) ;;
  f ← ld file; vfs_node_ref (f_node f).

Definition unshare_file (file : Z) : FM unit :=
  upd file (λ f, set_f_ref_count (f_ref_count f -u32 1) f) ;;
  f ← ld file; vfs_node_unref (f_node f).

Definition vfs_dup (oldfd : Z) : FM Z :=
  if (oldfd <? 0) || (VFS_MAX_FDS <=? oldfd) then mret VFS_EBADF
  else
    r ← open_file oldfd;
    match r with
    | None => mret VFS_EBADF
    | Some file =>
        share_file file ;;
        newfd ← alloc_fd file;
        if newfd <? 0 then unshare_file file ;; mret VFS_EMFILE else mret newfd
    end.

Definition vfs_dup2 (oldfd newfd : Z) : FM Z :=
  if (oldfd <? 0) || (VFS_MAX_FDS <=? oldfd) || (newfd <? 0) || (VFS_MAX_FDS <=? newfd)
  then mret VFS_EBADF
  else
    r ← open_file oldfd;
    match r with
    | None => mret VFS_EBADF
    | Some file =>
        if oldfd =? newfd then mret newfd
        else
          old ← open_file newfd;
          match old with Some _ => vfs_close newfd | None => mret tt end ;;
          share_file file ;;
          fdt ← get_current_fd_table;
          match fdt with
          | Some t =>
              result ← fd_table_alloc_at (Some t) newfd (Some file) 0;
              if result <? 0 then unshare_file file ;; mret VFS_EBADF else mret newfd
          | None =>
              upd_glob (λ g, set_kernel_fds (aset (kernel_fds g) newfd (Some file)) g) ;;
              mret newfd
          end
    end.

End vfs_file.

(** * The virtual file system: directories, links and attributes (fs/vfs.c)

    The operations that change directories find the parent of the path and go
    to its operation table; mknod links a node of its own into the parent. *)

Section vfs_dir.
Context {S : Type} {KH : KHeap S} {DR : Drivers S}.

Abbreviation FM := (M (fs S)).

(** The parent of a path, when it is a directory, and the last name of the
    path; [body] ends with the reference to the parent given up. *)
Definition in_parent (path0 : option (list Z)) (body : Z → vfs_node → list Z → FM Z) : FM Z :=
  match path0 with
  | None => mret VFS_EINVAL
  | Some path =>
      r ← vfs_lookup_parent (Some path) NAME_BUF;
      match r with
      | (None, _) => mret VFS_ENOENT
      | (Some parent, name) =>
          p ← ld parent;
          if negb (vn_type p =? VFS_DIR) then
            vfs_node_unref (Some parent) ;; mret VFS_ENOTDIR
          else body parent p name
      end
  end.

(** A function of the table of the parent, VFS_EIO when there is none. *)
Definition parent_op (op : node_ops S → option (Z → list Z → FM Z))
    (parent : Z) (p : vfs_node) (name : list Z) : FM Z :=
  err ← match node_op op p with Some f => f parent name | None => mret VFS_EIO end;
  vfs_node_unref (Some parent) ;;
  mret err.

Definition vfs_mkdir (path : option (list Z)) : FM Z := in_parent path (parent_op op_mkdir).
Definition vfs_rmdir (path : option (list Z)) : FM Z := in_parent path (parent_op op_rmdir).
Definition vfs_unlink (path : option (list Z)) : FM Z := in_parent path (parent_op op_unlink).

Definition vfs_rename (oldpath newpath : option (list Z)) : FM Z :=
  match oldpath, newpath with
  | Some old, Some new =>
      r ← vfs_lookup_parent (Some old) NAME_BUF;
      match r with
      | (None, _) => mret VFS_ENOENT
      | (Some old_parent, old_name) =>
          r ← vfs_lookup_parent (Some new) NAME_BUF;
          match r with
          | (None, _) => vfs_node_unref (Some old_parent) ;; mret VFS_ENOENT
          | (Some new_parent, new_name) =>
              p ← ld old_parent;
              q ← ld new_parent;
              if negb (vn_type p =? VFS_DIR) || negb (vn_type q =? VFS_DIR) then
                vfs_node_unref (Some old_parent) ;; vfs_node_unref (Some new_parent) ;;
                mret VFS_ENOTDIR
              else
                err ← match node_op op_rename p with
                      | Some rename => rename old_parent old_name new_parent new_name
                      | None => mret VFS_EIO
                      end;
                vfs_node_unref (Some old_parent) ;; vfs_node_unref (Some new_parent) ;;
                mret err
          end
      end
  | _, _ => mret VFS_EINVAL
  end.

(** [dent] says that the buffer is not NULL. *)
Definition vfs_readdir (fd : Z) (dent : bool) : FM (Z * option dirent) :=
  if negb dent then mret (VFS_EINVAL, None)
  else
    r ← fd_node fd;
    match r with
    | None => mret (VFS_EBADF, None)
    | Some (file, node) =>
        f ← ld file;
        n ← ld node;
        if negb (vn_type n =? VFS_DIR) then mret (VFS_ENOTDIR, None)
        else match node_op op_readdir n with
          | None => mret (VFS_EIO, None)
          | Some readdir =>
              res ← readdir node (f_dir_index f);
              (if res.1 =? VFS_OK then upd file (λ f, set_f_dir_index (f_dir_index f +u32 1) f)
               else mret tt) ;;
              mret res
          end
    end.

(** The type of a node from the mode of mknod. *)
Definition mknod_type (mode : Z) : option Z :=
  let file_type := Z.land mode 0xF000 in
  if file_type =? 0x2000 then Some VFS_CHARDEV
  else if file_type =? 0x6000 then Some VFS_BLKDEV
  else if file_type =? 0x8000 then Some VFS_FILE
  else if file_type =? 0x1000 then Some VFS_PIPE
  else None.

Definition vfs_mknod (path : option (list Z)) (mode dev : Z) : FM Z :=
  in_parent path (λ parent _ name,
    existing ← lookup_in_dir (Some parent) name;
    match existing with
    | Some e =>
        vfs_node_unref (Some e) ;; vfs_node_unref (Some parent) ;; mret VFS_EEXIST
    | None =>
        match mknod_type mode with
        | None => vfs_node_unref (Some parent) ;; mret VFS_EINVAL
        | Some vfs_type =>
            r ← vfs_node_alloc;
            match r with
            | None => vfs_node_unref (Some parent) ;; mret VFS_ENOMEM
            | Some node =>
                upd node (λ n, set_node_gid 0 (set_node_uid 0 (set_node_rdev dev
                  (set_node_permissions (Z.land mode 0x1FF) (set_node_type vfs_type
                    (set_node_name (name_copy name) n)))))) ;;
                p ← ld parent;
                upd node (λ n, set_node_next (vn_children p) (set_node_parent (Some parent) n)) ;;
                match vn_children p with
                | Some first => upd first (set_node_prev (Some node))
                | None => mret tt
                end ;;
                upd parent (set_node_children (Some node)) ;;
                vfs_node_unref (Some parent) ;;
                mret VFS_OK
            end
        end
    end).

Definition vfs_symlink (target0 linkpath : option (list Z)) : FM Z :=
  match target0 with
  | None => mret VFS_EINVAL
  | Some target =>
      in_parent linkpath (λ parent p name,
        existing ← lookup_in_dir (Some parent) name;
        match existing with
        | Some e =>
            vfs_node_unref (Some e) ;; vfs_node_unref (Some parent) ;; mret VFS_EEXIST
        | None =>
            err ← match node_op op_symlink p with
                  | Some symlink => symlink parent name target
                  | None => mret VFS_EIO
                  end;
            vfs_node_unref (Some parent) ;;
            mret err
        end)
  end.

Definition vfs_readlink (path0 : option (list Z)) (buf : bool) (size : Z) : FM (Z * list Z) :=
  match path0 with
  | None => mret (VFS_EINVAL, [])
  | Some path =>
      if negb buf || (size =? 0) then mret (VFS_EINVAL, [])
      else
        r ← vfs_lookup (Some path);
        match r with
        | None => mret (VFS_ENOENT, [])
        | Some node =>
            n ← ld node;
            if negb (vn_type n =? VFS_SYMLINK) then
              vfs_node_unref (Some node) ;; mret (VFS_EINVAL, [])
            else
              res ← match node_op op_readlink n with
                    | Some readlink => readlink node size
                    | None => mret (VFS_EIO, [])
                    end;
              vfs_node_unref (Some node) ;;
              mret res
        end
  end.

(** A change of the attributes of the node of a path or of a descriptor. *)
Definition change_path (path0 : option (list Z)) (f : vfs_node → vfs_node) : FM Z :=
  match path0 with
  | None => mret VFS_EINVAL
  | Some path =>
      r ← vfs_lookup (Some path);
      match r with
      | None => mret VFS_ENOENT
      | Some node => upd node f ;; vfs_node_unref (Some node) ;; mret VFS_OK
      end
  end.

Definition change_fd (fd : Z) (f : vfs_node → vfs_node) : FM Z :=
  r ← fd_node fd;
  match r with
  | None => mret VFS_EBADF
  | Some (_, node) => upd node f ;; mret VFS_OK
  end.

Definition vfs_chmod (path : option (list Z)) (mode : Z) : FM Z :=
  change_path path (set_node_permissions (Z.land mode 0xFFF)).
Definition vfs_fchmod (fd mode : Z) : FM Z :=
  change_fd fd (set_node_permissions (Z.land mode 0xFFF)).
Definition vfs_chown (path : option (list Z)) (uid gid : Z) : FM Z :=
  change_path path (λ n, set_node_gid gid (set_node_uid uid n)).
Definition vfs_fchown (fd uid gid : Z) : FM Z :=
  change_fd fd (λ n, set_node_gid gid (set_node_uid uid n)).

Definition vfs_sync : FM Z := mret VFS_OK.
Definition vfs_fsync (fd : Z) : FM Z :=
  r ← open_file fd; mret (match r with Some _ => VFS_OK | None => VFS_EBADF end).

End vfs_dir.

(** * The file systems of the kernel

    The operation tables behind the pointers: those of the RAM file system and
    of pipes, and the tables of drivers that are not modelled as parameters;
    ramfs_init (fs/ramfs.c). *)

Section kernel.
Context {S : Type} {KH : KHeap S}.

(** [other] and [other_fs] are the tables of the remaining drivers. *)
Definition kernel_drivers (other : Z → node_ops S) (other_fs : Z → fs_ops S) : Drivers S := {|
  ops_at t := match t with
    | ramfs_file_ops => ramfs_file_table
    | ramfs_dir_ops => ramfs_dir_table
    | pipe_read_ops => pipe_read_table
    | pipe_write_ops => pipe_write_table
    | driver_ops n => other n
    end;
  fs_ops_at t := match t with ramfs_fs_ops => ramfs_fs_table | driver_fs n => other_fs n end |}.

Definition ramfs_init {DR : Drivers S} : M (fs S) unit :=
  c ← on_heap (kh_cache_create "ramfs_data" sizeof_ramfs_data_t 8 SLAB_ZERO);
  upd_glob (set_ramfs_data_cache c) ;;
  match c with
  | None => fault
  | Some _ =>
      err ← vfs_register_fs (Some ramfs_fs_ops);
      if negb (err =? VFS_OK) then fault else mret tt
  end.

End kernel.
