(* ===== verification/FsInv.v ===== *)
(** * File system objects: the memory invariant and its rules

    [fs_ok s C H]: every object of the layer lies in a block of the heap that
    was taken for it, from the cache or the size its kind asks for.  The rules
    say what a read, an update, an allocation and a release of an object do. *)

From S2P Require Import Prelude KHeap FsObj.

Definition size_of (o : obj) : Z :=
  match o with
  | ONode _ => sizeof_vfs_node_t
  | OFile _ => sizeof_file_t
  | OMount _ => sizeof_vfs_mount_t
  | OTable _ => sizeof_fd_table_t
  | OPipe _ => sizeof_pipe_t
  | OData _ => sizeof_ramfs_data_t
  | OPtrs l => alen l * 8
  | OBytes l => alen l
  end.

(** Where the memory of an object came from: files come from their cache
    (vfs_open) or from kmalloc (pipe_create). *)
Definition home (g : globals) (o : obj) (t : option Z) : Prop :=
  match o with
  | ONode _ => is_Some t ∧ t = node_cache g
  | OFile _ => t = None ∨ (is_Some t ∧ t = file_cache g)
  | OMount _ => is_Some t ∧ t = mount_cache g
  | OTable _ => is_Some t ∧ t = fdt_cache g
  | OData _ => is_Some t ∧ t = ramfs_data_cache g
  | OPipe _ | OPtrs _ | OBytes _ => t = None
  end.

Definition cache_has (C : gmap Z Z) (c : option Z) (n : Z) : Prop := ∀ x, c = Some x → C !! x = Some n.

Record caches_ok (g : globals) (C : gmap Z Z) : Prop := CachesOk {
  co_node : cache_has C (node_cache g) sizeof_vfs_node_t;
  co_file : cache_has C (file_cache g) sizeof_file_t;
  co_mount : cache_has C (mount_cache g) sizeof_vfs_mount_t;
  co_fdt : cache_has C (fdt_cache g) sizeof_fd_table_t;
  co_data : cache_has C (ramfs_data_cache g) sizeof_ramfs_data_t }.

Section inv.
Context {S : Type} {KH : KHeap S}.
Implicit Types (s : fs S) (C : gmap Z Z) (H : blocks) (x y : Z) (o : obj).

Record fs_ok s C H : Prop := FsOk {
  fo_heap : kh_inv (fs_heap s) C H;
  fo_caches : caches_ok (fs_glob s) C;
  fo_mem : ∀ x o, fs_mem s !! x = Some o → ∃ t, H !! x = Some (t, size_of o) ∧ home (fs_glob s) o t }.

(** ** Objects *)

Section objects.
Context {T : Type} {KT : Kind T} {KL : KindLaws T}.
Implicit Types (v w : T).

Lemma at_some s x v : at_ s x = Some v ↔ fs_mem s !! x = Some (inj v).
Proof.
  unfold at_. destruct (fs_mem s !! x) as [o|]; cbn; [|split; done]. split.
  - by intros ->%inj_proj.
  - intros [= ->]. apply proj_inj.
Qed.

Lemma at_put_eq s x v : at_ (put_obj x v s) x = Some v.
Proof. apply at_some. cbn. apply lookup_insert_eq. Qed.

Lemma at_mem s s' x : fs_mem s' !! x = fs_mem s !! x → at_ (T := T) s' x = at_ s x.
Proof. unfold at_. by intros ->. Qed.

Lemma at_put_ne {T' : Type} {KT' : Kind T'} s x y (u : T') : x ≠ y → at_ (T := T) (put_obj x u s) y = at_ s y.
Proof. intros Hne. apply at_mem. cbn. by apply lookup_insert_ne. Qed.

Lemma at_drop_ne s x y : x ≠ y → at_ (T := T) (drop_obj x s) y = at_ s y.
Proof. intros Hne. apply at_mem. cbn. by apply lookup_delete_ne. Qed.

Lemma ld_wp s x v (Q : T → fs S → Prop) : at_ s x = Some v → Q v s → wp (ld x) Q s.
Proof. intros Hx HQ. unfold ld. wp_step. wp_step. by eapply wp_lift. Qed.

Lemma upd_wp s x v f (Q : unit → fs S → Prop) :
  at_ s x = Some v → Q tt (put_obj x (f v) s) → wp (upd x f) Q s.
Proof. intros Hx HQ. unfold upd. wp_step. eapply ld_wp; [done|]. by wp_step. Qed.

(** An update that keeps the kind and the size of an object. *)
Lemma fs_ok_put s C H x v w :
  fs_ok s C H → at_ s x = Some v → size_of (inj w) = size_of (inj v) →
  (∀ t, home (fs_glob s) (inj v) t → home (fs_glob s) (inj w) t) → fs_ok (put_obj x w s) C H.
Proof.
  intros [Hh Hc Hm] Hx%at_some Hs Ht. split; [done|done|]. cbn [fs_mem put_obj drop_obj set_mem set_heap].
  intros y o [[<- <-]|[_ Hy]]%lookup_insert_Some; [|by apply Hm].
  destruct (Hm x _ Hx) as (t & HH & Hhome). exists t. rewrite Hs. auto.
Qed.

Lemma fs_ok_new s h C H x v t :
  fs_ok s C H → kh_inv h C (<[x := (t, size_of (inj v))]> H) → H !! x = None →
  home (fs_glob s) (inj v) t → fs_ok (put_obj x v (set_heap h s)) C (<[x := (t, size_of (inj v))]> H).
Proof.
  intros [Hh Hc Hm] Hk Hx Ht. split; [done|done|]. cbn [fs_mem put_obj drop_obj set_mem set_heap].
  intros y o [[<- <-]|[Hne Hy]]%lookup_insert_Some.
  - exists t. by rewrite lookup_insert_eq.
  - rewrite lookup_insert_ne by done. by apply Hm.
Qed.

End objects.

Lemma put_same {T : Type} {KT : Kind T} {KL : KindLaws T} s x (v : T) : at_ s x = Some v → put_obj x v s = s.
Proof. intros Hx%at_some. destruct s as [h m g]. unfold put_obj, set_mem. cbn in *. by rewrite insert_id. Qed.

Lemma put_put {T U : Type} {KT : Kind T} {KU : Kind U} s x (v : T) (u : U) :
  put_obj x u (put_obj x v s) = put_obj x u s.
Proof. unfold put_obj, set_mem. cbn. by rewrite insert_insert_eq. Qed.

Lemma put_comm {T U : Type} {KT : Kind T} {KU : Kind U} s x y (v : T) (u : U) :
  x ≠ y → put_obj x v (put_obj y u s) = put_obj y u (put_obj x v s).
Proof. intros Hne. unfold put_obj, set_mem. cbn. by rewrite insert_insert_ne. Qed.

(** Objects of different kinds lie at different addresses. *)
Lemma kinds_ne {T U : Type} {KT : Kind T} {KU : Kind U} {LT : KindLaws T} {LU : KindLaws U} s x y (v : T) (u : U) :
  at_ s x = Some v → at_ s y = Some u → inj v ≠ inj u → x ≠ y.
Proof. intros Hx%at_some Hy%at_some Hne ->. congruence. Qed.

Lemma fs_ok_fresh s C H x : fs_ok s C H → H !! x = None → fs_mem s !! x = None.
Proof.
  intros [_ _ Hm] Hx. destruct (fs_mem s !! x) as [o|] eqn:Ho; [|done].
  destruct (Hm x o Ho) as (t & Ht & _). congruence.
Qed.

Lemma fs_ok_drop s h C H x :
  fs_ok s C H → kh_inv h C (delete x H) → fs_ok (drop_obj x (set_heap h s)) C (delete x H).
Proof.
  intros [Hh Hc Hm] Hk. split; [done|done|]. cbn [fs_mem put_obj drop_obj set_mem set_heap].
  intros y o [Hne Hy]%lookup_delete_Some. rewrite lookup_delete_ne by done. by apply Hm.
Qed.

(** An object that is given up while its block stays held: the block is lost. *)
Lemma fs_ok_leak s h C H x : fs_ok s C H → kh_inv h C H → fs_ok (drop_obj x (set_heap h s)) C H.
Proof.
  intros [Hh Hc Hm] Hk. split; [done|done|]. cbn [fs_mem put_obj drop_obj set_mem set_heap]. intros y o [_ Hy]%lookup_delete_Some. by apply Hm.
Qed.

Lemma fs_ok_heap s h C H : fs_ok s C H → kh_inv h C H → fs_ok (set_heap h s) C H.
Proof. by intros [Hh Hc Hm] Hk. Qed.

(** ** Taking memory and giving it back *)

Context {KHL : KHeapLaws S}.

(** The states that differ in the heap only. *)
Record same_but_heap s s' : Prop := SameButHeap {
  sh_mem : fs_mem s' = fs_mem s;
  sh_glob : fs_glob s' = fs_glob s }.

(** ... in the heap and the object at [x]. *)
Record changes s s' x (o : option obj) : Prop := Changes {
  ch_mem : fs_mem s' = partial_alter (λ _, o) x (fs_mem s);
  ch_glob : fs_glob s' = fs_glob s }.

Section alloc.
Context {T : Type} {KT : Kind T} {KL : KindLaws T}.

Lemma new_from_wp s C H c (v : T) (Q : option Z → fs S → Prop) :
  fs_ok s C H → cache_has C c (size_of (inj v)) → (∀ t, is_Some t → t = c → home (fs_glob s) (inj v) t) →
  (∀ s', fs_ok s' C H → same_but_heap s s' → Q None s') →
  (∀ x s', 0 < x → H !! x = None → fs_mem s !! x = None →
     fs_ok s' C (<[x := (c, size_of (inj v))]> H) → changes s s' x (Some (inj v)) → Q (Some x) s') →
  wp (new_from c v) Q s.
Proof.
  intros Hok Hc Hhome HN HS. unfold new_from. wp_step. apply wp_zoom.
  destruct c as [c|]; cbn [kmem_alloc]; last first.
  { apply wp_ret, wp_ret, HN; [|done]. destruct s. exact Hok. }
  eapply wp_mono; [apply kh_alloc_law; [apply Hok|by apply Hc]|]. intros [x|] h; cbn beta iota.
  - intros (Hx & HH & Hk). wp_step. wp_step. apply wp_ret. apply HS; [done|done|by eapply fs_ok_fresh| |done].
    apply fs_ok_new; [done|done|done|]. apply Hhome; [by eexists|done].
  - intros Hk. apply wp_ret, HN; [|done]. by apply fs_ok_heap.
Qed.

Lemma new_kmalloc_wp s C H n (v : T) (Q : option Z → fs S → Prop) :
  fs_ok s C H → size_of (inj v) = n → 0 ≤ n ≤ KMALLOC_LIMIT → home (fs_glob s) (inj v) None →
  (∀ s', fs_ok s' C H → same_but_heap s s' → Q None s') →
  (∀ x s', 0 < x → H !! x = None → fs_mem s !! x = None →
     fs_ok s' C (<[x := (None, n)]> H) → changes s s' x (Some (inj v)) → Q (Some x) s') →
  wp (new_kmalloc n v) Q s.
Proof.
  intros Hok <- Hn Hhome HN HS. unfold new_kmalloc. wp_step. apply wp_zoom.
  eapply wp_mono; [apply kh_kmalloc_law; [apply Hok|done]|]. intros [x|] h; cbn beta iota.
  - intros (Hx & _ & HH & Hk). wp_step. wp_step. apply wp_ret.
    apply HS; [done|done|by eapply fs_ok_fresh|by apply fs_ok_new|done].
  - intros Hk. apply wp_ret, HN; [|done]. by apply fs_ok_heap.
Qed.

End alloc.

Lemma free_kmalloc_wp s C H x n (Q : unit → fs S → Prop) :
  fs_ok s C H → H !! x = Some (None, n) →
  (∀ s', fs_ok s' C (delete x H) → changes s s' x None → Q tt s') → wp (free_kmalloc x) Q s.
Proof.
  intros Hok Hx HQ. unfold free_kmalloc. wp_step. apply wp_zoom.
  eapply wp_mono; [eapply kh_kfree_law; [apply Hok|done]|]. intros [] h Hk. wp_step.
  apply HQ; [by apply fs_ok_drop|done].
Qed.

Lemma free_to_wp s C H c x n (Q : unit → fs S → Prop) :
  fs_ok s C H → H !! x = Some (Some c, n) →
  (∀ s', fs_ok s' C (delete x H) → changes s s' x None → Q tt s') → wp (free_to (Some c) x) Q s.
Proof.
  intros Hok Hx HQ. unfold free_to. wp_step. apply wp_zoom. cbn [kmem_free].
  eapply wp_mono; [eapply kh_free_law; [apply Hok|done]|]. intros [] h Hk. wp_step.
  apply HQ; [by apply fs_ok_drop|done].
Qed.

(** kfree of an object of a cache gives nothing back. *)
Lemma free_kmalloc_leak_wp s C H x c n sz (Q : unit → fs S → Prop) :
  fs_ok s C H → H !! x = Some (Some c, n) → C !! c = Some sz →
  (∀ s', fs_ok s' C H → changes s s' x None → Q tt s') → wp (free_kmalloc x) Q s.
Proof.
  intros Hok Hx Hc HQ. unfold free_kmalloc. wp_step. apply wp_zoom.
  eapply wp_mono; [eapply kh_kfree_cached_law; [apply Hok|done|done]|]. intros [] h Hk. wp_step.
  apply HQ; [by apply fs_ok_leak|done].
Qed.

End inv.

(** One step through a read or an update of an object that is known. *)
Ltac fs_step :=
  lazymatch goal with
  | |- wp (ld _) _ _ => eapply ld_wp; [eassumption|]
  | |- wp (upd _ _) _ _ => eapply upd_wp; [eassumption|]
  | |- _ => wp_step
  end.

(** * Objects taken on the way

    An operation that takes several objects, and gives them back when it fails
    half way, is followed by the set of objects it holds beyond those of the
    state it started from: [adds s0 C H0 s A]. *)

(** An object with the cache its memory came from. *)
Abbreviation objects := (gmap Z (obj * option Z)).

Definition blocks_of (A : objects) : blocks := (λ p, (p.2, size_of p.1)) <$> A.

Section adds.
Context {S : Type} {KH : KHeap S}.
Implicit Types (s : fs S) (C : gmap Z Z) (H : blocks) (A : objects) (x y : Z) (o : obj).

Record adds s0 C H0 s A : Prop := Adds {
  ad_ok : fs_ok s C (blocks_of A ∪ H0);
  ad_mem : fs_mem s = (fst <$> A) ∪ fs_mem s0;
  ad_glob : fs_glob s = fs_glob s0;
  ad_fresh : ∀ x, is_Some (A !! x) → H0 !! x = None ∧ fs_mem s0 !! x = None }.

Lemma adds_refl s C H : fs_ok s C H → adds s C H s ∅.
Proof.
  intros Hok. split.
  - unfold blocks_of. by rewrite fmap_empty, (left_id_L ∅ (∪)).
  - by rewrite fmap_empty, (left_id_L ∅ (∪)).
  - done.
  - intros x [? Hx]. by rewrite lookup_empty in Hx.
Qed.

(** Nothing is left over. *)
Lemma adds_empty s0 C H0 s A :
  adds s0 C H0 s A → A = ∅ → fs_ok s C H0 ∧ fs_mem s = fs_mem s0 ∧ fs_glob s = fs_glob s0.
Proof.
  intros [Hok Hm Hg _] ->. unfold blocks_of in Hok.
  rewrite fmap_empty, (left_id_L ∅ (∪)) in Hok. rewrite fmap_empty, (left_id_L ∅ (∪)) in Hm. done.
Qed.

Lemma adds_same s0 C H0 s s' A :
  adds s0 C H0 s A → fs_ok s' C (blocks_of A ∪ H0) → same_but_heap s s' → adds s0 C H0 s' A.
Proof. intros [_ Hm Hg Hf] Hok [Hm' Hg']. split; [done|congruence|congruence|done]. Qed.

Lemma blocks_of_insert A x o t H0 :
  blocks_of (<[x := (o, t)]> A) ∪ H0 = <[x := (t, size_of o)]> (blocks_of A ∪ H0).
Proof. unfold blocks_of. by rewrite fmap_insert, <-insert_union_l. Qed.

Lemma blocks_of_delete A x H0 :
  H0 !! x = None → blocks_of (delete x A) ∪ H0 = delete x (blocks_of A ∪ H0).
Proof. intros Hx. unfold blocks_of. rewrite fmap_delete, delete_union. by rewrite (delete_id H0). Qed.

Lemma adds_add s0 C H0 s s' A x o t :
  adds s0 C H0 s A → (blocks_of A ∪ H0) !! x = None → fs_mem s !! x = None →
  fs_ok s' C (<[x := (t, size_of o)]> (blocks_of A ∪ H0)) → changes s s' x (Some o) →
  A !! x = None ∧ adds s0 C H0 s' (<[x := (o, t)]> A).
Proof.
  intros [_ Hm Hg Hf] Hx Hmx Hok [Hm' Hg'].
  apply lookup_union_None in Hx as [Hx1 Hx2]. rewrite Hm in Hmx. apply lookup_union_None in Hmx as [_ Hx3].
  unfold blocks_of in Hx1. rewrite lookup_fmap, fmap_None in Hx1. split; [done|]. split.
  - by rewrite blocks_of_insert.
  - rewrite Hm', Hm, fmap_insert, <-insert_union_l. done.
  - congruence.
  - intros y [p Hy]. destruct (decide (y = x)) as [->|Hne]; [done|].
    rewrite lookup_insert_ne in Hy by done. apply Hf. by exists p.
Qed.

Lemma adds_remove s0 C H0 s s' A x o t :
  adds s0 C H0 s A → A !! x = Some (o, t) →
  fs_ok s' C (delete x (blocks_of A ∪ H0)) → changes s s' x None → adds s0 C H0 s' (delete x A).
Proof.
  intros [_ Hm Hg Hf] Hx Hok [Hm' Hg']. destruct (Hf x) as [H1 H2]; [by eexists|]. split.
  - by rewrite blocks_of_delete.
  - rewrite Hm', Hm, fmap_delete. change (partial_alter (λ _, None) x) with (delete (M := gmap Z obj) x).
    rewrite delete_union. by rewrite (delete_id (fs_mem s0)).
  - congruence.
  - intros y [p Hy]. apply lookup_delete_Some in Hy as [_ Hy]. apply Hf. by exists p.
Qed.

Lemma adds_block s0 C H0 s A x o t :
  adds s0 C H0 s A → A !! x = Some (o, t) → (blocks_of A ∪ H0) !! x = Some (t, size_of o).
Proof.
  intros _ Hx. apply lookup_union_Some_l. unfold blocks_of. by rewrite lookup_fmap, Hx.
Qed.

(** ** Access *)

Section kind.
Context {T : Type} {KT : Kind T} {KL : KindLaws T}.
Implicit Types (v w : T).

Lemma adds_at s0 C H0 s A x v t : adds s0 C H0 s A → A !! x = Some (inj v, t) → at_ s x = Some v.
Proof.
  intros [_ Hm _ _] Hx. apply at_some. rewrite Hm. apply lookup_union_Some_l. by rewrite lookup_fmap, Hx.
Qed.

Lemma adds_base s0 C H0 s A x v : adds s0 C H0 s A → at_ s0 x = Some v → at_ s x = Some v.
Proof.
  intros [_ Hm _ Hf] Hx%at_some. apply at_some. rewrite Hm. rewrite lookup_union_r; [done|].
  rewrite lookup_fmap, fmap_None. destruct (A !! x) as [p|] eqn:HA; [|done].
  destruct (Hf x) as [_ ?]; [by exists p|congruence].
Qed.

Lemma adds_put s0 C H0 s A x v w t :
  adds s0 C H0 s A → A !! x = Some (inj v, t) → size_of (inj w) = size_of (inj v) →
  (∀ t, home (fs_glob s) (inj v) t → home (fs_glob s) (inj w) t) →
  adds s0 C H0 (put_obj x w s) (<[x := (inj w, t)]> A).
Proof.
  intros Ha Hx Hs Hh. pose proof (adds_at _ _ _ _ _ _ _ _ Ha Hx) as Hat.
  pose proof (adds_block _ _ _ _ _ _ _ _ Ha Hx) as Hb. destruct Ha as [Hok Hm Hg Hf]. split.
  - rewrite blocks_of_insert, Hs, insert_id by done. by eapply fs_ok_put.
  - cbn. by rewrite Hm, fmap_insert, <-insert_union_l.
  - done.
  - intros y [p Hy]. destruct (decide (y = x)) as [->|Hne]; [apply Hf; by eexists|].
    rewrite lookup_insert_ne in Hy by done. apply Hf. by exists p.
Qed.

(** A change of an object that was there before. *)
Lemma adds_base_put s0 C H0 s A x v w :
  adds s0 C H0 s A → at_ s0 x = Some v → size_of (inj w) = size_of (inj v) →
  (∀ t, home (fs_glob s) (inj v) t → home (fs_glob s) (inj w) t) →
  adds (put_obj x w s0) C H0 (put_obj x w s) A.
Proof.
  intros Ha Hx Hs Hh. pose proof (adds_base _ _ _ _ _ _ _ Ha Hx) as Hat. apply at_some in Hx as Hx'.
  destruct Ha as [Hok Hm Hg Hf]. split.
  - by eapply fs_ok_put.
  - cbn. rewrite Hm. rewrite insert_union_r; [done|]. rewrite lookup_fmap, fmap_None.
    destruct (A !! x) as [p|] eqn:HA; [|done]. destruct (Hf x) as [_ ?]; [by exists p|congruence].
  - done.
  - intros y Hy. destruct (Hf y Hy) as [H1 H2]. split; [done|]. cbn. rewrite lookup_insert_ne; [done|].
    intros <-. congruence.
Qed.

Context {KHL : KHeapLaws S}.

Lemma adds_new_from_wp s0 C H0 s A c v (Q : option Z → fs S → Prop) :
  adds s0 C H0 s A → cache_has C c (size_of (inj v)) →
  (∀ t, is_Some t → t = c → home (fs_glob s) (inj v) t) →
  (∀ s', adds s0 C H0 s' A → Q None s') →
  (∀ x s', 0 < x → A !! x = None → fs_mem s !! x = None → adds s0 C H0 s' (<[x := (inj v, c)]> A) →
     Q (Some x) s') →
  wp (new_from c v) Q s.
Proof.
  intros Ha Hc Hh HN HS. eapply new_from_wp; [apply Ha|done|done|..].
  - intros s' Hok' Hsame. apply HN. by eapply adds_same.
  - intros x s' Hx Hb Hm Hok' Hch. destruct (adds_add _ _ _ _ s' _ x (inj v) c Ha) as [HA Ha']; [done..|]. by apply HS.
Qed.

Lemma adds_new_kmalloc_wp s0 C H0 s A n v (Q : option Z → fs S → Prop) :
  adds s0 C H0 s A → size_of (inj v) = n → 0 ≤ n ≤ KMALLOC_LIMIT → home (fs_glob s) (inj v) None →
  (∀ s', adds s0 C H0 s' A → Q None s') →
  (∀ x s', 0 < x → A !! x = None → fs_mem s !! x = None →
     adds s0 C H0 s' (<[x := (inj v, None)]> A) → Q (Some x) s') →
  wp (new_kmalloc n v) Q s.
Proof.
  intros Ha Hs Hn Hh HN HS. eapply new_kmalloc_wp; [apply Ha|done|done|done|..].
  - intros s' Hok' Hsame. apply HN. by eapply adds_same.
  - intros x s' Hx Hb Hm Hok' Hch. rewrite <-Hs in Hok'.
    destruct (adds_add _ _ _ _ s' _ x (inj v) None Ha) as [HA Ha']; [done..|]. by apply HS.
Qed.

End kind.

Context {KHL : KHeapLaws S}.

Lemma adds_free_kmalloc_wp s0 C H0 s A x o (Q : unit → fs S → Prop) :
  adds s0 C H0 s A → A !! x = Some (o, None) → (∀ s', adds s0 C H0 s' (delete x A) → Q tt s') →
  wp (free_kmalloc x) Q s.
Proof.
  intros Ha Hx HQ. eapply free_kmalloc_wp; [apply Ha|by eapply adds_block|].
  intros s' Hok Hch. apply HQ. by eapply adds_remove.
Qed.

Lemma adds_free_to_wp s0 C H0 s A x o c (Q : unit → fs S → Prop) :
  adds s0 C H0 s A → A !! x = Some (o, Some c) → (∀ s', adds s0 C H0 s' (delete x A) → Q tt s') →
  wp (free_to (Some c) x) Q s.
Proof.
  intros Ha Hx HQ. eapply free_to_wp; [apply Ha|by eapply adds_block|].
  intros s' Hok Hch. apply HQ. by eapply adds_remove.
Qed.

(** ** Nodes *)

Lemma adds_node_alloc_wp s0 C H0 s A (Q : option Z → fs S → Prop) :
  adds s0 C H0 s A → (∀ s', adds s0 C H0 s' A → Q None s') →
  (∀ x s', 0 < x → A !! x = None → fs_mem s !! x = None →
     adds s0 C H0 s' (<[x := (ONode empty_node, node_cache (fs_glob s))]> A) → Q (Some x) s') →
  wp vfs_node_alloc Q s.
Proof.
  intros Ha HN HS. unfold vfs_node_alloc, glob. wp_step. wp_step.
  eapply adds_new_from_wp; [exact Ha| | |done|done].
  - apply Ha.
  - by intros t ? ->.
Qed.

Lemma adds_node_free_wp s0 C H0 s A x (n : vfs_node) t (Q : unit → fs S → Prop) :
  adds s0 C H0 s A → A !! x = Some (ONode n, t) → (∀ s', adds s0 C H0 s' (delete x A) → Q tt s') →
  wp (vfs_node_free (Some x)) Q s.
Proof.
  intros Ha Hx HQ. unfold vfs_node_free, glob. wp_step. wp_step.
  assert (is_Some t ∧ t = node_cache (fs_glob s)) as [[c ->] <-].
  { destruct (fo_mem _ _ _ (ad_ok _ _ _ _ _ Ha) x (ONode n)) as (t' & Ht' & Hh).
    - rewrite (ad_mem _ _ _ _ _ Ha). apply lookup_union_Some_l. by rewrite lookup_fmap, Hx.
    - rewrite (adds_block _ _ _ _ _ _ _ _ Ha Hx) in Ht'. simplify_eq. done. }
  by eapply adds_free_to_wp.
Qed.

End adds.

(** Two maps built by insertions and deletions, compared key by key. *)
Ltac map_cases :=
  apply map_eq; intros ?;
  rewrite ?lookup_insert, ?lookup_delete, ?lookup_insert, ?lookup_delete, ?lookup_empty;
  repeat case_decide; subst; try done; try congruence.

(** The lookup of one of several objects that lie at different addresses. *)
Ltac adds_lookup :=
  repeat first [rewrite lookup_insert_ne by congruence | rewrite lookup_delete_ne by congruence];
  first [apply lookup_insert_eq | eassumption | done].
