(* ===== verification/PipeThm.v ===== *)
(** * Pipes: the ring buffer is a queue, and a pipe is a channel

    [ring p q]: the buffer of the pipe [p] holds the queue [q].  A pipe with its
    two nodes behaves like the channel [chan_step] describes, with end of file,
    broken pipe and would-block; closing both ends gives the memory back. *)

From stdpp Require Import strings.
From S2P Require Import Prelude KHeap CString FsObj FsInv FdTable Pipe.

(** ** The ring buffer *)

Record ring (p : pipe) (q : list Z) : Prop := Ring {
  ri_buffer : alen (pp_buffer p) = PIPE_BUF_SIZE;
  ri_read : 0 ≤ pp_read_pos p < PIPE_BUF_SIZE;
  ri_count : pp_count p = alen q;
  ri_fits : alen q ≤ PIPE_BUF_SIZE;
  ri_write : pp_write_pos p = (pp_read_pos p + alen q) mod PIPE_BUF_SIZE;
  ri_data : ∀ i, 0 ≤ i < alen q →
    aget (pp_buffer p) ((pp_read_pos p + i) mod PIPE_BUF_SIZE) = aget q i }.

Lemma ring_pop p b q :
  ring p (b :: q) →
  aget (pp_buffer p) (pp_read_pos p) = Some b ∧
  ring (set_pp_read ((pp_read_pos p +u32 1) mod PIPE_BUF_SIZE) (pp_count p -u32 1) p) q.
Proof.
  intros [H1 H2 H3 H4 H5 H6]. rewrite alen_cons in *. pose proof (alen_nonneg q).
  unfold PIPE_BUF_SIZE in *. split.
  - specialize (H6 0 ltac:(lia)). rewrite Z.add_0_r, Z.mod_small in H6 by lia. by rewrite H6.
  - split; cbn; unfold PIPE_BUF_SIZE; [done| |rewrite H3, wrap_small; lia|lia|..];
      rewrite wrap_small by lia.
    + apply Z.mod_pos_bound. lia.
    + rewrite Z.add_mod_idemp_l, H5 by lia. f_equal. lia.
    + intros i Hi. rewrite Z.add_mod_idemp_l by lia. rewrite <-(aget_cons_succ b q i) by lia.
      rewrite <-H6 by lia. f_equal. f_equal. lia.
Qed.

Lemma ring_push p q b :
  ring p q → alen q < PIPE_BUF_SIZE →
  is_Some (aget (pp_buffer p) (pp_write_pos p)) ∧
  ring (set_pp_write (aset (pp_buffer p) (pp_write_pos p) b)
          ((pp_write_pos p +u32 1) mod PIPE_BUF_SIZE) (pp_count p +u32 1) p) (q ++ [b]).
Proof.
  intros [H1 H2 H3 H4 H5 H6] Hlt. pose proof (alen_nonneg q). unfold PIPE_BUF_SIZE in *.
  assert (0 ≤ pp_write_pos p < 4096) as Hw by (rewrite H5; apply Z.mod_pos_bound; lia).
  split; [apply aget_is_Some; lia|]. split; cbn; unfold PIPE_BUF_SIZE.
  - by rewrite alen_aset.
  - done.
  - rewrite H3, alen_app, wrap_small; [done|lia].
  - rewrite alen_app. change (alen [b]) with 1. lia.
  - rewrite wrap_small, alen_app, H5 by lia. change (alen [b]) with 1.
    rewrite Z.add_mod_idemp_l by lia. f_equal. lia.
  - rewrite alen_app. change (alen [b]) with 1. intros i Hi.
    destruct (decide (i = alen q)) as [->|Hne].
    + rewrite aget_snoc, H5. apply aget_aset_eq. rewrite H1. apply Z.mod_pos_bound. lia.
    + rewrite aget_app_l by lia. rewrite aget_aset_ne; [apply H6; lia|]. rewrite H5.
      intros Heq. assert ((pp_read_pos p + alen q) mod 4096 - (pp_read_pos p + i) mod 4096 = 0) as Hz by lia.
      Z.to_euclidean_division_equations. lia.
Qed.

(** ** Channels *)

(** What a pipe promises: a queue of at most 4096 bytes and two ends. *)
Record chan := Chan { ch_queue : list Z; ch_reading : bool; ch_writing : bool }.

Inductive pipe_op :=
  | PRead (size : Z)
  | PWrite (buf : list Z)
  | PCloseRead
  | PCloseWrite.

(** The result of an operation, with the bytes delivered, and the channel after
    it; an end is used only while it is open. *)
Definition chan_step (op : pipe_op) (c : chan) : option (Z * list Z * chan) :=
  let '(Chan q r w) := c in
  match op with
  | PRead size =>
      if negb r then None
      else match q with
        | [] => Some (if w then - EAGAIN else 0, [], c)
        | _ => let k := Z.min size (alen q) in
               Some (k, take (Z.to_nat k) q, Chan (drop (Z.to_nat k) q) r w)
        end
  | PWrite buf =>
      if negb w then None
      else if negb r then Some (- EPIPE, [], c)
      else if PIPE_BUF_SIZE <=? alen q then Some (- EAGAIN, [], c)
      else let k := Z.min (alen buf) (PIPE_BUF_SIZE - alen q) in
           Some (k, [], Chan (q ++ take (Z.to_nat k) buf) r w)
  | PCloseRead => if r then Some (0, [], Chan q false w) else None
  | PCloseWrite => if w then Some (0, [], Chan q r false) else None
  end.

Fixpoint chan_run (ops : list pipe_op) (c : chan) : option (list (Z * list Z) * chan) :=
  match ops with
  | [] => Some ([], c)
  | op :: ops' =>
      match chan_step op c with
      | Some (r, bytes, c') =>
          match chan_run ops' c' with
          | Some (rs, c'') => Some ((r, bytes) :: rs, c'')
          | None => None
          end
      | None => None
      end
  end.

Definition op_ok (op : pipe_op) : Prop := match op with PRead size => 0 ≤ size | _ => True end.

Section pipe.
Context {S : Type} {KH : KHeap S} {KHL : KHeapLaws S}.
Implicit Types (s : fs S) (C : gmap Z Z) (H : blocks) (q : list Z).

(** What the loops leave of a pipe: another state of the buffer. *)
Definition same_ends (p p' : pipe) : Prop :=
  pp_readers p' = pp_readers p ∧ pp_writers p' = pp_writers p.

Lemma pipe_read_loop_wp s x p q fuel size dst (Q : list Z → fs S → Prop) :
  at_ s x = Some p → ring p q → alen q ≤ Z.of_nat fuel → alen dst ≤ size →
  (∀ p' k, k = Z.to_nat (Z.min (size - alen dst) (alen q)) → ring p' (drop k q) → same_ends p p' →
     Q (dst ++ take k q) (put_obj x p' s)) →
  wp (pipe_read_loop fuel x size dst) Q s.
Proof.
  revert s p fuel dst. induction q as [|b q IH]; intros s p fuel dst Hx Hr Hf Hd HQ.
  - assert (wp (mret dst) Q s) as Hdone.
    { specialize (HQ p 0%nat). apply wp_ret. rewrite <-(put_same s x p Hx), <-(app_nil_r dst).
      apply HQ; [change (alen (@nil Z)) with 0; lia|done|by split]. }
    destruct fuel; cbn [pipe_read_loop]; wp_step; fs_step; rewrite (ri_count _ _ Hr);
      change (0 <? alen (@nil Z)) with false; by rewrite andb_false_r.
  - pose proof (alen_nonneg q). rewrite alen_cons in *. destruct fuel as [|fuel]; [lia|]. cbn [pipe_read_loop].
    wp_step. fs_step. rewrite (ri_count _ _ Hr), alen_cons.
    destruct (Z.ltb_spec (alen dst) size) as [Hlt|Hge]; cbn [andb].
    + rewrite (proj2 (Z.ltb_lt 0 _)) by lia. destruct (ring_pop p b q Hr) as [Hb Hr'].
      rewrite (ri_count _ _ Hr), alen_cons in Hr'.
      wp_step. eapply wp_lift; [done|]. wp_step. fs_step.
      eapply IH; [apply at_put_eq|exact Hr'|lia|rewrite alen_app; change (alen [b]) with 1; lia|].
      intros p' k Hk Hp' Hsame. rewrite put_put. specialize (HQ p' (Datatypes.S k)). rewrite <-app_assoc.
      apply HQ; [|done|done].
      rewrite Hk, alen_app. change (alen [b]) with 1. lia.
    + apply wp_ret. rewrite <-(put_same s x p Hx), <-(app_nil_r dst).
      apply (HQ p 0%nat); [lia|done|by split].
Qed.

Lemma pipe_write_loop_wp s x p q fuel src n (Q : Z → fs S → Prop) :
  at_ s x = Some p → ring p q → 0 ≤ n ≤ alen src → PIPE_BUF_SIZE - alen q ≤ Z.of_nat fuel →
  (∀ p' k, k = Z.to_nat (Z.min (alen src - n) (PIPE_BUF_SIZE - alen q)) →
     ring p' (q ++ take k (drop (Z.to_nat n) src)) → same_ends p p' →
     Q (n + Z.of_nat k) (put_obj x p' s)) →
  wp (pipe_write_loop fuel x src n) Q s.
Proof.
  revert s p q fuel. remember (Z.to_nat (alen src - n)) as m eqn:Hm. revert n Hm.
  induction m as [|m IH]; intros n Hm s p q fuel Hx Hr Hn Hf HQ;
    pose proof (ri_fits _ _ Hr) as Hfit; pose proof (alen_nonneg q).
  - assert (wp (mret n) Q s) as Hdone.
    { apply wp_ret. rewrite <-(put_same s x p Hx). replace n with (n + Z.of_nat 0) at 1 by lia.
      apply (HQ p); [lia| |by split]. by rewrite take_0, app_nil_r. }
    destruct fuel; cbn [pipe_write_loop]; wp_step; fs_step; by rewrite (proj2 (Z.ltb_ge _ _)) by lia.
  - assert (pp_count p = alen q) as Hc by apply Hr.
    destruct (decide (alen q = PIPE_BUF_SIZE)) as [Hfull|Hroom].
    + assert (wp (mret n) Q s) as Hdone.
      { apply wp_ret. rewrite <-(put_same s x p Hx). replace n with (n + Z.of_nat 0) at 1 by lia.
        apply (HQ p); [lia| |by split]. by rewrite take_0, app_nil_r. }
      destruct fuel; cbn [pipe_write_loop]; wp_step; fs_step;
        rewrite Hc, (proj2 (Z.ltb_ge _ PIPE_BUF_SIZE)), andb_false_r by lia; done.
    + destruct fuel as [|fuel]; [lia|]. cbn [pipe_write_loop]. wp_step. fs_step.
      rewrite Hc, (proj2 (Z.ltb_lt n _)), (proj2 (Z.ltb_lt _ PIPE_BUF_SIZE)) by lia. cbn [andb].
      destruct (aget_is_Some src n) as [b Hb]; [lia|].
      destruct (ring_push p q b Hr) as [[c Hw] Hr']; [lia|]. rewrite Hc in Hr'.
      wp_step. eapply wp_lift; [done|]. wp_step. eapply wp_lift; [done|]. wp_step. fs_step.
      eapply IH; [lia|apply at_put_eq|exact Hr'|lia|rewrite alen_app; change (alen [b]) with 1; lia|].
      rewrite alen_app. change (alen [b]) with 1.
      intros p' k Hk Hp' Hsame. rewrite put_put.
      replace (n + 1 + Z.of_nat k) with (n + Z.of_nat (Datatypes.S k)) by lia.
      apply HQ; [lia| |done].
      unfold aget in Hb. rewrite decide_True in Hb by lia.
      rewrite (drop_S src b) by done. cbn [take]. rewrite <-app_assoc in Hp'.
      by replace (Datatypes.S (Z.to_nat n)) with (Z.to_nat (n + 1)) by lia.
Qed.

(** ** A pipe is a channel *)

(** The operations on the nodes of the two ends. *)
Definition run_op (rn wn : Z) (op : pipe_op) : M (fs S) (Z * list Z) :=
  match op with
  | PRead size => pipe_read (Some rn) size 0
  | PWrite buf => r ← pipe_write (Some wn) buf 0; mret (r, [])
  | PCloseRead => pipe_close (Some rn) ;; mret (0, [])
  | PCloseWrite => pipe_close (Some wn) ;; mret (0, [])
  end.

Fixpoint run_ops (rn wn : Z) (ops : list pipe_op) : M (fs S) (list (Z * list Z)) :=
  match ops with
  | [] => mret []
  | op :: ops' => r ← run_op rn wn op; rs ← run_ops rn wn ops'; mret (r :: rs)
  end.

Definition end_node s x (ops : ops_table) (pipe : Z) : Prop :=
  ∃ n, at_ s x = Some n ∧ vn_ops n = Some ops ∧ vn_private n = Some pipe.

(** The pipe at [x] with the nodes [rn] and [wn] is in the state [c]. *)
Record pipe_rel s C H (rn wn x : Z) (c : chan) : Prop := PipeRel {
  pr_ok : fs_ok s C H;
  pr_nodes : rn ≠ wn;
  pr_read : ch_reading c = true → end_node s rn pipe_read_ops x;
  pr_write : ch_writing c = true → end_node s wn pipe_write_ops x;
  pr_pipe : ch_reading c || ch_writing c = true → ∃ p, at_ s x = Some p ∧ ring p (ch_queue c) ∧
    pp_readers p = Z.b2z (ch_reading c) ∧ pp_writers p = Z.b2z (ch_writing c);
  pr_gone : ch_reading c || ch_writing c = false → fs_mem s !! x = None }.

(** Nothing else changes. *)
Record pipe_frame s s' (X : list Z) : Prop := PipeFrame {
  pf_mem : ∀ y, y ∉ X → fs_mem s' !! y = fs_mem s !! y;
  pf_glob : fs_glob s' = fs_glob s }.

Lemma pipe_frame_trans s1 s2 s3 X : pipe_frame s1 s2 X → pipe_frame s2 s3 X → pipe_frame s1 s3 X.
Proof. intros [M1 G1] [M2 G2]. split; [intros y Hy; by rewrite M2, M1|congruence]. Qed.

Lemma put_frame {T : Type} {KT : Kind T} s x (v : T) X : x ∈ X → pipe_frame s (put_obj x v s) X.
Proof.
  intros Hx. split; [|done]. intros y Hy. cbn. apply lookup_insert_ne. by intros ->.
Qed.

Lemma end_node_put s y ops x p :
  (∃ p' : pipe, at_ s x = Some p') → end_node s y ops x → end_node (put_obj x (p : pipe) s) y ops x.
Proof.
  intros [p' Hp'%at_some] (n & Hn & ?). exists n. rewrite at_put_ne; [done|]. intros ->.
  apply at_some in Hn. by rewrite Hp' in Hn.
Qed.

(** Another state of the buffer or of the ends that are open. *)
Lemma pipe_rel_put s C H rn wn x c c' (p p' : pipe) :
  pipe_rel s C H rn wn x c → at_ s x = Some p →
  ch_reading c' || ch_writing c' = true →
  (ch_reading c' = true → ch_reading c = true) → (ch_writing c' = true → ch_writing c = true) →
  ring p' (ch_queue c') → pp_readers p' = Z.b2z (ch_reading c') → pp_writers p' = Z.b2z (ch_writing c') →
  pipe_rel (put_obj x p' s) C H rn wn x c'.
Proof.
  intros [R1 R2 R3 R4 R5 R6] Hx Hsome Hr Hw Hring Er Ew. split.
  - by eapply fs_ok_put.
  - done.
  - intros Hc. apply end_node_put; [by exists p|auto].
  - intros Hc. apply end_node_put; [by exists p|auto].
  - intros _. exists p'. by rewrite at_put_eq.
  - by rewrite Hsome.
Qed.

Lemma node_pipe_wp s rn ops x (Q : option Z → fs S → Prop) :
  end_node s rn ops x → Q (Some x) s → wp (node_pipe (Some rn)) Q s.
Proof. intros (n & Hn & _ & Hp) HQ. unfold node_pipe. wp_step. fs_step. apply wp_ret. by rewrite Hp. Qed.

Lemma pipe_read_wp s C H rn wn x c size r bytes c' :
  pipe_rel s C H rn wn x c → 0 ≤ size → chan_step (PRead size) c = Some (r, bytes, c') →
  wp (pipe_read (Some rn) size 0) (λ a s', a = (r, bytes) ∧ pipe_rel s' C H rn wn x c' ∧
    pipe_frame s s' [rn; wn; x]) s.
Proof.
  intros Hrel Hsize Hstep. destruct c as [q [|] w]; [|done].
  destruct (pr_pipe _ _ _ _ _ _ _ Hrel eq_refl) as (p & Hp & Hring & Er & Ew). cbn in Hring, Er, Ew.
  unfold pipe_read. wp_step. eapply node_pipe_wp; [by apply (pr_read _ _ _ _ _ _ _ Hrel)|].
  wp_step. fs_step. rewrite (ri_count _ _ Hring), Ew. destruct q as [|b q]; cbn [chan_step negb] in Hstep.
  - destruct w; cbn; injection Hstep as <- <- <-; apply wp_ret; (split_and!; [done|done|by split]).
  - pose proof (alen_nonneg q). pose proof (ri_fits _ _ Hring). unfold PIPE_BUF_SIZE in *.
    rewrite (proj2 (Z.eqb_neq (alen (b :: q)) 0)) by (rewrite alen_cons; lia). cbn [andb].
    wp_step. injection Hstep as <- <- <-.
    eapply (pipe_read_loop_wp s x p (b :: q)); [done|done|rewrite alen_cons in *; lia|done|].
    change (alen (@nil Z)) with 0. rewrite Z.sub_0_r. intros p' k -> Hring' [E1 E2]. apply wp_ret.
    cbn [app]. split_and!.
    + f_equal. unfold alen at 1. rewrite length_take. unfold alen in *. rewrite signed_small; lia.
    + eapply (pipe_rel_put s); [done|done|..]; cbn; try done; congruence.
    + apply put_frame. set_solver.
Qed.

Lemma pipe_write_wp s C H rn wn x c buf r bytes c' :
  pipe_rel s C H rn wn x c → chan_step (PWrite buf) c = Some (r, bytes, c') →
  wp (pipe_write (Some wn) buf 0) (λ a s', (a, []) = (r, bytes) ∧ pipe_rel s' C H rn wn x c' ∧
    pipe_frame s s' [rn; wn; x]) s.
Proof.
  intros Hrel Hstep. destruct c as [q r0 [|]]; [|done].
  destruct (pr_pipe _ _ _ _ _ _ _ Hrel (orb_true_r _)) as (p & Hp & Hring & Er & Ew). cbn in Hring, Er, Ew.
  unfold pipe_write. wp_step. eapply node_pipe_wp; [by apply (pr_write _ _ _ _ _ _ _ Hrel)|].
  wp_step. fs_step. rewrite (ri_count _ _ Hring), Er. cbn [chan_step negb] in Hstep.
  destruct r0; cbn [Z.b2z negb] in *; cbn [Z.eqb]; last first.
  { injection Hstep as <- <- <-. apply wp_ret. split_and!; [done|done|by split]. }
  destruct (Z.leb_spec PIPE_BUF_SIZE (alen q)) as [Hfull|Hroom].
  { injection Hstep as <- <- <-. apply wp_ret. split_and!; [done|done|by split]. }
  injection Hstep as <- <- <-. pose proof (alen_nonneg q). pose proof (alen_nonneg buf). wp_step.
  eapply (pipe_write_loop_wp s x p q); [done|done|lia|unfold PIPE_BUF_SIZE in *; lia|].
  rewrite Z.sub_0_r, drop_0. intros p' k -> Hring' [E1 E2]. apply wp_ret. split_and!.
  - f_equal. unfold PIPE_BUF_SIZE in *. rewrite signed_small; lia.
  - eapply (pipe_rel_put s); [done|done|..]; cbn; try done; congruence.
  - apply put_frame. set_solver.
Qed.

(** Closing an end: the last one gives the pipe back. *)
Lemma pipe_close_wp s C H rn wn x c (reading : bool) :
  pipe_rel s C H rn wn x c → (if reading then ch_reading c else ch_writing c) = true →
  let c' := if reading then Chan (ch_queue c) false (ch_writing c)
            else Chan (ch_queue c) (ch_reading c) false in
  wp (pipe_close (Some (if reading then rn else wn))) (λ _ s',
    pipe_rel s' C (if ch_reading c' || ch_writing c' then H else delete x H) rn wn x c' ∧
    pipe_frame s s' [rn; wn; x]) s.
Proof.
  intros Hrel Hopen c'. set (nd := if reading then rn else wn).
  assert (end_node s nd (if reading then pipe_read_ops else pipe_write_ops) x) as He.
  { unfold nd. destruct reading; [by apply (pr_read _ _ _ _ _ _ _ Hrel)|by apply (pr_write _ _ _ _ _ _ _ Hrel)]. }
  assert (ch_reading c || ch_writing c = true) as Hany
    by (destruct reading; rewrite Hopen; [done|apply orb_true_r]).
  destruct (pr_pipe _ _ _ _ _ _ _ Hrel Hany) as (p & Hp & Hring & Er & Ew).
  unfold pipe_close. wp_step. eapply node_pipe_wp; [exact He|]. destruct He as (n & Hn & Hops & Hpriv).
  wp_step. fs_step. wp_step. fs_step. rewrite Hops.
  set (p' := if reading then set_pp_readers (pp_readers p - 1) p else set_pp_writers (pp_writers p - 1) p).
  wp_step. apply (wp_mono _ (λ _ s1, s1 = put_obj x p' s)).
  { destruct reading; [rewrite decide_True by done|rewrite decide_False by done];
      rewrite Hopen in *; cbn [Z.b2z] in Er, Ew.
    - rewrite (proj2 (Z.ltb_lt 0 _)) by lia. by fs_step.
    - rewrite (proj2 (Z.ltb_lt 0 _)) by lia. by fs_step. }
  intros [] s1 ->. wp_step. eapply ld_wp; [apply at_put_eq|].
  assert (pp_readers p' = Z.b2z (ch_reading c') ∧ pp_writers p' = Z.b2z (ch_writing c')) as [Er' Ew'].
  { unfold p', c'. destruct reading; rewrite Hopen in *; cbn in *; lia. }
  assert (ring p' (ch_queue c')) as Hring'.
  { unfold p', c'. destruct reading; by destruct Hring. }
  rewrite Er', Ew'. replace ((Z.b2z (ch_reading c') =? 0) && (Z.b2z (ch_writing c') =? 0))
    with (negb (ch_reading c' || ch_writing c')) by by destruct (ch_reading c'), (ch_writing c').
  destruct (ch_reading c' || ch_writing c') eqn:Hleft; cbn [negb].
  { apply wp_ret. split; [|apply put_frame; set_solver].
    eapply (pipe_rel_put s _ _ _ _ _ c); try done; unfold c'; by destruct reading. }
  wp_step. pose proof Hp as Hp2. apply at_some in Hp2.
  assert (fs_ok (put_obj x p' s) C H) as Hok1.
  { eapply fs_ok_put; [apply Hrel|done|done|]. done. }
  destruct (fo_mem _ _ _ (pr_ok _ _ _ _ _ _ _ Hrel) x _ Hp2) as (t & Ht & ->).
  eapply free_kmalloc_wp; [exact Hok1|exact Ht|]. intros s2 Hok2 [M2 G2].
  assert (nd ≠ x) as Hne.
  { intros ->. apply at_some in Hn. by rewrite Hp2 in Hn. }
  assert (at_ s2 nd = Some n) as Hn2.
  { rewrite <-Hn. apply at_mem. rewrite M2, lookup_partial_alter_ne by done. cbn.
    by rewrite lookup_insert_ne by done. }
  fs_step. apply orb_false_iff in Hleft as [Hl1 Hl2]. split.
  - split; try (rewrite Hl1 || rewrite Hl2; done).
    + by eapply fs_ok_put.
    + apply Hrel.
    + by rewrite Hl1, Hl2.
    + intros _. cbn. rewrite lookup_insert_ne, M2 by done. apply lookup_partial_alter_eq.
  - split; [|by cbn; rewrite G2]. intros y Hy. cbn.
    assert (y ≠ nd ∧ y ≠ x) as [??] by (unfold nd; destruct reading; set_solver).
    rewrite lookup_insert_ne, M2, lookup_partial_alter_ne by done. cbn. by rewrite lookup_insert_ne by done.
Qed.

Lemma run_op_wp s C H rn wn x c op r bytes c' :
  pipe_rel s C H rn wn x c → op_ok op → chan_step op c = Some (r, bytes, c') →
  wp (run_op rn wn op) (λ a s', a = (r, bytes) ∧ pipe_frame s s' [rn; wn; x] ∧
    pipe_rel s' C (if ch_reading c' || ch_writing c' then H else delete x H) rn wn x c') s.
Proof.
  intros Hrel Hop Hstep. destruct op as [size|buf| |]; cbn [run_op].
  - eapply wp_mono; [by eapply pipe_read_wp|]. intros a s' (-> & Hr & Hf). split_and!; [done..|].
    destruct c as [q [|] w]; [|done]. cbn in Hstep. by destruct q; simplify_eq.
  - wp_step. eapply wp_mono; [by eapply pipe_write_wp|]. intros a s' ([= -> <-] & Hr & Hf).
    apply wp_ret. split_and!; [done..|]. destruct c as [q r0 [|]]; [|done]. cbn in Hstep.
    destruct r0; cbn in Hstep; [destruct (PIPE_BUF_SIZE <=? alen q)|]; simplify_eq; by cbn.
  - destruct c as [q [|] w]; [|done]. cbn in Hstep. simplify_eq. wp_step.
    eapply wp_mono; [exact (pipe_close_wp s C H rn wn x (Chan q true w) true Hrel eq_refl)|]. intros [] s' [? ?]. by apply wp_ret.
  - destruct c as [q r0 [|]]; [|done]. cbn in Hstep. simplify_eq. wp_step.
    eapply wp_mono; [exact (pipe_close_wp s C H rn wn x (Chan q r0 true) false Hrel eq_refl)|]. intros [] s' [? ?]. by apply wp_ret.
Qed.

(** C4. A pipe is a channel.  Whatever sequence of reads, writes and closes the
    two ends of a pipe execute, each end while it is open, the results and the
    bytes delivered are those of a first-in first-out queue of 4096 bytes: end
    of file once the writer has gone, a broken pipe once the reader has,
    would-block on an empty or a full queue, and partial transfers in between.
    Nothing but the pipe and its two nodes changes, and when both ends are
    closed its memory has been given back. *)
Theorem pipe_refines_channel s C H rn wn x c ops rs c' :
  pipe_rel s C H rn wn x c → Forall op_ok ops → ch_reading c || ch_writing c = true →
  chan_run ops c = Some (rs, c') →
  ∃ s', run_ops rn wn ops s = Some (rs, s') ∧ pipe_frame s s' [rn; wn; x] ∧
    pipe_rel s' C (if ch_reading c' || ch_writing c' then H else delete x H) rn wn x c'.
Proof.
  revert s H c rs. induction ops as [|op ops IH]; intros s H c rs Hrel Hok Hany Hrun; cbn in Hrun.
  { simplify_eq. exists s. rewrite Hany. split_and!; [done|by split|done]. }
  destruct (chan_step op c) as [[[r bytes] c1]|] eqn:Hstep; [|done].
  destruct (chan_run ops c1) as [[rs1 c2]|] eqn:Hrest; [|done]. simplify_eq.
  apply Forall_cons in Hok as [Hop Hok].
  destruct (wp_elim _ _ _ (run_op_wp s C H rn wn x c op r bytes c1 Hrel Hop Hstep))
    as (a & s1 & Hs1 & -> & Hf1 & Hrel1).
  assert (∀ s2, run_ops rn wn ops s1 = Some (rs1, s2) →
    run_ops rn wn (op :: ops) s = Some ((r, bytes) :: rs1, s2)) as Hcons.
  { intros s2 Hs2. cbn. unfold mbind, M_bind. by rewrite Hs1, Hs2. }
  destruct (ch_reading c1 || ch_writing c1) eqn:Hany1.
  - destruct (IH s1 H c1 rs1 Hrel1 Hok Hany1 Hrest) as (s2 & Hs2 & Hf2 & Hrel2).
    exists s2. split_and!; [by apply Hcons|by eapply pipe_frame_trans|done].
  - apply orb_false_iff in Hany1 as [H1 H2]. destruct c1 as [q1 r1 w1]. cbn in H1, H2. subst.
    destruct ops as [|op' ops]; [|by destruct op'; cbn in Hrest].
    cbn in Hrest. simplify_eq. exists s1. split_and!; [by apply Hcons|done|done].
Qed.

End pipe.
