(* ===== verification/FsBoot.v ===== *)
(** * File descriptor tables: accesses, and the counting of shared files

    The rules of the single operations, and the invariant that ties the
    reference count of a file to the descriptors that refer to it, which
    cloning and destroying tables keeps. *)

From stdpp Require Import strings.
From S2P Require Import Prelude Pmm PmmThm Frames Vmm VmmThm PageMap Slab KHeap CString FsObj FdTable Pipe.
From S2P Require Import Ramfs Vfs VfsFile FsInv.

(** ** Tables *)

(** A table has its 256 entries, and unused ones carry no flags. *)
Record table_ok (d : fd_table) : Prop := TableOk {
  to_len : alen (ft_entries d) = FD_MAX;
  to_unused : Forall (λ e, fe_file e = None → fe_flags e = 0) (ft_entries d) }.

Definition used (e : fd_entry) : Prop := is_Some (fe_file e).

Lemma first_free_spec l i :
  match first_free l i with
  | Some j => ∃ k e, j = i + Z.of_nat k ∧ l !! k = Some e ∧ fe_file e = None ∧
      ∀ k' e', (k' < k)%nat → l !! k' = Some e' → used e'
  | None => Forall used l
  end.
Proof.
  revert i. induction l as [|e l IH]; intros i; cbn; [constructor|].
  destruct (fe_file e) as [f|] eqn:Hf.
  - specialize (IH (i + 1)). destruct (first_free l (i + 1)) as [j|].
    + destruct IH as (k & e' & -> & Hk & He & Hlow). exists (Datatypes.S k), e'.
      split_and!; [lia|done|done|]. intros [|k'] e'' Hlt Hl; [|eapply Hlow; [|done]; lia].
      cbn in Hl. simplify_eq. by exists f.
    + constructor; [by exists f|done].
  - exists O, e. split_and!; [lia|done|done|]. intros k' e' ?. lia.
Qed.

(** The lowest unused descriptor of a table. *)
Definition lowest_unused (l : list fd_entry) (i : Z) : Prop :=
  (∃ e, aget l i = Some e ∧ fe_file e = None) ∧
  ∀ j e, 0 ≤ j < i → aget l j = Some e → used e.

Lemma first_free_lowest l i : first_free l 0 = Some i → lowest_unused l i.
Proof.
  intros Hi. pose proof (first_free_spec l 0) as Hs. rewrite Hi in Hs.
  destruct Hs as (k & e & -> & Hk & He & Hlow). split.
  - exists e. split; [|done]. unfold aget. rewrite decide_True by lia.
    by replace (Z.to_nat (0 + Z.of_nat k)) with k by lia.
  - intros j e' Hj. unfold aget. rewrite decide_True by lia. apply Hlow. lia.
Qed.

Section fd.
Context {S : Type} {KH : KHeap S} {DR : Drivers S}.
Implicit Types (s : fs S) (C : gmap Z Z) (H : blocks) (t i f : Z) (d : fd_table) (e : fd_entry).

Lemma entry_wp s t d i e (Q : fd_entry → fs S → Prop) :
  at_ s t = Some d → aget (ft_entries d) i = Some e → Q e s → wp (entry t i) Q s.
Proof. intros Ht He HQ. unfold entry. wp_step. fs_step. by eapply wp_lift. Qed.

Definition put_entry d i e : fd_table := FdTable (aset (ft_entries d) i e) (ft_ref_count d).

Lemma set_entry_wp s t d i e (Q : unit → fs S → Prop) :
  at_ s t = Some d → Q tt (put_obj t (put_entry d i e) s) → wp (set_entry t i e) Q s.
Proof. intros Ht HQ. unfold set_entry. by fs_step. Qed.

Lemma table_ok_put d i e :
  table_ok d → (fe_file e = None → fe_flags e = 0) → table_ok (put_entry d i e).
Proof.
  intros [H1 H2] He. split; cbn; [by rewrite alen_aset|]. unfold aset. case_decide; [|done].
  by apply Forall_insert.
Qed.

(** The limit of the current process. *)
Definition over_limit (g : globals) d : Prop :=
  ∃ p, process_current g = Some p ∧ int32 (p_rlimit_nofile p) ≤ count_open (ft_entries d).

Lemma fd_table_alloc_wp s t d f flags (Q : Z → fs S → Prop) :
  at_ s t = Some d →
  (over_limit (fs_glob s) d ∨ Forall used (ft_entries d) → Q (-1) s) →
  (∀ i, ¬ over_limit (fs_glob s) d → lowest_unused (ft_entries d) i →
     0 ≤ i < alen (ft_entries d) → Q i (put_obj t (put_entry d i (FdEntry (Some f) flags)) s)) →
  wp (fd_table_alloc (Some t) (Some f) flags) Q s.
Proof.
  intros Ht Hno Hyes. unfold fd_table_alloc. wp_step. fs_step. wp_step. unfold glob. wp_step.
  set (over := match process_current (fs_glob s) with Some _ => _ | None => _ end).
  assert (over = true ↔ over_limit (fs_glob s) d) as Hover.
  { unfold over, over_limit. destruct (process_current (fs_glob s)) as [p|].
    - rewrite Z.leb_le. split; [eauto|]. by intros (? & [= <-] & ?).
    - split; [done|]. by intros (? & ? & _). }
  destruct over; [apply wp_ret, Hno; left; by apply Hover|].
  assert (¬ over_limit (fs_glob s) d) as Hnot by (intros ?%Hover; done).
  destruct (first_free (ft_entries d) 0) as [i|] eqn:Hfree.
  - pose proof (first_free_lowest _ _ Hfree) as Hlow. wp_step. eapply set_entry_wp; [done|]. apply wp_ret.
    apply Hyes; [done|done|]. destruct Hlow as [(e & He & _) _]. by eapply aget_Some_bounds.
  - apply wp_ret, Hno. right. pose proof (first_free_spec (ft_entries d) 0) as Hs. by rewrite Hfree in Hs.
Qed.

Lemma fd_table_free_wp s t d fd e (Q : option Z → fs S → Prop) :
  at_ s t = Some d → table_ok d → aget (ft_entries d) fd = Some e →
  Q (fe_file e) (put_obj t (put_entry d fd (FdEntry None 0)) s) → wp (fd_table_free (Some t) fd) Q s.
Proof.
  intros Ht Hd He HQ. pose proof (aget_Some_bounds _ _ _ He) as Hb. rewrite (to_len _ Hd) in Hb.
  unfold fd_table_free, FD_MAX in *. rewrite (proj2 (Z.ltb_ge fd 0)), (proj2 (Z.leb_gt 256 fd)) by lia.
  cbn [orb]. wp_step. eapply entry_wp; [done|done|]. wp_step. eapply set_entry_wp; [done|]. by apply wp_ret.
Qed.

End fd.

(** * File systems: initialisation, and a running example

    vfs_init, ramfs_init and the creation of a descriptor table establish the
    memory invariant; the state they lead to on the kernel's own heap is the
    example the theorems are applied to. *)

Section boot.
Context {S : Type} {KH : KHeap S} {KHL : KHeapLaws S} {DR : Drivers S}.
Implicit Types (s : fs S) (C : gmap Z Z) (H : blocks).

(** Before initialisation: no objects, no caches. *)
Record unbooted s C H : Prop := Unbooted {
  ub_heap : kh_inv (fs_heap s) C H;
  ub_mem : fs_mem s = ∅;
  ub_fdt : fdt_cache (fs_glob s) = None;
  ub_data : ramfs_data_cache (fs_glob s) = None }.

(** A cache is created; those that were there stay. *)
Lemma cache_create_run s C H name size (r : option Z) s' :
  kh_inv (fs_heap s) C H → 0 < size ≤ 32768 →
  on_heap (kh_cache_create name size 8 SLAB_ZERO) s = Some (r, s') →
  fs_mem s' = fs_mem s ∧ fs_glob s' = fs_glob s ∧
  ∃ C', kh_inv (fs_heap s') C' H ∧ C ⊆ C' ∧ ∀ c, r = Some c → C' !! c = Some size.
Proof.
  intros Hk Hs Hrun. unfold on_heap, zoom in Hrun.
  pose proof (kh_create_law (fs_heap s) C H name size 8 SLAB_ZERO Hk Hs (or_intror eq_refl) eq_refl) as Hw.
  unfold wp in Hw. destruct (kh_cache_create name size 8 SLAB_ZERO (fs_heap s)) as [[r0 h]|]; [|done].
  injection Hrun as <- <-. split_and!; [done|done|]. destruct r0 as [c|].
  - destruct Hw as (_ & Hc & Hk'). exists (<[c := size]> C). split_and!; [done|by apply insert_subseteq|].
    intros c' [= <-]. apply lookup_insert_eq.
  - by exists C.
Qed.

Lemma cache_has_mono C C' c n : C ⊆ C' → cache_has C c n → cache_has C' c n.
Proof. intros Hs Hc x Hx. eapply lookup_weaken; [by apply Hc|done]. Qed.

Lemma vfs_init_ok s C H s' :
  unbooted s C H → vfs_init s = Some (tt, s') → ∃ C', fs_ok s' C' H ∧ fdt_cache (fs_glob s') = None ∧
    fs_mem s' = ∅.
Proof.
  intros [U1 U2 U3 U4] Hrun. unfold vfs_init, mbind, M_bind in Hrun. cbn beta iota in Hrun.
  unfold upd_glob, modify in Hrun.
  destruct (on_heap (kh_cache_create "vfs_node" sizeof_vfs_node_t 8 SLAB_ZERO) _) as [[a s1]|] eqn:E1; [|done].
  destruct (on_heap (kh_cache_create "vfs_file" _ _ _) s1) as [[b s2]|] eqn:E2; [|done].
  destruct (on_heap (kh_cache_create "vfs_mount" _ _ _) s2) as [[c s3]|] eqn:E3; [|done].
  apply (cache_create_run _ C H) in E1 as (M1 & G1 & C1 & K1 & S1 & A1); [|done|done].
  apply (cache_create_run _ C1 H) in E2 as (M2 & G2 & C2 & K2 & S2 & A2); [|done|done].
  apply (cache_create_run _ C2 H) in E3 as (M3 & G3 & C3 & K3 & S3 & A3); [|done|done].
  assert (fs_mem s' = ∅ ∧ kh_inv (fs_heap s') C3 H ∧ node_cache (fs_glob s') = a ∧
    file_cache (fs_glob s') = b ∧ mount_cache (fs_glob s') = c ∧ fdt_cache (fs_glob s') = None ∧
    ramfs_data_cache (fs_glob s') = None) as (M & K & Ga & Gb & Gc & Gd & Ge).
  { destruct a as [a|], b as [b|], c as [c|]; try done. injection Hrun as <-. cbn.
    rewrite M3, M2, M1, G3, G2, G1. cbn. split_and!; done. }
  exists C3. split_and!; [|done|done]. split; [done| |by intros x o; rewrite M, lookup_empty].
  split; rewrite ?Ga, ?Gb, ?Gc, ?Gd, ?Ge; try done; intros y Hy.
  - eapply lookup_weaken; [by apply A1|by trans C2].
  - eapply lookup_weaken; [by apply A2|done].
Qed.

Lemma caches_ok_mono g C C' : C ⊆ C' → caches_ok g C → caches_ok g C'.
Proof. intros Hs []. split; by eapply cache_has_mono. Qed.

(** A change of the static variables that leaves the caches alone. *)
Definition same_caches (g g' : globals) : Prop :=
  node_cache g' = node_cache g ∧ file_cache g' = file_cache g ∧ mount_cache g' = mount_cache g ∧
  fdt_cache g' = fdt_cache g ∧ ramfs_data_cache g' = ramfs_data_cache g.

Lemma home_same g g' o t : same_caches g g' → home g o t → home g' o t.
Proof. intros (E1 & E2 & E3 & E4 & E5). destruct o; cbn; by rewrite ?E1, ?E2, ?E3, ?E4, ?E5. Qed.

Lemma fs_ok_glob s C H g : fs_ok s C H → same_caches (fs_glob s) g → fs_ok (set_glob g s) C H.
Proof.
  intros [H1 [C1 C2 C3 C4 C5] H3] Hg. pose proof Hg as (E1 & E2 & E3 & E4 & E5). split; [done|..].
  - cbn. split; by rewrite ?E1, ?E2, ?E3, ?E4, ?E5.
  - intros x o Hx. destruct (H3 x o Hx) as (t & ? & Hh). exists t. split; [done|]. by eapply home_same.
Qed.

(** A new cache for a kind that has no objects yet. *)
Lemma fs_ok_new_cache s C H s1 C' g' :
  fs_ok s C H → fs_mem s1 = fs_mem s → C ⊆ C' → kh_inv (fs_heap s1) C' H → caches_ok g' C' →
  (∀ x o t, fs_mem s !! x = Some o → home (fs_glob s) o t → home g' o t) →
  fs_ok (set_glob g' s1) C' H.
Proof.
  intros [_ _ Hm] M Hs Hk Hc Hh. split; [done|done|]. cbn. rewrite M.
  intros x o Hx. destruct (Hm x o Hx) as (t & Ht & Ho). exists t. eauto.
Qed.

Lemma ramfs_init_ok s C H s' :
  fs_ok s C H → fs_mem s = ∅ → fdt_cache (fs_glob s) = None → ramfs_init s = Some (tt, s') →
  ∃ C', fs_ok s' C' H ∧ fs_mem s' = ∅ ∧ fdt_cache (fs_glob s') = None.
Proof.
  intros Hok Hm Hf Hrun. unfold ramfs_init, mbind, M_bind in Hrun. cbn beta iota in Hrun.
  destruct (on_heap (kh_cache_create "ramfs_data" _ _ _) s) as [[a s1]|] eqn:E1; [|done].
  apply (cache_create_run _ C H) in E1 as (M1 & G1 & C1 & K1 & S1 & A1); [|apply Hok|done].
  unfold upd_glob, modify in Hrun. destruct a as [a|]; [|done].
  assert (fs_ok (set_glob (set_ramfs_data_cache (Some a) (fs_glob s1)) s1) C1 H) as Hok1.
  { eapply (fs_ok_new_cache s C H); [done|done|done|done|..].
    - pose proof (caches_ok_mono _ _ _ S1 (fo_caches _ _ _ Hok)) as [B1 B2 B3 B4 B5].
      rewrite G1. by split.
    - intros x o t Hx. by rewrite Hm, lookup_empty in Hx. }
  assert (∀ n i name x r y, find_registered n i name x = Some (r, y) → y = x) as Hfind.
  { induction n as [|n IH]; intros i name x r y; cbn; [by intros [= _ <-]|].
    unfold mbind, M_bind, glob, gets, lift. destruct (registered_name _ i); [|done].
    destruct (decide _); [by intros [= _ <-]|apply IH]. }
  destruct (vfs_register_fs (Some ramfs_fs_ops) _) as [[e s2]|] eqn:E2; [|done].
  destruct (e =? VFS_OK) eqn:He; [|done]. apply Z.eqb_eq in He. subst e. cbn in Hrun. injection Hrun as <-.
  unfold vfs_register_fs in E2. cbn in E2. destruct (fo_name (fs_ops_at ramfs_fs_ops)) as [nm|]; [|done].
  unfold mbind, M_bind, glob, gets in E2. cbn beta iota in E2.
  destruct (find_registered _ 0 nm _) as [[r y]|] eqn:E3; [|done]. apply Hfind in E3. subst y.
  destruct r; [done|]. destruct (VFS_MAX_FS <=? _); [done|]. unfold upd_glob, modify in E2.
  injection E2 as <-. exists C1. split_and!; [|by cbn; rewrite M1|by cbn; rewrite G1].
  eapply (fs_ok_glob _ _ _ _ Hok1). done.
Qed.

Lemma fd_table_init_ok s C H s' :
  fs_ok s C H → fs_mem s = ∅ → fdt_cache (fs_glob s) = None → fd_table_init s = Some (tt, s') →
  ∃ C', fs_ok s' C' H ∧ fs_mem s' = ∅.
Proof.
  intros Hok Hm Hf Hrun. unfold fd_table_init, mbind, M_bind, glob, gets in Hrun. rewrite Hf in Hrun.
  destruct (on_heap (kh_cache_create "fd_table" _ _ _) s) as [[a s1]|] eqn:E1; [|done].
  apply (cache_create_run _ C H) in E1 as (M1 & G1 & C1 & K1 & S1 & A1); [|apply Hok|done].
  destruct a as [a|]; [|done]. unfold upd_glob, modify in Hrun. injection Hrun as <-.
  exists C1. split; [|by cbn; rewrite M1]. eapply (fs_ok_new_cache s C H); [done|done|done|done|..].
  - pose proof (caches_ok_mono _ _ _ S1 (fo_caches _ _ _ Hok)) as [B1 B2 B3 B4 B5].
    rewrite G1. by split.
  - intros x o t Hx. by rewrite Hm, lookup_empty in Hx.
Qed.

Lemma fd_table_create_wp s C H c (Q : option Z → fs S → Prop) :
  fs_ok s C H → fdt_cache (fs_glob s) = Some c →
  (∀ s', fs_ok s' C H → same_but_heap s s' → Q None s') →
  (∀ x s', 0 < x → H !! x = None → fs_mem s !! x = None →
     fs_ok s' C (<[x := (Some c, sizeof_fd_table_t)]> H) →
     changes s s' x (Some (OTable (FdTable (replicate (Z.to_nat FD_MAX) (FdEntry None 0)) 1))) →
     Q (Some x) s') →
  wp fd_table_create Q s.
Proof.
  intros Hok Hc HN HS. unfold fd_table_create, glob. wp_step. wp_step. rewrite Hc. wp_step. wp_step.
  wp_step. wp_step. rewrite Hc. eapply new_from_wp; [exact Hok| | |done|done].
  - rewrite <-Hc. apply Hok.
  - by intros t Ht ->.
Qed.

(** The state of a kernel whose process has an empty descriptor table. *)
Definition boot : M (fs S) unit := vfs_init ;; ramfs_init ;; fd_table_init ;; fd_table_create ;; mret tt.

Lemma boot_ok s C s' : unbooted s C ∅ → boot s = Some (tt, s') → ∃ C' H', fs_ok s' C' H'.
Proof.
  intros Hu Hrun. unfold boot, mbind, M_bind in Hrun.
  destruct (vfs_init s) as [[[] s1]|] eqn:E1; [|done].
  destruct (vfs_init_ok _ _ _ _ Hu E1) as (C1 & Hok1 & F1 & M1).
  destruct (ramfs_init s1) as [[[] s2]|] eqn:E2; [|done].
  destruct (ramfs_init_ok _ _ _ _ Hok1 M1 F1 E2) as (C2 & Hok2 & M2 & F2).
  destruct (fd_table_init s2) as [[[] s3]|] eqn:E3; [|done].
  destruct (fd_table_init_ok _ _ _ _ Hok2 M2 F2 E3) as (C3 & Hok3 & M3).
  destruct (fdt_cache (fs_glob s3)) as [c|] eqn:Hc.
  - pose proof (fd_table_create_wp s3 C3 ∅ c (λ _ x, ∃ H', fs_ok x C3 H') Hok3 Hc) as Hw. unfold wp in Hw.
    destruct (fd_table_create s3) as [[r s4]|]; [|done]. injection Hrun as <-.
    exists C3. apply Hw; eauto.
  - exfalso. unfold fd_table_init, mbind, M_bind, glob, gets in E3. rewrite F2 in E3.
    destruct (on_heap _ s2) as [[[a|] s4]|]; [|done|done]. unfold upd_glob, modify in E3.
    injection E3 as <-. done.
Qed.

End boot.

(** ** The example *)

Definition no_ops {S} : node_ops S :=
  NodeOps S None None None None None None None None None None None None None None None None.
Definition no_fs {S} : fs_ops S := FsOps S None None None.

(** The kernel's heap with the RAM file system and pipes, and no other drivers. *)
Abbreviation kernel_heap := (heap (vm mem_info)).

#[export] Instance demo_drivers : Drivers kernel_heap := kernel_drivers (λ _, no_ops) (λ _, no_fs).

(** The address the descriptor table gets. *)
Definition demo_table : Z := 0xFFFFFFFF88013040.

Definition demo_process : process := Process 1000 100 (Some demo_table) 1024.

Definition demo_fs0 : fs kernel_heap :=
  Fs demo_heap ∅ (Globals None None None None None [] 0 None None [] true (Some demo_process)).

Definition demo_fs : fs kernel_heap := run_state boot demo_fs0.

Lemma demo_fs_ok : ∃ C H, fs_ok demo_fs C H.
Proof.
  apply (boot_ok demo_fs0 ∅); [by split; [exact demo_holds|..]|].
  unfold demo_fs. apply run_state_some. vm_cast_no_check (eq_refl true).
Qed.

Definition empty_table : fd_table := FdTable (replicate (Z.to_nat FD_MAX) (FdEntry None 0)) 1.

Lemma empty_table_ok : table_ok empty_table.
Proof.
  split; cbn [ft_entries empty_table]; [|by apply Forall_replicate].
  unfold alen, FD_MAX. rewrite length_replicate. lia.
Qed.

Lemma demo_fs_table : at_ demo_fs demo_table = Some empty_table.
Proof. vm_cast_no_check (eq_refl (Some empty_table)). Qed.

Lemma demo_fs_process : process_current (fs_glob demo_fs) = Some demo_process.
Proof. vm_cast_no_check (eq_refl (Some demo_process)). Qed.
