(* ===== verification/PipeCreate.v ===== *)
(** * Pipes: creation (pipe_create of fs/pipe.c)

    On success there are two descriptors of the two ends of an empty channel;
    on every failure everything taken on the way has been given back. *)

From stdpp Require Import strings.
From S2P Require Import Prelude KHeap CString FsObj FsInv FdTable FsBoot Pipe PipeThm.
From S2P Require Import Pmm PmmThm Frames Vmm VmmThm PageMap Slab.

Section create.
Context {S : Type} {KH : KHeap S} {KHL : KHeapLaws S} {DR : Drivers S}.
Implicit Types (s : fs S) (C : gmap Z Z) (H : blocks) (A : objects).

Definition unchanged s C H s' : Prop :=
  fs_ok s' C H ∧ fs_mem s' = fs_mem s ∧ fs_glob s' = fs_glob s.

(** The objects of a pipe: the buffer and the nodes of its ends. *)
Definition pipe_objects (c : option Z) (x rn wn : Z) : objects :=
  <[wn := (ONode (pipe_node pipe_write_ops x VFS_PERM_WRITE empty_node), c)]>
  (<[rn := (ONode (pipe_node pipe_read_ops x VFS_PERM_READ empty_node), c)]>
   (<[x := (OPipe new_pipe, None)]> ∅)).

Lemma undo_pipe_wp s0 C H0 s c x rn wn e (Q : Z * option (Z * Z) → fs S → Prop) :
  adds s0 C H0 s (pipe_objects c x rn wn) → x ≠ rn → x ≠ wn → rn ≠ wn →
  (∀ s', unchanged s0 C H0 s' → Q (e, None) s') →
  wp (vfs_node_free (Some wn) ;; vfs_node_free (Some rn) ;; free_kmalloc x ;; mret (e, None)) Q s.
Proof.
  intros Ha Hxr Hxw Hrw HQ. unfold pipe_objects in Ha.
  wp_step. eapply adds_node_free_wp; [exact Ha|adds_lookup|]. intros s1 H1.
  wp_step. eapply adds_node_free_wp; [exact H1|adds_lookup|]. intros s2 H2.
  wp_step. eapply adds_free_kmalloc_wp; [exact H2|adds_lookup|]. intros s3 H3.
  apply wp_ret, HQ. eapply adds_empty; [exact H3|]. map_cases.
Qed.

(** Giving the files back first. *)
Lemma undo_files_wp s0 C H0 s c x rn wn rf wf fo wo (Q : Z * option (Z * Z) → fs S → Prop) e :
  adds s0 C H0 s (<[wf := (OFile wo, None)]> (<[rf := (OFile fo, None)]> (pipe_objects c x rn wn))) →
  pipe_objects c x rn wn !! rf = None → <[rf := (OFile fo, None)]> (pipe_objects c x rn wn) !! wf = None →
  x ≠ rn → x ≠ wn → rn ≠ wn → (∀ s', unchanged s0 C H0 s' → Q (e, None) s') →
  wp (free_kmalloc wf ;; free_kmalloc rf ;; vfs_node_free (Some wn) ;; vfs_node_free (Some rn) ;;
      free_kmalloc x ;; mret (e, None)) Q s.
Proof.
  intros Ha Hrf Hwf ? ? ? HQ. wp_step.
  eapply adds_free_kmalloc_wp; [exact Ha|apply lookup_insert_eq|]. intros s1 Ha1.
  rewrite delete_insert_id in Ha1 by done. wp_step.
  eapply adds_free_kmalloc_wp; [exact Ha1|apply lookup_insert_eq|]. intros s2 Ha2.
  rewrite delete_insert_id in Ha2 by done. by eapply undo_pipe_wp.
Qed.

(** The two descriptors of a new pipe. *)
Record created s C H (fdt : Z) (d : fd_table) s' (rfd wfd x rn wn rf wf : Z) : Prop := Created {
  cr_rfd : lowest_unused (ft_entries d) rfd;
  cr_wfd : lowest_unused (ft_entries (put_entry d rfd (FdEntry (Some rf) 0))) wfd;
  cr_table : at_ s' fdt =
    Some (put_entry (put_entry d rfd (FdEntry (Some rf) 0)) wfd (FdEntry (Some wf) 0));
  cr_read : at_ s' rf = Some (File (Some rn) 0 O_RDONLY 1 0);
  cr_write : at_ s' wf = Some (File (Some wn) 0 O_WRONLY 1 0);
  cr_channel : ∃ H', pipe_rel s' C H' rn wn x (Chan [] true true) ∧
    (∀ y b, H !! y = Some b → H' !! y = Some b);
  cr_fresh : ∀ y, y ∈ [x; rn; wn; rf; wf] → fs_mem s !! y = None;
  cr_frame : ∀ y, y ≠ fdt → y ∉ [x; rn; wn; rf; wf] → fs_mem s' !! y = fs_mem s !! y }.

Lemma ring_new : ring new_pipe [].
Proof.
  assert (alen (@nil Z) = 0) as Hnil by done. unfold new_pipe, PIPE_BUF_SIZE.
  split; cbn [pp_buffer pp_read_pos pp_write_pos pp_count]; rewrite ?Hnil; unfold PIPE_BUF_SIZE; try lia.
  - unfold alen. rewrite length_replicate. lia.
  - done.
Qed.

#[local] Opaque new_pipe.

Definition full_objects c x rn wn rf wf : objects :=
  <[wf := (OFile (File (Some wn) 0 O_WRONLY 1 0), None)]>
  (<[rf := (OFile (File (Some rn) 0 O_RDONLY 1 0), None)]> (pipe_objects c x rn wn)).

Lemma pipe_objects_none c x rn wn y :
  pipe_objects c x rn wn !! y = None → y ≠ x ∧ y ≠ rn ∧ y ≠ wn.
Proof.
  unfold pipe_objects. rewrite !lookup_insert_None, lookup_empty. intros [[[_ ?] ?] ?]. split_and!; congruence.
Qed.

(** The state at the end of a successful creation. *)
Lemma created_intro s C H fdt d s' c x rn wn rf wf rfd wfd :
  at_ s fdt = Some d → x ≠ rn → x ≠ wn → rn ≠ wn →
  pipe_objects c x rn wn !! rf = None →
  <[rf := (OFile (File (Some rn) 0 O_RDONLY 1 0), None)]> (pipe_objects c x rn wn) !! wf = None →
  lowest_unused (ft_entries d) rfd →
  lowest_unused (ft_entries (put_entry d rfd (FdEntry (Some rf) 0))) wfd →
  let d' := put_entry (put_entry d rfd (FdEntry (Some rf) 0)) wfd (FdEntry (Some wf) 0) in
  adds (put_obj fdt d' s) C H s' (full_objects c x rn wn rf wf) →
  created s C H fdt d s' rfd wfd x rn wn rf wf.
Proof.
  intros Hd Hxr Hxw Hrw Hrf Hwf Hl1 Hl2 d' Ha. apply lookup_insert_None in Hwf as [Hwf Hne].
  apply pipe_objects_none in Hrf as (? & ? & ?). apply pipe_objects_none in Hwf as (? & ? & ?).
  assert (∀ y, y ∈ [x; rn; wn; rf; wf] → is_Some (full_objects c x rn wn rf wf !! y)) as Hin.
  { intros y Hy. unfold full_objects, pipe_objects. rewrite !lookup_insert_is_Some'. set_solver. }
  split; try done.
  - eapply adds_base; [exact Ha|]. apply at_put_eq.
  - eapply adds_at; [exact Ha|]. unfold full_objects, pipe_objects. adds_lookup.
  - eapply adds_at; [exact Ha|]. unfold full_objects, pipe_objects. adds_lookup.
  - exists (blocks_of (full_objects c x rn wn rf wf) ∪ H). split.
    + split; try done; [apply Ha|..].
      * intros _. eexists. split; [eapply adds_at; [exact Ha|]; unfold full_objects, pipe_objects; adds_lookup|done].
      * intros _. eexists. split; [eapply adds_at; [exact Ha|]; unfold full_objects, pipe_objects; adds_lookup|done].
      * intros _. exists new_pipe. split_and!; [|apply ring_new|done|done].
        eapply adds_at; [exact Ha|]. unfold full_objects, pipe_objects. adds_lookup.
    + intros y b Hy. rewrite lookup_union_r; [done|]. unfold blocks_of. rewrite lookup_fmap, fmap_None.
      destruct (full_objects c x rn wn rf wf !! y) as [p|] eqn:Hp; [|done].
      destruct (ad_fresh _ _ _ _ _ Ha y) as [? _]; [by exists p|congruence].
  - intros y Hy. destruct (ad_fresh _ _ _ _ _ Ha y (Hin y Hy)) as [_ Hm]. cbn in Hm.
    by apply lookup_insert_None in Hm as [? _].
  - intros y Hy Hno. rewrite (ad_mem _ _ _ _ _ Ha), lookup_union_r.
    + cbn. by rewrite lookup_insert_ne by done.
    + rewrite lookup_fmap, fmap_None. unfold full_objects, pipe_objects.
      rewrite !lookup_insert_ne by set_solver. apply lookup_empty.
Qed.

Lemma put_entry_undo d i f :
  table_ok d → lowest_unused (ft_entries d) i →
  put_entry (put_entry d i (FdEntry (Some f) 0)) i (FdEntry None 0) = d.
Proof.
  intros [_ Hu] [(e & He & Hn) _]. destruct d as [es r]. unfold put_entry. cbn in *. f_equal.
  rewrite aset_aset. unfold aget, aset in *. case_decide; [|done].
  apply list_insert_id. rewrite He. f_equal. destruct e as [fl gs]. cbn in *. subst.
  rewrite Forall_forall in Hu. f_equal. by apply (Hu (FdEntry None gs) (list_elem_of_lookup_2 _ _ _ He)).
Qed.

(** How pipe_create ends. *)
Definition create_result s C H fdt d (r : Z * option (Z * Z)) s' : Prop :=
  match r with
  | (e, None) => (e = - VFS_ENOMEM ∨ e = - VFS_EMFILE) ∧ unchanged s C H s'
  | (e, Some (rfd, wfd)) => e = 0 ∧ ∃ x rn wn rf wf, created s C H fdt d s' rfd wfd x rn wn rf wf
  end.

(** The two descriptors. *)
Lemma pipe_fds_wp s C H fdt d s1 c x rn wn rf wf :
  at_ s fdt = Some d → table_ok d → x ≠ rn → x ≠ wn → rn ≠ wn →
  pipe_objects c x rn wn !! rf = None →
  <[rf := (OFile (File (Some rn) 0 O_RDONLY 1 0), None)]> (pipe_objects c x rn wn) !! wf = None →
  adds s C H s1 (full_objects c x rn wn rf wf) →
  wp (rfd ← fd_table_alloc (Some fdt) (Some rf) 0;
      if rfd <? 0 then
        free_kmalloc wf ;; free_kmalloc rf ;;
        vfs_node_free (Some wn) ;; vfs_node_free (Some rn) ;;
        free_kmalloc x ;; mret (- VFS_EMFILE, None)
      else
        wfd ← fd_table_alloc (Some fdt) (Some wf) 0;
        if wfd <? 0 then
          fd_table_free (Some fdt) rfd ;;
          free_kmalloc wf ;; free_kmalloc rf ;;
          vfs_node_free (Some wn) ;; vfs_node_free (Some rn) ;;
          free_kmalloc x ;; mret (- VFS_EMFILE, None)
        else mret (0, Some (rfd, wfd))) (create_result s C H fdt d) s1.
Proof.
  intros Hd Htab Hxr Hxw Hrw Hrf Hwf Ha. unfold full_objects in Ha. wp_step.
  eapply fd_table_alloc_wp; [by eapply adds_base| |].
  { intros _. eapply undo_files_wp; [exact Ha|done..|]. intros s' Hu. split; [by right|done]. }
  intros rfd _ Hl1 Hb1. destruct (Z.ltb_spec rfd 0) as [?|_]; [lia|].
  set (d1 := put_entry d rfd (FdEntry (Some rf) 0)).
  assert (table_ok d1) as Htab1 by by apply table_ok_put.
  apply (adds_base_put _ _ _ _ _ fdt d d1) in Ha; [|done|done|done].
  wp_step. eapply fd_table_alloc_wp; [apply at_put_eq|..].
  - intros _. change (-1 <? 0) with true. cbv iota. wp_step.
    eapply fd_table_free_wp; [apply at_put_eq|done|unfold d1; cbn; by apply aget_aset_eq|].
    apply (adds_base_put _ _ _ _ _ fdt d1 (put_entry d1 rfd (FdEntry None 0))) in Ha;
      [|apply at_put_eq|done|done].
    assert (put_entry d1 rfd (FdEntry None 0) = d) as Hundo by by apply put_entry_undo.
    rewrite Hundo, !put_put, (put_same s fdt d) in Ha by done. rewrite Hundo, put_put.
    eapply undo_files_wp; [exact Ha|done..|]. intros s' Hu. split; [by right|done].
  - intros wfd _ Hl2 Hb2. destruct (Z.ltb_spec wfd 0) as [?|_]; [lia|]. apply wp_ret. split; [done|].
    exists x, rn, wn, rf, wf. apply (created_intro s C H fdt d _ c); [done..|].
    apply (adds_base_put _ _ _ _ _ fdt d1 (put_entry d1 wfd (FdEntry (Some wf) 0))) in Ha;
      [|apply at_put_eq|done|done].
    rewrite !put_put in Ha. rewrite put_put. exact Ha.
Qed.

Lemma pipe_files_wp s C H fdt d s1 c x rn wn :
  at_ s fdt = Some d → table_ok d → x ≠ rn → x ≠ wn → rn ≠ wn →
  adds s C H s1 (pipe_objects c x rn wn) →
  wp (pipe_files fdt x rn wn) (create_result s C H fdt d) s1.
Proof.
  intros Hd Htab Hxr Hxw Hrw Ha. unfold pipe_files.
  assert (0 ≤ sizeof_file_t ≤ KMALLOC_LIMIT) as Hsz by by vm_compute.
  wp_step. eapply adds_new_kmalloc_wp; [exact Ha|done|done|by left|..].
  - intros s2 Ha2. wp_step. eapply adds_new_kmalloc_wp; [exact Ha2|done|done|by left|..].
    + intros s3 Ha3. wp_step. apply wp_ret. wp_step. apply wp_ret.
      eapply undo_pipe_wp; [done..|]. intros s' Hu. split; [by left|done].
    + intros wf s3 _ Hwf _ Ha3. wp_step. apply wp_ret. wp_step.
      eapply adds_free_kmalloc_wp; [exact Ha3|apply lookup_insert_eq|]. intros s4 Ha4.
      rewrite delete_insert_id in Ha4 by done.
      eapply undo_pipe_wp; [done..|]. intros s' Hu. split; [by left|done].
  - intros rf s2 _ Hrf _ Ha2. wp_step. eapply adds_new_kmalloc_wp; [exact Ha2|done|done|by left|..].
    + intros s3 Ha3. wp_step. eapply adds_free_kmalloc_wp; [exact Ha3|apply lookup_insert_eq|].
      intros s4 Ha4. rewrite delete_insert_id in Ha4 by done. wp_step. apply wp_ret.
      eapply undo_pipe_wp; [done..|]. intros s' Hu. split; [by left|done].
    + intros wf s3 _ Hwf _ Ha3. by eapply pipe_fds_wp.
Qed.

Lemma pipe_create_wp s C H p fdt d :
  fs_ok s C H → process_current (fs_glob s) = Some p → p_fd_table p = Some fdt →
  at_ s fdt = Some d → table_ok d →
  wp pipe_create (create_result s C H fdt d) s.
Proof.
  intros Hok Hp Hfdt Hd Htab. unfold pipe_create. wp_step. unfold glob. wp_step.
  rewrite Hp. cbn. rewrite Hfdt. pose proof (adds_refl s C H Hok) as Ha.
  assert (0 ≤ sizeof_pipe_t ≤ KMALLOC_LIMIT) as Hsz by by vm_compute.
  wp_step. eapply adds_new_kmalloc_wp; [exact Ha|done|done|done|..].
  { intros s1 Ha1. apply wp_ret. split; [by left|]. by eapply adds_empty. }
  intros x s1 _ _ _ Ha1. wp_step. eapply adds_node_alloc_wp; [exact Ha1|..].
  { intros s2 Ha2. wp_step. eapply adds_free_kmalloc_wp; [exact Ha2|apply lookup_insert_eq|].
    intros s3 Ha3. apply wp_ret. split; [by left|]. eapply adds_empty; [exact Ha3|]. map_cases. }
  intros rn s2 _ Hrn _ Ha2. apply lookup_insert_None in Hrn as [_ Hxr].
  wp_step. eapply upd_wp; [eapply adds_at; [exact Ha2|apply lookup_insert_eq]|].
  apply (adds_put _ _ _ _ _ rn empty_node (pipe_node pipe_read_ops x VFS_PERM_READ empty_node)
    (node_cache (fs_glob s1))) in Ha2; [|apply lookup_insert_eq|done|done].
  rewrite insert_insert_eq in Ha2.
  wp_step. eapply adds_node_alloc_wp; [exact Ha2|..].
  { intros s3 Ha3. wp_step. eapply adds_node_free_wp; [exact Ha3|apply lookup_insert_eq|].
    intros s4 Ha4. wp_step. eapply adds_free_kmalloc_wp; [exact Ha4|adds_lookup|].
    intros s5 Ha5. apply wp_ret. split; [by left|]. eapply adds_empty; [exact Ha5|]. map_cases. }
  intros wn s3 _ Hwn _ Ha3. apply lookup_insert_None in Hwn as [[_ Hxw]%lookup_insert_None Hrw].
  wp_step. eapply upd_wp; [eapply adds_at; [exact Ha3|apply lookup_insert_eq]|].
  eapply (adds_put _ _ _ _ _ wn empty_node (pipe_node pipe_write_ops x VFS_PERM_WRITE empty_node))
    in Ha3; [|apply lookup_insert_eq|done|done].
  rewrite insert_insert_eq in Ha3.
  eapply pipe_files_wp; [done|done|exact Hxr|exact Hxw|exact Hrw|].
  unfold pipe_objects.
  replace (node_cache (fs_glob s1)) with (node_cache (fs_glob (put_obj rn
    (pipe_node pipe_read_ops x VFS_PERM_READ empty_node) s2))) in Ha3; [exact Ha3|].
  pose proof (ad_glob _ _ _ _ _ Ha1). pose proof (ad_glob _ _ _ _ _ Ha2) as Hg2. cbn in Hg2 |- *. congruence.
Qed.

(** Creation of a pipe.  For a process with a table of descriptors,
    pipe_create does not fault.  It fails with everything as it was, in memory
    and in the heap, or the two lowest unused descriptors of the table refer to
    new files, open for reading and for writing, of the two ends of an empty
    channel; no other object changes. *)
Theorem pipe_create_correct s C H p fdt d :
  fs_ok s C H → process_current (fs_glob s) = Some p → p_fd_table p = Some fdt →
  at_ s fdt = Some d → table_ok d →
  ∃ r s', pipe_create s = Some (r, s') ∧ create_result s C H fdt d r s'.
Proof. intros. apply wp_elim. by eapply pipe_create_wp. Qed.

End create.

(** ** The example *)

Lemma pipe_create_correct_witness :
  ∃ C H r s', pipe_create demo_fs = Some (r, s') ∧ create_result demo_fs C H demo_table empty_table r s'.
Proof.
  destruct demo_fs_ok as (C & H & Hok). exists C, H.
  exact (pipe_create_correct demo_fs C H demo_process demo_table empty_table Hok demo_fs_process
    eq_refl demo_fs_table empty_table_ok).
Defined.

Definition demo_pipe_fs : fs kernel_heap := run_state pipe_create demo_fs.

Lemma demo_pipe_created : pipe_create demo_fs = Some ((0, Some (0, 1)), demo_pipe_fs).
Proof.
  unfold demo_pipe_fs. refine (run_some pipe_create (0, Some (0, 1)) demo_fs _).
  vm_cast_no_check (eq_refl true).
Qed.

Lemma created_rel s C H fdt d e rfd wfd s' :
  wp pipe_create (create_result s C H fdt d) s → pipe_create s = Some ((e, Some (rfd, wfd)), s') →
  ∃ H' rn wn x, pipe_rel s' C H' rn wn x (Chan [] true true).
Proof.
  intros Hw Hrun. destruct (wp_at _ _ _ _ _ Hw Hrun) as (_ & x & rn & wn & rf & wf & Hc).
  destruct (cr_channel _ _ _ _ _ _ _ _ _ _ _ _ _ Hc) as (H' & Hr & _). by exists H', rn, wn, x.
Qed.

Lemma demo_pipe_rel : ∃ C H rn wn x, pipe_rel demo_pipe_fs C H rn wn x (Chan [] true true).
Proof.
  destruct demo_fs_ok as (C & H & Hok). exists C.
  refine (created_rel demo_fs C H demo_table empty_table 0 0 1 demo_pipe_fs _ demo_pipe_created).
  exact (pipe_create_wp demo_fs C H demo_process demo_table empty_table Hok demo_fs_process
    eq_refl demo_fs_table empty_table_ok).
Qed.

Definition demo_ops : list pipe_op :=
  [PRead 5; PWrite [104; 105; 33]; PRead 2; PCloseWrite; PRead 7; PRead 7; PCloseRead].

Lemma pipe_refines_channel_witness :
  ∃ s rn wn s', run_ops rn wn demo_ops s =
    Some ([(-11, []); (3, []); (2, [104; 105]); (0, []); (1, [33]); (0, []); (0, [])], s').
Proof.
  destruct demo_pipe_rel as (C & H & rn & wn & x & Hr). exists demo_pipe_fs, rn, wn.
  destruct (pipe_refines_channel demo_pipe_fs C H rn wn x (Chan [] true true) demo_ops
    [(-11, []); (3, []); (2, [104; 105]); (0, []); (1, [33]); (0, []); (0, [])] (Chan [] false false) Hr)
    as (s' & Hs' & _).
  - by repeat constructor.
  - reflexivity.
  - vm_compute. reflexivity.
  - exists s'. exact Hs'.
Defined.
