(* ===== verification/FdShare.v ===== *)
(** * Descriptors that share files: cloning and destroying tables

    A file counts the descriptors that refer to it.  Cloning a table, as fork
    does, gives the child the same descriptors and raises the counts; destroying
    a table lowers them and closes the files that lost their last descriptor. *)

From stdpp Require Import strings.
From S2P Require Import Prelude KHeap Slab FsObj FsInv FdTable FsBoot Pipe PipeThm PipeCreate.
From S2P Require Import Pmm PmmThm Frames Vmm VmmThm PageMap.

(** ** Counting descriptors *)

Definition refers (f : Z) (e : fd_entry) : bool := bool_decide (fe_file e = Some f).

(** The number of entries that satisfy a test. *)
Fixpoint tally (P : fd_entry → bool) (es : list fd_entry) : Z :=
  match es with
  | [] => 0
  | e :: es' => Z.b2z (P e) + tally P es'
  end.

Lemma tally_bounds P es : 0 ≤ tally P es ≤ alen es.
Proof.
  induction es as [|e es IH]; cbn; [done|]. rewrite alen_cons. destruct (P e); cbn; lia.
Qed.

Lemma tally_app P es es' : tally P (es ++ es') = tally P es + tally P es'.
Proof. induction es as [|e es IH]; cbn; [done|]. lia. Qed.

Lemma tally_take P es i e :
  es !! i = Some e → tally P (take (S i) es) = tally P (take i es) + Z.b2z (P e).
Proof. intros Hi. rewrite (take_S_r _ _ _ Hi), tally_app. cbn. lia. Qed.

Lemma tally_insert P es i e e' :
  es !! i = Some e → tally P (<[i := e']> es) = tally P es - Z.b2z (P e) + Z.b2z (P e').
Proof.
  revert i. induction es as [|x es IH]; intros [|i] Hi; [done|done|..]; simpl in *.
  - simplify_eq. lia.
  - rewrite (IH i Hi). lia.
Qed.

Lemma tally_zero P es : Forall (λ e, P e = false) es → tally P es = 0.
Proof. induction 1 as [|e es He _ IH]; cbn; [done|]. rewrite He. cbn. lia. Qed.

Lemma tally_pos P es i e : es !! i = Some e → P e = true → 0 < tally P es.
Proof.
  intros Hi HP. rewrite <-(take_drop_middle es i e Hi), tally_app. cbn. rewrite HP. cbn.
  pose proof (tally_bounds P (take i es)). pose proof (tally_bounds P (drop (S i) es)). lia.
Qed.

Section share.
Context {S : Type} {KH : KHeap S} {KHL : KHeapLaws S} {DR : Drivers S}.
Implicit Types (s : fs S) (C : gmap Z Z) (H : blocks) (t f n x y : Z) (d : fd_table) (e : fd_entry)
  (v : file) (nd : vfs_node) (es : list fd_entry).

(** The entry refers to a file on the node [n]. *)
Definition refers_node s n e : bool :=
  match fe_file e with
  | Some f => match at_ s f with Some v => bool_decide (f_node v = Some n) | None => false end
  | None => false
  end.

(** The files of a table are there, and so are their nodes; no counter is near
    its end. *)
Record files_ok s d : Prop := FilesOk {
  fk_files : ∀ i e f, aget (ft_entries d) i = Some e → fe_file e = Some f → ∃ v, at_ s f = Some v;
  fk_nodes : ∀ f v n, at_ s f = Some v → f_node v = Some n → ∃ nd, at_ s n = Some nd;
  fk_refs : ∀ f v, at_ s f = Some v → 0 ≤ f_ref_count v < 2 ^ 32 - FD_MAX;
  fk_node_refs : ∀ n nd, at_ s n = Some nd → 0 ≤ vn_ref_count nd < 2 ^ 32 - FD_MAX }.

Definition more_refs (k : Z) v : file := set_f_ref_count (f_ref_count v + k) v.
Definition more_node_refs (k : Z) nd : vfs_node := set_node_ref_count (vn_ref_count nd + k) nd.

(** The state after the first [i] entries of [es] have been shared. *)
Record shared s s' es : Prop := Shared {
  sd_files : ∀ f v, at_ s f = Some v → at_ s' f = Some (more_refs (tally (refers f) es) v);
  sd_nodes : ∀ n nd, at_ s n = Some nd → at_ s' n = Some (more_node_refs (tally (refers_node s n) es) nd);
  sd_other : ∀ y o, fs_mem s !! y = Some o → (∀ v, o ≠ OFile v) → (∀ nd, o ≠ ONode nd) →
    fs_mem s' !! y = Some o;
  sd_glob : fs_glob s' = fs_glob s }.

Lemma more_refs_0 v : more_refs 0 v = v.
Proof. destruct v. unfold more_refs, set_f_ref_count. cbn. by rewrite Z.add_0_r. Qed.
Lemma more_node_refs_0 nd : more_node_refs 0 nd = nd.
Proof. destruct nd. unfold more_node_refs, set_node_ref_count. cbn. by rewrite Z.add_0_r. Qed.

Lemma shared_refl s : shared s s [].
Proof.
  split; try done.
  - intros f v Hf. cbn. by rewrite more_refs_0.
  - intros n nd Hn. cbn. by rewrite more_node_refs_0.
Qed.

(** An unused entry changes no count. *)
Lemma shared_skip s s' es e : shared s s' es → fe_file e = None → shared s s' (es ++ [e]).
Proof.
  intros [S1 S2 S3 S4] He. split; try done.
  - intros f v Hf. rewrite tally_app. cbn. unfold refers. rewrite He, bool_decide_eq_false_2 by done.
    cbn. rewrite Z.add_0_r. by apply S1.
  - intros n nd Hn. rewrite tally_app. cbn. unfold refers_node at 2. rewrite He.
    cbn. rewrite Z.add_0_r. by apply S2.
Qed.

Lemma refers_eq f e : fe_file e = Some f → refers f e = true.
Proof. intros He. by apply bool_decide_eq_true_2. Qed.
Lemma refers_ne f g e : fe_file e = Some f → f ≠ g → refers g e = false.
Proof. intros He Hne. apply bool_decide_eq_false_2. rewrite He. congruence. Qed.

Lemma refers_node_eq s n e f v :
  fe_file e = Some f → at_ s f = Some v → refers_node s n e = bool_decide (f_node v = Some n).
Proof. intros He Hv. unfold refers_node. by rewrite He, Hv. Qed.

(** The file, and then the node, of one more entry. *)
Definition share_step (f : Z) : M (fs S) unit :=
  upd f (λ v, set_f_ref_count (f_ref_count v +u32 1) v) ;; v ← ld f; vfs_node_ref (f_node v).

Lemma share_step_wp s C H s1 d es e f :
  fs_ok s1 C H → files_ok s d → shared s s1 es → e ∈ ft_entries d → fe_file e = Some f → alen es < FD_MAX →
  wp (share_step f) (λ _ s2, fs_ok s2 C H ∧ shared s s2 (es ++ [e]) ∧
    (∀ y d', at_ s1 y = Some (d' : fd_table) → at_ s2 y = Some d')) s1.
Proof.
  intros Hok [F1 F2 F3 F4] Hs [i He]%list_elem_of_lookup Hf Hlen. unfold share_step.
  destruct (F1 (Z.of_nat i) e f) as [v Hv]; [unfold aget; rewrite decide_True, Nat2Z.id by lia; done|done|].
  pose proof (sd_files _ _ _ Hs f v Hv) as Hv1. pose proof (tally_bounds (refers f) es) as Ht.
  specialize (F3 f v Hv) as Fv. unfold FD_MAX in *.
  wp_step. eapply upd_wp; [exact Hv1|]. cbn [more_refs set_f_ref_count f_ref_count].
  rewrite wrap_small by lia. set (v2 := set_f_ref_count _ _).
  assert (v2 = more_refs (tally (refers f) (es ++ [e])) v) as Ev2.
  { unfold v2, more_refs, set_f_ref_count. cbn. f_equal. rewrite tally_app. cbn. rewrite (refers_eq f e Hf). cbn. lia. }
  assert (fs_ok (put_obj f v2 s1) C H) as Hok2 by by eapply fs_ok_put.
  assert (∀ g w, at_ s g = Some w → at_ (put_obj f v2 s1) g = Some (more_refs (tally (refers g) (es ++ [e])) w)) as Hfiles.
  { intros g w Hg. destruct (decide (g = f)) as [->|Hne].
    - rewrite at_put_eq, Ev2. congruence.
    - rewrite at_put_ne, (sd_files _ _ _ Hs g w Hg), tally_app by done. cbn.
      rewrite (refers_ne f g e) by done. cbn. by rewrite Z.add_0_r. }
  wp_step. eapply ld_wp; [apply at_put_eq|].
  assert (f_node v2 = f_node v) as -> by done.
  assert (∀ n nd, at_ s n = Some nd → f ≠ n) as Hfn.
  { intros n nd Hn. by apply (kinds_ne s f n v nd Hv Hn). }
  assert (∀ y d', at_ s1 y = Some (d' : fd_table) → f ≠ y) as Hft.
  { intros y d' Hy. by apply (kinds_ne s1 f y _ d' Hv1 Hy). }
  destruct (f_node v) as [n|] eqn:Hn; cbn [vfs_node_ref]; last first.
  { apply wp_ret. split_and!; [done| |].
    - split; [done|..|apply Hs].
      + intros n nd Hnd. rewrite at_put_ne by by eapply Hfn. rewrite (sd_nodes _ _ _ Hs n nd Hnd), tally_app. cbn.
        rewrite (refers_node_eq s n e f v Hf Hv), Hn. cbn. by rewrite Z.add_0_r.
      + intros y o Hy Hno1 Hno2. cbn. rewrite lookup_insert_ne; [by eapply (sd_other _ _ _ Hs)|].
        intros <-. apply at_some in Hv. rewrite Hv in Hy. injection Hy as <-. by eapply Hno1.
    - intros y d' Hy. by rewrite at_put_ne by by eapply Hft. }
  destruct (F2 f v n Hv Hn) as [nd Hnd]. specialize (F4 n nd Hnd) as Fn.
  pose proof (sd_nodes _ _ _ Hs n nd Hnd) as Hnd1. pose proof (tally_bounds (refers_node s n) es) as Htn.
  assert (at_ (put_obj f v2 s1) n = Some (more_node_refs (tally (refers_node s n) es) nd)) as Hnd2.
  { rewrite at_put_ne; [done|by eapply Hfn]. }
  eapply upd_wp; [exact Hnd2|]. cbn [more_node_refs set_node_ref_count vn_ref_count].
  rewrite wrap_small by lia. set (nd2 := set_node_ref_count _ _).
  assert (nd2 = more_node_refs (tally (refers_node s n) (es ++ [e])) nd) as End2.
  { unfold nd2, more_node_refs, set_node_ref_count. cbn. f_equal. rewrite tally_app. cbn.
    rewrite (refers_node_eq s n e f v Hf Hv), Hn, bool_decide_eq_true_2 by done. cbn. lia. }
  split_and!.
  - by eapply fs_ok_put.
  - split; [..|apply Hs].
    + intros g w Hg. rewrite at_put_ne; [by apply Hfiles|]. by apply not_eq_sym, (kinds_ne s g n w nd Hg Hnd).
    + intros m md Hm. destruct (decide (m = n)) as [->|Hne].
      * rewrite at_put_eq, End2. congruence.
      * rewrite at_put_ne, at_put_ne by (try done; by eapply Hfn).
        rewrite (sd_nodes _ _ _ Hs m md Hm), tally_app. cbn.
        rewrite (refers_node_eq s m e f v Hf Hv), Hn, bool_decide_eq_false_2 by congruence. cbn. by rewrite Z.add_0_r.
    + intros y o Hy Hno1 Hno2. cbn. rewrite !lookup_insert_ne; [by eapply (sd_other _ _ _ Hs)|..].
      * intros <-. apply at_some in Hv. rewrite Hv in Hy. injection Hy as <-. by eapply Hno1.
      * intros <-. apply at_some in Hnd. rewrite Hnd in Hy. injection Hy as <-. by eapply Hno2.
  - intros y d' Hy. rewrite !at_put_ne; [done|by eapply Hft|].
    eapply (kinds_ne (put_obj f v2 s1) n y _ d' Hnd2); [|done]. by rewrite at_put_ne by by eapply Hft.
Qed.

Definition unused : fd_entry := FdEntry None 0.

(** The new table when the first [i] entries have been copied. *)
Definition partial_table es (i : nat) : fd_table :=
  FdTable (take i es ++ replicate (length es - i) unused) 1.

Lemma partial_table_next es i e :
  es !! i = Some e → put_entry (partial_table es i) (Z.of_nat i) e = partial_table es (Datatypes.S i).
Proof.
  intros Hi. pose proof (lookup_lt_Some _ _ _ Hi) as Hlt. unfold put_entry, partial_table. cbn [ft_entries ft_ref_count].
  f_equal. unfold aset. rewrite decide_True, Nat2Z.id by lia.
  rewrite insert_app_r_alt; rewrite length_take, Nat.min_l by lia; [|lia].
  rewrite Nat.sub_diag. replace (length es - i)%nat with (Datatypes.S (length es - Datatypes.S i)) by lia.
  cbn. by rewrite (take_S_r _ _ _ Hi), <-app_assoc.
Qed.

Lemma clone_entry_wp s C H s1 src dst d (i : nat) e :
  fs_ok s1 C H → files_ok s d → table_ok d → shared s s1 (take i (ft_entries d)) →
  ft_entries d !! i = Some e → at_ s1 src = Some d → src ≠ dst →
  at_ s1 dst = Some (partial_table (ft_entries d) i) → fs_mem s !! dst = None →
  wp (clone_entry src dst (Z.of_nat i)) (λ _ s2, fs_ok s2 C H ∧
    shared s s2 (take (Datatypes.S i) (ft_entries d)) ∧ at_ s2 src = Some d ∧
    at_ s2 dst = Some (partial_table (ft_entries d) (Datatypes.S i))) s1.
Proof.
  intros Hok Hf Ht Hs He Hsrc Hne Hdst Hfresh. pose proof (lookup_lt_Some _ _ _ He) as Hlt.
  assert (aget (ft_entries d) (Z.of_nat i) = Some e) as Hi.
  { unfold aget. by rewrite decide_True, Nat2Z.id by lia. }
  unfold clone_entry. wp_step. eapply entry_wp; [done|done|].
  rewrite (take_S_r _ _ _ He). destruct (fe_file e) as [f|] eqn:Hfile.
  - wp_step. eapply set_entry_wp; [exact Hdst|].
    set (s2 := put_obj dst _ s1).
    assert (FdEntry (Some f) (fe_flags e) = e) as Ee by (destruct e; cbn in *; congruence).
    assert (at_ s2 dst = Some (partial_table (ft_entries d) (Datatypes.S i))) as Hdst2.
    { unfold s2. rewrite at_put_eq, Ee. f_equal. by apply partial_table_next. }
    assert (shared s s2 (take i (ft_entries d))) as Hs2.
    { destruct Hs as [S1 S2 S3 S4].
      assert (∀ y, is_Some (fs_mem s !! y) → dst ≠ y) as Hno by (intros y [o Hy] ->; congruence).
      split; [..|done].
      - intros g w Hg. unfold s2. rewrite at_put_ne; [by apply S1|]. apply Hno. apply at_some in Hg. by eexists.
      - intros n nd Hn. unfold s2. rewrite at_put_ne; [by apply S2|]. apply Hno. apply at_some in Hn. by eexists.
      - intros y o Hy. unfold s2. cbn. rewrite lookup_insert_ne by (apply Hno; by eexists). by apply S3. }
    eapply wp_mono.
    + eapply (share_step_wp s C H s2 d _ e f); [|done|exact Hs2|by eapply list_elem_of_lookup_2|done|].
      * by eapply fs_ok_put.
      * pose proof (to_len _ Ht). unfold alen in *. rewrite length_take. lia.
    + intros [] s3 (Hok3 & Hs3 & Htab3). split_and!; [done|done| |by apply Htab3].
      apply Htab3. unfold s2. by rewrite at_put_ne by done.
  - apply wp_ret. split_and!; [done|by apply shared_skip|done|].
    assert (e = unused) as Ee.
    { pose proof (to_unused _ Ht) as Hu. rewrite Forall_forall in Hu.
      specialize (Hu e (list_elem_of_lookup_2 _ _ _ He) Hfile). destruct e; cbn in *; subst. done. }
    rewrite Hdst. f_equal. rewrite <-(partial_table_next _ _ _ He). unfold put_entry, partial_table.
    cbn [ft_entries ft_ref_count]. f_equal. symmetry. unfold aset. rewrite decide_True, Nat2Z.id by lia.
    apply list_insert_id. rewrite lookup_app_r; rewrite length_take, Nat.min_l by lia; [|lia].
    rewrite Nat.sub_diag, Ee. apply lookup_replicate_2. lia.
Qed.

(** C37. Cloning a table.  For a table whose files and their nodes exist, and
    counters that are not about to overflow, fd_table_clone does not fault.  It
    fails with nothing changed, or returns a new table with the same descriptors
    and flags; every file has gained one reference for each descriptor of the
    table that refers to it, every node one for each descriptor of a file open
    on it, and no other object has changed. *)
Theorem fd_table_clone_correct s C H c src d :
  fs_ok s C H → fdt_cache (fs_glob s) = Some c → at_ s src = Some d → table_ok d → files_ok s d →
  ∃ r s', fd_table_clone (Some src) s = Some (r, s') ∧
    match r with
    | None => fs_ok s' C H ∧ same_but_heap s s'
    | Some dst => fs_mem s !! dst = None ∧
        fs_ok s' C (<[dst := (Some c, sizeof_fd_table_t)]> H) ∧
        at_ s' dst = Some (FdTable (ft_entries d) 1) ∧ shared s s' (ft_entries d)
    end.
Proof.
  intros Hok Hc Hsrc Ht Hf. apply wp_elim. unfold fd_table_clone. wp_step.
  eapply fd_table_create_wp; [exact Hok|exact Hc|intros s1 Hok1 Hsame; by apply wp_ret|].
  intros dst s1 _ _ Hfresh Hok1 [M1 G1]. set (H1 := <[dst := _]> H) in *.
  assert (∀ y, dst ≠ y → fs_mem s1 !! y = fs_mem s !! y) as Hmem.
  { intros y Hy. by rewrite M1, lookup_partial_alter_ne. }
  assert (∀ y o, fs_mem s !! y = Some o → dst ≠ y) as Hno by (intros y o Hy ->; congruence).
  assert (at_ s1 dst = Some (partial_table (ft_entries d) 0)) as Hd1.
  { apply at_some. rewrite M1, lookup_partial_alter_eq. unfold partial_table.
    pose proof (to_len _ Ht) as Hl. unfold alen in Hl. rewrite take_0, Nat.sub_0_r.
    by replace (length (ft_entries d)) with (Z.to_nat FD_MAX) by lia. }
  wp_step. eapply (wp_for (λ j s2, fs_ok s2 C H1 ∧ shared s s2 (take (Z.to_nat j) (ft_entries d)) ∧
    at_ s2 src = Some d ∧ at_ s2 dst = Some (partial_table (ft_entries d) (Z.to_nat j)))).
  - split_and!; [done| |by rewrite (at_mem s s1) by (apply Hmem; apply at_some in Hsrc; by eapply Hno)|done].
    split; [..|by rewrite G1].
    + intros f v Hv. cbn. rewrite more_refs_0. apply at_some in Hv as Hv'.
      by rewrite (at_mem s s1) by (apply Hmem; by eapply Hno).
    + intros n nd Hn. cbn. rewrite more_node_refs_0. apply at_some in Hn as Hn'.
      by rewrite (at_mem s s1) by (apply Hmem; by eapply Hno).
    + intros y o Hy _ _. rewrite Hmem; [done|by eapply Hno].
  - intros j s2 Hj (Hokx & Hsx & Hsrcx & Hdstx).
    destruct (lookup_lt_is_Some_2 (ft_entries d) (Z.to_nat j)) as [e He].
    { pose proof (to_len _ Ht). unfold alen in *. lia. }
    replace j with (Z.of_nat (Z.to_nat j)) at 1 by lia.
    eapply wp_mono; [eapply clone_entry_wp; try done; apply at_some in Hsrc; apply not_eq_sym; by eapply Hno|].
    intros [] s3 (? & ? & ? & ?). replace (Z.to_nat (j + 1)) with (Datatypes.S (Z.to_nat j)) by lia. done.
  - intros s2 (Hokx & Hsx & _ & Hdstx). apply wp_ret. pose proof (to_len _ Ht) as Hl. unfold alen in Hl.
    replace (Z.to_nat (Z.max 0 FD_MAX)) with (length (ft_entries d)) in * by lia.
    rewrite take_ge in Hsx by lia. split_and!; [done|done| |done].
    rewrite Hdstx. f_equal. unfold partial_table. rewrite Nat.sub_diag, take_ge, app_nil_r by lia. done.
Qed.

(** The conditions on a state, as a test. *)
Definition files_okb s d : bool :=
  forallb (λ e, match fe_file e with Some f => bool_decide (is_Some (at_ (T := file) s f)) | None => true end)
    (ft_entries d) &&
  forallb (λ xo, match xo.2 with
    | OFile v => bool_decide (0 ≤ f_ref_count v < 2 ^ 32 - FD_MAX) &&
        match f_node v with Some n => bool_decide (is_Some (at_ (T := vfs_node) s n)) | None => true end
    | ONode nd => bool_decide (0 ≤ vn_ref_count nd < 2 ^ 32 - FD_MAX)
    | _ => true
    end) (map_to_list (fs_mem s)).

Lemma files_okb_sound s d : files_okb s d = true → files_ok s d.
Proof.
  unfold files_okb. rewrite andb_true_iff, !forallb_forall. intros [He Hm].
  assert (∀ x o, fs_mem s !! x = Some o → In (x, o) (map_to_list (fs_mem s))) as Hin.
  { intros x o Hx. by apply list_elem_of_In, elem_of_map_to_list. }
  split.
  - intros i e f Hi Hf. unfold aget in Hi. case_decide; [|done].
    specialize (He e). rewrite Hf in He. apply bool_decide_eq_true in He; [done|].
    apply list_elem_of_In. by eapply list_elem_of_lookup_2.
  - intros f v n Hv%at_some Hn. specialize (Hm _ (Hin f _ Hv)). cbn in Hm. rewrite Hn in Hm.
    apply andb_true_iff in Hm as [_ Hm]. by apply bool_decide_eq_true in Hm.
  - intros f v Hv%at_some. specialize (Hm _ (Hin f _ Hv)). cbn in Hm.
    apply andb_true_iff in Hm as [Hm _]. by apply bool_decide_eq_true in Hm.
  - intros n nd Hn%at_some. specialize (Hm _ (Hin n _ Hn)). cbn in Hm. by apply bool_decide_eq_true in Hm.
Qed.

Definition table_okb d : bool :=
  bool_decide (alen (ft_entries d) = FD_MAX) &&
  forallb (λ e, match fe_file e with Some _ => true | None => fe_flags e =? 0 end) (ft_entries d).

Lemma table_okb_sound d : table_okb d = true → table_ok d.
Proof.
  unfold table_okb. rewrite andb_true_iff, forallb_forall. intros [Hl Hu].
  apply bool_decide_eq_true in Hl. split; [done|]. apply Forall_forall. intros e He Hf.
  specialize (Hu e). rewrite Hf in Hu. apply Z.eqb_eq, Hu, list_elem_of_In. done.
Qed.

End share.

(** ** The example: a process with a pipe forks *)

Definition demo_pipe_table : fd_table :=
  default empty_table (at_ demo_pipe_fs demo_table).
Definition demo_fdt_cache : Z :=
  default 0 (fdt_cache (fs_glob demo_pipe_fs)).

Lemma fd_table_clone_correct_witness :
  ∃ C H r s', fd_table_clone (Some demo_table) demo_pipe_fs = Some (r, s') ∧
    match r with
    | None => fs_ok s' C H ∧ same_but_heap demo_pipe_fs s'
    | Some dst => fs_mem demo_pipe_fs !! dst = None ∧
        fs_ok s' C (<[dst := (Some demo_fdt_cache, sizeof_fd_table_t)]> H) ∧
        at_ s' dst = Some (FdTable (ft_entries demo_pipe_table) 1) ∧
        shared demo_pipe_fs s' (ft_entries demo_pipe_table)
    end.
Proof.
  destruct demo_pipe_rel as (C & H & rn & wn & x & Hr). exists C, H.
  refine (fd_table_clone_correct demo_pipe_fs C H demo_fdt_cache demo_table demo_pipe_table
    (pr_ok _ _ _ _ _ _ _ Hr) _ _ (table_okb_sound _ _) (files_okb_sound _ _ _)).
  - vm_cast_no_check (eq_refl (Some demo_fdt_cache)).
  - vm_cast_no_check (eq_refl (Some demo_pipe_table)).
  - vm_cast_no_check (eq_refl true).
  - vm_cast_no_check (eq_refl true).
Defined.
