(* ===== verification/RamfsThm.v ===== *)
(** * The RAM file system: what a file holds

    A file is a function from positions to bytes, zero where nothing was
    written.  [file_blocks] says how the blocks in memory represent it; reading
    returns its values and writing changes them, whatever the alignment of the
    range to the blocks. *)

From stdpp Require Import strings.
From S2P Require Import Prelude KHeap CString FsObj FsInv Ramfs.

(** ** Slices *)

Lemma slice_length {A} (l : list A) off n r : slice l off n = Some r → alen r = n.
Proof.
  unfold slice. case_decide as Hd; [|done]. intros [= <-]. unfold alen in *.
  rewrite length_take, length_drop. lia.
Qed.

Lemma slice_lookup {A} (l : list A) off n r i :
  slice l off n = Some r → 0 ≤ i < n → aget r i = aget l (off + i).
Proof.
  unfold slice. case_decide as Hd; [|done]. intros [= <-] Hi. unfold aget.
  rewrite !decide_True by lia. rewrite lookup_take_lt, lookup_drop by lia. f_equal. lia.
Qed.

Lemma slice_some {A} (l : list A) off n :
  0 ≤ off → 0 ≤ n → off + n ≤ alen l → is_Some (slice l off n).
Proof. intros. unfold slice. rewrite decide_True by lia. by eexists. Qed.

Lemma alen_splice {A} (l : list A) off r :
  0 ≤ off → off + alen r ≤ alen l → alen (splice l off r) = alen l.
Proof.
  intros Ho Hr. unfold splice, alen in *. rewrite !length_app, length_take, length_drop. lia.
Qed.

Lemma aget_splice {A} (l : list A) off r i :
  0 ≤ off → off + alen r ≤ alen l → 0 ≤ i →
  aget (splice l off r) i = if decide (off ≤ i < off + alen r) then aget r (i - off) else aget l i.
Proof.
  intros Ho Hr Hi. unfold splice, aget, alen in *. rewrite (decide_True (P := 0 ≤ i)) by lia.
  assert (length (take (Z.to_nat off) l) = Z.to_nat off) as Hlen by (rewrite length_take; lia).
  case_decide as Hd.
  - rewrite decide_True by lia. rewrite lookup_app_r, lookup_app_l by (rewrite ?Hlen; lia).
    f_equal. rewrite Hlen. lia.
  - rewrite decide_True by lia. destruct (decide (i < off)).
    + rewrite lookup_app_l by (rewrite Hlen; lia). apply lookup_take_lt. lia.
    + rewrite lookup_app_r, lookup_app_r by (rewrite ?Hlen; lia). rewrite lookup_drop. f_equal.
      rewrite Hlen. lia.
Qed.

(** Two lists of the same length with the same values. *)
Lemma list_seqZ {A} (l : list A) m n (g : Z → A) :
  alen l = n → (∀ i, 0 ≤ i < n → aget l i = Some (g (m + i))) → l = g <$> seqZ m n.
Proof.
  intros Hlen Hl. apply list_eq_same_length with (length l).
  - rewrite length_fmap, length_seqZ. unfold alen in Hlen. lia.
  - done.
  - intros i x y Hi Hx Hy. apply list_lookup_fmap_Some in Hy as (z & -> & Hz).
    apply lookup_seqZ in Hz as [-> Hz]. specialize (Hl (Z.of_nat i)). unfold alen, aget in *.
    rewrite decide_True, Nat2Z.id in Hl by lia. rewrite Hl in Hx by lia. congruence.
Qed.

Section ramfs.
Context {S : Type} {KH : KHeap S}.
Implicit Types (s : fs S) (C : gmap Z Z) (H : blocks) (node data p x y k pos : Z) (ptrs : list (option Z)).

(** ** Representation *)

(** The byte at the position [k] of the file with the block pointers [ptrs]. *)
Definition byte_of s ptrs k : Z :=
  match aget ptrs (k / RAMFS_BLOCK_SIZE) with
  | Some (Some p) =>
      match at_ s p with
      | Some l => match aget (l : list Z) (k mod RAMFS_BLOCK_SIZE) with Some b => b | None => 0 end
      | None => 0
      end
  | _ => 0
  end.

(** [data] describes the blocks [ptrs], the last in use before [count]. *)
Record file_blocks s data (arr : option Z) count ptrs : Prop := FileBlocks {
  fb_data : at_ s data = Some (RamfsData arr count (alen ptrs));
  fb_array : match arr with None => ptrs = [] | Some x => at_ s x = Some ptrs end;
  fb_count : 0 ≤ count ≤ alen ptrs;
  fb_width : alen ptrs < 2 ^ 32;
  fb_tail : ∀ i p, aget ptrs i = Some (Some p) → i < count;
  fb_block : ∀ i p, aget ptrs i = Some (Some p) → ∃ l, at_ s p = Some (l : list Z) ∧ alen l = RAMFS_BLOCK_SIZE;
  fb_nodup : ∀ i j p, aget ptrs i = Some (Some p) → aget ptrs j = Some (Some p) → i = j }.

Lemma present_block_wp s data arr count ptrs i (Q : option Z → fs S → Prop) :
  file_blocks s data arr count ptrs → 0 ≤ i →
  (aget ptrs i = None ∨ aget ptrs i = Some None → Q None s) →
  (∀ p, aget ptrs i = Some (Some p) → Q (Some p) s) →
  wp (present_block data i) Q s.
Proof.
  intros [F1 F2 F3 F4 F5 F6 F7] Hi HN HS. unfold present_block. wp_step. fs_step. cbn.
  destruct (Z.ltb_spec i count) as [Hlt|Hge].
  - unfold block_at. destruct arr as [x|]; [|subst ptrs; unfold alen in *; cbn in *; lia].
    wp_step. eapply wp_lift; [done|]. wp_step. fs_step.
    destruct (aget_is_Some ptrs i) as [e He]; [lia|]. eapply wp_lift; [done|]. destruct e; auto.
  - apply wp_ret, HN. destruct (aget ptrs i) as [[p|]|] eqn:Hp; auto.
    specialize (F5 i p Hp). lia.
Qed.

(** ** Reading *)

Lemma block_index pos : 0 ≤ pos < 2 ^ 44 → wrap32 (pos / RAMFS_BLOCK_SIZE) = pos / RAMFS_BLOCK_SIZE.
Proof. intros Hp. apply wrap_small. unfold RAMFS_BLOCK_SIZE. Z.to_euclidean_division_equations. lia. Qed.

(** The positions of one turn lie in one block. *)
Lemma chunk_block pos i :
  0 ≤ pos → 0 ≤ i < RAMFS_BLOCK_SIZE - pos mod RAMFS_BLOCK_SIZE →
  (pos + i) / RAMFS_BLOCK_SIZE = pos / RAMFS_BLOCK_SIZE ∧
  (pos + i) mod RAMFS_BLOCK_SIZE = pos mod RAMFS_BLOCK_SIZE + i.
Proof. unfold RAMFS_BLOCK_SIZE. intros. Z.to_euclidean_division_equations. lia. Qed.

(** The fuel is enough for [n] bytes from [pos] on. *)
Definition enough (fuel : nat) pos n : Prop :=
  0 < n → n + pos mod RAMFS_BLOCK_SIZE ≤ RAMFS_BLOCK_SIZE * Z.of_nat fuel.

Lemma enough_turns pos n : 0 ≤ n → enough (turns n) pos n.
Proof.
  unfold enough, turns, RAMFS_BLOCK_SIZE. intros Hn _. pose proof (Z.mod_pos_bound pos 4096 ltac:(lia)).
  Z.to_euclidean_division_equations. lia.
Qed.

Lemma enough_step n pos fuel :
  0 ≤ pos → 0 < n → enough fuel pos n →
  let chunk := Z.min (RAMFS_BLOCK_SIZE - pos mod RAMFS_BLOCK_SIZE) n in
  0 < chunk ≤ n ∧ ∃ fuel', fuel = Datatypes.S fuel' ∧ enough fuel' (pos + chunk) (n - chunk).
Proof.
  intros Hp Hn Hf. cbv zeta. unfold enough, RAMFS_BLOCK_SIZE in *. specialize (Hf Hn).
  set (chunk := Z.min _ n).
  pose proof (Z.mod_pos_bound pos 4096 ltac:(lia)). split; [lia|].
  destruct fuel as [|fuel]; [lia|]. exists fuel. split; [done|]. intros Hleft.
  assert (chunk = 4096 - pos mod 4096) as -> by lia.
  assert ((pos + (4096 - pos mod 4096)) mod 4096 = 0) as -> by (Z.to_euclidean_division_equations; lia). lia.
Qed.

(** What the blocks hold from [pos] on, as far as a block goes. *)
Lemma read_chunk_wp {B : Type} s data arr count ptrs pos chunk (rest : list Z → M (fs S) B) (Q : B → fs S → Prop) :
  file_blocks s data arr count ptrs → 0 ≤ pos < 2 ^ 44 →
  0 ≤ chunk ≤ RAMFS_BLOCK_SIZE - pos mod RAMFS_BLOCK_SIZE →
  wp (rest (byte_of s ptrs <$> seqZ pos chunk)) Q s →
  wp (b ← present_block data (wrap32 (pos / RAMFS_BLOCK_SIZE));
      bytes ← match b with
        | Some block => l ← ld block; lift (slice (l : list Z) (pos mod RAMFS_BLOCK_SIZE) chunk)
        | None => mret (replicate (Z.to_nat chunk) 0)
        end;
      rest bytes) Q s.
Proof.
  intros Hf Hpos Hc HQ. rewrite block_index by done. wp_step.
  pose proof (Z.mod_pos_bound pos RAMFS_BLOCK_SIZE ltac:(done)) as Hmod.
  eapply present_block_wp; [done|apply Z.div_pos; [lia|done]|..].
  - intros Hnone. wp_step. apply wp_ret. replace (replicate (Z.to_nat chunk) 0) with (byte_of s ptrs <$> seqZ pos chunk); [done|].
    symmetry. apply list_seqZ; [unfold alen; rewrite length_replicate; lia|].
    intros i Hi. rewrite aget_replicate by lia. f_equal. unfold byte_of.
    destruct (chunk_block pos i) as [-> _]; [lia|lia|]. by destruct Hnone as [-> | ->].
  - intros p Hp. destruct (fb_block _ _ _ _ _ Hf _ _ Hp) as (l & Hl & Hlen).
    wp_step. wp_step. fs_step. destruct (slice_some l (pos mod RAMFS_BLOCK_SIZE) chunk) as [r Hr]; [lia|lia|lia|].
    eapply wp_lift; [done|]. replace r with (byte_of s ptrs <$> seqZ pos chunk); [done|].
    symmetry. apply list_seqZ; [by eapply slice_length|]. intros i Hi.
    rewrite (slice_lookup _ _ _ _ _ Hr Hi). unfold byte_of.
    destruct (chunk_block pos i) as [-> ->]; [lia|lia|]. rewrite Hp, Hl.
    destruct (aget_is_Some l (pos mod RAMFS_BLOCK_SIZE + i)) as [b ->]; [lia|done].
Qed.

Lemma read_blocks_wp s data arr count ptrs fuel pos remaining dst (Q : list Z → fs S → Prop) :
  file_blocks s data arr count ptrs → 0 ≤ pos → 0 ≤ remaining → pos + remaining ≤ 2 ^ 44 →
  enough fuel pos remaining →
  Q (dst ++ (byte_of s ptrs <$> seqZ pos remaining)) s →
  wp (read_blocks fuel data pos remaining dst) Q s.
Proof.
  intros Hf. revert pos remaining dst. induction fuel as [|fuel IH]; intros pos remaining dst Hp Hr Hb He HQ;
    cbn [read_blocks].
  - destruct (Z.ltb_spec 0 remaining) as [Hlt|Hge].
    + specialize (He Hlt). pose proof (Z.mod_pos_bound pos RAMFS_BLOCK_SIZE ltac:(done)). lia.
    + apply wp_ret. replace remaining with 0 in HQ by lia. by rewrite app_nil_r in HQ.
  - destruct (Z.ltb_spec 0 remaining) as [Hlt|Hge]; last first.
    { apply wp_ret. replace remaining with 0 in HQ by lia. by rewrite app_nil_r in HQ. }
    destruct (enough_step _ _ _ Hp Hlt He) as [Hc (f' & [= <-] & He')].
    set (chunk := Z.min _ remaining) in *.
    eapply (read_chunk_wp s data arr count ptrs pos chunk); [exact Hf|lia|lia|].
    rewrite wrap_small by lia. apply IH; [lia|lia|lia|done|].
    rewrite <-app_assoc, <-fmap_app, <-seqZ_app by lia. by replace (chunk + (remaining - chunk)) with remaining by lia.
Qed.

(** ** Footprints *)

Definition footprint data (arr : option Z) ptrs : list Z := data :: option_list arr ++ omap id ptrs.

Lemma elem_of_ptrs ptrs p : p ∈ omap id ptrs ↔ ∃ i, aget ptrs i = Some (Some p).
Proof.
  rewrite list_elem_of_omap. split.
  - intros (e & [i Hi]%list_elem_of_lookup & He). cbn in He. subst e. exists (Z.of_nat i).
    unfold aget. by rewrite decide_True, Nat2Z.id by lia.
  - intros (i & Hi). unfold aget in Hi. case_decide; [|done]. exists (Some p). split; [|done].
    by eapply list_elem_of_lookup_2.
Qed.

Lemma footprint_data data arr ptrs : data ∈ footprint data arr ptrs.
Proof. apply elem_of_cons. by left. Qed.
Lemma footprint_array data x ptrs : x ∈ footprint data (Some x) ptrs.
Proof. apply elem_of_cons. right. apply elem_of_app. left. by apply list_elem_of_singleton. Qed.
Lemma footprint_block data arr ptrs i p : aget ptrs i = Some (Some p) → p ∈ footprint data arr ptrs.
Proof. intros Hi. apply elem_of_cons. right. apply elem_of_app. right. apply elem_of_ptrs. by exists i. Qed.

(** From [s] to [s'] a file with the footprint [X] got the footprint [X']:
    nothing else changed, and what it took was free. *)
Record evolves s s' (X X' : list Z) : Prop := Evolves {
  ev_keep : ∀ y o, y ∉ X → fs_mem s !! y = Some o → fs_mem s' !! y = Some o;
  ev_grow : ∀ y, y ∈ X' → y ∈ X ∨ fs_mem s !! y = None;
  ev_glob : fs_glob s' = fs_glob s }.

Lemma evolves_refl s X : evolves s s X X.
Proof. split; auto. Qed.

Lemma evolves_trans s1 s2 s3 X1 X2 X3 : evolves s1 s2 X1 X2 → evolves s2 s3 X2 X3 → evolves s1 s3 X1 X3.
Proof.
  intros [K1 G1 E1] [K2 G2 E2]. split; [..|congruence].
  - intros y o Hy Ho. apply K2; [|by apply K1]. intros Hin. destruct (G1 y Hin) as [?|?]; [done|congruence].
  - intros y Hy. destruct (G2 y Hy) as [Hy2|Hn]; [by apply G1|].
    destruct (decide (y ∈ X1)) as [|Hno]; [by left|]. right.
    destruct (fs_mem s1 !! y) as [o|] eqn:Ho; [|done]. rewrite (K1 y o Hno Ho) in Hn. done.
Qed.

Lemma evolves_put {T : Type} {KT : Kind T} s x (v : T) X : x ∈ X → evolves s (put_obj x v s) X X.
Proof.
  intros Hx. split; [|by left|done]. intros y o Hy Ho. cbn. rewrite lookup_insert_ne; [done|]. by intros ->.
Qed.

(** ** Writing inside the capacity *)

(** The contents after the bytes [src] were written at [pos]. *)
Definition written (g : Z → Z) pos (src : list Z) k : Z :=
  match aget src (k - pos) with Some b => b | None => g k end.

Lemma written_nil g pos k : written g pos [] k = g k.
Proof. unfold written. by rewrite aget_out by (unfold alen; cbn; lia). Qed.

Lemma aget_take {A} (l : list A) n i : 0 ≤ n → aget (take (Z.to_nat n) l) i = if decide (i < n) then aget l i else None.
Proof.
  intros Hn. unfold aget. case_decide as Hi; [|by case_decide]. case_decide.
  - apply lookup_take_lt. lia.
  - apply lookup_take_ge. lia.
Qed.

Lemma aget_drop {A} (l : list A) n i : 0 ≤ n → 0 ≤ i → aget (drop (Z.to_nat n) l) i = aget l (n + i).
Proof.
  intros Hn Hi. unfold aget. rewrite !decide_True by lia. rewrite lookup_drop. f_equal. lia.
Qed.

(** Writing a prefix and then the rest. *)
Lemma written_app g pos src n k :
  0 ≤ n ≤ alen src →
  written (written g pos (take (Z.to_nat n) src)) (pos + n) (drop (Z.to_nat n) src) k = written g pos src k.
Proof.
  intros Hn. unfold written. rewrite aget_take by lia. destruct (decide (k - pos < n)) as [Hlt|Hge].
  - rewrite (aget_out (drop _ _)) by lia. done.
  - destruct (decide (0 ≤ k - (pos + n))); [|lia]. rewrite aget_drop by lia.
    by replace (n + (k - (pos + n))) with (k - pos) by lia.
Qed.

Lemma copy_block s data x count ptrs i p l off src :
  file_blocks s data (Some x) count ptrs → aget ptrs i = Some (Some p) → at_ s p = Some (l : list Z) →
  0 ≤ off → off + alen src ≤ RAMFS_BLOCK_SIZE →
  let s' := put_obj p (splice l off src) s in
  file_blocks s' data (Some x) count ptrs ∧
  ∀ k, 0 ≤ k → byte_of s' ptrs k = written (byte_of s ptrs) (i * RAMFS_BLOCK_SIZE + off) src k.
Proof.
  intros Hf Hi Hl Hoff Hlen s'. pose proof Hf as [F1 F2 F3 F4 F5 F6 F7].
  destruct (F6 i p Hi) as (l' & Hl' & Hll). simplify_eq.
  assert (p ≠ data) by by apply (kinds_ne s p data l _ Hl F1).
  assert (p ≠ x) by by apply (kinds_ne s p x l ptrs Hl F2).
  split.
  - split; try done.
    + unfold s'. by rewrite at_put_ne.
    + unfold s'. cbn beta iota. by rewrite at_put_ne.
    + intros j q Hj. unfold s'. destruct (decide (q = p)) as [->|Hne].
      * exists (splice l off src). rewrite at_put_eq, alen_splice by lia. done.
      * rewrite at_put_ne by done. by apply (F6 j).
  - intros k Hk. unfold written, byte_of. unfold s'.
    pose proof (Z.mod_pos_bound k RAMFS_BLOCK_SIZE ltac:(done)) as Hm.
    pose proof (Z.div_mod k RAMFS_BLOCK_SIZE ltac:(done)) as Hdm.
    destruct (aget ptrs (k / RAMFS_BLOCK_SIZE)) as [[q|]|] eqn:Hq.
    + destruct (decide (q = p)) as [->|Hne].
      * pose proof (F7 _ _ _ Hq Hi) as Hki. rewrite at_put_eq, Hl, aget_splice by lia.
        destruct (decide (off ≤ k mod RAMFS_BLOCK_SIZE < off + alen src)).
        -- replace (k - (i * RAMFS_BLOCK_SIZE + off)) with (k mod RAMFS_BLOCK_SIZE - off) by lia.
           destruct (aget_is_Some src (k mod RAMFS_BLOCK_SIZE - off)) as [b ->]; [lia|done].
        -- rewrite (aget_out src) by lia. done.
      * rewrite at_put_ne by done. rewrite (aget_out src); [done|].
        destruct (decide (k / RAMFS_BLOCK_SIZE = i)) as [<-|]; [congruence|]. unfold RAMFS_BLOCK_SIZE in *. nia.
    + rewrite (aget_out src); [done|]. destruct (decide (k / RAMFS_BLOCK_SIZE = i)) as [<-|]; [congruence|].
      unfold RAMFS_BLOCK_SIZE in *. nia.
    + rewrite (aget_out src); [done|]. destruct (decide (k / RAMFS_BLOCK_SIZE = i)) as [<-|]; [congruence|].
      unfold RAMFS_BLOCK_SIZE in *. nia.
Qed.

(** A new block of zeros at the index [i]. *)
Lemma add_block s s1 data x count ptrs i p :
  file_blocks s data (Some x) count ptrs → aget ptrs i = Some None → fs_mem s !! p = None →
  changes s s1 p (Some (OBytes (replicate (Z.to_nat RAMFS_BLOCK_SIZE) 0))) →
  let ptrs' := aset ptrs i (Some p) in
  let s2 := put_obj data (RamfsData (Some x) (Z.max count (i + 1)) (alen ptrs)) (put_obj x ptrs' s1) in
  file_blocks s2 data (Some x) (Z.max count (i + 1)) ptrs' ∧
  ∀ k, 0 ≤ k → byte_of s2 ptrs' k = byte_of s ptrs k.
Proof.
  intros Hf Hi Hp [M1 G1] ptrs' s2. pose proof Hf as [F1 F2 F3 F4 F5 F6 F7].
  pose proof (aget_Some_bounds _ _ _ Hi) as Hb.
  assert (data ≠ x) as Hdx by by apply (kinds_ne s data x _ ptrs F1 F2).
  assert (∀ q (l : list Z), at_ s q = Some l → at_ s2 q = Some l) as Hold.
  { intros q l Hq. unfold s2.
    rewrite at_put_ne by by apply (kinds_ne s data q _ l F1 Hq).
    rewrite at_put_ne by by apply (kinds_ne s x q ptrs l F2 Hq).
    rewrite <-Hq. apply at_mem. rewrite M1. apply lookup_partial_alter_ne. intros ->.
    apply at_some in Hq. congruence. }
  assert (at_ s2 p = Some (replicate (Z.to_nat RAMFS_BLOCK_SIZE) 0)) as Hnew.
  { assert (data ≠ p ∧ x ≠ p) as [Hdp Hxp].
    { split; intros ->; [apply at_some in F1|apply at_some in F2]; congruence. }
    unfold s2. rewrite !at_put_ne by done. apply at_some. by rewrite M1, lookup_partial_alter_eq. }
  assert (∀ j q, aget ptrs' j = Some (Some q) → (j = i ∧ q = p) ∨ (j ≠ i ∧ aget ptrs j = Some (Some q))) as Hcases.
  { intros j q. unfold ptrs'. destruct (decide (j = i)) as [->|Hne].
    - rewrite aget_aset_eq by done. intros [= ->]. by left.
    - rewrite aget_aset_ne by done. by right. }
  assert (∀ j q, aget ptrs j = Some (Some q) → q ≠ p) as Hpne.
  { intros j q Hj ->. destruct (F6 j p Hj) as (l & Hl & _). apply at_some in Hl. congruence. }
  split.
  - split.
    + unfold s2, ptrs'. by rewrite at_put_eq, alen_aset.
    + unfold s2. rewrite at_put_ne by done. apply at_put_eq.
    + unfold ptrs'. rewrite alen_aset. lia.
    + unfold ptrs'. by rewrite alen_aset.
    + intros j q [[-> ->]|[_ Hj]]%Hcases; [lia|]. specialize (F5 j q Hj). lia.
    + intros j q [[-> ->]|[_ Hj]]%Hcases.
      * eexists. split; [done|]. unfold alen, RAMFS_BLOCK_SIZE. rewrite length_replicate. lia.
      * destruct (F6 j q Hj) as (l & Hl & ?). exists l. auto.
    + intros j j' q [[-> ->]|[Hj1 Hj2]]%Hcases [[-> Hq]|[Hj1' Hj2']]%Hcases; [done|..].
      * by apply Hpne in Hj2'.
      * subst q. by apply Hpne in Hj2.
      * by eapply F7.
  - intros k Hk. unfold byte_of.
    destruct (decide (k / RAMFS_BLOCK_SIZE = i)) as [->|Hne].
    + unfold ptrs'. rewrite aget_aset_eq, Hnew, Hi by done.
      pose proof (Z.mod_pos_bound k RAMFS_BLOCK_SIZE ltac:(done)).
      rewrite aget_replicate; [done|]. unfold RAMFS_BLOCK_SIZE in *. lia.
    + unfold ptrs'. rewrite aget_aset_ne by done.
      destruct (aget ptrs (k / RAMFS_BLOCK_SIZE)) as [[q|]|] eqn:Hq; [|done..].
      destruct (F6 _ q Hq) as (l & Hl & _). by rewrite (Hold q l Hl), Hl.
Qed.

Context {KHL : KHeapLaws S}.

(** The state of a file whose node stays as it is. *)
Record file_state s C H node (nd : vfs_node) data (arr : option Z) count ptrs : Prop := FileState {
  fi_ok : fs_ok s C H;
  fi_node : at_ s node = Some nd;
  fi_blocks : file_blocks s data arr count ptrs }.

Lemma node_keeps {T : Type} {KT : Kind T} s node (nd : vfs_node) x (v : T) :
  at_ s node = Some nd → x ≠ node → at_ (put_obj x v s) node = Some nd.
Proof. intros Hn Hne. by rewrite at_put_ne. Qed.

(** The copy of one turn. *)
Lemma write_copy s C H node nd data x count ptrs i p off src :
  file_state s C H node nd data (Some x) count ptrs → aget ptrs i = Some (Some p) → 0 ≤ off →
  off + alen src ≤ RAMFS_BLOCK_SIZE →
  ∃ l, at_ s p = Some (l : list Z) ∧ is_Some (slice l off (alen src)) ∧
    let s' := put_obj p (splice l off src) s in
    file_state s' C H node nd data (Some x) count ptrs ∧
    evolves s s' (footprint data (Some x) ptrs) (footprint data (Some x) ptrs) ∧
    ∀ k, 0 ≤ k → byte_of s' ptrs k = written (byte_of s ptrs) (i * RAMFS_BLOCK_SIZE + off) src k.
Proof.
  intros [Hok Hn Hf] Hi Hoff Hlen. destruct (fb_block _ _ _ _ _ Hf i p Hi) as (l & Hl & Hll).
  exists l. pose proof (alen_nonneg src). split_and!; [done|apply slice_some; lia|].
  destruct (copy_block s data x count ptrs i p l off src Hf Hi Hl Hoff Hlen) as [Hf' Hb]. split_and!; [|..|done].
  - split; [|by apply node_keeps; [|by apply (kinds_ne s p node l nd Hl Hn)]|done].
    eapply fs_ok_put; [done|exact Hl| |done]. cbn. apply alen_splice; lia.
  - apply evolves_put. by eapply footprint_block.
Qed.

Lemma copy_wp {B : Type} s C H node nd data x count ptrs i p off n src (rest : M (fs S) B) (Q : B → fs S → Prop) :
  file_state s C H node nd data (Some x) count ptrs → aget ptrs i = Some (Some p) → 0 ≤ off →
  off + n ≤ RAMFS_BLOCK_SIZE → alen src = n →
  (∀ s', file_state s' C H node nd data (Some x) count ptrs →
     evolves s s' (footprint data (Some x) ptrs) (footprint data (Some x) ptrs) →
     (∀ k, 0 ≤ k → byte_of s' ptrs k = written (byte_of s ptrs) (i * RAMFS_BLOCK_SIZE + off) src k) →
     wp rest Q s') →
  wp (d ← ld data; b ← block_at d i; block ← lift b; l ← ld block;
      _ ← lift (slice (l : list Z) off n);
      upd block (λ l : list Z, splice l off src) ;; rest) Q s.
Proof.
  intros Hst Hi Hoff Hlen <- HQ.
  destruct (write_copy s C H node nd data x count ptrs i p off src Hst Hi Hoff Hlen) as (l & Hl & [r Hr] & H1 & H2 & H3).
  pose proof (fi_blocks _ _ _ _ _ _ _ _ _ Hst) as Hf.
  wp_step. eapply ld_wp; [apply Hf|]. unfold block_at. cbn [rd_blocks]. wp_step. wp_step.
  eapply wp_lift; [done|]. wp_step. eapply ld_wp; [apply (fb_array _ _ _ _ _ Hf)|].
  eapply wp_lift; [done|]. wp_step. eapply wp_lift; [done|]. wp_step. fs_step. wp_step. eapply wp_lift; [done|].
  wp_step. fs_step. by apply HQ.
Qed.

(** What the loop over the blocks has done when it ends: [m] bytes are written. *)
Record write_post s C node nd data x ptrs offset pos (src : list Z) (r : option Z) s' (m : Z) H' count' ptrs' : Prop := WritePost {
  wo_range : 0 ≤ m ≤ alen src;
  wo_ok : fs_ok s' C H';
  wo_blocks : file_blocks s' data (Some x) count' ptrs';
  wo_cap : alen ptrs' = alen ptrs;
  wo_frame : evolves s s' (node :: footprint data (Some x) ptrs) (node :: footprint data (Some x) ptrs');
  wo_bytes : ∀ k, 0 ≤ k → byte_of s' ptrs' k = written (byte_of s ptrs) pos (take (Z.to_nat m) src) k;
  wo_result : match r with
    | None => m = alen src ∧ at_ s' node = Some nd
    | Some res => m < alen src ∧
        if offset <? pos + m then res = pos + m - offset ∧
          at_ s' node = Some (if vn_size nd <? pos + m then set_node_size (pos + m) nd else nd)
        else res = VFS_ENOMEM ∧ at_ s' node = Some nd
    end }.

Lemma evolves_more s s' X X' node : evolves s s' X X' → evolves s s' (node :: X) (node :: X').
Proof.
  intros [K G E]. split; [..|done].
  - intros y o Hy. apply K. set_solver.
  - intros y [->|Hy]%elem_of_cons; [left; set_solver|]. destruct (G y Hy); [left; set_solver|by right].
Qed.

(** The loop went on from [s1], after [n] bytes. *)
Lemma write_post_step s C H s1 node nd data x count1 ptrs ptrs1 offset pos src n r s' m H' count' ptrs' :
  0 ≤ n ≤ alen src → file_state s1 C H node nd data (Some x) count1 ptrs1 → alen ptrs1 = alen ptrs →
  evolves s s1 (footprint data (Some x) ptrs) (footprint data (Some x) ptrs1) →
  (∀ k, 0 ≤ k → byte_of s1 ptrs1 k = written (byte_of s ptrs) pos (take (Z.to_nat n) src) k) →
  write_post s1 C node nd data x ptrs1 offset (pos + n) (drop (Z.to_nat n) src) r s' m H' count' ptrs' →
  write_post s C node nd data x ptrs offset pos src r s' (n + m) H' count' ptrs'.
Proof.
  intros Hn Hst Hcap Hev Hb [W1 W2 W3 W4 W5 W6 W7].
  assert (alen (drop (Z.to_nat n) src) = alen src - n) as Hd.
  { unfold alen in *. rewrite length_drop. lia. }
  rewrite Hd in *. split; [lia|done|done|congruence| | |].
  - eapply evolves_trans; [|exact W5]. by apply evolves_more.
  - intros k Hk. rewrite W6 by done. rewrite <-(written_app _ _ (take (Z.to_nat (n + m)) src) n) by (unfold alen in *; rewrite length_take; lia).
    rewrite take_take, Nat.min_l by lia.
    replace (drop (Z.to_nat n) (take (Z.to_nat (n + m)) src)) with (take (Z.to_nat m) (drop (Z.to_nat n) src)).
    + unfold written at 1 3. by rewrite Hb.
    + rewrite take_drop_commute. f_equal. f_equal. lia.
  - rewrite Z.add_assoc. destruct r as [res|].
    + destruct W7 as [? ?]. split; [lia|done].
    + destruct W7 as [? ?]. split; [lia|done].
Qed.

(** The pointer to a new block is stored, and the count of blocks raised. *)
Lemma store_block_wp {B : Type} s C H s1 H1 node nd data x count ptrs i p (rest : M (fs S) B) (Q : B → fs S → Prop) :
  file_state s C H node nd data (Some x) count ptrs → aget ptrs i = Some None → fs_mem s !! p = None →
  fs_ok s1 C H1 → changes s s1 p (Some (OBytes (replicate (Z.to_nat RAMFS_BLOCK_SIZE) 0))) →
  (∀ s2 count' ptrs', file_state s2 C H1 node nd data (Some x) count' ptrs' → alen ptrs' = alen ptrs →
     aget ptrs' i = Some (Some p) →
     evolves s s2 (footprint data (Some x) ptrs) (footprint data (Some x) ptrs') →
     (∀ k, 0 ≤ k → byte_of s2 ptrs' k = byte_of s ptrs k) → wp rest Q s2) →
  wp (d ← ld data; blocks ← lift (rd_blocks d); l ← ld blocks;
      _ ← lift (aget (l : list (option Z)) i);
      upd blocks (λ l : list (option Z), aset l i (Some p)) ;;
      (if rd_block_count d <=? i
       then upd data (λ d, RamfsData (rd_blocks d) (i +u32 1) (rd_block_capacity d))
       else mret tt) ;; rest) Q s1.
Proof.
  intros [Hok Hn Hf] Hi Hp Hok1 Hch HQ. destruct (add_block s s1 data x count ptrs i p Hf Hi Hp Hch) as [Hf2 Hb2].
  pose proof (aget_Some_bounds _ _ _ Hi) as Hbnd. pose proof Hf as [F1 F2 F3 F4 _ _ _].
  set (s2 := put_obj data (RamfsData (Some x) (Z.max count (i + 1)) (alen ptrs)) (put_obj x (aset ptrs i (Some p)) s1)) in *.
  assert (∀ y o, fs_mem s !! y = Some o → fs_mem s1 !! y = Some o) as Hmem.
  { intros y o Hy. destruct Hch as [-> _]. rewrite lookup_partial_alter_ne; [done|congruence]. }
  assert (at_ s1 data = Some (RamfsData (Some x) count (alen ptrs))) as Hd1.
  { apply at_some. apply Hmem. by apply at_some. }
  assert (at_ s1 x = Some ptrs) as Hx1. { apply at_some. apply Hmem. by apply at_some. }
  assert (x ≠ data) as Hxd by by apply (kinds_ne s x data ptrs _ F2 F1).
  assert (fs_ok s2 C H1) as Hok2.
  { eapply fs_ok_put; [eapply fs_ok_put; [exact Hok1|exact Hx1| |done]|rewrite at_put_ne by done; exact Hd1|done|done].
    cbn. by rewrite alen_aset. }
  assert (at_ s2 node = Some nd) as Hn2.
  { unfold s2. rewrite at_put_ne by by apply (kinds_ne s data node _ nd F1 Hn).
    rewrite at_put_ne by by apply (kinds_ne s x node ptrs nd F2 Hn).
    apply at_some. apply Hmem. by apply at_some. }
  assert (aget (aset ptrs i (Some p)) i = Some (Some p)) as Hi2 by by apply aget_aset_eq.
  assert (evolves s s2 (footprint data (Some x) ptrs) (footprint data (Some x) (aset ptrs i (Some p)))) as Hev.
  { split.
    - intros y o Hy Ho. unfold s2, put_obj, set_mem. cbn [fs_mem]. rewrite !lookup_insert_ne.
      + by apply Hmem.
      + intros ->. apply Hy, footprint_array.
      + intros ->. apply Hy, footprint_data.
    - intros y [->|[Hy|(j & Hj)%elem_of_ptrs]%elem_of_app]%elem_of_cons.
      + left. apply footprint_data.
      + left. apply list_elem_of_singleton in Hy as ->. apply footprint_array.
      + destruct (decide (j = i)) as [->|Hne].
        * rewrite Hi2 in Hj. injection Hj as <-. by right.
        * rewrite aget_aset_ne in Hj by done. left. by eapply footprint_block.
    - destruct Hch as [_ G1]. exact G1. }
  wp_step. fs_step. cbn [rd_blocks rd_block_count]. wp_step. eapply wp_lift; [done|]. wp_step. fs_step.
  wp_step. eapply wp_lift; [exact Hi|]. wp_step. fs_step. wp_step.
  apply (wp_mono _ (λ _ s', s' = s2)).
  - destruct (Z.leb_spec count i) as [Hle|Hgt].
    + eapply upd_wp; [rewrite at_put_ne by done; exact Hd1|]. unfold s2. cbn [rd_blocks rd_block_capacity].
      rewrite wrap_small by lia. by replace (Z.max count (i + 1)) with (i + 1) by lia.
    + apply wp_ret. unfold s2. replace (Z.max count (i + 1)) with count by lia. symmetry. apply put_same.
      by rewrite at_put_ne.
  - intros [] s' ->. eapply HQ; [by split|by rewrite alen_aset|done|done|done].
Qed.

Lemma write_post_none s C H node nd data x count ptrs offset pos src :
  file_state s C H node nd data (Some x) count ptrs → alen src = 0 →
  write_post s C node nd data x ptrs offset pos src None s 0 H count ptrs.
Proof.
  intros [Hok Hn Hf] Hs. split; [lia|done|done|done|apply evolves_refl| |done].
  intros k Hk. by rewrite take_0, written_nil.
Qed.

Lemma file_blocks_frame s s' data arr count ptrs :
  (∀ y, y ∈ footprint data arr ptrs → fs_mem s' !! y = fs_mem s !! y) → file_blocks s data arr count ptrs →
  file_blocks s' data arr count ptrs ∧ ∀ k, byte_of s' ptrs k = byte_of s ptrs k.
Proof.
  intros Hm.
  assert (∀ T (KT : Kind T) y, y ∈ footprint data arr ptrs → at_ (T := T) s' y = at_ s y) as Hat
    by (intros; apply at_mem; auto).
  intros [F1 F2 F3 F4 F5 F6 F7]. split.
  - split; try done.
    + rewrite Hat; [done|apply footprint_data].
    + destruct arr; [|done]. rewrite Hat; [done|apply footprint_array].
    + intros j q Hj. rewrite Hat by by eapply footprint_block. eauto.
  - intros k. unfold byte_of. destruct (aget ptrs (k / RAMFS_BLOCK_SIZE)) as [[q|]|] eqn:Hq; [|done..].
    by rewrite Hat by by eapply footprint_block.
Qed.

Lemma file_blocks_same s s' data arr count ptrs :
  fs_mem s' = fs_mem s → file_blocks s data arr count ptrs →
  file_blocks s' data arr count ptrs ∧ ∀ k, byte_of s' ptrs k = byte_of s ptrs k.
Proof. intros Hm. apply file_blocks_frame. by rewrite Hm. Qed.

(** The kinds of object the contents of a file are made of. *)
Definition is_data (o : obj) : Prop :=
  match o with OData _ | OPtrs _ | OBytes _ => True | _ => False end.

Lemma footprint_kind s data arr count ptrs y :
  file_blocks s data arr count ptrs → y ∈ footprint data arr ptrs → ∃ o, fs_mem s !! y = Some o ∧ is_data o.
Proof.
  intros Hf [->|[Hy|Hy]%elem_of_app]%elem_of_cons.
  - pose proof (fb_data _ _ _ _ _ Hf) as Hd%at_some. by eexists.
  - destruct arr as [x|]; [|by apply not_elem_of_nil in Hy]. apply list_elem_of_singleton in Hy as ->.
    pose proof (fb_array _ _ _ _ _ Hf) as Hx%at_some. by eexists.
  - apply elem_of_ptrs in Hy as [i Hi].
    destruct (fb_block _ _ _ _ _ Hf i y Hi) as (l & Hl%at_some & _). by eexists.
Qed.

(** A change of an object of another kind leaves the blocks alone. *)
Lemma file_blocks_other {T : Type} {KT : Kind T} {KL : KindLaws T} s x (v w : T) data arr count ptrs :
  at_ s x = Some v → ¬ is_data (inj v) → file_blocks s data arr count ptrs →
  file_blocks (put_obj x w s) data arr count ptrs ∧
  ∀ k, byte_of (put_obj x w s) ptrs k = byte_of s ptrs k.
Proof.
  intros Hx%at_some Hk Hf. apply file_blocks_frame; [|done]. intros y Hy. cbn. apply lookup_insert_ne. intros <-.
  destruct (footprint_kind _ _ _ _ _ _ Hf Hy) as (o & Ho & Hd). rewrite Hx in Ho. by simplify_eq.
Qed.

Lemma file_blocks_node s node (nd nd' : vfs_node) data arr count ptrs :
  at_ s node = Some nd → file_blocks s data arr count ptrs →
  file_blocks (put_obj node nd' s) data arr count ptrs ∧
  ∀ k, byte_of (put_obj node nd' s) ptrs k = byte_of s ptrs k.
Proof. intros Hn. apply (file_blocks_other s node nd nd'); [done|tauto]. Qed.

(** No memory for the next block: what was written before stays. *)
Lemma write_nomem_wp s C H s1 node nd data x count ptrs offset pos src :
  file_state s C H node nd data (Some x) count ptrs → fs_ok s1 C H → same_but_heap s s1 →
  0 < alen src → 0 ≤ offset ≤ pos → pos < 2 ^ 40 →
  wp (if offset <? pos then
        n ← ld node;
        (if vn_size n <? pos then upd node (set_node_size pos) else mret tt) ;;
        mret (Some (int64 (pos -u64 offset)))
      else mret (Some VFS_ENOMEM)) (λ r s', ∃ m H' count' ptrs',
    write_post s C node nd data x ptrs offset pos src r s' m H' count' ptrs') s1.
Proof.
  intros [Hok Hn Hf] Hok1 [M1 G1] Hsrc Hpos Hlim.
  destruct (file_blocks_same s s1 _ _ _ _ M1 Hf) as [Hf1 Hb1].
  assert (at_ s1 node = Some nd) as Hn1 by (rewrite <-Hn; apply at_mem; by rewrite M1).
  destruct (Z.ltb_spec offset pos) as [Hop|Hop].
  - wp_step. fs_step. wp_step. set (nd' := if vn_size nd <? pos then set_node_size pos nd else nd).
    apply (wp_mono _ (λ _ s2, s2 = put_obj node nd' s1)).
    { unfold nd'. destruct (vn_size nd <? pos); [by fs_step|]. apply wp_ret. symmetry. by apply put_same. }
    intros [] s2 ->. apply wp_ret. exists 0, H, count, ptrs.
    destruct (file_blocks_node s1 node nd nd' _ _ _ _ Hn1 Hf1) as [Hf2 Hb2]. split.
    + lia.
    + by eapply fs_ok_put; [exact Hok1|exact Hn1|unfold nd'; destruct (vn_size nd <? pos)|].
    + exact Hf2.
    + done.
    + split; [|by left|exact G1]. intros y o Hy Ho. unfold put_obj, set_mem. cbn [fs_mem].
      rewrite lookup_insert_ne, M1; [done|]. intros ->. apply Hy. apply elem_of_cons. by left.
    + intros k Hk. by rewrite take_0, written_nil, Hb2, Hb1.
    + split; [lia|]. rewrite Z.add_0_r, (proj2 (Z.ltb_lt offset pos)) by lia.
      rewrite at_put_eq. split; [|done]. rewrite wrap_small, signed_small; lia.
  - apply wp_ret. exists 0, H, count, ptrs. split; [lia|done|done|done|..].
    + split; [|by left|done]. intros y o _. by rewrite M1.
    + intros k Hk. by rewrite take_0, written_nil, Hb1.
    + split; [lia|]. rewrite Z.add_0_r, (proj2 (Z.ltb_ge offset pos)) by lia. done.
Qed.

(** One turn from a state in which the block is there. *)
Lemma write_turn_wp fuel s C s1 H1 node nd data x ptrs count1 ptrs1 offset pos src i p off chunk :
  file_state s1 C H1 node nd data (Some x) count1 ptrs1 → alen ptrs1 = alen ptrs →
  aget ptrs1 i = Some (Some p) → 0 ≤ off → 0 < chunk ≤ alen src → off + chunk ≤ RAMFS_BLOCK_SIZE →
  i * RAMFS_BLOCK_SIZE + off = pos →
  evolves s s1 (footprint data (Some x) ptrs) (footprint data (Some x) ptrs1) →
  (∀ k, 0 ≤ k → byte_of s1 ptrs1 k = byte_of s ptrs k) →
  (∀ s2, file_state s2 C H1 node nd data (Some x) count1 ptrs1 →
     wp (write_blocks fuel node data offset (pos + chunk) (drop (Z.to_nat chunk) src)) (λ r s', ∃ m H' count' ptrs',
       write_post s2 C node nd data x ptrs1 offset (pos + chunk) (drop (Z.to_nat chunk) src) r s' m H' count' ptrs') s2) →
  wp (d ← ld data; b ← block_at d i; block ← lift b; l ← ld block;
      _ ← lift (slice (l : list Z) off chunk);
      upd block (λ l : list Z, splice l off (take (Z.to_nat chunk) src)) ;;
      write_blocks fuel node data offset (pos + chunk) (drop (Z.to_nat chunk) src)) (λ r s', ∃ m H' count' ptrs',
    write_post s C node nd data x ptrs offset pos src r s' m H' count' ptrs') s1.
Proof.
  intros Hst1 Hcap1 Hp1 Hoff Hc Hfit Hpo Hev1 Hb1 Hrest.
  assert (alen (take (Z.to_nat chunk) src) = chunk) as Hl1.
  { unfold alen in *. rewrite length_take. lia. }
  eapply copy_wp; [exact Hst1|exact Hp1|lia|done|exact Hl1|].
  intros s2 Hst2 Hev2 Hb2. eapply wp_mono; [by apply Hrest|].
  intros r s' (m & H' & count' & ptrs' & Hw). exists (chunk + m), H', count', ptrs'.
  eapply (write_post_step s C H1 s2); [lia|done|done|by eapply evolves_trans| |exact Hw].
  intros k Hk. rewrite Hb2, Hpo by done. unfold written. by rewrite Hb1.
Qed.

Lemma write_blocks_wp fuel s C H node nd data x count ptrs offset pos src :
  file_state s C H node nd data (Some x) count ptrs → 0 ≤ offset ≤ pos →
  pos + alen src ≤ alen ptrs * RAMFS_BLOCK_SIZE → alen ptrs ≤ 2 ^ 26 → enough fuel pos (alen src) →
  wp (write_blocks fuel node data offset pos src) (λ r s', ∃ m H' count' ptrs',
    write_post s C node nd data x ptrs offset pos src r s' m H' count' ptrs') s.
Proof.
  revert s H count ptrs pos src.
  induction fuel as [|fuel IH]; intros s H count ptrs pos src Hst Hpos Hfit Hcap He;
    pose proof (alen_nonneg src) as Hsrc; cbn [write_blocks];
    (destruct (Z.ltb_spec 0 (alen src)) as [Hlt|Hge];
     [|apply wp_ret; exists 0, H, count, ptrs; apply write_post_none; [done|lia]]).
  { specialize (He Hlt). pose proof (Z.mod_pos_bound pos RAMFS_BLOCK_SIZE ltac:(done)). lia. }
  destruct (enough_step (alen src) pos (Datatypes.S fuel)) as [Hc (f' & [= <-] & He')]; [lia|done|done|].
  set (chunk := Z.min _ (alen src)) in *.
  pose proof (Z.mod_pos_bound pos RAMFS_BLOCK_SIZE ltac:(done)) as Hoff.
  pose proof (Z.div_mod pos RAMFS_BLOCK_SIZE ltac:(done)) as Hpo.
  assert (pos + alen src < 2 ^ 40) as Hlim by (unfold RAMFS_BLOCK_SIZE in Hfit; lia).
  rewrite block_index by lia. rewrite wrap_small by lia.
  assert (0 ≤ pos / RAMFS_BLOCK_SIZE < alen ptrs) as Hi.
  { unfold RAMFS_BLOCK_SIZE in *. Z.to_euclidean_division_equations. lia. }
  set (i := pos / RAMFS_BLOCK_SIZE) in *. set (off := pos mod RAMFS_BLOCK_SIZE) in *.
  assert (∀ ptrs1 s2 H2 count2, alen ptrs1 = alen ptrs → file_state s2 C H2 node nd data (Some x) count2 ptrs1 →
    wp (write_blocks fuel node data offset (pos + chunk) (drop (Z.to_nat chunk) src)) (λ r s', ∃ m H' count' ptrs',
       write_post s2 C node nd data x ptrs1 offset (pos + chunk) (drop (Z.to_nat chunk) src) r s' m H' count' ptrs') s2)
    as Hrest.
  { intros ptrs1 s2 H2 count2 E2 Hst2. assert (alen (drop (Z.to_nat chunk) src) = alen src - chunk) as Hl2.
    { unfold alen in *. rewrite length_drop. lia. }
    eapply IH; [exact Hst2|lia|rewrite Hl2, E2; lia|lia|by rewrite Hl2]. }
  wp_step. eapply present_block_wp; [apply Hst|lia|..].
  - intros Hnone. destruct (aget_is_Some ptrs i Hi) as [e Hei].
    assert (aget ptrs i = Some None) as Hnull by (destruct Hnone; congruence).
    wp_step. eapply new_kmalloc_wp; [apply Hst| | |done|..].
    + cbn [inj bytes_kind size_of]. unfold alen. rewrite length_replicate. done.
    + by vm_compute.
    + intros s1 Hok1 Hsame. eapply write_nomem_wp; [exact Hst|done|done|done|done|lia].
    + intros p s1 _ _ Hp Hok1 Hch. eapply store_block_wp; [exact Hst|exact Hnull|exact Hp|exact Hok1|exact Hch|].
      intros s2 count' ptrs' Hst2 Hc2 Hi2 Hev2 Hb2.
      eapply write_turn_wp; [exact Hst2|done|exact Hi2|lia|lia|lia|lia|done|done|]. intros s3. by apply Hrest.
  - intros p Hp. eapply write_turn_wp; [exact Hst|done|exact Hp|lia|lia|lia|lia|apply evolves_refl|done|].
    intros s3. by apply Hrest.
Qed.

End ramfs.
