(* ===== verification/RamfsWrite.v ===== *)
(** * The RAM file system: growth, and the operations on files

    The array of block pointers grows without losing a block, so that a write
    at any position finds its place; the theorems on reading and writing. *)

From stdpp Require Import strings.
From S2P Require Import Prelude KHeap CString FsObj FsInv Ramfs RamfsThm.

Section write.
Context {S : Type} {KH : KHeap S} {KHL : KHeapLaws S}.
Implicit Types (s : fs S) (C : gmap Z Z) (H : blocks) (node data p x y k pos : Z) (ptrs : list (option Z)).

(** ** Growing the array *)

Lemma grow_capacity_wp fuel s needed c (Q : Z → fs S → Prop) :
  0 < c ≤ 2 ^ 26 → needed ≤ 2 ^ 25 → needed ≤ c * 2 ^ Z.of_nat fuel →
  (∀ n, needed ≤ n → c ≤ n ≤ 2 ^ 26 → Q n s) → wp (grow_capacity fuel needed c) Q s.
Proof.
  revert c. induction fuel as [|fuel IH]; intros c Hc Hn Hf HQ; cbn [grow_capacity].
  - cbn in Hf. rewrite (proj2 (Z.ltb_ge c needed)) by lia. apply wp_ret, HQ; lia.
  - destruct (Z.ltb_spec c needed); [|apply wp_ret, HQ; lia].
    rewrite wrap_small by lia. apply IH; [lia|done| |intros n ? ?; apply HQ; lia].
    rewrite Nat2Z.inj_succ, Z.pow_succ_r in Hf by lia. lia.
Qed.

(** The pointers after growing to [n] entries. *)
Definition grown_ptrs ptrs (count n : Z) : list (option Z) :=
  splice (replicate (Z.to_nat n) None) 0 (take (Z.to_nat count) ptrs).

Lemma grown_ptrs_spec ptrs count n :
  0 ≤ count ≤ alen ptrs → alen ptrs ≤ n →
  alen (grown_ptrs ptrs count n) = n ∧
  ∀ i, 0 ≤ i < n → aget (grown_ptrs ptrs count n) i = if decide (i < count) then aget ptrs i else Some None.
Proof.
  intros Hc Hn. unfold grown_ptrs.
  assert (alen (take (Z.to_nat count) ptrs) = count) as Ht by (unfold alen in *; rewrite length_take; lia).
  assert (alen (replicate (Z.to_nat n) (None : option Z)) = n) as Hr by (unfold alen; rewrite length_replicate; lia).
  split; [rewrite alen_splice; lia|]. intros i Hi. rewrite aget_splice by lia. rewrite Ht, Z.sub_0_r.
  case_decide.
  - rewrite decide_True, aget_take, decide_True by lia. done.
  - rewrite decide_False by lia. apply aget_replicate. lia.
Qed.

(** The blocks with another array that holds the same pointers. *)
Lemma grown_blocks s s' data arr arr' count ptrs n :
  file_blocks s data arr count ptrs → alen ptrs ≤ n < 2 ^ 32 →
  at_ s' data = Some (RamfsData (Some arr') count n) → at_ s' arr' = Some (grown_ptrs ptrs count n) →
  (∀ q (l : list Z), at_ s q = Some l → at_ s' q = Some l) →
  file_blocks s' data (Some arr') count (grown_ptrs ptrs count n) ∧
  ∀ k, 0 ≤ k → byte_of s' (grown_ptrs ptrs count n) k = byte_of s ptrs k.
Proof.
  intros [F1 F2 F3 F4 F5 F6 F7] Hn Hd Ha Hold. destruct (grown_ptrs_spec ptrs count n) as [Hlen Hget]; [done|lia|].
  assert (∀ i p, aget (grown_ptrs ptrs count n) i = Some (Some p) → i < count ∧ aget ptrs i = Some (Some p)) as Hold'.
  { intros i p Hi. pose proof (aget_Some_bounds _ _ _ Hi) as Hb. rewrite Hget in Hi by lia.
    case_decide; [done|congruence]. }
  split.
  - split; [by rewrite Hlen|done|lia|lia|..].
    + intros i p Hi. by apply Hold' in Hi as [? _].
    + intros i p [_ Hi]%Hold'. destruct (F6 i p Hi) as (l & Hl & ?). exists l. auto.
    + intros i j p [_ Hi]%Hold' [_ Hj]%Hold'. by eapply F7.
  - intros k Hk. unfold byte_of.
    assert (0 ≤ k / RAMFS_BLOCK_SIZE) as Hk' by by apply Z.div_pos.
    destruct (aget ptrs (k / RAMFS_BLOCK_SIZE)) as [[q|]|] eqn:Hq.
    + specialize (F5 _ _ Hq). rewrite Hget, decide_True, Hq by lia.
      destruct (F6 _ _ Hq) as (l & Hl & _). by rewrite (Hold q l Hl), Hl.
    + destruct (aget (grown_ptrs ptrs count n) _) as [[q|]|] eqn:Hg; [|done..]. apply Hold' in Hg as [_ ?]. congruence.
    + destruct (aget (grown_ptrs ptrs count n) _) as [[q|]|] eqn:Hg; [|done..]. apply Hold' in Hg as [_ ?]. congruence.
Qed.

(** Clearing entries that are clear already. *)
Lemma clear_entries_wp s x (l : list (option Z)) a b (Q : unit → fs S → Prop) :
  at_ s x = Some l → (∀ i, a ≤ i < b → aget l i = Some None) → Q tt s →
  wp (for_ a b (λ i, upd x (λ l : list (option Z), aset l i None))) Q s.
Proof.
  intros Hx Hl HQ. eapply (wp_for (λ _ s', s' = s)); [done| |by intros s' ->].
  intros i s' Hi ->. eapply upd_wp; [exact Hx|]. specialize (Hl i Hi).
  assert (aset l i None = l) as ->; [|by apply put_same].
  pose proof (aget_Some_bounds _ _ _ Hl). unfold aget in Hl. unfold aset. rewrite decide_True in Hl by lia. rewrite decide_True by lia.
  by apply list_insert_id.
Qed.

(** The pointers move to the new array, and the old one is given back. *)
Lemma move_array_wp s C s1 H1 data arr count ptrs x' n (Q : unit → fs S → Prop) :
  file_blocks s data arr count ptrs → alen ptrs ≤ n → fs_ok s1 C H1 → fs_mem s !! x' = None →
  changes s s1 x' (Some (OPtrs (replicate (Z.to_nat n) None))) →
  (∀ s2 H2, fs_ok s2 C H2 → at_ s2 x' = Some (grown_ptrs ptrs count n) → fs_glob s2 = fs_glob s →
     (∀ y o, fs_mem s !! y = Some o → arr ≠ Some y → fs_mem s2 !! y = Some o) → Q tt s2) →
  wp (match arr with
      | None => if 0 <? count then fault else mret tt
      | Some x =>
          l ← ld x;
          old ← lift (slice l 0 count);
          upd x' (λ l : list (option Z), splice l 0 old) ;;
          free_kmalloc x
      end) Q s1.
Proof.
  intros Hf Hn Hok1 Hx' [M1 G1] HQ. pose proof (fb_count _ _ _ _ _ Hf) as Hc.
  assert (at_ s1 x' = Some (replicate (Z.to_nat n) (None : option Z))) as Ha1.
  { apply at_some. rewrite M1. apply lookup_partial_alter_eq. }
  assert (∀ y o, fs_mem s !! y = Some o → fs_mem s1 !! y = Some o) as Hmem.
  { intros y o Hy. rewrite M1, lookup_partial_alter_ne; [done|congruence]. }
  destruct arr as [x|].
  - pose proof (fb_array _ _ _ _ _ Hf) as Hx. cbn in Hx.
    assert (at_ s1 x = Some ptrs) as Hx1 by (apply at_some, Hmem; by apply at_some).
    assert (x ≠ x') as Hxx. { intros ->. apply at_some in Hx. congruence. }
    wp_step. fs_step. wp_step. eapply (wp_lift _ (take (Z.to_nat count) ptrs)).
    { unfold slice. by rewrite decide_True, drop_0 by lia. }
    wp_step. fs_step. set (s2 := put_obj x' _ s1).
    assert (fs_ok s2 C H1) as Hok2.
    { eapply fs_ok_put; [exact Hok1|exact Ha1| |done]. cbn [inj ptrs_kind size_of]. rewrite alen_splice; [done|lia|].
      unfold alen in *. rewrite length_take, length_replicate. lia. }
    assert (fs_mem s2 !! x = Some (OPtrs ptrs)) as Hx2.
    { unfold s2, put_obj, set_mem. cbn [fs_mem]. rewrite lookup_insert_ne by done. by apply at_some in Hx1. }
    destruct (fo_mem _ _ _ Hok2 x _ Hx2) as (t & Ht & ->).
    eapply free_kmalloc_wp; [exact Hok2|exact Ht|]. intros s3 Hok3 [M3 G3]. eapply HQ; [exact Hok3|..].
    + apply at_some. rewrite M3, lookup_partial_alter_ne by done. unfold s2, put_obj, set_mem. cbn [fs_mem].
      apply lookup_insert_eq.
    + by rewrite G3.
    + intros y o Hy Hne. rewrite M3, lookup_partial_alter_ne by congruence.
      unfold s2, put_obj, set_mem. cbn [fs_mem]. rewrite lookup_insert_ne by congruence. by apply Hmem.
  - pose proof (fb_array _ _ _ _ _ Hf) as Hp. cbn in Hp. subst ptrs.
    change (alen (@nil (option Z))) with 0 in Hc. rewrite (proj2 (Z.ltb_ge 0 count)) by lia. apply wp_ret.
    eapply HQ; [exact Hok1| |done|auto].
    rewrite Ha1. unfold grown_ptrs, splice. by rewrite take_nil.
Qed.

(** How ramfs_ensure_blocks leaves the file. *)
Record ensured s C node nd data arr ptrs (needed : Z) s' H' arr' count' ptrs' : Prop := Ensured {
  en_state : file_state s' C H' node nd data arr' count' ptrs';
  en_room : needed ≤ alen ptrs' ≤ 2 ^ 26;
  en_frame : evolves s s' (footprint data arr ptrs) (footprint data arr' ptrs');
  en_bytes : ∀ k, 0 ≤ k → byte_of s' ptrs' k = byte_of s ptrs k }.

Lemma ramfs_ensure_blocks_wp s C H node nd data arr count ptrs needed (Q : Z → fs S → Prop) :
  file_state s C H node nd data arr count ptrs → alen ptrs ≤ 2 ^ 26 → 0 ≤ needed ≤ 2 ^ 25 →
  (∀ s', fs_ok s' C H → same_but_heap s s' → Q VFS_ENOMEM s') →
  (∀ s' H' arr' count' ptrs', ensured s C node nd data arr ptrs needed s' H' arr' count' ptrs' → Q VFS_OK s') →
  wp (ramfs_ensure_blocks data needed) Q s.
Proof.
  intros Hst Hcap Hneed HN HS. pose proof Hst as [Hok Hn Hf]. pose proof Hf as [F1 F2 F3 F4 F5 F6 F7].
  unfold ramfs_ensure_blocks. wp_step. fs_step. cbn [rd_block_capacity rd_block_count rd_blocks].
  destruct (Z.leb_spec needed (alen ptrs)) as [Hle|Hgt].
  { apply wp_ret. eapply HS. split; [done|done|apply evolves_refl|done]. }
  pose proof (alen_nonneg ptrs). wp_step.
  set (c0 := if alen ptrs =? 0 then RAMFS_INITIAL_BLOCKS else wrap32 (alen ptrs * 2)).
  assert (0 < c0 ≤ 2 ^ 26 ∧ alen ptrs ≤ c0) as [Hc0 Hc1].
  { unfold c0, RAMFS_INITIAL_BLOCKS. destruct (Z.eqb_spec (alen ptrs) 0); [lia|]. rewrite wrap_small; lia. }
  eapply grow_capacity_wp; [exact Hc0|lia|change (2 ^ Z.of_nat 33) with 8589934592; lia|].
  intros n Hn1 Hn2. wp_step.
  eapply new_kmalloc_wp; [exact Hok| | |done|..].
  { cbn [inj ptrs_kind size_of]. unfold alen. rewrite length_replicate. lia. }
  { unfold KMALLOC_LIMIT. lia. }
  { intros s' Hok' Hsame. by apply wp_ret, HN. }
  intros x' s1 _ _ Hx' Hok1 Hch. wp_step.
  eapply (move_array_wp s C s1 _ data arr count ptrs x' n); [exact Hf|lia|exact Hok1|exact Hx'|exact Hch|]. intros s2 H2 Hok2 Ha2 G2 Hmem.
  destruct (grown_ptrs_spec ptrs count n) as [Hlen Hget]; [done|lia|].
  wp_step. eapply clear_entries_wp; [exact Ha2| |].
  { intros i Hi. rewrite Hget by lia. by rewrite decide_False by lia. }
  assert (∀ T (KT : Kind T) (KL : KindLaws T) y (v : T), at_ s y = Some v →
    (∀ l : list (option Z), inj v ≠ inj l) → at_ s2 y = Some v) as Hold.
  { intros T KT KL y v Hy Hv. apply at_some, Hmem; [by apply at_some|]. intros ->. cbn beta iota in F2.
    apply at_some in Hy. apply at_some in F2. rewrite F2 in Hy. injection Hy as Hy. by eapply Hv. }
  assert (at_ s2 data = Some (RamfsData arr count (alen ptrs))) as Hd2 by (apply (Hold _ _ _ data _ F1); done).
  assert (at_ s2 node = Some nd) as Hn2' by (apply (Hold _ _ _ node nd Hn); done).
  wp_step. eapply upd_wp; [exact Hd2|]. apply wp_ret. cbn [rd_block_count].
  set (s3 := put_obj data _ s2).
  assert (x' ≠ data) as Hxd. { intros ->. apply at_some in F1. congruence. }
  destruct (grown_blocks s s3 data arr x' count ptrs n) as [Hf3 Hb3]; [done|lia|apply at_put_eq|..].
  { unfold s3. by rewrite at_put_ne by congruence. }
  { intros q l Hq. unfold s3. rewrite at_put_ne; [by apply (Hold _ _ _ q l Hq)|]. by apply (kinds_ne s data q _ l F1 Hq). }
  eapply (HS s3 H2 (Some x') count (grown_ptrs ptrs count n)). split; [split| | |exact Hb3].
  - by eapply fs_ok_put.
  - unfold s3. rewrite at_put_ne; [done|]. by apply (kinds_ne s data node _ nd F1 Hn).
  - exact Hf3.
  - rewrite Hlen. lia.
  - split.
    + intros y o Hy Ho. unfold s3, put_obj, set_mem. cbn [fs_mem]. rewrite lookup_insert_ne.
      * apply Hmem; [done|]. intros ->. apply Hy, footprint_array.
      * intros ->. apply Hy, footprint_data.
    + intros y [->|[Hy|(j & Hj)%elem_of_ptrs]%elem_of_app]%elem_of_cons.
      * left. apply footprint_data.
      * right. apply list_elem_of_singleton in Hy as ->. done.
      * pose proof (aget_Some_bounds _ _ _ Hj) as Hb. rewrite Hget in Hj by lia. case_decide; [|congruence].
        left. by eapply footprint_block.
    + exact G2.
Qed.

(** ** Files *)

(** A node as ramfs_create_node sets it up for a file. *)
Definition regular (n : vfs_node) : Prop := vn_type n = VFS_FILE ∧ vn_ops n = Some ramfs_file_ops.

(** The node is a file of [size] bytes with the contents [g], which occupies
    the objects [X]. *)
Definition ramfs_file s node (X : list Z) (size : Z) (g : Z → Z) : Prop :=
  ∃ nd data arr count ptrs, at_ s node = Some nd ∧ regular nd ∧ vn_private nd = Some data ∧ vn_size nd = size ∧
    X = footprint data arr ptrs ∧ file_blocks s data arr count ptrs ∧ alen ptrs ≤ 2 ^ 26 ∧
    ∀ k, 0 ≤ k → byte_of s ptrs k = g k.

(** The number of bytes a read of [n] at [offset] delivers. *)
Definition available (size offset n : Z) : Z := if size <=? offset then 0 else Z.min n (size - offset).

Lemma ramfs_file_read_wp s node X size g n offset (Q : Z * list Z → fs S → Prop) :
  ramfs_file s node X size g → 0 ≤ size ≤ 2 ^ 44 → 0 ≤ offset → 0 ≤ n → offset + n < 2 ^ 64 →
  Q (available size offset n, g <$> seqZ offset (available size offset n)) s →
  wp (ramfs_file_read node n offset) Q s.
Proof.
  intros (nd & data & arr & count & ptrs & Hn & _ & Hp & Hs & _ & Hf & _ & Hg) Hsz Ho Hn0 Hov HQ.
  unfold ramfs_file_read. wp_step. fs_step. rewrite Hp, Hs. unfold available in HQ.
  destruct (Z.leb_spec size offset) as [Hle|Hgt]; [by apply wp_ret|].
  rewrite wrap_small by lia.
  replace (if size <? offset + n then size - offset else n) with (Z.min n (size - offset))
    by (destruct (Z.ltb_spec size (offset + n)); lia).
  set (m := Z.min n (size - offset)) in *. wp_step.
  eapply read_blocks_wp; [exact Hf|lia|lia|lia|apply enough_turns; lia|]. apply wp_ret. cbn [app].
  rewrite signed_small by lia.
  replace (byte_of s ptrs <$> seqZ offset m) with (g <$> seqZ offset m); [done|].
  apply list_fmap_ext. intros i k Hk. apply lookup_seqZ in Hk as [-> ?]. rewrite Hg; [done|lia].
Qed.

(** How far a write of [buf] at [offset] got: [m] bytes, with the result [r]. *)
Definition write_result (buf : list Z) (m r : Z) : Prop :=
  (m = alen buf ∧ r = m) ∨ (0 < m < alen buf ∧ r = m) ∨ (m = 0 ∧ r = VFS_ENOMEM).

(** The size after a write that ended at [e]. *)
Definition grown_size (size m r e : Z) : Z := if r =? VFS_ENOMEM then size else Z.max size e.

Lemma node_size_max (nd : vfs_node) e :
  vn_size (if vn_size nd <? e then set_node_size e nd else nd) = Z.max (vn_size nd) e ∧
  vn_private (if vn_size nd <? e then set_node_size e nd else nd) = vn_private nd ∧
  (regular nd → regular (if vn_size nd <? e then set_node_size e nd else nd)).
Proof. destruct (Z.ltb_spec (vn_size nd) e); cbn; split_and!; lia || done. Qed.

(** A file whose node was given another size. *)
Lemma ramfs_file_put s node (nd nd' : vfs_node) data arr count ptrs g :
  at_ s node = Some nd → regular nd' → vn_private nd' = Some data → file_blocks s data arr count ptrs →
  alen ptrs ≤ 2 ^ 26 → (∀ k, 0 ≤ k → byte_of s ptrs k = g k) →
  ramfs_file (put_obj node nd' s) node (footprint data arr ptrs) (vn_size nd') g.
Proof.
  intros Hn Hr Hp Hf Hc Hg. destruct (file_blocks_node s node nd nd' data arr count ptrs Hn Hf) as [Hf' Hb].
  exists nd', data, arr, count, ptrs. split_and!; [apply at_put_eq|done|done|done|done|done|done|].
  intros k Hk. by rewrite Hb, Hg.
Qed.

Definition MAX_FILE : Z := 2 ^ 37.

(** The end of ramfs_file_write, when the loop went through. *)
Lemma write_finish_wp s C H node (nd : vfs_node) data arr count ptrs X size e g r s0 :
  fs_ok s C H → at_ s node = Some nd → regular nd → vn_private nd = Some data → vn_size nd = size →
  file_blocks s data arr count ptrs → alen ptrs ≤ 2 ^ 26 → (∀ k, 0 ≤ k → byte_of s ptrs k = g k) →
  evolves s0 s (node :: X) (node :: footprint data arr ptrs) →
  wp (n ← ld node; (if vn_size n <? e then upd node (set_node_size e) else mret tt : M (fs S) unit) ;; mret r : M (fs S) Z)
    (λ r' s', r' = r ∧ ∃ H' X', fs_ok s' C H' ∧ evolves s0 s' (node :: X) (node :: X') ∧
      ramfs_file s' node X' (Z.max size e) g) s.
Proof.
  intros Hok Hn Hr Hp Hs Hf Hc Hg Hev. wp_step. fs_step. wp_step.
  set (nd' := if vn_size nd <? e then set_node_size e nd else nd).
  apply (wp_mono _ (λ _ s2, s2 = put_obj node nd' s)).
  { unfold nd'. destruct (vn_size nd <? e); [by fs_step|]. apply wp_ret. symmetry. by apply put_same. }
  intros [] s2 ->. apply wp_ret. split; [done|]. exists H, (footprint data arr ptrs).
  destruct (node_size_max nd e) as (E1 & E2 & E3). fold nd' in E1, E2, E3. split_and!.
  - by eapply fs_ok_put; [exact Hok|exact Hn|unfold nd'; destruct (vn_size nd <? e)|].
  - eapply evolves_trans; [exact Hev|]. apply evolves_put. apply elem_of_cons. by left.
  - rewrite <-Hs, <-E1. eapply ramfs_file_put; [done|auto|congruence|done|done|done].
Qed.

(** What a write leaves: [m] bytes of [buf] are in the file, and nothing that
    is not a part of the file has changed. *)
Definition write_done s0 C node X size g buf offset (r : Z) s : Prop :=
  ∃ m H X', write_result buf m r ∧ fs_ok s C H ∧ evolves s0 s (node :: X) (node :: X') ∧
    ramfs_file s node X' (grown_size size m r (offset + m)) (written g offset (take (Z.to_nat m) buf)).

(** The two ways the call ends after the loop. *)
Definition write_end node (buf : list Z) offset (r : option Z) : M (fs S) Z :=
  match r with
  | Some res => mret res
  | None =>
      n ← ld node;
      (if vn_size n <? offset + alen buf then upd node (set_node_size (offset + alen buf)) else mret tt) ;;
      mret (int64 (alen buf))
  end.

Lemma grown_size_ok size m r e : 0 ≤ r → grown_size size m r e = Z.max size e.
Proof. intros Hr. unfold grown_size. by rewrite (proj2 (Z.eqb_neq _ _)) by (unfold VFS_ENOMEM; lia). Qed.

Lemma write_all_wp s C H node nd data arr count ptrs X g buf offset s0 :
  file_state s C H node nd data arr count ptrs → regular nd → vn_private nd = Some data → alen ptrs ≤ 2 ^ 26 →
  alen buf < 2 ^ 63 → (∀ k, 0 ≤ k → byte_of s ptrs k = written g offset buf k) →
  evolves s0 s (node :: X) (node :: footprint data arr ptrs) →
  wp (write_end node buf offset None) (write_done s0 C node X (vn_size nd) g buf offset) s.
Proof.
  intros [Hok Hn Hf] Hr Hp Hc Hb Hg Hev. pose proof (alen_nonneg buf). eapply wp_mono.
  { by eapply (write_finish_wp s C H node nd data arr count ptrs X _ (offset + alen buf) _ _ s0). }
  intros r s' (-> & H' & X' & Hok' & Hev' & Hfile). exists (alen buf), H', X'. rewrite signed_small by lia.
  split_and!; [by left|done|done|]. rewrite grown_size_ok by lia.
  replace (take _ buf) with buf; [done|]. symmetry. apply take_ge. unfold alen. lia.
Qed.

(** The loop and the end, in a file with room for the bytes. *)
Lemma write_loop_wp s C H node nd data x count ptrs X g buf offset s0 :
  file_state s C H node nd data (Some x) count ptrs → regular nd → vn_private nd = Some data → 0 ≤ offset →
  offset + alen buf ≤ alen ptrs * RAMFS_BLOCK_SIZE → alen ptrs ≤ 2 ^ 26 →
  (∀ k, 0 ≤ k → byte_of s ptrs k = g k) →
  evolves s0 s (node :: X) (node :: footprint data (Some x) ptrs) →
  wp (r ← write_blocks (turns (alen buf)) node data offset offset buf; write_end node buf offset r)
    (write_done s0 C node X (vn_size nd) g buf offset) s.
Proof.
  intros Hst Hr Hp Ho Hfit Hc Hg Hev. pose proof (alen_nonneg buf) as Hbuf. wp_step. eapply wp_mono.
  { eapply (write_blocks_wp _ s C H node nd data x count ptrs offset offset buf); [done|lia|lia|lia|by apply enough_turns]. }
  intros r s2 (m & H2 & count2 & ptrs2 & [W1 W2 W3 W4 W5 W6 W7]).
  assert (∀ k, 0 ≤ k → byte_of s2 ptrs2 k = written g offset (take (Z.to_nat m) buf) k) as Hg2.
  { intros k Hk. rewrite W6 by done. unfold written. by rewrite Hg. }
  assert (evolves s0 s2 (node :: X) (node :: footprint data (Some x) ptrs2)) as Hev2 by by eapply evolves_trans.
  destruct r as [res|]; last first.
  { destruct W7 as [-> Hn2]. rewrite take_ge in Hg2 by (unfold alen; lia).
    eapply write_all_wp; [by split|done|done|lia|unfold RAMFS_BLOCK_SIZE in *; lia|done|done]. }
  destruct W7 as [Hm W7]. apply wp_ret. exists m, H2, (footprint data (Some x) ptrs2).
  destruct (Z.ltb_spec offset (offset + m)) as [Hlt|Hge]; destruct W7 as [-> Hn2].
  - replace (offset + m - offset) with m by lia. split_and!; [right; left; lia|done|done|].
    rewrite grown_size_ok by lia. destruct (node_size_max nd (offset + m)) as (E1 & E2 & E3).
    eexists _, data, (Some x), count2, ptrs2. split_and!; [exact Hn2|by apply E3|congruence|done|done|done|lia|done].
  - split_and!; [right; right; lia|done|done|]. exists nd, data, (Some x), count2, ptrs2.
    split_and!; try done. lia.
Qed.

(** A write of nothing at the start of a file without blocks. *)
Lemma write_nothing_wp s C H node nd data count X g offset s0 :
  file_state s C H node nd data None count [] → regular nd → vn_private nd = Some data →
  (∀ k, 0 ≤ k → byte_of s [] k = g k) → evolves s0 s (node :: X) (node :: footprint data None []) →
  wp (r ← write_blocks (turns (alen (@nil Z))) node data offset offset []; write_end node [] offset r)
    (write_done s0 C node X (vn_size nd) g [] offset) s.
Proof.
  intros Hst Hr Hp Hg Hev. change (write_blocks (turns (alen (@nil Z))) node data offset offset [])
    with (mret None : M (fs S) (option Z)).
  wp_step. apply wp_ret. eapply write_all_wp; try done. intros k Hk. by rewrite Hg, written_nil.
Qed.

(** The number of blocks the loop needs, as the code computes it. *)
Lemma blocks_needed_ok offset n :
  0 ≤ offset → 0 ≤ n → offset + n ≤ MAX_FILE →
  let needed := wrap32 ((((offset +u64 n) +u64 RAMFS_BLOCK_SIZE) -u64 1) / RAMFS_BLOCK_SIZE) in
  0 ≤ needed ≤ 2 ^ 25 ∧ offset + n ≤ needed * RAMFS_BLOCK_SIZE ∧ (needed = 0 → offset + n = 0).
Proof.
  unfold MAX_FILE. intros Ho Hn Hlim. cbv zeta.
  rewrite (wrap_small 64 (offset + n)), (wrap_small 64 (_ + RAMFS_BLOCK_SIZE)),
    (wrap_small 64 (_ - 1)) by (unfold RAMFS_BLOCK_SIZE; lia).
  assert (0 ≤ (offset + n + RAMFS_BLOCK_SIZE - 1) / RAMFS_BLOCK_SIZE ≤ 2 ^ 25)
    by (unfold RAMFS_BLOCK_SIZE; Z.to_euclidean_division_equations; lia).
  rewrite wrap_small by lia. split; [done|]. unfold RAMFS_BLOCK_SIZE. Z.to_euclidean_division_equations. lia.
Qed.

Lemma ramfs_file_write_wp s C H node X size g buf offset :
  fs_ok s C H → ramfs_file s node X size g → 0 ≤ offset → offset + alen buf ≤ MAX_FILE →
  wp (ramfs_file_write node buf offset) (write_done s C node X size g buf offset) s.
Proof.
  intros Hok (nd & data & arr & count & ptrs & Hn & Hr & Hp & <- & -> & Hf & Hc & Hg) Ho Hlim.
  pose proof (alen_nonneg buf) as Hbuf. unfold ramfs_file_write. wp_step. fs_step. rewrite Hp.
  destruct (blocks_needed_ok offset (alen buf) Ho Hbuf Hlim) as (Hnd & Hfit & Hzero).
  set (needed := wrap32 _) in *. clearbody needed. unfold MAX_FILE in Hlim. wp_step.
  eapply ramfs_ensure_blocks_wp; [by split|done|done|..].
  { intros s1 Hok1 [M1 G1]. apply wp_ret. exists 0, H, (footprint data arr ptrs).
    split_and!; [right; by right|done|split; [|by left|done]; intros y o _; by rewrite M1|].
    destruct (file_blocks_same s s1 data arr count ptrs M1 Hf) as [Hf1 Hb1].
    exists nd, data, arr, count, ptrs. split_and!; try done; [rewrite <-Hn; apply at_mem; by rewrite M1|].
    intros k Hk. by rewrite Hb1, Hg, written_nil. }
  intros s1 H1 arr1 count1 ptrs1 [Hst1 Hroom Hev1 Hb1]. change (negb (VFS_OK =? VFS_OK)) with false.
  cbv iota. rewrite wrap_small by lia. apply (evolves_more _ _ _ _ node) in Hev1.
  assert (∀ k, 0 ≤ k → byte_of s1 ptrs1 k = g k) as Hg1 by (intros; rewrite Hb1, Hg; done).
  destruct arr1 as [x|].
  - eapply write_loop_wp; try done; [unfold RAMFS_BLOCK_SIZE in *; lia|lia].
  - pose proof (fb_array _ _ _ _ _ (fi_blocks _ _ _ _ _ _ _ _ _ Hst1)) as Hnil. cbn in Hnil. subst ptrs1.
    change (alen (@nil (option Z))) with 0 in Hroom.
    assert (buf = []) as -> by (destruct buf; [done|rewrite alen_cons in *; pose proof (alen_nonneg buf); lia]).
    by eapply write_nothing_wp.
Qed.

End write.
