(* ===== verification/VfsIO.v ===== *)
(** * Reading and writing through descriptors

    The theorems on the operations of a file of the RAM file system, and on
    vfs_write, vfs_seek and vfs_read (fs/vfs.c) of a descriptor that refers to
    one. *)

From stdpp Require Import strings.
From S2P Require Import Prelude KHeap CString FsObj FsInv FdTable FsBoot Ramfs RamfsThm RamfsWrite.
From S2P Require Import Vfs VfsFile.

Section io.
Context {S : Type} {KH : KHeap S} {KHL : KHeapLaws S}.
Implicit Types (s : fs S) (C : gmap Z Z) (H : blocks) (fd file node x y k : Z) (f : file) (g : Z → Z) (X buf : list Z).

(** ** Files do not share memory with the objects of other layers *)

(** Neither files nor tables are among the objects of a file's contents. *)
Lemma not_in_file {T : Type} {KT : Kind T} {KL : KindLaws T} s node X size g x (v : T) :
  ramfs_file s node X size g → at_ s x = Some v → ¬ is_data (inj v) → (∀ n : vfs_node, inj v ≠ ONode n) →
  x ∉ node :: X.
Proof.
  intros (nd & data & arr & count & ptrs & Hn & _ & _ & _ & -> & Hf & _) Hx%at_some Hk Hne [->|Hin]%elem_of_cons.
  - apply at_some in Hn. rewrite Hn in Hx. simplify_eq. by eapply Hne.
  - destruct (footprint_kind _ _ _ _ _ _ Hf Hin) as (o & Ho & Hd). rewrite Hx in Ho. by simplify_eq.
Qed.

Lemma ramfs_file_frame s s' node X size g :
  (∀ y, y ∈ node :: X → fs_mem s' !! y = fs_mem s !! y) → ramfs_file s node X size g → ramfs_file s' node X size g.
Proof.
  intros Hm (nd & data & arr & count & ptrs & Hn & Hr & Hp & Hs & -> & Hf & Hc & Hg).
  destruct (file_blocks_frame s s' data arr count ptrs) as [Hf' Hb]; [|done|].
  { intros y Hy. apply Hm, elem_of_cons. by right. }
  exists nd, data, arr, count, ptrs. split_and!; try done.
  - rewrite <-Hn. apply at_mem, Hm, elem_of_cons. by left.
  - intros k Hk. rewrite Hb. by apply Hg.
Qed.

(** ** Descriptors *)

Variable other : Z → node_ops S.
Variable other_fs : Z → fs_ops S.

#[local] Instance the_drivers : Drivers S := kernel_drivers other other_fs.

Definition current_table (c : globals) : option Z :=
  if process_is_initialized c then process_current c ≫= p_fd_table else None.

(** The descriptor refers to the file at [file], in the table of the current
    process or, before there is one, in the kernel's table. *)
Definition fd_open s fd file : Prop :=
  0 ≤ fd < FD_MAX ∧ file ≠ 1 ∧
  match current_table (fs_glob s) with
  | Some t => ∃ d e, at_ s t = Some d ∧ aget (ft_entries d) fd = Some e ∧ fe_file e = Some file
  | None => aget (kernel_fds (fs_glob s)) fd = Some (Some file)
  end.

Lemma fd_open_keep s s' fd file :
  fs_glob s' = fs_glob s → (∀ t (d : fd_table), at_ s t = Some d → at_ s' t = Some d) →
  fd_open s fd file → fd_open s' fd file.
Proof.
  intros Hg Hk (Hr & H1 & Hm). split_and!; [lia|lia|done|]. rewrite Hg.
  destruct (current_table _) as [t|]; [|done]. destruct Hm as (d & e & Hd & He). exists d, e. auto.
Qed.

Lemma get_file_wp s fd file (Q : option Z → fs S → Prop) :
  fd_open s fd file → Q (Some file) s → wp (get_file fd) Q s.
Proof.
  unfold fd_open, current_table, FD_MAX. intros (Hr & _ & Hm) HQ. unfold get_file, get_current_fd_table, glob, VFS_MAX_FDS.
  rewrite (proj2 (Z.ltb_ge _ _)), (proj2 (Z.leb_gt _ _)) by lia. cbn [orb].
  do 3 wp_step. do 3 wp_step.
  destruct (if process_is_initialized _ then _ else _) as [t|].
  - destruct Hm as (d & e & Hd & He & Hf). unfold fd_table_get, FD_MAX.
    rewrite (proj2 (Z.ltb_ge _ _)), (proj2 (Z.leb_gt _ _)) by lia. cbn [orb].
    wp_step. eapply entry_wp; [done|done|]. apply wp_ret. by rewrite Hf.
  - do 2 wp_step. by eapply wp_lift.
Qed.

Lemma fd_node_wp s fd file f node (Q : option (Z * Z) → fs S → Prop) :
  fd_open s fd file → at_ s file = Some f → f_node f = Some node → Q (Some (file, node)) s →
  wp (fd_node fd) Q s.
Proof.
  intros Hfd Hf Hn HQ. unfold fd_node, open_file. wp_step. wp_step. eapply get_file_wp; [done|].
  apply wp_ret. rewrite (proj2 (Z.eqb_neq _ _)) by apply Hfd. wp_step. fs_step. apply wp_ret. by rewrite Hn.
Qed.

(** A change of the position of a file leaves the descriptors and the contents. *)
Lemma fd_open_put s fd file x f f' :
  at_ s x = Some f → fd_open s fd file → fd_open (put_obj x f' s) fd file.
Proof.
  intros Hx. apply fd_open_keep; [done|]. intros t d Ht. rewrite at_put_ne; [done|].
  by eapply (kinds_ne s x t f d).
Qed.

Lemma ramfs_file_move s node X size g x f f' :
  at_ s x = Some f → ramfs_file s node X size g → ramfs_file (put_obj x f' s) node X size g.
Proof.
  intros Hx Hf. eapply ramfs_file_frame; [|done]. intros y Hy. cbn. apply lookup_insert_ne. intros <-.
  by eapply (not_in_file s node X size g x f Hf Hx); [intros []|..].
Qed.

(** ** The operations on a descriptor *)

(** The descriptor refers to a file object [f] on a file of the RAM file system. *)
Record open_ramfs s fd file f node X size g : Prop := OpenRamfs {
  or_fd : fd_open s fd file;
  or_file : at_ s file = Some f;
  or_node : f_node f = Some node;
  or_data : ramfs_file s node X size g }.

Lemma open_ramfs_put s fd file f f' node X size g :
  open_ramfs s fd file f node X size g → f_node f' = Some node →
  open_ramfs (put_obj file f' s) fd file f' node X size g.
Proof.
  intros [Hfd Hf Hn Hd] Hn'. split; [by eapply fd_open_put|apply at_put_eq|done|by eapply ramfs_file_move].
Qed.

(** A step that changes nothing but the contents of the file. *)
Lemma open_ramfs_evolves s s' fd file f node X X' size size' g g' :
  open_ramfs s fd file f node X size g → evolves s s' (node :: X) (node :: X') →
  ramfs_file s' node X' size' g' → open_ramfs s' fd file f node X' size' g'.
Proof.
  intros [Hfd Hf Hn Hd] [K _ E] Hd'.
  assert (∀ T (KT : Kind T) (KL : KindLaws T) x (v : T), ¬ is_data (inj v) → (∀ n : vfs_node, inj v ≠ ONode n) →
    at_ s x = Some v → at_ s' x = Some v) as Hkeep.
  { intros T KT KL x v H1 H2 Hx. apply at_some, K; [by eapply (not_in_file s)|by apply at_some]. }
  split; [|by apply (Hkeep _ _ _ file f); [intros []|..]|done|done]. eapply fd_open_keep; [done| |done].
  intros t d Ht. by apply (Hkeep _ _ _ t d); [intros []|..].
Qed.

Lemma set_f_offset_same f : set_f_offset (f_offset f) f = f.
Proof. by destruct f. Qed.

Lemma vfs_seek_set_wp s fd file f node X size g offset (Q : Z → fs S → Prop) :
  open_ramfs s fd file f node X size g → 0 ≤ offset → Q offset (put_obj file (set_f_offset offset f) s) →
  wp (vfs_seek fd offset SEEK_SET) Q s.
Proof.
  intros [Hfd Hf Hn Hd] Ho HQ. pose proof Hd as (nd & data & arr & count & ptrs & Hnd & _).
  unfold vfs_seek. wp_step. eapply fd_node_wp; [done..|]. wp_step. fs_step. wp_step. fs_step. cbv zeta.
  change (SEEK_SET =? SEEK_SET) with true. cbv iota. rewrite (proj2 (Z.ltb_ge _ _)) by done.
  wp_step. fs_step. by apply wp_ret.
Qed.

Definition readable f : Prop := Z.land (f_flags f) O_ACCMODE ≠ O_WRONLY.
Definition writable f : Prop := Z.land (f_flags f) O_ACCMODE ≠ O_RDONLY.

Lemma vfs_read_wp s fd file f node X size g n (Q : Z * list Z → fs S → Prop) :
  open_ramfs s fd file f node X size g → readable f → 0 ≤ size ≤ 2 ^ 44 → 0 ≤ f_offset f → 0 ≤ n →
  f_offset f + n < 2 ^ 64 →
  (let m := available size (f_offset f) n in
   Q (m, g <$> seqZ (f_offset f) m) (put_obj file (set_f_offset (f_offset f + m) f) s)) →
  wp (vfs_read fd true n) Q s.
Proof.
  intros [Hfd Hf Hn Hd] Hrd Hsz Ho Hn0 Hov HQ. pose proof Hd as (nd & data & arr & count & ptrs & Hnd & [Ht Hops] & _).
  unfold vfs_read. cbn [negb]. wp_step. eapply fd_node_wp; [done..|]. wp_step. fs_step.
  rewrite (proj2 (Z.eqb_neq _ _)) by done. wp_step. fs_step. rewrite Ht. change (VFS_FILE =? VFS_DIR) with false.
  unfold node_op. rewrite Hops. cbn. wp_step. eapply ramfs_file_read_wp; [done..|]. cbn [fst].
  cbv zeta in HQ. set (m := available size (f_offset f) n) in *.
  assert (0 ≤ m ≤ n) as Hm by (unfold m, available; destruct (Z.leb_spec size (f_offset f)); lia).
  wp_step. destruct (Z.ltb_spec 0 m) as [Hpos|Hz].
  - fs_step. apply wp_ret. rewrite wrap_small by lia. exact HQ.
  - apply wp_ret, wp_ret. assert (m = 0) as Hm0 by lia. rewrite Hm0 in *.
    rewrite Z.add_0_r, set_f_offset_same, put_same in HQ by done. exact HQ.
Qed.

(** Where a write goes: to the end of the file with O_APPEND. *)
Definition write_pos f size : Z := if has (f_flags f) O_APPEND then size else f_offset f.

Definition vfs_write_done s C fd file f node X size g buf (r : Z) s' : Prop :=
  let pos := write_pos f size in
  ∃ m H' X', write_result buf m r ∧ fs_ok s' C H' ∧
    evolves s s' (file :: node :: X) (file :: node :: X') ∧
    open_ramfs s' fd file (set_f_offset (pos + m) f) node X' (grown_size size m r (pos + m))
      (written g pos (take (Z.to_nat m) buf)).

Lemma vfs_write_wp s C H fd file f node X size g buf :
  fs_ok s C H → open_ramfs s fd file f node X size g → writable f →
  0 ≤ write_pos f size → write_pos f size + alen buf ≤ MAX_FILE →
  wp (vfs_write fd (Some buf)) (vfs_write_done s C fd file f node X size g buf) s.
Proof.
  intros Hok Hop Hwr Hp0 Hp1. pose proof Hop as [Hfd Hf Hn Hd].
  pose proof Hd as (nd & data & arr & count & ptrs & Hnd & [Ht Hops] & _ & Hsz & _).
  unfold vfs_write. wp_step. eapply fd_node_wp; [done..|]. wp_step. fs_step.
  rewrite (proj2 (Z.eqb_neq _ _)) by done. wp_step. fs_step. rewrite Ht. change (VFS_FILE =? VFS_DIR) with false.
  unfold node_op. rewrite Hops. cbn [mbind option_bind the_drivers ops_at kernel_drivers ramfs_file_table op_write].
  set (f1 := set_f_offset (write_pos f size) f). set (s1 := put_obj file f1 s). wp_step.
  apply (wp_mono _ (λ _ s2, s2 = s1)).
  { unfold s1, f1, write_pos. destruct (has (f_flags f) O_APPEND).
    - rewrite Hsz. by fs_step.
    - apply wp_ret. by rewrite set_f_offset_same, put_same. }
  intros [] s2 ->. assert (open_ramfs s1 fd file f1 node X size g) as Hop1 by by eapply open_ramfs_put.
  assert (at_ s1 file = Some f1) as Hf1 by apply Hop1. assert (fs_ok s1 C H) as Hok1 by by eapply fs_ok_put.
  wp_step. fs_step. wp_step. eapply wp_mono; [eapply ramfs_file_write_wp; [done|apply Hop1|done|done]|].
  intros r s2 (m & H2 & X2 & Hr & Hok2 & Hev2 & Hd2). wp_step.
  pose proof (open_ramfs_evolves _ _ _ _ _ _ _ _ _ _ _ _ Hop1 Hev2 Hd2) as Hop2.
  assert (at_ s2 file = Some f1) as Hf2 by apply Hop2. unfold MAX_FILE in Hp1.
  apply (wp_mono _ (λ _ s3, s3 = put_obj file (set_f_offset (write_pos f size + m) f) s2)).
  { destruct (Z.ltb_spec 0 r) as [Hpos|Hneg].
    - assert (r = m ∧ 0 < m ≤ alen buf) as [-> Hm]
        by (destruct Hr as [[? ?]|[[? ?]|[? ?]]]; unfold VFS_ENOMEM in *; lia).
      fs_step. cbn [f1 f_offset set_f_offset]. by rewrite wrap_small by lia.
    - assert (m = 0) as -> by (pose proof (alen_nonneg buf); destruct Hr as [[? ?]|[[? ?]|[? ?]]]; lia).
      apply wp_ret. rewrite Z.add_0_r. fold f1. by rewrite put_same. }
  intros [] s3 ->. apply wp_ret. exists m, H2, X2. split_and!; [done|by eapply fs_ok_put|..|by eapply open_ramfs_put].
  eapply evolves_trans; [apply (evolves_put s file f1); apply elem_of_cons; by left|].
  eapply evolves_trans; [by eapply (evolves_more _ _ _ _ file)|]. apply evolves_put, elem_of_cons. by left.
Qed.

(** ** Round trip *)

Lemma written_read g pos buf : written g pos buf <$> seqZ pos (alen buf) = buf.
Proof.
  apply list_eq. intros i. rewrite list_lookup_fmap. unfold written.
  destruct (decide (i < length buf)%nat) as [Hi|Hi].
  - rewrite (proj2 (lookup_seqZ pos (alen buf) i (pos + Z.of_nat i))) by (unfold alen; lia). cbn.
    replace (pos + Z.of_nat i - pos) with (Z.of_nat i) by lia. unfold aget.
    rewrite decide_True, Nat2Z.id by lia. destruct (lookup_lt_is_Some_2 buf i Hi) as [b Hb]. by rewrite Hb.
  - rewrite (lookup_ge_None_2 buf) by lia. rewrite lookup_seqZ_ge; [done|]. unfold alen. lia.
Qed.

Lemma available_written size pos m :
  0 ≤ m → available (Z.max size (pos + m)) pos m = m.
Proof. intros Hm. unfold available. destruct (Z.leb_spec (Z.max size (pos + m)) pos); lia. Qed.

(** A client: write, go back to where the write started, and read as much as
    was written. *)
Definition write_then_read fd (pos : Z) (buf : list Z) : M (fs S) (Z * list Z) :=
  r ← vfs_write fd (Some buf);
  if r <? 0 then mret (r, [])
  else vfs_seek fd pos SEEK_SET ;; vfs_read fd true r.

Lemma write_then_read_wp s C H fd file f node X size g buf :
  fs_ok s C H → open_ramfs s fd file f node X size g → readable f → writable f → 0 ≤ size ≤ 2 ^ 44 →
  0 ≤ write_pos f size → write_pos f size + alen buf ≤ MAX_FILE →
  wp (write_then_read fd (write_pos f size) buf)
    (λ res _, (0 ≤ res.1 ≤ alen buf ∧ (res.1 = 0 → buf = []) ∧ res.2 = take (Z.to_nat res.1) buf) ∨
              res = (VFS_ENOMEM, [])) s.
Proof.
  intros Hok Hop Hrd Hwr Hsz Hp0 Hp1. unfold write_then_read. wp_step.
  eapply wp_mono; [by eapply vfs_write_wp|]. set (pos := write_pos f size) in *.
  intros r s1 (m & H1 & X1 & Hr & Hok1 & _ & Hop1). fold pos in Hop1. pose proof (alen_nonneg buf) as Hb.
  destruct (Z.ltb_spec r 0) as [Hneg|Hpos].
  { apply wp_ret. right. by destruct Hr as [[? ?]|[[? ?]|[_ ->]]]; [lia|lia|]. }
  assert (r = m ∧ 0 ≤ m ≤ alen buf ∧ (m = 0 → alen buf = 0)) as (-> & Hm & Hzero)
    by (destruct Hr as [[? ?]|[[? ?]|[? ?]]]; unfold VFS_ENOMEM in *; lia).
  unfold MAX_FILE in Hp1. wp_step. eapply vfs_seek_set_wp; [done|done|].
  rewrite grown_size_ok in Hop1 by lia. apply (open_ramfs_put _ _ _ _ (set_f_offset pos (set_f_offset (pos + m) f))) in Hop1;
    [|apply Hop1].
  eapply vfs_read_wp; [exact Hop1|done|lia|done|lia|cbn; lia|]. cbn [f_offset set_f_offset]. left.
  rewrite available_written by lia. cbn [fst snd]. split_and!; [lia|lia|..].
  - intros Hm0. destruct buf; [done|]. rewrite alen_cons in Hzero. pose proof (alen_nonneg buf). lia.
  - replace (seqZ pos m) with (seqZ pos (alen (take (Z.to_nat m) buf))); [apply written_read|].
    f_equal. unfold alen in *. rewrite length_take. lia.
Qed.

(** vfs_read of [n] bytes on a descriptor of a RAM file delivers exactly the
    bytes of the file between the position and the end of the file, missing
    blocks as zeros, moves the position behind them and changes nothing else. *)
Theorem vfs_read_correct s fd file f node X size g n :
  open_ramfs s fd file f node X size g → readable f → 0 ≤ size ≤ 2 ^ 44 → 0 ≤ f_offset f → 0 ≤ n →
  f_offset f + n < 2 ^ 64 →
  let m := if size <=? f_offset f then 0 else Z.min n (size - f_offset f) in
  vfs_read fd true n s =
    Some ((m, g <$> seqZ (f_offset f) m), put_obj file (set_f_offset (f_offset f + m) f) s).
Proof.
  intros Hop Hrd Hsz Ho Hn Hov m.
  destruct (wp_elim (vfs_read fd true n) (λ r s', r = (m, g <$> seqZ (f_offset f) m) ∧
    s' = put_obj file (set_f_offset (f_offset f + m) f) s) s) as (r & s' & Hrun & -> & ->); [|done].
  by eapply vfs_read_wp.
Qed.

(** vfs_write of [buf] on a descriptor of a RAM file (at the position, or at
    the end with O_APPEND) stores a prefix of [buf], all of it unless memory runs
    out, and reports its length, or reports VFS_ENOMEM and stores nothing.
    Every other byte of the file keeps its value, the file ends where it did or
    behind the written bytes, the position is behind them, and no object beside
    the file is touched. *)
Theorem vfs_write_correct s C H fd file f node X size g buf :
  fs_ok s C H → open_ramfs s fd file f node X size g → writable f →
  0 ≤ write_pos f size → write_pos f size + alen buf ≤ MAX_FILE →
  ∃ r s', vfs_write fd (Some buf) s = Some (r, s') ∧ vfs_write_done s C fd file f node X size g buf r s'.
Proof. intros Hok Hop Hwr Hp0 Hp1. apply wp_elim. by eapply vfs_write_wp. Qed.

(** C6. Round trip: after a write through a descriptor of a RAM file, seeking
    back and reading the reported number of bytes gives the bytes that were
    written; the write is short only when memory runs out. *)
Theorem vfs_write_read_roundtrip s C H fd file f node X size g buf :
  fs_ok s C H → open_ramfs s fd file f node X size g → readable f → writable f → 0 ≤ size ≤ 2 ^ 44 →
  0 ≤ write_pos f size → write_pos f size + alen buf ≤ MAX_FILE →
  ∃ r bytes s', write_then_read fd (write_pos f size) buf s = Some ((r, bytes), s') ∧
    ((0 ≤ r ≤ alen buf ∧ (r = 0 → buf = []) ∧ bytes = take (Z.to_nat r) buf) ∨
     (r = VFS_ENOMEM ∧ bytes = [])).
Proof.
  intros Hok Hop Hrd Hwr Hsz Hp0 Hp1.
  destruct (wp_elim _ _ _ (write_then_read_wp s C H fd file f node X size g buf Hok Hop Hrd Hwr Hsz Hp0 Hp1))
    as ([r bytes] & s' & Hrun & Hres).
  exists r, bytes, s'. split; [done|]. destruct Hres as [?|[= -> ->]]; [by left|by right].
Qed.

End io.
