(* ===== verification/RamfsTree.v ===== *)
(** * The RAM file system: directories

    A directory is a doubly linked list of its children; what finding,
    creating and removing an entry do to that list. *)

From stdpp Require Import strings.
From S2P Require Import Prelude DList KHeap CString FsObj FsInv Ramfs RamfsThm RamfsWrite.

Section tree.
Context {S : Type} {KH : KHeap S}.
Implicit Types (s : fs S) (C : gmap Z Z) (H : blocks) (d x y : Z) (n nd : vfs_node) (L : list Z) (name : list Z).

(** ** Lists of children *)

Definition node_links s : links := λ x, (λ n : vfs_node, (vn_prev n, vn_next n)) <$> at_ s x.

Definition name_at s x : option (list Z) := vn_name <$> at_ s x.

(** The directory [nd] at [d] has the children [L], in this order. *)
Record dir_at s d nd L : Prop := DirAt {
  da_node : at_ s d = Some nd;
  da_type : vn_type nd = VFS_DIR;
  da_head : vn_children nd = head L;
  da_list : dlist (node_links s) L;
  da_nodup : NoDup L;
  da_self : d ∉ L }.

(** The first child with a name. *)
Fixpoint entry_named s L name : option Z :=
  match L with
  | [] => None
  | x :: L' => if decide (name_at s x = Some name) then Some x else entry_named s L' name
  end.

Lemma entry_named_elem s L name x : entry_named s L name = Some x → x ∈ L ∧ name_at s x = Some name.
Proof.
  induction L as [|y L IH]; [done|]. cbn. case_decide as Hy.
  - intros [= ->]. split; [by apply elem_of_cons; left|done].
  - intros Hx. destruct (IH Hx). split; [by apply elem_of_cons; right|done].
Qed.

Lemma entry_named_none s L name x : entry_named s L name = None → x ∈ L → name_at s x ≠ Some name.
Proof.
  induction L as [|y L IH]; cbn; [by intros _ ?%not_elem_of_nil|]. case_decide as Hy; [done|].
  intros Hn [->|Hx]%elem_of_cons; [done|auto].
Qed.

Lemma entry_named_ext s s' L name :
  (∀ x, x ∈ L → name_at s' x = name_at s x) → entry_named s' L name = entry_named s L name.
Proof.
  induction L as [|y L IH]; [done|]. cbn. intros Hext.
  rewrite Hext by (apply elem_of_cons; by left). case_decide; [done|]. apply IH.
  intros x Hx. apply Hext, elem_of_cons. by right.
Qed.

Lemma dlseg_node s pr L nx x : dlseg (node_links s) pr L nx → x ∈ L → ∃ n, at_ s x = Some (n : vfs_node).
Proof.
  revert pr. induction L as [|y L IH]; intros pr; [by intros _ ?%not_elem_of_nil|].
  intros [Hy HL] [->|Hx]%elem_of_cons; [|by eapply IH]. unfold node_links in Hy.
  destruct (at_ s y) as [n|]; [by exists n|done].
Qed.

Lemma find_child_wp fuel s pr L name (Q : option Z → fs S → Prop) :
  dlseg (node_links s) pr L None → (length L ≤ fuel)%nat → Q (entry_named s L name) s →
  wp (find_child fuel (head L) name) Q s.
Proof.
  revert fuel pr. induction L as [|x L IH]; intros fuel pr; cbn [head].
  - intros _ _ HQ. destruct fuel; by apply wp_ret.
  - intros [Hx HL] Hfuel HQ. destruct fuel as [|fuel]; [cbn in Hfuel; lia|]. cbn [find_child].
    cbn [entry_named] in HQ. unfold node_links in Hx. unfold name_at in HQ.
    destruct (at_ s x) as [n|] eqn:Hn; [|done]. cbn in Hx. injection Hx as Hp Hnx. wp_step. fs_step.
    cbn in HQ. destruct (decide (vn_name n = name)) as [He|Hne].
    + rewrite decide_True in HQ by congruence. by apply wp_ret.
    + rewrite decide_False in HQ by congruence. rewrite Hnx, or_else_None.
      eapply IH; [done|cbn in Hfuel; lia|done].
Qed.

Lemma dir_fuel s d nd L : dir_at s d nd L → (length L ≤ size (fs_mem s))%nat.
Proof.
  intros Hd. apply nodup_size; [apply Hd|]. intros x Hx.
  destruct (dlseg_node _ _ _ _ _ (da_list _ _ _ _ Hd) Hx) as [n Hn%at_some]. by eexists.
Qed.

Lemma child_named_wp s d nd L name (Q : option Z → fs S → Prop) :
  dir_at s d nd L → Q (entry_named s L name) s → wp (child_named d name) Q s.
Proof.
  intros Hd HQ. pose proof Hd as [Hn _ Hh HL _ _]. unfold child_named, walk_fuel. wp_step. fs_step. wp_step. wp_step.
  rewrite Hh. eapply find_child_wp; [exact HL| |done]. pose proof (dir_fuel _ _ _ _ Hd). lia.
Qed.

(** A reference more to a node. *)
Definition ref_more n : vfs_node := set_node_ref_count (vn_ref_count n +u32 1) n.

Lemma finddir_wp s d nd L name (Q : option Z → fs S → Prop) :
  dir_at s d nd L →
  match entry_named s L name with
  | Some x => ∀ n, at_ s x = Some n → Q (Some x) (put_obj x (ref_more n) s)
  | None => Q None s
  end → wp (ramfs_dir_finddir d name) Q s.
Proof.
  intros Hd HQ. unfold ramfs_dir_finddir. wp_step. eapply child_named_wp; [done|].
  destruct (entry_named s L name) as [x|] eqn:Hx; [|by apply wp_ret].
  apply entry_named_elem in Hx as [Hx _]. destruct (dlseg_node _ _ _ _ _ (da_list _ _ _ _ Hd) Hx) as [n Hn].
  unfold vfs_node_ref. wp_step. fs_step. apply wp_ret. by apply HQ.
Qed.

(** ** New nodes *)

Definition base_node name (type : Z) : vfs_node :=
  VfsNode (name_copy name) type 0x1ED 0 0 0 0 0 0 1 1 0 0 None None None None None None None.
Definition dir_node name : vfs_node := set_node_ops (Some ramfs_dir_ops) (base_node name VFS_DIR).
Definition file_node name (type data : Z) : vfs_node :=
  set_node_private (Some data) (set_node_ops (Some ramfs_file_ops) (base_node name type)).

Definition no_blocks : obj := OData (RamfsData None 0 0).

(** The objects a new node consists of. *)
Inductive made (g : globals) name (type x : Z) : vfs_node → objects → Prop :=
  | made_dir : type = VFS_DIR →
      made g name type x (dir_node name) {[x := (ONode (dir_node name), node_cache g)]}
  | made_file data : type ≠ VFS_DIR → data ≠ x →
      made g name type x (file_node name type data)
        (<[data := (no_blocks, ramfs_data_cache g)]> {[x := (ONode (file_node name type data), node_cache g)]}).

(** ** Changes of the links *)

(** A node without its place in the tree. *)
Definition bare n : vfs_node :=
  set_node_parent None (set_node_children None (set_node_next None (set_node_prev None n))).

(** Nothing but links of nodes among [P] changed. *)
Record relinked s s' (P : list Z) : Prop := Relinked {
  rl_ok : ∀ C H, fs_ok s C H → fs_ok s' C H;
  rl_frame : ∀ y, y ∉ P → fs_mem s' !! y = fs_mem s !! y;
  rl_node : ∀ y n, at_ s y = Some n → ∃ n', at_ s' y = Some n' ∧ bare n' = bare n;
  rl_glob : fs_glob s' = fs_glob s }.

Lemma relinked_refl s P : relinked s s P.
Proof. split; eauto. Qed.

Lemma relinked_steps s1 s2 s3 P : relinked s1 s2 P → relinked s2 s3 P → relinked s1 s3 P.
Proof.
  intros [O1 F1 N1 G1] [O2 F2 N2 G2]. split; [auto| | |congruence].
  - intros y Hy. by rewrite F2, F1.
  - intros y n (n1 & Hn1 & E1)%N1. destruct (N2 y n1 Hn1) as (n2 & Hn2 & E2). exists n2. split; [done|congruence].
Qed.

Lemma relinked_put s x n n' P : at_ s x = Some n → bare n' = bare n → x ∈ P → relinked s (put_obj x n' s) P.
Proof.
  intros Hx Hb HP. split; [by intros; eapply fs_ok_put| | |done].
  - intros y Hy. cbn. apply lookup_insert_ne. by intros ->.
  - intros y m Hy. destruct (decide (y = x)) as [->|Hne].
    + exists n'. rewrite at_put_eq. split; [done|congruence].
    + exists m. by rewrite at_put_ne.
Qed.

Lemma relinked_name s s' P y n : relinked s s' P → at_ s y = Some n → name_at s' y = name_at s y.
Proof.
  intros Hr Hy. destruct (rl_node _ _ _ Hr y n Hy) as (n' & Hn' & Hb). unfold name_at. rewrite Hn', Hy. cbn.
  f_equal. change (vn_name (bare n') = vn_name n). by rewrite Hb.
Qed.

Lemma node_links_put s x n y :
  node_links (put_obj x n s) y = if decide (y = x) then Some (vn_prev n, vn_next n) else node_links s y.
Proof. unfold node_links. case_decide as Hy; [subst; by rewrite at_put_eq|by rewrite at_put_ne]. Qed.

(** The update of the [prev] field of the first node of a list, if there is one. *)
Definition put_prev (o : option Z) (pr : option Z) s : fs S :=
  match o with
  | None => s
  | Some b => match at_ s b with Some n => put_obj b (set_node_prev pr n) s | None => s end
  end.

Lemma node_links_put_prev s o pr y :
  node_links (put_prev o pr s) y = if decide (o = Some y) then set_pr pr <$> node_links s y else node_links s y.
Proof.
  unfold put_prev. destruct o as [b|]; [|by rewrite decide_False]. destruct (decide (b = y)) as [->|Hne].
  - rewrite decide_True by done. unfold node_links. destruct (at_ s y) as [n|] eqn:Hn; [|by rewrite Hn].
    by rewrite at_put_eq.
  - rewrite decide_False by congruence. destruct (at_ s b); [|done]. rewrite node_links_put. by rewrite decide_False.
Qed.

Lemma put_prev_relinked s o pr P : (∀ b, o = Some b → b ∈ P) → relinked s (put_prev o pr s) P.
Proof.
  intros HP. unfold put_prev. destruct o as [b|]; [|apply relinked_refl].
  destruct (at_ s b) as [n|] eqn:Hb; [|apply relinked_refl]. eapply relinked_put; [done|done|auto].
Qed.

Lemma at_put_prev_ne {T : Type} {KT : Kind T} s o pr y : o ≠ Some y → at_ (T := T) (put_prev o pr s) y = at_ s y.
Proof.
  intros Ho. unfold put_prev. destruct o as [b|]; [|done]. destruct (at_ s b); [|done].
  apply at_put_ne. congruence.
Qed.

Lemma at_put_prev_eq s o pr y n :
  o = Some y → at_ s y = Some n → at_ (put_prev o pr s) y = Some (set_node_prev pr n).
Proof. intros -> Hy. unfold put_prev. rewrite Hy. apply at_put_eq. Qed.

Lemma upd_prev_wp s o pr (Q : unit → fs S → Prop) :
  (∀ b, o = Some b → ∃ n, at_ s b = Some (n : vfs_node)) → Q tt (put_prev o pr s) →
  wp (match o with Some b => upd b (set_node_prev pr) | None => mret tt end) Q s.
Proof.
  intros Ho HQ. destruct o as [b|]; [|by apply wp_ret]. destruct (Ho b eq_refl) as [n Hn].
  cbn in HQ. rewrite Hn in HQ. by fs_step.
Qed.

(** ** Adding a child *)

Definition child_node parent (first : option Z) n : vfs_node :=
  set_node_prev None (set_node_next first (set_node_parent (Some parent) n)).

Lemma ramfs_add_child_wp s d nd L x n (Q : unit → fs S → Prop) :
  dir_at s d nd L → at_ s x = Some n → x ≠ d → x ∉ L →
  (∀ s', dir_at s' d (set_node_children (Some x) nd) (x :: L) → at_ s' x = Some (child_node d (head L) n) →
    (∀ y m, y ≠ d → y ≠ x → at_ s y = Some m →
      at_ s' y = Some (if decide (head L = Some y) then set_node_prev (Some x) m else m)) →
    relinked s s' (d :: x :: L) → Q tt s') →
  wp (ramfs_add_child d x) Q s.
Proof.
  intros [Hd Ht Hh HL Hnd Hself] Hx Hxd HxL HQ. unfold ramfs_add_child. wp_step. fs_step. wp_step. fs_step.
  rewrite Hh. fold (child_node d (head L) n). set (s1 := put_obj x _ s).
  assert (∀ b, head L = Some b → b ∈ L) as Hin by (intros b Hb; by apply head_Some_elem_of).
  assert (head L ≠ Some d ∧ head L ≠ Some x) as [Hhd Hhx] by (split; intros Hb%Hin; done).
  wp_step. apply upd_prev_wp.
  { intros b Hb. destruct (dlseg_node _ _ _ _ b HL (Hin b Hb)) as [m Hm]. exists m. unfold s1.
    rewrite at_put_ne; [done|]. intros <-. by apply HxL, Hin. }
  set (s2 := put_prev (head L) (Some x) s1).
  assert (at_ s2 d = Some nd) as Hd2 by (unfold s2, s1; rewrite at_put_prev_ne, at_put_ne by done; done).
  eapply upd_wp; [exact Hd2|]. set (s3 := put_obj d _ s2).
  assert (∀ y, y ≠ d → node_links s3 y = if decide (head L = Some y) then set_pr (Some x) <$> node_links s1 y
    else node_links s1 y) as Hlk.
  { intros y Hy. unfold s3. rewrite node_links_put, decide_False by done. apply node_links_put_prev. }
  apply HQ.
  - split; [apply at_put_eq|done|done| |by apply NoDup_cons|by intros [?|?]%elem_of_cons].
    apply (dlist_insert (node_links s) _ [] x L); [done|done|..].
    + rewrite Hlk, decide_False by done. unfold s1. by rewrite node_links_put, decide_True.
    + done.
    + intros b Hb. rewrite Hlk, decide_True by (done || (intros ->; by apply Hself, Hin)).
      unfold s1. rewrite node_links_put, decide_False; [done|]. intros ->. by apply HxL, Hin.
    + intros y Hy _ Hny. cbn in Hy. rewrite Hlk, decide_False by (done || (intros ->; done)).
      unfold s1. rewrite node_links_put, decide_False; [done|]. by intros ->.
  - unfold s3, s2. rewrite at_put_ne by done. rewrite at_put_prev_ne by done. apply at_put_eq.
  - intros y m Hyd Hyx Hy. unfold s3, s2. rewrite at_put_ne by done. case_decide as Hhead.
    + apply at_put_prev_eq; [done|]. unfold s1. by rewrite at_put_ne.
    + rewrite at_put_prev_ne by done. unfold s1. by rewrite at_put_ne.
  - eapply relinked_steps; [apply (relinked_put s x n (child_node d (head L) n)); [done|done|set_solver]|].
    eapply relinked_steps; [apply (put_prev_relinked s1 (head L) (Some x)); set_solver|].
    eapply relinked_put; [exact Hd2|done|set_solver].
Qed.

Context {KHL : KHeapLaws S}.

Lemma adds_data_alloc_wp s0 C H0 s A (Q : option Z → fs S → Prop) :
  adds s0 C H0 s A → (∀ s', adds s0 C H0 s' A → Q None s') →
  (∀ x s', 0 < x → A !! x = None → adds s0 C H0 s' (<[x := (no_blocks, ramfs_data_cache (fs_glob s0))]> A) → Q (Some x) s') →
  wp ramfs_data_alloc Q s.
Proof.
  intros Ha HN HS. unfold ramfs_data_alloc, glob. wp_step. wp_step. pose proof (ad_glob _ _ _ _ _ Ha) as Hg.
  eapply adds_new_from_wp; [exact Ha| | |done|]; rewrite ?Hg; [rewrite <-Hg; apply Ha|by intros t ? ->|].
  intros x s' Hx HA _ Ha'. by apply HS.
Qed.

Lemma ramfs_create_node_wp s C H name type (Q : option Z → fs S → Prop) :
  fs_ok s C H → (∀ s', fs_ok s' C H → same_but_heap s s' → Q None s') →
  (∀ x nd A s', 0 < x → made (fs_glob s) name type x nd A → adds s C H s' A → Q (Some x) s') →
  wp (ramfs_create_node name type) Q s.
Proof.
  intros Hok HN HS. unfold ramfs_create_node. wp_step.
  eapply adds_node_alloc_wp; [by apply adds_refl|..].
  { intros s' Ha. apply wp_ret. by apply adds_empty in Ha as (? & ? & ?); [apply HN|]. }
  intros x s1 Hx _ _ Ha1. wp_step. eapply upd_wp; [eapply adds_at; [exact Ha1|by apply lookup_insert_eq]|].
  eapply (adds_put _ _ _ _ _ x empty_node (base_node name type)) in Ha1; [|by apply lookup_insert_eq|done|done].
  change (set_node_nlink 1 _) with (base_node name type). destruct (Z.eqb_spec type VFS_DIR) as [->|Ht].
  - wp_step. eapply upd_wp; [apply at_put_eq|]. apply wp_ret.
    eapply (HS x _ _ _ Hx (made_dir _ _ _ _ eq_refl)).
    eapply (adds_put _ _ _ _ _ x (base_node name VFS_DIR) (dir_node name)) in Ha1; [|by apply lookup_insert_eq|done|done].
    rewrite !insert_insert_eq in Ha1. exact Ha1.
  - wp_step. eapply upd_wp; [apply at_put_eq|].
    eapply (adds_put _ _ _ _ _ x (base_node name type) (set_node_ops (Some ramfs_file_ops) (base_node name type))) in Ha1;
      [|by apply lookup_insert_eq|done|done].
    rewrite !insert_insert_eq in Ha1. wp_step. eapply adds_data_alloc_wp; [exact Ha1|..].
    + intros s' Ha. wp_step. eapply adds_node_free_wp; [exact Ha|by apply lookup_insert_eq|].
      intros s2 Ha2. apply wp_ret. apply adds_empty in Ha2 as (? & ? & ?); [by apply HN|].
      by rewrite delete_insert_eq.
    + intros data s' Hd Hne Ha. assert (data ≠ x) as Hdx by (intros ->; by rewrite lookup_insert_eq in Hne).
      wp_step. eapply upd_wp; [eapply (adds_at _ _ _ _ _ x (set_node_ops _ _)); [exact Ha|adds_lookup]|]. apply wp_ret.
      eapply (HS x _ _ _ Hx (made_file _ _ _ _ data Ht Hdx)).
      eapply (adds_put _ _ _ _ _ x _ (file_node name type data)) in Ha; [|adds_lookup|done|done].
      rewrite insert_insert_ne in Ha by done. rewrite insert_insert_eq in Ha. exact Ha.
Qed.

(** ** Creation *)

Lemma dir_at_keep s s' d nd L :
  (∀ y n, y ∈ d :: L → at_ s y = Some n → at_ s' y = Some n) → dir_at s d nd L → dir_at s' d nd L.
Proof.
  intros Hk [Hd Ht Hh HL Hnd Hself]. split; try done; [apply Hk; [by apply elem_of_cons; left|done]|].
  eapply dlseg_ext; [|exact HL]. intros x Hx. unfold node_links.
  destruct (dlseg_node _ _ _ _ x HL Hx) as [n Hn]. rewrite Hn, (Hk x n); [done|by apply elem_of_cons; right|done].
Qed.

Lemma dir_elem s d nd L y : dir_at s d nd L → y ∈ d :: L → ∃ n, at_ s y = Some (n : vfs_node).
Proof.
  intros Hd [->|Hy]%elem_of_cons; [by exists nd; apply Hd|]. by eapply dlseg_node; [apply Hd|].
Qed.

Lemma fresh_not_dir s d nd L y : dir_at s d nd L → fs_mem s !! y = None → y ∉ d :: L.
Proof. intros Hd Hy Hin. destruct (dir_elem _ _ _ _ _ Hd Hin) as [n Hn%at_some]. congruence. Qed.

(** What the new entry is. *)
Definition new_entry s (type x : Z) : Prop :=
  (type = VFS_DIR → ∃ n, dir_at s x n [] ∧ vn_ops n = Some ramfs_dir_ops) ∧
  (type = VFS_FILE → ∃ X, ramfs_file s x X 0 (λ _, 0)).

Record dir_created s C d nd L name type s' x H' n : Prop := DirCreated {
  dc_fresh : fs_mem s !! x = None;
  dc_ok : fs_ok s' C H';
  dc_dir : dir_at s' d (set_node_children (Some x) nd) (x :: L);
  dc_node : at_ s' x = Some n ∧ vn_type n = type ∧ vn_parent n = Some d ∧ vn_mount n = vn_mount nd ∧
    vn_ref_count n = 1 ∧ vn_open_count n = 0;
  dc_entry : new_entry s' type x;
  dc_lookup : ∀ name', entry_named s' (x :: L) name' =
    if decide (name' = name_copy name) then Some x else entry_named s L name';
  dc_siblings : ∀ y m, y ∈ L → at_ s y = Some m →
    at_ s' y = Some (if decide (head L = Some y) then set_node_prev (Some x) m else m);
  dc_frame : ∀ y o, y ∉ d :: L → fs_mem s !! y = Some o → fs_mem s' !! y = Some o;
  dc_glob : fs_glob s' = fs_glob s }.

Lemma made_node g name type x n A : made g name type x n A → A !! x = Some (ONode n, node_cache g).
Proof. intros [|data Ht Hd]; [apply lookup_insert_eq|]. rewrite lookup_insert_ne by done. apply lookup_insert_eq. Qed.

(** The new node after it was put into the tree. *)
Definition placed d nd L n : vfs_node := child_node d (head L) (set_node_mount (vn_mount nd) n).

Lemma made_entry g s name type x n A d nd L s1 s' C H :
  made g name type x n A → adds s C H s1 A → dir_at s d nd L → at_ s' x = Some (placed d nd L n) →
  relinked (put_obj x (set_node_mount (vn_mount nd) n) s1) s' (d :: x :: L) → new_entry s' type x.
Proof.
  intros Hm Ha Hd Hx Hr. destruct Hm as [->|data Ht Hne].
  - split; [|intros Hk; discriminate Hk]. intros _. exists (placed d nd L (dir_node name)).
    split; [|done]. split; [exact Hx|done|done|done|constructor|apply not_elem_of_nil].
  - split; [done|]. intros ->. exists (footprint data None []).
    exists (placed d nd L (file_node name VFS_FILE data)), data, None, 0, [].
    split_and!; [exact Hx|done|done|done|done|..|unfold alen; cbn; lia|].
    2: { intros k _. unfold byte_of. by rewrite aget_nil. }
    assert (at_ s' data = Some (RamfsData None 0 0)) as Hdata.
    { destruct (ad_fresh _ _ _ _ _ Ha data) as [_ Hf]; [rewrite lookup_insert_eq; by eexists|].
      pose proof (fresh_not_dir _ _ _ _ _ Hd Hf) as Hdl.
      rewrite (at_mem (put_obj x (set_node_mount (vn_mount nd) (file_node name VFS_FILE data)) s1));
        [|apply (rl_frame _ _ _ Hr); set_solver].
      rewrite at_put_ne by done. eapply (adds_at _ _ _ _ _ data (RamfsData None 0 0)); [exact Ha|apply lookup_insert_eq]. }
    split; try done; try (unfold alen; cbn; lia); intros *; by rewrite aget_nil.
Qed.

Lemma created_intro_dir s C H d nd L name type x n A s1 s' :
  fs_ok s C H → dir_at s d nd L → made (fs_glob s) name type x n A → adds s C H s1 A →
  dir_at s' d (set_node_children (Some x) nd) (x :: L) → at_ s' x = Some (placed d nd L n) →
  (∀ y m, y ≠ d → y ≠ x → at_ (put_obj x (set_node_mount (vn_mount nd) n) s1) y = Some m →
    at_ s' y = Some (if decide (head L = Some y) then set_node_prev (Some x) m else m)) →
  relinked (put_obj x (set_node_mount (vn_mount nd) n) s1) s' (d :: x :: L) →
  dir_created s C d nd L name type s' x (blocks_of A ∪ H) (placed d nd L n).
Proof.
  intros Hok Hd Hm Ha Hd' Hx Hsib Hr. pose proof (made_node _ _ _ _ _ _ Hm) as HA.
  destruct (ad_fresh _ _ _ _ _ Ha x) as [_ Hfresh]; [by eexists|].
  pose proof (fresh_not_dir _ _ _ _ _ Hd Hfresh) as HxL.
  assert (at_ s1 x = Some n) as Hx1 by by eapply adds_at.
  split; [done| |done|..].
  - apply (rl_ok _ _ _ Hr). by eapply fs_ok_put; [apply Ha|exact Hx1|..].
  - by destruct Hm; subst.
  - by eapply made_entry.
  - intros name'. cbn [entry_named]. assert (name_at s' x = Some (name_copy name)) as ->.
    { unfold name_at. rewrite Hx. by destruct Hm. }
    destruct (decide (name' = name_copy name)) as [->|Hne]; [by rewrite decide_True|].
    rewrite decide_False by congruence. apply entry_named_ext. intros y Hy.
    destruct (dir_elem s d nd L y Hd) as [m Hm0]; [by apply elem_of_cons; right|].
    assert (x ≠ y) as Hxy by (intros ->; apply HxL, elem_of_cons; by right).
    assert (at_ (put_obj x (set_node_mount (vn_mount nd) n) s1) y = Some m) as Hy1
      by (rewrite at_put_ne by done; by eapply adds_base).
    rewrite (relinked_name _ _ _ _ _ Hr Hy1). unfold name_at. by rewrite Hy1, Hm0.
  - intros y m Hy Hm0. apply Hsib.
    + intros ->. by apply (da_self _ _ _ _ Hd).
    + intros ->. apply HxL, elem_of_cons. by right.
    + rewrite at_put_ne; [by eapply adds_base|]. intros ->. apply HxL, elem_of_cons. by right.
  - intros y o Hy Ho. assert (y ≠ x) as Hyx by (intros ->; congruence).
    rewrite (rl_frame _ _ _ Hr) by set_solver. cbn. rewrite lookup_insert_ne by done.
    rewrite (ad_mem _ _ _ _ _ Ha). rewrite lookup_union_r; [done|]. rewrite lookup_fmap, fmap_None.
    destruct (A !! y) as [p|] eqn:Hp; [|done]. destruct (ad_fresh _ _ _ _ _ Ha y) as [_ ?]; [by eexists|congruence].
  - rewrite (rl_glob _ _ _ Hr). apply (ad_glob _ _ _ _ _ Ha).
Qed.

Lemma ramfs_dir_create_wp s C H d nd L name type (Q : Z → fs S → Prop) :
  fs_ok s C H → dir_at s d nd L →
  match entry_named s L name with
  | Some x => ∀ n, at_ s x = Some n → Q VFS_EEXIST (put_obj x (ref_more n) s)
  | None => (∀ s', fs_ok s' C H → same_but_heap s s' → Q VFS_ENOMEM s') ∧
      ∀ s' x H' n, dir_created s C d nd L name type s' x H' n → Q VFS_OK s'
  end → wp (ramfs_dir_create d name type) Q s.
Proof.
  intros Hok Hd HQ. unfold ramfs_dir_create. wp_step. eapply finddir_wp; [done|].
  destruct (entry_named s L name) as [x|] eqn:He; [intros n Hn; apply wp_ret; auto|].
  destruct HQ as [HN HS]. wp_step. eapply ramfs_create_node_wp; [done|intros; apply wp_ret; auto|].
  intros x n A s1 Hx0 Hm Ha. pose proof (made_node _ _ _ _ _ _ Hm) as HA.
  destruct (ad_fresh _ _ _ _ _ Ha x) as [_ Hfresh]; [by eexists|].
  pose proof (fresh_not_dir _ _ _ _ _ Hd Hfresh) as HxL.
  assert (at_ s1 x = Some n) as Hx1 by by eapply adds_at.
  assert (dir_at s1 d nd L) as Hd1 by (eapply dir_at_keep; [|done]; intros y m _ Hy; by eapply adds_base).
  pose proof (da_node _ _ _ _ Hd1) as Hdn. wp_step. fs_step. wp_step. fs_step. wp_step.
  eapply ramfs_add_child_wp.
  - eapply dir_at_keep; [|exact Hd1]. intros y m Hy Hm1. rewrite at_put_ne; [done|]. by intros ->.
  - apply at_put_eq.
  - set_solver.
  - set_solver.
  - intros s' Hd' Hx' Hsib Hr. apply wp_ret. eapply HS. by eapply created_intro_dir.
Qed.

(** What a creation leaves. *)
Definition create_done s C H d nd L name type (r : Z) s' : Prop :=
  match entry_named s L name with
  | Some x => r = VFS_EEXIST ∧ ∃ n, at_ s x = Some n ∧ s' = put_obj x (ref_more n) s
  | None => (r = VFS_ENOMEM ∧ fs_ok s' C H ∧ same_but_heap s s') ∨
      (r = VFS_OK ∧ ∃ x H' n, dir_created s C d nd L name type s' x H' n)
  end.

(** C21. Creating a file or directory in a directory of the RAM file system.  If
    the name exists, VFS_EEXIST; the node that has it keeps the reference the
    lookup took, which nobody gives back.  Otherwise the new entry stands first
    in the list of children, a lookup finds it under its name (cut to 255
    characters) and every other name as before, a new file is empty and a new
    directory has no entries; of the objects that were there only the list head
    in the directory and the back link of the entry that was first change, and
    when memory runs out everything taken is given back. *)
Theorem ramfs_dir_create_correct s C H d nd L name type :
  fs_ok s C H → dir_at s d nd L →
  ∃ r s', ramfs_dir_create d name type s = Some (r, s') ∧ create_done s C H d nd L name type r s'.
Proof.
  intros Hok Hd. apply (wp_elim (ramfs_dir_create d name type)). eapply ramfs_dir_create_wp; [done|done|].
  unfold create_done. destruct (entry_named s L name) as [x|]; [by eauto|].
  split; [by left|]. intros s' x H' n Hc. right. eauto.
Qed.

End tree.
