(* ===== verification/RamfsUnlink.v ===== *)
(** * The RAM file system: unlinking

    Removing a file takes its node out of the list of its directory and gives
    back every block of memory it held. *)

From stdpp Require Import strings.
From S2P Require Import Prelude DList KHeap CString FsObj FsInv Ramfs RamfsThm RamfsWrite RamfsTree.

(** ** Maps without the keys of a list *)

Definition drops {A} (m : gmap Z A) (X : list Z) : gmap Z A := filter (λ p, p.1 ∉ X) m.

Lemma lookup_drops {A} (m : gmap Z A) X y : drops m X !! y = if decide (y ∈ X) then None else m !! y.
Proof.
  unfold drops. rewrite map_lookup_filter. destruct (m !! y) as [a|]; cbn; [|by case_decide].
  destruct (decide (y ∈ X)); [by rewrite option_guard_False by tauto|by rewrite option_guard_True].
Qed.

Lemma drops_nil {A} (m : gmap Z A) : drops m [] = m.
Proof. apply map_eq. intros y. rewrite lookup_drops, decide_False; [done|apply not_elem_of_nil]. Qed.

Lemma drops_ext {A} (m : gmap Z A) X Y : (∀ y, y ∈ X ↔ y ∈ Y) → drops m X = drops m Y.
Proof.
  intros HXY. apply map_eq. intros y. rewrite !lookup_drops. by apply decide_ext.
Qed.

Lemma delete_drops {A} (m : gmap Z A) X p : delete p (drops m X) = drops m (p :: X).
Proof.
  apply map_eq. intros y. rewrite (lookup_drops m (p :: X)). destruct (decide (y = p)) as [->|Hne].
  - by rewrite lookup_delete_eq, decide_True by (apply elem_of_cons; by left).
  - rewrite lookup_delete_ne, lookup_drops by done. apply decide_ext. rewrite elem_of_cons. tauto.
Qed.

Section unlink.
Context {S : Type} {KH : KHeap S} {KHL : KHeapLaws S}.
Implicit Types (s : fs S) (C : gmap Z Z) (H : blocks) (d x y p : Z) (n nd : vfs_node) (L X : list Z) (name : list Z).

(** ** Giving back the contents of a file *)

(** The objects [X] are gone, and their memory was given back. *)
Record freed s C H s' X : Prop := Freed {
  fd_ok : fs_ok s' C (drops H X);
  fd_mem : fs_mem s' = drops (fs_mem s) X;
  fd_glob : fs_glob s' = fs_glob s }.

Lemma freed_refl s C H : fs_ok s C H → freed s C H s [].
Proof. intros Hok. split; [by rewrite drops_nil|by rewrite drops_nil|done]. Qed.

Lemma freed_ext s C H s' X Y : (∀ y, y ∈ X ↔ y ∈ Y) → freed s C H s' X → freed s C H s' Y.
Proof. intros HXY [Hok Hm Hg]. split; [|rewrite Hm|done]; by rewrite <-(drops_ext _ X Y HXY). Qed.

Lemma freed_step s C H s1 s' X p :
  freed s C H s1 X → fs_ok s' C (delete p (drops H X)) → changes s1 s' p None → freed s C H s' (p :: X).
Proof.
  intros [_ Hm Hg] Hok [Hm' Hg']. split; [by rewrite <-delete_drops| |congruence].
  rewrite Hm', Hm. change (partial_alter (λ _, None) p) with (delete (M := gmap Z obj) p). apply delete_drops.
Qed.

Lemma freed_at {T : Type} {KT : Kind T} s C H s' X y : freed s C H s' X → y ∉ X → at_ (T := T) s' y = at_ s y.
Proof. intros [_ Hm _] Hy. apply at_mem. by rewrite Hm, lookup_drops, decide_False. Qed.

Lemma freed_block s C H s' X y o : freed s C H s' X → y ∉ X → fs_mem s !! y = Some o →
  ∃ t, drops H X !! y = Some (t, size_of o) ∧ home (fs_glob s) o t.
Proof.
  intros [Hok Hm Hg] Hy Ho. rewrite <-Hg. apply Hok. by rewrite Hm, lookup_drops, decide_False.
Qed.

Lemma freed_kmalloc_wp s C H s1 X p o (Q : unit → fs S → Prop) :
  freed s C H s1 X → p ∉ X → fs_mem s !! p = Some o → (∀ t, home (fs_glob s) o t → t = None) →
  (∀ s', freed s C H s' (p :: X) → Q tt s') → wp (free_kmalloc p) Q s1.
Proof.
  intros Hf Hp Ho Hh HQ. destruct (freed_block _ _ _ _ _ _ _ Hf Hp Ho) as (t & Ht & ->%Hh).
  eapply free_kmalloc_wp; [apply Hf|done|]. intros s' Hok Hch. by eapply HQ, freed_step.
Qed.

Lemma freed_to_wp s C H s1 X c p o (Q : unit → fs S → Prop) :
  freed s C H s1 X → p ∉ X → fs_mem s !! p = Some o → (∀ t, home (fs_glob s) o t → is_Some t ∧ t = c) →
  (∀ s', freed s C H s' (p :: X) → Q tt s') → wp (free_to c p) Q s1.
Proof.
  intros Hf Hp Ho Hh HQ. destruct (freed_block _ _ _ _ _ _ _ Hf Hp Ho) as (t & Ht & [[c' ->] <-]%Hh).
  eapply free_to_wp; [apply Hf|done|]. intros s' Hok Hch. by eapply HQ, freed_step.
Qed.

(** The blocks before an index. *)
Definition blocks_before (ptrs : list (option Z)) (i : Z) : list Z := omap id (take (Z.to_nat i) ptrs).

Lemma elem_of_before ptrs i p : 0 ≤ i → p ∈ blocks_before ptrs i ↔ ∃ j, j < i ∧ aget ptrs j = Some (Some p).
Proof.
  intros Hi. unfold blocks_before. rewrite elem_of_ptrs. split.
  - intros (j & Hj). rewrite aget_take in Hj by done. case_decide; [|done]. by exists j.
  - intros (j & Hlt & Hj). exists j. by rewrite aget_take, decide_True.
Qed.

Lemma free_block_wp s C H s1 data x count ptrs i (Q : unit → fs S → Prop) :
  file_blocks s data (Some x) count ptrs → 0 ≤ i < count → freed s C H s1 (blocks_before ptrs i) →
  (∀ s', freed s C H s' (blocks_before ptrs (i + 1)) → Q tt s') → wp (free_block x i) Q s1.
Proof.
  intros [F1 F2 F3 F4 F5 F6 F7] Hi Hf HQ. unfold free_block. wp_step.
  assert (∀ p, p ∈ blocks_before ptrs i → ∃ l, at_ s p = Some (l : list Z)) as Hbl.
  { intros p (j & _ & Hj)%elem_of_before; [|lia]. destruct (F6 j p Hj) as (l & Hl & _). by exists l. }
  eapply ld_wp.
  { rewrite (freed_at _ _ _ _ _ x Hf); [exact F2|]. intros Hx. destruct (Hbl x Hx) as [l Hl].
    by eapply (kinds_ne s x x l ptrs). }
  destruct (aget_is_Some ptrs i) as [e He]; [lia|]. wp_step. eapply wp_lift; [done|].
  destruct e as [p|].
  - destruct (F6 i p He) as (l & Hl%at_some & _).
    eapply freed_kmalloc_wp; [exact Hf| |exact Hl|done|].
    + intros (j & Hj & Hp)%elem_of_before; [|lia]. pose proof (F7 i j p He Hp). lia.
    + intros s' Hf'. apply HQ. eapply freed_ext; [|exact Hf']. intros y.
      rewrite elem_of_cons, !elem_of_before by lia. split.
      * intros [->|(j & Hj & Hy)]; [exists i|exists j]; split; try done; lia.
      * intros (j & Hj & Hy). destruct (decide (j = i)) as [->|Hne]; [left; congruence|].
        right. exists j. split; [lia|done].
  - apply wp_ret, HQ. eapply freed_ext; [|exact Hf]. intros y. rewrite !elem_of_before by lia. split.
    + intros (j & Hj & Hy). exists j. split; [lia|done].
    + intros (j & Hj & Hy). exists j. split; [|done]. assert (j ≠ i) by congruence. lia.
Qed.

Lemma ramfs_data_free_wp s C H data arr count ptrs (Q : unit → fs S → Prop) :
  fs_ok s C H → file_blocks s data arr count ptrs →
  (∀ s', freed s C H s' (footprint data arr ptrs) → Q tt s') → wp (ramfs_data_free (Some data)) Q s.
Proof.
  intros Hok Hf HQ. pose proof Hf as [F1 F2 F3 F4 F5 F6 F7]. unfold ramfs_data_free. wp_step. fs_step.
  cbn [rd_blocks rd_block_count]. wp_step.
  assert (∀ s1 X, freed s C H s1 X → data ∉ X → (∀ y, y ∈ data :: X ↔ y ∈ footprint data arr ptrs) →
    wp (c ← glob ramfs_data_cache; free_to c data) Q s1) as Hlast.
  { intros s1 X Hf1 Hd HX. unfold glob. wp_step. wp_step. rewrite (fd_glob _ _ _ _ _ Hf1).
    eapply freed_to_wp; [exact Hf1|done|by apply at_some in F1|by intros t []|].
    intros s' Hf'. apply HQ. by eapply freed_ext. }
  destruct arr as [x|].
  - wp_step. apply (wp_for (λ i s1, freed s C H s1 (blocks_before ptrs i))).
    + apply freed_refl, Hok.
    + intros i s1 Hi Hf1. by eapply free_block_wp.
    + intros s1 Hf1. rewrite Z.max_r in Hf1 by lia. assert (∀ y, y ∈ blocks_before ptrs count → ∃ l, at_ s y = Some (l : list Z)) as Hbl.
      { intros y (j & _ & Hj)%elem_of_before; [|lia]. destruct (F6 j y Hj) as (l & Hl & _). by exists l. }
      eapply freed_kmalloc_wp; [exact Hf1| |by apply at_some in F2|done|].
      { intros Hx. destruct (Hbl x Hx) as [l Hl]. by eapply (kinds_ne s x x l ptrs). }
      intros s2 Hf2. eapply Hlast; [exact Hf2|..].
      * intros [->|Hd]%elem_of_cons; [by eapply (kinds_ne s x x ptrs _ F2 F1)|].
        destruct (Hbl data Hd) as [l Hl]. by eapply (kinds_ne s data data l _ Hl F1).
      * intros y. change (footprint data (Some x) ptrs) with (data :: x :: omap id ptrs). rewrite !elem_of_cons, elem_of_ptrs, elem_of_before by lia.
        split; [naive_solver|]. intros [?|[?|(i & Hi)]]; [tauto|tauto|]. do 2 right. exists i. split; [by eapply F5|done].
  - apply wp_ret. cbn in F2. subst ptrs. eapply Hlast; [by apply freed_refl|apply not_elem_of_nil|done].
Qed.

(** ** Taking a child out *)

(** The first half: the node before the child, or the directory, skips it. *)
Lemma skip_child_wp s d nd A x B (Q : unit → fs S → Prop) :
  dir_at s d nd (A ++ x :: B) →
  (∀ s', at_ s' d = Some (set_node_children (head (A ++ B)) nd) →
    (∀ y, node_links s' y = if decide (last A = Some y) then set_nx (head B) <$> node_links s y else node_links s y) →
    at_ s' x = at_ (T := vfs_node) s x → relinked s s' (d :: A ++ x :: B) → Q tt s') →
  wp (match last A with
      | Some p => upd p (set_node_next (head B))
      | None => upd d (set_node_children (head B))
      end) Q s.
Proof.
  intros [Hd Ht Hh HL Hnd Hself] HQ. assert (d ≠ x) as Hdx by (intros ->; apply Hself; set_solver).
  destruct (last A) as [a|] eqn:Ha.
  - assert (a ∈ A) as HaA by by apply last_Some_elem_of.
    destruct (dlseg_node _ _ _ _ a HL) as [n Hn]; [set_solver|].
    assert (a ≠ x) as Hax by (intros ->; apply NoDup_app in Hnd as (_ & Hdis & _); apply (Hdis x); set_solver).
    assert (a ≠ d) as Had by (intros ->; apply Hself; set_solver).
    fs_step. apply HQ.
    + rewrite at_put_ne, Hd by done. destruct A as [|a' A]; [done|]. cbn [app head] in *. rewrite <-Hh. by destruct nd.
    + intros y. rewrite node_links_put. destruct (decide (y = a)) as [->|Hy].
      * rewrite decide_True by done. unfold node_links. by rewrite Hn.
      * by rewrite decide_False by congruence.
    + by apply at_put_ne.
    + eapply relinked_put; [done|done|set_solver].
  - apply last_None in Ha as ->. fs_step. apply HQ.
    + by rewrite at_put_eq.
    + intros y. rewrite node_links_put. rewrite (decide_False (P := None = Some y)) by done.
      case_decide as Hy; [|done]. subst. unfold node_links. by rewrite Hd.
    + by apply at_put_ne.
    + eapply relinked_put; [done|done|set_solver].
Qed.

Definition loose n : vfs_node := set_node_prev None (set_node_next None (set_node_parent None n)).

Lemma ramfs_remove_child_wp s d nd A x B n (Q : unit → fs S → Prop) :
  dir_at s d nd (A ++ x :: B) → at_ s x = Some n →
  (∀ s', dir_at s' d (set_node_children (head (A ++ B)) nd) (A ++ B) → at_ s' x = Some (loose n) →
    relinked s s' (d :: A ++ x :: B) → Q tt s') →
  wp (ramfs_remove_child d x) Q s.
Proof.
  intros Hdir Hx HQ. pose proof Hdir as [Hd Ht Hh HL Hnd Hself].
  assert (NoDup (A ++ B) ∧ x ∉ A ++ B) as [HndAB HxAB].
  { rewrite <-Permutation_middle in Hnd. by apply NoDup_cons in Hnd as [? ?]. }
  assert (vn_prev n = last A ∧ vn_next n = head B) as [Hp Hnx].
  { apply dlist_links in HL. unfold node_links in HL. rewrite Hx in HL. cbn in HL. by simplify_eq. }
  assert (∀ b, head B = Some b → b ∈ B) as Hin by (intros b Hb; by apply head_Some_elem_of).
  assert (head B ≠ Some d ∧ head B ≠ Some x) as [Hhd Hhx] by (split; intros Hb%Hin; set_solver).
  unfold ramfs_remove_child. wp_step. fs_step. rewrite Hp, Hnx. wp_step. eapply skip_child_wp; [done|].
  intros s1 Hd1 Hlk1 Hx1 Hr1. wp_step. apply upd_prev_wp.
  { intros b Hb. destruct (dlseg_node _ _ _ _ b HL) as [m Hm]; [set_solver|].
    destruct (rl_node _ _ _ Hr1 b m Hm) as (m' & Hm' & _). by exists m'. }
  set (s2 := put_prev (head B) (last A) s1).
  assert (at_ s2 x = Some n) as Hx2 by (unfold s2; rewrite at_put_prev_ne by done; congruence).
  eapply upd_wp; [exact Hx2|]. fold (loose n). set (s3 := put_obj x (loose n) s2).
  assert (∀ y, y ≠ x → node_links s3 y = if decide (head B = Some y) then set_pr (last A) <$> node_links s1 y
    else node_links s1 y) as Hlk.
  { intros y Hy. unfold s3. rewrite node_links_put, decide_False by done. apply node_links_put_prev. }
  assert (∀ y, last A = Some y → head B ≠ Some y) as Hdis.
  { intros y Hy%last_Some_elem_of Hb%Hin. apply NoDup_app in HndAB as (_ & Hdis & _). by apply (Hdis y). }
  apply HQ; [split| |].
  - unfold s3, s2. rewrite at_put_ne by set_solver. by rewrite at_put_prev_ne.
  - done.
  - done.
  - eapply (dlist_remove (node_links s)); [exact HL|done|..].
    + intros a Ha. assert (a ≠ x) by (intros ->; apply last_Some_elem_of in Ha; set_solver).
      rewrite Hlk, decide_False by auto. rewrite Hlk1. by rewrite decide_True.
    + intros b Hb. assert (b ≠ x) by (intros ->; done). rewrite Hlk, decide_True by done.
      rewrite Hlk1, decide_False; [done|]. intros Hl. by apply (Hdis b).
    + intros y Hy Hl Hb. assert (y ≠ x) by set_solver. rewrite Hlk, decide_False by done. by rewrite Hlk1, decide_False.
  - done.
  - set_solver.
  - apply at_put_eq.
  - eapply relinked_steps; [exact Hr1|].
    eapply relinked_steps; [apply (put_prev_relinked s1 (head B) (last A)); set_solver|].
    eapply relinked_put; [exact Hx2|done|set_solver].
Qed.

(** ** Unlinking *)

(** The node keeps its data in the objects [X]. *)
Definition holds_data s n X : Prop :=
  ∃ data arr count ptrs, vn_private n = Some data ∧ X = footprint data arr ptrs ∧ file_blocks s data arr count ptrs.

Lemma holds_data_kind s n X y : holds_data s n X → y ∈ X → ∃ o, fs_mem s !! y = Some o ∧ is_data o.
Proof. intros (data & arr & count & ptrs & _ & -> & Hf). by eapply footprint_kind. Qed.

Lemma node_not_data s n X x m : holds_data s n X → at_ s x = Some (m : vfs_node) → x ∉ X.
Proof.
  intros Hh Hx%at_some Hin. destruct (holds_data_kind _ _ _ _ Hh Hin) as (o & Ho & Hd). rewrite Hx in Ho. by simplify_eq.
Qed.

Lemma holds_data_relinked s s' P n n' X :
  relinked s s' P → (∀ y, y ∈ P → ∃ m, at_ s y = Some (m : vfs_node)) → vn_private n' = vn_private n →
  holds_data s n X → holds_data s' n' X.
Proof.
  intros Hr HP Hpr Hh. pose proof Hh as (data & arr & count & ptrs & Hp & HX & Hf).
  exists data, arr, count, ptrs. rewrite Hpr. split_and!; [done|done|].
  eapply file_blocks_frame; [|done]. intros y Hy. apply (rl_frame _ _ _ Hr). intros Hin.
  destruct (HP y Hin) as [m Hm]. eapply (node_not_data s n X y m Hh Hm). by rewrite HX.
Qed.

(** vfs_node_unref, when the objects [X] were given back before. *)
Lemma freed_unref_wp s C H s1 X x n (Q : unit → fs S → Prop) :
  freed s C H s1 X → x ∉ X → at_ s x = Some n → 0 < vn_ref_count n < 2 ^ 32 →
  (vn_ref_count n = 1 → ∀ s', freed s C H s' (x :: X) → Q tt s') →
  (1 < vn_ref_count n → Q tt (put_obj x (set_node_ref_count (vn_ref_count n - 1) n) s1)) →
  wp (vfs_node_unref (Some x)) Q s1.
Proof.
  intros Hf Hx Hn Hr H1 H2. assert (at_ s1 x = Some n) as Hn1 by by rewrite (freed_at _ _ _ _ _ _ Hf).
  unfold vfs_node_unref. wp_step. fs_step. rewrite wrap_small by lia. wp_step. eapply ld_wp; [apply at_put_eq|].
  cbn [vn_ref_count set_node_ref_count]. destruct (Z.eqb_spec (vn_ref_count n - 1) 0) as [Hz|Hnz].
  - unfold vfs_node_free, glob. wp_step. wp_step. cbn [fs_glob put_obj set_mem].
    destruct (freed_block _ _ _ _ _ x (ONode n) Hf Hx) as (t & Ht & [[c ->] Hc]); [by apply at_some in Hn|].
    rewrite (fd_glob _ _ _ _ _ Hf), <-Hc.
    eapply free_to_wp; [by eapply fs_ok_put; [apply Hf|exact Hn1|..]|exact Ht|].
    intros s' Hok Hch. apply H1; [lia|]. eapply freed_step; [exact Hf|done|].
    destruct Hch as [Hm Hg]. split; [|done]. rewrite Hm. cbn.
    change (partial_alter (λ _, None) x) with (delete (M := gmap Z obj) x). by rewrite delete_insert_eq.
  - apply wp_ret. apply H2. lia.
Qed.

Record file_unlinked s C H d nd A x B n X s' : Prop := FileUnlinked {
  fu_ok : fs_ok s' C (drops H (if decide (vn_ref_count n = 1) then x :: X else X));
  fu_dir : dir_at s' d (set_node_children (head (A ++ B)) nd) (A ++ B);
  fu_lookup : ∀ name, entry_named s' (A ++ B) name = entry_named s (A ++ B) name;
  fu_data : ∀ y, y ∈ X → fs_mem s' !! y = None;
  fu_node : if decide (vn_ref_count n = 1) then fs_mem s' !! x = None
    else at_ s' x = Some (set_node_ref_count (vn_ref_count n - 1) (loose n));
  fu_frame : ∀ y, y ∉ d :: A ++ x :: B → y ∉ X → fs_mem s' !! y = fs_mem s !! y;
  fu_glob : fs_glob s' = fs_glob s }.

(** From the list without the child to the end. *)
Lemma unlinked_intro s C H d nd A x B n X s1 s' :
  dir_at s d nd (A ++ x :: B) → at_ s x = Some n → holds_data s1 (loose n) X →
  dir_at s1 d (set_node_children (head (A ++ B)) nd) (A ++ B) → relinked s s1 (d :: A ++ x :: B) →
  fs_ok s' C (drops H (if decide (vn_ref_count n = 1) then x :: X else X)) →
  (∀ y, y ≠ x → fs_mem s' !! y = if decide (y ∈ X) then None else fs_mem s1 !! y) → x ∉ X →
  (if decide (vn_ref_count n = 1) then fs_mem s' !! x = None
   else at_ s' x = Some (set_node_ref_count (vn_ref_count n - 1) (loose n))) →
  fs_glob s' = fs_glob s1 → file_unlinked s C H d nd A x B n X s'.
Proof.
  intros Hd Hx Hh Hd1 Hr Hok Hm HxX Hn Hg. pose proof (da_nodup _ _ _ _ Hd) as Hnd.
  pose proof (da_self _ _ _ _ Hd) as Hself. rewrite <-Permutation_middle in Hnd. apply NoDup_cons in Hnd as [HxAB _].
  assert (∀ y m, y ∈ d :: A ++ B → at_ s1 y = Some (m : vfs_node) → at_ s' y = Some m) as Hkeep.
  { intros y m Hy Hym. rewrite <-Hym. apply at_mem. rewrite Hm by set_solver.
    rewrite decide_False; [done|]. by eapply node_not_data. }
  split; [done|by eapply dir_at_keep| | |done| |].
  - intros name. apply entry_named_ext. intros y Hy.
    destruct (dir_elem s d nd _ y Hd) as [m Hym]; [set_solver|].
    rewrite <-(relinked_name _ _ _ _ _ Hr Hym). destruct (rl_node _ _ _ Hr y m Hym) as (m' & Hm' & _).
    unfold name_at. rewrite (Hkeep y m'), Hm'; [done|set_solver|done].
  - intros y Hy. rewrite Hm by (intros ->; done). by rewrite decide_True.
  - intros y Hy HyX. rewrite Hm by set_solver. rewrite decide_False by done. by apply (rl_frame _ _ _ Hr).
  - rewrite Hg. apply (rl_glob _ _ _ Hr).
Qed.

Lemma ramfs_dir_unlink_wp s C H d nd L name (Q : Z → fs S → Prop) :
  fs_ok s C H → dir_at s d nd L →
  match entry_named s L name with
  | None => Q VFS_ENOENT s
  | Some x => ∀ n, at_ s x = Some n →
      if vn_type n =? VFS_DIR then Q VFS_EISDIR s
      else if 0 <? vn_open_count n then Q VFS_EBUSY s
      else ∃ X, holds_data s n X ∧ 0 < vn_ref_count n < 2 ^ 32 ∧
        ∀ A B s', L = A ++ x :: B → file_unlinked s C H d nd A x B n X s' → Q VFS_OK s'
  end → wp (ramfs_dir_unlink d name) Q s.
Proof.
  intros Hok Hd HQ. unfold ramfs_dir_unlink. wp_step. eapply child_named_wp; [done|].
  destruct (entry_named s L name) as [x|] eqn:He; [|by apply wp_ret].
  apply entry_named_elem in He as [(A & B & ->)%list_elem_of_split _].
  destruct (dir_elem s d nd _ x Hd) as [n Hn]; [set_solver|]. specialize (HQ n Hn). wp_step. fs_step.
  destruct (vn_type n =? VFS_DIR); [by apply wp_ret|]. destruct (0 <? vn_open_count n); [by apply wp_ret|].
  destruct HQ as (X & Hh & Hrc & HQ). wp_step. eapply ramfs_remove_child_wp; [done..|].
  intros s1 Hd1 Hx1 Hr. wp_step. fs_step.
  assert (holds_data s1 (loose n) X) as Hh1.
  { eapply (holds_data_relinked s); [done| |done|done]. intros y Hy. by eapply dir_elem. }
  assert (x ∉ X) as HxX by by eapply node_not_data.
  pose proof Hh1 as (data & arr & count & ptrs & Hp & HX & Hf). rewrite Hp. wp_step.
  eapply ramfs_data_free_wp; [by apply (rl_ok _ _ _ Hr)|done|]. rewrite <-HX. intros s2 Hf2. wp_step.
  eapply freed_unref_wp; [exact Hf2|done|exact Hx1|done|..].
  - intros H1 s' [Hok' Hm' Hg']. apply wp_ret. apply (HQ A B); [done|].
    eapply unlinked_intro; try done; rewrite ?decide_True by done; [done|..].
    + intros y Hy. rewrite Hm', lookup_drops. apply decide_ext. rewrite elem_of_cons. tauto.
    + rewrite Hm', lookup_drops. rewrite decide_True; [done|set_solver].
  - intros H1. cbn in H1. apply wp_ret. apply (HQ A B); [done|].
    eapply unlinked_intro; try done; rewrite ?decide_False by lia.
    + eapply (fs_ok_put _ _ _ x (loose n)); [apply Hf2| |done|done]. by rewrite (freed_at _ _ _ _ _ _ Hf2).
    + intros y Hy. cbn. rewrite lookup_insert_ne by done. by rewrite (fd_mem _ _ _ _ _ Hf2), lookup_drops.
    + apply at_put_eq.
    + apply (fd_glob _ _ _ _ _ Hf2).
Qed.

(** What unlinking leaves. *)
Definition unlink_done s C H d nd L name (r : Z) s' : Prop :=
  match entry_named s L name with
  | None => r = VFS_ENOENT ∧ s' = s
  | Some x => ∃ n, at_ s x = Some n ∧
      if vn_type n =? VFS_DIR then r = VFS_EISDIR ∧ s' = s
      else if 0 <? vn_open_count n then r = VFS_EBUSY ∧ s' = s
      else r = VFS_OK ∧ ∃ A B X, L = A ++ x :: B ∧ holds_data s n X ∧ file_unlinked s C H d nd A x B n X s'
  end.

(** C20. Unlinking in a directory of the RAM file system: VFS_ENOENT for an
    unknown name, VFS_EISDIR for a directory and VFS_EBUSY for an open file
    change nothing; otherwise the entry leaves the list of children, all other
    names are found as before, all memory of the contents is given back, and
    that of the node too if nobody else refers to it; nothing else changes. *)
Theorem ramfs_dir_unlink_correct s C H d nd L name :
  fs_ok s C H → dir_at s d nd L →
  (∀ x n, entry_named s L name = Some x → at_ s x = Some n → vn_type n ≠ VFS_DIR →
    (∃ X, holds_data s n X) ∧ 0 < vn_ref_count n < 2 ^ 32) →
  ∃ r s', ramfs_dir_unlink d name s = Some (r, s') ∧ unlink_done s C H d nd L name r s'.
Proof.
  intros Hok Hd Hall. apply (wp_elim (ramfs_dir_unlink d name)). eapply ramfs_dir_unlink_wp; [done|done|].
  unfold unlink_done. destruct (entry_named s L name) as [x|] eqn:He; [|done]. intros n Hn.
  destruct (Z.eqb_spec (vn_type n) VFS_DIR) as [Ht|Ht]; [exists n; by rewrite Ht|].
  destruct (Hall x n eq_refl Hn Ht) as [[X Hh] Hrc]. apply Z.eqb_neq in Ht.
  destruct (0 <? vn_open_count n) eqn:Ho; [exists n; by rewrite Ht, Ho|].
  exists X. split_and!; [done|lia|lia|]. intros A B s' -> Hu. exists n. rewrite Ht, Ho. split_and!; [done|done|].
  by exists A, B, X.
Qed.

End unlink.
