(* ===== verification/VfsLookup.v ===== *)
(** * Path resolution

    vfs_lookup (fs/vfs.c) in a tree of the RAM file system follows the
    components of a path one by one, and leaves exactly one reference, on the
    node it found. *)

From Stdlib Require Import Ascii.
From stdpp Require Import strings.
From S2P Require Import Prelude DList KHeap CString FsObj FdTable Ramfs Vfs VfsFile FsInv.
From S2P Require Import RamfsThm RamfsTree.

(** ** Paths *)

(** The pieces between the slashes. *)
Fixpoint split_path (p : list Z) : list (list Z) :=
  match p with
  | [] => [[]]
  | c :: p' =>
      if c =? slash then [] :: split_path p'
      else match split_path p' with w :: ws => (c :: w) :: ws | [] => [[c]] end
  end.

(** The components of a path: the pieces that are not empty. *)
Definition components (p : list Z) : list (list Z) := filter (λ w, w ≠ []) (split_path p).

Lemma components_slash p : components (slash :: p) = components p.
Proof. unfold components. cbn [split_path]. rewrite Z.eqb_refl. apply filter_cons_False. tauto. Qed.

Lemma components_skip p : components (skip_slashes p) = components p.
Proof.
  induction p as [|c p IH]; [done|]. cbn [skip_slashes]. destruct (Z.eqb_spec c slash) as [->|]; [|done].
  by rewrite components_slash.
Qed.

(** The first piece and what follows its slash. *)
Lemma split_path_word p :
  ∃ w rest, p = w ++ rest ∧ Forall (λ c, c ≠ slash) w ∧
    ((rest = [] ∧ split_path p = [w]) ∨ ∃ r, rest = slash :: r ∧ split_path p = w :: split_path r).
Proof.
  induction p as [|c p (w & rest & Hp & Hw & Hs)]; [exists [], []; split_and!; [done|done|by left]|].
  cbn [split_path]. destruct (Z.eqb_spec c slash) as [->|Hc].
  - exists [], (slash :: p). split_and!; [done|done|]. right. by exists p.
  - exists (c :: w), rest. split_and!; [by rewrite Hp|by constructor|].
    destruct Hs as [[-> ->]|(r & -> & ->)]; [by left|right; by exists r].
Qed.

Lemma component_word n w rest :
  Forall (λ c, c ≠ slash) w → (rest = [] ∨ ∃ r, rest = slash :: r) → (length w ≤ n)%nat → component n (w ++ rest) = w.
Proof.
  intros Hw Hr. revert n. induction Hw as [|c w Hc Hw IH]; intros n Hn.
  - cbn. destruct n; [done|]. destruct Hr as [->|(r & ->)]; [done|]. cbn. by rewrite Z.eqb_refl.
  - destruct n as [|n]; [cbn in Hn; lia|]. cbn. rewrite (proj2 (Z.eqb_neq _ _)) by done.
    rewrite IH; [done|cbn in Hn; lia].
Qed.

Definition short (p : list Z) : Prop := Forall (λ w, (length w ≤ Z.to_nat VFS_NAME_MAX)%nat) (components p).

(** One turn of the loop takes off one component. *)
Lemma next_component p :
  short p →
  match skip_slashes p with
  | [] => components p = []
  | c :: p' => let name := component (Z.to_nat VFS_NAME_MAX) (c :: p') in
      name ≠ [] ∧ components p = name :: components (drop (length name) (c :: p')) ∧
      short (drop (length name) (c :: p'))
  end.
Proof.
  unfold short. rewrite <-(components_skip p). set (q := skip_slashes p). intros Hs.
  assert (∀ c q', q = c :: q' → c ≠ slash) as Hhd.
  { unfold q. clear. induction p as [|a p IH]; [done|]. cbn. destruct (Z.eqb_spec a slash); [done|].
    intros c q' [= <- <-]. done. }
  clearbody q. destruct q as [|c q']; [done|]. specialize (Hhd c q' eq_refl). cbv zeta.
  destruct (split_path_word (c :: q')) as (w & rest & Hq & Hw & Hsp).
  assert (w ≠ []) as Hne.
  { intros ->. cbn in Hq. destruct Hsp as [[-> _]|(r & -> & _)]; [done|]. by injection Hq as -> _. }
  assert (components (c :: q') = w :: components rest) as Hc.
  { unfold components at 1. destruct Hsp as [[-> ->]|(r & -> & ->)].
    - by rewrite filter_cons_True.
    - by rewrite components_slash, filter_cons_True. }
  rewrite Hc in Hs. apply Forall_cons in Hs as [Hlen Hs].
  assert (component (Z.to_nat VFS_NAME_MAX) (c :: q') = w) as ->.
  { rewrite Hq. apply component_word; [done| |done]. destruct Hsp as [[-> _]|(r & -> & _)]; eauto. }
  rewrite Hc, Hq, drop_app_length. done.
Qed.

Section lookup.
Context {S : Type} {KH : KHeap S}.
Implicit Types (s : fs S) (x y : Z) (n m : vfs_node) (L : list Z) (name : list Z).

Variable other : Z → node_ops S.
Variable other_fs : Z → fs_ops S.

#[local] Instance lookup_drivers : Drivers S := kernel_drivers other other_fs.

(** ** The tree *)

(** Directories are lists of nodes, parents are nodes, and the reference counts
    leave room for the references of a lookup. *)
Record tree_ok s : Prop := TreeOk {
  to_dir : ∀ x n, at_ s x = Some n → vn_type n = VFS_DIR → vn_ops n = Some ramfs_dir_ops ∧ ∃ L, dir_at s x n L;
  to_parent : ∀ x n y, at_ s x = Some n → vn_parent n = Some y → ∃ m, at_ s y = Some (m : vfs_node);
  to_ref : ∀ x n, at_ s x = Some n → 0 < vn_ref_count n < 2 ^ 32 - 2 }.

Fixpoint siblings (fuel : nat) s (o : option Z) : list Z :=
  match fuel, o with
  | Datatypes.S fuel', Some x => x :: siblings fuel' s (at_ s x ≫= vn_next)
  | _, _ => []
  end.

Definition children s n : list Z := siblings (size (fs_mem s)) s (vn_children n).

Lemma siblings_list fuel s pr L : dlseg (node_links s) pr L None → (length L ≤ fuel)%nat → siblings fuel s (head L) = L.
Proof.
  revert fuel pr. induction L as [|x L IH]; intros fuel pr; [by destruct fuel|]. intros [Hx HL] Hf.
  destruct fuel as [|fuel]; [cbn in Hf; lia|]. cbn [head siblings]. f_equal. unfold node_links in Hx.
  destruct (at_ s x) as [n|]; [|done]. cbn in Hx. injection Hx as _ Hnx. cbn. rewrite Hnx, or_else_None.
  eapply IH; [done|cbn in Hf; lia].
Qed.

Lemma children_list s x n L : dir_at s x n L → children s n = L.
Proof.
  intros Hd. unfold children. rewrite (da_head _ _ _ _ Hd). eapply siblings_list; [apply Hd|by eapply dir_fuel].
Qed.

(** One component, and a whole path, looked up in a state. *)
Definition resolve_in s x name : option Z :=
  match at_ s x with
  | None => None
  | Some n =>
      if negb (vn_type n =? VFS_DIR) then None
      else if decide (name = dot) then Some x
      else if decide (name = dotdot) then Some (match vn_parent n with Some p => p | None => x end)
      else entry_named s (children s n) name
  end.

Fixpoint resolve s x (names : list (list Z)) : option Z :=
  match names with
  | [] => Some x
  | name :: names' => match resolve_in s x name with Some y => resolve s y names' | None => None end
  end.

Lemma resolve_in_node s x name y : tree_ok s → resolve_in s x name = Some y → ∃ n, at_ s y = Some (n : vfs_node).
Proof.
  intros Ht. unfold resolve_in. destruct (at_ s x) as [n|] eqn:Hx; [|done].
  destruct (Z.eqb_spec (vn_type n) VFS_DIR) as [Hd|]; [|done]. cbn [negb].
  case_decide; [intros [= <-]; by exists n|]. case_decide.
  - destruct (vn_parent n) as [p|] eqn:Hp; intros [= <-]; [by eapply to_parent|by exists n].
  - intros [Hy _]%entry_named_elem. destruct (to_dir _ Ht x n Hx Hd) as [_ [L HL]].
    rewrite (children_list _ _ _ _ HL) in Hy. eapply dir_elem; [done|]. apply elem_of_cons. by right.
Qed.

(** ** References *)

Definition refd x s : fs S := match at_ s x with Some n => put_obj x (ref_more n) s | None => s end.

Lemma at_refd s x y n : at_ s y = Some n → at_ (refd x s) y = Some (if decide (y = x) then ref_more n else n).
Proof.
  intros Hy. unfold refd. destruct (decide (y = x)) as [->|Hne]; [rewrite Hy; apply at_put_eq|].
  destruct (at_ s x); [|done]. by rewrite at_put_ne.
Qed.

Lemma name_refd s x y : name_at (refd x s) y = name_at s y.
Proof.
  unfold refd. destruct (at_ s x) as [n|] eqn:Hn; [|done]. unfold name_at.
  destruct (decide (y = x)) as [->|Hne]; [by rewrite at_put_eq, Hn|by rewrite at_put_ne].
Qed.

Lemma links_refd s x y : node_links (refd x s) y = node_links s y.
Proof.
  unfold refd. destruct (at_ s x) as [n|] eqn:Hn; [|done]. rewrite node_links_put.
  case_decide; [|done]. subst. unfold node_links. by rewrite Hn.
Qed.

Lemma dir_refd s x y n L : dir_at s y n L → dir_at (refd x s) y (if decide (y = x) then ref_more n else n) L.
Proof.
  intros [Hd Ht Hh HL Hnd Hself]. split; [by apply at_refd|by case_decide|by case_decide| |done|done].
  eapply dlseg_ext; [|exact HL]. intros z _. apply links_refd.
Qed.

Lemma node_ref_wp s x n (Q : unit → fs S → Prop) :
  at_ s x = Some n → Q tt (refd x s) → wp (vfs_node_ref (Some x)) Q s.
Proof. intros Hx HQ. unfold refd in HQ. rewrite Hx in HQ. unfold vfs_node_ref. by fs_step. Qed.

Lemma count_back r : 0 < r < 2 ^ 32 - 2 →
  (r +u32 1) -u32 1 = r ∧ ((r +u32 1) +u32 1) -u32 1 = r +u32 1 ∧ r +u32 1 = r + 1.
Proof.
  intros Hr. rewrite (wrap_small 32 (r + 1)), (wrap_small 32 (r + 1 + 1)) by lia.
  rewrite (wrap_small 32 (r + 1 - 1)), (wrap_small 32 (r + 1 + 1 - 1)) by lia. lia.
Qed.

(** Giving up the reference taken first leaves the one taken last. *)
Lemma node_unref_wp s x n y m (Q : unit → fs S → Prop) :
  at_ s x = Some n → at_ s y = Some m → 0 < vn_ref_count n < 2 ^ 32 - 2 → Q tt (refd y s) →
  wp (vfs_node_unref (Some x)) Q (refd y (refd x s)).
Proof.
  intros Hx Hy Hr HQ. destruct (count_back _ Hr) as (E1 & E2 & E3).
  unfold vfs_node_unref. wp_step. unfold refd at 2. rewrite Hx.
  destruct (decide (x = y)) as [<-|Hne].
  - unfold refd at 1. rewrite at_put_eq, put_put. eapply upd_wp; [apply at_put_eq|].
    rewrite put_put. wp_step. eapply ld_wp; [apply at_put_eq|]. unfold ref_more.
    cbn [vn_ref_count set_node_ref_count]. rewrite E2. rewrite (proj2 (Z.eqb_neq _ _)) by lia.
    apply wp_ret. unfold refd, ref_more in HQ. by rewrite Hx in HQ.
  - unfold refd at 1. rewrite at_put_ne, Hy, put_comm by done. eapply upd_wp; [apply at_put_eq|].
    rewrite put_put. wp_step. eapply ld_wp; [apply at_put_eq|]. unfold ref_more.
    cbn [vn_ref_count set_node_ref_count]. rewrite E1. rewrite (proj2 (Z.eqb_neq _ _)) by lia.
    apply wp_ret. rewrite put_same; [by unfold refd, ref_more in HQ; rewrite Hy in HQ|].
    rewrite at_put_ne, Hx by done. by destruct n.
Qed.

Lemma node_unref_back_wp s x n (Q : unit → fs S → Prop) :
  at_ s x = Some n → 0 < vn_ref_count n < 2 ^ 32 - 2 → Q tt s → wp (vfs_node_unref (Some x)) Q (refd x s).
Proof.
  intros Hx Hr HQ. destruct (count_back _ Hr) as (E1 & _ & _).
  unfold refd. rewrite Hx. unfold vfs_node_unref. wp_step. eapply upd_wp; [apply at_put_eq|].
  rewrite put_put. wp_step. eapply ld_wp; [apply at_put_eq|]. unfold ref_more. cbn [vn_ref_count set_node_ref_count].
  rewrite E1, (proj2 (Z.eqb_neq _ _)) by lia. apply wp_ret.
  rewrite put_same; [done|]. rewrite Hx. by destruct n.
Qed.

(** ** The loop *)

Lemma lookup_in_dir_wp s x n name (Q : option Z → fs S → Prop) :
  tree_ok s → at_ s x = Some n →
  Q (resolve_in s x name) (match resolve_in s x name with Some y => refd y (refd x s) | None => refd x s end) →
  wp (lookup_in_dir (Some x) name) Q (refd x s).
Proof.
  intros Ht Hx HQ. unfold lookup_in_dir. pose proof (at_refd s x x n Hx) as Hx1. rewrite decide_True in Hx1 by done.
  wp_step. fs_step. unfold resolve_in in HQ. rewrite Hx in HQ.
  change (vn_type (ref_more n)) with (vn_type n). change (vn_parent (ref_more n)) with (vn_parent n).
  change (vn_ops (ref_more n)) with (vn_ops n).
  destruct (Z.eqb_spec (vn_type n) VFS_DIR) as [Hd|]; [|by apply wp_ret]. cbn [negb] in *.
  destruct (to_dir _ Ht x n Hx Hd) as [Hops [L HL]].
  case_decide; [|case_decide].
  - wp_step. eapply node_ref_wp; [done|]. by apply wp_ret.
  - wp_step. assert (∃ m, at_ s (match vn_parent n with Some p => p | None => x end) = Some (m : vfs_node)) as [m Hm].
    { destruct (vn_parent n) as [p|] eqn:Hp; [by eapply to_parent|by exists n]. }
    eapply node_ref_wp; [by apply at_refd|]. by apply wp_ret.
  - rewrite Hops. cbn. rewrite (children_list _ _ _ _ HL) in HQ. eapply finddir_wp; [by eapply dir_refd|].
    rewrite (entry_named_ext s) by (intros; apply name_refd). unfold refd at 1 in HQ.
    destruct (entry_named s L name) as [y|] eqn:Hy; [|done]. intros m Hm. by rewrite Hm in HQ.
Qed.

Lemma lookup_loop_wp fuel s x n p (Q : option Z → fs S → Prop) :
  tree_ok s → at_ s x = Some n → short p → (length p ≤ fuel)%nat →
  Q (resolve s x (components p)) (match resolve s x (components p) with Some y => refd y s | None => s end) →
  wp (lookup_loop fuel x p) Q (refd x s).
Proof.
  intros Ht. revert x n p. induction fuel as [|fuel IH]; intros x n p Hx Hs Hf HQ;
    pose proof (next_component p Hs) as Hn; cbn [lookup_loop].
  - destruct p; [|cbn in Hf; lia]. cbn [skip_slashes]. apply wp_ret. exact HQ.
  - assert (length (skip_slashes p) ≤ length p)%nat as Hlen.
    { clear. induction p as [|c p IH]; [done|]. cbn. destruct (c =? slash); cbn; lia. }
    destruct (skip_slashes p) as [|c p'] eqn:Hsk; [rewrite Hn in HQ; by apply wp_ret|]. cbv zeta in Hn.
    set (name := component _ (c :: p')) in *. destruct Hn as (Hne & Hc & Hs'). rewrite Hc in HQ. cbn [resolve] in HQ.
    wp_step. eapply lookup_in_dir_wp; [done|done|]. wp_step.
    destruct (resolve_in s x name) as [y|] eqn:Hy.
    + destruct (resolve_in_node _ _ _ _ Ht Hy) as [m Hm]. eapply node_unref_wp; [done|done|by eapply to_ref|].
      eapply IH; [done|done| |done]. rewrite length_drop. destruct name; [done|]. cbn [length] in *. lia.
    + eapply node_unref_back_wp; [done|by eapply to_ref|]. by apply wp_ret.
Qed.

(** C19. vfs_lookup in a well-formed tree of the RAM file system: the node a path leads to is
    the one its components lead to one after another from the root, [.] and
    [..] included, for every path whose components have at most 255 characters;
    the lookup takes one reference to that node and every reference it took on
    the way is given back, so that nothing else changes. *)
Theorem vfs_lookup_correct s root n path :
  tree_ok s → vfs_root (fs_glob s) = Some root → at_ s root = Some n → short path →
  let r := resolve s root (components path) in
  vfs_lookup (Some path) s = Some (r, match r with Some y => refd y s | None => s end).
Proof.
  intros Ht Hr Hn Hs r.
  destruct (wp_elim (vfs_lookup (Some path)) (λ a s', a = r ∧ s' = match r with Some y => refd y s | None => s end) s)
    as (a & s' & Hrun & -> & ->); [|done].
  unfold vfs_lookup, glob. wp_step. wp_step. rewrite Hr. destruct (decide (path = [] ∨ path = root_path)) as [Hp|Hp].
  - wp_step. eapply node_ref_wp; [done|]. apply wp_ret. unfold r. by destruct Hp as [-> | ->].
  - wp_step. eapply node_ref_wp; [done|]. unfold r in *. destruct path as [|c p]; [tauto|].
    destruct (Z.eqb_spec c slash) as [->|Hc].
    + unfold short in Hs. rewrite components_slash in Hs |- *. eapply lookup_loop_wp; [done|done|done|cbn; lia|done].
    + by eapply lookup_loop_wp.
Qed.

End lookup.

(** * Access permissions

    vfs_check_permission (fs/vfs.c) against the rule of the nine permission
    bits. *)

(** ** The rule *)

(** The position of the three bits that apply to a process: those of the owner,
    of the group or of the others, the first that fits. *)
Definition class_shift (p : process) (n : vfs_node) : Z :=
  if p_euid p =? vn_uid n then 6 else if p_egid p =? vn_gid n then 3 else 0.

(** What an open mode asks for. *)
Definition wants_write (mode : Z) : bool := has mode O_RDWR || has mode O_WRONLY.
Definition wants_read (mode : Z) : bool := has mode O_RDWR || negb (has mode O_WRONLY).

(** Bit 2 of a class permits reading, bit 1 writing; user 0 may do everything. *)
Definition permitted (p : process) (n : vfs_node) (mode : Z) : bool :=
  (p_euid p =? 0) ||
  ((negb (wants_read mode) || Z.testbit (vn_permissions n) (class_shift p n + 2)) &&
   (negb (wants_write mode) || Z.testbit (vn_permissions n) (class_shift p n + 1))).

(** ** The test of the code *)

Lemma low_bits q : ∃ r, 0 ≤ r < 8 ∧ Z.land q 7 = r ∧ Z.testbit q 2 = Z.testbit r 2 ∧ Z.testbit q 1 = Z.testbit r 1.
Proof.
  exists (q mod 8). split; [apply Z.mod_pos_bound; lia|]. change 7 with (Z.ones 3). change 8 with (2 ^ 3).
  rewrite Z.land_ones by lia. split; [done|]. by rewrite !Z.mod_pow2_bits_low by lia.
Qed.

Definition required (mode : Z) : Z :=
  if has mode O_RDWR then Z.lor VFS_PERM_READ VFS_PERM_WRITE
  else if has mode O_WRONLY then VFS_PERM_WRITE else VFS_PERM_READ.

Lemma allowed_bits q mode :
  (Z.land (Z.land q 7) (required mode) =? required mode) =
  (negb (wants_read mode) || Z.testbit q 2) && (negb (wants_write mode) || Z.testbit q 1).
Proof.
  destruct (low_bits q) as (r & Hr & -> & -> & ->). unfold required, wants_read, wants_write.
  assert (r = 0 ∨ r = 1 ∨ r = 2 ∨ r = 3 ∨ r = 4 ∨ r = 5 ∨ r = 6 ∨ r = 7) as Hc by lia.
  destruct (has mode O_RDWR), (has mode O_WRONLY); decompose [or] Hc; by subst r.
Qed.

Section perm.
Context {S : Type} {KH : KHeap S}.
Implicit Types (s : fs S) (x mode : Z) (n : vfs_node) (p : process).

(** The nodes whose permission bits the code looks at. *)
Definition checked n : Prop := vn_type n ≠ VFS_CHARDEV ∧ vn_type n ≠ VFS_BLKDEV ∧ vn_type n ≠ VFS_DIR.

(** vfs_check_permission on a file, pipe or link answers VFS_OK exactly when
    the process is user 0 or the bits of its class (owner, else group, else
    others) permit everything the mode asks for, and -EACCES otherwise. *)
Theorem vfs_check_permission_correct s x n p mode :
  at_ s x = Some n → checked n → process_current (fs_glob s) = Some p →
  vfs_check_permission (Some x) mode s = Some (if permitted p n mode then VFS_OK else - EACCES, s).
Proof.
  intros Hx (H1 & H2 & H3) Hp.
  destruct (wp_elim (vfs_check_permission (Some x) mode)
    (λ r s', r = (if permitted p n mode then VFS_OK else - EACCES) ∧ s' = s) s) as (r & s' & Hrun & -> & ->); [|done].
  unfold vfs_check_permission, glob. wp_step. fs_step.
  rewrite (proj2 (Z.eqb_neq _ VFS_CHARDEV)), (proj2 (Z.eqb_neq _ VFS_BLKDEV)), (proj2 (Z.eqb_neq _ VFS_DIR)) by done.
  cbn [orb]. wp_step. wp_step. rewrite Hp. fold (required mode). unfold permitted, class_shift.
  destruct (p_euid p =? 0); [by apply wp_ret|]. cbn [orb].
  destruct (p_euid p =? vn_uid n); [|destruct (p_egid p =? vn_gid n)]; apply wp_ret; split; try done;
    rewrite allowed_bits; [by rewrite !Z.shiftr_spec, !(Z.add_comm _ 6) by lia|by rewrite !Z.shiftr_spec, !(Z.add_comm _ 3) by lia|done].
Qed.

End perm.
