(* ===== verification/FsDemo.v ===== *)
(** * An example: a kernel with a directory and an open file

    The theorems on files, directories and paths, applied to the state of a
    kernel that has been started, made a directory with a file in it and opened
    the file. *)

From stdpp Require Import strings.
From S2P Require Import Prelude DList Pmm PmmThm Frames Vmm VmmThm PageMap Slab KHeap CString FsObj FdTable.
From S2P Require Import Pipe Ramfs Vfs VfsFile FsInv FsBoot.
From S2P Require Import RamfsThm RamfsWrite VfsIO RamfsTree RamfsUnlink VfsLookup.

Section demo.
Context {S : Type} {KH : KHeap S} {KHL : KHeapLaws S}.
Implicit Types (s : fs S) (C : gmap Z Z) (H : blocks) (t root node file fd : Z) (n nd : vfs_node) (d : fd_table).

Definition notes : list Z := chars "notes".

Definition demo_file node : file := File (Some node) 0 O_RDWR 1 0.

(** A directory, a file in it, and a descriptor of the table [t] on the file. *)
Definition setup t : M (fs S) (option (Z * Z)) :=
  r ← ramfs_create_node [] VFS_DIR;
  match r with
  | None => mret None
  | Some root =>
      e ← ramfs_dir_create root notes VFS_FILE;
      if negb (e =? VFS_OK) then mret None
      else
        x ← child_named root notes;
        match x with
        | None => mret None
        | Some node =>
            c ← glob file_cache;
            r ← new_from c (demo_file node);
            match r with
            | None => mret None
            | Some file =>
                fd ← fd_table_alloc (Some t) (Some file) 0;
                mret (if (file =? 1) || (fd <? 0) then None else Some (root, fd))
            end
        end
  end.

Record opened s C H root nd node n file fd X : Prop := Opened {
  op_ok : fs_ok s C H;
  op_dir : dir_at s root nd [node];
  op_node : at_ s node = Some n ∧ vn_name n = notes ∧ vn_type n = VFS_FILE ∧ vn_ref_count n = 1;
  op_file : open_ramfs s fd file (demo_file node) node X 0 (λ _, 0) }.

(** The last steps: the file object and its descriptor. *)
Lemma setup_fd_wp s C H root nd node n X t d :
  fs_ok s C H → dir_at s root nd [node] → at_ s node = Some n →
  vn_name n = notes ∧ vn_type n = VFS_FILE ∧ vn_ref_count n = 1 → ramfs_file s node X 0 (λ _, 0) →
  current_table (fs_glob s) = Some t → at_ s t = Some d → table_ok d →
  wp (c ← glob file_cache;
      r ← new_from c (demo_file node);
      match r with
      | None => mret None
      | Some file =>
          fd ← fd_table_alloc (Some t) (Some file) 0;
          mret (if (file =? 1) || (fd <? 0) then None else Some (root, fd))
      end)
    (λ r s', ∀ root fd, r = Some (root, fd) → ∃ H' nd' node n' file X', opened s' C H' root nd' node n' file fd X') s.
Proof.
  intros Hok Hd Hn Hattr Hf Hct Ht Htab. unfold glob. wp_step. wp_step. wp_step.
  eapply new_from_wp; [exact Hok|apply Hok|by intros c Hc ->; right|by intros; apply wp_ret|].
  intros file s1 Hfile _ Hfresh Hok1 [Hm1 Hg1].
  assert (∀ y, is_Some (fs_mem s !! y) → fs_mem s1 !! y = fs_mem s !! y) as Hk.
  { intros y [o Hy]. rewrite Hm1. apply lookup_partial_alter_ne. intros <-. congruence. }
  assert (at_ s1 t = Some d) as Ht1.
  { rewrite <-Ht. apply at_mem, Hk. apply at_some in Ht. by eexists. }
  wp_step. eapply fd_table_alloc_wp; [exact Ht1|..].
  { intros _. apply wp_ret. by destruct (file =? 1). }
  intros fd _ _ Hfd. apply wp_ret. destruct (Z.eqb_spec file 1) as [|Hne1]; [done|]. cbn [orb].
  destruct (Z.ltb_spec fd 0) as [|Hfd0]; [done|]. intros ? ? [= <- <-].
  set (d' := put_entry d fd _). set (s2 := put_obj t d' s1).
  assert (∀ y o, y ≠ t → fs_mem s !! y = Some o → fs_mem s2 !! y = Some o) as Hk2.
  { intros y o Hy Ho. cbn. rewrite lookup_insert_ne by done. rewrite Hk; [done|by eexists]. }
  assert (∀ y m, at_ s y = Some (m : vfs_node) → at_ s2 y = Some m) as Hkn.
  { intros y m Hy. apply at_some, Hk2; [|by apply at_some]. by eapply (kinds_ne s y t m d). }
  assert (t ≠ file) as Htf by (intros ->; apply at_some in Ht; congruence).
  exists (<[file := (file_cache (fs_glob s), sizeof_file_t)]> H), nd, node, n, file, X. split.
  - by eapply fs_ok_put.
  - eapply dir_at_keep; [|done]. auto.
  - auto.
  - split; [|..|done|].
    + split_and!; [lia|rewrite (to_len _ Htab) in Hfd; lia|done|]. cbn [fs_glob s2 put_obj set_mem]. rewrite Hg1, Hct.
      exists d', (FdEntry (Some file) 0). split_and!; [apply at_put_eq| |done]. apply aget_aset_eq. lia.
    + unfold s2. rewrite at_put_ne by done. apply at_some. rewrite Hm1. apply lookup_partial_alter_eq.
    + eapply ramfs_file_frame; [|exact Hf]. intros y Hy.
      destruct Hf as (nd0 & data & arr & count & ptrs & Hnd & _ & _ & _ & -> & Hb & _).
      assert (∃ o, fs_mem s !! y = Some o ∧ y ≠ t) as (o & Ho & Hyt).
      { apply elem_of_cons in Hy as [->|Hy].
        - exists (ONode nd0). split; [by apply at_some in Hnd|]. by eapply (kinds_ne s node t nd0 d).
        - destruct (footprint_kind _ _ _ _ _ _ Hb Hy) as (o & Ho & Hdat). exists o. split; [done|].
          intros ->. apply at_some in Ht. rewrite Ht in Ho. by simplify_eq. }
      rewrite Ho. by apply Hk2.
Qed.

Lemma setup_wp s C H t d :
  fs_ok s C H → current_table (fs_glob s) = Some t → at_ s t = Some d → table_ok d →
  wp (setup t)
    (λ r s', ∀ root fd, r = Some (root, fd) → ∃ H' nd' node n' file X', opened s' C H' root nd' node n' file fd X') s.
Proof.
  intros Hok Hct Ht Htab. unfold setup. wp_step. eapply ramfs_create_node_wp; [done|by intros; apply wp_ret|].
  intros root n0 A s1 _ Hm Ha. pose proof (made_node _ _ _ _ _ _ Hm) as HA.
  assert (at_ s1 root = Some n0) as Hr by by eapply adds_at. assert (at_ s1 t = Some d) as Ht1 by by eapply adds_base.
  assert (dir_at s1 root n0 []) as Hd1.
  { destruct Hm as [_|data Hne]; [|done]. split; [done|done|done|done|constructor|apply not_elem_of_nil]. }
  wp_step. eapply ramfs_dir_create_wp; [apply Ha|exact Hd1|]. cbn [entry_named]. split; [by intros; apply wp_ret|].
  intros s2 node H2 n [Hfr Hok2 Hd2 (Hn2 & Hty & _ & _ & Hrc & _) [_ Hentry] Hlook _ Hframe Hglob].
  destruct (Hentry eq_refl) as [X Hf2]. change (negb (VFS_OK =? VFS_OK)) with false. cbv iota.
  wp_step. eapply child_named_wp; [exact Hd2|].
  assert (entry_named s2 [node] notes = Some node) as He.
  { rewrite Hlook. by rewrite decide_True. }
  rewrite He. apply entry_named_elem in He as [_ Hname]. unfold name_at in Hname. rewrite Hn2 in Hname.
  cbn in Hname. injection Hname as Hname. eapply setup_fd_wp; try done.
  - by rewrite Hglob, (ad_glob _ _ _ _ _ Ha).
  - apply at_some, Hframe; [|by apply at_some]. intros [->|?%not_elem_of_nil]%elem_of_cons; [|done].
    by eapply (kinds_ne s1 root root n0 d).
Qed.

End demo.

(** ** The state *)

Definition demo_root : Z := 0xFFFFFFFF88016D90.

Definition demo_files : fs kernel_heap := run_state (setup demo_table) demo_fs.

Lemma demo_files_run : setup demo_table demo_fs = Some (Some (demo_root, 0), demo_files).
Proof.
  unfold demo_files. refine (run_some (setup demo_table) (Some (demo_root, 0)) demo_fs _).
  vm_cast_no_check (eq_refl true).
Qed.

Lemma demo_current : current_table (fs_glob demo_fs) = Some demo_table.
Proof. vm_cast_no_check (eq_refl (Some demo_table)). Qed.

Lemma demo_opened : ∃ C H nd node n file X, opened demo_files C H demo_root nd node n file 0 X.
Proof.
  destruct demo_fs_ok as (C & H & Hok). exists C.
  refine (wp_at _ _ demo_fs _ _ (setup_wp demo_fs C H demo_table empty_table Hok demo_current demo_fs_table empty_table_ok)
    demo_files_run demo_root 0 eq_refl).
Qed.

Lemma demo_files_process : process_current (fs_glob demo_files) = Some demo_process.
Proof. vm_cast_no_check (eq_refl (Some demo_process)). Qed.

Lemma demo_file_modes node : readable (demo_file node) ∧ writable (demo_file node) ∧ write_pos (demo_file node) 0 = 0.
Proof. by split_and!. Qed.

Definition hello : list Z := chars "hello".

Lemma vfs_write_correct_witness :
  ∃ C file node X r s', vfs_write 0 (Some hello) demo_files = Some (r, s') ∧
    vfs_write_done demo_files C 0 file (demo_file node) node X 0 (λ _, 0) hello r s'.
Proof.
  destruct demo_opened as (C & H & nd & node & n & file & X & Hop). exists C, file, node, X.
  exact (vfs_write_correct (λ _, no_ops) (λ _, no_fs) demo_files C H 0 file (demo_file node) node X 0 (λ _, 0) hello
    (op_ok _ _ _ _ _ _ _ _ _ _ Hop) (op_file _ _ _ _ _ _ _ _ _ _ Hop) (proj1 (proj2 (demo_file_modes node)))
    ltac:(done) ltac:(done)).
Defined.

Lemma vfs_write_read_roundtrip_witness :
  ∃ r bytes s', write_then_read (λ _, no_ops) (λ _, no_fs) 0 0 hello demo_files = Some ((r, bytes), s') ∧
    ((0 ≤ r ≤ 5 ∧ (r = 0 → hello = []) ∧ bytes = take (Z.to_nat r) hello) ∨ (r = VFS_ENOMEM ∧ bytes = [])).
Proof.
  destruct demo_opened as (C & H & nd & node & n & file & X & Hop).
  exact (vfs_write_read_roundtrip (λ _, no_ops) (λ _, no_fs) demo_files C H 0 file (demo_file node) node X 0 (λ _, 0) hello
    (op_ok _ _ _ _ _ _ _ _ _ _ Hop) (op_file _ _ _ _ _ _ _ _ _ _ Hop) (proj1 (demo_file_modes node))
    (proj1 (proj2 (demo_file_modes node))) ltac:(done) ltac:(done) ltac:(done)).
Defined.

(** Reading: the file after [hello] was written, from its start. *)

Definition demo_after : fs kernel_heap := run_state (vfs_write 0 (Some hello)) demo_files.

Lemma demo_after_run : vfs_write 0 (Some hello) demo_files = Some (5, demo_after).
Proof.
  unfold demo_after. refine (run_some (vfs_write 0 (Some hello)) 5 demo_files _). vm_cast_no_check (eq_refl true).
Qed.

Lemma write_at_once {S : Type} {KH : KHeap S} {KHL : KHeapLaws S} (s : fs S) C fd file f node X g buf s' :
  0 < alen buf → write_pos f 0 = 0 → vfs_write_done s C fd file f node X 0 g buf (alen buf) s' →
  ∃ X', open_ramfs (put_obj file (set_f_offset 0 f) s') fd file (set_f_offset 0 f) node X' (alen buf) (written g 0 buf).
Proof.
  intros Hb Hp (m & H' & X' & Hr & _ & _ & Hop). rewrite Hp in Hop.
  assert (m = alen buf) as -> by (destruct Hr as [[? ?]|[[? ?]|[? ?]]]; unfold VFS_ENOMEM in *; lia).
  rewrite grown_size_ok, Z.max_r in Hop by lia. rewrite take_ge in Hop by (unfold alen; lia).
  exists X'. eapply (open_ramfs_put s') in Hop; [exact Hop|apply Hop].
Qed.

Lemma demo_after_open : ∃ file node X, let f := set_f_offset 0 (demo_file node) in
  open_ramfs (put_obj file f demo_after) 0 file f node X 5 (written (λ _, 0) 0 hello).
Proof.
  destruct demo_opened as (C & H & nd & node & n & file & X & Hop). exists file, node.
  refine (write_at_once demo_files C 0 file (demo_file node) node X (λ _, 0) hello demo_after ltac:(done) ltac:(done)
    (wp_at _ _ demo_files _ _ _ demo_after_run)).
  exact (vfs_write_wp (λ _, no_ops) (λ _, no_fs) demo_files C H 0 file (demo_file node) node X 0 (λ _, 0) hello
    (op_ok _ _ _ _ _ _ _ _ _ _ Hop) (op_file _ _ _ _ _ _ _ _ _ _ Hop) (proj1 (proj2 (demo_file_modes node)))
    ltac:(done) ltac:(done)).
Qed.

Lemma vfs_read_correct_witness :
  ∃ s file f, vfs_read 0 true 100 s = Some ((5, hello), put_obj file (set_f_offset 5 f) s).
Proof.
  destruct demo_after_open as (file & node & X & Hop). cbv zeta in Hop. eexists _, file, _.
  exact (vfs_read_correct (λ _, no_ops) (λ _, no_fs) _ 0 file _ node X 5 (written (λ _, 0) 0 hello) 100 Hop
    (proj1 (demo_file_modes node)) ltac:(done) ltac:(done) ltac:(done) ltac:(done)).
Defined.

(** Directories. *)

Lemma ramfs_dir_create_correct_witness :
  ∃ C H nd node r s', ramfs_dir_create demo_root (chars "todo") VFS_FILE demo_files = Some (r, s') ∧
    create_done demo_files C H demo_root nd [node] (chars "todo") VFS_FILE r s'.
Proof.
  destruct demo_opened as (C & H & nd & node & n & file & X & Hop). exists C, H, nd, node.
  exact (ramfs_dir_create_correct demo_files C H demo_root nd [node] (chars "todo") VFS_FILE
    (op_ok _ _ _ _ _ _ _ _ _ _ Hop) (op_dir _ _ _ _ _ _ _ _ _ _ Hop)).
Defined.

Lemma opened_data {S : Type} {KH : KHeap S} (s : fs S) C H root nd node n file fd X :
  opened s C H root nd node n file fd X → ∀ x m, entry_named s [node] notes = Some x → at_ s x = Some m →
  vn_type m ≠ VFS_DIR → (∃ Y, holds_data s m Y) ∧ 0 < vn_ref_count m < 2 ^ 32.
Proof.
  intros Hop x m Hx Hm _. apply entry_named_elem in Hx as [->%list_elem_of_singleton _].
  destruct (op_node _ _ _ _ _ _ _ _ _ _ Hop) as (Hn & _ & _ & Hr). rewrite Hn in Hm. injection Hm as <-.
  split; [|rewrite Hr; lia]. destruct (or_data _ _ _ _ _ _ _ _ (op_file _ _ _ _ _ _ _ _ _ _ Hop))
    as (n' & data & arr & count & ptrs & Hn' & _ & Hp & _ & _ & Hf & _).
  rewrite Hn in Hn'. injection Hn' as <-. by eexists _, data, arr, count, ptrs.
Qed.

Lemma ramfs_dir_unlink_correct_witness :
  ∃ C H nd node r s', ramfs_dir_unlink demo_root notes demo_files = Some (r, s') ∧
    unlink_done demo_files C H demo_root nd [node] notes r s'.
Proof.
  destruct demo_opened as (C & H & nd & node & n & file & X & Hop). exists C, H, nd, node.
  exact (ramfs_dir_unlink_correct demo_files C H demo_root nd [node] notes
    (op_ok _ _ _ _ _ _ _ _ _ _ Hop) (op_dir _ _ _ _ _ _ _ _ _ _ Hop) (opened_data _ _ _ _ _ _ _ _ _ _ Hop)).
Defined.

Lemma default_some {A} (d : A) (o : option A) : bool_decide (is_Some o) = true → o = Some (default d o).
Proof. by intros [x ->]%bool_decide_eq_true. Qed.

Lemma file_checked (n : vfs_node) : vn_type n = VFS_FILE → checked n.
Proof. unfold checked. intros ->. split_and!; intros Hk; discriminate Hk. Qed.

(** Permissions: user 1000 and the file of user 0 with mode 0755. *)

Definition demo_notes : Z := default 0 (default None (fst <$> child_named demo_root notes demo_files)).
Definition demo_notes_node : vfs_node := default empty_node (at_ demo_files demo_notes).

Lemma vfs_check_permission_correct_witness :
  vfs_check_permission (Some demo_notes) O_RDONLY demo_files = Some (VFS_OK, demo_files) ∧
  vfs_check_permission (Some demo_notes) O_RDWR demo_files = Some (- EACCES, demo_files).
Proof.
  assert (at_ demo_files demo_notes = Some demo_notes_node) as Hn
    by (refine (default_some empty_node (at_ demo_files demo_notes) _); vm_cast_no_check (eq_refl true)).
  assert ((vn_type demo_notes_node =? VFS_FILE) = true) as Ht by vm_cast_no_check (eq_refl true).
  assert (checked demo_notes_node) as Hc by exact (file_checked demo_notes_node (proj1 (Z.eqb_eq _ _) Ht)).
  assert (permitted demo_process demo_notes_node O_RDONLY = true) as E1 by vm_cast_no_check (eq_refl true).
  assert (permitted demo_process demo_notes_node O_RDWR = false) as E2 by vm_cast_no_check (eq_refl false).
  pose proof demo_files_process as Hp.
  split.
  - exact (eq_trans
      (vfs_check_permission_correct demo_files demo_notes demo_notes_node demo_process O_RDONLY Hn Hc Hp)
      (f_equal (λ b : bool, Some (if b then VFS_OK else - EACCES, demo_files)) E1)).
  - exact (eq_trans
      (vfs_check_permission_correct demo_files demo_notes demo_notes_node demo_process O_RDWR Hn Hc Hp)
      (f_equal (λ b : bool, Some (if b then VFS_OK else - EACCES, demo_files)) E2)).
Defined.

(** ** A mounted tree *)

Section check.
Context {S : Type} {KH : KHeap S}.
Implicit Types (s : fs S) (x : Z) (n : vfs_node).

Fixpoint dlsegb s (pr : option Z) (L : list Z) : bool :=
  match L with
  | [] => true
  | x :: L' => bool_decide (node_links s x = Some (pr, head L')) && dlsegb s (Some x) L'
  end.

Lemma dlsegb_sound s pr L : dlsegb s pr L = true → dlseg (node_links s) pr L None.
Proof.
  revert pr. induction L as [|x L IH]; intros pr; [done|]. cbn. rewrite andb_true_iff, bool_decide_eq_true, or_else_None.
  intros [Hx HL]. auto.
Qed.

Definition node_okb s x n : bool :=
  bool_decide (0 < vn_ref_count n < 2 ^ 32 - 2) &&
  match vn_parent n with Some p => bool_decide (is_Some (at_ (T := vfs_node) s p)) | None => true end &&
  (negb (vn_type n =? VFS_DIR) ||
   let L := children s n in
   bool_decide (vn_ops n = Some ramfs_dir_ops) && bool_decide (vn_children n = head L) &&
   bool_decide (NoDup L) && bool_decide (x ∉ L) && dlsegb s None L).

Definition tree_okb s : bool :=
  forallb (λ xo, match xo.2 with ONode n => node_okb s xo.1 n | _ => true end) (map_to_list (fs_mem s)).

Lemma tree_okb_sound s : tree_okb s = true → tree_ok s.
Proof.
  unfold tree_okb. rewrite forallb_forall. intros Hall.
  assert (∀ x n, at_ s x = Some n → node_okb s x n = true) as Hok.
  { intros x n Hx%at_some. apply (Hall (x, ONode n)). by apply list_elem_of_In, elem_of_map_to_list. }
  split; intros x n; [intros Hx Hd|intros p Hx Hp|intros Hx]; specialize (Hok x n Hx); unfold node_okb in Hok;
    apply andb_true_iff in Hok as [[Hr Hpar]%andb_true_iff Hdir].
  - rewrite Hd in Hdir. cbn [negb orb] in Hdir. change (VFS_DIR =? VFS_DIR) with true in Hdir. cbn in Hdir.
    rewrite !andb_true_iff, !bool_decide_eq_true in Hdir. destruct Hdir as [[[[H1 H2] H3] H4] H5].
    split; [done|]. exists (children s n). split; try done. by apply dlsegb_sound.
  - rewrite Hp in Hpar. apply bool_decide_eq_true in Hpar as [m Hm]. by exists m.
  - by apply bool_decide_eq_true in Hr.
Qed.

End check.

Definition demo_mount : M (fs kernel_heap) Z :=
  vfs_mount None (chars "/") (chars "ramfs") 0 ;;
  vfs_mkdir (Some (chars "/etc")) ;;
  vfs_open (Some (chars "/etc/motd")) (Z.lor O_CREAT O_RDONLY).

Definition demo_tree : fs kernel_heap := run_state demo_mount demo_fs.

Definition demo_mounted : Z := default 0 (vfs_root (fs_glob demo_tree)).
Definition demo_mounted_node : vfs_node := default empty_node (at_ demo_tree demo_mounted).
Definition demo_path : list Z := chars "/etc/..//etc/./motd".
Definition demo_motd : Z := default 0 (resolve demo_tree demo_mounted [chars "etc"; chars "motd"]).

Lemma vfs_lookup_correct_witness :
  vfs_lookup (Some demo_path) demo_tree = Some (Some demo_motd, refd demo_motd demo_tree) ∧ demo_motd ≠ 0.
Proof.
  assert (tree_ok demo_tree) as Ht by (refine (tree_okb_sound demo_tree _); vm_cast_no_check (eq_refl true)).
  assert (vfs_root (fs_glob demo_tree) = Some demo_mounted) as Hr
    by (refine (default_some 0 (vfs_root (fs_glob demo_tree)) _); vm_cast_no_check (eq_refl true)).
  assert (at_ demo_tree demo_mounted = Some demo_mounted_node) as Hn
    by (refine (default_some empty_node (at_ demo_tree demo_mounted) _); vm_cast_no_check (eq_refl true)).
  assert (short demo_path) as Hs by (unfold short; vm_compute; repeat constructor).
  assert (resolve demo_tree demo_mounted (components demo_path) = Some demo_motd) as E
    by (refine (proj1 (bool_decide_eq_true _) _); vm_cast_no_check (eq_refl true)).
  split; [|assert (bool_decide (demo_motd ≠ 0) = true) as Hm by vm_cast_no_check (eq_refl true);
    exact (proj1 (bool_decide_eq_true _) Hm)].
  pose proof (vfs_lookup_correct (λ _, no_ops) (λ _, no_fs) demo_tree demo_mounted demo_mounted_node demo_path Ht Hr Hn Hs) as Hl.
  cbv zeta in Hl. rewrite E in Hl. exact Hl.
Defined.

(** * Runs of the file system that go wrong

    What the functions of fs/vfs.c, fs/ramfs.c, fs/pipe.c and fs/fd_table.c do
    in cases their callers do not expect, as theorems about the model: runs
    that touch memory the kernel gave back or never had, and results that
    callers misread. *)

(** A kernel with a process of user 0, a mounted RAM file system, and
    descriptor 0 open on the new file /motd. *)
Definition superuser : process := Process 0 0 (Some demo_table) 1024.

Definition motd : option (list Z) := Some (chars "/motd").

Definition start : M (fs kernel_heap) Z :=
  boot ;; vfs_mount None (chars "/") (chars "ramfs") 0 ;; vfs_open motd (Z.lor O_CREAT O_RDWR).

Definition start_fs : fs kernel_heap :=
  Fs demo_heap ∅ (Globals None None None None None [] 0 None None [] true (Some superuser)).

Definition result_of {A} (c : M (fs kernel_heap) A) : option A := fst <$> (start ;; c) start_fs.

Lemma start_opens : fst <$> start start_fs = Some 0.
Proof. vm_cast_no_check (eq_refl (Some 0)). Qed.

(** vfs_close gives back the file although another descriptor refers to it: the
    next access through that one reads freed memory. *)
Lemma close_after_dup_faults : result_of (fd ← vfs_dup 0; vfs_close 0 ;; vfs_read fd true 1) = None.
Proof. vm_cast_no_check (eq_refl (@None (Z * list Z))). Qed.

Lemma read_after_dup : result_of (fd ← vfs_dup 0; vfs_read fd true 1) = Some (0, []).
Proof. vm_cast_no_check (eq_refl (Some (0, @nil Z))). Qed.

(** Shrinking a file that was grown by vfs_truncate sets block_count beyond the
    capacity of the array of blocks: the next read runs out of the array. *)
Lemma truncate_twice_faults :
  result_of (vfs_write 0 (Some hello) ;; vfs_truncate motd 100000 ;; vfs_truncate motd 90000 ;;
             vfs_seek 0 80000 SEEK_SET ;; vfs_read 0 true 1) = None.
Proof. vm_cast_no_check (eq_refl (@None (Z * list Z))). Qed.

(** The tail of the last block is not cleared when a file shrinks: growing it
    again shows the old bytes. *)
Lemma truncate_shows_old_bytes :
  result_of (vfs_write 0 (Some hello) ;; vfs_truncate motd 1 ;; vfs_truncate motd 5 ;;
             vfs_seek 0 0 SEEK_SET ;; vfs_read 0 true 5) = Some (5, hello).
Proof. vm_cast_no_check (eq_refl (Some (5, hello))). Qed.

(** A write of no bytes behind the end grows the file. *)
Lemma empty_write_grows :
  result_of (vfs_seek 0 100 SEEK_SET ;; vfs_write 0 (Some []) ;; vfs_seek 0 0 SEEK_END) = Some 100.
Proof. vm_cast_no_check (eq_refl (Some 100)). Qed.

Section general.
Context {S : Type} {KH : KHeap S} {DR : Drivers S}.
Implicit Types (s : fs S) (t f : Z) (d : fd_table) (p : process).

(** Without a descriptor table pipe_create reports +22, which its caller does not
    take for a failure. *)
Lemma pipe_create_positive_error s p :
  process_current (fs_glob s) = Some p → p_fd_table p = None → pipe_create s = Some ((22, None), s).
Proof. intros Hp Ht. unfold pipe_create, glob, gets, mbind at 1, M_bind. rewrite Hp. cbn. by rewrite Ht. Qed.

Lemma count_open_nonneg l : 0 ≤ count_open l.
Proof. induction l as [|e l IH]; [done|]. cbn. destruct (fe_file e); lia. Qed.

(** With the limit RLIM_INFINITY no descriptor can be allocated at all. *)
Lemma unlimited_process_has_no_descriptors s t d f flags p :
  at_ s t = Some d → process_current (fs_glob s) = Some p → p_rlimit_nofile p = 2 ^ 64 - 1 →
  fd_table_alloc (Some t) (Some f) flags s = Some (-1, s).
Proof.
  intros Ht Hp Hr.
  assert (over_limit (fs_glob s) d) as Hover.
  { exists p. split; [done|]. rewrite Hr. change (int32 (2 ^ 64 - 1)) with (-1).
    pose proof (count_open_nonneg (ft_entries d)). lia. }
  destruct (wp_elim (fd_table_alloc (Some t) (Some f) flags) (λ r s', r = -1 ∧ s' = s) s) as (r & s' & Hrun & -> & ->);
    [|done].
  by eapply fd_table_alloc_wp.
Qed.

End general.
